(* ===== verification/_CoqProject ===== *)
-Q . S2P
Prelude.v
Json.v
Schema.v
Store.v
Scope.v
Auth.v
Outbox.v
Idempotency.v
Sessions.v
SessionFacts.v
SessionProps.v
Listing.v
Delegations.v
ConstraintFacts.v
DelegationFacts.v
EdgeInv.v
RevokeFacts.v
DelegationProps.v
Services.v
Invocations.v
SessionReads.v
Frame.v
Sweepers.v
Retention.v
Streams.v
Publisher.v
System.v
Numbers.v
Revocation.v
InMemory.v
RedisStore.v
Identity.v
Jwks.v
Mandate.v
RedisConsumer.v
EndToEnd.v
JsonText.v
Text.v
Redact.v
Prog.v
AdminClient.v
Catalog.v
Reconcile.v
Dispatch.v
DispatchFacts.v
Paths.v
ControlKeys.v
ReconcileFacts.v
ControlAudit.v
Replay.v
ControlAuth.v
ControlHandler.v
OperatorRuns.v
AdminAudit.v
Envelope.v
AuditHooks.v
CoordinatorAudit.v
AuditClient.v
OAuth.v
SdkClient.v
SdkSessions.v
Governed.v
ExecutionFacts.v
OperatorCatalog.v
ControlTable.v
CapabilityFacts.v
OperatorPreview.v
PlanLedger.v
MessageRuns.v
ApiAuth.v
Approvals.v
Rego.v
ApiOutbox.v
PolicySets.v
LedgerFacts.v
Scenario.v
Witnesses.v
ResourceWitnesses.v
ControlWitnesses.v
OperatorWitnesses.v
