(* ===== verification/Prelude.v ===== *)
(** * Verification of Caracal

    Caracal governs what agents and applications may do: a coordinator keeps Sessions and
    the delegations between them, a token service issues mandates for them, resource
    servers verify the mandates and refuse revoked ones, and a control plane administers
    zones, applications, resources and policies.  This library models the TypeScript code
    of that system as executable definitions and proves what makes it correct.

    ** The parts and how they interact

    - The coordinator ([apps/coordinator]) serves requests over a PostgreSQL database and
      runs periodic jobs.  A handler runs in a transaction that reads and writes tables
      and appends events to an outbox in the same transaction.  A publisher moves outbox
      rows to Redis streams, signed; a relay reads one of the streams back.
    - A resource server uses [packages/verify] and [packages/identity] to verify a
      mandate under the issuer's key set and to consult a revocation store
      ([packages/revocation], [packages/backends/redis]), which stream consumers fill from
      the events the coordinator published.
    - The control surface of the API ([apps/api/src/control]) authenticates a control
      token, admits it once, and dispatches a management command
      ([packages/engine]), which is carried out through the admin client
      ([packages/admin]) against the API and the coordinator.
    - The Operator of the API ([apps/api/src/operator-*]) turns a proposed plan into
      governed changes: the plan is validated against a catalog of capabilities, previewed,
      approved in a conversation by a person or the autopilot, and its steps are sent to the
      control surface under a lease.  Its runs are limited per actor and follow a state
      machine.
    - The API admits its callers by admin tokens and account assertions, keeps policies,
      policy sets, delegated grants and approval holds, and announces every change of
      authority through an outbox of its own that dispatchers drain to the streams.
    - Every administrative action of the API and of the coordinator is recorded in a
      signed chain per zone ([packages/adminAudit]) before its success is reported;
      services send their own events with an audit client ([packages/core]).
    - Applications obtain mandates with a token client ([packages/oauth]), run their work in
      governed Sessions, send requests through the Gateway and pass their context to other
      services in an envelope of headers ([packages/sdk]).

    ** Which file models what

    Shared:
    - [Prelude] (this file): automation, hint databases, lemmas on lists, options,
      insertion-ordered objects.  [Json]: JSON values, canonical JSON, ISO dates.
      [Numbers]: doubles as the code meets them.  [JsonText]: [JSON.parse],
      [JSON.stringify] and [String].  [Text]: string and regular-expression operations.
      [Scope]: [packages/core/ts/src/scope.ts].  [Prog]: programs that call out, their
      runs, monitors and histories.

    The coordinator ([apps/coordinator/src]):
    - [Schema], [Store]: the tables and the transaction monad [Tx] over them.
    - [Auth]: [auth.ts].  [Outbox]: [outbox.ts], [delegationEpochs.ts].
      [Idempotency]: [idempotency.ts].  [Sessions], [SessionReads], [Listing]:
      [routes/agents.ts].  [Delegations]: [routes/delegations.ts].  [Services]:
      [routes/agent-services.ts].  [Invocations]: [routes/invocations.ts].
      [Sweepers]: [jobs/ttl-sweeper.ts], [jobs/service-lease-sweeper.ts],
      [jobs/deadline-enforcer.ts].  [Retention]: [jobs/retention-cleaner.ts].
      [Publisher]: [jobs/outbox-publisher.ts], [routes/outbox.ts].  [Streams]:
      [jobs/lifecycle-relay.ts] and [packages/core/ts/src/crypto.ts].
    - [System]: all of them as steps on one database, with the invariant every reachable
      database satisfies.

    The resource server:
    - [Revocation]: the store interface as a class with an abstract specification.
      [InMemory], [RedisStore]: its two implementations.  [RedisConsumer]: the stream
      consumers.  [Identity], [Jwks]: [packages/identity].  [Mandate]: [packages/verify].
      [EndToEnd]: from the coordinator's outbox row to the refused mandate.

    The control plane:
    - [Redact]: [packages/core/ts/src/logging.ts].  [AdminClient]:
      [packages/admin/ts/src/client.ts].  [Catalog], [Dispatch], [Reconcile]:
      [packages/engine/src/commands.ts], [dispatch.ts], [reconcile.ts].
    - [ControlAudit] (with the modules [RateLimiter] and [ControlCalls]), [Replay], [ControlAuth],
      [ControlHandler]: [apps/api/src/control] ([handler.ts], [gate.ts], [audit.ts],
      [replay.ts], [auth.ts], [ratelimit.ts]).

    The API ([apps/api/src]):
    - [ApiAuth] (modules [ApiAuth], [AuthCaches], [AuthFacts]): [auth.ts],
      [reserved-namespace.ts], [zone-context.ts], [routes/admin-tokens.ts], the seeding order
      of [main.ts], and [consoleToken.ts] and [accountAssertion.ts] of
      [packages/serverCore/ts/src].
    - [Approvals] (modules [ApiTx], [Approvals], [Grants]): [db.ts] ([withTransaction]),
      [routes/approvals.ts] with the statements of [services/sts/internal/db.go] on the same
      rows, [routes/params.ts], [routes/grants.ts].
    - [Rego] (modules [Regex], [Rego]): [rego.ts] and the regular expressions it uses.
      [PolicySets]: [routes/policies.ts], [routes/policy-sets.ts].  [ApiOutbox]:
      [outbox.ts].

    The Operator, the audit trails and the client packages:
    - [OperatorRuns] ([MessageRun], [RunLimiter], [ExecutionLease]):
      [apps/api/src/operator-message-state.ts],
      [operator-run-limiter.ts], [operator-execution-lease.ts].  [MessageRuns]: the durable
      message runs of [routes/operator.ts] and [jobs/message-runs-reaper.ts].
    - [Governed] (modules [Plans], [Governed]): the plan validator of
      [operator-capabilities.ts] with [operator-authority.ts], and
      [operator-governed-execute.ts].  [OperatorCatalog] (with the module [ProviderConfig]): the catalog of
      [operator-capabilities.ts], [provider-config.ts] and the credential rules of
      [operator-plan-secrets.ts].  [ControlTable]: [operator-control-map.ts].
      [OperatorPreview]: [operator-preview.ts].
    - [PlanLedger]: the plan lifecycle of [routes/operator.ts] for one conversation, with
      [operator-autopilot.ts] and the vault of [operator-plan-secrets.ts].  [LedgerFacts]:
      its handlers and executions interleaved.  [CapabilityFacts]: the catalog and the
      control map against the dispatcher.
    - [AdminAudit]: [packages/adminAudit/ts/src/index.ts].  [AuditHooks],
      [CoordinatorAudit]: [admin-audit.ts] of the API and of the coordinator.
      [AuditClient]: [packages/core/ts/src/audit.ts].
    - [OAuth]: [packages/oauth/ts/src].  [Envelope]: [packages/sdk/ts/src/envelope.ts],
      [context.ts].  [SdkClient] (modules [GatewayTransport], [Provisioning], [AppAuthorities],
      [Inbound]): [client.ts] of the same package.  [SdkSessions] (modules [CoordinatorCalls],
      [SdkSessions], [LeaseHandle]): its [coordinator.ts] and [primitives.ts].

    A file [XFacts] or [XProps] holds the theorems on [X]; [Scenario] (with the limits of the
    coordinator's guarantees) and the files
    [Witnesses], [ResourceWitnesses], [ControlWitnesses] and [OperatorWitnesses] apply
    them to concrete runs.

    State and operations keep the names of the code.  A table is a finite map from its
    key to a row; a JavaScript [Map] or object whose order shows is an association list
    in insertion order; code between two awaits is one step.

    ** What the theorems show

    - Coordinator: every reachable database satisfies its invariant ([System]); each
      handler on every branch, errors included; delegations only narrow authority, and
      revoking or terminating reaches everything below; idempotency keys replay; sweeps,
      retention and publishing settle what they claim and nothing else; listings are
      complete and isolated by zone.
    - Resource server: both stores refine the abstract store whatever commands are lost,
      the redis store for the ids whose keys are not those of its epochs ([covers]);
      verification enforces its configuration; consumers acknowledge only what they
      applied; a published revocation stops the mandates it names until its mark lapses,
      unless a later write gives the same anchor a shorter lifetime ([later_run]).
    - Control plane: a management call reaches the Admin API only after every check, in
      the caller's zone and under the caller's scopes; control keys are out of its reach.
      The client splices identifiers into paths unencoded; [Paths] resolves the paths and
      shows that requests with plain identifiers arrive where the operation says, and that
      others need not.  Plans change nothing; pruning spares what is declared; a token is
      used once; the client sends a change at most once and lists collections completely.
    - Operator: validation throws exactly for the inherited names a plan may hold and
      otherwise accepts only plans that can be ordered; a step is sent at most
      once, in order, a write only under a confirmed lease, and no write of unknown
      outcome is hidden ([ExecutionFacts]); no more runs than slots hold a lease; the
      lease guard fails closed; runs move along their diagram.  Every capability is one
      command under exactly the scope it needs and can do no more than its catalog entry
      says; plans hold no credentials ([CapabilityFacts]); previews tell what can apply.
      In a conversation a plan is decided once, only approved plans execute, and the
      autopilot keeps to its budget.  The lock of an execution is a lease, and losing it
      and leaving a result unrecorded are steps of the model: no write is sent again once
      it may have been applied in the histories in which neither happens ([LedgerFacts]).
    - API: a caller acts only as the token it presented and within its capability, zone and
      account; a revoked token outlives its row by the cache time at most; message runs are
      what their event logs replay to; holds are decided once, and the text of the queued
      event states the decision; revoking a grant reaches the authority records nobody else
      holds at its last page, whatever others commit between its pages, and is answered
      before its commit; an accepted policy is a data document; a zone is governed by at most
      one version, made of valid policies of that zone, and the last event on its stream says
      which; the outbox loses no event and sends each at most once per attempt.
    - Audit: the digests of a chain stay linked under any interleaving, and who lacks the key
      can only cut a signed chain of digests short.  A row holds its columns, with the
      payload as [jsonb] keeps it, so the digest taken again of a stored row is the carried
      one only for payloads whose keys come back in order ([stable]).  A success is reported
      only once recorded, records hold no values; the audit client accounts for every event
      it took on.
    - Clients: a token is only handed to a caller whose request shares the key of the one it
      was minted for, and the same form when the keys tell the requests apart
      ([told_apart]); an envelope whose keys and members fit the header survives its trip
      ([portable]); bearers only go to the Gateway, for URLs whose path begins with a slash
      and bindings that end with a segment; a function runs in the Session and under the
      delegation made for it, and the Session is terminated on every way out; cached
      authorities are served only to the identity and for the slice they were provisioned
      for, when names are free of the separator of the keys; a lease is renewed until it is
      given up or lost, and its loss is reported once.

    Where a condition is needed, an example next to the theorem or among the witnesses shows
    what happens without it.

    ** Bounds and fuel

    Recursion over data that can be cyclic or that a server sends takes fuel, and each
    use says why it is enough: the Session tree has fuel for every row and the maximal
    depth; delegation paths for [MAX_DEPTH + 1] edges, which is where the query stops;
    following pages for one more than the rows; replaying pending entries for one more
    than remain (the theorems show termination); the JSON parser for one more than the
    length of its text; the PEM scan for twice its length plus two; the client for its
    fifty pages; a repetition of a regular expression for one more than the text left
    ([run_complete]); the pages of a revocation for one more than the records of the user, counting those others
    change meanwhile ([grant_revocation] shows the end); a tick of the dispatcher for two statements per claim
    and one more ([tick_drains]); starting a Session for four requests ([rounds_enough]).

    Strings are UTF-8 bytes and lengths count UTF-16 units where the code does; the code
    sorts keys by UTF-16 units, which agrees with byte order below the surrogates.  Times
    are microseconds in the coordinator and in the resource server, milliseconds where
    the code uses them; epochs and expiries are integers.  The arithmetic of the token
    bucket and of fractional expiries is exact.

    ** Parameters

    Code outside the repository is a parameter with its documented behaviour as a class
    of laws, and a witness instantiates it: [jose] (verification and key sets), Redis
    commands ([Redis], [StreamServer], [ClaimStore], [SortedSets]), [fetch] and [URL],
    SHA-256 and HMAC ([Digests]), token hashes and base64url ([TokenCrypto]), the answers of
    the STS runtime to a policy bundle, schema parsing ([Zod]), UUIDs, base64url, the messages of
    the engine's own errors.  A network call is delivered, lost on the way or lost on the
    way back.

    ** Not modelled

    Process start-up, timers, logging, metrics and connection pools are I/O.  The web
    console, the command line and the local stack orchestration ([apps/web],
    [apps/runtime], the docker parts of [packages/engine]) are user interface and glue
    over files and processes.  Prompts and calls to language models of the operator
    agents have no behaviour of their own to verify.  The services written in Go are not
    part of this model, except for the statements on approval holds.  The remaining routes of
    the API (zones, applications, resources, providers, Subjects, event streams) write rows
    as they are given them; the message route of the Operator and its agents consist of calls
    to language models; the console's sign-in configures an authentication library that is
    not in the repository; the rest of the SDK client reads profiles, files and the
    environment and wraps the token client, which is modelled. *)

From stdpp Require Export base tactics list option gmap strings fin_maps sets sorting pretty.
From stdpp Require Export relations.

(** ** Automation *)

(** Facts that close the routine side conditions of the development. *)
Create HintDb caracal.
Create Rewrite HintDb caracal.

(** Splits conjunctions and existentials in the context and rewrites the
    boolean connectives of the code into propositions. *)
Ltac bool_props :=
  repeat match goal with
  | H : andb _ _ = true |- _ => apply andb_true_iff in H; destruct H
  | H : orb _ _ = false |- _ => apply orb_false_iff in H; destruct H
  | H : negb _ = true |- _ => apply negb_true_iff in H
  | H : negb _ = false |- _ => apply negb_false_iff in H
  | H : bool_decide _ = true |- _ => apply bool_decide_eq_true_1 in H
  | H : bool_decide _ = false |- _ => apply bool_decide_eq_false_1 in H
  | H : Z.ltb _ _ = true |- _ => apply Z.ltb_lt in H
  | H : Z.ltb _ _ = false |- _ => apply Z.ltb_ge in H
  | H : Z.leb _ _ = true |- _ => apply Z.leb_le in H
  | H : Z.leb _ _ = false |- _ => apply Z.leb_gt in H
  end.

(** ** JavaScript values used by several components *)

(** [a ?? b] on a value that may be [undefined] or [null]. *)
Definition default_to {A : Type} (d : A) (o : option A) : A :=
  match o with Some a => a | None => d end.

(** [new Set(xs)] spread back into an array: distinct, in insertion order. *)
Definition distinct {A : Type} `{EqDecision A} (xs : list A) : list A :=
  reverse (foldl (fun acc x => if bool_decide (x ∈ acc) then acc else x :: acc) [] xs).

(** [xs.find(p)]: the first element that satisfies [p]. *)
Definition find_first {A : Type} (p : A -> bool) (xs : list A) : option A :=
  head (filter (fun x => p x = true) xs).

(** [Map.set] on an insertion-ordered map: an existing key keeps its place. *)
Fixpoint ordered_set {A : Type} (k : string) (v : A) (m : list (string * A)) : list (string * A) :=
  match m with
  | [] => [(k, v)]
  | (k', v') :: rest =>
      if bool_decide (k' = k) then (k, v) :: rest else (k', v') :: ordered_set k v rest
  end.

(** [Map.get] / property access on an insertion-ordered map. *)
Fixpoint ordered_get {A : Type} (k : string) (m : list (string * A)) : option A :=
  match m with
  | [] => None
  | (k', v') :: rest => if bool_decide (k' = k) then Some v' else ordered_get k rest
  end.

(** ** Recursive common table expressions

    [WITH RECURSIVE t AS (base UNION ALL step)] collects the base rows and,
    round by round, the rows the join produces from the previous round, until
    a round is empty.  [None] stands for a query that has not finished after
    [fuel] rounds, which the database ends with a statement timeout. *)
Fixpoint cte {A : Type} (step : A -> list A) (fuel : nat) (frontier : list A) : option (list A) :=
  match frontier with
  | [] => Some []
  | _ :: _ =>
      match fuel with
      | O => None
      | S n =>
          match cte step n (frontier ≫= step) with
          | Some rest => Some (frontier ++ rest)
          | None => None
          end
      end
  end.

Section cte.
Context {A : Type} (step : A -> list A).

(** The join as a relation on rows. *)
Definition cte_rel (x y : A) : Prop := y ∈ step x.

(** A finished query returns exactly the rows that the join reaches from the
    base rows. *)
Lemma cte_spec (fuel : nat) (frontier rows : list A) :
  cte step fuel frontier = Some rows ->
  forall x, x ∈ rows <-> exists r, r ∈ frontier /\ rtc cte_rel r x.
Proof.
  revert frontier rows. induction fuel as [|n IH]; intros frontier rows Hc x.
  - destruct frontier; simplify_eq/=. set_solver.
  - destruct frontier as [|y ys]; [simplify_eq/=; set_solver|].
    remember (y :: ys) as fr eqn:Hfr.
    assert (exists rest, cte step n (fr ≫= step) = Some rest /\ rows = fr ++ rest)
      as (rest & Hrest & ->).
    { subst fr. simpl in Hc. case_match; simplify_eq. eauto. }
    rewrite elem_of_app, (IH _ _ Hrest). split.
    + intros [Hx|(r & Hr & Hrx)]; [by exists x|].
      apply list_elem_of_bind in Hr as (r0 & Hr & Hr0). exists r0.
      split; [done|]. by eapply rtc_l.
    + intros (r & Hr & Hrx). inversion Hrx as [|? z ? Hz Hzx]; subst; [by left|].
      right. exists z. split; [|done]. apply list_elem_of_bind. eauto.
Qed.

(** The query finishes when the join increases a rank that is bounded on the
    rows it can reach. *)
Lemma cte_terminates (P : A -> Prop) (rank : A -> nat) (bound fuel : nat) (frontier : list A) :
  (forall x y, P x -> y ∈ step x -> P y /\ (rank x < rank y)%nat) ->
  (forall x, P x -> (rank x <= bound)%nat) ->
  (forall x, x ∈ frontier -> P x /\ (bound < rank x + fuel)%nat) ->
  is_Some (cte step fuel frontier).
Proof.
  intros Hstep Hb. revert frontier. induction fuel as [|n IH]; intros frontier Hf.
  - destruct frontier as [|y ys]; [by eexists|].
    destruct (Hf y) as [HP Hlt]; [set_solver|]. specialize (Hb y HP). lia.
  - destruct frontier as [|y ys]; [by eexists|]. simpl.
    destruct (IH ((y :: ys) ≫= step)) as [rest Hrest].
    { intros x Hx. apply list_elem_of_bind in Hx as (z & Hzx & Hz).
      destruct (Hf z Hz) as [HPz Hlt]. destruct (Hstep z x HPz Hzx). split; [done|lia]. }
    simpl in Hrest. rewrite Hrest. by eexists.
Qed.
End cte.

(** ** Lemmas on the shared definitions *)

Lemma find_first_Some {A : Type} (p : A -> bool) (xs : list A) (x : A) :
  find_first p xs = Some x -> x ∈ xs /\ p x = true.
Proof.
  unfold find_first. intros H.
  assert (x ∈ filter (fun y => p y = true) xs) as Hx.
  { destruct (filter _ _) eqn:E; simplify_eq/=. set_solver. }
  apply list_elem_of_filter in Hx. tauto.
Qed.

Lemma find_first_None {A : Type} (p : A -> bool) (xs : list A) :
  find_first p xs = None -> forall x, x ∈ xs -> p x = false.
Proof.
  unfold find_first. intros H x Hx. destruct (p x) eqn:E; [|done].
  assert (x ∈ filter (fun y => p y = true) xs) as Hf by by apply list_elem_of_filter.
  destruct (filter _ _) eqn:E'; simplify_eq/=. set_solver.
Qed.

Lemma find_first_None_2 {A : Type} (p : A -> bool) (xs : list A) :
  (forall x, x ∈ xs -> p x = false) -> find_first p xs = None.
Proof.
  intros Hp. destruct (find_first p xs) as [x|] eqn:E; [|done].
  apply find_first_Some in E as [Hx Hpx]. rewrite (Hp x Hx) in Hpx. done.
Qed.

Lemma elem_of_distinct {A : Type} `{EqDecision A} (xs : list A) (x : A) :
  x ∈ distinct xs <-> x ∈ xs.
Proof.
  unfold distinct. rewrite elem_of_reverse.
  enough (forall acc, x ∈ foldl (fun acc x => if bool_decide (x ∈ acc) then acc else x :: acc) acc xs
                      <-> x ∈ acc \/ x ∈ xs) as Hgen by (rewrite Hgen; set_solver).
  induction xs as [|y ys IH]; intros acc; simpl; [set_solver|].
  rewrite IH. case_bool_decide; set_solver.
Qed.

Lemma NoDup_distinct {A : Type} `{EqDecision A} (xs : list A) : NoDup (distinct xs).
Proof.
  unfold distinct. rewrite reverse_Permutation.
  enough (forall acc, NoDup acc ->
    NoDup (foldl (fun acc x => if bool_decide (x ∈ acc) then acc else x :: acc) acc xs)) as Hgen
    by (apply Hgen; constructor).
  induction xs as [|y ys IH]; intros acc Hacc; simpl; [done|].
  apply IH. case_bool_decide; [done|]. by constructor.
Qed.

Lemma ordered_get_set {A : Type} (k k' : string) (v : A) (m : list (string * A)) :
  ordered_get k' (ordered_set k v m) = if bool_decide (k = k') then Some v else ordered_get k' m.
Proof.
  induction m as [|[k0 v0] m IH]; simpl; [done|].
  destruct (bool_decide_reflect (k0 = k)) as [->|Hne]; simpl.
  - by destruct (bool_decide (k = k')).
  - rewrite IH. destruct (bool_decide_reflect (k0 = k')), (bool_decide_reflect (k = k')); congruence.
Qed.

#[export] Hint Resolve NoDup_distinct : caracal.
#[export] Hint Rewrite @elem_of_distinct : caracal.

Lemma string_app_inj (p a b : string) : String.append p a = String.append p b -> a = b.
Proof. induction p as [|c p IH]; cbn; [done|]. intros [= He]. by apply IH. Qed.

Lemma string_app_nil_r (s : string) : String.append s EmptyString = s.
Proof. induction s as [|c s IH]; [done|]. exact (f_equal (String c) IH). Qed.

Lemma string_app_assoc (a b c : string) :
  String.append (String.append a b) c = String.append a (String.append b c).
Proof. induction a as [|x a IH]; [done|]. exact (f_equal (String x) IH). Qed.

(** Filtering keeps the keys of an association list distinct. *)
Lemma NoDup_fst_filter {A B : Type} (P : A * B -> Prop) `{forall x, Decision (P x)} (l : list (A * B)) :
  NoDup l.*1 -> NoDup (filter P l).*1.
Proof.
  induction l as [|[k r] l IH]; [constructor|].
  intros [Hk Hnd]%NoDup_cons. rewrite filter_cons. case_decide; [|by apply IH].
  rewrite fmap_cons. apply NoDup_cons. split; [|by apply IH].
  intros Hin. apply Hk. apply list_elem_of_fmap in Hin as (kr & -> & Hkr).
  apply list_elem_of_filter in Hkr as [_ Hkr]. apply list_elem_of_fmap. eauto.
Qed.

(** ** Insertion-ordered maps *)

Lemma ordered_set_other {A : Type} k (v : A) m k' v' :
  k' <> k -> (k', v') ∈ ordered_set k v m <-> (k', v') ∈ m.
Proof.
  intros Hne. induction m as [|[k0 v0] m IH]; cbn.
  - rewrite list_elem_of_singleton. set_solver.
  - case_bool_decide; subst; set_solver.
Qed.

Lemma ordered_set_same {A : Type} k (v : A) m v' :
  NoDup m.*1 -> (k, v') ∈ ordered_set k v m -> v' = v.
Proof.
  induction m as [|[k0 v0] m IH]; cbn; intros Hnd.
  - set_solver.
  - apply NoDup_cons in Hnd as [Hk0 Hnd]. case_bool_decide as Hk; subst.
    + intros [?|Hin]%elem_of_cons; [by simplify_eq|]. destruct Hk0. apply list_elem_of_fmap. by exists (k, v').
    + intros [?|Hin]%elem_of_cons; [by simplify_eq|]. auto.
Qed.

Lemma ordered_set_has {A : Type} k (v : A) m : (k, v) ∈ ordered_set k v m.
Proof. induction m as [|[k0 v0] m IH]; cbn; [set_solver|]. case_bool_decide; set_solver. Qed.

Lemma ordered_set_keys {A : Type} k (v : A) m : NoDup m.*1 -> NoDup (ordered_set k v m).*1.
Proof.
  induction m as [|[k0 v0] m IH]; cbn; intros Hnd; [by apply NoDup_singleton|].
  apply NoDup_cons in Hnd as [Hk0 Hnd]. case_bool_decide as Hk; cbn; apply NoDup_cons; [by subst|]. split; [|auto].
  intros ([k1 v1] & -> & Hin)%list_elem_of_fmap. cbn in *. apply ordered_set_other in Hin; [|done].
  apply Hk0, list_elem_of_fmap. by exists (k1, v1).
Qed.

Lemma ordered_get_elem {A : Type} k (m : list (string * A)) v : ordered_get k m = Some v -> (k, v) ∈ m.
Proof.
  induction m as [|[k0 v0] m IH]; cbn; [done|]. case_bool_decide; intros; simplify_eq; set_solver.
Qed.

Lemma ordered_get_none {A : Type} k (m : list (string * A)) v : ordered_get k m = None -> (k, v) ∉ m.
Proof.
  induction m as [|[k0 v0] m IH]; cbn; [set_solver|]. case_bool_decide as Hk; [done|]. intros Hn [?|?]%elem_of_cons; [|by apply IH].
  by simplify_eq.
Qed.

Lemma ordered_get_nodup {A : Type} k (m : list (string * A)) v v' :
  NoDup m.*1 -> (k, v) ∈ m -> (k, v') ∈ m -> v = v'.
Proof.
  induction m as [|[k0 v0] m IH]; cbn; intros Hnd Hv Hv'; [set_solver|]. apply NoDup_cons in Hnd as [Hk0 Hnd].
  assert (forall u, (k, u) ∈ m -> k ∈ m.*1) as Hkey by (intros u Hu; apply list_elem_of_fmap; by exists (k, u)).
  apply elem_of_cons in Hv as [?|Hv]; apply elem_of_cons in Hv' as [?|Hv']; simplify_eq; eauto; destruct Hk0; eauto.
Qed.

Lemma ordered_set_keys_iff {A : Type} k (v : A) m k' : k' ∈ (ordered_set k v m).*1 <-> k' = k \/ k' ∈ m.*1.
Proof.
  induction m as [|[k0 v0] m IH]; cbn; [set_solver|]. case_bool_decide as Hk; cbn; [set_solver|]. rewrite !elem_of_cons, IH. set_solver.
Qed.

(** Setting a fresh key appends. *)
Lemma ordered_set_fresh {A : Type} k (v : A) m : k ∉ m.*1 -> ordered_set k v m = m ++ [(k, v)].
Proof.
  induction m as [|[k0 v0] m IH]; cbn; [done|]. rewrite not_elem_of_cons. intros [Hne Hk].
  rewrite bool_decide_eq_false_2 by done. by rewrite IH.
Qed.
