(* ===== verification/Json.v ===== *)
(** * JSON values, canonical serialisation and timestamps

    The JavaScript values that cross the coordinator's HTTP and JSONB
    boundaries, [canonicalJson] of [apps/coordinator/src/idempotency.ts] with the
    part of [JSON.stringify] it uses, and [Date.prototype.toISOString], which the
    outbox keys of repeatable transitions embed. *)

From Stdlib Require Import Ascii.
From Stdlib Require String.
From S2P Require Import Prelude.
Local Open Scope string_scope.
Local Open Scope Z_scope.

(** A JavaScript value as [canonicalJson] receives it.  Integral numbers are
    [JNum]; any other finite number is [JDec] with the text [JSON.stringify] prints
    for it. *)
Inductive json :=
| JUndefined
| JNull
| JBool (b : bool)
| JNum (n : Z)
| JDec (literal : string)
| JNonFinite
| JStr (s : string)
| JArr (xs : list json)
| JObj (fields : list (string * json)).

(** Property access [value.key]: absent is [undefined]. *)
Definition json_get (k : string) (v : json) : json :=
  match v with
  | JObj fields => default_to JUndefined (ordered_get k fields)
  | _ => JUndefined
  end.

(** Object spread [{ ...a, ...b }]. *)
Definition spread (a b : list (string * json)) : list (string * json) :=
  foldl (fun acc kv => ordered_set kv.1 kv.2 acc) a b.

(** A column that may be SQL [NULL]. *)
Definition JOpt {A : Type} (f : A -> json) (o : option A) : json :=
  match o with Some a => f a | None => JNull end.

Definition JStrs (xs : list string) : json := JArr (JStr <$> xs).

(** ** Strings *)

Fixpoint string_concat (sep : string) (xs : list string) : string :=
  match xs with
  | [] => ""
  | [x] => x
  | x :: rest => x +:+ sep +:+ string_concat sep rest
  end.

Definition hex_digit (n : nat) : string :=
  match String.get n "0123456789abcdef" with
  | Some c => String.String c ""
  | None => ""
  end.

(** [JSON.stringify] of one character inside a string literal. *)
Definition escape_char (c : ascii) : string :=
  let n := nat_of_ascii c in
  if bool_decide (n = 34)%nat then "\" +:+ String.String c ""
  else if bool_decide (n = 92)%nat then "\\"
  else if bool_decide (n = 8)%nat then "\b"
  else if bool_decide (n = 9)%nat then "\t"
  else if bool_decide (n = 10)%nat then "\n"
  else if bool_decide (n = 12)%nat then "\f"
  else if bool_decide (n = 13)%nat then "\r"
  else if bool_decide (n < 32)%nat then "\u00" +:+ hex_digit (n / 16) +:+ hex_digit (n `mod` 16)
  else String.String c "".

Fixpoint escape_string (s : string) : string :=
  match s with
  | String.EmptyString => ""
  | String.String c rest => escape_char c +:+ escape_string rest
  end.

Definition quote : string := String.String (ascii_of_nat 34) "".

(** [JSON.stringify] of a string. *)
Definition stringify_string (s : string) : string := quote +:+ escape_string s +:+ quote.

(** [Array.prototype.sort] on strings. *)
Definition string_le (a b : string) : Prop := String.leb a b = true.

#[export] Instance string_le_dec : RelDecision string_le.
Proof. intros a b. unfold string_le. apply _. Defined.

Definition sort_strings (xs : list string) : list string := merge_sort string_le xs.

Definition key_le {A : Type} (a b : string * A) : Prop := string_le a.1 b.1.

#[export] Instance key_le_dec {A : Type} : RelDecision (@key_le A).
Proof. intros a b. unfold key_le. apply _. Defined.

(** [canonicalJson]: [None] is the [TypeError] of an unsupported value. *)
Fixpoint canonicalJson (value : json) : option string :=
  match value with
  | JNull => Some "null"
  | JStr s => Some (stringify_string s)
  | JBool b => Some (if b then "true" else "false")
  | JNum n => Some (pretty n)
  | JDec literal => Some literal
  | JNonFinite => None
  | JArr xs =>
      let parts := (fix go l := match l with
                                | [] => Some []
                                | x :: l' => match canonicalJson x, go l' with
                                             | Some s, Some ss => Some (s :: ss)
                                             | _, _ => None
                                             end
                                end) xs in
      match parts with
      | Some ss => Some ("[" +:+ string_concat "," ss +:+ "]")
      | None => None
      end
  | JObj fields =>
      let parts := (fix go l := match l with
                                | [] => Some []
                                | (k, x) :: l' => match canonicalJson x, go l' with
                                                  | Some s, Some ss => Some ((k, s) :: ss)
                                                  | _, _ => None
                                                  end
                                end) fields in
      match parts with
      | Some kss =>
          Some ("{" +:+ string_concat ","
                  ((fun ks => stringify_string ks.1 +:+ ":" +:+ ks.2) <$> merge_sort key_le kss)
                +:+ "}")
      | None => None
      end
  | JUndefined => None
  end.

(** ** Timestamps

    A timestamp is a number of microseconds since the epoch, the resolution of
    [timestamptz]; a JavaScript [Date] keeps its milliseconds. *)
Definition micros_per_second : Z := 1000000.

Definition seconds (n : Z) : Z := n * micros_per_second.

Definition days (n : Z) : Z := seconds (n * 86400).

(** [new Date(t).getTime()]. *)
Definition to_ms (t : Z) : Z := t / 1000.

(** Zero-padded decimal of a natural number. *)
Fixpoint pad (width : nat) (n : Z) : string :=
  match width with
  | O => ""
  | S w => pad w (n / 10) +:+ pretty (n `mod` 10)
  end.

(** Year, month and day of a day number, proleptic Gregorian. *)
Definition civil_of_days (day : Z) : Z * Z * Z :=
  let z := day + 719468 in
  let era := z / 146097 in
  let doe := z - era * 146097 in
  let yoe := (doe - doe / 1460 + doe / 36524 - doe / 146096) / 365 in
  let doy := doe - (365 * yoe + yoe / 4 - yoe / 100) in
  let mp := (5 * doy + 2) / 153 in
  let d := doy - (153 * mp + 2) / 5 + 1 in
  let m := if mp <? 10 then mp + 3 else mp - 9 in
  (yoe + era * 400 + (if m <=? 2 then 1 else 0), m, d).

(** [Date.prototype.toISOString]. *)
Definition to_iso (t : Z) : string :=
  let ms := to_ms t in
  let day := ms / 86400000 in
  let rest := ms `mod` 86400000 in
  let '(y, m, d) := civil_of_days day in
  let year := if (0 <=? y) && (y <=? 9999) then pad 4 y
              else if y <? 0 then "-" +:+ pad 6 (- y) else "+" +:+ pad 6 y in
  year +:+ "-" +:+ pad 2 m +:+ "-" +:+ pad 2 d +:+ "T"
  +:+ pad 2 (rest / 3600000) +:+ ":" +:+ pad 2 ((rest / 60000) `mod` 60) +:+ ":"
  +:+ pad 2 ((rest / 1000) `mod` 60) +:+ "." +:+ pad 3 (rest `mod` 1000) +:+ "Z".

Definition JTime (t : Z) : json := JStr (to_iso t).

Example to_iso_epoch : to_iso 0 = "1970-01-01T00:00:00.000Z".
Proof. vm_compute. reflexivity. Qed.

Example to_iso_sample : to_iso 1767225599123456 = "2025-12-31T23:59:59.123Z".
Proof. vm_compute. reflexivity. Qed.

Example canonicalJson_sample :
  canonicalJson (JObj [("b", JArr [JNum (-3); JBool true]); ("a", JStr "x")])
  = Some ("{" +:+ quote +:+ "a" +:+ quote +:+ ":" +:+ quote +:+ "x" +:+ quote +:+ ","
          +:+ quote +:+ "b" +:+ quote +:+ ":[-3,true]}").
Proof. vm_compute. reflexivity. Qed.
