(* ===== verification/Schema.v ===== *)
(** * The coordinator's tables

    One record per table of [infra/postgres/migrations/0001_baseline.up.sql] that the
    coordinator reads or writes, with the enumerations its [CHECK] constraints list,
    and the database as a record of finite maps.  A table is a map from its primary
    key (or from its unique key where the code only uses that) to its row.  The
    [set_*] functions are the single-column assignments of [UPDATE ... SET]. *)

From S2P Require Import Prelude.
From S2P Require Import Json.
Local Open Scope Z_scope.

Inductive session_status := Active | Suspended | Terminated | Expired.

Inductive session_lifecycle := Task | ServiceLife.

(** Status of a delegation edge or an authority record. *)
Inductive record_status := RActive | RRevoked | RExpired.

Inductive registration := Managed | Dcr.

Inductive authority_type := UserAuthority | ApplicationAuthority.

Inductive outbox_status := OPending | OPublished | ODead.

Inductive service_health := Starting | Healthy | Degraded | Unhealthy.

Inductive invocation_status :=
| IPending | IRunning | ISucceeded | IFailed | ICancelRequested | ICanceled | ITimedOut | IDead.

#[export] Instance session_status_eq_dec : EqDecision session_status.
Proof. solve_decision. Defined.

#[export] Instance session_lifecycle_eq_dec : EqDecision session_lifecycle.
Proof. solve_decision. Defined.

#[export] Instance record_status_eq_dec : EqDecision record_status.
Proof. solve_decision. Defined.

#[export] Instance registration_eq_dec : EqDecision registration.
Proof. solve_decision. Defined.

#[export] Instance authority_type_eq_dec : EqDecision authority_type.
Proof. solve_decision. Defined.

#[export] Instance outbox_status_eq_dec : EqDecision outbox_status.
Proof. solve_decision. Defined.

#[export] Instance service_health_eq_dec : EqDecision service_health.
Proof. solve_decision. Defined.

#[export] Instance invocation_status_eq_dec : EqDecision invocation_status.
Proof. solve_decision. Defined.

(** [applications]: written by the API service, read here. *)
Module Application.
Record ApplicationRow := MkApplicationRow {
  zone_id : string;
  registration_method : registration;
  expires_at : option Z;
  archived_at : option Z
}.
End Application.

(** [authority_records]: STS authority records a Session is anchored to. *)
Module Authority.
Record AuthorityRow := MkAuthorityRow {
  zone_id : string;
  session_type : authority_type;
  subject_id : option string;
  status : record_status;
  expires_at : Z
}.
End Authority.

(** [resources]: protected resources and the scopes they declare. *)
Module Resource.
Record ResourceRow := MkResourceRow {
  zone_id : string;
  identifier : string;
  scopes : list string;
  archived_at : option Z
}.
End Resource.

(** [sessions]: governed Sessions. *)
Module Session.
Record SessionRow := MkSessionRow {
  zone_id : string;
  application_id : string;
  parent_id : option string;
  subject_authority_record_id : string;
  status : session_status;
  depth : Z;
  labels : list string;
  max_children : Z;
  child_count : Z;
  started_at : Z;
  last_active_at : Z;
  terminated_at : option Z;
  ttl_seconds : option Z;
  metadata_json : json;
  updated_at : Z;
  lifecycle : session_lifecycle;
  last_heartbeat_at : option Z;
  heartbeat_deadline_at : option Z;
  termination_reason : option string;
  lease_generation : Z
}.
Definition set_status (v : session_status) (r : SessionRow) : SessionRow :=
  MkSessionRow r.(zone_id) r.(application_id) r.(parent_id) r.(subject_authority_record_id) v
    r.(depth) r.(labels) r.(max_children) r.(child_count) r.(started_at) r.(last_active_at)
    r.(terminated_at) r.(ttl_seconds) r.(metadata_json) r.(updated_at) r.(lifecycle)
    r.(last_heartbeat_at) r.(heartbeat_deadline_at) r.(termination_reason) r.(lease_generation).
Definition set_child_count (v : Z) (r : SessionRow) : SessionRow :=
  MkSessionRow r.(zone_id) r.(application_id) r.(parent_id) r.(subject_authority_record_id)
    r.(status) r.(depth) r.(labels) r.(max_children) v r.(started_at) r.(last_active_at)
    r.(terminated_at) r.(ttl_seconds) r.(metadata_json) r.(updated_at) r.(lifecycle)
    r.(last_heartbeat_at) r.(heartbeat_deadline_at) r.(termination_reason) r.(lease_generation).
Definition set_last_active_at (v : Z) (r : SessionRow) : SessionRow :=
  MkSessionRow r.(zone_id) r.(application_id) r.(parent_id) r.(subject_authority_record_id)
    r.(status) r.(depth) r.(labels) r.(max_children) r.(child_count) r.(started_at) v
    r.(terminated_at) r.(ttl_seconds) r.(metadata_json) r.(updated_at) r.(lifecycle)
    r.(last_heartbeat_at) r.(heartbeat_deadline_at) r.(termination_reason) r.(lease_generation).
Definition set_terminated_at (v : option Z) (r : SessionRow) : SessionRow :=
  MkSessionRow r.(zone_id) r.(application_id) r.(parent_id) r.(subject_authority_record_id)
    r.(status) r.(depth) r.(labels) r.(max_children) r.(child_count) r.(started_at)
    r.(last_active_at) v r.(ttl_seconds) r.(metadata_json) r.(updated_at) r.(lifecycle)
    r.(last_heartbeat_at) r.(heartbeat_deadline_at) r.(termination_reason) r.(lease_generation).
Definition set_updated_at (v : Z) (r : SessionRow) : SessionRow :=
  MkSessionRow r.(zone_id) r.(application_id) r.(parent_id) r.(subject_authority_record_id)
    r.(status) r.(depth) r.(labels) r.(max_children) r.(child_count) r.(started_at)
    r.(last_active_at) r.(terminated_at) r.(ttl_seconds) r.(metadata_json) v r.(lifecycle)
    r.(last_heartbeat_at) r.(heartbeat_deadline_at) r.(termination_reason) r.(lease_generation).
Definition set_last_heartbeat_at (v : option Z) (r : SessionRow) : SessionRow :=
  MkSessionRow r.(zone_id) r.(application_id) r.(parent_id) r.(subject_authority_record_id)
    r.(status) r.(depth) r.(labels) r.(max_children) r.(child_count) r.(started_at)
    r.(last_active_at) r.(terminated_at) r.(ttl_seconds) r.(metadata_json) r.(updated_at)
    r.(lifecycle) v r.(heartbeat_deadline_at) r.(termination_reason) r.(lease_generation).
Definition set_heartbeat_deadline_at (v : option Z) (r : SessionRow) : SessionRow :=
  MkSessionRow r.(zone_id) r.(application_id) r.(parent_id) r.(subject_authority_record_id)
    r.(status) r.(depth) r.(labels) r.(max_children) r.(child_count) r.(started_at)
    r.(last_active_at) r.(terminated_at) r.(ttl_seconds) r.(metadata_json) r.(updated_at)
    r.(lifecycle) r.(last_heartbeat_at) v r.(termination_reason) r.(lease_generation).
Definition set_termination_reason (v : option string) (r : SessionRow) : SessionRow :=
  MkSessionRow r.(zone_id) r.(application_id) r.(parent_id) r.(subject_authority_record_id)
    r.(status) r.(depth) r.(labels) r.(max_children) r.(child_count) r.(started_at)
    r.(last_active_at) r.(terminated_at) r.(ttl_seconds) r.(metadata_json) r.(updated_at)
    r.(lifecycle) r.(last_heartbeat_at) r.(heartbeat_deadline_at) v r.(lease_generation).
Definition set_lease_generation (v : Z) (r : SessionRow) : SessionRow :=
  MkSessionRow r.(zone_id) r.(application_id) r.(parent_id) r.(subject_authority_record_id)
    r.(status) r.(depth) r.(labels) r.(max_children) r.(child_count) r.(started_at)
    r.(last_active_at) r.(terminated_at) r.(ttl_seconds) r.(metadata_json) r.(updated_at)
    r.(lifecycle) r.(last_heartbeat_at) r.(heartbeat_deadline_at) r.(termination_reason) v.
End Session.

(** [delegation_edges]: delegations between Sessions. *)
Module Edge.
Record EdgeRow := MkEdgeRow {
  zone_id : string;
  source_session_id : string;
  target_session_id : string;
  issuer_application_id : string;
  receiver_application_id : string;
  resource_id : option string;
  scopes : list string;
  constraints_json : json;
  status : record_status;
  expires_at : Z;
  edge_version : Z;
  revoked_at : option Z;
  created_at : Z;
  updated_at : Z;
  parent_edge_id : option string
}.
Definition set_status (v : record_status) (r : EdgeRow) : EdgeRow :=
  MkEdgeRow r.(zone_id) r.(source_session_id) r.(target_session_id) r.(issuer_application_id)
    r.(receiver_application_id) r.(resource_id) r.(scopes) r.(constraints_json) v r.(expires_at)
    r.(edge_version) r.(revoked_at) r.(created_at) r.(updated_at) r.(parent_edge_id).
Definition set_edge_version (v : Z) (r : EdgeRow) : EdgeRow :=
  MkEdgeRow r.(zone_id) r.(source_session_id) r.(target_session_id) r.(issuer_application_id)
    r.(receiver_application_id) r.(resource_id) r.(scopes) r.(constraints_json) r.(status)
    r.(expires_at) v r.(revoked_at) r.(created_at) r.(updated_at) r.(parent_edge_id).
Definition set_revoked_at (v : option Z) (r : EdgeRow) : EdgeRow :=
  MkEdgeRow r.(zone_id) r.(source_session_id) r.(target_session_id) r.(issuer_application_id)
    r.(receiver_application_id) r.(resource_id) r.(scopes) r.(constraints_json) r.(status)
    r.(expires_at) r.(edge_version) v r.(created_at) r.(updated_at) r.(parent_edge_id).
Definition set_updated_at (v : Z) (r : EdgeRow) : EdgeRow :=
  MkEdgeRow r.(zone_id) r.(source_session_id) r.(target_session_id) r.(issuer_application_id)
    r.(receiver_application_id) r.(resource_id) r.(scopes) r.(constraints_json) r.(status)
    r.(expires_at) r.(edge_version) r.(revoked_at) r.(created_at) v r.(parent_edge_id).
Definition set_parent_edge_id (v : option string) (r : EdgeRow) : EdgeRow :=
  MkEdgeRow r.(zone_id) r.(source_session_id) r.(target_session_id) r.(issuer_application_id)
    r.(receiver_application_id) r.(resource_id) r.(scopes) r.(constraints_json) r.(status)
    r.(expires_at) r.(edge_version) r.(revoked_at) r.(created_at) r.(updated_at) v.
End Edge.

(** [coordinator_idempotency_receipts], keyed by [(operation, zone_id, scope_id, key_digest)]. *)
Module Receipt.
Record ReceiptRow := MkReceiptRow {
  id : string;
  request_digest : string;
  resource_type : string;
  resource_id : string;
  response_status : Z;
  response_json : json;
  created_at : Z;
  expires_at : Z
}.
End Receipt.

(** [caracal_outbox], keyed by [(producer, topic, dedupe_key)]. *)
Module Outbox.
Record OutboxRow := MkOutboxRow {
  id : string;
  payload_json : list (string * json);
  status : outbox_status;
  attempts : Z;
  available_at : Z;
  published_at : option Z;
  created_at : Z;
  updated_at : Z
}.
Definition set_status (v : outbox_status) (r : OutboxRow) : OutboxRow :=
  MkOutboxRow r.(id) r.(payload_json) v r.(attempts) r.(available_at) r.(published_at)
    r.(created_at) r.(updated_at).
Definition set_attempts (v : Z) (r : OutboxRow) : OutboxRow :=
  MkOutboxRow r.(id) r.(payload_json) r.(status) v r.(available_at) r.(published_at)
    r.(created_at) r.(updated_at).
Definition set_available_at (v : Z) (r : OutboxRow) : OutboxRow :=
  MkOutboxRow r.(id) r.(payload_json) r.(status) r.(attempts) v r.(published_at) r.(created_at)
    r.(updated_at).
Definition set_published_at (v : option Z) (r : OutboxRow) : OutboxRow :=
  MkOutboxRow r.(id) r.(payload_json) r.(status) r.(attempts) r.(available_at) v r.(created_at)
    r.(updated_at).
Definition set_updated_at (v : Z) (r : OutboxRow) : OutboxRow :=
  MkOutboxRow r.(id) r.(payload_json) r.(status) r.(attempts) r.(available_at) r.(published_at)
    r.(created_at) v.
End Outbox.

(** [agent_services]: registered service endpoints. *)
Module Service.
Record ServiceRow := MkServiceRow {
  zone_id : string;
  application_id : string;
  endpoint_url : string;
  protocol_versions : list string;
  framework_name : option string;
  framework_version : option string;
  capabilities : list string;
  health : service_health;
  metadata_json : list (string * json);
  last_heartbeat_at : option Z;
  created_at : Z;
  updated_at : Z
}.
Definition set_protocol_versions (v : list string) (r : ServiceRow) : ServiceRow :=
  MkServiceRow r.(zone_id) r.(application_id) r.(endpoint_url) v r.(framework_name)
    r.(framework_version) r.(capabilities) r.(health) r.(metadata_json) r.(last_heartbeat_at)
    r.(created_at) r.(updated_at).
Definition set_framework_name (v : option string) (r : ServiceRow) : ServiceRow :=
  MkServiceRow r.(zone_id) r.(application_id) r.(endpoint_url) r.(protocol_versions) v
    r.(framework_version) r.(capabilities) r.(health) r.(metadata_json) r.(last_heartbeat_at)
    r.(created_at) r.(updated_at).
Definition set_framework_version (v : option string) (r : ServiceRow) : ServiceRow :=
  MkServiceRow r.(zone_id) r.(application_id) r.(endpoint_url) r.(protocol_versions)
    r.(framework_name) v r.(capabilities) r.(health) r.(metadata_json) r.(last_heartbeat_at)
    r.(created_at) r.(updated_at).
Definition set_capabilities (v : list string) (r : ServiceRow) : ServiceRow :=
  MkServiceRow r.(zone_id) r.(application_id) r.(endpoint_url) r.(protocol_versions)
    r.(framework_name) r.(framework_version) v r.(health) r.(metadata_json)
    r.(last_heartbeat_at) r.(created_at) r.(updated_at).
Definition set_health (v : service_health) (r : ServiceRow) : ServiceRow :=
  MkServiceRow r.(zone_id) r.(application_id) r.(endpoint_url) r.(protocol_versions)
    r.(framework_name) r.(framework_version) r.(capabilities) v r.(metadata_json)
    r.(last_heartbeat_at) r.(created_at) r.(updated_at).
Definition set_metadata_json (v : list (string * json)) (r : ServiceRow) : ServiceRow :=
  MkServiceRow r.(zone_id) r.(application_id) r.(endpoint_url) r.(protocol_versions)
    r.(framework_name) r.(framework_version) r.(capabilities) r.(health) v r.(last_heartbeat_at)
    r.(created_at) r.(updated_at).
Definition set_last_heartbeat_at (v : option Z) (r : ServiceRow) : ServiceRow :=
  MkServiceRow r.(zone_id) r.(application_id) r.(endpoint_url) r.(protocol_versions)
    r.(framework_name) r.(framework_version) r.(capabilities) r.(health) r.(metadata_json) v
    r.(created_at) r.(updated_at).
Definition set_updated_at (v : Z) (r : ServiceRow) : ServiceRow :=
  MkServiceRow r.(zone_id) r.(application_id) r.(endpoint_url) r.(protocol_versions)
    r.(framework_name) r.(framework_version) r.(capabilities) r.(health) r.(metadata_json)
    r.(last_heartbeat_at) r.(created_at) v.
End Service.

(** [agent_invocations]: durable invocations. *)
Module Invocation.
Record InvocationRow := MkInvocationRow {
  zone_id : string;
  service_id : string;
  source_session_id : option string;
  target_session_id : option string;
  method : string;
  params_json : json;
  metadata_json : list (string * json);
  status : invocation_status;
  attempts : Z;
  max_attempts : Z;
  timeout_ms : Z;
  retry_policy_json : json;
  error_json : json;
  deadline_at : option Z;
  cancel_requested_at : option Z;
  started_at : option Z;
  completed_at : option Z;
  created_at : Z;
  updated_at : Z
}.
Definition set_source_session_id (v : option string) (r : InvocationRow) : InvocationRow :=
  MkInvocationRow r.(zone_id) r.(service_id) v r.(target_session_id) r.(method) r.(params_json)
    r.(metadata_json) r.(status) r.(attempts) r.(max_attempts) r.(timeout_ms)
    r.(retry_policy_json) r.(error_json) r.(deadline_at) r.(cancel_requested_at) r.(started_at)
    r.(completed_at) r.(created_at) r.(updated_at).
Definition set_target_session_id (v : option string) (r : InvocationRow) : InvocationRow :=
  MkInvocationRow r.(zone_id) r.(service_id) r.(source_session_id) v r.(method) r.(params_json)
    r.(metadata_json) r.(status) r.(attempts) r.(max_attempts) r.(timeout_ms)
    r.(retry_policy_json) r.(error_json) r.(deadline_at) r.(cancel_requested_at) r.(started_at)
    r.(completed_at) r.(created_at) r.(updated_at).
Definition set_metadata_json (v : list (string * json)) (r : InvocationRow) : InvocationRow :=
  MkInvocationRow r.(zone_id) r.(service_id) r.(source_session_id) r.(target_session_id)
    r.(method) r.(params_json) v r.(status) r.(attempts) r.(max_attempts) r.(timeout_ms)
    r.(retry_policy_json) r.(error_json) r.(deadline_at) r.(cancel_requested_at) r.(started_at)
    r.(completed_at) r.(created_at) r.(updated_at).
Definition set_status (v : invocation_status) (r : InvocationRow) : InvocationRow :=
  MkInvocationRow r.(zone_id) r.(service_id) r.(source_session_id) r.(target_session_id)
    r.(method) r.(params_json) r.(metadata_json) v r.(attempts) r.(max_attempts) r.(timeout_ms)
    r.(retry_policy_json) r.(error_json) r.(deadline_at) r.(cancel_requested_at) r.(started_at)
    r.(completed_at) r.(created_at) r.(updated_at).
Definition set_attempts (v : Z) (r : InvocationRow) : InvocationRow :=
  MkInvocationRow r.(zone_id) r.(service_id) r.(source_session_id) r.(target_session_id)
    r.(method) r.(params_json) r.(metadata_json) r.(status) v r.(max_attempts) r.(timeout_ms)
    r.(retry_policy_json) r.(error_json) r.(deadline_at) r.(cancel_requested_at) r.(started_at)
    r.(completed_at) r.(created_at) r.(updated_at).
Definition set_error_json (v : json) (r : InvocationRow) : InvocationRow :=
  MkInvocationRow r.(zone_id) r.(service_id) r.(source_session_id) r.(target_session_id)
    r.(method) r.(params_json) r.(metadata_json) r.(status) r.(attempts) r.(max_attempts)
    r.(timeout_ms) r.(retry_policy_json) v r.(deadline_at) r.(cancel_requested_at)
    r.(started_at) r.(completed_at) r.(created_at) r.(updated_at).
Definition set_deadline_at (v : option Z) (r : InvocationRow) : InvocationRow :=
  MkInvocationRow r.(zone_id) r.(service_id) r.(source_session_id) r.(target_session_id)
    r.(method) r.(params_json) r.(metadata_json) r.(status) r.(attempts) r.(max_attempts)
    r.(timeout_ms) r.(retry_policy_json) r.(error_json) v r.(cancel_requested_at) r.(started_at)
    r.(completed_at) r.(created_at) r.(updated_at).
Definition set_cancel_requested_at (v : option Z) (r : InvocationRow) : InvocationRow :=
  MkInvocationRow r.(zone_id) r.(service_id) r.(source_session_id) r.(target_session_id)
    r.(method) r.(params_json) r.(metadata_json) r.(status) r.(attempts) r.(max_attempts)
    r.(timeout_ms) r.(retry_policy_json) r.(error_json) r.(deadline_at) v r.(started_at)
    r.(completed_at) r.(created_at) r.(updated_at).
Definition set_started_at (v : option Z) (r : InvocationRow) : InvocationRow :=
  MkInvocationRow r.(zone_id) r.(service_id) r.(source_session_id) r.(target_session_id)
    r.(method) r.(params_json) r.(metadata_json) r.(status) r.(attempts) r.(max_attempts)
    r.(timeout_ms) r.(retry_policy_json) r.(error_json) r.(deadline_at) r.(cancel_requested_at)
    v r.(completed_at) r.(created_at) r.(updated_at).
Definition set_completed_at (v : option Z) (r : InvocationRow) : InvocationRow :=
  MkInvocationRow r.(zone_id) r.(service_id) r.(source_session_id) r.(target_session_id)
    r.(method) r.(params_json) r.(metadata_json) r.(status) r.(attempts) r.(max_attempts)
    r.(timeout_ms) r.(retry_policy_json) r.(error_json) r.(deadline_at) r.(cancel_requested_at)
    r.(started_at) v r.(created_at) r.(updated_at).
Definition set_updated_at (v : Z) (r : InvocationRow) : InvocationRow :=
  MkInvocationRow r.(zone_id) r.(service_id) r.(source_session_id) r.(target_session_id)
    r.(method) r.(params_json) r.(metadata_json) r.(status) r.(attempts) r.(max_attempts)
    r.(timeout_ms) r.(retry_policy_json) r.(error_json) r.(deadline_at) r.(cancel_requested_at)
    r.(started_at) r.(completed_at) r.(created_at) v.
End Invocation.

(** The database. *)
Record Db := MkDb {
  applications : gmap string Application.ApplicationRow;
  authority_records : gmap string Authority.AuthorityRow;
  resources : gmap string Resource.ResourceRow;
  sessions : gmap string Session.SessionRow;
  agent_topology : gset (string * string);
  delegation_edges : gmap string Edge.EdgeRow;
  delegation_graph_epochs : gmap string Z;
  receipts : gmap (string * string * string * string) Receipt.ReceiptRow;
  caracal_outbox : gmap (string * string * string) Outbox.OutboxRow;
  agent_services : gmap string Service.ServiceRow;
  agent_invocations : gmap string Invocation.InvocationRow
}.

Definition set_sessions (v : gmap string Session.SessionRow) (d : Db) : Db :=
  MkDb d.(applications) d.(authority_records) d.(resources) v d.(agent_topology)
    d.(delegation_edges) d.(delegation_graph_epochs) d.(receipts) d.(caracal_outbox)
    d.(agent_services) d.(agent_invocations).

Definition set_agent_topology (v : gset (string * string)) (d : Db) : Db :=
  MkDb d.(applications) d.(authority_records) d.(resources) d.(sessions) v d.(delegation_edges)
    d.(delegation_graph_epochs) d.(receipts) d.(caracal_outbox) d.(agent_services)
    d.(agent_invocations).

Definition set_delegation_edges (v : gmap string Edge.EdgeRow) (d : Db) : Db :=
  MkDb d.(applications) d.(authority_records) d.(resources) d.(sessions) d.(agent_topology) v
    d.(delegation_graph_epochs) d.(receipts) d.(caracal_outbox) d.(agent_services)
    d.(agent_invocations).

Definition set_delegation_graph_epochs (v : gmap string Z) (d : Db) : Db :=
  MkDb d.(applications) d.(authority_records) d.(resources) d.(sessions) d.(agent_topology)
    d.(delegation_edges) v d.(receipts) d.(caracal_outbox) d.(agent_services)
    d.(agent_invocations).

Definition set_receipts (v : gmap (string * string * string * string) Receipt.ReceiptRow) (d : Db) : Db :=
  MkDb d.(applications) d.(authority_records) d.(resources) d.(sessions) d.(agent_topology)
    d.(delegation_edges) d.(delegation_graph_epochs) v d.(caracal_outbox) d.(agent_services)
    d.(agent_invocations).

Definition set_caracal_outbox (v : gmap (string * string * string) Outbox.OutboxRow) (d : Db) : Db :=
  MkDb d.(applications) d.(authority_records) d.(resources) d.(sessions) d.(agent_topology)
    d.(delegation_edges) d.(delegation_graph_epochs) d.(receipts) v d.(agent_services)
    d.(agent_invocations).

Definition set_agent_services (v : gmap string Service.ServiceRow) (d : Db) : Db :=
  MkDb d.(applications) d.(authority_records) d.(resources) d.(sessions) d.(agent_topology)
    d.(delegation_edges) d.(delegation_graph_epochs) d.(receipts) d.(caracal_outbox) v
    d.(agent_invocations).

Definition set_agent_invocations (v : gmap string Invocation.InvocationRow) (d : Db) : Db :=
  MkDb d.(applications) d.(authority_records) d.(resources) d.(sessions) d.(agent_topology)
    d.(delegation_edges) d.(delegation_graph_epochs) d.(receipts) d.(caracal_outbox)
    d.(agent_services) v.

Definition empty_db : Db := MkDb ∅ ∅ ∅ ∅ ∅ ∅ ∅ ∅ ∅ ∅ ∅.

(** ** SQL on tables *)

(** [SELECT ... WHERE p]: the matching keys and rows. *)
Definition select {K R : Type} `{Countable K} (p : K -> R -> bool) (m : gmap K R) : list (K * R) :=
  filter (fun kr => p kr.1 kr.2 = true) (map_to_list m).

(** [UPDATE ... SET f WHERE p]. *)
Definition update_where {K R : Type} `{Countable K} (p : K -> R -> bool) (f : R -> R) (m : gmap K R)
  : gmap K R :=
  map_imap (fun k r => Some (if p k r then f r else r)) m.

(** [DELETE ... WHERE p]. *)
Definition delete_where {K R : Type} `{Countable K} (p : K -> R -> bool) (m : gmap K R) : gmap K R :=
  map_imap (fun k r => if p k r then None else Some r) m.

Lemma elem_of_select {K R : Type} `{Countable K} (p : K -> R -> bool) (m : gmap K R) (k : K) (r : R) :
  (k, r) ∈ select p m <-> m !! k = Some r /\ p k r = true.
Proof. unfold select. rewrite list_elem_of_filter, elem_of_map_to_list. naive_solver. Qed.

Lemma lookup_update_where {K R : Type} `{Countable K} (p : K -> R -> bool) (f : R -> R) (m : gmap K R) (k : K) :
  update_where p f m !! k = (fun r => if p k r then f r else r) <$> m !! k.
Proof. unfold update_where. rewrite map_lookup_imap. by destruct (m !! k). Qed.

Lemma lookup_delete_where {K R : Type} `{Countable K} (p : K -> R -> bool) (m : gmap K R) (k : K) (r : R) :
  delete_where p m !! k = Some r <-> m !! k = Some r /\ p k r = false.
Proof.
  unfold delete_where. rewrite map_lookup_imap. destruct (m !! k) as [r'|]; simpl.
  - destruct (p k r') eqn:E; split; [done|..]; intros; destruct_and?; split_and?; congruence.
  - split; [done|]. by intros [? _].
Qed.

Lemma select_nil {K R : Type} `{Countable K} (p : K -> R -> bool) (m : gmap K R) :
  select p m = [] <-> forall k r, m !! k = Some r -> p k r = false.
Proof.
  split.
  - intros Hn k r Hk. destruct (p k r) eqn:E; [|done].
    assert ((k, r) ∈ select p m) as Hin by by apply elem_of_select. rewrite Hn in Hin. set_solver.
  - intros Hall. destruct (select p m) as [|[k r] l] eqn:E; [done|].
    assert ((k, r) ∈ select p m) as Hin by (rewrite E; set_solver).
    apply elem_of_select in Hin as [Hk Hp]. specialize (Hall k r Hk). congruence.
Qed.

Lemma select_ne_nil {K R : Type} `{Countable K} (p : K -> R -> bool) (m : gmap K R) :
  select p m <> [] <-> exists k r, m !! k = Some r /\ p k r = true.
Proof.
  split.
  - intros Hne. destruct (select p m) as [|[k r] l] eqn:E; [done|].
    assert ((k, r) ∈ select p m) as Hin by (rewrite E; set_solver).
    apply elem_of_select in Hin as [Hk Hp]. eauto.
  - intros (k & r & Hk & Hp) Hnil. rewrite select_nil in Hnil. rewrite (Hnil k r Hk) in Hp. done.
Qed.

Lemma NoDup_select_keys {K R : Type} `{Countable K} (p : K -> R -> bool) (m : gmap K R) :
  NoDup (select p m).*1.
Proof. unfold select. apply NoDup_fst_filter, NoDup_fst_map_to_list. Qed.

(** The number of selected rows only depends on which keys are selected. *)
Lemma elem_of_select_keys {K R : Type} `{Countable K} (p : K -> R -> bool) (m : gmap K R) (k : K) :
  k ∈ (select p m).*1 <-> exists r, m !! k = Some r /\ p k r = true.
Proof.
  rewrite list_elem_of_fmap. split.
  - intros ([k' r] & -> & Hkr). apply elem_of_select in Hkr. eauto.
  - intros (r & Hkr). exists (k, r). split; [done|]. by apply elem_of_select.
Qed.

Lemma select_length_split {K R R' : Type} `{Countable K} (p : K -> R -> bool) (m : gmap K R)
  (p' : K -> R' -> bool) (m' : gmap K R') (l : list K) :
  NoDup l ->
  (forall k, k ∈ (select p m).*1 <-> k ∈ (select p' m').*1 \/ k ∈ l) ->
  (forall k, k ∈ (select p' m').*1 -> k ∉ l) ->
  length (select p m) = (length (select p' m') + length l)%nat.
Proof.
  intros Hl Hk Hd. rewrite <-(length_fmap fst (select p m)), <-(length_fmap fst (select p' m')), <-length_app.
  apply Permutation_length, NoDup_Permutation.
  - apply NoDup_select_keys.
  - apply NoDup_app. split_and!; [apply NoDup_select_keys|done|done].
  - intros k. rewrite elem_of_app. apply Hk.
Qed.

Lemma select_length_iff {K R R' : Type} `{Countable K} (p : K -> R -> bool) (m : gmap K R)
  (p' : K -> R' -> bool) (m' : gmap K R') :
  (forall k, k ∈ (select p m).*1 <-> k ∈ (select p' m').*1) ->
  length (select p m) = length (select p' m').
Proof.
  intros Hk. rewrite (select_length_split p m p' m' []); [cbn; lia|constructor|set_solver|set_solver].
Qed.
