(* ===== verification/Store.v ===== *)
(** * Transactions

    The environment the coordinator runs in (configuration, identifier
    generation, hashing), the state a request or job acts on, and the monad its
    database transactions are written in: [BEGIN ... COMMIT/ROLLBACK] with early
    returns and the [catch] that rolls back and rethrows.  The weakest-precondition
    rules at the end are the proof rules every component uses. *)

From S2P Require Import Prelude.
From S2P Require Import Json.
From S2P Require Import Schema.
Local Open Scope Z_scope.
Local Open Scope string_scope.

(** The fields of [cfg] that the modelled code reads ([apps/coordinator/src/config.ts]). *)
Record Cfg := MkCfg {
  issuerUrl : string;
  audience : string;
  requiredScope : string;
  coordinatorToken : string;
  maxSessionsPerZone : Z;
  maxSessionsPerApp : Z;
  outboxMaxAttempts : Z;
  serviceSessionLeaseSeconds : Z;
  sweeperBatchSize : Z;
  retentionCleanupBatchSize : Z;
  sessionRetentionDays : Z;
  delegationRetentionDays : Z;
  outboxRetentionDays : Z;
  idempotencyRetentionSeconds : Z;
  generatedIdempotencyRetentionSeconds : Z;
  idempotencyMaxReceiptsPerScope : Z;
  jwksCacheMax : Z;
  invocationRateLimitPerMin : Z;
  idempotencyHmacKeys : list string
}.

(** What the coordinator takes from outside its own sources: [uuidv7] of the
    [uuid] package (its [n]-th result in this process), the instant a
    [z.string().datetime()] string denotes ([None] for a string zod refuses),
    SHA-256 and HMAC-SHA-256 of [node:crypto], and the loaded configuration. *)
Class Env := {
  uuidv7 : nat -> string;
  datetime : string -> option Z;
  sha256 : string -> string;
  hmac_sha256 : string -> string -> string;
  cfg : Cfg
}.

(** [idempotencyStats] of [apps/coordinator/src/idempotency.ts]. *)
Record IdempotencyStats := MkStats {
  created : Z; replayed : Z; conflicts : Z; invalid : Z; expired : Z
}.

(** The state a request acts on.  [now] is the transaction's [now()] and
    [redis_time] the answer of redis [TIME], both in microseconds; [redis] holds the
    redis integer keys with their expiry; [uuids] counts generated identifiers;
    [locks] lists the advisory locks the current transaction holds. *)
Record World := MkWorld {
  db : Db;
  now : Z;
  redis_time : Z;
  redis : gmap string (Z * option Z);
  uuids : nat;
  locks : list string;
  idempotencyStats : IdempotencyStats
}.

Definition set_db (d : Db) (w : World) : World :=
  MkWorld d w.(now) w.(redis_time) w.(redis) w.(uuids) w.(locks) w.(idempotencyStats).

Definition set_redis (r : gmap string (Z * option Z)) (w : World) : World :=
  MkWorld w.(db) w.(now) w.(redis_time) r w.(uuids) w.(locks) w.(idempotencyStats).

Definition set_uuids (n : nat) (w : World) : World :=
  MkWorld w.(db) w.(now) w.(redis_time) w.(redis) n w.(locks) w.(idempotencyStats).

Definition set_locks (l : list string) (w : World) : World :=
  MkWorld w.(db) w.(now) w.(redis_time) w.(redis) w.(uuids) l w.(idempotencyStats).

Definition set_stats (s : IdempotencyStats) (w : World) : World :=
  MkWorld w.(db) w.(now) w.(redis_time) w.(redis) w.(uuids) w.(locks) s.

(** The errors a handler may throw: an [IdempotencyKeyError] with its code, a
    [ZodError], a [TypeError] of [canonicalJson], a constraint violation or a
    statement timeout raised by the database. *)
Inductive exn :=
| IdempotencyKeyError (code : string)
| ZodError
| TypeError
| ConstraintViolation (constraint : string)
| StatementTimeout.

(** An HTTP reply: status, body, and whether [Idempotency-Replayed] is set. *)
Record reply := MkReply { code : Z; body : json; replay_header : bool }.

Definition error_reply (c : Z) (e : string) : reply := MkReply c (JObj [("error", JStr e)]) false.

Definition error_message_reply (c : Z) (e m : string) : reply :=
  MkReply c (JObj [("error", JStr e); ("message", JStr m)]) false.

(** The application's error handler ([apps/coordinator/src/app.ts]). *)
Definition errorHandler (e : exn) : reply :=
  match e with
  | IdempotencyKeyError c => error_reply 400 c
  | ZodError => error_reply 400 "invalid_body"
  | _ => error_reply 500 "internal_error"
  end.

(** ** The transaction monad *)

(** How a transaction body ends: [COMMIT] or [ROLLBACK] followed by a result, or a
    thrown error. *)
Inductive exit (R : Type) :=
| Commit (r : R)
| Rollback (r : R)
| Raise (e : exn).
Arguments Commit {R} r.
Arguments Rollback {R} r.
Arguments Raise {R} e.

Definition Tx (R A : Type) : Type := World -> (A + exit R) * World.

#[export] Instance Tx_ret {R : Type} : MRet (Tx R) := fun A a w => (inl a, w).

#[export] Instance Tx_bind {R : Type} : MBind (Tx R) := fun A B f m w =>
  match m w with
  | (inl a, w') => f a w'
  | (inr x, w') => (inr x, w')
  end.

Section operations.
Context {R : Type}.

Definition commit {A : Type} (r : R) : Tx R A := fun w => (inr (Commit r), w).

Definition rollback {A : Type} (r : R) : Tx R A := fun w => (inr (Rollback r), w).

Definition raise {A : Type} (e : exn) : Tx R A := fun w => (inr (Raise e), w).

(** A guard: [if (!b) { ROLLBACK; return r }]. *)
Definition ensure (b : bool) (r : R) : Tx R unit := fun w =>
  if b then (inl tt, w) else (inr (Rollback r), w).

(** A database constraint: violated, the statement throws. *)
Definition constraint (b : bool) (name : string) : Tx R unit := fun w =>
  if b then (inl tt, w) else (inr (Raise (ConstraintViolation name)), w).

(** A read of the database at the transaction's [now()]. *)
Definition query {A : Type} (f : Z -> Db -> A) : Tx R A := fun w => (inl (f w.(now) w.(db)), w).

(** A write of the database at the transaction's [now()]. *)
Definition exec (f : Z -> Db -> Db) : Tx R unit := fun w =>
  (inl tt, set_db (f w.(now) w.(db)) w).

(** [pg_advisory_xact_lock]. *)
Definition advisory_lock (name : string) : Tx R unit := fun w =>
  (inl tt, set_locks (name :: w.(locks)) w).

Definition fresh_uuid `{Env} : Tx R string := fun w =>
  (inl (uuidv7 w.(uuids)), set_uuids (S w.(uuids)) w).

Definition bump_stats (f : IdempotencyStats -> IdempotencyStats) : Tx R unit := fun w =>
  (inl tt, set_stats (f w.(idempotencyStats)) w).

(** A query that may not finish. *)
Definition query_opt {A : Type} (f : Z -> Db -> option A) : Tx R A := fun w =>
  match f w.(now) w.(db) with
  | Some a => (inl a, w)
  | None => (inr (Raise StatementTimeout), w)
  end.

(** The state after a transaction that left the database [d].  Advisory locks end
    with the transaction; identifiers, redis and the process counters are not
    rolled back. *)
Definition finish (w w' : World) (d : Db) : World :=
  MkWorld d w.(now) w.(redis_time) w'.(redis) w'.(uuids) [] w'.(idempotencyStats).

(** [BEGIN], the body, then [COMMIT] or [ROLLBACK]; an error rolls back and is
    rethrown. *)
Definition run_tx (m : Tx R (exit R)) (w : World) : (R + exn) * World :=
  let '(x, w') := m (set_locks [] w) in
  match match x with inl e => e | inr e => e end with
  | Commit r => (inl r, finish w w' w'.(db))
  | Rollback r => (inl r, finish w w' w.(db))
  | Raise e => (inr e, finish w w' w.(db))
  end.
End operations.

(** A route handler's reply, with thrown errors answered by the error handler. *)
Definition respond (o : (reply + exn) * World) : reply * World :=
  match o with
  | (inl r, w) => (r, w)
  | (inr e, w) => (errorHandler e, w)
  end.

(** ** Weakest preconditions *)

Section wp.
Context {R : Type}.

(** [wp m Q E w]: run from [w], [m] either returns and [Q] holds of the value and
    the state, or ends the transaction and [E] holds. *)
Definition wp {A : Type} (m : Tx R A) (Q : A -> World -> Prop) (E : exit R -> World -> Prop)
  (w : World) : Prop :=
  match m w with
  | (inl a, w') => Q a w'
  | (inr x, w') => E x w'
  end.

Lemma wp_ret {A : Type} (a : A) Q E w : Q a w -> wp (mret a) Q E w.
Proof. done. Qed.

Lemma wp_bind {A B : Type} (m : Tx R A) (f : A -> Tx R B) Q E w :
  wp m (fun a => wp (f a) Q E) E w -> wp (m ≫= f) Q E w.
Proof. unfold wp, mbind, Tx_bind. by destruct (m w) as [[a|x] w']. Qed.

Lemma wp_commit {A : Type} (r : R) (Q : A -> World -> Prop) E w :
  E (Commit r) w -> wp (commit r) Q E w.
Proof. done. Qed.

Lemma wp_rollback {A : Type} (r : R) (Q : A -> World -> Prop) E w :
  E (Rollback r) w -> wp (rollback r) Q E w.
Proof. done. Qed.

Lemma wp_raise {A : Type} e (Q : A -> World -> Prop) E w : E (Raise e) w -> wp (raise e) Q E w.
Proof. done. Qed.

Lemma wp_ensure b r Q E w :
  (b = true -> Q tt w) -> (b = false -> E (Rollback r) w) -> wp (ensure b r) Q E w.
Proof. unfold wp, ensure. destruct b; auto. Qed.

Lemma wp_constraint b n Q E w :
  (b = true -> Q tt w) -> (b = false -> E (Raise (ConstraintViolation n)) w) ->
  wp (constraint b n) Q E w.
Proof. unfold wp, constraint. destruct b; auto. Qed.

Lemma wp_query {A : Type} (f : Z -> Db -> A) Q E w : Q (f w.(now) w.(db)) w -> wp (query f) Q E w.
Proof. done. Qed.

Lemma wp_exec f Q E w : Q tt (set_db (f w.(now) w.(db)) w) -> wp (exec f) Q E w.
Proof. done. Qed.

Lemma wp_lock n Q E w : Q tt (set_locks (n :: w.(locks)) w) -> wp (advisory_lock n) Q E w.
Proof. done. Qed.

Lemma wp_fresh `{Env} Q E w :
  Q (uuidv7 w.(uuids)) (set_uuids (S w.(uuids)) w) -> wp fresh_uuid Q E w.
Proof. done. Qed.

Lemma wp_stats f Q E w : Q tt (set_stats (f w.(idempotencyStats)) w) -> wp (bump_stats f) Q E w.
Proof. done. Qed.

Lemma wp_query_opt {A : Type} (f : Z -> Db -> option A) Q E w :
  (forall a, f w.(now) w.(db) = Some a -> Q a w) ->
  (f w.(now) w.(db) = None -> E (Raise StatementTimeout) w) -> wp (query_opt f) Q E w.
Proof. unfold wp, query_opt. destruct (f _ _); auto. Qed.

Lemma wp_mono {A : Type} (m : Tx R A) (Q Q' : A -> World -> Prop) (E E' : exit R -> World -> Prop) w :
  wp m Q E w -> (forall a w', Q a w' -> Q' a w') -> (forall x w', E x w' -> E' x w') -> wp m Q' E' w.
Proof. unfold wp. destruct (m w) as [[a|x] w']; auto. Qed.

Lemma wp_if {A : Type} (b : bool) (m1 m2 : Tx R A) Q E w :
  (b = true -> wp m1 Q E w) -> (b = false -> wp m2 Q E w) -> wp (if b then m1 else m2) Q E w.
Proof. destruct b; auto. Qed.

(** What the caller of a transaction observes, from how its body ended. *)
Definition outcome (w : World) (P : (R + exn) -> World -> Prop) (x : exit R) (w' : World) : Prop :=
  match x with
  | Commit r => P (inl r) (finish w w' w'.(db))
  | Rollback r => P (inl r) (finish w w' w.(db))
  | Raise e => P (inr e) (finish w w' w.(db))
  end.

Lemma run_tx_wp (m : Tx R (exit R)) (w : World) (P : (R + exn) -> World -> Prop) :
  wp m (outcome w P) (outcome w P) (set_locks [] w) -> P (run_tx m w).1 (run_tx m w).2.
Proof.
  unfold wp, run_tx. destruct (m (set_locks [] w)) as [[x|x] w']; destruct x; auto.
Qed.

(** The exit condition of an invariant proof: a commit re-establishes it; after a
    rollback or an error the database is the one at [BEGIN]. *)
Definition commits (I : Db -> Prop) (x : exit R) (w : World) : Prop :=
  match x with
  | Commit _ => I w.(db)
  | Rollback _ | Raise _ => True
  end.

(** An invariant is preserved by a transaction whose commits re-establish it. *)
Lemma run_tx_preserves (I : Db -> Prop) (m : Tx R (exit R)) (w : World) :
  I w.(db) -> wp m (commits I) (commits I) (set_locks [] w) -> I (run_tx m w).2.(db).
Proof.
  intros HI Hm. apply run_tx_wp with (P := fun _ w' => I w'.(db)).
  eapply wp_mono; [exact Hm|..]; intros [?|?|?] w'; simpl; auto.
Qed.

(** [E] holds of every exit that does not commit: the postcondition of a
    computation that has nothing to say about refusals. *)
Definition aborts (E : exit R -> World -> Prop) : Prop :=
  forall x w, (forall r, x <> Commit r) -> E x w.

Lemma aborts_rollback (E : exit R -> World -> Prop) r w : aborts E -> E (Rollback r) w.
Proof. intros HE. by apply HE. Qed.

Lemma aborts_raise (E : exit R -> World -> Prop) e w : aborts E -> E (Raise e) w.
Proof. intros HE. by apply HE. Qed.

Lemma aborts_commits (I : Db -> Prop) : aborts (commits I).
Proof. intros [r|r|e] w Hr; [by destruct (Hr r)|done|done]. Qed.

(** Every refusal inside [m] satisfies [P]. *)
Definition refusals {A : Type} (P : R -> Prop) (m : Tx R A) : Prop :=
  forall w, match (m w).1 with inr (Rollback r) => P r | _ => True end.

(** ... and [m] itself ends in a commit, a refusal that satisfies [P], or an error. *)
Definition refuses (P : R -> Prop) (m : Tx R (exit R)) : Prop :=
  forall w, match (m w).1 with inl (Rollback r) | inr (Rollback r) => P r | _ => True end.

Lemma refusals_bind {A B : Type} (P : R -> Prop) (m : Tx R A) (k : A -> Tx R B) :
  refusals P m -> (forall a, refusals P (k a)) -> refusals P (m ≫= k).
Proof.
  intros Hm Hk w. unfold mbind, Tx_bind. specialize (Hm w). destruct (m w) as [[a|x] w']; [apply Hk|done].
Qed.

Lemma refuses_bind {A : Type} (P : R -> Prop) (m : Tx R A) (k : A -> Tx R (exit R)) :
  refusals P m -> (forall a, refuses P (k a)) -> refuses P (m ≫= k).
Proof.
  intros Hm Hk w. unfold mbind, Tx_bind. specialize (Hm w). destruct (m w) as [[a|x] w']; [apply Hk|done].
Qed.

(** What follows a read only has to cope with the values the read can return. *)
Lemma refusals_query {A B : Type} (P : R -> Prop) (f : Z -> Db -> A) (k : A -> Tx R B) :
  (forall t d, refusals P (k (f t d))) -> refusals P (query f ≫= k).
Proof. intros Hk w. exact (Hk w.(now) w.(db) w). Qed.

Lemma refusals_ensure (P : R -> Prop) b r : P r -> refusals P (ensure b r).
Proof. intros HP w. unfold ensure. by destruct b. Qed.

Lemma refusals_constraint (P : R -> Prop) b n : refusals P (constraint b n).
Proof. intros w. unfold constraint. by destruct b. Qed.

Lemma refusals_query_opt {A : Type} (P : R -> Prop) (f : Z -> Db -> option A) : refusals P (query_opt f).
Proof. intros w. unfold query_opt. by destruct (f _ _). Qed.

(** A reply to a committed transaction that satisfies [C]; or the database as it was,
    with a refusal that satisfies [P] or an error. *)
Lemma run_tx_cases (P : R -> Prop) (m : Tx R (exit R)) (w : World) (C : R -> World -> Prop) :
  refuses P m ->
  wp m (fun x w' => match x with Commit r => C r w' | _ => True end)
       (fun x w' => match x with Commit r => C r w' | _ => True end) (set_locks [] w) ->
  ((run_tx m w).2.(db) = w.(db) /\ match (run_tx m w).1 with inl r => P r | inr _ => True end) \/
  exists r w', (run_tx m w) = (inl r, finish w w' w'.(db)) /\ C r w'.
Proof.
  intros Hr. specialize (Hr (set_locks [] w)). unfold wp, run_tx.
  destruct (m (set_locks [] w)) as [[x|x] w']; destruct x; naive_solver.
Qed.
End wp.

#[export] Hint Resolve aborts_commits : caracal.

(** Closes the refusal branches. *)
Ltac wp_side :=
  try done; try match goal with HE : aborts ?E |- ?E _ _ => solve [apply HE; done] end.

(** Applies the rule for the head of the program. *)
Ltac wp_step :=
  match goal with
  | |- wp (_ ≫= _) _ _ _ => apply wp_bind
  | |- wp (mret _) _ _ _ => apply wp_ret
  | |- wp (commit _) _ _ _ => apply wp_commit
  | |- wp (rollback _) _ _ _ => apply wp_rollback; wp_side
  | |- wp (raise _) _ _ _ => apply wp_raise; wp_side
  | |- wp (ensure _ _) _ _ _ => apply wp_ensure; [intros ?|intros ?; wp_side]
  | |- wp (constraint _ _) _ _ _ => apply wp_constraint; [intros ?|intros ?; wp_side]
  | |- wp (query _) _ _ _ => apply wp_query
  | |- wp (exec _) _ _ _ => apply wp_exec
  | |- wp (advisory_lock _) _ _ _ => apply wp_lock
  | |- wp fresh_uuid _ _ _ => apply wp_fresh
  | |- wp (bump_stats _) _ _ _ => apply wp_stats
  | |- wp (query_opt _) _ _ _ => apply wp_query_opt; [intros ??|intros ?; wp_side]
  | |- wp (if _ then _ else _) _ _ _ => apply wp_if; intros ?
  end.

(** Walks over a program to collect its refusals. *)
Ltac refusals_walk :=
  repeat first
  [ progress intros
  | match goal with
    | |- refusals _ (match ?x with _ => _ end) => destruct x
    | |- refuses _ (match ?x with _ => _ end) => destruct x
    | |- refuses _ (_ ≫= _) => apply refuses_bind
    | |- refusals _ (_ ≫= _) => apply refusals_bind
    end
  | apply refusals_ensure; done | apply refusals_constraint | apply refusals_query_opt
  | progress cbv zeta
  | solve [auto with caracal]
  | solve [unfold refusals, refuses; intros ?; done] ].

Ltac wp_steps := repeat (wp_step; cbn beta iota).
