(* ===== verification/Scope.v ===== *)
(** * OAuth scope strings

    [packages/core/ts/src/scope.ts]: the parser of scope strings and the subset
    test that every narrowing decision uses. *)

From Stdlib Require Import Ascii.
From S2P Require Import Prelude.
From S2P Require Import Json.
Local Open Scope string_scope.

(** The three-byte UTF-8 encodings of the white space that [\s] matches. *)
Definition ws3 (a b c : nat) : bool :=
  bool_decide ((a = 225 /\ b = 154 /\ c = 128)
    \/ (a = 226 /\ b = 128 /\ ((128 <= c /\ c <= 138) \/ c = 168 \/ c = 169 \/ c = 175))
    \/ (a = 226 /\ b = 129 /\ c = 159)
    \/ (a = 227 /\ b = 128 /\ c = 128)
    \/ (a = 239 /\ b = 187 /\ c = 191)).

(** The number of bytes of the white-space character at the head of [s], 0 when
    there is none ([\s] on UTF-8). *)
Definition ws_bytes (s : string) : nat :=
  match s with
  | String.EmptyString => 0
  | String.String a r =>
      let n := nat_of_ascii a in
      if bool_decide ((9 <= n /\ n <= 13) \/ n = 32) then 1
      else match r with
           | String.EmptyString => 0
           | String.String b r' =>
               let m := nat_of_ascii b in
               if bool_decide (n = 194 /\ m = 160) then 2
               else match r' with
                    | String.EmptyString => 0
                    | String.String c _ => if ws3 n m (nat_of_ascii c) then 3 else 0
                    end
           end
  end.

(** [s.split(/\s+/)]: [skip] bytes of a matched character are still to be passed
    over, [in_ws] tells whether the separator is being extended, [cur] is the
    token read so far. *)
Fixpoint split_go (s : string) (skip : nat) (in_ws : bool) (cur : string) : list string :=
  match s with
  | String.EmptyString => [cur]
  | String.String c rest =>
      match skip with
      | S n => split_go rest n in_ws cur
      | O =>
          match ws_bytes s with
          | S n => if in_ws then split_go rest n true cur else cur :: split_go rest n true ""
          | O => split_go rest 0 false (cur +:+ String.String c "")
          end
      end
  end.

Definition split_ws (s : string) : list string := split_go s 0 false "".

(** Whether [s] consists of white-space characters only. *)
Fixpoint all_ws (s : string) (skip : nat) : bool :=
  match s with
  | String.EmptyString => true
  | String.String _ rest =>
      match skip, ws_bytes s with
      | S n, _ => all_ws rest n
      | O, S n => all_ws rest n
      | O, O => false
      end
  end.

Fixpoint trim_start (s : string) (skip : nat) : string :=
  match s with
  | String.EmptyString => ""
  | String.String _ rest =>
      match skip, ws_bytes s with
      | S n, _ => trim_start rest n
      | O, S n => trim_start rest n
      | O, O => s
      end
  end.

Fixpoint trim_end (s : string) : string :=
  match s with
  | String.EmptyString => ""
  | String.String c rest => if all_ws s 0 then "" else String.String c (trim_end rest)
  end.

(** [String.prototype.trim]. *)
Definition trim (s : string) : string := trim_end (trim_start s 0).

(** [s.length]: UTF-16 code units of a UTF-8 string (a continuation byte adds none,
    the lead byte of a four-byte character adds two). *)
Fixpoint js_length (s : string) : nat :=
  match s with
  | String.EmptyString => 0
  | String.String c rest =>
      let n := nat_of_ascii c in
      (if bool_decide (128 <= n /\ n < 192) then 0 else if bool_decide (240 <= n) then 2 else 1)
      + js_length rest
  end.

(** [parseScope]: the loop over the tokens with its [seen] set and [out] array. *)
Definition parseScope_step (out : list string) (token : string) : list string :=
  if bool_decide (token = "") || bool_decide (token ∈ out) then out else out ++ [token].

Definition parseScope (scope : option string) : list string :=
  match scope with
  | None => []
  | Some s => if bool_decide (s = "") then [] else foldl parseScope_step [] (split_ws s)
  end.

Definition hasScope (scope : option string) (required : string) : bool :=
  if bool_decide (required = "") then false else bool_decide (required ∈ parseScope scope).

Definition scopesAllowed (requested available : list string) : bool :=
  forallb (fun s => bool_decide (s ∈ available)) requested.

(** ** Properties *)

Lemma scopesAllowed_spec (requested available : list string) :
  scopesAllowed requested available = true <-> requested ⊆ available.
Proof.
  unfold scopesAllowed. rewrite forallb_forall. split.
  - intros H s Hs. specialize (H s). rewrite <-list_elem_of_In in H. by case_bool_decide; naive_solver.
  - intros H s Hs. apply list_elem_of_In in Hs. apply bool_decide_eq_true_2. by apply H.
Qed.

#[export] Hint Rewrite scopesAllowed_spec : caracal.

(** Tokens that a scope string can carry: not empty and free of white space. *)
Fixpoint ws_free (s : string) : bool :=
  match s with
  | String.EmptyString => true
  | String.String _ rest => bool_decide (ws_bytes s = 0%nat) && ws_free rest
  end.

Definition is_token (s : string) : bool := negb (bool_decide (s = "")) && ws_free s.

(** A space after a token never completes a multi-byte white-space character. *)
Lemma ws_bytes_space (c : ascii) (t r : string) :
  ws_bytes (String.String c t) = 0%nat -> ws_bytes (String.String c t +:+ " " +:+ r) = 0%nat.
Proof.
  change (String.String c t +:+ " " +:+ r) with (String.String c (t +:+ String.String " " r)).
  intros Ht. cbn [ws_bytes] in *. set (n := nat_of_ascii c) in *.
  case_bool_decide; [done|].
  destruct t as [|b t].
  - change ("" +:+ String.String " " r) with (String.String " " r). cbn iota beta zeta.
    change (nat_of_ascii " ") with 32%nat. rewrite bool_decide_eq_false_2 by lia.
    destruct r as [|e r]; [done|].
    assert (ws3 n 32 (nat_of_ascii e) = false) as ->; [|done].
    unfold ws3. apply bool_decide_eq_false_2. lia.
  - change (String.String b t +:+ String.String " " r)
      with (String.String b (t +:+ String.String " " r)). cbn iota beta zeta in *.
    destruct (bool_decide (n = 194%nat /\ _)); [done|].
    destruct t as [|e t]; [|exact Ht].
    change ("" +:+ String.String " " r) with (String.String " " r). cbn iota beta.
    change (nat_of_ascii " ") with 32%nat.
    assert (ws3 n (nat_of_ascii b) 32 = false) as ->; [|done].
    unfold ws3. apply bool_decide_eq_false_2. lia.
Qed.

Lemma split_go_token (t r cur : string) :
  ws_free t = true ->
  split_go (t +:+ " " +:+ r) 0 false cur = (cur +:+ t) :: split_go r 0 true "".
Proof.
  revert cur. induction t as [|c t IH]; intros cur Ht.
  - change ("" +:+ " " +:+ r) with (String.String " " r). cbn [split_go]. by rewrite string_app_nil_r.
  - cbn [ws_free] in Ht. bool_props.
    pose proof (ws_bytes_space c t r) as Hw.
    change ((String.String c t) +:+ " " +:+ r) with (String.String c (t +:+ " " +:+ r)) in *.
    cbn [split_go]. rewrite Hw, IH by done. by rewrite string_app_assoc.
Qed.

Lemma split_go_last (t cur : string) : ws_free t = true -> split_go t 0 false cur = [cur +:+ t].
Proof.
  revert cur. induction t as [|c t IH]; intros cur Ht.
  - cbn [split_go]. by rewrite string_app_nil_r.
  - cbn [ws_free] in Ht. bool_props. cbn [split_go].
    match goal with H : ws_bytes _ = _ |- _ => rewrite H end.
    rewrite IH by done. by rewrite string_app_assoc.
Qed.

(** A token right after a separator is read as after a fresh start. *)
Lemma split_go_in_ws (c : ascii) (t r : string) :
  ws_bytes (String.String c t +:+ r) = 0%nat ->
  split_go (String.String c t +:+ r) 0 true "" = split_go (String.String c t +:+ r) 0 false "".
Proof.
  change (String.String c t +:+ r) with (String.String c (t +:+ r)). intros H.
  cbn [split_go]. by rewrite H.
Qed.

Lemma split_ws_join (ts : list string) :
  ts <> [] -> forallb is_token ts = true -> split_ws (string_concat " " ts) = ts.
Proof.
  unfold split_ws. induction ts as [|t ts IH]; [done|]. intros _ Hts.
  cbn [forallb] in Hts. bool_props. unfold is_token in *. bool_props.
  destruct ts as [|t' ts].
  - cbn [string_concat]. rewrite split_go_last by done. done.
  - change (string_concat " " (t :: t' :: ts)) with (t +:+ " " +:+ string_concat " " (t' :: ts)).
    rewrite split_go_token by done. f_equal. etrans; [|by apply IH]. clear IH.
    cbn [forallb] in *. bool_props. unfold is_token in *. bool_props.
    destruct t' as [|c t']; [done|]. cbn [ws_free] in *. bool_props.
    destruct ts as [|t'' ts].
    + cbn [string_concat]. rewrite <-(string_app_nil_r (String.String c t')).
      apply split_go_in_ws. by rewrite string_app_nil_r.
    + change (string_concat " " (String.String c t' :: t'' :: ts))
        with (String.String c t' +:+ " " +:+ string_concat " " (t'' :: ts)).
      apply split_go_in_ws. by apply ws_bytes_space.
Qed.

Lemma parseScope_fold (ts out : list string) :
  (forall t, t ∈ ts -> t <> "") -> NoDup (out ++ ts)%list -> foldl parseScope_step out ts = (out ++ ts)%list.
Proof.
  revert out. induction ts as [|t ts IH]; intros out Hne Hnd; simpl; [by rewrite app_nil_r|].
  assert (parseScope_step out t = (out ++ [t])%list) as ->.
  { unfold parseScope_step. rewrite bool_decide_eq_false_2 by (apply Hne; set_solver).
    apply NoDup_app in Hnd as (_ & Hd & _).
    rewrite bool_decide_eq_false_2; [done|]. intros Hin. apply (Hd t Hin). set_solver. }
  rewrite IH; [by rewrite <-app_assoc|set_solver|by rewrite <-app_assoc].
Qed.

Lemma parseScope_fold_inv (ts out : list string) :
  NoDup out -> Forall (fun t => t <> "") out ->
  NoDup (foldl parseScope_step out ts) /\ Forall (fun t => t <> "") (foldl parseScope_step out ts)
  /\ (forall t, t ∈ foldl parseScope_step out ts <-> t ∈ out \/ (t ∈ ts /\ t <> "")).
Proof.
  revert out. induction ts as [|t ts IH]; intros out Hnd Hf; simpl.
  - split_and!; [done|done|set_solver].
  - unfold parseScope_step at 2 4 6.
    destruct (bool_decide_reflect (t = "")) as [->|Hne]; simpl.
    + destruct (IH out Hnd Hf) as (?&?&Hin). split_and!; try done. intros u. rewrite Hin. set_solver.
    + case_bool_decide.
      * destruct (IH out Hnd Hf) as (?&?&Hin). split_and!; try done. intros u. rewrite Hin. set_solver.
      * destruct (IH (out ++ [t])%list) as (?&?&Hin).
        { apply NoDup_app. split_and!; [done|set_solver|apply NoDup_singleton]. }
        { apply Forall_app. split; [done|]. by constructor. }
        split_and!; try done. intros u. rewrite Hin. set_solver.
Qed.

(** [parseScope] inverts joining with spaces: every list of distinct tokens is
    what parsing its space-separated spelling returns. *)
Theorem parseScope_join (ts : list string) :
  NoDup ts -> forallb is_token ts = true -> parseScope (Some (string_concat " " ts)) = ts.
Proof.
  intros Hnd Hts. unfold parseScope. destruct ts as [|t ts]; [done|].
  assert (forall u, u ∈ t :: ts -> u <> "") as Hne.
  { intros u Hu. apply list_elem_of_In, (proj1 (forallb_forall _ _) Hts) in Hu.
    unfold is_token in Hu. bool_props. done. }
  rewrite bool_decide_eq_false_2.
  - rewrite split_ws_join by done. by apply parseScope_fold.
  - destruct ts as [|t' ts]; simpl; [apply Hne; set_solver|].
    assert (t <> "") by (apply Hne; set_solver). by destruct t.
Qed.

Lemma parseScope_join_witness :
  parseScope (Some (string_concat " " ["agent:read"; "agent:write"])) = ["agent:read"; "agent:write"].
Proof. apply (parseScope_join ["agent:read"; "agent:write"]); vm_compute; repeat constructor; set_solver. Defined.
