(* ===== verification/Auth.v ===== *)
(** * Bearer verification

    [apps/coordinator/src/auth.ts]: who a request acts for.  JWT decoding and
    signature verification are the [jose] package's and enter as a parameter; every
    claim check, the operator's route list, the runtime identity query and the
    per-zone JWKS cache are modelled. *)

From Stdlib Require Import Ascii.
From S2P Require Import Prelude.
From S2P Require Import Json.
From S2P Require Import Schema.
From S2P Require Import Store.
From S2P Require Import Scope.
Local Open Scope string_scope.
Local Open Scope Z_scope.
Local Open Scope list_scope.

(** [req.caracalAuth]. *)
Record CaracalAuth := MkAuth {
  auth_zoneId : string;
  scopes : list string;
  subject : string;
  clientId : string;
  sessionId : option string;
  delegationEdgeId : option string;
  authorityRecordId : option string
}.

Abbreviation Claims := (list (string * json)).

(** [decodeJwt] and [jwtVerify] of [jose]: [None] when they throw; [jwtVerify] gets
    the zone whose key set it resolves and the current time. *)
Class Jose := {
  decodeJwt : string -> option Claims;
  jwtVerify : string -> string -> Z -> option Claims
}.

(** A request as the routes see it: the verified identity, if any. *)
Definition requireScope (req : option CaracalAuth) (scope : string) : bool :=
  match req with
  | Some a => bool_decide (scope ∈ a.(scopes))
  | None => false
  end.

Definition ownsApplication (req : option CaracalAuth) (applicationId : string) : bool :=
  match req with
  | Some a => bool_decide (a.(clientId) = applicationId)
  | None => false
  end.

Definition PUBLIC_PATHS : list string := ["/health"; "/ready"; "/v1/verify"].
Definition OPERATOR_TOKEN_PATHS : list string := ["/metrics"; "/stats"].
Definition BEARER_PREFIX : string := "Bearer ".
Definition MAX_BEARER_BYTES : nat := 4096.
Definition OPERATOR_SUBJECT : string := "caracal-operator".

(** [CoordinatorIdPattern]: [/^[A-Za-z0-9_.\-:]{1,128}$/]. *)
Definition id_char (c : ascii) : bool :=
  let n := nat_of_ascii c in
  bool_decide ((65 <= n /\ n <= 90) \/ (97 <= n /\ n <= 122) \/ (48 <= n /\ n <= 58)
               \/ n = 95 \/ n = 46 \/ n = 45)%nat.

Fixpoint id_chars (s : string) : bool :=
  match s with
  | String.EmptyString => true
  | String.String c rest => id_char c && id_chars rest
  end.

Definition CoordinatorIdPattern (s : string) : bool :=
  id_chars s && bool_decide (1 <= String.length s /\ String.length s <= 128)%nat.

Definition isSessionMandate (payload : Claims) : bool :=
  match ordered_get "use" payload with
  | Some (JStr u) => bool_decide (u = "session")
  | _ => false
  end.

(** [payload[k] as string], when it is one. *)
Definition str_claim (k : string) (payload : Claims) : option string :=
  match ordered_get k payload with Some (JStr s) => Some s | _ => None end.

Inductive SubjectProofResult :=
| ProofOk (authorityRecordId subject : string)
| ProofError (status : Z) (error : string).

Definition emptyArray (v : option json) : bool :=
  match v with None => true | Some (JArr []) => true | _ => false end.

Definition absent (v : option json) : bool := match v with None => true | Some _ => false end.

Definition validateSubjectProofClaims (payload : Claims) (applicationId : string) : SubjectProofResult :=
  if negb (bool_decide (str_claim "client_id" payload = Some applicationId)) then
    ProofError 403 "subject_proof_application_mismatch"
  else
    match str_claim "sub" payload, str_claim "sid" payload with
    | Some subject, Some authorityRecordId =>
        if bool_decide (subject = "") || bool_decide (authorityRecordId = "")
           || negb (bool_decide (str_claim "root_sid" payload = Some authorityRecordId))
           || negb (isSessionMandate payload)
           || negb (bool_decide (str_claim "sub_type" payload = Some "user"))
           || negb (absent (ordered_get "scope" payload) || bool_decide (str_claim "scope" payload = Some ""))
           || negb (emptyArray (ordered_get "target" payload))
           || negb (emptyArray (ordered_get "delegation_path" payload))
           || negb (absent (ordered_get "agent_session_id" payload))
           || negb (absent (ordered_get "delegation_edge_id" payload))
           || negb (absent (ordered_get "source_session_id" payload))
           || negb (absent (ordered_get "target_session_id" payload))
           || negb (match ordered_get "iat" payload with
                    | Some (JNum _) | Some (JDec _) | Some JNonFinite => true | _ => false end)
           || match str_claim "jti" payload with Some j => bool_decide (j = "") | None => true end
        then ProofError 401 "invalid_subject_proof"
        else ProofOk authorityRecordId subject
    | _, _ => ProofError 401 "invalid_subject_proof"
    end.

(** [path.split('/').filter(Boolean)]. *)
Fixpoint segments_go (s cur : string) : list string :=
  match s with
  | String.EmptyString => if bool_decide (cur = "") then [] else [cur]
  | String.String c rest =>
      if bool_decide (c = "/"%char) then
        (if bool_decide (cur = "") then [] else [cur]) ++ segments_go rest ""
      else segments_go rest (cur +:+ String.String c "")
  end.

Definition segments (path : string) : list string := segments_go path "".

(** [pathOnly] of [packages/serverCore/ts/src/url.ts]. *)
Fixpoint pathOnly (url : string) : string :=
  match url with
  | String.EmptyString => ""
  | String.String c rest => if bool_decide (c = "?"%char) then "" else String.String c (pathOnly rest)
  end.

Definition operatorZone (method path : string) : option string :=
  match segments path with
  | z0 :: zone :: rest =>
      if negb (bool_decide (z0 = "zones")) || negb (CoordinatorIdPattern zone) then None
      else
        let get := bool_decide (method = "GET") in
        let patch := bool_decide (method = "PATCH") in
        let del := bool_decide (method = "DELETE") in
        let post := bool_decide (method = "POST") in
        let allowed :=
          match rest with
          | [r2] =>
              (bool_decide (r2 = "agents") && get) || (bool_decide (r2 = "agent-services") && get)
              || (bool_decide (r2 = "invocations") && get)
          | [r2; r3] =>
              (bool_decide (r2 = "agents") && (get || del))
              || (bool_decide (r2 = "delegations") && get && bool_decide (r3 = "active"))
          | [r2; r3; r4] =>
              (bool_decide (r2 = "agents")
               && ((get && (bool_decide (r4 = "children") || bool_decide (r4 = "effective-authority")))
                   || (patch && (bool_decide (r4 = "suspend") || bool_decide (r4 = "resume")))))
              || (bool_decide (r2 = "delegations")
                  && ((get && (bool_decide (r3 = "inbound") || bool_decide (r3 = "outbound")))
                      || (get && (bool_decide (r4 = "traverse") || bool_decide (r4 = "impact")))
                      || (patch && bool_decide (r4 = "revoke"))))
              || (bool_decide (r2 = "outbox") && post && bool_decide (r4 = "requeue"))
          | [r2; r3; _; _] => bool_decide (r2 = "delegations") && get && bool_decide (r3 = "inbound")
          | _ => false
          end in
        if allowed then Some zone else None
  | _ => None
  end.

(** [jwksByZone] as the zones of its resolvers in insertion order; a hit moves the
    zone to the end, a miss inserts it and evicts from the front down to the cap. *)
Fixpoint evict (cap : Z) (zones : list string) : list string :=
  match zones with
  | [] => []
  | _ :: rest => if cap <? Z.of_nat (length zones) then evict cap rest else zones
  end.

Definition jwksForZone (cap : Z) (zoneId : string) (zones : list string) : list string :=
  if bool_decide (zoneId ∈ zones) then filter (fun z => z <> zoneId) zones ++ [zoneId]
  else evict cap (zones ++ [zoneId]).

(** The runtime identity query: the application is live and, when the token names an
    authority record, so is the record. *)
Definition live_application (t : Z) (a : Application.ApplicationRow) : bool :=
  bool_decide (a.(Application.archived_at) = None)
  && match a.(Application.expires_at) with None => true | Some e => t <? e end.

Definition live_authority (t : Z) (zone : string) (r : Authority.AuthorityRow) : bool :=
  bool_decide (r.(Authority.zone_id) = zone) && bool_decide (r.(Authority.status) = RActive)
  && (t <? r.(Authority.expires_at)).

Definition authority_live (t : Z) (d : Db) (zone id : string) : bool :=
  match d.(authority_records) !! id with Some r => live_authority t zone r | None => false end.

Definition validateRuntimeIdentity (t : Z) (d : Db) (zoneId clientId : string) (authorityRecordId : option string) : bool :=
  match d.(applications) !! clientId with
  | Some a =>
      bool_decide (a.(Application.zone_id) = zoneId) && live_application t a
      && (bool_decide (default_to "" authorityRecordId = "")
          || authority_live t d zoneId (default_to "" authorityRecordId))
  | None => false
  end.

Section auth.
Context `{Env} `{Jose}.

Definition matchesOperatorToken (token : string) : bool :=
  negb (bool_decide (cfg.(coordinatorToken) = "")) && bool_decide (token = cfg.(coordinatorToken)).

Definition verifySubjectProof (t : Z) (token zoneId applicationId : string) : SubjectProofResult :=
  if bool_decide (token = "") || bool_decide (MAX_BEARER_BYTES < js_length token)%nat then
    ProofError 401 "invalid_subject_proof"
  else
    match decodeJwt token with
    | None => ProofError 401 "invalid_subject_proof"
    | Some decoded =>
        if negb (bool_decide (str_claim "zone_id" decoded = Some zoneId)) then
          ProofError 401 "invalid_subject_proof"
        else match jwtVerify zoneId token t with
             | None => ProofError 401 "invalid_subject_proof"
             | Some payload => validateSubjectProofClaims payload applicationId
             end
    end.

(** How the pre-handler hook ends: the request goes on unauthenticated, with an
    identity, or has been answered. *)
Inductive AuthResult :=
| PassThrough
| Authenticated (a : CaracalAuth)
| Denied (status : Z) (error : string).

Record AuthRequest := MkAuthRequest {
  method : string;
  url : string;
  authorization : option string;
  param_zoneId : option string
}.

(** The claim checks after the signature has been verified for [tokenZone]. *)
Definition identityOf (t : Z) (d : Db) (req : AuthRequest) (tokenZone : string) (payload : Claims) : AuthResult :=
  match str_claim "zone_id" payload with
  | None => Denied 401 "invalid_token"
  | Some zoneId =>
      if bool_decide (zoneId = "") || negb (bool_decide (zoneId = tokenZone)) then Denied 401 "invalid_token"
      else if negb (isSessionMandate payload) then Denied 401 "invalid_token"
      else match str_claim "sub" payload with
      | None => Denied 401 "invalid_token"
      | Some subject =>
          if bool_decide (subject = "") then Denied 401 "invalid_token"
          else
            let scopes := match str_claim "scope" payload with
                          | Some s => filter (fun x => x <> "") (split_ws s)
                          | None => []
                          end in
            if negb (bool_decide (cfg.(requiredScope) ∈ scopes)) then Denied 403 "missing_scope"
            else if match req.(param_zoneId) with
                    | Some z => negb (bool_decide (z = "")) && negb (bool_decide (z = zoneId))
                    | None => false
                    end then Denied 403 "zone_mismatch"
            else
              let clientId := default_to "" (str_claim "client_id" payload) in
              if bool_decide (clientId = "") then Denied 401 "invalid_token"
              else
                let authorityRecordId := str_claim "sid" payload in
                if negb (validateRuntimeIdentity t d zoneId clientId authorityRecordId)
                then Denied 401 "identity_revoked"
                else Authenticated (MkAuth zoneId scopes subject clientId
                       (str_claim "agent_session_id" payload)
                       (str_claim "delegation_edge_id" payload) authorityRecordId)
      end
  end.

Definition starts_with (p s : string) : bool := String.prefix p s.

(** [s.slice(n)] on a prefix of ASCII characters. *)
Fixpoint slice_from (n : nat) (s : string) : string :=
  match n, s with
  | O, _ => s
  | S n', String.String _ rest => slice_from n' rest
  | S _, String.EmptyString => ""
  end.

Definition verifyBearer (t : Z) (d : Db) (req : AuthRequest) : AuthResult :=
  let path := pathOnly req.(url) in
  if bool_decide (path ∈ PUBLIC_PATHS) then PassThrough
  else match req.(authorization) with
  | None => Denied 401 "missing_token"
  | Some auth =>
      if negb (starts_with BEARER_PREFIX auth) then Denied 401 "missing_token"
      else
        let token := trim (slice_from (String.length BEARER_PREFIX) auth) in
        if bool_decide (token = "") || bool_decide (MAX_BEARER_BYTES < js_length token)%nat
        then Denied 401 "missing_token"
        else
          let operator := matchesOperatorToken token in
          let operatorPath := bool_decide (path ∈ OPERATOR_TOKEN_PATHS) in
          if operator && operatorPath then PassThrough
          else match (if operator then operatorZone req.(method) path else None) with
          | Some zoneId =>
              Authenticated (MkAuth zoneId [cfg.(requiredScope); "coordinator.admin"]
                               OPERATOR_SUBJECT OPERATOR_SUBJECT None None None)
          | None =>
              if operatorPath then Denied 403 "operator_token_required"
              else match decodeJwt token with
              | None => Denied 401 "invalid_token"
              | Some claims =>
                  match str_claim "zone_id" claims with
                  | None => Denied 401 "invalid_token"
                  | Some tokenZone =>
                      if negb (CoordinatorIdPattern tokenZone) then Denied 401 "invalid_token"
                      else match jwtVerify tokenZone token t with
                      | None => Denied 401 "invalid_token"
                      | Some payload => identityOf t d req tokenZone payload
                      end
                  end
              end
          end
  end.
End auth.

(** ** Properties *)

Lemma evict_suffix cap zs : exists pre, zs = pre ++ evict cap zs.
Proof.
  induction zs as [|z zs [pre IH]]; [by exists []|]. cbn [evict].
  destruct (_ <? _); [exists (z :: pre); cbn; by f_equal|by exists []].
Qed.

Lemma evict_length cap zs : 0 <= cap -> Z.of_nat (length (evict cap zs)) <= cap.
Proof.
  intros Hc. induction zs as [|z zs IH]; cbn [evict]; [cbn; lia|].
  destruct (Z.ltb_spec cap (Z.of_nat (length (z :: zs)))); [done|lia].
Qed.

Lemma evict_last cap zs z : 1 <= cap -> last (evict cap (zs ++ [z])) = Some z.
Proof.
  intros Hc. induction zs as [|y zs IH]; cbn [app evict].
  - destruct (Z.ltb_spec cap (Z.of_nat (length [z]))); [cbn in *; lia|done].
  - destruct (Z.ltb_spec cap (Z.of_nat (length (y :: zs ++ [z])))); [done|].
    by rewrite app_comm_cons, last_snoc.
Qed.

(** The per-zone JWKS cache never exceeds its cap, holds each zone once and keeps
    the zone just used: a caller who can name many zones cannot exhaust memory or
    evict the resolver in use. *)
Theorem jwks_cache_bounded (cap : Z) (zone : string) (zones : list string) :
  1 <= cap -> NoDup zones -> Z.of_nat (length zones) <= cap ->
  NoDup (jwksForZone cap zone zones)
  /\ Z.of_nat (length (jwksForZone cap zone zones)) <= cap
  /\ last (jwksForZone cap zone zones) = Some zone.
Proof.
  intros Hc Hnd Hlen. unfold jwksForZone. case_bool_decide as Hin.
  - split_and!; [| |by rewrite last_snoc].
    + apply NoDup_app. split_and!; [by apply NoDup_filter| |apply NoDup_singleton].
      intros x [Hx _]%list_elem_of_filter. set_solver.
    + rewrite length_app. cbn.
      assert (length (filter (fun z => z <> zone) zones) < length zones)%nat; [|lia].
      apply length_filter_lt with zone; [done|]. by intros Hn.
  - split_and!; [|apply evict_length; lia|by apply evict_last].
    destruct (evict_suffix cap (zones ++ [zone])) as [pre Hpre].
    assert (NoDup (zones ++ [zone])) as Hnd'.
    { apply NoDup_app. split_and!; [done|set_solver|apply NoDup_singleton]. }
    rewrite Hpre in Hnd'. by apply NoDup_app in Hnd' as (_ & _ & ?).
Qed.

(** The routes the operator token opens, by method and the path below the zone. *)
Definition operator_routes : list (string * list (option string)) :=
  [("GET", [Some "agents"]); ("GET", [Some "agents"; None]); ("DELETE", [Some "agents"; None]);
   ("GET", [Some "agents"; None; Some "children"]); ("GET", [Some "agents"; None; Some "effective-authority"]);
   ("PATCH", [Some "agents"; None; Some "suspend"]); ("PATCH", [Some "agents"; None; Some "resume"]);
   ("GET", [Some "delegations"; Some "active"]);
   ("GET", [Some "delegations"; Some "inbound"; None]); ("GET", [Some "delegations"; Some "outbound"; None]);
   ("GET", [Some "delegations"; Some "inbound"; None; None]);
   ("GET", [Some "delegations"; None; Some "traverse"]); ("GET", [Some "delegations"; None; Some "impact"]);
   ("PATCH", [Some "delegations"; None; Some "revoke"]);
   ("GET", [Some "agent-services"]); ("GET", [Some "invocations"]);
   ("POST", [Some "outbox"; None; Some "requeue"])].

Definition matches_route (pat : list (option string)) (path : list string) : Prop :=
  Forall2 (fun p s => match p with Some x => s = x | None => True end) pat path.

(** Shows that the [n]-th listed route is the one taken. *)
Ltac try_route n :=
  let r := eval cbv in (operator_routes !! n%nat) in
  match r with
  | Some (_, ?pat) =>
      exists pat; split_and!;
        [apply list_elem_of_lookup; exists n; reflexivity|solve [repeat constructor]|done]
  end.

Ltac pick_route n :=
  first [try_route n | match n with S ?k => pick_route k end].

(** The operator token is confined: it authenticates for a path only when the path
    is [/zones/<zone>/...] with a well-formed zone and one of the listed routes; in
    particular it never starts a session, creates a delegation or an invocation. *)
Theorem operator_token_confined (m path z : string) :
  operatorZone m path = Some z ->
  exists rest pat, segments path = "zones" :: z :: rest /\ CoordinatorIdPattern z = true
    /\ (m, pat) ∈ operator_routes /\ matches_route pat rest.
Proof.
  unfold operatorZone. destruct (segments path) as [|z0 [|zone rest]]; [done|done|].
  destruct (negb _ || negb _) eqn:E; [done|]. bool_props. subst z0. intros Hz.
  enough (exists pat, (m, pat) ∈ operator_routes /\ matches_route pat rest /\ z = zone)
    as (pat & ? & ? & ->) by (exists rest, pat; done).
  destruct rest as [|r2 [|r3 [|r4 [|r5 [|]]]]]; try done; unfold matches_route;
    match goal with H : (if ?b then _ else _) = _ |- _ => destruct b eqn:Hb; [|done] end;
    simplify_eq;
    repeat match goal with
    | H : (_ || _)%bool = true |- _ => apply orb_true_iff in H as [H|H]
    | H : (_ && _)%bool = true |- _ => apply andb_true_iff in H as [? H]
    end; bool_props; subst; pick_route 16%nat.
Qed.

Section sound.
Context `{Env} `{Jose}.

(** The identity the operator token gives. *)
Definition operator_identity (z : string) : CaracalAuth :=
  MkAuth z [cfg.(requiredScope); "coordinator.admin"] OPERATOR_SUBJECT OPERATOR_SUBJECT None None None.

(** What a verified mandate guarantees about the identity it yields. *)
Definition mandate_identity (t : Z) (d : Db) (req : AuthRequest) (a : CaracalAuth) : Prop :=
  exists token payload,
    jwtVerify a.(auth_zoneId) token t = Some payload /\ isSessionMandate payload = true
    /\ CoordinatorIdPattern a.(auth_zoneId) = true
    /\ cfg.(requiredScope) ∈ a.(scopes) /\ a.(subject) <> "" /\ a.(clientId) <> ""
    /\ (forall z, req.(param_zoneId) = Some z -> z = "" \/ z = a.(auth_zoneId))
    /\ validateRuntimeIdentity t d a.(auth_zoneId) a.(clientId) a.(authorityRecordId) = true.

Lemma identityOf_sound t d req z token payload a :
  jwtVerify z token t = Some payload -> CoordinatorIdPattern z = true ->
  identityOf t d req z payload = Authenticated a -> mandate_identity t d req a.
Proof.
  intros Hv Hz. unfold identityOf. repeat (case_match; try done); intros; simplify_eq;
    bool_props; subst; exists token, payload; cbn; split_and!; try done;
    intros z' Hz'; simplify_eq.
  match goal with H : (_ && _)%bool = false |- _ => apply andb_false_iff in H as [Hf|Hf] end;
    apply negb_false_iff, bool_decide_eq_true in Hf; auto.
Qed.

(** Every authenticated request acts for the operator on a listed route, or for a
    live application of the zone it names, under a verified session mandate that
    carries the required scope and, when it names one, a live authority record: an
    identity never crosses zones and never outlives its application or record. *)
Theorem verifyBearer_sound (t : Z) (d : Db) (req : AuthRequest) (a : CaracalAuth) :
  verifyBearer t d req = Authenticated a ->
  (operatorZone req.(method) (pathOnly req.(url)) = Some a.(auth_zoneId)
   /\ cfg.(coordinatorToken) <> "" /\ a = operator_identity a.(auth_zoneId))
  \/ mandate_identity t d req a.
Proof.
  unfold verifyBearer. repeat (case_match; try done); intros; simplify_eq.
  - left. cbn. split_and!; [done| |done].
    match goal with Hm : matchesOperatorToken _ = true |- _ =>
      unfold matchesOperatorToken in Hm end. bool_props. done.
  - right. bool_props. eapply identityOf_sound; eauto.
  - right. bool_props. eapply identityOf_sound; eauto.
Qed.

(** A subject proof is accepted only for a root session mandate of a user that
    names the application: no scopes, no target, no delegation and no session claims
    ride along. *)
Theorem subject_proof_is_root (payload : Claims) (app rid sub : string) :
  validateSubjectProofClaims payload app = ProofOk rid sub ->
  str_claim "client_id" payload = Some app /\ str_claim "sub" payload = Some sub /\ sub <> ""
  /\ str_claim "sid" payload = Some rid /\ rid <> "" /\ str_claim "root_sid" payload = Some rid
  /\ isSessionMandate payload = true /\ str_claim "sub_type" payload = Some "user"
  /\ (ordered_get "scope" payload = None \/ str_claim "scope" payload = Some "")
  /\ (ordered_get "target" payload = None \/ ordered_get "target" payload = Some (JArr []))
  /\ (ordered_get "delegation_path" payload = None \/ ordered_get "delegation_path" payload = Some (JArr []))
  /\ ordered_get "agent_session_id" payload = None /\ ordered_get "delegation_edge_id" payload = None
  /\ ordered_get "source_session_id" payload = None /\ ordered_get "target_session_id" payload = None.
Proof.
  assert (forall v, absent v = true -> v = None) as Ha by (by intros []).
  assert (forall v, emptyArray v = true -> v = None \/ v = Some (JArr [])) as He.
  { intros [[]|]; cbn; try done; [|by left]. intros. case_match; [by right|done]. }
  unfold validateSubjectProofClaims.
  destruct (negb _) eqn:E1; [done|].
  destruct (str_claim "sub" payload) as [s|] eqn:Es; [|done].
  destruct (str_claim "sid" payload) as [i|] eqn:Ei; [|done].
  destruct (_ || _) eqn:E2; [done|]. intros Hok. simplify_eq. bool_props.
  repeat match goal with H : absent _ = true |- _ => apply Ha in H end.
  split_and!; auto.
  match goal with H : (absent _ || _)%bool = true |- _ => apply orb_true_iff in H as [Hx|Hx] end;
    bool_props; auto.
Qed.
End sound.
