(* ===== verification/Outbox.v ===== *)
(** * Transactional outbox and graph epochs

    [apps/coordinator/src/outbox.ts] and [delegationEpochs.ts]: every state change
    writes the event that announces it in the same transaction, deduplicated by
    [(producer, topic, dedupe_key)], and delegation changes bump the zone's epoch. *)

From S2P Require Import Prelude.
From S2P Require Import Json.
From S2P Require Import Schema.
From S2P Require Import Store.
Local Open Scope string_scope.
Local Open Scope Z_scope.
Local Open Scope list_scope.

(** [Topics]. *)
Definition AgentsLifecycle : string := "caracal.agents.lifecycle".
Definition SessionsRevoke : string := "caracal.sessions.revoke".
Definition InvocationsLifecycle : string := "caracal.invocations.lifecycle".
Definition DelegationsInvalidate : string := "caracal.delegations.invalidate".

Definition coordinator_producer : string := "coordinator".

Record OutboxItem := MkItem {
  topic : string;
  dedupeKey : string;
  payload : list (string * json)
}.

Definition item_key (i : OutboxItem) : string * string * string :=
  (coordinator_producer, i.(topic), i.(dedupeKey)).

(** The columns an [INSERT] leaves to their defaults. *)
Definition new_outbox_row (t : Z) (id : string) (p : list (string * json)) : Outbox.OutboxRow :=
  Outbox.MkOutboxRow id p OPending 0 t None t t.

(** [INSERT ... ON CONFLICT (producer, topic, dedupe_key) DO NOTHING]. *)
Definition outbox_insert (id : string) (i : OutboxItem) (t : Z) (d : Db) : Db :=
  match d.(caracal_outbox) !! item_key i with
  | Some _ => d
  | None => set_caracal_outbox (<[item_key i := new_outbox_row t id i.(payload)]> d.(caracal_outbox)) d
  end.

Section outbox.
Context `{Env} {R : Type}.

Definition enqueue (topic dedupeKey : string) (payload : list (string * json)) : Tx R unit :=
  id ← fresh_uuid;
  exec (outbox_insert id (MkItem topic dedupeKey payload)).

(** One multi-row [INSERT]; within it the first of two equal keys wins. *)
Fixpoint enqueueMany (items : list OutboxItem) : Tx R unit :=
  match items with
  | [] => mret tt
  | i :: rest =>
      id ← fresh_uuid;
      exec (outbox_insert id i);;
      enqueueMany rest
  end.

(** [INSERT ... ON CONFLICT (zone_id) DO UPDATE SET epoch = epoch + 1 RETURNING epoch]. *)
Definition next_epoch (zoneId : string) (d : Db) : Z :=
  match d.(delegation_graph_epochs) !! zoneId with Some e => e + 1 | None => 1 end.

Definition bumpDelegationEpoch (zoneId : string) : Tx R Z :=
  epoch ← query (fun _ => next_epoch zoneId);
  exec (fun _ d => set_delegation_graph_epochs (<[zoneId := epoch]> d.(delegation_graph_epochs)) d);;
  mret epoch.
End outbox.

(** ** Properties *)

(** [o'] is [o] with the pending rows of [items] added. *)
Definition outbox_extends (o o' : gmap (string * string * string) Outbox.OutboxRow)
  (items : list OutboxItem) : Prop :=
  (forall k r, o !! k = Some r -> o' !! k = Some r)
  /\ (forall i, i ∈ items -> is_Some (o' !! item_key i))
  /\ (forall k r, o' !! k = Some r -> o !! k = Some r \/
        exists i, i ∈ items /\ k = item_key i /\ o !! k = None
                  /\ r.(Outbox.payload_json) = i.(payload) /\ r.(Outbox.status) = OPending).

(** Two worlds that differ at most in the outbox and the generated identifiers. *)
Definition only_outbox (w w' : World) (items : list OutboxItem) : Prop :=
  exists o n, w' = set_uuids n (set_db (set_caracal_outbox o w.(db)) w)
              /\ outbox_extends w.(db).(caracal_outbox) o items.

Lemma outbox_extends_refl o : outbox_extends o o [].
Proof. split_and!; [done|set_solver|naive_solver]. Qed.

Lemma outbox_insert_extends id i t d :
  exists o, outbox_insert id i t d = set_caracal_outbox o d
            /\ outbox_extends d.(caracal_outbox) o [i].
Proof.
  unfold outbox_insert. destruct (d.(caracal_outbox) !! item_key i) as [r|] eqn:E.
  - exists d.(caracal_outbox). split; [by destruct d|]. split_and!; [done| |naive_solver].
    intros j ->%list_elem_of_singleton. eauto.
  - eexists. split; [done|]. split_and!.
    + intros k r Hk. rewrite lookup_insert_ne; [done|]. congruence.
    + intros j ->%list_elem_of_singleton. rewrite lookup_insert_eq. eauto.
    + intros k r Hk. destruct (decide (item_key i = k)) as [<-|Hne].
      * rewrite lookup_insert_eq in Hk. simplify_eq. right. exists i. set_solver.
      * rewrite lookup_insert_ne in Hk by done. by left.
Qed.

Lemma outbox_extends_trans o1 o2 o3 is1 is2 :
  outbox_extends o1 o2 is1 -> outbox_extends o2 o3 is2 -> outbox_extends o1 o3 (is1 ++ is2).
Proof.
  intros (A1 & B1 & C1) (A2 & B2 & C2). split_and!.
  - auto.
  - intros i [Hi|Hi]%elem_of_app; [|auto]. destruct (B1 i Hi) as [r Hr]. eauto.
  - intros k r Hk. destruct (C2 k r Hk) as [Hk2|(i & Hi & -> & Hn & Hp)].
    + destruct (C1 k r Hk2) as [|(i & Hi & -> & Hr)]; [by left|]. right. exists i.
      split_and!; [set_solver|done|tauto..].
    + right. exists i. split_and!; [set_solver|done| |tauto|tauto].
      destruct (o1 !! item_key i) as [r1|] eqn:E; [|done].
      specialize (A1 _ _ E). congruence.
Qed.

Section outbox_wp.
Context `{Env} {R : Type}.

Lemma wp_enqueueMany (items : list OutboxItem) (Q : unit -> World -> Prop) (E : exit R -> World -> Prop) w :
  (forall w', only_outbox w w' items -> Q tt w') -> wp (enqueueMany items) Q E w.
Proof.
  revert w. induction items as [|i items IH]; intros w HQ; cbn [enqueueMany].
  - apply wp_ret, HQ. exists w.(db).(caracal_outbox), w.(uuids).
    split; [by destruct w as [[] ? ? ? ? ? ?]|apply outbox_extends_refl].
  - wp_steps. apply IH. intros w' (o & n & -> & Ho). apply HQ. cbn in *.
    destruct (outbox_insert_extends (uuidv7 w.(uuids)) i w.(now) w.(db)) as (o1 & Heq & Ho1).
    rewrite Heq in *. exists o, n. split; [by destruct w as [[] ? ? ? ? ? ?]|].
    exact (outbox_extends_trans _ _ _ _ _ Ho1 Ho).
Qed.

Lemma wp_enqueue t k p (Q : unit -> World -> Prop) (E : exit R -> World -> Prop) w :
  (forall w', only_outbox w w' [MkItem t k p] -> Q tt w') -> wp (enqueue t k p) Q E w.
Proof.
  intros HQ. unfold enqueue. wp_steps. apply HQ.
  destruct (outbox_insert_extends (uuidv7 w.(uuids)) (MkItem t k p) w.(now) w.(db)) as (o & Heq & Ho).
  exists o, (S w.(uuids)). cbn. rewrite Heq. split; [by destruct w|done].
Qed.

Lemma wp_bumpDelegationEpoch z (Q : Z -> World -> Prop) (E : exit R -> World -> Prop) w :
  Q (next_epoch z w.(db))
    (set_db (set_delegation_graph_epochs
       (<[z := next_epoch z w.(db)]> w.(db).(delegation_graph_epochs)) w.(db)) w) ->
  wp (bumpDelegationEpoch z) Q E w.
Proof. intros HQ. unfold bumpDelegationEpoch. wp_steps. exact HQ. Qed.
End outbox_wp.

(** The epoch of a zone only grows. *)
Lemma next_epoch_gt z d e :
  d.(delegation_graph_epochs) !! z = Some e -> e < next_epoch z d.
Proof. unfold next_epoch. intros ->. lia. Qed.
