(* ===== verification/Idempotency.v ===== *)
(** * Idempotency receipts

    [apps/coordinator/src/idempotency.ts]: the [Idempotency-Key] header, the digests
    of key and request, and the receipt that makes a repeated mutation replay the
    first one's response. *)

From Stdlib Require Import Ascii.
From S2P Require Import Prelude.
From S2P Require Import Json.
From S2P Require Import Schema.
From S2P Require Import Store.
From S2P Require Import Scope.
Local Open Scope string_scope.
Local Open Scope Z_scope.
Local Open Scope list_scope.

(** A request header: absent, sent once, or sent several times. *)
Inductive header :=
| HAbsent
| HOne (value : string)
| HMany (values : list string).

Definition IDEMPOTENCY_KEY_MAX_BYTES : Z := 255.

Inductive IdempotencyStart :=
| New (keyDigest requestDigest : string)
| Replayed (status : Z) (response : json) (resourceId : string)
| Conflict
| Limit.

(** Whether [s] ends with a white-space character. *)
Fixpoint ends_with_ws (s : string) : bool :=
  match s with
  | String.EmptyString => false
  | String.String _ rest =>
      (bool_decide (ws_bytes s <> 0%nat) && bool_decide (ws_bytes s = String.length s))
      || ends_with_ws rest
  end.

(** [value !== value.trim()]. *)
Definition surrounded_by_ws (s : string) : bool :=
  bool_decide (ws_bytes s <> 0%nat) || ends_with_ws s.

(** [/[\u0000-\u001f\u007f]/.test(value)]. *)
Fixpoint has_control (s : string) : bool :=
  match s with
  | String.EmptyString => false
  | String.String c rest =>
      let n := nat_of_ascii c in
      bool_decide (n < 32)%nat || bool_decide (n = 127)%nat || has_control rest
  end.

Definition count_invalid (s : IdempotencyStats) : IdempotencyStats :=
  MkStats s.(created) s.(replayed) s.(conflicts) (s.(invalid) + 1) s.(expired).
Definition count_expired (n : Z) (s : IdempotencyStats) : IdempotencyStats :=
  MkStats s.(created) s.(replayed) s.(conflicts) s.(invalid) (s.(expired) + n).
Definition count_conflict (s : IdempotencyStats) : IdempotencyStats :=
  MkStats s.(created) s.(replayed) (s.(conflicts) + 1) s.(invalid) s.(expired).
Definition count_replayed (s : IdempotencyStats) : IdempotencyStats :=
  MkStats s.(created) (s.(replayed) + 1) s.(conflicts) s.(invalid) s.(expired).
Definition count_created (s : IdempotencyStats) : IdempotencyStats :=
  MkStats (s.(created) + 1) s.(replayed) s.(conflicts) s.(invalid) s.(expired).

Section idempotency.
Context `{Env} {R : Type}.

Definition parseIdempotencyKey (value : header) : Tx R (option string) :=
  match value with
  | HAbsent => mret None
  | HMany _ => bump_stats count_invalid;; raise (IdempotencyKeyError "idempotency_key_multiple")
  | HOne v =>
      if bool_decide (String.length v = 0%nat) || surrounded_by_ws v then
        bump_stats count_invalid;; raise (IdempotencyKeyError "idempotency_key_invalid")
      else if (IDEMPOTENCY_KEY_MAX_BYTES <? Z.of_nat (String.length v)) || has_control v then
        bump_stats count_invalid;; raise (IdempotencyKeyError "idempotency_key_invalid")
      else mret (Some v)
  end.

(** [None] is the [TypeError] of [canonicalJson]. *)
Definition requestDigest (value : json) : option string := sha256 <$> canonicalJson value.

Definition nul : string := String.String (ascii_of_nat 0) "".

Definition keyDigest (key hmacKey : string) : string :=
  hmac_sha256 hmacKey ("caracal:coordinator:idempotency:v1" +:+ nul +:+ key).

Definition lockDigest (key : string) : string :=
  sha256 ("caracal:coordinator:idempotency-lock:v1" +:+ nul +:+ key).

Record StartInput := MkStartInput {
  operation : string;
  zoneId : string;
  scopeId : string;
  key : string;
  request : json;
  hmacKeys : list string;
  maxReceiptsPerScope : Z
}.

Abbreviation receipt_key := (string * string * string * string)%type.

(** [key_digest IN (keyHash, previousKeyHash)] in the operation's scope. *)
Definition receipt_keys (op z s keyHash previousKeyHash : string) (k : receipt_key) : bool :=
  bool_decide (k = (op, z, s, keyHash)) || bool_decide (k = (op, z, s, previousKeyHash)).

Definition expired_receipt (t : Z) (r : Receipt.ReceiptRow) : bool := r.(Receipt.expires_at) <=? t.

Definition live_receipt (t : Z) (r : Receipt.ReceiptRow) : bool := t <? r.(Receipt.expires_at).

(** The live receipt of the key; the one under the current HMAC key first. *)
Definition find_receipt (op z s keyHash previousKeyHash : string) (t : Z) (d : Db)
  : option Receipt.ReceiptRow :=
  match d.(receipts) !! (op, z, s, keyHash), d.(receipts) !! (op, z, s, previousKeyHash) with
  | Some r, o => if live_receipt t r then Some r
                 else match o with Some r' => if live_receipt t r' then Some r' else None | None => None end
  | None, Some r' => if live_receipt t r' then Some r' else None
  | None, None => None
  end.

(** [COUNT( * )] of the live receipts of the scope. *)
Definition count_receipts (op z s : string) (t : Z) (d : Db) : Z :=
  Z.of_nat (length (select (fun k r => bool_decide (k.1 = (op, z, s)) && live_receipt t r) d.(receipts))).

Definition startIdempotency (input : StartInput) : Tx R IdempotencyStart :=
  let op := input.(operation) in let z := input.(zoneId) in let s := input.(scopeId) in
  let keyHashes := (fun k => keyDigest input.(key) k) <$> input.(hmacKeys) in
  let keyHash := default_to "" (head keyHashes) in
  let previousKeyHash := default_to keyHash (keyHashes !! 1%nat) in
  bodyHash ← match requestDigest input.(request) with
             | Some h => mret h
             | None => raise TypeError
             end;
  advisory_lock (op +:+ ":" +:+ z +:+ ":" +:+ s +:+ ":" +:+ lockDigest input.(key));;
  let stale t k r := receipt_keys op z s keyHash previousKeyHash k && expired_receipt t r in
  n ← query (fun t d => Z.of_nat (length (select (stale t) d.(receipts))));
  exec (fun t d => set_receipts (delete_where (stale t) d.(receipts)) d);;
  bump_stats (count_expired n);;
  row ← query (find_receipt op z s keyHash previousKeyHash);
  match row with
  | None =>
      n ← query (count_receipts op z s);
      mret (if input.(maxReceiptsPerScope) <=? n then Limit else New keyHash bodyHash)
  | Some r =>
      if negb (bool_decide (r.(Receipt.request_digest) = bodyHash)) then
        bump_stats count_conflict;; mret Conflict
      else
        bump_stats count_replayed;;
        mret (Replayed r.(Receipt.response_status) r.(Receipt.response_json) r.(Receipt.resource_id))
  end.

Record CompleteInput := MkCompleteInput {
  c_operation : string;
  c_zoneId : string;
  c_scopeId : string;
  c_keyDigest : string;
  c_requestDigest : string;
  resourceType : string;
  resourceId : string;
  responseStatus : Z;
  response : json;
  retentionSeconds : Z
}.

(** The [INSERT] with the table's unique and [CHECK] constraints. *)
Definition completeIdempotency (input : CompleteInput) : Tx R unit :=
  id ← fresh_uuid;
  let k := (input.(c_operation), input.(c_zoneId), input.(c_scopeId), input.(c_keyDigest)) in
  free ← query (fun _ d => bool_decide (d.(receipts) !! k = None));
  constraint free "coordinator_idempotency_scope_unique";;
  constraint ((200 <=? input.(responseStatus)) && (input.(responseStatus) <=? 299))
    "coordinator_idempotency_response_status_check";;
  constraint (0 <? input.(retentionSeconds)) "coordinator_idempotency_expiry_check";;
  exec (fun t d => set_receipts (<[k :=
    Receipt.MkReceiptRow id input.(c_requestDigest) input.(resourceType) input.(resourceId)
      input.(responseStatus) input.(response) t (t + seconds input.(retentionSeconds))]> d.(receipts)) d);;
  bump_stats count_created.
End idempotency.

(** ** Properties *)

Section facts.
Context `{Env} {R : Type}.

Definition current_digest (input : StartInput) : string :=
  default_to "" (head ((fun k => keyDigest input.(key) k) <$> input.(hmacKeys))).

Definition previous_digest (input : StartInput) : string :=
  default_to (current_digest input) (((fun k => keyDigest input.(key) k) <$> input.(hmacKeys)) !! 1%nat).

(** What [startIdempotency] answers for a request whose digest is [h]. *)
Definition start_outcome (input : StartInput) (h : string) (t : Z) (d : Db) : IdempotencyStart :=
  match find_receipt input.(operation) input.(zoneId) input.(scopeId)
          (current_digest input) (previous_digest input) t d with
  | None =>
      if input.(maxReceiptsPerScope) <=? count_receipts input.(operation) input.(zoneId) input.(scopeId) t d
      then Limit else New (current_digest input) h
  | Some r =>
      if bool_decide (r.(Receipt.request_digest) = h)
      then Replayed r.(Receipt.response_status) r.(Receipt.response_json) r.(Receipt.resource_id)
      else Conflict
  end.

(** The receipts once the expired ones of this key are gone. *)
Definition purge (input : StartInput) (t : Z) (d : Db) : Db :=
  set_receipts (delete_where (fun k r =>
    receipt_keys input.(operation) input.(zoneId) input.(scopeId)
      (current_digest input) (previous_digest input) k && expired_receipt t r) d.(receipts)) d.

Lemma find_receipt_purge input t d op z s k1 k2 :
  find_receipt op z s k1 k2 t (purge input t d) = find_receipt op z s k1 k2 t d.
Proof.
  unfold find_receipt, purge. cbn [receipts set_receipts].
  assert (forall k, match delete_where (fun k r =>
      receipt_keys input.(operation) input.(zoneId) input.(scopeId)
        (current_digest input) (previous_digest input) k && expired_receipt t r) d.(receipts) !! k with
    | Some r => if live_receipt t r then Some r else None
    | None => None
    end = match d.(receipts) !! k with
    | Some r => if live_receipt t r then Some r else None
    | None => None
    end) as Hk.
  { intros k. unfold delete_where. rewrite map_lookup_imap.
    destruct (d.(receipts) !! k) as [r|]; simpl; [|done].
    destruct (receipt_keys _ _ _ _ _ _); simpl; [|done].
    unfold expired_receipt, live_receipt. destruct (Z.leb_spec (Receipt.expires_at r) t); [|done].
    by rewrite (proj2 (Z.ltb_ge _ _)). }
  pose proof (Hk (op, z, s, k1)) as H1. pose proof (Hk (op, z, s, k2)) as H2. clear Hk.
  destruct (delete_where _ _ !! (op, z, s, k1)) as [a1|],
    (delete_where _ _ !! (op, z, s, k2)) as [a2|],
    (d.(receipts) !! (op, z, s, k1)) as [b1|], (d.(receipts) !! (op, z, s, k2)) as [b2|];
    repeat case_match; congruence.
Qed.

Lemma count_receipts_purge input t d op z s :
  count_receipts op z s t (purge input t d) = count_receipts op z s t d.
Proof.
  unfold count_receipts, purge. cbn [receipts set_receipts]. f_equal.
  apply Permutation_length, NoDup_Permutation.
  - eapply NoDup_fmap_1, NoDup_select_keys.
  - eapply NoDup_fmap_1, NoDup_select_keys.
  - intros [k r]. rewrite !elem_of_select, lookup_delete_where.
    split; [tauto|]. intros [Hk Hp]. split; [|done]. split; [done|].
    apply andb_true_iff in Hp as [_ Hl]. unfold live_receipt, expired_receipt in *.
    apply Z.ltb_lt in Hl. rewrite (proj2 (Z.leb_gt _ _)) by done. by rewrite andb_false_r.
Qed.

(** The transaction part of [startIdempotency]: it answers [start_outcome] and
    changes nothing but expired receipts of the same key. *)
Lemma wp_startIdempotency input (Q : IdempotencyStart -> World -> Prop) (E : exit R -> World -> Prop) w :
  (forall h st l, requestDigest input.(request) = Some h ->
     Q (start_outcome input h w.(now) w.(db))
       (set_stats st (set_locks l (set_db (purge input w.(now) w.(db)) w)))) ->
  (requestDigest input.(request) = None -> E (Raise TypeError) w) ->
  wp (startIdempotency input) Q E w.
Proof.
  intros HQ HE. unfold startIdempotency. apply wp_bind.
  destruct (requestDigest input.(request)) as [h|]; [|by apply HE]. apply wp_ret. wp_steps.
  fold (current_digest input) (previous_digest input).
  change (set_receipts _ _) with (purge input w.(now) w.(db)).
  match goal with |- wp (match ?f _ ?d with _ => _ end) _ _ _ => 
    assert (f w.(now) d = find_receipt input.(operation) input.(zoneId) input.(scopeId)
      (current_digest input) (previous_digest input) w.(now) w.(db)) as Hf by apply find_receipt_purge
  end.
  cbn [now set_stats set_db set_locks db] in *. rewrite Hf. clear Hf.
  pose proof (fun st l => HQ h st l eq_refl) as HQ'. unfold start_outcome in HQ'.
  destruct (find_receipt _ _ _ _ _ _ _) as [r|].
  - destruct (bool_decide (r.(Receipt.request_digest) = h)) eqn:Eh; cbn [negb]; wp_steps; apply HQ'.
  - wp_steps. cbn [now set_stats set_db set_locks db]. rewrite count_receipts_purge. apply HQ'.
Qed.

Lemma startIdempotency_runs input h w :
  requestDigest input.(request) = Some h ->
  (startIdempotency input w : (_ + exit R) * _).1 = inl (start_outcome input h w.(now) w.(db)).
Proof.
  intros Hh.
  assert (wp (R := R) (startIdempotency input)
    (fun o _ => o = start_outcome input h w.(now) w.(db)) (fun _ _ => False) w) as Hwp.
  { apply wp_startIdempotency; [|congruence]. intros h' st l Hh'. cbn. congruence. }
  unfold wp in Hwp. destruct (startIdempotency input w) as [[o|x] w']; cbn; [by f_equal|done].
Qed.

Lemma wp_completeIdempotency input (Q : unit -> World -> Prop) (E : exit R -> World -> Prop) w :
  (forall id n st,
     w.(db).(receipts) !! (input.(c_operation), input.(c_zoneId), input.(c_scopeId), input.(c_keyDigest)) = None ->
     Q tt (set_stats st (set_uuids n (set_db (set_receipts
       (<[(input.(c_operation), input.(c_zoneId), input.(c_scopeId), input.(c_keyDigest)) :=
          Receipt.MkReceiptRow id input.(c_requestDigest) input.(resourceType) input.(resourceId)
            input.(responseStatus) input.(response) w.(now) (w.(now) + seconds input.(retentionSeconds))]>
          w.(db).(receipts)) w.(db)) w)))) ->
  (forall n w', E (Raise (ConstraintViolation n)) w') ->
  wp (completeIdempotency input) Q E w.
Proof.
  intros HQ HE. unfold completeIdempotency. wp_steps; try by apply HE. bool_props. apply HQ. done.
Qed.

Lemma refusals_parseIdempotencyKey (P : R -> Prop) hd : refusals P (parseIdempotencyKey hd).
Proof. unfold parseIdempotencyKey. refusals_walk. Qed.

Lemma refusals_startIdempotency (P : R -> Prop) input : refusals P (startIdempotency input).
Proof. unfold startIdempotency. refusals_walk. Qed.

Lemma refusals_completeIdempotency (P : R -> Prop) input : refusals P (completeIdempotency input).
Proof. unfold completeIdempotency. refusals_walk. Qed.

(** [input] with the server's HMAC keys changed. *)
Definition with_hmac_keys (ks : list string) (input : StartInput) : StartInput :=
  MkStartInput input.(operation) input.(zoneId) input.(scopeId) input.(key) input.(request) ks
    input.(maxReceiptsPerScope).

(** [input] with another request body under the same key. *)
Definition with_request (v : json) (input : StartInput) : StartInput :=
  MkStartInput input.(operation) input.(zoneId) input.(scopeId) input.(key) v input.(hmacKeys)
    input.(maxReceiptsPerScope).

(** The receipt that [completeIdempotency] leaves for [input]. *)
Definition receipt_of (input : StartInput) (c : CompleteInput) : Prop :=
  c.(c_operation) = input.(operation) /\ c.(c_zoneId) = input.(zoneId) /\ c.(c_scopeId) = input.(scopeId)
  /\ c.(c_keyDigest) = current_digest input /\ requestDigest input.(request) = Some c.(c_requestDigest).

Lemma complete_then_lookup input c w w' :
  receipt_of input c ->
  completeIdempotency c w = (inl tt : unit + exit R, w') ->
  exists r, w'.(db).(receipts) !! (input.(operation), input.(zoneId), input.(scopeId), current_digest input) = Some r
    /\ Some r.(Receipt.request_digest) = requestDigest input.(request)
    /\ r.(Receipt.response_status) = c.(responseStatus) /\ r.(Receipt.response_json) = c.(response)
    /\ r.(Receipt.resource_id) = c.(resourceId)
    /\ r.(Receipt.expires_at) = w.(now) + seconds c.(retentionSeconds).
Proof.
  intros (Ho & Hz & Hs & Hk & Hr) Hc.
  assert (wp (R := R) (completeIdempotency c)
    (fun _ w' => exists r, w'.(db).(receipts) !! (input.(operation), input.(zoneId), input.(scopeId), current_digest input) = Some r
    /\ Some r.(Receipt.request_digest) = requestDigest input.(request)
    /\ r.(Receipt.response_status) = c.(responseStatus) /\ r.(Receipt.response_json) = c.(response)
    /\ r.(Receipt.resource_id) = c.(resourceId)
    /\ r.(Receipt.expires_at) = w.(now) + seconds c.(retentionSeconds)) (fun _ _ => True) w) as Hwp.
  { apply wp_completeIdempotency; [|done]. intros id n st _. cbn.
    rewrite Ho, Hz, Hs, Hk, lookup_insert_eq. eexists. split; [done|]. cbn. by rewrite Hr. }
  unfold wp in Hwp. by rewrite Hc in Hwp.
Qed.
End facts.

#[export] Hint Resolve refusals_parseIdempotencyKey refusals_startIdempotency refusals_completeIdempotency : caracal.

Section replay.
Context `{Env} {R : Type}.

(** A completed mutation replays: until its receipt expires, repeating the
    request under the same key answers the recorded status, response and resource,
    also after the HMAC key has been rotated, as long as the old key is kept as the
    previous one. *)
Theorem completed_request_replays (input : StartInput) (c : CompleteInput) (ks : list string) (w w' v : World) :
  receipt_of input c ->
  completeIdempotency c w = (inl tt : unit + exit R, w') ->
  v.(db).(receipts) = w'.(db).(receipts) ->
  v.(now) < w.(now) + seconds c.(retentionSeconds) ->
  (ks = input.(hmacKeys) \/
   exists k k0 rest, input.(hmacKeys) = k :: rest /\ ks = [k0; k]
     /\ v.(db).(receipts) !! (input.(operation), input.(zoneId), input.(scopeId), keyDigest input.(key) k0) = None) ->
  (startIdempotency (with_hmac_keys ks input) v : (_ + exit R) * _).1
  = inl (Replayed c.(responseStatus) c.(response) c.(resourceId)).
Proof.
  intros Hrc Hc Hv Hlt Hks. pose proof (Hrc) as (_ & _ & _ & _ & Hh).
  destruct (complete_then_lookup _ _ _ _ Hrc Hc) as (r & Hr & Hd & <- & <- & <- & Hexp).
  rewrite (startIdempotency_runs _ (c_requestDigest c)) by done. f_equal.
  assert (live_receipt v.(now) r = true) as Hlive.
  { unfold live_receipt. rewrite Hexp. by apply Z.ltb_lt. }
  assert (find_receipt input.(operation) input.(zoneId) input.(scopeId)
    (current_digest (with_hmac_keys ks input)) (previous_digest (with_hmac_keys ks input)) v.(now) v.(db)
    = Some r) as Hf.
  { unfold find_receipt. destruct Hks as [->|(k & k0 & rest & Hin & -> & Hn)].
    - change (current_digest (with_hmac_keys (hmacKeys input) input)) with (current_digest input).
      rewrite Hv, Hr, Hlive. by destruct (_ !! _).
    - unfold current_digest, previous_digest. cbn. rewrite Hn, Hv.
      unfold current_digest in Hr. rewrite Hin in Hr. cbn in Hr. by rewrite Hr, Hlive. }
  unfold start_outcome. cbn in *. rewrite Hf.
  rewrite bool_decide_eq_true_2; [done|]. rewrite Hh in Hd. congruence.
Qed.

(** A key is bound to its first request: while the receipt lives, a request
    under the same key with a different digest is answered as a conflict, and
    nothing but the key's expired receipts leaves the database. *)
Theorem reused_key_conflicts (input : StartInput) (c : CompleteInput) (v2 : json) (h2 : string) (w w' v : World) :
  receipt_of input c ->
  completeIdempotency c w = (inl tt : unit + exit R, w') ->
  v.(db).(receipts) = w'.(db).(receipts) ->
  v.(now) < w.(now) + seconds c.(retentionSeconds) ->
  requestDigest v2 = Some h2 -> h2 <> c.(c_requestDigest) ->
  (startIdempotency (with_request v2 input) v : (_ + exit R) * _).1 = inl Conflict
  /\ (startIdempotency (with_request v2 input) v : (_ + exit R) * _).2.(db)
     = purge input v.(now) v.(db).
Proof.
  intros Hrc Hc Hv Hlt Hh2 Hne. pose proof Hrc as (_ & _ & _ & _ & Hh).
  destruct (complete_then_lookup _ _ _ _ Hrc Hc) as (r & Hr & Hd & _ & _ & _ & Hexp).
  assert (live_receipt v.(now) r = true) as Hlive.
  { unfold live_receipt. rewrite Hexp. by apply Z.ltb_lt. }
  assert (start_outcome (with_request v2 input) h2 v.(now) v.(db) = Conflict) as Ho.
  { unfold start_outcome, find_receipt. cbn. change (current_digest (with_request v2 input)) with (current_digest input).
    rewrite Hv, Hr, Hlive. rewrite Hh in Hd.
    assert (r.(Receipt.request_digest) <> h2) as Hrd by (intros ?; simplify_eq; congruence).
    destruct (_ !! _); by rewrite bool_decide_eq_false_2. }
  split.
  - rewrite (startIdempotency_runs _ h2) by done. by rewrite Ho.
  - assert (wp (R := R) (startIdempotency (with_request v2 input))
      (fun _ u => u.(db) = purge input v.(now) v.(db)) (fun _ _ => False) v) as Hwp.
    { apply wp_startIdempotency; [done|].
      intros Hn. change (requestDigest v2 = None) in Hn. congruence. }
    unfold wp in Hwp. destruct (startIdempotency _ v) as [[?|?] ?]; done.
Qed.

(** A key that [parseIdempotencyKey] accepts is the header's single value, is not
    empty, has no surrounding white space or control characters and is at most 255
    bytes; every other header raises an [IdempotencyKeyError]. *)
Theorem parseIdempotencyKey_spec (hd : header) (w : World) :
  match (parseIdempotencyKey hd w : (_ + exit R) * _).1 with
  | inl None => hd = HAbsent
  | inl (Some k) => hd = HOne k /\ k <> "" /\ surrounded_by_ws k = false /\ has_control k = false
                    /\ Z.of_nat (String.length k) <= IDEMPOTENCY_KEY_MAX_BYTES
  | inr (Raise (IdempotencyKeyError _)) => hd <> HAbsent
  | inr _ => False
  end.
Proof.
  destruct hd as [|v|vs]; [done| |done]. unfold parseIdempotencyKey.
  destruct (bool_decide (String.length v = 0%nat) || surrounded_by_ws v) eqn:E1; [done|].
  destruct ((_ <? _) || has_control v) eqn:E2; [done|]. bool_props. cbn.
  split_and!; try done. by intros ->.
Qed.
End replay.
