(* ===== verification/Sessions.v ===== *)
(** * Governed Sessions

    [apps/coordinator/src/routes/agents.ts]: starting a Session under a parent and
    its capacity limits, mirroring the parent's narrowing edge, suspend, resume and
    cascade terminate.  Each route is one transaction; the advisory locks it takes
    are recorded in [locks]. *)

From S2P Require Import Prelude.
From S2P Require Import Json.
From S2P Require Import Schema.
From S2P Require Import Store.
From S2P Require Import Scope.
From S2P Require Import Auth.
From S2P Require Import Outbox.
From S2P Require Import Idempotency.
Local Open Scope string_scope.
Local Open Scope Z_scope.
Local Open Scope list_scope.

Definition MAX_DEPTH : Z := 10.
Definition MAX_CHILDREN : Z := 10.
Definition DEFAULT_TTL : Z := 3600.
Definition MAX_SESSION_LABELS : nat := 32.
Definition MAX_SESSION_LABEL_LENGTH : nat := 64.

Inductive ParentAuthority := Inherit | NoAuthority.

#[export] Instance ParentAuthority_eq_dec : EqDecision ParentAuthority.
Proof. solve_decision. Defined.

(** [StartBody], before its refinements are checked. *)
Record StartBody := MkStartBody {
  application_id : string;
  subject_session_id : option string;
  parent_id : option string;
  lifecycle : option session_lifecycle;
  labels : list string;
  ttl_seconds : option Z;
  parent_authority : ParentAuthority;
  inherit_parent_edge_id : option string;
  metadata : json
}.

Definition nonempty (s : string) : bool := negb (bool_decide (s = "")).

(** A value that is present and not the empty string ([if (x)]). *)
Definition truthy (o : option string) : bool :=
  match o with Some s => nonempty s | None => false end.

Definition int_between (lo hi n : Z) : bool := (lo <=? n) && (n <=? hi).

(** [SessionLabels]: labels are trimmed, then measured. *)
Definition parse_labels (ls : list string) : option (list string) :=
  let ts := trim <$> ls in
  if forallb (fun l => nonempty l && bool_decide (js_length l <= MAX_SESSION_LABEL_LENGTH)%nat) ts
     && bool_decide (length ts <= MAX_SESSION_LABELS)%nat
  then Some ts else None.

(** The refinements of [StartBody], its [superRefine] included; [None] is a
    [ZodError]. *)
Definition parse_StartBody (b : StartBody) : option StartBody :=
  match parse_labels b.(labels) with
  | None => None
  | Some ls =>
      if nonempty b.(application_id)
         && match b.(subject_session_id) with Some s => nonempty s | None => true end
         && match b.(ttl_seconds) with Some n => int_between 1 86400 n | None => true end
         && match b.(inherit_parent_edge_id) with Some s => nonempty s | None => true end
         && negb (bool_decide (b.(lifecycle) = Some ServiceLife) && bool_decide (is_Some b.(ttl_seconds)))
      then Some (MkStartBody b.(application_id) b.(subject_session_id) b.(parent_id) b.(lifecycle) ls
                   b.(ttl_seconds) b.(parent_authority) b.(inherit_parent_edge_id) b.(metadata))
      else None
  end.

(** The parts of the HTTP request the routes read. *)
Record Request := MkRequest {
  auth : option CaracalAuth;
  idempotency_key : header;
  idempotency_key_kind : header
}.

Definition sessionLockKey (zoneId : string) : string := "coordinator:session_start:" +:+ zoneId.

Definition occurrenceOf (updatedAt : Z) : string := to_iso updatedAt.

Definition status_json (s : session_status) : json :=
  JStr match s with
       | Active => "active" | Suspended => "suspended" | Terminated => "terminated" | Expired => "expired"
       end.

Definition lifecycle_json (l : session_lifecycle) : json :=
  JStr match l with Task => "task" | ServiceLife => "service" end.

(** ** Predicates of the queries *)

(** [status IN ('active','suspended')]. *)
Definition is_live (s : Session.SessionRow) : bool :=
  match s.(Session.status) with Active | Suspended => true | _ => false end.

Definition is_active (s : Session.SessionRow) : bool := bool_decide (s.(Session.status) = Active).

Definition is_suspended (s : Session.SessionRow) : bool := bool_decide (s.(Session.status) = Suspended).

Definition in_zone (z : string) (s : Session.SessionRow) : bool := bool_decide (s.(Session.zone_id) = z).

(** A Session that still holds a capacity slot. *)
Definition holds_slot (t : Z) (s : Session.SessionRow) : bool :=
  is_live s &&
  match s.(Session.lifecycle) with
  | ServiceLife =>
      is_suspended s || match s.(Session.heartbeat_deadline_at) with Some h => t <? h | None => false end
  | Task => t <? s.(Session.started_at) + seconds (default_to DEFAULT_TTL s.(Session.ttl_seconds))
  end.

Definition count_slots (t : Z) (z : string) (d : Db) : Z :=
  Z.of_nat (length (select (fun _ s => in_zone z s && holds_slot t s) d.(sessions))).

Definition count_app_slots (t : Z) (z app : string) (d : Db) : Z :=
  Z.of_nat (length (select (fun _ s => in_zone z s && holds_slot t s
                                       && bool_decide (s.(Session.application_id) = app)) d.(sessions))).

(** [delegation_edges] rows that still carry authority. *)
Definition edge_live (t : Z) (e : Edge.EdgeRow) : bool :=
  bool_decide (e.(Edge.status) = RActive) && (t <? e.(Edge.expires_at)).

(** ** Session trees *)

(** The recursive term of the tree queries: children of [x] in the zone. *)
Definition tree_step (p : Session.SessionRow -> bool) (z : string) (d : Db) (x : string) : list string :=
  (select (fun _ s => bool_decide (s.(Session.parent_id) = Some x) && in_zone z s && p s) d.(sessions)).*1.

Definition tree_base (p : Session.SessionRow -> bool) (z : string) (roots : list string) (d : Db) : list string :=
  (select (fun k s => bool_decide (k ∈ roots) && in_zone z s && p s) d.(sessions)).*1.

(** [WITH RECURSIVE tree]: a parent chain repeats no Session, so a query that goes
    on for more rounds than there are Sessions never ends. *)
Definition session_tree (p : Session.SessionRow -> bool) (z : string) (roots : list string) (d : Db)
  : option (list string) :=
  cte (tree_step p z d) (size d.(sessions) + 12) (tree_base p z roots d).

(** [id IN (SELECT id FROM tree) AND zone_id = $2]. *)
Definition in_tree (z : string) (tree : list string) (k : string) (s : Session.SessionRow) : bool :=
  bool_decide (k ∈ tree) && in_zone z s.

Definition tree_rows (z : string) (tree : list string) (d : Db) : list (string * Session.SessionRow) :=
  select (in_tree z tree) d.(sessions).

(** [revocationExemptSessions]: authority records that still anchor another live
    Session, or are an application's own. *)
Definition exempt_record (z : string) (affectedIds : list string) (d : Db) (rid : string) : bool :=
  negb (bool_decide (select (fun k s => in_zone z s
          && bool_decide (s.(Session.subject_authority_record_id) = rid)
          && negb (bool_decide (k ∈ affectedIds)) && is_live s) d.(sessions) = []))
  || match d.(authority_records) !! rid with
     | Some r => bool_decide (r.(Authority.zone_id) = z)
                 && bool_decide (r.(Authority.session_type) = ApplicationAuthority)
     | None => false
     end.

Definition revocationExemptSessions (z : string) (affected : list (string * Session.SessionRow)) (d : Db) : list string :=
  filter (fun rid => exempt_record z affected.*1 d rid = true)
    (distinct ((fun kr => kr.2.(Session.subject_authority_record_id)) <$> affected)).

(** ** Suspend, terminate *)

Definition suspend_row (t : Z) (s : Session.SessionRow) : Session.SessionRow :=
  Session.set_status Suspended (Session.set_updated_at t s).

Definition lifecycle_item (event : string) (key : string) (z : string) (kr : string * Session.SessionRow)
  (extra : list (string * json)) : OutboxItem :=
  MkItem AgentsLifecycle key
    ([("event", JStr event); ("zone_id", JStr z); ("agent_session_id", JStr kr.1);
      ("parent_id", JOpt JStr kr.2.(Session.parent_id))] ++ extra).

Definition revoke_item (key : string) (z : string) (kr : string * Session.SessionRow) (reason : string) : OutboxItem :=
  MkItem SessionsRevoke key
    [("zone_id", JStr z); ("session_id", JStr kr.2.(Session.subject_authority_record_id));
     ("agent_session_id", JStr kr.1); ("reason", JStr reason)].

(** The events of one suspended Session, its revocation unless exempt. *)
Definition suspend_items (t : Z) (z reason : string) (exempt : list string) (kr : string * Session.SessionRow)
  : list OutboxItem :=
  let occurrence := occurrenceOf t in
  lifecycle_item "suspend" ("suspend:" +:+ kr.1 +:+ ":" +:+ occurrence) z kr [("reason", JStr reason)]
  :: (if bool_decide (kr.2.(Session.subject_authority_record_id) ∈ exempt) then []
      else [revoke_item ("agent_suspend:" +:+ kr.1 +:+ ":" +:+ occurrence) z kr reason]).

(** The [terminated] CTE: roots take the given status and reason, descendants are
    terminated with their parent. *)
Definition terminate_row (t : Z) (roots : list string) (reason : string) (rootStatus : session_status)
  (k : string) (s : Session.SessionRow) : Session.SessionRow :=
  let root := bool_decide (k ∈ roots) in
  Session.set_status (if root then rootStatus else Terminated)
    (Session.set_terminated_at (Some t) (Session.set_updated_at t
      (Session.set_termination_reason (Some (if root then reason else "parent_terminated")) s))).

(** The [parent_decrements] CTE: how many terminated rows name [p] as their parent. *)
Definition decrement (terminated : list (string * Session.SessionRow)) (p : string) : Z :=
  Z.of_nat (length (filter (fun kr => kr.2.(Session.parent_id) = Some p) terminated)).

(** The whole [UPDATE] of [terminateSubtree] on the sessions table: the tree is
    terminated, and surviving parents lose the children that went. *)
Definition terminate_sessions (t : Z) (z : string) (roots tree : list string) (reason : string)
  (rootStatus : session_status) (d : Db) : gmap string Session.SessionRow :=
  let terminated := tree_rows z tree d in
  map_imap (fun k s => Some (
    if in_tree z tree k s then terminate_row t roots reason rootStatus k s
    else if bool_decide (0 < decrement terminated k) && in_zone z s then
      Session.set_child_count (Z.max (s.(Session.child_count) - decrement terminated k) 0)
        (Session.set_updated_at t s)
    else s)) d.(sessions).

Definition revoke_edge (t : Z) (e : Edge.EdgeRow) : Edge.EdgeRow :=
  Edge.set_status RRevoked (Edge.set_revoked_at (Some t)
    (Edge.set_edge_version (e.(Edge.edge_version) + 1) (Edge.set_updated_at t e))).

(** Active edges of the zone with an endpoint among [ids]. *)
Definition edge_touches (z : string) (ids : list string) (_ : string) (e : Edge.EdgeRow) : bool :=
  bool_decide (e.(Edge.zone_id) = z) && bool_decide (e.(Edge.status) = RActive)
  && (bool_decide (e.(Edge.source_session_id) ∈ ids) || bool_decide (e.(Edge.target_session_id) ∈ ids)).

Definition edge_revoke_item (z reason : string) (epoch : Z) (eid : string) : OutboxItem :=
  MkItem DelegationsInvalidate ("edge_revoke:" +:+ eid)
    [("event", JStr "edge_revoke"); ("zone_id", JStr z); ("edge_id", JStr eid);
     ("reason", JStr reason); ("epoch", JNum epoch)].

Definition terminate_items (z reason : string) (exempt : list string) (kr : string * Session.SessionRow)
  : list OutboxItem :=
  lifecycle_item "terminate" ("terminate:" +:+ kr.1) z kr [("reason", JStr reason)]
  :: (if bool_decide (kr.2.(Session.subject_authority_record_id) ∈ exempt) then []
      else [revoke_item ("agent_terminate:" +:+ kr.1) z kr reason]).

Section subtrees.
Context `{Env} {R : Type}.

Definition suspendSubtree (zoneId : string) (rootIds : list string) (reason : string) : Tx R Z :=
  if bool_decide (rootIds = []) then mret 0
  else
    tree ← query_opt (fun _ => session_tree is_active zoneId rootIds);
    rows ← query (fun _ => tree_rows zoneId tree);
    exec (fun t d => set_sessions (update_where (in_tree zoneId tree) (suspend_row t) d.(sessions)) d);;
    if bool_decide (rows = []) then mret 0
    else
      exemptSessions ← query (fun _ => revocationExemptSessions zoneId rows);
      t ← query (fun t _ => t);
      enqueueMany (rows ≫= suspend_items t zoneId reason exemptSessions);;
      mret (Z.of_nat (length rows)).

Definition terminateSubtree (zoneId : string) (rootIds : list string) (reason : string)
  (rootStatus : session_status) : Tx R Z :=
  if bool_decide (rootIds = []) then mret 0
  else
    tree ← query_opt (fun _ => session_tree is_live zoneId rootIds);
    rows ← query (fun _ => tree_rows zoneId tree);
    exec (fun t d => set_sessions (terminate_sessions t zoneId rootIds tree reason rootStatus d) d);;
    if bool_decide (rows = []) then mret 0
    else
      revokedEdges ← query (fun _ d => (select (edge_touches zoneId rows.*1) d.(delegation_edges)).*1);
      exec (fun t d => set_delegation_edges
        (update_where (edge_touches zoneId rows.*1) (revoke_edge t) d.(delegation_edges)) d);;
      exemptSessions ← query (fun _ => revocationExemptSessions zoneId rows);
      edgeItems ← (if bool_decide (revokedEdges = []) then mret []
                   else epoch ← bumpDelegationEpoch zoneId;
                        mret (edge_revoke_item zoneId reason epoch <$> revokedEdges));
      enqueueMany (edgeItems ++ (rows ≫= terminate_items zoneId reason exemptSessions));;
      mret (Z.of_nat (length rows)).
End subtrees.

(** ** Starting a Session *)

(** The application of a request, when it is live in the zone. *)
Definition find_application (z app : string) (t : Z) (d : Db) : option Application.ApplicationRow :=
  match d.(applications) !! app with
  | Some a => if bool_decide (a.(Application.zone_id) = z) && live_application t a then Some a else None
  | None => None
  end.

(** The Session a replayed start points at still runs. *)
Definition replay_live (z app : string) (t : Z) (d : Db) (rid : string) : bool :=
  match d.(sessions) !! rid with
  | Some s => in_zone z s && bool_decide (s.(Session.application_id) = app) && holds_slot t s
  | None => false
  end.

(** Rows of [inheritParentEdge]: the parent's inbound edges of the application. *)
Definition inherit_candidates (z p app : string) (explicit : option string) (d : Db)
  : list (string * Edge.EdgeRow) :=
  select (fun k e => bool_decide (e.(Edge.zone_id) = z) && bool_decide (e.(Edge.target_session_id) = p)
                     && bool_decide (e.(Edge.receiver_application_id) = app)
                     && match explicit with None => true | Some x => bool_decide (k = x) end)
    d.(delegation_edges).

Definition edge_create_item (z eid source target : string) (epoch : Z) : OutboxItem :=
  MkItem DelegationsInvalidate ("edge_create:" +:+ eid)
    [("event", JStr "edge_create"); ("zone_id", JStr z); ("edge_id", JStr eid);
     ("source_session_id", JStr source); ("target_session_id", JStr target); ("epoch", JNum epoch)].

(** The parent row a start checks: active, joined with its application. *)
Definition find_parent (z p : string) (d : Db) : option (Session.SessionRow * Application.ApplicationRow) :=
  match d.(sessions) !! p with
  | Some s =>
      if in_zone z s && is_active s then
        match d.(applications) !! s.(Session.application_id) with
        | Some a => if bool_decide (a.(Application.zone_id) = s.(Session.zone_id)) then Some (s, a) else None
        | None => None
        end
      else None
  | None => None
  end.

(** [sessions_lifecycle_fields_check]. *)
Definition lifecycle_fields_check (s : Session.SessionRow) : bool :=
  match s.(Session.lifecycle) with
  | Task => match s.(Session.ttl_seconds) with Some n => 0 <? n | None => false end
            && bool_decide (s.(Session.last_heartbeat_at) = None)
            && bool_decide (s.(Session.heartbeat_deadline_at) = None)
  | ServiceLife => bool_decide (s.(Session.ttl_seconds) = None)
                   && bool_decide (is_Some s.(Session.last_heartbeat_at))
                   && bool_decide (is_Some s.(Session.heartbeat_deadline_at))
  end.

(** [sessions_zone_parent_fk]. *)
Definition parent_fk (z : string) (p : option string) (d : Db) : bool :=
  match p with
  | None => true
  | Some x => match d.(sessions) !! x with Some s => in_zone z s | None => false end
  end.

Definition session_json (id : string) (s : Session.SessionRow) : list (string * json) :=
  [("agent_session_id", JStr id); ("zone_id", JStr s.(Session.zone_id));
   ("application_id", JStr s.(Session.application_id)); ("parent_id", JOpt JStr s.(Session.parent_id));
   ("subject_authority_record_id", JStr s.(Session.subject_authority_record_id));
   ("lifecycle", lifecycle_json s.(Session.lifecycle)); ("labels", JStrs s.(Session.labels));
   ("status", status_json s.(Session.status)); ("depth", JNum s.(Session.depth));
   ("ttl_seconds", JOpt JNum s.(Session.ttl_seconds)); ("started_at", JTime s.(Session.started_at));
   ("last_heartbeat_at", JOpt JTime s.(Session.last_heartbeat_at));
   ("heartbeat_deadline_at", JOpt JTime s.(Session.heartbeat_deadline_at));
   ("lease_generation", JNum s.(Session.lease_generation))].

(** A client identifier for the idempotency digest: [undefined] when there is none. *)
Definition principal_json (req : option CaracalAuth) : json :=
  JObj [("client_id", match req with Some a => JStr a.(clientId) | None => JUndefined end);
        ("subject", match req with Some a => JStr a.(subject) | None => JUndefined end)].

Section start.
Context `{Env}.

(** Mirrors the parent's narrowing edge onto the child: [inl] is the conflict. *)
Definition inheritParentEdge (zoneId : string) (b : StartBody) (childId : string)
  : Tx reply (string + option string) :=
  match b.(parent_id) with
  | Some p =>
      if negb (nonempty p) || bool_decide (b.(parent_authority) = NoAuthority) then mret (inr None)
      else
        rows ← query (fun _ => inherit_candidates zoneId p b.(application_id) b.(inherit_parent_edge_id));
        t ← query (fun t _ => t);
        let liveEdges := filter (fun ke => edge_live t ke.2 = true) rows in
        match liveEdges with
        | [] => if truthy b.(inherit_parent_edge_id) || negb (bool_decide (rows = []))
                then mret (inl "inherit_parent_edge_not_active") else mret (inr None)
        | _ :: _ :: _ => mret (inl "inherit_parent_edge_ambiguous")
        | [(parentEdgeId, parentEdge)] =>
            edgeId ← fresh_uuid;
            free ← query (fun _ d => bool_decide (d.(delegation_edges) !! edgeId = None));
            constraint free "delegation_edges_pkey";;
            constraint (negb (bool_decide (p = childId))) "delegation_edges_check";;
            exec (fun t d => set_delegation_edges (<[edgeId :=
              Edge.MkEdgeRow zoneId p childId parentEdge.(Edge.receiver_application_id) b.(application_id)
                parentEdge.(Edge.resource_id) parentEdge.(Edge.scopes) parentEdge.(Edge.constraints_json)
                RActive parentEdge.(Edge.expires_at) 0 None t t (Some parentEdgeId)]> d.(delegation_edges)) d);;
            epoch ← bumpDelegationEpoch zoneId;
            let i := edge_create_item zoneId edgeId p childId epoch in
            enqueue i.(topic) i.(dedupeKey) i.(payload);;
            mret (inr (Some edgeId))
        end
  | None => mret (inr None)
  end.

(** The receipt of a keyed start: [None] without a key, the digests of a new one. *)
Definition start_receipt (zoneId : string) (b : StartBody) (idem : option string) (req : json)
  : Tx reply (option (string * string)) :=
  match idem with
  | None => mret None
  | Some k =>
      receipt ← startIdempotency (MkStartInput "session.start.v2" zoneId b.(application_id) k req
                  cfg.(idempotencyHmacKeys) cfg.(idempotencyMaxReceiptsPerScope));
      match receipt with
      | Conflict => rollback (error_message_reply 409 "idempotency_key_conflict"
          "Idempotency-Key was already used for a different Session start request")
      | Limit => rollback (error_reply 429 "idempotency_receipt_limit_exceeded")
      | Replayed status response rid =>
          live ← query (fun t d => replay_live zoneId b.(application_id) t d rid);
          ensure live (error_message_reply 409 "idempotency_result_inactive"
            "The operation already completed and its governed session is no longer active; use a new operation identifier for an intentional rerun");;
          commit (MkReply status response true)
      | New kd rd => mret (Some (kd, rd))
      end
  end.

(** Application, registration method, authority record and capacity. *)
Definition check_start (zoneId : string) (b : StartBody) (life : session_lifecycle) (subjectRecord : string)
  : Tx reply unit :=
  app ← query (find_application zoneId b.(application_id));
  match app with
  | None => rollback (error_reply 404 "application_not_found")
  | Some a =>
      let dcr := bool_decide (a.(Application.registration_method) = Dcr) in
      ensure (negb (dcr && negb (bool_decide (life = Task)))) (error_reply 409 "dcr_application_cannot_host_service");;
      ensure (negb (dcr && truthy b.(parent_id))) (error_reply 409 "dcr_application_cannot_be_child");;
      recordExists ← query (fun t d => authority_live t d zoneId subjectRecord);
      ensure recordExists (MkReply 404 (JObj [("error", JStr "session_not_found");
        ("detail", JStr "subject_session_id must reference an STS authority_records.id; for business correlation use metadata")]) false);;
      zone_n ← query (fun t => count_slots t zoneId);
      app_n ← query (fun t => count_app_slots t zoneId b.(application_id));
      ensure (zone_n <? cfg.(maxSessionsPerZone)) (error_reply 429 "session_zone_limit_exceeded");;
      ensure (negb (dcr && (0 <? app_n))) (error_reply 409 "dcr_application_already_bound");;
      ensure (app_n <? cfg.(maxSessionsPerApp)) (error_reply 429 "session_limit_exceeded")
  end.

(** The parent's checks; returns the child's depth. *)
Definition check_parent (req : option CaracalAuth) (zoneId : string) (b : StartBody) (life : session_lifecycle)
  : Tx reply Z :=
  match b.(parent_id) with
  | Some p =>
      if negb (nonempty p) then mret 0
      else
        parent ← query (fun _ => find_parent zoneId p);
        match parent with
        | None => rollback (error_reply 404 "parent_not_found")
        | Some (ps, a) =>
            ensure (negb (bool_decide (a.(Application.registration_method) = Dcr)))
              (error_reply 409 "dcr_application_cannot_start_child");;
            ensure (negb (bool_decide (ps.(Session.lifecycle) = Task) && bool_decide (life = ServiceLife)))
              (error_reply 409 "task_session_cannot_start_service");;
            ensure (bool_decide (ps.(Session.application_id) = b.(application_id))
                    || requireScope req ("coordinator.spawn_under:" +:+ ps.(Session.application_id)))
              (error_reply 403 "parent_ownership_required");;
            ensure (ps.(Session.child_count) <? ps.(Session.max_children))
              (error_reply 429 "session_children_limit_exceeded");;
            ensure (ps.(Session.depth) + 1 <=? MAX_DEPTH) (error_reply 429 "session_depth_limit_exceeded");;
            mret (ps.(Session.depth) + 1)
        end
  | None => mret 0
  end.

(** The row the [INSERT] writes. *)
Definition new_session (t : Z) (zoneId : string) (b : StartBody) (life : session_lifecycle)
  (ttl : option Z) (subjectRecord : string) (depth : Z) : Session.SessionRow :=
  let service := bool_decide (life = ServiceLife) in
  Session.MkSessionRow zoneId b.(application_id) b.(parent_id) subjectRecord Active depth b.(labels)
    MAX_CHILDREN 0 t t None ttl b.(metadata) t life
    (if service then Some t else None)
    (if service then Some (t + seconds cfg.(serviceSessionLeaseSeconds)) else None)
    None (if service then 1 else 0).

Definition insert_session (id zoneId : string) (b : StartBody) (life : session_lifecycle)
  (ttl : option Z) (subjectRecord : string) (depth : Z) : Tx reply Session.SessionRow :=
  row ← query (fun t _ => new_session t zoneId b life ttl subjectRecord depth);
  free ← query (fun _ d => bool_decide (d.(sessions) !! id = None));
  fk ← query (fun _ => parent_fk zoneId b.(parent_id));
  constraint free "sessions_pkey";;
  constraint (lifecycle_fields_check row) "sessions_lifecycle_fields_check";;
  constraint fk "sessions_zone_parent_fk";;
  exec (fun _ d => set_sessions (<[id := row]> d.(sessions)) d);;
  (if truthy b.(parent_id) then
     let p := default_to "" b.(parent_id) in
     exec (fun _ d => set_agent_topology ({[(p, id)]} ∪ d.(agent_topology)) d);;
     exec (fun _ d => set_sessions
       (alter (fun s => Session.set_child_count (s.(Session.child_count) + 1) s) p d.(sessions)) d)
   else mret tt);;
  mret row.

(** The governed part of a start, under the zone's session lock: checks, insert,
    inherited edge, [spawn] event and receipt. *)
Definition start_governed (req : option CaracalAuth) (zoneId : string) (b : StartBody) (subjectRecord : string)
  (life : session_lifecycle) (ttl : option Z) (retention : Z) (id : string) (receipt : option (string * string))
  : Tx reply (exit reply) :=
  advisory_lock (sessionLockKey zoneId);;
  check_start zoneId b life subjectRecord;;
  depth ← check_parent req zoneId b life;
  row ← insert_session id zoneId b life ttl subjectRecord depth;
  inherited ← inheritParentEdge zoneId b id;
  match inherited with
  | inl conflict => rollback (error_reply 409 conflict)
  | inr edgeId =>
      enqueue AgentsLifecycle ("spawn:" +:+ id)
        [("event", JStr "spawn"); ("zone_id", JStr zoneId); ("agent_session_id", JStr id);
         ("parent_id", JOpt JStr b.(parent_id)); ("application_id", JStr b.(application_id))];;
      let response := JObj (session_json id row ++ [("delegation_edge_id", JOpt JStr edgeId)]) in
      match receipt with
      | Some (kd, rd) =>
          completeIdempotency (MkCompleteInput "session.start.v2" zoneId b.(application_id) kd rd "session" id 201
            response retention)
      | None => mret tt
      end;;
      mret (Commit (MkReply 201 response false))
  end.

(** The body of [POST /zones/:zoneId/agents] after the identity checks. *)
Definition start_tx (req : Request) (zoneId : string) (b : StartBody) (subjectRecord : string)
  : Tx reply (exit reply) :=
  idem ← parseIdempotencyKey req.(idempotency_key);
  let generated := match req.(idempotency_key_kind) with HOne k => bool_decide (k = "generated") | _ => false end in
  let life := default_to Task b.(lifecycle) in
  let ttl := match b.(ttl_seconds) with
             | Some n => Some n
             | None => if bool_decide (life = ServiceLife) then None else Some DEFAULT_TTL
             end in
  let request := JObj
    [("principal", principal_json req.(auth)); ("application_id", JStr b.(application_id));
     ("subject_authority_record_id", JStr subjectRecord); ("parent_id", JOpt JStr b.(parent_id));
     ("lifecycle", lifecycle_json life); ("labels", JStrs b.(labels)); ("ttl_seconds", JOpt JNum ttl);
     ("parent_authority", JStr (if bool_decide (b.(parent_authority) = Inherit) then "inherit" else "none"));
     ("inherit_parent_edge_id", JOpt JStr b.(inherit_parent_edge_id)); ("metadata", b.(metadata))] in
  id ← fresh_uuid;
  receipt ← start_receipt zoneId b idem request;
  start_governed req.(auth) zoneId b subjectRecord life ttl
    (if generated then cfg.(generatedIdempotencyRetentionSeconds) else cfg.(idempotencyRetentionSeconds)) id receipt.

(** [POST /zones/:zoneId/agents]. *)
Definition startSession (req : Request) (zoneId : string) (body : StartBody) (w : World) : reply * World :=
  if negb (CoordinatorIdPattern zoneId) then (error_reply 400 "invalid_params", w)
  else match parse_StartBody body with
  | None => (errorHandler ZodError, w)
  | Some b =>
      let subjectRecord := match b.(subject_session_id) with
                           | Some s => Some s
                           | None => match req.(auth) with Some a => a.(authorityRecordId) | None => None end
                           end in
      if negb (truthy subjectRecord) then (error_reply 400 "subject_session_id_required", w)
      else if negb (ownsApplication req.(auth) b.(application_id))
              && negb (requireScope req.(auth) ("coordinator.spawn_for:" +:+ b.(application_id)))
      then (error_reply 403 "application_ownership_required", w)
      else respond (run_tx (start_tx req zoneId b (default_to "" subjectRecord)) w)
  end.
End start.

(** ** Suspend, resume and terminate routes *)

(** [SELECT ... FROM sessions WHERE id = $1 AND zone_id = $2]. *)
Definition find_session (z id : string) (d : Db) : option Session.SessionRow :=
  match d.(sessions) !! id with
  | Some s => if in_zone z s then Some s else None
  | None => None
  end.

(** The caller may manage Sessions of the application. *)
Definition manages (req : option CaracalAuth) (app : string) : bool :=
  ownsApplication req app || requireScope req "coordinator.admin"
  || requireScope req ("coordinator.spawn_for:" +:+ app).

Section routes.
Context `{Env}.

Definition suspend_tx (req : option CaracalAuth) (zoneId id : string) : Tx reply (exit reply) :=
  own ← query (fun _ => find_session zoneId id);
  match own with
  | None => rollback (error_reply 404 "session_not_found")
  | Some s =>
      ensure (manages req s.(Session.application_id)) (error_reply 403 "application_ownership_required");;
      suspended ← suspendSubtree zoneId [id] "requested";
      ensure (negb (suspended =? 0)) (error_reply 409 "session_not_found_or_not_active");;
      mret (Commit (MkReply 200 (JObj [("suspended", JNum suspended)]) false))
  end.

(** [PATCH /zones/:zoneId/agents/:id/suspend]. *)
Definition suspendSession (req : option CaracalAuth) (zoneId id : string) (w : World) : reply * World :=
  if negb (CoordinatorIdPattern zoneId && CoordinatorIdPattern id) then (error_reply 400 "invalid_params", w)
  else respond (run_tx (suspend_tx req zoneId id) w).

(** The resumed row: a service gets a fresh lease deadline. *)
Definition resume_row (t : Z) (s : Session.SessionRow) : Session.SessionRow :=
  Session.set_status Active
    (Session.set_heartbeat_deadline_at
       (if bool_decide (s.(Session.lifecycle) = ServiceLife)
        then Some (t + seconds cfg.(serviceSessionLeaseSeconds)) else s.(Session.heartbeat_deadline_at))
       (Session.set_updated_at t s)).

Definition resume_tx (req : option CaracalAuth) (zoneId id : string) : Tx reply (exit reply) :=
  own ← query (fun _ => find_session zoneId id);
  match own with
  | None => rollback (error_reply 404 "session_not_found")
  | Some s =>
      ensure (manages req s.(Session.application_id)) (error_reply 403 "application_ownership_required");;
      tree ← query_opt (fun _ => session_tree is_suspended zoneId [id]);
      changed ← query (fun _ => tree_rows zoneId tree);
      exec (fun t d => set_sessions (update_where (in_tree zoneId tree) (resume_row t) d.(sessions)) d);;
      ensure (negb (bool_decide (changed = []))) (error_reply 409 "session_not_found_or_not_suspended");;
      t ← query (fun t _ => t);
      enqueueMany ((fun kr => lifecycle_item "resume" ("resume:" +:+ kr.1 +:+ ":" +:+ occurrenceOf t) zoneId kr [])
                     <$> changed);;
      mret (Commit (MkReply 200 (JObj [("resumed", JNum (Z.of_nat (length changed)))]) false))
  end.

(** [PATCH /zones/:zoneId/agents/:id/resume]. *)
Definition resumeSession (req : option CaracalAuth) (zoneId id : string) (w : World) : reply * World :=
  if negb (CoordinatorIdPattern zoneId && CoordinatorIdPattern id) then (error_reply 400 "invalid_params", w)
  else respond (run_tx (resume_tx req zoneId id) w).

Definition terminate_tx (req : option CaracalAuth) (zoneId id reason : string) (leaseGeneration : option Z)
  : Tx reply (exit reply) :=
  advisory_lock (sessionLockKey zoneId);;
  own ← query (fun _ => find_session zoneId id);
  match own with
  | None => rollback (error_reply 404 "session_not_found")
  | Some s =>
      let administrator := requireScope req "coordinator.admin" in
      ensure (manages req s.(Session.application_id)) (error_reply 403 "application_ownership_required");;
      (if bool_decide (s.(Session.lifecycle) = ServiceLife) && negb administrator then
         match leaseGeneration with
         | None => rollback (error_reply 400 "lease_generation_required")
         | Some g => ensure (g =? s.(Session.lease_generation)) (error_reply 409 "session_lease_fenced")
         end
       else mret tt);;
      terminated ← terminateSubtree zoneId [id] reason Terminated;
      ensure (negb (terminated =? 0)) (error_reply 404 "session_not_found");;
      mret (Commit (MkReply 204 JNull false))
  end.

(** [DELETE /zones/:zoneId/agents/:id] with its [reason] query (default
    [requested]) and optional [lease_generation]. *)
Definition terminateSession (req : option CaracalAuth) (zoneId id : string) (reason : option string)
  (leaseGeneration : option Z) (w : World) : reply * World :=
  if negb (CoordinatorIdPattern zoneId && CoordinatorIdPattern id) then (error_reply 400 "invalid_params", w)
  else
    let reason := default_to "requested" reason in
    if negb (nonempty reason && bool_decide (js_length reason <= 256)%nat) then (error_reply 400 "invalid_query", w)
    else if match leaseGeneration with Some g => g <? 1 | None => false end then (error_reply 400 "invalid_body", w)
    else respond (run_tx (terminate_tx req zoneId id reason leaseGeneration) w).
End routes.
