(* ===== verification/SessionFacts.v ===== *)
(** * Session trees stay well formed

    The invariant of the sessions table (parents exist in the zone, depth counts
    the chain, a live Session has a live parent, [child_count] is the number of
    live children) and its preservation by every operation of [Sessions]. *)

From S2P Require Import Prelude.
From S2P Require Import Json.
From S2P Require Import Schema.
From S2P Require Import Store.
From S2P Require Import Scope.
From S2P Require Import Auth.
From S2P Require Import Outbox.
From S2P Require Import Idempotency.
From S2P Require Import Sessions.
Local Open Scope string_scope.
Local Open Scope Z_scope.
Local Open Scope list_scope.

Abbreviation SessionTable := (gmap string Session.SessionRow).

Definition live_child (p : string) (_ : string) (s : Session.SessionRow) : bool :=
  bool_decide (s.(Session.parent_id) = Some p) && is_live s.

Definition live_children (ss : SessionTable) (p : string) : nat := length (select (live_child p) ss).

Record session_inv (ss : SessionTable) : Prop := {
  inv_key : ss !! "" = None;
  inv_parent : forall k s p, ss !! k = Some s -> s.(Session.parent_id) = Some p ->
    exists ps, ss !! p = Some ps /\ ps.(Session.zone_id) = s.(Session.zone_id)
               /\ s.(Session.depth) = ps.(Session.depth) + 1 /\ (is_live s = true -> is_live ps = true);
  inv_root : forall k s, ss !! k = Some s -> s.(Session.parent_id) = None -> s.(Session.depth) = 0;
  inv_depth : forall k s, ss !! k = Some s -> 0 <= s.(Session.depth) <= MAX_DEPTH;
  inv_count : forall k s, ss !! k = Some s -> is_live s = true ->
    s.(Session.child_count) = Z.of_nat (live_children ss k);
  inv_cap : forall k s, ss !! k = Some s ->
    s.(Session.max_children) = MAX_CHILDREN /\ 0 <= s.(Session.child_count) <= MAX_CHILDREN
}.

(** The columns the invariant reads. *)
Definition skeleton (s : Session.SessionRow) : string * option string * Z * Z * Z * bool :=
  (s.(Session.zone_id), s.(Session.parent_id), s.(Session.depth), s.(Session.child_count),
   s.(Session.max_children), is_live s).

Lemma skeleton_inv s s0 :
  skeleton s = skeleton s0 ->
  s.(Session.zone_id) = s0.(Session.zone_id) /\ s.(Session.parent_id) = s0.(Session.parent_id)
  /\ s.(Session.depth) = s0.(Session.depth) /\ s.(Session.child_count) = s0.(Session.child_count)
  /\ s.(Session.max_children) = s0.(Session.max_children) /\ is_live s = is_live s0.
Proof. unfold skeleton. intros. simplify_eq. done. Qed.

Lemma skeleton_row (ss ss' : SessionTable) k s :
  skeleton <$> ss' !! k = skeleton <$> ss !! k -> ss' !! k = Some s ->
  exists s0, ss !! k = Some s0 /\ s.(Session.zone_id) = s0.(Session.zone_id)
    /\ s.(Session.parent_id) = s0.(Session.parent_id)
    /\ s.(Session.depth) = s0.(Session.depth) /\ s.(Session.child_count) = s0.(Session.child_count)
    /\ s.(Session.max_children) = s0.(Session.max_children) /\ is_live s = is_live s0.
Proof.
  intros Hk Hs. rewrite Hs in Hk. destruct (ss !! k) as [s0|]; [|done].
  exists s0. split; [done|]. apply skeleton_inv. cbn in Hk. congruence.
Qed.

(** Updates that leave those columns alone preserve the invariant. *)
Lemma session_inv_skeleton (ss ss' : SessionTable) :
  (forall k, skeleton <$> ss' !! k = skeleton <$> ss !! k) -> session_inv ss -> session_inv ss'.
Proof.
  intros Hsk [He Hp Hr Hd Hc Hm].
  assert (forall p, live_children ss' p = live_children ss p) as Hlc.
  { intros p. apply select_length_iff. intros k. rewrite !elem_of_select_keys. unfold live_child.
    split; intros (r & Hr' & Hb);
      [destruct (skeleton_row _ _ _ _ (Hsk k) Hr') as (r0 & ? & _ & Hpar & _ & _ & _ & Hl)
      |destruct (skeleton_row _ _ _ _ (eq_sym (Hsk k)) Hr') as (r0 & ? & _ & Hpar & _ & _ & _ & Hl)];
      exists r0; (split; [done|]); by rewrite <-Hpar, <-Hl. }
  split.
  - specialize (Hsk ""). rewrite He in Hsk. by destruct (ss' !! "").
  - intros k s p Hk Hpar. destruct (skeleton_row _ _ _ _ (Hsk k) Hk) as (s0 & Hk0 & Hz & Hpa & Hde & _ & _ & Hl).
    destruct (Hp k s0 p Hk0) as (ps & Hps & Hz' & Hdep & Hl'); [congruence|].
    destruct (skeleton_row _ _ _ _ (eq_sym (Hsk p)) Hps) as (ps' & Hps' & Hz2 & _ & Hd2 & _ & _ & Hl2).
    exists ps'. split_and!; [done|congruence|congruence|]. intros Hls. rewrite <-Hl2. apply Hl'. congruence.
  - intros k s Hk Hpar. destruct (skeleton_row _ _ _ _ (Hsk k) Hk) as (s0 & Hk0 & _ & Hpa & -> & _).
    eapply Hr; [done|congruence].
  - intros k s Hk. destruct (skeleton_row _ _ _ _ (Hsk k) Hk) as (s0 & Hk0 & _ & _ & -> & _). eauto.
  - intros k s Hk Hl. destruct (skeleton_row _ _ _ _ (Hsk k) Hk) as (s0 & Hk0 & _ & _ & _ & -> & _ & Hl').
    rewrite Hlc. eapply Hc; [done|congruence].
  - intros k s Hk. destruct (skeleton_row _ _ _ _ (Hsk k) Hk) as (s0 & Hk0 & _ & _ & _ & -> & -> & _). eauto.
Qed.

(** ** Trees *)

Section trees.
Context (p : Session.SessionRow -> bool) (z : string) (d : Db).

Lemma elem_of_tree_step x y :
  y ∈ tree_step p z d x <-> exists s, d.(sessions) !! y = Some s /\ s.(Session.parent_id) = Some x
                                      /\ s.(Session.zone_id) = z /\ p s = true.
Proof.
  unfold tree_step, in_zone. rewrite elem_of_select_keys. split; intros (s & Hs & Hb); exists s.
  - bool_props. done.
  - split; [done|]. destruct Hb as (? & ? & ->). rewrite !bool_decide_eq_true_2 by done. done.
Qed.

Lemma elem_of_tree_base roots x :
  x ∈ tree_base p z roots d <-> exists s, d.(sessions) !! x = Some s /\ x ∈ roots
                                          /\ s.(Session.zone_id) = z /\ p s = true.
Proof.
  unfold tree_base, in_zone. rewrite elem_of_select_keys. split; intros (s & Hs & Hb); exists s.
  - bool_props. done.
  - split; [done|]. destruct Hb as (? & ? & ->). rewrite !bool_decide_eq_true_2 by done. done.
Qed.

Context (roots tree : list string) (Htree : session_tree p z roots d = Some tree).

Lemma tree_member x :
  x ∈ tree -> exists s, d.(sessions) !! x = Some s /\ s.(Session.zone_id) = z /\ p s = true.
Proof.
  intros Hx. apply (cte_spec _ _ _ _ Htree) in Hx as (r & Hr & Hrx).
  apply elem_of_tree_base in Hr as (s & Hs & _ & Hz & Hp).
  revert s Hs Hz Hp. induction Hrx as [r|r y x Hry _ IH]; intros s Hs Hz Hp; [eauto|].
  apply elem_of_tree_step in Hry as (s' & Hs' & _ & Hz' & Hp'). eauto.
Qed.

Lemma tree_root x s :
  d.(sessions) !! x = Some s -> x ∈ roots -> s.(Session.zone_id) = z -> p s = true -> x ∈ tree.
Proof.
  intros Hs Hx Hz Hp. apply (cte_spec _ _ _ _ Htree). exists x. split; [|apply rtc_refl].
  apply elem_of_tree_base. eauto.
Qed.

Lemma tree_child x y s :
  x ∈ tree -> d.(sessions) !! y = Some s -> s.(Session.parent_id) = Some x -> s.(Session.zone_id) = z ->
  p s = true -> y ∈ tree.
Proof.
  intros Hx Hs Hpar Hz Hp. apply (cte_spec _ _ _ _ Htree) in Hx as (r & Hr & Hrx).
  apply (cte_spec _ _ _ _ Htree). exists r. split; [done|]. eapply rtc_r; [done|].
  apply elem_of_tree_step. eauto.
Qed.

(** The tree is the least set that holds the roots and is closed under children. *)
Lemma tree_least (S : string -> Prop) :
  (forall x s, d.(sessions) !! x = Some s -> x ∈ roots -> s.(Session.zone_id) = z -> p s = true -> S x) ->
  (forall x y s, S x -> d.(sessions) !! y = Some s -> s.(Session.parent_id) = Some x ->
     s.(Session.zone_id) = z -> p s = true -> S y) ->
  forall x, x ∈ tree -> S x.
Proof.
  intros Hb Hs x Hx. apply (cte_spec _ _ _ _ Htree) in Hx as (r & Hr & Hrx).
  assert (S r) as HSr by (apply elem_of_tree_base in Hr as (s & ? & ? & ? & ?); eauto). clear Hr.
  induction Hrx as [|r y x Hry _ IH]; [done|]. apply IH.
  apply elem_of_tree_step in Hry as (s & ? & ? & ? & ?). eauto.
Qed.

Lemma in_tree_iff k s :
  d.(sessions) !! k = Some s -> in_tree z tree k s = bool_decide (k ∈ tree).
Proof.
  intros Hk. unfold in_tree. case_bool_decide as Hin; [|done].
  destruct (tree_member k Hin) as (s' & Hs' & Hz & _). simplify_eq. unfold in_zone. by case_bool_decide.
Qed.

Lemma elem_of_tree_rows k s :
  (k, s) ∈ tree_rows z tree d <-> d.(sessions) !! k = Some s /\ k ∈ tree.
Proof.
  unfold tree_rows. rewrite elem_of_select. split; intros [Hk Hin]; (split; [done|]).
  - rewrite in_tree_iff in Hin by done. by case_bool_decide.
  - rewrite in_tree_iff by done. by case_bool_decide.
Qed.
End trees.

(** On a well-formed table the tree query always finishes. *)
Lemma session_tree_terminates p z roots d :
  session_inv d.(sessions) -> is_Some (session_tree p z roots d).
Proof.
  intros [_ Hp Hr Hd _ _]. unfold session_tree.
  set (depth_of x := match d.(sessions) !! x with Some s => Z.to_nat s.(Session.depth) | None => 0%nat end).
  apply (cte_terminates _ (fun x => is_Some (d.(sessions) !! x)) depth_of 10).
  - intros x y [sx Hx] Hy. apply elem_of_tree_step in Hy as (s & Hs & Hpar & _). split; [by eexists|].
    destruct (Hp _ _ _ Hs Hpar) as (ps & Hps & _ & Hdep & _).
    unfold depth_of. rewrite Hs, Hps. pose proof (Hd _ _ Hps). pose proof (Hd _ _ Hs). lia.
  - intros x [s Hs]. unfold depth_of. rewrite Hs. pose proof (Hd _ _ Hs). unfold MAX_DEPTH in *. lia.
  - intros x Hx. apply elem_of_tree_base in Hx as (s & Hs & _). split; [by eexists|]. lia.
Qed.

(** ** Subtree operations *)

Lemma update_where_id {K R : Type} `{Countable K} (p : K -> R -> bool) (f : R -> R) (m : gmap K R) :
  (forall k r, m !! k = Some r -> p k r = false) -> update_where p f m = m.
Proof.
  intros Hp. apply map_eq. intros k. rewrite lookup_update_where.
  destruct (m !! k) as [r|] eqn:E; [|done]. cbn. by rewrite (Hp k r E).
Qed.

Lemma only_outbox_refl w : only_outbox w w [].
Proof.
  exists w.(db).(caracal_outbox), w.(uuids).
  split; [by destruct w as [[] ? ? ? ? ? ?]|apply outbox_extends_refl].
Qed.

(** The database after the [UPDATE]s of [terminateSubtree]. *)
Definition terminated_db (t : Z) (z : string) (roots tree : list string) (reason : string)
  (rootStatus : session_status) (d : Db) : Db :=
  set_delegation_edges
    (update_where (edge_touches z (tree_rows z tree d).*1) (revoke_edge t) d.(delegation_edges))
    (set_sessions (terminate_sessions t z roots tree reason rootStatus d) d).

Section subtree_wp.
Context `{Env} {R : Type}.

Lemma wp_suspendSubtree z roots reason (Q : Z -> World -> Prop) (E : exit R -> World -> Prop) w :
  session_inv w.(db).(sessions) ->
  (roots = [] -> Q 0 w) ->
  (forall tree rows w', session_tree is_active z roots w.(db) = Some tree ->
     rows = tree_rows z tree w.(db) ->
     only_outbox (set_db (set_sessions (update_where (in_tree z tree) (suspend_row w.(now))
                                          w.(db).(sessions)) w.(db)) w) w'
       (rows ≫= suspend_items w.(now) z reason
          (revocationExemptSessions z rows
             (set_sessions (update_where (in_tree z tree) (suspend_row w.(now)) w.(db).(sessions)) w.(db)))) ->
     Q (Z.of_nat (length rows)) w') ->
  wp (suspendSubtree z roots reason) Q E w.
Proof.
  intros Hinv H0 HQ. unfold suspendSubtree. case_bool_decide as Hr; [by apply wp_ret, H0|].
  apply wp_bind, wp_query_opt.
  2: { intros Hn. destruct (session_tree_terminates is_active z roots w.(db) Hinv) as [? ?]. congruence. }
  intros tree Htree. wp_steps.
  - match goal with H : bool_decide (_ = []) = true |- _ => apply bool_decide_eq_true in H as Hnil end.
    pose proof (HQ tree [] _ Htree (eq_sym Hnil) (only_outbox_refl _)) as HQ'. exact HQ'.
  - apply wp_enqueueMany. intros w' Hw'. wp_steps. eapply HQ; [done|done|]. exact Hw'.
Qed.

Lemma wp_terminateSubtree z roots reason rs (Q : Z -> World -> Prop) (E : exit R -> World -> Prop) w :
  session_inv w.(db).(sessions) ->
  (roots = [] -> Q 0 w) ->
  (forall tree rows epochs epoch w', session_tree is_live z roots w.(db) = Some tree ->
     rows = tree_rows z tree w.(db) ->
     let d := terminated_db w.(now) z roots tree reason rs w.(db) in
     only_outbox (set_db (set_delegation_graph_epochs epochs d) w) w'
       ((edge_revoke_item z reason epoch <$>
           (select (edge_touches z rows.*1) w.(db).(delegation_edges)).*1)
        ++ (rows ≫= terminate_items z reason (revocationExemptSessions z rows d))) ->
     Q (Z.of_nat (length rows)) w') ->
  wp (terminateSubtree z roots reason rs) Q E w.
Proof.
  intros Hinv H0 HQ. unfold terminateSubtree. case_bool_decide as Hr; [by apply wp_ret, H0|].
  apply wp_bind, wp_query_opt.
  2: { intros Hn. destruct (session_tree_terminates is_live z roots w.(db) Hinv) as [? ?]. congruence. }
  intros tree Htree. wp_steps.
  - match goal with H : bool_decide (_ = []) = true |- _ => apply bool_decide_eq_true in H as Hnil end.
    apply (HQ tree [] w.(db).(delegation_graph_epochs) 0 _ Htree (eq_sym Hnil)).
    assert (terminated_db w.(now) z roots tree reason rs w.(db)
      = set_sessions (terminate_sessions w.(now) z roots tree reason rs w.(db)) w.(db)) as ->.
    { unfold terminated_db. rewrite Hnil. rewrite update_where_id; [by destruct (w.(db))|].
      intros k e _. unfold edge_touches. rewrite andb_comm. cbn.
      rewrite !(bool_decide_eq_false_2 (_ ∈ [])) by set_solver. done. }
    assert ((select (edge_touches z (([] : list (string * Session.SessionRow)).*1)) w.(db).(delegation_edges)).*1 = []) as ->.
    { rewrite (proj2 (select_nil _ _)); [done|]. intros k e _. unfold edge_touches. rewrite andb_comm. cbn.
      rewrite !(bool_decide_eq_false_2 (_ ∈ [])) by set_solver. done. }
    cbn. match goal with |- only_outbox ?a ?b _ => replace a with b; [apply only_outbox_refl|] end.
    by destruct w as [[] ? ? ? ? ? ?].
  - match goal with H : bool_decide (_ = []) = true |- _ => apply bool_decide_eq_true in H as He end.
    apply wp_enqueueMany. intros w' Hw'. wp_steps.
    apply (HQ tree _ w.(db).(delegation_graph_epochs) 0 w' Htree eq_refl). cbn zeta.
    cbn in He, Hw'. rewrite He. cbn [fmap list_fmap app].
    eapply (eq_ind _ (fun u => only_outbox u w' _)); [exact Hw'|].
    by destruct w as [[] ? ? ? ? ? ?].
  - apply wp_bumpDelegationEpoch. wp_steps. apply wp_enqueueMany. intros w' Hw'. wp_steps.
    eapply (HQ tree _ _ _ w' Htree eq_refl). exact Hw'.
Qed.
End subtree_wp.

(** ** Preservation *)

Lemma session_inv_update (q : string -> Session.SessionRow -> bool) (f : Session.SessionRow -> Session.SessionRow)
  (ss : SessionTable) :
  (forall k s, ss !! k = Some s -> q k s = true -> skeleton (f s) = skeleton s) ->
  session_inv ss -> session_inv (update_where q f ss).
Proof.
  intros Hf. apply session_inv_skeleton. intros k. rewrite lookup_update_where.
  destruct (ss !! k) as [s|] eqn:Hk; [|done]. cbn. destruct (q k s) eqn:Hq; [|done]. by rewrite (Hf k s).
Qed.

Lemma session_inv_suspend t z roots tree d :
  session_tree is_active z roots d = Some tree -> session_inv d.(sessions) ->
  session_inv (update_where (in_tree z tree) (suspend_row t) d.(sessions)).
Proof.
  intros Ht. apply session_inv_update. intros k s Hk Hin.
  rewrite (in_tree_iff _ _ _ _ _ Ht) in Hin by done. apply bool_decide_eq_true in Hin.
  destruct (tree_member _ _ _ _ _ Ht k Hin) as (s' & Hs' & _ & Ha). simplify_eq.
  unfold is_active in Ha. bool_props. unfold skeleton, is_live. cbn. by rewrite Ha.
Qed.

Lemma session_inv_resume `{Env} t z roots tree d :
  session_tree is_suspended z roots d = Some tree -> session_inv d.(sessions) ->
  session_inv (update_where (in_tree z tree) (resume_row t) d.(sessions)).
Proof.
  intros Ht. apply session_inv_update. intros k s Hk Hin.
  rewrite (in_tree_iff _ _ _ _ _ Ht) in Hin by done. apply bool_decide_eq_true in Hin.
  destruct (tree_member _ _ _ _ _ Ht k Hin) as (s' & Hs' & _ & Ha). simplify_eq.
  unfold is_suspended in Ha. bool_props. unfold skeleton, is_live. cbn. by rewrite Ha.
Qed.

Definition terminal (s : session_status) : Prop := s = Terminated \/ s = Expired.

Section terminate.
Context (t : Z) (z : string) (roots tree : list string) (reason : string) (rs : session_status) (d : Db).
Context (Htree : session_tree is_live z roots d = Some tree) (Hrs : terminal rs).

(** What termination does to one row. *)
Lemma lookup_terminated k :
  (terminated_db t z roots tree reason rs d).(sessions) !! k =
  (fun s => if bool_decide (k ∈ tree) then terminate_row t roots reason rs k s
            else if bool_decide (0 < decrement (tree_rows z tree d) k) && in_zone z s then
              Session.set_child_count (Z.max (s.(Session.child_count) - decrement (tree_rows z tree d) k) 0)
                (Session.set_updated_at t s)
            else s) <$> d.(sessions) !! k.
Proof.
  unfold terminated_db. cbn [sessions set_delegation_edges set_sessions]. unfold terminate_sessions.
  rewrite map_lookup_imap. destruct (d.(sessions) !! k) as [s|] eqn:Hk; [|done]. cbn.
  by rewrite (in_tree_iff _ _ _ _ _ Htree k s Hk).
Qed.

Lemma terminated_row k s' :
  (terminated_db t z roots tree reason rs d).(sessions) !! k = Some s' ->
  exists s, d.(sessions) !! k = Some s
    /\ s'.(Session.zone_id) = s.(Session.zone_id) /\ s'.(Session.parent_id) = s.(Session.parent_id)
    /\ s'.(Session.depth) = s.(Session.depth) /\ s'.(Session.max_children) = s.(Session.max_children)
    /\ is_live s' = is_live s && negb (bool_decide (k ∈ tree)).
Proof.
  rewrite lookup_terminated. destruct (d.(sessions) !! k) as [s|] eqn:Hk; cbn; [|done].
  intros [= <-]. exists s. case_bool_decide as Hin.
  - split_and!; try done. unfold is_live at 1. cbn. rewrite andb_false_r.
    destruct (bool_decide (k ∈ roots)); [|done]. destruct Hrs as [->| ->]; done.
  - rewrite andb_true_r. destruct (_ && _); done.
Qed.

(** The live children of a surviving Session are the old ones less the terminated. *)
Lemma terminated_children p :
  Z.of_nat (live_children d.(sessions) p) =
  Z.of_nat (live_children (terminated_db t z roots tree reason rs d).(sessions) p)
  + decrement (tree_rows z tree d) p.
Proof.
  set (gone := (filter (fun kr => kr.2.(Session.parent_id) = Some p) (tree_rows z tree d)).*1).
  assert (decrement (tree_rows z tree d) p = Z.of_nat (length gone)) as ->.
  { unfold decrement, gone. by rewrite length_fmap. }
  rewrite <-Nat2Z.inj_add. f_equal.
  assert (forall k, k ∈ gone <-> exists s, d.(sessions) !! k = Some s /\ k ∈ tree
            /\ s.(Session.parent_id) = Some p) as Hgone.
  { intros k. unfold gone. rewrite list_elem_of_fmap. split.
    - intros ([k' s] & -> & Hin). apply list_elem_of_filter in Hin as [Hpar Hin].
      apply (elem_of_tree_rows _ _ _ _ _ Htree) in Hin as [? ?]. eauto.
    - intros (s & Hs & Hin & Hpar). exists (k, s). split; [done|]. apply list_elem_of_filter. split; [done|].
      by apply (elem_of_tree_rows _ _ _ _ _ Htree). }
  apply select_length_split.
  - apply NoDup_fst_filter, NoDup_select_keys.
  - intros k. rewrite Hgone, !elem_of_select_keys. unfold live_child. split.
    + intros (s & Hs & Hb). bool_props. destruct (decide (k ∈ tree)) as [Hin|Hin]; [right; eauto|left].
      destruct ((terminated_db t z roots tree reason rs d).(sessions) !! k) as [s'|] eqn:Hs'.
      2: { rewrite lookup_terminated, Hs in Hs'. done. }
      destruct (terminated_row _ _ Hs') as (s0 & ? & _ & Hp & _ & _ & Hl). simplify_eq.
      exists s'. split; [done|]. rewrite Hl, Hp, (bool_decide_eq_true_2 (_ = Some p)) by done.
      rewrite (bool_decide_eq_false_2 (k ∈ tree)) by done. cbn. by rewrite andb_true_r.
    + intros [(s' & Hs' & Hb)|(s & Hs & Hin & Hpar)].
      * destruct (terminated_row _ _ Hs') as (s0 & ? & _ & Hp & _ & _ & Hl). bool_props.
        exists s0. split; [done|]. rewrite Hl in *. bool_props. rewrite <-Hp.
        rewrite bool_decide_eq_true_2 by done. done.
      * destruct (tree_member _ _ _ _ _ Htree k Hin) as (s' & ? & _ & Hl). simplify_eq.
        eexists. split; [done|]. by rewrite bool_decide_eq_true_2.
  - intros k (s' & Hs' & Hb)%elem_of_select_keys (s & _ & Hin & _)%Hgone. unfold live_child in Hb. bool_props.
    destruct (terminated_row _ _ Hs') as (s0 & _ & _ & _ & _ & _ & Hl). rewrite Hl in *. bool_props. done.
Qed.

Lemma session_inv_terminate :
  session_inv d.(sessions) -> session_inv (terminated_db t z roots tree reason rs d).(sessions).
Proof.
  intros Hinv. pose proof Hinv as [He Hp Hr Hd Hc Hm]. split.
  - rewrite lookup_terminated. by rewrite He.
  - intros k s' p Hk Hpar. destruct (terminated_row _ _ Hk) as (s & Hs & Hz & Hpa & Hde & _ & Hl).
    rewrite Hpa in Hpar. destruct (Hp k s p Hs Hpar) as (ps & Hps & Hzp & Hdp & Hlp).
    destruct ((terminated_db t z roots tree reason rs d).(sessions) !! p) as [ps'|] eqn:Hps'.
    2: { rewrite lookup_terminated, Hps in Hps'. done. }
    destruct (terminated_row _ _ Hps') as (ps0 & ? & Hz0 & _ & Hd0 & _ & Hl0). simplify_eq.
    exists ps'. split_and!; [done|congruence|congruence|]. rewrite Hl, Hl0. intros Hlive. bool_props.
    rewrite Hlp by done. case_bool_decide as Hin; [|done]. exfalso.
    destruct (tree_member _ _ _ _ _ Htree p Hin) as (? & ? & ? & _). simplify_eq.
    match goal with Hno : k ∉ tree |- _ => apply Hno end.
    eapply (tree_child _ _ _ _ _ Htree p k s); [done..|congruence|done].
  - intros k s' Hk Hpar. destruct (terminated_row _ _ Hk) as (s & Hs & _ & Hpa & -> & _).
    apply (Hr k s Hs). congruence.
  - intros k s' Hk. destruct (terminated_row _ _ Hk) as (s & Hs & _ & _ & -> & _). eauto.
  - intros k s' Hk Hl. destruct (terminated_row _ _ Hk) as (s & Hs & Hz & _ & _ & _ & Hl').
    rewrite Hl' in Hl. bool_props.
    pose proof (Hc k s Hs) as Hcount. rewrite terminated_children in Hcount.
    rewrite lookup_terminated, Hs in Hk. cbn in Hk. rewrite bool_decide_eq_false_2 in Hk by done.
    assert (0 <= decrement (tree_rows z tree d) k) by (unfold decrement; lia).
    destruct (bool_decide_reflect (0 < decrement (tree_rows z tree d) k)) as [Hpos|Hpos].
    + assert (in_zone z s = true) as Hzone.
      { unfold decrement in Hpos.
        destruct (filter _ (tree_rows z tree d)) as [|[c cs] l] eqn:Hf; [cbn in Hpos; lia|].
        assert ((c, cs) ∈ filter (fun kr => kr.2.(Session.parent_id) = Some k) (tree_rows z tree d)) as Hin
          by (rewrite Hf; set_solver).
        apply list_elem_of_filter in Hin as [Hpar Hin]. cbn in Hpar.
        apply (elem_of_tree_rows _ _ _ _ _ Htree) in Hin as [Hcs Hct].
        destruct (tree_member _ _ _ _ _ Htree c Hct) as (? & ? & Hzc & _). simplify_eq.
        destruct (Hp c _ k ltac:(eassumption) Hpar) as (ps & Hps & Hzz & _). simplify_eq.
        unfold in_zone. rewrite bool_decide_eq_true_2; [done|congruence]. }
      rewrite Hzone in Hk. cbn in Hk. simplify_eq.
      cbn [Session.child_count Session.set_child_count]. rewrite Hcount by done. lia.
    + cbn in Hk. simplify_eq. rewrite Hcount by done. lia.
  - intros k s' Hk. rewrite lookup_terminated in Hk.
    destruct (d.(sessions) !! k) as [s|] eqn:Hs; cbn in Hk; [|done]. simplify_eq.
    destruct (Hm k s Hs) as [Hmx Hcc]. case_bool_decide; [done|].
    assert (0 <= decrement (tree_rows z tree d) k) by (unfold decrement; lia).
    destruct (_ && _); [|done]. cbn. split; [done|lia].
Qed.
End terminate.

(** ** Starting *)

(** What the coordinator relies on of [uuid]: its identifiers are not empty and do
    not repeat. *)
Class UuidLaws `{Env} := {
  uuidv7_nonempty : forall n, uuidv7 n <> "";
  uuidv7_inj : forall m n, uuidv7 m = uuidv7 n -> m = n
}.

(** A new root Session. *)
Lemma session_inv_insert_root (ss : SessionTable) id row :
  session_inv ss -> ss !! id = None -> id <> "" ->
  row.(Session.parent_id) = None -> row.(Session.depth) = 0 -> row.(Session.child_count) = 0 ->
  row.(Session.max_children) = MAX_CHILDREN ->
  session_inv (<[id := row]> ss).
Proof.
  intros [He Hp Hr Hd Hc Hm] Hid Hne Hpar Hdep Hcc Hmx.
  assert (forall p, live_children (<[id := row]> ss) p = live_children ss p) as Hlc.
  { intros p. apply select_length_iff. intros k. rewrite !elem_of_select_keys. unfold live_child.
    destruct (decide (id = k)) as [<-|Hk].
    - rewrite lookup_insert_eq, Hid. split; intros (r & ? & Hb); simplify_eq.
      rewrite Hpar in Hb. done.
    - by rewrite lookup_insert_ne. }
  split.
  - by rewrite lookup_insert_ne.
  - intros k s p Hk Hpa. destruct (decide (id = k)) as [<-|Hk'].
    + rewrite lookup_insert_eq in Hk. simplify_eq.
    + rewrite lookup_insert_ne in Hk by done. destruct (Hp k s p Hk Hpa) as (ps & Hps & ?).
      exists ps. rewrite lookup_insert_ne; [done|congruence].
  - intros k s Hk. apply lookup_insert_Some in Hk as [[<- <-]|[_ Hk]]; [done|eauto].
  - intros k s Hk. apply lookup_insert_Some in Hk as [[<- <-]|[_ Hk]]; [rewrite Hdep; unfold MAX_DEPTH; lia|eauto].
  - intros k s Hk Hl. rewrite Hlc. apply lookup_insert_Some in Hk as [[<- <-]|[_ Hk]]; [|eauto].
    rewrite Hcc. unfold live_children. rewrite (proj2 (select_nil _ _)); [done|].
    intros k s Hk. unfold live_child. case_bool_decide as Hpk; [|done].
    destruct (Hp k s id Hk Hpk) as (ps & Hps & _). congruence.
  - intros k s Hk. apply lookup_insert_Some in Hk as [[<- <-]|[_ Hk]]; [|eauto].
    rewrite Hcc, Hmx. unfold MAX_CHILDREN. lia.
Qed.

Definition add_child (s : Session.SessionRow) : Session.SessionRow :=
  Session.set_child_count (s.(Session.child_count) + 1) s.

(** A new child of a live Session that has room for it. *)
Lemma session_inv_insert_child (ss : SessionTable) id row p ps :
  session_inv ss -> ss !! id = None -> id <> "" -> ss !! p = Some ps -> is_live ps = true ->
  ps.(Session.child_count) < ps.(Session.max_children) -> ps.(Session.depth) + 1 <= MAX_DEPTH ->
  row.(Session.parent_id) = Some p -> row.(Session.depth) = ps.(Session.depth) + 1 ->
  row.(Session.zone_id) = ps.(Session.zone_id) -> is_live row = true ->
  row.(Session.child_count) = 0 -> row.(Session.max_children) = MAX_CHILDREN ->
  session_inv (alter add_child p (<[id := row]> ss)).
Proof.
  intros [He Hp Hr Hd Hc Hm] Hid Hne Hps Hlps Hroom Hdeep Hpar Hdep Hz Hlrow Hcc Hmx.
  assert (p <> id) as Hpid by congruence.
  set (ss' := alter add_child p (<[id := row]> ss)).
  assert (forall k s, ss' !! k = Some s ->
    (k = id /\ s = row) \/ (k = p /\ s = add_child ps) \/ (k <> id /\ k <> p /\ ss !! k = Some s)) as Hcases.
  { intros k s Hk. unfold ss' in Hk. destruct (decide (p = k)) as [<-|Hpk].
    - rewrite lookup_alter_eq, lookup_insert_ne, Hps in Hk by done. cbn in Hk. simplify_eq. auto.
    - rewrite lookup_alter_ne in Hk by done. apply lookup_insert_Some in Hk as [[<- <-]|[Hik Hk]]; auto. }
  assert (forall k s, ss !! k = Some s -> k <> p -> ss' !! k = Some s) as Hold.
  { intros k s Hk Hkp. unfold ss'. rewrite lookup_alter_ne, lookup_insert_ne by congruence. done. }
  assert (ss' !! p = Some (add_child ps)) as Hp'.
  { unfold ss'. rewrite lookup_alter_eq, lookup_insert_ne, Hps by done. done. }
  assert (ss' !! id = Some row) as Hid'.
  { unfold ss'. rewrite lookup_alter_ne, lookup_insert_eq by done. done. }
  assert (forall q, live_children ss' q = (live_children ss q + length (if bool_decide (q = p) then [id] else []))%nat) as Hlc.
  { intros q. apply select_length_split.
    - case_bool_decide; [apply NoDup_singleton|constructor].
    - intros k. rewrite !elem_of_select_keys. unfold live_child. split.
      + intros (s & Hk & Hb). destruct (Hcases k s Hk) as [[-> ->]|[[-> ->]|(Hk1 & Hk2 & Hk3)]].
        * right. rewrite Hpar in Hb. bool_props. simplify_eq. rewrite bool_decide_eq_true_2 by done. set_solver.
        * left. exists ps. split; [done|]. exact Hb.
        * left. eauto.
      + intros [(s & Hk & Hb)|Hk].
        * destruct (decide (k = p)) as [->|Hkp]; [|eauto]. simplify_eq. exists (add_child ps). split; [done|exact Hb].
        * case_bool_decide; [|set_solver]. apply list_elem_of_singleton in Hk as ->. subst q.
          exists row. split; [done|]. by rewrite bool_decide_eq_true_2.
    - intros k (s & Hk & _)%elem_of_select_keys. case_bool_decide; [|set_solver].
      rewrite list_elem_of_singleton. congruence. }
  assert (live_children ss id = 0%nat) as Hlid.
  { unfold live_children. rewrite (proj2 (select_nil _ _)); [done|].
    intros k s Hk. unfold live_child. case_bool_decide as Hpk; [|done].
    destruct (Hp k s id Hk Hpk) as (? & ? & _). congruence. }
  split.
  - destruct (ss' !! "") as [s|] eqn:E; [|done].
    destruct (Hcases _ _ E) as [[? _]|[[<- _]|(_ & _ & ?)]]; congruence.
  - intros k s q Hk Hq. destruct (Hcases k s Hk) as [[-> ->]|[[-> ->]|(Hk1 & Hk2 & Hk3)]].
    + rewrite Hpar in Hq. simplify_eq. exists (add_child ps). split_and!; [done|by cbn|by cbn|by intros].
    + cbn in Hq. destruct (Hp p ps q Hps Hq) as (qs & Hqs & Hzq & Hdq & Hlq).
      assert (q <> p) by (intros ->; simplify_eq; lia). exists qs. split_and!; [by apply Hold|done|done|done].
    + destruct (Hp k s q Hk3 Hq) as (qs & Hqs & Hzq & Hdq & Hlq).
      destruct (decide (q = p)) as [->|Hqp]; [simplify_eq; exists (add_child ps); done|].
      exists qs. split_and!; [by apply Hold|done|done|done].
  - intros k s Hk Hn. destruct (Hcases k s Hk) as [[-> ->]|[[-> ->]|(_ & _ & ?)]]; [congruence| |eauto].
    exact (Hr p ps Hps Hn).
  - intros k s Hk. destruct (Hcases k s Hk) as [[-> ->]|[[-> ->]|(_ & _ & ?)]]; [|exact (Hd p ps Hps)|eauto].
    pose proof (Hd p ps Hps). lia.
  - intros k s Hk Hl. rewrite Hlc. destruct (Hcases k s Hk) as [[-> ->]|[[-> ->]|(_ & Hkp & ?)]].
    + rewrite bool_decide_eq_false_2 by congruence. by rewrite Hlid.
    + rewrite bool_decide_eq_true_2 by done. cbn. rewrite (Hc p ps Hps Hlps). lia.
    + rewrite bool_decide_eq_false_2 by done. rewrite Nat.add_0_r. eauto.
  - intros k s Hk. destruct (Hcases k s Hk) as [[-> ->]|[[-> ->]|(_ & _ & ?)]]; [|cbn|eauto].
    + rewrite Hcc. unfold MAX_CHILDREN in *. lia.
    + destruct (Hm p ps Hps) as [Hmp Hcp]. rewrite Hmp in *. lia.
Qed.

(** * Starting a Session

    What a committed [POST /zones/:zoneId/agents] did, as one relation between the
    database before and after, and that the transaction of
    [apps/coordinator/src/routes/agents.ts] implements it. *)

(** The sessions table with a new row, its parent credited with one more child. *)
Definition started_sessions (id : string) (row : Session.SessionRow) (ss : SessionTable) : SessionTable :=
  match row.(Session.parent_id) with
  | Some p => alter add_child p (<[id := row]> ss)
  | None => <[id := row]> ss
  end.

(** The edge a child receives: the parent's edge, re-issued by the parent. *)
Definition mirror_edge (t : Z) (z p childId app peid : string) (pe : Edge.EdgeRow) : Edge.EdgeRow :=
  Edge.MkEdgeRow z p childId pe.(Edge.receiver_application_id) app pe.(Edge.resource_id) pe.(Edge.scopes)
    pe.(Edge.constraints_json) RActive pe.(Edge.expires_at) 0 None t t (Some peid).

(** The parent a start may hang a child from. *)
Definition parent_admits (z : string) (row : Session.SessionRow) (ss : SessionTable) : Prop :=
  match row.(Session.parent_id) with
  | None => row.(Session.depth) = 0
  | Some p => exists ps, ss !! p = Some ps /\ ps.(Session.zone_id) = z /\ is_active ps = true
      /\ ps.(Session.child_count) < ps.(Session.max_children)
      /\ row.(Session.depth) = ps.(Session.depth) + 1 /\ ps.(Session.depth) + 1 <= MAX_DEPTH
      /\ (ps.(Session.lifecycle) = Task -> row.(Session.lifecycle) = Task)
  end.

(** The edge table after a start: untouched, or one mirrored edge for a child that
    inherits its parent's only live edge. *)
Definition inherits (t : Z) (z : string) (b : StartBody) (id : string)
  (es es' : gmap string Edge.EdgeRow) : Prop :=
  es' = es \/
  exists p eid peid pe, b.(parent_id) = Some p /\ b.(parent_authority) = Inherit /\ es !! eid = None
    /\ p <> id /\ es !! peid = Some pe /\ edge_live t pe = true /\ pe.(Edge.zone_id) = z
    /\ pe.(Edge.target_session_id) = p /\ pe.(Edge.receiver_application_id) = b.(application_id)
    /\ es' = <[eid := mirror_edge t z p id b.(application_id) peid pe]> es.

(** A committed start of Session [id] with row [row]. *)
Record start_effect `{Env} (z : string) (b : StartBody) (id : string) (row : Session.SessionRow)
  (t : Z) (d d' : Db) : Prop := {
  eff_zone : row.(Session.zone_id) = z;
  eff_app : row.(Session.application_id) = b.(application_id);
  eff_parent_id : row.(Session.parent_id) = b.(parent_id);
  eff_status : row.(Session.status) = Active;
  eff_started : row.(Session.started_at) = t;
  eff_children : row.(Session.child_count) = 0 /\ row.(Session.max_children) = MAX_CHILDREN;
  eff_fields : lifecycle_fields_check row = true;
  eff_live_app : exists a, find_application z b.(application_id) t d = Some a
    /\ (a.(Application.registration_method) = Dcr ->
        row.(Session.lifecycle) = Task /\ row.(Session.parent_id) = None
        /\ count_app_slots t z b.(application_id) d = 0);
  eff_authority : authority_live t d z row.(Session.subject_authority_record_id) = true;
  eff_zone_capacity : count_slots t z d < cfg.(maxSessionsPerZone);
  eff_app_capacity : count_app_slots t z b.(application_id) d < cfg.(maxSessionsPerApp);
  eff_fresh : d.(sessions) !! id = None;
  eff_parent : parent_admits z row d.(sessions);
  eff_sessions : d'.(sessions) = started_sessions id row d.(sessions);
  eff_edges : inherits t z b id d.(delegation_edges) d'.(delegation_edges);
  eff_others : d'.(applications) = d.(applications) /\ d'.(authority_records) = d.(authority_records)
    /\ d'.(resources) = d.(resources) /\ d'.(agent_services) = d.(agent_services)
    /\ d'.(agent_invocations) = d.(agent_invocations)
}.

(** Who may hang a child from the parent it names: the application that runs the parent, or a
    caller entitled to start under it; and the parent's application registered itself by hand. *)
Definition parent_owned (req : option CaracalAuth) (z : string) (b : StartBody) (d : Db) : Prop :=
  forall p, b.(parent_id) = Some p -> exists ps a, find_parent z p d = Some (ps, a) /\ a.(Application.registration_method) <> Dcr
    /\ (ps.(Session.application_id) = b.(application_id)
        \/ requireScope req ("coordinator.spawn_under:" +:+ ps.(Session.application_id)) = true).

(** The lifetime a start asks for. *)
Definition start_ttl (b : StartBody) : option Z :=
  match b.(ttl_seconds) with
  | Some n => Some n
  | None => if bool_decide (default_to Task b.(lifecycle) = ServiceLife) then None else Some DEFAULT_TTL
  end.

(** The authority record a start is anchored to. *)
Definition start_subject (req : Request) (b : StartBody) : option string :=
  match b.(subject_session_id) with
  | Some s => Some s
  | None => match req.(auth) with Some a => a.(authorityRecordId) | None => None end
  end.

(** The databases agree on every table but the receipts. *)
Definition same_core (d d' : Db) : Prop :=
  d'.(applications) = d.(applications) /\ d'.(authority_records) = d.(authority_records)
  /\ d'.(resources) = d.(resources) /\ d'.(sessions) = d.(sessions)
  /\ d'.(agent_topology) = d.(agent_topology) /\ d'.(delegation_edges) = d.(delegation_edges)
  /\ d'.(agent_services) = d.(agent_services) /\ d'.(agent_invocations) = d.(agent_invocations)
  /\ d'.(caracal_outbox) = d.(caracal_outbox) /\ d'.(delegation_graph_epochs) = d.(delegation_graph_epochs).

(** The answer to a start: the new Session and the edge it inherited. *)
Definition start_reply (id : string) (row : Session.SessionRow) (r : reply) : Prop :=
  exists edge, r = MkReply 201 (JObj (session_json id row ++ [("delegation_edge_id", JOpt JStr edge)])) false.

Section start_wp.
Context `{Env}.

Lemma wp_check_start z b life sub (Q : unit -> World -> Prop) (E : exit reply -> World -> Prop) w :
  aborts E ->
  (forall a, find_application z b.(application_id) w.(now) w.(db) = Some a ->
     (a.(Application.registration_method) = Dcr ->
        life = Task /\ truthy b.(parent_id) = false /\ count_app_slots w.(now) z b.(application_id) w.(db) = 0) ->
     authority_live w.(now) w.(db) z sub = true ->
     count_slots w.(now) z w.(db) < cfg.(maxSessionsPerZone) ->
     count_app_slots w.(now) z b.(application_id) w.(db) < cfg.(maxSessionsPerApp) -> Q tt w) ->
  wp (check_start z b life sub) Q E w.
Proof.
  intros HE HQ. unfold check_start. wp_steps.
  destruct (find_application _ _ _ _) as [a|]; wp_steps. apply (HQ a); [done| |done|lia|lia].
  intros Hdcr. rewrite bool_decide_eq_true_2 in * by done. cbn in *.
  assert (0 <= count_app_slots w.(now) z b.(application_id) w.(db)) by (unfold count_app_slots; lia).
  split_and!; [by case_bool_decide|by apply negb_true_iff|lia].
Qed.

Lemma wp_check_parent req z b life (Q : Z -> World -> Prop) (E : exit reply -> World -> Prop) w :
  aborts E ->
  (truthy b.(parent_id) = false -> Q 0 w) ->
  (forall p ps, b.(parent_id) = Some p -> p <> "" -> w.(db).(sessions) !! p = Some ps ->
     ps.(Session.zone_id) = z -> is_active ps = true ->
     (ps.(Session.lifecycle) = Task -> life = Task) ->
     ps.(Session.application_id) = b.(application_id)
       \/ requireScope req ("coordinator.spawn_under:" +:+ ps.(Session.application_id)) = true ->
     (exists a, find_parent z p w.(db) = Some (ps, a) /\ a.(Application.registration_method) <> Dcr) ->
     ps.(Session.child_count) < ps.(Session.max_children) -> ps.(Session.depth) + 1 <= MAX_DEPTH ->
     Q (ps.(Session.depth) + 1) w) ->
  wp (check_parent req z b life) Q E w.
Proof.
  intros HE Hroot HQ. unfold check_parent. destruct b.(parent_id) as [p|]; [|wp_steps; by apply Hroot].
  cbn in Hroot. unfold nonempty in *. case_bool_decide as Hp; cbn [negb]; [wp_steps; by apply Hroot|].
  wp_steps. destruct (find_parent z p w.(db)) as [[ps a]|] eqn:Hfp; [|wp_steps]. pose proof Hfp as Hfp'. unfold find_parent in Hfp.
  destruct (w.(db).(sessions) !! p) as [ps'|] eqn:Hps; [|done].
  destruct (in_zone z ps' && is_active ps') eqn:Hz; [|done].
  destruct (w.(db).(applications) !! _) as [a'|]; [|done].
  case_bool_decide; [|done]. injection Hfp as -> ->. wp_steps. unfold in_zone in Hz. bool_props.
  apply (HQ p ps); [done|done|done|done|done| | |by exists a|lia|lia].
  - intros Ht. rewrite (bool_decide_eq_true_2 _ Ht) in *. cbn in *. by destruct life.
  - match goal with H : _ || _ = true |- _ => apply orb_true_iff in H as [?|?] end; bool_props; auto.
Qed.

Lemma wp_insert_session id z b life ttl sub depth (Q : Session.SessionRow -> World -> Prop)
  (E : exit reply -> World -> Prop) w :
  aborts E -> w.(db).(sessions) !! "" = None ->
  (forall row tp, row = new_session w.(now) z b life ttl sub depth ->
     w.(db).(sessions) !! id = None -> lifecycle_fields_check row = true ->
     truthy b.(parent_id) = bool_decide (is_Some b.(parent_id)) ->
     Q row (set_db (set_agent_topology tp (set_sessions (started_sessions id row w.(db).(sessions)) w.(db))) w)) ->
  wp (insert_session id z b life ttl sub depth) Q E w.
Proof.
  intros HE Hne HQ. unfold insert_session. wp_step; wp_step. wp_step; wp_step. wp_step; wp_step. wp_step; wp_step.
  wp_step; wp_step. wp_step; wp_step. wp_step; wp_step. wp_step. bool_props.
  set (row := new_session _ _ _ _ _ _ _) in *.
  destruct b.(parent_id) as [p|] eqn:Hpar; cbn [truthy].
  - assert (p <> "") as Hp.
    { intros ->. unfold parent_fk in *. rewrite Hne in *. done. }
    assert (nonempty p = true) as Hnp by (unfold nonempty; by rewrite bool_decide_eq_false_2).
    rewrite Hnp. wp_steps.
    specialize (HQ row ({[(p, id)]} ∪ w.(db).(agent_topology)) eq_refl ltac:(done) ltac:(done)).
    unfold started_sessions in HQ. subst row. cbn [Session.parent_id new_session] in HQ. rewrite Hpar in HQ.
    apply HQ. cbn. by rewrite Hnp.
  - wp_steps. specialize (HQ row w.(db).(agent_topology) eq_refl ltac:(done) ltac:(done) eq_refl).
    unfold started_sessions in HQ. subst row. cbn [Session.parent_id new_session] in HQ. rewrite Hpar in HQ.
    exact HQ.
Qed.

Lemma elem_of_inherit_candidates z p app x d k e :
  (k, e) ∈ inherit_candidates z p app x d ->
  d.(delegation_edges) !! k = Some e /\ e.(Edge.zone_id) = z /\ e.(Edge.target_session_id) = p
  /\ e.(Edge.receiver_application_id) = app.
Proof. unfold inherit_candidates. rewrite elem_of_select. intros [? ?]. bool_props. done. Qed.

Lemma wp_inheritParentEdge z b id (Q : string + option string -> World -> Prop)
  (E : exit reply -> World -> Prop) w :
  aborts E ->
  (forall r w' es ep o n, w' = set_uuids n (set_db (set_caracal_outbox o (set_delegation_graph_epochs ep
      (set_delegation_edges es w.(db)))) w) ->
     (forall e, r = inr e -> inherits w.(now) z b id w.(db).(delegation_edges) es) -> Q r w') ->
  wp (inheritParentEdge z b id) Q E w.
Proof.
  intros HE HQ.
  assert (forall r, Q r w) as Hsame.
  { intros r. apply (HQ r w w.(db).(delegation_edges) w.(db).(delegation_graph_epochs) w.(db).(caracal_outbox) w.(uuids));
      [by destruct w as [[] ? ? ? ? ? ?]|]. intros _ _. by left. }
  unfold inheritParentEdge. destruct b.(parent_id) as [p|] eqn:Hpar; [|wp_steps; apply Hsame].
  destruct (negb (nonempty p) || _) eqn:Hb; [wp_steps; apply Hsame|]. bool_props. wp_steps.
  destruct (filter _ _) as [|[peid pe] [|? ?]] eqn:Hf.
  - destruct (_ || _); wp_steps; apply Hsame.
  - assert ((peid, pe) ∈ filter (fun ke : string * Edge.EdgeRow => edge_live w.(now) ke.2 = true)
        (inherit_candidates z p b.(application_id) b.(inherit_parent_edge_id) w.(db))) as Hin by (rewrite Hf; set_solver).
    apply list_elem_of_filter in Hin as [Hlive Hin]. apply elem_of_inherit_candidates in Hin as (Hpe & Hz & Ht & Hr).
    wp_steps. apply wp_bumpDelegationEpoch. wp_steps. apply wp_enqueue. intros w' (o & n & -> & Ho). wp_steps.
    bool_props. eapply HQ; [reflexivity|]. intros _ _. right.
    exists p, (uuidv7 w.(uuids)), peid, pe. split_and!; try done.
    destruct b.(parent_authority); [done|contradiction].
  - wp_steps; apply Hsame.
Qed.

Lemma wp_start_receipt z b idem req (Q : option (string * string) -> World -> Prop)
  (E : exit reply -> World -> Prop) w :
  aborts E ->
  (forall x rc st l, Q x (set_stats st (set_locks l (set_db (set_receipts rc w.(db)) w)))) ->
  (forall r rc st l, r.(replay_header) = true ->
     E (Commit r) (set_stats st (set_locks l (set_db (set_receipts rc w.(db)) w)))) ->
  wp (start_receipt z b idem req) Q E w.
Proof.
  intros HE HQ HC. unfold start_receipt. destruct idem as [k|].
  - wp_steps. apply wp_startIdempotency; [|by intros _; apply HE].
    intros h st l _. destruct (start_outcome _ _ _ _); wp_steps; [apply HQ|apply HC; done].
  - wp_steps. specialize (HQ None w.(db).(receipts) w.(idempotencyStats) w.(locks)).
    by destruct w as [[] ? ? ? ? ? ?].
Qed.

Lemma wp_start_governed req z b sub life ttl ret id receipt (E : exit reply -> World -> Prop) w :
  aborts E -> w.(db).(sessions) !! "" = None -> id <> "" ->
  (forall r w' row, start_reply id row r -> row = new_session w.(now) z b life ttl sub row.(Session.depth) -> parent_owned req z b w.(db) ->
     start_effect z b id row w.(now) w.(db) w'.(db) ->
     is_Some (w'.(db).(caracal_outbox) !! item_key (MkItem AgentsLifecycle ("spawn:" +:+ id) [])) ->
     E (Commit r) w') ->
  wp (start_governed req z b sub life ttl ret id receipt) E E w.
Proof.
  intros HE Hne Hid Hnew. unfold start_governed. wp_step. apply wp_lock. wp_step.
  apply wp_check_start; [done|]. intros a Happ Hdcr Hauth Hzcap Hacap. wp_step.
  assert (forall depth,
    (forall row, row = new_session w.(now) z b life ttl sub depth ->
       truthy b.(parent_id) = bool_decide (is_Some b.(parent_id)) -> parent_admits z row w.(db).(sessions) /\ parent_owned req z b w.(db)) ->
    wp (row ← insert_session id z b life ttl sub depth;
        inherited ← inheritParentEdge z b id;
        match inherited with
        | inl conflict => rollback (error_reply 409 conflict)
        | inr edgeId =>
            enqueue AgentsLifecycle ("spawn:" +:+ id)
              [("event", JStr "spawn"); ("zone_id", JStr z); ("agent_session_id", JStr id);
               ("parent_id", JOpt JStr b.(parent_id)); ("application_id", JStr b.(application_id))];;
            let response := JObj (session_json id row ++ [("delegation_edge_id", JOpt JStr edgeId)]) in
            match receipt with
            | Some (kd, rd) =>
                completeIdempotency (MkCompleteInput "session.start.v2" z b.(application_id) kd rd "session" id 201
                  response ret)
            | None => mret tt
            end;;
            mret (Commit (MkReply 201 response false))
        end) E E (set_locks (sessionLockKey z :: w.(locks)) w)) as Hrest.
  { intros depth Hadm. wp_step. apply wp_insert_session; [done|done|]. intros row tp Hrow Hfree Hchk Htr.
    assert (parent_owned req z b w.(db)) as Howned by by apply (Hadm row).
    assert (row = new_session w.(now) z b life ttl sub row.(Session.depth)) as Hrow' by (by rewrite Hrow).
    assert (start_effect z b id row w.(now) w.(db) (set_sessions (started_sessions id row w.(db).(sessions)) w.(db))) as Heff.
    { subst row. split; try done.
      - exists a. split; [done|]. intros Hd. destruct (Hdcr Hd) as (-> & Hp & Hc). split_and!; [done| |done].
        rewrite Htr in Hp. cbn. bool_props. destruct b.(parent_id); [|done]. by destruct Hp; eexists.
      - by apply Hadm.
      - by left. }
    wp_step. apply wp_inheritParentEdge; [done|]. intros inh w' es ep o n -> Hinh.
    destruct inh as [conflict|eid]; cbn beta iota; [by wp_step|]. wp_step. apply wp_enqueue. intros w' (o' & n' & -> & _ & Hspawn & _).
    cbv zeta. wp_step.
    assert (forall d', d'.(sessions) = started_sessions id row w.(db).(sessions) -> d'.(delegation_edges) = es ->
      d'.(applications) = w.(db).(applications) /\ d'.(authority_records) = w.(db).(authority_records)
      /\ d'.(resources) = w.(db).(resources) /\ d'.(agent_services) = w.(db).(agent_services)
      /\ d'.(agent_invocations) = w.(db).(agent_invocations) ->
      start_effect z b id row w.(now) w.(db) d') as Heff'.
    { intros d' Hs He Ho. destruct Heff. split; try done. rewrite He. exact (Hinh eid eq_refl). }
    destruct receipt as [[kd rd]|].
    - apply wp_completeIdempotency; [|by intros; apply HE]. intros i m st' _. wp_step.
      apply (Hnew _ _ row); [by exists eid|done|done|by apply Heff'|exact (Hspawn _ ltac:(left))].
    - wp_steps. apply (Hnew _ _ row); [by exists eid|done|done|by apply Heff'|exact (Hspawn _ ltac:(left))]. }
  apply wp_check_parent; [done| |].
  - intros Htr. apply Hrest. intros row -> Htr'. rewrite Htr in Htr'. unfold parent_admits, parent_owned. cbn.
    destruct b.(parent_id); [|done]. symmetry in Htr'. bool_props. by destruct Htr'; eexists.
  - intros p ps Hp Hpne Hps Hz Hact Hl Hown (a' & Hfp & Hdcr') Hroom Hdeep. apply Hrest. intros row -> _. unfold parent_admits, parent_owned. cbn.
    rewrite Hp. split; [exists ps; split_and!; done|]. intros p' [= <-]. by exists ps, a'.
Qed.

(** The whole transaction: a replay changes nothing the start reads, a commit is a
    [start_effect]. *)
Lemma wp_start_tx req z b sub (E : exit reply -> World -> Prop) w :
  aborts E -> w.(db).(sessions) !! "" = None -> (forall n, uuidv7 n <> "") ->
  (forall r w', r.(replay_header) = true -> same_core w.(db) w'.(db) -> E (Commit r) w') ->
  (forall r w' id row, r.(code) = 201 -> r.(replay_header) = false -> id = uuidv7 w.(uuids) ->
     row = new_session w.(now) z b (default_to Task b.(lifecycle)) (start_ttl b) sub row.(Session.depth) -> parent_owned req.(auth) z b w.(db) ->
     start_reply id row r -> start_effect z b id row w.(now) w.(db) w'.(db) ->
     is_Some (w'.(db).(caracal_outbox) !! item_key (MkItem AgentsLifecycle ("spawn:" +:+ id) [])) ->
     E (Commit r) w') ->
  wp (start_tx req z b sub) E E w.
Proof.
  intros HE Hne Huu Hreplay Hnew. unfold start_tx. apply wp_bind.
  apply wp_mono with (Q := fun _ w' => w' = w) (E := fun x _ => forall r, x <> Commit r).
  { unfold parseIdempotencyKey. repeat case_match; done. }
  2: { intros x w' Hx. by apply HE. }
  intros idem w0 ->. apply wp_bind, wp_fresh, wp_bind, wp_start_receipt; [done| |].
  2: { intros r rc st l Hr. apply Hreplay; [done|]. by repeat split. }
  intros receipt rc st l. apply wp_start_governed; [done|done|apply Huu|].
  intros r w' row Hr Hrow Hown Heff Hs. pose proof Hr as [e ->]. apply (Hnew _ w' (uuidv7 w.(uuids)) row); [done|done|done|done|done|done| |done].
  destruct Heff. by split.
Qed.
End start_wp.

(** ** The route *)

(** A committed start, seen by the client: who may ask for it, the row, and what it did. *)
Definition started `{Env} (req : Request) (z : string) (b : StartBody) (r : reply) (w w' : World) : Prop :=
  (ownsApplication req.(auth) b.(application_id) = true \/ requireScope req.(auth) ("coordinator.spawn_for:" +:+ b.(application_id)) = true)
  /\ parent_owned req.(auth) z b w.(db)
  /\ exists sub, start_subject req b = Some sub /\ sub <> "" /\ exists id row, id = uuidv7 w.(uuids)
    /\ row = new_session w.(now) z b (default_to Task b.(lifecycle)) (start_ttl b) sub row.(Session.depth)
    /\ start_reply id row r /\ start_effect z b id row w.(now) w.(db) w'.(db)
    /\ is_Some (w'.(db).(caracal_outbox) !! item_key (MkItem AgentsLifecycle ("spawn:" +:+ id) [])).

Lemma parse_StartBody_fields body b :
  parse_StartBody body = Some b ->
  b.(application_id) = body.(application_id) /\ b.(parent_id) = body.(parent_id)
  /\ b.(parent_authority) = body.(parent_authority) /\ b.(lifecycle) = body.(lifecycle).
Proof. unfold parse_StartBody. repeat case_match; intros; simplify_eq; done. Qed.

Lemma start_tx_refuses `{Env} req z b sub : refuses (fun r => r.(code) <> 201) (start_tx req z b sub).
Proof.
  unfold start_tx, start_receipt, start_governed, check_start, check_parent, insert_session, inheritParentEdge,
    bumpDelegationEpoch, enqueue. refusals_walk.
Qed.

Lemma errorHandler_refuses e : (errorHandler e).(code) <> 201.
Proof. by destruct e. Qed.

Lemma startSession_cases `{UuidLaws} req z body w :
  w.(db).(sessions) !! "" = None ->
  let '(r, w') := startSession req z body w in
  (r.(code) <> 201 /\ w'.(db) = w.(db))
  \/ (r.(replay_header) = true /\ same_core w.(db) w'.(db))
  \/ exists b, parse_StartBody body = Some b /\ r.(code) = 201 /\ r.(replay_header) = false /\ started req z b r w w'.
Proof.
  intros Hne. unfold startSession. destruct (negb (CoordinatorIdPattern z)); [by left|].
  destruct (parse_StartBody body) as [b|]; [|by left]. fold (start_subject req b). destruct (negb (truthy (start_subject req b))) eqn:Htr; [by left|].
  destruct (_ && _) eqn:Hown; [by left|]. set (sub := default_to "" _).
  assert (start_subject req b = Some sub /\ sub <> "") as [Hsub Hsne].
  { unfold sub. destruct (start_subject req b) as [s|]; [|done]. cbn in *. unfold nonempty in Htr. split; [done|]. by case_bool_decide. }
  assert (ownsApplication req.(auth) b.(application_id) = true \/ requireScope req.(auth) ("coordinator.spawn_for:" +:+ b.(application_id)) = true) as Hcaller.
  { apply andb_false_iff in Hown as [Hx|Hx]; bool_props; auto. }
  destruct (run_tx_cases (fun r => r.(code) <> 201) (start_tx req z b sub) w (fun r w' =>
    (r.(replay_header) = true /\ same_core w.(db) w'.(db)) \/ (r.(code) = 201 /\ r.(replay_header) = false /\ started req z b r w w')))
    as [Hsame|(r & w' & Hrun & Hp)].
  - apply start_tx_refuses.
  - apply wp_start_tx; [by intros [r|r|e] ? Hc; [destruct (Hc r)|..]|done|apply uuidv7_nonempty| |].
    + intros r w' Hr Hc. by left.
    + intros r w' id row Hr Hrep -> Hrow Hpar Hreply Heff Hout. right. split; [done|]. split; [done|]. split; [done|]. split; [done|].
      exists sub. split; [done|]. split; [done|]. by eexists _, row.
  - unfold respond. destruct (run_tx _ w) as [[r|e] w'] eqn:E; cbn in Hsame |- *; destruct Hsame; left; auto using errorHandler_refuses.
  - rewrite Hrun. cbn. destruct Hp as [Hp|(Hr & Hrep & Hp)]; [right; left; done|]. right; right. exists b. done.
Qed.

Lemma started_session_inv `{UuidLaws} z b id row t d d' :
  session_inv d.(sessions) -> id <> "" -> start_effect z b id row t d d' -> session_inv d'.(sessions).
Proof.
  intros Hinv Hid []. rewrite eff_sessions0. unfold started_sessions, parent_admits in *.
  destruct eff_children0. destruct (row.(Session.parent_id)) as [p|] eqn:Hp.
  - destruct eff_parent0 as (ps & Hps & Hz & Hact & Hroom & Hdep & Hmax & _).
    assert (is_live ps = true) by (unfold is_live; unfold is_active in Hact; bool_props; by rewrite Hact).
    apply (session_inv_insert_child _ _ _ _ ps); try done; [congruence|].
    unfold is_live. by rewrite eff_status0.
  - by apply session_inv_insert_root.
Qed.
