(* ===== verification/SessionProps.v ===== *)
(** * Properties of the session routes

    What suspend, resume and cascade terminate of
    [apps/coordinator/src/routes/agents.ts] do, stated against the parent relation
    instead of the recursive queries, and the invariant of the session tree. *)

From S2P Require Import Prelude.
From S2P Require Import Json.
From S2P Require Import Schema.
From S2P Require Import Store.
From S2P Require Import Scope.
From S2P Require Import Auth.
From S2P Require Import Outbox.
From S2P Require Import Idempotency.
From S2P Require Import Sessions.
From S2P Require Import SessionFacts.
Local Open Scope string_scope.
Local Open Scope Z_scope.
Local Open Scope list_scope.

(** ** The subtree below a Session *)

(** [y] is a child of [x] in the zone that satisfies [p]. *)
Definition child_in (p : Session.SessionRow -> bool) (z : string) (d : Db) (x y : string) : Prop :=
  exists s, d.(sessions) !! y = Some s /\ s.(Session.parent_id) = Some x
            /\ s.(Session.zone_id) = z /\ p s = true.

(** [k] is a root that satisfies [p], or hangs below one through Sessions that do. *)
Definition below (p : Session.SessionRow -> bool) (z : string) (roots : list string) (d : Db) (k : string) : Prop :=
  exists r s, r ∈ roots /\ d.(sessions) !! r = Some s /\ s.(Session.zone_id) = z /\ p s = true
              /\ rtc (child_in p z d) r k.

Lemma elem_of_session_tree p z roots d tree k :
  session_tree p z roots d = Some tree -> (k ∈ tree <-> below p z roots d k).
Proof.
  intros Ht. unfold session_tree in Ht. rewrite (cte_spec _ _ _ _ Ht).
  assert (forall x y, rtc (cte_rel (tree_step p z d)) x y <-> rtc (child_in p z d) x y) as Hrtc.
  { intros x y. split; induction 1; try apply rtc_refl; (eapply rtc_l; [|done]); by apply elem_of_tree_step. }
  split.
  - intros (r & Hr & Hk). apply elem_of_tree_base in Hr as (s & Hs & Hin & Hz & Hp).
    exists r, s. by rewrite <-Hrtc.
  - intros (r & s & Hin & Hs & Hz & Hp & Hk). exists r. rewrite Hrtc. split; [|done].
    apply elem_of_tree_base. eauto.
Qed.

Lemma below_row p z roots d k :
  below p z roots d k -> exists s, d.(sessions) !! k = Some s /\ s.(Session.zone_id) = z /\ p s = true.
Proof.
  intros (r & s & _ & Hs & Hz & Hp & Hk). apply rtc_inv_r in Hk as [<-|(x & _ & s' & Hs' & _ & ? & ?)]; eauto.
Qed.

Lemma below_single p z id d :
  (exists k, below p z [id] d k) <-> exists s, d.(sessions) !! id = Some s /\ s.(Session.zone_id) = z /\ p s = true.
Proof.
  split.
  - intros (k & r & s & Hr%list_elem_of_singleton & Hs & Hz & Hp & _). subst. eauto.
  - intros (s & Hs & Hz & Hp). exists id, id, s. split_and!; [set_solver|done..|apply rtc_refl].
Qed.

(** ** Cascade terminate *)

(** An active edge of the zone with an endpoint among the Sessions [P]. *)
Definition touches (z : string) (P : string -> Prop) (e : Edge.EdgeRow) : Prop :=
  e.(Edge.zone_id) = z /\ e.(Edge.status) = RActive
  /\ (P e.(Edge.source_session_id) \/ P e.(Edge.target_session_id)).

(** An authority record that terminating the Sessions [P] must leave alone: another
    live Session of the zone is anchored to it, or it is the application's own. *)
Definition record_kept (z : string) (P : string -> Prop) (d : Db) (rid : string) : Prop :=
  (exists k s, d.(sessions) !! k = Some s /\ s.(Session.zone_id) = z /\ ~ P k /\ is_live s = true
     /\ s.(Session.subject_authority_record_id) = rid)
  \/ (exists r, d.(authority_records) !! rid = Some r /\ r.(Authority.zone_id) = z
        /\ r.(Authority.session_type) = ApplicationAuthority).

Definition outbox_at (tp key : string) : string * string * string := item_key (MkItem tp key []).

(** What terminating the Sessions below [roots] does. *)
Record terminate_effect (t : Z) (z : string) (roots : list string) (reason : string) (rs : session_status)
  (d d' : Db) : Prop := {
  te_closed : forall k s, below is_live z roots d k -> d.(sessions) !! k = Some s ->
    d'.(sessions) !! k = Some (terminate_row t roots reason rs k s);
  te_kept : forall k s, ~ below is_live z roots d k -> d.(sessions) !! k = Some s ->
    exists n u, d'.(sessions) !! k = Some (Session.set_child_count n (Session.set_updated_at u s));
  te_sessions : forall k, d.(sessions) !! k = None -> d'.(sessions) !! k = None;
  te_revoked : forall k e, d.(delegation_edges) !! k = Some e -> touches z (below is_live z roots d) e ->
    d'.(delegation_edges) !! k = Some (revoke_edge t e);
  te_edges : forall k e, d.(delegation_edges) !! k = Some e -> ~ touches z (below is_live z roots d) e ->
    d'.(delegation_edges) !! k = Some e;
  te_no_edges : forall k, d.(delegation_edges) !! k = None -> d'.(delegation_edges) !! k = None;
  te_events : forall k, below is_live z roots d k -> is_Some (d'.(caracal_outbox) !! outbox_at AgentsLifecycle ("terminate:" +:+ k));
  te_edge_events : forall k e, d.(delegation_edges) !! k = Some e -> touches z (below is_live z roots d) e ->
    is_Some (d'.(caracal_outbox) !! outbox_at DelegationsInvalidate ("edge_revoke:" +:+ k));
  te_authority : forall k s, below is_live z roots d k -> d.(sessions) !! k = Some s ->
    ~ record_kept z (below is_live z roots d) d s.(Session.subject_authority_record_id) ->
    is_Some (d'.(caracal_outbox) !! outbox_at SessionsRevoke ("agent_terminate:" +:+ k));
  te_spared : forall k s, below is_live z roots d k -> d.(sessions) !! k = Some s ->
    record_kept z (below is_live z roots d) d s.(Session.subject_authority_record_id) ->
    d'.(caracal_outbox) !! outbox_at SessionsRevoke ("agent_terminate:" +:+ k) =
    d.(caracal_outbox) !! outbox_at SessionsRevoke ("agent_terminate:" +:+ k);
  te_inv : session_inv d.(sessions) -> session_inv d'.(sessions);
  te_others : d'.(applications) = d.(applications) /\ d'.(authority_records) = d.(authority_records)
    /\ d'.(resources) = d.(resources) /\ d'.(agent_services) = d.(agent_services)
    /\ d'.(agent_invocations) = d.(agent_invocations) /\ d'.(receipts) = d.(receipts)
}.

Section exempt.
Context (t : Z) (z : string) (roots tree : list string) (reason : string) (rs : session_status) (d : Db).
Context (Htree : session_tree is_live z roots d = Some tree) (Hrs : terminal rs).

Lemma below_rows k : k ∈ (tree_rows z tree d).*1 <-> below is_live z roots d k.
Proof.
  rewrite <-(elem_of_session_tree _ _ _ _ _ k Htree), list_elem_of_fmap. split.
  - intros ([k' s] & -> & Hin). by apply (elem_of_tree_rows _ _ _ _ _ Htree) in Hin as [_ ?].
  - intros Hk. destruct (tree_member _ _ _ _ _ Htree k Hk) as (s & Hs & _).
    exists (k, s). split; [done|]. by apply (elem_of_tree_rows _ _ _ _ _ Htree).
Qed.

Lemma terminated_record k s s' :
  d.(sessions) !! k = Some s -> (terminated_db t z roots tree reason rs d).(sessions) !! k = Some s' ->
  s'.(Session.subject_authority_record_id) = s.(Session.subject_authority_record_id).
Proof.
  intros Hs. rewrite (lookup_terminated _ _ _ _ _ _ _ Htree), Hs. cbn. intros [= <-]. by repeat case_match.
Qed.

Lemma exempt_iff rid :
  exempt_record z (tree_rows z tree d).*1 (terminated_db t z roots tree reason rs d) rid = true
  <-> record_kept z (below is_live z roots d) d rid.
Proof.
  pose proof below_rows as Hbr. pose proof terminated_record as Htr. unfold exempt_record, record_kept.
  rewrite orb_true_iff, negb_true_iff, bool_decide_eq_false, select_ne_nil. unfold in_zone. f_equiv.
  - split.
    + intros (k & s' & Hk & Hb). bool_props.
      destruct (terminated_row _ _ _ _ _ _ _ Htree Hrs _ _ Hk) as (s & Hs & Hz & _ & _ & _ & Hl).
      pose proof (Htr _ _ _ Hs Hk) as Hrec.
      match goal with H : k ∉ _ |- _ => rewrite Hbr in H end.
      match goal with H : is_live s' = true |- _ => rewrite Hl in H end. bool_props. exists k, s. split_and!; [done|congruence|done|done|congruence].
    + intros (k & s & Hs & Hz & Hn & Hlive & Hrec).
      destruct ((terminated_db t z roots tree reason rs d).(sessions) !! k) as [s'|] eqn:Hk.
      2: { rewrite (lookup_terminated _ _ _ _ _ _ _ Htree), Hs in Hk. done. }
      destruct (terminated_row _ _ _ _ _ _ _ Htree Hrs _ _ Hk) as (s0 & Hs0 & Hz' & _ & _ & _ & Hl).
      pose proof (Htr _ _ _ Hs Hk) as Hrec'. simplify_eq. exists k, s'. split; [done|].
      rewrite !bool_decide_eq_true_2 by congruence. rewrite bool_decide_eq_false_2 by by rewrite Hbr.
      rewrite Hl, Hlive, bool_decide_eq_false_2; [done|].
      by rewrite (elem_of_session_tree _ _ _ _ _ k Htree).
  - cbn. split.
    + destruct (d.(authority_records) !! rid) as [r|] eqn:E; [|done]. intros Hb. bool_props. eauto.
    + intros (r & -> & Hz & Hty). by rewrite !bool_decide_eq_true_2.
Qed.

Lemma exempt_sessions_iff rid :
  rid ∈ revocationExemptSessions z (tree_rows z tree d) (terminated_db t z roots tree reason rs d)
  <-> (exists k s, below is_live z roots d k /\ d.(sessions) !! k = Some s
         /\ s.(Session.subject_authority_record_id) = rid)
      /\ record_kept z (below is_live z roots d) d rid.
Proof.
  unfold revocationExemptSessions. rewrite list_elem_of_filter, elem_of_distinct, exempt_iff, list_elem_of_fmap.
  split.
  - intros [Hkept ([k s] & -> & Hin)]. split; [|exact Hkept].
    apply (elem_of_tree_rows _ _ _ _ _ Htree) in Hin as [Hs Hk].
    exists k, s. split_and!; [|done|done]. by apply (elem_of_session_tree _ _ _ _ _ k Htree).
  - intros [(k & s & Hk & Hs & <-) Hkept]. split; [exact Hkept|]. exists (k, s). split; [done|].
    apply (elem_of_tree_rows _ _ _ _ _ Htree). split; [done|]. by apply (elem_of_session_tree _ _ _ _ _ k Htree).
Qed.

Lemma edge_touches_iff k e :
  edge_touches z (tree_rows z tree d).*1 k e = true <-> touches z (below is_live z roots d) e.
Proof.
  unfold edge_touches, touches. rewrite <-!below_rows, !andb_true_iff, orb_true_iff, !bool_decide_eq_true. tauto.
Qed.

Lemma lookup_terminated_edge k :
  (terminated_db t z roots tree reason rs d).(delegation_edges) !! k =
  (fun e => if edge_touches z (tree_rows z tree d).*1 k e then revoke_edge t e else e) <$> d.(delegation_edges) !! k.
Proof. apply lookup_update_where. Qed.
End exempt.

(** Events of the outbox, by topic and dedupe key. *)
Lemma outbox_has_event o o' items i : outbox_extends o o' items -> i ∈ items -> is_Some (o' !! item_key i).
Proof. intros (_ & Hi & _). auto. Qed.

Lemma outbox_no_event o o' items tp key :
  outbox_extends o o' items -> (forall i, i ∈ items -> item_key i <> outbox_at tp key) ->
  o' !! outbox_at tp key = o !! outbox_at tp key.
Proof.
  intros (Hold & _ & Hnew) Hno. destruct (o !! outbox_at tp key) as [r|] eqn:E; [by apply Hold|].
  destruct (o' !! outbox_at tp key) as [r|] eqn:E'; [|done].
  destruct (Hnew _ _ E') as [?|(i & Hi & Hk & _)]; [congruence|]. by destruct (Hno i Hi).
Qed.

Lemma only_outbox_db w w' items : only_outbox w w' items ->
  exists o, w'.(db) = set_caracal_outbox o w.(db) /\ outbox_extends w.(db).(caracal_outbox) o items.
Proof. intros (o & n & -> & Ho). exists o. done. Qed.

(** The terminate statements and events have the effect. *)
Lemma terminated_effect t z roots tree reason rs d epochs epoch o :
  session_tree is_live z roots d = Some tree -> terminal rs ->
  let rows := tree_rows z tree d in
  let d1 := terminated_db t z roots tree reason rs d in
  outbox_extends d.(caracal_outbox) o
    ((edge_revoke_item z reason epoch <$> (select (edge_touches z rows.*1) d.(delegation_edges)).*1)
     ++ (rows ≫= terminate_items z reason (revocationExemptSessions z rows d1))) ->
  terminate_effect t z roots reason rs d (set_caracal_outbox o (set_delegation_graph_epochs epochs d1)).
Proof.
  intros Htree Hrs rows d1 Hout.
  assert (forall k, k ∈ tree <-> below is_live z roots d k) as Hbelow
    by (intros k; by apply elem_of_session_tree).
  assert (forall k s, below is_live z roots d k -> d.(sessions) !! k = Some s -> (k, s) ∈ rows) as Hrows.
  { intros k s Hk Hs. apply (elem_of_tree_rows _ _ _ _ _ Htree). by rewrite Hbelow. }
  assert (forall k s i, below is_live z roots d k -> d.(sessions) !! k = Some s ->
    i ∈ terminate_items z reason (revocationExemptSessions z rows d1) (k, s) -> is_Some (o !! item_key i)) as Hitem.
  { intros k s i Hk Hs Hi. eapply outbox_has_event; [done|]. apply elem_of_app. right.
    apply list_elem_of_bind. exists (k, s). eauto. }
  split; cbn [sessions delegation_edges caracal_outbox set_caracal_outbox set_delegation_graph_epochs].
  - intros k s Hk Hs. unfold d1. rewrite (lookup_terminated _ _ _ _ _ _ _ Htree), Hs. cbn.
    by rewrite bool_decide_eq_true_2 by by apply Hbelow.
  - intros k s Hk Hs. unfold d1. rewrite (lookup_terminated _ _ _ _ _ _ _ Htree), Hs. cbn.
    rewrite bool_decide_eq_false_2 by by rewrite Hbelow.
    destruct (_ && _); eexists _, _; [done|]. instantiate (1 := s.(Session.updated_at)).
    instantiate (1 := s.(Session.child_count)). by destruct s.
  - intros k Hk. unfold d1. rewrite (lookup_terminated _ _ _ _ _ _ _ Htree), Hk. done.
  - intros k e He Ht. unfold d1. rewrite lookup_terminated_edge, He. cbn.
    by rewrite (proj2 (edge_touches_iff _ _ _ _ Htree k e)).
  - intros k e He Ht. unfold d1. rewrite lookup_terminated_edge, He. cbn.
    destruct (edge_touches _ _ _ _) eqn:Hb; [|done]. by apply (edge_touches_iff _ _ _ _ Htree) in Hb.
  - intros k He. unfold d1. by rewrite lookup_terminated_edge, He.
  - intros k Hk. destruct (below_row _ _ _ _ _ Hk) as (s & Hs & _).
    apply (Hitem k s (lifecycle_item "terminate" ("terminate:" +:+ k) z (k, s) [("reason", JStr reason)])); [done..|].
    unfold terminate_items. set_solver.
  - intros k e He Ht. apply (outbox_has_event _ _ _ (edge_revoke_item z reason epoch k)) in Hout; [done|].
    apply elem_of_app. left. apply list_elem_of_fmap. exists k. split; [done|]. apply elem_of_select_keys.
    exists e. split; [done|]. by apply (edge_touches_iff _ _ _ _ Htree).
  - intros k s Hk Hs Hnot. apply (Hitem k s (revoke_item ("agent_terminate:" +:+ k) z (k, s) reason)); [done..|].
    unfold terminate_items. rewrite bool_decide_eq_false_2; [set_solver|]. cbn. unfold rows, d1.
    rewrite (exempt_sessions_iff _ _ _ _ _ _ _ Htree Hrs). tauto.
  - intros k s Hk Hs Hkept. apply (outbox_no_event _ _ _ _ _ Hout). intros i [Hi|Hi]%elem_of_app.
    + apply list_elem_of_fmap in Hi as (? & -> & _). done.
    + apply list_elem_of_bind in Hi as ([k' s'] & Hi & Hin). unfold terminate_items in Hi.
      apply elem_of_cons in Hi as [->|Hi]; [done|]. case_bool_decide as Hex; [set_solver|].
      apply list_elem_of_singleton in Hi as ->. intros [= Hkk]. cbn in Hkk.
      apply (string_app_inj "") in Hkk as ->. apply (elem_of_tree_rows _ _ _ _ _ Htree) in Hin as [Hs' _].
      simplify_eq. apply Hex. cbn. unfold rows, d1. rewrite (exempt_sessions_iff _ _ _ _ _ _ _ Htree Hrs). eauto 10.
  - by apply session_inv_terminate.
  - done.
Qed.

Section routes.
Context `{Env}.

Lemma wp_terminate_effect {R : Type} z roots reason rs (Q : Z -> World -> Prop) (E : exit R -> World -> Prop) w :
  session_inv w.(db).(sessions) -> terminal rs -> (roots = [] -> Q 0 w) ->
  (forall n w', terminate_effect w.(now) z roots reason rs w.(db) w'.(db) ->
     (n =? 0 = false <-> exists k, below is_live z roots w.(db) k) -> Q n w') ->
  wp (terminateSubtree z roots reason rs) Q E w.
Proof.
  intros Hinv Hrs H0 HQ. apply wp_terminateSubtree; [done|done|].
  intros tree rows epochs epoch w' Htree Hrows d1 Hout.
  destruct (only_outbox_db _ _ _ Hout) as (o & Hdb & Ho). apply HQ.
  - rewrite Hdb. cbn [db set_db]. subst rows. by eapply terminated_effect.
  - rewrite Z.eqb_neq. subst rows. split.
    + intros Hn. destruct (tree_rows z tree w.(db)) as [|[k s] l] eqn:Hr; [done|]. exists k.
      apply (below_rows _ _ _ _ Htree). rewrite Hr. set_solver.
    + intros [k Hk]. apply (below_rows _ _ _ _ Htree) in Hk. intros Hz. apply (f_equal Z.to_nat) in Hz.
      rewrite Nat2Z.id in Hz. cbn in Hz. apply nil_length_inv in Hz. rewrite Hz in Hk. set_solver.
Qed.

(** What [DELETE /zones/:zoneId/agents/:id] answers and does once its parameters
    are accepted. *)
Definition terminate_outcome (req : option CaracalAuth) (z id reason : string) (gen : option Z)
  (w w' : World) (r : reply) : Prop :=
  match find_session z id w.(db) with
  | None => r = error_reply 404 "session_not_found" /\ w'.(db) = w.(db)
  | Some s =>
      if negb (manages req s.(Session.application_id))
      then r = error_reply 403 "application_ownership_required" /\ w'.(db) = w.(db)
      else if bool_decide (s.(Session.lifecycle) = ServiceLife) && negb (requireScope req "coordinator.admin")
              && bool_decide (gen = None)
      then r = error_reply 400 "lease_generation_required" /\ w'.(db) = w.(db)
      else if bool_decide (s.(Session.lifecycle) = ServiceLife) && negb (requireScope req "coordinator.admin")
              && negb (bool_decide (gen = Some s.(Session.lease_generation)))
      then r = error_reply 409 "session_lease_fenced" /\ w'.(db) = w.(db)
      else if is_live s
      then r = MkReply 204 JNull false /\ terminate_effect w.(now) z [id] reason Terminated w.(db) w'.(db)
      else r = error_reply 404 "session_not_found" /\ w'.(db) = w.(db)
  end.

Lemma find_session_Some z id d s :
  find_session z id d = Some s <-> d.(sessions) !! id = Some s /\ s.(Session.zone_id) = z.
Proof.
  unfold find_session, in_zone. destruct (d.(sessions) !! id) as [s'|]; [|naive_solver].
  case_bool_decide; naive_solver.
Qed.

Lemma terminate_tx_spec req z id reason gen w :
  session_inv w.(db).(sessions) ->
  let '(o, w') := run_tx (terminate_tx req z id reason gen) w in
  exists r, o = inl r /\ terminate_outcome req z id reason gen w w' r.
Proof.
  intros Hinv. destruct (run_tx _ w) as [o w'] eqn:Erun.
  enough (exists r, (run_tx (terminate_tx req z id reason gen) w).1 = inl r
    /\ terminate_outcome req z id reason gen w (run_tx (terminate_tx req z id reason gen) w).2 r) by (by rewrite Erun in *).
  apply run_tx_wp with (P := fun o w' => exists r, o = inl r /\ terminate_outcome req z id reason gen w w' r).
  unfold terminate_tx, terminate_outcome. wp_steps. cbn [db set_locks].
  destruct (find_session z id w.(db)) as [s|] eqn:Hf; [|wp_steps; eexists; done].
  wp_step. apply wp_ensure; [intros ->|intros ->; eexists; done]. cbn [negb].
  wp_step.
  assert (forall w0, w0.(db) = w.(db) -> w0.(now) = w.(now) ->
    wp (terminated ← terminateSubtree z [id] reason Terminated;
        ensure (negb (terminated =? 0)) (error_reply 404 "session_not_found");;
        mret (Commit (MkReply 204 JNull false)))
      (outcome w (fun o w' => exists r, o = inl r /\
        if is_live s then r = MkReply 204 JNull false /\ terminate_effect w.(now) z [id] reason Terminated w.(db) w'.(db)
        else r = error_reply 404 "session_not_found" /\ w'.(db) = w.(db)))
      (outcome w (fun o w' => exists r, o = inl r /\
        if is_live s then r = MkReply 204 JNull false /\ terminate_effect w.(now) z [id] reason Terminated w.(db) w'.(db)
        else r = error_reply 404 "session_not_found" /\ w'.(db) = w.(db))) w0) as Hterm.
  { intros w0 Hdb Hnow. wp_step. apply wp_terminate_effect; [by rewrite Hdb|by left|done|].
    rewrite Hdb, Hnow. intros n w1 Heff Hn. rewrite below_single in Hn.
    apply find_session_Some in Hf as [Hs Hz].
    wp_step. apply wp_ensure.
    - intros Hn0%negb_true_iff. apply Hn in Hn0 as (s0 & Hs0 & _ & Hl). simplify_eq. wp_steps. rewrite Hl.
      eexists. split; [done|]. split; [done|]. exact Heff.
    - intros Hn0%negb_false_iff. eexists. split; [done|]. destruct (is_live s) eqn:Hl; [|done].
      rewrite Hn0 in Hn. assert (true = false) by (apply Hn; eauto). done. }
  destruct (bool_decide (s.(Session.lifecycle) = ServiceLife) && negb (requireScope req "coordinator.admin")) eqn:Hsvc; cbn [andb].
  - destruct gen as [g|]; [|wp_steps; eexists; done]. rewrite bool_decide_eq_false_2 by done.
    apply wp_ensure.
    + intros ->%Z.eqb_eq. rewrite bool_decide_eq_true_2 by done. by apply Hterm.
    + intros Hg%Z.eqb_neq. rewrite bool_decide_eq_false_2 by congruence. eexists; done.
  - apply wp_ret. by apply Hterm.
Qed.

(** ** Suspend and resume *)

(** The rows below [roots] take a new row; nothing else changes but the outbox. *)
Record subtree_effect (p : Session.SessionRow -> bool) (f : Session.SessionRow -> Session.SessionRow)
  (z : string) (roots : list string) (d d' : Db) : Prop := {
  sub_changed : forall k s, below p z roots d k -> d.(sessions) !! k = Some s -> d'.(sessions) !! k = Some (f s);
  sub_kept : forall k, ~ below p z roots d k -> d'.(sessions) !! k = d.(sessions) !! k;
  sub_db : d' = set_caracal_outbox d'.(caracal_outbox) (set_sessions d'.(sessions) d)
}.

Lemma subtree_effect_intro p f z roots tree d o :
  session_tree p z roots d = Some tree ->
  subtree_effect p f z roots d
    (set_caracal_outbox o (set_sessions (update_where (in_tree z tree) f d.(sessions)) d)).
Proof.
  intros Ht. split; [| |done].
  - intros k s Hk Hs. cbn. rewrite lookup_update_where, Hs. cbn.
    rewrite (in_tree_iff _ _ _ _ _ Ht) by done.
    by rewrite bool_decide_eq_true_2 by by apply (elem_of_session_tree _ _ _ _ _ k Ht).
  - intros k Hk. cbn. rewrite lookup_update_where. destruct (d.(sessions) !! k) as [s|] eqn:Hs; [|done]. cbn.
    rewrite (in_tree_iff _ _ _ _ _ Ht) by done.
    by rewrite bool_decide_eq_false_2 by by rewrite (elem_of_session_tree _ _ _ _ _ k Ht).
Qed.

(** What the suspend and resume routes answer and do, once their parameters are
    accepted: [p] is the status they start from, [verb] names the count. *)
Definition subtree_outcome (p : Session.SessionRow -> bool) (f : Z -> Session.SessionRow -> Session.SessionRow)
  (verb conflict : string) (event : Z -> string -> string)
  (req : option CaracalAuth) (z id : string) (w w' : World) (r : reply) : Prop :=
  match find_session z id w.(db) with
  | None => r = error_reply 404 "session_not_found" /\ w'.(db) = w.(db)
  | Some s =>
      if negb (manages req s.(Session.application_id))
      then r = error_reply 403 "application_ownership_required" /\ w'.(db) = w.(db)
      else if p s
      then (exists ks, NoDup ks /\ (forall k, k ∈ ks <-> below p z [id] w.(db) k)
              /\ r = MkReply 200 (JObj [(verb, JNum (Z.of_nat (length ks)))]) false)
           /\ subtree_effect p (f w.(now)) z [id] w.(db) w'.(db)
           /\ (forall k, below p z [id] w.(db) k ->
                is_Some (w'.(db).(caracal_outbox) !! outbox_at AgentsLifecycle (event w.(now) k)))
      else r = error_reply 409 conflict /\ w'.(db) = w.(db)
  end.

Lemma tree_rows_below p z roots tree d :
  session_tree p z roots d = Some tree ->
  NoDup (tree_rows z tree d).*1 /\ (forall k, k ∈ (tree_rows z tree d).*1 <-> below p z roots d k)
  /\ (forall k s, below p z roots d k -> d.(sessions) !! k = Some s -> (k, s) ∈ tree_rows z tree d).
Proof.
  intros Ht. split; [apply NoDup_select_keys|].
  assert (forall k s, below p z roots d k -> d.(sessions) !! k = Some s -> (k, s) ∈ tree_rows z tree d) as Hin.
  { intros k s Hk Hs. apply (elem_of_tree_rows _ _ _ _ _ Ht). split; [done|]. by apply (elem_of_session_tree _ _ _ _ _ k Ht). }
  split; [|done]. intros k. rewrite list_elem_of_fmap. split.
  - intros ([k' s] & -> & Hk). apply (elem_of_tree_rows _ _ _ _ _ Ht) in Hk as [_ Hk].
    by apply (elem_of_session_tree _ _ _ _ _ _ Ht).
  - intros Hk. destruct (below_row _ _ _ _ _ Hk) as (s & Hs & _). exists (k, s). eauto.
Qed.

Definition suspend_event (t : Z) (k : string) : string := "suspend:" +:+ k +:+ ":" +:+ occurrenceOf t.
Definition resume_event (t : Z) (k : string) : string := "resume:" +:+ k +:+ ":" +:+ occurrenceOf t.

Lemma rows_empty_iff p z id tree d s :
  session_tree p z [id] d = Some tree -> d.(sessions) !! id = Some s -> s.(Session.zone_id) = z ->
  tree_rows z tree d = [] <-> p s = false.
Proof.
  intros Ht Hs Hz. destruct (tree_rows_below _ _ _ _ _ Ht) as (_ & Hk & Hin). split.
  - intros Hnil. destruct (p s) eqn:Hp; [|done]. assert (below p z [id] d id) as Hb.
    { exists id, s. split_and!; [set_solver|done..|apply rtc_refl]. }
    specialize (Hin id s Hb Hs). rewrite Hnil in Hin. set_solver.
  - intros Hp. destruct (tree_rows z tree d) as [|[k s'] l] eqn:Hr; [done|].
    assert (below p z [id] d k) as Hb by (apply Hk; set_solver).
    destruct (proj1 (below_single p z id d)) as (s0 & Hs0 & _ & Hp0); [by exists k|]. congruence.
Qed.

Lemma suspend_tx_spec req z id w :
  session_inv w.(db).(sessions) ->
  exists r, (run_tx (suspend_tx req z id) w).1 = inl r
    /\ subtree_outcome is_active suspend_row "suspended" "session_not_found_or_not_active" suspend_event
         req z id w (run_tx (suspend_tx req z id) w).2 r.
Proof.
  intros Hinv. apply run_tx_wp with (P := fun o w' => exists r, o = inl r /\ subtree_outcome _ _ _ _ _ _ _ _ w w' r).
  unfold suspend_tx, subtree_outcome. wp_steps. cbn [db set_locks].
  destruct (find_session z id w.(db)) as [s|] eqn:Hf; [|wp_steps; eexists; done].
  wp_step. apply wp_ensure; [intros ->|intros ->; eexists; done]. cbn [negb]. wp_step.
  apply wp_suspendSubtree; [done|done|]. intros tree rows w' Htree Hrows Hout.
  destruct (only_outbox_db _ _ _ Hout) as (o & Hdb & Ho). cbn [db set_db set_locks now] in *.
  apply find_session_Some in Hf as [Hs Hz].
  pose proof (rows_empty_iff _ _ _ _ _ _ Htree Hs Hz) as Hempty. rewrite <-Hrows in Hempty.
  destruct (tree_rows_below _ _ _ _ _ Htree) as (Hnd & Hk & Hin). rewrite <-Hrows in *.
  wp_step. apply wp_ensure.
  - intros Hn%negb_true_iff%Z.eqb_neq. wp_steps. destruct (is_active s).
    2: { by rewrite (proj2 Hempty) in Hn. }
    eexists. split; [done|]. split_and!.
    + exists rows.*1. rewrite length_fmap. split_and!; done.
    + cbn [db finish]. rewrite Hdb. by apply subtree_effect_intro.
    + intros k Hb. destruct (below_row _ _ _ _ _ Hb) as (s' & Hs' & _). cbn [db finish]. rewrite Hdb.
      apply (outbox_has_event _ _ _ (lifecycle_item "suspend" (suspend_event w.(now) k) z (k, s') [("reason", JStr "requested")]))
        in Ho; [exact Ho|]. apply list_elem_of_bind. exists (k, s').
      split; [|by apply Hin]. unfold suspend_items. left.
  - intros Hn%negb_false_iff%Z.eqb_eq. eexists. split; [done|]. rewrite (proj1 Hempty); [done|].
    destruct rows; [done|]. cbn in Hn. lia.
Qed.

Lemma resume_tx_spec req z id w :
  session_inv w.(db).(sessions) ->
  exists r, (run_tx (resume_tx req z id) w).1 = inl r
    /\ subtree_outcome is_suspended resume_row "resumed" "session_not_found_or_not_suspended" resume_event
         req z id w (run_tx (resume_tx req z id) w).2 r.
Proof.
  intros Hinv. apply run_tx_wp with (P := fun o w' => exists r, o = inl r /\ subtree_outcome _ _ _ _ _ _ _ _ w w' r).
  unfold resume_tx, subtree_outcome. wp_steps. cbn [db set_locks].
  destruct (find_session z id w.(db)) as [s|] eqn:Hf; [|wp_steps; eexists; done].
  wp_step. apply wp_ensure; [intros ->|intros ->; eexists; done]. cbn [negb]. wp_step. apply wp_query_opt.
  2: { intros Hn. destruct (session_tree_terminates is_suspended z [id] w.(db) Hinv) as [? ?]. cbn in Hn. congruence. }
  intros tree Htree. cbn in Htree. apply find_session_Some in Hf as [Hs Hz].
  pose proof (rows_empty_iff _ _ _ _ _ _ Htree Hs Hz) as Hempty.
  destruct (tree_rows_below _ _ _ _ _ Htree) as (Hnd & Hk & Hin).
  wp_step. apply wp_query. wp_step. apply wp_exec. cbn [db set_db set_locks now]. set (rows := tree_rows z tree w.(db)) in *.
  wp_step. apply wp_ensure.
  - intros Hn%negb_true_iff. bool_props. wp_step. apply wp_query. wp_step. apply wp_enqueueMany. intros w' Hout.
    destruct (only_outbox_db _ _ _ Hout) as (o & Hdb & Ho). wp_steps. cbn [db set_db set_locks now] in *.
    destruct (is_suspended s); [|by destruct Hn; apply Hempty].
    eexists. split; [done|]. split_and!.
    + exists rows.*1. rewrite length_fmap. split_and!; done.
    + cbn [db finish]. rewrite Hdb. by apply subtree_effect_intro.
    + intros k Hb. destruct (below_row _ _ _ _ _ Hb) as (s' & Hs' & _). cbn [db finish]. rewrite Hdb.
      apply (outbox_has_event _ _ _ (lifecycle_item "resume" (resume_event w.(now) k) z (k, s') []))
        in Ho; [exact Ho|]. apply list_elem_of_fmap. exists (k, s'). split; [done|by apply Hin].
  - intros Hn%negb_false_iff. bool_props. eexists. split; [done|]. by rewrite (proj1 Hempty).
Qed.
End routes.

(** ** Capacity *)

Lemma lookup_started id row (ss : SessionTable) k s :
  ss !! id = None -> started_sessions id row ss !! k = Some s ->
  (k = id /\ (s = row \/ s = add_child row)) \/ (k <> id /\ exists s0, ss !! k = Some s0 /\ (s = s0 \/ s = add_child s0)).
Proof.
  intros Hid. unfold started_sessions. destruct row.(Session.parent_id) as [p|].
  - destruct (decide (p = k)) as [->|Hp].
    + rewrite lookup_alter_eq. destruct (decide (k = id)) as [->|Hk].
      * rewrite lookup_insert_eq. cbn. intros. simplify_eq. auto.
      * rewrite lookup_insert_ne by done. destruct (ss !! k) eqn:E; cbn; intros; simplify_eq. right. eauto.
    + rewrite lookup_alter_ne by done. intros [[<- <-]|[? ?]]%lookup_insert_Some; [auto|]. right. eauto.
  - intros [[<- <-]|[? ?]]%lookup_insert_Some; [auto|]. right. eauto.
Qed.

Lemma lookup_started_old id row (ss : SessionTable) k s0 :
  ss !! id = None -> ss !! k = Some s0 ->
  exists s, started_sessions id row ss !! k = Some s /\ (s = s0 \/ s = add_child s0).
Proof.
  intros Hid Hk. assert (k <> id) by congruence. unfold started_sessions. destruct row.(Session.parent_id) as [p|].
  - destruct (decide (p = k)) as [->|Hp].
    + rewrite lookup_alter_eq, lookup_insert_ne, Hk by done. cbn. eauto.
    + rewrite lookup_alter_ne, lookup_insert_ne by done. eauto.
  - rewrite lookup_insert_ne by done. eauto.
Qed.

Lemma lookup_started_new id row (ss : SessionTable) :
  ss !! id = None -> exists s, started_sessions id row ss !! id = Some s /\ (s = row \/ s = add_child row).
Proof.
  intros Hid. unfold started_sessions. destruct row.(Session.parent_id) as [p|].
  - destruct (decide (p = id)) as [->|Hp].
    + rewrite lookup_alter_eq, lookup_insert_eq. cbn. eauto.
    + rewrite lookup_alter_ne, lookup_insert_eq by done. eauto.
  - rewrite lookup_insert_eq. eauto.
Qed.

(** A start adds at most one row to any count that ignores [child_count]. *)
Lemma started_count (q : string -> Session.SessionRow -> bool) id row (ss : SessionTable) :
  ss !! id = None -> (forall k s, q k (add_child s) = q k s) ->
  length (select q (started_sessions id row ss)) = (length (select q ss) + (if q id row then 1 else 0))%nat.
Proof.
  intros Hid Hq. rewrite (select_length_split q (started_sessions id row ss) q ss (if q id row then [id] else [])).
  - by destruct (q id row).
  - destruct (q id row); [apply NoDup_singleton|constructor].
  - intros k. rewrite !elem_of_select_keys. split.
    + intros (s & Hk & Hb). destruct (lookup_started _ _ _ _ _ Hid Hk) as [[-> Hs]|(Hne & s0 & Hs0 & Hs)].
      * right. assert (q id row = true) as -> by (destruct Hs as [->| ->]; [done|by rewrite <-Hq]). set_solver.
      * left. exists s0. split; [done|]. destruct Hs as [->| ->]; [done|by rewrite <-Hq].
    + intros [(s0 & Hk & Hb)|Hk].
      * destruct (lookup_started_old id row _ _ _ Hid Hk) as (s & Hs & Hc). exists s. split; [done|].
        destruct Hc as [->| ->]; [done|by rewrite Hq].
      * destruct (q id row) eqn:Hqi; [|set_solver]. apply list_elem_of_singleton in Hk as ->.
        destruct (lookup_started_new id row _ Hid) as (s & Hs & Hc). exists s. split; [done|].
        destruct Hc as [->| ->]; [done|by rewrite Hq].
  - intros k (s & Hk & _)%elem_of_select_keys. destruct (q id row); [|set_solver].
    rewrite list_elem_of_singleton. congruence.
Qed.

(** ** Theorems *)

(** C31. An answer of 201 that is not a replay is exactly one governed start, by a caller that owns
    the application or may start Sessions for it: the parsed body's application is live and, when
    it registered itself dynamically, starts its only Session, a task without a parent; the
    authority record, the body's or else the caller's own, is live; zone and application had room;
    a named parent was active in the same zone, of the same application or one the caller may start
    under, which did not register dynamically, with a free child slot and depth below the limit.
    The only new Session is the row of the request, credited to its parent; at most one edge
    mirrors the parent's live edge; the [spawn] event is in the outbox; and the answer is that row.
    A replay changes no table but receipts, and every other answer leaves the database untouched. *)
Theorem startSession_sound `{UuidLaws} req z body w :
  session_inv w.(db).(sessions) ->
  let '(r, w') := startSession req z body w in
  if r.(replay_header) then same_core w.(db) w'.(db)
  else if r.(code) =? 201 then exists b, parse_StartBody body = Some b /\ started req z b r w w'
  else w'.(db) = w.(db).
Proof.
  intros Hinv. pose proof (startSession_cases req z body w (inv_key _ Hinv)) as Hc.
  destruct (startSession req z body w) as [r w']. destruct Hc as [[Hr%Z.eqb_neq Hd]|[[-> Hc]|(b & Hb & -> & -> & Hs)]].
  - rewrite Hr. destruct r.(replay_header); [|done]. by rewrite Hd.
  - done.
  - by exists b.
Qed.

(** Concurrency limits: while a zone (an application) holds no more live slots
    than configured, a start keeps it so; a dynamically registered application
    never holds two. *)
Theorem startSession_capacity `{UuidLaws} req z body w z' app :
  session_inv w.(db).(sessions) ->
  let w' := (startSession req z body w).2 in
  (count_slots w.(now) z' w.(db) <= cfg.(maxSessionsPerZone) ->
   count_slots w.(now) z' w'.(db) <= cfg.(maxSessionsPerZone))
  /\ (count_app_slots w.(now) z' app w.(db) <= cfg.(maxSessionsPerApp) ->
      count_app_slots w.(now) z' app w'.(db) <= cfg.(maxSessionsPerApp))
  /\ (forall a, w.(db).(applications) !! app = Some a -> a.(Application.registration_method) = Dcr ->
      count_app_slots w.(now) z' app w.(db) <= 1 -> count_app_slots w.(now) z' app w'.(db) <= 1).
Proof.
  intros Hinv. pose proof (startSession_cases req z body w (inv_key _ Hinv)) as Hc.
  destruct (startSession req z body w) as [r w']. cbn [snd].
  destruct Hc as [[_ ->]|[[_ (_ & _ & _ & Hs & _)]|(b & _ & _ & _ & _ & _ & sub & _ & _ & id & row & Hid & _ & _ & Heff & _)]].
  - done.
  - unfold count_slots, count_app_slots. by rewrite Hs.
  - destruct Heff as [Ez Ea Ep Est Esa Ech Efl Elive Eauth Ezc Eac Efr Epar Es Eed Eoth]. unfold count_slots, count_app_slots in *. rewrite Es.
    rewrite !started_count by done. subst z. rewrite <-Ea in *. split_and!.
    + intros Hle. destruct (in_zone z' row && _) eqn:Hb; [|lia]. unfold in_zone in Hb. bool_props. subst. lia.
    + intros Hle. destruct (in_zone z' row && _ && _) eqn:Hb; [|lia]. unfold in_zone in Hb. bool_props. subst. lia.
    + intros a Ha Hdcr Hle. destruct (in_zone z' row && _ && _) eqn:Hb; [|lia]. unfold in_zone in Hb. bool_props. subst.
      destruct Elive as (a' & Hfind & Hd). unfold find_application in Hfind. rewrite Ha in Hfind.
      destruct (_ && _) in Hfind; [|done]. simplify_eq. destruct (Hd Hdcr) as (_ & _ & Hzero). lia.
Qed.

Section invariant.
Context `{UuidLaws}.

Lemma subtree_effect_inv p f z roots d d' :
  (forall s, p s = true -> skeleton (f s) = skeleton s) -> subtree_effect p f z roots d d' ->
  session_inv d.(sessions) -> session_inv d'.(sessions).
Proof.
  intros Hf [Hch Hk _] Hinv. eapply session_inv_skeleton; [|done]. intros k.
  destruct (session_tree_terminates p z roots d Hinv) as [tree Ht].
  destruct (decide (k ∈ tree)) as [Hb|Hb]; rewrite (elem_of_session_tree _ _ _ _ _ k Ht) in Hb.
  - destruct (below_row _ _ _ _ _ Hb) as (s & Hs & _ & Hp). rewrite (Hch k s), Hs by done. cbn. by rewrite Hf.
  - by rewrite Hk.
Qed.

Lemma suspend_skeleton t s : is_active s = true -> skeleton (suspend_row t s) = skeleton s.
Proof. unfold is_active, skeleton, is_live. intros Ha. bool_props. cbn. by rewrite Ha. Qed.

Lemma resume_skeleton t s : is_suspended s = true -> skeleton (resume_row t s) = skeleton s.
Proof. unfold is_suspended, skeleton, is_live. intros Ha. bool_props. cbn. by rewrite Ha. Qed.

Lemma respond_db (o : (reply + exn) * World) : (respond o).2 = o.2.
Proof. by destruct o as [[r|e] w]. Qed.

End invariant.

(** Cascade terminate, on every branch: an accepted request answers 404, 403, 400
    or 409 without touching the database, a service Session only yields to the
    caller that holds its current lease generation (or an administrator), and
    otherwise the request terminates exactly the live Sessions reachable from the
    target through live children, revokes exactly the active edges that touch them,
    announces each, and revokes an authority record only when no other live Session
    and no application needs it. *)
Theorem terminateSession_spec `{Env} req z id reason gen w :
  session_inv w.(db).(sessions) -> CoordinatorIdPattern z = true -> CoordinatorIdPattern id = true ->
  nonempty reason = true -> (js_length reason <= 256)%nat ->
  (forall g, gen = Some g -> 1 <= g) ->
  let '(r, w') := terminateSession req z id (Some reason) gen w in
  terminate_outcome req z id reason gen w w' r.
Proof.
  intros Hinv Hz Hid Hr Hl Hg. unfold terminateSession. rewrite Hz, Hid. cbn [andb negb default_to].
  rewrite Hr, bool_decide_eq_true_2 by done. cbn [andb negb].
  assert (match gen with Some g => g <? 1 | None => false end = false) as ->.
  { destruct gen as [g|]; [|done]. specialize (Hg g eq_refl). lia. }
  pose proof (terminate_tx_spec req z id reason gen w Hinv) as Hs.
  destruct (run_tx _ w) as [o w']. destruct Hs as (r & -> & Ho). exact Ho.
Qed.

(** Suspend and resume, on every branch: they act exactly on the active
    (suspended) Sessions connected to the target, answer how many there were,
    announce each of them and change no other row. *)
Theorem suspend_resume_spec `{Env} req z id w :
  session_inv w.(db).(sessions) -> CoordinatorIdPattern z = true -> CoordinatorIdPattern id = true ->
  (let '(r, w') := suspendSession req z id w in
   subtree_outcome is_active suspend_row "suspended" "session_not_found_or_not_active" suspend_event req z id w w' r)
  /\ (let '(r, w') := resumeSession req z id w in
      subtree_outcome is_suspended resume_row "resumed" "session_not_found_or_not_suspended" resume_event req z id w w' r).
Proof.
  intros Hinv Hz Hid. unfold suspendSession, resumeSession. rewrite Hz, Hid. cbn [andb negb]. split.
  - destruct (suspend_tx_spec req z id w Hinv) as (r & Hr & Ho). destruct (run_tx _ w) as [o w'].
    cbn in Hr. subst o. exact Ho.
  - destruct (resume_tx_spec req z id w Hinv) as (r & Hr & Ho). destruct (run_tx _ w) as [o w'].
    cbn in Hr. subst o. exact Ho.
Qed.
