(* ===== verification/Listing.v ===== *)
(** * Keyset pagination

    The [ORDER BY id DESC LIMIT n] pages with an [id < cursor] clause that the
    coordinator's list routes share (agents, delegations, services, invocations),
    and that walking the cursors visits every matching row exactly once. *)

From Stdlib Require Import Ascii.
From Stdlib Require String.
From S2P Require Import Prelude.
From S2P Require Import Json.
From S2P Require Import Schema.
Local Open Scope string_scope.
Local Open Scope list_scope.

(** [id < cursor] and [ORDER BY id DESC]. *)
Definition id_lt (a b : string) : Prop := String.ltb a b = true.

#[export] Instance id_lt_dec : RelDecision id_lt.
Proof. intros a b. unfold id_lt. apply _. Defined.

Definition id_ge {R : Type} (a b : string * R) : Prop := String.leb b.1 a.1 = true.

#[export] Instance id_ge_dec {R : Type} : RelDecision (@id_ge R).
Proof. intros a b. unfold id_ge. apply _. Defined.

Definition before_cursor (cursor : option string) (k : string) : bool :=
  match cursor with Some c => bool_decide (id_lt k c) | None => true end.

(** One page of the rows that satisfy [p]. *)
Definition page {R : Type} (p : string -> R -> bool) (limit : nat) (cursor : option string) (m : gmap string R)
  : list (string * R) :=
  take limit (merge_sort id_ge (select (fun k r => p k r && before_cursor cursor k) m)).

(** [rows.length === limit ? rows[rows.length - 1].id : null]. *)
Definition next_cursor {R : Type} (limit : nat) (rows : list (string * R)) : option string :=
  if bool_decide (length rows = limit) then fst <$> last rows else None.

(** A client that follows [next_cursor] until it is [null]. *)
Fixpoint all_pages {R : Type} (p : string -> R -> bool) (limit : nat) (fuel : nat) (cursor : option string)
  (m : gmap string R) : option (list (string * R)) :=
  match fuel with
  | O => None
  | S n =>
      let rows := page p limit cursor m in
      match next_cursor limit rows with
      | None => Some rows
      | Some c => match all_pages p limit n (Some c) m with Some rest => Some (rows ++ rest) | None => None end
      end
  end.

(** ** The order of ids *)

Lemma compare_refl (a : string) : String.compare a a = Eq.
Proof. pose proof (String.compare_antisym a a) as Ha. by destruct (String.compare a a). Qed.

Lemma ascii_compare_refl (a : ascii) : Ascii.compare a a = Eq.
Proof. pose proof (Ascii.compare_antisym a a) as Ha. by destruct (Ascii.compare a a). Qed.

Lemma ascii_compare_lt_trans (a b c : ascii) :
  Ascii.compare a b = Lt -> Ascii.compare b c = Lt -> Ascii.compare a c = Lt.
Proof. unfold Ascii.compare. rewrite !N.compare_lt_iff. lia. Qed.

Lemma compare_lt_trans (a b c : string) :
  String.compare a b = Lt -> String.compare b c = Lt -> String.compare a c = Lt.
Proof.
  revert b c. induction a as [|x a IH]; intros [|y b] [|z c]; cbn; try done.
  destruct (Ascii.compare x y) eqn:Hxy; [|intros _|done].
  - apply Ascii.compare_eq_iff in Hxy as ->. destruct (Ascii.compare y z); [|done|done]. apply IH.
  - destruct (Ascii.compare y z) eqn:Hyz; [|intros _|done].
    + apply Ascii.compare_eq_iff in Hyz as ->. by rewrite Hxy.
    + by rewrite (ascii_compare_lt_trans _ _ _ Hxy Hyz).
Qed.

Lemma id_lt_trans a b c : id_lt a b -> id_lt b c -> id_lt a c.
Proof.
  unfold id_lt, String.ltb. destruct (String.compare a b) eqn:Hab; try done.
  destruct (String.compare b c) eqn:Hbc; try done. intros _ _. by rewrite (compare_lt_trans _ _ _ Hab Hbc).
Qed.

Lemma id_lt_irrefl a : ~ id_lt a a.
Proof. unfold id_lt, String.ltb. by rewrite compare_refl. Qed.

Lemma leb_cases a b : String.leb a b = true <-> a = b \/ id_lt a b.
Proof.
  unfold String.leb, id_lt, String.ltb. destruct (String.compare a b) eqn:E; split; try done; auto.
  - apply String.compare_eq_iff in E. auto.
  - intros [->|?]; [|done]. by rewrite compare_refl in E.
Qed.

Lemma id_trichotomy a b : id_lt a b \/ a = b \/ id_lt b a.
Proof.
  destruct (String.leb_total a b) as [[->|?]%leb_cases|[->|?]%leb_cases]; auto.
Qed.

Section order.
Context {R : Type}.

#[export] Instance id_ge_total : Total (@id_ge R).
Proof. intros a b. unfold id_ge. apply or_comm, String.leb_total. Qed.

#[export] Instance id_ge_trans : Transitive (@id_ge R).
Proof.
  intros a b c. unfold id_ge. rewrite !leb_cases. intros [->|?] [->|?]; eauto using id_lt_trans.
Qed.

(** A descending list without duplicate ids is strictly descending. *)
Lemma sorted_strict (l : list (string * R)) :
  StronglySorted id_ge l -> NoDup l.*1 -> StronglySorted (fun a b => id_lt b.1 a.1) l.
Proof.
  induction 1 as [|a l Hs IH Ha]; [constructor|]. intros [Hn Hnd]%NoDup_cons. constructor; [auto|].
  rewrite Forall_forall in *. intros b Hb. specialize (Ha b Hb). unfold id_ge in Ha.
  apply leb_cases in Ha as [Heq|?]; [|done]. destruct Hn. rewrite <-Heq. apply list_elem_of_In, in_map.
  by apply list_elem_of_In.
Qed.
End order.

Section pages.
Context {R : Type} (p : string -> R -> bool) (m : gmap string R).

Definition matching (cursor : option string) : list (string * R) :=
  merge_sort id_ge (select (fun k r => p k r && before_cursor cursor k) m).

Lemma elem_of_matching cursor k r :
  (k, r) ∈ matching cursor <-> m !! k = Some r /\ p k r = true /\ before_cursor cursor k = true.
Proof. unfold matching. rewrite merge_sort_Permutation, elem_of_select, andb_true_iff. done. Qed.

Lemma NoDup_matching_keys cursor : NoDup (matching cursor).*1.
Proof. unfold matching. rewrite merge_sort_Permutation. apply NoDup_select_keys. Qed.

Lemma matching_sorted cursor : StronglySorted (fun a b : string * R => id_lt b.1 a.1) (matching cursor).
Proof.
  apply sorted_strict; [|apply NoDup_matching_keys]. apply StronglySorted_merge_sort; apply _.
Qed.

(** The page after the cursor of a full page is what the page left over. *)
Lemma matching_next limit cursor c :
  next_cursor limit (take limit (matching cursor)) = Some c -> matching (Some c) = drop limit (matching cursor).
Proof.
  unfold next_cursor. case_bool_decide as Hlen; [|done].
  set (l := matching cursor) in *. intros Hlast.
  destruct (last (take limit l)) as [[c' rc]|] eqn:El; [|done]. cbn in Hlast. simplify_eq.
  apply last_Some in El as [l' Hl'].
  pose proof (matching_sorted cursor) as Hs. fold l in Hs.
  assert (l = l' ++ (c, rc) :: drop limit l) as Hsplit.
  { rewrite <-(take_drop limit l) at 1. rewrite Hl', <-app_assoc. done. }
  rewrite Hsplit in Hs. apply StronglySorted_app in Hs as (Hbefore & Hl & Hrest).
  apply StronglySorted_cons in Hrest as [Hc Hrest]. rewrite Forall_forall in Hc.
  apply (StronglySorted_unique_strong (fun a b : string * R => id_lt b.1 a.1)).
  - intros x1 x2 _ _ H1 H2. destruct (id_lt_irrefl _ (id_lt_trans _ _ _ H1 H2)).
  - apply matching_sorted.
  - done.
  - apply NoDup_Permutation.
    + eapply NoDup_fmap_1, NoDup_matching_keys.
    + pose proof (NoDup_fmap_1 _ _ (NoDup_matching_keys cursor)) as Hnd. fold l in Hnd.
      rewrite Hsplit in Hnd. apply NoDup_app in Hnd as (_ & _ & Hnd). by apply NoDup_cons in Hnd as [_ ?].
    + intros [k r]. rewrite elem_of_matching. split.
      * intros (Hk & Hp & Hlt). cbn in Hlt. apply bool_decide_eq_true in Hlt.
        assert ((c, rc) ∈ l) as Hcl by (rewrite Hsplit; set_solver).
        apply elem_of_matching in Hcl as (_ & _ & Hcc).
        assert ((k, r) ∈ l) as Hkl.
        { apply elem_of_matching. split_and!; [done|done|]. destruct cursor as [c0|]; [|done]. cbn in *.
          apply bool_decide_eq_true in Hcc. apply bool_decide_eq_true. eauto using id_lt_trans. }
        rewrite Hsplit in Hkl. apply elem_of_app in Hkl as [Hin|[Heq|Hin]%elem_of_cons]; [| |done].
        -- specialize (Hbefore (k, r) (c, rc) Hin ltac:(set_solver)). cbn in Hbefore.
           destruct (id_lt_irrefl _ (id_lt_trans _ _ _ Hlt Hbefore)).
        -- simplify_eq. by destruct (id_lt_irrefl c).
      * intros Hin. assert ((k, r) ∈ l) as Hkl by (rewrite Hsplit; set_solver).
        apply elem_of_matching in Hkl as (Hk & Hp & _). split_and!; [done|done|].
        cbn. apply bool_decide_eq_true. exact (Hc _ Hin).
Qed.

(** With a positive limit, following the cursors ends and yields every matching row. *)
Lemma all_pages_matching limit cursor fuel :
  (0 < limit)%nat -> (length (matching cursor) < fuel)%nat ->
  all_pages p limit fuel cursor m = Some (matching cursor).
Proof.
  intros Hlim. revert cursor. induction fuel as [|n IH]; intros cursor Hf; [lia|]. cbn.
  change (page p limit cursor m) with (take limit (matching cursor)).
  destruct (next_cursor limit (take limit (matching cursor))) as [c|] eqn:Hn.
  - rewrite IH; rewrite (matching_next _ _ _ Hn).
    + by rewrite take_drop.
    + rewrite length_drop. unfold next_cursor in Hn. case_bool_decide as Hl; [|done].
      rewrite length_take in Hl. lia.
  - f_equal. apply take_ge. unfold next_cursor in Hn. case_bool_decide as Hl.
    + destruct (take limit (matching cursor)) as [|x l'] eqn:Et using rev_ind; [cbn in Hl; lia|].
      by rewrite last_snoc in Hn.
    + rewrite length_take in Hl. lia.
Qed.
End pages.

(** Following [next_cursor] from the first page ends and visits every matching row
    exactly once, in descending id order. *)
Theorem all_pages_complete {R : Type} (p : string -> R -> bool) (m : gmap string R) (limit : nat) :
  (0 < limit)%nat ->
  exists rows, all_pages p limit (S (size m)) None m = Some rows
    /\ NoDup rows.*1 /\ (forall k r, (k, r) ∈ rows <-> m !! k = Some r /\ p k r = true)
    /\ StronglySorted (fun a b => id_lt b.1 a.1) rows.
Proof.
  intros Hlim. exists (matching p m None). split_and!.
  - apply all_pages_matching; [done|]. unfold matching. rewrite merge_sort_Permutation.
    unfold select. pose proof (length_filter (fun kr : string * R => p kr.1 kr.2 && before_cursor None kr.1 = true) (map_to_list m)).
    rewrite length_map_to_list in *. lia.
  - apply NoDup_matching_keys.
  - intros k r. rewrite elem_of_matching. cbn. tauto.
  - apply matching_sorted.
Qed.
