(* ===== verification/Delegations.v ===== *)
(** * Delegation edges

    [apps/coordinator/src/routes/delegations.ts]: typed constraints, creation of an
    edge under its parent's authority, the cycle check, graph queries, effective
    authority and cascade revoke. *)

From S2P Require Import Prelude.
From S2P Require Import Json.
From S2P Require Import Schema.
From S2P Require Import Store.
From S2P Require Import Scope.
From S2P Require Import Auth.
From S2P Require Import Outbox.
From S2P Require Import Idempotency.
From S2P Require Import Sessions.
From S2P Require Import Listing.
Local Open Scope string_scope.
Local Open Scope Z_scope.
Local Open Scope list_scope.

(** ** Constraints *)

Module Constraints.
Record DelegationConstraints := MkConstraints {
  resources : option (list string);
  max_depth : option Z;
  max_hops : option Z;
  budget : option Z;
  ttl_seconds : option Z;
  policy_approved : option bool;
  expires_at : option string;
  broad_reason : option string
}.
End Constraints.
Notation DelegationConstraints := Constraints.DelegationConstraints.

(** An optional property: [None] is an issue, [Some None] an absent value. *)
Definition opt_field {A : Type} (f : json -> option A) (v : json) : option (option A) :=
  match v with JUndefined => Some None | _ => Some <$> f v end.

(** [z.number().int().min(lo).max(hi)]. *)
Definition as_int (lo hi : Z) (v : json) : option Z :=
  match v with JNum n => if int_between lo hi n then Some n else None | _ => None end.

Definition as_bool (v : json) : option bool := match v with JBool b => Some b | _ => None end.

(** [z.string().min(1).max(n)]. *)
Definition as_string (max : nat) (v : json) : option string :=
  match v with
  | JStr s => if nonempty s && bool_decide (js_length s <= max)%nat then Some s else None
  | _ => None
  end.

(** [z.array(z.string().min(1)).max(n)]. *)
Fixpoint as_nonempty_strings (vs : list json) : option (list string) :=
  match vs with
  | [] => Some []
  | JStr s :: rest =>
      if nonempty s then match as_nonempty_strings rest with Some ss => Some (s :: ss) | None => None end else None
  | _ => None
  end.

Definition as_strings (max : nat) (v : json) : option (list string) :=
  match v with
  | JArr vs => if bool_decide (length vs <= max)%nat then as_nonempty_strings vs else None
  | _ => None
  end.

(** [z.string().datetime()]. *)
Definition as_datetime `{Env} (v : json) : option string :=
  match v with JStr s => match datetime s with Some _ => Some s | None => None end | _ => None end.

(** The keys of [ConstraintBody], in the order its issues are reported. *)
Definition constraint_keys : list string :=
  ["resources"; "max_depth"; "max_hops"; "budget"; "ttl_seconds"; "policy_approved"; "expires_at"; "broad_reason"].

Definition plainObject (v : json) : bool := match v with JObj _ => true | _ => false end.

Definition object_fields (v : json) : list (string * json) := match v with JObj fs => fs | _ => [] end.

Section constraints.
Context `{Env}.

Definition field_ok (out : json) (k : string) : bool :=
  let v := json_get k out in
  if bool_decide (k = "resources") then bool_decide (is_Some (opt_field (as_strings 64) v))
  else if bool_decide (k = "max_depth") || bool_decide (k = "max_hops")
  then bool_decide (is_Some (opt_field (as_int 1 MAX_DEPTH) v))
  else if bool_decide (k = "budget") then bool_decide (is_Some (opt_field (as_int 1 64) v))
  else if bool_decide (k = "ttl_seconds") then bool_decide (is_Some (opt_field (as_int 1 86400) v))
  else if bool_decide (k = "policy_approved") then bool_decide (is_Some (opt_field as_bool v))
  else if bool_decide (k = "expires_at") then bool_decide (is_Some (opt_field as_datetime v))
  else bool_decide (is_Some (opt_field (as_string 256) v)).

(** The value of an accepted property. *)
Definition field_value {A : Type} (f : json -> option A) (k : string) (out : json) : option A :=
  match opt_field f (json_get k out) with Some o => o | None => None end.

(** [ConstraintBody.safeParse]: [inl] is [path[0]] of the first issue, [None] for the
    unrecognised-keys issue, which has no path. *)
Definition ConstraintBody (out : list (string * json)) : option string + DelegationConstraints :=
  let v := JObj out in
  match find_first (fun k => negb (field_ok v k)) constraint_keys with
  | Some k => inl (Some k)
  | None =>
      if forallb (fun kv => bool_decide (kv.1 ∈ constraint_keys)) out then
        inr (Constraints.MkConstraints
          (field_value (as_strings 64) "resources" v) (field_value (as_int 1 MAX_DEPTH) "max_depth" v)
          (field_value (as_int 1 MAX_DEPTH) "max_hops" v) (field_value (as_int 1 64) "budget" v)
          (field_value (as_int 1 86400) "ttl_seconds" v) (field_value as_bool "policy_approved" v)
          (field_value as_datetime "expires_at" v) (field_value (as_string 256) "broad_reason" v))
      else inl None
  end.

(** [normalizedConstraints]. *)
Definition normalizedConstraints (constraintsJson constraints : json) (ttlSeconds : option Z)
  : string + DelegationConstraints :=
  let defined v := match v with JUndefined => false | _ => true end in
  if (defined constraintsJson && negb (plainObject constraintsJson)) || (defined constraints && negb (plainObject constraints))
  then inl "invalid_delegation_constraint"
  else
    let out := spread (object_fields constraintsJson) (object_fields constraints) in
    let out := match json_get "max_depth" (JObj out), json_get "max_hops" (JObj out) with
               | (JNum _ | JDec _ | JNonFinite) as n, JUndefined => ordered_set "max_hops" n out
               | _, _ => out
               end in
    let out := match ttlSeconds, json_get "ttl_seconds" (JObj out) with
               | Some n, JUndefined => ordered_set "ttl_seconds" (JNum n) out
               | _, _ => out
               end in
    match ConstraintBody out with
    | inl (Some path) => inl ("invalid_" +:+ path)
    | inl None => inl "invalid_delegation_constraint"
    | inr c =>
        match c.(Constraints.max_depth), c.(Constraints.max_hops) with
        | Some d, Some h => if d =? h then inr c else inl "invalid_max_hops"
        | _, _ => inr c
        end
    end.
End constraints.

(** The parsed object, as it is stored and hashed: the properties that are present. *)
Definition present {A : Type} (k : string) (f : A -> json) (o : option A) : list (string * json) :=
  match o with Some a => [(k, f a)] | None => [] end.

Definition constraints_fields (c : DelegationConstraints) : list (string * json) :=
  present "resources" JStrs c.(Constraints.resources) ++ present "max_depth" JNum c.(Constraints.max_depth)
  ++ present "max_hops" JNum c.(Constraints.max_hops) ++ present "budget" JNum c.(Constraints.budget)
  ++ present "ttl_seconds" JNum c.(Constraints.ttl_seconds)
  ++ present "policy_approved" JBool c.(Constraints.policy_approved)
  ++ present "expires_at" JStr c.(Constraints.expires_at) ++ present "broad_reason" JStr c.(Constraints.broad_reason).

Definition constraints_object (c : DelegationConstraints) : json := JObj (constraints_fields c).

(** [constraints.broad_reason ??= ...; constraints.policy_approved = true]. *)
Definition mark_broad (c : DelegationConstraints) : DelegationConstraints :=
  Constraints.MkConstraints c.(Constraints.resources) c.(Constraints.max_depth) c.(Constraints.max_hops)
    c.(Constraints.budget) c.(Constraints.ttl_seconds) (Some true) c.(Constraints.expires_at)
    (Some (default_to "resource_null_delegation" c.(Constraints.broad_reason))).

(** ** Request *)

Module Body.
Record DelegationBody := MkDelegationBody {
  source_session_id : string;
  target_session_id : string;
  issuer_application_id : string;
  receiver_application_id : string;
  parent_edge_id : option string;
  resource_id : option string;
  scopes : list string;
  constraints : json;
  constraints_json : json;
  expires_at : option string;
  ttl_seconds : option Z
}.
Definition set_resource_id (v : option string) (b : DelegationBody) : DelegationBody :=
  MkDelegationBody b.(source_session_id) b.(target_session_id) b.(issuer_application_id)
    b.(receiver_application_id) b.(parent_edge_id) v b.(scopes) b.(constraints) b.(constraints_json)
    b.(expires_at) b.(ttl_seconds).
End Body.
Notation DelegationBody := Body.DelegationBody.

Definition opt_all {A : Type} (p : A -> bool) (o : option A) : bool := match o with Some a => p a | None => true end.

(** [DelegationBody.parse] succeeds. *)
Definition body_valid `{Env} (b : DelegationBody) : bool :=
  nonempty b.(Body.source_session_id) && nonempty b.(Body.target_session_id)
  && nonempty b.(Body.issuer_application_id) && nonempty b.(Body.receiver_application_id)
  && opt_all nonempty b.(Body.parent_edge_id) && opt_all nonempty b.(Body.resource_id)
  && forallb nonempty b.(Body.scopes)
  && opt_all (fun s => bool_decide (is_Some (datetime s))) b.(Body.expires_at)
  && opt_all (int_between 1 86400) b.(Body.ttl_seconds).

(** ** Reads of the database *)

Record ResourceAuthority := MkResourceAuthority { ra_id : string; ra_identifier : string; ra_scopes : list string }.

Record ParentDelegationEdge := MkParentEdge {
  pe_id : string;
  pe_resource_id : option string;
  pe_resource_identifier : option string;
  pe_scopes : list string;
  pe_constraints_json : json;
  pe_expires_at : Z
}.

(** A Session that may be an endpoint of a new edge. *)
Definition endpoint_live (t : Z) (z : string) (s : Session.SessionRow) : bool :=
  in_zone z s && is_active s
  && (match s.(Session.ttl_seconds) with Some n => t <? s.(Session.started_at) + seconds n | None => false end
      || (bool_decide (s.(Session.lifecycle) = ServiceLife)
          && match s.(Session.heartbeat_deadline_at) with Some h => t <? h | None => false end)).

Definition activeSessionEndpoint (t : Z) (z id : string) (d : Db) : option Session.SessionRow :=
  match d.(sessions) !! id with
  | Some s => if endpoint_live t z s then Some s else None
  | None => None
  end.

Definition resource_live (z : string) (r : Resource.ResourceRow) : bool :=
  bool_decide (r.(Resource.zone_id) = z) && bool_decide (r.(Resource.archived_at) = None).

Definition resource_authority (kr : string * Resource.ResourceRow) : ResourceAuthority :=
  MkResourceAuthority kr.1 kr.2.(Resource.identifier) kr.2.(Resource.scopes).

(** [getResource]: by row id or public identifier; the first row answers. *)
Definition getResource (z resourceId : string) (d : Db) : option ResourceAuthority :=
  resource_authority <$> head (select (fun k r =>
    (bool_decide (k = resourceId) || bool_decide (r.(Resource.identifier) = resourceId)) && resource_live z r) d.(resources)).

(** [resources.set] on the map keyed by resource id. *)
Definition add_resource (m : list (string * ResourceAuthority)) (r : ResourceAuthority) : list (string * ResourceAuthority) :=
  ordered_set r.(ra_id) r m.

Definition names_resource (resourceId : string) (r : ResourceAuthority) : bool :=
  bool_decide (r.(ra_id) = resourceId) || bool_decide (r.(ra_identifier) = resourceId).

(** [resolveResourceAuthority]: [inl] is the status and error. *)
Definition resolveResourceAuthority (z : string) (resourceId : option string) (identifiers : list string) (d : Db)
  : (Z * string) + list ResourceAuthority :=
  let first := match resourceId with
               | Some rid =>
                   match getResource z rid d with
                   | Some r => inr (add_resource [] r)
                   | None => inl (404, "resource_not_found")
                   end
               | None => inr []
               end in
  match first with
  | inl e => inl e
  | inr m =>
      if bool_decide (identifiers = []) then inr m.*2
      else
        let uniqueIdentifiers := distinct identifiers in
        let rows := resource_authority <$>
          select (fun _ r => resource_live z r && bool_decide (r.(Resource.identifier) ∈ uniqueIdentifiers)) d.(resources) in
        if negb (bool_decide (length rows = length uniqueIdentifiers)) then inl (404, "resource_not_found")
        else
          let m := foldl add_resource m rows in
          match resourceId with
          | Some rid =>
              if existsb (names_resource rid) rows then inr m.*2
              else inl (400, "delegation_resource_scope_mismatch")
          | None => inr m.*2
          end
  end.

(** The LEFT JOIN on the edge's resource. *)
Definition edge_resource (d : Db) (e : Edge.EdgeRow) : option string :=
  match e.(Edge.resource_id) with
  | Some rid =>
      match d.(resources) !! rid with
      | Some r => if bool_decide (r.(Resource.zone_id) = e.(Edge.zone_id)) then Some r.(Resource.identifier) else None
      | None => None
      end
  | None => None
  end.

Definition parent_edge (d : Db) (ke : string * Edge.EdgeRow) : ParentDelegationEdge :=
  MkParentEdge ke.1 ke.2.(Edge.resource_id) (edge_resource d ke.2) ke.2.(Edge.scopes)
    ke.2.(Edge.constraints_json) ke.2.(Edge.expires_at).

Definition inbound (z sid : string) (t : Z) (_ : string) (e : Edge.EdgeRow) : bool :=
  bool_decide (e.(Edge.zone_id) = z) && bool_decide (e.(Edge.target_session_id) = sid) && edge_live t e.

Definition activeParentDelegations (z targetSessionId : string) (t : Z) (d : Db) : list ParentDelegationEdge :=
  parent_edge d <$> select (inbound z targetSessionId t) d.(delegation_edges).

(** ** Narrowing *)

Definition resourcesNarrowParent (parent : ParentDelegationEdge) (parentConstraints : DelegationConstraints)
  (childResourceId : option string) (childResources : list ResourceAuthority) : bool :=
  let parentIdentifiers := default_to [] parentConstraints.(Constraints.resources) in
  match parent.(pe_resource_id) with
  | Some rid =>
      if bool_decide (childResourceId = Some rid) then true
      else negb (bool_decide (childResources = []))
           && forallb (fun r => bool_decide (r.(ra_id) = rid)) childResources
  | None =>
      if negb (bool_decide (parentIdentifiers = []))
      then negb (bool_decide (childResources = []))
           && forallb (fun r => bool_decide (r.(ra_identifier) ∈ parentIdentifiers)) childResources
      else true
  end.

Section narrowing.
Context `{Env}.

Definition parentAllowsDelegation (parent : ParentDelegationEdge) (body : DelegationBody)
  (childConstraints : DelegationConstraints) (resources : list ResourceAuthority) (expiresAt : option string) : bool :=
  match normalizedConstraints parent.(pe_constraints_json) JUndefined None with
  | inl _ => false
  | inr constraints =>
      scopesAllowed body.(Body.scopes) parent.(pe_scopes)
      && match expiresAt with
         | Some s => to_ms (default_to 0 (datetime s)) <=? to_ms parent.(pe_expires_at)
         | None => true
         end
      && resourcesNarrowParent parent constraints body.(Body.resource_id) resources
      && (let parentMaxHops := default_to 1 constraints.(Constraints.max_hops) in
          let childMaxHops := default_to 1 childConstraints.(Constraints.max_hops) in
          negb ((parentMaxHops <=? 1) || (parentMaxHops - 1 <? childMaxHops)))
      && match constraints.(Constraints.ttl_seconds) with
         | Some n => match childConstraints.(Constraints.ttl_seconds) with Some c => c <=? n | None => false end
         | None => true
         end
      && match constraints.(Constraints.budget) with
         | Some n => default_to (Z.of_nat (length body.(Body.scopes))) childConstraints.(Constraints.budget) <=? n
         | None => true
         end
  end.

Definition effectiveAuthority (body : DelegationBody) (constraints : DelegationConstraints)
  (resources : list ResourceAuthority) (expiresAt : Z) (parents : list ParentDelegationEdge)
  (parentEdgeId : option string) : json :=
  JObj [("source_session_id", JStr body.(Body.source_session_id));
        ("target_session_id", JStr body.(Body.target_session_id));
        ("parent_edge_id", JOpt JStr parentEdgeId); ("resource_id", JOpt JStr body.(Body.resource_id));
        ("resources", JStrs (ra_identifier <$> resources)); ("scopes", JStrs body.(Body.scopes));
        ("expires_at", JTime expiresAt); ("max_hops", JNum (default_to 1 constraints.(Constraints.max_hops)));
        ("ttl_seconds", JOpt JNum constraints.(Constraints.ttl_seconds));
        ("broad", JBool (bool_decide (body.(Body.resource_id) = None) && bool_decide (resources = [])));
        ("parent_edges_considered", JStrs (pe_id <$> parents))].
End narrowing.

(** ** Graph queries

    The recursive queries follow edges forward, carrying the ids of the edges on
    the path ([visited]); the newest edge is at the head here.  [p] is the
    condition on edges: active and unexpired, or just active for a revoke. *)

Definition edge_target (d : Db) (eid : string) : option string :=
  Edge.target_session_id <$> d.(delegation_edges) !! eid.

Definition path_step (p : Edge.EdgeRow -> bool) (z : string) (d : Db) (visited : list string) : list (list string) :=
  if Z.of_nat (length visited) <? MAX_DEPTH then
    match visited with
    | [] => []
    | cur :: _ =>
        (fun eid => eid :: visited) <$>
          (select (fun k e => bool_decide (e.(Edge.zone_id) = z) && p e && negb (bool_decide (k ∈ visited))
                              && bool_decide (edge_target d cur = Some e.(Edge.source_session_id))) d.(delegation_edges)).*1
    end
  else [].

(** The rows of the recursive query: [path_step] stops at [MAX_DEPTH] edges. *)
Definition edge_paths (p : Edge.EdgeRow -> bool) (z : string) (d : Db) (base : list string) : option (list (list string)) :=
  cte (path_step p z d) (S (Z.to_nat MAX_DEPTH)) ((fun k => [k]) <$> base).

Definition edges_from (p : Edge.EdgeRow -> bool) (z source : string) (d : Db) : list string :=
  (select (fun _ e => bool_decide (e.(Edge.zone_id) = z) && bool_decide (e.(Edge.source_session_id) = source) && p e)
     d.(delegation_edges)).*1.

Definition edge_self (p : Edge.EdgeRow -> bool) (z id : string) (d : Db) : list string :=
  (select (fun k e => bool_decide (k = id) && bool_decide (e.(Edge.zone_id) = z) && p e) d.(delegation_edges)).*1.

Definition path_end (d : Db) (visited : list string) : option string := head visited ≫= edge_target d.

(** [wouldCreateCycle]: a live path from the new edge's target back to its source. *)
Definition wouldCreateCycle (z source target : string) (t : Z) (d : Db) : option bool :=
  existsb (fun v => bool_decide (path_end d v = Some source)) <$>
    edge_paths (edge_live t) z d (edges_from (edge_live t) z target d).

(** ** Creating an edge *)

Definition status_of_record (s : record_status) : json :=
  JStr match s with RActive => "active" | RRevoked => "revoked" | RExpired => "expired" end.

(** The selected columns of an edge, its id under the name [as_id]. *)
Definition edge_json (as_id : string) (eid : string) (e : Edge.EdgeRow) : list (string * json) :=
  [(as_id, JStr eid); ("zone_id", JStr e.(Edge.zone_id));
   ("source_session_id", JStr e.(Edge.source_session_id)); ("target_session_id", JStr e.(Edge.target_session_id));
   ("issuer_application_id", JStr e.(Edge.issuer_application_id));
   ("receiver_application_id", JStr e.(Edge.receiver_application_id));
   ("parent_edge_id", JOpt JStr e.(Edge.parent_edge_id)); ("resource_id", JOpt JStr e.(Edge.resource_id));
   ("scopes", JStrs e.(Edge.scopes)); ("constraints_json", e.(Edge.constraints_json));
   ("status", status_of_record e.(Edge.status)); ("expires_at", JTime e.(Edge.expires_at));
   ("edge_version", JNum e.(Edge.edge_version)); ("revoked_at", JOpt JTime e.(Edge.revoked_at));
   ("created_at", JTime e.(Edge.created_at))].

(** The replayed edge still carries authority. *)
Definition replay_edge_live (z issuer : string) (t : Z) (d : Db) (eid : string) : bool :=
  match d.(delegation_edges) !! eid with
  | Some e => bool_decide (e.(Edge.zone_id) = z) && bool_decide (e.(Edge.issuer_application_id) = issuer) && edge_live t e
  | None => false
  end.

(** Which parent edge the new edge hangs from: [inl] is the refusal. *)
Definition choose_parent (parents : list ParentDelegationEdge) (wanted : option string)
  : (Z * string) + option ParentDelegationEdge :=
  match parents with
  | [] => inr None
  | _ =>
      let parent := match wanted with
                    | Some pid => find_first (fun p => bool_decide (p.(pe_id) = pid)) parents
                    | None => match parents with [p] => Some p | _ => None end
                    end in
      match parent with
      | Some p => inr (Some p)
      | None => inl match wanted with
                    | Some _ => (403, "parent_delegation_not_active")
                    | None => (409, "parent_delegation_ambiguous")
                    end
      end
  end.

Section create.
Context `{Env}.

Definition delegation_receipt (zoneId : string) (body : DelegationBody) (idem : option string) (request : json)
  : Tx reply (option (string * string)) :=
  match idem with
  | None => mret None
  | Some k =>
      receipt ← startIdempotency (MkStartInput "delegation.create.v2" zoneId body.(Body.issuer_application_id) k request
                  cfg.(idempotencyHmacKeys) cfg.(idempotencyMaxReceiptsPerScope));
      match receipt with
      | Conflict => rollback (error_message_reply 409 "idempotency_key_conflict"
          "Idempotency-Key was already used for a different delegation request")
      | Limit => rollback (error_reply 429 "idempotency_receipt_limit_exceeded")
      | Replayed status response rid =>
          live ← query (fun t d => replay_edge_live zoneId body.(Body.issuer_application_id) t d rid);
          ensure live (error_message_reply 409 "idempotency_result_inactive"
            "The operation already completed and its delegation is no longer active; use a new operation identifier for an intentional delegation");;
          commit (MkReply status response true)
      | New kd rd => mret (Some (kd, rd))
      end
  end.

(** Endpoints, resources and scopes of the request; returns the resources and the
    body with its resource reference normalised to the row id. *)
Definition check_endpoints (zoneId : string) (body : DelegationBody) (constraints : DelegationConstraints)
  : Tx reply (list ResourceAuthority * DelegationBody) :=
  source ← query (fun t => activeSessionEndpoint t zoneId body.(Body.source_session_id));
  target ← query (fun t => activeSessionEndpoint t zoneId body.(Body.target_session_id));
  match source, target with
  | Some s, Some tg =>
      ensure (bool_decide (s.(Session.application_id) = body.(Body.issuer_application_id))
              && bool_decide (tg.(Session.application_id) = body.(Body.receiver_application_id)))
        (error_reply 409 "delegation_application_mismatch");;
      found ← query (fun _ => resolveResourceAuthority zoneId body.(Body.resource_id)
                                (default_to [] constraints.(Constraints.resources)));
      match found with
      | inl (status, e) => rollback (error_reply status e)
      | inr items =>
          let named := match body.(Body.resource_id) with
                       | Some rid => find_first (names_resource rid) items
                       | None => None
                       end in
          let body := match named with
                      | Some r => Body.set_resource_id (Some r.(ra_id)) body
                      | None => body
                      end in
          ensure (bool_decide (items = [])
                  || scopesAllowed body.(Body.scopes) (distinct (items ≫= ra_scopes)))
            (error_reply 403 "delegation_scopes_exceed_resource");;
          mret (items, body)
      end
  | _, _ => rollback (error_reply 404 "delegation_endpoint_not_found")
  end.

(** The parent edge the new edge narrows, if the source has live inbound edges. *)
Definition check_authority (zoneId : string) (body : DelegationBody) (constraints : DelegationConstraints)
  (items : list ResourceAuthority) (requestedExpiresAt : option string)
  : Tx reply (list ParentDelegationEdge * option string) :=
  parents ← query (activeParentDelegations zoneId body.(Body.source_session_id));
  match choose_parent parents body.(Body.parent_edge_id) with
  | inl (status, e) => rollback (error_reply status e)
  | inr None => mret (parents, None)
  | inr (Some p) =>
      ensure (parentAllowsDelegation p body constraints items requestedExpiresAt)
        (error_reply 403 "delegation_exceeds_parent_authority");;
      mret (parents, Some p.(pe_id))
  end.

(** The [WHERE] of the [INSERT ... SELECT]. *)
Definition expiry_allowed (zoneId : string) (parentEdgeId : option string) (expires : Z) (t : Z) (d : Db) : bool :=
  (t <? expires)
  && match parentEdgeId with
     | None => true
     | Some pid => match d.(delegation_edges) !! pid with
                   | Some pe => bool_decide (pe.(Edge.zone_id) = zoneId) && (expires <=? pe.(Edge.expires_at))
                   | None => false
                   end
     end.

Definition new_edge (t : Z) (zoneId : string) (body : DelegationBody) (constraints : DelegationConstraints)
  (parentEdgeId : option string) (expires : Z) : Edge.EdgeRow :=
  Edge.MkEdgeRow zoneId body.(Body.source_session_id) body.(Body.target_session_id)
    body.(Body.issuer_application_id) body.(Body.receiver_application_id) body.(Body.resource_id)
    body.(Body.scopes) (constraints_object constraints) RActive expires 0 None t t parentEdgeId.

Definition insert_edge (zoneId : string) (body : DelegationBody) (constraints : DelegationConstraints)
  (parentEdgeId : option string) (requestedExpiresAt : option string) (ttlSeconds : option Z)
  : Tx reply (string * Edge.EdgeRow) :=
  edgeId ← fresh_uuid;
  expires ← query (fun t _ => match requestedExpiresAt with
                              | Some s => default_to 0 (datetime s)
                              | None => t + seconds (default_to 0 ttlSeconds)
                              end);
  allowed ← query (expiry_allowed zoneId parentEdgeId expires);
  ensure allowed match parentEdgeId with
                 | Some _ => error_reply 403 "delegation_exceeds_parent_authority"
                 | None => error_reply 400 "delegation_expired"
                 end;;
  row ← query (fun t _ => new_edge t zoneId body constraints parentEdgeId expires);
  free ← query (fun _ d => bool_decide (d.(delegation_edges) !! edgeId = None));
  constraint free "delegation_edges_pkey";;
  exec (fun _ d => set_delegation_edges (<[edgeId := row]> d.(delegation_edges)) d);;
  mret (edgeId, row).

(** The governed part of a create, under the zone's delegation lock. *)
Definition create_governed (zoneId : string) (body : DelegationBody) (constraints : DelegationConstraints)
  (resourceScoped : bool) (requestedExpiresAt : option string) (ttlSeconds : option Z)
  (receipt : option (string * string)) : Tx reply (exit reply) :=
  advisory_lock ("delegation:" +:+ zoneId);;
  checked ← check_endpoints zoneId body constraints;
  let '(items, body) := checked in
  narrowed ← check_authority zoneId body constraints items requestedExpiresAt;
  let '(parents, parentEdgeId) := narrowed in
  cycle ← query_opt (wouldCreateCycle zoneId body.(Body.source_session_id) body.(Body.target_session_id));
  ensure (negb cycle) (error_reply 409 "delegation_cycle_denied");;
  inserted ← insert_edge zoneId body constraints parentEdgeId requestedExpiresAt ttlSeconds;
  let '(edgeId, row) := inserted in
  epoch ← bumpDelegationEpoch zoneId;
  (let i := edge_create_item zoneId edgeId body.(Body.source_session_id) body.(Body.target_session_id) epoch in
   enqueue i.(topic) i.(dedupeKey) i.(payload));;
  let response := JObj (edge_json "delegation_edge_id" edgeId row ++
    [("warnings", JStrs (if resourceScoped then [] else ["resource_null_delegation_broadens_resource_matching"]));
     ("allow_reason", JStrs
        ["same_zone_endpoints_active";
         if resourceScoped then "resource_scope_checked" else "broad_delegation_elevated";
         match parentEdgeId with Some _ => "parent_authority_narrowed" | None => "source_authority_root" end;
         "typed_constraints_validated"]);
     ("effective_authority", effectiveAuthority body constraints items row.(Edge.expires_at) parents parentEdgeId)]) in
  match receipt with
  | Some (kd, rd) =>
      completeIdempotency (MkCompleteInput "delegation.create.v2" zoneId body.(Body.issuer_application_id) kd rd
        "delegation_edge" edgeId 201 response cfg.(idempotencyRetentionSeconds))
  | None => mret tt
  end;;
  mret (Commit (MkReply 201 response false)).

Definition create_tx (req : Request) (zoneId : string) (body : DelegationBody) (constraints : DelegationConstraints)
  (resourceScoped : bool) (requestedExpiresAt : option string) (ttlSeconds : option Z) : Tx reply (exit reply) :=
  idem ← parseIdempotencyKey req.(idempotency_key);
  let request := JObj
    [("principal", principal_json req.(auth)); ("source_session_id", JStr body.(Body.source_session_id));
     ("target_session_id", JStr body.(Body.target_session_id));
     ("issuer_application_id", JStr body.(Body.issuer_application_id));
     ("receiver_application_id", JStr body.(Body.receiver_application_id));
     ("parent_edge_id", JOpt JStr body.(Body.parent_edge_id)); ("resource_id", JOpt JStr body.(Body.resource_id));
     ("scopes", JStrs (sort_strings body.(Body.scopes))); ("constraints", constraints_object constraints);
     ("expires_at", JOpt JStr requestedExpiresAt); ("ttl_seconds", JOpt JNum ttlSeconds)] in
  receipt ← delegation_receipt zoneId body idem request;
  create_governed zoneId body constraints resourceScoped requestedExpiresAt ttlSeconds receipt.

(** [POST /zones/:zoneId/delegations]. *)
Definition createDelegation (req : Request) (zoneId : string) (body : DelegationBody) (w : World) : reply * World :=
  let refuse c e := (error_reply c e, w) in
  if negb (CoordinatorIdPattern zoneId) then refuse 400 "invalid_params"
  else if negb (body_valid body) then (errorHandler ZodError, w)
  else match normalizedConstraints body.(Body.constraints_json) body.(Body.constraints) body.(Body.ttl_seconds) with
  | inl e => refuse 400 e
  | inr constraints =>
      let requestedExpiresAt := match body.(Body.expires_at) with
                                | Some s => Some s
                                | None => constraints.(Constraints.expires_at)
                                end in
      let ttlSeconds := match requestedExpiresAt with Some _ => None | None => constraints.(Constraints.ttl_seconds) end in
      let issuer := body.(Body.issuer_application_id) in
      if bool_decide (requestedExpiresAt = None) && bool_decide (ttlSeconds = None)
      then refuse 400 "delegation_expiry_required"
      else if negb (ownsApplication req.(auth) issuer)
              && negb (requireScope req.(auth) ("coordinator.delegate_from:" +:+ issuer))
      then refuse 403 "issuer_ownership_required"
      else if bool_decide (body.(Body.source_session_id) = body.(Body.target_session_id))
      then refuse 400 "self_delegation_denied"
      else
        let resourceScoped := negb (bool_decide (body.(Body.resource_id) = None))
                              || negb (bool_decide (default_to [] constraints.(Constraints.resources) = [])) in
        if negb resourceScoped && negb (requireScope req.(auth) "coordinator.admin")
           && negb (requireScope req.(auth) "coordinator.delegate_broad")
           && negb (requireScope req.(auth) ("coordinator.delegate_broad:" +:+ issuer))
        then refuse 403 "broad_delegation_permission_required"
        else
          let constraints := if resourceScoped then constraints else mark_broad constraints in
          respond (run_tx (create_tx req zoneId body constraints resourceScoped requestedExpiresAt ttlSeconds) w)
  end.
End create.

(** ** Revoking an edge *)

(** The [affected] edges: active, reachable forward from the revoked one. *)
Definition affected_edges (z id : string) (d : Db) : option (list string) :=
  (fun paths => distinct (paths ≫= fun v => match head v with Some e => [e] | None => [] end)) <$>
    edge_paths (fun e => bool_decide (e.(Edge.status) = RActive)) z d
      (edge_self (fun e => bool_decide (e.(Edge.status) = RActive)) z id d).

Definition revoke_subject_item (z id : string) (kr : string * Session.SessionRow) : OutboxItem :=
  MkItem SessionsRevoke ("delegation:" +:+ id +:+ ":subject:" +:+ kr.2.(Session.subject_authority_record_id))
    [("zone_id", JStr z); ("session_id", JStr kr.2.(Session.subject_authority_record_id));
     ("agent_session_id", JStr kr.1); ("delegation_edge_id", JStr id); ("reason", JStr "delegation_revoked")].

(** The first target of each authority record ([seenAuthorityRecordIds]). *)
Fixpoint first_per_record (seen : list string) (rows : list (string * Session.SessionRow))
  : list (string * Session.SessionRow) :=
  match rows with
  | [] => []
  | kr :: rest =>
      let rid := kr.2.(Session.subject_authority_record_id) in
      if bool_decide (rid ∈ seen) then first_per_record seen rest
      else kr :: first_per_record (rid :: seen) rest
  end.

Section revoke.
Context `{Env}.

Definition revoke_tx (req : option CaracalAuth) (zoneId id : string) : Tx reply (exit reply) :=
  advisory_lock ("delegation:" +:+ zoneId);;
  edge ← query (fun _ d => match d.(delegation_edges) !! id with
                           | Some e => if bool_decide (e.(Edge.zone_id) = zoneId) then Some e else None
                           | None => None
                           end);
  match edge with
  | None => rollback (error_reply 404 "delegation_not_found")
  | Some e =>
      let issuer := e.(Edge.issuer_application_id) in
      ensure (ownsApplication req issuer || requireScope req ("coordinator.delegate_from:" +:+ issuer)
              || requireScope req "coordinator.admin") (error_reply 403 "issuer_ownership_required");;
      affected ← query_opt (fun _ => affected_edges zoneId id);
      revoked ← query (fun _ d => select (fun k _ => bool_decide (k ∈ affected)) d.(delegation_edges));
      exec (fun t d => set_delegation_edges
        (update_where (fun k _ => bool_decide (k ∈ affected)) (revoke_edge t) d.(delegation_edges)) d);;
      ensure (negb (bool_decide (revoked = []))) (error_reply 404 "delegation_not_found");;
      let targetIds := distinct ((fun ke => ke.2.(Edge.target_session_id)) <$> revoked) in
      targets ← query (fun _ d => select (fun k s => bool_decide (k ∈ targetIds) && in_zone zoneId s && is_live s) d.(sessions));
      terminated ← terminateSubtree zoneId targets.*1 "delegation_revoked" Terminated;
      epoch ← bumpDelegationEpoch zoneId;
      enqueue DelegationsInvalidate ("edge_revoke:" +:+ id)
        [("event", JStr "edge_revoke"); ("zone_id", JStr zoneId); ("edge_id", JStr id);
         ("affected_edges", JNum (Z.of_nat (length revoked))); ("epoch", JNum epoch)];;
      let seen := first_per_record [] targets in
      enqueueMany (revoke_subject_item zoneId id <$> seen);;
      mret (Commit (MkReply 200 (JObj
        [("revoked_edges", JNum (Z.of_nat (length revoked))); ("affected_sessions", JNum (Z.of_nat (length seen)));
         ("terminated_sessions", JNum terminated)]) false))
  end.

(** [PATCH /zones/:zoneId/delegations/:id/revoke]. *)
Definition revokeDelegation (req : option CaracalAuth) (zoneId id : string) (w : World) : reply * World :=
  if negb (CoordinatorIdPattern zoneId && CoordinatorIdPattern id) then (error_reply 400 "invalid_params", w)
  else respond (run_tx (revoke_tx req zoneId id) w).
End revoke.

(** ** Reads *)

Definition LIST_DEFAULT_LIMIT : Z := 100.
Definition LIST_MAX_LIMIT : Z := 500.

(** [ListQuery]: the coerced [limit] ([JUndefined] when absent) and the cursor. *)
Definition ListQuery (limit : json) (cursor : option string) : option (nat * option string) :=
  match opt_field (as_int 1 LIST_MAX_LIMIT) limit with
  | Some l => if opt_all nonempty cursor then Some (Z.to_nat (default_to LIST_DEFAULT_LIMIT l), cursor) else None
  | None => None
  end.

Definition delegationReaderApplication (req : option CaracalAuth) : option string :=
  if requireScope req "coordinator.admin" then None
  else Some match req with Some a => a.(clientId) | None => "" end.

(** [($n::text IS NULL OR issuer_application_id = $n OR receiver_application_id = $n)]. *)
Definition readable (reader : option string) (e : Edge.EdgeRow) : bool :=
  match reader with
  | None => true
  | Some a => bool_decide (e.(Edge.issuer_application_id) = a) || bool_decide (e.(Edge.receiver_application_id) = a)
  end.

Definition owns_session (z sid app : string) (d : Db) : bool :=
  match d.(sessions) !! sid with
  | Some s => in_zone z s && bool_decide (s.(Session.application_id) = app)
  | None => false
  end.

Definition list_reply (limit : nat) (rows : list (string * Edge.EdgeRow)) : reply :=
  MkReply 200 (JObj [("items", JArr ((fun ke => JObj (edge_json "id" ke.1 ke.2)) <$> rows));
                     ("next_cursor", JOpt JStr (next_cursor limit rows))]) false.

(** The cursor must name a row the listing could show. *)
Definition cursor_known (p : Edge.EdgeRow -> bool) (cursor : option string) (d : Db) : bool :=
  match cursor with
  | None => true
  | Some c => match d.(delegation_edges) !! c with Some e => p e | None => false end
  end.

(** [listEdges] on the column [field] (source or target). *)
Definition listEdges (zoneId : string) (field : Edge.EdgeRow -> string) (sessionId : string)
  (limit : json) (cursor : option string) (reader : option string) (d : Db) : reply :=
  match ListQuery limit cursor with
  | None => error_reply 400 "invalid_query"
  | Some (n, cursor) =>
      if match reader with Some a => negb (owns_session zoneId sessionId a d) | None => false end
      then error_reply 404 "session_not_found"
      else
        let p e := bool_decide (e.(Edge.zone_id) = zoneId) && bool_decide (field e = sessionId) && readable reader e in
        if negb (cursor_known p cursor d) then error_reply 400 "invalid_cursor"
        else list_reply n (page (fun _ => p) n cursor d.(delegation_edges))
  end.

(** [GET /zones/:zoneId/delegations/inbound/:sessionId] and [outbound]. *)
Definition listInbound (req : option CaracalAuth) (zoneId sessionId : string) (limit : json) (cursor : option string)
  (d : Db) : reply :=
  if negb (CoordinatorIdPattern zoneId && CoordinatorIdPattern sessionId) then error_reply 400 "invalid_params"
  else listEdges zoneId Edge.target_session_id sessionId limit cursor (delegationReaderApplication req) d.

Definition listOutbound (req : option CaracalAuth) (zoneId sessionId : string) (limit : json) (cursor : option string)
  (d : Db) : reply :=
  if negb (CoordinatorIdPattern zoneId && CoordinatorIdPattern sessionId) then error_reply 400 "invalid_params"
  else listEdges zoneId Edge.source_session_id sessionId limit cursor (delegationReaderApplication req) d.

(** [GET /zones/:zoneId/delegations/inbound/:sessionId/:id]. *)
Definition getInbound (req : option CaracalAuth) (zoneId sessionId id : string) (t : Z) (d : Db) : reply :=
  if negb (CoordinatorIdPattern zoneId && CoordinatorIdPattern sessionId && CoordinatorIdPattern id)
  then error_reply 400 "invalid_params"
  else
    match d.(delegation_edges) !! id with
    | Some e =>
        if inbound zoneId sessionId t id e
           && opt_all (fun a => bool_decide (e.(Edge.receiver_application_id) = a)) (delegationReaderApplication req)
        then MkReply 200 (JObj [("id", JStr id); ("status", status_of_record e.(Edge.status))]) false
        else error_reply 404 "delegation_not_found"
    | None => error_reply 404 "delegation_not_found"
    end.

(** [GET /zones/:zoneId/delegations/active]; its rows also carry the constraint's
    [broad_reason]. *)
Definition listActive (req : option CaracalAuth) (zoneId : string) (limit : json) (cursor : option string)
  (t : Z) (d : Db) : reply :=
  if negb (CoordinatorIdPattern zoneId) then error_reply 400 "invalid_params"
  else match ListQuery limit cursor with
  | None => error_reply 400 "invalid_query"
  | Some (n, cursor) =>
      let reader := delegationReaderApplication req in
      if negb (cursor_known (fun e => bool_decide (e.(Edge.zone_id) = zoneId) && readable reader e) cursor d)
      then error_reply 400 "invalid_cursor"
      else
        let rows := page (fun _ e => bool_decide (e.(Edge.zone_id) = zoneId) && edge_live t e && readable reader e)
                      n cursor d.(delegation_edges) in
        MkReply 200 (JObj
          [("items", JArr ((fun ke => JObj (edge_json "id" ke.1 ke.2 ++
              [("broad_reason", match json_get "broad_reason" ke.2.(Edge.constraints_json) with
                                | JUndefined => JNull | v => v end)])) <$> rows));
           ("next_cursor", JOpt JStr (next_cursor n rows))]) false
  end.

(** [ORDER BY depth, id] on the paths of a graph query. *)
Definition path_le (v v' : list string) : Prop :=
  (length v < length v')%nat \/ (length v = length v' /\ string_le (default_to "" (head v)) (default_to "" (head v'))).

#[export] Instance path_le_dec : RelDecision path_le.
Proof. intros v v'. unfold path_le. apply _. Defined.

Definition path_json (d : Db) (v : list string) : list (string * json) :=
  match head v with
  | Some eid =>
      match d.(delegation_edges) !! eid with
      | Some e => [("id", JStr eid); ("source_session_id", JStr e.(Edge.source_session_id));
                   ("target_session_id", JStr e.(Edge.target_session_id)); ("depth", JNum (Z.of_nat (length v)))]
      | None => []
      end
  | None => []
  end.

Definition reachable_paths (z id : string) (t : Z) (d : Db) : option (list (list string)) :=
  merge_sort path_le <$> edge_paths (edge_live t) z d (edge_self (edge_live t) z id d).

(** [GET /zones/:zoneId/delegations/:id/traverse]. *)
Definition traverse (req : option CaracalAuth) (zoneId id : string) (t : Z) (d : Db) : reply :=
  if negb (CoordinatorIdPattern zoneId && CoordinatorIdPattern id) then error_reply 400 "invalid_params"
  else if negb (bool_decide (delegationReaderApplication req = None)) then error_reply 403 "coordinator_admin_required"
  else match reachable_paths zoneId id t d with
  | Some paths => MkReply 200 (JArr ((fun v => JObj (path_json d v)) <$> paths)) false
  | None => errorHandler StatementTimeout
  end.

Definition path_record (z : string) (d : Db) (v : list string) : option string :=
  match path_end d v with
  | Some sid =>
      match d.(sessions) !! sid with
      | Some s => if in_zone z s then Some s.(Session.subject_authority_record_id) else None
      | None => None
      end
  | None => None
  end.

(** [GET /zones/:zoneId/delegations/:id/impact]. *)
Definition impact (req : option CaracalAuth) (zoneId id : string) (t : Z) (d : Db) : reply :=
  if negb (CoordinatorIdPattern zoneId && CoordinatorIdPattern id) then error_reply 400 "invalid_params"
  else if negb (bool_decide (delegationReaderApplication req = None)) then error_reply 403 "coordinator_admin_required"
  else match reachable_paths zoneId id t d with
  | None => errorHandler StatementTimeout
  | Some [] => error_reply 404 "delegation_not_found"
  | Some paths =>
      MkReply 200 (JObj
        [("edge_id", JStr id); ("affected_edges", JArr ((fun v => JObj (path_json d v)) <$> paths));
         ("affected_sessions", JStrs (distinct (paths ≫= fun v => match path_end d v with Some s => [s] | None => [] end)));
         ("affected_authority_records", JStrs (distinct (paths ≫= fun v =>
            match path_record zoneId d v with Some r => if nonempty r then [r] else [] | None => [] end)))]) false
  end.

(** ** Effective authority *)

(** The accumulator of the loop over the inbound edges. *)
Record EffectiveState := MkEffective {
  ef_scopes : option (list string);
  ef_resourceIds : list string;
  ef_resourceIdentifiers : list string;
  ef_resourceConstrained : bool;
  ef_maxHops : option Z;
  ef_ttlSeconds : option Z;
  ef_earliestExpiry : Z;
  ef_considered : list string
}.

Definition set_add (x : string) (xs : list string) : list string := if bool_decide (x ∈ xs) then xs else xs ++ [x].

Section effective.
Context `{Env}.

(** One round of the loop; [None] for [ef_maxHops] is [Infinity]. *)
Definition effective_step (st : EffectiveState) (parent : ParentDelegationEdge) : EffectiveState :=
  let considered := st.(ef_considered) ++ [parent.(pe_id)] in
  match normalizedConstraints parent.(pe_constraints_json) JUndefined None with
  | inl _ => MkEffective st.(ef_scopes) st.(ef_resourceIds) st.(ef_resourceIdentifiers) st.(ef_resourceConstrained)
               st.(ef_maxHops) st.(ef_ttlSeconds) st.(ef_earliestExpiry) considered
  | inr c =>
      let parentScopes := distinct parent.(pe_scopes) in
      let scopes := match st.(ef_scopes) with
                    | None => parentScopes
                    | Some ss => filter (fun s => s ∈ parentScopes) ss
                    end in
      let cResources := default_to [] c.(Constraints.resources) in
      let hops := default_to 1 c.(Constraints.max_hops) in
      MkEffective (Some scopes)
        (match parent.(pe_resource_id) with Some r => set_add r st.(ef_resourceIds) | None => st.(ef_resourceIds) end)
        (foldl (fun acc r => set_add r acc)
           (match parent.(pe_resource_identifier) with
            | Some r => if nonempty r then set_add r st.(ef_resourceIdentifiers) else st.(ef_resourceIdentifiers)
            | None => st.(ef_resourceIdentifiers)
            end) cResources)
        (st.(ef_resourceConstrained) || negb (bool_decide (parent.(pe_resource_id) = None)) || negb (bool_decide (cResources = [])))
        (match st.(ef_maxHops) with Some h => if hops <? h then Some hops else Some h | None => Some hops end)
        (match c.(Constraints.ttl_seconds) with
         | Some n => match st.(ef_ttlSeconds) with Some m => Some (Z.min m n) | None => Some n end
         | None => st.(ef_ttlSeconds)
         end)
        (Z.min (to_ms parent.(pe_expires_at)) st.(ef_earliestExpiry))
        considered
  end.

Definition effective_start (first : ParentDelegationEdge) : EffectiveState :=
  MkEffective None [] [] false None None (to_ms first.(pe_expires_at)) [].

(** [GET /zones/:zoneId/agents/:sessionId/effective-authority]. *)
Definition effectiveAuthorityOf (req : option CaracalAuth) (zoneId sessionId : string) (t : Z) (d : Db) : reply :=
  if negb (CoordinatorIdPattern zoneId && CoordinatorIdPattern sessionId) then error_reply 400 "invalid_params"
  else if match delegationReaderApplication req with
          | Some a => negb (owns_session zoneId sessionId a d)
          | None => false
          end then error_reply 404 "session_not_found"
  else
    match activeParentDelegations zoneId sessionId t d with
    | [] => MkReply 200 (JObj
        [("agent_session_id", JStr sessionId); ("inbound_edges", JArr []); ("effective_scopes", JArr []);
         ("effective_resources", JArr []); ("effective_max_hops", JNum 0); ("effective_ttl_seconds", JNull);
         ("earliest_expires_at", JNull)]) false
    | (first :: _) as parents =>
        let st := foldl effective_step (effective_start first) parents in
        MkReply 200 (JObj
          [("agent_session_id", JStr sessionId); ("inbound_edges", JStrs st.(ef_considered));
           ("effective_scopes", JStrs (match st.(ef_scopes) with Some ss => sort_strings ss | None => [] end));
           ("effective_resource_ids", JStrs (sort_strings st.(ef_resourceIds)));
           ("effective_resources", JStrs (sort_strings st.(ef_resourceIdentifiers)));
           ("effective_resource_constrained", JBool st.(ef_resourceConstrained));
           ("effective_max_hops", JOpt JNum st.(ef_maxHops)); ("effective_ttl_seconds", JOpt JNum st.(ef_ttlSeconds));
           ("earliest_expires_at", JStr (to_iso (1000 * st.(ef_earliestExpiry))))]) false
    end.
End effective.
