(* ===== verification/ConstraintFacts.v ===== *)
(** * Delegation constraints: what an accepted object is, and its round trip

    Facts about [normalizedConstraints] of
    [apps/coordinator/src/routes/delegations.ts]: the object it accepts, stored as
    [constraints_json], normalises to itself when a later request reads the edge. *)

From S2P Require Import Prelude.
From S2P Require Import Json.
From S2P Require Import Schema.
From S2P Require Import Store.
From S2P Require Import Scope.
From S2P Require Import Sessions.
From S2P Require Import Delegations.
Local Open Scope string_scope.
Local Open Scope Z_scope.
Local Open Scope list_scope.

Section facts.
Context `{Env}.

(** What [ConstraintBody] and the [max_depth] check guarantee. *)
Record constraints_valid (c : DelegationConstraints) : Prop := {
  cv_resources : forall rs, c.(Constraints.resources) = Some rs -> (length rs <= 64)%nat /\ Forall (fun r => r <> "") rs;
  cv_max_depth : forall n, c.(Constraints.max_depth) = Some n -> c.(Constraints.max_hops) = Some n;
  cv_max_hops : forall n, c.(Constraints.max_hops) = Some n -> 1 <= n <= MAX_DEPTH;
  cv_budget : forall n, c.(Constraints.budget) = Some n -> 1 <= n <= 64;
  cv_ttl : forall n, c.(Constraints.ttl_seconds) = Some n -> 1 <= n <= 86400;
  cv_expires : forall s, c.(Constraints.expires_at) = Some s -> is_Some (datetime s);
  cv_reason : forall s, c.(Constraints.broad_reason) = Some s -> s <> "" /\ (js_length s <= 256)%nat
}.

Lemma as_nonempty_strings_iff vs ss :
  as_nonempty_strings vs = Some ss <-> vs = JStr <$> ss /\ Forall (fun r => r <> "") ss.
Proof.
  revert ss. induction vs as [|v vs IH]; intros ss; cbn.
  - split; [intros; simplify_eq; done|]. intros [Heq _]. by destruct ss.
  - destruct ss as [|s ss].
    + split; [|intros [Heq _]; done]. destruct v; try done. repeat case_match; intros; simplify_eq.
    + split.
      * destruct v; try done. unfold nonempty. case_bool_decide; cbn [negb]; [done|].
        destruct (as_nonempty_strings vs) as [ss'|] eqn:E; [|done]. intros. simplify_eq.
        destruct (proj1 (IH ss) eq_refl) as [-> ?]. by rewrite Forall_cons.
      * intros [Heq [Hs Hss]%Forall_cons]. cbn in Heq. simplify_eq. unfold nonempty.
        rewrite bool_decide_eq_false_2 by done. cbn [negb]. by rewrite (proj2 (IH ss)).
Qed.

Lemma as_strings_iff max v ss :
  as_strings max v = Some ss <-> v = JStrs ss /\ (length ss <= max)%nat /\ Forall (fun r => r <> "") ss.
Proof.
  unfold as_strings, JStrs. destruct v; try (by split; [|naive_solver]). case_bool_decide as Hl.
  - rewrite as_nonempty_strings_iff. split.
    + intros [-> ?]. rewrite length_fmap in Hl. done.
    + intros (Heq & ? & ?). by simplify_eq.
  - split; [done|]. intros (Heq & Hlen & _). simplify_eq. rewrite length_fmap in Hl. done.
Qed.

Lemma as_int_iff lo hi v n : as_int lo hi v = Some n <-> v = JNum n /\ lo <= n <= hi.
Proof.
  unfold as_int, int_between. destruct v as [| | |m| | | | |]; try (by split; [|naive_solver]).
  destruct ((lo <=? m) && (m <=? hi)) eqn:E; split.
  - intros. simplify_eq. split; [done|lia].
  - intros [? ?]. by simplify_eq.
  - done.
  - intros [? ?]. simplify_eq. lia.
Qed.

Lemma as_bool_iff v b : as_bool v = Some b <-> v = JBool b.
Proof. destruct v; cbn; naive_solver. Qed.

Lemma as_datetime_iff v s : as_datetime v = Some s <-> v = JStr s /\ is_Some (datetime s).
Proof.
  unfold as_datetime. destruct v as [| | | | | |s'| |]; try (by split; [|naive_solver]).
  destruct (datetime s') eqn:E; split.
  - intros. simplify_eq. eauto.
  - intros [? ?]. by simplify_eq.
  - done.
  - intros [? [? ?]]. simplify_eq.
Qed.

Lemma as_string_iff max v s : as_string max v = Some s <-> v = JStr s /\ s <> "" /\ (js_length s <= max)%nat.
Proof.
  unfold as_string, nonempty. destruct v as [| | | | | |s'| |]; try (by split; [|naive_solver]).
  repeat case_bool_decide; cbn; naive_solver.
Qed.

Lemma field_value_Some {A : Type} (f : json -> option A) k out a :
  field_value f k out = Some a -> f (json_get k out) = Some a.
Proof. unfold field_value, opt_field. destruct (json_get k out), (f _); try done; cbn; congruence. Qed.

Lemma ConstraintBody_valid out c :
  ConstraintBody out = inr c ->
  c = Constraints.MkConstraints
        (field_value (as_strings 64) "resources" (JObj out)) (field_value (as_int 1 MAX_DEPTH) "max_depth" (JObj out))
        (field_value (as_int 1 MAX_DEPTH) "max_hops" (JObj out)) (field_value (as_int 1 64) "budget" (JObj out))
        (field_value (as_int 1 86400) "ttl_seconds" (JObj out)) (field_value as_bool "policy_approved" (JObj out))
        (field_value as_datetime "expires_at" (JObj out)) (field_value (as_string 256) "broad_reason" (JObj out)).
Proof.
  unfold ConstraintBody. destruct (find_first _ _); [done|]. destruct (forallb _ _); [|done]. congruence.
Qed.

Lemma normalized_body cj c0 ttl c :
  normalizedConstraints cj c0 ttl = inr c ->
  exists out, ConstraintBody out = inr c
    /\ (forall n, json_get "max_depth" (JObj out) = JNum n -> json_get "max_hops" (JObj out) <> JUndefined)
    /\ (forall n m, c.(Constraints.max_depth) = Some n -> c.(Constraints.max_hops) = Some m -> n = m).
Proof.
  unfold normalizedConstraints. destruct (_ || _); [done|].
  set (out := spread _ _).
  set (out1 := match json_get "max_depth" (JObj out) with JUndefined => _ | _ => _ end).
  assert (forall n, json_get "max_depth" (JObj out1) = JNum n -> json_get "max_hops" (JObj out1) <> JUndefined) as H1.
  { intros n. unfold out1. destruct (json_get "max_depth" (JObj out)) eqn:Ed, (json_get "max_hops" (JObj out)) eqn:Eh;
      cbn [json_get] in *; rewrite ?ordered_get_set; cbn; rewrite ?Ed, ?Eh; try done. }
  set (out2 := match ttl with Some _ => _ | None => _ end).
  assert (forall n, json_get "max_depth" (JObj out2) = JNum n -> json_get "max_hops" (JObj out2) <> JUndefined) as H2.
  { intros n. unfold out2. destruct ttl; [|apply H1]. destruct (json_get "ttl_seconds" (JObj out1)); try apply H1.
    cbn [json_get]. rewrite !ordered_get_set. cbn. apply H1. }
  destruct (ConstraintBody out2) as [[p|]|c1] eqn:E; [done|done|].
  intros Hc. exists out2.
  destruct (c1.(Constraints.max_depth)) as [d|] eqn:Ed, (c1.(Constraints.max_hops)) as [h|] eqn:Eh;
    try (injection Hc as ->; split_and!; [done|done|]; intros; congruence).
  destruct (d =? h) eqn:Edh; [|done]. injection Hc as ->. split_and!; [done|done|].
  intros n m Hn Hm. rewrite Ed in Hn. rewrite Eh in Hm. simplify_eq. lia.
Qed.

Lemma normalized_valid cj c0 ttl c : normalizedConstraints cj c0 ttl = inr c -> constraints_valid c.
Proof.
  intros (out & Hb & Hd & Heq)%normalized_body. pose proof (ConstraintBody_valid _ _ Hb) as Hc.
  assert (field_ok (JObj out) "max_hops" = true) as Hok.
  { unfold ConstraintBody in Hb. destruct (find_first _ _) eqn:Ef; [done|].
    apply find_first_None with (x := "max_hops") in Ef; [by apply negb_false_iff in Ef|]. unfold constraint_keys. set_solver. }
  split; rewrite Hc; cbn.
  - intros rs Hr%field_value_Some. by apply as_strings_iff in Hr as (_ & ? & ?).
  - intros n Hn. pose proof Hn as Hn'. apply field_value_Some, as_int_iff in Hn' as [Hj _].
    destruct (field_value (as_int 1 MAX_DEPTH) "max_hops" (JObj out)) as [m|] eqn:Em.
    + f_equal. symmetry. apply Heq; by rewrite Hc.
    + destruct (Hd n Hj). change (bool_decide (is_Some (opt_field (as_int 1 MAX_DEPTH) (json_get "max_hops" (JObj out)))) = true) in Hok.
      bool_props. destruct Hok as [o Ho]. unfold field_value in Em. rewrite Ho in Em. subst o. unfold opt_field in Ho.
      destruct (json_get "max_hops" (JObj out)); try done; by destruct (as_int _ _ _).
  - intros n Hn%field_value_Some. by apply as_int_iff in Hn as [_ ?].
  - intros n Hn%field_value_Some. by apply as_int_iff in Hn as [_ ?].
  - intros n Hn%field_value_Some. by apply as_int_iff in Hn as [_ ?].
  - intros n Hn%field_value_Some. by apply as_datetime_iff in Hn as [_ ?].
  - intros n Hn%field_value_Some. by apply as_string_iff in Hn as (_ & ? & ?).
Qed.

Lemma mark_broad_valid c : constraints_valid c -> constraints_valid (mark_broad c).
Proof.
  intros []. split; cbn; try done. intros s [= <-]. destruct c.(Constraints.broad_reason); cbn; [auto|].
  split; [done|]. vm_compute. lia.
Qed.

(** Reading back one property of the stored object. *)
Definition stored {A : Type} (f : A -> json) (o : option A) : json :=
  match o with Some a => f a | None => JUndefined end.

Lemma stored_fields c :
  let v := constraints_object c in
  json_get "resources" v = stored JStrs c.(Constraints.resources)
  /\ json_get "max_depth" v = stored JNum c.(Constraints.max_depth)
  /\ json_get "max_hops" v = stored JNum c.(Constraints.max_hops)
  /\ json_get "budget" v = stored JNum c.(Constraints.budget)
  /\ json_get "ttl_seconds" v = stored JNum c.(Constraints.ttl_seconds)
  /\ json_get "policy_approved" v = stored JBool c.(Constraints.policy_approved)
  /\ json_get "expires_at" v = stored JStr c.(Constraints.expires_at)
  /\ json_get "broad_reason" v = stored JStr c.(Constraints.broad_reason)
  /\ forallb (fun kv => bool_decide (kv.1 ∈ constraint_keys)) (constraints_fields c) = true.
Proof.
  destruct c as [[?|] [?|] [?|] [?|] [?|] [?|] [?|] [?|]]; vm_compute; repeat split.
Qed.

Lemma opt_field_stored {A : Type} (f : json -> option A) (g : A -> json) (o : option A) :
  (forall a, o = Some a -> f (g a) = Some a /\ g a <> JUndefined) -> opt_field f (stored g o) = Some o.
Proof.
  intros Hf. destruct o as [a|]; [|done]. destruct (Hf a eq_refl) as [Ha Hu]. cbn. unfold opt_field.
  destruct (g a); try done; by rewrite Ha.
Qed.

Lemma field_ok_keys v :
  field_ok v "resources" = bool_decide (is_Some (opt_field (as_strings 64) (json_get "resources" v)))
  /\ field_ok v "max_depth" = bool_decide (is_Some (opt_field (as_int 1 MAX_DEPTH) (json_get "max_depth" v)))
  /\ field_ok v "max_hops" = bool_decide (is_Some (opt_field (as_int 1 MAX_DEPTH) (json_get "max_hops" v)))
  /\ field_ok v "budget" = bool_decide (is_Some (opt_field (as_int 1 64) (json_get "budget" v)))
  /\ field_ok v "ttl_seconds" = bool_decide (is_Some (opt_field (as_int 1 86400) (json_get "ttl_seconds" v)))
  /\ field_ok v "policy_approved" = bool_decide (is_Some (opt_field as_bool (json_get "policy_approved" v)))
  /\ field_ok v "expires_at" = bool_decide (is_Some (opt_field as_datetime (json_get "expires_at" v)))
  /\ field_ok v "broad_reason" = bool_decide (is_Some (opt_field (as_string 256) (json_get "broad_reason" v))).
Proof. split_and!; reflexivity. Qed.

Lemma constraints_roundtrip c :
  constraints_valid c -> normalizedConstraints (constraints_object c) JUndefined None = inr c.
Proof.
  intros Hv. destruct (stored_fields c) as (E1 & E2 & E3 & E4 & E5 & E6 & E7 & E8 & E9). destruct Hv.
  assert (opt_field (as_strings 64) (stored JStrs c.(Constraints.resources)) = Some c.(Constraints.resources)) as F1.
  { apply opt_field_stored. intros a Ha. split; [|done].
    apply as_strings_iff. split; [done|by apply cv_resources0]. }
  assert (forall n, c.(Constraints.max_depth) = Some n -> 1 <= n <= MAX_DEPTH) as cv_depth by eauto.
  assert (forall lo hi o, (forall n, o = Some n -> lo <= n <= hi) -> opt_field (as_int lo hi) (stored JNum o) = Some o) as Fi.
  { intros lo hi o Ho. apply opt_field_stored. intros a Ha. split; [|done]. apply as_int_iff. split; [done|by apply Ho]. }
  assert (opt_field as_bool (stored JBool c.(Constraints.policy_approved)) = Some c.(Constraints.policy_approved)) as F6.
  { apply opt_field_stored. intros a Ha. done. }
  assert (opt_field as_datetime (stored JStr c.(Constraints.expires_at)) = Some c.(Constraints.expires_at)) as F7.
  { apply opt_field_stored. intros a Ha. split; [|done]. apply as_datetime_iff. split; [done|by eapply cv_expires0]. }
  assert (opt_field (as_string 256) (stored JStr c.(Constraints.broad_reason)) = Some c.(Constraints.broad_reason)) as F8.
  { apply opt_field_stored. intros a Ha. split; [|done]. apply as_string_iff. by destruct (cv_reason0 a Ha). }
  assert (ConstraintBody (constraints_fields c) = inr c) as Hbody.
  { unfold ConstraintBody. fold (constraints_object c).
    assert (find_first (fun k => negb (field_ok (constraints_object c) k)) constraint_keys = None) as ->.
    { apply find_first_None_2. intros k Hk. apply negb_false_iff. unfold constraint_keys in Hk.
      rewrite !elem_of_cons, elem_of_nil in Hk.
      destruct (field_ok_keys (constraints_object c)) as (G1 & G2 & G3 & G4 & G5 & G6 & G7 & G8).
      destruct_or! Hk; subst k; rewrite ?G1, ?G2, ?G3, ?G4, ?G5, ?G6, ?G7, ?G8, ?E1, ?E2, ?E3, ?E4, ?E5, ?E6, ?E7, ?E8,
        ?F1, ?F6, ?F7, ?F8, ?Fi by auto; (apply bool_decide_eq_true_2; eauto). }
    rewrite E9. unfold field_value. rewrite E1, E2, E3, E4, E5, E6, E7, E8, F1, F6, F7, F8, !Fi by auto. by destruct c. }
  unfold normalizedConstraints. cbn [plainObject negb andb orb object_fields spread foldl constraints_object].
  fold (constraints_object c). rewrite E2, E3.
  assert (match stored JNum c.(Constraints.max_depth), stored JNum c.(Constraints.max_hops) with
          | (JNum _ | JDec _ | JNonFinite) as n, JUndefined => ordered_set "max_hops" n (constraints_fields c)
          | _, _ => constraints_fields c
          end = constraints_fields c) as ->.
  { destruct c.(Constraints.max_depth) as [n|]; [|done]. by rewrite (cv_max_depth0 n eq_refl). }
  rewrite Hbody. destruct c.(Constraints.max_depth) as [n|] eqn:Ed; [|done].
  rewrite (cv_max_depth0 n eq_refl), Z.eqb_refl. done.
Qed.
End facts.

(** Constraints round trip: an accepted constraint object, stored with the edge,
    is read back as itself by every later check of that edge, whether or not the
    creation marked it as a broad delegation. *)
Theorem accepted_constraints_read_back `{Env} cj c0 ttl c :
  normalizedConstraints cj c0 ttl = inr c ->
  normalizedConstraints (constraints_object c) JUndefined None = inr c
  /\ normalizedConstraints (constraints_object (mark_broad c)) JUndefined None = inr (mark_broad c).
Proof.
  intros Hc%normalized_valid. split; apply constraints_roundtrip; [done|by apply mark_broad_valid].
Qed.

(** * Paths in the delegation graph

    The recursive queries of [apps/coordinator/src/routes/delegations.ts] against
    walks in the graph: what they return, that they finish, and what the cycle check
    guarantees. *)

Notation EdgeTable := (gmap string Edge.EdgeRow).

(** [walk p z es x l y]: the edges [l] lead from Session [x] to Session [y], all of
    them in zone [z] and satisfying [p]. *)
Fixpoint walk (p : Edge.EdgeRow -> bool) (z : string) (es : EdgeTable) (x : string) (l : list string) (y : string) : Prop :=
  match l with
  | [] => x = y
  | e :: l' => exists r, es !! e = Some r /\ r.(Edge.zone_id) = z /\ p r = true
                         /\ r.(Edge.source_session_id) = x /\ walk p z es r.(Edge.target_session_id) l' y
  end.

(** No closed walk of at most [n] edges. *)
Definition acyclic_upto (n : nat) (p : Edge.EdgeRow -> bool) (z : string) (es : EdgeTable) : Prop :=
  forall x l, l <> [] -> (length l <= n)%nat -> ~ walk p z es x l x.

Section walks.
Context (p : Edge.EdgeRow -> bool) (z : string).

Lemma walk_app es x l1 l2 y :
  walk p z es x (l1 ++ l2) y <-> exists m, walk p z es x l1 m /\ walk p z es m l2 y.
Proof.
  revert x. induction l1 as [|e l1 IH]; intros x; cbn; [naive_solver|].
  setoid_rewrite IH. naive_solver.
Qed.

Lemma walk_det es x l y y' : walk p z es x l y -> walk p z es x l y' -> y = y'.
Proof.
  revert x. induction l as [|e l IH]; cbn; intros x; [congruence|].
  intros (r & Hr & _ & _ & _ & Hw) (r' & Hr' & _ & _ & _ & Hw'). simplify_eq. eauto.
Qed.

(** A walk can be made simple. *)
Lemma walk_simple es x l y :
  walk p z es x l y -> exists l', walk p z es x l' y /\ NoDup l' /\ (length l' <= length l)%nat /\ l' ⊆ l
    /\ head l' = head l /\ last l' = last l.
Proof.
  revert x. induction l as [|e l IH]; intros x Hw.
  - exists []. cbn in *. split_and!; [done|constructor|lia|set_solver|done|done].
  - cbn in Hw. destruct Hw as (r & Hr & Hz & Hp & Hs & Hw). destruct (IH _ Hw) as (l' & Hw' & Hnd & Hlen & Hsub & _ & Hlast).
    destruct (decide (e ∈ l')) as [Hin|Hin].
    + apply list_elem_of_split in Hin as (a & b & ->). exists (e :: b).
      apply walk_app in Hw' as (m & _ & Hw'). cbn in Hw'. destruct Hw' as (r' & Hr' & _ & _ & _ & Hb). simplify_eq.
      assert (last (e :: b) = last (e :: l)) as Hl.
      { rewrite last_app_cons in Hlast. rewrite (last_cons e l), <-Hlast, last_cons. by destruct (last b). }
      split_and!; [cbn; eauto 10| | |set_solver|done|done].
      * by apply NoDup_app in Hnd as (_ & _ & ?).
      * rewrite length_app in Hlen. cbn in *. lia.
    + exists (e :: l'). split_and!; [cbn; eauto 10|by constructor|cbn; lia|set_solver|done|].
      by rewrite !last_cons, Hlast.
Qed.

(** A walk survives in a table that keeps its edges. *)
Lemma walk_mono (q : Edge.EdgeRow -> bool) (es es' : EdgeTable) x l y :
  (forall e r, e ∈ l -> es !! e = Some r -> r.(Edge.zone_id) = z -> p r = true ->
     exists r', es' !! e = Some r' /\ r'.(Edge.zone_id) = z /\ q r' = true
       /\ r'.(Edge.source_session_id) = r.(Edge.source_session_id)
       /\ r'.(Edge.target_session_id) = r.(Edge.target_session_id)) ->
  walk p z es x l y -> walk q z es' x l y.
Proof.
  revert x. induction l as [|e l IH]; intros x Hes; cbn; [done|].
  intros (r & Hr & Hz & Hp & Hs & Hw). destruct (Hes e r) as (r' & Hr' & Hz' & Hq & Hs' & Ht'); [set_solver|done..|].
  exists r'. split_and!; [done|done|done|congruence|]. rewrite Ht'. apply IH; [|done].
  intros e' r0 He'. apply Hes. set_solver.
Qed.

End walks.

Lemma acyclic_mono (p q : Edge.EdgeRow -> bool) z n (es es' : EdgeTable) :
  (forall e r', es' !! e = Some r' -> r'.(Edge.zone_id) = z -> q r' = true ->
     exists r, es !! e = Some r /\ r.(Edge.zone_id) = z /\ p r = true
       /\ r.(Edge.source_session_id) = r'.(Edge.source_session_id)
       /\ r.(Edge.target_session_id) = r'.(Edge.target_session_id)) ->
  acyclic_upto n p z es -> acyclic_upto n q z es'.
Proof.
  intros Hes Hac x l Hne Hlen Hw. apply (Hac x l Hne Hlen). eapply walk_mono; [|exact Hw]. eauto.
Qed.

(** ** The recursive query *)

Section query.
Context (p : Edge.EdgeRow -> bool) (z : string) (d : Db).
Local Abbreviation es := d.(delegation_edges).

Lemma elem_of_path_step v v' :
  v' ∈ path_step p z d v <->
  exists e r cur, v' = e :: v /\ (length v < Z.to_nat MAX_DEPTH)%nat /\ head v = Some cur
    /\ es !! e = Some r /\ r.(Edge.zone_id) = z /\ p r = true /\ e ∉ v
    /\ edge_target d cur = Some r.(Edge.source_session_id).
Proof.
  unfold path_step. destruct (Z.of_nat (length v) <? MAX_DEPTH) eqn:Hl.
  2: { split; [set_solver|]. intros (? & ? & ? & _ & Hlt & _). unfold MAX_DEPTH in *. lia. }
  destruct v as [|cur v]; [split; [set_solver|]; intros (? & ? & ? & _ & _ & ? & _); done|].
  rewrite list_elem_of_fmap. setoid_rewrite elem_of_select_keys. split.
  - intros (e & -> & r & Hr & Hb). bool_props. exists e, r, cur. split_and!; try done. unfold MAX_DEPTH in *. cbn in *. lia.
  - intros (e & r & cur' & -> & _ & Hc & Hr & Hz & Hp & Hn & Ht). cbn in Hc. injection Hc as <-. exists e. split; [done|].
    exists r. split; [done|]. rewrite Hp, (bool_decide_eq_true_2 _ Hz), (bool_decide_eq_true_2 _ Ht), (bool_decide_eq_false_2 _ Hn). done.
Qed.

Lemma edge_paths_total base : is_Some (edge_paths p z d base).
Proof.
  unfold edge_paths.
  apply (cte_terminates _ (fun v => (length v <= Z.to_nat MAX_DEPTH)%nat) (@length string) (Z.to_nat MAX_DEPTH)).
  - intros v v' _ (e & r & cur & -> & Hl & _)%elem_of_path_step. cbn. lia.
  - done.
  - intros v (k & -> & _)%list_elem_of_fmap. cbn [length]. unfold MAX_DEPTH. cbn. lia.
Qed.

(** The edges a base row starts from. *)
Definition base_ok (start : string -> Prop) (base : list string) : Prop :=
  forall k, k ∈ base <-> exists r, es !! k = Some r /\ r.(Edge.zone_id) = z /\ p r = true
                                   /\ start r.(Edge.source_session_id).

Lemma edge_target_lookup e r : es !! e = Some r -> edge_target d e = Some r.(Edge.target_session_id).
Proof. unfold edge_target. by intros ->. Qed.

(** Every row is a simple walk of at most [MAX_DEPTH] edges, newest edge first. *)
Lemma edge_paths_sound base rows v :
  edge_paths p z d base = Some rows -> v ∈ rows ->
  (forall k, k ∈ base -> exists r, es !! k = Some r /\ r.(Edge.zone_id) = z /\ p r = true) ->
  exists x y k, k ∈ base /\ walk p z es x (reverse v) y /\ path_end d v = Some y /\ v <> [] /\ last v = Some k
    /\ (length v <= Z.to_nat MAX_DEPTH)%nat.
Proof.
  intros Hrows Hv Hbase. unfold edge_paths in Hrows. apply (cte_spec _ _ _ _ Hrows) in Hv as (v0 & Hv0 & Hr).
  apply list_elem_of_fmap in Hv0 as (k & -> & Hk). destruct (Hbase k Hk) as (r & Hrk & Hz & Hp).
  revert v Hr. refine (rtc_ind_r (fun v => exists x y k, k ∈ base /\ walk p z es x (reverse v) y /\ path_end d v = Some y
    /\ v <> [] /\ last v = Some k /\ (length v <= Z.to_nat MAX_DEPTH)%nat) [k] _ _).
  - exists r.(Edge.source_session_id), r.(Edge.target_session_id), k. unfold path_end. cbn. rewrite (edge_target_lookup _ _ Hrk).
    split_and!; [done|eauto 10|done|done|done|unfold MAX_DEPTH; cbn; lia].
  - intros v v' _ Hs (x & y & k' & Hk' & Hw & Hend & Hne & Hlast & Hlen).
    apply elem_of_path_step in Hs as (e & r' & cur & -> & Hlt & Hcur & He & Hz' & Hp' & Hn & Ht).
    unfold path_end in Hend. rewrite Hcur in Hend. cbn in Hend. rewrite Ht in Hend. injection Hend as Hy.
    exists x, r'.(Edge.target_session_id), k'. split_and!; [done| | |done| |cbn; lia].
    + rewrite reverse_cons. apply walk_app. exists y. split; [done|]. cbn. eauto 10.
    + unfold path_end. cbn. by apply edge_target_lookup.
    + destruct v as [|a v]; [done|]. by rewrite last_cons_cons.
Qed.

(** Every simple walk of at most [MAX_DEPTH] edges from a base edge is a row. *)
Lemma edge_paths_complete base rows x l y e :
  edge_paths p z d base = Some rows -> walk p z es x l y -> head l = Some e -> e ∈ base -> NoDup l ->
  (length l <= Z.to_nat MAX_DEPTH)%nat -> reverse l ∈ rows.
Proof.
  intros Hrows. unfold edge_paths in Hrows. revert y. induction l as [|f l IH] using rev_ind; intros y Hw Hh He Hnd Hlen; [done|].
  apply (cte_spec _ _ _ _ Hrows). rewrite reverse_snoc. destruct l as [|a l].
  - cbn in Hh. injection Hh as ->. exists [e]. split; [|apply rtc_refl]. apply list_elem_of_fmap. eauto.
  - apply walk_app in Hw as (m & Hw & Hf). cbn in Hf. destruct Hf as (r & Hr & Hz & Hp & Hs & _).
    rewrite length_app in Hlen. cbn in Hlen.
    apply NoDup_app in Hnd as (Hnd & Hdis & _).
    assert (reverse (a :: l) ∈ rows) as Hin.
    { apply (IH m); [done|by cbn in *|done|done|cbn; lia]. }
    apply (cte_spec _ _ _ _ Hrows) in Hin as (v0 & Hv0 & Hv). exists v0. split; [done|]. eapply rtc_r; [done|].
    apply elem_of_path_step.
    destruct (reverse (a :: l)) as [|cur v] eqn:Hrev.
    { apply (f_equal length) in Hrev. rewrite length_reverse in Hrev. done. }
    exists f, r, cur. split_and!; try done.
    + rewrite <-Hrev, length_reverse. cbn. lia.
    + rewrite <-Hrev, elem_of_reverse. intros Hin. apply (Hdis f Hin). set_solver.
    + assert (a :: l = reverse v ++ [cur]) as Hal by (rewrite <-(reverse_involutive (a :: l)), Hrev, reverse_cons; done).
      rewrite Hal in Hw. apply walk_app in Hw as (m' & _ & Hc). cbn in Hc. destruct Hc as (rc & Hrc & _ & _ & _ & <-).
      rewrite (edge_target_lookup _ _ Hrc). by rewrite Hs.
Qed.
End query.

(** ** The cycle check *)

Lemma elem_of_edges_from p z source d k :
  k ∈ edges_from p z source d <->
  exists r, d.(delegation_edges) !! k = Some r /\ r.(Edge.zone_id) = z /\ p r = true /\ r.(Edge.source_session_id) = source.
Proof.
  unfold edges_from. rewrite elem_of_select_keys. split; intros (r & Hr & Hb); exists r; (split; [done|]).
  - by bool_props.
  - destruct Hb as (? & -> & ?). by rewrite !bool_decide_eq_true_2.
Qed.

Lemma wouldCreateCycle_total z source target t d : is_Some (wouldCreateCycle z source target t d).
Proof. unfold wouldCreateCycle. destruct (edge_paths_total (edge_live t) z d (edges_from (edge_live t) z target d)) as [? ->]. by eexists. Qed.

(** The check answers [false] exactly when no live walk of at most [MAX_DEPTH] edges
    leads from the target back to the source. *)
Lemma wouldCreateCycle_false z source target t d :
  wouldCreateCycle z source target t d = Some false <->
  forall l, l <> [] -> (length l <= Z.to_nat MAX_DEPTH)%nat ->
    ~ walk (edge_live t) z d.(delegation_edges) target l source.
Proof.
  unfold wouldCreateCycle.
  destruct (edge_paths_total (edge_live t) z d (edges_from (edge_live t) z target d)) as [rows Hrows]. rewrite Hrows. cbn.
  split.
  - intros [= Hex] l Hne Hlen Hw. destruct (walk_simple _ _ _ _ _ _ Hw) as (l' & Hw' & Hnd & Hl' & _ & Hhd & _).
    destruct l' as [|e l']; [by destruct l|].
    assert (reverse (e :: l') ∈ rows) as Hin.
    { eapply edge_paths_complete; [done|done|done| |done|lia]. apply elem_of_edges_from. cbn in Hw'.
      destruct Hw' as (r & ? & ? & ? & ? & _). eauto. }
    assert (existsb (fun v => bool_decide (path_end d v = Some source)) rows = true) as Ht; [|congruence].
    apply existsb_exists. exists (reverse (e :: l')). split; [by apply list_elem_of_In|]. apply bool_decide_eq_true.
    destruct (edge_paths_sound _ _ _ _ _ _ Hrows Hin) as (x & y & k & Hk & Hw2 & Hend & _ & Hlast & _).
    { intros k (r & ? & ? & ? & ?)%elem_of_edges_from. eauto. }
    rewrite reverse_involutive in Hw2.
    assert (x = target) as ->.
    { cbn in Hw2, Hw'. destruct Hw2 as (r & Hr & _ & _ & <- & _), Hw' as (r' & Hr' & _ & _ & <- & _). by simplify_eq. }
    by rewrite Hend, (walk_det _ _ _ _ _ _ _ Hw2 Hw').
  - intros Hno. f_equal. apply not_true_is_false. intros Hex. apply existsb_exists in Hex as (v & Hv & Hend).
    apply list_elem_of_In in Hv. bool_props.
    destruct (edge_paths_sound _ _ _ _ _ _ Hrows Hv) as (x & y & k & Hk & Hw & Hy & Hne & Hlast & Hlen).
    { intros k (r & ? & ? & ? & ?)%elem_of_edges_from. eauto. }
    rewrite Hy in Hend. simplify_eq. apply elem_of_edges_from in Hk as (r & Hr & Hz & Hp & Hs).
    apply (Hno (reverse v)).
    + intros Hn. apply Hne. by rewrite <-(reverse_involutive v), Hn.
    + by rewrite length_reverse.
    + assert (exists rest, reverse v = k :: rest) as [rest Hrest].
      { apply last_Some in Hlast as [v' ->]. rewrite reverse_snoc. eauto. }
      rewrite Hrest in *. cbn in Hw |- *. destruct Hw as (r' & Hr' & Hz' & Hp' & Hs' & Hw).
      rewrite Hr in Hr'. injection Hr' as <-. exists r. done.
Qed.

(** Adding an edge the check allowed closes no walk of [MAX_DEPTH + 1] edges. *)
Lemma acyclic_insert z source target t d eid (row : Edge.EdgeRow) :
  acyclic_upto (S (Z.to_nat MAX_DEPTH)) (edge_live t) z d.(delegation_edges) ->
  wouldCreateCycle z source target t d = Some false -> source <> target ->
  d.(delegation_edges) !! eid = None ->
  row.(Edge.source_session_id) = source -> row.(Edge.target_session_id) = target ->
  acyclic_upto (S (Z.to_nat MAX_DEPTH)) (edge_live t) z (<[eid := row]> d.(delegation_edges)).
Proof.
  intros Hac Hcyc Hst Hfresh Hsrc Htgt x l Hne Hlen Hw. rewrite wouldCreateCycle_false in Hcyc.
  set (es' := <[eid := row]> d.(delegation_edges)) in *.
  assert (forall a m b, eid ∉ m -> walk (edge_live t) z es' a m b -> walk (edge_live t) z d.(delegation_edges) a m b) as Hold.
  { intros a m b Hn. apply walk_mono. intros e r He Hr Hz Hp. unfold es' in Hr.
    rewrite lookup_insert_ne in Hr by set_solver. by exists r. }
  (* a walk from the target back to the source *)
  assert (forall m, (length m <= Z.to_nat MAX_DEPTH)%nat -> eid ∉ m -> ~ walk (edge_live t) z es' target m source) as Hback.
  { intros m Hm Hn Hwm. apply Hold in Hwm; [|done]. destruct m as [|e m]; [cbn in Hwm; congruence|].
    by apply (Hcyc (e :: m)). }
  destruct (decide (eid ∈ l)) as [Hin|Hin]; [|by eapply (Hac x l Hne Hlen), Hold].
  apply list_elem_of_split_l in Hin as (l1 & l2 & -> & Hl1). apply walk_app in Hw as (m & Hw1 & Hw2).
  cbn in Hw2. destruct Hw2 as (r & Hr & _ & _ & Hm & Hw2). unfold es' in Hr. rewrite lookup_insert_eq in Hr. simplify_eq.
  rewrite length_app in Hlen. cbn [length] in Hlen.
  destruct (decide (eid ∈ l2)) as [Hin2|Hin2].
  - apply list_elem_of_split_l in Hin2 as (a & b & -> & Ha). apply walk_app in Hw2 as (m' & Hwa & Hwb).
    cbn in Hwb. destruct Hwb as (r' & Hr' & _ & _ & <- & _). unfold es' in Hr'. rewrite lookup_insert_eq in Hr'. simplify_eq.
    rewrite length_app in Hlen. apply (Hback a); [lia|done|done].
  - apply (Hback (l2 ++ l1)); [rewrite length_app; lia|set_solver|]. apply walk_app. eauto.
Qed.
