(* ===== verification/DelegationFacts.v ===== *)
(** * Narrowing

    What an edge lets through, when one edge narrows another, and that the checks of
    [apps/coordinator/src/routes/delegations.ts] (resource resolution,
    [parentAllowsDelegation], [resourcesNarrowParent]) establish it. *)

From S2P Require Import Prelude.
From S2P Require Import Json.
From S2P Require Import Schema.
From S2P Require Import Store.
From S2P Require Import Scope.
From S2P Require Import Sessions.
From S2P Require Import Delegations.
From S2P Require Import ConstraintFacts.
From S2P Require Import Auth.
From S2P Require Import Outbox.
From S2P Require Import Idempotency.
From S2P Require Import SessionFacts.
Local Open Scope string_scope.
Local Open Scope Z_scope.
Local Open Scope list_scope.

Notation ResourceTable := (gmap string Resource.ResourceRow).

(** A reference (row id or public identifier) names at most one live resource of a
    zone; the schema's unique index on [(zone_id, identifier)] and the disjoint
    formats of ids and identifiers give it. *)
Definition resources_wf (rs : ResourceTable) : Prop :=
  forall z x k r k' r', rs !! k = Some r -> rs !! k' = Some r' -> resource_live z r = true -> resource_live z r' = true ->
    (k = x \/ r.(Resource.identifier) = x) -> (k' = x \/ r'.(Resource.identifier) = x) -> k = k'.

Section edges.
Context `{Env}.

(** The constraints later requests read from an edge. *)
Definition edge_constraints (e : Edge.EdgeRow) : option DelegationConstraints :=
  match normalizedConstraints e.(Edge.constraints_json) JUndefined None with inr c => Some c | inl _ => None end.

Definition resource_list (c : DelegationConstraints) : list string := default_to [] c.(Constraints.resources).

Definition hops (c : DelegationConstraints) : Z := default_to 1 c.(Constraints.max_hops).

(** The edge lets a mandate for resource [rid] (with row [r]) through. *)
Definition edge_admits (rid : string) (r : Resource.ResourceRow) (e : Edge.EdgeRow) : Prop :=
  (e.(Edge.resource_id) = None \/ e.(Edge.resource_id) = Some rid)
  /\ exists c, edge_constraints e = Some c /\ (resource_list c = [] \/ r.(Resource.identifier) ∈ resource_list c).

(** An edge that names a resource and lists resources lists the one it names. *)
Definition resource_consistent (rs : ResourceTable) (e : Edge.EdgeRow) : Prop :=
  forall rid c, e.(Edge.resource_id) = Some rid -> edge_constraints e = Some c -> resource_list c <> [] ->
    exists r, rs !! rid = Some r /\ r.(Resource.identifier) ∈ resource_list c.

(** [e] was issued by the holder of [pe] and gives away no more than it. *)
Record narrows (rs : ResourceTable) (e pe : Edge.EdgeRow) : Prop := {
  nw_zone : e.(Edge.zone_id) = pe.(Edge.zone_id);
  nw_holder : e.(Edge.source_session_id) = pe.(Edge.target_session_id);
  nw_scopes : e.(Edge.scopes) ⊆ pe.(Edge.scopes);
  nw_expiry : e.(Edge.expires_at) <= pe.(Edge.expires_at);
  nw_resources : forall rid r, rs !! rid = Some r -> resource_live e.(Edge.zone_id) r = true ->
    edge_admits rid r e -> edge_admits rid r pe;
  nw_limits : exists c pc, edge_constraints e = Some c /\ edge_constraints pe = Some pc
    /\ (hops c < hops pc \/ c = pc)
    /\ (forall n, pc.(Constraints.ttl_seconds) = Some n -> exists m, c.(Constraints.ttl_seconds) = Some m /\ m <= n)
    /\ (forall n, pc.(Constraints.budget) = Some n ->
          default_to (Z.of_nat (length e.(Edge.scopes))) c.(Constraints.budget) <= n \/ c = pc)
}.

(** ** Resolving resources *)

Definition item_ok (z : string) (rs : ResourceTable) (a : ResourceAuthority) : Prop :=
  exists r, rs !! a.(ra_id) = Some r /\ resource_live z r = true /\ r.(Resource.identifier) = a.(ra_identifier)
            /\ r.(Resource.scopes) = a.(ra_scopes).

(** A map keyed by [ra_id] whose values are live rows. *)
Definition items_ok (z : string) (rs : ResourceTable) (m : list (string * ResourceAuthority)) : Prop :=
  forall k a, (k, a) ∈ m -> k = a.(ra_id) /\ item_ok z rs a.

Lemma item_ok_unique z rs a a' : item_ok z rs a -> item_ok z rs a' -> a.(ra_id) = a'.(ra_id) -> a = a'.
Proof.
  intros (r & Hr & _ & Hi & Hs) (r' & Hr' & _ & Hi' & Hs') Heq. destruct a, a'. cbn in *. simplify_eq. done.
Qed.

Lemma elem_of_ordered_set {A : Type} (k : string) (v : A) m k' v' :
  (k', v') ∈ ordered_set k v m -> (k' = k /\ v' = v) \/ (k', v') ∈ m.
Proof.
  induction m as [|[k0 v0] m IH]; cbn; [set_solver|]. case_bool_decide; set_solver.
Qed.

Lemma elem_of_ordered_set_new {A : Type} (k : string) (v : A) m : (k, v) ∈ ordered_set k v m.
Proof. induction m as [|[k0 v0] m IH]; cbn; [set_solver|]. case_bool_decide; set_solver. Qed.

Lemma elem_of_ordered_set_old {A : Type} (k : string) (v : A) m k' v' :
  (k', v') ∈ m -> k' <> k -> (k', v') ∈ ordered_set k v m.
Proof.
  induction m as [|[k0 v0] m IH]; cbn; [set_solver|]. intros Hin Hne. case_bool_decide as Hk.
  - subst. apply elem_of_cons in Hin as [[= -> ->]|Hin]; [done|set_solver].
  - set_solver.
Qed.

Lemma add_resource_ok z rs m a :
  items_ok z rs m -> item_ok z rs a ->
  items_ok z rs (add_resource m a) /\ a ∈ (add_resource m a).*2 /\ (forall b, b ∈ m.*2 -> b ∈ (add_resource m a).*2).
Proof.
  intros Hm Ha. unfold add_resource. split_and!.
  - intros k b [[-> ->]|Hin]%elem_of_ordered_set; [done|by apply Hm].
  - apply list_elem_of_fmap. exists (a.(ra_id), a). split; [done|]. apply elem_of_ordered_set_new.
  - intros b ([k b'] & -> & Hin)%list_elem_of_fmap. cbn. destruct (Hm k b' Hin) as [-> Hb].
    destruct (decide (b'.(ra_id) = a.(ra_id))) as [Heq|Hne].
    + rewrite (item_ok_unique _ _ _ _ Hb Ha Heq). apply list_elem_of_fmap. exists (a.(ra_id), a). split; [done|].
      apply elem_of_ordered_set_new.
    + apply list_elem_of_fmap. exists (b'.(ra_id), b'). split; [done|]. by apply elem_of_ordered_set_old.
Qed.

Lemma add_resources_ok z rs rows m :
  items_ok z rs m -> Forall (item_ok z rs) rows ->
  items_ok z rs (foldl add_resource m rows)
  /\ (forall b, b ∈ rows -> b ∈ (foldl add_resource m rows).*2)
  /\ (forall b, b ∈ m.*2 -> b ∈ (foldl add_resource m rows).*2).
Proof.
  revert m. induction rows as [|a rows IH]; intros m Hm Hrows; cbn; [set_solver|].
  apply Forall_cons in Hrows as [Ha Hrows]. destruct (add_resource_ok z rs m a Hm Ha) as (Hm' & Hin & Hold).
  destruct (IH _ Hm' Hrows) as (H1 & H2 & H3). split_and!; [done| |auto].
  intros b [->|Hb]%elem_of_cons; auto.
Qed.

Lemma getResource_ok z rid d a :
  getResource z rid d = Some a -> item_ok z d.(resources) a /\ names_resource rid a = true.
Proof.
  unfold getResource. intros (kr & Hh & ->)%fmap_Some. destruct (select _ _) as [|kr' l] eqn:E; [done|].
  cbn in Hh. simplify_eq. destruct kr as [k r].
  assert ((k, r) ∈ (k, r) :: l) as Hin by set_solver. rewrite <-E in Hin. apply elem_of_select in Hin as [Hk Hb].
  bool_props. split; [by exists r|done].
Qed.

(** What a resolved request's items are. *)
Lemma resolve_ok z rid ids d items :
  resolveResourceAuthority z rid ids d = inr items ->
  Forall (item_ok z d.(resources)) items
  /\ (forall k r, d.(resources) !! k = Some r -> resource_live z r = true -> r.(Resource.identifier) ∈ ids ->
        resource_authority (k, r) ∈ items)
  /\ (forall x, rid = Some x -> exists a, a ∈ items /\ names_resource x a = true
        /\ (ids <> [] -> exists b, b ∈ items /\ names_resource x b = true /\ b.(ra_identifier) ∈ ids))
  /\ (rid = None -> ids = [] -> items = []).
Proof.
  unfold resolveResourceAuthority. set (rs := d.(resources)).
  set (first := match rid with Some _ => _ | None => _ end).
  assert (forall m, first = inr m -> items_ok z rs m
    /\ (forall x, rid = Some x -> exists a, a ∈ m.*2 /\ names_resource x a = true) /\ (rid = None -> m = [])) as Hfirst.
  { intros m Hm. unfold first in Hm. destruct rid as [x|].
    - destruct (getResource z x d) as [a|] eqn:Hg; [|done]. injection Hm as <-. apply getResource_ok in Hg as [Ha Hn].
      destruct (add_resource_ok z rs [] a) as (H1 & H2 & _); [by intros ? ? ?%elem_of_nil|done|].
      split_and!; [done| |done]. intros ? [= <-]. eauto.
    - injection Hm as <-. split_and!; [by intros ? ? ?%elem_of_nil|done|done]. }
  destruct first as [?|m] eqn:Ef; [done|]. destruct (Hfirst m eq_refl) as (Hm & Hx & Hnone). clear Hfirst Ef.
  assert (forall m', items_ok z rs m' -> Forall (item_ok z rs) m'.*2) as Hall.
  { intros m' Hm'. apply Forall_forall. intros a ([k b] & -> & Hin)%list_elem_of_fmap. by destruct (Hm' k b Hin). }
  case_bool_decide as Hids.
  - intros [= <-]. subst ids. split_and!; [by apply Hall|set_solver| |].
    + intros x Hrid. destruct (Hx x Hrid) as (a & Ha & Hn). exists a. done.
    + intros Hrid _. by rewrite (Hnone Hrid).
  - set (rows := resource_authority <$> _). destruct (negb _); [done|].
    assert (forall a, a ∈ rows <-> exists k r, a = resource_authority (k, r) /\ rs !! k = Some r /\ resource_live z r = true
      /\ r.(Resource.identifier) ∈ ids) as Hrows.
    { intros a. unfold rows. rewrite list_elem_of_fmap. split.
      - intros ([k r] & -> & [Hk Hb]%elem_of_select). bool_props. rewrite elem_of_distinct in *. eauto 10.
      - intros (k & r & -> & Hk & Hl & Hi). exists (k, r). split; [done|]. apply elem_of_select. split; [done|].
        rewrite Hl. cbn. apply bool_decide_eq_true. by rewrite elem_of_distinct. }
    destruct (add_resources_ok z rs rows m Hm) as (H1 & H2 & H3).
    { apply Forall_forall. intros a (k & r & -> & Hk & Hl & _)%Hrows. by exists r. }
    assert ((forall x, rid = Some x -> existsb (names_resource x) rows = true) ->
      items = (foldl add_resource m rows).*2 ->
      Forall (item_ok z rs) items
      /\ (forall k r, rs !! k = Some r -> resource_live z r = true -> r.(Resource.identifier) ∈ ids ->
            resource_authority (k, r) ∈ items)
      /\ (forall x, rid = Some x -> exists a, a ∈ items /\ names_resource x a = true
            /\ (ids <> [] -> exists b, b ∈ items /\ names_resource x b = true /\ b.(ra_identifier) ∈ ids))
      /\ (rid = None -> ids = [] -> items = [])) as Hgo.
    { intros Hex ->. split_and!; [by apply Hall| | |done].
      - intros k r Hk Hl Hi. apply H2, Hrows. eauto 10.
      - intros x Hrid. destruct (Hx x Hrid) as (a & Ha & Hn). exists a. split_and!; [by apply H3|done|]. intros _.
        specialize (Hex x Hrid). apply existsb_exists in Hex as (b & Hb%list_elem_of_In & Hnb). exists b.
        split_and!; [by apply H2|done|]. apply Hrows in Hb as (k & r & -> & _ & _ & Hi). done. }
    destruct rid as [x|]; [|intros [= <-]; by apply Hgo]. destruct (existsb _ rows) eqn:Hex; [|done].
    intros [= <-]. apply Hgo; [|done]. by intros ? [= <-].
Qed.
End edges.

(** * Creating a delegation

    What a committed [POST /zones/:zoneId/delegations] of
    [apps/coordinator/src/routes/delegations.ts] did, that the transaction
    implements it, and that the new edge narrows its parent. *)

(** The body once its resource reference is the row id. *)
Definition normalize_body (body : DelegationBody) (items : list ResourceAuthority) : DelegationBody :=
  match match body.(Body.resource_id) with Some rid => find_first (names_resource rid) items | None => None end with
  | Some r => Body.set_resource_id (Some r.(ra_id)) body
  | None => body
  end.

(** The expiry of the new edge. *)
Definition edge_expiry `{Env} (t : Z) (requested : option string) (ttl : option Z) : Z :=
  match requested with Some s => default_to 0 (datetime s) | None => t + seconds (default_to 0 ttl) end.

(** A committed creation of edge [eid] by request [b0]. *)
Record create_effect `{Env} (z : string) (b0 : DelegationBody) (c : DelegationConstraints)
  (requested : option string) (ttl : option Z) (eid : string) (row : Edge.EdgeRow) (t : Z) (d d' : Db) : Prop := {
  ce_source : exists s, activeSessionEndpoint t z b0.(Body.source_session_id) d = Some s
    /\ s.(Session.application_id) = b0.(Body.issuer_application_id);
  ce_target : exists s, activeSessionEndpoint t z b0.(Body.target_session_id) d = Some s
    /\ s.(Session.application_id) = b0.(Body.receiver_application_id);
  ce_row : exists items parent,
    resolveResourceAuthority z b0.(Body.resource_id) (resource_list c) d = inr items
    /\ (items = [] \/ b0.(Body.scopes) ⊆ (items ≫= ra_scopes))
    /\ choose_parent (activeParentDelegations z b0.(Body.source_session_id) t d) b0.(Body.parent_edge_id) = inr parent
    /\ (forall p, parent = Some p ->
          parentAllowsDelegation p (normalize_body b0 items) c items requested = true)
    /\ row = new_edge t z (normalize_body b0 items) c (pe_id <$> parent) (edge_expiry t requested ttl)
    /\ expiry_allowed z (pe_id <$> parent) (edge_expiry t requested ttl) t d = true;
  ce_acyclic : wouldCreateCycle z b0.(Body.source_session_id) b0.(Body.target_session_id) t d = Some false;
  ce_fresh : d.(delegation_edges) !! eid = None;
  ce_edges : d'.(delegation_edges) = <[eid := row]> d.(delegation_edges);
  ce_event : is_Some (d'.(caracal_outbox) !! item_key (MkItem DelegationsInvalidate ("edge_create:" +:+ eid) []));
  ce_epoch : d'.(delegation_graph_epochs) !! z = Some (next_epoch z d);
  ce_sessions : d'.(sessions) = d.(sessions);
  ce_others : d'.(applications) = d.(applications) /\ d'.(authority_records) = d.(authority_records)
    /\ d'.(resources) = d.(resources) /\ d'.(agent_services) = d.(agent_services)
    /\ d'.(agent_invocations) = d.(agent_invocations)
}.

Section create_wp.
Context `{Env}.

Lemma normalize_body_fields b items :
  let b' := normalize_body b items in
  b'.(Body.source_session_id) = b.(Body.source_session_id) /\ b'.(Body.target_session_id) = b.(Body.target_session_id)
  /\ b'.(Body.issuer_application_id) = b.(Body.issuer_application_id)
  /\ b'.(Body.receiver_application_id) = b.(Body.receiver_application_id)
  /\ b'.(Body.scopes) = b.(Body.scopes) /\ b'.(Body.parent_edge_id) = b.(Body.parent_edge_id).
Proof. unfold normalize_body. destruct (match b.(Body.resource_id) with Some _ => _ | None => _ end); done. Qed.

Lemma wp_check_endpoints z b c (Q : list ResourceAuthority * DelegationBody -> World -> Prop)
  (E : exit reply -> World -> Prop) w :
  aborts E ->
  (forall s tg items, activeSessionEndpoint w.(now) z b.(Body.source_session_id) w.(db) = Some s ->
     activeSessionEndpoint w.(now) z b.(Body.target_session_id) w.(db) = Some tg ->
     s.(Session.application_id) = b.(Body.issuer_application_id) ->
     tg.(Session.application_id) = b.(Body.receiver_application_id) ->
     resolveResourceAuthority z b.(Body.resource_id) (resource_list c) w.(db) = inr items ->
     (items = [] \/ b.(Body.scopes) ⊆ (items ≫= ra_scopes)) -> Q (items, normalize_body b items) w) ->
  wp (check_endpoints z b c) Q E w.
Proof.
  intros HE HQ. unfold check_endpoints. wp_step. apply wp_query. wp_step. apply wp_query.
  destruct (activeSessionEndpoint _ _ b.(Body.source_session_id) _) as [s|] eqn:Hs; [|by wp_steps].
  destruct (activeSessionEndpoint _ _ b.(Body.target_session_id) _) as [tg|] eqn:Ht; [|by wp_steps].
  wp_step. wp_step. wp_step. apply wp_query. bool_props. fold (resource_list c).
  destruct (resolveResourceAuthority _ _ _ _) as [[st er]|items] eqn:Hr; [by wp_steps|]. cbv zeta.
  change (match match b.(Body.resource_id) with Some rid => find_first (names_resource rid) items | None => None end with
          | Some r => Body.set_resource_id (Some r.(ra_id)) b | None => b end) with (normalize_body b items).
  wp_step. wp_step. wp_step. eapply HQ; try done.
  match goal with H : _ || _ = true |- _ => apply orb_true_iff in H as [?|Hsc] end; bool_props; [by left|right].
  apply scopesAllowed_spec in Hsc. destruct (normalize_body_fields b items) as (_ & _ & _ & _ & Hsc' & _).
  rewrite Hsc' in Hsc. intros x Hx. specialize (Hsc x Hx). by rewrite elem_of_distinct in Hsc.
Qed.

Lemma wp_check_authority z b c items req (Q : list ParentDelegationEdge * option string -> World -> Prop)
  (E : exit reply -> World -> Prop) w :
  aborts E ->
  (forall ps parent, choose_parent (activeParentDelegations z b.(Body.source_session_id) w.(now) w.(db)) b.(Body.parent_edge_id) = inr parent ->
     (forall p, parent = Some p -> parentAllowsDelegation p b c items req = true) ->
     Q (ps, pe_id <$> parent) w) ->
  wp (check_authority z b c items req) Q E w.
Proof.
  intros HE HQ. unfold check_authority. wp_step. apply wp_query.
  destruct (choose_parent _ _) as [[st er]|[p|]] eqn:Hc; [by wp_steps| |].
  - wp_step. wp_step. wp_step. apply (HQ _ (Some p) eq_refl). by intros ? [= <-].
  - wp_steps. by apply (HQ _ None eq_refl).
Qed.

Lemma wp_insert_edge z b c parent req ttl (Q : string * Edge.EdgeRow -> World -> Prop)
  (E : exit reply -> World -> Prop) w :
  aborts E ->
  (forall eid row, eid = uuidv7 w.(uuids) -> row = new_edge w.(now) z b c parent (edge_expiry w.(now) req ttl) ->
     expiry_allowed z parent (edge_expiry w.(now) req ttl) w.(now) w.(db) = true ->
     w.(db).(delegation_edges) !! eid = None ->
     Q (eid, row) (set_db (set_delegation_edges (<[eid := row]> w.(db).(delegation_edges)) w.(db)) (set_uuids (S w.(uuids)) w))) ->
  wp (insert_edge z b c parent req ttl) Q E w.
Proof. intros HE HQ. unfold insert_edge. wp_steps. bool_props. by apply HQ. Qed.

Lemma wp_create_governed z b c scoped req ttl receipt (E : exit reply -> World -> Prop) w :
  aborts E ->
  (forall r w' row, r.(code) = 201 -> r.(replay_header) = false ->
     create_effect z b c req ttl (uuidv7 w.(uuids)) row w.(now) w.(db) w'.(db) -> E (Commit r) w') ->
  wp (create_governed z b c scoped req ttl receipt) E E w.
Proof.
  intros HE Hnew. unfold create_governed. wp_step. apply wp_lock. wp_step. apply wp_check_endpoints; [done|].
  intros s tg items Hs Ht Happ Hrec Hres Hsc. cbn [now db set_locks] in *.
  destruct (normalize_body_fields b items) as (Es & Et & Ei & Er & Esc & Ep).
  wp_step. apply wp_check_authority; [done|]. intros ps parent Hch Hall. cbn beta iota.
  wp_step. apply wp_query_opt; [|by intros; apply HE]. intros cyc Hcyc. wp_step. wp_step.
  wp_step. apply wp_insert_edge; [done|]. intros eid row Heid Hrow Hexp Hfresh. cbn beta iota.
  wp_step. apply wp_bumpDelegationEpoch. wp_step. apply wp_enqueue. intros w' (o & n & -> & _ & Hout & _).
  cbn [now db set_locks set_db set_uuids] in *. rewrite Es in *. rewrite Et in Hcyc. rewrite Ep in Hch. subst eid.
  assert (forall d', d'.(delegation_edges) = <[uuidv7 w.(uuids) := row]> w.(db).(delegation_edges) ->
    d'.(caracal_outbox) = o -> d'.(delegation_graph_epochs) !! z = Some (next_epoch z w.(db)) ->
    d'.(sessions) = w.(db).(sessions) ->
    d'.(applications) = w.(db).(applications) /\ d'.(authority_records) = w.(db).(authority_records)
    /\ d'.(resources) = w.(db).(resources) /\ d'.(agent_services) = w.(db).(agent_services)
    /\ d'.(agent_invocations) = w.(db).(agent_invocations) ->
    create_effect z b c req ttl (uuidv7 w.(uuids)) row w.(now) w.(db) d') as Heff.
  { intros d' He Ho Hep Hse Hot. split; try done.
    - exists s. done.
    - exists tg. done.
    - exists items, parent. done.
    - apply negb_true_iff in H0. by subst cyc.
    - rewrite Ho. exact (Hout _ ltac:(left)). }
  cbv zeta. wp_step. destruct receipt as [[kd rd]|].
  - apply wp_completeIdempotency; [|by intros; apply HE]. intros i m st' _. wp_step. eapply Hnew; [done|done|].
    apply Heff; try done. cbn. apply lookup_insert_eq.
  - wp_steps. eapply Hnew; [done|done|]. apply Heff; try done. cbn. apply lookup_insert_eq.
Qed.

Lemma wp_delegation_receipt z b idem req (Q : option (string * string) -> World -> Prop)
  (E : exit reply -> World -> Prop) w :
  aborts E ->
  (forall x rc st l, Q x (set_stats st (set_locks l (set_db (set_receipts rc w.(db)) w)))) ->
  (forall r rc st l, r.(replay_header) = true ->
     E (Commit r) (set_stats st (set_locks l (set_db (set_receipts rc w.(db)) w)))) ->
  wp (delegation_receipt z b idem req) Q E w.
Proof.
  intros HE HQ HC. unfold delegation_receipt. destruct idem as [k|].
  - wp_steps. apply wp_startIdempotency; [|by intros _; apply HE].
    intros h st l _. destruct (start_outcome _ _ _ _); wp_steps; [apply HQ|apply HC; done].
  - wp_steps. specialize (HQ None w.(db).(receipts) w.(idempotencyStats) w.(locks)).
    by destruct w as [[] ? ? ? ? ? ?].
Qed.

Lemma resource_refusal z rid ids d c e : resolveResourceAuthority z rid ids d = inl (c, e) -> c <> 201.
Proof. unfold resolveResourceAuthority. intros Heq. repeat case_match; simplify_eq; done. Qed.

Lemma parent_refusal ps wanted c e : choose_parent ps wanted = inl (c, e) -> c <> 201.
Proof. unfold choose_parent. intros Heq. repeat case_match; simplify_eq; done. Qed.

Notation not_created := (fun r => r.(code) <> 201).

Lemma check_endpoints_refusals z b c : refusals not_created (check_endpoints z b c).
Proof.
  unfold check_endpoints. do 2 (apply refusals_bind; [by intros ?|intros ?]).
  do 2 (case_match; [|by intros ?]). apply refusals_bind; [by apply refusals_ensure|intros _].
  apply refusals_query. intros t d. destruct (resolveResourceAuthority _ _ _ d) as [[st e]|] eqn:Hr.
  - intros w. exact (resource_refusal _ _ _ _ _ _ Hr).
  - cbv zeta. refusals_walk.
Qed.

Lemma check_authority_refusals z b c items rexp : refusals not_created (check_authority z b c items rexp).
Proof.
  unfold check_authority. apply refusals_query. intros t d.
  destruct (choose_parent _ _) as [[st e]|] eqn:Hp; [|refusals_walk].
  intros w. exact (parent_refusal _ _ _ _ Hp).
Qed.

Lemma insert_edge_refusals z b c pid rexp ttl : refusals not_created (insert_edge z b c pid rexp ttl).
Proof. unfold insert_edge. destruct pid; refusals_walk. Qed.

#[local] Hint Resolve check_endpoints_refusals check_authority_refusals insert_edge_refusals : caracal.

Lemma create_tx_refuses req z b c scoped rexp ttl : refuses not_created (create_tx req z b c scoped rexp ttl).
Proof.
  unfold create_tx, delegation_receipt, create_governed, bumpDelegationEpoch, enqueue.
  refusals_walk.
Qed.

Lemma wp_create_tx req z b c scoped rexp ttl (E : exit reply -> World -> Prop) w :
  aborts E ->
  (forall r w', r.(replay_header) = true -> same_core w.(db) w'.(db) -> E (Commit r) w') ->
  (forall r w' row, r.(code) = 201 -> r.(replay_header) = false ->
     create_effect z b c rexp ttl (uuidv7 w.(uuids)) row w.(now) w.(db) w'.(db) -> E (Commit r) w') ->
  wp (create_tx req z b c scoped rexp ttl) E E w.
Proof.
  intros HE Hreplay Hnew. unfold create_tx. apply wp_bind.
  apply wp_mono with (Q := fun _ w' => w' = w) (E := fun x _ => forall r, x <> Commit r).
  { unfold parseIdempotencyKey. repeat case_match; done. }
  2: { intros x w' Hx. by apply HE. }
  intros idem w0 ->. apply wp_bind, wp_delegation_receipt; [done| |].
  2: { intros r rc st l Hr. apply Hreplay; [done|]. by repeat split. }
  intros receipt rc st l. apply wp_create_governed; [done|].
  intros r w' row Hr Hrep Heff. apply (Hnew r w' row); [done|done|]. destruct Heff. by split.
Qed.
End create_wp.
