(* ===== verification/EdgeInv.v ===== *)
(** * The delegation graph's invariant

    Every edge narrows the edge it was issued from, its endpoints exist and are live
    while it is active, and no live cycle of at most [MAX_DEPTH + 1] edges exists;
    creating, inheriting, terminating and revoking keep it so. *)

From S2P Require Import Prelude.
From S2P Require Import Json.
From S2P Require Import Schema.
From S2P Require Import Store.
From S2P Require Import Scope.
From S2P Require Import Auth.
From S2P Require Import Outbox.
From S2P Require Import Idempotency.
From S2P Require Import Sessions.
From S2P Require Import SessionFacts.
From S2P Require Import SessionProps.
From S2P Require Import Delegations.
From S2P Require Import ConstraintFacts.
From S2P Require Import DelegationFacts.
Local Open Scope string_scope.
Local Open Scope Z_scope.
Local Open Scope list_scope.

(** Both Sessions of an edge exist in its zone under its applications, and are live
    while it is active. *)
Definition endpoints_ok (ss : SessionTable) (e : Edge.EdgeRow) : Prop :=
  e.(Edge.source_session_id) <> e.(Edge.target_session_id)
  /\ exists s tg, ss !! e.(Edge.source_session_id) = Some s /\ ss !! e.(Edge.target_session_id) = Some tg
       /\ s.(Session.zone_id) = e.(Edge.zone_id) /\ tg.(Session.zone_id) = e.(Edge.zone_id)
       /\ s.(Session.application_id) = e.(Edge.issuer_application_id)
       /\ tg.(Session.application_id) = e.(Edge.receiver_application_id)
       /\ (e.(Edge.status) = RActive -> is_live s = true /\ is_live tg = true).

Record edge_inv `{Env} (t : Z) (rs : ResourceTable) (ss : SessionTable) (es : EdgeTable) : Prop := {
  ei_parent : forall k e pid, es !! k = Some e -> e.(Edge.parent_edge_id) = Some pid ->
    exists pe, es !! pid = Some pe /\ narrows rs e pe;
  ei_constraints : forall k e, es !! k = Some e ->
    exists c, edge_constraints e = Some c /\ 1 <= hops c <= MAX_DEPTH;
  ei_resource : forall k e, es !! k = Some e -> resource_consistent rs e;
  ei_endpoints : forall k e, es !! k = Some e -> endpoints_ok ss e;
  ei_acyclic : forall z, acyclic_upto (S (Z.to_nat MAX_DEPTH)) (edge_live t) z es
}.

(** The columns the invariant reads besides the status. *)
Definition edge_skeleton (e : Edge.EdgeRow) :=
  (e.(Edge.zone_id), e.(Edge.source_session_id), e.(Edge.target_session_id), e.(Edge.issuer_application_id),
   e.(Edge.receiver_application_id), e.(Edge.resource_id), e.(Edge.scopes), e.(Edge.constraints_json),
   e.(Edge.expires_at)).

(** An edge that changed at most its status away from active and forgot its parent. *)
Definition edge_weaker (e e' : Edge.EdgeRow) : Prop :=
  edge_skeleton e' = edge_skeleton e /\ (e'.(Edge.status) = RActive -> e.(Edge.status) = RActive)
  /\ (e'.(Edge.parent_edge_id) = e.(Edge.parent_edge_id) \/ e'.(Edge.parent_edge_id) = None).

Section inv.
Context `{Env}.

Lemma edge_constraints_skeleton e e' : edge_skeleton e' = edge_skeleton e -> edge_constraints e' = edge_constraints e.
Proof. destruct e, e'. unfold edge_skeleton. cbn. intros. by simplify_eq. Qed.

Lemma narrows_skeleton rs e pe e' pe' :
  edge_skeleton e' = edge_skeleton e -> edge_skeleton pe' = edge_skeleton pe -> narrows rs e pe -> narrows rs e' pe'.
Proof.
  destruct e, e', pe, pe'. unfold edge_skeleton. cbn. intros He Hpe. simplify_eq.
  intros [H1 H2 H3 H4 H5 H6]. split; assumption.
Qed.

Lemma endpoints_skeleton ss e e' :
  edge_weaker e e' -> endpoints_ok ss e -> endpoints_ok ss e'.
Proof.
  destruct e, e'. unfold edge_weaker, edge_skeleton, endpoints_ok. cbn. intros (Heq & Hst & _). simplify_eq.
  intros (Hne & s & tg & H1 & H2 & H3 & H4 & H5 & H6 & H7). split; [done|]. exists s, tg. split_and!; auto.
Qed.

(** Weakening or removing edges keeps the invariant, as long as no edge points at a
    removed one. *)
Lemma edge_inv_weaken t t' rs ss (es es' : EdgeTable) :
  t <= t' ->
  (forall k e', es' !! k = Some e' -> exists e, es !! k = Some e /\ edge_weaker e e'
     /\ (forall pid, e'.(Edge.parent_edge_id) = Some pid -> is_Some (es' !! pid))) ->
  edge_inv t rs ss es -> edge_inv t' rs ss es'.
Proof.
  intros Ht Hes [Hp Hc Hr He Ha]. split.
  - intros k e' pid Hk Hpar. destruct (Hes k e' Hk) as (e & Hek & (Hsk & _ & Hpp) & Hex).
    destruct (Hex pid Hpar) as [pe' Hpe']. destruct (Hes pid pe' Hpe') as (pe & Hpe & (Hpsk & _ & _) & _).
    exists pe'. split; [done|]. destruct Hpp as [Heq|Hn]; [|congruence].
    destruct (Hp k e pid Hek) as (pe0 & Hpe0 & Hnw); [congruence|]. rewrite Hpe in Hpe0. injection Hpe0 as <-. exact (narrows_skeleton _ _ _ _ _ Hsk Hpsk Hnw).
  - intros k e' Hk. destruct (Hes k e' Hk) as (e & Hek & (Hsk & _ & _) & _).
    rewrite (edge_constraints_skeleton _ _ Hsk). eauto.
  - intros k e' Hk. destruct (Hes k e' Hk) as (e & Hek & (Hsk & _ & _) & _). unfold resource_consistent.
    rewrite (edge_constraints_skeleton _ _ Hsk). intros rid c Hrid. apply (Hr k e Hek).
    unfold edge_skeleton in Hsk. congruence.
  - intros k e' Hk. destruct (Hes k e' Hk) as (e & Hek & Hw & _). eapply endpoints_skeleton; eauto.
  - intros z. eapply acyclic_mono; [|apply Ha]. intros k e' Hk Hz Hl.
    destruct (Hes k e' Hk) as (e & Hek & (Hsk & Hst & _) & _). exists e. unfold edge_skeleton in Hsk. unfold edge_live in *.
    bool_props. rewrite (bool_decide_eq_true_2 _ (Hst ltac:(done))). cbn [andb].
    assert (e'.(Edge.expires_at) = e.(Edge.expires_at)) as Hexp by congruence.
    split_and!; [done|congruence|lia|congruence|congruence].
Qed.

(** Changing sessions keeps the invariant when every endpoint keeps its identity,
    and its liveness where an active edge needs it. *)
Lemma edge_inv_sessions t rs (ss ss' : SessionTable) (es : EdgeTable) :
  (forall k e, es !! k = Some e -> endpoints_ok ss e -> endpoints_ok ss' e) ->
  edge_inv t rs ss es -> edge_inv t rs ss' es.
Proof. intros Hss []. split; eauto. Qed.

(** ** A created edge *)

Lemma choose_parent_Some parents wanted p :
  choose_parent parents wanted = inr (Some p) -> p ∈ parents.
Proof.
  unfold choose_parent. destruct parents as [|a parents]; [done|]. destruct wanted as [pid|].
  - destruct (find_first _ _) eqn:E; [|done]. intros. simplify_eq. by apply find_first_Some in E as [? _].
  - destruct parents; [|done]. intros. simplify_eq. set_solver.
Qed.

Lemma elem_of_parents z sid t d p :
  p ∈ activeParentDelegations z sid t d <->
  exists k e, p = parent_edge d (k, e) /\ d.(delegation_edges) !! k = Some e /\ e.(Edge.zone_id) = z
    /\ e.(Edge.target_session_id) = sid /\ edge_live t e = true.
Proof.
  unfold activeParentDelegations. rewrite list_elem_of_fmap. unfold inbound. split.
  - intros ([k e] & -> & [Hk Hb]%elem_of_select). bool_props. eauto 10.
  - intros (k & e & -> & Hk & Hz & Ht & Hl). exists (k, e). split; [done|]. apply elem_of_select. split; [done|].
    by rewrite !bool_decide_eq_true_2.
Qed.

(** The resource of the normalised body is one of the items; a listed resource
    reference is among the listed ones. *)
Lemma normalize_resource z b c d items :
  resources_wf d.(resources) ->
  resolveResourceAuthority z b.(Body.resource_id) (resource_list c) d = inr items ->
  (b.(Body.resource_id) = None -> (normalize_body b items).(Body.resource_id) = None)
  /\ (forall x, (normalize_body b items).(Body.resource_id) = Some x ->
       exists a, a ∈ items /\ a.(ra_id) = x /\ (resource_list c <> [] -> a.(ra_identifier) ∈ resource_list c)).
Proof.
  intros Hwf Hres. destruct (resolve_ok _ _ _ _ _ Hres) as (Hok & _ & Hx & _). rewrite Forall_forall in Hok.
  unfold normalize_body. destruct b.(Body.resource_id) as [rid|] eqn:Hrid; [|by rewrite Hrid].
  split; [done|]. intros x Hn. destruct (Hx rid eq_refl) as (a & Ha & Hna & Hb).
  destruct (find_first (names_resource rid) items) as [a'|] eqn:Hf.
  - cbn in Hn. simplify_eq. apply find_first_Some in Hf as [Ha' Hna']. exists a'. split_and!; [done|done|].
    intros Hne. destruct (Hb Hne) as (b' & Hb' & Hnb & Hin).
    destruct (Hok a' Ha') as (r & Hr & Hl & Hi & _), (Hok b' Hb') as (r' & Hr' & Hl' & Hi' & _).
    unfold names_resource in *. rewrite orb_true_iff, !bool_decide_eq_true in *.
    assert (a'.(ra_id) = b'.(ra_id)) as Heq.
    { apply (Hwf z rid _ r _ r'); rewrite ?Hi, ?Hi'; done. }
    rewrite Heq in Hr. simplify_eq. congruence.
  - rewrite (find_first_None _ _ Hf a Ha) in Hna. done.
Qed.

Lemma new_edge_constraints t z b c parent x :
  constraints_valid c -> edge_constraints (new_edge t z b c parent x) = Some c.
Proof. intros Hc. unfold edge_constraints. cbn [Edge.constraints_json new_edge]. by rewrite (constraints_roundtrip c Hc). Qed.

(** The resource part of narrowing. *)
Lemma resources_narrow z b c d items t k pe pc x parent :
  resources_wf d.(resources) -> constraints_valid c ->
  resolveResourceAuthority z b.(Body.resource_id) (resource_list c) d = inr items ->
  edge_constraints pe = Some pc -> resource_consistent d.(resources) pe ->
  resourcesNarrowParent (parent_edge d (k, pe)) pc (normalize_body b items).(Body.resource_id) items = true ->
  forall rid r, d.(resources) !! rid = Some r -> resource_live z r = true ->
    edge_admits rid r (new_edge t z (normalize_body b items) c parent x) -> edge_admits rid r pe.
Proof.
  intros Hwf Hcv Hres Hpc Hcons Hnar rid r Hr Hl [Hrid (c' & Hc' & Hlist)].
  rewrite (new_edge_constraints _ _ _ _ _ _ Hcv) in Hc'. simplify_eq. cbn in Hrid.
  destruct (resolve_ok _ _ _ _ _ Hres) as (Hok & Hall & _ & Hempty). rewrite Forall_forall in Hok.
  destruct (normalize_resource _ _ _ _ _ Hwf Hres) as [Hnone Hsome].
  (* the admitted resource is among the items, unless there are none *)
  assert (items = [] \/ resource_authority (rid, r) ∈ items) as Hitem.
  { destruct Hrid as [Hrid|Hrid].
    - destruct Hlist as [Hnil|Hin]; [|right; by apply Hall]. left. apply Hempty; [|done].
      destruct (b.(Body.resource_id)) as [y|] eqn:Hy; [|done].
      unfold normalize_body in Hrid. rewrite Hy in Hrid. destruct (find_first _ _); [done|congruence].
    - right. destruct (Hsome rid Hrid) as (a & Ha & Hai & _). destruct (Hok a Ha) as (r' & Hr' & _ & Hi & Hs).
      rewrite Hai in Hr'. simplify_eq. destruct a. cbn in *. by subst. }
  unfold resourcesNarrowParent in Hnar. cbn [parent_edge pe_resource_id fst snd] in Hnar. unfold edge_admits.
  destruct pe.(Edge.resource_id) as [pr|] eqn:Hpr.
  - assert (rid = pr) as ->.
    { destruct (bool_decide ((normalize_body b items).(Body.resource_id) = Some pr)) eqn:Heq; bool_props.
      - destruct Hrid as [Hrid|Hrid]; rewrite Hrid in Heq; [done|congruence].
      - destruct Hitem as [->|Hin]; [done|].
        match goal with Hf : forallb _ _ = true |- _ => rewrite forallb_forall in Hf; apply list_elem_of_In in Hin; specialize (Hf _ Hin) end.
        by bool_props. }
    split; [by right|]. exists pc. split; [done|].
    destruct (decide (resource_list pc = [])) as [|Hne]; [by left|right].
    destruct (Hcons pr pc Hpr Hpc Hne) as (r' & Hr' & Hin). by simplify_eq.
  - split; [by left|]. exists pc. split; [done|]. fold (resource_list pc) in Hnar.
    destruct (decide (resource_list pc = [])) as [|Hne]; [by left|right].
    rewrite bool_decide_eq_false_2 in Hnar by done. cbn [negb] in Hnar. bool_props. destruct Hitem as [->|Hin]; [done|].
    match goal with Hf : forallb _ _ = true |- _ => rewrite forallb_forall in Hf; apply list_elem_of_In in Hin; specialize (Hf _ Hin) end.
    by bool_props.
Qed.

(** Adding one edge. *)
Lemma edge_inv_insert t rs ss (es : EdgeTable) eid row :
  edge_inv t rs ss es -> es !! eid = None ->
  (forall pid, row.(Edge.parent_edge_id) = Some pid -> exists pe, es !! pid = Some pe /\ narrows rs row pe) ->
  (exists c, edge_constraints row = Some c /\ 1 <= hops c <= MAX_DEPTH) ->
  resource_consistent rs row -> endpoints_ok ss row ->
  (forall z, acyclic_upto (S (Z.to_nat MAX_DEPTH)) (edge_live t) z (<[eid := row]> es)) ->
  edge_inv t rs ss (<[eid := row]> es).
Proof.
  intros [Hp Hc Hr He Ha] Hfresh Hrp Hrc Hrr Hre Hac. split; [| | | |done].
  - intros k e pid Hk Hpar. assert (exists pe, es !! pid = Some pe /\ narrows rs e pe) as (pe & Hpe & Hn).
    { apply lookup_insert_Some in Hk as [[<- <-]|[_ Hk]]; eauto. }
    exists pe. split; [|done]. rewrite lookup_insert_ne; [done|congruence].
  - intros k e [[<- <-]|[_ Hk]]%lookup_insert_Some; eauto.
  - intros k e [[<- <-]|[_ Hk]]%lookup_insert_Some; eauto.
  - intros k e [[<- <-]|[_ Hk]]%lookup_insert_Some; eauto.
Qed.

Lemma hops_valid c : constraints_valid c -> 1 <= hops c <= MAX_DEPTH.
Proof.
  intros Hv. unfold hops. destruct c.(Constraints.max_hops) as [n|] eqn:E; cbn; [by apply (cv_max_hops _ Hv)|unfold MAX_DEPTH; lia].
Qed.

Lemma endpoint_row t z id d s :
  activeSessionEndpoint t z id d = Some s -> d.(sessions) !! id = Some s /\ s.(Session.zone_id) = z /\ is_active s = true.
Proof.
  unfold activeSessionEndpoint. destruct (d.(sessions) !! id) as [s'|]; [|done].
  destruct (endpoint_live t z s') eqn:El; [|done]. intros. simplify_eq. unfold endpoint_live, in_zone in El. by bool_props.
Qed.

Lemma is_active_live s : is_active s = true -> is_live s = true.
Proof. unfold is_active, is_live. intros Ha. bool_props. by rewrite Ha. Qed.

(** The new edge narrows the chosen parent. *)
Lemma created_narrows t z b c d items req p k pe :
  resources_wf d.(resources) -> constraints_valid c ->
  resolveResourceAuthority z b.(Body.resource_id) (resource_list c) d = inr items ->
  p = parent_edge d (k, pe) -> pe.(Edge.zone_id) = z -> pe.(Edge.target_session_id) = b.(Body.source_session_id) ->
  resource_consistent d.(resources) pe ->
  parentAllowsDelegation p (normalize_body b items) c items req = true ->
  forall x pid, x <= pe.(Edge.expires_at) ->
  narrows d.(resources) (new_edge t z (normalize_body b items) c pid x) pe.
Proof.
  intros Hwf Hcv Hres -> Hz Htgt Hcons Hall x pid Hx. unfold parentAllowsDelegation in Hall.
  cbn [parent_edge pe_constraints_json pe_scopes fst snd] in Hall.
  assert (exists pc, edge_constraints pe = Some pc /\ normalizedConstraints pe.(Edge.constraints_json) JUndefined None = inr pc)
    as (pc & Hpc & Hn).
  { unfold edge_constraints. destruct (normalizedConstraints pe.(Edge.constraints_json) JUndefined None); [done|eauto]. }
  rewrite Hn in Hall. destruct (normalize_body_fields b items) as (Es & _ & _ & _ & Esc & _).
  bool_props. match goal with Hs : scopesAllowed _ _ = true |- _ => apply scopesAllowed_spec in Hs; rename Hs into Hsc end.
  split; cbn [new_edge Edge.zone_id Edge.source_session_id Edge.scopes Edge.expires_at].
  - done.
  - congruence.
  - done.
  - done.
  - intros rid r. by eapply resources_narrow.
  - exists c, pc. split_and!; [by apply new_edge_constraints|done| | |].
    + left. unfold hops. lia.
    + intros n Hn'. rewrite Hn' in *. destruct c.(Constraints.ttl_seconds) as [m|]; [|done]. exists m. split; [done|lia].
    + intros n Hn'. rewrite Hn' in *. left. lia.
Qed.

Lemma created_edge_inv z b c req ttl eid row t d d' :
  resources_wf d.(resources) -> constraints_valid c ->
  b.(Body.source_session_id) <> b.(Body.target_session_id) ->
  edge_inv t d.(resources) d.(sessions) d.(delegation_edges) ->
  create_effect z b c req ttl eid row t d d' ->
  edge_inv t d'.(resources) d'.(sessions) d'.(delegation_edges).
Proof.
  intros Hwf Hcv Hne Hinv [(s & Hs & Hsa) (tg & Htg & Hta) (items & parent & Hres & Hsc & Hch & Hall & Hrow & Hexp) Hcyc Hfresh Hedges _ _ Hsess (_ & _ & Hrs & _)].
  destruct (normalize_body_fields b items) as (Es & Et & Ei & Er & Esc & Ep).
  rewrite Hrs, Hsess, Hedges. subst row. apply edge_inv_insert; [done|done| | | | |].
  - intros pid Hpid. cbn in Hpid. destruct parent as [p|]; [|done]. cbn in Hpid. simplify_eq.
    apply choose_parent_Some, elem_of_parents in Hch as (k & pe & -> & Hk & Hz & Ht & Hl).
    cbn [pe_id parent_edge fst] in *. exists pe. split; [done|].
    unfold expiry_allowed in Hexp. cbn in Hexp. rewrite Hk in Hexp. bool_props.
    eapply created_narrows; try done; [by eapply ei_resource|by apply Hall].
  - exists c. split; [by apply new_edge_constraints|by apply hops_valid].
  - intros rid c' Hrid Hc' Hnil. rewrite (new_edge_constraints _ _ _ _ _ _ Hcv) in Hc'. simplify_eq. cbn in Hrid.
    destruct (normalize_resource _ _ _ _ _ Hwf Hres) as [_ Hsome]. destruct (Hsome rid Hrid) as (a & Ha & <- & Hin).
    destruct (resolve_ok _ _ _ _ _ Hres) as (Hok & _). rewrite Forall_forall in Hok.
    destruct (Hok a Ha) as (r & Hr & _ & Hi & _). exists r. split; [done|]. rewrite Hi. auto.
  - destruct (endpoint_row _ _ _ _ _ Hs) as (Hs' & Hsz & Hsl), (endpoint_row _ _ _ _ _ Htg) as (Ht' & Htz & Htl).
    split; cbn; rewrite Es, Et; [done|]. exists s, tg. rewrite Ei, Er.
    split_and!; try done. intros _. split; by apply is_active_live.
  - intros z'. destruct (decide (z' = z)) as [->|Hz].
    + eapply acyclic_insert; [apply Hinv|done|done|done|done|done].
    + eapply acyclic_mono; [|apply Hinv]. intros k e Hk Hz' Hl. exists e.
      apply lookup_insert_Some in Hk as [[<- <-]|[_ Hk]]; [|done]. cbn in Hz'. congruence.
Qed.

(** ** Starting a Session *)

Lemma endpoints_started ss id row e :
  ss !! id = None -> endpoints_ok ss e -> endpoints_ok (started_sessions id row ss) e.
Proof.
  intros Hid (Hne & s & tg & Hs & Ht & Hrest). split; [done|].
  destruct (lookup_started_old id row _ _ _ Hid Hs) as (s' & Hs' & Hc), (lookup_started_old id row _ _ _ Hid Ht) as (tg' & Ht' & Hc').
  exists s', tg'. destruct Hc as [->| ->], Hc' as [->| ->]; done.
Qed.

(** An edge into a Session without outgoing edges closes no cycle. *)
Lemma acyclic_insert_leaf n t z (es : EdgeTable) eid row :
  acyclic_upto n (edge_live t) z es ->
  (forall k e, es !! k = Some e -> e.(Edge.source_session_id) <> row.(Edge.target_session_id)) ->
  row.(Edge.source_session_id) <> row.(Edge.target_session_id) ->
  acyclic_upto n (edge_live t) z (<[eid := row]> es).
Proof.
  intros Hac Hout Hne x l Hl Hlen Hw.
  assert (forall m y, walk (edge_live t) z (<[eid := row]> es) row.(Edge.target_session_id) m y ->
    m = [] /\ y = row.(Edge.target_session_id)) as Hleaf.
  { intros m y. destruct m as [|e m]; cbn; [by intros <-|]. intros (r & Hr & _ & _ & Hs & _).
    apply lookup_insert_Some in Hr as [[<- <-]|[_ Hr]]; [done|]. by destruct (Hout e r Hr). }
  destruct (decide (eid ∈ l)) as [Hin|Hin].
  - apply list_elem_of_split in Hin as (l1 & l2 & ->). apply walk_app in Hw as (m & Hw1 & Hw2). cbn in Hw2.
    destruct Hw2 as (r & Hr & _ & _ & <- & Hw2). rewrite lookup_insert_eq in Hr. simplify_eq.
    destruct (Hleaf _ _ Hw2) as [-> ->]. destruct (Hleaf _ _ Hw1) as [_ ?]. done.
  - apply (Hac x l Hl Hlen). eapply walk_mono; [|exact Hw]. intros e r He Hr Hz Hp.
    rewrite lookup_insert_ne in Hr by set_solver. by exists r.
Qed.

Lemma mirror_narrows rs t z p id app peid pe :
  pe.(Edge.zone_id) = z -> pe.(Edge.target_session_id) = p -> is_Some (edge_constraints pe) ->
  narrows rs (mirror_edge t z p id app peid pe) pe.
Proof.
  intros Hz Ht [c Hc]. split; cbn; [done|done|done|done|done|]. exists c, c.
  split_and!; [done|done|by right| |by right]. intros n Hn. by exists n.
Qed.

Lemma started_edge_inv z b id row t d d' :
  edge_inv t d.(resources) d.(sessions) d.(delegation_edges) ->
  start_effect z b id row t d d' ->
  edge_inv t d'.(resources) d'.(sessions) d'.(delegation_edges).
Proof.
  intros Hinv [Ez Ea Ep Est Esa Ech Efl Elive Eauth Ezc Eac Efr Epar Es Eed (_ & _ & Hrs & _)]. rewrite Hrs, Es.
  assert (edge_inv t d.(resources) (started_sessions id row d.(sessions)) d.(delegation_edges)) as Hinv'.
  { eapply edge_inv_sessions; [|done]. intros k e _. by apply endpoints_started. }
  destruct Eed as [->|(p & eid & peid & pe & Hp & _ & Hfresh & Hpid & Hpe & Hl & Hz & Ht & Hr & ->)]; [done|].
  assert (endpoints_ok d.(sessions) pe) as (_ & ps & pt & Hps & Hpt & Hzs & Hzt & Has & Hat & Hlive) by by eapply ei_endpoints.
  assert (is_live pt = true) as Hptl.
  { unfold edge_live in Hl. bool_props. by apply Hlive. }
  destruct (ei_constraints _ _ _ _ Hinv peid pe Hpe) as (pc & Hpc & Hhops).
  apply edge_inv_insert; [done|done| |by exists pc| | |].
  - cbn. intros ? [= <-]. exists pe. split; [done|]. apply mirror_narrows; [done|done|by exists pc].
  - exact (ei_resource _ _ _ _ Hinv peid pe Hpe).
  - split; cbn; [done|]. rewrite Ht in Hpt.
    destruct (lookup_started_old id row _ _ _ Efr Hpt) as (p' & Hp' & Hcp).
    destruct (lookup_started_new id row _ Efr) as (c' & Hc' & Hcc).
    exists p', c'. split_and!; try done.
    + destruct Hcp as [->| ->]; cbn; congruence.
    + destruct Hcc as [->| ->]; cbn; congruence.
    + destruct Hcp as [->| ->]; cbn; congruence.
    + destruct Hcc as [->| ->]; cbn; congruence.
    + intros _. split; [by destruct Hcp as [->| ->]|]. unfold is_live. destruct Hcc as [->| ->]; cbn; by rewrite Est.
  - intros z'. apply acyclic_insert_leaf; [apply Hinv| |done]. cbn. intros k e Hk.
    destruct (ei_endpoints _ _ _ _ Hinv k e Hk) as (_ & s & _ & Hs & _). congruence.
Qed.

(** ** Terminating *)

Lemma revoke_weaker t e : edge_weaker e (revoke_edge t e).
Proof. split; [done|]. split; [done|by left]. Qed.

Lemma edge_weaker_refl e : edge_weaker e e.
Proof. split; [done|]. split; [done|by left]. Qed.

Lemma below_dec p z roots d k : session_inv d.(sessions) -> below p z roots d k \/ ~ below p z roots d k.
Proof.
  intros Hinv. destruct (session_tree_terminates p z roots d Hinv) as [tree Htree].
  destruct (decide (k ∈ tree)) as [Hk|Hk]; rewrite (elem_of_session_tree _ _ _ _ _ k Htree) in Hk; auto.
Qed.

Lemma touches_dec z (P : string -> Prop) e : (forall k, P k \/ ~ P k) -> touches z P e \/ ~ touches z P e.
Proof.
  intros HP. unfold touches. destruct (decide (e.(Edge.zone_id) = z)), (decide (e.(Edge.status) = RActive)); try tauto.
  destruct (HP e.(Edge.source_session_id)), (HP e.(Edge.target_session_id)); tauto.
Qed.

(** Every edge after a terminate, against the edge before. *)
Lemma terminate_edge_cases t z roots reason rs d d' k e :
  session_inv d.(sessions) -> terminate_effect t z roots reason rs d d' -> d.(delegation_edges) !! k = Some e ->
  (touches z (below is_live z roots d) e /\ d'.(delegation_edges) !! k = Some (revoke_edge t e))
  \/ (~ touches z (below is_live z roots d) e /\ d'.(delegation_edges) !! k = Some e).
Proof.
  intros Hinv Heff He. destruct (touches_dec z (below is_live z roots d) e) as [Ht|Ht].
  - intros x. by apply below_dec.
  - left. split; [done|]. by eapply te_revoked.
  - right. split; [done|]. by eapply te_edges.
Qed.

Lemma terminate_edge_inv t z roots reason rs d d' :
  terminate_effect t z roots reason rs d d' ->
  edge_inv t d.(resources) d.(sessions) d.(delegation_edges) ->
  session_inv d.(sessions) ->
  edge_inv t d'.(resources) d'.(sessions) d'.(delegation_edges).
Proof.
  intros Heff Hinv Hsinv. destruct (te_others _ _ _ _ _ _ _ Heff) as (_ & _ & Hrs & _). rewrite Hrs.
  assert (forall k e', d'.(delegation_edges) !! k = Some e' -> exists e, d.(delegation_edges) !! k = Some e
    /\ (~ touches z (below is_live z roots d) e /\ e' = e \/ e' = revoke_edge t e)) as Hes.
  { intros k e' Hk. destruct (d.(delegation_edges) !! k) as [e|] eqn:He.
    2: { rewrite (te_no_edges _ _ _ _ _ _ _ Heff k He) in Hk. done. }
    exists e. split; [done|].
    destruct (terminate_edge_cases _ _ _ _ _ _ _ _ _ Hsinv Heff He) as [[? Hk']|[? Hk']];
      rewrite Hk in Hk'; simplify_eq; auto. }
  assert (edge_inv t d.(resources) d.(sessions) d'.(delegation_edges)) as Hinv1.
  { eapply edge_inv_weaken; [done| |done]. intros k e' Hk. destruct (Hes k e' Hk) as (e & He & Hor). exists e.
    assert (edge_weaker e e') as Hw by (destruct Hor as [[_ ->]| ->]; [apply edge_weaker_refl|apply revoke_weaker]).
    split_and!; [done|done|]. intros pid Hpid.
    assert (e.(Edge.parent_edge_id) = Some pid) as Hp by (destruct Hor as [[_ ->]| ->]; done).
    destruct (ei_parent _ _ _ _ Hinv k e pid He Hp) as (pe & Hpe & _).
    destruct (terminate_edge_cases _ _ _ _ _ _ _ _ _ Hsinv Heff Hpe) as [[_ ?]|[_ ?]]; by eexists. }
  eapply edge_inv_sessions; [|done]. intros k e' Hk (Hne & s & tg & Hs & Ht & Hzs & Hzt & Has & Hat & Hlive).
  assert (forall x y, d.(sessions) !! x = Some y -> exists y', d'.(sessions) !! x = Some y'
    /\ y'.(Session.zone_id) = y.(Session.zone_id) /\ y'.(Session.application_id) = y.(Session.application_id)
    /\ (is_live y' = is_live y \/ below is_live z roots d x)) as Hss.
  { intros x y Hx. destruct (below_dec is_live z roots d x Hsinv) as [Hb|Hb].
    - exists (terminate_row t roots reason rs x y). split_and!; [by eapply te_closed|done|done|by right].
    - destruct (te_kept _ _ _ _ _ _ _ Heff x y Hb Hx) as (n & u & ->). eexists. split_and!; [done|done|done|by left]. }
  destruct (Hss _ _ Hs) as (s' & Hs' & Hsz & Hsa & Hsl), (Hss _ _ Ht) as (tg' & Ht' & Htz & Hta & Htl).
  split; [done|]. exists s', tg'. split_and!; try congruence. intros Hact. destruct (Hlive Hact) as [Hl1 Hl2].
  destruct (Hes k e' Hk) as (e & He & [[Hnt ->]| ->]); [|done].
  assert (~ below is_live z roots d e.(Edge.source_session_id) /\ ~ below is_live z roots d e.(Edge.target_session_id)) as [Hb1 Hb2].
  { split; intros Hb; apply Hnt; (split; [|split; [done|auto]]).
    - destruct (below_row _ _ _ _ _ Hb) as (? & ? & ? & _). congruence.
    - destruct (below_row _ _ _ _ _ Hb) as (? & ? & ? & _). congruence. }
  destruct Hsl as [->|?]; [|done]. destruct Htl as [->|?]; [|done]. done.
Qed.

(** ** Suspending and resuming *)

Lemma subtree_edge_inv t p f z roots d d' :
  (forall s, p s = true -> is_live (f s) = is_live s /\ (f s).(Session.zone_id) = s.(Session.zone_id)
     /\ (f s).(Session.application_id) = s.(Session.application_id)) ->
  subtree_effect p f z roots d d' -> session_inv d.(sessions) ->
  edge_inv t d.(resources) d.(sessions) d.(delegation_edges) ->
  edge_inv t d'.(resources) d'.(sessions) d'.(delegation_edges).
Proof.
  intros Hf [Hch Hk Hdb] Hsinv Hinv.
  assert (d'.(resources) = d.(resources) /\ d'.(delegation_edges) = d.(delegation_edges)) as [-> ->] by by rewrite Hdb.
  eapply edge_inv_sessions; [|done]. intros k e _ (Hne & s & tg & Hs & Ht & Hrest).
  assert (forall x y, d.(sessions) !! x = Some y -> exists y', d'.(sessions) !! x = Some y'
    /\ y'.(Session.zone_id) = y.(Session.zone_id) /\ y'.(Session.application_id) = y.(Session.application_id)
    /\ is_live y' = is_live y) as Hss.
  { intros x y Hx. destruct (below_dec p z roots d x Hsinv) as [Hb|Hb].
    - exists (f y). destruct (below_row _ _ _ _ _ Hb) as (y' & Hy' & _ & Hp). simplify_eq. destruct (Hf y Hp) as (? & ? & ?).
      split_and!; auto.
    - exists y. by rewrite Hk. }
  destruct (Hss _ _ Hs) as (s' & Hs' & Hsz & Hsa & Hsl), (Hss _ _ Ht) as (tg' & Ht' & Htz & Hta & Htl).
  split; [done|]. exists s', tg'. rewrite Hsz, Hsa, Hsl, Htz, Hta, Htl. done.
Qed.
End inv.
