(* ===== verification/RevokeFacts.v ===== *)
(** * Revoking a delegation

    [PATCH /zones/:zoneId/delegations/:id/revoke] of
    [apps/coordinator/src/routes/delegations.ts]: which edges fall, which Sessions
    fall with them, and that the graph's invariant survives. *)

From S2P Require Import Prelude.
From S2P Require Import Json.
From S2P Require Import Schema.
From S2P Require Import Store.
From S2P Require Import Scope.
From S2P Require Import Auth.
From S2P Require Import Outbox.
From S2P Require Import Idempotency.
From S2P Require Import Sessions.
From S2P Require Import SessionFacts.
From S2P Require Import SessionProps.
From S2P Require Import Delegations.
From S2P Require Import ConstraintFacts.
From S2P Require Import DelegationFacts.
From S2P Require Import EdgeInv.
Local Open Scope string_scope.
Local Open Scope Z_scope.
Local Open Scope list_scope.

Definition edge_active (e : Edge.EdgeRow) : bool := bool_decide (e.(Edge.status) = RActive).

(** [k] is reached from edge [id] by a walk of at most [MAX_DEPTH] active edges that
    starts with [id]. *)
Definition downstream (z : string) (es : EdgeTable) (id k : string) : Prop :=
  exists x l y, walk edge_active z es x l y /\ head l = Some id /\ last l = Some k
                /\ (length l <= Z.to_nat MAX_DEPTH)%nat.

Lemma elem_of_edge_self p z id d k :
  k ∈ edge_self p z id d <-> k = id /\ exists r, d.(delegation_edges) !! k = Some r /\ r.(Edge.zone_id) = z /\ p r = true.
Proof.
  unfold edge_self. rewrite elem_of_select_keys. split.
  - intros (r & Hr & Hb). bool_props. eauto.
  - intros (-> & r & Hr & Hz & Hp). exists r. rewrite Hp, !bool_decide_eq_true_2 by done. done.
Qed.

Lemma affected_edges_total z id d : is_Some (affected_edges z id d).
Proof.
  unfold affected_edges.
  destruct (edge_paths_total (fun e => bool_decide (e.(Edge.status) = RActive)) z d
    (edge_self (fun e => bool_decide (e.(Edge.status) = RActive)) z id d)) as [? ->]. by eexists.
Qed.

Lemma elem_of_affected z id d A k :
  affected_edges z id d = Some A -> k ∈ A <-> downstream z d.(delegation_edges) id k.
Proof.
  unfold affected_edges. fold edge_active. intros (paths & Hp & ->)%fmap_Some. rewrite elem_of_distinct, list_elem_of_bind.
  split.
  - intros (v & Hk & Hv). destruct (head v) as [e|] eqn:Hh; [|set_solver]. apply list_elem_of_singleton in Hk as ->.
    destruct (edge_paths_sound _ _ _ _ _ _ Hp Hv) as (x & y & k & Hk & Hw & _ & _ & Hlast & Hlen).
    { intros k [_ Hr]%elem_of_edge_self. done. }
    apply elem_of_edge_self in Hk as [-> _]. exists x, (reverse v), y. rewrite length_reverse. split_and!; [done| | |done].
    + apply last_Some in Hlast as [v' ->]. by rewrite reverse_snoc.
    + destruct v as [|a v]; [done|]. cbn in Hh. simplify_eq. by rewrite reverse_cons, last_snoc.
  - intros (x & l & y & Hw & Hh & Hl & Hlen).
    destruct (walk_simple _ _ _ _ _ _ Hw) as (l' & Hw' & Hnd & Hlen' & _ & Hh' & Hl').
    assert (exists r, d.(delegation_edges) !! id = Some r /\ r.(Edge.zone_id) = z /\ edge_active r = true) as (r & Hr & Hz & Ha).
    { destruct l as [|a l]; [done|]. cbn in Hh. simplify_eq. cbn in Hw. destruct Hw as (r & ? & ? & ? & _). eauto. }
    exists (reverse l'). split.
    + rewrite <-Hl' in Hl. apply last_Some in Hl as [l0 ->]. rewrite reverse_snoc. cbn. set_solver.
    + eapply edge_paths_complete; [exact Hp|exact Hw'|by rewrite Hh'| |done|lia].
      apply elem_of_edge_self. eauto.
Qed.

(** The live Sessions of the zone that hold a downstream edge. *)
Definition revoked_target (z id : string) (d : Db) (k : string) : Prop :=
  exists eid e s, downstream z d.(delegation_edges) id eid /\ d.(delegation_edges) !! eid = Some e
    /\ e.(Edge.target_session_id) = k /\ d.(sessions) !! k = Some s /\ s.(Session.zone_id) = z /\ is_live s = true.

(** The edges once the downstream ones are revoked. *)
Definition downstream_revoked (t : Z) (z id : string) (d d1 : Db) : Prop :=
  (forall k e, downstream z d.(delegation_edges) id k -> d.(delegation_edges) !! k = Some e ->
     d1.(delegation_edges) !! k = Some (revoke_edge t e))
  /\ (forall k, ~ downstream z d.(delegation_edges) id k -> d1.(delegation_edges) !! k = d.(delegation_edges) !! k)
  /\ d1 = set_delegation_edges d1.(delegation_edges) d.

(** What revoking edge [id] does: the downstream edges are revoked, then the
    Sessions that held them are terminated with their subtrees. *)
Record revoke_effect (t : Z) (z id : string) (d d' : Db) : Prop := {
  re_terminates : exists d1 d2 roots, downstream_revoked t z id d d1
    /\ (forall k, k ∈ roots <-> revoked_target z id d k)
    /\ terminate_effect t z roots "delegation_revoked" Terminated d1 d2
    /\ d'.(sessions) = d2.(sessions) /\ d'.(delegation_edges) = d2.(delegation_edges)
    /\ (forall k r, d2.(caracal_outbox) !! k = Some r -> d'.(caracal_outbox) !! k = Some r)
    /\ d'.(resources) = d2.(resources) /\ d'.(applications) = d2.(applications)
    /\ d'.(authority_records) = d2.(authority_records)
    /\ d'.(agent_services) = d2.(agent_services) /\ d'.(agent_invocations) = d2.(agent_invocations);
  re_event : is_Some (d'.(caracal_outbox) !! outbox_at DelegationsInvalidate ("edge_revoke:" +:+ id));
  re_subjects : forall k s, revoked_target z id d k -> d.(sessions) !! k = Some s ->
    is_Some (d'.(caracal_outbox) !! outbox_at SessionsRevoke
      ("delegation:" +:+ id +:+ ":subject:" +:+ s.(Session.subject_authority_record_id)))
}.

Lemma first_per_record_covers seen rows k s :
  (k, s) ∈ rows -> s.(Session.subject_authority_record_id) ∈ seen
  \/ exists k' s', (k', s') ∈ first_per_record seen rows
       /\ s'.(Session.subject_authority_record_id) = s.(Session.subject_authority_record_id).
Proof.
  revert seen. induction rows as [|[k0 s0] rows IH]; intros seen; cbn; [set_solver|].
  intros [[= <- <-]|Hin]%elem_of_cons.
  - case_bool_decide; [by left|]. right. exists k, s. split; [set_solver|done].
  - case_bool_decide as Hseen; [auto|]. destruct (IH (s0.(Session.subject_authority_record_id) :: seen) Hin) as [Hs|(k' & s' & Hin' & Heq)].
    + apply elem_of_cons in Hs as [Heq|]; [|by left]. right. exists k0, s0. split; [set_solver|done].
    + right. exists k', s'. split; [set_solver|done].
Qed.

(** Terminating nothing changes nothing. *)
Lemma terminate_effect_nil t z reason rs d : terminate_effect t z [] reason rs d d.
Proof.
  assert (forall k, ~ below is_live z [] d k) as Hno by (intros k (r & s & Hr & _); set_solver).
  assert (forall e, ~ touches z (below is_live z [] d) e) as Hnt.
  { intros e (_ & _ & [Hb|Hb]); by apply Hno in Hb. }
  split; try done; try (by intros ?? Hb; apply Hno in Hb); try (by intros ??? Hb; apply Hnt in Hb).
  - intros k s _ Hs. exists s.(Session.child_count), s.(Session.updated_at). rewrite Hs. by destruct s.
  - intros k Hb. by apply Hno in Hb.
Qed.

Section revoke_wp.
Context `{Env}.

(** What the revoke route answers and does, once its parameters are accepted. *)
Definition revoke_outcome (req : option CaracalAuth) (z id : string) (w w' : World) (r : reply) : Prop :=
  match w.(db).(delegation_edges) !! id with
  | Some e =>
      if negb (bool_decide (e.(Edge.zone_id) = z))
      then r = error_reply 404 "delegation_not_found" /\ w'.(db) = w.(db)
      else if negb (ownsApplication req e.(Edge.issuer_application_id)
                    || requireScope req ("coordinator.delegate_from:" +:+ e.(Edge.issuer_application_id))
                    || requireScope req "coordinator.admin")
      then r = error_reply 403 "issuer_ownership_required" /\ w'.(db) = w.(db)
      else if edge_active e
      then r.(code) = 200 /\ revoke_effect w.(now) z id w.(db) w'.(db)
      else r = error_reply 404 "delegation_not_found" /\ w'.(db) = w.(db)
  | None => r = error_reply 404 "delegation_not_found" /\ w'.(db) = w.(db)
  end.

Lemma downstream_self z es id e :
  es !! id = Some e -> e.(Edge.zone_id) = z -> edge_active e = true -> downstream z es id id.
Proof.
  intros He Hz Ha. exists e.(Edge.source_session_id), [id], e.(Edge.target_session_id).
  split_and!; [cbn; eauto 10|done|done|unfold MAX_DEPTH; cbn; lia].
Qed.

Lemma downstream_root z es id k : downstream z es id k ->
  exists e, es !! id = Some e /\ e.(Edge.zone_id) = z /\ edge_active e = true.
Proof.
  intros (x & l & y & Hw & Hh & _ & _). destruct l as [|a l]; [done|]. cbn in Hh. simplify_eq.
  cbn in Hw. destruct Hw as (r & ? & ? & ? & _). eauto.
Qed.

Lemma revoke_tx_spec req z id w :
  session_inv w.(db).(sessions) ->
  exists r, (run_tx (revoke_tx req z id) w).1 = inl r /\ revoke_outcome req z id w (run_tx (revoke_tx req z id) w).2 r.
Proof.
  intros Hinv. apply run_tx_wp with (P := fun o w' => exists r, o = inl r /\ revoke_outcome req z id w w' r).
  unfold revoke_tx, revoke_outcome. wp_step. apply wp_lock. wp_step. apply wp_query. cbn [db set_locks].
  destruct (w.(db).(delegation_edges) !! id) as [e|] eqn:He; [|wp_steps; eexists; done].
  case_bool_decide as Hz; cbn [negb]; [|wp_steps; eexists; done].
  wp_step. apply wp_ensure; [intros ->|intros ->; eexists; done]. cbn [negb].
  wp_step. apply wp_query_opt.
  2: { intros Hn. destruct (affected_edges_total z id w.(db)) as [? Hs].
       change (affected_edges z id w.(db) = None) in Hn. congruence. }
  intros A HA. cbn [db set_locks now] in HA.
  assert (forall k, k ∈ A <-> downstream z w.(db).(delegation_edges) id k) as HAk by (intros k; by apply elem_of_affected).
  wp_step. apply wp_query. wp_step. apply wp_exec. cbn [db set_db set_locks now].
  set (revoked := select _ _).
  assert (forall k e', (k, e') ∈ revoked <-> w.(db).(delegation_edges) !! k = Some e' /\ k ∈ A) as Hrev.
  { intros k e'. unfold revoked. by rewrite elem_of_select, bool_decide_eq_true. }
  wp_step. apply wp_ensure.
  2: { intros Hn%negb_false_iff. bool_props. eexists. split; [done|]. destruct (edge_active e) eqn:Ha; [|done].
       assert ((id, e) ∈ revoked) as Hin by (apply Hrev; split; [done|]; apply HAk; by eapply downstream_self).
       rewrite Hn in Hin. set_solver. }
  intros Hne%negb_true_iff. bool_props.
  assert (edge_active e = true) as ->.
  { destruct revoked as [|[k0 e0] l] eqn:Er; [done|]. destruct (proj1 (Hrev k0 e0)) as [_ Hk0%HAk]; [set_solver|].
    apply downstream_root in Hk0 as (? & ? & _ & ?). congruence. }
  cbv zeta. wp_step. apply wp_query. cbn [db set_db set_locks now]. set (targets := select _ _).
  set (d1 := set_delegation_edges _ w.(db)).
  assert (downstream_revoked w.(now) z id w.(db) d1) as Hd1.
  { split_and!; [| |done].
    - intros k e' Hk Hke. unfold d1. cbn. rewrite lookup_update_where, Hke. cbn.
      by rewrite bool_decide_eq_true_2 by by apply HAk.
    - intros k Hk. unfold d1. cbn. rewrite lookup_update_where.
      destruct (w.(db).(delegation_edges) !! k); [|done]. cbn.
      by rewrite bool_decide_eq_false_2 by by rewrite HAk. }
  assert (forall k s, (k, s) ∈ targets <-> w.(db).(sessions) !! k = Some s /\ revoked_target z id w.(db) k) as Htg.
  { intros k s. unfold targets. rewrite elem_of_select. unfold in_zone. split.
    - intros [Hk Hb]. bool_props. split; [done|].
      match goal with Hd : k ∈ distinct _ |- _ => apply elem_of_distinct, list_elem_of_fmap in Hd as ([eid e'] & -> & Hrv) end.
      apply Hrev in Hrv as [He' HA'%HAk]. exists eid, e', s. done.
    - intros [Hk (eid & e' & s' & Hds & He' & Ht & Hs' & Hz' & Hl)]. simplify_eq. split; [done|].
      rewrite Hl, !bool_decide_eq_true_2; [done|done|]. apply elem_of_distinct, list_elem_of_fmap. exists (eid, e').
      split; [done|]. apply Hrev. by rewrite HAk. }
  assert (forall k, k ∈ targets.*1 <-> revoked_target z id w.(db) k) as Hroots.
  { intros k. rewrite list_elem_of_fmap. split.
    - intros ([k' s] & -> & Hin). by apply Htg in Hin as [_ ?].
    - intros Hk. pose proof Hk as (_ & _ & s & _ & _ & _ & Hs & _). exists (k, s). split; [done|]. by apply Htg. }
  wp_step.
  assert (forall n w2, terminate_effect w.(now) z targets.*1 "delegation_revoked" Terminated d1 w2.(db) ->
    wp (epoch ← bumpDelegationEpoch z;
        enqueue DelegationsInvalidate ("edge_revoke:" +:+ id)
          [("event", JStr "edge_revoke"); ("zone_id", JStr z); ("edge_id", JStr id);
           ("affected_edges", JNum (Z.of_nat (length revoked))); ("epoch", JNum epoch)];;
        enqueueMany (revoke_subject_item z id <$> first_per_record [] targets);;
        mret (Commit (MkReply 200 (JObj
          [("revoked_edges", JNum (Z.of_nat (length revoked)));
           ("affected_sessions", JNum (Z.of_nat (length (first_per_record [] targets))));
           ("terminated_sessions", JNum n)]) false)))
      (outcome w (fun o w' => exists r, o = inl r /\ r.(code) = 200 /\ revoke_effect w.(now) z id w.(db) w'.(db)))
      (outcome w (fun o w' => exists r, o = inl r /\ r.(code) = 200 /\ revoke_effect w.(now) z id w.(db) w'.(db))) w2) as Hrest.
  { intros n w2 Heff. wp_step. apply wp_bumpDelegationEpoch. wp_step. apply wp_enqueue. intros w3 (o3 & n3 & -> & Ho3).
    wp_step. apply wp_enqueueMany. intros w4 (o4 & n4 & -> & Ho4). wp_steps. eexists. split; [done|]. split; [done|].
    cbn in Ho3, Ho4. split; cbn.
    - exists d1, w2.(db), targets.*1. split_and!; try done. intros k r Hk. apply Ho4, Ho3, Hk.
    - destruct (proj1 (proj2 Ho3) _ ltac:(left)) as [r Hr]. exists r. by apply (proj1 Ho4).
    - intros k s Hk Hs. destruct (first_per_record_covers [] targets k s) as [?|(k' & s' & Hin & Heq)]; [by apply Htg|set_solver|].
      destruct (proj1 (proj2 Ho4) (revoke_subject_item z id (k', s'))) as [r Hr]; [apply list_elem_of_fmap; eauto|].
      exists r. rewrite <-Heq. exact Hr. }
  apply wp_terminate_effect; [done|by left| |].
  - intros Hnil. apply Hrest. rewrite Hnil. apply terminate_effect_nil.
  - intros n w2 Heff _. by apply Hrest.
Qed.
End revoke_wp.
