(* ===== verification/DelegationProps.v ===== *)
(** * Properties of the delegation routes

    The theorems about [apps/coordinator/src/routes/delegations.ts]: what creation
    commits to, the graph's invariant across every route that touches it, what a
    lineage of edges guarantees, and what a revoke invalidates. *)

From S2P Require Import Prelude.
From S2P Require Import Json.
From S2P Require Import Schema.
From S2P Require Import Store.
From S2P Require Import Scope.
From S2P Require Import Auth.
From S2P Require Import Outbox.
From S2P Require Import Idempotency.
From S2P Require Import Sessions.
From S2P Require Import SessionFacts.
From S2P Require Import SessionProps.
From S2P Require Import Delegations.
From S2P Require Import ConstraintFacts.
From S2P Require Import DelegationFacts.
From S2P Require Import EdgeInv.
From S2P Require Import RevokeFacts.
Local Open Scope string_scope.
Local Open Scope Z_scope.
Local Open Scope list_scope.

(** The governance invariant of the database at time [t]. *)
Definition governed `{Env} (t : Z) (d : Db) : Prop :=
  resources_wf d.(resources) /\ session_inv d.(sessions)
  /\ edge_inv t d.(resources) d.(sessions) d.(delegation_edges).

(** The expiry and the lifetime a body asks for. *)
Definition requested_expiry (b : DelegationBody) (c : DelegationConstraints) : option string :=
  match b.(Body.expires_at) with Some s => Some s | None => c.(Constraints.expires_at) end.

Definition requested_ttl (b : DelegationBody) (c : DelegationConstraints) : option Z :=
  match requested_expiry b c with Some _ => None | None => c.(Constraints.ttl_seconds) end.

(** A delegation that names no resource. *)
Definition unscoped (b : DelegationBody) (c : DelegationConstraints) : Prop := b.(Body.resource_id) = None /\ resource_list c = [].

(** Who may delegate from an application, and without naming a resource. *)
Definition may_delegate (req : Request) (b : DelegationBody) (c : DelegationConstraints) : Prop :=
  let issuer := b.(Body.issuer_application_id) in
  (ownsApplication req.(auth) issuer = true \/ requireScope req.(auth) ("coordinator.delegate_from:" +:+ issuer) = true)
  /\ (unscoped b c -> requireScope req.(auth) "coordinator.admin" = true \/ requireScope req.(auth) "coordinator.delegate_broad" = true
       \/ requireScope req.(auth) ("coordinator.delegate_broad:" +:+ issuer) = true).

(** A committed creation, seen by the client: [c0] are the constraints of the body, [c] those of the
    edge. *)
Definition delegated `{Env} (req : Request) (z : string) (b : DelegationBody) (w w' : World) : Prop :=
  exists c c0 row,
    normalizedConstraints b.(Body.constraints_json) b.(Body.constraints) b.(Body.ttl_seconds) = inr c0
    /\ may_delegate req b c0
    /\ (~ unscoped b c0 /\ c = c0 \/ unscoped b c0 /\ c = mark_broad c0)
    /\ (requested_expiry b c0 <> None \/ requested_ttl b c0 <> None)
    /\ b.(Body.source_session_id) <> b.(Body.target_session_id)
    /\ create_effect z b c (requested_expiry b c0) (requested_ttl b c0) (uuidv7 w.(uuids)) row w.(now) w.(db) w'.(db).

Section props.
Context `{UuidLaws}.

Lemma createDelegation_cases req z body w :
  let '(r, w') := createDelegation req z body w in
  (r.(code) <> 201 /\ w'.(db) = w.(db))
  \/ (r.(replay_header) = true /\ same_core w.(db) w'.(db))
  \/ (r.(code) = 201 /\ r.(replay_header) = false /\ delegated req z body w w').
Proof.
  unfold createDelegation. cbv zeta. destruct (negb _); [by left|]. destruct (negb _); [by left|].
  destruct (normalizedConstraints _ _ _) as [e|c0] eqn:Hn; [by left|].
  fold (requested_expiry body c0). fold (requested_ttl body c0). set (requested := requested_expiry body c0). set (ttl := requested_ttl body c0).
  destruct (bool_decide (requested = None) && bool_decide (ttl = None)) eqn:Hexp; [by left|].
  destruct (negb _ && negb _) eqn:Hown; [by left|]. destruct (bool_decide (body.(Body.source_session_id) = _)) eqn:Hst; [by left|]. apply bool_decide_eq_false in Hst.
  set (scoped := negb (bool_decide (body.(Body.resource_id) = None)) || _).
  assert (scoped = false <-> unscoped body c0) as Hun.
  { unfold scoped, unscoped, resource_list. rewrite orb_false_iff, !negb_false_iff, !bool_decide_eq_true. done. }
  destruct (negb scoped && _ && _ && _) eqn:Hbroad; [by left|].
  set (c := if scoped then c0 else mark_broad c0).
  assert (~ unscoped body c0 /\ c = c0 \/ unscoped body c0 /\ c = mark_broad c0) as Hc.
  { unfold c. rewrite <-Hun. destruct scoped; auto. }
  assert (may_delegate req body c0) as Hmay.
  { split; [apply andb_false_iff in Hown as [Hx|Hx]; bool_props; auto|]. rewrite <-Hun. intros Hs. rewrite Hs in Hbroad. cbn in Hbroad.
    apply andb_false_iff in Hbroad as [Hx|Hx]; [apply andb_false_iff in Hx as [Hx|Hx]|]; bool_props; auto. }
  destruct (run_tx_cases (fun r => r.(code) <> 201) (create_tx req z body c scoped requested ttl) w (fun r w' =>
    (r.(replay_header) = true /\ same_core w.(db) w'.(db)) \/ (r.(code) = 201 /\ r.(replay_header) = false /\ delegated req z body w w')))
    as [Hsame|(r & w' & Hrun & Hp)].
  - apply create_tx_refuses.
  - apply wp_create_tx; [by intros [r|r|e] ? Hx; [destruct (Hx r)|..]| |].
    + intros r w' Hr Hcore. by left.
    + intros r w' row Hr Hrep Heff. right. split; [done|]. split; [done|]. exists c, c0, row. split_and!; try done.
      apply andb_false_iff in Hexp as [Hx|Hx]; bool_props; auto.
  - unfold respond. destruct (run_tx _ w) as [[r|e] w'] eqn:E; cbn in Hsame |- *; destruct Hsame; left; auto using errorHandler_refuses.
  - rewrite Hrun. cbn. destruct Hp as [Hp|Hp]; [right; left; done|right; right; done].
Qed.

Lemma delegated_governed req z b w w' : governed w.(now) w.(db) -> delegated req z b w w' -> governed w.(now) w'.(db).
Proof.
  intros (Hwf & Hs & He) (c & c0 & row & Hn & _ & Hc & _ & Hne & Heff).
  assert (constraints_valid c) as Hcv.
  { apply normalized_valid in Hn. destruct Hc as [[_ ->]|[_ ->]]; [done|by apply mark_broad_valid]. }
  pose proof (created_edge_inv _ _ _ _ _ _ _ _ _ _ Hwf Hcv Hne He Heff) as He'.
  destruct Heff as [_ _ _ _ _ _ _ _ Hss (_ & _ & Hrs & _)]. split_and!; [by rewrite Hrs|by rewrite Hss|done].
Qed.

Lemma same_core_governed t d d' : same_core d d' -> governed t d -> governed t d'.
Proof. unfold governed. intros (_ & _ & -> & -> & _ & -> & _). done. Qed.

Lemma createDelegation_governed req z body w :
  governed w.(now) w.(db) -> governed w.(now) (createDelegation req z body w).2.(db).
Proof.
  intros Hg. pose proof (createDelegation_cases req z body w) as Hc.
  destruct (createDelegation req z body w) as [r w']. cbn [snd].
  destruct Hc as [[_ ->]|[[_ Hcore]|(_ & _ & Hd)]]; [done|by eapply same_core_governed|by eapply delegated_governed].
Qed.

Lemma downstream_dec z id d k :
  downstream z d.(delegation_edges) id k \/ ~ downstream z d.(delegation_edges) id k.
Proof.
  destruct (affected_edges_total z id d) as [A HA]. rewrite <-(elem_of_affected _ _ _ _ k HA).
  destruct (decide (k ∈ A)); auto.
Qed.

Lemma downstream_revoked_inv t z id d d1 :
  downstream_revoked t z id d d1 -> governed t d -> governed t d1.
Proof.
  intros (Hr & Hk & Hd) (Hwf & Hs & He).
  assert (d1.(resources) = d.(resources) /\ d1.(sessions) = d.(sessions)) as [Hrs Hss] by by rewrite Hd.
  unfold governed. rewrite Hrs, Hss. split_and!; [done|done|]. eapply edge_inv_weaken; [done| |exact He].
  assert (forall k e, d.(delegation_edges) !! k = Some e -> exists e', d1.(delegation_edges) !! k = Some e' /\ edge_weaker e e'
    /\ e'.(Edge.parent_edge_id) = e.(Edge.parent_edge_id)) as Hall.
  { intros k e Hke. destruct (downstream_dec z id d k) as [Hds|Hds].
    - exists (revoke_edge t e). split_and!; [by apply Hr|apply revoke_weaker|done].
    - exists e. rewrite Hk by done. split_and!; [done|apply edge_weaker_refl|done]. }
  intros k e' Hke'. destruct (d.(delegation_edges) !! k) as [e|] eqn:Hke.
  - destruct (Hall k e Hke) as (e2 & He2 & Hw & Hp). rewrite Hke' in He2. injection He2 as <-. exists e. split_and!; [done|done|].
    intros pid Hpid. destruct (ei_parent _ _ _ _ He k e pid Hke) as (pe & Hpe & _); [congruence|].
    destruct (Hall pid pe Hpe) as (pe' & ? & _). by eexists.
  - destruct (downstream_dec z id d k) as [Hds|Hds]; [|rewrite Hk in Hke' by done; congruence].
    destruct Hds as (x & l & y & Hw & _ & Hl & _). apply last_Some in Hl as [l0 ->].
    apply walk_app in Hw as (m & _ & Hw). cbn in Hw. destruct Hw as (r & Hr' & _). congruence.
Qed.

Lemma revoke_governed t z id d d' : revoke_effect t z id d d' -> governed t d -> governed t d'.
Proof.
  intros [(d1 & d2 & roots & Hd1 & _ & Hterm & Hs & He & _ & Hrs & _) _ _] Hg.
  pose proof (downstream_revoked_inv _ _ _ _ _ Hd1 Hg) as (Hwf1 & Hs1 & He1).
  pose proof (terminate_edge_inv _ _ _ _ _ _ _ Hterm He1 Hs1) as He2.
  destruct (te_others _ _ _ _ _ _ _ Hterm) as (_ & _ & Hrs2 & _).
  unfold governed. rewrite Hs, He, Hrs. split_and!; [by rewrite Hrs2| |done].
  by eapply te_inv.
Qed.

Lemma revokeDelegation_governed req z id w :
  governed w.(now) w.(db) -> governed w.(now) (revokeDelegation req z id w).2.(db).
Proof.
  intros Hg. pose proof Hg as (_ & Hs & _). unfold revokeDelegation. destruct (negb _); [done|]. rewrite respond_db.
  destruct (revoke_tx_spec req z id w Hs) as (r & _ & Ho). unfold revoke_outcome in Ho.
  repeat case_match; try (destruct Ho as [_ ->]; done). destruct Ho as [_ Ho]. by eapply revoke_governed.
Qed.

Lemma startSession_governed req z body w :
  governed w.(now) w.(db) -> governed w.(now) (startSession req z body w).2.(db).
Proof.
  intros Hg. pose proof Hg as (Hwf & Hs & He). pose proof (startSession_cases req z body w (inv_key _ Hs)) as Hc.
  destruct (startSession req z body w) as [r w']. cbn [snd].
  destruct Hc as [[_ ->]|[[_ Hcore]|(b & _ & _ & _ & _ & _ & sub & _ & _ & id & row & -> & _ & _ & Heff & _)]]; [done|exact (same_core_governed _ _ _ Hcore Hg)|].
  split_and!.
  - destruct Heff as [? ? ? ? ? ? ? ? ? ? ? ? ? ? ? (_ & _ & Hrs & _)]. by rewrite Hrs.
  - eapply started_session_inv; [done|apply uuidv7_nonempty|done].
  - by eapply started_edge_inv.
Qed.

Lemma terminate_governed t z roots reason rs d d' :
  terminate_effect t z roots reason rs d d' -> governed t d -> governed t d'.
Proof.
  intros Hterm (Hwf & Hs & He). destruct (te_others _ _ _ _ _ _ _ Hterm) as (_ & _ & Hrs & _). split_and!.
  - by rewrite Hrs.
  - by eapply te_inv.
  - by eapply terminate_edge_inv.
Qed.

Lemma terminateSession_governed req z id reason gen w :
  governed w.(now) w.(db) -> governed w.(now) (terminateSession req z id reason gen w).2.(db).
Proof.
  intros Hg. pose proof Hg as (_ & Hs & _). unfold terminateSession.
  destruct (negb _); [done|]. cbv zeta. destruct (negb _); [done|]. destruct (match gen with Some _ => _ | None => _ end); [done|].
  rewrite respond_db.
  pose proof (terminate_tx_spec req z id (default_to "requested" reason) gen w Hs) as Ht.
  destruct (run_tx _ w) as [o w']. cbn [snd]. destruct Ht as (r & _ & Ho). unfold terminate_outcome in Ho.
  repeat case_match; try (destruct Ho as [_ ->]; done). destruct Ho as [_ Ho]. exact (terminate_governed _ _ _ _ _ _ _ Ho Hg).
Qed.

Lemma subtree_governed t p f z roots d d' :
  (forall s, p s = true -> skeleton (f s) = skeleton s /\ (f s).(Session.application_id) = s.(Session.application_id)) ->
  subtree_effect p f z roots d d' -> governed t d -> governed t d'.
Proof.
  intros Hf Heff (Hwf & Hs & He). split_and!.
  - destruct Heff as [_ _ Hdb]. by rewrite Hdb.
  - eapply subtree_effect_inv; [|done|done]. intros s Hp. by apply Hf.
  - eapply subtree_edge_inv; [|done|done|done]. intros s Hp. destruct (Hf s Hp) as [Hsk ?].
    destruct (skeleton_inv _ _ Hsk) as (? & _ & _ & _ & _ & ?). done.
Qed.

Lemma subtree_outcome_governed p f verb conflict event req z id w w' r :
  (forall t s, p s = true -> skeleton (f t s) = skeleton s /\ (f t s).(Session.application_id) = s.(Session.application_id)) ->
  subtree_outcome p f verb conflict event req z id w w' r -> governed w.(now) w.(db) -> governed w.(now) w'.(db).
Proof.
  unfold subtree_outcome. intros Hf Ho Hg. repeat case_match; try (destruct Ho as [_ ->]; done).
  destruct Ho as (_ & Heff & _). eapply subtree_governed; [|done|done]. apply Hf.
Qed.

Lemma suspendSession_governed req z id w :
  governed w.(now) w.(db) -> governed w.(now) (suspendSession req z id w).2.(db).
Proof.
  intros Hg. pose proof Hg as (_ & Hs & _). unfold suspendSession. destruct (negb _); [done|]. rewrite respond_db.
  destruct (suspend_tx_spec req z id w Hs) as (r & _ & Ho). eapply subtree_outcome_governed; [|done|done].
  intros t s Hp. split; [by apply suspend_skeleton|done].
Qed.

Lemma resumeSession_governed req z id w :
  governed w.(now) w.(db) -> governed w.(now) (resumeSession req z id w).2.(db).
Proof.
  intros Hg. pose proof Hg as (_ & Hs & _). unfold resumeSession. destruct (negb _); [done|]. rewrite respond_db.
  destruct (resume_tx_spec req z id w Hs) as (r & _ & Ho). eapply subtree_outcome_governed; [|done|done].
  intros t s Hp. split; [by apply resume_skeleton|done].
Qed.

(** A walk can be followed edge by edge. *)
Lemma walk_elem p z (es : EdgeTable) x l y k :
  walk p z es x l y -> k ∈ l -> exists e, es !! k = Some e /\ e.(Edge.zone_id) = z /\ p e = true.
Proof.
  revert x. induction l as [|a l IH]; intros x; cbn; [set_solver|].
  intros (r & Hr & Hz & Hp & _ & Hw) [->|Hk]%elem_of_cons; eauto.
Qed.

(** Every edge on a short walk from a revoked edge is no longer active. *)
Lemma revoke_walk t z id d d' x l y k e :
  governed t d -> revoke_effect t z id d d' ->
  walk edge_active z d.(delegation_edges) x l y -> head l = Some id ->
  (length l <= S (Z.to_nat MAX_DEPTH))%nat -> k ∈ l -> d.(delegation_edges) !! k = Some e ->
  d'.(delegation_edges) !! k = Some (revoke_edge t e)
  /\ ((length l <= Z.to_nat MAX_DEPTH)%nat -> forall s, d'.(sessions) !! e.(Edge.target_session_id) = Some s -> is_live s = false).
Proof.
  intros Hg Hrev Hw Hh Hlen Hk Hke. pose proof Hg as (_ & Hs & He).
  destruct Hrev as [(d1 & d2 & roots & Hd1 & Hroots & Hterm & Hs' & He' & _) _ _].
  pose proof (downstream_revoked_inv _ _ _ _ _ Hd1 Hg) as (_ & Hs1 & _).
  assert (d1.(sessions) = d.(sessions)) as Hss by (destruct Hd1 as (_ & _ & ->); done).
  destruct Hd1 as (Hr1 & Hk1 & _).
  (* a downstream edge: revoked, and its live holder is terminated *)
  assert (forall k e, downstream z d.(delegation_edges) id k -> d.(delegation_edges) !! k = Some e ->
    d'.(delegation_edges) !! k = Some (revoke_edge t e)
    /\ below is_live z roots d1 e.(Edge.target_session_id)) as Hdown.
  { clear k e Hk Hke. intros k e Hds Hke. split.
    - rewrite He'. eapply te_edges; [done|by apply Hr1|]. intros (_ & Hst & _). done.
    - pose proof Hds as (x0 & l0 & y0 & Hw0 & _ & Hl0 & _).
      assert (k ∈ l0) as Hk0 by (apply last_Some in Hl0 as [l1 ->]; set_solver).
      destruct (walk_elem _ _ _ _ _ _ _ Hw0 Hk0) as (e0 & He0 & Hz0 & Ha0). simplify_eq.
      unfold edge_active in Ha0. bool_props.
      destruct (ei_endpoints _ _ _ _ He k e Hke) as (_ & s & tg & _ & Htg & _ & Hzt & _ & _ & Hlive).
      destruct (Hlive Ha0) as [_ Hl]. exists e.(Edge.target_session_id), tg. rewrite Hss. split_and!; [|done|done|done|apply rtc_refl].
      apply Hroots. exists k, e, tg. done. }
  (* the prefix of the walk up to [k] *)
  apply list_elem_of_split in Hk as (l1 & l2 & ->). rewrite length_app in Hlen. cbn [length] in Hlen.
  replace (l1 ++ k :: l2) with ((l1 ++ [k]) ++ l2) in Hw, Hh by by rewrite <-app_assoc.
  apply walk_app in Hw as (m & Hw & _).
  assert ((length (l1 ++ [k]) <= Z.to_nat MAX_DEPTH)%nat -> downstream z d.(delegation_edges) id k) as Hshort.
  { intros Hl. exists x, (l1 ++ [k]), m. rewrite last_snoc. split_and!; [done| |done|done]. by destruct l1. }
  assert (forall s, below is_live z roots d1 e.(Edge.target_session_id) ->
    d'.(sessions) !! e.(Edge.target_session_id) = Some s -> is_live s = false) as Hdead.
  { intros s Hb Hsess. rewrite Hs' in Hsess. destruct (below_row _ _ _ _ _ Hb) as (s0 & Hs0 & _).
    rewrite (te_closed _ _ _ _ _ _ _ Hterm _ _ Hb Hs0) in Hsess. simplify_eq. unfold is_live, terminate_row. cbn.
    by case_bool_decide. }
  rewrite length_app in Hshort. cbn [length] in Hshort.
  split.
  2: { intros Hl s. rewrite length_app in Hl. cbn [length] in Hl. apply Hdead. apply (Hdown k e); [apply Hshort; lia|done]. }
  destruct (decide (length l1 + 1 <= Z.to_nat MAX_DEPTH)%nat) as [Hle|Hgt]; [by apply Hdown; auto|].
  (* the eleventh edge: it leaves a Session that was terminated *)
  destruct l1 as [|a l1] using rev_ind; [unfold MAX_DEPTH in *; cbn in *; lia|]. clear IHl1.
  rewrite length_app in *. cbn [length] in *.
  apply walk_app in Hw as (m1 & Hw1 & Hwk). cbn in Hwk. destruct Hwk as (ek & Hek & Hzk & Hak & Hsk & _).
  rewrite Hke in Hek. injection Hek as <-. subst m1.
  assert (downstream z d.(delegation_edges) id a) as Hda.
  { exists x, (l1 ++ [a]), e.(Edge.source_session_id). rewrite last_snoc, length_app. cbn [length]. split_and!; [done| |done|lia].
    by destruct l1. }
  apply walk_app in Hw1 as (m2 & _ & Hwa). cbn in Hwa. destruct Hwa as (ea & Hea & Hza & _ & _ & Hta).
  destruct (Hdown a ea Hda Hea) as [_ Hb]. rewrite Hta in Hb.
  destruct (downstream_dec z id d k) as [Hds|Hds]; [by apply Hdown|].
  rewrite He'. eapply te_revoked; [done|by rewrite Hk1|]. unfold edge_active in Hak. bool_props. split_and!; [done|done|by left].
Qed.
End props.

(** ** Effective authority *)

Section effective.
Context `{Env}.

Definition parsed (p : ParentDelegationEdge) (c : DelegationConstraints) : Prop :=
  normalizedConstraints p.(pe_constraints_json) JUndefined None = inr c.

(** What the loop has accumulated after the edges [ps]. *)
Record effective_of (ps : list ParentDelegationEdge) (first : Z) (st : EffectiveState) : Prop := {
  eo_none : ps = [] -> st.(ef_scopes) = None /\ st.(ef_maxHops) = None;
  eo_scopes : ps <> [] -> exists ss, st.(ef_scopes) = Some ss
    /\ forall s, s ∈ ss <-> forall p, p ∈ ps -> s ∈ p.(pe_scopes);
  eo_hops : ps <> [] -> exists h, st.(ef_maxHops) = Some h
    /\ (forall p c, p ∈ ps -> parsed p c -> h <= hops c) /\ (exists p c, p ∈ ps /\ parsed p c /\ h = hops c);
  eo_ttl : forall p c n, p ∈ ps -> parsed p c -> c.(Constraints.ttl_seconds) = Some n ->
    exists m, st.(ef_ttlSeconds) = Some m /\ m <= n;
  eo_expiry : st.(ef_earliestExpiry) <= first
    /\ (forall p, p ∈ ps -> st.(ef_earliestExpiry) <= to_ms p.(pe_expires_at))
    /\ (st.(ef_earliestExpiry) = first \/ exists p, p ∈ ps /\ st.(ef_earliestExpiry) = to_ms p.(pe_expires_at));
  eo_considered : st.(ef_considered) = pe_id <$> ps
}.

Lemma effective_step_ok ps first st p c :
  effective_of ps first st -> parsed p c -> effective_of (ps ++ [p]) first (effective_step st p).
Proof.
  intros [Hn Hs Hh Ht (He1 & He2 & He3) Hc] Hp. unfold effective_step. rewrite Hp.
  split; cbn [ef_scopes ef_maxHops ef_ttlSeconds ef_earliestExpiry ef_considered].
  - intros Hnil. by destruct ps.
  - intros _. destruct (decide (ps = [])) as [->|Hne].
    + destruct (Hn eq_refl) as [-> _]. eexists. split; [done|]. intros s. rewrite elem_of_distinct. set_solver.
    + destruct (Hs Hne) as (ss & -> & Hss). eexists. split; [done|]. intros s.
      rewrite list_elem_of_filter, elem_of_distinct, Hss. set_solver.
  - intros _. fold (hops c). destruct (decide (ps = [])) as [->|Hne].
    + destruct (Hn eq_refl) as [_ ->]. exists (hops c). split_and!; [done| |exists p, c; set_solver].
      intros p' c' Hin Hp'. assert (p' = p) as -> by set_solver. unfold parsed in *. rewrite Hp in Hp'. by simplify_eq.
    + destruct (Hh Hne) as (h & -> & Hle & (p0 & c0 & Hp0 & Hc0 & Heq)).
      assert (forall p' c', p' ∈ ps ++ [p] -> parsed p' c' -> (p' ∈ ps \/ c' = c)) as Hcase.
      { intros p' c' [?|Hin%list_elem_of_singleton]%elem_of_app Hp'; [by left|right]. subst. unfold parsed in *. congruence. }
      destruct (hops c <? h) eqn:Hlt; eexists; (split; [done|]); split.
      * intros p' c' Hin Hp'. destruct (Hcase p' c' Hin Hp') as [Hin'| ->]; [|done]. specialize (Hle p' c' Hin' Hp'). lia.
      * exists p, c. set_solver.
      * intros p' c' Hin Hp'. destruct (Hcase p' c' Hin Hp') as [Hin'| ->]; [eauto|lia].
      * exists p0, c0. set_solver.
  - intros p' c' n [Hin|Hin%list_elem_of_singleton]%elem_of_app Hp' Hn'.
    + destruct (Ht p' c' n Hin Hp' Hn') as (m & -> & Hm). destruct c.(Constraints.ttl_seconds); eexists; (split; [done|lia]).
    + subst p'. unfold parsed in *. rewrite Hp in Hp'. simplify_eq. rewrite Hn'.
      destruct st.(ef_ttlSeconds); eexists; (split; [done|lia]).
  - split_and!; [lia| |].
    + intros p' [Hin|Hin%list_elem_of_singleton]%elem_of_app; [specialize (He2 p' Hin); lia|subst; lia].
    + destruct (Z.min_spec (to_ms p.(pe_expires_at)) st.(ef_earliestExpiry)) as [[_ ->]|[_ ->]].
      * right. exists p. set_solver.
      * destruct He3 as [?|(p' & ? & ?)]; [by left|right; exists p'; set_solver].
  - rewrite Hc, fmap_app. done.
Qed.

Lemma effective_fold ps0 ps first st :
  effective_of ps0 first st -> (forall p, p ∈ ps -> exists c, parsed p c) ->
  effective_of (ps0 ++ ps) first (foldl effective_step st ps).
Proof.
  revert ps0 st. induction ps as [|p ps IH]; intros ps0 st Hst Hp; [by rewrite app_nil_r|].
  destruct (Hp p) as [c Hc]; [set_solver|]. rewrite (cons_middle p ps0 ps), app_assoc. cbn. apply IH; [|set_solver].
  by eapply effective_step_ok.
Qed.

Lemma effective_fold_start first ps :
  (forall p, p ∈ first :: ps -> exists c, parsed p c) ->
  effective_of (first :: ps) (to_ms first.(pe_expires_at)) (foldl effective_step (effective_start first) (first :: ps)).
Proof.
  intros Hp. apply (effective_fold [] (first :: ps)); [|done]. split; cbn; try done; try set_solver.
Qed.
End effective.

(** ** Theorems *)

(** C2. An answer of 201 that is not a replay commits exactly one governed edge, for a caller that
    owns the issuing application or may delegate from it and, when no resource is named, may
    delegate broadly: both endpoint Sessions are live in the zone and belong to the named
    applications, the scopes fit the resolved resources, a chosen parent edge is live and allows the
    edge, the expiry lies in the future and within the parent's, no live path of [MAX_DEPTH] edges
    leads back, and the invalidation event and the zone's next epoch are written with it.  A replay
    changes no table but the receipts; every other answer leaves the database untouched. *)
Theorem createDelegation_sound `{Env} req z body w :
  let '(r, w') := createDelegation req z body w in
  if r.(replay_header) then same_core w.(db) w'.(db)
  else if r.(code) =? 201 then delegated req z body w w' else w'.(db) = w.(db).
Proof.
  pose proof (createDelegation_cases req z body w) as Hc. destruct (createDelegation req z body w) as [r w'].
  destruct Hc as [[Hr%Z.eqb_neq Hd]|[[-> Hc]|(-> & -> & Hd)]]; [|done|done].
  rewrite Hr. destruct r.(replay_header); [|done]. by rewrite Hd.
Qed.


(** [lineage es n k a]: edge [k] descends from edge [a] by issuing steps of which [n]
    re-issued authority under other constraints (a child that inherits keeps them). *)
Inductive lineage `{Env} (es : EdgeTable) : nat -> string -> string -> Prop :=
| lineage_self k : lineage es 0 k k
| lineage_inherit n k pid a e pe :
    es !! k = Some e -> es !! pid = Some pe -> e.(Edge.parent_edge_id) = Some pid ->
    edge_constraints e = edge_constraints pe -> lineage es n pid a -> lineage es n k a
| lineage_reissue n k pid a e pe :
    es !! k = Some e -> es !! pid = Some pe -> e.(Edge.parent_edge_id) = Some pid ->
    edge_constraints e <> edge_constraints pe -> lineage es n pid a -> lineage es (S n) k a.

(** [e] carries no more than [ea], [n] hops further down. *)
Definition within `{Env} (rs : ResourceTable) (n : nat) (e ea : Edge.EdgeRow) : Prop :=
  e.(Edge.zone_id) = ea.(Edge.zone_id) /\ e.(Edge.scopes) ⊆ ea.(Edge.scopes)
  /\ e.(Edge.expires_at) <= ea.(Edge.expires_at)
  /\ (forall rid r, rs !! rid = Some r -> resource_live e.(Edge.zone_id) r = true -> edge_admits rid r e -> edge_admits rid r ea)
  /\ exists c ca, edge_constraints e = Some c /\ edge_constraints ea = Some ca /\ hops c + Z.of_nat n <= hops ca.

Lemma narrows_within `{Env} rs n m e pe ea :
  narrows rs e pe -> within rs n pe ea ->
  (m = n /\ edge_constraints e = edge_constraints pe) \/ (m = S n /\ edge_constraints e <> edge_constraints pe) ->
  within rs m e ea.
Proof.
  intros [Hz _ Hs Hx Hr (c & pc & Hc & Hpc & Hor & _)] (Hz' & Hs' & Hx' & Hr' & c' & ca & Hc' & Hca & Hle) Hm.
  split_and!; [congruence|set_solver|lia| |].
  - intros rid r Hrr Hl Had. apply Hr'; [done|congruence|]. by eapply Hr.
  - exists c, ca. split_and!; [done..|]. assert (c' = pc) as -> by congruence. destruct Hm as [[-> Heq]|[-> Hne]].
    + by assert (c = pc) as -> by congruence.
    + destruct Hor as [Hlt| ->]; [lia|congruence].
Qed.

(** What a lineage is worth where the invariant holds: its two ends compared, and the
    number of steps that re-issued authority. *)
Lemma governed_lineage `{Env} t d n k a e ea :
  governed t d -> lineage d.(delegation_edges) n k a ->
  d.(delegation_edges) !! k = Some e -> d.(delegation_edges) !! a = Some ea ->
  within d.(resources) n e ea /\ (n < Z.to_nat MAX_DEPTH)%nat.
Proof.
  intros (_ & _ & He) Hka Hk Ha. assert (within d.(resources) n e ea) as Hw.
  { revert e Hk. induction Hka as [k|n k pid a e0 pe He0 Hpe Hp Heq _ IH|n k pid a e0 pe He0 Hpe Hp Hne _ IH]; intros e Hk.
    - destruct (ei_constraints _ _ _ _ He k e Hk) as (c & Hc & _). simplify_eq. split_and!; [done|done|lia|done|].
      exists c, c. split_and!; [done..|lia].
    - destruct (ei_parent _ _ _ _ He k e pid Hk) as (pe' & Hpe' & Hn); [congruence|]. simplify_eq.
      eapply narrows_within; [done|by apply IH|by left].
    - destruct (ei_parent _ _ _ _ He k e pid Hk) as (pe' & Hpe' & Hn); [congruence|]. simplify_eq.
      eapply narrows_within; [done|by apply IH|by right]. }
  split; [done|]. destruct Hw as (_ & _ & _ & _ & c & ca & Hc & Hca & Hle).
  destruct (ei_constraints _ _ _ _ He k e Hk) as (c' & Hc' & Hb), (ei_constraints _ _ _ _ He a ea Ha) as (ca' & Hca' & Hb').
  simplify_eq. unfold MAX_DEPTH in *. lia.
Qed.

(** The revoke route on every branch: unknown, foreign or no longer active edges
    answer 404, a caller without the issuer's authority 403, both without a change;
    otherwise the downstream edges are revoked and their holders terminated. *)
Theorem revokeDelegation_spec `{Env} req z id w :
  session_inv w.(db).(sessions) -> CoordinatorIdPattern z = true -> CoordinatorIdPattern id = true ->
  let '(r, w') := revokeDelegation req z id w in revoke_outcome req z id w w' r.
Proof.
  intros Hinv Hz Hid. unfold revokeDelegation. rewrite Hz, Hid. cbn [andb negb].
  destruct (revoke_tx_spec req z id w Hinv) as (r & Hr & Ho). destruct (run_tx _ w) as [o w'].
  cbn in Hr. subst o. exact Ho.
Qed.

(** C38. Revoking an edge invalidates what was delegated from it: every edge on an active
    path of at most [MAX_DEPTH + 1] edges that starts with the revoked one is
    revoked, and the Sessions holding the first [MAX_DEPTH] of them are no longer
    live. *)
Theorem revoke_invalidates_downstream `{UuidLaws} req z id w x l y k e :
  governed w.(now) w.(db) -> (revokeDelegation req z id w).1.(code) = 200 ->
  walk edge_active z w.(db).(delegation_edges) x l y -> head l = Some id ->
  (length l <= S (Z.to_nat MAX_DEPTH))%nat -> k ∈ l -> w.(db).(delegation_edges) !! k = Some e ->
  let d' := (revokeDelegation req z id w).2.(db) in
  d'.(delegation_edges) !! k = Some (revoke_edge w.(now) e)
  /\ ((length l <= Z.to_nat MAX_DEPTH)%nat -> forall s, d'.(sessions) !! e.(Edge.target_session_id) = Some s -> is_live s = false).
Proof.
  intros Hg Hcode. pose proof Hg as (_ & Hs & _). unfold revokeDelegation in *. destruct (negb _); [done|].
  destruct (revoke_tx_spec req z id w Hs) as (r & Hr & Ho). destruct (run_tx _ w) as [o w']. cbn in Hr, Ho, Hcode |- *. subst o.
  cbn in Hcode |- *. unfold revoke_outcome in Ho. repeat case_match; try (destruct Ho as [-> _]; done).
  destruct Ho as [_ Heff]. by eapply revoke_walk.
Qed.

(** The effective authority of a Session is the intersection of its live inbound
    edges: a scope is effective exactly when every live inbound edge carries it, the
    hop budget is the smallest one, a time limit on any edge limits it, and the
    reported expiry is the earliest. *)
Theorem effective_authority_is_intersection `{Env} t d z sid first rest :
  governed t d -> activeParentDelegations z sid t d = first :: rest ->
  effective_of (first :: rest) (to_ms first.(pe_expires_at)) (foldl effective_step (effective_start first) (first :: rest)).
Proof.
  intros (_ & _ & He) Hp. apply effective_fold_start. intros p Hin. rewrite <-Hp in Hin.
  apply elem_of_parents in Hin as (k & e & -> & Hk & _). destruct (ei_constraints _ _ _ _ He k e Hk) as (c & Hc & _).
  exists c. unfold parsed, edge_constraints in *. cbn.
  destruct (normalizedConstraints e.(Edge.constraints_json) JUndefined None); by simplify_eq.
Qed.
