(* ===== verification/Services.v ===== *)
(** * Agent services and service leases

    [apps/coordinator/src/routes/agent-services.ts]: registering an endpoint, taking
    over a service Session's lease, and the heartbeat that renews it.  A lease is
    fenced by its generation. *)

From S2P Require Import Prelude.
From S2P Require Import Json.
From S2P Require Import Schema.
From S2P Require Import Store.
From S2P Require Import Scope.
From S2P Require Import Auth.
From S2P Require Import Outbox.
From S2P Require Import Idempotency.
From S2P Require Import Sessions.
From S2P Require Import Listing.
From S2P Require Import Delegations.
From S2P Require Import SessionFacts.
From S2P Require Import SessionProps.
From S2P Require Import DelegationFacts.
From S2P Require Import EdgeInv.
From S2P Require Import DelegationProps.
Local Open Scope string_scope.
Local Open Scope Z_scope.
Local Open Scope list_scope.

(** [ServiceBody]. *)
Module ServiceBody.
Record ServiceBody := MkServiceBody {
  application_id : string;
  endpoint_url : string;
  protocol_versions : list string;
  framework_name : option string;
  framework_version : option string;
  capabilities : list string;
  metadata : list (string * json)
}.
End ServiceBody.
Notation ServiceBody := ServiceBody.ServiceBody.

(** [HeartbeatBody]. *)
Module HeartbeatBody.
Record HeartbeatBody := MkHeartbeatBody {
  service_id : option string;
  status : service_health;
  active_invocations : Z;
  metadata : list (string * json);
  lease_generation : Z
}.
End HeartbeatBody.
Notation HeartbeatBody := HeartbeatBody.HeartbeatBody.

Definition health_json (h : service_health) : json :=
  JStr match h with Starting => "starting" | Healthy => "healthy" | Degraded => "degraded" | Unhealthy => "unhealthy" end.

Definition service_json (id : string) (s : Service.ServiceRow) : list (string * json) :=
  [("id", JStr id); ("zone_id", JStr s.(Service.zone_id)); ("application_id", JStr s.(Service.application_id));
   ("endpoint_url", JStr s.(Service.endpoint_url)); ("protocol_versions", JStrs s.(Service.protocol_versions));
   ("framework_name", JOpt JStr s.(Service.framework_name)); ("framework_version", JOpt JStr s.(Service.framework_version));
   ("capabilities", JStrs s.(Service.capabilities)); ("health", health_json s.(Service.health));
   ("metadata_json", JObj s.(Service.metadata_json)); ("last_heartbeat_at", JOpt JTime s.(Service.last_heartbeat_at))].

(** The row in conflict on [(zone_id, application_id, endpoint_url)]. *)
Definition same_endpoint (z app url : string) (_ : string) (s : Service.ServiceRow) : bool :=
  bool_decide (s.(Service.zone_id) = z) && bool_decide (s.(Service.application_id) = app)
  && bool_decide (s.(Service.endpoint_url) = url).

Definition new_service (t : Z) (z : string) (b : ServiceBody) : Service.ServiceRow :=
  Service.MkServiceRow z b.(ServiceBody.application_id) b.(ServiceBody.endpoint_url) b.(ServiceBody.protocol_versions)
    b.(ServiceBody.framework_name) b.(ServiceBody.framework_version) b.(ServiceBody.capabilities) Starting
    b.(ServiceBody.metadata) (Some t) t t.

(** [ON CONFLICT ... DO UPDATE]. *)
Definition update_service (t : Z) (b : ServiceBody) (s : Service.ServiceRow) : Service.ServiceRow :=
  Service.set_protocol_versions b.(ServiceBody.protocol_versions)
    (Service.set_framework_name b.(ServiceBody.framework_name)
      (Service.set_framework_version b.(ServiceBody.framework_version)
        (Service.set_capabilities b.(ServiceBody.capabilities)
          (Service.set_metadata_json b.(ServiceBody.metadata) (Service.set_updated_at t s))))).

(** [session_type <> 'user' OR (status = 'active' AND expires_at > now())]. *)
Definition anchor_active (t : Z) (r : Authority.AuthorityRow) : bool :=
  negb (bool_decide (r.(Authority.session_type) = UserAuthority))
  || (bool_decide (r.(Authority.status) = RActive) && (t <? r.(Authority.expires_at))).

(** The Session joined with its authority record. *)
Definition find_leased (z id : string) (d : Db) : option (Session.SessionRow * Authority.AuthorityRow) :=
  match find_session z id d with
  | Some s => match d.(authority_records) !! s.(Session.subject_authority_record_id) with
              | Some r => Some (s, r)
              | None => None
              end
  | None => None
  end.

(** [heartbeat_deadline_at IS NOT NULL AND heartbeat_deadline_at <= now()]. *)
Definition lease_expired (t : Z) (s : Session.SessionRow) : bool :=
  match s.(Session.heartbeat_deadline_at) with Some h => h <=? t | None => false end.

(** The caller's application authority record is live. *)
Definition application_record_live (t : Z) (z rid app : string) (d : Db) : bool :=
  match d.(authority_records) !! rid with
  | Some r => bool_decide (r.(Authority.zone_id) = z) && bool_decide (r.(Authority.session_type) = ApplicationAuthority)
              && bool_decide (r.(Authority.subject_id) = Some app) && bool_decide (r.(Authority.status) = RActive)
              && (t <? r.(Authority.expires_at))
  | None => false
  end.

Section services.
Context `{Env} (isUrl : string -> bool).

(** [ServiceBody.parse] succeeds; [isUrl] is [z.string().url()]. *)
Definition service_body_valid (b : ServiceBody) : bool :=
  nonempty b.(ServiceBody.application_id) && isUrl b.(ServiceBody.endpoint_url)
  && forallb nonempty b.(ServiceBody.protocol_versions) && opt_all nonempty b.(ServiceBody.framework_name)
  && forallb nonempty b.(ServiceBody.capabilities).

Definition register_tx (zoneId : string) (body : ServiceBody) (id : string) : Tx reply (exit reply) :=
  app ← query (find_application zoneId body.(ServiceBody.application_id));
  ensure (bool_decide (is_Some app)) (error_reply 404 "application_not_found");;
  existing ← query (fun _ d => head (select (same_endpoint zoneId body.(ServiceBody.application_id)
                                               body.(ServiceBody.endpoint_url)) d.(agent_services)));
  t ← query (fun t _ => t);
  match existing with
  | Some (sid, s) =>
      let row := update_service t body s in
      exec (fun _ d => set_agent_services (<[sid := row]> d.(agent_services)) d);;
      mret (Commit (MkReply 201 (JObj (service_json sid row)) false))
  | None =>
      let row := new_service t zoneId body in
      free ← query (fun _ d => bool_decide (d.(agent_services) !! id = None));
      constraint free "agent_services_pkey";;
      exec (fun _ d => set_agent_services (<[id := row]> d.(agent_services)) d);;
      mret (Commit (MkReply 201 (JObj (service_json id row)) false))
  end.

(** [POST /zones/:zoneId/agent-services]. *)
Definition registerService (req : option CaracalAuth) (zoneId : string) (body : ServiceBody) (w : World) : reply * World :=
  if negb (CoordinatorIdPattern zoneId) then (error_reply 400 "invalid_params", w)
  else if negb (service_body_valid body) then (errorHandler ZodError, w)
  else if negb (ownsApplication req body.(ServiceBody.application_id))
          && negb (requireScope req ("coordinator.spawn_for:" +:+ body.(ServiceBody.application_id)))
  then (error_reply 403 "application_ownership_required", w)
  else
    let id := uuidv7 w.(uuids) in
    respond (run_tx (register_tx zoneId body id) (set_uuids (S w.(uuids)) w)).

(** [GET /zones/:zoneId/agent-services]. *)
Definition listServices (zoneId : string) (limit : json) (cursor : option string) (d : Db) : reply :=
  if negb (CoordinatorIdPattern zoneId) then error_reply 400 "invalid_params"
  else match ListQuery limit cursor with
  | None => error_reply 400 "invalid_query"
  | Some (n, cursor) =>
      let p s := bool_decide (s.(Service.zone_id) = zoneId) in
      if match cursor with
         | Some c => match d.(agent_services) !! c with Some s => negb (p s) | None => true end
         | None => false
         end
      then error_reply 400 "invalid_cursor"
      else
        let rows := page (fun _ => p) n cursor d.(agent_services) in
        MkReply 200 (JObj [("items", JArr ((fun ks => JObj (service_json ks.1 ks.2)) <$> rows));
                           ("next_cursor", JOpt JStr (next_cursor n rows))]) false
  end.

(** ** Leases *)

Definition lease_deadline (t : Z) : option Z := Some (t + seconds cfg.(serviceSessionLeaseSeconds)).

(** The renewal both routes write. *)
Definition renew_row (t : Z) (s : Session.SessionRow) : Session.SessionRow :=
  Session.set_last_active_at t (Session.set_last_heartbeat_at (Some t)
    (Session.set_heartbeat_deadline_at (lease_deadline t) (Session.set_updated_at t s))).

(** A take-over renews under the next generation. *)
Definition lease_row (t : Z) (s : Session.SessionRow) : Session.SessionRow :=
  Session.set_lease_generation (s.(Session.lease_generation) + 1) (renew_row t s).

(** The caller acts under a live application authority record. *)
Definition require_application_record (req : option CaracalAuth) (zoneId app : string) : Tx reply unit :=
  match match req with Some a => a.(authorityRecordId) | None => None end with
  | Some rid =>
      if nonempty rid then
        live ← query (fun t => application_record_live t zoneId rid app);
        ensure live (error_reply 401 "identity_revoked")
      else rollback (error_reply 401 "authority_record_required")
  | None => rollback (error_reply 401 "authority_record_required")
  end.

Definition lease_tx (req : option CaracalAuth) (zoneId id : string) : Tx reply (exit reply) :=
  advisory_lock (sessionLockKey zoneId);;
  own ← query (fun _ => find_leased zoneId id);
  match own with
  | None => rollback (error_reply 404 "session_not_found")
  | Some (s, anchor) =>
      ensure (manages req s.(Session.application_id)) (error_reply 403 "application_ownership_required");;
      ensure (bool_decide (s.(Session.lifecycle) = ServiceLife)) (error_reply 409 "session_not_service");;
      ensure (negb (is_suspended s)) (error_reply 409 "session_suspended");;
      ensure (is_active s) (error_reply 409 "session_not_live");;
      t ← query (fun t _ => t);
      (if negb (anchor_active t anchor) then
         terminateSubtree zoneId [id] "subject_authority_inactive" Terminated;;
         commit (error_reply 409 "session_subject_inactive")
       else mret tt);;
      (if lease_expired t s then
         suspendSubtree zoneId [id] "service_heartbeat_lost";;
         commit (error_reply 409 "session_lease_expired")
       else mret tt);;
      require_application_record req zoneId s.(Session.application_id);;
      let row := lease_row t s in
      exec (fun _ d => set_sessions (<[id := row]> d.(sessions)) d);;
      mret (Commit (MkReply 200 (JObj
        [("status", status_json row.(Session.status)); ("heartbeat_deadline_at", JOpt JTime row.(Session.heartbeat_deadline_at));
         ("lease_generation", JNum row.(Session.lease_generation))]) false))
  end.

(** [POST /zones/:zoneId/agents/:id/lease]. *)
Definition leaseSession (req : option CaracalAuth) (zoneId id : string) (w : World) : reply * World :=
  if negb (CoordinatorIdPattern zoneId && CoordinatorIdPattern id) then (error_reply 400 "invalid_params", w)
  else respond (run_tx (lease_tx req zoneId id) w).

Definition heartbeat_service (t : Z) (b : HeartbeatBody) (s : Service.ServiceRow) : Service.ServiceRow :=
  Service.set_health b.(HeartbeatBody.status)
    (Service.set_metadata_json (spread s.(Service.metadata_json) b.(HeartbeatBody.metadata))
      (Service.set_last_heartbeat_at (Some t) (Service.set_updated_at t s))).

(** The service row the heartbeat reports on: [inl] when it is not the application's. *)
Definition touch_service (zoneId app : string) (body : HeartbeatBody) : Tx reply json :=
  match body.(HeartbeatBody.service_id) with
  | None => mret JNull
  | Some sid =>
      svc ← query (fun _ d => match d.(agent_services) !! sid with
                              | Some s => if bool_decide (s.(Service.zone_id) = zoneId)
                                             && bool_decide (s.(Service.application_id) = app) then Some s else None
                              | None => None
                              end);
      match svc with
      | None => rollback (error_reply 404 "agent_service_not_found")
      | Some s =>
          t ← query (fun t _ => t);
          let row := heartbeat_service t body s in
          exec (fun _ d => set_agent_services (<[sid := row]> d.(agent_services)) d);;
          mret (JObj (service_json sid row))
      end
  end.

Definition heartbeat_tx (req : option CaracalAuth) (zoneId id : string) (body : HeartbeatBody) : Tx reply (exit reply) :=
  advisory_lock (sessionLockKey zoneId);;
  own ← query (fun _ => find_leased zoneId id);
  match own with
  | None => rollback (error_reply 404 "session_not_found")
  | Some (s, anchor) =>
      ensure (manages req s.(Session.application_id)) (error_reply 403 "application_ownership_required");;
      ensure (is_live s) (error_reply 409 "session_not_live");;
      ensure (bool_decide (s.(Session.lifecycle) = ServiceLife)) (error_reply 409 "session_not_service");;
      t ← query (fun t _ => t);
      (if negb (anchor_active t anchor) then
         terminateSubtree zoneId [id] "subject_authority_inactive" Terminated;;
         commit (error_reply 409 "session_subject_inactive")
       else mret tt);;
      ensure (body.(HeartbeatBody.lease_generation) =? s.(Session.lease_generation)) (error_reply 409 "session_lease_fenced");;
      (if is_active s && lease_expired t s then
         suspendSubtree zoneId [id] "service_heartbeat_lost";;
         commit (error_reply 409 "session_lease_expired")
       else mret tt);;
      require_application_record req zoneId s.(Session.application_id);;
      let row := renew_row t s in
      exec (fun _ d => set_sessions (<[id := row]> d.(sessions)) d);;
      service ← touch_service zoneId s.(Session.application_id) body;
      mret (Commit (MkReply 200 (JObj
        [("agent", JObj [("id", JStr id); ("zone_id", JStr zoneId); ("application_id", JStr row.(Session.application_id));
                         ("status", status_json row.(Session.status)); ("last_active_at", JTime row.(Session.last_active_at));
                         ("last_heartbeat_at", JOpt JTime row.(Session.last_heartbeat_at));
                         ("heartbeat_deadline_at", JOpt JTime row.(Session.heartbeat_deadline_at));
                         ("lease_generation", JNum row.(Session.lease_generation))]);
         ("service", service); ("active_invocations", JNum body.(HeartbeatBody.active_invocations))]) false))
  end.

(** [POST /zones/:zoneId/agents/:id/heartbeat]. *)
Definition heartbeat (req : option CaracalAuth) (zoneId id : string) (body : HeartbeatBody) (w : World) : reply * World :=
  if negb (CoordinatorIdPattern zoneId && CoordinatorIdPattern id) then (error_reply 400 "invalid_params", w)
  else if negb (opt_all nonempty body.(HeartbeatBody.service_id) && (0 <=? body.(HeartbeatBody.active_invocations))
                && (1 <=? body.(HeartbeatBody.lease_generation)))
  then (errorHandler ZodError, w)
  else respond (run_tx (heartbeat_tx req zoneId id body) w).
End services.

(** * Properties of service leases

    What the lease and heartbeat routes of
    [apps/coordinator/src/routes/agent-services.ts] do on every branch, that a
    take-over fences the previous holder, and that they keep the governance
    invariant. *)

(** One Session row was replaced; services may have changed, nothing else did. *)
Definition renewed (id : string) (row : Session.SessionRow) (d d' : Db) : Prop :=
  d' = set_agent_services d'.(agent_services) (set_sessions (<[id := row]> d.(sessions)) d).

(** The Session's subtree was terminated. *)
Definition anchor_terminated (t : Z) (z id : string) (d d' : Db) : Prop :=
  terminate_effect t z [id] "subject_authority_inactive" Terminated d d'.

Definition lease_suspended (t : Z) (z id : string) (d d' : Db) : Prop :=
  subtree_effect is_active (suspend_row t) z [id] d d'.

(** The caller presents a live application authority record. *)
Definition record_presented (t : Z) (req : option CaracalAuth) (z app : string) (d : Db) : bool :=
  match match req with Some a => a.(authorityRecordId) | None => None end with
  | Some rid => nonempty rid && application_record_live t z rid app d
  | None => false
  end.

Section facts.
Context `{Env}.

Lemma wp_require_record req z app (Q : unit -> World -> Prop) (E : exit reply -> World -> Prop) w :
  (record_presented w.(now) req z app w.(db) = true -> Q tt w) ->
  (record_presented w.(now) req z app w.(db) = false ->
     E (Rollback (error_reply 401 "authority_record_required")) w /\ E (Rollback (error_reply 401 "identity_revoked")) w) ->
  wp (require_application_record req z app) Q E w.
Proof.
  intros HQ HE. unfold require_application_record, record_presented in *.
  destruct (match req with Some a => a.(authorityRecordId) | None => None end) as [rid|]; [|wp_step; by apply HE].
  destruct (nonempty rid); cbn [andb] in *; [|wp_step; by apply HE].
  wp_step. apply wp_query, wp_ensure; intros Hl; [by apply HQ|by apply HE].
Qed.

Lemma wp_suspend_effect {R : Type} z roots reason (Q : Z -> World -> Prop) (E : exit R -> World -> Prop) w :
  session_inv w.(db).(sessions) -> roots <> [] ->
  (forall n w', subtree_effect is_active (suspend_row w.(now)) z roots w.(db) w'.(db) -> Q n w') ->
  wp (suspendSubtree z roots reason) Q E w.
Proof.
  intros Hinv Hne HQ. apply wp_suspendSubtree; [done|done|]. intros tree rows w' Htree _ Hout.
  destruct (only_outbox_db _ _ _ Hout) as (o & Hdb & _). apply HQ. rewrite Hdb. cbn [db set_db]. by apply subtree_effect_intro.
Qed.

(** What [POST .../lease] answers and does, once its parameters are accepted. *)
Definition lease_outcome (req : option CaracalAuth) (z id : string) (w w' : World) (r : reply) : Prop :=
  let refused c e := r = error_reply c e /\ w'.(db) = w.(db) in
  match find_leased z id w.(db) with
  | None => refused 404 "session_not_found"
  | Some (s, anchor) =>
      if negb (manages req s.(Session.application_id)) then refused 403 "application_ownership_required"
      else if negb (bool_decide (s.(Session.lifecycle) = ServiceLife)) then refused 409 "session_not_service"
      else if is_suspended s then refused 409 "session_suspended"
      else if negb (is_active s) then refused 409 "session_not_live"
      else if negb (anchor_active w.(now) anchor)
      then r = error_reply 409 "session_subject_inactive" /\ anchor_terminated w.(now) z id w.(db) w'.(db)
      else if lease_expired w.(now) s
      then r = error_reply 409 "session_lease_expired" /\ lease_suspended w.(now) z id w.(db) w'.(db)
      else if negb (record_presented w.(now) req z s.(Session.application_id) w.(db))
      then r.(code) = 401 /\ w'.(db) = w.(db)
      else r.(code) = 200 /\ renewed id (lease_row w.(now) s) w.(db) w'.(db)
  end.

Lemma lease_tx_spec req z id w :
  session_inv w.(db).(sessions) ->
  exists r, (run_tx (lease_tx req z id) w).1 = inl r /\ lease_outcome req z id w (run_tx (lease_tx req z id) w).2 r.
Proof.
  intros Hinv. apply run_tx_wp with (P := fun o w' => exists r, o = inl r /\ lease_outcome req z id w w' r).
  unfold lease_tx, lease_outcome. wp_step. apply wp_lock. wp_step. apply wp_query. cbn [db set_locks].
  destruct (find_leased z id w.(db)) as [[s anchor]|]; [|wp_steps; eexists; done].
  wp_step. apply wp_ensure; [intros ->|intros ->; eexists; done]. cbn [negb].
  wp_step. apply wp_ensure; [intros ->|intros ->; eexists; done]. cbn [negb].
  wp_step. apply wp_ensure; [intros ->%negb_true_iff|intros ->%negb_false_iff; eexists; done].
  wp_step. apply wp_ensure; [intros ->|intros ->; eexists; done]. cbn [negb].
  wp_step. apply wp_query. cbn [now set_locks]. wp_step.
  destruct (anchor_active w.(now) anchor); cbn [negb].
  2: { wp_step. apply wp_terminate_effect; [done|by left|done|]. intros n w' Heff _. wp_step. eexists. split; [done|].
       split; [done|exact Heff]. }
  wp_step. wp_step. destruct (lease_expired w.(now) s).
  { wp_step. apply wp_suspend_effect; [done|done|]. intros n w' Heff. wp_step. eexists. split; [done|]. split; [done|exact Heff]. }
  wp_step. wp_step. apply wp_require_record; cbn [db now set_locks].
  - intros ->. wp_steps. eexists. split; [done|]. split; [done|]. cbn. by destruct w as [[] ? ? ? ? ? ?].
  - intros ->. split; eexists; done.
Qed.

(** What [POST .../heartbeat] answers and does, once its body is accepted. *)
Definition heartbeat_outcome (req : option CaracalAuth) (z id : string) (b : HeartbeatBody) (w w' : World) (r : reply) : Prop :=
  let refused c e := r = error_reply c e /\ w'.(db) = w.(db) in
  match find_leased z id w.(db) with
  | None => refused 404 "session_not_found"
  | Some (s, anchor) =>
      if negb (manages req s.(Session.application_id)) then refused 403 "application_ownership_required"
      else if negb (is_live s) then refused 409 "session_not_live"
      else if negb (bool_decide (s.(Session.lifecycle) = ServiceLife)) then refused 409 "session_not_service"
      else if negb (anchor_active w.(now) anchor)
      then r = error_reply 409 "session_subject_inactive" /\ anchor_terminated w.(now) z id w.(db) w'.(db)
      else if negb (b.(HeartbeatBody.lease_generation) =? s.(Session.lease_generation))
      then refused 409 "session_lease_fenced"
      else if is_active s && lease_expired w.(now) s
      then r = error_reply 409 "session_lease_expired" /\ lease_suspended w.(now) z id w.(db) w'.(db)
      else if negb (record_presented w.(now) req z s.(Session.application_id) w.(db))
      then r.(code) = 401 /\ w'.(db) = w.(db)
      else (r.(code) = 200 /\ renewed id (renew_row w.(now) s) w.(db) w'.(db))
           \/ refused 404 "agent_service_not_found"
  end.

Lemma wp_touch_service z app b (Q : json -> World -> Prop) (E : exit reply -> World -> Prop) w :
  (forall j svc, Q j (set_db (set_agent_services svc w.(db)) w)) ->
  E (Rollback (error_reply 404 "agent_service_not_found")) w ->
  wp (touch_service z app b) Q E w.
Proof.
  intros HQ HE. unfold touch_service. destruct b.(HeartbeatBody.service_id) as [sid|].
  - wp_step. apply wp_query. destruct (match w.(db).(agent_services) !! sid with Some _ => _ | None => _ end) as [s|].
    + wp_steps. apply HQ.
    + by wp_step.
  - wp_step. specialize (HQ JNull w.(db).(agent_services)). by destruct w as [[] ? ? ? ? ? ?].
Qed.

Lemma heartbeat_tx_spec req z id b w :
  session_inv w.(db).(sessions) ->
  exists r, (run_tx (heartbeat_tx req z id b) w).1 = inl r
    /\ heartbeat_outcome req z id b w (run_tx (heartbeat_tx req z id b) w).2 r.
Proof.
  intros Hinv. apply run_tx_wp with (P := fun o w' => exists r, o = inl r /\ heartbeat_outcome req z id b w w' r).
  unfold heartbeat_tx, heartbeat_outcome. wp_step. apply wp_lock. wp_step. apply wp_query. cbn [db set_locks].
  destruct (find_leased z id w.(db)) as [[s anchor]|]; [|wp_steps; eexists; done].
  wp_step. apply wp_ensure; [intros ->|intros ->; eexists; done]. cbn [negb].
  wp_step. apply wp_ensure; [intros ->|intros ->; eexists; done]. cbn [negb].
  wp_step. apply wp_ensure; [intros ->|intros ->; eexists; done]. cbn [negb].
  wp_step. apply wp_query. cbn [now set_locks]. wp_step.
  destruct (anchor_active w.(now) anchor); cbn [negb].
  2: { wp_step. apply wp_terminate_effect; [done|by left|done|]. intros n w' Heff _. wp_step. eexists. split; [done|].
       split; [done|exact Heff]. }
  wp_step. wp_step. apply wp_ensure; [intros ->|intros ->; eexists; done]. cbn [negb]. wp_step.
  destruct (is_active s && lease_expired w.(now) s).
  { wp_step. apply wp_suspend_effect; [done|done|]. intros n w' Heff. wp_step. eexists. split; [done|]. split; [done|exact Heff]. }
  wp_step. wp_step. apply wp_require_record; cbn [db now set_locks].
  - intros ->. wp_step. apply wp_exec. wp_step. apply wp_touch_service.
    + intros j svc. wp_step. eexists. split; [done|]. left. split; [done|]. cbn. by destruct w as [[] ? ? ? ? ? ?].
    + eexists. split; [done|]. by right.
  - intros ->. split; eexists; done.
Qed.
End facts.

(** ** Theorems *)

(** A lease take-over on every branch: only an active service Session whose subject
    is still anchored and whose lease has not lapsed, for a caller that manages the
    application under a live application record, moves to the next generation with
    a fresh deadline; a lapsed lease suspends the Session instead, a lost subject
    terminates it, and every other refusal changes nothing. *)
Theorem leaseSession_spec `{Env} req z id w :
  session_inv w.(db).(sessions) -> CoordinatorIdPattern z = true -> CoordinatorIdPattern id = true ->
  let '(r, w') := leaseSession req z id w in lease_outcome req z id w w' r.
Proof.
  intros Hinv Hz Hid. unfold leaseSession. rewrite Hz, Hid. cbn [andb negb].
  destruct (lease_tx_spec req z id w Hinv) as (r & Hr & Ho). destruct (run_tx _ w) as [o w'].
  cbn in Hr. subst o. exact Ho.
Qed.

(** Heartbeats are fenced: one is accepted only under the Session's current lease
    generation and only moves the deadline; under any other generation it is refused
    and changes nothing, unless the subject is gone, which terminates the Session for
    whoever asks. *)
Theorem heartbeat_fenced `{Env} req z id b w s anchor :
  session_inv w.(db).(sessions) -> find_leased z id w.(db) = Some (s, anchor) ->
  let '(r, w') := heartbeat req z id b w in
  (r.(code) = 200 -> b.(HeartbeatBody.lease_generation) = s.(Session.lease_generation) /\ is_live s = true
     /\ anchor_active w.(now) anchor = true /\ renewed id (renew_row w.(now) s) w.(db) w'.(db))
  /\ (b.(HeartbeatBody.lease_generation) <> s.(Session.lease_generation) -> anchor_active w.(now) anchor = true ->
      r.(code) <> 200 /\ w'.(db) = w.(db)).
Proof.
  intros Hinv Hf. unfold heartbeat. destruct (negb _); [done|]. destruct (negb _); [done|].
  destruct (heartbeat_tx_spec req z id b w Hinv) as (r & Hr & Ho). destruct (run_tx _ w) as [o w'].
  cbn in Hr. subst o. cbn [respond snd] in *. unfold heartbeat_outcome in Ho. rewrite Hf in Ho.
  destruct (anchor_active w.(now) anchor) eqn:Ha.
  - repeat case_match; cbn [negb] in *; bool_props; try (destruct Ho as [-> Ho]; done); try (destruct Ho as [-> ?]; split; [done|lia]);
      try (destruct Ho as [Hc Ho]; split; [by rewrite Hc|intros; split; [by rewrite Hc|done]]).
    destruct Ho as [[Hc Hren]|[-> Hdb]]; [|done].
    match goal with E : (_ =? _) = true |- _ => apply Z.eqb_eq in E end. split; [done|lia].
  - repeat case_match; cbn [negb] in *; try done; destruct Ho as [-> Ho]; done.
Qed.

Lemma find_leased_row z id d s anchor :
  find_leased z id d = Some (s, anchor) -> d.(sessions) !! id = Some s /\ s.(Session.zone_id) = z
  /\ d.(authority_records) !! s.(Session.subject_authority_record_id) = Some anchor.
Proof.
  unfold find_leased. destruct (find_session z id d) as [s'|] eqn:Hf; [|done]. apply find_session_Some in Hf as [? ?].
  destruct (d.(authority_records) !! _) eqn:Ha; [|done]. intros. by simplify_eq.
Qed.

(** A take-over fences the previous holder: once a lease request succeeded, a
    heartbeat under the generation that was current before it is refused, at any
    later time, for as long as the Session row keeps the new generation. *)
Theorem takeover_fences_previous_holder `{Env} req req' z id b w v s anchor sv av :
  session_inv w.(db).(sessions) -> session_inv v.(db).(sessions) ->
  find_leased z id w.(db) = Some (s, anchor) -> (leaseSession req z id w).1.(code) = 200 ->
  find_leased z id v.(db) = Some (sv, av) ->
  (exists row, (leaseSession req z id w).2.(db).(sessions) !! id = Some row
     /\ sv.(Session.lease_generation) = row.(Session.lease_generation)) ->
  b.(HeartbeatBody.lease_generation) = s.(Session.lease_generation) ->
  (heartbeat req' z id b v).1.(code) <> 200.
Proof.
  intros Hinv Hinv' Hf Hcode Hfv (row & Hrow & Hgen) Hb.
  assert (row.(Session.lease_generation) = s.(Session.lease_generation) + 1) as Hnext.
  { unfold leaseSession in *. destruct (negb _); [done|].
    destruct (lease_tx_spec req z id w Hinv) as (r & Hr & Ho). destruct (run_tx _ w) as [o w']. cbn in Hr. subst o.
    cbn [respond fst snd] in *. unfold lease_outcome in Ho. rewrite Hf in Ho.
    repeat case_match; try (destruct Ho as [-> _]; done); destruct Ho as [Hc Ho]; [congruence|].
    unfold renewed in Ho. rewrite Ho in Hrow. cbn in Hrow. rewrite lookup_insert_eq in Hrow. simplify_eq. done. }
  pose proof (heartbeat_tx_spec req' z id b v Hinv') as (r & Hr & Ho). unfold heartbeat.
  destruct (negb _); [done|]. destruct (negb _); [done|]. destruct (run_tx _ v) as [o v']. cbn in Hr. subst o.
  cbn [respond fst snd] in *. unfold heartbeat_outcome in Ho. rewrite Hfv in Ho.
  repeat case_match; try (destruct Ho as [-> _]; done); cbn [negb] in *; bool_props;
    try (destruct Ho as [Hc _]; congruence); try lia.
Qed.

(** ** The governance invariant *)

Section governed.
Context `{UuidLaws}.

Lemma session_inv_replace (ss : SessionTable) id s row :
  ss !! id = Some s -> skeleton row = skeleton s -> session_inv ss -> session_inv (<[id := row]> ss).
Proof.
  intros Hs Hsk. apply session_inv_skeleton. intros k. destruct (decide (id = k)) as [<-|Hk].
  - rewrite lookup_insert_eq, Hs. cbn. by rewrite Hsk.
  - by rewrite lookup_insert_ne.
Qed.

Lemma replace_governed t d d' id s row :
  governed t d -> d.(sessions) !! id = Some s -> skeleton row = skeleton s ->
  row.(Session.application_id) = s.(Session.application_id) ->
  d'.(sessions) = <[id := row]> d.(sessions) -> d'.(resources) = d.(resources) ->
  d'.(delegation_edges) = d.(delegation_edges) -> governed t d'.
Proof.
  intros (Hwf & Hs & He) Hid Hsk Happ Hss Hrs Hes. destruct (skeleton_inv _ _ Hsk) as (Hz & _ & _ & _ & _ & Hl).
  unfold governed. rewrite Hss, Hrs, Hes. split_and!; [done|by eapply session_inv_replace|].
  eapply edge_inv_sessions; [|done]. intros k e _ (Hne & s1 & s2 & Hs1 & Hs2 & Hrest). split; [done|].
  assert (forall x y, d.(sessions) !! x = Some y -> exists y', <[id := row]> d.(sessions) !! x = Some y'
    /\ y'.(Session.zone_id) = y.(Session.zone_id) /\ y'.(Session.application_id) = y.(Session.application_id)
    /\ is_live y' = is_live y) as Hall.
  { intros x y Hx. destruct (decide (id = x)) as [<-|Hx']; [|exists y; by rewrite lookup_insert_ne].
    rewrite lookup_insert_eq. exists row. by simplify_eq. }
  destruct (Hall _ _ Hs1) as (y1 & Hy1 & Hz1 & Ha1 & Hl1), (Hall _ _ Hs2) as (y2 & Hy2 & Hz2 & Ha2 & Hl2).
  exists y1, y2. by rewrite Hz1, Ha1, Hl1, Hz2, Ha2, Hl2.
Qed.

Lemma renewed_governed t z d d' id s row :
  governed t d -> find_session z id d = Some s -> skeleton row = skeleton s ->
  row.(Session.application_id) = s.(Session.application_id) -> renewed id row d d' -> governed t d'.
Proof.
  intros Hg [Hs _]%find_session_Some Hsk Happ Hr. unfold renewed in Hr.
  eapply (replace_governed t d d' id s row); try done; by rewrite Hr.
Qed.

Lemma lease_outcome_governed req z id w w' r :
  lease_outcome req z id w w' r -> governed w.(now) w.(db) -> governed w.(now) w'.(db).
Proof.
  unfold lease_outcome. intros Ho Hg. destruct (find_leased z id w.(db)) as [[s anchor]|] eqn:Hf; [|by destruct Ho as [_ ->]].
  apply find_leased_row in Hf as (Hs & Hz & _).
  repeat case_match; destruct Ho as [_ Ho]; try (by rewrite Ho).
  - by eapply terminate_governed.
  - eapply subtree_governed; [|exact Ho|done]. intros s' Hp. split; [by apply suspend_skeleton|done].
  - eapply renewed_governed; [done|by apply find_session_Some| | |exact Ho]; reflexivity.
Qed.

Lemma heartbeat_outcome_governed req z id b w w' r :
  heartbeat_outcome req z id b w w' r -> governed w.(now) w.(db) -> governed w.(now) w'.(db).
Proof.
  unfold heartbeat_outcome. intros Ho Hg. destruct (find_leased z id w.(db)) as [[s anchor]|] eqn:Hf; [|by destruct Ho as [_ ->]].
  apply find_leased_row in Hf as (Hs & Hz & _).
  repeat case_match; try (destruct Ho as [_ Ho]; by rewrite Ho).
  - destruct Ho as [_ Ho]. by eapply terminate_governed.
  - destruct Ho as [_ Ho]. eapply subtree_governed; [|exact Ho|done]. intros s' Hp. split; [by apply suspend_skeleton|done].
  - destruct Ho as [[_ Ho]|[_ Ho]]; [|by rewrite Ho]. eapply renewed_governed; [done|by apply find_session_Some| | |exact Ho]; reflexivity.
Qed.

Lemma leaseSession_governed req z id w :
  governed w.(now) w.(db) -> governed w.(now) (leaseSession req z id w).2.(db).
Proof.
  intros Hg. pose proof Hg as (_ & Hs & _). unfold leaseSession. destruct (negb _); [done|]. rewrite respond_db.
  destruct (lease_tx_spec req z id w Hs) as (r & _ & Ho). by eapply lease_outcome_governed.
Qed.

Lemma heartbeat_governed req z id b w :
  governed w.(now) w.(db) -> governed w.(now) (heartbeat req z id b w).2.(db).
Proof.
  intros Hg. pose proof Hg as (_ & Hs & _). unfold heartbeat. destruct (negb _); [done|]. destruct (negb _); [done|].
  rewrite respond_db. destruct (heartbeat_tx_spec req z id b w Hs) as (r & _ & Ho). by eapply heartbeat_outcome_governed.
Qed.

Lemma registerService_governed isUrl req z body w :
  governed w.(now) w.(db) -> governed w.(now) (registerService isUrl req z body w).2.(db).
Proof.
  intros Hg. unfold registerService. repeat (case_match; [done|]). rewrite respond_db.
  apply (run_tx_preserves (governed w.(now))); [done|]. unfold register_tx. wp_step. apply wp_query. wp_step.
  apply wp_ensure; [intros _|done]. wp_step. apply wp_query. wp_step. apply wp_query.
  destruct (head _) as [[sid s]|]; [by wp_steps|]. wp_steps. done.
Qed.
End governed.
