(* ===== verification/Invocations.v ===== *)
(** * Durable invocations

    [apps/coordinator/src/routes/invocations.ts] and
    [apps/coordinator/src/jobs/deadline-enforcer.ts]: creating an invocation once per
    idempotency key, its start, cancel and complete transitions, the per-caller rate
    limit and the deadline sweep. *)

From S2P Require Import Prelude.
From S2P Require Import Json.
From S2P Require Import Schema.
From S2P Require Import Store.
From S2P Require Import Scope.
From S2P Require Import Auth.
From S2P Require Import Outbox.
From S2P Require Import Idempotency.
From S2P Require Import Sessions.
From S2P Require Import Listing.
From S2P Require Import Delegations.
From S2P Require Import SessionProps.
Local Open Scope string_scope.
Local Open Scope Z_scope.
Local Open Scope list_scope.

(** [InvocationBody], its defaults applied. *)
Module InvocationBody.
Record InvocationBody := MkInvocationBody {
  service_id : string;
  source_session_id : option string;
  target_session_id : option string;
  idempotency_key : string;
  method : string;
  params : json;
  metadata : list (string * json);
  timeout_ms : Z;
  max_attempts : Z;
  backoff_ms : Z
}.
End InvocationBody.
Notation InvocationBody := InvocationBody.InvocationBody.

(** [CompleteBody]. *)
Inductive completion := CompleteSucceeded | CompleteFailed.

Record CompleteBody := MkCompleteBody {
  complete_status : completion;
  complete_error : option (list (string * json));
  complete_metadata : list (string * json)
}.

Definition invocation_body_valid (b : InvocationBody) : bool :=
  nonempty b.(InvocationBody.service_id) && opt_all nonempty b.(InvocationBody.source_session_id)
  && opt_all nonempty b.(InvocationBody.target_session_id)
  && nonempty b.(InvocationBody.idempotency_key) && bool_decide (js_length b.(InvocationBody.idempotency_key) <= 255)%nat
  && nonempty b.(InvocationBody.method) && int_between 1 900000 b.(InvocationBody.timeout_ms)
  && int_between 1 10 b.(InvocationBody.max_attempts) && int_between 0 300000 b.(InvocationBody.backoff_ms).

Definition invocation_status_text (s : invocation_status) : string :=
  match s with
  | IPending => "pending" | IRunning => "running" | ISucceeded => "succeeded" | IFailed => "failed"
  | ICancelRequested => "cancel_requested" | ICanceled => "canceled" | ITimedOut => "timed_out" | IDead => "dead"
  end.

(** The columns of [INVOCATION_RETURNING] and [INVOCATION_SELECT]. *)
Definition invocation_json (id : string) (i : Invocation.InvocationRow) : json :=
  JObj [("id", JStr id); ("zone_id", JStr i.(Invocation.zone_id)); ("service_id", JStr i.(Invocation.service_id));
        ("source_session_id", JOpt JStr i.(Invocation.source_session_id));
        ("target_session_id", JOpt JStr i.(Invocation.target_session_id)); ("method", JStr i.(Invocation.method));
        ("status", JStr (invocation_status_text i.(Invocation.status))); ("attempts", JNum i.(Invocation.attempts));
        ("max_attempts", JNum i.(Invocation.max_attempts)); ("timeout_ms", JNum i.(Invocation.timeout_ms));
        ("retry_policy_json", i.(Invocation.retry_policy_json)); ("deadline_at", JOpt JTime i.(Invocation.deadline_at));
        ("cancel_requested_at", JOpt JTime i.(Invocation.cancel_requested_at));
        ("started_at", JOpt JTime i.(Invocation.started_at)); ("completed_at", JOpt JTime i.(Invocation.completed_at));
        ("created_at", JTime i.(Invocation.created_at))].

(** A Session an invocation may name: an active one within its TTL. *)
Definition invocable (t : Z) (z : string) (s : Session.SessionRow) : bool :=
  in_zone z s && is_active s
  && match s.(Session.ttl_seconds) with Some n => t <? s.(Session.started_at) + seconds n | None => false end.

(** [loadInvocationSessions]: [None] when a named Session is not invocable; equal
    ids are one row of the result but count twice among the ids. *)
Definition loadInvocationSessions (t : Z) (z : string) (source target : option string) (d : Db)
  : option (option Session.SessionRow) :=
  let ids := match source with Some s => [s] | None => [] end ++ match target with Some s => [s] | None => [] end in
  let byId := select (fun k s => bool_decide (k ∈ ids) && invocable t z s) d.(sessions) in
  if bool_decide (ids = []) then Some None
  else if negb (bool_decide (length byId = length ids)) then None
  else Some match source with Some s => d.(sessions) !! s | None => None end.

Definition authorizeInvocationCaller (req : option CaracalAuth) (app : string) : bool :=
  ownsApplication req app || requireScope req ("coordinator.invoke_from:" +:+ app) || requireScope req "coordinator.admin".

(** The application that owns the invocation's service. *)
Definition loadInvocationOwner (z id : string) (d : Db) : option (Invocation.InvocationRow * string) :=
  match d.(agent_invocations) !! id with
  | Some i =>
      if bool_decide (i.(Invocation.zone_id) = z) then
        match d.(agent_services) !! i.(Invocation.service_id) with
        | Some s => if bool_decide (s.(Service.zone_id) = i.(Invocation.zone_id))
                    then Some (i, s.(Service.application_id)) else None
        | None => None
        end
      else None
  | None => None
  end.

Definition retry_policy (b : InvocationBody) : json :=
  JObj [("max_attempts", JNum b.(InvocationBody.max_attempts)); ("backoff_ms", JNum b.(InvocationBody.backoff_ms))].

Definition new_invocation (t : Z) (z : string) (b : InvocationBody) : Invocation.InvocationRow :=
  Invocation.MkInvocationRow z b.(InvocationBody.service_id) b.(InvocationBody.source_session_id)
    b.(InvocationBody.target_session_id) b.(InvocationBody.method) b.(InvocationBody.params) b.(InvocationBody.metadata)
    IPending 0 b.(InvocationBody.max_attempts) b.(InvocationBody.timeout_ms) (retry_policy b) JNull None None None None t t.

Definition milliseconds (n : Z) : Z := n * 1000.

(** The [UPDATE] of [start]. *)
Definition start_row (t : Z) (i : Invocation.InvocationRow) : Invocation.InvocationRow :=
  Invocation.set_status IRunning (Invocation.set_attempts (i.(Invocation.attempts) + 1)
    (Invocation.set_started_at (Some t) (Invocation.set_completed_at None (Invocation.set_error_json JNull
      (Invocation.set_deadline_at (Some (t + milliseconds i.(Invocation.timeout_ms))) (Invocation.set_updated_at t i)))))).

Definition startable (i : Invocation.InvocationRow) : bool :=
  match i.(Invocation.status) with IPending | IFailed => true | _ => false end
  && (i.(Invocation.attempts) <? i.(Invocation.max_attempts)).

(** The [UPDATE] of [cancel]; [reason] is the merged metadata. *)
Definition cancel_row (t : Z) (reason : option string) (i : Invocation.InvocationRow) : Invocation.InvocationRow :=
  Invocation.set_status match i.(Invocation.status) with IPending | IFailed => ICanceled | _ => ICancelRequested end
    (Invocation.set_cancel_requested_at (Some t)
      (Invocation.set_metadata_json
         (spread i.(Invocation.metadata_json) match reason with Some r => [("cancel_reason", JStr r)] | None => [] end)
         (Invocation.set_updated_at t i))).

Definition cancelable (i : Invocation.InvocationRow) : bool :=
  match i.(Invocation.status) with ISucceeded | ICanceled | ITimedOut | IDead | IFailed => false | _ => true end.

(** The [UPDATE] of [complete]. *)
Definition complete_row (t : Z) (b : CompleteBody) (i : Invocation.InvocationRow) : Invocation.InvocationRow :=
  Invocation.set_status match b.(complete_status) with CompleteSucceeded => ISucceeded | CompleteFailed => IFailed end
    (Invocation.set_error_json match b.(complete_error) with Some e => JObj e | None => JNull end
      (Invocation.set_metadata_json (spread i.(Invocation.metadata_json) b.(complete_metadata))
        (Invocation.set_completed_at (Some t) (Invocation.set_updated_at t i)))).

Definition completable (i : Invocation.InvocationRow) : bool :=
  match i.(Invocation.status) with IRunning | ICancelRequested => true | _ => false end.

(** The key of an event names the attempt. *)
Definition invocation_event_key (event id : string) (attempt : Z) : string :=
  event +:+ ":" +:+ id +:+ ":" +:+ pretty attempt.

Definition invocation_item (z service id event : string) (attempt : Z) : OutboxItem :=
  MkItem InvocationsLifecycle (invocation_event_key event id attempt)
    [("event", JStr event); ("zone_id", JStr z); ("service_id", JStr service); ("invocation_id", JStr id)].

Section invocations.
Context `{Env}.

Definition enqueueInvocationEvent {R : Type} (z service id event : string) (attempt : Z) : Tx R unit :=
  let i := invocation_item z service id event attempt in enqueue i.(topic) i.(dedupeKey) i.(payload).

(** The redis key of the caller's current minute. *)
Definition rate_key (z subject : string) (time : Z) : string :=
  "coordinator:invocation_rl:" +:+ z +:+ ":" +:+ subject +:+ ":" +:+ pretty (to_ms time / 60000).

(** [INCR] on a key whose expiry may have passed. *)
Definition incr (key : string) (time : Z) (r : gmap string (Z * option Z)) : Z :=
  match r !! key with
  | Some (n, Some e) => if e <=? time then 1 else n + 1
  | Some (n, None) => n + 1
  | None => 1
  end.

(** [rateLimited]: the answer and the redis keys it leaves; [ip] stands in for an
    unauthenticated caller. *)
Definition rateLimited (req : option CaracalAuth) (ip z : string) (time : Z) (r : gmap string (Z * option Z))
  : bool * gmap string (Z * option Z) :=
  if cfg.(invocationRateLimitPerMin) <=? 0 then (false, r)
  else
    let key := rate_key z match req with Some a => a.(clientId) | None => ip end time in
    let count := incr key time r in
    let expiry := if count =? 1 then Some (time + seconds 90)
                  else match r !! key with Some (_, e) => e | None => None end in
    (cfg.(invocationRateLimitPerMin) <? count, <[key := (count, expiry)]> r).

Definition rate_limit {R : Type} (req : option CaracalAuth) (ip z : string) : Tx R bool := fun w =>
  let '(limited, r) := rateLimited req ip z w.(redis_time) w.(redis) in (inl limited, set_redis r w).

Definition create_invocation_tx (req : option CaracalAuth) (ip zoneId : string) (b : InvocationBody) (key : string)
  : Tx reply (exit reply) :=
  service ← query (fun _ d => match d.(agent_services) !! b.(InvocationBody.service_id) with
                              | Some s => if bool_decide (s.(Service.zone_id) = zoneId) then Some s else None
                              | None => None
                              end);
  match service with
  | None => rollback (error_reply 404 "agent_service_not_found")
  | Some svc =>
      sessions ← query (fun t => loadInvocationSessions t zoneId b.(InvocationBody.source_session_id)
                                   b.(InvocationBody.target_session_id));
      match sessions with
      | None => rollback (error_reply 404 "session_not_found")
      | Some source =>
          let sourceApp := match source with Some s => s.(Session.application_id) | None => svc.(Service.application_id) end in
          ensure (authorizeInvocationCaller req sourceApp) (error_reply 403 "invoker_ownership_required");;
          receipt ← startIdempotency (MkStartInput "invocation.create.v2" zoneId sourceApp key
            (JObj [("principal", principal_json req); ("service_id", JStr b.(InvocationBody.service_id));
                   ("source_session_id", JOpt JStr b.(InvocationBody.source_session_id));
                   ("target_session_id", JOpt JStr b.(InvocationBody.target_session_id));
                   ("method", JStr b.(InvocationBody.method)); ("params", b.(InvocationBody.params));
                   ("metadata", JObj b.(InvocationBody.metadata)); ("timeout_ms", JNum b.(InvocationBody.timeout_ms));
                   ("retry_policy", retry_policy b)])
            cfg.(idempotencyHmacKeys) cfg.(idempotencyMaxReceiptsPerScope));
          match receipt with
          | Conflict => rollback (error_message_reply 409 "idempotency_key_conflict"
              "idempotency_key was already used for a different invocation request")
          | Limit => rollback (error_reply 429 "idempotency_receipt_limit_exceeded")
          | Replayed status response _ => commit (MkReply status response true)
          | New kd rd =>
              limited ← rate_limit req ip zoneId;
              ensure (negb limited) (error_reply 429 "rate_limited");;
              id ← fresh_uuid;
              row ← query (fun t _ => new_invocation t zoneId b);
              free ← query (fun _ d => bool_decide (d.(agent_invocations) !! id = None));
              constraint free "agent_invocations_pkey";;
              exec (fun _ d => set_agent_invocations (<[id := row]> d.(agent_invocations)) d);;
              enqueueInvocationEvent zoneId b.(InvocationBody.service_id) id "invocation.created" row.(Invocation.attempts);;
              completeIdempotency (MkCompleteInput "invocation.create.v2" zoneId sourceApp kd rd "agent_invocation" id 201
                (invocation_json id row) cfg.(idempotencyRetentionSeconds));;
              mret (Commit (MkReply 201 (invocation_json id row) false))
          end
      end
  end.

(** [POST /zones/:zoneId/invocations]. *)
Definition createInvocation (req : option CaracalAuth) (ip zoneId : string) (b : InvocationBody) (w : World) : reply * World :=
  if negb (CoordinatorIdPattern zoneId) then (error_reply 400 "invalid_params", w)
  else if negb (invocation_body_valid b) then (errorHandler ZodError, w)
  else respond (run_tx (
    key ← parseIdempotencyKey (HOne b.(InvocationBody.idempotency_key));
    create_invocation_tx req ip zoneId b (default_to "" key)) w).

(** The transaction the three transitions share: [allowed] is the [WHERE] on the
    status, [f] the [SET], [event] the announced event. *)
Definition transition_tx (req : option CaracalAuth) (zoneId id : string) (allowed : Invocation.InvocationRow -> bool)
  (f : Z -> Invocation.InvocationRow -> Invocation.InvocationRow) (event refusal : string) : Tx reply (exit reply) :=
  owner ← query (fun _ => loadInvocationOwner zoneId id);
  match owner with
  | None => rollback (error_reply 404 "invocation_not_found")
  | Some (i, app) =>
      ensure (authorizeInvocationCaller req app) (error_reply 403 "invoker_ownership_required");;
      ensure (allowed i) (error_reply 409 refusal);;
      row ← query (fun t _ => f t i);
      exec (fun _ d => set_agent_invocations (<[id := row]> d.(agent_invocations)) d);;
      enqueueInvocationEvent zoneId row.(Invocation.service_id) id event row.(Invocation.attempts);;
      mret (Commit (MkReply 200 (invocation_json id row) false))
  end.

(** Parameters, then the rate limit, which counts refused requests too. *)
Definition limited_route (req : option CaracalAuth) (ip zoneId id : string) (handler : World -> reply * World) (w : World)
  : reply * World :=
  if negb (CoordinatorIdPattern zoneId && CoordinatorIdPattern id) then (error_reply 400 "invalid_params", w)
  else
    let '(limited, r) := rateLimited req ip zoneId w.(redis_time) w.(redis) in
    let w := set_redis r w in
    if limited then (error_reply 429 "rate_limited", w) else handler w.

(** [PATCH /zones/:zoneId/invocations/:id/start]. *)
Definition startInvocation (req : option CaracalAuth) (ip zoneId id : string) (w : World) : reply * World :=
  limited_route req ip zoneId id
    (fun w => respond (run_tx (transition_tx req zoneId id startable start_row "invocation.started" "invocation_not_startable") w)) w.

(** [PATCH /zones/:zoneId/invocations/:id/cancel]. *)
Definition cancelInvocation (req : option CaracalAuth) (ip zoneId id : string) (reason : option string) (w : World) : reply * World :=
  limited_route req ip zoneId id (fun w =>
    if negb (opt_all nonempty reason) then (errorHandler ZodError, w)
    else respond (run_tx (transition_tx req zoneId id cancelable (fun t => cancel_row t reason)
                            "invocation.cancel_requested" "invocation_not_cancelable") w)) w.

(** [PATCH /zones/:zoneId/invocations/:id/complete]. *)
Definition completeInvocation (req : option CaracalAuth) (ip zoneId id : string) (b : CompleteBody) (w : World) : reply * World :=
  limited_route req ip zoneId id (fun w =>
    respond (run_tx (transition_tx req zoneId id completable (fun t => complete_row t b)
      match b.(complete_status) with CompleteSucceeded => "invocation.succeeded" | CompleteFailed => "invocation.failed" end
      "invocation_not_completable") w)) w.

(** ** Reads *)

(** [GET /zones/:zoneId/invocations/:id]. *)
Definition getInvocation (zoneId id : string) (d : Db) : reply :=
  if negb (CoordinatorIdPattern zoneId && CoordinatorIdPattern id) then error_reply 400 "invalid_params"
  else match d.(agent_invocations) !! id with
  | Some i => if bool_decide (i.(Invocation.zone_id) = zoneId) then MkReply 200 (invocation_json id i) false
              else error_reply 404 "invocation_not_found"
  | None => error_reply 404 "invocation_not_found"
  end.

(** The operational columns of the listing: no payload bodies. *)
Definition invocation_list_json (ki : string * Invocation.InvocationRow) : json :=
  let i := ki.2 in
  JObj [("id", JStr ki.1); ("zone_id", JStr i.(Invocation.zone_id)); ("service_id", JStr i.(Invocation.service_id));
        ("source_session_id", JOpt JStr i.(Invocation.source_session_id));
        ("target_session_id", JOpt JStr i.(Invocation.target_session_id)); ("method", JStr i.(Invocation.method));
        ("status", JStr (invocation_status_text i.(Invocation.status))); ("attempts", JNum i.(Invocation.attempts));
        ("max_attempts", JNum i.(Invocation.max_attempts)); ("timeout_ms", JNum i.(Invocation.timeout_ms));
        ("deadline_at", JOpt JTime i.(Invocation.deadline_at)); ("started_at", JOpt JTime i.(Invocation.started_at));
        ("completed_at", JOpt JTime i.(Invocation.completed_at)); ("created_at", JTime i.(Invocation.created_at))].

(** [GET /zones/:zoneId/invocations]. *)
Definition listInvocations (zoneId : string) (limit : json) (cursor : option string) (status : option invocation_status)
  (service_id session_id : option string) (d : Db) : reply :=
  if negb (CoordinatorIdPattern zoneId) then error_reply 400 "invalid_params"
  else match (if opt_all nonempty service_id && opt_all nonempty session_id then ListQuery limit cursor else None) with
  | None => error_reply 400 "invalid_query"
  | Some (n, cursor) =>
      let in_z i := bool_decide (i.(Invocation.zone_id) = zoneId) in
      if match cursor with
         | Some c => match d.(agent_invocations) !! c with Some i => negb (in_z i) | None => true end
         | None => false
         end
      then error_reply 400 "invalid_cursor"
      else
        let rows := page (fun _ i => in_z i
            && opt_all (fun s => bool_decide (i.(Invocation.status) = s)) status
            && opt_all (fun s => bool_decide (i.(Invocation.service_id) = s)) service_id
            && opt_all (fun s => bool_decide (i.(Invocation.source_session_id) = Some s)
                                 || bool_decide (i.(Invocation.target_session_id) = Some s)) session_id)
          n cursor d.(agent_invocations) in
        MkReply 200 (JObj [("items", JArr (invocation_list_json <$> rows)); ("next_cursor", JOpt JStr (next_cursor n rows))]) false
  end.

(** ** The deadline sweep *)

Definition overdue (t : Z) (i : Invocation.InvocationRow) : bool :=
  bool_decide (i.(Invocation.status) = IRunning)
  && match i.(Invocation.deadline_at) with Some h => h <? t | None => false end.

Definition deadline_le (a b : string * Invocation.InvocationRow) : Prop :=
  default_to 0 a.2.(Invocation.deadline_at) <= default_to 0 b.2.(Invocation.deadline_at).

#[export] Instance deadline_le_dec : RelDecision deadline_le.
Proof. intros a b. unfold deadline_le. apply _. Defined.

(** [ORDER BY deadline_at LIMIT n]. *)
Definition overdue_batch (t : Z) (d : Db) : list (string * Invocation.InvocationRow) :=
  take (Z.to_nat cfg.(sweeperBatchSize)) (merge_sort deadline_le (select (fun _ => overdue t) d.(agent_invocations))).

Definition expire_row (t : Z) (i : Invocation.InvocationRow) : Invocation.InvocationRow :=
  Invocation.set_status (if i.(Invocation.attempts) <? i.(Invocation.max_attempts) then IFailed else ITimedOut)
    (Invocation.set_completed_at (Some t)
      (Invocation.set_error_json
         (JObj (spread (object_fields i.(Invocation.error_json)) [("reason", JStr "deadline_exceeded")]))
         (Invocation.set_updated_at t i))).

Definition expiry_item (ki : string * Invocation.InvocationRow) : OutboxItem :=
  invocation_item ki.2.(Invocation.zone_id) ki.2.(Invocation.service_id) ki.1
    ("invocation." +:+ invocation_status_text ki.2.(Invocation.status)) ki.2.(Invocation.attempts).

(** [runDeadlineSweep]; [acquired] is the answer of [pg_try_advisory_xact_lock]. *)
Definition deadline_sweep_tx (acquired : bool) : Tx Z (exit Z) :=
  ensure acquired 0;;
  rows ← query overdue_batch;
  t ← query (fun t _ => t);
  exec (fun t d => set_agent_invocations
    (update_where (fun k _ => bool_decide (k ∈ rows.*1)) (expire_row t) d.(agent_invocations)) d);;
  enqueueMany ((fun ki => expiry_item (ki.1, expire_row t ki.2)) <$> rows);;
  mret (Commit (Z.of_nat (length rows))).

Definition runDeadlineSweep (acquired : bool) (w : World) : (Z + exn) * World := run_tx (deadline_sweep_tx acquired) w.
End invocations.

(** * Properties of durable invocations

    The life of an invocation row across [apps/coordinator/src/routes/invocations.ts]
    and [apps/coordinator/src/jobs/deadline-enforcer.ts]: which status may follow
    which, what every branch of the transitions answers and writes, how often an
    invocation can be started, what the deadline sweep settles, and what the rate
    limit admits. *)

Notation InvocationTable := (gmap string Invocation.InvocationRow).

(** ** The life of a row *)

(** The single-row writes of the transitions and of the sweep, with the [WHERE] each
    carries. *)
Inductive row_step (t : Z) (i : Invocation.InvocationRow) : Invocation.InvocationRow -> Prop :=
| step_start : startable i = true -> row_step t i (start_row t i)
| step_cancel reason : cancelable i = true -> row_step t i (cancel_row t reason i)
| step_complete b : completable i = true -> row_step t i (complete_row t b i)
| step_expire : overdue t i = true -> row_step t i (expire_row t i).

(** The lifecycle the statuses are meant to follow. *)
Inductive status_step : invocation_status -> invocation_status -> Prop :=
| ss_start : status_step IPending IRunning
| ss_retry : status_step IFailed IRunning
| ss_cancel : status_step IPending ICanceled
| ss_cancel_request : status_step IRunning ICancelRequested
| ss_cancel_again : status_step ICancelRequested ICancelRequested
| ss_succeed : status_step IRunning ISucceeded
| ss_fail : status_step IRunning IFailed
| ss_late_succeed : status_step ICancelRequested ISucceeded
| ss_late_fail : status_step ICancelRequested IFailed
| ss_time_out : status_step IRunning ITimedOut.

Definition settled (i : Invocation.InvocationRow) : bool :=
  match i.(Invocation.status) with ISucceeded | ICanceled | ITimedOut | IDead => true | _ => false end.

(** What every row satisfies.  A running row has a deadline one timeout after its
    start and carries no error; only an invocation out of attempts times out. *)
Record invocation_wf (i : Invocation.InvocationRow) : Prop := {
  iw_max : 1 <= i.(Invocation.max_attempts) <= 10;
  iw_timeout : 1 <= i.(Invocation.timeout_ms) <= 900000;
  iw_attempts : 0 <= i.(Invocation.attempts) <= i.(Invocation.max_attempts);
  iw_unstarted : i.(Invocation.attempts) = 0 <-> i.(Invocation.started_at) = None;
  iw_status : match i.(Invocation.status) with
    | IPending | ICanceled => i.(Invocation.attempts) = 0 /\ i.(Invocation.completed_at) = None
    | IRunning => i.(Invocation.error_json) = JNull /\ i.(Invocation.completed_at) = None
        /\ exists s, i.(Invocation.started_at) = Some s
                     /\ i.(Invocation.deadline_at) = Some (s + milliseconds i.(Invocation.timeout_ms))
    | ICancelRequested => 0 < i.(Invocation.attempts) /\ is_Some i.(Invocation.cancel_requested_at)
    | ISucceeded | IFailed => 0 < i.(Invocation.attempts) /\ is_Some i.(Invocation.completed_at)
    | ITimedOut => i.(Invocation.attempts) = i.(Invocation.max_attempts) /\ is_Some i.(Invocation.completed_at)
    | IDead => False
    end
}.

Definition invocations_wf (m : InvocationTable) : Prop := forall k i, m !! k = Some i -> invocation_wf i.

(** A table after some rows took a step at [t] and new ones were inserted. *)
Definition evolves (t : Z) (m m' : InvocationTable) : Prop :=
  (forall k i, m !! k = Some i -> m' !! k = Some i \/ exists i', m' !! k = Some i' /\ row_step t i i')
  /\ (forall k i', m' !! k = Some i' -> m !! k = None ->
        exists z b, invocation_body_valid b = true /\ i' = new_invocation t z b).

Lemma row_step_status t i i' : row_step t i i' -> status_step i.(Invocation.status) i'.(Invocation.status).
Proof.
  intros [Hs|reason Hs|b Hs|Hs]; cbn; unfold startable, cancelable, completable, overdue in Hs.
  - destruct i.(Invocation.status); done || constructor.
  - destruct i.(Invocation.status); done || constructor.
  - destruct i.(Invocation.status), b.(complete_status); done || constructor.
  - apply andb_true_iff in Hs as [Hs _]. apply bool_decide_eq_true_1 in Hs. rewrite Hs.
    destruct (_ <? _); constructor.
Qed.

Lemma settled_no_step t i i' : settled i = true -> ~ row_step t i i'.
Proof.
  unfold settled. intros Ht Hs%row_step_status.
  destruct i.(Invocation.status) eqn:E; try done; inversion Hs.
Qed.

Lemma row_step_max t i i' : row_step t i i' -> i'.(Invocation.max_attempts) = i.(Invocation.max_attempts).
Proof. by intros []. Qed.

Lemma row_step_attempts t i i' : row_step t i i' -> i.(Invocation.attempts) <= i'.(Invocation.attempts).
Proof. intros []; cbn; lia. Qed.

Lemma started_some i : invocation_wf i -> 0 < i.(Invocation.attempts) -> i.(Invocation.started_at) <> None.
Proof. intros [_ _ _ Hu _] Hpos Hn. apply Hu in Hn. lia. Qed.

Lemma row_step_wf t i i' : row_step t i i' -> invocation_wf i -> invocation_wf i'.
Proof.
  intros Hs Hw. pose proof Hw as [Hm Ht Ha Hu Hst]. destruct Hs as [Hs|reason Hs|b Hs|Hs].
  - apply andb_true_iff in Hs as [Hs Hlt]. bool_props. split; cbn; try done; [lia| |].
    + split; [lia|done].
    + split_and!; [done|done|]. by exists t.
  - unfold cancelable in Hs. split; cbn; try done. destruct i.(Invocation.status); try done.
    + split; [|done]. destruct Hst as (_ & _ & s & Hsa & _). rewrite Hsa in Hu.
      destruct (decide (i.(Invocation.attempts) = 0)) as [E|]; [by apply Hu in E|lia].
    + destruct Hst. by split.
  - unfold completable in Hs. assert (0 < i.(Invocation.attempts)) as Hpos.
    { destruct i.(Invocation.status); try done; [|by destruct Hst]. destruct Hst as (_ & _ & s & Hsa & _). rewrite Hsa in Hu.
      destruct (decide (i.(Invocation.attempts) = 0)) as [E|]; [by apply Hu in E|lia]. }
    split; cbn; try done. destruct b.(complete_status); split; done.
  - apply andb_true_iff in Hs as [Hs _]. apply bool_decide_eq_true_1 in Hs. rewrite Hs in Hst.
    destruct Hst as (_ & _ & s & Hsa & _). rewrite Hsa in Hu.
    assert (i.(Invocation.attempts) <> 0) by (intros E; by apply Hu in E).
    split; cbn; try done; [by rewrite Hsa|]. destruct (Z.ltb_spec i.(Invocation.attempts) i.(Invocation.max_attempts)); split; try done; lia.
Qed.

Lemma new_invocation_wf t z b : invocation_body_valid b = true -> invocation_wf (new_invocation t z b).
Proof.
  unfold invocation_body_valid, int_between. intros Hb. bool_props. split; cbn; try done; lia.
Qed.

Lemma evolves_refl t m : evolves t m m.
Proof. split; [by left|]. intros. congruence. Qed.

Lemma evolves_wf t m m' : evolves t m m' -> invocations_wf m -> invocations_wf m'.
Proof.
  intros [Hold Hnew] Hw k i' Hi'. destruct (m !! k) as [i|] eqn:Hi.
  - destruct (Hold k i Hi) as [Hk|(j & Hj & Hs)]; simplify_eq; [by eapply Hw|]. eapply row_step_wf; [done|by eapply Hw].
  - destruct (Hnew k i' Hi' Hi) as (z & b & Hb & ->). by apply new_invocation_wf.
Qed.

Lemma evolves_step t m k i i' : m !! k = Some i -> row_step t i i' -> evolves t m (<[k := i']> m).
Proof.
  intros Hk Hs. split.
  - intros k' j Hj. destruct (decide (k = k')) as [<-|Hne]; [|left; by rewrite lookup_insert_ne].
    simplify_eq. right. exists i'. by rewrite lookup_insert_eq.
  - intros k' j Hj Hn. destruct (decide (k = k')) as [<-|Hne]; [congruence|]. rewrite lookup_insert_ne in Hj; congruence.
Qed.

(** Rows only ever move forward. *)
Lemma evolves_lookup t m m' k i : evolves t m m' -> m !! k = Some i ->
  exists i', m' !! k = Some i' /\ i'.(Invocation.max_attempts) = i.(Invocation.max_attempts)
    /\ i.(Invocation.attempts) <= i'.(Invocation.attempts).
Proof.
  intros [Hold _] Hk. destruct (Hold k i Hk) as [Hk'|(i' & Hk' & Hs)]; [by exists i|].
  exists i'. split_and!; [done|by eapply row_step_max|by eapply row_step_attempts].
Qed.

(** ** What the routes write *)

(** The transaction the three transitions share, on every branch. *)
Definition transition_outcome (req : option CaracalAuth) (z id : string) (allowed : Invocation.InvocationRow -> bool)
  (f : Z -> Invocation.InvocationRow -> Invocation.InvocationRow) (event refusal : string)
  (w : World) (r : reply) (w' : World) : Prop :=
  let refused c e := r = error_reply c e /\ w'.(db) = w.(db) in
  match loadInvocationOwner z id w.(db) with
  | None => refused 404 "invocation_not_found"
  | Some (i, app) =>
      if negb (authorizeInvocationCaller req app) then refused 403 "invoker_ownership_required"
      else if negb (allowed i) then refused 409 refusal
      else let row := f w.(now) i in
        r = MkReply 200 (invocation_json id row) false
        /\ exists o, w'.(db) = set_caracal_outbox o (set_agent_invocations (<[id := row]> w.(db).(agent_invocations)) w.(db))
             /\ outbox_extends w.(db).(caracal_outbox) o
                  [invocation_item z row.(Invocation.service_id) id event row.(Invocation.attempts)]
  end.

Lemma loadInvocationOwner_row z id d i app :
  loadInvocationOwner z id d = Some (i, app) -> d.(agent_invocations) !! id = Some i /\ i.(Invocation.zone_id) = z.
Proof.
  unfold loadInvocationOwner. destruct (d.(agent_invocations) !! id) as [j|]; [|done].
  destruct (bool_decide_reflect (j.(Invocation.zone_id) = z)); [|done]. destruct (d.(agent_services) !! _); [|done].
  case_bool_decide; [|done]. intros [= -> _]. done.
Qed.

Section facts.
Context `{Env}.

Lemma transition_spec req z id allowed f event refusal w :
  exists r, (run_tx (transition_tx req z id allowed f event refusal) w).1 = inl r
    /\ transition_outcome req z id allowed f event refusal w r
         (run_tx (transition_tx req z id allowed f event refusal) w).2.
Proof.
  apply run_tx_wp with (P := fun o w' => exists r, o = inl r /\ transition_outcome req z id allowed f event refusal w r w').
  unfold transition_tx, transition_outcome. wp_step. apply wp_query. cbn [db set_locks].
  destruct (loadInvocationOwner z id w.(db)) as [[i app]|]; [|wp_step; by eexists].
  wp_step. apply wp_ensure; [intros ->|intros ->; by eexists]. cbn [negb].
  wp_step. apply wp_ensure; [intros ->|intros ->; by eexists]. cbn [negb].
  wp_step. apply wp_query. wp_step. apply wp_exec. wp_step. apply wp_enqueue.
  intros w' (o & n & -> & Ho). wp_step. eexists. split; [done|]. split; [done|]. exists o. by split.
Qed.

(** The rate limit refuses, or the handler runs with only redis changed. *)
Lemma limited_route_cases req ip z id h w :
  limited_route req ip z id h w = (error_reply 400 "invalid_params", w)
  \/ exists r, limited_route req ip z id h w = (error_reply 429 "rate_limited", set_redis r w)
               \/ limited_route req ip z id h w = h (set_redis r w).
Proof.
  unfold limited_route. destruct (negb _); [by left|right]. destruct (rateLimited _ _ _ _ _) as [[] r]; exists r; auto.
Qed.

(** A route built on [transition_tx] keeps everything but invocations and the outbox,
    and the invocations evolve. *)
Definition invocation_effect (w w' : World) : Prop :=
  evolves w.(now) w.(db).(agent_invocations) w'.(db).(agent_invocations)
  /\ w'.(db).(applications) = w.(db).(applications) /\ w'.(db).(authority_records) = w.(db).(authority_records)
  /\ w'.(db).(resources) = w.(db).(resources) /\ w'.(db).(sessions) = w.(db).(sessions)
  /\ w'.(db).(agent_topology) = w.(db).(agent_topology) /\ w'.(db).(delegation_edges) = w.(db).(delegation_edges)
  /\ w'.(db).(agent_services) = w.(db).(agent_services).

Lemma invocation_effect_refl w w' : w'.(db) = w.(db) -> invocation_effect w w'.
Proof. unfold invocation_effect. intros ->. split_and!; try done. apply evolves_refl. Qed.

Lemma transition_effect req z id allowed f event refusal w r w' :
  (forall i, allowed i = true -> row_step w.(now) i (f w.(now) i)) ->
  transition_outcome req z id allowed f event refusal w r w' -> invocation_effect w w'.
Proof.
  intros Hf. unfold transition_outcome. destruct (loadInvocationOwner z id w.(db)) as [[i app]|] eqn:Hl.
  2: { intros [_ Hd]. by apply invocation_effect_refl. }
  apply loadInvocationOwner_row in Hl as [Hi _].
  destruct (negb _). { intros [_ Hd]. by apply invocation_effect_refl. }
  destruct (allowed i) eqn:Ha; cbn [negb]; [|intros [_ Hd]; by apply invocation_effect_refl].
  intros (_ & o & Hd & _). unfold invocation_effect. rewrite Hd. cbn. split_and!; try done.
  eapply evolves_step; [done|by apply Hf].
Qed.

Lemma transition_route_effect req ip z id allowed f event refusal w :
  (forall i, allowed i = true -> row_step w.(now) i (f w.(now) i)) ->
  invocation_effect w (limited_route req ip z id (fun w => respond (run_tx (transition_tx req z id allowed f event refusal) w)) w).2.
Proof.
  intros Hf. destruct (limited_route_cases req ip z id (fun w => respond (run_tx (transition_tx req z id allowed f event refusal) w)) w)
    as [->|[r [->| ->]]]; [by apply invocation_effect_refl..|]. rewrite respond_db.
  destruct (transition_spec req z id allowed f event refusal (set_redis r w)) as (rep & _ & Ho).
  by apply (transition_effect _ _ _ _ _ _ _ (set_redis r w)) in Ho.
Qed.

Lemma startInvocation_effect req ip z id w : invocation_effect w (startInvocation req ip z id w).2.
Proof. apply transition_route_effect. by constructor. Qed.

Lemma completeInvocation_effect req ip z id b w : invocation_effect w (completeInvocation req ip z id b w).2.
Proof. apply transition_route_effect. by constructor. Qed.

Lemma cancelInvocation_effect req ip z id reason w : invocation_effect w (cancelInvocation req ip z id reason w).2.
Proof.
  unfold cancelInvocation. destruct (opt_all nonempty reason); cbn [negb].
  - apply transition_route_effect. by constructor.
  - unfold limited_route. destruct (negb _); [by apply invocation_effect_refl|].
    destruct (rateLimited _ _ _ _ _) as [[] r]; by apply invocation_effect_refl.
Qed.

(** A committed creation. *)
Record created_invocation (req : option CaracalAuth) (z : string) (b : InvocationBody) (id : string)
  (w w' : World) (r : reply) : Prop := {
  ci_reply : r = MkReply 201 (invocation_json id (new_invocation w.(now) z b)) false;
  ci_fresh : w.(db).(agent_invocations) !! id = None;
  ci_service : exists svc, w.(db).(agent_services) !! b.(InvocationBody.service_id) = Some svc
    /\ svc.(Service.zone_id) = z
    /\ exists source, loadInvocationSessions w.(now) z b.(InvocationBody.source_session_id)
                        b.(InvocationBody.target_session_id) w.(db) = Some source
    /\ authorizeInvocationCaller req match source with
         | Some s => s.(Session.application_id) | None => svc.(Service.application_id) end = true;
  ci_table : w'.(db).(agent_invocations) = <[id := new_invocation w.(now) z b]> w.(db).(agent_invocations);
  ci_announced : outbox_extends w.(db).(caracal_outbox) w'.(db).(caracal_outbox)
    [invocation_item z b.(InvocationBody.service_id) id "invocation.created" 0];
  ci_core : w'.(db).(applications) = w.(db).(applications) /\ w'.(db).(authority_records) = w.(db).(authority_records)
    /\ w'.(db).(resources) = w.(db).(resources) /\ w'.(db).(sessions) = w.(db).(sessions)
    /\ w'.(db).(agent_topology) = w.(db).(agent_topology) /\ w'.(db).(delegation_edges) = w.(db).(delegation_edges)
    /\ w'.(db).(agent_services) = w.(db).(agent_services)
}.

(** What a committed transaction of the route did: replayed, or created. *)
Definition create_committed (req : option CaracalAuth) (z : string) (b : InvocationBody) (w : World) (r : reply) (w' : World) : Prop :=
  (r.(replay_header) = true /\ w'.(db) = set_receipts w'.(db).(receipts) w.(db))
  \/ created_invocation req z b (uuidv7 w.(uuids)) w w' r.

Lemma wp_create_invocation req ip z b key (E : exit reply -> World -> Prop) w :
  (forall r w', r.(code) <> 201 -> E (Rollback r) w') -> (forall e w', E (Raise e) w') ->
  (forall r w', create_committed req z b w r w' -> E (Commit r) w') ->
  wp (create_invocation_tx req ip z b key) E E w.
Proof.
  intros HE HR HC. unfold create_invocation_tx. wp_step. apply wp_query.
  destruct (w.(db).(agent_services) !! _) as [svc|] eqn:Hsvc; [|wp_step; by apply HE].
  destruct (bool_decide_reflect (svc.(Service.zone_id) = z)) as [Hz|]; [|wp_step; by apply HE].
  wp_step. apply wp_query. destruct (loadInvocationSessions _ _ _ _ _) as [source|] eqn:Hl; [|wp_step; by apply HE].
  wp_step. apply wp_ensure; [intros Hauth|intros _; by apply HE]. wp_step.
  apply wp_startIdempotency; [|intros _; apply HR]. intros h st l _.
  destruct (start_outcome _ _ _ _) as [kd rd|rs rj ri| |]; [|wp_step|wp_step; by apply HE..].
  2: { apply HC. left. split; [done|]. cbn. by destruct w as [[] ? ? ? ? ? ?]. }
  wp_step. unfold rate_limit. unfold wp at 1. destruct (rateLimited _ _ _ _ _) as [limited rd'].
  wp_step. apply wp_ensure; [intros _|intros _; by apply HE]. wp_step. apply wp_fresh. wp_step. apply wp_query.
  wp_step. apply wp_query. wp_step. apply wp_constraint; [intros Hfree%bool_decide_eq_true_1|intros _; apply HR].
  wp_step. apply wp_exec. wp_step. apply wp_enqueue. intros w' (o & n & -> & Ho).
  wp_step. apply wp_completeIdempotency; [|intros; apply HR]. intros rid m st' _. wp_step. apply HC. right.
  split; cbn in *; try done. eauto 10.
Qed.

Lemma errorHandler_code e : (errorHandler e).(code) <> 201.
Proof. by destruct e. Qed.

Lemma createInvocation_cases req ip z b w :
  let '(r, w') := createInvocation req ip z b w in
  (r.(code) <> 201 /\ w'.(db) = w.(db)) \/ (invocation_body_valid b = true /\ create_committed req z b w r w').
Proof.
  unfold createInvocation. destruct (negb (CoordinatorIdPattern z)); [by left|].
  destruct (invocation_body_valid b) eqn:Hb; cbn [negb]; [|by left].
  set (P := fun (o : reply + exn) w' => match o with
    | inl r => (r.(code) <> 201 /\ w'.(db) = w.(db)) \/ create_committed req z b w r w'
    | inr _ => w'.(db) = w.(db) end).
  pose proof (run_tx_wp (parseIdempotencyKey (HOne b.(InvocationBody.idempotency_key)) ≫= fun key =>
     create_invocation_tx req ip z b (default_to "" key)) w P) as Hwp.
  destruct (run_tx _ w) as [o w']. assert (P o w') as HP.
  { apply Hwp. clear Hwp. wp_step. unfold parseIdempotencyKey.
    destruct (_ || _); [by wp_steps|]. destruct (_ || _); [by wp_steps|]. wp_step. apply wp_create_invocation.
    - intros r v Hr. by left.
    - done.
    - intros r v [Hc|[]]; right; [by left|by right]. }
  destruct o as [r|e]; cbn in *; [naive_solver|]. left. split; [apply errorHandler_code|done].
Qed.

Lemma createInvocation_effect req ip z b w : invocation_effect w (createInvocation req ip z b w).2.
Proof.
  pose proof (createInvocation_cases req ip z b w) as Hc. destruct (createInvocation req ip z b w) as [r w'].
  cbn [snd]. destruct Hc as [[_ Hd]|[Hb [[_ Hd]|Hc]]]; [by apply invocation_effect_refl| |].
  - unfold invocation_effect. rewrite Hd. cbn. split_and!; try done. apply evolves_refl.
  - destruct Hc as [_ Hfresh _ Htab _ Hcore]. split; [|exact Hcore]. rewrite Htab. split.
    + intros k i Hk. left. rewrite lookup_insert_ne; [done|congruence].
    + intros k i Hk Hn. destruct (decide (uuidv7 w.(uuids) = k)) as [<-|Hne].
      * rewrite lookup_insert_eq in Hk. injection Hk as <-. eauto.
      * rewrite lookup_insert_ne in Hk; congruence.
Qed.

(** *** The deadline sweep *)

#[local] Instance deadline_le_total : Total deadline_le.
Proof. intros a b. unfold deadline_le. lia. Qed.

#[local] Instance deadline_le_trans : Transitive deadline_le.
Proof. intros a b c. unfold deadline_le. lia. Qed.

Lemma elem_of_overdue_batch t d k i :
  (k, i) ∈ overdue_batch t d -> d.(agent_invocations) !! k = Some i /\ overdue t i = true.
Proof.
  unfold overdue_batch. intros Hin%elem_of_take.
  destruct Hin as (j & Hj & _). apply list_elem_of_lookup_2 in Hj. rewrite merge_sort_Permutation in Hj.
  by apply elem_of_select in Hj.
Qed.

(** How many rows one sweep takes, and that it takes the earliest deadlines. *)
Lemma overdue_batch_length t d :
  length (overdue_batch t d)
  = (Z.to_nat cfg.(sweeperBatchSize) `min` length (select (fun _ => overdue t) d.(agent_invocations)))%nat.
Proof. unfold overdue_batch. by rewrite length_take, merge_sort_Permutation. Qed.

Lemma overdue_batch_earliest t d k i k' i' :
  (k, i) ∈ overdue_batch t d -> d.(agent_invocations) !! k' = Some i' -> overdue t i' = true ->
  (k', i') ∉ overdue_batch t d -> deadline_le (k, i) (k', i').
Proof.
  unfold overdue_batch. set (l := merge_sort deadline_le _). set (n := Z.to_nat _). intros Hin Hk' Ho' Hout.
  assert ((k', i') ∈ l) as Hl. { unfold l. rewrite merge_sort_Permutation. by apply elem_of_select. }
  assert (StronglySorted deadline_le l) as Hss by apply (StronglySorted_merge_sort _ _).
  rewrite <-(take_drop n l) in Hl, Hss. apply elem_of_app in Hl as [Hl|Hl]; [done|].
  apply StronglySorted_app in Hss as (Hss & _). by apply Hss.
Qed.

(** The table after the sweep. *)
Definition swept (t : Z) (rows : list (string * Invocation.InvocationRow)) (m : InvocationTable) : InvocationTable :=
  update_where (fun k _ => bool_decide (k ∈ rows.*1)) (expire_row t) m.

Lemma deadline_sweep_spec acquired w :
  let rows := overdue_batch w.(now) w.(db) in
  let '(r, w') := runDeadlineSweep acquired w in
  if acquired then
    r = inl (Z.of_nat (length rows))
    /\ exists o, w'.(db) = set_caracal_outbox o (set_agent_invocations (swept w.(now) rows w.(db).(agent_invocations)) w.(db))
       /\ outbox_extends w.(db).(caracal_outbox) o
            ((fun ki => expiry_item (ki.1, expire_row w.(now) ki.2)) <$> rows)
  else r = inl 0 /\ w'.(db) = w.(db).
Proof.
  cbv zeta. unfold runDeadlineSweep.
  pose proof (run_tx_wp (deadline_sweep_tx acquired) w (fun r w' =>
    if acquired then r = inl (Z.of_nat (length (overdue_batch w.(now) w.(db))))
      /\ exists o, w'.(db) = set_caracal_outbox o (set_agent_invocations
           (swept w.(now) (overdue_batch w.(now) w.(db)) w.(db).(agent_invocations)) w.(db))
         /\ outbox_extends w.(db).(caracal_outbox) o
              ((fun ki => expiry_item (ki.1, expire_row w.(now) ki.2)) <$> overdue_batch w.(now) w.(db))
    else r = inl 0 /\ w'.(db) = w.(db))) as Hwp.
  destruct (run_tx _ w) as [r w']. apply Hwp. clear Hwp. unfold deadline_sweep_tx. wp_step.
  apply wp_ensure; [intros ->|by intros ->]. wp_step. apply wp_query. wp_step. apply wp_query.
  wp_step. apply wp_exec. wp_step. apply wp_enqueueMany. intros v (o & n & -> & Ho). wp_step.
  split; [done|]. exists o. split; [done|exact Ho].
Qed.

Lemma batch_key t d k i :
  d.(agent_invocations) !! k = Some i -> k ∈ (overdue_batch t d).*1 <-> (k, i) ∈ overdue_batch t d.
Proof.
  intros Hk. rewrite list_elem_of_fmap. split; [|intros Hin; by exists (k, i)].
  intros ([k' i'] & -> & Hin). destruct (elem_of_overdue_batch _ _ _ _ Hin). cbn in *. by simplify_eq.
Qed.

Lemma swept_lookup t d k i :
  d.(agent_invocations) !! k = Some i ->
  (k, i) ∈ overdue_batch t d /\ swept t (overdue_batch t d) d.(agent_invocations) !! k = Some (expire_row t i)
  \/ (k, i) ∉ overdue_batch t d /\ swept t (overdue_batch t d) d.(agent_invocations) !! k = Some i.
Proof.
  intros Hk. unfold swept. rewrite lookup_update_where, Hk. cbn. rewrite <-(batch_key t d k i Hk).
  case_bool_decide; auto.
Qed.

Lemma sweep_effect acquired w : invocation_effect w (runDeadlineSweep acquired w).2.
Proof.
  pose proof (deadline_sweep_spec acquired w) as Hs. cbv zeta in Hs. destruct (runDeadlineSweep acquired w) as [r w'].
  cbn [snd]. destruct acquired; [|destruct Hs as [_ Hd]; by apply invocation_effect_refl].
  destruct Hs as (_ & o & Hd & _). unfold invocation_effect. rewrite Hd. cbn. split_and!; try done. split.
  - intros k i Hk. destruct (swept_lookup w.(now) _ _ _ Hk) as [[Hin ->]|[_ ->]]; [|by left]. right.
    eexists. split; [done|]. constructor. by apply elem_of_overdue_batch in Hin as [_ ?].
  - intros k i Hk Hn. unfold swept in Hk. rewrite lookup_update_where, Hn in Hk. done.
Qed.
End facts.

(** ** Theorems *)

(** Start, cancel and complete on every branch: an unknown invocation, a caller that
    may not act for the owning application, or a status the transition does not admit
    is refused without any effect; otherwise exactly this row takes its step, the reply
    is the new row, and one event keyed by the attempt is queued with it.  The rate
    limit before them only touches redis. *)
Theorem invocation_transitions `{Env} req ip z id reason b w :
  CoordinatorIdPattern z = true -> CoordinatorIdPattern id = true -> opt_all nonempty reason = true ->
  let limited := rateLimited req ip z w.(redis_time) w.(redis) in
  let answers (o : reply * World) allowed f event refusal :=
    if limited.1 then o = (error_reply 429 "rate_limited", set_redis limited.2 w)
    else transition_outcome req z id allowed f event refusal (set_redis limited.2 w) o.1 o.2 in
  answers (startInvocation req ip z id w) startable start_row "invocation.started" "invocation_not_startable"
  /\ answers (cancelInvocation req ip z id reason w) cancelable (fun t => cancel_row t reason)
       "invocation.cancel_requested" "invocation_not_cancelable"
  /\ answers (completeInvocation req ip z id b w) completable (fun t => complete_row t b)
       match b.(complete_status) with CompleteSucceeded => "invocation.succeeded" | CompleteFailed => "invocation.failed" end
       "invocation_not_completable".
Proof.
  intros Hz Hid Hr. cbv zeta.
  assert (forall allowed f event refusal,
    let o := limited_route req ip z id (fun w => respond (run_tx (transition_tx req z id allowed f event refusal) w)) w in
    let limited := rateLimited req ip z w.(redis_time) w.(redis) in
    if limited.1 then o = (error_reply 429 "rate_limited", set_redis limited.2 w)
    else transition_outcome req z id allowed f event refusal (set_redis limited.2 w) o.1 o.2) as Hall.
  { intros allowed f event refusal. cbv zeta. unfold limited_route. rewrite Hz, Hid. cbn [andb negb].
    destruct (rateLimited _ _ _ _ _) as [[] r]; [done|]. cbn [fst snd].
    destruct (transition_spec req z id allowed f event refusal (set_redis r w)) as (rep & Hrep & Ho).
    destruct (run_tx _ (set_redis r w)) as [o w']. cbn in Hrep. by subst o. }
  split_and!; [apply Hall| |apply Hall]. unfold cancelInvocation. rewrite Hr. apply Hall.
Qed.

(** The deadline sweep takes the overdue running invocations with the earliest
    deadlines, as many as its batch allows: each becomes failed while it has attempts
    left and timed out otherwise, with its event queued; every other row is untouched;
    when the batch holds them all no overdue invocation is left; and without the lock
    nothing happens. *)
Theorem deadline_sweep_settles `{Env} acquired w :
  let m := w.(db).(agent_invocations) in
  let rows := overdue_batch w.(now) w.(db) in
  let '(r, w') := runDeadlineSweep acquired w in
  if acquired then
    r = inl (Z.of_nat (length rows))
    /\ length rows = (Z.to_nat cfg.(sweeperBatchSize) `min` length (select (fun _ => overdue w.(now)) m))%nat
    /\ (forall k i, m !! k = Some i ->
          ((k, i) ∈ rows /\ overdue w.(now) i = true
             /\ w'.(db).(agent_invocations) !! k = Some (expire_row w.(now) i)
             /\ is_Some (w'.(db).(caracal_outbox) !! item_key (expiry_item (k, expire_row w.(now) i)))
           \/ (k, i) ∉ rows /\ w'.(db).(agent_invocations) !! k = Some i
             /\ (overdue w.(now) i = true -> forall k' i', (k', i') ∈ rows -> deadline_le (k', i') (k, i))))
    /\ ((length (select (fun _ => overdue w.(now)) m) <= Z.to_nat cfg.(sweeperBatchSize))%nat ->
        select (fun _ => overdue w.(now)) w'.(db).(agent_invocations) = [])
  else r = inl 0 /\ w'.(db) = w.(db).
Proof.
  cbv zeta. pose proof (deadline_sweep_spec acquired w) as Hs. cbv zeta in Hs.
  destruct (runDeadlineSweep acquired w) as [r w']. destruct acquired; [|done].
  destruct Hs as (-> & o & Hd & _ & Hev & _). rewrite Hd. cbn [agent_invocations caracal_outbox set_caracal_outbox set_agent_invocations].
  split; [done|]. split; [apply overdue_batch_length|]. split.
  - intros k i Hk. destruct (swept_lookup w.(now) _ _ _ Hk) as [[Hin ->]|[Hin ->]].
    + left. split_and!; [done|by apply elem_of_overdue_batch in Hin as []|done|]. apply Hev, list_elem_of_fmap. by exists (k, i).
    + right. split_and!; [done|done|]. intros Ho k' i' Hin'. by eapply overdue_batch_earliest.
  - intros Hle. apply select_nil. intros k i' Hk'.
    assert (exists i, w.(db).(agent_invocations) !! k = Some i) as [i Hk].
    { unfold swept in Hk'. rewrite lookup_update_where in Hk'. destruct (_ !! k); [eauto|done]. }
    destruct (swept_lookup w.(now) _ _ _ Hk) as [[Hin Hs]|[Hin Hs]]; rewrite Hs in Hk'; simplify_eq.
    + unfold overdue. cbn. by destruct (_ <? _).
    + destruct (overdue w.(now) i') eqn:Ho; [|done]. destruct Hin. unfold overdue_batch.
      rewrite take_ge by by rewrite merge_sort_Permutation. rewrite merge_sort_Permutation. by apply elem_of_select.
Qed.

(** ** Runs of the invocation routes *)

(** The operations on invocations, and the passing of time, which may also change
    the other tables. *)
Inductive invocation_call :=
| CallCreate (req : option CaracalAuth) (ip zoneId : string) (b : InvocationBody)
| CallStart (req : option CaracalAuth) (ip zoneId id : string)
| CallCancel (req : option CaracalAuth) (ip zoneId id : string) (reason : option string)
| CallComplete (req : option CaracalAuth) (ip zoneId id : string) (b : CompleteBody)
| CallSweep (acquired : bool)
| CallElapse (w : World).

Section runs.
Context `{Env}.

(** The status code of a call, 0 for the sweep and for elapsed time, and its effect. *)
Definition perform (c : invocation_call) (w : World) : Z * World :=
  match c with
  | CallCreate req ip z b => let '(r, w') := createInvocation req ip z b w in (r.(code), w')
  | CallStart req ip z id => let '(r, w') := startInvocation req ip z id w in (r.(code), w')
  | CallCancel req ip z id reason => let '(r, w') := cancelInvocation req ip z id reason w in (r.(code), w')
  | CallComplete req ip z id b => let '(r, w') := completeInvocation req ip z id b w in (r.(code), w')
  | CallSweep acquired => (0, (runDeadlineSweep acquired w).2)
  | CallElapse v => (0, set_db (set_agent_invocations w.(db).(agent_invocations) v.(db)) v)
  end.

Fixpoint run_calls (cs : list invocation_call) (w : World) : World :=
  match cs with [] => w | c :: cs => run_calls cs (perform c w).2 end.

Definition is_start (id : string) (c : invocation_call) : bool :=
  match c with CallStart _ _ _ id' => bool_decide (id' = id) | _ => false end.

(** How many of the calls started [id]. *)
Fixpoint starts (id : string) (cs : list invocation_call) (w : World) : Z :=
  match cs with
  | [] => 0
  | c :: cs => (if is_start id c && ((perform c w).1 =? 200) then 1 else 0) + starts id cs (perform c w).2
  end.

Lemma perform_evolves c w :
  exists t, evolves t w.(db).(agent_invocations) (perform c w).2.(db).(agent_invocations).
Proof.
  destruct c as [req ip z b|req ip z id|req ip z id reason|req ip z id b|acquired|v]; cbn [perform].
  - exists w.(now). pose proof (createInvocation_effect req ip z b w) as [He _]. by destruct (createInvocation _ _ _ _ _).
  - exists w.(now). pose proof (startInvocation_effect req ip z id w) as [He _]. by destruct (startInvocation _ _ _ _ _).
  - exists w.(now). pose proof (cancelInvocation_effect req ip z id reason w) as [He _]. by destruct (cancelInvocation _ _ _ _ _ _).
  - exists w.(now). pose proof (completeInvocation_effect req ip z id b w) as [He _]. by destruct (completeInvocation _ _ _ _ _ _).
  - exists w.(now). by pose proof (sweep_effect acquired w) as [He _].
  - exists 0. apply evolves_refl.
Qed.

(** A start that answers 200 used up one attempt that was left. *)
Lemma start_uses_attempt req ip z id w i :
  w.(db).(agent_invocations) !! id = Some i -> (startInvocation req ip z id w).1.(code) = 200 ->
  i.(Invocation.attempts) < i.(Invocation.max_attempts)
  /\ (startInvocation req ip z id w).2.(db).(agent_invocations) !! id = Some (start_row w.(now) i).
Proof.
  intros Hi. unfold startInvocation.
  destruct (limited_route_cases req ip z id (fun w => respond (run_tx (transition_tx req z id startable start_row
    "invocation.started" "invocation_not_startable") w)) w) as [->|[r [->| ->]]]; [done..|].
  destruct (transition_spec req z id startable start_row "invocation.started" "invocation_not_startable" (set_redis r w))
    as (rep & Hrep & Ho). destruct (run_tx _ _) as [o w']. cbn in Hrep. subst o. cbn [respond fst snd] in *.
  unfold transition_outcome in Ho. cbn [db set_redis] in Ho.
  destruct (loadInvocationOwner z id w.(db)) as [[j app]|] eqn:Hl; [|by destruct Ho as [-> _]].
  apply loadInvocationOwner_row in Hl as [Hj _]. rewrite Hi in Hj. injection Hj as <-.
  destruct (negb _); [by destruct Ho as [-> _]|]. destruct (startable i) eqn:Hs; cbn [negb] in Ho; [|by destruct Ho as [-> _]].
  destruct Ho as (-> & o & -> & _). intros _. cbn. rewrite lookup_insert_eq. split; [|done].
  apply andb_true_iff in Hs as [_ Hs]. by bool_props.
Qed.

(** An invocation is executed at most [max_attempts] times: along any run of the
    invocation routes, deadline sweeps and elapsed time, the starts that succeed for it
    never exceed the attempts it had left. *)
Theorem starts_bounded cs w id i :
  invocations_wf w.(db).(agent_invocations) -> w.(db).(agent_invocations) !! id = Some i ->
  starts id cs w <= i.(Invocation.max_attempts) - i.(Invocation.attempts).
Proof.
  revert w i. induction cs as [|c cs IH]; intros w i Hw Hi; cbn [starts].
  { destruct (Hw _ _ Hi). lia. }
  destruct (perform_evolves c w) as [t He]. pose proof (evolves_wf _ _ _ He Hw) as Hw'.
  destruct (evolves_lookup _ _ _ _ _ He Hi) as (i' & Hi' & Hmax & Hatt). specialize (IH _ _ Hw' Hi').
  destruct (is_start id c && _) eqn:Hs; [|lia]. apply andb_true_iff in Hs as [Hc Hcode%Z.eqb_eq].
  destruct c as [| req ip z id' | | | |]; try done. apply bool_decide_eq_true_1 in Hc as ->. cbn [perform] in *.
  destruct (start_uses_attempt req ip z id w i Hi) as [Hlt Hrow]. { by destruct (startInvocation req ip z id w). }
  destruct (startInvocation req ip z id w) as [r w']. cbn in *. rewrite Hrow in Hi'. injection Hi' as <-. cbn in *. lia.
Qed.

(** The life of an invocation row along any run: well-formedness is preserved (attempts
    within the bound, a deadline exactly one timeout after the start while running,
    completion recorded when it ends, a time-out only when no attempt is left), each call
    moves a row by at most one step of the status diagram, and a row that has succeeded,
    been canceled or timed out never changes again. *)
Theorem invocation_lifecycle cs c w :
  invocations_wf w.(db).(agent_invocations) ->
  let v := run_calls cs w in let v' := (perform c v).2 in
  invocations_wf v'.(db).(agent_invocations)
  /\ (forall k i, v.(db).(agent_invocations) !! k = Some i -> exists i', v'.(db).(agent_invocations) !! k = Some i'
       /\ (i' = i \/ status_step i.(Invocation.status) i'.(Invocation.status)))
  /\ (forall k i, w.(db).(agent_invocations) !! k = Some i -> settled i = true ->
        v'.(db).(agent_invocations) !! k = Some i).
Proof.
  intros Hw. cbv zeta.
  assert (invocations_wf (run_calls cs w).(db).(agent_invocations)
    /\ forall k i, w.(db).(agent_invocations) !! k = Some i -> settled i = true ->
       (run_calls cs w).(db).(agent_invocations) !! k = Some i) as [Hv Hfin].
  { revert w Hw. induction cs as [|c' cs IH]; intros w Hw; cbn [run_calls]; [done|].
    destruct (perform_evolves c' w) as [t He]. destruct (IH _ (evolves_wf _ _ _ He Hw)) as [Hv Hfin]. split; [done|].
    intros k i Hk Ht. apply Hfin; [|done]. destruct He as [He _].
    destruct (He k i Hk) as [|(i' & _ & Hs)]; [done|]. by apply settled_no_step in Hs. }
  destruct (perform_evolves c (run_calls cs w)) as [t He]. split_and!.
  - by eapply evolves_wf.
  - intros k i Hk. destruct He as [He _]. destruct (He k i Hk) as [Hk'|(i' & Hk' & Hs)]; [by exists i; auto|].
    exists i'. split; [done|]. right. by eapply row_step_status.
  - intros k i Hk Ht. specialize (Hfin k i Hk Ht). destruct He as [He _].
    destruct (He k i Hfin) as [|(i' & _ & Hs)]; [done|]. by apply settled_no_step in Hs.
Qed.

(** A new invocation: an answer of 201 that is not a replay has inserted one pending row
    of its own with its event, after checking that the service is registered in the zone,
    that the named Sessions are active and within their TTL, and that the caller may act
    for the source application; every other answer leaves the tables alone, a replay
    only dropping expired receipts. *)
Theorem createInvocation_spec req ip z b w :
  let '(r, w') := createInvocation req ip z b w in
  if (r.(code) =? 201) && negb r.(replay_header) then created_invocation req z b (uuidv7 w.(uuids)) w w' r
  else w'.(db) = w.(db) \/ r.(replay_header) = true /\ w'.(db) = set_receipts w'.(db).(receipts) w.(db).
Proof.
  pose proof (createInvocation_cases req ip z b w) as Hc. destruct (createInvocation req ip z b w) as [r w'].
  destruct Hc as [[Hr%Z.eqb_neq Hd]|[Hb [[Hr Hd]|Hc]]].
  - rewrite Hr. by left.
  - rewrite Hr, andb_false_r. by right.
  - destruct Hc as [-> ?]. by split.
Qed.
End runs.

(** ** The rate limit *)

Section rate.
Context `{Env}.

(** The answers to a series of requests of one caller, at the given redis times. *)
Fixpoint rate_answers (req : option CaracalAuth) (ip z : string) (times : list Z) (r : gmap string (Z * option Z)) : list bool :=
  match times with
  | [] => []
  | t :: ts => let '(limited, r') := rateLimited req ip z t r in limited :: rate_answers req ip z ts r'
  end.

Definition admitted (answers : list bool) : Z := Z.of_nat (length (filter (fun b => b = false) answers)).

(** Once the minute's counter stands at [n], the rest of the minute admits what is left. *)
Lemma rate_answers_counted req ip z m key n e times r :
  0 < cfg.(invocationRateLimitPerMin) -> 1 <= n ->
  Forall (fun t => to_ms t / 60000 = m /\ t < e) times ->
  (forall t, to_ms t / 60000 = m -> rate_key z match req with Some a => a.(clientId) | None => ip end t = key) ->
  r !! key = Some (n, Some e) ->
  admitted (rate_answers req ip z times r) = Z.min (Z.of_nat (length times)) (Z.max 0 (cfg.(invocationRateLimitPerMin) - n)).
Proof.
  intros Hpos. revert n r. induction times as [|t ts IH]; intros n r Hn Hall Hkey Hr.
  { unfold admitted. cbn. lia. }
  apply Forall_cons in Hall as [[Hm Ht] Hall]. cbn [rate_answers]. unfold rateLimited.
  rewrite (proj2 (Z.leb_gt _ _)) by lia. rewrite (Hkey t Hm). unfold incr. rewrite Hr.
  rewrite (proj2 (Z.leb_gt e t)) by done. rewrite (proj2 (Z.eqb_neq (n + 1) 1)) by lia.
  set (r' := <[_ := _]> r). assert (r' !! key = Some (n + 1, Some e)) as Hr' by apply lookup_insert_eq.
  specialize (IH (n + 1) r' ltac:(lia) Hall Hkey Hr'). unfold admitted in *. cbn [length].
  destruct (Z.ltb_spec cfg.(invocationRateLimitPerMin) (n + 1)).
  - rewrite filter_cons_False by done. rewrite IH. lia.
  - rewrite filter_cons_True by done. cbn [length]. lia.
Qed.

(** The per-caller limit: of the requests one caller makes within one minute of redis
    time, the first [invocationRateLimitPerMin] are admitted and every later one is
    refused; the key outlives its minute. *)
Theorem rate_limit_exact req ip z m times r :
  0 < cfg.(invocationRateLimitPerMin) ->
  Forall (fun t => to_ms t / 60000 = m) times ->
  (forall t, to_ms t / 60000 = m -> r !! rate_key z match req with Some a => a.(clientId) | None => ip end t = None) ->
  admitted (rate_answers req ip z times r) = Z.min (Z.of_nat (length times)) cfg.(invocationRateLimitPerMin).
Proof.
  intros Hpos Hall Hnone. destruct times as [|t ts]; [unfold admitted; cbn [rate_answers length filter]; cbn; lia|]. apply Forall_cons in Hall as [Hm Hall].
  cbn [rate_answers]. unfold rateLimited. rewrite (proj2 (Z.leb_gt _ _)) by lia. unfold incr. rewrite (Hnone t Hm).
  rewrite Z.eqb_refl. set (key := rate_key _ _ t). set (r' := <[key := _]> r).
  rewrite (proj2 (Z.ltb_ge _ _)) by lia.
  pose proof (rate_answers_counted req ip z m key 1 (t + seconds 90) ts r' Hpos ltac:(lia)) as Hrest.
  unfold admitted in *. rewrite filter_cons_True by done. cbn [length]. rewrite Nat2Z.inj_succ, Hrest; [lia| | |].
  - eapply Forall_impl; [exact Hall|]. intros u Hu. split; [done|]. unfold to_ms, seconds, micros_per_second in *.
    clear -Hu Hm. Z.to_euclidean_division_equations. lia.
  - intros u Hu. unfold key, rate_key. by rewrite Hu, Hm.
  - apply lookup_insert_eq.
Qed.
End rate.
