(* ===== verification/SessionReads.v ===== *)
(** * Reading Sessions, and zone isolation of the listings

    The [GET] routes of [apps/coordinator/src/routes/agents.ts], and the theorem that the
    listings and lookups of every component depend on nothing outside their zone. *)

From S2P Require Import Prelude.
From S2P Require Import Json.
From S2P Require Import Schema.
From S2P Require Import Store.
From S2P Require Import Scope.
From S2P Require Import Auth.
From S2P Require Import Outbox.
From S2P Require Import Idempotency.
From S2P Require Import Sessions.
From S2P Require Import Listing.
From S2P Require Import Delegations.
From S2P Require Import Services.
From S2P Require Import Invocations.
Local Open Scope string_scope.
Local Open Scope Z_scope.
Local Open Scope list_scope.

(** The columns of the listing and of the single read; [pg] returns the [bigint]
    generation as a string, which these routes pass on. *)
Definition session_view (ks : string * Session.SessionRow) : json :=
  let s := ks.2 in
  JObj [("agent_session_id", JStr ks.1); ("zone_id", JStr s.(Session.zone_id));
        ("application_id", JStr s.(Session.application_id)); ("parent_id", JOpt JStr s.(Session.parent_id));
        ("subject_authority_record_id", JStr s.(Session.subject_authority_record_id));
        ("lifecycle", lifecycle_json s.(Session.lifecycle)); ("labels", JStrs s.(Session.labels));
        ("status", status_json s.(Session.status)); ("depth", JNum s.(Session.depth));
        ("ttl_seconds", JOpt JNum s.(Session.ttl_seconds)); ("metadata", s.(Session.metadata_json));
        ("started_at", JTime s.(Session.started_at)); ("terminated_at", JOpt JTime s.(Session.terminated_at));
        ("termination_reason", JOpt JStr s.(Session.termination_reason));
        ("last_heartbeat_at", JOpt JTime s.(Session.last_heartbeat_at));
        ("heartbeat_deadline_at", JOpt JTime s.(Session.heartbeat_deadline_at));
        ("lease_generation", JStr (pretty s.(Session.lease_generation)))].

(** The columns of the children listing. *)
Definition child_view (ks : string * Session.SessionRow) : json :=
  let s := ks.2 in
  JObj [("agent_session_id", JStr ks.1); ("zone_id", JStr s.(Session.zone_id));
        ("application_id", JStr s.(Session.application_id)); ("parent_id", JOpt JStr s.(Session.parent_id));
        ("subject_authority_record_id", JStr s.(Session.subject_authority_record_id));
        ("lifecycle", lifecycle_json s.(Session.lifecycle)); ("labels", JStrs s.(Session.labels));
        ("status", status_json s.(Session.status)); ("depth", JNum s.(Session.depth));
        ("ttl_seconds", JOpt JNum s.(Session.ttl_seconds)); ("metadata", s.(Session.metadata_json));
        ("started_at", JTime s.(Session.started_at));
        ("last_heartbeat_at", JOpt JTime s.(Session.last_heartbeat_at));
        ("heartbeat_deadline_at", JOpt JTime s.(Session.heartbeat_deadline_at))].

(** The filters of [ListQuery]; both session listings parse them all. *)
Record SessionFilters := MkFilters {
  f_status : option session_status;
  f_lifecycle : option session_lifecycle;
  f_application_id : option string;
  f_label : option string
}.

Definition SessionListQuery (limit : json) (cursor : option string) (f : SessionFilters) : option (nat * option string) :=
  if opt_all nonempty f.(f_application_id) && opt_all nonempty f.(f_label) then ListQuery limit cursor else None.

(** [SELECT 1 FROM sessions WHERE id = cursor AND zone_id = zone]. *)
Definition session_cursor (zoneId : string) (cursor : option string) (d : Db) : bool :=
  match cursor with
  | Some c => match d.(sessions) !! c with Some s => in_zone zoneId s | None => false end
  | None => true
  end.

Definition session_matches (zoneId : string) (f : SessionFilters) (_ : string) (s : Session.SessionRow) : bool :=
  in_zone zoneId s
  && opt_all (fun v => bool_decide (s.(Session.status) = v)) f.(f_status)
  && opt_all (fun v => bool_decide (s.(Session.lifecycle) = v)) f.(f_lifecycle)
  && opt_all (fun v => bool_decide (s.(Session.application_id) = v)) f.(f_application_id)
  && opt_all (fun v => bool_decide (v ∈ s.(Session.labels))) f.(f_label).

(** [GET /zones/:zoneId/agents]. *)
Definition listSessions (zoneId : string) (limit : json) (cursor : option string) (f : SessionFilters) (d : Db) : reply :=
  if negb (CoordinatorIdPattern zoneId) then error_reply 400 "invalid_params"
  else match SessionListQuery limit cursor f with
  | None => error_reply 400 "invalid_query"
  | Some (n, cursor) =>
      if negb (session_cursor zoneId cursor d) then error_reply 400 "invalid_cursor"
      else
        let rows := page (session_matches zoneId f) n cursor d.(sessions) in
        MkReply 200 (JObj [("items", JArr (session_view <$> rows)); ("next_cursor", JOpt JStr (next_cursor n rows))]) false
  end.

(** [GET /zones/:zoneId/agents/:id]. *)
Definition getSession (zoneId id : string) (d : Db) : reply :=
  if negb (CoordinatorIdPattern zoneId && CoordinatorIdPattern id) then error_reply 400 "invalid_params"
  else match find_session zoneId id d with
  | None => error_reply 404 "session_not_found"
  | Some s => MkReply 200 (session_view (id, s)) false
  end.

(** [GET /zones/:zoneId/agents/:id/children]. *)
Definition listChildren (zoneId id : string) (limit : json) (cursor : option string) (f : SessionFilters) (d : Db) : reply :=
  if negb (CoordinatorIdPattern zoneId && CoordinatorIdPattern id) then error_reply 400 "invalid_params"
  else match SessionListQuery limit cursor f with
  | None => error_reply 400 "invalid_query"
  | Some (n, cursor) =>
      if negb (session_cursor zoneId cursor d) then error_reply 400 "invalid_cursor"
      else
        let rows := page (fun k s => bool_decide ((id, k) ∈ d.(agent_topology)) && in_zone zoneId s) n cursor d.(sessions) in
        MkReply 200 (JObj [("items", JArr (child_view <$> rows)); ("next_cursor", JOpt JStr (next_cursor n rows))]) false
  end.

(** ** Zone isolation *)

(** Two databases that agree on everything of one zone. *)
Record same_zone (z : string) (d d' : Db) : Prop := {
  sz_sessions : forall k s, s.(Session.zone_id) = z -> d.(sessions) !! k = Some s <-> d'.(sessions) !! k = Some s;
  sz_topology : forall p k s, s.(Session.zone_id) = z -> d.(sessions) !! k = Some s ->
    (p, k) ∈ d.(agent_topology) <-> (p, k) ∈ d'.(agent_topology);
  sz_edges : forall k e, e.(Edge.zone_id) = z -> d.(delegation_edges) !! k = Some e <-> d'.(delegation_edges) !! k = Some e;
  sz_services : forall k s, s.(Service.zone_id) = z -> d.(agent_services) !! k = Some s <-> d'.(agent_services) !! k = Some s;
  sz_invocations : forall k i, i.(Invocation.zone_id) = z -> d.(agent_invocations) !! k = Some i <-> d'.(agent_invocations) !! k = Some i
}.

(** A page depends on the matching rows only. *)
Lemma page_ext {R : Type} (p p' : string -> R -> bool) n cursor (m m' : gmap string R) :
  (forall k r, m !! k = Some r /\ p k r = true <-> m' !! k = Some r /\ p' k r = true) ->
  page p n cursor m = page p' n cursor m'.
Proof.
  intros Hm. change (take n (matching p m cursor) = take n (matching p' m' cursor)). f_equal.
  apply (StronglySorted_unique_strong (fun a b : string * R => id_lt b.1 a.1)).
  - intros x1 x2 _ _ H1 H2. destruct (id_lt_irrefl _ (id_lt_trans _ _ _ H1 H2)).
  - apply matching_sorted.
  - apply matching_sorted.
  - apply NoDup_Permutation; [eapply NoDup_fmap_1, NoDup_matching_keys..|]. intros [k r]. rewrite !elem_of_matching.
    specialize (Hm k r). tauto.
Qed.

(** A guarded lookup sees the zone's rows only. *)
Lemma zone_lookup {R A : Type} (zone : R -> string) (z : string) (m m' : gmap string R) k (f : R -> A) (a : A) :
  (forall k r, zone r = z -> m !! k = Some r <-> m' !! k = Some r) -> (forall r, zone r <> z -> f r = a) ->
  match m !! k with Some r => f r | None => a end = match m' !! k with Some r => f r | None => a end.
Proof.
  intros Hm Hf. destruct (m !! k) as [r|] eqn:Hk, (m' !! k) as [r'|] eqn:Hk'.
  - destruct (decide (zone r = z)) as [Hz|Hz]; [apply Hm in Hk; [|done]; congruence|].
    destruct (decide (zone r' = z)) as [Hz'|Hz']; [apply Hm in Hk'; [|done]; congruence|]. by rewrite !Hf.
  - destruct (decide (zone r = z)) as [Hz|Hz]; [apply Hm in Hk; [|done]; congruence|by apply Hf].
  - destruct (decide (zone r' = z)) as [Hz'|Hz']; [apply Hm in Hk'; [|done]; congruence|]. by rewrite Hf.
  - done.
Qed.

Section isolation.
Context (z : string) (d d' : Db) (Hz : same_zone z d d').

Lemma zone_page {R : Type} (zone : R -> string) (m m' : gmap string R) (p : string -> R -> bool) n cursor :
  (forall k r, zone r = z -> m !! k = Some r <-> m' !! k = Some r) -> (forall k r, p k r = true -> zone r = z) ->
  page p n cursor m = page p n cursor m'.
Proof. intros Hm Hp. apply page_ext. intros k r. split; intros [Hk Hpk]; (split; [|done]); apply Hm; eauto. Qed.

Lemma session_cursor_zone cursor : session_cursor z cursor d = session_cursor z cursor d'.
Proof.
  destruct cursor as [c|]; [|done]. cbn. apply (zone_lookup Session.zone_id z); [apply (sz_sessions _ _ _ Hz)|].
  intros s Hs. by apply bool_decide_eq_false_2.
Qed.

Lemma owns_session_zone sid app : owns_session z sid app d = owns_session z sid app d'.
Proof.
  apply (zone_lookup Session.zone_id z); [apply (sz_sessions _ _ _ Hz)|]. intros s Hs. unfold in_zone. by rewrite bool_decide_eq_false_2.
Qed.

Lemma cursor_known_zone p cursor : (forall e, p e = true -> e.(Edge.zone_id) = z) -> cursor_known p cursor d = cursor_known p cursor d'.
Proof.
  intros Hp. destruct cursor as [c|]; [|done]. cbn. apply (zone_lookup Edge.zone_id z); [apply (sz_edges _ _ _ Hz)|].
  intros e He. destruct (p e) eqn:E; [|done]. by apply Hp in E.
Qed.

Lemma listEdges_zone field sid limit cursor reader :
  listEdges z field sid limit cursor reader d = listEdges z field sid limit cursor reader d'.
Proof.
  unfold listEdges. destruct (ListQuery limit cursor) as [[n c]|]; [|done].
  set (p := fun e => bool_decide (e.(Edge.zone_id) = z) && _ && _).
  assert (forall e, p e = true -> e.(Edge.zone_id) = z) as Hp by (intros e He; unfold p in He; by bool_props).
  rewrite (cursor_known_zone p c Hp), (zone_page Edge.zone_id _ _ (fun _ => p) n c (sz_edges _ _ _ Hz)) by (intros _; exact Hp).
  destruct reader as [a|]; [by rewrite owns_session_zone|done].
Qed.
End isolation.

(** Reads are isolated by zone: the listings and lookups of Sessions, children,
    delegations, services and invocations answer the same on any two databases that agree
    on the zone's own rows, whatever else they hold. *)
Theorem reads_are_zone_isolated z d d' req id limit cursor f reader status service session t :
  same_zone z d d' ->
  listSessions z limit cursor f d = listSessions z limit cursor f d'
  /\ getSession z id d = getSession z id d'
  /\ listChildren z id limit cursor f d = listChildren z id limit cursor f d'
  /\ listInbound req z id limit cursor d = listInbound req z id limit cursor d'
  /\ listOutbound req z id limit cursor d = listOutbound req z id limit cursor d'
  /\ getInbound req z id reader t d = getInbound req z id reader t d'
  /\ listActive req z limit cursor t d = listActive req z limit cursor t d'
  /\ listServices z limit cursor d = listServices z limit cursor d'
  /\ getInvocation z id d = getInvocation z id d'
  /\ listInvocations z limit cursor status service session d = listInvocations z limit cursor status service session d'.
Proof.
  intros Hz. split_and!.
  - unfold listSessions. destruct (negb _); [done|]. destruct (SessionListQuery _ _ _) as [[n c]|]; [|done].
    rewrite (session_cursor_zone z d d' Hz). rewrite (zone_page z Session.zone_id _ _ (session_matches z f) n c (sz_sessions _ _ _ Hz)); [done|].
    intros k s Hm. unfold session_matches, in_zone in Hm. by bool_props.
  - unfold getSession. destruct (negb _); [done|]. unfold find_session.
    pose proof (zone_lookup Session.zone_id z d.(sessions) d'.(sessions) id (fun s => if in_zone z s then Some s else None) None (sz_sessions _ _ _ Hz)) as Hl.
    rewrite Hl; [done|]. intros s Hs. unfold in_zone. by rewrite bool_decide_eq_false_2.
  - unfold listChildren. destruct (negb _); [done|]. destruct (SessionListQuery _ _ _) as [[n c]|]; [|done].
    rewrite (session_cursor_zone z d d' Hz). erewrite page_ext; [reflexivity|]. intros k s.
    rewrite !andb_true_iff. unfold in_zone. rewrite !bool_decide_eq_true. split; intros (Hk & Ht & Hs).
    + split; [by apply (sz_sessions _ _ _ Hz)|]. split; [|done]. by apply (sz_topology _ _ _ Hz id k s).
    + assert (d.(sessions) !! k = Some s) as Hk' by by apply (sz_sessions _ _ _ Hz).
      split; [done|]. split; [|done]. by apply (sz_topology _ _ _ Hz id k s).
  - unfold listInbound. destruct (negb _); [done|]. by apply listEdges_zone.
  - unfold listOutbound. destruct (negb _); [done|]. by apply listEdges_zone.
  - unfold getInbound. destruct (negb _); [done|]. apply (zone_lookup Edge.zone_id z); [apply (sz_edges _ _ _ Hz)|].
    intros e He. unfold inbound. by rewrite (bool_decide_eq_false_2 (e.(Edge.zone_id) = z)).
  - unfold listActive. destruct (negb _); [done|]. destruct (ListQuery _ _) as [[n c]|]; [|done].
    rewrite (cursor_known_zone z d d' Hz) by (intros e He; by bool_props).
    by rewrite (zone_page z Edge.zone_id _ _ _ n c (sz_edges _ _ _ Hz)) by (intros k e He; by bool_props).
  - unfold listServices. destruct (negb _); [done|]. destruct (ListQuery _ _) as [[n c]|]; [|done].
    rewrite (zone_page z Service.zone_id d.(agent_services) d'.(agent_services) _ n c (sz_services _ _ _ Hz)) by (intros k s Hs; by bool_props).
    destruct c as [c|]; [|done].
    by rewrite (zone_lookup Service.zone_id z d.(agent_services) d'.(agent_services) c (fun s => negb (bool_decide (s.(Service.zone_id) = z))) true (sz_services _ _ _ Hz))
      by (intros s Hs; by rewrite bool_decide_eq_false_2).
  - unfold getInvocation. destruct (negb _); [done|]. apply (zone_lookup Invocation.zone_id z); [apply (sz_invocations _ _ _ Hz)|].
    intros i Hi. by rewrite bool_decide_eq_false_2.
  - unfold listInvocations. destruct (negb _); [done|]. destruct (opt_all nonempty service && opt_all nonempty session); [|done].
    destruct (ListQuery _ _) as [[n c]|]; [|done].
    rewrite (zone_page z Invocation.zone_id _ _ _ n c (sz_invocations _ _ _ Hz)) by (intros k i Hi; by bool_props).
    destruct c as [c|]; [|done].
    by rewrite (zone_lookup Invocation.zone_id z d.(agent_invocations) d'.(agent_invocations) c (fun i => negb (bool_decide (i.(Invocation.zone_id) = z))) true (sz_invocations _ _ _ Hz))
      by (intros i Hi; by rewrite bool_decide_eq_false_2).
Qed.
