(* ===== verification/Frame.v ===== *)
(** * Frame rules

    What a transaction leaves alone, shown by a walk over its code: a computation keeps
    an observation of the state when each of its statements does. *)

From S2P Require Import Prelude.
From S2P Require Import Json.
From S2P Require Import Schema.
From S2P Require Import Store.
From S2P Require Import Outbox.
From S2P Require Import Idempotency.
From S2P Require Import Sessions.
From S2P Require Import Delegations.
From S2P Require Import Services.
Local Open Scope list_scope.

(** [m] keeps the observation [f]. *)
Definition keeps {R A X : Type} (f : World -> X) (m : Tx R A) : Prop := forall w, f (m w).2 = f w.

Section rules.
Context {R X : Type} (f : World -> X).

Lemma keeps_bind {A B : Type} (m : Tx R A) (k : A -> Tx R B) :
  keeps f m -> (forall a, keeps f (k a)) -> keeps f (m ≫= k).
Proof.
  intros Hm Hk w. unfold mbind, Tx_bind. specialize (Hm w). destruct (m w) as [[a|x] w']; [|done].
  rewrite Hk. exact Hm.
Qed.

Lemma keeps_ensure b (r : R) : keeps f (ensure b r).
Proof. intros w. unfold ensure. by destruct b. Qed.

Lemma keeps_constraint b n : keeps (R := R) f (constraint b n).
Proof. intros w. unfold constraint. by destruct b. Qed.

Lemma keeps_query_opt {A : Type} (q : Z -> Db -> option A) : keeps (R := R) f (query_opt q).
Proof. intros w. unfold query_opt. by destruct (q _ _). Qed.

(** What a transaction keeps, its caller keeps. *)
Lemma keeps_run (m : Tx R (exit R)) w :
  (forall w l, f (set_locks l w) = f w) -> (forall w w', f (finish w w' w.(db)) = f w) -> (forall w w', f w' = f w -> f (finish w w' w'.(db)) = f w) ->
  keeps f m -> f (run_tx m w).2 = f w.
Proof.
  intros Hl Hr Hc Hm. specialize (Hm (set_locks [] w)). rewrite Hl in Hm. unfold run_tx.
  destruct (m (set_locks [] w)) as [[x|x] w']; destruct x; cbn in *; auto.
Qed.
End rules.

(** Walks over a program, case by case; primitive statements close by computation. *)
Ltac keeps_walk :=
  repeat first
  [ progress intros
  | apply keeps_bind
  | apply keeps_ensure | apply keeps_constraint | apply keeps_query_opt
  | match goal with |- keeps _ (match ?x with _ => _ end) => destruct x end
  | progress cbv zeta
  | solve [auto with caracal]
  | solve [unfold keeps; intros ?; reflexivity] ].

Section frames.
Context `{Env} {R : Type}.

(** The invocations table, which only the invocation routes and jobs touch. *)
Definition invocations_of (w : World) : gmap string Invocation.InvocationRow := w.(db).(agent_invocations).

Lemma keeps_outbox_insert id i : keeps (R := R) invocations_of (exec (outbox_insert id i)).
Proof. intros w. unfold outbox_insert, invocations_of. cbn. by destruct (_ !! _). Qed.

Lemma keeps_enqueue t k p : keeps (R := R) invocations_of (enqueue t k p).
Proof. apply keeps_bind; [done|]. intros id. apply keeps_outbox_insert. Qed.

Lemma keeps_enqueueMany items : keeps (R := R) invocations_of (enqueueMany items).
Proof.
  induction items as [|i items IH]; [done|]. cbn. apply keeps_bind; [done|]. intros id. apply keeps_bind; [|done].
  apply keeps_outbox_insert.
Qed.

Lemma keeps_now_enqueue t k p : keeps (R := R) now (enqueue t k p).
Proof. done. Qed.

Lemma keeps_now_enqueueMany items : keeps (R := R) now (enqueueMany items).
Proof. induction items as [|i items IH]; [done|]. cbn. by repeat (apply keeps_bind; [done|intros]). Qed.

Lemma keeps_now_terminate z roots reason rs : keeps (R := R) now (terminateSubtree z roots reason rs).
Proof. unfold terminateSubtree. pose proof keeps_now_enqueueMany. keeps_walk.
Qed.

Lemma keeps_now_suspend z roots reason : keeps (R := R) now (suspendSubtree z roots reason).
Proof. unfold suspendSubtree. pose proof keeps_now_enqueueMany. keeps_walk. Qed.

#[local] Hint Resolve keeps_enqueue keeps_enqueueMany : caracal.

Lemma keeps_startIdempotency i : keeps (R := R) invocations_of (startIdempotency i).
Proof. unfold startIdempotency. keeps_walk. Qed.

Lemma keeps_completeIdempotency i : keeps (R := R) invocations_of (completeIdempotency i).
Proof. unfold completeIdempotency. keeps_walk. Qed.

Lemma keeps_parseIdempotencyKey i : keeps (R := R) invocations_of (parseIdempotencyKey i).
Proof. unfold parseIdempotencyKey. keeps_walk. Qed.

Lemma keeps_terminate z roots reason rs : keeps (R := R) invocations_of (terminateSubtree z roots reason rs).
Proof. unfold terminateSubtree, bumpDelegationEpoch. keeps_walk. Qed.

Lemma keeps_suspend z roots reason : keeps (R := R) invocations_of (suspendSubtree z roots reason).
Proof. unfold suspendSubtree. keeps_walk. Qed.
End frames.

#[export] Hint Resolve keeps_outbox_insert keeps_enqueue keeps_enqueueMany keeps_startIdempotency keeps_completeIdempotency
  keeps_parseIdempotencyKey keeps_terminate keeps_suspend : caracal.

Section routes.
Context `{Env}.

Lemma keeps_start_tx req z b rec : keeps invocations_of (start_tx req z b rec).
Proof.
  unfold start_tx, start_receipt, start_governed, check_start, check_parent, insert_session, inheritParentEdge, bumpDelegationEpoch.
  keeps_walk.
Qed.

Lemma keeps_create_tx req z b c scoped exp ttl : keeps invocations_of (create_tx req z b c scoped exp ttl).
Proof.
  unfold create_tx, delegation_receipt, create_governed, check_endpoints, check_authority, insert_edge, bumpDelegationEpoch.
  keeps_walk.
Qed.

Lemma keeps_suspend_tx req z id : keeps invocations_of (suspend_tx req z id).
Proof. unfold suspend_tx. keeps_walk. Qed.

Lemma keeps_resume_tx req z id : keeps invocations_of (resume_tx req z id).
Proof. unfold resume_tx. keeps_walk. Qed.

Lemma keeps_terminate_tx req z id reason gen : keeps invocations_of (terminate_tx req z id reason gen).
Proof. unfold terminate_tx. keeps_walk. Qed.

Lemma keeps_revoke_tx req z id : keeps invocations_of (revoke_tx req z id).
Proof. unfold revoke_tx, bumpDelegationEpoch. keeps_walk. Qed.

Lemma keeps_lease_tx req z id : keeps invocations_of (lease_tx req z id).
Proof. unfold lease_tx, require_application_record. keeps_walk. Qed.

Lemma keeps_heartbeat_tx req z id b : keeps invocations_of (heartbeat_tx req z id b).
Proof. unfold heartbeat_tx, require_application_record, touch_service. keeps_walk. Qed.

Lemma keeps_register_tx z b id : keeps invocations_of (register_tx z b id).
Proof. unfold register_tx. keeps_walk. Qed.

(** A route that keeps the invocations in its transaction keeps them. *)
Lemma route_keeps (m : Tx reply (exit reply)) w :
  keeps invocations_of m -> (respond (run_tx m w)).2.(db).(agent_invocations) = w.(db).(agent_invocations).
Proof.
  intros Hm. assert (invocations_of (run_tx m w).2 = invocations_of w) as Hk by (by apply keeps_run).
  destruct (run_tx m w) as [[r|e] w']; exact Hk.
Qed.
End routes.
