(* ===== verification/Sweepers.v ===== *)
(** * Session sweepers

    [apps/coordinator/src/jobs/ttl-sweeper.ts] and
    [apps/coordinator/src/jobs/service-lease-sweeper.ts]: the jobs that settle task
    Sessions past their TTL and suspend service Sessions whose lease lapsed, zone by
    zone, and what one run of each achieves. *)

From Stdlib Require String.
From S2P Require Import Prelude.
From S2P Require Import Json.
From S2P Require Import Schema.
From S2P Require Import Store.
From S2P Require Import Scope.
From S2P Require Import Auth.
From S2P Require Import Outbox.
From S2P Require Import Idempotency.
From S2P Require Import Sessions.
From S2P Require Import SessionFacts.
From S2P Require Import SessionProps.
From S2P Require Import Listing.
From S2P Require Import Delegations.
From S2P Require Import DelegationFacts.
From S2P Require Import EdgeInv.
From S2P Require Import DelegationProps.
From S2P Require Import Services.
From S2P Require Import Frame.
Local Open Scope string_scope.
Local Open Scope Z_scope.
Local Open Scope list_scope.

(** ** The jobs *)

(** [byZone]: the ids of each zone, zones in order of appearance. *)
Definition group_by_zone {R : Type} (zone : R -> string) (rows : list (string * R)) : list (string * list string) :=
  foldl (fun byZone row => let z := zone row.2 in
           ordered_set z (default_to [] (ordered_get z byZone) ++ [row.1]) byZone) [] rows.

(** [ORDER BY id]. *)
Definition id_le {R : Type} (a b : string * R) : Prop := String.leb a.1 b.1 = true.

#[export] Instance id_le_dec {R : Type} : RelDecision (@id_le R).
Proof. intros a b. unfold id_le. apply _. Defined.

(** A task Session past its TTL. *)
Definition ttl_lapsed (t : Z) (s : Session.SessionRow) : bool :=
  is_live s && negb (bool_decide (s.(Session.lifecycle) = ServiceLife))
  && match s.(Session.ttl_seconds) with Some n => s.(Session.started_at) + seconds n <? t | None => false end.

(** An active service Session past its heartbeat deadline. *)
Definition lease_lapsed (t : Z) (s : Session.SessionRow) : bool :=
  is_active s && bool_decide (s.(Session.lifecycle) = ServiceLife)
  && match s.(Session.heartbeat_deadline_at) with Some h => h <? t | None => false end.

(** [ORDER BY heartbeat_deadline_at, id]. *)
Definition lease_le (a b : string * Session.SessionRow) : Prop :=
  let ha := default_to 0 a.2.(Session.heartbeat_deadline_at) in
  let hb := default_to 0 b.2.(Session.heartbeat_deadline_at) in
  ha < hb \/ (ha = hb /\ id_le a b).

#[export] Instance lease_le_dec : RelDecision lease_le.
Proof. intros a b. unfold lease_le. apply _. Defined.

(** Runs [act] for every zone under its Session lock and adds up the counts. *)
Fixpoint for_zones {R : Type} (act : string -> list string -> Tx R Z) (zones : list (string * list string)) : Tx R Z :=
  match zones with
  | [] => mret 0
  | (z, ids) :: rest =>
      advisory_lock (sessionLockKey z);;
      n ← act z ids;
      m ← for_zones act rest;
      mret (n + m)
  end.

Section jobs.
Context `{Env}.
(** The locale's string comparison, which only decides the order of the zones. *)
Context (localeCompare : string -> string -> Z).

Definition zone_le (a b : string * list string) : Prop := localeCompare a.1 b.1 <= 0.

#[local] Instance zone_le_dec : RelDecision zone_le.
Proof. intros a b. unfold zone_le. apply _. Defined.

Definition sorted_zones (rows : list (string * Session.SessionRow)) : list (string * list string) :=
  merge_sort zone_le (group_by_zone Session.zone_id rows).

Definition ttl_batch (t : Z) (d : Db) : list (string * Session.SessionRow) :=
  take (Z.to_nat cfg.(sweeperBatchSize)) (merge_sort id_le (select (fun _ => ttl_lapsed t) d.(sessions))).

Definition ttl_sweep_tx (acquired : bool) : Tx Z (exit Z) :=
  ensure acquired 0;;
  expired ← query ttl_batch;
  if bool_decide (expired.*1 = []) then mret (Commit 0)
  else
    terminated ← for_zones (fun z ids => terminateSubtree z ids "ttl" Expired) (sorted_zones expired);
    mret (Commit terminated).

(** [runTTLSweep]; [acquired] is the answer of [pg_try_advisory_xact_lock]. *)
Definition runTTLSweep (acquired : bool) (w : World) : (Z + exn) * World := run_tx (ttl_sweep_tx acquired) w.

Definition lease_batch (t : Z) (d : Db) : list (string * Session.SessionRow) :=
  take (Z.to_nat cfg.(sweeperBatchSize)) (merge_sort lease_le (select (fun _ => lease_lapsed t) d.(sessions))).

Definition lease_sweep_tx (acquired : bool) : Tx Z (exit Z) :=
  ensure acquired 0;;
  expired ← query lease_batch;
  if bool_decide (expired.*1 = []) then mret (Commit 0)
  else
    suspended ← for_zones (fun z ids => suspendSubtree z ids "service_heartbeat_lost") (sorted_zones expired);
    mret (Commit suspended).

(** [runServiceLeaseSweep]. *)
Definition runServiceLeaseSweep (acquired : bool) (w : World) : (Z + exn) * World := run_tx (lease_sweep_tx acquired) w.
End jobs.

(** ** Grouping *)

(** The groups hold exactly the rows, each under its zone. *)
Lemma group_by_zone_spec {R : Type} (zone : R -> string) rows :
  NoDup (group_by_zone zone rows).*1
  /\ (forall z ids, (z, ids) ∈ group_by_zone zone rows -> forall k, k ∈ ids <-> exists s, (k, s) ∈ rows /\ zone s = z)
  /\ (forall k s, (k, s) ∈ rows -> exists ids, (zone s, ids) ∈ group_by_zone zone rows)
  /\ (forall z ids, (z, ids) ∈ group_by_zone zone rows -> ids <> []).
Proof.
  induction rows as [|[k0 s0] rows IH] using rev_ind.
  { unfold group_by_zone. cbn. split_and!; [constructor|set_solver..]. }
  unfold group_by_zone in *. rewrite foldl_app. cbn [foldl fst snd]. set (m := foldl _ [] rows) in *.
  set (z0 := zone s0). destruct IH as (Hnd & Hids & Hall & Hne). split_and!.
  - by apply ordered_set_keys.
  - intros z ids Hin k. destruct (decide (z = z0)) as [->|Hz].
    + apply ordered_set_same in Hin as ->; [|done]. rewrite elem_of_app, list_elem_of_singleton.
      destruct (ordered_get z0 m) as [old|] eqn:Hg; cbn [default_to].
      * apply ordered_get_elem in Hg. rewrite (Hids _ _ Hg). set_solver.
      * split; [intros [?| ->]; [set_solver|exists s0; set_solver]|]. intros (s & [Hs|Hs]%elem_of_app & Hz); [|right; set_solver].
        destruct (Hall k s Hs) as [ids Hids']. rewrite Hz in Hids'. by apply (ordered_get_none _ _ ids Hg) in Hids'.
    + apply ordered_set_other in Hin; [|done]. rewrite (Hids _ _ Hin). split; intros (s & Hs & ?); exists s; [set_solver|].
      apply elem_of_app in Hs as [Hs|Hs%list_elem_of_singleton]; [done|]. by simplify_eq.
  - intros k s [Hs|Hs%list_elem_of_singleton]%elem_of_app.
    + destruct (Hall k s Hs) as [ids Hin]. destruct (decide (zone s = z0)) as [->|Hz]; [eexists; apply ordered_set_has|].
      exists ids. by apply ordered_set_other.
    + simplify_eq. eexists. apply ordered_set_has.
  - intros z ids Hin. destruct (decide (z = z0)) as [->|Hz].
    + apply ordered_set_same in Hin as ->; [|done]. by destruct (default_to _ _).
    + apply ordered_set_other in Hin; eauto.
Qed.

(** ** Batches *)

(** [SELECT ... WHERE p ORDER BY le LIMIT n] returns matching rows, and all of them when
    they fit. *)
Lemma elem_of_batch {K R : Type} `{Countable K} (le : relation (K * R)) `{!RelDecision le} n (p : K -> R -> bool) (m : gmap K R) k r :
  (k, r) ∈ take n (merge_sort le (select p m)) -> m !! k = Some r /\ p k r = true.
Proof.
  intros (i & Hi & _)%elem_of_take. apply list_elem_of_lookup_2 in Hi. rewrite merge_sort_Permutation in Hi.
  by apply elem_of_select in Hi.
Qed.

Lemma elem_of_batch_keys {K R : Type} `{Countable K} (le : relation (K * R)) `{!RelDecision le} n (p : K -> R -> bool) (m : gmap K R) k :
  k ∈ (take n (merge_sort le (select p m))).*1 -> exists r, m !! k = Some r /\ p k r = true.
Proof. intros ([k' r] & -> & Hin)%list_elem_of_fmap. apply elem_of_batch in Hin. eauto. Qed.

Lemma batch_complete {K R : Type} `{Countable K} (le : relation (K * R)) `{!RelDecision le} n (p : K -> R -> bool) (m : gmap K R) k r :
  (length (select p m) <= n)%nat -> m !! k = Some r -> p k r = true -> (k, r) ∈ take n (merge_sort le (select p m)).
Proof.
  intros Hn Hk Hp. rewrite take_ge by by rewrite merge_sort_Permutation. rewrite merge_sort_Permutation. by apply elem_of_select.
Qed.

(** * Properties of the session sweepers

    One run of a sweeper closes exactly the Sessions at or below the ones in its
    batch, leaves no lapsed Session behind when the batch holds them all, and keeps
    the governance invariant. *)

(** Time stands still in a transaction. *)
Lemma wp_now {R A : Type} (m : Tx R A) (Q : A -> World -> Prop) E w :
  keeps now m -> wp m (fun a w' => w'.(now) = w.(now) -> Q a w') E w -> wp m Q E w.
Proof. intros Hm. specialize (Hm w). unfold wp. destruct (m w) as [[a|x] w']; auto. Qed.

(** ** Closing Sessions *)

(** What a sweeper never changes of a Session. *)
Definition frozen (s : Session.SessionRow) :=
  (s.(Session.zone_id), s.(Session.parent_id), s.(Session.application_id), s.(Session.lifecycle),
   s.(Session.ttl_seconds), s.(Session.started_at), s.(Session.heartbeat_deadline_at)).

(** The Sessions at or below [ids] that satisfied [p] no longer do; the others are as
    they were with respect to it. *)
Definition closes (p : Session.SessionRow -> bool) (z : string) (ids : list string) (d d' : Db) : Prop :=
  (forall k s, d.(sessions) !! k = Some s -> exists s', d'.(sessions) !! k = Some s' /\ frozen s' = frozen s
     /\ (below p z ids d k /\ p s' = false \/ ~ below p z ids d k /\ p s' = p s))
  /\ (forall k, d.(sessions) !! k = None -> d'.(sessions) !! k = None).

(** A sequence of steps, one per zone. *)
Inductive zone_chain (Step : string -> list string -> Db -> Db -> Prop) : list (string * list string) -> Db -> Db -> Prop :=
| zc_nil d : zone_chain Step [] d d
| zc_cons z ids rest d d1 d2 : Step z ids d d1 -> zone_chain Step rest d1 d2 -> zone_chain Step ((z, ids) :: rest) d d2.

Lemma zone_chain_impl (S1 S2 : string -> list string -> Db -> Db -> Prop) (I : Db -> Prop) zs d d' :
  (forall z ids d d', I d -> S1 z ids d d' -> S2 z ids d d' /\ I d') -> I d ->
  zone_chain S1 zs d d' -> zone_chain S2 zs d d' /\ I d'.
Proof.
  intros HS HI Hc. induction Hc as [d|z ids rest d d1 d2 Hs _ IH]; [split; [constructor|done]|].
  destruct (HS _ _ _ _ HI Hs) as [Hs' HI1]. destruct (IH HI1). split; [by econstructor|done].
Qed.

Section closes.
Context (p : Session.SessionRow -> bool).

Lemma frozen_inv s s' : frozen s' = frozen s ->
  s'.(Session.zone_id) = s.(Session.zone_id) /\ s'.(Session.parent_id) = s.(Session.parent_id).
Proof. unfold frozen. intros [=]. done. Qed.

(** Going forward, the Sessions below a root only lose those that were closed. *)
Lemma closes_below_mono z ids d d1 z' ids' k :
  closes p z ids d d1 -> below p z' ids' d1 k -> below p z' ids' d k.
Proof.
  intros [Hrows Hnone] (r & s & Hr & Hs & Hz & Hp & Hk).
  assert (forall x s1, d1.(sessions) !! x = Some s1 -> p s1 = true -> exists s, d.(sessions) !! x = Some s
    /\ s.(Session.zone_id) = s1.(Session.zone_id) /\ s.(Session.parent_id) = s1.(Session.parent_id) /\ p s = true) as Hback.
  { intros x s1 Hx Hp1. destruct (d.(sessions) !! x) as [s0|] eqn:H0; [|by rewrite (Hnone x H0) in Hx].
    destruct (Hrows x s0 H0) as (s1' & Hs1' & Hf & Hc). rewrite Hx in Hs1'. injection Hs1' as <-.
    apply frozen_inv in Hf as [Hfz Hfp]. exists s0. split_and!; try done. destruct Hc as [[_ ?]|[_ <-]]; [congruence|done]. }
  destruct (Hback r s Hs Hp) as (s0 & Hs0 & Hz0 & _ & Hp0). exists r, s0. split_and!; [done|done|congruence|done|].
  clear -Hk Hback. induction Hk as [|x y k Hxy _ IH]; [apply rtc_refl|]. eapply rtc_l; [|exact IH].
  destruct Hxy as (s1 & Hs1 & Hpar & Hz1 & Hp1). destruct (Hback y s1 Hs1 Hp1) as (s0 & ? & ? & ? & ?).
  exists s0. split_and!; congruence.
Qed.

(** A Session that is still open has an open path to its root. *)
Lemma closes_below_open z ids d d1 z' ids' k s1 :
  closes p z ids d d1 -> below p z' ids' d k -> d1.(sessions) !! k = Some s1 -> p s1 = true -> below p z' ids' d1 k.
Proof.
  intros [Hrows Hnone] (r & s & Hr & Hs & Hz & Hp & Hk) Hk1 Hp1.
  assert (forall x sx, d.(sessions) !! x = Some sx -> p sx = true -> sx.(Session.zone_id) = z' -> rtc (child_in p z' d) x k ->
    exists sx1, d1.(sessions) !! x = Some sx1 /\ frozen sx1 = frozen sx /\ p sx1 = true) as Hopen.
  { intros x sx Hx Hpx Hzx Hxk. destruct (Hrows x sx Hx) as (sx1 & Hsx1 & Hf & [[Hb _]|[_ Hpe]]); [|exists sx1; split_and!; congruence]. exfalso.
    destruct (below_row _ _ _ _ _ Hb) as (sx' & Hsx' & Hzx' & _). assert (z' = z) as -> by congruence.
    assert (below p z ids d k) as Hbk. { destruct Hb as (r0 & s0 & ? & ? & ? & ? & ?). exists r0, s0. split_and!; try done. by etrans. }
    assert (exists sk, d.(sessions) !! k = Some sk) as [sk Hsk] by (destruct (below_row _ _ _ _ _ Hbk) as (? & ? & _); eauto).
    destruct (Hrows k sk Hsk) as (sk1 & Hsk1 & _ & [[_ ?]|[? _]]); [congruence|done]. }
  destruct (Hopen r s Hs Hp Hz Hk) as (sr1 & Hsr1 & [Hfz _]%frozen_inv & Hpr1). exists r, sr1.
  split_and!; [done|done|congruence|done|]. clear Hs Hp Hz Hr Hsr1 Hfz Hpr1.
  induction Hk as [|x y k Hxy Hyk IH]; [apply rtc_refl|]. pose proof Hxy as (sy & Hsy & Hpar & Hzy & Hpy).
  destruct (Hopen y sy Hsy Hpy Hzy Hyk) as (sy1 & Hsy1 & [Hfz Hfp]%frozen_inv & Hpy1).
  eapply rtc_l; [|by apply IH]. exists sy1. split_and!; congruence.
Qed.

(** What a run over all zones leaves of every Session. *)
Lemma chain_closes zs d d' k s :
  zone_chain (closes p) zs d d' -> d.(sessions) !! k = Some s ->
  exists s', d'.(sessions) !! k = Some s' /\ frozen s' = frozen s
    /\ ((exists z ids, (z, ids) ∈ zs /\ below p z ids d k) /\ p s' = false
        \/ (~ exists z ids, (z, ids) ∈ zs /\ below p z ids d k) /\ p s' = p s).
Proof.
  intros Hc. revert s. induction Hc as [d|z ids rest d d1 d2 Hstep Hc IH]; intros s Hs.
  { exists s. split_and!; try done. right. split; [|done]. intros (z & ids & Hin & _). set_solver. }
  pose proof Hstep as [Hrows _]. destruct (Hrows k s Hs) as (s1 & Hs1 & Hf1 & Hcase).
  destruct (IH s1 Hs1) as (s2 & Hs2 & Hf2 & Hcase2). exists s2. split_and!; [done|congruence|].
  destruct Hcase as [[Hb Hp1]|[Hb Hp1]].
  - left. split; [exists z, ids; set_solver|]. by destruct Hcase2 as [[_ ?]|[_ ->]].
  - destruct Hcase2 as [[(z' & ids' & Hin & Hb') Hp2]|[Hno Hp2]].
    + left. split; [|done]. exists z', ids'. split; [set_solver|]. by eapply closes_below_mono.
    + right. split; [|congruence]. intros (z' & ids' & [?|Hin]%elem_of_cons & Hb'); [by simplify_eq|].
      destruct (below_row _ _ _ _ _ Hb') as (s0 & Hs0 & _ & Hp0). rewrite Hs in Hs0. injection Hs0 as <-.
      apply Hno. exists z', ids'. split; [done|]. eapply closes_below_open; [done|done|done|congruence].
Qed.

Lemma chain_none zs d d' k : zone_chain (closes p) zs d d' -> d.(sessions) !! k = None -> d'.(sessions) !! k = None.
Proof. induction 1 as [|z ids rest d d1 d2 [_ Hn] _ IH]; auto. Qed.
End closes.

Lemma terminated_not_live t roots reason rs k s : SessionFacts.terminal rs -> is_live (terminate_row t roots reason rs k s) = false.
Proof. intros Hrs. unfold is_live, terminate_row. cbn. destruct (bool_decide (k ∈ roots)); [destruct Hrs as [->| ->]|]; done. Qed.

Lemma terminate_closes t z ids reason rs d d' :
  session_inv d.(sessions) -> SessionFacts.terminal rs -> terminate_effect t z ids reason rs d d' -> closes is_live z ids d d'.
Proof.
  intros Hinv Hrs Heff. split; [|apply (te_sessions _ _ _ _ _ _ _ Heff)].
  intros k s Hs. destruct (below_dec is_live z ids d k Hinv) as [Hb|Hb].
  - exists (terminate_row t ids reason rs k s). split; [by apply (te_closed _ _ _ _ _ _ _ Heff)|]. split; [done|].
    left. split; [done|by apply terminated_not_live].
  - destruct (te_kept _ _ _ _ _ _ _ Heff k s Hb Hs) as (n & u & Hs'). eexists. split; [exact Hs'|]. split; [done|]. by right.
Qed.

Lemma suspend_closes t z ids d d' :
  session_inv d.(sessions) -> subtree_effect is_active (suspend_row t) z ids d d' -> closes is_active z ids d d'.
Proof.
  intros Hinv [Hch Hk Hdb]. split.
  - intros k s Hs. destruct (below_dec is_active z ids d k Hinv) as [Hb|Hb].
    + exists (suspend_row t s). split; [by apply Hch|]. split; [done|]. by left.
    + exists s. rewrite Hk by done. split_and!; [done|done|]. by right.
  - intros k Hn. rewrite Hk; [done|]. intros (s & Hs & _)%below_row. congruence.
Qed.

Section loop.
Context {R : Type}.

Lemma wp_for_zones (act : string -> list string -> Tx R Z) (Step : string -> list string -> Db -> Db -> Prop)
  (I : Db -> Prop) (t : Z) zs (Q : Z -> World -> Prop) (E : exit R -> World -> Prop) w :
  (forall z ids w (Q : Z -> World -> Prop), w.(now) = t -> I w.(db) -> ids <> [] ->
     (forall n w', w'.(now) = t -> Step z ids w.(db) w'.(db) -> I w'.(db) -> Q n w') -> wp (act z ids) Q E w) ->
  Forall (fun zi => zi.2 <> []) zs -> w.(now) = t -> I w.(db) ->
  (forall n w', zone_chain Step zs w.(db) w'.(db) -> Q n w') ->
  wp (for_zones act zs) Q E w.
Proof.
  intros Hact Hne. revert w Q. induction Hne as [|[z ids] zs Hids Hne IH]; intros w Q Hw HI HQ; cbn [for_zones].
  { apply wp_ret, HQ. constructor. }
  wp_step. apply wp_lock. wp_step. apply Hact; [done|done|done|]. intros n w1 Hn1 Hs1 HI1.
  wp_step. apply IH; [done|done|]. intros m w2 Hc. wp_step. apply HQ. by econstructor.
Qed.
End loop.

Section sweeps.
Context `{Env} (localeCompare : string -> string -> Z).

Lemma sorted_zones_elem rows zi : zi ∈ sorted_zones localeCompare rows <-> zi ∈ group_by_zone Session.zone_id rows.
Proof. unfold sorted_zones. by rewrite merge_sort_Permutation. Qed.

Lemma sorted_zones_nonempty rows : Forall (fun zi => zi.2 <> []) (sorted_zones localeCompare rows).
Proof.
  apply Forall_forall. intros [z ids] Hin%sorted_zones_elem. destruct (group_by_zone_spec Session.zone_id rows) as (_ & _ & _ & Hne). by eapply Hne.
Qed.

(** Being below a group is being below one of its rows. *)
Lemma below_groups p rows d k :
  (forall k s, (k, s) ∈ rows -> d.(sessions) !! k = Some s) ->
  (exists z ids, (z, ids) ∈ sorted_zones localeCompare rows /\ below p z ids d k)
  <-> exists r s, (r, s) ∈ rows /\ below p s.(Session.zone_id) [r] d k.
Proof.
  intros Hrows. destruct (group_by_zone_spec Session.zone_id rows) as (_ & Hids & Hall & _). split.
  - intros (z & ids & Hin%sorted_zones_elem & r & s & Hr & Hs & Hz & Hp & Hk). apply (Hids _ _ Hin) in Hr as (s' & Hs' & <-).
    exists r, s'. split; [done|]. exists r, s. split_and!; try done. set_solver.
  - intros (r & s & Hin & Hb). destruct (Hall r s Hin) as [ids Hz]. exists s.(Session.zone_id), ids.
    split; [by apply sorted_zones_elem|]. destruct Hb as (r' & s' & ->%list_elem_of_singleton & Hs' & Hz' & Hp & Hk).
    exists r, s'. split_and!; try done. apply (Hids _ _ Hz). by exists s.
Qed.

Lemma ttl_sweep_spec acquired w :
  session_inv w.(db).(sessions) ->
  let '(r, w') := runTTLSweep localeCompare acquired w in
  if acquired then (exists n, r = inl n)
    /\ zone_chain (fun z ids => terminate_effect w.(now) z ids "ttl" Expired)
         (sorted_zones localeCompare (ttl_batch w.(now) w.(db))) w.(db) w'.(db)
  else r = inl 0 /\ w'.(db) = w.(db).
Proof.
  intros Hinv. unfold runTTLSweep. pose proof (run_tx_wp (ttl_sweep_tx localeCompare acquired) w (fun r w' =>
    if acquired then (exists n, r = inl n)
      /\ zone_chain (fun z ids => terminate_effect w.(now) z ids "ttl" Expired)
           (sorted_zones localeCompare (ttl_batch w.(now) w.(db))) w.(db) w'.(db)
    else r = inl 0 /\ w'.(db) = w.(db))) as Hwp.
  destruct (run_tx _ w) as [r w']. apply Hwp. clear Hwp. unfold ttl_sweep_tx. wp_step.
  apply wp_ensure; [intros ->|by intros ->]. wp_step. apply wp_query. cbn [now db set_locks].
  destruct (bool_decide_reflect ((ttl_batch w.(now) w.(db)).*1 = [])) as [Hnil|Hne].
  { apply fmap_nil_inv in Hnil. rewrite Hnil. wp_step. split; [by eexists|]. cbn. constructor. }
  wp_step. apply (wp_for_zones _ (fun z ids => terminate_effect w.(now) z ids "ttl" Expired) (fun d => session_inv d.(sessions)) w.(now)); [|apply sorted_zones_nonempty|done|done|].
  - intros z ids v Q Hv HI Hids HQ. apply wp_now; [apply keeps_now_terminate|].
    apply wp_terminate_effect; [done|by right|done|]. intros n v' Heff _ Hnow. apply HQ; [congruence|by rewrite <-Hv|].
    by apply (te_inv _ _ _ _ _ _ _ Heff).
  - intros n w1 Hc. wp_step. split; [by eexists|]. exact Hc.
Qed.

Lemma lease_sweep_spec acquired w :
  session_inv w.(db).(sessions) ->
  let '(r, w') := runServiceLeaseSweep localeCompare acquired w in
  if acquired then (exists n, r = inl n)
    /\ zone_chain (fun z ids => subtree_effect is_active (suspend_row w.(now)) z ids)
         (sorted_zones localeCompare (lease_batch w.(now) w.(db))) w.(db) w'.(db)
  else r = inl 0 /\ w'.(db) = w.(db).
Proof.
  intros Hinv. unfold runServiceLeaseSweep. pose proof (run_tx_wp (lease_sweep_tx localeCompare acquired) w (fun r w' =>
    if acquired then (exists n, r = inl n)
      /\ zone_chain (fun z ids => subtree_effect is_active (suspend_row w.(now)) z ids)
           (sorted_zones localeCompare (lease_batch w.(now) w.(db))) w.(db) w'.(db)
    else r = inl 0 /\ w'.(db) = w.(db))) as Hwp.
  destruct (run_tx _ w) as [r w']. apply Hwp. clear Hwp. unfold lease_sweep_tx. wp_step.
  apply wp_ensure; [intros ->|by intros ->]. wp_step. apply wp_query. cbn [now db set_locks].
  destruct (bool_decide_reflect ((lease_batch w.(now) w.(db)).*1 = [])) as [Hnil|Hne].
  { apply fmap_nil_inv in Hnil. rewrite Hnil. wp_step. split; [by eexists|]. cbn. constructor. }
  wp_step. apply (wp_for_zones _ (fun z ids => subtree_effect is_active (suspend_row w.(now)) z ids) (fun d => session_inv d.(sessions)) w.(now)); [|apply sorted_zones_nonempty|done|done|].
  - intros z ids v Q Hv HI Hids HQ. apply wp_now; [apply keeps_now_suspend|].
    apply wp_suspend_effect; [done|done|]. intros n v' Heff Hnow. rewrite Hv in Heff. apply HQ; [congruence|done|].
    eapply subtree_effect_inv; [|done|done]. intros s Hp. by apply suspend_skeleton.
  - intros n w1 Hc. wp_step. split; [by eexists|]. exact Hc.
Qed.

(** A run whose batch holds every lapsed Session leaves none. *)
Lemma chain_settles p (q : Session.SessionRow -> bool) rows d d' :
  zone_chain (closes p) (sorted_zones localeCompare rows) d d' ->
  (forall k s, (k, s) ∈ rows -> d.(sessions) !! k = Some s) ->
  (forall k s, d.(sessions) !! k = Some s -> q s = true -> (k, s) ∈ rows) ->
  (forall s, q s = true -> p s = true) -> (forall s s', frozen s' = frozen s -> p s' = p s -> q s' = q s) ->
  select (fun _ => q) d'.(sessions) = [].
Proof.
  intros Hc Hrows Hfit Hqp Hfr. apply select_nil. intros k s' Hs'. destruct (q s') eqn:Hq; [|done]. exfalso.
  destruct (d.(sessions) !! k) as [s|] eqn:Hs; [|by rewrite (chain_none _ _ _ _ _ Hc Hs) in Hs'].
  destruct (chain_closes _ _ _ _ _ _ Hc Hs) as (s2 & Hs2 & Hf & Hcase). rewrite Hs' in Hs2. injection Hs2 as <-.
  pose proof (Hqp _ Hq) as Hp'. destruct Hcase as [[_ ?]|[Hno Hp]]; [congruence|]. apply Hno, below_groups; [done|].
  pose proof (Hfr s s' Hf Hp) as Hqs. rewrite Hq in Hqs. exists k, s. split; [by apply Hfit|]. exists k, s.
  split_and!; [set_solver|done|done|by apply Hqp|apply rtc_refl].
Qed.
End sweeps.

(** Every root a TTL run names is marked expired. *)
Lemma ttl_root_expired t zs d d' z ids k s :
  session_inv d.(sessions) -> NoDup zs.*1 ->
  zone_chain (fun z ids => terminate_effect t z ids "ttl" Expired) zs d d' ->
  (z, ids) ∈ zs -> k ∈ ids -> d.(sessions) !! k = Some s -> s.(Session.zone_id) = z -> is_live s = true ->
  exists s', d'.(sessions) !! k = Some s' /\ s'.(Session.status) = Expired
    /\ s'.(Session.termination_reason) = Some "ttl" /\ s'.(Session.terminated_at) = Some t.
Proof.
  intros Hinv Hnd Hc. revert s Hinv Hnd. induction Hc as [d|z0 ids0 rest d d1 d2 Heff Hc IH]; intros s Hinv Hnd Hz Hk Hs Hsz Hl; [set_solver|].
  cbn in Hnd. apply NoDup_cons in Hnd as [Hz0 Hnd]. pose proof (te_inv _ _ _ _ _ _ _ Heff Hinv) as Hinv1.
  apply elem_of_cons in Hz as [[= <- <-]|Hz].
  - assert (below is_live z ids d k) as Hb by (exists k, s; split_and!; done).
    pose proof (te_closed _ _ _ _ _ _ _ Heff k s Hb Hs) as Hs1. clear IH.
    assert (exists s1, d1.(sessions) !! k = Some s1 /\ is_live s1 = false /\ s1.(Session.status) = Expired
      /\ s1.(Session.termination_reason) = Some "ttl" /\ s1.(Session.terminated_at) = Some t) as (s1 & Hk1 & Hl1 & Hrow).
    { eexists. split; [exact Hs1|]. split; [apply terminated_not_live; by right|]. unfold terminate_row. by rewrite bool_decide_eq_true_2. }
    clear Hs1 Heff Hb Hs Hinv Hl Hz0 Hnd. revert s1 Hinv1 Hk1 Hl1 Hrow.
    induction Hc as [d1|z1 ids1 rest d1 d3 d4 Heff _ IH]; intros s1 Hinv1 Hk1 Hl1 Hrow; [eauto|].
    assert (~ below is_live z1 ids1 d1 k) as Hb. { intros (s' & Hs' & _ & ?)%below_row. congruence. }
    destruct (te_kept _ _ _ _ _ _ _ Heff k s1 Hb Hk1) as (n & u & Hk3).
    eapply IH; [by apply (te_inv _ _ _ _ _ _ _ Heff)|exact Hk3|exact Hl1|exact Hrow].
  - assert (~ below is_live z0 ids0 d k) as Hb.
    { intros (s' & Hs' & Hz' & _)%below_row. apply Hz0, list_elem_of_fmap. exists (z, ids). split; [cbn; congruence|done]. }
    destruct (te_kept _ _ _ _ _ _ _ Heff k s Hb Hs) as (n & u & Hk1). eapply IH; [done|done|done|done|exact Hk1|done|done].
Qed.

(** One run of the TTL sweeper closes exactly the Sessions at or below a lapsed task
    Session of its batch (the lapsed ones as expired, with the reason and time), touches
    the liveness of no other Session, and leaves no lapsed Session behind when the batch
    holds them all; without the lock it does nothing. *)
Theorem ttl_sweep_settles `{Env} localeCompare acquired w :
  session_inv w.(db).(sessions) ->
  let batch := ttl_batch w.(now) w.(db) in
  let '(r, w') := runTTLSweep localeCompare acquired w in
  if acquired then
    (exists n, r = inl n)
    /\ (forall k s, (k, s) ∈ batch -> ttl_lapsed w.(now) s = true
          /\ exists s', w'.(db).(sessions) !! k = Some s' /\ s'.(Session.status) = Expired
               /\ s'.(Session.termination_reason) = Some "ttl" /\ s'.(Session.terminated_at) = Some w.(now))
    /\ (forall k s, w.(db).(sessions) !! k = Some s -> exists s', w'.(db).(sessions) !! k = Some s' /\ frozen s' = frozen s
          /\ ((exists r sr, (r, sr) ∈ batch /\ below is_live sr.(Session.zone_id) [r] w.(db) k) /\ is_live s' = false
              \/ (~ exists r sr, (r, sr) ∈ batch /\ below is_live sr.(Session.zone_id) [r] w.(db) k) /\ is_live s' = is_live s))
    /\ ((length (select (fun _ => ttl_lapsed w.(now)) w.(db).(sessions)) <= Z.to_nat cfg.(sweeperBatchSize))%nat ->
        select (fun _ => ttl_lapsed w.(now)) w'.(db).(sessions) = [])
  else r = inl 0 /\ w'.(db) = w.(db).
Proof.
  intros Hinv batch. pose proof (ttl_sweep_spec localeCompare acquired w Hinv) as Hs. fold batch in Hs.
  destruct (runTTLSweep localeCompare acquired w) as [r w']. destruct acquired; [|done]. destruct Hs as [Hn Hc].
  assert (forall k s, (k, s) ∈ batch -> w.(db).(sessions) !! k = Some s /\ ttl_lapsed w.(now) s = true) as Hrows
    by (intros k s; apply (elem_of_batch _ _ (fun _ => ttl_lapsed w.(now)))).
  assert (zone_chain (closes is_live) (sorted_zones localeCompare batch) w.(db) w'.(db)) as Hcl.
  { eapply (zone_chain_impl _ _ (fun d => session_inv d.(sessions))); [|done|exact Hc]. intros z ids d d' HI Heff.
    split; [eapply terminate_closes; [done| |exact Heff]; by right|by apply (te_inv _ _ _ _ _ _ _ Heff)]. }
  split_and!; [done| | |].
  - intros k s Hin. destruct (Hrows k s Hin) as [Hk Hl]. split; [done|].
    destruct (group_by_zone_spec Session.zone_id batch) as (Hnd & Hids & Hall & _). destruct (Hall k s Hin) as [ids Hz].
    eapply ttl_root_expired; [done| |exact Hc|by apply sorted_zones_elem| |done|done|].
    + unfold sorted_zones. by rewrite merge_sort_Permutation.
    + apply (Hids _ _ Hz). by exists s.
    + unfold ttl_lapsed in Hl. by bool_props.
  - intros k s Hk. destruct (chain_closes _ _ _ _ _ _ Hcl Hk) as (s' & Hs' & Hf & Hcase). exists s'. split_and!; [done|done|].
    rewrite below_groups in Hcase by (intros; by apply Hrows). done.
  - intros Hle. eapply chain_settles; [exact Hcl|intros; by apply Hrows| | |].
    + intros k s Hk Hl. by apply (batch_complete _ _ (fun _ => ttl_lapsed w.(now))).
    + unfold ttl_lapsed. intros s Hl. by bool_props.
    + intros s s' Hf Hp. unfold ttl_lapsed, frozen in *. rewrite Hp. injection Hf as _ _ _ -> -> -> _. done.
Qed.

(** One run of the lease sweeper suspends exactly the active Sessions at or below a
    service Session of its batch whose heartbeat deadline has passed, leaves every other
    Session as it was, and leaves no lapsed lease behind when the batch holds them all;
    without the lock it does nothing. *)
Theorem lease_sweep_settles `{Env} localeCompare acquired w :
  session_inv w.(db).(sessions) ->
  let batch := lease_batch w.(now) w.(db) in
  let '(r, w') := runServiceLeaseSweep localeCompare acquired w in
  if acquired then
    (exists n, r = inl n)
    /\ (forall k s, (k, s) ∈ batch -> lease_lapsed w.(now) s = true)
    /\ (forall k s, w.(db).(sessions) !! k = Some s -> exists s', w'.(db).(sessions) !! k = Some s' /\ frozen s' = frozen s
          /\ ((exists r sr, (r, sr) ∈ batch /\ below is_active sr.(Session.zone_id) [r] w.(db) k) /\ is_active s' = false
              \/ (~ exists r sr, (r, sr) ∈ batch /\ below is_active sr.(Session.zone_id) [r] w.(db) k) /\ is_active s' = is_active s))
    /\ ((length (select (fun _ => lease_lapsed w.(now)) w.(db).(sessions)) <= Z.to_nat cfg.(sweeperBatchSize))%nat ->
        select (fun _ => lease_lapsed w.(now)) w'.(db).(sessions) = [])
  else r = inl 0 /\ w'.(db) = w.(db).
Proof.
  intros Hinv batch. pose proof (lease_sweep_spec localeCompare acquired w Hinv) as Hs. fold batch in Hs.
  destruct (runServiceLeaseSweep localeCompare acquired w) as [r w']. destruct acquired; [|done]. destruct Hs as [Hn Hc].
  assert (forall k s, (k, s) ∈ batch -> w.(db).(sessions) !! k = Some s /\ lease_lapsed w.(now) s = true) as Hrows
    by (intros k s; apply (elem_of_batch _ _ (fun _ => lease_lapsed w.(now)))).
  assert (zone_chain (closes is_active) (sorted_zones localeCompare batch) w.(db) w'.(db)) as Hcl.
  { eapply (zone_chain_impl _ _ (fun d => session_inv d.(sessions))); [|done|exact Hc]. intros z ids d d' HI Heff.
    split; [by eapply suspend_closes|]. eapply subtree_effect_inv; [|done|done]. intros s Hp. by apply suspend_skeleton. }
  split_and!; [done| | |].
  - intros k s Hin. by apply Hrows in Hin as [_ ?].
  - intros k s Hk. destruct (chain_closes _ _ _ _ _ _ Hcl Hk) as (s' & Hs' & Hf & Hcase). exists s'. split_and!; [done|done|].
    rewrite below_groups in Hcase by (intros; by apply Hrows). done.
  - intros Hle. eapply chain_settles; [exact Hcl|intros; by apply Hrows| | |].
    + intros k s Hk Hl. by apply (batch_complete _ _ (fun _ => lease_lapsed w.(now))).
    + unfold lease_lapsed. intros s Hl. by bool_props.
    + intros s s' Hf Hp. unfold lease_lapsed, frozen in *. rewrite Hp. injection Hf as _ _ _ -> _ _ ->. done.
Qed.

(** ** The governance invariant *)

Section governed.
Context `{UuidLaws}.

Lemma runTTLSweep_governed lc acquired w :
  governed w.(now) w.(db) -> governed w.(now) (runTTLSweep lc acquired w).2.(db).
Proof.
  intros Hg. pose proof Hg as (_ & Hs & _). pose proof (ttl_sweep_spec lc acquired w Hs) as Hsw.
  destruct (runTTLSweep lc acquired w) as [r w']. cbn [snd]. destruct acquired; [|destruct Hsw as [_ ->]; done].
  destruct Hsw as [_ Hc]. eapply (zone_chain_impl _ (fun _ _ _ _ => True) (governed w.(now))); [|done|exact Hc].
  intros z ids d d' HI Heff. split; [done|eapply terminate_governed; [exact Heff|done]].
Qed.

Lemma runServiceLeaseSweep_governed lc acquired w :
  governed w.(now) w.(db) -> governed w.(now) (runServiceLeaseSweep lc acquired w).2.(db).
Proof.
  intros Hg. pose proof Hg as (_ & Hs & _). pose proof (lease_sweep_spec lc acquired w Hs) as Hsw.
  destruct (runServiceLeaseSweep lc acquired w) as [r w']. cbn [snd]. destruct acquired; [|destruct Hsw as [_ ->]; done].
  destruct Hsw as [_ Hc]. eapply (zone_chain_impl _ (fun _ _ _ _ => True) (governed w.(now))); [|done|exact Hc].
  intros z ids d d' HI Heff. split; [done|]. eapply subtree_governed; [|exact Heff|done].
  intros s Hp. split; [by apply suspend_skeleton|done].
Qed.
End governed.
