(* ===== verification/Retention.v ===== *)
(** * Retention cleanup

    [apps/coordinator/src/jobs/retention-cleaner.ts]: marks lapsed delegations as
    expired and announces them zone by zone, then prunes old edges, terminated
    Sessions with everything that hangs on them, published outbox rows and expired
    idempotency receipts, in batches. *)

From Stdlib Require String.
From S2P Require Import Prelude.
From S2P Require Import Json.
From S2P Require Import Schema.
From S2P Require Import Store.
From S2P Require Import Outbox.
From S2P Require Import Idempotency.
From S2P Require Import Sessions.
From S2P Require Import Sweepers.
From S2P Require Import Scope.
From S2P Require Import Auth.
From S2P Require Import SessionFacts.
From S2P Require Import SessionProps.
From S2P Require Import Delegations.
From S2P Require Import ConstraintFacts.
From S2P Require Import DelegationFacts.
From S2P Require Import EdgeInv.
From S2P Require Import DelegationProps.
Local Open Scope string_scope.
Local Open Scope Z_scope.
Local Open Scope list_scope.

Record RetentionCleanupResult := MkResult {
  expiredEdges : Z; deletedEdges : Z; deletedSessions : Z; deletedOutbox : Z; deletedIdempotencyReceipts : Z
}.

Definition emptyResult : RetentionCleanupResult := MkResult 0 0 0 0 0.

(** [ORDER BY f LIMIT n] on selected rows. *)
Definition col_le {K R : Type} (f : K * R -> Z) (a b : K * R) : Prop := f a <= f b.

#[export] Instance col_le_dec {K R : Type} (f : K * R -> Z) : RelDecision (col_le f).
Proof. intros a b. unfold col_le. apply _. Defined.

(** [ORDER BY f, id]. *)
Definition key_id_le {R : Type} (f : string * R -> Z) (a b : string * R) : Prop :=
  f a < f b \/ (f a = f b /\ id_le a b).

#[export] Instance key_id_le_dec {R : Type} (f : string * R -> Z) : RelDecision (key_id_le f).
Proof. intros a b. unfold key_id_le. apply _. Defined.

(** ** Delegation edges *)

Definition edge_lapsed (t : Z) (e : Edge.EdgeRow) : bool :=
  bool_decide (e.(Edge.status) = RActive) && (e.(Edge.expires_at) <? t).

Definition expire_edge (t : Z) (e : Edge.EdgeRow) : Edge.EdgeRow :=
  Edge.set_status RExpired (Edge.set_updated_at t e).

(** [COALESCE(revoked_at, expires_at, ...)]. *)
Definition edge_end (e : Edge.EdgeRow) : Z := default_to e.(Edge.expires_at) e.(Edge.revoked_at).

Definition has_live_child (t : Z) (d : Db) (id : string) : bool :=
  negb (bool_decide ((select (fun _ c => bool_decide (c.(Edge.parent_edge_id) = Some id) && edge_live t c)
                        d.(delegation_edges)).*1 = [])).

(** [DELETE FROM delegation_edges], with [ON DELETE SET NULL (parent_edge_id)]. *)
Definition delete_edges (dead : string -> Edge.EdgeRow -> bool) (es : gmap string Edge.EdgeRow) : gmap string Edge.EdgeRow :=
  update_where (fun _ e => match e.(Edge.parent_edge_id) with
                           | Some p => match es !! p with Some pe => dead p pe | None => false end
                           | None => false
                           end)
    (Edge.set_parent_edge_id None) (delete_where dead es).

Definition edge_expire_item (z : string) (ids : list string) (epoch : Z) : OutboxItem :=
  MkItem DelegationsInvalidate ("edge_expire:" +:+ z +:+ ":" +:+ pretty epoch)
    [("event", JStr "edge_expire"); ("zone_id", JStr z); ("affected_edges", JNum (Z.of_nat (length ids)));
     ("edge_ids", JArr (JStr <$> ids)); ("epoch", JNum epoch)].

(** ** Sessions *)

Definition session_old (t : Z) (d : Db) (days_kept : Z) (k : string) (s : Session.SessionRow) : bool :=
  match s.(Session.status) with Terminated | Expired => true | _ => false end
  && match s.(Session.terminated_at) with Some e => e <? t - days days_kept | None => false end
  && bool_decide ((select (fun _ c => bool_decide (c.(Session.parent_id) = Some k)) d.(sessions)).*1 = []).

(** [detached_invocations]. *)
Definition detach (t : Z) (ids : list string) (i : Invocation.InvocationRow) : Invocation.InvocationRow :=
  let drop o := match o with Some k => if bool_decide (k ∈ ids) then None else Some k | None => None end in
  Invocation.set_source_session_id (drop i.(Invocation.source_session_id))
    (Invocation.set_target_session_id (drop i.(Invocation.target_session_id)) (Invocation.set_updated_at t i)).

Definition names_session (ids : list string) (o : option string) : bool :=
  match o with Some k => bool_decide (k ∈ ids) | None => false end.

(** [DELETE FROM sessions], with the cascades of its foreign keys. *)
Definition delete_sessions (t : Z) (ids : list string) (d : Db) : Db :=
  set_agent_invocations
    (update_where (fun _ i => names_session ids i.(Invocation.source_session_id)
                              || names_session ids i.(Invocation.target_session_id)) (detach t ids) d.(agent_invocations))
    (set_agent_topology (filter (fun pc => pc.1 ∉ ids /\ pc.2 ∉ ids) d.(agent_topology))
      (set_delegation_edges
        (delete_edges (fun _ e => bool_decide (e.(Edge.source_session_id) ∈ ids)
                                  || bool_decide (e.(Edge.target_session_id) ∈ ids)) d.(delegation_edges))
        (set_sessions (delete_where (fun k _ => bool_decide (k ∈ ids)) d.(sessions)) d))).

(** ** The job *)

Definition outbox_old (t days_kept : Z) (k : string * string * string) (r : Outbox.OutboxRow) : bool :=
  bool_decide (k.1.1 = "coordinator") && bool_decide (r.(Outbox.status) = OPublished)
  && (r.(Outbox.updated_at) <? t - days days_kept).

(** [ORDER BY expires_at, id]. *)
Definition receipt_le {K : Type} (a b : K * Receipt.ReceiptRow) : Prop :=
  a.2.(Receipt.expires_at) < b.2.(Receipt.expires_at)
  \/ (a.2.(Receipt.expires_at) = b.2.(Receipt.expires_at) /\ String.leb a.2.(Receipt.id) b.2.(Receipt.id) = true).

#[export] Instance receipt_le_dec {K : Type} : RelDecision (@receipt_le K).
Proof. intros a b. unfold receipt_le. apply _. Defined.

Section job.
Context `{Env}.

Definition batch_size : nat := Z.to_nat cfg.(retentionCleanupBatchSize).

Definition expired_candidates (t : Z) (d : Db) : list (string * Edge.EdgeRow) :=
  take batch_size (merge_sort (key_id_le (fun ke => ke.2.(Edge.expires_at))) (select (fun _ => edge_lapsed t) d.(delegation_edges))).

(** One epoch and one announcement per zone. *)
Fixpoint announce_expired {R : Type} (zones : list (string * list string)) : Tx R (list OutboxItem) :=
  match zones with
  | [] => mret []
  | (z, ids) :: rest =>
      epoch ← bumpDelegationEpoch z;
      items ← announce_expired rest;
      mret (edge_expire_item z ids epoch :: items)
  end.

Definition old_edges (t : Z) (d : Db) : list (string * Edge.EdgeRow) :=
  take batch_size (merge_sort (col_le (fun ke => edge_end ke.2))
    (select (fun k e => negb (bool_decide (e.(Edge.status) = RActive))
                        && (edge_end e <? t - days cfg.(delegationRetentionDays)) && negb (has_live_child t d k))
       d.(delegation_edges))).

Definition old_sessions (t : Z) (d : Db) : list (string * Session.SessionRow) :=
  take batch_size (merge_sort (key_id_le (fun ks => default_to 0 ks.2.(Session.terminated_at)))
    (select (session_old t d cfg.(sessionRetentionDays)) d.(sessions))).

Definition old_outbox (t : Z) (d : Db) : list ((string * string * string) * Outbox.OutboxRow) :=
  take batch_size (merge_sort (col_le (fun kr => kr.2.(Outbox.updated_at)))
    (select (outbox_old t cfg.(outboxRetentionDays)) d.(caracal_outbox))).

Definition old_receipts (t : Z) (d : Db) : list ((string * string * string * string) * Receipt.ReceiptRow) :=
  take batch_size (merge_sort receipt_le
    (select (fun _ => expired_receipt t) d.(receipts))).

(** Expire and announce. *)
Definition expire_edges_tx {R : Type} : Tx R Z :=
  expired ← query expired_candidates;
  exec (fun t d => set_delegation_edges
    (update_where (fun k _ => bool_decide (k ∈ expired.*1)) (expire_edge t) d.(delegation_edges)) d);;
  items ← announce_expired (group_by_zone Edge.zone_id expired);
  enqueueMany items;;
  mret (Z.of_nat (length expired)).

(** Prune. *)
Definition prune_tx {R : Type} : Tx R (Z * Z * Z * Z) :=
  edges ← query old_edges;
  exec (fun _ d => set_delegation_edges (delete_edges (fun k _ => bool_decide (k ∈ edges.*1)) d.(delegation_edges)) d);;
  ss ← query old_sessions;
  exec (fun t => delete_sessions t ss.*1);;
  rows ← query old_outbox;
  exec (fun _ d => set_caracal_outbox (delete_where (fun k _ => bool_decide (k ∈ rows.*1)) d.(caracal_outbox)) d);;
  rs ← query old_receipts;
  exec (fun _ d => set_receipts (delete_where (fun k _ => bool_decide (k ∈ rs.*1)) d.(receipts)) d);;
  mret (Z.of_nat (length edges), Z.of_nat (length ss), Z.of_nat (length rows), Z.of_nat (length rs)).

Definition retention_tx (acquired : bool) : Tx RetentionCleanupResult (exit RetentionCleanupResult) :=
  ensure acquired emptyResult;;
  n ← expire_edges_tx;
  counts ← prune_tx;
  let '(edges, ss, rows, rs) := counts in
  mret (Commit (MkResult n edges ss rows rs)).

(** [runRetentionCleanup]; [acquired] is the answer of [pg_try_advisory_xact_lock]. *)
Definition runRetentionCleanup (acquired : bool) (w : World) : (RetentionCleanupResult + exn) * World :=
  run_tx (retention_tx acquired) w.
End job.

(** * Properties of the retention cleanup

    What one run may and may not remove: live Sessions, live delegations, unpublished
    events and unexpired receipts survive, lapsed delegations are closed and announced,
    and the governance invariant holds afterwards. *)

(** ** Deleting edges *)

Lemma lookup_delete_edges dead (es : gmap string Edge.EdgeRow) k e' :
  delete_edges dead es !! k = Some e' <->
  exists e, es !! k = Some e /\ dead k e = false
    /\ e' = match e.(Edge.parent_edge_id) with
            | Some p => match es !! p with
                        | Some pe => if dead p pe then Edge.set_parent_edge_id None e else e
                        | None => e
                        end
            | None => e
            end.
Proof.
  unfold delete_edges. rewrite lookup_update_where, fmap_Some. split.
  - intros (e & [Hk Hd]%lookup_delete_where & ->). exists e. split_and!; [done|done|].
    destruct e.(Edge.parent_edge_id) as [p|]; [|done]. by destruct (es !! p).
  - intros (e & Hk & Hd & ->). exists e. split; [by apply lookup_delete_where|].
    destruct e.(Edge.parent_edge_id) as [p|]; [|done]. by destruct (es !! p).
Qed.

Section governed.
Context `{Env}.

Lemma delete_edges_inv t rs ss dead (es : EdgeTable) : edge_inv t rs ss es -> edge_inv t rs ss (delete_edges dead es).
Proof.
  intros Hinv. eapply edge_inv_weaken; [reflexivity| |exact Hinv].
  intros k e' (e & Hk & Hd & He')%lookup_delete_edges. exists e. split; [done|].
  destruct (e.(Edge.parent_edge_id)) as [p|] eqn:Hp; subst e'.
  2: { split; [apply edge_weaker_refl|congruence]. }
  destruct (ei_parent _ _ _ _ Hinv k e p Hk Hp) as (pe & Hpe & _). rewrite Hpe.
  destruct (dead p pe) eqn:Hdp; [split; [by split_and!; auto|done]|]. split; [apply edge_weaker_refl|].
  intros pid Hpid. assert (pid = p) as -> by congruence.
  assert (exists pe', delete_edges dead es !! p = Some pe') as [pe' ?]; [|by eexists].
  eexists. apply lookup_delete_edges. by exists pe.
Qed.

Lemma expire_edges_inv t rs ss (ids : list string) (es : EdgeTable) :
  edge_inv t rs ss es -> edge_inv t rs ss (update_where (fun k _ => bool_decide (k ∈ ids)) (expire_edge t) es).
Proof.
  intros Hinv. eapply edge_inv_weaken; [reflexivity| |exact Hinv]. intros k e'. rewrite lookup_update_where, fmap_Some.
  intros (e & Hk & ->). exists e. split; [done|]. split.
  - destruct (bool_decide _); [|apply edge_weaker_refl]. by split_and!; auto.
  - intros pid Hpid. rewrite lookup_update_where.
    destruct (ei_parent _ _ _ _ Hinv k e pid Hk) as (pe & -> & _); [by destruct (bool_decide _)|]. by eexists.
Qed.

(** ** Deleting Sessions *)

(** Ids whose rows are closed and have no children. *)
Definition deletable (ids : list string) (ss : SessionTable) : Prop :=
  forall k s, k ∈ ids -> ss !! k = Some s -> is_live s = false /\ forall c sc, ss !! c = Some sc -> sc.(Session.parent_id) <> Some k.

Lemma delete_sessions_inv (ids : list string) (ss : SessionTable) :
  deletable ids ss -> session_inv ss -> session_inv (delete_where (fun k _ => bool_decide (k ∈ ids)) ss).
Proof.
  intros Hdel Hinv. set (ss' := delete_where _ ss).
  assert (forall k s, ss' !! k = Some s <-> ss !! k = Some s /\ k ∉ ids) as Hlk.
  { intros k s. unfold ss'. rewrite lookup_delete_where. by rewrite bool_decide_eq_false. }
  split.
  - destruct (ss' !! "") eqn:E; [|done]. apply Hlk in E as [E _]. by rewrite (inv_key _ Hinv) in E.
  - intros k s p [Hk Hn]%Hlk Hp. destruct (inv_parent _ Hinv k s p Hk Hp) as (ps & Hps & Hrest). exists ps.
    split; [|done]. apply Hlk. split; [done|]. intros Hin. destruct (Hdel p ps Hin Hps) as [_ Hc]. exact (Hc k s Hk Hp).
  - intros k s [Hk _]%Hlk. by eapply inv_root.
  - intros k s [Hk _]%Hlk. by eapply inv_depth.
  - intros k s [Hk Hn]%Hlk Hl. rewrite (inv_count _ Hinv k s Hk Hl). f_equal. unfold live_children.
    apply select_length_iff. intros c. rewrite !elem_of_select_keys. split.
    + intros (sc & Hc & Hlc). exists sc. split; [|done]. apply Hlk. split; [done|]. intros Hin.
      unfold live_child in Hlc. bool_props. destruct (Hdel c sc Hin Hc). congruence.
    + intros (sc & [Hc _]%Hlk & Hlc). eauto.
  - intros k s [Hk _]%Hlk. by eapply inv_cap.
Qed.

Lemma delete_sessions_governed t t' ids d :
  deletable ids d.(sessions) -> governed t d -> governed t (delete_sessions t' ids d).
Proof.
  intros Hdel (Hwf & Hs & He). unfold governed. cbn. split_and!; [done|by apply delete_sessions_inv|].
  eapply edge_inv_sessions; [|by apply delete_edges_inv].
  intros k e' (e & Hk & Hd & He')%lookup_delete_edges. bool_props.
  assert (e'.(Edge.source_session_id) = e.(Edge.source_session_id) /\ e'.(Edge.target_session_id) = e.(Edge.target_session_id))
    as [Hsrc Htgt]. { subst e'. by repeat case_match. }
  intros (Hne & s & tg & Hs1 & Hs2 & Hrest). split; [done|]. exists s, tg. rewrite !lookup_delete_where, !bool_decide_eq_false.
  rewrite Hsrc, Htgt in *. done.
Qed.
End governed.

(** ** One run *)

Section run.
Context `{Env}.

Definition expired_edges (t : Z) (d : Db) : gmap string Edge.EdgeRow :=
  update_where (fun k _ => bool_decide (k ∈ (expired_candidates t d).*1)) (expire_edge t) d.(delegation_edges).

(** The epochs of the announced zones moved on, and each has its announcement. *)
Definition announced (zones : list (string * list string)) (ep ep' : gmap string Z) (items : list OutboxItem) : Prop :=
  (forall z ids, (z, ids) ∈ zones -> exists e, ep' !! z = Some e /\ edge_expire_item z ids e ∈ items
     /\ forall e0, ep !! z = Some e0 -> e0 < e)
  /\ (forall z, z ∉ zones.*1 -> ep' !! z = ep !! z).

Lemma wp_announce_expired {R : Type} zones (Q : list OutboxItem -> World -> Prop) (E : exit R -> World -> Prop) w :
  NoDup zones.*1 ->
  (forall items ep, announced zones w.(db).(delegation_graph_epochs) ep items ->
     Q items (set_db (set_delegation_graph_epochs ep w.(db)) w)) ->
  wp (announce_expired zones) Q E w.
Proof.
  revert w Q. induction zones as [|[z ids] zones IH]; intros w Q Hnd HQ; cbn [announce_expired].
  { apply wp_ret. specialize (HQ [] w.(db).(delegation_graph_epochs)). destruct w as [[] ? ? ? ? ? ?]. apply HQ.
    split; [set_solver|done]. }
  cbn in Hnd. apply NoDup_cons in Hnd as [Hz Hnd]. wp_step. apply wp_bumpDelegationEpoch. wp_step. apply IH; [done|].
  intros items ep [Hin Hout]. wp_step. cbn [db set_db delegation_graph_epochs set_delegation_graph_epochs] in *.
  set (e := next_epoch z w.(db)) in *. specialize (HQ (edge_expire_item z ids e :: items) ep).
  destruct w as [[] ? ? ? ? ? ?]. apply HQ. cbn in *. split.
  - intros z' ids' [[= -> ->]|Hz']%elem_of_cons.
    + exists e. rewrite Hout, lookup_insert_eq by done. split_and!; [done|set_solver|]. intros e0 He0. unfold e, next_epoch. cbn. rewrite He0. lia.
    + destruct (Hin z' ids' Hz') as (e' & He' & Hit & Hlt). exists e'. split_and!; [done|set_solver|].
      intros e0 He0. apply Hlt. rewrite lookup_insert_ne; [done|]. intros <-. apply Hz, list_elem_of_fmap. by exists (z, ids').
  - intros z' Hz'. apply not_elem_of_cons in Hz' as [Hne Hz']. rewrite Hout by done. by rewrite lookup_insert_ne.
Qed.

(** The four prunings, one after the other. *)
Definition prune_edges (t : Z) (d : Db) : Db :=
  set_delegation_edges (delete_edges (fun k _ => bool_decide (k ∈ (old_edges t d).*1)) d.(delegation_edges)) d.

Definition prune_sessions (t : Z) (d : Db) : Db := delete_sessions t (old_sessions t d).*1 d.

Definition prune_outbox (t : Z) (d : Db) : Db :=
  set_caracal_outbox (delete_where (fun k _ => bool_decide (k ∈ (old_outbox t d).*1)) d.(caracal_outbox)) d.

Definition prune_receipts (t : Z) (d : Db) : Db :=
  set_receipts (delete_where (fun k _ => bool_decide (k ∈ (old_receipts t d).*1)) d.(receipts)) d.

Definition pruned (t : Z) (d : Db) : Db := prune_receipts t (prune_outbox t (prune_sessions t (prune_edges t d))).

Lemma wp_prune {R : Type} (Q : Z * Z * Z * Z -> World -> Prop) (E : exit R -> World -> Prop) w :
  (forall res, Q res (set_db (pruned w.(now) w.(db)) w)) -> wp prune_tx Q E w.
Proof.
  intros HQ. unfold prune_tx. wp_step. apply wp_query. wp_step. apply wp_exec. fold (prune_edges w.(now) w.(db)).
  generalize (length (old_edges w.(now) w.(db))). intros n1.
  wp_step. apply wp_query. wp_step. apply wp_exec. cbn [now db set_db].
  fold (prune_sessions w.(now) (prune_edges w.(now) w.(db))). generalize (length (old_sessions w.(now) (prune_edges w.(now) w.(db)))). intros n2.
  wp_step. apply wp_query. wp_step. apply wp_exec. cbn [now db set_db].
  set (d2 := prune_sessions _ _). fold (prune_outbox w.(now) d2). generalize (length (old_outbox w.(now) d2)). intros n3.
  wp_step. apply wp_query. wp_step. apply wp_exec. cbn [now db set_db]. fold (prune_receipts w.(now) (prune_outbox w.(now) d2)).
  apply wp_ret. apply HQ.
Qed.

(** What an acquired run leaves: the first stage [d1] closes and announces, then the
    rest is pruned. *)
Record cleaned (t : Z) (d d1 : Db) (items : list OutboxItem) : Prop := {
  cl_first : d1 = set_caracal_outbox d1.(caracal_outbox) (set_delegation_graph_epochs d1.(delegation_graph_epochs)
      (set_delegation_edges (expired_edges t d) d));
  cl_announced : announced (group_by_zone Edge.zone_id (expired_candidates t d))
      d.(delegation_graph_epochs) d1.(delegation_graph_epochs) items;
  cl_outbox : outbox_extends d.(caracal_outbox) d1.(caracal_outbox) items
}.

Lemma retention_spec acquired w :
  let '(r, w') := runRetentionCleanup acquired w in
  if acquired then exists res d1 items, r = inl res /\ cleaned w.(now) w.(db) d1 items /\ w'.(db) = pruned w.(now) d1
  else r = inl emptyResult /\ w'.(db) = w.(db).
Proof.
  unfold runRetentionCleanup. pose proof (run_tx_wp (retention_tx acquired) w (fun r w' =>
    if acquired then exists res d1 items, r = inl res /\ cleaned w.(now) w.(db) d1 items /\ w'.(db) = pruned w.(now) d1
    else r = inl emptyResult /\ w'.(db) = w.(db))) as Hwp.
  destruct (run_tx _ w) as [r w']. apply Hwp. clear Hwp. unfold retention_tx. wp_step.
  apply wp_ensure; [intros ->|by intros ->]. wp_step. unfold expire_edges_tx. wp_step. apply wp_query. wp_step. apply wp_exec.
  fold (expired_edges w.(now) w.(db)). cbn [now db set_locks set_db]. fold (expired_edges w.(now) w.(db)).
  wp_step. apply wp_announce_expired; [apply group_by_zone_spec|]. intros items ep Han.
  wp_step. apply wp_enqueueMany. intros w1 (o & n & -> & Ho). wp_step. wp_step. apply wp_prune. intros [[[n1 n2] n3] n4].
  wp_step. eexists _, (set_caracal_outbox o (set_delegation_graph_epochs ep (set_delegation_edges (expired_edges w.(now) w.(db)) w.(db)))), items.
  split; [done|]. split; [|reflexivity]. split; [done|exact Han|exact Ho].
Qed.

(** ** What each stage keeps *)

Lemma lookup_expired t d k e :
  d.(delegation_edges) !! k = Some e ->
  expired_edges t d !! k = Some e \/ edge_lapsed t e = true /\ expired_edges t d !! k = Some (expire_edge t e).
Proof.
  intros Hk. unfold expired_edges. rewrite lookup_update_where, Hk. cbn. case_bool_decide as Hin; [right|by left].
  apply elem_of_batch_keys in Hin as (e' & He' & Hl). rewrite Hk in He'. by injection He' as <-.
Qed.

Lemma live_not_lapsed t e : edge_live t e = true -> edge_lapsed t e = false.
Proof. unfold edge_live, edge_lapsed. intros Hl. bool_props. rewrite (proj2 (Z.ltb_ge _ _)) by lia. apply andb_false_r. Qed.

Lemma expired_backward t d k e' :
  expired_edges t d !! k = Some e' -> exists e, d.(delegation_edges) !! k = Some e /\ edge_skeleton e' = edge_skeleton e
    /\ (edge_live t e' = true -> e' = e) /\ (e'.(Edge.status) = RActive -> e' = e).
Proof.
  unfold expired_edges. rewrite lookup_update_where, fmap_Some. intros (e & Hk & ->). exists e. split; [done|].
  destruct (bool_decide _); [|done]. split_and!; [done| |done]. unfold edge_live. by rewrite bool_decide_eq_false_2.
Qed.

(** The edges pruned by age have no live child. *)
Lemma old_edge_no_child t d k c ce :
  k ∈ (old_edges t d).*1 -> d.(delegation_edges) !! c = Some ce -> ce.(Edge.parent_edge_id) = Some k -> edge_live t ce = false.
Proof.
  intros (e & _ & Ho)%elem_of_batch_keys Hc Hp. bool_props. unfold has_live_child in *.
  destruct (edge_live t ce) eqn:Hl; [|done].
  match goal with Hb : negb _ = false |- _ => apply negb_false_iff, bool_decide_eq_true_1 in Hb end.
  assert (c ∈ (select (fun _ c0 => bool_decide (c0.(Edge.parent_edge_id) = Some k) && edge_live t c0) d.(delegation_edges)).*1) as Hin.
  { apply elem_of_select_keys. exists ce. split; [done|]. by rewrite bool_decide_eq_true_2, Hl. }
  destruct (select _ _); set_solver.
Qed.

Lemma old_sessions_deletable t d : deletable (old_sessions t d).*1 d.(sessions).
Proof.
  intros k s (s' & Hs' & Ho)%elem_of_batch_keys Hs. rewrite Hs in Hs'. injection Hs' as <-. unfold session_old in Ho. bool_props. split.
  - unfold is_live. by destruct s.(Session.status).
  - intros c sc Hc Hp. match goal with Hn : (select _ _).*1 = [] |- _ => apply fmap_nil_inv in Hn; rewrite select_nil in Hn;
      specialize (Hn c sc Hc); by rewrite bool_decide_eq_true_2 in Hn end.
Qed.

Lemma cleaned_governed t d d1 items : governed t d -> cleaned t d d1 items -> governed t (pruned t d1).
Proof.
  intros (Hwf & Hs & He) [Hd1 _ _]. assert (governed t d1) as (Hwf1 & Hs1 & He1).
  { rewrite Hd1. split_and!; [done|done|]. cbn. unfold expired_edges. by apply expire_edges_inv. }
  assert (governed t (prune_sessions t (prune_edges t d1))) as Hg.
  { apply delete_sessions_governed; [apply old_sessions_deletable|]. split_and!; [done|done|]. by apply delete_edges_inv. }
  exact Hg.
Qed.

Lemma runRetentionCleanup_governed acquired w :
  governed w.(now) w.(db) -> governed w.(now) (runRetentionCleanup acquired w).2.(db).
Proof.
  intros Hg. pose proof (retention_spec acquired w) as Hr. destruct (runRetentionCleanup acquired w) as [r w']. cbn [snd].
  destruct acquired; [|by destruct Hr as [_ ->]]. destruct Hr as (res & d1 & items & _ & Hc & ->). by eapply cleaned_governed.
Qed.

(** A live edge survives every stage, at most losing a parent that was deleted with
    its Session. *)
Lemma live_edge_kept d d1 items k e t :
  governed t d -> cleaned t d d1 items -> d.(delegation_edges) !! k = Some e -> edge_live t e = true ->
  (pruned t d1).(delegation_edges) !! k = Some e
  \/ (pruned t d1).(delegation_edges) !! k = Some (Edge.set_parent_edge_id None e)
     /\ exists p pe, e.(Edge.parent_edge_id) = Some p /\ d.(delegation_edges) !! p = Some pe /\ edge_live t pe = false
        /\ ((pruned t d1).(sessions) !! pe.(Edge.source_session_id) = None
            \/ (pruned t d1).(sessions) !! pe.(Edge.target_session_id) = None).
Proof.
  intros (Hwf & Hs & He) [Hd1 _ _] Hk Hl.
  assert (d1.(delegation_edges) = expired_edges t d /\ d1.(sessions) = d.(sessions)) as [He1 Hs1] by by rewrite Hd1.
  assert (expired_edges t d !! k = Some e) as Hk1.
  { destruct (lookup_expired t d k e Hk) as [|[Hx _]]; [done|]. rewrite (live_not_lapsed _ _ Hl) in Hx. done. }
  assert (e.(Edge.status) = RActive) as Hst by (unfold edge_live in Hl; by bool_props).
  (* the age-based stage leaves it alone *)
  set (dd := prune_edges t d1).
  assert (dd.(delegation_edges) !! k = Some e) as Hk2.
  { apply lookup_delete_edges. exists e. rewrite He1. split; [done|]. split.
    - apply bool_decide_eq_false_2. intros (e' & He' & Hold)%elem_of_batch_keys. rewrite He1, Hk1 in He'. injection He' as <-.
      rewrite Hst in Hold. by rewrite bool_decide_eq_true_2 in Hold.
    - destruct e.(Edge.parent_edge_id) as [p|] eqn:Hp; [|done]. destruct (expired_edges t d !! p) as [pe|]; [|done].
      rewrite bool_decide_eq_false_2; [done|]. intros Hin. rewrite <-He1 in Hk1.
      pose proof (old_edge_no_child _ _ _ _ _ Hin Hk1 Hp). congruence. }
  set (ids := (old_sessions t dd).*1).
  assert (forall x sx, x ∈ ids -> d.(sessions) !! x = Some sx -> is_live sx = false) as Hdead.
  { intros x sx Hx Hsx. apply (old_sessions_deletable t dd x sx Hx). unfold dd. cbn. by rewrite Hs1. }
  assert (forall x, x ∈ ids -> (pruned t d1).(sessions) !! x = None) as Hgone.
  { intros x Hx. change ((pruned t d1).(sessions)) with (delete_where (fun k (_ : Session.SessionRow) => bool_decide (k ∈ ids)) dd.(sessions)).
    destruct (delete_where _ _ !! x) as [s'|] eqn:E; [|done]. apply lookup_delete_where in E as [_ E]. by rewrite bool_decide_eq_true_2 in E. }
  assert (forall c ce, d.(delegation_edges) !! c = Some ce -> ce.(Edge.status) = RActive ->
    ce.(Edge.source_session_id) ∉ ids /\ ce.(Edge.target_session_id) ∉ ids) as Hends.
  { intros c ce Hc Hce. destruct (ei_endpoints _ _ _ _ He c ce Hc) as (_ & s1 & s2 & Hs1' & Hs2' & _ & _ & _ & _ & Hlive).
    destruct (Hlive Hce) as [Hl1 Hl2]. split; intros Hin; [specialize (Hdead _ _ Hin Hs1')|specialize (Hdead _ _ Hin Hs2')]; congruence. }
  set (dead := fun (_ : string) (e : Edge.EdgeRow) => bool_decide (e.(Edge.source_session_id) ∈ ids) || bool_decide (e.(Edge.target_session_id) ∈ ids)).
  change ((pruned t d1).(delegation_edges)) with (delete_edges dead dd.(delegation_edges)).
  assert (dead k e = false) as Hdk. { destruct (Hends k e Hk Hst). unfold dead. by rewrite !bool_decide_eq_false_2. }
  destruct e.(Edge.parent_edge_id) as [p|] eqn:Hp.
  2: { left. apply lookup_delete_edges. exists e. by rewrite Hp. }
  destruct (dd.(delegation_edges) !! p) as [pe2|] eqn:Hpe2.
  2: { left. apply lookup_delete_edges. exists e. by rewrite Hp, Hpe2. }
  destruct (dead p pe2) eqn:Hdp.
  2: { left. apply lookup_delete_edges. exists e. by rewrite Hp, Hpe2, Hdp. }
  right. split; [apply lookup_delete_edges; exists e; by rewrite Hp, Hpe2, Hdp|].
  apply lookup_delete_edges in Hpe2 as (pe1 & Hpe1 & _ & Heq). rewrite He1 in Hpe1.
  destruct (expired_backward _ _ _ _ Hpe1) as (pe & Hpe & Hsk & _). exists p, pe.
  assert (edge_skeleton pe2 = edge_skeleton pe) as Hsk2. { rewrite <-Hsk. subst pe2. by repeat case_match. }
  assert (pe2.(Edge.source_session_id) = pe.(Edge.source_session_id) /\ pe2.(Edge.target_session_id) = pe.(Edge.target_session_id))
    as [Hsrc Htgt]. { unfold edge_skeleton in Hsk2. by injection Hsk2. }
  unfold dead in Hdp. rewrite Hsrc, Htgt in Hdp. apply orb_true_iff in Hdp as [Hin%bool_decide_eq_true_1|Hin%bool_decide_eq_true_1].
  - split_and!; [done|done| |left; by apply Hgone]. destruct (edge_live t pe) eqn:Hlp; [|done]. unfold edge_live in Hlp. bool_props. by destruct (Hends p pe Hpe).
  - split_and!; [done|done| |right; by apply Hgone]. destruct (edge_live t pe) eqn:Hlp; [|done]. unfold edge_live in Hlp. bool_props. by destruct (Hends p pe Hpe).
Qed.

(** What a cleanup run never takes away: live Sessions keep their rows, and a Session
    that goes was closed longer ago than the retention period and had no children; a live
    delegation keeps its row, except that it forgets a parent that went with a deleted
    Session and had itself stopped being live; events not yet published and receipts not
    yet expired stay. *)
Theorem retention_keeps_live acquired w :
  governed w.(now) w.(db) ->
  let t := w.(now) in let d := w.(db) in let d' := (runRetentionCleanup acquired w).2.(db) in
  (forall k s, d.(sessions) !! k = Some s ->
     d'.(sessions) !! k = Some s
     \/ d'.(sessions) !! k = None /\ is_live s = false /\ (forall c sc, d.(sessions) !! c = Some sc -> sc.(Session.parent_id) <> Some k)
        /\ exists e, s.(Session.terminated_at) = Some e /\ e < t - days cfg.(sessionRetentionDays))
  /\ (forall k e, d.(delegation_edges) !! k = Some e -> edge_live t e = true ->
     d'.(delegation_edges) !! k = Some e
     \/ d'.(delegation_edges) !! k = Some (Edge.set_parent_edge_id None e)
        /\ exists p pe, e.(Edge.parent_edge_id) = Some p /\ d.(delegation_edges) !! p = Some pe /\ edge_live t pe = false
           /\ (d'.(sessions) !! pe.(Edge.source_session_id) = None \/ d'.(sessions) !! pe.(Edge.target_session_id) = None))
  /\ (forall k r, d.(caracal_outbox) !! k = Some r -> r.(Outbox.status) <> OPublished -> d'.(caracal_outbox) !! k = Some r)
  /\ (forall k r, d.(receipts) !! k = Some r -> live_receipt t r = true -> d'.(receipts) !! k = Some r).
Proof.
  intros Hg. cbv zeta. pose proof (retention_spec acquired w) as Hr. destruct (runRetentionCleanup acquired w) as [r w']. cbn [snd].
  destruct acquired; [|destruct Hr as [_ ->]; by split_and!; auto]. destruct Hr as (res & d1 & items & _ & [Hd1 Han Ho] & Hd').
  set (t := w.(now)) in *. set (d := w.(db)) in *. set (dd := prune_edges t d1) in *. rewrite Hd'.
  assert (dd.(sessions) = d.(sessions)) as Hss by (unfold dd; by rewrite Hd1).
  assert (forall k s, d.(sessions) !! k = Some s -> (pruned t d1).(sessions) !! k = Some s \/ k ∈ (old_sessions t dd).*1
    /\ (pruned t d1).(sessions) !! k = None) as Hsess.
  { intros k s Hk. change ((pruned t d1).(sessions)) with (delete_where (fun k (_ : Session.SessionRow) => bool_decide (k ∈ (old_sessions t dd).*1)) dd.(sessions)).
    rewrite Hss. destruct (decide (k ∈ (old_sessions t dd).*1)) as [Hin|Hin].
    - right. split; [done|]. destruct (delete_where _ _ !! k) as [s'|] eqn:E; [|done]. apply lookup_delete_where in E as [_ E].
      by rewrite bool_decide_eq_true_2 in E.
    - left. apply lookup_delete_where. by rewrite bool_decide_eq_false_2. }
  pose proof (old_sessions_deletable t dd) as Hdel. split_and!.
  - intros k s Hk. destruct (Hsess k s Hk) as [?|[Hin Hnone]]; [by left|right]. split; [done|].
    rewrite Hss in Hdel. destruct (Hdel k s Hin Hk). split_and!; [done|done|].
    apply elem_of_batch_keys in Hin as (s' & Hs' & Hold). rewrite Hss, Hk in Hs'. injection Hs' as <-. unfold session_old in Hold. bool_props.
    destruct s.(Session.terminated_at) as [e|]; [|done]. exists e. bool_props. done.
  - intros k e Hk Hl. by apply (live_edge_kept d d1 items k e t Hg).
  - intros k r0 Hk Hp. assert (d1.(caracal_outbox) !! k = Some r0) as H1 by by apply Ho.
    change ((pruned t d1).(caracal_outbox)) with (delete_where (fun k (_ : Outbox.OutboxRow) => bool_decide (k ∈ (old_outbox t (prune_sessions t dd)).*1)) d1.(caracal_outbox)).
    apply lookup_delete_where. split; [done|]. apply bool_decide_eq_false_2. intros (r1 & Hr1 & Hold)%elem_of_batch_keys.
    change (d1.(caracal_outbox) !! k = Some r1) in Hr1. rewrite H1 in Hr1. injection Hr1 as <-. unfold outbox_old in Hold. by bool_props.
  - intros k r0 Hk Hl. assert (d1.(receipts) !! k = Some r0) as H1 by by rewrite Hd1.
    change ((pruned t d1).(receipts)) with (delete_where (fun k (_ : Receipt.ReceiptRow) => bool_decide (k ∈ (old_receipts t (prune_outbox t (prune_sessions t dd))).*1)) d1.(receipts)).
    apply lookup_delete_where. split; [done|]. apply bool_decide_eq_false_2. intros (r1 & Hr1 & Hold)%elem_of_batch_keys.
    change (d1.(receipts) !! k = Some r1) in Hr1. rewrite H1 in Hr1. injection Hr1 as <-. unfold live_receipt, expired_receipt in *. bool_props. lia.
Qed.

(** A cleanup run closes lapsed delegations: when its batch holds them all none is
    active past its expiry afterwards, and every zone of the batch moves to a later epoch
    under which exactly the zone's closed edges are announced, the announcement waiting
    for publication. *)
Theorem retention_expires_edges w :
  let t := w.(now) in let d := w.(db) in
  let '(r, w') := runRetentionCleanup true w in
  (exists res, r = inl res)
  /\ ((length (select (fun _ => edge_lapsed t) d.(delegation_edges)) <= batch_size)%nat ->
      select (fun _ => edge_lapsed t) w'.(db).(delegation_edges) = [])
  /\ (forall k e, (k, e) ∈ expired_candidates t d ->
       exists epoch ids, w'.(db).(delegation_graph_epochs) !! e.(Edge.zone_id) = Some epoch
         /\ (forall e0, d.(delegation_graph_epochs) !! e.(Edge.zone_id) = Some e0 -> e0 < epoch)
         /\ (forall k', k' ∈ ids <-> exists e', (k', e') ∈ expired_candidates t d /\ e'.(Edge.zone_id) = e.(Edge.zone_id))
         /\ let item := edge_expire_item e.(Edge.zone_id) ids epoch in
            d.(caracal_outbox) !! item_key item = None ->
            exists row, w'.(db).(caracal_outbox) !! item_key item = Some row /\ row.(Outbox.status) = OPending).
Proof.
  cbv zeta. pose proof (retention_spec true w) as Hr. destruct (runRetentionCleanup true w) as [r w'].
  destruct Hr as (res & d1 & items & -> & [Hd1 [Han _] Ho] & Hd'). set (t := w.(now)) in *. set (d := w.(db)) in *. split_and!; [by eexists| |].
  - intros Hfit. apply select_nil. intros k e' Hk'. rewrite Hd' in Hk'.
    change ((pruned t d1).(delegation_edges)) with (delete_edges (fun (_ : string) (e : Edge.EdgeRow) =>
      bool_decide (e.(Edge.source_session_id) ∈ (old_sessions t (prune_edges t d1)).*1)
      || bool_decide (e.(Edge.target_session_id) ∈ (old_sessions t (prune_edges t d1)).*1)) (prune_edges t d1).(delegation_edges)) in Hk'.
    apply lookup_delete_edges in Hk' as (e2 & Hk2 & _ & He').
    apply lookup_delete_edges in Hk2 as (e1 & Hk1 & _ & He2).
    assert (d1.(delegation_edges) = expired_edges t d) as He1 by by rewrite Hd1. rewrite He1 in Hk1.
    assert (edge_lapsed t e' = edge_lapsed t e1) as ->.
    { transitivity (edge_lapsed t e2); [subst e'|subst e2]; by repeat case_match. }
    destruct (expired_backward _ _ _ _ Hk1) as (e & Hk & _ & _ & Hst). destruct (edge_lapsed t e1) eqn:Hl; [|done].
    assert (e1 = e) as -> by (apply Hst; unfold edge_lapsed in Hl; by bool_props).
    assert ((k, e) ∈ expired_candidates t d) as Hin by by apply (batch_complete _ _ (fun _ => edge_lapsed t)).
    unfold expired_edges in Hk1. rewrite lookup_update_where, Hk in Hk1. cbn in Hk1. rewrite bool_decide_eq_true_2 in Hk1.
    + injection Hk1 as Hx. rewrite <-Hx in Hl. done.
    + apply list_elem_of_fmap. by exists (k, e).
  - intros k e Hin. destruct (group_by_zone_spec Edge.zone_id (expired_candidates t d)) as (_ & Hids & Hall & _).
    destruct (Hall k e Hin) as [ids Hz]. destruct (Han _ _ Hz) as (epoch & Hep & Hitem & Hlt). exists epoch, ids.
    rewrite Hd'. split_and!; [done|done|by apply Hids|]. intros Hnew.
    destruct Ho as (_ & Hadd & Horig). destruct (Hadd _ Hitem) as [row Hrow]. exists row.
    destruct (Horig _ _ Hrow) as [?|(i & _ & _ & _ & _ & Hpend)]; [congruence|]. split; [|done].
    change ((pruned t d1).(caracal_outbox)) with (delete_where (fun k (_ : Outbox.OutboxRow) =>
      bool_decide (k ∈ (old_outbox t (prune_sessions t (prune_edges t d1))).*1)) d1.(caracal_outbox)).
    apply lookup_delete_where. split; [done|]. apply bool_decide_eq_false_2. intros (r1 & Hr1 & Hold)%elem_of_batch_keys.
    change (d1.(caracal_outbox) !! item_key (edge_expire_item e.(Edge.zone_id) ids epoch) = Some r1) in Hr1.
    rewrite Hrow in Hr1. injection Hr1 as <-. unfold outbox_old in Hold. bool_props. congruence.
Qed.
End run.
