(* ===== verification/Streams.v ===== *)
(** * Signed stream messages

    [packages/core/ts/src/crypto.ts] (the canonical form of a stream message and its
    HMAC), [streamFields] of [apps/coordinator/src/jobs/outbox-publisher.ts], which turns
    an outbox row into the fields of a message, and
    [apps/coordinator/src/jobs/lifecycle-relay.ts], which verifies, deduplicates and
    acknowledges what it reads. *)

From Stdlib Require Import Ascii.
From Stdlib Require String.
From S2P Require Import Prelude.
From S2P Require Import Json.
From S2P Require Import Schema.
From S2P Require Import Store.
From S2P Require Import Outbox.
Local Open Scope string_scope.
Local Open Scope Z_scope.
Local Open Scope list_scope.

(** ** Signing *)

Definition STREAM_SIG_FIELD : string := "_sig".

(** [StreamValue]. *)
Inductive StreamValue :=
| SStr (s : string)
| SNum (n : Z)
| SBool (b : bool)
| SNull
| SUndefined.

(** [String(v)]; [None] for the values that are skipped. *)
Definition stream_text (v : StreamValue) : option string :=
  match v with
  | SStr s => Some s
  | SNum n => Some (pretty n)
  | SBool b => Some (if b then "true" else "false")
  | SNull | SUndefined => None
  end.

Definition newline : string := String.String (ascii_of_nat 10) "".

(** [canonicalizeStream]. *)
Definition canonicalizeStream (stream : string) (values : list (string * StreamValue)) : string :=
  foldl (fun out k => match ordered_get k values with
                      | Some v => match stream_text v with
                                  | Some s => out +:+ k +:+ "=" +:+ s +:+ newline
                                  | None => out
                                  end
                      | None => out
                      end)
    (stream +:+ newline) (sort_strings (filter (fun k => k <> STREAM_SIG_FIELD) values.*1)).

(** [JSON.stringify] of a value. *)
Fixpoint stringify (v : json) : string :=
  match v with
  | JNull | JNonFinite | JUndefined => "null"
  | JBool b => if b then "true" else "false"
  | JNum n => pretty n
  | JDec literal => literal
  | JStr s => stringify_string s
  | JArr xs => "[" +:+ string_concat "," (stringify <$> xs) +:+ "]"
  | JObj fields =>
      "{" +:+ string_concat ","
        ((fix go l := match l with
                      | [] => []
                      | (k, JUndefined) :: l' => go l'
                      | (k, x) :: l' => (stringify_string k +:+ ":" +:+ stringify x) :: go l'
                      end) fields) +:+ "}"
  end.

Definition reserved (k : string) : bool :=
  bool_decide (k = "outbox_id") || bool_decide (k = "dedupe_key") || bool_decide (k = STREAM_SIG_FIELD).

Definition field_text (v : json) : string := match v with JStr s => s | _ => stringify v end.

(** The values of a message before it is signed. *)
Definition stream_values (id dedupe_key : string) (payload : list (string * json)) : list (string * StreamValue) :=
  foldl (fun values kv => if reserved kv.1 then values else ordered_set kv.1 (SStr (field_text kv.2)) values)
    [("outbox_id", SStr id); ("dedupe_key", SStr dedupe_key)] payload.

Definition flatten (values : list (string * StreamValue)) : list string :=
  values ≫= fun kv => [kv.1; default_to "" (stream_text kv.2)].

(** [fieldsToValues]: pairs of a flat field list; a dangling key is dropped. *)
Fixpoint add_fields (fields : list string) (values : list (string * StreamValue)) : list (string * StreamValue) :=
  match fields with
  | k :: v :: rest => add_fields rest (ordered_set k (SStr v) values)
  | _ => values
  end.

Definition fieldsToValues (fields : list string) : list (string * StreamValue) := add_fields fields [].

(** [Buffer.from(s, 'hex')]: pairs of hexadecimal digits up to the first that is not. *)
Definition hex_value (c : ascii) : option nat :=
  let n := nat_of_ascii c in
  if bool_decide (48 <= n /\ n <= 57)%nat then Some (n - 48)%nat
  else if bool_decide (97 <= n /\ n <= 102)%nat then Some (n - 87)%nat
  else if bool_decide (65 <= n /\ n <= 70)%nat then Some (n - 55)%nat
  else None.

Fixpoint decode_hex (s : string) : list nat :=
  match s with
  | String.String a (String.String b rest) =>
      match hex_value a, hex_value b with
      | Some x, Some y => (16 * x + y)%nat :: decode_hex rest
      | _, _ => []
      end
  | _ => []
  end.

Definition LIFECYCLE_STREAM : string := "caracal.agents.lifecycle".
Definition DEDUPE_KEY_PREFIX : string := "coordinator:relay_dedupe:".

(** [relayStats]. *)
Record RelayStats := MkRelayStats { observed : Z; duplicates : Z; invalidSignature : Z; failures : Z }.

(** [LifecycleRelayOptions], the part that decides. *)
Record RelayOptions := MkRelayOptions {
  streamHmacKey : option string;
  requireSignature : bool;
  dedupeTtlMs : Z
}.

(** What the relay keeps and changes: its counters, the dedupe keys, the acknowledged ids. *)
Record RelayState := MkRelayState {
  stats : RelayStats;
  keys : gmap string (Z * option Z);
  acked : list string
}.

Section streams.
Context `{Env}.

Definition signStream (key stream : string) (values : list (string * StreamValue)) : string :=
  hmac_sha256 key (canonicalizeStream stream values).

(** [streamFields], for the stream the row goes to; [hmac] is [streamHmacKey]. *)
Definition streamFields (hmac : option string) (topic dedupe_key : string) (row : Outbox.OutboxRow) : list string :=
  let values := stream_values row.(Outbox.id) dedupe_key row.(Outbox.payload_json) in
  let values := match hmac with
                | Some key => ordered_set STREAM_SIG_FIELD (SStr (signStream key topic values)) values
                | None => values
                end in
  flatten values.

(** [LifecycleRelay.verify]. *)
Definition verify (opts : RelayOptions) (values : list (string * StreamValue)) : bool :=
  match opts.(requireSignature), opts.(streamHmacKey) with
  | false, None => true
  | _, o =>
      match ordered_get STREAM_SIG_FIELD values, o with
      | Some (SStr got), Some key =>
          bool_decide (decode_hex got = decode_hex (signStream key LIFECYCLE_STREAM values))
      | _, _ => false
      end
  end.

(** [LifecycleRelay.duplicate]: [SET key 1 PX ttl NX]; a failing command counts as new. *)
Definition duplicate (opts : RelayOptions) (reachable : bool) (time : Z) (values : list (string * StreamValue))
  (ks : gmap string (Z * option Z)) : bool * gmap string (Z * option Z) :=
  match ordered_get "outbox_id" values with
  | Some (SStr id) =>
      if bool_decide (id = "") || negb reachable then (false, ks)
      else
        let key := DEDUPE_KEY_PREFIX +:+ id in
        let taken := match ks !! key with
                     | Some (_, Some e) => time <? e
                     | Some (_, None) => true
                     | None => false
                     end in
        if taken then (true, ks) else (false, <[key := (1, Some (time + opts.(dedupeTtlMs) * 1000))]> ks)
  | _ => (false, ks)
  end.

(** [LifecycleRelay.processMessage]: whatever the verdict, the message is acknowledged. *)
Definition processMessage (opts : RelayOptions) (reachable : bool) (time : Z) (id : string) (fields : list string)
  (st : RelayState) : RelayState :=
  let values := fieldsToValues fields in
  let count s := MkRelayState s st.(keys) (id :: st.(acked)) in
  let s := st.(stats) in
  if negb (verify opts values) then
    count (MkRelayStats s.(observed) s.(duplicates) (s.(invalidSignature) + 1) s.(failures))
  else
    let '(dup, ks) := duplicate opts reachable time values st.(keys) in
    MkRelayState
      (if dup then MkRelayStats s.(observed) (s.(duplicates) + 1) s.(invalidSignature) s.(failures)
       else MkRelayStats (s.(observed) + 1) s.(duplicates) s.(invalidSignature) s.(failures))
      ks (id :: st.(acked)).

(** The messages of one read, in order, each at its own time. *)
Definition process_all (opts : RelayOptions) (reachable : bool) (messages : list (Z * string * list string)) (st : RelayState)
  : RelayState :=
  foldl (fun st m => processMessage opts reachable m.1.1 m.1.2 m.2 st) st messages.
End streams.

(** ** Properties *)


(** All values are strings, under distinct keys, none the signature's. *)
Definition plain (values : list (string * StreamValue)) : Prop :=
  NoDup values.*1 /\ STREAM_SIG_FIELD ∉ values.*1 /\ Forall (fun kv => exists s, kv.2 = SStr s) values.

Lemma ordered_set_strings (values : list (string * StreamValue)) k s :
  Forall (fun kv => exists s, kv.2 = SStr s) values -> Forall (fun kv => exists s, kv.2 = SStr s) (ordered_set k (SStr s) values).
Proof.
  induction 1 as [|[k0 v0] values Hv Hvs IH]; cbn; [constructor; [by eexists|done]|].
  case_bool_decide; constructor; by eauto.
Qed.

Lemma stream_values_plain id dk payload : plain (stream_values id dk payload).
Proof.
  unfold stream_values. rewrite <-(reverse_involutive payload).
  induction (reverse payload) as [|[k v] l IH]; [|rewrite reverse_cons, foldl_app; cbn [foldl fst snd]].
  - cbn. split_and!; [by apply (bool_decide_unpack _)|by apply (bool_decide_unpack _)|]. repeat constructor; by eexists.
  - destruct (reserved k) eqn:Hr; [done|]. destruct IH as (Hnd & Hsig & Hstr). split_and!.
    + by apply ordered_set_keys.
    + rewrite ordered_set_keys_iff. intros [<-|?]; [|done]. unfold reserved in Hr. bool_props. done.
    + by apply ordered_set_strings.
Qed.

(** Reading back a flat field list. *)
Lemma add_fields_flatten values acc :
  NoDup values.*1 -> Forall (fun kv => exists s, kv.2 = SStr s) values -> (forall k, k ∈ values.*1 -> k ∉ acc.*1) ->
  add_fields (flatten values) acc = acc ++ values.
Proof.
  revert acc. induction values as [|[k v] values IH]; intros acc Hnd Hstr Hdis; [by rewrite app_nil_r|].
  cbn in Hnd. apply NoDup_cons in Hnd as [Hk Hnd]. apply Forall_cons in Hstr as [[s Hs] Hstr]. cbn in Hs. subst v.
  change (flatten ((k, SStr s) :: values)) with (k :: s :: flatten values). cbn [add_fields].
  rewrite ordered_set_fresh by (apply Hdis; set_solver). rewrite IH; [by rewrite <-app_assoc|done|done|].
  intros k' Hk'. rewrite fmap_app, elem_of_app. cbn. intros [?|?%list_elem_of_singleton]; [|congruence]. eapply Hdis; [|done]. set_solver.
Qed.

(** The signature field does not change what is signed. *)
Lemma canonicalize_signed stream values sig :
  STREAM_SIG_FIELD ∉ values.*1 ->
  canonicalizeStream stream (ordered_set STREAM_SIG_FIELD (SStr sig) values) = canonicalizeStream stream values.
Proof.
  intros Hsig. unfold canonicalizeStream. rewrite (ordered_set_fresh _ _ _ Hsig), fmap_app, filter_app.
  change ([(STREAM_SIG_FIELD, SStr sig)].*1) with [STREAM_SIG_FIELD].
  rewrite (filter_cons_False _ _ []) by naive_solver. rewrite filter_nil, app_nil_r.
  assert (Forall (fun k => k <> STREAM_SIG_FIELD) (sort_strings (filter (fun k => k <> STREAM_SIG_FIELD) values.*1))) as Hall.
  { apply Forall_forall. intros k. unfold sort_strings. rewrite merge_sort_Permutation, list_elem_of_filter. naive_solver. }
  generalize (stream +:+ newline). induction Hall as [|k ks Hk Hks IH]; intros acc; [done|]. cbn [foldl].
  rewrite <-(ordered_set_fresh _ _ _ Hsig), ordered_get_set, bool_decide_eq_false_2 by congruence.
  rewrite (ordered_set_fresh _ _ _ Hsig). apply IH.
Qed.

Section theorems.
Context `{Env}.

Lemma published_values key tp dk row :
  fieldsToValues (streamFields (Some key) tp dk row)
  = ordered_set STREAM_SIG_FIELD (SStr (signStream key tp (stream_values row.(Outbox.id) dk row.(Outbox.payload_json))))
      (stream_values row.(Outbox.id) dk row.(Outbox.payload_json)).
Proof.
  unfold streamFields, fieldsToValues. set (vs := stream_values _ _ _).
  destruct (stream_values_plain row.(Outbox.id) dk row.(Outbox.payload_json)) as (Hnd & Hsig & Hstr). fold vs in Hnd, Hsig, Hstr.
  rewrite add_fields_flatten; [done|by apply ordered_set_keys|by apply ordered_set_strings|set_solver].
Qed.

Lemma stream_values_id id dk payload : ordered_get "outbox_id" (stream_values id dk payload) = Some (SStr id).
Proof.
  unfold stream_values. rewrite <-(reverse_involutive payload).
  induction (reverse payload) as [|[k v] l IH]; [done|]. rewrite reverse_cons, foldl_app. cbn [foldl fst snd].
  destruct (reserved k) eqn:Hr; [done|]. rewrite ordered_get_set, bool_decide_eq_false_2; [done|]. intros ->. done.
Qed.

(** What the publisher signs the relay accepts: for every outbox row, reading back the
    fields of its message verifies under the same key and names the row; and under a
    required signature the relay accepts nothing whose signature does not decode to the
    HMAC of the message's own canonical form. *)
Theorem relay_accepts_published key dk row opts fields :
  opts.(streamHmacKey) = Some key ->
  let values := fieldsToValues (streamFields (Some key) AgentsLifecycle dk row) in
  verify opts values = true /\ ordered_get "outbox_id" values = Some (SStr row.(Outbox.id))
  /\ (verify opts (fieldsToValues fields) = true ->
      exists got, ordered_get STREAM_SIG_FIELD (fieldsToValues fields) = Some (SStr got)
        /\ decode_hex got = decode_hex (hmac_sha256 key (canonicalizeStream LIFECYCLE_STREAM (fieldsToValues fields)))).
Proof.
  intros Hkey values. unfold values. rewrite published_values.
  destruct (stream_values_plain row.(Outbox.id) dk row.(Outbox.payload_json)) as (Hnd & Hsig & Hstr).
  assert (forall vs, verify opts vs = match ordered_get STREAM_SIG_FIELD vs with
    | Some (SStr got) => bool_decide (decode_hex got = decode_hex (signStream key LIFECYCLE_STREAM vs)) | _ => false end) as Hver.
  { intros vs. unfold verify. rewrite Hkey. by destruct (requireSignature opts). }
  split_and!.
  - rewrite Hver, ordered_get_set, bool_decide_eq_true_2 by done. apply bool_decide_eq_true_2.
    unfold signStream. by rewrite canonicalize_signed.
  - rewrite ordered_get_set, bool_decide_eq_false_2 by done. apply stream_values_id.
  - rewrite Hver. destruct (ordered_get _ _) as [[got| | | |]|]; try done. intros Hd%bool_decide_eq_true_1. by exists got.
Qed.

(** Messages of one published row, at different times. *)
Definition deliveries (key dk : string) (row : Outbox.OutboxRow) (times : list (Z * string)) : list (Z * string * list string) :=
  (fun ti => (ti, streamFields (Some key) AgentsLifecycle dk row)) <$> times.

Lemma process_published key dk row opts time mid st :
  opts.(streamHmacKey) = Some key ->
  processMessage opts true time mid (streamFields (Some key) AgentsLifecycle dk row) st
  = let '(dup, ks) := duplicate opts true time (fieldsToValues (streamFields (Some key) AgentsLifecycle dk row)) st.(keys) in
    MkRelayState (if dup then MkRelayStats st.(stats).(observed) (st.(stats).(duplicates) + 1) st.(stats).(invalidSignature) st.(stats).(failures)
                  else MkRelayStats (st.(stats).(observed) + 1) st.(stats).(duplicates) st.(stats).(invalidSignature) st.(stats).(failures))
      ks (mid :: st.(acked)).
Proof.
  intros Hkey. unfold processMessage. set (vs := fieldsToValues _).
  assert (verify opts vs = true) as ->; [|done]. unfold vs. rewrite published_values.
  destruct (stream_values_plain row.(Outbox.id) dk row.(Outbox.payload_json)) as (_ & Hsig & _).
  unfold verify. rewrite Hkey. set (sv := stream_values _ _ _) in *. 
  assert (ordered_get STREAM_SIG_FIELD (ordered_set STREAM_SIG_FIELD (SStr (signStream key AgentsLifecycle sv)) sv)
    = Some (SStr (signStream key AgentsLifecycle sv))) as Hg by by rewrite ordered_get_set, bool_decide_eq_true_2.
  rewrite Hg. destruct opts.(requireSignature); apply bool_decide_eq_true_2; unfold signStream; by rewrite canonicalize_signed.
Qed.

Lemma dup_published key dk row opts time ks :
  row.(Outbox.id) <> "" ->
  duplicate opts true time (fieldsToValues (streamFields (Some key) AgentsLifecycle dk row)) ks
  = let k := DEDUPE_KEY_PREFIX +:+ row.(Outbox.id) in
    if match ks !! k with Some (_, Some e) => time <? e | Some (_, None) => true | None => false end then (true, ks)
    else (false, <[k := (1, Some (time + opts.(dedupeTtlMs) * 1000))]> ks).
Proof.
  intros Hid. unfold duplicate. rewrite published_values, ordered_get_set, bool_decide_eq_false_2 by done.
  rewrite stream_values_id, bool_decide_eq_false_2 by done. done.
Qed.

Lemma process_duplicates key dk row opts e times st :
  opts.(streamHmacKey) = Some key -> row.(Outbox.id) <> "" -> Forall (fun ti => ti.1 < e) times ->
  st.(keys) !! (DEDUPE_KEY_PREFIX +:+ row.(Outbox.id)) = Some (1, Some e) ->
  let st' := process_all opts true (deliveries key dk row times) st in
  st'.(stats).(observed) = st.(stats).(observed)
  /\ st'.(stats).(duplicates) = st.(stats).(duplicates) + Z.of_nat (length times)
  /\ st'.(acked) = reverse times.*2 ++ st.(acked).
Proof.
  intros Hkey Hid Hall. revert st. induction Hall as [|[time mid] times Ht Hall IH]; intros st Hk; cbn zeta.
  { cbn. split_and!; [done|lia|done]. }
  unfold process_all, deliveries in *. cbn [fmap list_fmap foldl fst snd]. rewrite (process_published key) by done.
  rewrite dup_published by done. cbv zeta. rewrite Hk. cbn in Ht. rewrite (proj2 (Z.ltb_lt _ _) Ht).
  destruct (IH (MkRelayState (MkRelayStats st.(stats).(observed) (st.(stats).(duplicates) + 1) st.(stats).(invalidSignature) st.(stats).(failures))
    st.(keys) (mid :: st.(acked))) Hk) as (Ho & Hd & Ha). cbn [stats keys acked observed duplicates] in Ho, Hd, Ha.
  rewrite Ho, Hd, Ha. split_and!; [done|cbn [length]; lia|]. cbn [fmap list_fmap snd].
  by rewrite reverse_cons, <-app_assoc.
Qed.

(** At-least-once delivery is observed once: however often the message of one row is
    delivered within the dedupe window of its first delivery, the relay observes it exactly
    once, counts the rest as duplicates, and acknowledges every one. *)
Theorem relay_observes_once key dk row opts time mid times st :
  opts.(streamHmacKey) = Some key -> row.(Outbox.id) <> "" ->
  st.(keys) !! (DEDUPE_KEY_PREFIX +:+ row.(Outbox.id)) = None ->
  Forall (fun ti => ti.1 < time + opts.(dedupeTtlMs) * 1000) times ->
  let st' := process_all opts true (deliveries key dk row ((time, mid) :: times)) st in
  st'.(stats).(observed) = st.(stats).(observed) + 1
  /\ st'.(stats).(duplicates) = st.(stats).(duplicates) + Z.of_nat (length times)
  /\ st'.(acked) = reverse (mid :: times.*2) ++ st.(acked).
Proof.
  intros Hkey Hid Hnone Hall. cbv zeta. unfold process_all, deliveries. cbn [fmap list_fmap foldl fst snd].
  rewrite (process_published key), dup_published by done. cbv zeta. rewrite Hnone.
  set (st1 := MkRelayState _ _ _).
  destruct (process_duplicates key dk row opts (time + opts.(dedupeTtlMs) * 1000) times st1) as (Ho & Hd & Ha);
    [done|done|done|apply lookup_insert_eq|]. unfold process_all, deliveries in Ho, Hd, Ha. rewrite Ho, Hd, Ha.
  split_and!; [done|done|]. by rewrite reverse_cons, <-app_assoc.
Qed.
End theorems.

(** The canonical form does not separate fields from values: a message whose value
    contains a line break has the signature of a different message, with the text after
    the break as a field of its own. *)
Theorem canonical_form_ambiguous `{Env} key stream :
  let one := [("event", SStr "terminate"); ("reason", SStr ("x" +:+ newline +:+ "zone_id=z2"))] in
  let two := [("event", SStr "terminate"); ("reason", SStr "x"); ("zone_id", SStr "z2")] in
  ordered_get "zone_id" one <> ordered_get "zone_id" two /\ signStream key stream one = signStream key stream two.
Proof.
  intros one two. split; [done|]. unfold signStream. f_equal. unfold canonicalizeStream.
  change (sort_strings (filter (fun k => k <> STREAM_SIG_FIELD) one.*1)) with ["event"; "reason"].
  change (sort_strings (filter (fun k => k <> STREAM_SIG_FIELD) two.*1)) with ["event"; "reason"; "zone_id"].
  cbn [foldl].
  change (ordered_get "event" one) with (Some (SStr "terminate")). change (ordered_get "event" two) with (Some (SStr "terminate")).
  change (ordered_get "reason" one) with (Some (SStr ("x" +:+ newline +:+ "zone_id=z2"))).
  change (ordered_get "reason" two) with (Some (SStr "x")). change (ordered_get "zone_id" two) with (Some (SStr "z2")).
  cbn [stream_text]. rewrite !string_app_assoc. by vm_compute.
Qed.
