(* ===== verification/Publisher.v ===== *)
(** * Publishing the outbox

    [apps/coordinator/src/jobs/outbox-publisher.ts] and
    [apps/coordinator/src/routes/outbox.ts]: moving pending rows to their streams with
    retries, back-off and a dead state after too many attempts, and putting a dead row
    back.  Delivery is at least once: a row is marked published only after its message
    was added, and no failure loses a row. *)

From S2P Require Import Prelude.
From S2P Require Import Json.
From S2P Require Import Schema.
From S2P Require Import Store.
From S2P Require Import Scope.
From S2P Require Import Auth.
From S2P Require Import Outbox.
From S2P Require Import Sweepers.
From S2P Require Import Retention.
From S2P Require Import Streams.
Local Open Scope string_scope.
Local Open Scope Z_scope.
Local Open Scope list_scope.

Notation outbox_key := (string * string * string)%type.
Notation OutboxTable := (gmap (string * string * string) Outbox.OutboxRow).

(** The outcome of one [XADD] under its timeout: added, or an error, after which the
    message may or may not have been added. *)
Inductive xadd_result := XAdded | XFailed (added : bool).

(** The [WHERE] of the batch. *)
Definition due (t : Z) (k : outbox_key) (r : Outbox.OutboxRow) : bool :=
  bool_decide (k.1.1 = "coordinator") && bool_decide (r.(Outbox.status) = OPending) && (r.(Outbox.available_at) <=? t).

Definition publish_batch (t : Z) (batchSize : Z) (d : Db) : list (outbox_key * Outbox.OutboxRow) :=
  take (Z.to_nat batchSize) (merge_sort (col_le (fun kr => kr.2.(Outbox.created_at))) (select (due t) d.(caracal_outbox))).

(** The loop: the ids that were added, are to be retried, and have run out of attempts. *)
Definition classify (maxAttempts : Z) (xadd : outbox_key * Outbox.OutboxRow -> xadd_result)
  (rows : list (outbox_key * Outbox.OutboxRow)) : list string * list string * list string :=
  foldl (fun '(published, retried, dead) row =>
    let id := row.2.(Outbox.id) in
    match xadd row with
    | XAdded => (published ++ [id], retried, dead)
    | XFailed _ =>
        let nextAttempts := row.2.(Outbox.attempts) + 1 in
        if maxAttempts <=? nextAttempts then (published, retried, dead ++ [id])
        else (published, retried ++ [id], dead)
    end) ([], [], []) rows.

Definition published_row (t : Z) (r : Outbox.OutboxRow) : Outbox.OutboxRow :=
  Outbox.set_status OPublished (Outbox.set_attempts (r.(Outbox.attempts) + 1)
    (Outbox.set_published_at (Some t) (Outbox.set_updated_at t r))).

(** [jitter] is [random() * interval '1 second'] for the row. *)
Definition retried_row (t : Z) (jitter : string -> Z) (r : Outbox.OutboxRow) : Outbox.OutboxRow :=
  Outbox.set_attempts (r.(Outbox.attempts) + 1)
    (Outbox.set_available_at (t + seconds (Z.min (r.(Outbox.attempts) + 1) 60) + jitter r.(Outbox.id))
      (Outbox.set_updated_at t r)).

Definition dead_row (t : Z) (r : Outbox.OutboxRow) : Outbox.OutboxRow :=
  Outbox.set_status ODead (Outbox.set_attempts (r.(Outbox.attempts) + 1) (Outbox.set_updated_at t r)).

Definition with_id (ids : list string) (_ : outbox_key) (r : Outbox.OutboxRow) : bool := bool_decide (r.(Outbox.id) ∈ ids).

(** [UPDATE ... WHERE id = ANY(ids)], skipped when there are none. *)
Definition update_ids {R : Type} (ids : list string) (f : Z -> Outbox.OutboxRow -> Outbox.OutboxRow) : Tx R unit :=
  if bool_decide (0 < length ids)%nat
  then exec (fun t d => set_caracal_outbox (update_where (with_id ids) (f t) d.(caracal_outbox)) d)
  else mret tt.

(** The transaction; [fault] is a database error before the commit. *)
Definition publish_tx (batchSize maxAttempts : Z) (xadd : outbox_key * Outbox.OutboxRow -> xadd_result)
  (jitter : string -> Z) (fault : option exn) : Tx unit (exit unit) :=
  rows ← query (fun t => publish_batch t batchSize);
  let '(published, retried, dead) := classify maxAttempts xadd rows in
  update_ids published published_row;;
  update_ids retried (fun t => retried_row t jitter);;
  update_ids dead dead_row;;
  match fault with
  | Some e => raise e
  | None => mret (Commit tt)
  end.

Definition added (x : xadd_result) : bool := match x with XAdded => true | XFailed b => b end.

Section publisher.
Context `{Env}.

(** The messages that reach the streams, with their stream. *)
Definition messages (hmac : option string) (xadd : outbox_key * Outbox.OutboxRow -> xadd_result)
  (rows : list (outbox_key * Outbox.OutboxRow)) : list (string * list string) :=
  (fun row => (row.1.1.2, streamFields hmac row.1.1.2 row.1.2 row.2)) <$> filter (fun row => added (xadd row) = true) rows.

(** [publishBatch]: the messages it adds to the streams, which no rollback removes, and
    the transaction's result. *)
Definition publishBatch (hmac : option string) (batchSize maxAttempts : Z)
  (xadd : outbox_key * Outbox.OutboxRow -> xadd_result) (jitter : string -> Z) (fault : option exn) (w : World)
  : list (string * list string) * ((unit + exn) * World) :=
  (messages hmac xadd (publish_batch w.(now) batchSize w.(db)),
   run_tx (publish_tx batchSize maxAttempts xadd jitter fault) w).
End publisher.

(** ** Putting a dead row back *)

(** [payload_json->>'zone_id']. *)
Definition payload_text (k : string) (p : list (string * json)) : option string :=
  match ordered_get k p with
  | Some (JStr s) => Some s
  | Some JNull | Some JUndefined | None => None
  | Some v => Some (stringify v)
  end.

Definition requeue_row (t : Z) (r : Outbox.OutboxRow) : Outbox.OutboxRow :=
  Outbox.set_status OPending (Outbox.set_attempts 0 (Outbox.set_available_at t
    (Outbox.set_published_at None (Outbox.set_updated_at t r)))).

Definition requeueable (zoneId id : string) (k : outbox_key) (r : Outbox.OutboxRow) : bool :=
  bool_decide (r.(Outbox.id) = id) && bool_decide (k.1.1 = "coordinator") && bool_decide (r.(Outbox.status) = ODead)
  && bool_decide (payload_text "zone_id" r.(Outbox.payload_json) = Some zoneId).

(** [POST /zones/:zoneId/outbox/:id/requeue]; [isUuid] is the validator of
    [z.string().uuid()]. *)
Definition requeueOutbox (isUuid : string -> bool) (req : option CaracalAuth) (zoneId id : string) (w : World) : reply * World :=
  if negb (requireScope req "coordinator.admin") then (error_reply 403 "coordinator_admin_required", w)
  else if negb (isUuid zoneId && isUuid id) then (errorHandler ZodError, w)
  else match head (select (requeueable zoneId id) w.(db).(caracal_outbox)) with
  | None => (error_reply 404 "dead_outbox_not_found", w)
  | Some (_, r) =>
      (MkReply 200 (JObj [("id", JStr r.(Outbox.id)); ("status", JStr "pending")]) false,
       set_db (set_caracal_outbox (update_where (requeueable zoneId id) (requeue_row w.(now)) w.(db).(caracal_outbox)) w.(db)) w)
  end.

(** ** What a batch does *)

(** [caracal_outbox_pkey]. *)
Definition outbox_pkey (o : OutboxTable) : Prop :=
  forall k k' r r', o !! k = Some r -> o !! k' = Some r' -> r.(Outbox.id) = r'.(Outbox.id) -> k = k'.

(** The row a batch leaves for a row it took. *)
Definition settled_row (maxAttempts t : Z) (jitter : string -> Z) (x : xadd_result) (r : Outbox.OutboxRow) : Outbox.OutboxRow :=
  match x with
  | XAdded => published_row t r
  | XFailed _ => if maxAttempts <=? r.(Outbox.attempts) + 1 then dead_row t r else retried_row t jitter r
  end.

Lemma elem_of_publish_batch t n d k r :
  (k, r) ∈ publish_batch t n d -> d.(caracal_outbox) !! k = Some r /\ due t k r = true.
Proof. apply elem_of_batch. Qed.

Definition is_added (x : xadd_result) : bool := match x with XAdded => true | XFailed _ => false end.

Lemma exists_snoc {A : Type} (P : A -> Prop) (l : list A) (a : A) :
  (exists x, x ∈ l ++ [a] /\ P x) <-> (exists x, x ∈ l /\ P x) \/ P a.
Proof.
  split.
  - intros (x & [Hx|Hx%list_elem_of_singleton]%elem_of_app & HP); [left; eauto|right; congruence].
  - intros [(x & Hx & HP)|HP]; [exists x|exists a]; set_solver.
Qed.

(** The three id lists are exactly the classes of the batch. *)
Lemma classify_spec maxAttempts xadd rows :
  let '(published, retried, dead) := classify maxAttempts xadd rows in
  forall id,
  (id ∈ published <-> exists row, row ∈ rows /\ row.2.(Outbox.id) = id /\ is_added (xadd row) = true)
  /\ (id ∈ retried <-> exists row, row ∈ rows /\ row.2.(Outbox.id) = id /\ is_added (xadd row) = false /\ row.2.(Outbox.attempts) + 1 < maxAttempts)
  /\ (id ∈ dead <-> exists row, row ∈ rows /\ row.2.(Outbox.id) = id /\ is_added (xadd row) = false /\ maxAttempts <= row.2.(Outbox.attempts) + 1).
Proof.
  induction rows as [|row rows IH] using rev_ind; [cbn; set_solver|].
  unfold classify in *. rewrite foldl_app. cbn [foldl]. destruct (foldl _ _ rows) as [[p r] d].
  destruct (xadd row) as [|b] eqn:Hx; [|destruct (Z.leb_spec maxAttempts (row.2.(Outbox.attempts) + 1)) as [Hle|Hlt]];
    intros id; destruct (IH id) as (Hp & Hr & Hd); rewrite !exists_snoc, <-?Hp, <-?Hr, <-?Hd, Hx;
    rewrite ?elem_of_app, ?list_elem_of_singleton; cbn [is_added]; clear Hp Hr Hd IH.
  - naive_solver.
  - split_and!; [naive_solver| |naive_solver]. split; [naive_solver|]. intros [?|(? & ? & ?)]; [done|lia].
  - split_and!; [naive_solver|naive_solver|]. split; [naive_solver|]. intros [?|(? & ? & ?)]; [done|lia].
Qed.

Section batch.
Context (batchSize maxAttempts : Z) (xadd : outbox_key * Outbox.OutboxRow -> xadd_result) (jitter : string -> Z).

(** The outbox after a batch at [t]. *)
Definition settled_outbox (t : Z) (d : Db) : OutboxTable :=
  let '(published, retried, dead) := classify maxAttempts xadd (publish_batch t batchSize d) in
  update_where (with_id dead) (dead_row t) (update_where (with_id retried) (retried_row t jitter)
    (update_where (with_id published) (published_row t) d.(caracal_outbox))).

Lemma update_where_none {K R : Type} `{Countable K} (p : K -> R -> bool) (f : R -> R) (m : gmap K R) :
  (forall k r, m !! k = Some r -> p k r = false) -> update_where p f m = m.
Proof.
  intros Hp. apply map_eq. intros k. rewrite lookup_update_where. destruct (m !! k) as [r|] eqn:Hk; [|done]. cbn. by rewrite (Hp k r Hk).
Qed.

Lemma wp_update_ids {R : Type} ids f (Q : unit -> World -> Prop) (E : exit R -> World -> Prop) w :
  Q tt (set_db (set_caracal_outbox (update_where (with_id ids) (f w.(now)) w.(db).(caracal_outbox)) w.(db)) w) ->
  wp (update_ids ids f) Q E w.
Proof.
  intros HQ. unfold update_ids. case_bool_decide as Hl; [by apply wp_exec|]. apply wp_ret.
  assert (ids = []) as -> by (destruct ids; [done|cbn in Hl; lia]).
  rewrite update_where_none in HQ; [by destruct w as [[] ? ? ? ? ? ?]|]. intros k r _. apply bool_decide_eq_false_2. set_solver.
Qed.

Lemma publish_spec fault w :
  let '(r, w') := run_tx (publish_tx batchSize maxAttempts xadd jitter fault) w in
  match fault with
  | None => r = inl tt /\ w'.(db) = set_caracal_outbox (settled_outbox w.(now) w.(db)) w.(db)
  | Some e => r = inr e /\ w'.(db) = w.(db)
  end.
Proof.
  pose proof (run_tx_wp (publish_tx batchSize maxAttempts xadd jitter fault) w (fun r w' =>
    match fault with
    | None => r = inl tt /\ w'.(db) = set_caracal_outbox (settled_outbox w.(now) w.(db)) w.(db)
    | Some e => r = inr e /\ w'.(db) = w.(db)
    end)) as Hwp.
  destruct (run_tx _ w) as [r w']. apply Hwp. clear Hwp. unfold publish_tx, settled_outbox. wp_step. apply wp_query. cbn [now db set_locks].
  destruct (classify _ _ _) as [[published retried] dead]. wp_step. apply wp_update_ids. wp_step. apply wp_update_ids.
  wp_step. apply wp_update_ids. destruct fault; wp_step; done.
Qed.

(** What becomes of every row. *)
Lemma settled_lookup t d k r :
  outbox_pkey d.(caracal_outbox) -> d.(caracal_outbox) !! k = Some r ->
  (k, r) ∈ publish_batch t batchSize d
    /\ settled_outbox t d !! k = Some (settled_row maxAttempts t jitter (xadd (k, r)) r)
  \/ (k, r) ∉ publish_batch t batchSize d /\ settled_outbox t d !! k = Some r.
Proof.
  intros Hpk Hk. unfold settled_outbox.
  pose proof (classify_spec maxAttempts xadd (publish_batch t batchSize d)) as Hc.
  destruct (classify _ _ _) as [[published retried] dead]. specialize (Hc r.(Outbox.id)) as (Hp & Hr & Hd).
  assert (forall P, (exists row, row ∈ publish_batch t batchSize d /\ row.2.(Outbox.id) = r.(Outbox.id) /\ P row)
    <-> (k, r) ∈ publish_batch t batchSize d /\ P (k, r)) as Hone.
  { intros P. split; [|intros [? ?]; by exists (k, r)]. intros ([k' r'] & Hin & Hid & HP). cbn in Hid.
    destruct (elem_of_publish_batch _ _ _ _ _ Hin) as [Hk' _]. pose proof (Hpk _ _ _ _ Hk' Hk Hid) as ->. by simplify_eq. }
  rewrite Hone in Hp, Hr, Hd. clear Hone. rewrite !lookup_update_where, Hk. cbn [fmap option_fmap option_map]. unfold with_id.
  unfold settled_row. cbn [snd] in *.
  destruct (bool_decide_reflect (r.(Outbox.id) ∈ published)) as [Hip|Hip].
  - apply Hp in Hip as [Hin Ha]. left. split; [done|]. destruct (xadd (k, r)) eqn:Hx; [|done]. cbn [Outbox.id published_row].
    rewrite (bool_decide_eq_false_2 (_ ∈ retried)) by (intros (_ & Hf & _)%Hr; congruence).
    by rewrite (bool_decide_eq_false_2 (_ ∈ dead)) by (intros (_ & Hf & _)%Hd; congruence).
  - destruct (bool_decide_reflect (r.(Outbox.id) ∈ retried)) as [Hir|Hir].
    + apply Hr in Hir as (Hin & Ha & Hlt). left. split; [done|]. destruct (xadd (k, r)) eqn:Hx; [done|].
      rewrite (proj2 (Z.leb_gt _ _)) by done. rewrite bool_decide_eq_false_2; [done|]. cbn. rewrite Hd. intros (_ & _ & ?). lia.
    + destruct (bool_decide_reflect (r.(Outbox.id) ∈ dead)) as [Hid|Hid].
      * apply Hd in Hid as (Hin & Ha & Hle). left. split; [done|]. destruct (xadd (k, r)) eqn:Hx; [done|].
        by rewrite (proj2 (Z.leb_le _ _)) by done.
      * right. split; [|done]. intros Hin. destruct (is_added (xadd (k, r))) eqn:Ha; [by apply Hip, Hp|].
        destruct (Z.le_gt_cases maxAttempts (r.(Outbox.attempts) + 1)); [by apply Hid, Hd|apply Hir, Hr; split_and!; [done..|lia]].
Qed.

Lemma settled_none t d k : d.(caracal_outbox) !! k = None -> settled_outbox t d !! k = None.
Proof. intros Hk. unfold settled_outbox. destruct (classify _ _ _) as [[? ?] ?]. by rewrite !lookup_update_where, Hk. Qed.
End batch.

(** ** Theorems *)

Section theorems.
Context `{Env}.

(** One publisher batch: a row it took is marked published exactly when its message
    was added, otherwise it is kept for a later attempt or, at its last attempt, as dead;
    every other row and table is untouched; a database error before the commit leaves all
    rows as they were; and in every case a row is only marked published when its signed
    message is in its stream. *)
Theorem publish_batch_settles hmac batchSize maxAttempts xadd jitter fault w :
  outbox_pkey w.(db).(caracal_outbox) ->
  let '(msgs, (r, w')) := publishBatch hmac batchSize maxAttempts xadd jitter fault w in
  match fault with
  | None => r = inl tt /\ w'.(db) = set_caracal_outbox w'.(db).(caracal_outbox) w.(db)
      /\ (forall k, w.(db).(caracal_outbox) !! k = None -> w'.(db).(caracal_outbox) !! k = None)
      /\ forall k row, w.(db).(caracal_outbox) !! k = Some row ->
         (k, row) ∈ publish_batch w.(now) batchSize w.(db) /\ due w.(now) k row = true
           /\ w'.(db).(caracal_outbox) !! k = Some (settled_row maxAttempts w.(now) jitter (xadd (k, row)) row)
         \/ (k, row) ∉ publish_batch w.(now) batchSize w.(db) /\ w'.(db).(caracal_outbox) !! k = Some row
  | Some e => r = inr e /\ w'.(db) = w.(db)
  end
  /\ (forall k row row', w.(db).(caracal_outbox) !! k = Some row -> row.(Outbox.status) <> OPublished ->
      w'.(db).(caracal_outbox) !! k = Some row' -> row'.(Outbox.status) = OPublished ->
      (k.1.2, streamFields hmac k.1.2 k.2 row) ∈ msgs).
Proof.
  intros Hpk. unfold publishBatch. pose proof (publish_spec batchSize maxAttempts xadd jitter fault w) as Hs.
  destruct (run_tx _ w) as [r w']. destruct fault as [e|].
  { destruct Hs as [-> Hd]. split; [done|]. intros k row row' Hk Hn Hk'. rewrite Hd, Hk in Hk'. injection Hk' as <-. done. }
  destruct Hs as [-> Hd]. rewrite Hd. cbn [caracal_outbox set_caracal_outbox]. split.
  - split_and!; [done|done|intros k; apply settled_none|]. intros k row Hk.
    destruct (settled_lookup batchSize maxAttempts xadd jitter w.(now) w.(db) k row Hpk Hk) as [[Hin Hl]|Hl]; [left|by right].
    split_and!; [done|by apply elem_of_publish_batch in Hin as []|done].
  - intros k row row' Hk Hn Hk' Hp.
    destruct (settled_lookup batchSize maxAttempts xadd jitter w.(now) w.(db) k row Hpk Hk) as [[Hin Hl]|[_ Hl]];
      rewrite Hl in Hk'; injection Hk' as <-; [|done].
    apply list_elem_of_fmap. exists (k, row). split; [done|]. apply list_elem_of_filter. split; [|done].
    apply elem_of_publish_batch in Hin as [_ Hdue]. unfold settled_row in Hp. destruct (xadd (k, row)) as [|b]; [done|].
    unfold due in Hdue. bool_props. destruct (_ <=? _); cbn in Hp; congruence.
Qed.

(** One run of the job at a time. *)
Record publish_call := MkPublishCall {
  pc_now : Z; pc_batch : Z; pc_xadd : outbox_key * Outbox.OutboxRow -> xadd_result; pc_jitter : string -> Z; pc_fault : option exn
}.

Definition at_time (t : Z) (w : World) : World :=
  MkWorld w.(db) t w.(redis_time) w.(redis) w.(uuids) w.(locks) w.(idempotencyStats).

Definition publish_once (hmac : option string) (maxAttempts : Z) (c : publish_call) (w : World) : World :=
  (publishBatch hmac c.(pc_batch) maxAttempts c.(pc_xadd) c.(pc_jitter) c.(pc_fault) (at_time c.(pc_now) w)).2.2.

(** The run committed an attempt on the row under [k]. *)
Definition tried (k : outbox_key) (c : publish_call) (w : World) : bool :=
  bool_decide (c.(pc_fault) = None) && bool_decide (k ∈ (publish_batch c.(pc_now) c.(pc_batch) w.(db)).*1).

Fixpoint publish_runs (hmac : option string) (maxAttempts : Z) (cs : list publish_call) (w : World) : World :=
  match cs with [] => w | c :: cs => publish_runs hmac maxAttempts cs (publish_once hmac maxAttempts c w) end.

Fixpoint tries (hmac : option string) (maxAttempts : Z) (k : outbox_key) (cs : list publish_call) (w : World) : Z :=
  match cs with
  | [] => 0
  | c :: cs => (if tried k c w then 1 else 0) + tries hmac maxAttempts k cs (publish_once hmac maxAttempts c w)
  end.

Lemma settled_pkey n m xadd jitter t d : outbox_pkey d.(caracal_outbox) -> outbox_pkey (settled_outbox n m xadd jitter t d).
Proof.
  intros Hpk k k' r r' Hr Hr' Hid.
  assert (forall k r, settled_outbox n m xadd jitter t d !! k = Some r -> exists r0, d.(caracal_outbox) !! k = Some r0 /\ r0.(Outbox.id) = r.(Outbox.id)) as Hback.
  { intros k0 r0 Hk0. destruct (d.(caracal_outbox) !! k0) as [r1|] eqn:Hk1; [|by rewrite settled_none in Hk0].
    exists r1. split; [done|]. destruct (settled_lookup n m xadd jitter t d k0 r1 Hpk Hk1) as [[_ Hl]|[_ Hl]]; rewrite Hl in Hk0; injection Hk0 as <-; [|done].
    unfold settled_row. destruct (xadd _); [done|]. by destruct (_ <=? _). }
  destruct (Hback _ _ Hr) as (r0 & H0 & H0'), (Hback _ _ Hr') as (r1 & H1 & H1'). eapply Hpk; [done|done|congruence].
Qed.

(** What one run does to the row under [k]. *)
Lemma publish_once_row hmac maxAttempts c w k r :
  outbox_pkey w.(db).(caracal_outbox) -> w.(db).(caracal_outbox) !! k = Some r ->
  outbox_pkey (publish_once hmac maxAttempts c w).(db).(caracal_outbox)
  /\ if tried k c w
     then r.(Outbox.status) = OPending /\ (publish_once hmac maxAttempts c w).(db).(caracal_outbox) !! k
            = Some (settled_row maxAttempts c.(pc_now) c.(pc_jitter) (c.(pc_xadd) (k, r)) r)
     else (publish_once hmac maxAttempts c w).(db).(caracal_outbox) !! k = Some r.
Proof.
  intros Hpk Hk. unfold publish_once, publishBatch. cbn [snd].
  pose proof (publish_spec c.(pc_batch) maxAttempts c.(pc_xadd) c.(pc_jitter) c.(pc_fault) (at_time c.(pc_now) w)) as Hs.
  destruct (run_tx _ _) as [x w']. cbn [snd]. unfold tried. destruct c.(pc_fault) as [e|].
  { destruct Hs as [_ ->]. by split. }
  destruct Hs as [_ ->]. cbn [caracal_outbox set_caracal_outbox db now at_time]. rewrite bool_decide_eq_true_2 by done. cbn [andb].
  split; [by apply settled_pkey|].
  destruct (settled_lookup c.(pc_batch) maxAttempts c.(pc_xadd) c.(pc_jitter) c.(pc_now) w.(db) k r Hpk Hk) as [[Hin Hl]|[Hin Hl]].
  - rewrite bool_decide_eq_true_2 by (apply list_elem_of_fmap; by exists (k, r)). split; [|done].
    apply elem_of_publish_batch in Hin as [_ Hdue]. unfold due in Hdue. by bool_props.
  - rewrite bool_decide_eq_false_2; [done|]. intros ([k' r'] & -> & Hin')%list_elem_of_fmap. cbn in *.
    pose proof (elem_of_publish_batch _ _ _ _ _ Hin') as [Hk' _]. simplify_eq. done.
Qed.

(** A row that is no longer pending is never tried again. *)
Lemma publish_done hmac maxAttempts cs w k r :
  outbox_pkey w.(db).(caracal_outbox) -> w.(db).(caracal_outbox) !! k = Some r -> r.(Outbox.status) <> OPending ->
  tries hmac maxAttempts k cs w = 0 /\ (publish_runs hmac maxAttempts cs w).(db).(caracal_outbox) !! k = Some r.
Proof.
  revert w. induction cs as [|c cs IH]; intros w Hpk Hk Hst; [done|]. cbn [tries publish_runs].
  destruct (publish_once_row hmac maxAttempts c w k r Hpk Hk) as [Hpk' Hrow]. destruct (tried k c w); [by destruct Hrow|].
  destruct (IH _ Hpk' Hrow Hst) as [-> Hr]. done.
Qed.

(** Retries are bounded: however often the publisher runs, a pending row is attempted
    at most as often as it has attempts left; while it stays pending every attempt was
    counted, and it is dead only once the last attempt failed. *)
Theorem retries_are_bounded hmac maxAttempts cs w k r :
  outbox_pkey w.(db).(caracal_outbox) -> w.(db).(caracal_outbox) !! k = Some r ->
  r.(Outbox.status) = OPending -> r.(Outbox.attempts) < maxAttempts ->
  tries hmac maxAttempts k cs w <= maxAttempts - r.(Outbox.attempts)
  /\ exists r', (publish_runs hmac maxAttempts cs w).(db).(caracal_outbox) !! k = Some r'
     /\ r'.(Outbox.attempts) = r.(Outbox.attempts) + tries hmac maxAttempts k cs w
     /\ (r'.(Outbox.status) = OPending -> r'.(Outbox.attempts) < maxAttempts)
     /\ (r'.(Outbox.status) = ODead -> r'.(Outbox.attempts) = maxAttempts).
Proof.
  revert w r. induction cs as [|c cs IH]; intros w r Hpk Hk Hst Hlt; cbn [tries publish_runs].
  { split; [lia|]. exists r. split_and!; [done|lia|done|congruence]. }
  destruct (publish_once_row hmac maxAttempts c w k r Hpk Hk) as [Hpk' Hrow]. destruct (tried k c w).
  2: { destruct (IH _ r Hpk' Hrow Hst Hlt) as (Hb & r' & Hr' & Ha & Hrest). split; [lia|]. exists r'. split_and!; [done|lia|apply Hrest|apply Hrest]. }
  destruct Hrow as [_ Hrow]. unfold settled_row in Hrow. destruct (c.(pc_xadd) (k, r)) as [|b].
  - destruct (publish_done hmac maxAttempts cs _ k _ Hpk' Hrow) as [-> Hfin]; [done|]. split; [lia|]. eexists. split; [exact Hfin|]. by cbn; split_and!; try lia.
  - destruct (Z.leb_spec maxAttempts (r.(Outbox.attempts) + 1)).
    + destruct (publish_done hmac maxAttempts cs _ k _ Hpk' Hrow) as [-> Hfin]; [done|]. split; [lia|]. eexists. split; [exact Hfin|].
      cbn. split_and!; [lia|done|lia].
    + destruct (IH _ _ Hpk' Hrow Hst ltac:(cbn; lia)) as (Hb & r' & Hr' & Ha & Hrest). cbn in Hb, Ha. split; [lia|].
      exists r'. split_and!; [done|lia|apply Hrest|apply Hrest].
Qed.
End theorems.

(** Putting a dead row back: only an operator with the admin scope can, only a dead row
    of the named zone is touched, and it is due for the publisher at once with all its
    attempts; every refusal changes nothing. *)
Theorem requeue_spec isUuid req zoneId id w :
  let '(r, w') := requeueOutbox isUuid req zoneId id w in
  if requireScope req "coordinator.admin" && isUuid zoneId && isUuid id
     && negb (bool_decide ((select (requeueable zoneId id) w.(db).(caracal_outbox)).*1 = []))
  then r = MkReply 200 (JObj [("id", JStr id); ("status", JStr "pending")]) false
    /\ w'.(db) = set_caracal_outbox w'.(db).(caracal_outbox) w.(db)
    /\ forall k row, w.(db).(caracal_outbox) !! k = Some row ->
       w'.(db).(caracal_outbox) !! k = Some (if requeueable zoneId id k row then requeue_row w.(now) row else row)
       /\ (requeueable zoneId id k row = true -> due w.(now) k (requeue_row w.(now) row) = true)
  else 400 <= r.(code) /\ w' = w.
Proof.
  unfold requeueOutbox. destruct (requireScope req "coordinator.admin"); cbn [andb negb]; [|done].
  destruct (isUuid zoneId && isUuid id); cbn [andb negb]; [|done].
  destruct (select (requeueable zoneId id) w.(db).(caracal_outbox)) as [|[k r] l] eqn:Hs; cbn [head]; [done|].
  rewrite bool_decide_eq_false_2 by done. cbn [negb].
  assert ((k, r) ∈ select (requeueable zoneId id) w.(db).(caracal_outbox)) as [_ Hr]%elem_of_select by (rewrite Hs; set_solver).
  unfold requeueable in Hr at 1. bool_props. split; [by subst|]. split; [done|]. intros k' row Hk'. cbn. rewrite lookup_update_where, Hk'. split; [done|].
  intros Hq. unfold requeueable in Hq. bool_props. unfold due. cbn. rewrite !bool_decide_eq_true_2 by done. apply Z.leb_refl.
Qed.
