(* ===== verification/System.v ===== *)
(** * The coordinator as a system

    Every state-changing route and job of the coordinator as an action on the world,
    steps of the running system (an action, the passing of time, or a change the other
    services make to applications and authority records), and the invariant that holds
    in every reachable world. *)

From S2P Require Import Prelude.
From S2P Require Import Json.
From S2P Require Import Schema.
From S2P Require Import Store.
From S2P Require Import Scope.
From S2P Require Import Auth.
From S2P Require Import Outbox.
From S2P Require Import Idempotency.
From S2P Require Import Sessions.
From S2P Require Import SessionFacts.
From S2P Require Import SessionProps.
From S2P Require Import Delegations.
From S2P Require Import ConstraintFacts.
From S2P Require Import DelegationFacts.
From S2P Require Import EdgeInv.
From S2P Require Import DelegationProps.
From S2P Require Import Services.
From S2P Require Import Invocations.
From S2P Require Import Frame.
From S2P Require Import Sweepers.
From S2P Require Import Retention.
From S2P Require Import Streams.
From S2P Require Import Publisher.
Local Open Scope string_scope.
Local Open Scope Z_scope.
Local Open Scope list_scope.

(** The state-changing routes and jobs. *)
Inductive action :=
| StartSession (req : Request) (zoneId : string) (body : StartBody)
| SuspendSession (req : option CaracalAuth) (zoneId id : string)
| ResumeSession (req : option CaracalAuth) (zoneId id : string)
| TerminateSession (req : option CaracalAuth) (zoneId id : string) (reason : option string) (leaseGeneration : option Z)
| CreateDelegation (req : Request) (zoneId : string) (body : DelegationBody)
| RevokeDelegation (req : option CaracalAuth) (zoneId id : string)
| RegisterService (req : option CaracalAuth) (zoneId : string) (body : ServiceBody)
| LeaseSession (req : option CaracalAuth) (zoneId id : string)
| Heartbeat (req : option CaracalAuth) (zoneId id : string) (body : HeartbeatBody)
| CreateInvocation (req : option CaracalAuth) (ip zoneId : string) (body : InvocationBody)
| StartInvocation (req : option CaracalAuth) (ip zoneId id : string)
| CancelInvocation (req : option CaracalAuth) (ip zoneId id : string) (reason : option string)
| CompleteInvocation (req : option CaracalAuth) (ip zoneId id : string) (body : CompleteBody)
| RequeueOutbox (req : option CaracalAuth) (zoneId id : string)
| TTLSweep (acquired : bool)
| ServiceLeaseSweep (acquired : bool)
| DeadlineSweep (acquired : bool)
| RetentionCleanup (acquired : bool)
| PublishBatch (hmac : option string) (batchSize maxAttempts : Z) (xadd : outbox_key * Outbox.OutboxRow -> xadd_result)
    (jitter : string -> Z) (fault : option exn).

Section system.
Context `{UuidLaws} (localeCompare : string -> string -> Z) (isUrl isUuid : string -> bool).

Definition act (a : action) (w : World) : World :=
  match a with
  | StartSession req z b => (startSession req z b w).2
  | SuspendSession req z id => (suspendSession req z id w).2
  | ResumeSession req z id => (resumeSession req z id w).2
  | TerminateSession req z id reason gen => (terminateSession req z id reason gen w).2
  | CreateDelegation req z b => (createDelegation req z b w).2
  | RevokeDelegation req z id => (revokeDelegation req z id w).2
  | RegisterService req z b => (registerService isUrl req z b w).2
  | LeaseSession req z id => (leaseSession req z id w).2
  | Heartbeat req z id b => (heartbeat req z id b w).2
  | CreateInvocation req ip z b => (createInvocation req ip z b w).2
  | StartInvocation req ip z id => (startInvocation req ip z id w).2
  | CancelInvocation req ip z id reason => (cancelInvocation req ip z id reason w).2
  | CompleteInvocation req ip z id b => (completeInvocation req ip z id b w).2
  | RequeueOutbox req z id => (requeueOutbox isUuid req z id w).2
  | TTLSweep acquired => (runTTLSweep localeCompare acquired w).2
  | ServiceLeaseSweep acquired => (runServiceLeaseSweep localeCompare acquired w).2
  | DeadlineSweep acquired => (runDeadlineSweep acquired w).2
  | RetentionCleanup acquired => (runRetentionCleanup acquired w).2
  | PublishBatch hmac n m xadd jitter fault => (publishBatch hmac n m xadd jitter fault w).2.2
  end.

Inductive step : World -> World -> Prop :=
| step_act a w : step w (act a w)
| step_elapse w t rt r : w.(now) <= t -> step w (MkWorld w.(db) t rt r w.(uuids) w.(locks) w.(idempotencyStats))
| step_elsewhere w apps recs : step w (set_db (MkDb apps recs w.(db).(resources) w.(db).(sessions) w.(db).(agent_topology)
    w.(db).(delegation_edges) w.(db).(delegation_graph_epochs) w.(db).(receipts) w.(db).(caracal_outbox)
    w.(db).(agent_services) w.(db).(agent_invocations)) w).

(** The invariant of the system. *)
Definition sound (w : World) : Prop := governed w.(now) w.(db) /\ invocations_wf w.(db).(agent_invocations).

(** Closes the refusals a route answers before its transaction. *)
Ltac route_guards :=
  repeat match goal with
  | |- context [if ?b then (_, _) else _] => destruct b; [done|]
  | |- context [match normalizedConstraints ?a ?b ?c with _ => _ end] => destruct (normalizedConstraints a b c); [done|]
  | |- context [match parse_StartBody ?b with _ => _ end] => destruct (parse_StartBody b); [|done]
  end.

(** ** Time *)

Lemma run_tx_now {R : Type} (m : Tx R (exit R)) w : (run_tx m w).2.(now) = w.(now).
Proof. unfold run_tx. destruct (m _) as [[[]|[]] w']; done. Qed.

Lemma respond_now (m : Tx reply (exit reply)) w : (respond (run_tx m w)).2.(now) = w.(now).
Proof. rewrite respond_db. apply run_tx_now. Qed.

Lemma limited_route_now req ip z id h w :
  (forall w, (h w).2.(now) = w.(now)) -> (limited_route req ip z id h w).2.(now) = w.(now).
Proof. intros Hh. destruct (limited_route_cases req ip z id h w) as [->|[r [->| ->]]]; [done..|]. by rewrite Hh. Qed.

Lemma act_now a w : (act a w).(now) = w.(now).
Proof.
  destruct a; cbn [act].
  - unfold startSession. route_guards. apply respond_now.
  - unfold suspendSession. route_guards. apply respond_now.
  - unfold resumeSession. route_guards. apply respond_now.
  - unfold terminateSession. route_guards. apply respond_now.
  - unfold createDelegation. cbv zeta. route_guards. apply respond_now.
  - unfold revokeDelegation. route_guards. apply respond_now.
  - unfold registerService. route_guards. cbv zeta. by rewrite respond_now.
  - unfold leaseSession. route_guards. apply respond_now.
  - unfold heartbeat. route_guards. apply respond_now.
  - unfold createInvocation. route_guards. apply respond_now.
  - apply limited_route_now. intros. apply respond_now.
  - apply limited_route_now. intros. route_guards. apply respond_now.
  - apply limited_route_now. intros. apply respond_now.
  - unfold requeueOutbox. repeat (case_match; try done).
  - apply run_tx_now.
  - apply run_tx_now.
  - apply run_tx_now.
  - apply run_tx_now.
  - apply run_tx_now.
Qed.

(** ** The invariant *)

Lemma governed_later t t' d : t <= t' -> governed t d -> governed t' d.
Proof.
  intros Ht (Hwf & Hs & He). split_and!; [done|done|]. eapply edge_inv_weaken; [exact Ht| |exact He].
  intros k e Hk. exists e. split_and!; [done|apply edge_weaker_refl|]. intros pid Hp.
  destruct (ei_parent _ _ _ _ He k e pid Hk Hp) as (pe & Hpe & _). by eexists.
Qed.

(** The governance invariant reads resources, Sessions and edges only. *)
Lemma governed_frame t d d' :
  d'.(resources) = d.(resources) -> d'.(sessions) = d.(sessions) -> d'.(delegation_edges) = d.(delegation_edges) ->
  governed t d -> governed t d'.
Proof. unfold governed. by intros -> -> ->. Qed.

Lemma invocation_effect_sound w w' : w'.(now) = w.(now) -> invocation_effect w w' -> sound w -> sound w'.
Proof.
  intros Hn (Hev & _ & _ & Hrs & Hss & _ & Hes & _) [Hg Hi]. split; [rewrite Hn; by eapply governed_frame|by eapply evolves_wf].
Qed.

Lemma detach_wf t ids i : invocation_wf i -> invocation_wf (detach t ids i).
Proof. intros []. by split. Qed.

Lemma retention_invocations acquired w :
  invocations_wf w.(db).(agent_invocations) -> invocations_wf (runRetentionCleanup acquired w).2.(db).(agent_invocations).
Proof.
  intros Hi. pose proof (retention_spec acquired w) as Hr. destruct (runRetentionCleanup acquired w) as [r w']. cbn [snd].
  destruct acquired; [|by destruct Hr as [_ ->]]. destruct Hr as (res & d1 & items & _ & [Hd1 _ _] & ->).
  intros k i Hk. change ((pruned w.(now) d1).(agent_invocations)) with (update_where (fun _ i =>
      names_session (old_sessions w.(now) (prune_edges w.(now) d1)).*1 i.(Invocation.source_session_id)
      || names_session (old_sessions w.(now) (prune_edges w.(now) d1)).*1 i.(Invocation.target_session_id))
    (detach w.(now) (old_sessions w.(now) (prune_edges w.(now) d1)).*1) d1.(agent_invocations)) in Hk.
  rewrite lookup_update_where, fmap_Some in Hk. destruct Hk as (i0 & Hi0 & ->).
  assert (invocation_wf i0) by (apply (Hi k); by rewrite Hd1 in Hi0). case_match; [by apply detach_wf|done].
Qed.

Lemma keeps_for_zones {R : Type} (f : string -> list string -> Tx R Z) zones :
  (forall z ids, keeps invocations_of (f z ids)) -> keeps invocations_of (for_zones f zones).
Proof. intros Hf. induction zones as [|[z ids] zones IH]; [done|]. cbn. keeps_walk. Qed.

Lemma sweep_invocations (m : Tx Z (exit Z)) w : keeps invocations_of m ->
  (run_tx m w).2.(db).(agent_invocations) = w.(db).(agent_invocations).
Proof. intros Hm. assert (invocations_of (run_tx m w).2 = invocations_of w) as Hk by (by apply keeps_run). exact Hk. Qed.

(** The session and delegation routes leave invocations alone. *)
Lemma act_invocations a w :
  invocations_wf w.(db).(agent_invocations) -> invocations_wf (act a w).(db).(agent_invocations).
Proof.
  intros Hi. destruct a; cbn [act].
  - unfold startSession. route_guards. by rewrite route_keeps by apply keeps_start_tx.
  - unfold suspendSession. route_guards. by rewrite route_keeps by apply keeps_suspend_tx.
  - unfold resumeSession. route_guards. by rewrite route_keeps by apply keeps_resume_tx.
  - unfold terminateSession. route_guards. by rewrite route_keeps by apply keeps_terminate_tx.
  - unfold createDelegation. cbv zeta. route_guards. by rewrite route_keeps by apply keeps_create_tx.
  - unfold revokeDelegation. route_guards. by rewrite route_keeps by apply keeps_revoke_tx.
  - unfold registerService. route_guards. cbv zeta. by rewrite route_keeps by apply keeps_register_tx.
  - unfold leaseSession. route_guards. by rewrite route_keeps by apply keeps_lease_tx.
  - unfold heartbeat. route_guards. by rewrite route_keeps by apply keeps_heartbeat_tx.
  - eapply evolves_wf; [apply createInvocation_effect|done].
  - eapply evolves_wf; [apply startInvocation_effect|done].
  - eapply evolves_wf; [apply cancelInvocation_effect|done].
  - eapply evolves_wf; [apply completeInvocation_effect|done].
  - unfold requeueOutbox. by repeat (case_match; try done).
  - unfold runTTLSweep. rewrite sweep_invocations; [done|]. unfold ttl_sweep_tx.
    pose proof (fun zs => keeps_for_zones (R := Z) (fun z ids => terminateSubtree z ids "ttl" Expired) zs (fun _ _ => keeps_terminate _ _ _ _)). keeps_walk.
  - unfold runServiceLeaseSweep. rewrite sweep_invocations; [done|]. unfold lease_sweep_tx.
    pose proof (fun zs => keeps_for_zones (R := Z) (fun z ids => suspendSubtree z ids "service_heartbeat_lost") zs (fun _ _ => keeps_suspend _ _ _)). keeps_walk.
  - eapply evolves_wf; [apply sweep_effect|done].
  - by apply retention_invocations.
  - unfold publishBatch. cbn [snd]. pose proof (publish_spec batchSize maxAttempts xadd jitter fault w) as Hs.
    destruct (run_tx _ w) as [r w']. destruct fault; destruct Hs as [_ Hs]; cbn [snd]; rewrite Hs; done.
Qed.

Lemma act_governed a w : governed w.(now) w.(db) -> governed w.(now) (act a w).(db).
Proof.
  intros Hg.
  assert (forall w', invocation_effect w w' -> governed w.(now) w'.(db)) as Hinv
    by (intros w' (_ & _ & _ & Hrs & Hss & _ & Hes & _); by eapply governed_frame).
  destruct a; cbn [act].
  - by apply startSession_governed.
  - by apply suspendSession_governed.
  - by apply resumeSession_governed.
  - by apply terminateSession_governed.
  - by apply createDelegation_governed.
  - by apply revokeDelegation_governed.
  - by apply registerService_governed.
  - by apply leaseSession_governed.
  - by apply heartbeat_governed.
  - apply Hinv, createInvocation_effect.
  - apply Hinv, startInvocation_effect.
  - apply Hinv, cancelInvocation_effect.
  - apply Hinv, completeInvocation_effect.
  - unfold requeueOutbox. by repeat (case_match; try done).
  - by apply runTTLSweep_governed.
  - by apply runServiceLeaseSweep_governed.
  - apply Hinv, sweep_effect.
  - by apply runRetentionCleanup_governed.
  - unfold publishBatch. cbn [snd]. pose proof (publish_spec batchSize maxAttempts xadd jitter fault w) as Hs.
    destruct (run_tx _ w) as [r w']. destruct fault; destruct Hs as [_ Hs]; cbn [snd]; rewrite Hs; [done|by eapply governed_frame].
Qed.

Lemma step_sound w w' : step w w' -> sound w -> sound w'.
Proof.
  intros Hs [Hg Hi]. destruct Hs as [a w|w t rt r Ht|w apps recs].
  - split; [rewrite act_now; by apply act_governed|by apply act_invocations].
  - split; [by eapply governed_later|done].
  - split; [by eapply governed_frame|done].
Qed.

Lemma empty_sound w :
  resources_wf w.(db).(resources) -> w.(db).(sessions) = ∅ -> w.(db).(delegation_edges) = ∅ -> w.(db).(agent_invocations) = ∅ -> sound w.
Proof.
  intros Hwf Hs He Hi. split; [|rewrite Hi; intros k i Hk; by rewrite lookup_empty in Hk]. unfold governed. rewrite Hs, He. split_and!; [done| |].
  - split; try (intros *; rewrite lookup_empty; done).
  - split; try (intros *; rewrite lookup_empty; done). intros z x l Hne _ Hw. destruct l; [done|].
    cbn in Hw. destruct Hw as (r & Hr & _). by rewrite lookup_empty in Hr.
Qed.

Lemma steps_sound w0 w : rtc step w0 w -> sound w0 -> sound w.
Proof. induction 1 as [|w0 w1 w2 Hst _ IH]; [done|]. intros Hs. apply IH. by eapply step_sound. Qed.

(** C1. The invariant of the running system: from a coordinator without Sessions,
    delegations or invocations, after any sequence of requests, job runs and elapsed time,
    interleaved with whatever other services do to applications and authority records,
    the session forest is well formed (depths, live child counts and caps, no live child
    under a closed parent), every delegation narrows its parent, has valid constraints and
    existing endpoints that are live while it is active, live delegations have no short
    cycle, and every invocation row is well formed. *)
Theorem reachable_sound w0 w :
  resources_wf w0.(db).(resources) -> w0.(db).(sessions) = ∅ -> w0.(db).(delegation_edges) = ∅ ->
  w0.(db).(agent_invocations) = ∅ -> rtc step w0 w -> sound w.
Proof.
  intros Hwf Hs He Hi Hr. eapply steps_sound; [done|]. by apply empty_sound.
Qed.

End system.
