(* ===== verification/Numbers.v ===== *)
(** * JavaScript numbers read from text

    [Number(text)] with the rounding to a double, [Number.isSafeInteger] and
    [String(n)], as the redis-backed stores and their consumers use them on epochs,
    and the comparison of decimal strings that the epoch script of
    [packages/backends/redis/ts/src/revocation.ts] does in Lua. *)

From Stdlib Require Import Ascii.
From S2P Require Import Prelude.
From S2P Require Import Scope.
Local Open Scope string_scope.
Local Open Scope Z_scope.

(** A number: [Finite neg m e] is (-1)^[neg] * [m] * 2^[e] with [0 <= m]. *)
Inductive number :=
| NaN
| Infinite (neg : bool)
| Finite (neg : bool) (m e : Z).

(** The integer a number is, if it is one. *)
Definition as_integer (x : number) : option Z :=
  match x with
  | Finite neg m e =>
      let sign (k : Z) := if neg then - k else k in
      if 0 <=? e then Some (sign (m * 2 ^ e))
      else if m `mod` 2 ^ (- e) =? 0 then Some (sign (m / 2 ^ (- e))) else None
  | _ => None
  end.

Definition MAX_SAFE_INTEGER : Z := 2 ^ 53 - 1.

(** [Number.isSafeInteger]: the integer, when it is a safe one. *)
Definition safe_integer (x : number) : option Z :=
  match as_integer x with
  | Some k => if Z.abs k <=? MAX_SAFE_INTEGER then Some k else None
  | None => None
  end.

(** The double nearest to [n / d], ties to even; [0 <= n] and [0 < d]. *)
Definition round_double (neg : bool) (n d : Z) : number :=
  if n =? 0 then Finite neg 0 0
  else
    let k := Z.log2 n - Z.log2 d in
    let top := if (if 0 <=? k then d * 2 ^ k <=? n else d <=? n * 2 ^ (- k)) then k else k - 1 in
    let e := Z.max (top - 52) (-1074) in
    let '(p, q) := if 0 <=? e then (n, d * 2 ^ e) else (n * 2 ^ (- e), d) in
    let m := p / q in
    let r := p `mod` q in
    let m := if (q <? 2 * r) || ((2 * r =? q) && Z.odd m) then m + 1 else m in
    if (0 <=? e) && (2 ^ 1024 <=? m * 2 ^ e) then Infinite neg else Finite neg m e.

Definition digit_value (c : ascii) : option Z :=
  let n := Z.of_nat (nat_of_ascii c) in
  if (48 <=? n) && (n <=? 57) then Some (n - 48) else None.

(** The longest run of decimal digits: its value on top of [acc], its length on top of
    [count], and the rest. *)
Fixpoint digits (acc count : Z) (s : string) : Z * Z * string :=
  match s with
  | String.EmptyString => (acc, count, s)
  | String.String c rest =>
      match digit_value c with
      | Some v => digits (acc * 10 + v) (count + 1) rest
      | None => (acc, count, s)
      end
  end.

(** The optional sign at the head of a literal. *)
Definition sign_of (s : string) : bool * string :=
  match s with
  | String.String c rest =>
      if bool_decide (c = "-"%char) then (true, rest)
      else if bool_decide (c = "+"%char) then (false, rest) else (false, s)
  | String.EmptyString => (false, s)
  end.

(** The exponent part, which has to end the literal. *)
Definition exponent_of (s : string) : option Z :=
  match s with
  | String.EmptyString => Some 0
  | String.String c rest =>
      if bool_decide (c = "e"%char) || bool_decide (c = "E"%char) then
        let '(neg, rest) := sign_of rest in
        match digits 0 0 rest with
        | (v, count, String.EmptyString) => if 0 <? count then Some (if neg then - v else v) else None
        | _ => None
        end
      else None
  end.

(** [StrUnsignedDecimalLiteral] after its sign. *)
Definition decimal_literal (neg : bool) (s : string) : number :=
  if bool_decide (s = "Infinity") then Infinite neg
  else
    let '(i, ni, r1) := digits 0 0 s in
    let '(v, n, r2) := match r1 with
                       | String.String c r => if bool_decide (c = "."%char) then digits i ni r else (i, ni, r1)
                       | String.EmptyString => (i, ni, r1)
                       end in
    if n <=? 0 then NaN
    else match exponent_of r2 with
         | None => NaN
         | Some ex =>
             let scale := ex - (n - ni) in
             if 0 <=? scale then round_double neg (v * 10 ^ scale) 1 else round_double neg v (10 ^ (- scale))
         end.

Definition radix_digit (radix : Z) (c : ascii) : option Z :=
  let n := Z.of_nat (nat_of_ascii c) in
  let v := if (48 <=? n) && (n <=? 57) then n - 48
           else if (97 <=? n) && (n <=? 102) then n - 87
           else if (65 <=? n) && (n <=? 70) then n - 55 else 16 in
  if v <? radix then Some v else None.

Fixpoint radix_value (radix acc : Z) (s : string) : option Z :=
  match s with
  | String.EmptyString => Some acc
  | String.String c rest =>
      match radix_digit radix c with Some v => radix_value radix (acc * radix + v) rest | None => None end
  end.

Definition radix_literal (radix : Z) (s : string) : number :=
  if bool_decide (s = "") then NaN
  else match radix_value radix 0 s with Some v => round_double false v 1 | None => NaN end.

(** The prefix of a hexadecimal, octal or binary literal. *)
Definition radix_prefix (s : string) : option (Z * string) :=
  match s with
  | String.String z (String.String x rest) =>
      if negb (bool_decide (z = "0"%char)) then None
      else if bool_decide (x = "x"%char) || bool_decide (x = "X"%char) then Some (16, rest)
      else if bool_decide (x = "o"%char) || bool_decide (x = "O"%char) then Some (8, rest)
      else if bool_decide (x = "b"%char) || bool_decide (x = "B"%char) then Some (2, rest)
      else None
  | _ => None
  end.

(** [Number(text)]. *)
Definition Number (text : string) : number :=
  let s := trim text in
  if bool_decide (s = "") then Finite false 0 0
  else match radix_prefix s with
       | Some (radix, rest) => radix_literal radix rest
       | None => let '(neg, rest) := sign_of s in decimal_literal neg rest
       end.

(** ** Decimal strings compared by length and then byte by byte *)

Fixpoint all_digits (s : string) : bool :=
  match s with
  | String.EmptyString => true
  | String.String c rest => match digit_value c with Some _ => all_digits rest | None => false end
  end.

(** [string.gsub(value, '^0+', '')]. *)
Fixpoint strip_zeros (s : string) : string :=
  match s with
  | String.String c rest => if bool_decide (c = "0"%char) then strip_zeros rest else s
  | String.EmptyString => s
  end.

(** The script's [normalize]. *)
Definition normalize (value : string) : string :=
  if bool_decide (value = "") || negb (all_digits value) then "0"
  else let v := strip_zeros value in if bool_decide (v = "") then "0" else v.

(** The script's test whether [candidate] replaces [current], both normalised. *)
Definition decimal_above (candidate current : string) : bool :=
  bool_decide (String.length current < String.length candidate)%nat
  || (bool_decide (String.length candidate = String.length current) && String.ltb current candidate).

Definition decimal_value (s : string) : Z := (digits 0 0 s).1.1.

Example Number_samples :
  safe_integer <$> (Number <$> ["12"; " 7 "; ""; "1e3"; "0x10"; "9007199254740993"; "2.50e1"; "1.5"; "x"; "9007199254740991.4"])
  = [Some 12; Some 7; Some 0; Some 1000; Some 16; None; Some 25; None; None; Some 9007199254740991].
Proof. vm_compute. reflexivity. Qed.

(** ** Properties *)

Lemma pretty_char_value (x : N) : (x < 10)%N -> digit_value (pretty_N_char x) = Some (Z.of_N x).
Proof.
  intros Hx. assert (x = 0 \/ x = 1 \/ x = 2 \/ x = 3 \/ x = 4 \/ x = 5 \/ x = 6 \/ x = 7 \/ x = 8 \/ x = 9)%N as Hc by lia.
  repeat destruct Hc as [->|Hc]; subst; done.
Qed.

Lemma digits_pretty_go (x : N) s acc count :
  0 <= acc -> exists k, 0 <= k /\ (x = 0%N -> k = 0) /\ (x <> 0%N -> 0 < k) /\
  digits acc count (pretty_N_go x s) = digits (acc * 10 ^ k + Z.of_N x) (count + k) s.
Proof.
  revert s acc count. induction (N.lt_wf_0 x) as [x _ IH]; intros s acc count Hacc.
  destruct (decide (x = 0%N)) as [->|Hx].
  { exists 0. rewrite pretty_N_go_0. split_and!; try lia. f_equal; lia. }
  rewrite pretty_N_go_step by lia.
  destruct (IH (x `div` 10)%N (N.div_lt x 10 ltac:(lia) eq_refl)
    (String.String (pretty_N_char (x `mod` 10)) s) acc count Hacc) as (k & Hk & Hk0 & Hk1 & ->).
  exists (k + 1). split_and!; try lia.
  cbn [digits]. rewrite pretty_char_value by (apply N.mod_lt; lia).
  rewrite Z.pow_add_r by lia. change (10 ^ 1) with 10.
  assert (Z.of_N (x `div` 10) * 10 + Z.of_N (x `mod` 10) = Z.of_N x) as Hdm.
  { pose proof (N.div_mod x 10 ltac:(lia)). lia. }
  f_equal; lia.
Qed.

(** The digits of a printed non-negative number are its value, with nothing after. *)
Lemma digits_pretty (n : Z) : 0 <= n -> exists k, 0 < k /\ digits 0 0 (pretty n) = (n, k, "").
Proof.
  intros Hn. destruct (decide (n = 0)) as [->|Hne]; [by exists 1|].
  destruct n as [|p|p]; try lia.
  destruct (digits_pretty_go (Npos p) "" 0 0 ltac:(lia)) as (k & Hk & _ & Hk1 & Hd).
  exists k. split; [apply Hk1; lia|].
  change (pretty (Zpos p)) with (pretty (Npos p)). unfold pretty, pretty_N.
  case_decide; [done|]. rewrite Hd. cbn [digits]. f_equal; lia.
Qed.

Lemma all_digits_digits s acc count : all_digits s = true -> exists v k, digits acc count s = (v, k, "").
Proof.
  revert acc count. induction s as [|c s IH]; cbn; intros acc count Hs; [by eauto|].
  destruct (digit_value c); [by apply IH|done].
Qed.

Lemma digits_all s acc count v k : digits acc count s = (v, k, "") -> all_digits s = true.
Proof.
  revert acc count. induction s as [|c s IH]; cbn; intros acc count Hs; [done|].
  destruct (digit_value c); [by eapply IH|done].
Qed.

Lemma pretty_all_digits (n : Z) : 0 <= n -> all_digits (pretty n) = true /\ pretty n <> "".
Proof.
  intros Hn. destruct (digits_pretty n Hn) as (k & Hk & Hd). split; [by eapply digits_all|].
  intros He. rewrite He in Hd. cbn in Hd. simplify_eq.
Qed.

Lemma digit_char (c : ascii) v : digit_value c = Some v -> (48 <= nat_of_ascii c <= 57)%nat /\ v = Z.of_nat (nat_of_ascii c) - 48.
Proof. unfold digit_value. intros. case_match; [|done]. bool_props. simplify_eq. lia. Qed.

Lemma digit_not_ws c s v : digit_value c = Some v -> ws_bytes (String.String c s) = 0%nat.
Proof.
  intros [Hc _]%digit_char. cbn [ws_bytes]. rewrite bool_decide_eq_false_2 by lia.
  destruct s as [|b s]; [done|]. rewrite bool_decide_eq_false_2 by lia. destruct s as [|d s]; [done|].
  assert (ws3 (nat_of_ascii c) (nat_of_ascii b) (nat_of_ascii d) = false) as ->; [|done].
  unfold ws3. apply bool_decide_eq_false_2. lia.
Qed.

Lemma trim_end_digits s : all_digits s = true -> trim_end s = s.
Proof.
  induction s as [|c s IH]; [done|]. cbn [all_digits trim_end]. intros Hs.
  destruct (digit_value c) eqn:Hc; [|done]. cbn [all_ws]. rewrite (digit_not_ws c s z Hc). by rewrite IH.
Qed.

Lemma trim_digits s : all_digits s = true -> trim s = s.
Proof.
  intros Hs. unfold trim. assert (trim_start s 0 = s) as ->; [|by apply trim_end_digits].
  destruct s as [|c s]; [done|]. cbn [all_digits] in Hs. destruct (digit_value c) eqn:Hc; [|done].
  cbn [trim_start]. by rewrite (digit_not_ws c s z Hc).
Qed.

Lemma digits_not_radix s : all_digits s = true -> radix_prefix s = None.
Proof.
  destruct s as [|a [|b s]]; try done. cbn [all_digits]. destruct (digit_value a); [|done].
  destruct (digit_value b) as [vb|] eqn:Hb; [|done]. intros _. apply digit_char in Hb as [Hb _].
  unfold radix_prefix. destruct (negb _); [done|].
  assert (forall c, (nat_of_ascii c > 57)%nat -> bool_decide (b = c) = false) as Hne
    by (intros c Hc; apply bool_decide_eq_false_2; intros ->; lia).
  rewrite !Hne by (apply Nat.leb_le; reflexivity). done.
Qed.

Lemma digits_no_sign s : all_digits s = true -> sign_of s = (false, s).
Proof.
  destruct s as [|c s]; [done|]. cbn [all_digits]. destruct (digit_value c) eqn:Hc; [|done]. intros _.
  apply digit_char in Hc as [Hc _]. unfold sign_of.
  assert (forall d, (nat_of_ascii d < 48)%nat -> bool_decide (c = d) = false) as Hne
    by (intros d Hd; apply bool_decide_eq_false_2; intros ->; lia).
  rewrite !Hne by (apply Nat.leb_le; reflexivity). done.
Qed.

Lemma digits_not_infinity s : all_digits s = true -> bool_decide (s = "Infinity") = false.
Proof. intros Hs. apply bool_decide_eq_false_2. by intros ->. Qed.

(** Rounding is exact on the integers below 2^53. *)
Lemma round_double_exact (n : Z) : 0 <= n < 2 ^ 53 -> as_integer (round_double false n 1) = Some n.
Proof.
  intros [H0 Hn]. unfold round_double. destruct (Z.eqb_spec n 0) as [->|Hne]; [done|].
  change (Z.log2 1) with 0. rewrite Z.sub_0_r. pose proof (Z.log2_nonneg n) as Hl.
  destruct (Z.log2_spec n ltac:(lia)) as [Hlo Hhi].
  rewrite (proj2 (Z.leb_le 0 _) Hl), Z.mul_1_l, (proj2 (Z.leb_le _ n) Hlo).
  assert (Z.log2 n < 53) as Hlog by (apply Z.log2_lt_pow2; lia).
  rewrite Z.max_l by lia. set (e := Z.log2 n - 52).
  destruct (Z.leb_spec 0 e) as [He|He].
  - assert (e = 0) as -> by lia. rewrite Z.pow_0_r, Z.mul_1_l, Z.div_1_r, Z.mod_1_r. cbn [Z.ltb Z.eqb orb andb].
    change (1 <? 2 * 0) with false. change (2 * 0 =? 1) with false. cbn [orb andb].
    rewrite (proj2 (Z.leb_gt (2 ^ 1024) _)).
    2: { rewrite Z.mul_1_r. eapply Z.lt_trans; [exact Hn|]. reflexivity. }
    unfold as_integer. cbn. f_equal. lia.
  - rewrite Z.div_1_r, Z.mod_1_r. change (1 <? 2 * 0) with false. change (2 * 0 =? 1) with false. cbn [orb andb].
    unfold as_integer. rewrite (proj2 (Z.leb_gt 0 e) He). rewrite Z.mod_mul, Z.div_mul by (apply Z.pow_nonzero; lia). done.
Qed.

(** [Number(String(n))] is [n] for every safe non-negative integer. *)
Lemma Number_pretty (n : Z) : 0 <= n <= MAX_SAFE_INTEGER -> safe_integer (Number (pretty n)) = Some n.
Proof.
  intros Hn. destruct (pretty_all_digits n ltac:(lia)) as [Hd Hne]. destruct (digits_pretty n ltac:(lia)) as (k & Hk & Hdig).
  unfold Number. rewrite trim_digits, bool_decide_eq_false_2, digits_not_radix, digits_no_sign by done.
  unfold decimal_literal. rewrite digits_not_infinity, Hdig by done. rewrite (proj2 (Z.leb_gt k 0)) by lia. cbn [exponent_of].
  rewrite Z.sub_diag. change (0 <=? 0 - 0) with true. cbn iota. rewrite Z.mul_1_r.
  unfold safe_integer. rewrite round_double_exact by (unfold MAX_SAFE_INTEGER in Hn; lia).
  by rewrite (proj2 (Z.leb_le _ _)) by lia.
Qed.

(** *** Decimal order *)

Definition zlen (s : string) : Z := Z.of_nat (String.length s).

Lemma zlen_cons c s : zlen (String.String c s) = zlen s + 1.
Proof. unfold zlen. cbn [String.length]. lia. Qed.

Lemma digits_value s acc count :
  all_digits s = true -> (digits acc count s).1.1 = acc * 10 ^ zlen s + decimal_value s.
Proof.
  unfold decimal_value. revert acc count. induction s as [|c s IH]; intros acc count Hs.
  - change (zlen "") with 0. cbn [digits fst]. lia.
  - cbn [all_digits digits] in *. destruct (digit_value c) as [v|] eqn:Hc; [|done].
    rewrite (IH (acc * 10 + v)), (IH (0 * 10 + v)) by done. rewrite zlen_cons, Z.pow_add_r by (unfold zlen; lia). lia.
Qed.

Lemma decimal_value_cons c v s :
  digit_value c = Some v -> all_digits s = true ->
  decimal_value (String.String c s) = v * 10 ^ zlen s + decimal_value s.
Proof.
  intros Hc Hs. unfold decimal_value at 1. cbn [digits]. rewrite Hc. by rewrite digits_value by done.
Qed.

Lemma decimal_value_bound s : all_digits s = true -> 0 <= decimal_value s < 10 ^ zlen s.
Proof.
  induction s as [|c s IH]; [done|]. intros Hs. pose proof Hs as Hs'. cbn [all_digits] in Hs'.
  destruct (digit_value c) as [v|] eqn:Hc; [|done]. rewrite (decimal_value_cons _ _ _ Hc Hs').
  apply digit_char in Hc as [Hv ->]. specialize (IH Hs'). rewrite zlen_cons, Z.pow_add_r by (unfold zlen; lia). nia.
Qed.

Lemma decimal_ltb a b :
  all_digits a = true -> all_digits b = true -> String.length a = String.length b ->
  String.ltb a b = (decimal_value a <? decimal_value b).
Proof.
  unfold String.ltb. revert b. induction a as [|c a IH]; intros [|d b] Ha Hb Hl; try done.
  pose proof Ha as Ha'. pose proof Hb as Hb'. cbn [all_digits] in Ha', Hb'.
  destruct (digit_value c) as [v|] eqn:Hc; [|done]. destruct (digit_value d) as [u|] eqn:Hd; [|done].
  rewrite (decimal_value_cons _ _ _ Hc Ha'), (decimal_value_cons _ _ _ Hd Hb').
  injection Hl as Hl. specialize (IH b Ha' Hb' Hl).
  pose proof (decimal_value_bound a Ha') as Hba. pose proof (decimal_value_bound b Hb') as Hbb.
  assert (zlen a = zlen b) as Hz by (unfold zlen; by rewrite Hl). rewrite Hz in *.
  apply digit_char in Hc as [Hc ->]. apply digit_char in Hd as [Hd ->].
  cbn [String.compare]. unfold Ascii.compare.
  assert (forall x, N_of_ascii x = N.of_nat (nat_of_ascii x)) as Hn by (intros; unfold nat_of_ascii; lia). rewrite !Hn.
  destruct (N.compare_spec (N.of_nat (nat_of_ascii c)) (N.of_nat (nat_of_ascii d))) as [He|Hlt|Hgt].
  - rewrite IH. apply Nat2N.inj in He. rewrite He. symmetry.
    destruct (Z.ltb_spec (decimal_value a) (decimal_value b)); [apply Z.ltb_lt|apply Z.ltb_ge]; lia.
  - symmetry. apply Z.ltb_lt. nia.
  - symmetry. apply Z.ltb_ge. nia.
Qed.

(** What [normalize] returns: decimal digits without a leading zero, or ["0"]. *)
Definition normalized (s : string) : Prop :=
  all_digits s = true /\ s <> "" /\ (s = "0" \/ 10 ^ (zlen s - 1) <= decimal_value s).

Lemma strip_zeros_value s : all_digits s = true ->
  all_digits (strip_zeros s) = true /\ decimal_value (strip_zeros s) = decimal_value s
  /\ (strip_zeros s <> "" -> 10 ^ (zlen (strip_zeros s) - 1) <= decimal_value (strip_zeros s)).
Proof.
  induction s as [|c s IH]; [done|]. intros Hs. pose proof Hs as Hs'. cbn [all_digits] in Hs'.
  destruct (digit_value c) as [v|] eqn:Hc; [|done]. cbn [strip_zeros]. case_bool_decide as H0.
  - subst c. rewrite (decimal_value_cons _ _ _ Hc Hs'). vm_compute in Hc. simplify_eq. rewrite Z.mul_0_l, Z.add_0_l. by apply IH.
  - split_and!; [done|done|]. intros _. rewrite (decimal_value_cons _ _ _ Hc Hs'), zlen_cons, Z.add_simpl_r.
    pose proof (decimal_value_bound s Hs'). apply digit_char in Hc as [Hc ->].
    assert (nat_of_ascii c <> 48%nat).
    { intros Hn. apply H0. rewrite <-(ascii_nat_embedding c), Hn. done. }
    nia.
Qed.

Lemma normalize_spec s :
  normalized (normalize s)
  /\ decimal_value (normalize s) = if bool_decide (s = "") || negb (all_digits s) then 0 else decimal_value s.
Proof.
  unfold normalize. destruct (_ || _) eqn:E; [by split; [split_and!; auto|]|].
  bool_props. destruct (strip_zeros_value s) as (Hd & Hv & Hl); [done|].
  case_bool_decide as He.
  - split; [by split_and!; auto|]. rewrite <-Hv, He. done.
  - split; [split_and!; auto|done].
Qed.

(** The string comparison of the script is the numeric one. *)
Lemma decimal_above_spec a b :
  normalized a -> normalized b -> decimal_above a b = (decimal_value b <? decimal_value a).
Proof.
  intros (Ha & Hna & Hla) (Hb & Hnb & Hlb). unfold decimal_above.
  pose proof (decimal_value_bound a Ha) as Hba. pose proof (decimal_value_bound b Hb) as Hbb.
  assert (forall x y, y <> "" -> all_digits x = true -> (x = "0" \/ 10 ^ (zlen x - 1) <= decimal_value x) ->
    all_digits y = true -> (String.length y < String.length x)%nat -> decimal_value y < decimal_value x) as Hlen.
  { intros x y Hy Hdx Hx Hdy Hl. destruct Hx as [->|Hx].
    - destruct y; cbn in Hl; [done|lia].
    - pose proof (decimal_value_bound y Hdy). enough (10 ^ zlen y <= 10 ^ (zlen x - 1)) by lia.
      apply Z.pow_le_mono_r; [lia|]. unfold zlen. lia. }
  destruct (Nat.lt_trichotomy (String.length b) (String.length a)) as [Hl|[Hl|Hl]].
  - rewrite bool_decide_eq_true_2 by done. symmetry. apply Z.ltb_lt. by apply Hlen.
  - rewrite bool_decide_eq_false_2, bool_decide_eq_true_2 by lia. cbn. by apply decimal_ltb.
  - rewrite bool_decide_eq_false_2, bool_decide_eq_false_2 by lia. cbn. symmetry. apply Z.ltb_ge.
    apply Z.lt_le_incl. by apply Hlen.
Qed.

Lemma decimal_value_pretty (n : Z) : 0 <= n -> decimal_value (normalize (pretty n)) = n.
Proof.
  intros Hn. destruct (pretty_all_digits n Hn) as [Hd Hne]. rewrite (proj2 (normalize_spec _)).
  rewrite bool_decide_eq_false_2, Hd by done. cbn. unfold decimal_value.
  by destruct (digits_pretty n Hn) as (k & _ & ->).
Qed.
