(* ===== verification/Revocation.v ===== *)
(** * The revocation store contract

    [RevocationStore] of [packages/revocation/ts/src/iface.ts] as a class, the abstract
    store it stands for, the contract between the two (a forward simulation, call by
    call), and what a client may conclude about a store that honours the contract, over
    any run of calls and whatever the network does to them. *)

From S2P Require Import Prelude.
From S2P Require Import Numbers.
Local Open Scope string_scope.
Local Open Scope Z_scope.

(** ** The interface *)

(** What becomes of a command sent to another process: carried out and answered, lost on
    the way, or carried out with its answer lost. *)
Inductive Fate := Delivered | LostBefore | LostAfter.

(** The circumstances of one call: the monotonic clock it reads, in microseconds, and the
    fate of the command it sends, if it sends one. *)
Record Call := MkCall { now : Z; fate : Fate }.

(** A call returns (its promise resolves) or throws (its promise rejects). *)
Inductive Result (A : Type) :=
| Ok (a : A)
| Throw.
Arguments Ok {A} a.
Arguments Throw {A}.

Definition millis (n : Z) : Z := n * 1000.

(** The methods of a store whose mutable state is [S]; the epoch methods are optional.
    Epochs are integral numbers. *)
Class RevocationStore (S : Type) := {
  isRevoked : Call -> string -> S -> S * Result bool;
  markRevoked : Call -> string -> option Z -> S -> S * Result unit;
  currentDelegationEpoch : option (Call -> string -> S -> S * Result Z);
  markDelegationEpoch : option (Call -> string -> Z -> option Z -> S -> S * Result unit)
}.

(** When an entry with a deadline counts as expired.  Stores differ at the deadline
    itself: the in-memory store has dropped the entry then, redis may still serve it. *)
Class Expiry := {
  expired : Z -> Z -> bool;
  expired_before : forall deadline t, t < deadline -> expired deadline t = false;
  expired_after : forall deadline t, deadline < t -> expired deadline t = true
}.

(** ** The abstract store *)

Record Spec := MkSpec { marks : gmap string Z; epochs : gmap string (Z * Z) }.

Definition empty_spec : Spec := MkSpec ∅ ∅.

Section spec.
Context `{Expiry}.

Definition spec_revoked (t : Z) (a : string) (m : Spec) : bool :=
  match m.(marks) !! a with Some e => negb (expired e t) | None => false end.

Definition spec_epoch (t : Z) (z : string) (m : Spec) : Z :=
  match m.(epochs) !! z with Some (n, e) => if expired e t then 0 else n | None => 0 end.

Definition spec_mark (t : Z) (a : string) (ttl : Z) (m : Spec) : Spec :=
  MkSpec (<[a := t + millis ttl]> m.(marks)) m.(epochs).

Definition spec_mark_epoch (t : Z) (z : string) (n ttl : Z) (m : Spec) : Spec :=
  if n <=? spec_epoch t z m then m else MkSpec m.(marks) (<[z := (n, t + millis ttl)]> m.(epochs)).

(** The calls a client makes and what it is told. *)
Inductive Op :=
| OpIsRevoked (a : string)
| OpMarkRevoked (a : string) (ttl : option Z)
| OpCurrentEpoch (z : string)
| OpMarkEpoch (z : string) (n : Z) (ttl : option Z).

Inductive Answer :=
| ABool (r : Result bool)
| AEpoch (r : Result Z)
| AUnit (r : Result unit).

(** One call on the abstract store with default lifetime [ttl0].  A read is exact, or,
    when its command got lost, an error or the cautious answer; a failing write may or
    may not have taken effect. *)
Inductive spec_step (ttl0 : Z) (c : Call) : Op -> Spec -> Answer -> Spec -> Prop :=
| read_exact a m : spec_step ttl0 c (OpIsRevoked a) m (ABool (Ok (spec_revoked c.(now) a m))) m
| read_cautious a m : c.(fate) <> Delivered -> spec_step ttl0 c (OpIsRevoked a) m (ABool (Ok true)) m
| read_throws a m : c.(fate) <> Delivered -> spec_step ttl0 c (OpIsRevoked a) m (ABool Throw) m
| mark_done a ttl m :
    spec_step ttl0 c (OpMarkRevoked a ttl) m (AUnit (Ok tt)) (spec_mark c.(now) a (default_to ttl0 ttl) m)
| mark_refused a ttl m : spec_step ttl0 c (OpMarkRevoked a ttl) m (AUnit Throw) m
| mark_unanswered a ttl m :
    c.(fate) <> Delivered ->
    spec_step ttl0 c (OpMarkRevoked a ttl) m (AUnit Throw) (spec_mark c.(now) a (default_to ttl0 ttl) m)
| epoch_exact z m : spec_step ttl0 c (OpCurrentEpoch z) m (AEpoch (Ok (spec_epoch c.(now) z m))) m
| epoch_cautious z m :
    c.(fate) <> Delivered -> spec_step ttl0 c (OpCurrentEpoch z) m (AEpoch (Ok MAX_SAFE_INTEGER)) m
| epoch_throws z m : c.(fate) <> Delivered -> spec_step ttl0 c (OpCurrentEpoch z) m (AEpoch Throw) m
| mark_epoch_done z n ttl m :
    spec_step ttl0 c (OpMarkEpoch z n ttl) m (AUnit (Ok tt)) (spec_mark_epoch c.(now) z n (default_to ttl0 ttl) m)
| mark_epoch_refused z n ttl m : spec_step ttl0 c (OpMarkEpoch z n ttl) m (AUnit Throw) m
| mark_epoch_unanswered z n ttl m :
    c.(fate) <> Delivered ->
    spec_step ttl0 c (OpMarkEpoch z n ttl) m (AUnit Throw) (spec_mark_epoch c.(now) z n (default_to ttl0 ttl) m).

(** Runs of the abstract store. *)
Inductive spec_run (ttl0 : Z) : list (Call * Op) -> Spec -> list Answer -> Spec -> Prop :=
| spec_run_nil m : spec_run ttl0 [] m [] m
| spec_run_cons c op ops m r m' rs m'' :
    spec_step ttl0 c op m r m' -> spec_run ttl0 ops m' rs m'' -> spec_run ttl0 ((c, op) :: ops) m (r :: rs) m''.
End spec.

(** ** Runs of a store *)

Section runs.
Context {S : Type} `{RevocationStore S}.

(** A call on the store; a method the store does not have answers like the reads of an
    empty store and accepts nothing. *)
Definition run_op (c : Call) (op : Op) (s : S) : S * Answer :=
  match op with
  | OpIsRevoked a => let '(s', r) := isRevoked c a s in (s', ABool r)
  | OpMarkRevoked a ttl => let '(s', r) := markRevoked c a ttl s in (s', AUnit r)
  | OpCurrentEpoch z =>
      match currentDelegationEpoch with
      | Some f => let '(s', r) := f c z s in (s', AEpoch r)
      | None => (s, AEpoch (Ok 0))
      end
  | OpMarkEpoch z n ttl =>
      match markDelegationEpoch with
      | Some f => let '(s', r) := f c z n ttl s in (s', AUnit r)
      | None => (s, AUnit Throw)
      end
  end.

Fixpoint run_ops (ops : list (Call * Op)) (s : S) : S * list Answer :=
  match ops with
  | [] => (s, [])
  | (c, op) :: rest => let '(s1, r) := run_op c op s in let '(s2, rs) := run_ops rest s1 in (s2, r :: rs)
  end.
End runs.

(** ** The contract *)

(** [rc_abs t s m]: from time [t] on, the store in state [s] cannot be told from the
    abstract store [m] on the anchors and zones the contract covers. *)
Class RevocationContract (S : Type) `{RevocationStore S} := {
  rc_expiry :: Expiry;
  rc_ttl : Z;
  rc_covers : Op -> bool;
  rc_abs : Z -> S -> Spec -> Prop;
  rc_later : forall t t' s m, t <= t' -> rc_abs t s m -> rc_abs t' s m;
  rc_step : forall c op s m, rc_covers op = true -> rc_abs c.(now) s m ->
    exists m', spec_step rc_ttl c op m (run_op c op s).2 m' /\ rc_abs c.(now) (run_op c op s).1 m'
}.

(** Calls made one after the other, none before [t]. *)
Fixpoint in_order (t : Z) (ops : list (Call * Op)) : Prop :=
  match ops with
  | [] => True
  | (c, _) :: rest => t <= c.(now) /\ in_order c.(now) rest
  end.

(** The clock after the calls. *)
Fixpoint clock_after (t : Z) (ops : list (Call * Op)) : Z :=
  match ops with [] => t | (c, _) :: rest => clock_after c.(now) rest end.

(** ** What every run of a store shows *)

Section contract.
Context {S : Type} `{RevocationContract S}.

(** Forward simulation over whole runs: the answers of the store are answers the abstract
    store may give to the same calls. *)
Lemma contract_runs ops t s m :
  Forall (fun co => rc_covers co.2 = true) ops -> in_order t ops -> rc_abs t s m ->
  exists m', spec_run rc_ttl ops m (run_ops ops s).2 m' /\ rc_abs (clock_after t ops) (run_ops ops s).1 m'.
Proof.
  revert t s m. induction ops as [|[c op] ops IH]; intros t s m Hc Ho Ha.
  { exists m. split; [constructor|done]. }
  apply Forall_cons in Hc as [Hc Hcs]. destruct Ho as [Ht Ho]. cbn in Hc.
  destruct (rc_step c op s m Hc (rc_later _ _ _ _ Ht Ha)) as (m1 & Hstep & Ha1).
  cbn [run_ops]. destruct (run_op c op s) as [s1 r] eqn:E1. cbn [fst snd] in *.
  destruct (IH c.(now) s1 m1 Hcs Ho Ha1) as (m2 & Hrun & Ha2).
  destruct (run_ops ops s1) as [s2 rs]. cbn [fst snd] in *.
  exists m2. split; [by econstructor|done].
Qed.
End contract.

(** ** Invariants of the abstract store *)

(** The store remembers [a] as revoked, and zone [z] at epoch [n] or above, until [e]. *)
Definition revoked_until (a : string) (e : Z) (m : Spec) : Prop :=
  exists e', m.(marks) !! a = Some e' /\ e <= e'.

Definition epoch_until (z : string) (n e : Z) (m : Spec) : Prop :=
  exists n' e', m.(epochs) !! z = Some (n', e') /\ n <= n' /\ e <= e'.

(** Writes of the same key that would not outlast [e] are the only calls that can undo
    what is remembered until [e]. *)
Definition outlasts (ttl0 e : Z) (key : string) (co : Call * Op) : Prop :=
  match co.2 with
  | OpMarkRevoked a ttl => a = key -> e <= co.1.(now) + millis (default_to ttl0 ttl)
  | OpMarkEpoch z _ ttl => z = key -> e <= co.1.(now) + millis (default_to ttl0 ttl)
  | _ => True
  end.

Section invariants.
Context `{Expiry}.

Lemma spec_revoked_until t a e m : revoked_until a e m -> t < e -> spec_revoked t a m = true.
Proof. intros (e' & Hm & He) Ht. unfold spec_revoked. rewrite Hm, expired_before by lia. done. Qed.

Lemma spec_epoch_until t z n e m : epoch_until z n e m -> t < e -> n <= spec_epoch t z m.
Proof. intros (n' & e' & Hm & Hn & He) Ht. unfold spec_epoch. rewrite Hm, expired_before by lia. done. Qed.

Lemma spec_mark_until t a ttl m : revoked_until a (t + millis ttl) (spec_mark t a ttl m).
Proof. exists (t + millis ttl). split; [apply lookup_insert_eq|lia]. Qed.

Lemma spec_mark_epochs t z n ttl m :
  (spec_mark_epoch t z n ttl m).(marks) = m.(marks)
  /\ (forall z', z' <> z -> (spec_mark_epoch t z n ttl m).(epochs) !! z' = m.(epochs) !! z').
Proof.
  unfold spec_mark_epoch. case_match; [done|]. split; [done|]. intros. cbn. by rewrite lookup_insert_ne.
Qed.

Lemma spec_step_revoked ttl0 c op m r m' a e :
  spec_step ttl0 c op m r m' -> outlasts ttl0 e a (c, op) -> revoked_until a e m -> revoked_until a e m'.
Proof.
  intros Hs Ho (e' & Hm & He). destruct Hs; unfold outlasts in Ho; cbn in Ho; try by exists e'.
  1, 2: destruct (decide (a = a0)) as [->|Hne];
    [exists (c.(now) + millis (default_to ttl0 ttl)); split; [apply lookup_insert_eq|auto]
    |exists e'; cbn; rewrite lookup_insert_ne by done; done].
  all: exists e'; by rewrite (proj1 (spec_mark_epochs _ _ _ _ _)).
Qed.

Lemma spec_mark_epoch_keeps t z n ttl m z' n' e :
  t < e -> (z = z' -> e <= t + millis ttl) -> epoch_until z' n' e m -> epoch_until z' n' e (spec_mark_epoch t z n ttl m).
Proof.
  intros Ht Ho Hu. pose proof (spec_epoch_until t z' n' e m Hu Ht) as Hle. destruct Hu as (n1 & e1 & Hm & Hn & He).
  destruct (decide (z = z')) as [->|Hne].
  - unfold spec_mark_epoch. destruct (Z.leb_spec n (spec_epoch t z' m)); [by exists n1, e1|].
    exists n, (t + millis ttl). cbn. rewrite lookup_insert_eq. split_and!; [done|lia|auto].
  - exists n1, e1. rewrite (proj2 (spec_mark_epochs t z n ttl m)) by congruence. done.
Qed.

Lemma spec_step_epoch ttl0 c op m r m' z n e :
  spec_step ttl0 c op m r m' -> c.(now) < e -> outlasts ttl0 e z (c, op) -> epoch_until z n e m -> epoch_until z n e m'.
Proof.
  intros Hs Ht Ho Hu. destruct Hs; unfold outlasts in Ho; cbn in Ho; auto using spec_mark_epoch_keeps.
Qed.

(** Along a whole run. *)
Lemma spec_run_revoked ttl0 ops m rs m' a e :
  spec_run ttl0 ops m rs m' -> Forall (outlasts ttl0 e a) ops -> revoked_until a e m -> revoked_until a e m'.
Proof.
  induction 1 as [|c op ops m r m1 rs m2 Hs Hr IH]; [done|]. intros [Ho Hos]%Forall_cons Hu.
  eauto using spec_step_revoked.
Qed.

Lemma spec_run_epoch ttl0 ops m rs m' z n e :
  spec_run ttl0 ops m rs m' -> Forall (outlasts ttl0 e z) ops -> Forall (fun co => co.1.(now) < e) ops ->
  epoch_until z n e m -> epoch_until z n e m'.
Proof.
  induction 1 as [|c op ops m r m1 rs m2 Hs Hr IH]; [done|].
  intros [Ho Hos]%Forall_cons [Ht Hts]%Forall_cons Hu. eauto using spec_step_epoch.
Qed.
End invariants.

(** Calls one after the other, as a sequence of their circumstances. *)
Definition ordered_calls (calls : nat -> Call) : Prop :=
  forall i j, (i <= j)%nat -> (calls i).(now) <= (calls j).(now).

(** A change of the store by time [t] that forgets nothing remembered until after [t] and
    until [horizon] at the latest. *)
Definition keeps (t horizon : Z) (m m' : Spec) : Prop :=
  (forall a e, e <= horizon -> revoked_until a e m -> revoked_until a e m')
  /\ (forall z n e, t < e <= horizon -> epoch_until z n e m -> epoch_until z n e m').

Lemma keeps_refl t h m : keeps t h m m.
Proof. by split. Qed.

Lemma keeps_trans t t' h h' m1 m2 m3 : t <= t' -> h <= h' -> keeps t h m1 m2 -> keeps t' h' m2 m3 -> keeps t' h m1 m3.
Proof. intros Ht Hh [Ha Hz] [Ha' Hz']. split; intros; [apply Ha'|apply Hz']; auto with lia. Qed.

Lemma keeps_later t t' h m m' : t <= t' -> keeps t h m m' -> keeps t' h m m'.
Proof. intros Ht [Ha Hz]. split; intros; [by apply Ha|apply Hz]; auto with lia. Qed.

(** A single call of the store keeps what ends by the deadline its write would get. *)
Lemma spec_step_keeps `{Expiry} ttl0 c op m r m' :
  (forall key, outlasts ttl0 (c.(now) + millis ttl0) key (c, op)) ->
  spec_step ttl0 c op m r m' -> keeps c.(now) (c.(now) + millis ttl0) m m'.
Proof.
  intros Ho Hs.
  assert (forall key e, e <= c.(now) + millis ttl0 -> outlasts ttl0 e key (c, op)) as Ho'.
  { intros key e He. specialize (Ho key). unfold outlasts in *. destruct op; auto; intros Hk; specialize (Ho Hk); lia. }
  split; intros; [eapply spec_step_revoked|eapply spec_step_epoch]; eauto with lia.
Qed.

Lemma revoked_until_weaken a e e' m : e' <= e -> revoked_until a e m -> revoked_until a e' m.
Proof. intros Hle (x & Hx & Hex). exists x. split; [done|lia]. Qed.

Lemma epoch_until_weaken z n e n' e' m : n' <= n -> e' <= e -> epoch_until z n e m -> epoch_until z n' e' m.
Proof. intros Hn Hle (x & y & Hx & Hnx & Hey). exists x, y. split_and!; [done|lia|lia]. Qed.

(** ** Reads through the contract *)

Section reads.
Context {S : Type} `{RevocationContract S}.

(** A store that remembers an anchor never answers that it is not revoked. *)
Lemma contract_reads_revoked c a e s m :
  rc_covers (OpIsRevoked a) = true -> rc_abs c.(now) s m -> revoked_until a e m -> c.(now) < e ->
  (isRevoked c a s).2 <> Ok false.
Proof.
  intros Hc Ha Hu Ht. destruct (rc_step c _ s m Hc Ha) as (m' & Hs & _). cbn in Hs.
  destruct (isRevoked c a s) as [s' r]. cbn in *. inversion Hs; subst; try done.
  by erewrite spec_revoked_until.
Qed.

(** A store that remembers an epoch never answers a smaller one. *)
Lemma contract_reads_epoch f c z n e s m k :
  currentDelegationEpoch = Some f -> rc_covers (OpCurrentEpoch z) = true -> n <= MAX_SAFE_INTEGER ->
  rc_abs c.(now) s m -> epoch_until z n e m -> c.(now) < e -> (f c z s).2 = Ok k -> n <= k.
Proof.
  intros Hf Hc Hn Ha Hu Ht Hk. destruct (rc_step c _ s m Hc Ha) as (m' & Hs & _). cbn in Hs. rewrite Hf in Hs.
  destruct (f c z s) as [s' r]. cbn in *. subst r. inversion Hs; subst; [|done].
  by eapply spec_epoch_until.
Qed.
End reads.
