(* ===== verification/InMemory.v ===== *)
(** * The in-memory revocation store

    [InMemoryRevocationStore] of [packages/revocation/ts/src/inmem.ts]: per-entry
    deadlines on the monotonic clock and a bound on the number of entries. *)

From S2P Require Import Prelude.
From S2P Require Import Numbers.
From S2P Require Import Revocation.
Local Open Scope string_scope.
Local Open Scope Z_scope.

Module InMemory.

(** The constructor's options after their defaults. *)
Record Options := MkOptions { defaultTtlMs : Z; maxEntries : Z }.

Definition make_options (ttl max : option Z) : Options :=
  MkOptions (default_to (24 * 60 * 60 * 1000) ttl) (default_to 100000 max).

(** [entries] and [delegationEpochs]: deadlines, and epochs with their deadlines. *)
Record State := MkState { entries : gmap string Z; delegationEpochs : gmap string (Z * Z) }.

Definition empty : State := MkState ∅ ∅.

Definition size (s : State) : Z := Z.of_nat (base.size s.(entries)).

Definition isRevoked (c : Call) (anchorId : string) (s : State) : State * Result bool :=
  match s.(entries) !! anchorId with
  | None => (s, Ok false)
  | Some expiresAt =>
      if expiresAt <=? c.(now) then (MkState (delete anchorId s.(entries)) s.(delegationEpochs), Ok false)
      else (s, Ok true)
  end.

Definition reapExpired (t : Z) (s : State) : State :=
  MkState (filter (fun kv => t < kv.2) s.(entries)) s.(delegationEpochs).

Definition markRevoked (o : Options) (c : Call) (anchorId : string) (ttlMs : option Z) (s : State) : State * Result unit :=
  let set s := (MkState (<[anchorId := c.(now) + millis (default_to o.(defaultTtlMs) ttlMs)]> s.(entries))
                  s.(delegationEpochs), Ok tt) in
  if o.(maxEntries) <=? size s then
    let s := reapExpired c.(now) s in
    if o.(maxEntries) <=? size s then (s, Throw) else set s
  else set s.

Definition currentDelegationEpoch (c : Call) (zoneId : string) (s : State) : State * Result Z :=
  match s.(delegationEpochs) !! zoneId with
  | None => (s, Ok 0)
  | Some (epoch, expiresAt) =>
      if expiresAt <=? c.(now) then (MkState s.(entries) (delete zoneId s.(delegationEpochs)), Ok 0)
      else (s, Ok epoch)
  end.

Definition markDelegationEpoch (o : Options) (c : Call) (zoneId : string) (epoch : Z) (ttlMs : option Z) (s : State)
  : State * Result unit :=
  let '(s, current) := currentDelegationEpoch c zoneId s in
  match current with
  | Throw => (s, Throw)
  | Ok current =>
      if epoch <=? current then (s, Ok tt)
      else (MkState s.(entries)
              (<[zoneId := (epoch, c.(now) + millis (default_to o.(defaultTtlMs) ttlMs))]> s.(delegationEpochs)), Ok tt)
  end.

#[export] Instance store (o : Options) : RevocationStore State := {|
  Revocation.isRevoked := isRevoked;
  Revocation.markRevoked := markRevoked o;
  Revocation.currentDelegationEpoch := Some currentDelegationEpoch;
  Revocation.markDelegationEpoch := Some (markDelegationEpoch o)
|}.

(** ** Refinement *)

#[export] Instance expiry : Expiry.
Proof. refine {| expired := Z.leb |}; intros; [apply Z.leb_gt|apply Z.leb_le]; lia. Defined.

(** An entry the store has dropped is one that had expired. *)
Definition refines (t : Z) (s : State) (m : Spec) : Prop :=
  (forall a, s.(entries) !! a = m.(marks) !! a
             \/ (s.(entries) !! a = None /\ exists e, m.(marks) !! a = Some e /\ e <= t))
  /\ (forall z, s.(delegationEpochs) !! z = m.(epochs) !! z
             \/ (s.(delegationEpochs) !! z = None /\ exists n e, m.(epochs) !! z = Some (n, e) /\ e <= t)).

Lemma refines_later t t' s m : t <= t' -> refines t s m -> refines t' s m.
Proof.
  intros Ht [Ha Hz]. split; [intros a; destruct (Ha a) as [|(? & e & ? & ?)]|intros z; destruct (Hz z) as [|(? & n & e & ? & ?)]];
    auto; right; split; auto; repeat eexists; eauto; lia.
Qed.

Lemma isRevoked_refines c a s m :
  refines c.(now) s m -> (isRevoked c a s).2 = Ok (spec_revoked c.(now) a m) /\ refines c.(now) (isRevoked c a s).1 m.
Proof.
  intros [Ha Hz]. unfold isRevoked, spec_revoked. cbn [expired expiry].
  destruct (s.(entries) !! a) as [e|] eqn:Hs.
  - destruct (Ha a) as [Hm|[? _]]; [|congruence]. rewrite Hs in Hm. rewrite <-Hm.
    destruct (Z.leb_spec e c.(now)); (split; [done|]); [|by split]. split; [|done].
    intros a'. cbn. destruct (decide (a = a')) as [->|Hne]; [|by rewrite lookup_delete_ne].
    right. rewrite lookup_delete_eq. eauto.
  - split; [|by split]. destruct (Ha a) as [Hm|(_ & e & Hm & He)]; [by rewrite <-Hm, Hs|].
    rewrite Hm. by rewrite (proj2 (Z.leb_le _ _)).
Qed.

Lemma reap_refines t s m : refines t s m -> refines t (reapExpired t s) m.
Proof.
  intros [Ha Hz]. split; [|done]. intros a. cbn. destruct (s.(entries) !! a) as [e|] eqn:Hs.
  - destruct (decide (t < e)) as [Hlt|Hge].
    + left. rewrite (map_lookup_filter_Some_2 _ _ _ e); [|done|done]. destruct (Ha a) as [<-|[? _]]; congruence.
    + right. rewrite map_lookup_filter_None_2 by (right; intros ? ?; simplify_eq/=; done).
      split; [done|]. exists e. destruct (Ha a) as [<-|[? _]]; [split; [done|lia]|congruence].
  - rewrite map_lookup_filter_None_2 by auto. specialize (Ha a). by rewrite Hs in Ha.
Qed.

Lemma set_refines t a e s m :
  refines t s m -> refines t (MkState (<[a := e]> s.(entries)) s.(delegationEpochs)) (MkSpec (<[a := e]> m.(marks)) m.(epochs)).
Proof.
  intros [Ha Hz]. split; [|done]. intros a'. cbn. destruct (decide (a = a')) as [->|Hne].
  - left. by rewrite !lookup_insert_eq.
  - rewrite !lookup_insert_ne by done. apply Ha.
Qed.

Lemma markRevoked_refines o c a ttl s m :
  refines c.(now) s m ->
  ((markRevoked o c a ttl s).2 = Ok tt
   /\ refines c.(now) (markRevoked o c a ttl s).1 (spec_mark c.(now) a (default_to o.(defaultTtlMs) ttl) m))
  \/ ((markRevoked o c a ttl s).2 = Throw /\ refines c.(now) (markRevoked o c a ttl s).1 m).
Proof.
  intros Hr. unfold markRevoked. cbv zeta.
  destruct (o.(maxEntries) <=? size s); [|left; split; [done|by apply set_refines]].
  destruct (o.(maxEntries) <=? size _); [right; split; [done|by apply reap_refines]|].
  left. split; [done|]. by apply set_refines, reap_refines.
Qed.

Lemma epoch_refines c z s m :
  refines c.(now) s m ->
  (currentDelegationEpoch c z s).2 = Ok (spec_epoch c.(now) z m) /\ refines c.(now) (currentDelegationEpoch c z s).1 m.
Proof.
  intros [Ha Hz]. unfold currentDelegationEpoch, spec_epoch. cbn [expired expiry].
  destruct (s.(delegationEpochs) !! z) as [[n e]|] eqn:Hs.
  - destruct (Hz z) as [Hm|[? _]]; [|congruence]. rewrite Hs in Hm. rewrite <-Hm.
    destruct (Z.leb_spec e c.(now)); (split; [done|]); [|by split]. split; [done|].
    intros z'. cbn. destruct (decide (z = z')) as [->|Hne]; [|by rewrite lookup_delete_ne].
    right. rewrite lookup_delete_eq. eauto.
  - split; [|by split]. destruct (Hz z) as [Hm|(_ & n & e & Hm & He)]; [by rewrite <-Hm, Hs|].
    rewrite Hm. by rewrite (proj2 (Z.leb_le _ _)).
Qed.

Lemma markEpoch_refines o c z n ttl s m :
  refines c.(now) s m ->
  (markDelegationEpoch o c z n ttl s).2 = Ok tt
  /\ refines c.(now) (markDelegationEpoch o c z n ttl s).1 (spec_mark_epoch c.(now) z n (default_to o.(defaultTtlMs) ttl) m).
Proof.
  intros Hr. destruct (epoch_refines c z s m Hr) as [He Hr']. unfold markDelegationEpoch, spec_mark_epoch.
  destruct (currentDelegationEpoch c z s) as [s' r]. cbn [fst snd] in *. subst r.
  destruct (n <=? spec_epoch c.(now) z m); [done|]. split; [done|]. destruct Hr' as [Ha Hz]. split; [done|].
  intros z'. cbn. destruct (decide (z = z')) as [->|Hne].
  - left. by rewrite !lookup_insert_eq.
  - rewrite !lookup_insert_ne by done. apply Hz.
Qed.

(** The store honours the contract on every anchor, zone and epoch. *)
#[export] Instance contract (o : Options) : RevocationContract State (H := store o).
Proof.
  refine {| rc_expiry := expiry; rc_ttl := o.(defaultTtlMs); rc_covers := fun _ => true; rc_abs := refines |}.
  - apply refines_later.
  - intros c [a|a ttl|z|z n ttl] s m _ Hr; cbn.
    + destruct (isRevoked_refines c a s m Hr) as [He Hr']. destruct (isRevoked c a s). cbn in *. subst.
      eexists. split; [constructor|done].
    + destruct (markRevoked_refines o c a ttl s m Hr) as [[He Hr']|[He Hr']]; destruct (markRevoked o c a ttl s); cbn in *; subst;
        eexists; (split; [constructor|done]).
    + destruct (epoch_refines c z s m Hr) as [He Hr']. destruct (currentDelegationEpoch c z s). cbn in *. subst.
      eexists. split; [constructor|done].
    + destruct (markEpoch_refines o c z n ttl s m Hr) as [He Hr']. destruct (markDelegationEpoch o c z n ttl s). cbn in *. subst.
      eexists. split; [constructor|done].
Defined.

Lemma empty_refines t : refines t empty empty_spec.
Proof. split; intros; by left. Qed.

(** ** Capacity *)

(** Entries that have not expired at [t]. *)
Definition live_entries (t : Z) (s : State) : Z := size (reapExpired t s).

Lemma live_le_size t s : live_entries t s <= size s.
Proof.
  unfold live_entries, size, reapExpired. cbn. apply Nat2Z.inj_le, map_subseteq_size, map_filter_subseteq.
Qed.

Lemma insert_size (a : string) (e : Z) (es : gmap string Z) : (base.size (<[a := e]> es) <= S (base.size es))%nat.
Proof. rewrite map_size_insert. case_match; cbn; lia. Qed.

Lemma markRevoked_throws o c a ttl s :
  (markRevoked o c a ttl s).2 = Throw <-> o.(maxEntries) <= live_entries c.(now) s.
Proof.
  pose proof (live_le_size c.(now) s) as Hle. unfold markRevoked, live_entries in *. cbv zeta.
  destruct (Z.leb_spec o.(maxEntries) (size s)); [|split; [done|lia]].
  destruct (Z.leb_spec o.(maxEntries) (size (reapExpired c.(now) s))); split; try done; lia.
Qed.

Lemma run_op_size o c op s :
  0 <= o.(maxEntries) -> size s <= o.(maxEntries) -> size (run_op (H := store o) c op s).1 <= o.(maxEntries).
Proof.
  intros H0 Hs. destruct op as [a|a ttl|z|z n ttl]; cbn.
  - unfold isRevoked. repeat case_match; simplify_eq/=; try done. unfold size in *. cbn. rewrite map_size_delete. destruct (_ !! _); cbn; lia.
  - unfold markRevoked. cbv zeta. pose proof (live_le_size c.(now) s) as Hle. unfold live_entries in Hle.
    destruct (Z.leb_spec o.(maxEntries) (size s)); [destruct (Z.leb_spec o.(maxEntries) (size (reapExpired c.(now) s)))|];
      cbn -[reapExpired]; [lia| |].
    all: unfold size in *; cbn -[reapExpired]; match goal with |- context [<[?k := ?e]> ?es] => pose proof (insert_size k e es) end; lia.
  - unfold currentDelegationEpoch. by repeat case_match; simplify_eq/=.
  - unfold markDelegationEpoch, currentDelegationEpoch. by repeat case_match; simplify_eq/=.
Qed.

Lemma run_ops_size o ops s :
  0 <= o.(maxEntries) -> size s <= o.(maxEntries) -> size (run_ops (H := store o) ops s).1 <= o.(maxEntries).
Proof.
  intros H0. revert s. induction ops as [|[c op] ops IH]; intros s Hs; [done|]. cbn [run_ops].
  pose proof (run_op_size o c op s H0 Hs) as H1. destruct (run_op c op s) as [s1 r]. cbn in H1.
  specialize (IH s1 H1). by destruct (run_ops ops s1).
Qed.

(** The in-memory store refines the abstract revocation store: on any run of calls
    from an empty store its answers are ones the abstract store may give, it never holds
    more than [maxEntries] entries, and a mark is refused exactly when that many
    unexpired entries are held. *)
Theorem inmem_refines_spec (o : Options) (t : Z) (ops : list (Call * Op)) (c : Call) (a : string) (ttl : option Z) :
  0 <= o.(maxEntries) -> in_order t ops ->
  let '(s, answers) := run_ops (H := store o) ops empty in
  (exists m, spec_run o.(defaultTtlMs) ops empty_spec answers m /\ refines (clock_after t ops) s m)
  /\ size s <= o.(maxEntries)
  /\ ((markRevoked o c a ttl s).2 = Throw <-> o.(maxEntries) <= live_entries c.(now) s).
Proof.
  intros H0 Ho. pose proof (run_ops_size o ops empty H0 H0) as Hsz.
  destruct (contract_runs (H := store o) ops t empty empty_spec) as (m & Hrun & Habs);
    [by apply Forall_true|done|apply empty_refines|].
  destruct (run_ops ops empty) as [s answers]. split_and!; [by exists m|done|apply markRevoked_throws..].
Qed.
End InMemory.
