(* ===== verification/RedisStore.v ===== *)
(** * The redis-backed revocation store

    [RedisRevocationStore] of [packages/backends/redis/ts/src/revocation.ts] with its
    Lua script.  Redis is a parameter: the two commands the store and its script use,
    with their documented behaviour as the class [RedisLaws]. *)

From Stdlib Require Import Ascii.
From S2P Require Import Prelude.
From S2P Require Import Numbers.
From S2P Require Import Revocation.
Local Open Scope string_scope.
Local Open Scope Z_scope.

(** [GET key] and [SET key value PX ttl] at a time of the server's clock; [None] as the
    answer to [SET] is an error reply, which changes nothing. *)
Class Redis := {
  rdb : Type;
  redis_get : Z -> string -> rdb -> option string;
  redis_set_px : Z -> string -> string -> Z -> rdb -> option rdb
}.

(** [SET ... PX] accepts exactly the positive lifetimes; a value is served until its
    lifetime is over, and setting one key does not change another. *)
Class RedisLaws `{Redis} `{Expiry} : Prop := {
  redis_set_ok : forall t k v ttl s, is_Some (redis_set_px t k v ttl s) <-> 0 < ttl;
  redis_get_set : forall t t' k v ttl s s', redis_set_px t k v ttl s = Some s' -> t <= t' ->
    redis_get t' k s' = if expired (t + millis ttl) t' then None else Some v;
  redis_get_other : forall t t' k k' v ttl s s', redis_set_px t k v ttl s = Some s' -> k' <> k -> t <= t' ->
    redis_get t' k' s' = redis_get t' k' s
}.

Definition DEFAULT_REVOCATION_TTL_MS : Z := 24 * 60 * 60 * 1000.

Module RedisStore.

(** [RedisRevocationStoreOptions] after their defaults. *)
Record Options := MkOptions { keyPrefix : string; defaultTtlMs : Z; failClosed : bool }.

Definition make_options (prefix : option string) (ttl : option Z) (closed : option bool) : Options :=
  MkOptions (default_to "caracal:revoked:sessions:" prefix) (default_to DEFAULT_REVOCATION_TTL_MS ttl) (default_to true closed).

Definition key (o : Options) (anchorId : string) : string := o.(keyPrefix) +:+ anchorId.

Definition EPOCH_PREFIX : string := "delegation-epoch:".

Definition delegationEpochKey (o : Options) (zoneId : string) : string := o.(keyPrefix) +:+ (EPOCH_PREFIX +:+ zoneId).

(** How the epoch read back from redis is understood. *)
Definition read_epoch (value : option string) : Z :=
  match safe_integer (match value with Some v => Number v | None => Finite false 0 0 end) with
  | Some epoch => if 0 <? epoch then epoch else 0
  | None => 0
  end.

Section store.
Context `{Redis}.

(** A read: an answer, or a rejected promise when the command or its answer is lost. *)
Definition get (c : Call) (k : string) (s : rdb) : Result (option string) :=
  match c.(fate) with Delivered => Ok (redis_get c.(now) k s) | _ => Throw end.

(** A command that writes: [f] is what the server does, [None] its error reply. *)
Definition write {A : Type} (c : Call) (f : rdb -> option (rdb * A)) (s : rdb) : rdb * Result A :=
  match c.(fate), f s with
  | LostBefore, _ => (s, Throw)
  | _, None => (s, Throw)
  | Delivered, Some (s', a) => (s', Ok a)
  | LostAfter, Some (s', _) => (s', Throw)
  end.

Definition isRevoked (o : Options) (c : Call) (anchorId : string) (s : rdb) : rdb * Result bool :=
  if bool_decide (anchorId = "") then (s, Ok false)
  else match get c (key o anchorId) s with
       | Ok reply => (s, Ok (match reply with Some _ => true | None => false end))
       | Throw => if o.(failClosed) then (s, Ok true) else (s, Throw)
       end.

Definition markRevoked (o : Options) (c : Call) (anchorId : string) (ttlMs : option Z) (s : rdb) : rdb * Result unit :=
  if bool_decide (anchorId = "") then (s, Ok tt)
  else write c (fun s => (fun s' => (s', tt)) <$>
         redis_set_px c.(now) (key o anchorId) "1" (default_to o.(defaultTtlMs) ttlMs) s) s.

Definition currentDelegationEpoch (o : Options) (c : Call) (zoneId : string) (s : rdb) : rdb * Result Z :=
  match get c (delegationEpochKey o zoneId) s with
  | Ok value => (s, Ok (read_epoch value))
  | Throw => if o.(failClosed) then (s, Ok MAX_SAFE_INTEGER) else (s, Throw)
  end.

(** [MAX_EPOCH_SCRIPT], run by the server at time [t]; its answer is 1 when it replaced
    the epoch.  An error of its [SET] is an error of the script. *)
Definition max_epoch_script (t : Z) (k argv1 : string) (argv2 : Z) (s : rdb) : option (rdb * Z) :=
  let current := normalize (default_to "0" (redis_get t k s)) in
  let candidate := normalize argv1 in
  if decimal_above candidate current then (fun s' => (s', 1)) <$> redis_set_px t k argv1 argv2 s
  else Some (s, 0).

Definition markDelegationEpoch (o : Options) (c : Call) (zoneId : string) (epoch : Z) (ttlMs : option Z) (s : rdb)
  : rdb * Result unit :=
  if bool_decide (zoneId = "") || negb (Z.abs epoch <=? MAX_SAFE_INTEGER) || (epoch <? 0) then (s, Ok tt)
  else
    let '(s', r) := write c (max_epoch_script c.(now) (delegationEpochKey o zoneId) (pretty epoch)
                               (default_to o.(defaultTtlMs) ttlMs)) s in
    (s', match r with Ok _ => Ok tt | Throw => Throw end).

#[export] Instance store (o : Options) : RevocationStore rdb := {|
  Revocation.isRevoked := isRevoked o;
  Revocation.markRevoked := markRevoked o;
  Revocation.currentDelegationEpoch := Some (currentDelegationEpoch o);
  Revocation.markDelegationEpoch := Some (markDelegationEpoch o)
|}.
End store.

(** ** Refinement *)

(** The anchors whose key is not the epoch key of a zone. *)
Definition proper_anchor (a : string) : bool := negb (bool_decide (a = "")) && negb (String.prefix EPOCH_PREFIX a).

Definition covers (op : Op) : bool :=
  match op with
  | OpIsRevoked a | OpMarkRevoked a _ => proper_anchor a
  | OpCurrentEpoch z => negb (bool_decide (z = ""))
  | OpMarkEpoch z n _ => negb (bool_decide (z = "")) && (0 <=? n) && (n <=? MAX_SAFE_INTEGER)
  end.

(** The calls the store answers without a command: an empty id, or an epoch that is not a
    safe natural number.  Neither covered nor ignored are the anchors that begin with
    [EPOCH_PREFIX], whose key is that of a zone's epoch, and the epoch of the zone "". *)
Definition ignored (op : Op) : bool :=
  match op with
  | OpIsRevoked a | OpMarkRevoked a _ => bool_decide (a = "")
  | OpCurrentEpoch _ => false
  | OpMarkEpoch z n _ => bool_decide (z = "") || (n <? 0) || (MAX_SAFE_INTEGER <? n)
  end.

Definition quiet (op : Op) : Answer :=
  match op with
  | OpIsRevoked _ => ABool (Ok false)
  | _ => AUnit (Ok tt)
  end.

Lemma append_inj (p a b : string) : p +:+ a = p +:+ b -> a = b.
Proof. induction p as [|x p IH]; [done|]. intros He. injection He as He. auto. Qed.

Lemma prefix_append (p s : string) : String.prefix p (p +:+ s) = true.
Proof.
  induction p as [|x p IH]; [by destruct s|]. change (String.String x p +:+ s) with (String.String x (p +:+ s)).
  cbn. by destruct (ascii_dec x x).
Qed.

Lemma key_not_epoch o a z : proper_anchor a = true -> key o a <> delegationEpochKey o z.
Proof.
  unfold proper_anchor, key, delegationEpochKey. intros Ha He%append_inj. subst. bool_props.
  by rewrite prefix_append in *.
Qed.

Lemma read_epoch_pretty n : 0 <= n <= MAX_SAFE_INTEGER -> read_epoch (Some (pretty n)) = n.
Proof. intros Hn. unfold read_epoch. rewrite Number_pretty by done. destruct (Z.ltb_spec 0 n); lia. Qed.

Section refinement.
Context `{RedisLaws} (o : Options).

(** What redis serves from time [t] on is what the abstract store holds; the epochs are
    stored as the decimal text of safe integers. *)
Definition refines (t : Z) (s : rdb) (m : Spec) : Prop :=
  forall t', t <= t' ->
    (forall a, proper_anchor a = true ->
       spec_revoked t' a m = match redis_get t' (key o a) s with Some _ => true | None => false end)
    /\ (forall z, z <> "" ->
       match redis_get t' (delegationEpochKey o z) s with
       | Some v => v = pretty (spec_epoch t' z m) /\ 0 <= spec_epoch t' z m <= MAX_SAFE_INTEGER
       | None => spec_epoch t' z m = 0
       end).

Lemma redis_refines_later t t' s m : t <= t' -> refines t s m -> refines t' s m.
Proof. intros Ht Hr u Hu. apply Hr. lia. Qed.

Lemma set_mark_refines t a v ttl s s' m :
  proper_anchor a = true -> redis_set_px t (key o a) v ttl s = Some s' ->
  refines t s m -> refines t s' (spec_mark t a ttl m).
Proof.
  intros Ha Hs Hr u Hu. destruct (Hr u Hu) as [Hm Hz]. split.
  - intros a' Ha'. unfold spec_revoked, spec_mark. cbn. destruct (decide (a = a')) as [->|Hne].
    + rewrite lookup_insert_eq, (redis_get_set _ _ _ _ _ _ _ Hs) by done. by destruct (expired _ _).
    + rewrite lookup_insert_ne, (redis_get_other _ _ _ _ _ _ _ _ Hs) by (done || (intros ?%append_inj; congruence)).
      by apply Hm.
  - intros z Hz'. rewrite (redis_get_other _ _ _ _ _ _ _ _ Hs); [by apply Hz| |done].
    apply not_eq_sym. by apply key_not_epoch.
Qed.

Lemma set_epoch_refines t z n ttl s s' m :
  z <> "" -> 0 <= n <= MAX_SAFE_INTEGER -> spec_epoch t z m < n ->
  redis_set_px t (delegationEpochKey o z) (pretty n) ttl s = Some s' ->
  refines t s m -> refines t s' (spec_mark_epoch t z n ttl m).
Proof.
  intros Hz0 Hn Hlt Hs Hr u Hu. destruct (Hr u Hu) as [Hm Hz]. unfold spec_mark_epoch.
  rewrite (proj2 (Z.leb_gt _ _) Hlt). split.
  - intros a Ha. rewrite (redis_get_other _ _ _ _ _ _ _ _ Hs); [by apply Hm| |done]. by apply key_not_epoch.
  - intros z' Hz'. unfold spec_epoch. cbn. destruct (decide (z = z')) as [->|Hne].
    + rewrite lookup_insert_eq, (redis_get_set _ _ _ _ _ _ _ Hs) by done. destruct (expired _ _); [done|]. split; [done|lia].
    + rewrite lookup_insert_ne by done. rewrite (redis_get_other _ _ _ _ _ _ _ _ Hs); [by apply Hz| |done].
      intros ?%append_inj%append_inj. congruence.
Qed.

(** The script keeps the larger epoch. *)
Lemma max_epoch_script_spec t z n ttl s m :
  z <> "" -> 0 <= n <= MAX_SAFE_INTEGER -> refines t s m ->
  match max_epoch_script t (delegationEpochKey o z) (pretty n) ttl s with
  | Some (s', r) => refines t s' (spec_mark_epoch t z n ttl m)
                    /\ (r = 1 <-> spec_epoch t z m < n) /\ (r = 0 \/ r = 1)
  | None => ttl <= 0
  end.
Proof.
  intros Hz Hn Hr. destruct (Hr t ltac:(lia)) as [_ He]. specialize (He z Hz).
  assert (decimal_value (normalize (default_to "0" (redis_get t (delegationEpochKey o z) s))) = spec_epoch t z m) as Hc.
  { destruct (redis_get _ _ _) as [v|]; cbn [default_to]; [|by rewrite He]. destruct He as [-> ?].
    by rewrite decimal_value_pretty by lia. }
  unfold max_epoch_script. rewrite decimal_above_spec by apply normalize_spec. rewrite Hc, decimal_value_pretty by lia.
  destruct (Z.ltb_spec (spec_epoch t z m) n) as [Hlt|Hge].
  - destruct (redis_set_px _ _ _ _ _) as [s'|] eqn:Hs; cbn.
    + split_and!; [by eapply set_epoch_refines|by split|by right].
    + destruct (Z.lt_ge_cases 0 ttl) as [Hp|]; [|done]. apply (redis_set_ok t (delegationEpochKey o z) (pretty n) ttl s) in Hp.
      rewrite Hs in Hp. by destruct Hp.
  - unfold spec_mark_epoch. rewrite (proj2 (Z.leb_le _ _) Hge). split_and!; [done|split; lia|by left].
Qed.

Lemma isRevoked_step c a s m :
  proper_anchor a = true -> refines c.(now) s m ->
  exists m', spec_step o.(defaultTtlMs) c (OpIsRevoked a) m (ABool (isRevoked o c a s).2) m' /\ refines c.(now) (isRevoked o c a s).1 m'.
Proof.
  intros Ha Hr. destruct (Hr c.(now) ltac:(lia)) as [Hm _]. specialize (Hm a Ha). unfold isRevoked.
  unfold proper_anchor in Ha. bool_props. rewrite bool_decide_eq_false_2 by done. unfold get.
  destruct c.(fate) eqn:Hf; [cbn; rewrite <-Hm; eexists; split; [constructor|done]|..];
    destruct o.(failClosed); eexists; (split; [by constructor; rewrite Hf|done]).
Qed.

Lemma markRevoked_step c a ttl s m :
  proper_anchor a = true -> refines c.(now) s m ->
  exists m', spec_step o.(defaultTtlMs) c (OpMarkRevoked a ttl) m (AUnit (markRevoked o c a ttl s).2) m'
    /\ refines c.(now) (markRevoked o c a ttl s).1 m'.
Proof.
  intros Ha Hr. pose proof Ha as Ha'. unfold proper_anchor in Ha'. bool_props.
  unfold markRevoked. rewrite bool_decide_eq_false_2 by done. unfold write.
  destruct (redis_set_px _ _ _ _ s) as [s'|] eqn:Hs; cbn.
  - pose proof (set_mark_refines _ _ _ _ _ _ m Ha Hs Hr) as Hr'.
    destruct c.(fate) eqn:Hf; cbn; [exists (spec_mark c.(now) a (default_to o.(defaultTtlMs) ttl) m)|exists m
      |exists (spec_mark c.(now) a (default_to o.(defaultTtlMs) ttl) m)]; (split; [by constructor; rewrite ?Hf|done]).
  - exists m. destruct c.(fate); cbn; (split; [constructor|done]).
Qed.

Lemma currentEpoch_step c z s m :
  z <> "" -> refines c.(now) s m ->
  exists m', spec_step o.(defaultTtlMs) c (OpCurrentEpoch z) m (AEpoch (currentDelegationEpoch o c z s).2) m'
    /\ refines c.(now) (currentDelegationEpoch o c z s).1 m'.
Proof.
  intros Hz Hr. destruct (Hr c.(now) ltac:(lia)) as [_ He]. specialize (He z Hz). unfold currentDelegationEpoch, get.
  destruct c.(fate) eqn:Hf.
  - assert (read_epoch (redis_get c.(now) (delegationEpochKey o z) s) = spec_epoch c.(now) z m) as Hread.
    { destruct (redis_get _ _ _); [destruct He as [-> ?]; by apply read_epoch_pretty|by rewrite He]. }
    cbn. rewrite Hread. eexists. split; [constructor|done].
  - destruct o.(failClosed); eexists; (split; [by constructor; rewrite Hf|done]).
  - destruct o.(failClosed); eexists; (split; [by constructor; rewrite Hf|done]).
Qed.

Lemma markEpoch_step c z n ttl s m :
  z <> "" -> 0 <= n <= MAX_SAFE_INTEGER -> refines c.(now) s m ->
  exists m', spec_step o.(defaultTtlMs) c (OpMarkEpoch z n ttl) m (AUnit (markDelegationEpoch o c z n ttl s).2) m'
    /\ refines c.(now) (markDelegationEpoch o c z n ttl s).1 m'.
Proof.
  intros Hz Hn Hr. unfold markDelegationEpoch.
  rewrite bool_decide_eq_false_2, (proj2 (Z.leb_le (Z.abs n) _)), (proj2 (Z.ltb_ge n 0)) by (done || lia). cbn [orb negb].
  pose proof (max_epoch_script_spec c.(now) z n (default_to o.(defaultTtlMs) ttl) s m Hz Hn Hr) as Hs. unfold write.
  destruct (max_epoch_script _ _ _ _ s) as [[s' r]|]; [destruct Hs as [Hr' _]|].
  - destruct c.(fate) eqn:Hf; cbn; [exists (spec_mark_epoch c.(now) z n (default_to o.(defaultTtlMs) ttl) m)|exists m
      |exists (spec_mark_epoch c.(now) z n (default_to o.(defaultTtlMs) ttl) m)]; (split; [by constructor; rewrite ?Hf|done]).
  - exists m. destruct c.(fate); cbn; (split; [constructor|done]).
Qed.
End refinement.

(** The store honours the contract on proper anchors, named zones and safe epochs. *)
#[export] Instance contract `{RedisLaws} (o : Options) : RevocationContract rdb (H := store o).
Proof.
  refine {| rc_expiry := _; rc_ttl := o.(defaultTtlMs); rc_covers := covers; rc_abs := refines o |}.
  - apply redis_refines_later.
  - intros c [a|a ttl|z|z n ttl] s m Hc Hr; cbn in *; bool_props.
    + destruct (isRevoked_step o c a s m Hc Hr) as (m' & ? & ?). exists m'. by destruct (isRevoked o c a s).
    + destruct (markRevoked_step o c a ttl s m Hc Hr) as (m' & ? & ?). exists m'. by destruct (markRevoked o c a ttl s).
    + destruct (currentEpoch_step o c z s m Hc Hr) as (m' & ? & ?). exists m'. by destruct (currentDelegationEpoch o c z s).
    + destruct (markEpoch_step o c z n ttl s m ltac:(done) ltac:(lia) Hr) as (m' & ? & ?). exists m'.
      by destruct (markDelegationEpoch o c z n ttl s).
Defined.

Lemma ignored_quiet `{Redis} (o : Options) c op s : ignored op = true -> run_op (H := store o) c op s = (s, quiet op).
Proof.
  destruct op as [a|a ttl|z|z n ttl]; cbn; intros Hi; bool_props; subst; try done.
  unfold markDelegationEpoch.
  assert (bool_decide (z = "") || negb (Z.abs n <=? MAX_SAFE_INTEGER) || (n <? 0) = true) as ->; [|done].
  apply orb_true_iff in Hi as [Hi|Hi]; [apply orb_true_iff in Hi as [->|Hi]; [done|]; rewrite Hi; by rewrite !orb_true_r|].
  apply Z.ltb_lt in Hi. rewrite (proj2 (Z.leb_gt (Z.abs n) MAX_SAFE_INTEGER)) by lia. cbn. by rewrite orb_true_r.
Qed.

(** C39. The redis-backed store refines the abstract revocation store on the ids it keeps
    apart.  For a run of calls, in order of the clock, whose anchors are not empty and do
    not begin with [delegation-epoch:], whose zones are not empty and whose epochs lie
    between 0 and the largest safe integer ([covers]), and whichever commands or answers
    the network loses, the answers are ones the abstract store may give, where a
    fail-closed store answers a lost read with "revoked" or the largest epoch.  A call for
    an empty id or another epoch ([ignored]) is answered without touching the store, a
    fail-closed look-up of a mark never throws, and a delivered mark with a positive
    lifetime always succeeds.  An anchor that begins with [delegation-epoch:] is outside
    the claim: its key is that of a zone's epoch. *)
Theorem redis_refines_spec `{RedisLaws} (o : Options) (t : Z) (s0 : rdb) (m0 : Spec) (ops : list (Call * Op))
  (c : Call) (a : string) (ttl : option Z) :
  refines o t s0 m0 -> in_order t ops -> Forall (fun co => covers co.2 = true) ops ->
  let '(s, answers) := run_ops (H := store o) ops s0 in
  (exists m, spec_run o.(defaultTtlMs) ops m0 answers m /\ refines o (clock_after t ops) s m)
  /\ (forall op, ignored op = true -> run_op (H := store o) c op s = (s, quiet op))
  /\ (o.(failClosed) = true -> (isRevoked o c a s).2 <> Throw)
  /\ (c.(fate) = Delivered -> 0 < default_to o.(defaultTtlMs) ttl -> (markRevoked o c a ttl s).2 = Ok tt).
Proof.
  intros Hr Ho Hc. destruct (contract_runs (H := store o) ops t s0 m0) as (m & Hrun & Habs); [done|done|done|].
  destruct (run_ops ops s0) as [s answers]. split_and!; [by exists m|intros; by apply ignored_quiet| |].
  - intros Hf. unfold isRevoked. case_bool_decide; [done|]. rewrite Hf. by destruct (get _ _ _).
  - intros Hf Httl. unfold markRevoked. case_bool_decide; [done|]. unfold write. rewrite Hf.
    destruct (proj2 (redis_set_ok c.(now) (key o a) "1" _ s) Httl) as [s' ->]. done.
Qed.
End RedisStore.

(** ** A redis of its own

    The commands on a map of values and deadlines; a key is gone once the clock has
    passed its deadline. *)
Module MapRedis.
#[export] Instance expiry : Expiry.
Proof. refine {| expired := fun deadline t => deadline <? t |}; intros; [apply Z.ltb_ge|apply Z.ltb_lt]; lia. Defined.

#[export] Instance redis : Redis := {|
  rdb := gmap string (string * Z);
  redis_get := fun t k s => match s !! k with
                            | Some (v, e) => if expired e t then None else Some v
                            | None => None
                            end;
  redis_set_px := fun t k v ttl s => if 0 <? ttl then Some (<[k := (v, t + millis ttl)]> s) else None
|}.

#[export] Instance laws : RedisLaws.
Proof.
  split; cbn; intros.
  - destruct (Z.ltb_spec 0 ttl); split; intros Hs; try lia; [by eexists|by destruct Hs].
  - case_match; simplify_eq. by rewrite lookup_insert_eq.
  - case_match; simplify_eq. by rewrite lookup_insert_ne.
Qed.

Lemma map_empty_refines o t : RedisStore.refines o t (∅ : @rdb redis) empty_spec.
Proof. intros u Hu. split; intros; done. Qed.
End MapRedis.
