(* ===== verification/Identity.v ===== *)
(** * Mandate claims

    [packages/identity/ts/src/verify.ts] and [types.ts]: the checks a resource server
    makes on a verified mandate and the typed claims it reads from it.  The signature
    check is [jwtVerify] of [jose] and enters as a parameter. *)

From S2P Require Import Prelude.
From S2P Require Import Json.
From S2P Require Import Scope.
Local Open Scope string_scope.
Local Open Scope Z_scope.
Local Open Scope list_scope.

Module Identity.

Definition REQUIRED_CLAIMS : list string :=
  ["exp"; "iat"; "jti"; "sub"; "client_id"; "sid"; "root_sid"; "use"; "sub_type"].
Definition JWT_CLOCK_TOLERANCE_SECONDS : Z := 60.
Definition DEFAULT_MAX_HOP_COUNT : Z := 10.
Definition MANDATE_USE_SESSION : string := "session".
Definition MANDATE_USE_RESOURCE : string := "resource".

(** The error classes. *)
Inductive VerifyError :=
| TokenInvalidError (text : string)
| ZoneInvalidError
| ScopeInsufficientError (missingScope : string)
| SessionRequiredError
| DelegationRequiredError
| ChainMismatchError (missingApplicationId : string)
| HopCountExceededError.

(** [err.message]. *)
Definition message (e : VerifyError) : string :=
  match e with
  | TokenInvalidError text => text
  | ZoneInvalidError => "Token zone validation failed"
  | ScopeInsufficientError s => "Missing scope: " +:+ s
  | SessionRequiredError => "Session required"
  | DelegationRequiredError => "Delegation required"
  | ChainMismatchError a => "Delegation chain missing application: " +:+ a
  | HopCountExceededError => "Hop count exceeded"
  end.

(** Code that throws one of them. *)
Definition Checked (A : Type) : Type := VerifyError + A.

#[export] Instance checked_ret : MRet Checked := fun A a => inr a.
#[export] Instance checked_bind : MBind Checked := fun A B f m =>
  match m with inl e => inl e | inr a => f a end.

Definition throw {A : Type} (e : VerifyError) : Checked A := inl e.
Definition invalid {A : Type} (text : string) : Checked A := throw (TokenInvalidError text).

(** [if (!ok) throw e]. *)
Definition check (ok : bool) (e : VerifyError) : Checked unit := if ok then mret tt else throw e.

(** A loop that throws [e x] at the first [x] that fails [p]. *)
Fixpoint check_all (p : string -> bool) (e : string -> VerifyError) (xs : list string) : Checked unit :=
  match xs with
  | [] => mret tt
  | x :: rest => check (p x) (e x);; check_all p e rest
  end.

(** [JwtConfig]. *)
Record JwtConfig := MkJwtConfig {
  issuer : string;
  audience : string;
  zoneId : string;
  requiredScopes : option (list string);
  requiredTargets : option (list string);
  requiredUse : option string;
  requireSession : option bool;
  requireDelegation : option bool;
  requireChainContains : option (list string);
  maxHopCount : option Z
}.

Record ChainHop := MkChainHop {
  hop_applicationId : string;
  hop_sessionId : option string;
  hop_delegationId : option string
}.

Record Claims := MkClaims {
  sub : string;
  c_zoneId : string;
  clientId : string;
  authorityRecordId : string;
  rootAuthorityRecordId : string;
  use : string;
  subType : string;
  jti : string;
  issuedAt : Z;
  expiresAt : Z;
  scope : string;
  targetResources : option (list string);
  sessionId : option string;
  delegationId : option string;
  sourceSessionId : option string;
  targetSessionId : option string;
  delegationPath : option (list string);
  delegationChain : option (list ChainHop);
  graphEpoch : option Z;
  hopCount : option Z
}.

Abbreviation Payload := (list (string * json)).

Definition requiredString (payload : Payload) (name : string) : Checked string :=
  match json_get name (JObj payload) with
  | JStr s => if bool_decide (s = "") then invalid ("Token claim " +:+ name +:+ " is required") else mret s
  | _ => invalid ("Token claim " +:+ name +:+ " is required")
  end.

Definition optionalString (payload : Payload) (name : string) : Checked (option string) :=
  match json_get name (JObj payload) with
  | JUndefined | JNull => mret None
  | JStr s => mret (if bool_decide (s = "") then None else Some s)
  | _ => invalid ("Token claim " +:+ name +:+ " must be a string")
  end.

Definition optionalInteger (payload : Payload) (name : string) : Checked (option Z) :=
  match json_get name (JObj payload) with
  | JUndefined | JNull => mret None
  | JNum n => if n <? 0 then invalid ("Token claim " +:+ name +:+ " must be a non-negative integer") else mret (Some n)
  | _ => invalid ("Token claim " +:+ name +:+ " must be a non-negative integer")
  end.

Definition requiredInteger (payload : Payload) (name : string) : Checked Z :=
  value ← optionalInteger payload name;
  match value with
  | None => invalid ("Token claim " +:+ name +:+ " is required")
  | Some n => mret n
  end.

Fixpoint read_strings (name : string) (values : list json) : Checked (list string) :=
  match values with
  | [] => mret []
  | JStr s :: rest =>
      if bool_decide (s = "") then invalid ("Token claim " +:+ name +:+ " must be a string array")
      else out ← read_strings name rest; mret (s :: out)
  | _ :: _ => invalid ("Token claim " +:+ name +:+ " must be a string array")
  end.

Definition readStringList (raw : json) (name : string) : Checked (option (list string)) :=
  match raw with
  | JUndefined | JNull => mret None
  | JArr values => out ← read_strings name values; mret (Some out)
  | _ => invalid ("Token claim " +:+ name +:+ " must be a string array")
  end.

Definition readHop (item : json) : Checked ChainHop :=
  match item with
  | JObj r =>
      applicationId ← requiredString r "application_id";
      sessionId ← optionalString r "agent_session_id";
      delegationId ← optionalString r "delegation_edge_id";
      mret (MkChainHop applicationId sessionId delegationId)
  | _ => invalid "Token claim delegation_chain must contain objects"
  end.

Fixpoint read_hops (items : list json) : Checked (list ChainHop) :=
  match items with
  | [] => mret []
  | item :: rest => hop ← readHop item; out ← read_hops rest; mret (hop :: out)
  end.

Definition readChain (raw : json) : Checked (option (list ChainHop)) :=
  match raw with
  | JUndefined | JNull => mret None
  | JArr items => out ← read_hops items; mret (if bool_decide (length out = 0%nat) then None else Some out)
  | _ => invalid "Token claim delegation_chain must be an array"
  end.

(** The options [jwtVerify] is called with. *)
Record VerifyOptions := MkVerifyOptions {
  o_issuer : string;
  o_audience : string;
  o_algorithms : list string;
  o_requiredClaims : list string;
  o_clockTolerance : Z
}.

(** [jwtVerify] of [jose] at a wall-clock time in milliseconds; [None] when it throws. *)
Class JwtVerifier := {
  KeySet : Type;
  jwtVerify : string -> KeySet -> VerifyOptions -> Z -> option Payload
}.

(** [zone], [use], [subType], [scope] and the other claims of a verified payload, in the
    order the code reads them. *)
Definition read_claims (config : JwtConfig) (payload : Payload) : Checked Claims :=
  jti ← requiredString payload "jti";
  sub ← requiredString payload "sub";
  clientId ← requiredString payload "client_id";
  authorityRecordId ← requiredString payload "sid";
  rootAuthorityRecordId ← requiredString payload "root_sid";
  use ← requiredString payload "use";
  check (bool_decide (use = MANDATE_USE_SESSION) || bool_decide (use = MANDATE_USE_RESOURCE))
    (TokenInvalidError "Token use validation failed");;
  subType ← requiredString payload "sub_type";
  check (bool_decide (subType = "user") || bool_decide (subType = "application"))
    (TokenInvalidError "Token subject type validation failed");;
  issuedAt ← requiredInteger payload "iat";
  expiresAt ← requiredInteger payload "exp";
  scope ← match json_get "scope" (JObj payload) with
          | JUndefined | JNull => mret ""
          | JStr s => mret s
          | _ => invalid "Token claim scope must be a string"
          end;
  targetResources ← readStringList (json_get "target" (JObj payload)) "target";
  zone ← match json_get "zone_id" (JObj payload) with
         | JStr z => if bool_decide (z = "") || negb (bool_decide (z = config.(zoneId))) then throw ZoneInvalidError else mret z
         | _ => throw ZoneInvalidError
         end;
  check (match config.(requiredUse) with
         | Some u => bool_decide (u = "") || bool_decide (use = u)
         | None => true
         end) (TokenInvalidError "Token use validation failed");;
  check_all (hasScope (Some scope)) ScopeInsufficientError (default_to [] config.(requiredScopes));;
  check_all (fun target => match targetResources with Some ts => bool_decide (target ∈ ts) | None => false end)
    (fun _ => TokenInvalidError "Token target resource validation failed") (default_to [] config.(requiredTargets));;
  sessionId ← optionalString payload "agent_session_id";
  delegationId ← optionalString payload "delegation_edge_id";
  sourceSessionId ← optionalString payload "source_session_id";
  targetSessionId ← optionalString payload "target_session_id";
  delegationPath ← readStringList (json_get "delegation_path" (JObj payload)) "delegation_path";
  delegationChain ← readChain (json_get "delegation_chain" (JObj payload));
  graphEpoch ← optionalInteger payload "delegation_graph_epoch";
  hopCount ← optionalInteger payload "hop_count";
  check (negb (default_to false config.(requireSession)) || negb (bool_decide (sessionId = None))) SessionRequiredError;;
  check (negb (default_to false config.(requireDelegation)) || negb (bool_decide (delegationId = None))) DelegationRequiredError;;
  let maxHops := match config.(maxHopCount) with
                 | Some n => if 0 <? n then n else DEFAULT_MAX_HOP_COUNT
                 | None => DEFAULT_MAX_HOP_COUNT
                 end in
  check (default_to 0 hopCount <=? maxHops) HopCountExceededError;;
  check_all (fun expected => match delegationChain with
                             | Some hops => existsb (fun h => bool_decide (h.(hop_applicationId) = expected)) hops
                             | None => false
                             end) ChainMismatchError (default_to [] config.(requireChainContains));;
  mret (MkClaims sub zone clientId authorityRecordId rootAuthorityRecordId use subType jti issuedAt expiresAt scope
    targetResources sessionId delegationId sourceSessionId targetSessionId delegationPath delegationChain
    graphEpoch hopCount).

(** [verify]; [keySet] is what [getKeySet] gives for the configured issuer and zone,
    [None] when it throws. *)
Definition verify `{JwtVerifier} (t : Z) (token : string) (config : JwtConfig) (keySet : option KeySet) : Checked Claims :=
  if bool_decide (config.(zoneId) = "") then throw ZoneInvalidError
  else
    match keySet with
    | None => invalid "Token validation failed"
    | Some ks =>
        match jwtVerify token ks
                (MkVerifyOptions config.(issuer) config.(audience) ["ES256"] REQUIRED_CLAIMS JWT_CLOCK_TOLERANCE_SECONDS) t with
        | None => invalid "Token validation failed"
        | Some payload => read_claims config payload
        end
    end.

Definition verifyChainContains (claims : Claims) (applicationId : string) : bool :=
  if match claims.(delegationChain) with
     | Some hops => existsb (fun h => bool_decide (h.(hop_applicationId) = applicationId)) hops
     | None => false
     end then true
  else bool_decide (claims.(clientId) = applicationId).
End Identity.

(** * Facts about mandate claims

    What an accepted mandate is known to be: its claims have the declared types, meet the
    verifier's configuration and are those of the verified payload; and every well-typed
    set of claims that meets the configuration is accepted as it is. *)

Module IdentityFacts.
Import Identity.

(** ** Inversion of the checking code *)

Lemma bind_ok {A B : Type} (m : Checked A) (f : A -> Checked B) b :
  m ≫= f = inr b <-> exists a, m = inr a /\ f a = inr b.
Proof. destruct m as [e|a]; cbn; split; [done|by intros (? & ? & ?)|by eauto|by intros (? & [= <-] & ?)]. Qed.

Lemma check_ok ok e u : check ok e = inr u <-> ok = true.
Proof. unfold check. destruct ok, u; done. Qed.

Lemma check_all_ok p e xs u : check_all p e xs = inr u <-> Forall (fun x => p x = true) xs.
Proof.
  induction xs as [|x xs IH]; cbn [check_all]; [by destruct u|]. rewrite bind_ok, Forall_cons. split.
  - intros ([] & ?%check_ok & ?%IH). done.
  - intros [Hp ?%IH]. exists tt. by rewrite check_ok.
Qed.

Lemma requiredString_ok payload name s :
  requiredString payload name = inr s <-> json_get name (JObj payload) = JStr s /\ s <> "".
Proof.
  unfold requiredString. destruct (json_get _ _); try (split; [done|by intros [? ?]]).
  case_bool_decide; split; try done; [by intros [[= ->] ?]|intros [= ->]; done|intros [[= ->] ?]; done].
Qed.

Lemma optionalString_ok payload name o :
  optionalString payload name = inr o ->
  (o = None /\ (json_get name (JObj payload) = JUndefined \/ json_get name (JObj payload) = JNull \/ json_get name (JObj payload) = JStr ""))
  \/ (exists s, o = Some s /\ s <> "" /\ json_get name (JObj payload) = JStr s).
Proof. unfold optionalString. destruct (json_get _ _); try done; intros [= <-]; eauto 7. case_bool_decide; subst; eauto 7. Qed.

Lemma optionalInteger_ok payload name o :
  optionalInteger payload name = inr o ->
  (o = None /\ (json_get name (JObj payload) = JUndefined \/ json_get name (JObj payload) = JNull))
  \/ (exists n, o = Some n /\ 0 <= n /\ json_get name (JObj payload) = JNum n).
Proof.
  unfold optionalInteger. destruct (json_get _ _); try done; [intros [= <-]; eauto 7..|].
  destruct (Z.ltb_spec n 0); [done|]. intros [= <-]. right. eauto.
Qed.

Lemma requiredInteger_ok payload name n :
  requiredInteger payload name = inr n -> 0 <= n /\ json_get name (JObj payload) = JNum n.
Proof.
  unfold requiredInteger. intros (o & Ho & Hn)%bind_ok. destruct o; [|done]. injection Hn as ->.
  by destruct (optionalInteger_ok _ _ _ Ho) as [[? _]|(? & [= <-] & ? & ?)].
Qed.

Lemma read_strings_ok name values out :
  read_strings name values = inr out <-> values = JStr <$> out /\ Forall (fun s => s <> "") out.
Proof.
  revert out. induction values as [|v values IH]; intros out.
  { destruct out; cbn; split; try done. by intros [? _]. }
  cbn [read_strings]. destruct v; try (split; [done|intros [He _]; destruct out; done]).
  case_bool_decide as Hs.
  - split; [done|]. intros [He Hf]. destruct out; [done|]. injection He as -> ->. by apply Forall_cons in Hf as [? _].
  - rewrite bind_ok. split.
    + intros (out' & [-> Hf]%IH & [= <-]). split; [done|]. by constructor.
    + intros [He Hf]. destruct out as [|s' out]; [done|]. injection He as -> ->. apply Forall_cons in Hf as [? Hf].
      exists out. split; [by apply IH|done].
Qed.

(** A list claim: absent, or an array of non-empty strings. *)
Definition list_claim (v : json) (o : option (list string)) : Prop :=
  match o with
  | None => v = JUndefined \/ v = JNull
  | Some xs => v = JArr (JStr <$> xs) /\ Forall (fun s => s <> "") xs
  end.

Lemma readStringList_ok v name o : readStringList v name = inr o -> list_claim v o.
Proof.
  unfold readStringList, list_claim. destruct v; try done; try (intros [= <-]; by auto).
  intros (out & [-> ?]%read_strings_ok & [= <-])%bind_ok. done.
Qed.

Definition opt_string (o : option string) : Prop := o <> Some "".
Definition hop_typed (h : ChainHop) : Prop :=
  h.(hop_applicationId) <> "" /\ opt_string h.(hop_sessionId) /\ opt_string h.(hop_delegationId).

Lemma optionalString_typed payload name o : optionalString payload name = inr o -> opt_string o.
Proof. intros [[-> _]|(s & -> & ? & _)]%optionalString_ok; unfold opt_string; congruence. Qed.

Lemma readHop_typed v h : readHop v = inr h -> hop_typed h.
Proof.
  unfold readHop. destruct v; try done.
  intros (a & [_ Ha]%requiredString_ok & (s & Hs%optionalString_typed & (d & Hd%optionalString_typed & [= <-])%bind_ok)%bind_ok)%bind_ok.
  done.
Qed.

Lemma readChain_typed v o : readChain v = inr o -> match o with Some hops => hops <> [] /\ Forall hop_typed hops | None => True end.
Proof.
  unfold readChain. destruct v as [| | | | | | |items|]; try done; try (intros [= <-]; done).
  intros (out & Hout & [= <-])%bind_ok. case_bool_decide as Hl; [done|]. split; [by destruct out|].
  clear Hl. revert out Hout. induction items as [|i items IH]; intros out; cbn [read_hops]; [intros [= <-]; constructor|].
  intros (h & Hh%readHop_typed & (hs & Hhs%IH & [= <-])%bind_ok)%bind_ok. by constructor.
Qed.

(** ** What can be thrown *)

Lemma bind_throws {A B : Type} (m : Checked A) (f : A -> Checked B) e :
  m ≫= f = inl e -> m = inl e \/ exists a, m = inr a /\ f a = inl e.
Proof. destruct m; cbn; intros; simplify_eq; eauto. Qed.

(** Reads that throw nothing but [TokenInvalidError]. *)
Definition token_only {A : Type} (m : Checked A) : Prop := forall e, m = inl e -> exists text, e = TokenInvalidError text.

Lemma token_only_bind {A B : Type} (m : Checked A) (f : A -> Checked B) :
  token_only m -> (forall a, token_only (f a)) -> token_only (m ≫= f).
Proof. intros Hm Hf e [He|(a & _ & He)]%bind_throws; [by apply Hm|by eapply Hf]. Qed.

Ltac thrown := unfold invalid, throw, mret, checked_ret in *; intros; simplify_eq; by eexists.

Lemma token_only_requiredString payload name : token_only (requiredString payload name).
Proof. intros e. unfold requiredString. repeat case_match; thrown. Qed.

Lemma token_only_optionalInteger payload name : token_only (optionalInteger payload name).
Proof. intros e. unfold optionalInteger. repeat case_match; thrown. Qed.

Lemma token_only_requiredInteger payload name : token_only (requiredInteger payload name).
Proof.
  apply token_only_bind; [apply token_only_optionalInteger|]. intros [n|] e; thrown.
Qed.

Lemma token_only_read_strings name values : token_only (read_strings name values).
Proof.
  induction values as [|v values IH]; [done|]. cbn [read_strings].
  destruct v; try (intros e; thrown). case_bool_decide; [intros e; thrown|].
  apply token_only_bind; [done|]. by intros a e.
Qed.

Lemma token_only_readStringList v name : token_only (readStringList v name).
Proof.
  unfold readStringList. destruct v; try (intros e; thrown). apply token_only_bind; [apply token_only_read_strings|]. by intros a e.
Qed.

Lemma token_only_check ok text : token_only (check ok (TokenInvalidError text)).
Proof. intros e. unfold check. destruct ok; thrown. Qed.

#[local] Hint Resolve token_only_requiredString token_only_requiredInteger token_only_readStringList token_only_check : caracal.

(** ** Declared types and configured requirements *)

(** What [Claims] declares, as far as the values go. *)
Record well_typed (c : Claims) : Prop := {
  wt_required : Forall (fun s => s <> "") [c.(sub); c.(c_zoneId); c.(clientId); c.(authorityRecordId); c.(rootAuthorityRecordId); c.(jti)];
  wt_use : c.(use) ∈ [MANDATE_USE_SESSION; MANDATE_USE_RESOURCE];
  wt_subType : c.(subType) ∈ ["user"; "application"];
  wt_times : 0 <= c.(issuedAt) /\ 0 <= c.(expiresAt);
  wt_targets : match c.(targetResources) with Some xs => Forall (fun s => s <> "") xs | None => True end;
  wt_optional : Forall opt_string [c.(sessionId); c.(delegationId); c.(sourceSessionId); c.(targetSessionId)];
  wt_path : match c.(delegationPath) with Some xs => Forall (fun s => s <> "") xs | None => True end;
  wt_chain : match c.(delegationChain) with Some hops => hops <> [] /\ Forall hop_typed hops | None => True end;
  wt_epoch : 0 <= default_to 0 c.(graphEpoch);
  wt_hops : 0 <= default_to 0 c.(hopCount)
}.

Definition hop_limit (config : JwtConfig) : Z :=
  match config.(maxHopCount) with
  | Some n => if 0 <? n then n else DEFAULT_MAX_HOP_COUNT
  | None => DEFAULT_MAX_HOP_COUNT
  end.

Definition chain_has (c : Claims) (app : string) : Prop :=
  exists hops h, c.(delegationChain) = Some hops /\ h ∈ hops /\ h.(hop_applicationId) = app.

(** What the configuration demands of the claims. *)
Record meets (config : JwtConfig) (c : Claims) : Prop := {
  mt_zone : c.(c_zoneId) = config.(zoneId);
  mt_use : forall u, config.(requiredUse) = Some u -> u = "" \/ c.(use) = u;
  mt_scopes : forall s, s ∈ default_to [] config.(requiredScopes) -> hasScope (Some c.(scope)) s = true;
  mt_targets : forall s, s ∈ default_to [] config.(requiredTargets) -> s ∈ default_to [] c.(targetResources);
  mt_session : config.(requireSession) = Some true -> c.(sessionId) <> None;
  mt_delegation : config.(requireDelegation) = Some true -> c.(delegationId) <> None;
  mt_hops : default_to 0 c.(hopCount) <= hop_limit config;
  mt_chain : forall a, a ∈ default_to [] config.(requireChainContains) -> chain_has c a
}.

(** The claims the decisions of the other components rest on are those of the payload. *)
Definition reads_payload (payload : Payload) (c : Claims) : Prop :=
  json_get "sub" (JObj payload) = JStr c.(sub) /\ json_get "client_id" (JObj payload) = JStr c.(clientId)
  /\ json_get "zone_id" (JObj payload) = JStr c.(c_zoneId) /\ json_get "sid" (JObj payload) = JStr c.(authorityRecordId)
  /\ json_get "root_sid" (JObj payload) = JStr c.(rootAuthorityRecordId) /\ json_get "use" (JObj payload) = JStr c.(use)
  /\ json_get "exp" (JObj payload) = JNum c.(expiresAt)
  /\ (forall s, json_get "agent_session_id" (JObj payload) = JStr s -> s <> "" -> c.(sessionId) = Some s)
  /\ (forall s, json_get "delegation_edge_id" (JObj payload) = JStr s -> s <> "" -> c.(delegationId) = Some s)
  /\ (forall n, json_get "delegation_graph_epoch" (JObj payload) = JNum n -> c.(graphEpoch) = Some n).

(** Peels the next read or check off an accepted run. *)
Ltac unbind H x Hx := apply bind_ok in H as (x & Hx & H).

Lemma chain_found (o : option (list ChainHop)) a :
  match o with Some hops => existsb (fun h => bool_decide (h.(hop_applicationId) = a)) hops | None => false end = true ->
  exists hops h, o = Some hops /\ h ∈ hops /\ h.(hop_applicationId) = a.
Proof.
  destruct o as [hops|]; [|done]. intros (h & Hin & Hh)%existsb_exists. exists hops, h.
  rewrite list_elem_of_In. by bool_props.
Qed.

Lemma opt_string_read payload name o s :
  optionalString payload name = inr o -> json_get name (JObj payload) = JStr s -> s <> "" -> o = Some s.
Proof. intros [[-> Ho]|(s' & -> & _ & Hs)]%optionalString_ok Hj Hne; [|congruence].
  destruct Ho as [Ho|[Ho|Ho]]; congruence. Qed.

Lemma opt_integer_nonneg payload name o : optionalInteger payload name = inr o -> 0 <= default_to 0 o.
Proof. by intros [[-> _]|(n & -> & ? & _)]%optionalInteger_ok. Qed.

Lemma read_claims_ok config payload c :
  read_claims config payload = inr c -> well_typed c /\ meets config c /\ reads_payload payload c.
Proof.
  unfold read_claims. intros H.
  unbind H jti' Hjti. apply requiredString_ok in Hjti as [_ Hjti]. unbind H sub' Hsub. apply requiredString_ok in Hsub as [Psub Hsub].
  unbind H client Hcl. apply requiredString_ok in Hcl as [Pcl Hcl]. unbind H sid Hsid. apply requiredString_ok in Hsid as [Psid Hsid].
  unbind H root Hroot. apply requiredString_ok in Hroot as [Proot Hroot]. unbind H use' Huse. apply requiredString_ok in Huse as [Puse Huse].
  unbind H u1 Hu1. apply check_ok in Hu1. unbind H st Hst. apply requiredString_ok in Hst as [_ Hst].
  unbind H u2 Hu2. apply check_ok in Hu2. unbind H iat Hiat. apply requiredInteger_ok in Hiat as [Hiat _].
  unbind H exp Hexp. apply requiredInteger_ok in Hexp as [Hexp Pexp]. unbind H scp Hscp. unbind H targets Htg. apply readStringList_ok in Htg.
  unbind H zone Hzone.
  assert (json_get "zone_id" (JObj payload) = JStr zone /\ zone <> "" /\ zone = config.(zoneId)) as (Pzone & Hz0 & Hz).
  { unfold throw in Hzone. destruct (json_get "zone_id" _) as [| | | | | |z| |]; try discriminate. destruct (bool_decide (z = "") || _) eqn:E; [discriminate|]. injection Hzone as <-. bool_props. by subst. }
  unbind H u3 Hu3. apply check_ok in Hu3. unbind H u4 Hu4. apply check_all_ok in Hu4. unbind H u5 Hu5. apply check_all_ok in Hu5.
  unbind H ses Hses. unbind H del Hdel. unbind H src Hsrc. unbind H tgt Htgt. unbind H path Hpath. apply readStringList_ok in Hpath.
  unbind H chain Hchain. apply readChain_typed in Hchain. unbind H ep Hep. unbind H hop Hhop.
  unbind H u6 Hu6. apply check_ok in Hu6. unbind H u7 Hu7. apply check_ok in Hu7. unbind H u8 Hu8. apply check_ok in Hu8.
  unbind H u9 Hu9. apply check_all_ok in Hu9. injection H as <-. split_and!.
  - split; cbn; try done.
    + repeat (constructor; [done|]). constructor.
    + apply orb_true_iff in Hu1 as [Hx|Hx]; bool_props; subst; set_solver.
    + apply orb_true_iff in Hu2 as [Hx|Hx]; bool_props; subst; set_solver.
    + destruct targets; [by destruct Htg|done].
    + repeat (constructor; [by eapply optionalString_typed|]). constructor.
    + destruct path; [by destruct Hpath|done].
    + by eapply opt_integer_nonneg.
    + by eapply opt_integer_nonneg.
  - split; cbn; try done.
    + intros u Hu. rewrite Hu in Hu3. apply orb_true_iff in Hu3 as [Hx|Hx]; bool_props; auto.
    + intros s Hs. by apply (proj1 (Forall_forall _ _) Hu4 s).
    + intros s Hs. apply (proj1 (Forall_forall _ _) Hu5 s) in Hs. destruct targets; [|done]. by bool_props.
    + intros Hr. rewrite Hr in Hu6. cbn in Hu6. by bool_props.
    + intros Hr. rewrite Hr in Hu7. cbn in Hu7. by bool_props.
    + by apply Z.leb_le in Hu8.
    + intros a Ha. apply (proj1 (Forall_forall _ _) Hu9 a), chain_found in Ha. done.
  - unfold reads_payload. cbn -[json_get]. split_and!; try done.
    + intros s. by apply opt_string_read.
    + intros s. by apply opt_string_read.
    + intros n Hn. destruct (optionalInteger_ok _ _ _ Hep) as [[-> Ho]|(n' & -> & _ & Hn')]; [|congruence]. destruct Ho; congruence.
Qed.

(** An error other than [TokenInvalidError] is thrown past the reads that throw only that. *)
Lemma past {A B : Type} (m : Checked A) (f : A -> Checked B) e :
  token_only m -> (forall text, e <> TokenInvalidError text) -> m ≫= f = inl e -> exists a, m = inr a /\ f a = inl e.
Proof. intros Hm He [Hx|Hx]%bind_throws; [|done]. destruct (Hm e Hx) as [text ->]. by destruct (He text). Qed.

(** An error that is neither [TokenInvalidError] nor [ZoneInvalidError] is thrown only for
    a payload that names the configured zone. *)
Lemma thrown_in_zone config payload e :
  read_claims config payload = inl e -> e <> ZoneInvalidError -> (forall text, e <> TokenInvalidError text) ->
  json_get "zone_id" (JObj payload) = JStr config.(zoneId) /\ config.(zoneId) <> "".
Proof.
  unfold read_claims. intros H Hz He.
  do 11 (apply past in H as (? & _ & H); [|solve [auto with caracal]|done]).
  apply past in H as (? & _ & H); [|intros e0; destruct (json_get "scope" (JObj payload)); thrown|done].
  apply past in H as (? & _ & H); [|auto with caracal|done].
  apply bind_throws in H as [H|(zone & H & _)]; unfold throw in H;
    (destruct (json_get "zone_id" _) as [| | | | | |z| |]; try (by simplify_eq));
    destruct (bool_decide (z = "") || _) eqn:E; try (by simplify_eq).
  bool_props. by subst.
Qed.

Section theorems.
Context `{JwtVerifier}.

(** The payload [jwtVerify] accepted for the configured issuer, audience and zone. *)
Definition verified_payload (t : Z) (token : string) (config : JwtConfig) (keySet : option KeySet) (payload : Payload) : Prop :=
  exists ks, keySet = Some ks
  /\ jwtVerify token ks (MkVerifyOptions config.(issuer) config.(audience) ["ES256"] REQUIRED_CLAIMS JWT_CLOCK_TOLERANCE_SECONDS) t = Some payload.

Lemma verify_ok t token config keySet c :
  verify t token config keySet = inr c ->
  well_typed c /\ meets config c /\ exists payload, verified_payload t token config keySet payload /\ reads_payload payload c.
Proof.
  unfold verify, verified_payload. case_bool_decide; [done|]. destruct keySet as [ks|]; [|done].
  destruct (jwtVerify _ _ _ _) as [payload|] eqn:Hj; [|done].
  intros (Ht & Hm & Hp)%read_claims_ok. split_and!; [done|done|]. eauto.
Qed.

(** C40. Accepted mandates are well typed: whatever values the payload of a verified token
    holds, the claims [verify] returns have the types they declare: required claims are
    non-empty strings, the use and subject type are known ones, times, epoch and hop count
    are non-negative integers, and lists hold non-empty strings. *)
Theorem verify_well_typed t token config keySet c :
  verify t token config keySet = inr c -> well_typed c.
Proof. intros (Ht & _)%verify_ok. exact Ht. Qed.

(** Accepted mandates meet the verifier's configuration: the signature was checked with
    the key set of the configured zone and the claim names that zone; the use, every
    required scope, target, Session, delegation and chain member is there, and the hop
    count is within the limit; and the claims are those of the verified payload. *)
Theorem verify_enforces_config t token config keySet c :
  verify t token config keySet = inr c ->
  meets config c /\ exists payload, verified_payload t token config keySet payload /\ reads_payload payload c.
Proof. intros (_ & Hm)%verify_ok. exact Hm. Qed.

End theorems.

(** ** Reading claims back *)

Definition json_list (o : option (list string)) : json := match o with Some xs => JArr (JStr <$> xs) | None => JUndefined end.
Definition json_opt (o : option string) : json := match o with Some s => JStr s | None => JUndefined end.
Definition json_int (o : option Z) : json := match o with Some n => JNum n | None => JUndefined end.
Definition json_hop (h : ChainHop) : json :=
  JObj [("application_id", JStr h.(hop_applicationId)); ("agent_session_id", json_opt h.(hop_sessionId));
        ("delegation_edge_id", json_opt h.(hop_delegationId))].

(** The payload that states the claims. *)
Definition claims_payload (c : Claims) : Payload :=
  [("jti", JStr c.(jti)); ("sub", JStr c.(sub)); ("client_id", JStr c.(clientId)); ("sid", JStr c.(authorityRecordId));
   ("root_sid", JStr c.(rootAuthorityRecordId)); ("use", JStr c.(use)); ("sub_type", JStr c.(subType));
   ("iat", JNum c.(issuedAt)); ("exp", JNum c.(expiresAt)); ("scope", JStr c.(scope)); ("target", json_list c.(targetResources));
   ("zone_id", JStr c.(c_zoneId)); ("agent_session_id", json_opt c.(sessionId)); ("delegation_edge_id", json_opt c.(delegationId));
   ("source_session_id", json_opt c.(sourceSessionId)); ("target_session_id", json_opt c.(targetSessionId));
   ("delegation_path", json_list c.(delegationPath));
   ("delegation_chain", match c.(delegationChain) with Some hops => JArr (json_hop <$> hops) | None => JUndefined end);
   ("delegation_graph_epoch", json_int c.(graphEpoch)); ("hop_count", json_int c.(hopCount))].

Lemma optionalString_back payload name o :
  json_get name (JObj payload) = json_opt o -> opt_string o -> optionalString payload name = inr o.
Proof.
  unfold optionalString. intros ->. destruct o as [s|]; [|done]. unfold opt_string. intros Hs. cbn.
  rewrite bool_decide_eq_false_2 by congruence. done.
Qed.

Lemma optionalInteger_back payload name o :
  json_get name (JObj payload) = json_int o -> 0 <= default_to 0 o -> optionalInteger payload name = inr o.
Proof.
  unfold optionalInteger. intros ->. destruct o as [n|]; [|done]. cbn. intros Hn. by rewrite (proj2 (Z.ltb_ge n 0)).
Qed.

Lemma requiredInteger_back payload name n :
  json_get name (JObj payload) = JNum n -> 0 <= n -> requiredInteger payload name = inr n.
Proof.
  intros Hj Hn. unfold requiredInteger. by rewrite (optionalInteger_back payload name (Some n)).
Qed.

Lemma readStringList_back name o :
  match o with Some xs => Forall (fun s => s <> "") xs | None => True end -> readStringList (json_list o) name = inr o.
Proof.
  destruct o as [xs|]; [|done]. intros Hx. cbn. by rewrite (proj2 (read_strings_ok name (JStr <$> xs) xs)).
Qed.

Lemma readChain_back o :
  match o with Some hops => hops <> [] /\ Forall hop_typed hops | None => True end ->
  readChain (match o with Some hops => JArr (json_hop <$> hops) | None => JUndefined end) = inr o.
Proof.
  destruct o as [hops|]; [|done]. intros [Hne Ht]. cbn [readChain].
  assert (read_hops (json_hop <$> hops) = inr hops) as ->.
  - clear Hne. induction Ht as [|[a s d] hops (Ha & Hs & Hd) Ht IH]; [done|]. cbn [fmap list_fmap read_hops readHop json_hop].
    rewrite (proj2 (requiredString_ok _ "application_id" a)) by done.
    cbn [mbind checked_bind hop_applicationId hop_sessionId hop_delegationId].
    rewrite (optionalString_back _ "agent_session_id" s) by done. cbn [mbind checked_bind].
    rewrite (optionalString_back _ "delegation_edge_id" d) by done. cbn [mbind checked_bind mret checked_ret].
    change (list_fmap ChainHop json json_hop hops) with (json_hop <$> hops). by rewrite IH.
  - cbn. rewrite bool_decide_eq_false_2; [done|]. by destruct hops.
Qed.

Lemma check_true ok e : ok = true -> check ok e = inr tt.
Proof. by intros ->. Qed.

Lemma requiredString_back payload name s :
  json_get name (JObj payload) = JStr s -> s <> "" -> requiredString payload name = inr s.
Proof. intros. by apply requiredString_ok. Qed.

(** Takes the next read, or the next check, of [read_claims]. *)
Ltac next lem := apply bind_ok; eexists; split; [exact lem|cbn beta].
Ltac next_check := apply bind_ok; exists tt; split; [first [apply check_true|apply check_all_ok, Forall_forall]|cbn beta].

(** Nothing well formed is refused: every well-typed set of claims that meets the
    configuration is read back unchanged from the payload that states it. *)
Theorem claims_read_back config c :
  well_typed c -> meets config c -> read_claims config (claims_payload c) = inr c.
Proof.
  intros [Hreq Huse Hst [Hiat Hexp] Htg Hopt Hpath Hchain Hep Hhop] [Mz Mu Ms Mt Mses Mdel Mh Mch].
  repeat match goal with H : Forall _ (_ :: _) |- _ => apply Forall_cons in H as [? H] end. cbn beta in *.
  assert (c.(use) <> "" /\ c.(subType) <> "") as [Hu0 Ht0].
  { split; intros He; rewrite He in *; [clear - Huse|clear - Hst]; set_solver. }
  unfold read_claims. set (p := claims_payload c).
  next (requiredString_back p "jti" c.(jti) eq_refl ltac:(done)). next (requiredString_back p "sub" c.(sub) eq_refl ltac:(done)).
  next (requiredString_back p "client_id" c.(clientId) eq_refl ltac:(done)).
  next (requiredString_back p "sid" c.(authorityRecordId) eq_refl ltac:(done)).
  next (requiredString_back p "root_sid" c.(rootAuthorityRecordId) eq_refl ltac:(done)).
  next (requiredString_back p "use" c.(use) eq_refl Hu0). next_check.
  1: { apply orb_true_iff. rewrite !bool_decide_eq_true. clear - Huse. set_solver. }
  next (requiredString_back p "sub_type" c.(subType) eq_refl Ht0). next_check.
  1: { apply orb_true_iff. rewrite !bool_decide_eq_true. clear - Hst. set_solver. }
  next (requiredInteger_back p "iat" c.(issuedAt) eq_refl Hiat). next (requiredInteger_back p "exp" c.(expiresAt) eq_refl Hexp).
  apply bind_ok. exists c.(scope). split; [done|].
  change (json_get "target" (JObj p)) with (json_list c.(targetResources)). next (readStringList_back "target" _ Htg).
  apply bind_ok. exists c.(c_zoneId). split.
  1: { change (json_get "zone_id" (JObj p)) with (JStr c.(c_zoneId)). cbn iota.
       by rewrite bool_decide_eq_false_2, bool_decide_eq_true_2 by done. }
  next_check.
  1: { destruct config.(requiredUse) as [u|]; [|done]. apply orb_true_iff. rewrite !bool_decide_eq_true. by apply Mu. }
  next_check; [by auto|]. next_check.
  1: { intros s Hs%Mt. destruct c.(targetResources); [by apply bool_decide_eq_true_2|cbn in Hs; set_solver]. }
  next (optionalString_back p "agent_session_id" c.(sessionId) eq_refl ltac:(done)).
  next (optionalString_back p "delegation_edge_id" c.(delegationId) eq_refl ltac:(done)).
  next (optionalString_back p "source_session_id" c.(sourceSessionId) eq_refl ltac:(done)).
  next (optionalString_back p "target_session_id" c.(targetSessionId) eq_refl ltac:(done)).
  change (json_get "delegation_path" (JObj p)) with (json_list c.(delegationPath)). next (readStringList_back "delegation_path" _ Hpath).
  change (json_get "delegation_chain" (JObj p))
    with (match c.(delegationChain) with Some hops => JArr (json_hop <$> hops) | None => JUndefined end). next (readChain_back _ Hchain).
  next (optionalInteger_back p "delegation_graph_epoch" c.(graphEpoch) eq_refl Hep).
  next (optionalInteger_back p "hop_count" c.(hopCount) eq_refl Hhop).
  next_check.
  1: { destruct config.(requireSession) as [[]|]; [|done|done]. cbn. rewrite bool_decide_eq_false_2; auto. }
  next_check.
  1: { destruct config.(requireDelegation) as [[]|]; [|done|done]. cbn. rewrite bool_decide_eq_false_2; auto. }
  next_check; [by apply Z.leb_le|]. next_check; [|by destruct c]. intros a (hops & h & -> & Hin & Ha)%Mch. apply existsb_exists. exists h.
  rewrite <-list_elem_of_In. split; [done|]. by apply bool_decide_eq_true_2.
Qed.
End IdentityFacts.
