(* ===== verification/Jwks.v ===== *)
(** * The JWKS cache of a resource server

    [packages/identity/ts/src/jwks.ts]: which key set verifies the mandates of an issuer's
    zone.  Key sets are fetched over a transport the issuer's URL has to secure, bounded in
    size, served while fresh, and served stale for a bounded time while one background
    fetch revalidates them.  [fetch], [URL] and the construction of a key set from a
    document are parameters. *)

From Stdlib Require Import Ascii.
From S2P Require Import Prelude.
From S2P Require Import Json.
From S2P Require Import Numbers.
From S2P Require Import Revocation.
Local Open Scope string_scope.
Local Open Scope Z_scope.
Local Open Scope list_scope.

Module Jwks.

Definition DEFAULT_CACHE_TTL_MS : Z := 5 * 60 * 1000.
Definition DEFAULT_MAX_STALE_MS : Z := 10 * 60 * 1000.
Definition MAX_JWKS_BYTES : Z := 256 * 1024.

(** ** Issuers *)

(** [\d{1,3}] after a dot, [n] times, up to the end. *)
Definition is_digit (c : ascii) : bool := match digit_value c with Some _ => true | None => false end.

Fixpoint octets (n : nat) (s : string) {struct n} : bool :=
  match n with
  | O => bool_decide (s = "")
  | S n' =>
      match s with
      | String.String d rest =>
          bool_decide (d = "."%char)
          && match rest with
             | String.String a r1 =>
                 is_digit a
                 && (octets n' r1
                     || match r1 with
                        | String.String b r2 =>
                            is_digit b
                            && (octets n' r2
                                || match r2 with String.String c r3 => is_digit c && octets n' r3 | String.EmptyString => false end)
                        | String.EmptyString => false
                        end)
             | String.EmptyString => false
             end
      | String.EmptyString => false
      end
  end.

(** [/^127(?:\.\d{1,3}){3}$/]. *)
Definition loopback_v4 (host : string) : bool :=
  String.prefix "127" host && octets 3 (String.substring 3 (String.length host - 3) host).

Definition isLoopbackHost (host : string) : bool :=
  if bool_decide (host = "localhost") then true
  else if bool_decide (host = "::1") || bool_decide (host = "[::1]") then true
  else loopback_v4 host.

(** [new URL(text)]: the protocol and the host name; [None] when it throws. *)
Class Url := parse_url : string -> option (string * string).

(** [assertSecureIssuer]; [allowInsecure] is
    [process.env.CARACAL_ALLOW_INSECURE_CONFIG_URLS === 'true']. *)
Definition assertSecureIssuer `{Url} (allowInsecure : bool) (issuer : string) : bool :=
  match parse_url issuer with
  | None => false
  | Some (protocol, hostname) =>
      if bool_decide (protocol = "https:") then true
      else if bool_decide (protocol = "http:") then isLoopbackHost hostname || allowInsecure
      else false
  end.

(** ** Fetching *)

(** [new URLSearchParams({ zone_id })] as text: the form-urlencoded serialiser on UTF-8. *)
Definition form_char (c : ascii) : string :=
  let n := nat_of_ascii c in
  if bool_decide ((48 <= n /\ n <= 57) \/ (65 <= n /\ n <= 90) \/ (97 <= n /\ n <= 122) \/ n = 42 \/ n = 45 \/ n = 46 \/ n = 95)%nat
  then String.String c ""
  else if bool_decide (n = 32)%nat then "+"
  else let digit d := match String.get d "0123456789ABCDEF" with Some x => String.String x "" | None => "" end in
       "%" +:+ digit (n / 16)%nat +:+ digit (n `mod` 16)%nat.

Fixpoint form_encode (s : string) : string :=
  match s with
  | String.EmptyString => ""
  | String.String c rest => form_char c +:+ form_encode rest
  end.

(** [issuer.replace(/\/$/, '')]. *)
Fixpoint drop_slash (s : string) : string :=
  match s with
  | String.EmptyString => ""
  | String.String c rest => if bool_decide (s = "/") then "" else String.String c (drop_slash rest)
  end.

Definition jwks_url (issuer zoneId : string) : string :=
  drop_slash issuer +:+ "/.well-known/jwks.json?zone_id=" +:+ form_encode zoneId.

(** The body of a response: read chunk by chunk, or, without a stream, as a whole. *)
Inductive Body :=
| Chunks (chunks : list string)
| Whole (text : string).

Record Response := MkResponse { ok : bool; content_length : option string; body : Body }.

(** [x > n] for a finite number. *)
Definition finite_above (x : number) (n : Z) : bool :=
  match x with
  | Finite false m e => if 0 <=? e then n <? m * 2 ^ e else n * 2 ^ (- e) <? m
  | _ => false
  end.

(** The reader loop: the bytes read, or [None] once they exceed the limit. *)
Fixpoint read_chunks (size : Z) (chunks : list string) : option string :=
  match chunks with
  | [] => Some ""
  | value :: rest =>
      let size := size + Z.of_nat (String.length value) in
      if MAX_JWKS_BYTES <? size then None
      else match read_chunks size rest with Some bytes => Some (value +:+ bytes) | None => None end
  end.

(** The document of a response, [None] when the code throws. *)
Definition document (res : Response) : option string :=
  if negb res.(ok) then None
  else if finite_above (match res.(content_length) with Some s => Number s | None => Finite false 0 0 end) MAX_JWKS_BYTES then None
  else match res.(body) with Chunks chunks => read_chunks 0 chunks | Whole text => Some text end.

(** [createLocalJWKSet] on a parsed document; [None] when parsing or it throws. *)
Class Keys := {
  KeySet : Type;
  createLocalJWKSet : string -> option KeySet
}.

(** What [fetch] answers for a URL at one time, [None] when it throws or times out. *)
Abbreviation Transport := (string -> option Response).

(** ** The cache *)

Record Options := MkOptions { ttlMs : Z; maxStaleMs : Z; allowInsecure : bool }.

Definition make_options (ttl maxStale : option Z) (insecure : bool) : Options :=
  let ttl := default_to DEFAULT_CACHE_TTL_MS ttl in
  MkOptions ttl (Z.max (default_to DEFAULT_MAX_STALE_MS maxStale) ttl) insecure.

Definition cacheKey (issuer zoneId : string) : string := issuer +:+ String.String (ascii_of_nat 0) zoneId.

Section cache.
Context `{Url} `{Keys} (o : Options).

Record JwksEntry := MkEntry { keySet : KeySet; fetchedAt : Z; revalidating : bool }.

Abbreviation Cache := (gmap string JwksEntry).

(** The fetching half of [fetchAndStore]. *)
Definition fetch_keys (net : Transport) (issuer zoneId : string) : option KeySet :=
  if negb (assertSecureIssuer o.(allowInsecure) issuer) then None
  else if bool_decide (zoneId = "") then None
  else match net (jwks_url issuer zoneId) with
       | None => None
       | Some res => match document res with Some doc => createLocalJWKSet doc | None => None end
       end.

(** [fetchAndStore]; [t] is the clock when the fetch has ended. *)
Definition fetchAndStore (net : Transport) (t : Z) (issuer zoneId : string) (cache : Cache) : Cache * Result KeySet :=
  match fetch_keys net issuer zoneId with
  | Some ks => (<[cacheKey issuer zoneId := MkEntry ks t false]> cache, Ok ks)
  | None => (cache, Throw)
  end.

(** [getKeySet] called at [t]; a fetch it waits for ends at [t'].  The last component
    tells whether it started a background fetch. *)
Definition getKeySet (net : Transport) (t t' : Z) (issuer zoneId : string) (cache : Cache) : Cache * Result KeySet * bool :=
  let key := cacheKey issuer zoneId in
  match cache !! key with
  | Some entry =>
      let age := t - entry.(fetchedAt) in
      if age <? millis o.(ttlMs) then (cache, Ok entry.(keySet), false)
      else if millis o.(maxStaleMs) <? age then (fetchAndStore net t' issuer zoneId cache, false)
      else if entry.(revalidating) then (cache, Ok entry.(keySet), false)
      else (<[key := MkEntry entry.(keySet) entry.(fetchedAt) true]> cache, Ok entry.(keySet), true)
  | None => (fetchAndStore net t' issuer zoneId cache, false)
  end.

(** The background fetch ends at [t]: a failure keeps what is there, and the entry of the
    key, whichever it is now, is no longer being revalidated. *)
Definition revalidated (net : Transport) (t : Z) (issuer zoneId : string) (cache : Cache) : Cache :=
  let '(cache, _) := fetchAndStore net t issuer zoneId cache in
  match cache !! cacheKey issuer zoneId with
  | Some entry => <[cacheKey issuer zoneId := MkEntry entry.(keySet) entry.(fetchedAt) false]> cache
  | None => cache
  end.

(** [clear]: one zone of an issuer, all of an issuer, or everything. *)
Definition clear (issuer zoneId : option string) (cache : Cache) : Cache :=
  let issuer := default_to "" issuer in
  let zoneId := default_to "" zoneId in
  if bool_decide (issuer = "") then ∅
  else if bool_decide (zoneId = "") then
    filter (fun kv => String.prefix (issuer +:+ String.String (ascii_of_nat 0) "") kv.1 = false) cache
  else delete (cacheKey issuer zoneId) cache.

(** ** What is served *)

(** One use of the cache, with the transport of that moment. *)
Inductive Use :=
| UGet (net : Transport) (t t' : Z) (issuer zoneId : string)
| UBackground (net : Transport) (t : Z) (issuer zoneId : string)
| UClear (issuer zoneId : option string).

(** A key set that some fetch for the issuer's zone returned, when it ended. *)
Definition Fetched : Type := string * Z * KeySet.

Definition fetched (net : Transport) (t : Z) (issuer zoneId : string) : list Fetched :=
  match fetch_keys net issuer zoneId with Some ks => [(cacheKey issuer zoneId, t, ks)] | None => [] end.

(** What a use leaves in the cache and adds to the record of fetches. *)
Definition use_cache (u : Use) (st : Cache * list Fetched) : Cache * list Fetched :=
  let '(cache, log) := st in
  match u with
  | UGet net t t' issuer zoneId => ((getKeySet net t t' issuer zoneId cache).1.1, fetched net t' issuer zoneId ++ log)
  | UBackground net t issuer zoneId => (revalidated net t issuer zoneId cache, fetched net t issuer zoneId ++ log)
  | UClear issuer zoneId => (clear issuer zoneId cache, log)
  end.

(** Every entry is what a fetch for its key returned at the time it says. *)
Definition recorded (cache : Cache) (log : list Fetched) : Prop :=
  forall key e, cache !! key = Some e -> (key, e.(fetchedAt), e.(keySet)) ∈ log.

Lemma recorded_empty : recorded ∅ [].
Proof. intros key e He. by rewrite lookup_empty in He. Qed.

Lemma recorded_more cache log more : recorded cache log -> recorded cache (more ++ log).
Proof. intros Hr key e He. apply elem_of_app. right. by apply Hr. Qed.

Lemma fetchAndStore_recorded net t issuer zoneId cache log :
  recorded cache log -> recorded (fetchAndStore net t issuer zoneId cache).1 (fetched net t issuer zoneId ++ log).
Proof.
  intros Hr. unfold fetchAndStore, fetched. destruct (fetch_keys net issuer zoneId) as [ks|]; [|done].
  intros key e. cbn. destruct (decide (cacheKey issuer zoneId = key)) as [->|Hne].
  - rewrite lookup_insert_eq. intros [= <-]. cbn. by left.
  - rewrite lookup_insert_ne by done. intros He. right. by apply Hr.
Qed.

Lemma recorded_flag cache log key e b :
  recorded cache log -> cache !! key = Some e -> recorded (<[key := MkEntry e.(keySet) e.(fetchedAt) b]> cache) log.
Proof.
  intros Hr He key' e'. destruct (decide (key = key')) as [->|Hne].
  - rewrite lookup_insert_eq. intros [= <-]. cbn. by apply (Hr key' e).
  - rewrite lookup_insert_ne by done. apply Hr.
Qed.

Lemma use_recorded u cache log : recorded cache log -> recorded (use_cache u (cache, log)).1 (use_cache u (cache, log)).2.
Proof.
  intros Hr. destruct u as [net t t' issuer zoneId|net t issuer zoneId|issuer zoneId]; cbn [use_cache fst snd].
  - unfold getKeySet. destruct (cache !! cacheKey issuer zoneId) as [e|] eqn:He; [|by apply fetchAndStore_recorded].
    destruct (_ <? millis _); [by apply recorded_more|]. destruct (_ <? _); [by apply fetchAndStore_recorded|].
    destruct (revalidating e); apply recorded_more; [done|]. by apply recorded_flag.
  - unfold revalidated. pose proof (fetchAndStore_recorded net t issuer zoneId cache log Hr) as Hf.
    destruct (fetchAndStore net t issuer zoneId cache) as [cache1 r]. cbn in Hf.
    destruct (cache1 !! cacheKey issuer zoneId) as [e|] eqn:He; [by apply recorded_flag|done].
  - unfold clear. case_bool_decide; [intros key e He; by rewrite lookup_empty in He|]. case_bool_decide.
    + intros key e [He _]%map_lookup_filter_Some. by apply Hr.
    + intros key e [_ He]%lookup_delete_Some. by apply Hr.
Qed.

(** Keys are never older than the stale bound: along any run of lookups, background
    fetches and clears, a key set served at [t] was returned by a fetch for that very
    issuer and zone, either the one the lookup waited for or one that ended at most
    [maxStaleMs] before [t]; and while a revalidation of an entry is under way no second
    one is started. *)
Theorem served_keys_recent (uses : list Use) net t t' issuer zoneId ks :
  let '(cache, log) := foldl (fun st u => use_cache u st) (∅, []) uses in
  let '(cache', r, started) := getKeySet net t t' issuer zoneId cache in
  (r = Ok ks ->
   (fetch_keys net issuer zoneId = Some ks)
   \/ (exists t0, (cacheKey issuer zoneId, t0, ks) ∈ log /\ t - t0 <= Z.max (millis o.(maxStaleMs)) (millis o.(ttlMs))))
  /\ (forall e, cache !! cacheKey issuer zoneId = Some e -> e.(revalidating) = true -> started = false).
Proof.
  assert (forall st, recorded st.1 st.2 -> recorded (foldl (fun st u => use_cache u st) st uses).1
    (foldl (fun st u => use_cache u st) st uses).2) as Hrun.
  { induction uses as [|u uses IH]; intros [cache log] Hr; [done|]. cbn [foldl]. apply IH. by apply use_recorded. }
  specialize (Hrun (∅, []) recorded_empty). destruct (foldl _ _ uses) as [cache log]. cbn [fst snd] in Hrun.
  unfold getKeySet, fetchAndStore. destruct (cache !! cacheKey issuer zoneId) as [e|] eqn:He.
  2: { destruct (fetch_keys net issuer zoneId); (split; [|done]); [intros [= <-]; by left|done]. }
  destruct (Z.ltb_spec (t - e.(fetchedAt)) (millis o.(ttlMs))).
  { split; [|done]. intros [= <-]. right. exists e.(fetchedAt). split; [by apply Hrun|lia]. }
  destruct (Z.ltb_spec (millis o.(maxStaleMs)) (t - e.(fetchedAt))).
  { destruct (fetch_keys net issuer zoneId); (split; [|done]); [intros [= <-]; by left|done]. }
  destruct (revalidating e) eqn:Ev; (split; [|intros e' [= <-]; congruence]);
    (intros [= <-]; right; exists e.(fetchedAt); split; [by apply Hrun|lia]).
Qed.
End cache.

Lemma length_append (a b : string) : String.length (a +:+ b) = (String.length a + String.length b)%nat.
Proof. induction a as [|c a IH]; [done|]. exact (f_equal S IH). Qed.

(** A streamed document never exceeds the limit. *)
Lemma read_chunks_bounded chunks size bytes :
  size <= MAX_JWKS_BYTES -> read_chunks size chunks = Some bytes -> size + Z.of_nat (String.length bytes) <= MAX_JWKS_BYTES.
Proof.
  revert size bytes. induction chunks as [|c chunks IH]; intros size bytes Hs; cbn [read_chunks].
  { intros [= <-]. change (Z.of_nat (String.length "")) with 0. lia. }
  destruct (Z.ltb_spec MAX_JWKS_BYTES (size + Z.of_nat (String.length c))); [done|].
  destruct (read_chunks _ chunks) as [rest|] eqn:E; [|done]. intros [= <-].
  specialize (IH (size + Z.of_nat (String.length c)) rest ltac:(lia) E). rewrite length_append. lia.
Qed.

Example jwks_url_sample : jwks_url "https://sts.example/" "z 1/ä" = "https://sts.example/.well-known/jwks.json?zone_id=z+1%2F%C3%A4".
Proof. vm_compute. reflexivity. Qed.

Example loopback_samples :
  isLoopbackHost <$> ["127.0.0.1"; "127.1.2.345"; "127.0.0.1.evil.example"; "127.0.0"; "localhost"; "[::1]"; "example.com"]
  = [true; true; false; false; true; true; false].
Proof. vm_compute. reflexivity. Qed.
End Jwks.
