(* ===== verification/Mandate.v ===== *)
(** * Authenticating a mandate

    [packages/verify/ts/src/authenticate.ts], [types.ts] and [fetch.ts]: extracting the
    bearer token, verifying it, consulting the revocation store, and answering.  The
    store is any [RevocationStore]. *)

From Stdlib Require Import Ascii.
From S2P Require Import Prelude.
From S2P Require Import Json.
From S2P Require Import Scope.
From S2P Require Import Numbers.
From S2P Require Import Revocation.
From S2P Require Import Identity.
Local Open Scope string_scope.
Local Open Scope Z_scope.
Local Open Scope list_scope.

Module Mandate.
Import Identity.

Inductive AuthErrorCode :=
| missing_token
| invalid_token
| invalid_zone
| insufficient_scope
| session_revoked
| delegation_stale
| session_required
| delegation_required
| chain_mismatch
| hop_count_exceeded.

#[export] Instance AuthErrorCode_eq_dec : EqDecision AuthErrorCode.
Proof. solve_decision. Defined.

Definition code_text (c : AuthErrorCode) : string :=
  match c with
  | missing_token => "missing_token"
  | invalid_token => "invalid_token"
  | invalid_zone => "invalid_zone"
  | insufficient_scope => "insufficient_scope"
  | session_revoked => "session_revoked"
  | delegation_stale => "delegation_stale"
  | session_required => "session_required"
  | delegation_required => "delegation_required"
  | chain_mismatch => "chain_mismatch"
  | hop_count_exceeded => "hop_count_exceeded"
  end.

Record AuthError := MkAuthError { code : AuthErrorCode; description : string; hint : option string }.

Inductive AuthResult :=
| Accepted (principal : Claims)
| Refused (error : AuthError).

Definition httpStatusForAuthError (c : AuthErrorCode) : Z :=
  match c with
  | insufficient_scope | session_required | delegation_required | chain_mismatch | hop_count_exceeded => 403
  | _ => 401
  end.

Definition defaultDescription (c : AuthErrorCode) : string :=
  match c with
  | missing_token => "Missing bearer token"
  | invalid_zone => "Token zone validation failed"
  | insufficient_scope => "Required scope is missing"
  | session_revoked => "Session revoked"
  | delegation_stale => "Delegation graph changed"
  | session_required => "Session required"
  | delegation_required => "Delegation required"
  | chain_mismatch => "Delegation chain validation failed"
  | hop_count_exceeded => "Hop count exceeded"
  | invalid_token => "Token validation failed"
  end.

Definition defaultHint (c : AuthErrorCode) : string :=
  match c with
  | missing_token => "Send Authorization: Bearer <Caracal mandate>."
  | invalid_zone => "Check the configured zoneId and the mandate zone_id claim."
  | insufficient_scope => "Request a mandate that includes every required scope for this route."
  | session_revoked => "Refresh the mandate or start a new authorized session."
  | delegation_stale => "Refresh the mandate so delegated authority is evaluated against the latest graph."
  | session_required => "Use a resource mandate issued for a governed Session."
  | delegation_required => "Use a mandate produced by a delegated grant flow."
  | chain_mismatch => "Check requireChainContains and the mandate delegation chain."
  | hop_count_exceeded => "Reduce delegation depth or raise maxHopCount deliberately."
  | invalid_token => "Check issuer, audience, signature, expiry, token use, scopes, and targets."
  end.

Definition authError (c : AuthErrorCode) (text : option string) : AuthError :=
  MkAuthError c (default_to (defaultDescription c) text) (Some (defaultHint c)).

(** ** Bearer headers *)

Definition BEARER_SCHEME : string := "bearer".

Definition lower_char (c : ascii) : ascii :=
  let n := nat_of_ascii c in if bool_decide (65 <= n /\ n <= 90)%nat then ascii_of_nat (n + 32) else c.

(** [toLowerCase] on ASCII; no other character becomes a letter of the scheme. *)
Fixpoint lower (s : string) : string :=
  match s with
  | String.EmptyString => ""
  | String.String c rest => String.String (lower_char c) (lower rest)
  end.

Definition extractBearer (authHeader : option string) : option string :=
  match authHeader with
  | None => None
  | Some h =>
      if negb (bool_decide (lower (String.substring 0 6 h) = BEARER_SCHEME)) then None
      else
        let value := String.substring 6 (String.length h - 6) h in
        if bool_decide (js_length value = js_length (trim_start value 0)) then None
        else let token := trim value in if bool_decide (token = "") then None else Some token
  end.

(** ** Active authority *)

(** [revocationAnchors]. *)
Definition revocationAnchors (claims : Claims) : list string :=
  distinct (filter (fun s => s <> "")
    ([claims.(authorityRecordId); claims.(rootAuthorityRecordId)]
     ++ match claims.(sessionId) with Some s => [s] | None => [] end
     ++ match claims.(delegationId) with Some s => [s] | None => [] end)).

Section store.
Context {S : Type} `{RevocationStore S}.

(** [Promise.all] of the reads: every anchor is read, the [i]-th store call of the
    request with the [i]-th of [calls], and one rejection rejects them all. *)
Fixpoint read_anchors (calls : nat -> Call) (i : nat) (anchors : list string) (s : S) : S * Result (list bool) :=
  match anchors with
  | [] => (s, Ok [])
  | a :: rest =>
      let '(s, r) := isRevoked (calls i) a s in
      let '(s, rs) := read_anchors calls (1 + i)%nat rest s in
      (s, match r, rs with Ok b, Ok bs => Ok (b :: bs) | _, _ => Throw end)
  end.

Definition graphEpochError (c : Call) (claims : Claims) (s : S) : S * Result (option AuthError) :=
  match claims.(graphEpoch), currentDelegationEpoch with
  | Some epoch, Some current =>
      let '(s, r) := current c claims.(c_zoneId) s in
      (s, match r with
          | Ok n => Ok (if epoch <? n then Some (authError delegation_stale None) else None)
          | Throw => Throw
          end)
  | _, _ => (s, Ok None)
  end.

(** [checkActiveAuthority]; [nowMs] is the wall clock in milliseconds. *)
Definition checkActiveAuthority (calls : nat -> Call) (nowMs : Z) (claims : Claims) (s : S) : S * Result (option AuthError) :=
  if bool_decide (claims.(authorityRecordId) = "") then (s, Ok (Some (authError invalid_token None)))
  else if claims.(expiresAt) * 1000 <=? nowMs then
    (s, Ok (Some (authError invalid_token (Some "Token expired during execution"))))
  else
    let anchors := revocationAnchors claims in
    let '(s, checks) := read_anchors calls 0 anchors s in
    match checks with
    | Throw => (s, Throw)
    | Ok bs =>
        if existsb id bs then (s, Ok (Some (authError session_revoked None)))
        else graphEpochError (calls (length anchors)) claims s
    end.

Context `{JwtVerifier}.

(** [AuthDeps] without the store's state: the configuration and whether a store is there. *)
Record AuthDeps := MkAuthDeps { config : JwtConfig; has_revocations : bool }.

Definition set_requiredUse (u : option string) (c : JwtConfig) : JwtConfig :=
  MkJwtConfig c.(issuer) c.(audience) c.(zoneId) c.(requiredScopes) c.(requiredTargets) u c.(requireSession)
    c.(requireDelegation) c.(requireChainContains) c.(maxHopCount).

(** The [catch] clauses. *)
Definition refusal (e : VerifyError) : AuthError :=
  match e with
  | ScopeInsufficientError _ => authError insufficient_scope (Some (message e))
  | SessionRequiredError => authError session_required (Some (message e))
  | DelegationRequiredError => authError delegation_required (Some (message e))
  | ChainMismatchError _ => authError chain_mismatch (Some (message e))
  | HopCountExceededError => authError hop_count_exceeded (Some (message e))
  | ZoneInvalidError => authError invalid_zone None
  | TokenInvalidError _ => authError invalid_token None
  end.

(** The configuration [verify] is called with. *)
Definition effective_config (deps : AuthDeps) : JwtConfig :=
  set_requiredUse (Some (default_to MANDATE_USE_RESOURCE deps.(config).(requiredUse))) deps.(config).

(** [authenticate]: [verifyMs] and [nowMs] are the wall clock at the signature check and
    at the expiry check, [keySet] what the JWKS cache gives. *)
Definition authenticate (calls : nat -> Call) (verifyMs nowMs : Z) (keySet : option KeySet) (token : string)
  (deps : AuthDeps) (s : S) : S * AuthResult :=
  if bool_decide (token = "") then (s, Refused (authError missing_token None))
  else
    match verify verifyMs token (effective_config deps) keySet with
    | inl e => (s, Refused (refusal e))
    | inr claims =>
        if negb deps.(has_revocations) then (s, Refused (authError invalid_token (Some "Revocation store required")))
        else
          let '(s, r) := checkActiveAuthority calls nowMs claims s in
          (s, match r with
              | Ok (Some e) => Refused e
              | Ok None => Accepted claims
              | Throw => Refused (authError invalid_token None)
              end)
    end.

(** [authenticateRequest] on the [authorization] header of a request. *)
Definition authenticateRequest (calls : nat -> Call) (verifyMs nowMs : Z) (keySet : option KeySet) (authHeader : option string)
  (deps : AuthDeps) (s : S) : S * AuthResult :=
  authenticate calls verifyMs nowMs keySet (default_to "" (extractBearer authHeader)) deps s.

(** [AuthOverrides]: a field that is present replaces the default, also by [undefined]. *)
Record AuthOverrides := MkOverrides {
  ov_requiredScopes : option (option (list string));
  ov_requiredTargets : option (option (list string));
  ov_requiredUse : option (option string);
  ov_requireSession : option (option bool);
  ov_requireDelegation : option (option bool);
  ov_requireChainContains : option (option (list string));
  ov_maxHopCount : option (option Z)
}.

(** [{ ...defaults, ...overrides }]. *)
Definition override (deps : AuthDeps) (o : AuthOverrides) : AuthDeps :=
  let c := deps.(config) in
  MkAuthDeps (MkJwtConfig c.(issuer) c.(audience) c.(zoneId)
    (default_to c.(requiredScopes) o.(ov_requiredScopes)) (default_to c.(requiredTargets) o.(ov_requiredTargets))
    (default_to c.(requiredUse) o.(ov_requiredUse)) (default_to c.(requireSession) o.(ov_requireSession))
    (default_to c.(requireDelegation) o.(ov_requireDelegation))
    (default_to c.(requireChainContains) o.(ov_requireChainContains)) (default_to c.(maxHopCount) o.(ov_maxHopCount)))
    deps.(has_revocations).

(** [createMandateVerifier]: a verifier is its defaults and these methods. *)
Definition verifier_authenticate (defaults : AuthDeps) (calls : nat -> Call) (verifyMs nowMs : Z) (keySet : option KeySet)
  (token : string) (o : AuthOverrides) (s : S) : S * AuthResult :=
  authenticate calls verifyMs nowMs keySet token (override defaults o) s.

Definition verifier_authorization (defaults : AuthDeps) (calls : nat -> Call) (verifyMs nowMs : Z) (keySet : option KeySet)
  (authHeader : option string) (o : AuthOverrides) (s : S) : S * AuthResult :=
  authenticate calls verifyMs nowMs keySet (default_to "" (extractBearer authHeader)) (override defaults o) s.

Definition verifier_require (defaults : AuthDeps) (o : AuthOverrides) : AuthDeps := override defaults o.
End store.

(** ** Rendering a refusal *)

Definition authErrorBody (err : AuthError) : json :=
  JObj ([("error", JStr (code_text err.(code))); ("error_description", JStr err.(description))]
        ++ match err.(hint) with
           | Some h => if bool_decide (h = "") then [] else [("error_hint", JStr h)]
           | None => []
           end).

Definition unauthorizedResponse (error : AuthError) : Z * json :=
  (httpStatusForAuthError error.(code), authErrorBody error).

Example extractBearer_samples :
  extractBearer <$> [Some "Bearer  tok "; Some "bEARER tok"; Some "Bearertok"; Some "Basic x"; Some "Bearer   "; None]
  = [Some "tok"; Some "tok"; None; None; None; None].
Proof. vm_compute. reflexivity. Qed.
End Mandate.

(** * Facts about authentication

    Proved against the contract of the revocation store, for any store that honours it:
    a remembered revocation or a newer delegation epoch refuses the mandate whatever the
    network does to the reads, and with delivered reads exactly the verified, unexpired,
    unrevoked and current mandates are accepted. *)

Module MandateFacts.
Import Identity IdentityFacts Mandate.

Lemma elem_of_anchors claims a :
  a ∈ revocationAnchors claims <->
  a <> "" /\ (a = claims.(authorityRecordId) \/ a = claims.(rootAuthorityRecordId)
              \/ claims.(sessionId) = Some a \/ claims.(delegationId) = Some a).
Proof.
  unfold revocationAnchors. rewrite elem_of_distinct, list_elem_of_filter, !elem_of_app.
  destruct claims.(sessionId), claims.(delegationId); set_solver.
Qed.

Section contract.
Context {S : Type} `{RevocationContract S}.

Lemma isRevoked_keeps c a s m :
  rc_covers (OpIsRevoked a) = true -> rc_abs c.(now) s m ->
  rc_abs c.(now) (isRevoked c a s).1 m
  /\ spec_step rc_ttl c (OpIsRevoked a) m (ABool (isRevoked c a s).2) m.
Proof.
  intros Hc Ha. destruct (rc_step c _ s m Hc Ha) as (m' & Hs & Ha'). cbn in Hs, Ha'.
  destruct (isRevoked c a s) as [s' r]. cbn in *. inversion Hs; subst; (split; [done|]); done.
Qed.

(** Reading the anchors leaves the store as it is, and one remembered anchor shows. *)
Lemma read_anchors_keeps calls anchors i s m :
  ordered_calls calls -> Forall (fun a => rc_covers (OpIsRevoked a) = true) anchors -> rc_abs (calls i).(now) s m ->
  rc_abs (calls (i + length anchors)%nat).(now) (read_anchors calls i anchors s).1 m
  /\ (forall a e, a ∈ anchors -> revoked_until a e m -> (forall j, (calls j).(now) < e) ->
      match (read_anchors calls i anchors s).2 with Ok bs => existsb id bs = true | Throw => True end).
Proof.
  intros Ho. revert i s. induction anchors as [|a anchors IH]; intros i s Hc Ha.
  { rewrite Nat.add_0_r. split; [done|set_solver]. }
  apply Forall_cons in Hc as [Hca Hcs]. destruct (isRevoked_keeps (calls i) a s m Hca Ha) as [Ha1 _].
  cbn [read_anchors]. destruct (isRevoked (calls i) a s) as [s1 r] eqn:Er. cbn [fst] in Ha1.
  destruct (IH (1 + i)%nat s1 Hcs) as [Ha2 Hrev]; [eapply rc_later; [apply Ho|done]; lia|].
  destruct (read_anchors calls (1 + i) anchors s1) as [s2 rs]. cbn [fst snd length] in *.
  replace (i + Datatypes.S (length anchors))%nat with (1 + i + length anchors)%nat by lia.
  split; [done|]. intros a' e Hin Hu Ht. destruct r as [b|]; [|done]. destruct rs as [bs|]; [|done].
  apply elem_of_cons in Hin as [->|Hin].
  - pose proof (contract_reads_revoked (calls i) a e s m Hca Ha Hu (Ht i)) as Hne. rewrite Er in Hne. by destruct b.
  - cbn. rewrite (Hrev a' e Hin Hu Ht). by rewrite orb_true_r.
Qed.

(** With every read delivered at one time, each answer is exact. *)
Lemma read_anchors_exact c anchors i s m :
  c.(fate) = Delivered -> Forall (fun a => rc_covers (OpIsRevoked a) = true) anchors -> rc_abs c.(now) s m ->
  (read_anchors (fun _ => c) i anchors s).2 = Ok ((fun a => spec_revoked c.(now) a m) <$> anchors).
Proof.
  intros Hf. revert i s. induction anchors as [|a anchors IH]; intros i s Hc Ha; [done|].
  apply Forall_cons in Hc as [Hca Hcs]. destruct (isRevoked_keeps c a s m Hca Ha) as [Ha1 Hs].
  cbn [read_anchors]. destruct (isRevoked c a s) as [s1 r]. cbn [fst snd] in *.
  specialize (IH (1 + i)%nat s1 Hcs Ha1). destruct (read_anchors _ _ anchors s1) as [s2 rs]. cbn [snd] in *. subst rs.
  inversion Hs; subst; done.
Qed.

Lemma epoch_error_exact c claims s m :
  c.(fate) = Delivered -> rc_covers (OpCurrentEpoch claims.(c_zoneId)) = true -> rc_abs c.(now) s m ->
  ((graphEpochError c claims s).2 = Ok None
   <-> forall n, claims.(graphEpoch) = Some n -> currentDelegationEpoch (S := S) <> None -> spec_epoch c.(now) claims.(c_zoneId) m <= n).
Proof.
  intros Hf Hc Ha. unfold graphEpochError. destruct claims.(graphEpoch) as [n|]; [|by split].
  destruct (rc_step c _ s m Hc Ha) as (m' & Hs & _). cbn in Hs.
  destruct currentDelegationEpoch as [f|]; [|split; [done|done]].
  destruct (f c claims.(c_zoneId) s) as [s' r]. cbn in *. inversion Hs; subst; try done.
  destruct (Z.ltb_spec n (spec_epoch c.(now) claims.(c_zoneId) m')); split; try done.
  - intros Hn. specialize (Hn n eq_refl ltac:(done)). lia.
  - intros _ n' [= <-] _. done.
Qed.

Context `{JwtVerifier}.

(** The contract covers the reads a mandate of the configured zone causes. *)
Definition covered (claims : Claims) : Prop :=
  Forall (fun a => rc_covers (OpIsRevoked a) = true) (revocationAnchors claims)
  /\ rc_covers (OpCurrentEpoch claims.(c_zoneId)) = true.

Lemma authenticate_verified calls verifyMs nowMs keySet token deps s c :
  (authenticate calls verifyMs nowMs keySet token deps s).2 = Accepted c ->
  token <> "" /\ deps.(has_revocations) = true /\ verify verifyMs token (effective_config deps) keySet = inr c
  /\ c.(authorityRecordId) <> "" /\ nowMs < c.(expiresAt) * 1000
  /\ (checkActiveAuthority calls nowMs c s).2 = Ok None.
Proof.
  unfold authenticate. case_bool_decide; [done|]. destruct (verify _ _ _ _) as [e|c'] eqn:Hv; [done|].
  destruct deps.(has_revocations); [|done]. cbn [negb].
  destruct (checkActiveAuthority calls nowMs c' s) as [s' [[e|]|]] eqn:Hc; try done. cbn. intros [= ->].
  rewrite Hc. split_and!; try done; unfold checkActiveAuthority in Hc; case_bool_decide; try done.
  destruct (Z.leb_spec (c.(expiresAt) * 1000) nowMs); done.
Qed.

Lemma remembered_refused calls verifyMs nowMs keySet token deps s m c e :
  ordered_calls calls -> (forall j, (calls j).(now) < e) -> rc_abs (calls 0%nat).(now) s m -> covered c ->
  (exists a, a ∈ revocationAnchors c /\ revoked_until a e m)
  \/ (exists n g, currentDelegationEpoch (S := S) <> None /\ c.(graphEpoch) = Some g /\ g < n <= MAX_SAFE_INTEGER
      /\ epoch_until c.(c_zoneId) n e m) ->
  (authenticate calls verifyMs nowMs keySet token deps s).2 <> Accepted c.
Proof.
  intros Ho Ht Habs [Hca Hce] Hrev (Htok & Hs & Hv & Haid & Hexp & Hact)%authenticate_verified.
  unfold checkActiveAuthority in Hact. rewrite bool_decide_eq_false_2, (proj2 (Z.leb_gt _ _)) in Hact by done.
  destruct (read_anchors_keeps calls (revocationAnchors c) 0 s m Ho Hca Habs) as [Ha1 Hshow].
  destruct (read_anchors calls 0 (revocationAnchors c) s) as [s1 [bs|]]; [|done]. cbn [fst snd] in *.
  destruct Hrev as [(a & Hin & Hu)|(n & g & Hf & Hg & Hn & Hu)].
  - by rewrite (Hshow a e Hin Hu Ht) in Hact.
  - destruct (existsb id bs); [done|]. unfold graphEpochError in Hact. rewrite Hg in Hact.
    destruct currentDelegationEpoch as [f|] eqn:Ef; [|done]. cbn [Nat.add] in *.
    destruct (f _ _ s1) as [s2 [k|]] eqn:Er; [|done]. cbn in Hact.
    assert (n <= k).
    { apply (contract_reads_epoch f (calls (length (revocationAnchors c))) c.(c_zoneId) n e s1 m); try done; [lia|by rewrite Er]. }
    rewrite (proj2 (Z.ltb_lt g k)) in Hact by lia. done.
Qed.

(** A revoked mandate is refused: while the store remembers one of its anchors
    (authority record, root record, Session or delegation), or a delegation epoch above
    the one the mandate was issued under, no authentication accepts it, whichever reads
    are lost, for any store that honours the contract. *)
Theorem revoked_mandate_refused calls verifyMs nowMs keySet token deps s m c e :
  ordered_calls calls -> (forall j, (calls j).(now) < e) -> rc_abs (calls 0%nat).(now) s m -> covered c ->
  (exists a, a ∈ revocationAnchors c /\ revoked_until a e m)
  \/ (exists n g, currentDelegationEpoch (S := S) <> None /\ c.(graphEpoch) = Some g /\ g < n <= MAX_SAFE_INTEGER
      /\ epoch_until c.(c_zoneId) n e m) ->
  (authenticate calls verifyMs nowMs keySet token deps s).2 <> Accepted c.
Proof. apply remembered_refused. Qed.

(** Exactly the good mandates are accepted: with its reads delivered, authentication
    accepts a token if and only if it verifies under the configuration (a resource mandate
    unless another use is configured), has not expired, none of its anchors is revoked and
    the zone's delegation epoch is not above its own. *)
Theorem authenticate_exact call verifyMs nowMs keySet token deps s m c :
  call.(fate) = Delivered -> rc_abs call.(now) s m -> covered c ->
  (authenticate (fun _ => call) verifyMs nowMs keySet token deps s).2 = Accepted c
  <-> token <> "" /\ deps.(has_revocations) = true
      /\ verify verifyMs token (effective_config deps) keySet = inr c
      /\ nowMs < c.(expiresAt) * 1000
      /\ (forall a, a ∈ revocationAnchors c -> spec_revoked call.(now) a m = false)
      /\ (forall n, c.(graphEpoch) = Some n -> currentDelegationEpoch (S := S) <> None -> spec_epoch call.(now) c.(c_zoneId) m <= n).
Proof.
  intros Hf Habs [Hca Hce].
  pose proof (read_anchors_exact call (revocationAnchors c) 0 s m Hf Hca Habs) as Hex.
  destruct (read_anchors_keeps (fun _ => call) (revocationAnchors c) 0 s m) as [Ha1 _]; [intros ? ? ?; lia|done|done|].
  assert (existsb id ((fun a => spec_revoked call.(now) a m) <$> revocationAnchors c) = false
          <-> forall a, a ∈ revocationAnchors c -> spec_revoked call.(now) a m = false) as Hb.
  { rewrite <-not_true_iff_false, existsb_exists. setoid_rewrite <-list_elem_of_In. split.
    - intros Hn a Ha. apply not_true_iff_false. intros Ht. apply Hn. exists true. split; [|done]. apply list_elem_of_fmap. eauto.
    - intros Hn (b & (a & -> & Ha)%list_elem_of_fmap & Ht). rewrite (Hn a Ha) in Ht. done. }
  split.
  - intros (Htok & Hs & Hv & Haid & Hexp & Hact)%authenticate_verified. split_and!; try done;
      unfold checkActiveAuthority in Hact; rewrite bool_decide_eq_false_2, (proj2 (Z.leb_gt _ _)) in Hact by done;
      destruct (read_anchors _ 0 (revocationAnchors c) s) as [s1 r]; cbn [fst snd] in *; subst r;
      destruct (existsb id _) eqn:Eb; try done.
    + by apply Hb.
    + by apply (epoch_error_exact call c s1 m Hf Hce Ha1).
  - intros (Htok & Hs & Hv & Hexp & Hrev & Hep). unfold authenticate. rewrite bool_decide_eq_false_2, Hv, Hs by done. cbn [negb].
    assert (c.(authorityRecordId) <> "") as Haid.
    { apply verify_ok in Hv as [[Hreq _ _ _ _ _ _ _ _ _] _]. by do 4 apply Forall_cons in Hreq as [? Hreq]. }
    unfold checkActiveAuthority. rewrite bool_decide_eq_false_2, (proj2 (Z.leb_gt _ _)) by done.
    destruct (read_anchors _ 0 (revocationAnchors c) s) as [s1 r]; cbn [fst snd] in *; subst r.
    rewrite (proj2 Hb Hrev). pose proof (proj2 (epoch_error_exact call c s1 m Hf Hce Ha1) Hep) as He.
    destruct (graphEpochError call c s1) as [s2 r2]. cbn in *. by subst r2.
Qed.
End contract.

Section answers.
Context {S : Type} `{RevocationStore S} `{JwtVerifier}.

Lemma graphEpochError_codes c claims (s : S) err :
  (graphEpochError c claims s).2 = Ok (Some err) -> err = authError delegation_stale None.
Proof.
  unfold graphEpochError. destruct (graphEpoch claims) as [n|], currentDelegationEpoch as [f|]; try done.
  destruct (f c (c_zoneId claims) s) as [s1 [k|]]; cbn; [|done]. case_match; [by intros [= <-]|done].
Qed.

(** The answers of the activity check are all 401. *)
Lemma active_refusal_401 calls nowMs claims (s : S) err :
  (checkActiveAuthority calls nowMs claims s).2 = Ok (Some err) -> httpStatusForAuthError err.(code) = 401.
Proof.
  unfold checkActiveAuthority. case_bool_decide; [by intros [= <-]|]. case_match; [by intros [= <-]|].
  destruct (read_anchors _ _ _ s) as [s1 [bs|]]; [|done]. case_match; [by intros [= <-]|].
  by intros ->%graphEpochError_codes.
Qed.

(** 403 means verified: a request is answered with 403 only for a mandate whose
    signature, issuer and audience were verified with the key set of the configured zone
    and whose claim names that zone; every other refusal is a 401 with the code, the
    description and the hint in its body. *)
Theorem forbidden_means_verified calls verifyMs nowMs keySet token deps (s : S) err :
  (authenticate calls verifyMs nowMs keySet token deps s).2 = Refused err ->
  (httpStatusForAuthError err.(code) = 401 \/ httpStatusForAuthError err.(code) = 403)
  /\ (httpStatusForAuthError err.(code) = 403 ->
      exists payload, verified_payload verifyMs token (effective_config deps) keySet payload
      /\ json_get "zone_id" (JObj payload) = JStr deps.(config).(zoneId) /\ deps.(config).(zoneId) <> "")
  /\ (unauthorizedResponse err).1 = httpStatusForAuthError err.(code)
  /\ json_get "error" (unauthorizedResponse err).2 = JStr (code_text err.(code)).
Proof.
  intros Ha. split; [destruct err.(code); auto|]. split; [|done]. intros H403. revert Ha.
  unfold authenticate. case_bool_decide; [by intros [= <-]|].
  destruct (verify _ _ _ _) as [e|c] eqn:Hv.
  - intros [= <-]. unfold verify, throw, invalid in Hv. case_bool_decide; [injection Hv as <-; done|].
    destruct keySet as [ks|]; [|injection Hv as <-; done].
    destruct (jwtVerify _ _ _ _) as [payload|] eqn:Hj; [|injection Hv as <-; done].
    exists payload. split; [by exists ks|]. apply (thrown_in_zone (effective_config deps) payload e Hv); destruct e; done.
  - case_match; [by intros [= <-]|]. destruct (checkActiveAuthority calls nowMs c s) as [s1 [[e|]|]] eqn:Hc; try done.
    + cbn. intros [= ->]. assert (httpStatusForAuthError err.(code) = 401) as H401; [|congruence].
      apply (active_refusal_401 calls nowMs c s). by rewrite Hc.
    + by intros [= <-].
Qed.
End answers.
End MandateFacts.
