(* ===== verification/RedisConsumer.v ===== *)
(** * The redis stream consumers of a resource server

    [RedisRevocationConsumer] and [RedisDelegationInvalidationConsumer] of
    [packages/backends/redis/ts/src/revocation.ts]: what they read from the two streams
    the coordinator publishes ends up in the revocation store, is dead-lettered, or stays
    pending.  The stream commands of redis are a parameter. *)

From S2P Require Import Prelude.
From S2P Require Import Json.
From S2P Require Import Store.
From S2P Require Import Streams.
From S2P Require Import Numbers.
From S2P Require Import Revocation.
From S2P Require Import RedisStore.
From S2P Require Import Schema.
From S2P Require Import Outbox.
Local Open Scope string_scope.
Local Open Scope Z_scope.
Local Open Scope list_scope.

Module RedisConsumer.

Definition REVOCATION_STREAM : string := "caracal.sessions.revoke".
Definition DELEGATION_INVALIDATION_STREAM : string := "caracal.delegations.invalidate".
Definition DEFAULT_DEAD_LETTER_MAX_LENGTH : Z := 10000.

(** [RedisRevocationConsumerOptions]. *)
Record ConsumerOptions := MkConsumerOptions {
  opt_stream : option string;
  opt_group : option string;
  opt_consumer : string;
  opt_batchSize : option Z;
  opt_blockMs : option Z;
  opt_pendingIdleMs : option Z;
  opt_streamHmacKey : option string;
  opt_requireSignature : option bool;
  opt_deadLetterMaxLength : option Z
}.

(** The fields of a consumer. *)
Record Consumer := MkConsumer {
  stream : string;
  group : string;
  consumer : string;
  batchSize : Z;
  blockMs : Z;
  pendingIdleMs : Z;
  streamHmacKey : option string;
  requireSignature : bool;
  deadLetterMaxLength : Z
}.

(** The constructors, which differ in their default stream and group; [None] when they
    throw. *)
Definition make_consumer (defaultStream defaultGroup : string) (o : ConsumerOptions) : option Consumer :=
  let c := MkConsumer (default_to defaultStream o.(opt_stream)) (default_to defaultGroup o.(opt_group)) o.(opt_consumer)
             (default_to 50 o.(opt_batchSize)) (default_to 0 o.(opt_blockMs)) (default_to 30000 o.(opt_pendingIdleMs))
             o.(opt_streamHmacKey)
             (default_to (match o.(opt_streamHmacKey) with Some _ => true | None => false end) o.(opt_requireSignature))
             (default_to DEFAULT_DEAD_LETTER_MAX_LENGTH o.(opt_deadLetterMaxLength)) in
  if c.(requireSignature) && bool_decide (c.(streamHmacKey) = None) then None else Some c.

Definition make_revocation_consumer : ConsumerOptions -> option Consumer :=
  make_consumer REVOCATION_STREAM "resource-revocation".

Definition make_invalidation_consumer : ConsumerOptions -> option Consumer :=
  make_consumer DELEGATION_INVALIDATION_STREAM "resource-delegation-invalidation".

(** [fieldsToValues]: a dangling key gets the empty string. *)
Fixpoint add_fields (fields : list string) (values : list (string * StreamValue)) : list (string * StreamValue) :=
  match fields with
  | [] => values
  | [k] => ordered_set k (SStr "") values
  | k :: v :: rest => add_fields rest (ordered_set k (SStr v) values)
  end.

Definition fieldsToValues (fields : list string) : list (string * StreamValue) := add_fields fields [].

Definition text_field (k : string) (values : list (string * StreamValue)) : list string :=
  match ordered_get k values with Some (SStr s) => if bool_decide (s = "") then [] else [s] | _ => [] end.

(** [revocationAnchors]. *)
Definition revocationAnchors (values : list (string * StreamValue)) : list string :=
  distinct (["session_id"; "sid"; "root_sid"; "agent_session_id"; "delegation_edge_id"] ≫= fun k => text_field k values).

(** [JSON.stringify(values)] of a dead letter. *)
Definition values_json (values : list (string * StreamValue)) : json :=
  JObj ((fun kv => (kv.1, match kv.2 with
                          | SStr s => JStr s | SNum n => JNum n | SBool b => JBool b | SNull => JNull | SUndefined => JUndefined
                          end)) <$> values).

Record DeadLetter := MkDeadLetter { dl_stream : string; source_id : string; reason : string; dl_payload : string }.

Abbreviation Message := (string * list string)%type.

(** The stream commands on one group: [XAUTOCLAIM] from a cursor, [XREADGROUP ... >] and
    [XACK], on the server's record of the stream and its pending entries. *)
Class StreamServer := {
  server : Type;
  xautoclaim : Consumer -> Z -> string -> server -> server * (string * list Message);
  xreadgroup : Consumer -> Z -> server -> server * list (string * list Message);
  xack : Consumer -> string -> server -> server
}.

Section consumers.
Context `{Env} `{Redis} `{StreamServer}.

(** The state a consumer works on: the keys of redis, the stream, the dead letters added
    so far, the ids acknowledged so far, and the number of commands sent so far. *)
Record State := MkState { kv : rdb; srv : server; dead : list DeadLetter; acked : list string; sent : nat }.

(** Code that sends commands and may throw. *)
Definition Run (A : Type) : Type := State -> State * Result A.

#[export] Instance run_ret : MRet Run := fun A a st => (st, Ok a).
#[export] Instance run_bind : MBind Run := fun A B f m st =>
  match m st with (st', Ok a) => f a st' | (st', Throw) => (st', Throw) end.

Definition bump (st : State) : State := MkState st.(kv) st.(srv) st.(dead) st.(acked) (1 + st.(sent))%nat.

(** Sends the next command; [calls] gives the circumstances of each. *)
Definition send {A : Type} (calls : nat -> Call) (f : Call -> State -> State * A) : Run A := fun st =>
  let c := calls st.(sent) in
  match c.(fate) with
  | Delivered => let '(st', a) := f c (bump st) in (st', Ok a)
  | LostBefore => (bump st, Throw)
  | LostAfter => ((f c (bump st)).1, Throw)
  end.

(** A call of the store, which sends its own command. *)
Definition on_store (calls : nat -> Call) (f : Call -> rdb -> rdb * Result unit) : Run unit := fun st =>
  let '(kv', r) := f (calls st.(sent)) st.(kv) in
  (MkState kv' st.(srv) st.(dead) st.(acked) (1 + st.(sent))%nat, r).

Context (calls : nat -> Call) (store : RedisStore.Options) (o : Consumer).

Definition verify (values : list (string * StreamValue)) : bool :=
  if negb o.(requireSignature) && bool_decide (o.(streamHmacKey) = None) then true
  else match ordered_get STREAM_SIG_FIELD values, o.(streamHmacKey) with
       | Some (SStr got), Some key => bool_decide (decode_hex got = decode_hex (signStream key o.(stream) values))
       | _, _ => false
       end.

Definition ack (id : string) : Run unit :=
  send calls (fun _ st => (MkState st.(kv) (xack o id st.(srv)) st.(dead) (st.(acked) ++ [id]) st.(sent), tt)).

(** [XADD <stream>.dead MAXLEN ~ ...]; the list keeps what was added, also what the
    approximate trimming may drop. *)
Definition deadLetter (id : string) (values : list (string * StreamValue)) (why : string) : Run unit :=
  send calls (fun _ st => (MkState st.(kv) st.(srv)
    (st.(dead) ++ [MkDeadLetter (o.(stream) +:+ ".dead") id why (stringify (values_json values))]) st.(acked) st.(sent), tt)).

Fixpoint mark_all (anchors : list string) : Run unit :=
  match anchors with
  | [] => mret tt
  | a :: rest => on_store calls (fun c => RedisStore.markRevoked store c a None);; mark_all rest
  end.

(** [RedisRevocationConsumer.processMessage]. *)
Definition processRevocation (m : Message) : Run unit :=
  let '(id, fields) := m in
  let values := fieldsToValues fields in
  if negb (verify values) then deadLetter id values "invalid_signature";; ack id
  else
    let anchors := revocationAnchors values in
    if bool_decide (length anchors = 0%nat) then deadLetter id values "missing_revocation_anchor";; ack id
    else mark_all anchors;; ack id.

(** [RedisDelegationInvalidationConsumer.processMessage]. *)
Definition processInvalidation (m : Message) : Run unit :=
  let '(id, fields) := m in
  let values := fieldsToValues fields in
  if negb (verify values) then deadLetter id values "invalid_signature";; ack id
  else
    let epoch := match ordered_get "epoch" values with Some (SStr s) => safe_integer (Number s) | _ => None end in
    match ordered_get "zone_id" values, epoch with
    | Some (SStr zoneId), Some n =>
        if 0 <=? n then on_store calls (fun c => RedisStore.markDelegationEpoch store c zoneId n None);; ack id
        else deadLetter id values "invalid_delegation_epoch";; ack id
    | _, _ => deadLetter id values "invalid_delegation_epoch";; ack id
    end.

Section polling.
Context (process : Message -> Run unit).

(** The loop over the messages of one reply; counts the handled ones. *)
Fixpoint process_messages (handled : Z) (messages : list Message) : Run Z :=
  match messages with
  | [] => mret handled
  | m :: rest => process m;; process_messages (handled + 1) rest
  end.

(** [replayPending]: [None] in the result stands for a loop that has not ended after
    [fuel] rounds. *)
Fixpoint replayPending (fuel : nat) (handled : Z) (start : string) : Run (option Z) :=
  match fuel with
  | O => mret None
  | S fuel =>
      reply ← send calls (fun c st => let '(srv', r) := xautoclaim o c.(now) start st.(srv) in
                                      (MkState st.(kv) srv' st.(dead) st.(acked) st.(sent), r));
      let '(next, messages) := reply in
      handled ← process_messages handled messages;
      if bool_decide (length messages = 0%nat) || bool_decide (next = "") || bool_decide (next = "0-0")
      then mret (Some handled) else replayPending fuel handled next
  end.

(** [pollOnce]. *)
Definition pollOnce (fuel : nat) : Run (option Z) :=
  replayed ← replayPending fuel 0 "0-0";
  match replayed with
  | None => mret None
  | Some handled =>
      rows ← send calls (fun c st => let '(srv', r) := xreadgroup o c.(now) st.(srv) in
                                     (MkState st.(kv) srv' st.(dead) st.(acked) st.(sent), r));
      handled ← process_messages handled (rows ≫= snd);
      mret (Some handled)
  end.
End polling.

Definition revocation_pollOnce : nat -> Run (option Z) := pollOnce processRevocation.
Definition invalidation_pollOnce : nat -> Run (option Z) := pollOnce processInvalidation.
End consumers.
End RedisConsumer.

(** * Facts about the stream consumers

    A message is acknowledged only after its effect is in the store or in the dead
    letters; and what the coordinator announces takes effect at the resource server: a
    published revocation or delegation epoch, once consumed, refuses the mandates it is
    about until its lifetime ends. *)

Module ConsumerFacts.
Import RedisConsumer.

(** Names the outcome of the run the goal is about. *)
Ltac run_split st' r := match goal with |- let '(_, _) := ?x in _ => destruct x as [st' r] end.

Section effects.
Context `{Env} `{RedisLaws} `{StreamServer} (calls : nat -> Call) (store : RedisStore.Options) (o : Consumer).

(** The abstract store a consumer's redis stands for. *)
Definition holds (st : State) (m : Spec) : Prop := RedisStore.refines store (calls st.(sent)).(now) st.(kv) m.

Definition ttl : Z := millis store.(RedisStore.defaultTtlMs).
Definition horizon (st : State) : Z := (calls st.(sent)).(now) + ttl.

(** Nothing but the keys, the command count and the abstract store has changed. *)
Definition same_stream (st st' : State) : Prop :=
  st'.(srv) = st.(srv) /\ st'.(dead) = st.(dead) /\ st'.(acked) = st.(acked).

Hypothesis Hord : ordered_calls calls.

Lemma store_call_mark a st m :
  RedisStore.proper_anchor a = true -> holds st m ->
  let '(st', r) := on_store calls (fun c => RedisStore.markRevoked store c a None) st in
  st'.(sent) = (1 + st.(sent))%nat /\ same_stream st st'
  /\ (exists m', holds st' m' /\ keeps (calls st'.(sent)).(now) (horizon st) m m' /\ (r = Ok tt -> revoked_until a (horizon st) m'))
  /\ ((calls st.(sent)).(fate) = Delivered -> 0 < ttl -> r = Ok tt).
Proof.
  intros Ha Hh. unfold on_store. set (c := calls st.(sent)).
  destruct (RedisStore.markRevoked_step store c a None st.(kv) m Ha Hh) as (m' & Hs & Hr).
  destruct (RedisStore.markRevoked store c a None st.(kv)) as [kv' r] eqn:E. cbn [fst snd] in *.
  split_and!; [done|by split_and!| |].
  - exists m'. split_and!.
    + eapply RedisStore.redis_refines_later; [|exact Hr]. apply Hord. cbn. lia.
    + eapply keeps_later; [|eapply spec_step_keeps; [|exact Hs]]; [apply Hord; cbn; lia|].
      intros key _. cbn. lia.
    + intros ->. inversion Hs; subst. apply spec_mark_until.
  - intros Hf Ht. unfold RedisStore.markRevoked in E. fold c in Hf.
    unfold RedisStore.proper_anchor in Ha. bool_props. rewrite bool_decide_eq_false_2 in E by done.
    unfold RedisStore.write in E. rewrite Hf in E.
    destruct (proj2 (redis_set_ok c.(now) (RedisStore.key store a) "1" store.(RedisStore.defaultTtlMs) st.(kv))) as [s' Hs'].
    { unfold ttl, millis in Ht. lia. }
    cbn in E. rewrite Hs' in E. cbn in E. by simplify_eq.
Qed.

(** Marking the anchors of a message, as far as it gets. *)
Lemma mark_all_effect anchors st m :
  Forall (fun a => RedisStore.proper_anchor a = true) anchors -> holds st m ->
  let '(st', r) := mark_all calls store anchors st in
  (st.(sent) <= st'.(sent))%nat /\ same_stream st st'
  /\ (exists m', holds st' m' /\ keeps (calls st'.(sent)).(now) (horizon st) m m' /\ (r = Ok tt -> Forall (fun a => revoked_until a (horizon st) m') anchors))
  /\ ((forall i, (calls i).(fate) = Delivered) -> 0 < ttl -> r = Ok tt).
Proof.
  revert st m. induction anchors as [|a anchors IH]; intros st m Hp Hh.
  { cbn. split_and!; [lia|done| |done]. exists m. split_and!; [done|apply keeps_refl|by constructor]. }
  apply Forall_cons in Hp as [Ha Hp]. pose proof (store_call_mark a st m Ha Hh) as Hone.
  cbn [mark_all]. unfold mbind, run_bind.
  destruct (on_store calls _ st) as [st1 r1]. destruct Hone as (Hs1 & Hsame1 & (m1 & Hh1 & Hk1 & Hr1) & Hd1).
  destruct r1 as [[]|].
  2: { split_and!; [lia|done|exists m1; by split_and!|]. intros Hall Ht. by specialize (Hd1 (Hall _) Ht). }
  specialize (IH st1 m1 Hp Hh1). destruct (mark_all calls store anchors st1) as [st2 r2].
  destruct IH as (Hs2 & Hsame2 & (m2 & Hh2 & Hk2 & Hr2) & Hd2).
  assert (horizon st <= horizon st1) as Hhor by (unfold horizon; pose proof (Hord st.(sent) st1.(sent) ltac:(lia)); lia).
  split_and!; [lia| | |auto].
  - destruct Hsame1 as (? & ? & ?), Hsame2 as (? & ? & ?). split_and!; congruence.
  - exists m2. split_and!; [done|eapply keeps_trans; [apply Hord|..]; try done; lia|]. intros Hok. constructor.
    + apply Hk2; [done|]. auto.
    + eapply Forall_impl; [by apply Hr2|]. intros a'. by apply revoked_until_weaken.
Qed.

(** A command leaves the keys alone when what it does leaves them alone. *)
Lemma send_keys {A} (f : Call -> State -> State * A) st m :
  (forall c st, (f c st).1.(kv) = st.(kv) /\ (f c st).1.(sent) = st.(sent)) -> holds st m ->
  let '(st', r) := send calls f st in
  st'.(sent) = (1 + st.(sent))%nat /\ holds st' m
  /\ (st' = bump st \/ st' = (f (calls st.(sent)) (bump st)).1)
  /\ (r <> Throw -> st' = (f (calls st.(sent)) (bump st)).1)
  /\ ((calls st.(sent)).(fate) = Delivered -> r <> Throw).
Proof.
  intros Hf Hh. unfold send. destruct (Hf (calls st.(sent)) (bump st)) as [Hk Hs].
  assert (forall st', st'.(kv) = st.(kv) -> st'.(sent) = (1 + st.(sent))%nat -> holds st' m) as Hlater.
  { intros st' Hk' Hs'. unfold holds. rewrite Hk'. eapply RedisStore.redis_refines_later; [|exact Hh]. apply Hord. lia. }
  destruct (calls st.(sent)).(fate); [destruct (f _ (bump st)) as [st' a]|..]; cbn in *; (split_and!; [done|by apply Hlater|auto..]); done.
Qed.

Lemma ack_effect id st m :
  holds st m ->
  let '(st', r) := ack calls o id st in
  st'.(sent) = (1 + st.(sent))%nat /\ holds st' m /\ st'.(dead) = st.(dead)
  /\ (st'.(acked) = st.(acked) \/ st'.(acked) = st.(acked) ++ [id])
  /\ ((calls st.(sent)).(fate) = Delivered -> r = Ok tt /\ st'.(acked) = st.(acked) ++ [id]).
Proof.
  intros Hh. unfold ack. match goal with |- context [send calls ?f st] => pose proof (send_keys f st m ltac:(done) Hh) as Hs end.
  destruct (send calls _ st) as [st' r]. destruct Hs as (Hn & Hh' & Hcase & Hok & Hd).
  split_and!; [done|done|by destruct Hcase as [-> | ->]|by destruct Hcase as [-> | ->]; auto|].
  intros Hf%Hd. rewrite (Hok Hf). destruct r as [[]|]; done.
Qed.

Lemma deadLetter_effect id values why st m :
  holds st m ->
  let '(st', r) := deadLetter calls o id values why st in
  st'.(sent) = (1 + st.(sent))%nat /\ holds st' m /\ st'.(acked) = st.(acked)
  /\ (r <> Throw -> st'.(dead) = st.(dead) ++ [MkDeadLetter (o.(stream) +:+ ".dead") id why (stringify (values_json values))])
  /\ ((calls st.(sent)).(fate) = Delivered -> r <> Throw).
Proof.
  intros Hh. unfold deadLetter. match goal with |- context [send calls ?f st] => pose proof (send_keys f st m ltac:(done) Hh) as Hs end.
  destruct (send calls _ st) as [st' r]. destruct Hs as (Hn & Hh' & Hcase & Hok & Hd).
  split_and!; [done|done|by destruct Hcase as [-> | ->]|by intros ->%Hok|done].
Qed.

(** The outcome of handling message [id]: nothing remembered is forgotten, it is
    acknowledged only with [effect] in place, and with every command delivered it is
    handled. *)
Definition handled_with (id : string) (st st' : State) (r : Result unit) (m : Spec) (effect : Spec -> Prop) : Prop :=
  exists m', (st.(sent) <= st'.(sent))%nat /\ holds st' m' /\ keeps (calls st'.(sent)).(now) (horizon st) m m'
  /\ (st'.(acked) = st.(acked) \/ (st'.(acked) = st.(acked) ++ [id] /\ effect m'))
  /\ ((forall i, (calls i).(fate) = Delivered) -> 0 < ttl -> r = Ok tt /\ st'.(acked) = st.(acked) ++ [id] /\ effect m').

(** Code that establishes [effect] before it acknowledges. *)
Lemma then_ack (body : Run unit) id st m (effect : Spec -> Prop) (dl : list DeadLetter) :
  let '(st1, r1) := body st in
  ((st.(sent) <= st1.(sent))%nat /\ st1.(acked) = st.(acked)
   /\ (exists m1, holds st1 m1 /\ keeps (calls st1.(sent)).(now) (horizon st) m m1 /\ (r1 <> Throw -> effect m1 /\ st1.(dead) = dl))
   /\ ((forall i, (calls i).(fate) = Delivered) -> 0 < ttl -> r1 <> Throw)) ->
  let '(st2, r2) := (body;; ack calls o id) st in handled_with id st st2 r2 m (fun m' => effect m' /\ st2.(dead) = dl).
Proof.
  unfold mbind, run_bind. destruct (body st) as [st1 r1]. intros (Hle & Hack & (m1 & Hh1 & Hk1 & He) & Hd).
  destruct r1 as [[]|].
  - destruct (He ltac:(done)) as [Hef Hdl]. pose proof (ack_effect id st1 m1 Hh1) as Ha. destruct (ack calls o id st1) as [st2 r2].
    destruct Ha as (Hn & Hh2 & Hdead & Hcase & Hd2). exists m1. rewrite Hack in *.
    split_and!; [lia|done|eapply keeps_later; [|done]; apply Hord; lia| |].
    + destruct Hcase as [->| ->]; [by left|right; split_and!; [done|done|congruence]].
    + intros Hall Ht. destruct (Hd2 (Hall _)) as [-> ->]. split_and!; [done|done|done|congruence].
  - exists m1. split_and!; [done|done|done|by left|]. intros Hall Ht. by specialize (Hd Hall Ht).
Qed.

Lemma dead_then_ack id values why st m :
  holds st m ->
  let '(st2, r2) := (deadLetter calls o id values why;; ack calls o id) st in
  handled_with id st st2 r2 m (fun _ => True /\ st2.(dead) = st.(dead) ++ [MkDeadLetter (o.(stream) +:+ ".dead") id why (stringify (values_json values))]).
Proof.
  intros Hh. pose proof (then_ack (deadLetter calls o id values why) id st m (fun _ => True)
    (st.(dead) ++ [MkDeadLetter (o.(stream) +:+ ".dead") id why (stringify (values_json values))])) as Ht.
  pose proof (deadLetter_effect id values why st m Hh) as Hd.
  destruct (deadLetter calls o id values why st) as [st1 r1]. destruct Hd as (Hn & Hh1 & Hack & Hok & Hdel).
  apply Ht. split_and!; [lia|done| |by auto]. exists m. split_and!; [done|apply keeps_refl|]. intros Hr. auto.
Qed.

(** What a revocation message is to achieve. *)
Definition revocation_effect (id : string) (values : list (string * StreamValue)) (st st' : State) (m' : Spec) : Prop :=
  if negb (verify o values) then
    st'.(dead) = st.(dead) ++ [MkDeadLetter (o.(stream) +:+ ".dead") id "invalid_signature" (stringify (values_json values))]
  else if bool_decide (length (revocationAnchors values) = 0%nat) then
    st'.(dead) = st.(dead) ++ [MkDeadLetter (o.(stream) +:+ ".dead") id "missing_revocation_anchor" (stringify (values_json values))]
  else st'.(dead) = st.(dead) /\ Forall (fun a => revoked_until a (horizon st) m') (revocationAnchors values).

Lemma handled_with_weaken id st st' r m (P Q : Spec -> Prop) :
  (forall m', P m' -> Q m') -> handled_with id st st' r m P -> handled_with id st st' r m Q.
Proof.
  intros Hpq (m' & Hle & Hh & Hk & Hc & Hd). exists m'. split_and!; [done|done|done| |].
  - destruct Hc as [?|[? ?]]; auto.
  - intros Ha Ht. destruct (Hd Ha Ht) as (? & ? & ?). auto.
Qed.

Lemma processRevocation_handles id fields st m :
  holds st m -> Forall (fun a => RedisStore.proper_anchor a = true) (revocationAnchors (fieldsToValues fields)) ->
  let '(st', r) := processRevocation calls store o (id, fields) st in
  handled_with id st st' r m (revocation_effect id (fieldsToValues fields) st st').
Proof.
  intros Hh Hp. unfold processRevocation, revocation_effect. set (values := fieldsToValues fields) in *.
  destruct (negb (verify o values)).
  { pose proof (dead_then_ack id values "invalid_signature" st m Hh) as Hd. run_split st' r.
    eapply handled_with_weaken; [|exact Hd]. by intros ? [_ ?]. }
  case_bool_decide.
  { pose proof (dead_then_ack id values "missing_revocation_anchor" st m Hh) as Hd. run_split st' r.
    eapply handled_with_weaken; [|exact Hd]. by intros ? [_ ?]. }
  pose proof (then_ack (mark_all calls store (revocationAnchors values)) id st m
    (fun m' => Forall (fun a => revoked_until a (horizon st) m') (revocationAnchors values)) st.(dead)) as Ht.
  pose proof (mark_all_effect (revocationAnchors values) st m Hp Hh) as Hm.
  destruct (mark_all calls store (revocationAnchors values) st) as [st1 r1].
  destruct Hm as (Hle & (_ & Hdead & Hack) & (m1 & Hh1 & Hk1 & Hr1) & Hdel).
  run_split st' r. eapply handled_with_weaken; [|apply Ht].
  { intros m' [? ?]. by split. }
  split_and!; [done|done| |].
  - exists m1. split_and!; [done|done|]. intros Hne. split; [|done]. apply Hr1. by destruct r1 as [[]|].
  - intros Ha Htt. by rewrite (Hdel Ha Htt).
Qed.

Lemma store_call_epoch z n st m :
  z <> "" -> 0 <= n <= MAX_SAFE_INTEGER -> holds st m ->
  let '(st', r) := on_store calls (fun c => RedisStore.markDelegationEpoch store c z n None) st in
  st'.(sent) = (1 + st.(sent))%nat /\ same_stream st st'
  /\ (exists m', holds st' m' /\ keeps (calls st'.(sent)).(now) (horizon st) m m'
      /\ (r = Ok tt -> m' = spec_mark_epoch (calls st.(sent)).(now) z n store.(RedisStore.defaultTtlMs) m))
  /\ ((calls st.(sent)).(fate) = Delivered -> 0 < ttl -> r = Ok tt).
Proof.
  intros Hz Hn Hh. unfold on_store. set (c := calls st.(sent)).
  destruct (RedisStore.markEpoch_step store c z n None st.(kv) m Hz Hn Hh) as (m' & Hs & Hr).
  pose proof (RedisStore.max_epoch_script_spec store c.(now) z n store.(RedisStore.defaultTtlMs) st.(kv) m Hz Hn Hh) as Hscript.
  destruct (RedisStore.markDelegationEpoch store c z n None st.(kv)) as [kv' r] eqn:E. cbn [fst snd] in *.
  split_and!; [done|by split_and!| |].
  - exists m'. split_and!.
    + eapply RedisStore.redis_refines_later; [|exact Hr]. apply Hord. cbn. lia.
    + eapply keeps_later; [|eapply spec_step_keeps; [|exact Hs]]; [apply Hord; cbn; lia|]. intros key _. cbn. lia.
    + intros ->. by inversion Hs; subst.
  - intros Hf Ht. unfold RedisStore.markDelegationEpoch in E. fold c in Hf.
    rewrite bool_decide_eq_false_2, (proj2 (Z.leb_le (Z.abs n) _)), (proj2 (Z.ltb_ge n 0)) in E by (done || lia).
    cbn [orb negb default_to] in E. unfold RedisStore.write in E. rewrite Hf in E.
    destruct (RedisStore.max_epoch_script _ _ _ _ _) as [[s' k]|]; [by simplify_eq|]. unfold ttl, millis in Ht. lia.
Qed.

(** The zone and epoch a delegation message carries. *)
Definition message_epoch (values : list (string * StreamValue)) : option (string * Z) :=
  match ordered_get "zone_id" values, ordered_get "epoch" values with
  | Some (SStr z), Some (SStr s) =>
      match safe_integer (Number s) with Some n => if 0 <=? n then Some (z, n) else None | None => None end
  | _, _ => None
  end.

(** What a delegation message is to achieve: the store knows an epoch that is at least the
    announced one, and remembers it for a whole lifetime if it was news. *)
Definition invalidation_effect (id : string) (values : list (string * StreamValue)) (st st' : State) (m m' : Spec) : Prop :=
  if negb (verify o values) then
    st'.(dead) = st.(dead) ++ [MkDeadLetter (o.(stream) +:+ ".dead") id "invalid_signature" (stringify (values_json values))]
  else match message_epoch values with
  | None =>
      st'.(dead) = st.(dead) ++ [MkDeadLetter (o.(stream) +:+ ".dead") id "invalid_delegation_epoch" (stringify (values_json values))]
  | Some (z, n) =>
      st'.(dead) = st.(dead) /\ (spec_epoch (calls st.(sent)).(now) z m < n -> epoch_until z n (horizon st) m')
      /\ (n <= spec_epoch (calls st.(sent)).(now) z m -> m' = m)
  end.

Lemma spec_mark_epoch_news t z n t0 m : spec_epoch t z m < n -> epoch_until z n (t + millis t0) (spec_mark_epoch t z n t0 m).
Proof.
  intros Hlt. unfold spec_mark_epoch. rewrite (proj2 (Z.leb_gt _ _) Hlt). exists n, (t + millis t0). cbn.
  rewrite lookup_insert_eq. split_and!; [done|lia|lia].
Qed.

Lemma safe_integer_bound x n : safe_integer x = Some n -> Z.abs n <= MAX_SAFE_INTEGER.
Proof. unfold safe_integer. repeat (case_match; try done). intros [= ->]. by bool_props. Qed.

Lemma processInvalidation_handles id fields st m :
  holds st m -> (forall z n, message_epoch (fieldsToValues fields) = Some (z, n) -> z <> "") ->
  let '(st', r) := processInvalidation calls store o (id, fields) st in
  handled_with id st st' r m (invalidation_effect id (fieldsToValues fields) st st' m).
Proof.
  intros Hh Hz. unfold processInvalidation, invalidation_effect. set (values := fieldsToValues fields) in *.
  destruct (negb (verify o values)).
  { pose proof (dead_then_ack id values "invalid_signature" st m Hh) as Hd. run_split st' r.
    eapply handled_with_weaken; [|exact Hd]. by intros ? [_ ?]. }
  pose proof (dead_then_ack id values "invalid_delegation_epoch" st m Hh) as Hd.
  unfold message_epoch in *. destruct (ordered_get "zone_id" values) as [[z| | | |]|];
    try (run_split st' r; eapply handled_with_weaken; [|exact Hd]; by intros ? [_ ?]).
  destruct (ordered_get "epoch" values) as [[s| | | |]|]; try (run_split st' r; eapply handled_with_weaken; [|exact Hd]; by intros ? [_ ?]).
  destruct (safe_integer (Number s)) as [n|] eqn:Hn; [|run_split st' r; eapply handled_with_weaken; [|exact Hd]; by intros ? [_ ?]].
  destruct (Z.leb_spec 0 n) as [Hn0|]; [|run_split st' r; eapply handled_with_weaken; [|exact Hd]; by intros ? [_ ?]].
  clear Hd. apply safe_integer_bound in Hn. specialize (Hz z n eq_refl).
  pose proof (then_ack (on_store calls (fun c => RedisStore.markDelegationEpoch store c z n None)) id st m
    (fun m' => m' = spec_mark_epoch (calls st.(sent)).(now) z n store.(RedisStore.defaultTtlMs) m) st.(dead)) as Ht.
  pose proof (store_call_epoch z n st m Hz ltac:(lia) Hh) as Hm.
  destruct (on_store calls _ st) as [st1 r1]. destruct Hm as (Hs & (_ & Hdead & Hack) & (m1 & Hh1 & Hk1 & Hr1) & Hdel).
  run_split st' r. eapply handled_with_weaken; [|apply Ht].
  { intros m' [-> ?]. split_and!; [done|by apply spec_mark_epoch_news|]. intros Hle. unfold spec_mark_epoch. by rewrite (proj2 (Z.leb_le _ _) Hle). }
  split_and!; [lia|done| |].
  - exists m1. split_and!; [done|done|]. intros Hne. split; [|done]. apply Hr1. by destruct r1 as [[]|].
  - intros Ha Htt. by rewrite (Hdel (Ha _) Htt).
Qed.

(** The anchors the messages of one read ask to revoke. *)
Definition asks (a : string) (messages : list Message) : Prop :=
  exists id fields, (id, fields) ∈ messages /\ verify o (fieldsToValues fields) = true /\ a ∈ revocationAnchors (fieldsToValues fields).

Definition proper_message (msg : Message) : Prop :=
  Forall (fun a => RedisStore.proper_anchor a = true) (revocationAnchors (fieldsToValues msg.2)).

(** With every command delivered, all messages of a read are handled and acknowledged, in
    order, and whatever they ask to revoke is revoked. *)
Lemma process_messages_all messages : forall n st m,
  (forall i, (calls i).(fate) = Delivered) -> 0 < ttl -> Forall proper_message messages -> holds st m ->
  let '(st', r) := process_messages (processRevocation calls store o) n messages st in
  r = Ok (n + Z.of_nat (length messages)) /\ st'.(acked) = st.(acked) ++ messages.*1 /\ (st.(sent) <= st'.(sent))%nat
  /\ exists m', holds st' m' /\ keeps (calls st'.(sent)).(now) (horizon st) m m'
     /\ (forall a, asks a messages -> revoked_until a (horizon st) m').
Proof.
  induction messages as [|[id fields] messages IH]; intros n st m Hall Ht Hp Hh; cbn [process_messages].
  { unfold mret, run_ret. rewrite app_nil_r. split_and!; [f_equal; cbn; lia|done|lia|].
    exists m. split_and!; [done|apply keeps_refl|]. intros a (? & ? & Hin & _). set_solver. }
  apply Forall_cons in Hp as [Hp1 Hps]. pose proof (processRevocation_handles id fields st m Hh Hp1) as Hone.
  unfold mbind, run_bind. destruct (processRevocation calls store o (id, fields) st) as [st1 r1].
  destruct Hone as (m1 & Hle1 & Hh1 & Hk1 & _ & Hd1). destruct (Hd1 Hall Ht) as (-> & Ha1 & He1).
  specialize (IH (n + 1) st1 m1 Hall Ht Hps Hh1). destruct (process_messages _ (n + 1) messages st1) as [st2 r2].
  destruct IH as (-> & Ha2 & Hle2 & m2 & Hh2 & Hk2 & Hr2).
  assert (horizon st <= horizon st1) as Hhor by (unfold horizon; pose proof (Hord st.(sent) st1.(sent) ltac:(lia)); lia).
  split_and!; [f_equal; cbn [length]; lia|rewrite Ha2, Ha1, <-app_assoc; done|lia|].
  exists m2. split_and!; [done|eapply keeps_trans; [apply Hord|..]; try done; lia|].
  intros a (id' & fields' & [Heq|Hin]%elem_of_cons & Hv & Ha).
  - simplify_eq. apply (proj1 Hk2); [done|]. unfold revocation_effect in He1. rewrite Hv in He1. cbn [negb] in He1.
    case_bool_decide as Hl; [by destruct (revocationAnchors _); [set_solver|]|].
    destruct He1 as [_ He1]. by apply (proj1 (Forall_forall _ _) He1).
  - eapply revoked_until_weaken; [exact Hhor|]. apply Hr2. by exists id', fields'.
Qed.

(** Acknowledged means applied: whatever commands the network loses, a consumer
    acknowledges a message only with its effect in place, the anchors marked or the epoch
    known or the message dead-lettered, and never makes the store forget anything earlier;
    and with every command delivered each message is handled and acknowledged. *)
Theorem acknowledged_means_applied id fields st m :
  holds st m ->
  (proper_message (id, fields) ->
   let '(st', r) := processRevocation calls store o (id, fields) st in
   handled_with id st st' r m (revocation_effect id (fieldsToValues fields) st st'))
  /\ ((forall z n, message_epoch (fieldsToValues fields) = Some (z, n) -> z <> "") ->
   let '(st', r) := processInvalidation calls store o (id, fields) st in
   handled_with id st st' r m (invalidation_effect id (fieldsToValues fields) st st' m)).
Proof.
  intros Hh. split; intros Hp; [by apply processRevocation_handles|by apply processInvalidation_handles].
Qed.
End effects.

(** ** The replay of pending messages ends *)

(** [XAUTOCLAIM] moves its cursor on: [remaining] counts the pending entries that the
    scan from a cursor can still claim, and an acknowledgement adds none. *)
Class StreamLaws `{StreamServer} := {
  remaining : server -> string -> nat;
  claim_advances : forall o t start srv srv' next messages,
    xautoclaim o t start srv = (srv', (next, messages)) -> next <> "" -> next <> "0-0" ->
    (remaining srv' next < remaining srv start)%nat;
  ack_keeps : forall o id srv cursor, (remaining (xack o id srv) cursor <= remaining srv cursor)%nat
}.

Section replay.
Context `{Env} `{Redis} `{StreamLaws} (calls : nat -> Call) (store : RedisStore.Options) (o : Consumer).

(** Code that claims nothing. *)
Definition no_claim {A} (run : Run A) : Prop :=
  forall st cursor, (remaining (run st).1.(srv) cursor <= remaining st.(srv) cursor)%nat.

Lemma no_claim_bind {A B} (m : Run A) (f : A -> Run B) : no_claim m -> (forall a, no_claim (f a)) -> no_claim (m ≫= f).
Proof.
  intros Hm Hf st cursor. unfold mbind, run_bind. specialize (Hm st cursor). destruct (m st) as [st' [a|]]; [|done].
  specialize (Hf a st' cursor). cbn in *. lia.
Qed.

Lemma no_claim_ret {A} (a : A) : no_claim (mret a).
Proof. intros st cursor. cbn. lia. Qed.

Lemma no_claim_ack id : no_claim (ack calls o id).
Proof. intros st cursor. unfold ack, send. pose proof (ack_keeps o id st.(srv) cursor). destruct (fate _); cbn; lia. Qed.

Lemma no_claim_dead id values why : no_claim (deadLetter calls o id values why).
Proof. intros st cursor. unfold deadLetter, send. destruct (fate _); cbn; lia. Qed.

Lemma no_claim_store f : no_claim (on_store calls f).
Proof. intros st cursor. unfold on_store. destruct (f _ _). cbn. lia. Qed.

#[local] Hint Resolve no_claim_bind no_claim_ret no_claim_ack no_claim_dead no_claim_store : caracal.

Lemma no_claim_marks anchors : no_claim (mark_all calls store anchors).
Proof. induction anchors; cbn [mark_all]; auto with caracal. Qed.

Lemma no_claim_revocation msg : no_claim (processRevocation calls store o msg).
Proof.
  destruct msg as [id fields]. unfold processRevocation. repeat case_match; auto using no_claim_marks with caracal.
Qed.

Lemma no_claim_invalidation msg : no_claim (processInvalidation calls store o msg).
Proof. destruct msg as [id fields]. unfold processInvalidation. repeat case_match; auto with caracal. Qed.

Lemma no_claim_messages process n messages : (forall msg, no_claim (process msg)) -> no_claim (process_messages process n messages).
Proof. intros Hp. revert n. induction messages; intros n; cbn [process_messages]; auto with caracal. Qed.

Lemma replay_ends process fuel : (forall msg, no_claim (process msg)) -> forall n start st,
  (remaining st.(srv) start < fuel)%nat -> (replayPending calls o process fuel n start st).2 <> Ok None.
Proof.
  intros Hp. induction fuel as [|fuel IH]; intros n start st Hr; [lia|]. cbn [replayPending]. unfold mbind, run_bind.
  unfold send at 1. destruct (calls st.(sent)).(fate); [|done|destruct (xautoclaim _ _ _ _); done].
  destruct (xautoclaim o (calls st.(sent)).(now) start (bump st).(srv)) as [srv1 [next messages]] eqn:Ex.
  set (st1 := MkState _ _ _ _ _). pose proof (no_claim_messages process n messages Hp st1 next) as Hm.
  destruct (process_messages process n messages st1) as [st2 [n2|]]; [|done]. cbn [fst] in Hm.
  destruct (_ || _) eqn:Eb; [done|]. bool_props. apply IH.
  pose proof (claim_advances _ _ _ _ _ _ _ Ex ltac:(done) ltac:(done)) as Hadv. cbn [srv] in *. change (bump st).(srv) with st.(srv) in Hadv. subst st1. cbn [srv] in Hm. lia.
Qed.

(** Polling ends: given one more round than the entries a scan of the pending list can
    claim, both consumers' [pollOnce] returns or throws, whatever commands are lost. *)
Theorem poll_terminates fuel st :
  (remaining st.(srv) "0-0" < fuel)%nat ->
  (revocation_pollOnce calls store o fuel st).2 <> Ok None /\ (invalidation_pollOnce calls store o fuel st).2 <> Ok None.
Proof.
  intros Hr. assert (forall process, (forall msg, no_claim (process msg)) -> (pollOnce calls o process fuel st).2 <> Ok None) as Hp.
  { intros process Hp. unfold pollOnce, mbind, run_bind. pose proof (replay_ends process fuel Hp 0 "0-0" st Hr) as Hend.
    destruct (replayPending _ _ _ _ _ _ st) as [st1 [[n|]|]]; [|done|done].
    destruct (send calls _ st1) as [st2 [rows|]]; [|done]. by destruct (process_messages process n _ st2) as [st3 [k|]]. }
  split; apply Hp; [apply no_claim_revocation|apply no_claim_invalidation].
Qed.
End replay.
End ConsumerFacts.
