(* ===== verification/EndToEnd.v ===== *)
(** * From the coordinator to the resource server

    The composition of the coordinator's outbox, the signed streams, the redis consumers
    and the authentication of mandates: what the coordinator announces when a Session
    ends or a delegation is revoked refuses the mandates concerned. *)

From S2P Require Import Prelude.
From S2P Require Import Json.
From S2P Require Import Schema.
From S2P Require Import Store.
From S2P Require Import Outbox.
From S2P Require Import Sessions.
From S2P Require Import Streams.
From S2P Require Import Numbers.
From S2P Require Import Revocation.
From S2P Require Import RedisStore.
From S2P Require Import RedisConsumer.
From S2P Require Import Identity.
From S2P Require Import Mandate.
Local Open Scope string_scope.
Local Open Scope Z_scope.
Local Open Scope list_scope.

Module EndToEnd.
Import ConsumerFacts MandateFacts.

(** ** Reading a published message *)

(** On the fields of a published message both readers of fields agree. *)
Lemma consumer_add_fields values acc :
  RedisConsumer.add_fields (flatten values) acc = Streams.add_fields (flatten values) acc.
Proof.
  revert acc. induction values as [|[k v] values IH]; intros acc; [done|].
  change (flatten ((k, v) :: values)) with (k :: default_to "" (stream_text v) :: flatten values).
  cbn [RedisConsumer.add_fields Streams.add_fields]. apply IH.
Qed.

Section published.
Context `{Env}.

Lemma consumer_published key tp dk row :
  RedisConsumer.fieldsToValues (streamFields (Some key) tp dk row)
  = ordered_set STREAM_SIG_FIELD (SStr (signStream key tp (stream_values row.(Outbox.id) dk row.(Outbox.payload_json))))
      (stream_values row.(Outbox.id) dk row.(Outbox.payload_json)).
Proof.
  rewrite <-published_values. unfold RedisConsumer.fieldsToValues, Streams.fieldsToValues, streamFields. apply consumer_add_fields.
Qed.

(** A consumer with the publisher's key accepts what the publisher signed for its stream. *)
Lemma consumer_verifies o key dk row :
  o.(RedisConsumer.streamHmacKey) = Some key ->
  RedisConsumer.verify o (RedisConsumer.fieldsToValues (streamFields (Some key) o.(RedisConsumer.stream) dk row)) = true.
Proof.
  intros Hkey. rewrite consumer_published. unfold RedisConsumer.verify. rewrite Hkey.
  rewrite (bool_decide_eq_false_2 (Some key = None)) by done. rewrite andb_false_r.
  rewrite ordered_get_set, bool_decide_eq_true_2 by done. apply bool_decide_eq_true_2.
  destruct (stream_values_plain row.(Outbox.id) dk row.(Outbox.payload_json)) as (_ & Hsig & _).
  unfold signStream. by rewrite canonicalize_signed.
Qed.

(** The fields a consumer looks at are those of the payload. *)
Lemma consumer_field key tp dk row k :
  k <> STREAM_SIG_FIELD ->
  ordered_get k (RedisConsumer.fieldsToValues (streamFields (Some key) tp dk row))
  = ordered_get k (stream_values row.(Outbox.id) dk row.(Outbox.payload_json)).
Proof. intros Hk. rewrite consumer_published, ordered_get_set. by rewrite bool_decide_eq_false_2. Qed.

Lemma text_field_published key tp dk row k :
  k <> STREAM_SIG_FIELD ->
  RedisConsumer.text_field k (RedisConsumer.fieldsToValues (streamFields (Some key) tp dk row))
  = RedisConsumer.text_field k (stream_values row.(Outbox.id) dk row.(Outbox.payload_json)).
Proof. intros Hk. unfold RedisConsumer.text_field. by rewrite consumer_field. Qed.

(** The anchors in the announcement of an ended or suspended Session. *)
Lemma revoke_item_anchors key tp dk row k z kr why :
  row.(Outbox.payload_json) = (revoke_item k z kr why).(payload) ->
  forall a, a ∈ RedisConsumer.revocationAnchors (RedisConsumer.fieldsToValues (streamFields (Some key) tp dk row))
            <-> a <> "" /\ (a = kr.2.(Session.subject_authority_record_id) \/ a = kr.1).
Proof.
  intros Hp a. unfold RedisConsumer.revocationAnchors. rewrite elem_of_distinct. cbn [mbind list_bind].
  rewrite !text_field_published by done. rewrite Hp. unfold RedisConsumer.text_field.
  change (ordered_get "session_id" (stream_values row.(Outbox.id) dk (revoke_item k z kr why).(payload)))
    with (Some (SStr kr.2.(Session.subject_authority_record_id))).
  change (ordered_get "agent_session_id" (stream_values row.(Outbox.id) dk (revoke_item k z kr why).(payload))) with (Some (SStr kr.1)).
  change (ordered_get "sid" (stream_values row.(Outbox.id) dk (revoke_item k z kr why).(payload))) with (@None StreamValue).
  change (ordered_get "root_sid" (stream_values row.(Outbox.id) dk (revoke_item k z kr why).(payload))) with (@None StreamValue).
  change (ordered_get "delegation_edge_id" (stream_values row.(Outbox.id) dk (revoke_item k z kr why).(payload))) with (@None StreamValue).
  cbn iota. repeat case_bool_decide; cbn [app]; rewrite ?elem_of_cons, ?elem_of_nil; intuition congruence.
Qed.

(** The zone and epoch in the announcement of a revoked delegation. *)
Lemma edge_revoke_epoch key tp dk row z why epoch eid :
  row.(Outbox.payload_json) = (edge_revoke_item z why epoch eid).(payload) -> 0 <= epoch <= MAX_SAFE_INTEGER ->
  message_epoch (RedisConsumer.fieldsToValues (streamFields (Some key) tp dk row)) = Some (z, epoch).
Proof.
  intros Hp He. unfold message_epoch. rewrite !consumer_field by done. rewrite Hp.
  change (ordered_get "zone_id" (stream_values row.(Outbox.id) dk (edge_revoke_item z why epoch eid).(payload))) with (Some (SStr z)).
  change (ordered_get "epoch" (stream_values row.(Outbox.id) dk (edge_revoke_item z why epoch eid).(payload))) with (Some (SStr (pretty epoch))).
  cbn iota beta. rewrite Number_pretty by done. by rewrite (proj2 (Z.leb_le 0 epoch)) by lia.
Qed.
End published.

(** ** Later calls of the store *)

(** Writes with the store's default lifetime, as the consumers make them. *)
Definition default_life (op : Op) : Prop :=
  match op with OpMarkRevoked _ ttl => ttl = None | OpMarkEpoch _ _ ttl => ttl = None | _ => True end.

Lemma in_order_after t ops : in_order t ops -> Forall (fun co => t <= co.1.(now)) ops.
Proof.
  revert t. induction ops as [|[c op] ops IH]; intros t; cbn; [constructor|]. intros [Ht Ho]. constructor; [done|].
  eapply Forall_impl; [by apply IH|]. cbn. lia.
Qed.

Lemma default_outlasts t ttl0 e key ops :
  in_order t ops -> Forall (fun co => default_life co.2) ops -> e <= t + millis ttl0 -> Forall (outlasts ttl0 e key) ops.
Proof.
  intros Ho%in_order_after Hd He. apply Forall_forall. intros [c op] Hin.
  apply (proj1 (Forall_forall _ _) Ho) in Hin as Ht. apply (proj1 (Forall_forall _ _) Hd) in Hin. cbn in *.
  unfold outlasts. destruct op; cbn in *; auto; intros _; subst; cbn; lia.
Qed.

Lemma in_order_before t t' ops : in_order t ops -> clock_after t ops < t' -> Forall (fun co => co.1.(now) < t') ops.
Proof.
  revert t. induction ops as [|[c op] ops IH]; intros t; cbn; [constructor|]. intros [Ht Ho] Hc. constructor; [|by eapply IH].
  clear IH. cbn. revert c Ht Ho Hc. induction ops as [|[c' op'] ops IH]; intros c Ht Ho Hc; cbn in *; [done|].
  destruct Ho as [? Ho]. specialize (IH c' ltac:(lia) Ho Hc). lia.
Qed.

(** ** The composition *)

Section composition.
Context `{Env} `{RedisLaws} `{RedisConsumer.StreamServer} `{Identity.JwtVerifier}.
Context (calls : nat -> Call) (store : RedisStore.Options) (o : RedisConsumer.Consumer).
Hypothesis Hord : ordered_calls calls.

(** What a resource server with this store does later: calls of the store, in order and
    for ids the store covers, of which those that write one of the [kept] keys again give
    it a lifetime that does not end before [e]; then an authentication that is over before
    [e].  A later mark of the same anchor replaces the deadline of the first, so a write
    with a shorter lifetime would bring the mandate back ([short_mark_revives]). *)
Definition later_run (st' : RedisConsumer.State) (kept : list string) (e : Z) (ops : list (Call * Op)) (calls' : nat -> Call)
  : Prop :=
  in_order (calls st'.(RedisConsumer.sent)).(now) ops /\ Forall (fun co => RedisStore.covers co.2 = true) ops
  /\ Forall (fun co => Forall (fun k => outlasts store.(RedisStore.defaultTtlMs) e k co) kept) ops /\ ordered_calls calls'
  /\ clock_after (calls st'.(RedisConsumer.sent)).(now) ops <= (calls' 0%nat).(now) /\ (forall j, (calls' j).(now) < e).

Definition later_store (ops : list (Call * Op)) (st' : RedisConsumer.State) : rdb :=
  (run_ops (H := RedisStore.store store) ops st'.(RedisConsumer.kv)).1.

(** Writes with the store's default lifetime, the only ones the consumers make, are such
    calls for every key. *)
Lemma default_later st' kept e ops :
  in_order (calls st'.(RedisConsumer.sent)).(now) ops -> Forall (fun co => default_life co.2) ops ->
  e <= horizon calls store st' ->
  Forall (fun co => Forall (fun k => outlasts store.(RedisStore.defaultTtlMs) e k co) kept) ops.
Proof.
  intros Ho Hd He. apply Forall_forall. intros co Hco. apply Forall_forall. intros k _.
  exact (proj1 (Forall_forall _ _) (default_outlasts _ _ _ k _ Ho Hd He) co Hco).
Qed.

Lemma kept_outlasts kept e (ops : list (Call * Op)) k :
  Forall (fun co => Forall (fun k => outlasts store.(RedisStore.defaultTtlMs) e k co) kept) ops -> k ∈ kept ->
  Forall (outlasts store.(RedisStore.defaultTtlMs) e k) ops.
Proof. intros Ho Hk. eapply Forall_impl; [exact Ho|]. cbn. intros co Hco. exact (proj1 (Forall_forall _ _) Hco k Hk). Qed.

(** What the store remembers of the kept keys until [e] it still remembers after a later run. *)
Lemma later_remembers st' m' kept e ops calls' :
  holds calls store st' m' -> later_run st' kept e ops calls' ->
  exists m2, RedisStore.refines store (calls' 0%nat).(now) (later_store ops st') m2
  /\ (forall a, a ∈ kept -> revoked_until a e m' -> revoked_until a e m2)
  /\ (forall z n, z ∈ kept -> epoch_until z n e m' -> epoch_until z n e m2).
Proof.
  intros Hh (Hin & Hcov & Hdef & Ho & Hclk & Ht).
  destruct (contract_runs (H := RedisStore.store store) (H0 := RedisStore.contract store) ops _ st'.(RedisConsumer.kv) m' Hcov Hin Hh) as (m2 & Hrun & Habs).
  exists m2. split_and!.
  - eapply RedisStore.redis_refines_later; [exact Hclk|exact Habs].
  - intros a Ha. eapply spec_run_revoked; [exact Hrun|]. by eapply kept_outlasts.
  - intros z n Hz. eapply spec_run_epoch; [exact Hrun|by eapply kept_outlasts|].
    eapply in_order_before; [exact Hin|]. specialize (Ht 0%nat). lia.
Qed.

(** C30. A revoked Session loses its mandates at the resource server: when the announcement
    of an ended or suspended Session, signed and published by the coordinator, is among
    the messages a consumer reads, its commands are delivered, the store's default lifetime
    is positive, and no message names an anchor that is empty or begins with the prefix of
    the epoch keys ([proper_message]), every message is handled; and
    from then on until the lifetime of the mark ends no mandate naming the Session or its
    authority record is accepted, whichever reads of the authentication get lost.  This
    holds after any later calls of the store for ids it covers (not empty, no anchor that
    begins with the epoch prefix, epochs that are safe integers), with any lifetimes,
    provided a later write for the Session or the authority record itself is not given a
    lifetime that ends earlier, as the consumers' own writes are not ([default_later]);
    the ids in the mandate are covered ones too. *)
Theorem revocation_reaches_resource st m n messages key dk row mid k z kr why :
  (forall i, (calls i).(fate) = Delivered) -> 0 < ttl store -> holds calls store st m ->
  o.(RedisConsumer.streamHmacKey) = Some key -> o.(RedisConsumer.stream) = SessionsRevoke ->
  row.(Outbox.payload_json) = (revoke_item k z kr why).(payload) ->
  (mid, streamFields (Some key) SessionsRevoke dk row) ∈ messages -> Forall proper_message messages ->
  let '(st', r) := RedisConsumer.process_messages (RedisConsumer.processRevocation calls store o) n messages st in
  r = Ok (n + Z.of_nat (length messages))
  /\ forall ops calls' verifyMs nowMs keySet token deps c,
     later_run st' [kr.2.(Session.subject_authority_record_id); kr.1] (horizon calls store st) ops calls' ->
     covered (H0 := RedisStore.contract store) c ->
     c.(Identity.authorityRecordId) = kr.2.(Session.subject_authority_record_id)
     \/ c.(Identity.rootAuthorityRecordId) = kr.2.(Session.subject_authority_record_id)
     \/ c.(Identity.sessionId) = Some kr.1 ->
     (Mandate.authenticate (H := RedisStore.store store) calls' verifyMs nowMs keySet token deps (later_store ops st')).2
     <> Mandate.Accepted c.
Proof.
  intros Hall Httl Hh Hkey Hstream Hpay Hin Hprop.
  pose proof (process_messages_all calls store o Hord messages n st m Hall Httl Hprop Hh) as Hm.
  destruct (RedisConsumer.process_messages _ n messages st) as [st' r]. destruct Hm as (-> & _ & Hle & m' & Hh' & _ & Hrev).
  split; [done|]. intros ops calls' verifyMs nowMs keySet token deps c Hlater Hcov Hnames Hacc.
  destruct (authenticate_verified _ _ _ _ _ _ _ _ Hacc) as (_ & _ & Hv & _).
  apply IdentityFacts.verify_ok in Hv as [[Hreq _ _ _ _ Hopt _ _ _ _] _].
  repeat match goal with H : Forall _ (_ :: _) |- _ => apply Forall_cons in H as [? H] end.
  assert (exists a, a ∈ Mandate.revocationAnchors c /\ a <> ""
    /\ (a = kr.2.(Session.subject_authority_record_id) \/ a = kr.1)) as (a & Hca & Hne & Ha).
  { destruct Hnames as [Hx|[Hx|Hx]].
    - exists (Identity.authorityRecordId c). split_and!; [apply elem_of_anchors; auto|done|auto].
    - exists (Identity.rootAuthorityRecordId c). split_and!; [apply elem_of_anchors; auto|done|auto].
    - assert (kr.1 <> "") by (unfold IdentityFacts.opt_string in *; congruence).
      exists kr.1. split_and!; [apply elem_of_anchors; auto|done|auto]. }
  destruct (later_remembers _ _ _ _ _ _ Hh' Hlater) as (m2 & Habs & Hr & _).
  destruct Hlater as (_ & _ & _ & Ho' & _ & Ht').
  refine (remembered_refused (H0 := RedisStore.contract store) calls' verifyMs nowMs keySet token deps
    (later_store ops st') m2 c (horizon calls store st) Ho' Ht' Habs Hcov _ Hacc).
  left. exists a. split; [done|]. apply Hr; [set_solver|]. apply Hrev. exists mid, (streamFields (Some key) SessionsRevoke dk row).
  split_and!; [done|rewrite <-Hstream; by apply consumer_verifies|]. by apply (revoke_item_anchors _ _ _ _ _ _ _ _ Hpay).
Qed.

(** A newer delegation epoch makes mandates stale at the resource server: when the
    announcement of a revoked delegation, signed and published by the coordinator, is
    consumed with its commands delivered and its epoch is news to the store, no mandate of
    the zone issued under a smaller epoch is accepted until the lifetime of the mark ends,
    under the same conditions on later calls. *)
Theorem epoch_reaches_resource st m key dk row mid z why epoch eid :
  (forall i, (calls i).(fate) = Delivered) -> 0 < ttl store -> holds calls store st m ->
  o.(RedisConsumer.streamHmacKey) = Some key -> o.(RedisConsumer.stream) = DelegationsInvalidate ->
  row.(Outbox.payload_json) = (edge_revoke_item z why epoch eid).(payload) -> z <> "" ->
  spec_epoch (calls st.(RedisConsumer.sent)).(now) z m < epoch <= MAX_SAFE_INTEGER -> 0 <= epoch ->
  let '(st', r) := RedisConsumer.processInvalidation calls store o (mid, streamFields (Some key) DelegationsInvalidate dk row) st in
  r = Ok tt
  /\ forall ops calls' verifyMs nowMs keySet token deps c g,
     later_run st' [z] (horizon calls store st) ops calls' -> covered (H0 := RedisStore.contract store) c ->
     c.(Identity.c_zoneId) = z -> c.(Identity.graphEpoch) = Some g -> g < epoch ->
     (Mandate.authenticate (H := RedisStore.store store) calls' verifyMs nowMs keySet token deps (later_store ops st')).2
     <> Mandate.Accepted c.
Proof.
  intros Hall Httl Hh Hkey Hstream Hpay Hz Hepoch He0.
  pose proof (edge_revoke_epoch key DelegationsInvalidate dk row z why epoch eid Hpay ltac:(lia)) as Hmsg.
  pose proof (processInvalidation_handles calls store o Hord mid (streamFields (Some key) DelegationsInvalidate dk row) st m Hh) as Hp.
  destruct (RedisConsumer.processInvalidation _ _ _ _ st) as [st' r].
  destruct Hp as (m' & Hle & Hh' & _ & _ & Hdone); [intros z' n' Hm; rewrite Hmsg in Hm; by simplify_eq|].
  destruct (Hdone Hall Httl) as (-> & _ & Heff). split; [done|].
  assert (epoch_until z epoch (horizon calls store st) m') as Hep.
  { unfold invalidation_effect in Heff. rewrite <-Hstream, consumer_verifies in Heff by done. rewrite Hstream, Hmsg in Heff.
    apply Heff. lia. }
  intros ops calls' verifyMs nowMs keySet token deps c g Hlater Hcov Hcz Hg Hlt.
  destruct (later_remembers _ _ _ _ _ _ Hh' Hlater) as (m2 & Habs & _ & Hr).
  destruct Hlater as (_ & _ & _ & Ho' & _ & Ht').
  apply (remembered_refused (H0 := RedisStore.contract store) calls' verifyMs nowMs keySet token deps
    (later_store ops st') m2 c (horizon calls store st) Ho' Ht' Habs Hcov).
  right. exists epoch, g. split_and!; [done|done|lia|lia|rewrite Hcz; apply Hr; [set_solver|done]].
Qed.
End composition.
End EndToEnd.
