(* ===== verification/JsonText.v ===== *)
(** * JSON text

    [JSON.parse], [JSON.stringify] and [String(value)] on the values of [Json.v], with
    the printing of numbers, as the admin client, the dispatcher, the reconciler and
    the audit sink use them.  Text is UTF-8; a lone surrogate is kept in its three-byte
    form.  The parser is proved to read back what the printer writes. *)

From Stdlib Require Import Ascii.
From Stdlib Require String.
From S2P Require Import Prelude.
From S2P Require Import Json.
From S2P Require Import Scope.
From S2P Require Import Numbers.
Local Open Scope string_scope.
Local Open Scope Z_scope.

(** ** Numbers as text *)

(** Decimal exponent [p] with [10^(p-1) <= n/d < 10^p], for a positive quotient: the
    estimate from the binary logarithms is at most one too small. *)
Fixpoint decimal_exponent (fuel : nat) (p n d : Z) : Z :=
  match fuel with
  | O => p
  | S f => if (if 0 <=? p then n <? d * 10 ^ p else n * 10 ^ (- p) <? d) then p
           else decimal_exponent f (p + 1) n d
  end.

(** The double with the decimal digits [s] and exponent [e]. *)
Definition of_digits (neg : bool) (s e : Z) : number :=
  if 0 <=? e then round_double neg (s * 10 ^ e) 1 else round_double neg s (10 ^ (- e)).

Definition same_number (x y : number) : bool :=
  match x, y with
  | Finite s m e, Finite s' m' e' =>
      eqb s s' && (m * 2 ^ (Z.max e e' - e') =? m' * 2 ^ (Z.max e e' - e))
  | _, _ => false
  end.

(** The digits of least length that denote [x = n/d], with their exponent. *)
Fixpoint shortest (fuel : nat) (k : Z) (x : number) (n d p : Z) : Z * Z :=
  match fuel with
  | O => (0, 0)
  | S f =>
      let e := p - k in
      let '(u, v) := if 0 <=? e then (n, d * 10 ^ e) else (n * 10 ^ (- e), d) in
      let lo := u / v in
      let near := if v <? 2 * (u `mod` v) then [lo + 1; lo] else [lo; lo + 1] in
      match find_first (fun s => same_number (of_digits false s e) x) near with
      | Some s => (s, e)
      | None => shortest f (k + 1) x n d p
      end
  end.

Fixpoint zeros (n : nat) : string :=
  match n with O => "" | S m => "0" +:+ zeros m end.

(** [Number::toString] on the digits [s] (not divisible by ten) times [10^e]. *)
Definition layout (s e : Z) : string :=
  let ds := pretty s in
  let k := Z.of_nat (String.length ds) in
  let n := e + k in
  if (k <=? n) && (n <=? 21) then ds +:+ zeros (Z.to_nat (n - k))
  else if (0 <? n) && (n <=? 21) then
    String.substring 0 (Z.to_nat n) ds +:+ "." +:+ String.substring (Z.to_nat n) (Z.to_nat (k - n)) ds
  else if (-6 <? n) && (n <=? 0) then "0." +:+ zeros (Z.to_nat (- n)) +:+ ds
  else
    let exponent := (if n - 1 <? 0 then "-" else "+") +:+ pretty (Z.abs (n - 1)) in
    if k =? 1 then ds +:+ "e" +:+ exponent
    else String.substring 0 1 ds +:+ "." +:+ String.substring 1 (Z.to_nat (k - 1)) ds +:+ "e" +:+ exponent.

(** Digits without their trailing zeros. *)
Fixpoint strip_tens (fuel : nat) (s e : Z) : Z * Z :=
  match fuel with
  | O => (s, e)
  | S f => if (s =? 0) || negb (s `mod` 10 =? 0) then (s, e) else strip_tens f (s / 10) (e + 1)
  end.

(** [String(x)] of a number. *)
Definition Number_to_string (x : number) : string :=
  match x with
  | NaN => "NaN"
  | Infinite neg => (if neg then "-" else "") +:+ "Infinity"
  | Finite neg m e =>
      if m =? 0 then "0"
      else
        let '(n, d) := if 0 <=? e then (m * 2 ^ e, 1) else (m, 2 ^ (- e)) in
        let p := decimal_exponent 4 ((Z.log2 n - Z.log2 d - 1) * 30103 / 100000) n d in
        let '(s, exp10) := shortest 17 1 (Finite false m e) n d p in
        let '(s, exp10) := strip_tens 20 s exp10 in
        (if neg then "-" else "") +:+ layout s exp10
  end.

(** A number as a JSON value: a safe integer, or the text it prints as. *)
Definition json_of_number (x : number) : json :=
  match safe_integer x with
  | Some k => JNum k
  | None => match x with
            | NaN | Infinite _ => JNonFinite
            | Finite _ _ _ => JDec (Number_to_string x)
            end
  end.

Example Number_to_string_samples :
  Number_to_string <$> (Number <$> ["0.1"; "-2.50"; "1e21"; "123456789012345680000"; "5e-324"; "1e-7"; "0.000001"; "9007199254740993"; "1.7976931348623157e308"])
  = ["0.1"; "-2.5"; "1e+21"; "123456789012345680000"; "5e-324"; "1e-7"; "0.000001"; "9007199254740992"; "1.7976931348623157e+308"].
Proof. vm_compute. reflexivity. Qed.

(** ** [JSON.stringify] and [String(value)] *)

(** [None] is [undefined]: an omitted property, [null] inside an array. *)
Fixpoint JSON_stringify (value : json) : option string :=
  match value with
  | JUndefined => None
  | JNull | JNonFinite => Some "null"
  | JBool b => Some (if b then "true" else "false")
  | JNum n => Some (pretty n)
  | JDec literal => Some literal
  | JStr s => Some (stringify_string s)
  | JArr xs =>
      let parts := (fix go l := match l with
                                | [] => []
                                | x :: l' => default_to "null" (JSON_stringify x) :: go l'
                                end) xs in
      Some ("[" +:+ string_concat "," parts +:+ "]")
  | JObj fields =>
      let parts := (fix go l := match l with
                                | [] => []
                                | (k, x) :: l' =>
                                    match JSON_stringify x with
                                    | Some s => (stringify_string k +:+ ":" +:+ s) :: go l'
                                    | None => go l'
                                    end
                                end) fields in
      Some ("{" +:+ string_concat "," parts +:+ "}")
  end.

(** [String(value)]; an array joins its elements, [null] and [undefined] as nothing. *)
Fixpoint js_String (value : json) : string :=
  match value with
  | JUndefined => "undefined"
  | JNull => "null"
  | JBool b => if b then "true" else "false"
  | JNum n => pretty n
  | JDec literal => literal
  | JNonFinite => "Infinity"
  | JStr s => s
  | JArr xs =>
      string_concat "," ((fix go l := match l with
                                      | [] => []
                                      | x :: l' => match x with
                                                   | JUndefined | JNull => ""
                                                   | _ => js_String x
                                                   end :: go l'
                                      end) xs)
  | JObj _ => "[object Object]"
  end.

(** [Boolean(value)]. *)
Definition truthy (value : json) : bool :=
  match value with
  | JUndefined | JNull => false
  | JBool b => b
  | JNum n => negb (n =? 0)
  | JStr s => negb (bool_decide (s = ""))
  | JDec _ | JNonFinite | JArr _ | JObj _ => true
  end.

(** [Array.isArray(value)]. *)
Definition isArray (value : json) : bool := match value with JArr _ => true | _ => false end.

(** [value !== null && typeof value === 'object' && !Array.isArray(value)]. *)
Definition is_object (value : json) : bool := match value with JObj _ => true | _ => false end.

Definition as_string (value : json) : option string := match value with JStr s => Some s | _ => None end.

(** [a ?? b]. *)
Definition nullish (a b : json) : json := match a with JUndefined | JNull => b | _ => a end.

(** ** [JSON.parse] *)

Definition is_json_ws (c : ascii) : bool :=
  let n := nat_of_ascii c in bool_decide (n = 32 \/ n = 9 \/ n = 10 \/ n = 13)%nat.

Fixpoint skip_ws (s : string) : string :=
  match s with
  | String.String c rest => if is_json_ws c then skip_ws rest else s
  | String.EmptyString => s
  end.

Definition hex_value (c : ascii) : option Z :=
  let n := Z.of_nat (nat_of_ascii c) in
  if (48 <=? n) && (n <=? 57) then Some (n - 48)
  else if (97 <=? n) && (n <=? 102) then Some (n - 87)
  else if (65 <=? n) && (n <=? 70) then Some (n - 55)
  else None.

(** The four hexadecimal digits of a [\u] escape. *)
Definition hex4 (s : string) : option (Z * string) :=
  match s with
  | String.String a (String.String b (String.String c (String.String d rest))) =>
      match hex_value a, hex_value b, hex_value c, hex_value d with
      | Some x, Some y, Some z, Some w => Some (x * 4096 + y * 256 + z * 16 + w, rest)
      | _, _, _, _ => None
      end
  | _ => None
  end.

Definition byte (n : Z) : ascii := ascii_of_nat (Z.to_nat n).

(** The UTF-8 encoding of a code point. *)
Definition utf8 (n : Z) : string :=
  if n <? 128 then String.String (byte n) ""
  else if n <? 2048 then String.String (byte (192 + n / 64)) (String.String (byte (128 + n `mod` 64)) "")
  else if n <? 65536 then
    String.String (byte (224 + n / 4096))
      (String.String (byte (128 + n / 64 `mod` 64)) (String.String (byte (128 + n `mod` 64)) ""))
  else
    String.String (byte (240 + n / 262144))
      (String.String (byte (128 + n / 4096 `mod` 64))
        (String.String (byte (128 + n / 64 `mod` 64)) (String.String (byte (128 + n `mod` 64)) ""))).

(** The low surrogate that pairs with a high one, when the text goes on with it. *)
Definition low_surrogate (s : string) : option (Z * string) :=
  match s with
  | String.String b (String.String u rest) =>
      if bool_decide (b = "\"%char) && bool_decide (u = "u"%char) then
        match hex4 rest with
        | Some (n, rest') => if (56320 <=? n) && (n <? 57344) then Some (n, rest') else None
        | None => None
        end
      else None
  | _ => None
  end.

(** The character of a one-letter escape. *)
Definition simple_escape (c : ascii) : option ascii :=
  let n := nat_of_ascii c in
  if bool_decide (n = 34 \/ n = 92 \/ n = 47)%nat then Some c
  else if bool_decide (n = 98)%nat then Some (ascii_of_nat 8)
  else if bool_decide (n = 102)%nat then Some (ascii_of_nat 12)
  else if bool_decide (n = 110)%nat then Some (ascii_of_nat 10)
  else if bool_decide (n = 114)%nat then Some (ascii_of_nat 13)
  else if bool_decide (n = 116)%nat then Some (ascii_of_nat 9)
  else None.

(** The rest of a string literal after its opening quote: the text and what follows
    the closing quote. *)
Fixpoint parse_string (fuel : nat) (s : string) : option (string * string) :=
  match fuel, s with
  | S f, String.String c rest =>
      if bool_decide (nat_of_ascii c = 34)%nat then Some ("", rest)
      else if bool_decide (nat_of_ascii c < 32)%nat then None
      else if bool_decide (c = "\"%char) then
        match rest with
        | String.String e rest' =>
            if bool_decide (e = "u"%char) then
              match hex4 rest' with
              | Some (n, after) =>
                  let '(text, after) :=
                    if (55296 <=? n) && (n <? 56320) then
                      match low_surrogate after with
                      | Some (m, after') => (utf8 (65536 + (n - 55296) * 1024 + (m - 56320)), after')
                      | None => (utf8 n, after)
                      end
                    else (utf8 n, after) in
                  match parse_string f after with
                  | Some (more, remaining) => Some (text +:+ more, remaining)
                  | None => None
                  end
              | None => None
              end
            else match simple_escape e, parse_string f rest' with
                 | Some x, Some (more, remaining) => Some (String.String x more, remaining)
                 | _, _ => None
                 end
        | String.EmptyString => None
        end
      else match parse_string f rest with
           | Some (more, remaining) => Some (String.String c more, remaining)
           | None => None
           end
  | _, _ => None
  end.

(** The run of decimal digits at the head of a text. *)
Fixpoint digit_run (s : string) : string * string :=
  match s with
  | String.String c rest =>
      match digit_value c with
      | Some _ => let '(ds, r) := digit_run rest in (String.String c ds, r)
      | None => ("", s)
      end
  | String.EmptyString => ("", s)
  end.

(** The fraction and exponent parts: the text they take and what follows. *)
Definition fraction_part (s : string) : option (string * string) :=
  match s with
  | String.String c rest =>
      if bool_decide (c = "."%char) then
        match digit_run rest with
        | (String.EmptyString, _) => None
        | (ds, r) => Some (String.String c ds, r)
        end
      else Some ("", s)
  | String.EmptyString => Some ("", s)
  end.

Definition exponent_part (s : string) : option (string * string) :=
  match s with
  | String.String c rest =>
      if bool_decide (c = "e"%char) || bool_decide (c = "E"%char) then
        let '(sign, rest) := match rest with
                             | String.String g r =>
                                 if bool_decide (g = "+"%char) || bool_decide (g = "-"%char)
                                 then (String.String g "", r) else ("", rest)
                             | String.EmptyString => ("", rest)
                             end in
        match digit_run rest with
        | (String.EmptyString, _) => None
        | (ds, r) => Some (String.String c (sign +:+ ds), r)
        end
      else Some ("", s)
  | String.EmptyString => Some ("", s)
  end.

(** A number literal: an integer part without a redundant zero, then the rest. *)
Definition parse_number (s : string) : option (json * string) :=
  let '(sign, body) := match s with
                       | String.String c rest => if bool_decide (c = "-"%char) then ("-", rest) else ("", s)
                       | String.EmptyString => ("", s)
                       end in
  let '(ds, r1) := digit_run body in
  match ds with
  | String.EmptyString => None
  | String.String c more =>
      if bool_decide (c = "0"%char) && negb (bool_decide (more = "")) then None
      else match fraction_part r1 with
           | Some (frac, r2) =>
               match exponent_part r2 with
               | Some (exp, r3) => Some (json_of_number (Number (sign +:+ ds +:+ frac +:+ exp)), r3)
               | None => None
               end
           | None => None
           end
  end.

(** An array index: a canonical decimal below [2^32 - 1]. *)
Definition index_key (k : string) : option Z :=
  if negb (all_digits k) || bool_decide (k = "") then None
  else let n := decimal_value k in
       if bool_decide (pretty n = k) && (n <? 4294967295) then Some n else None.

Definition is_index (kv : string * json) : Prop := is_Some (index_key kv.1).

#[export] Instance is_index_dec kv : Decision (is_index kv).
Proof. unfold is_index. apply _. Defined.

Definition index_le (a b : string * json) : Prop :=
  default_to 0 (index_key a.1) <= default_to 0 (index_key b.1).

#[export] Instance index_le_dec : RelDecision index_le.
Proof. intros a b. unfold index_le. apply _. Defined.

(** The enumeration order of an object's own properties: indices first. *)
Definition own_order (fields : list (string * json)) : list (string * json) :=
  merge_sort index_le (filter is_index fields) ++ filter (fun kv => ~ is_index kv) fields.

Fixpoint parse_value (fuel : nat) (s : string) : option (json * string) :=
  match fuel with
  | O => None
  | S f =>
      match skip_ws s with
      | String.EmptyString => None
      | String.String c rest =>
          if bool_decide (nat_of_ascii c = 34)%nat then
            match parse_string (S (String.length rest)) rest with
            | Some (text, remaining) => Some (JStr text, remaining)
            | None => None
            end
          else if bool_decide (c = "["%char) then
            match skip_ws rest with
            | String.String e remaining => if bool_decide (e = "]"%char) then Some (JArr [], remaining) else parse_elements f [] rest
            | String.EmptyString => None
            end
          else if bool_decide (c = "{"%char) then
            match skip_ws rest with
            | String.String e remaining => if bool_decide (e = "}"%char) then Some (JObj [], remaining) else parse_members f [] rest
            | String.EmptyString => None
            end
          else if String.prefix "true" (String.String c rest) then Some (JBool true, String.substring 4 (String.length rest) (String.String c rest))
          else if String.prefix "false" (String.String c rest) then Some (JBool false, String.substring 5 (String.length rest) (String.String c rest))
          else if String.prefix "null" (String.String c rest) then Some (JNull, String.substring 4 (String.length rest) (String.String c rest))
          else parse_number (String.String c rest)
      end
  end
with parse_elements (fuel : nat) (acc : list json) (s : string) : option (json * string) :=
  match fuel with
  | O => None
  | S f =>
      match parse_value f s with
      | None => None
      | Some (v, r) =>
          match skip_ws r with
          | String.EmptyString => None
          | String.String c remaining =>
              if bool_decide (c = ","%char) then parse_elements f (acc ++ [v]) remaining
              else if bool_decide (c = "]"%char) then Some (JArr (acc ++ [v]), remaining)
              else None
          end
      end
  end
with parse_members (fuel : nat) (acc : list (string * json)) (s : string) : option (json * string) :=
  match fuel with
  | O => None
  | S f =>
      match skip_ws s with
      | String.EmptyString => None
      | String.String q rest =>
          if negb (bool_decide (nat_of_ascii q = 34)%nat) then None
          else match parse_string (S (String.length rest)) rest with
               | None => None
               | Some (key, r) =>
                   match skip_ws r with
                   | String.EmptyString => None
                   | String.String colon r1 =>
                       if negb (bool_decide (colon = ":"%char)) then None
                       else match parse_value f r1 with
                            | None => None
                            | Some (v, r2) =>
                                match skip_ws r2 with
                                | String.EmptyString => None
                                | String.String c remaining =>
                                    let acc := ordered_set key v acc in
                                    if bool_decide (c = ","%char) then parse_members f acc remaining
                                    else if bool_decide (c = "}"%char) then Some (JObj (own_order acc), remaining)
                                    else None
                                end
                            end
                   end
               end
      end
  end.

(** [JSON.parse]: [None] is its [SyntaxError].  Every recursive call follows the
    consumption of a character, so the length bounds the depth. *)
Definition JSON_parse (text : string) : option json :=
  match parse_value (S (String.length text)) text with
  | Some (v, remaining) => if bool_decide (skip_ws remaining = "") then Some v else None
  | None => None
  end.

(** ** Reading back what was printed *)

Fixpoint json_nested_ind (P : json -> Prop)
    (Hundef : P JUndefined) (Hnull : P JNull) (Hbool : forall b, P (JBool b)) (Hnum : forall n, P (JNum n))
    (Hdec : forall l, P (JDec l)) (Hnon : P JNonFinite) (Hstr : forall s, P (JStr s))
    (Harr : forall xs, Forall P xs -> P (JArr xs))
    (Hobj : forall fields, Forall (fun kv => P kv.2) fields -> P (JObj fields))
    (v : json) : P v :=
  let rec := json_nested_ind P Hundef Hnull Hbool Hnum Hdec Hnon Hstr Harr Hobj in
  match v with
  | JUndefined => Hundef
  | JNull => Hnull
  | JBool b => Hbool b
  | JNum n => Hnum n
  | JDec l => Hdec l
  | JNonFinite => Hnon
  | JStr s => Hstr s
  | JArr xs => Harr xs ((fix go l : Forall P l :=
                           match l with [] => Forall_nil_2 _ | x :: l' => Forall_cons_2 _ _ _ (rec x) (go l') end) xs)
  | JObj fields => Hobj fields ((fix go l : Forall (fun kv => P kv.2) l :=
                                   match l with
                                   | [] => Forall_nil_2 _
                                   | kv :: l' => Forall_cons_2 _ _ _ (rec kv.2) (go l')
                                   end) fields)
  end.

(** A value that survives a round trip: no [undefined], no number outside the safe
    integers, and properties that are distinct and in enumeration order. *)
Inductive plain : json -> Prop :=
| plain_null : plain JNull
| plain_bool b : plain (JBool b)
| plain_num n : Z.abs n <= MAX_SAFE_INTEGER -> plain (JNum n)
| plain_str s : plain (JStr s)
| plain_arr xs : Forall plain xs -> plain (JArr xs)
| plain_obj fields :
    NoDup fields.*1 -> own_order fields = fields -> Forall (fun kv => plain kv.2) fields -> plain (JObj fields).

Definition text (v : json) : string := default_to "null" (JSON_stringify v).

Definition member_text (kv : string * json) : string := stringify_string kv.1 +:+ ":" +:+ text kv.2.

Lemma text_arr xs : text (JArr xs) = "[" +:+ string_concat "," (text <$> xs) +:+ "]".
Proof. reflexivity. Qed.

Lemma plain_some v : plain v -> JSON_stringify v = Some (text v).
Proof. unfold text. by destruct 1. Qed.

Lemma text_obj fields :
  Forall (fun kv => plain kv.2) fields ->
  text (JObj fields) = "{" +:+ string_concat "," (member_text <$> fields) +:+ "}".
Proof.
  intros Hf. unfold text. cbn [JSON_stringify default_to]. do 3 f_equal.
  induction Hf as [|[k v] fields Hv Hf IH]; [done|]. rewrite fmap_cons.
  rewrite (plain_some v Hv). unfold member_text at 1. cbn [fst snd]. by f_equal.
Qed.

(** *** Strings *)

Lemma length_string_app (a b : string) : String.length (a +:+ b) = (String.length a + String.length b)%nat.
Proof. induction a as [|c a IH]; [done|]. exact (f_equal S IH). Qed.

Lemma parse_string_char f c r :
  parse_string (S f) (escape_char c +:+ r)
  = match parse_string f r with Some (more, remaining) => Some (String.String c more, remaining) | None => None end.
Proof. destruct c as [[] [] [] [] [] [] [] []]; reflexivity. Qed.

Lemma parse_string_escape s f rest :
  (String.length (escape_string s) < f)%nat ->
  parse_string f (escape_string s +:+ quote +:+ rest) = Some (s, rest).
Proof.
  revert f. induction s as [|c s IH]; intros f Hf; destruct f as [|f]; cbn in Hf; try lia; [done|].
  cbn [escape_string] in *. rewrite string_app_assoc. rewrite parse_string_char.
  rewrite IH; [done|]. rewrite length_string_app in Hf.
  enough (1 <= String.length (escape_char c))%nat by lia.
  destruct c as [[] [] [] [] [] [] [] []]; vm_compute; lia.
Qed.

Lemma parse_string_quoted s rest :
  parse_string (S (String.length (escape_string s +:+ quote +:+ rest))) (escape_string s +:+ quote +:+ rest) = Some (s, rest).
Proof. apply parse_string_escape. rewrite length_string_app. lia. Qed.

(** *** Numbers *)

(** What may follow a value inside a document. *)
Definition delimited (rest : string) : Prop :=
  match rest with
  | String.EmptyString => True
  | String.String c _ => c = ","%char \/ c = "]"%char \/ c = "}"%char
  end.

Lemma digit_run_all s rest : all_digits s = true -> delimited rest -> digit_run (s +:+ rest) = (s, rest).
Proof.
  intros Hs Hr. induction s as [|c s IH].
  - change ("" +:+ rest) with rest. destruct rest as [|c rest]; [done|]. cbn [digit_run].
    by destruct Hr as [-> | [-> | ->]].
  - cbn [all_digits] in Hs. destruct (digit_value c) eqn:Hc; [|done].
    change (String.String c s +:+ rest) with (String.String c (s +:+ rest)). cbn [digit_run]. by rewrite Hc, IH.
Qed.

Lemma delimited_parts rest : delimited rest -> fraction_part rest = Some ("", rest) /\ exponent_part rest = Some ("", rest).
Proof. destruct rest as [|c rest]; [done|]. by intros [-> | [-> | ->]]. Qed.

Lemma pretty_go_head (x : N) s : (0 < x)%N -> exists c r, pretty_N_go x s = String.String c r /\ c <> "0"%char.
Proof.
  revert s. induction (N.lt_wf_0 x) as [x _ IH]; intros s Hx. rewrite pretty_N_go_step by done.
  destruct (decide (x < 10)%N) as [Hl|Hl].
  - rewrite N.div_small, N.mod_small by done. rewrite pretty_N_go_0. eexists _, _. split; [done|].
    assert (x = 1 \/ x = 2 \/ x = 3 \/ x = 4 \/ x = 5 \/ x = 6 \/ x = 7 \/ x = 8 \/ x = 9)%N as Hc by lia.
    repeat destruct Hc as [->|Hc]; subst; done.
  - apply IH; [by apply N.div_lt|]. apply N.div_str_pos. lia.
Qed.

(** A printed positive number does not begin with a zero. *)
Lemma pretty_head (n : Z) : 0 < n -> exists c r, pretty n = String.String c r /\ c <> "0"%char.
Proof.
  intros Hn. destruct n as [|p|p]; try lia. change (pretty (Z.pos p)) with (pretty (N.pos p)).
  unfold pretty, pretty_N. case_decide; [done|]. apply pretty_go_head. lia.
Qed.

Lemma round_double_opp n d : as_integer (round_double true n d) = Z.opp <$> as_integer (round_double false n d).
Proof.
  assert (forall m e, as_integer (Finite true m e) = Z.opp <$> as_integer (Finite false m e)) as Hs.
  { intros m e. unfold as_integer. by repeat case_match. }
  unfold round_double. repeat case_match; first [apply Hs | done].
Qed.

Lemma trim_minus s : all_digits s = true -> trim (String.String "-" s) = String.String "-" s.
Proof.
  intros Hs. assert (ws_bytes (String.String "-" s) = 0%nat) as Hw.
  { destruct s as [|b [|d s]]; try done. }
  unfold trim. cbn [trim_start]. rewrite Hw. cbn [trim_end all_ws]. rewrite Hw. by rewrite trim_end_digits.
Qed.

(** Rounding is exact on the safe integers, whatever the sign. *)
Lemma Number_signed (neg : bool) (n : Z) :
  0 <= n <= MAX_SAFE_INTEGER ->
  json_of_number (Number ((if neg then "-" else "") +:+ pretty n)) = JNum (if neg then - n else n).
Proof.
  intros Hn. destruct (pretty_all_digits n ltac:(lia)) as [Hd Hne]. destruct (digits_pretty n ltac:(lia)) as (k & Hk & Hdig).
  assert (forall b, decimal_literal b (pretty n) = round_double b n 1) as Hdec.
  { intros b. unfold decimal_literal. rewrite digits_not_infinity, Hdig by done.
    rewrite (proj2 (Z.leb_gt k 0)) by lia. cbn [exponent_of]. rewrite Z.sub_diag.
    change (0 <=? 0 - 0) with true. cbn iota. by rewrite Z.mul_1_r. }
  assert (as_integer (round_double neg n 1) = Some (if neg then - n else n)) as Hint.
  { pose proof (round_double_exact n ltac:(unfold MAX_SAFE_INTEGER in Hn; lia)) as He.
    destruct neg; [|done]. by rewrite round_double_opp, He. }
  assert (Number ((if neg then "-" else "") +:+ pretty n) = round_double neg n 1) as ->.
  { unfold Number. destruct neg.
    - change ("-" +:+ pretty n) with (String.String "-" (pretty n)). rewrite trim_minus by done.
      rewrite bool_decide_eq_false_2 by done.
      assert (radix_prefix (String.String "-" (pretty n)) = None) as -> by (by destruct (pretty n)).
      cbn [sign_of]. apply Hdec.
    - change ("" +:+ pretty n) with (pretty n).
      rewrite trim_digits, bool_decide_eq_false_2, digits_not_radix, digits_no_sign by done. apply Hdec. }
  unfold json_of_number, safe_integer. rewrite Hint. rewrite (proj2 (Z.leb_le _ _)); [done|]. destruct neg; lia.
Qed.

Lemma parse_number_pretty (n : Z) rest :
  Z.abs n <= MAX_SAFE_INTEGER -> delimited rest -> parse_number (pretty n +:+ rest) = Some (JNum n, rest).
Proof.
  intros Hn Hr. destruct (delimited_parts rest Hr) as [Hf He].
  assert (exists neg : bool, pretty n = (if neg then "-" else "") +:+ pretty (Z.abs n) /\ n = if neg then - Z.abs n else Z.abs n)
    as (neg & Hp & Hs).
  { destruct n as [|p|p]; [by exists false|by exists false|by exists true]. }
  destruct (pretty_all_digits (Z.abs n) ltac:(lia)) as [Hd Hne].
  pose proof (Number_signed neg (Z.abs n) ltac:(lia)) as Hnum. rewrite <-Hs in Hnum.
  assert (exists c r, pretty (Z.abs n) = String.String c r /\ (c = "0"%char -> r = "") /\ c <> "-"%char) as (c & r & Hc & Hz & Hm).
  { assert (forall c r, pretty (Z.abs n) = String.String c r -> c <> "-"%char) as Hm.
    { intros c r Hpr ->. by rewrite Hpr in Hd. }
    destruct (decide (n = 0)) as [->|Hn0]; [by exists "0"%char, ""|].
    destruct (pretty_head (Z.abs n) ltac:(lia)) as (c & r & Hpr & Hc). exists c, r. split_and!; [done|done|by eapply Hm]. }
  unfold parse_number.
  assert (match pretty n +:+ rest with
          | String.String c rest' => if bool_decide (c = "-"%char) then ("-", rest') else ("", pretty n +:+ rest)
          | String.EmptyString => ("", pretty n +:+ rest)
          end = ((if neg then "-" else ""), pretty (Z.abs n) +:+ rest)) as ->.
  { rewrite Hp. destruct neg; [done|]. rewrite Hc. change (("" +:+ String.String c r) +:+ rest) with (String.String c (r +:+ rest)).
    change (String.String c r +:+ rest) with (String.String c (r +:+ rest)). cbn beta iota. by rewrite bool_decide_eq_false_2. }
  rewrite digit_run_all by done. rewrite Hc.
  assert (bool_decide (c = "0"%char) && negb (bool_decide (r = "")) = false) as ->.
  { case_bool_decide; [|done]. by rewrite bool_decide_eq_true_2 by auto. }
  rewrite Hf, He, <-Hc. rewrite !string_app_nil_r. by rewrite Hnum.
Qed.

(** *** Documents *)

(** The first character of a printed value opens a value. *)
Definition opens (c : ascii) : Prop := is_json_ws c = false /\ c <> "]"%char.

Lemma text_opens v : plain v -> exists c r, text v = String.String c r /\ opens c.
Proof.
  unfold opens. destruct 1 as [|b|n Hn|s|xs|fields]; unfold text; cbn [JSON_stringify default_to];
    try (by eexists _, _). { by destruct b; eexists _, _. }
  destruct n as [|p|p]; [by eexists _, _| |by eexists _, _].
  destruct (pretty_all_digits (Z.pos p) ltac:(lia)) as [Hd Hne].
  destruct (pretty (Z.pos p)) as [|c r] eqn:Hp; [done|]. exists c, r. split; [done|]. cbn [all_digits] in Hd.
  destruct (digit_value c) eqn:Hc; [|done]. apply digit_char in Hc as [Hc _]. unfold is_json_ws.
  split; [apply bool_decide_eq_false_2; lia|]. intros ->. change (nat_of_ascii "]"%char) with 93%nat in Hc. lia.
Qed.

Lemma skip_opens c r : opens c -> skip_ws (String.String c r) = String.String c r.
Proof. intros [Hw _]. cbn [skip_ws]. by rewrite Hw. Qed.

Lemma substring_full s : String.substring 0 (String.length s) s = s.
Proof. induction s as [|c s IH]; [done|]. cbn [String.length String.substring]. by rewrite IH. Qed.

Lemma substring_more s n : (String.length s <= n)%nat -> String.substring 0 n s = s.
Proof.
  revert n. induction s as [|c s IH]; intros [|n] Hn; cbn [String.length] in Hn; try done; try lia.
  cbn [String.substring]. by rewrite IH by lia.
Qed.

(** [v] is read back from its text, in front of anything that ends a value. *)
Definition reads (v : json) : Prop :=
  forall fuel rest, (String.length (text v) <= fuel)%nat -> delimited rest ->
  parse_value fuel (text v +:+ rest) = Some (v, rest).

Lemma concat_cons sep x y ys : string_concat sep (x :: y :: ys) = x +:+ sep +:+ string_concat sep (y :: ys).
Proof. reflexivity. Qed.

Lemma skip_comma s : skip_ws ("," +:+ s) = String.String "," s.
Proof. reflexivity. Qed.

Lemma elements_read xs fuel acc rest :
  Forall reads xs -> xs <> [] -> (String.length (string_concat "," (text <$> xs)) < fuel)%nat ->
  parse_elements fuel acc (string_concat "," (text <$> xs) +:+ "]" +:+ rest) = Some (JArr (acc ++ xs), rest).
Proof.
  intros Hx. revert fuel acc. induction Hx as [|x xs Hx Hxs IH]; intros fuel acc Hne Hf; [done|].
  destruct fuel as [|f]; [lia|]. cbn [parse_elements]. destruct xs as [|y ys].
  - cbn [fmap list_fmap string_concat] in *. rewrite Hx; [done|lia|by right; left].
  - rewrite !fmap_cons, concat_cons in *. rewrite !string_app_assoc. rewrite !length_string_app in Hf.
    cbn [String.length] in Hf. rewrite Hx; [|lia|by left].
    rewrite skip_comma. cbn beta iota. rewrite bool_decide_eq_true_2 by done.
    rewrite (IH f (acc ++ [x])%list) by first [done | lia]. by rewrite <-app_assoc.
Qed.

Lemma members_read fields fuel acc rest :
  Forall (fun kv => reads kv.2) fields -> fields <> [] -> NoDup (acc ++ fields)%list.*1 ->
  (String.length (string_concat "," (member_text <$> fields)) < fuel)%nat ->
  parse_members fuel acc (string_concat "," (member_text <$> fields) +:+ "}" +:+ rest)
  = Some (JObj (own_order (acc ++ fields)), rest).
Proof.
  intros Hx. revert fuel acc. induction Hx as [|[k x] fields Hx Hxs IH]; intros fuel acc Hne Hnd Hf; [done|].
  destruct fuel as [|f]; [lia|].
  assert (k ∉ acc.*1) as Hk.
  { rewrite fmap_app in Hnd. apply NoDup_app in Hnd as (_ & Hdis & _). intros Hin. apply (Hdis k Hin). rewrite fmap_cons. set_solver. }
  assert (forall f' tail, (String.length (text x) <= f')%nat -> delimited tail ->
    parse_members (S f') acc (member_text (k, x) +:+ tail)
    = match skip_ws tail with
      | String.EmptyString => None
      | String.String c remaining =>
          if bool_decide (c = ","%char) then parse_members f' (acc ++ [(k, x)]) remaining
          else if bool_decide (c = "}"%char) then Some (JObj (own_order (acc ++ [(k, x)])), remaining) else None
      end) as Hone.
  { intros f' tail Hf' Hd. unfold member_text, stringify_string. cbn [fst snd]. rewrite !string_app_assoc.
    change (quote +:+ ?s) with (String.String (ascii_of_nat 34) s) at 1. cbn [parse_members].
    assert (forall s, skip_ws (String.String (ascii_of_nat 34) s) = String.String (ascii_of_nat 34) s) as -> by done.
    rewrite bool_decide_eq_true_2 by done. cbn [negb]. rewrite parse_string_quoted.
    assert (forall s, skip_ws (":" +:+ s) = String.String ":" s) as -> by done.
    rewrite bool_decide_eq_true_2 by done. cbn [negb]. rewrite Hx by done.
    cbn [snd]. by rewrite (ordered_set_fresh k x acc Hk). }
  assert (String.length (text x) <= String.length (member_text (k, x)))%nat as Hlen.
  { unfold member_text. rewrite !length_string_app. cbn [snd]. lia. }
  destruct fields as [|y ys].
  - cbn [fmap list_fmap string_concat] in *. rewrite Hone; [done|lia|by right; right].
  - rewrite !fmap_cons, concat_cons in *. rewrite !string_app_assoc. rewrite !length_string_app in Hf.
    cbn [String.length] in Hf. rewrite Hone; [|lia|by left]. rewrite skip_comma. cbn beta iota.
    rewrite bool_decide_eq_true_2 by done. 
    rewrite (IH f (acc ++ [(k, x)])%list); [by rewrite <-app_assoc|done|by rewrite <-app_assoc|lia].
Qed.

(** The three keywords. *)
Lemma keyword_read f rest :
  parse_value (S f) ("null" +:+ rest) = Some (JNull, rest)
  /\ parse_value (S f) ("true" +:+ rest) = Some (JBool true, rest)
  /\ parse_value (S f) ("false" +:+ rest) = Some (JBool false, rest).
Proof.
  assert (forall n, String.substring 0 (n + String.length rest) rest = rest) as Hs by (intros; apply substring_more; lia).
  split_and!.
  - transitivity (Some (JNull, String.substring 0 (3 + String.length rest) rest)); [by destruct rest|by rewrite Hs].
  - transitivity (Some (JBool true, String.substring 0 (3 + String.length rest) rest)); [by destruct rest|by rewrite Hs].
  - transitivity (Some (JBool false, String.substring 0 (4 + String.length rest) rest)); [by destruct rest|by rewrite Hs].
Qed.

Lemma number_read f c r : c = "-"%char \/ is_Some (digit_value c) ->
  parse_value (S f) (String.String c r) = parse_number (String.String c r).
Proof.
  intros Hc. assert (nat_of_ascii c = 45 \/ 48 <= nat_of_ascii c <= 57)%nat as Hn.
  { destruct Hc as [->|[v Hv]]; [by left|]. apply digit_char in Hv. lia. }
  assert (forall x, (nat_of_ascii x < 45 \/ 57 < nat_of_ascii x)%nat -> c <> x) as Hne by (intros x Hx ->; lia).
  assert (is_json_ws c = false) as Hw by (unfold is_json_ws; apply bool_decide_eq_false_2; lia).
  cbn [parse_value skip_ws]. rewrite Hw. rewrite !bool_decide_eq_false_2 by first [lia | apply Hne; vm_compute; lia].
  assert (forall x t, c <> x -> String.prefix (String.String x t) (String.String c r) = false) as Hpre.
  { intros x t Hx. cbn [String.prefix]. destruct (ascii_dec x c); congruence. }
  rewrite !Hpre by (apply Hne; vm_compute; lia). done.
Qed.

Lemma plain_reads v : plain v -> reads v.
Proof.
  induction v as [| |b|n|l| |s|xs IH|fields IH] using json_nested_ind; intros Hp; inversion Hp; subst; intros fuel rest Hf Hd;
    (destruct fuel as [|f]; [exfalso; destruct (text_opens _ Hp) as (c & r & Ht & _); rewrite Ht in Hf; cbn in Hf; lia|]).
  - apply keyword_read.
  - destruct b; apply keyword_read.
  - rewrite <-(parse_number_pretty n rest) by done. unfold text. cbn [JSON_stringify default_to].
    destruct (pretty n +:+ rest) as [|c r] eqn:Hcr.
    { by destruct n as [|[]|[]]. }
    apply number_read. destruct n as [|p|p].
    + right. injection Hcr as <- _. by eexists.
    + right. destruct (pretty_all_digits (Z.pos p) ltac:(lia)) as [Hdg Hne]. destruct (pretty (Z.pos p)) as [|d t]; [done|].
      injection Hcr as <- _. cbn [all_digits] in Hdg. destruct (digit_value d); [by eexists|done].
    + left. by injection Hcr as <- _.
  - unfold text. cbn [JSON_stringify default_to]. unfold stringify_string. rewrite !string_app_assoc.
    change (quote +:+ escape_string s +:+ quote +:+ rest) with (String.String (ascii_of_nat 34) (escape_string s +:+ quote +:+ rest)).
    cbn [parse_value].
    assert (forall t, skip_ws (String.String (ascii_of_nat 34) t) = String.String (ascii_of_nat 34) t) as -> by done.
    rewrite bool_decide_eq_true_2 by done. by rewrite parse_string_quoted.
  - match goal with H : Forall plain xs |- _ => pose proof H as Hxs end. rewrite text_arr in *. rewrite !string_app_assoc.
    assert (forall t, parse_value (S f) ("[" +:+ t)
      = match skip_ws t with
        | String.String e remaining => if bool_decide (e = "]"%char) then Some (JArr [], remaining) else parse_elements f [] t
        | String.EmptyString => None
        end) as -> by done.
    destruct xs as [|x xs]; [done|]. rewrite !length_string_app in Hf. cbn [String.length] in Hf.
    destruct (text_opens x) as (c & r & Hx & Hc); [by inversion Hxs|].
    assert (exists t, string_concat "," (text <$> x :: xs) +:+ "]" +:+ rest = String.String c t) as (t & Ht).
    { rewrite fmap_cons. destruct xs as [|y ys]; [cbn [fmap list_fmap string_concat]|rewrite fmap_cons, concat_cons];
        rewrite Hx; eexists; reflexivity. }
    rewrite Ht, skip_opens, bool_decide_eq_false_2 by (try apply Hc; done). rewrite <-Ht.
    apply elements_read; [|done|lia]. apply Forall_forall. intros y Hy. rewrite Forall_forall in IH, Hxs. auto.
  - match goal with H : Forall _ fields |- _ => pose proof H as Hfs end. rewrite text_obj in * by done. rewrite !string_app_assoc.
    assert (forall t, parse_value (S f) ("{" +:+ t)
      = match skip_ws t with
        | String.String e remaining => if bool_decide (e = "}"%char) then Some (JObj [], remaining) else parse_members f [] t
        | String.EmptyString => None
        end) as -> by done.
    destruct fields as [|x fields]; [done|]. rewrite !length_string_app in Hf. cbn [String.length] in Hf.
    assert (exists t, string_concat "," (member_text <$> x :: fields) +:+ "}" +:+ rest = String.String (ascii_of_nat 34) t) as (t & Ht).
    { rewrite fmap_cons. destruct fields as [|y ys]; [cbn [fmap list_fmap string_concat]|rewrite fmap_cons, concat_cons];
        eexists; reflexivity. }
    rewrite Ht. cbn [skip_ws]. assert (is_json_ws (ascii_of_nat 34) = false) as -> by done.
    rewrite bool_decide_eq_false_2 by done. rewrite <-Ht.
    rewrite members_read; [by match goal with H : own_order _ = _ |- _ => rewrite app_nil_l, H end| |done|done|lia].
    apply Forall_forall. intros y Hy. rewrite Forall_forall in IH, Hfs. auto.
Qed.

(** [JSON.parse] reads back what [JSON.stringify] prints. *)
Theorem parse_stringify v : plain v -> JSON_stringify v ≫= JSON_parse = Some v.
Proof.
  intros Hp. rewrite (plain_some v Hp). cbn [mbind option_bind]. unfold JSON_parse.
  pose proof (plain_reads v Hp (S (String.length (text v))) "" ltac:(lia) I) as Hr.
  rewrite string_app_nil_r in Hr. by rewrite Hr.
Qed.

Example parse_samples :
  JSON_parse <$> [" [1, -2.50, true ] "; "01"; "{}"; "[1,]"; "nul"; "1e999"; "[1] x"]
  = [Some (JArr [JNum 1; JDec "-2.5"; JBool true]); None; Some (JObj []); None; None; Some JNonFinite; None].
Proof. vm_compute. reflexivity. Qed.

(** An escaped surrogate pair, a duplicate key and an index key. *)
Example parse_object_sample :
  JSON_parse ("{" +:+ quote +:+ "b" +:+ quote +:+ ":1," +:+ quote +:+ "2" +:+ quote +:+ ":null,"
              +:+ quote +:+ "b" +:+ quote +:+ ":" +:+ quote +:+ "\ud83d\ude00" +:+ quote +:+ "}")
  = Some (JObj [("2", JNull); ("b", JStr (utf8 128512))]).
Proof. vm_compute. reflexivity. Qed.
