(* ===== verification/Text.v ===== *)
(** * String operations shared by the packages

    [indexOf], [slice], [split], [includes], [toLowerCase], [toUpperCase] and
    [replaceAll] on UTF-8 text.  Positions are byte offsets; the code only uses them to
    cut the text they were found in. *)

From Stdlib Require Import Ascii.
From Stdlib Require String.
From S2P Require Import Prelude.
From S2P Require Import Scope.
From S2P Require Import Json.
Local Open Scope string_scope.

Fixpoint drop_bytes (n : nat) (s : string) : string :=
  match n, s with
  | S m, String.String _ rest => drop_bytes m rest
  | _, _ => s
  end.

Fixpoint take_bytes (n : nat) (s : string) : string :=
  match n, s with
  | S m, String.String c rest => String.String c (take_bytes m rest)
  | _, _ => ""
  end.

(** [s.slice(a, b)] on byte offsets. *)
Definition slice_bytes (a b : nat) (s : string) : string := take_bytes (b - a) (drop_bytes a s).

(** [s.startsWith(p)]. *)
Fixpoint has_prefix (p s : string) : bool :=
  match p, s with
  | String.EmptyString, _ => true
  | String.String a p', String.String b s' => bool_decide (a = b) && has_prefix p' s'
  | String.String _ _, String.EmptyString => false
  end.

(** [s.indexOf(p)]. *)
Fixpoint index_of (p s : string) : option nat :=
  if has_prefix p s then Some 0
  else match s with
       | String.String _ rest => S <$> index_of p rest
       | String.EmptyString => None
       end.

(** [s.indexOf(p, from)]. *)
Definition index_from (p : string) (from : nat) (s : string) : option nat :=
  (fun i => from + i) <$> index_of p (drop_bytes from s).

(** [s.includes(p)]. *)
Definition includes (p s : string) : bool := bool_decide (is_Some (index_of p s)).

(** [s.endsWith(p)]. *)
Definition has_suffix (p s : string) : bool :=
  bool_decide (String.length p <= String.length s)
  && bool_decide (drop_bytes (String.length s - String.length p) s = p).

(** [s.split(c)] on a one-character separator. *)
Fixpoint split_at (c : ascii) (cur s : string) : list string :=
  match s with
  | String.EmptyString => [cur]
  | String.String d rest =>
      if bool_decide (d = c) then cur :: split_at c "" rest
      else split_at c (cur +:+ String.String d "") rest
  end.

Definition split_on (c : ascii) (s : string) : list string := split_at c "" s.

(** [s.split(c, 1)[0]]: the text before the first separator. *)
Fixpoint before (c : ascii) (s : string) : string :=
  match s with
  | String.EmptyString => ""
  | String.String d rest => if bool_decide (d = c) then "" else String.String d (before c rest)
  end.

Fixpoint map_chars (f : ascii -> ascii) (s : string) : string :=
  match s with
  | String.EmptyString => ""
  | String.String c rest => String.String (f c) (map_chars f rest)
  end.

(** [toLowerCase] and [toUpperCase] on ASCII letters. *)
Definition to_lower_char (c : ascii) : ascii :=
  let n := nat_of_ascii c in
  if bool_decide (65 <= n /\ n <= 90) then ascii_of_nat (n + 32) else c.

Definition to_upper_char (c : ascii) : ascii :=
  let n := nat_of_ascii c in
  if bool_decide (97 <= n /\ n <= 122) then ascii_of_nat (n - 32) else c.

Definition to_lower (s : string) : string := map_chars to_lower_char s.
Definition to_upper (s : string) : string := map_chars to_upper_char s.

(** Characters of a class, as [[A-Za-z0-9]] in a regular expression. *)
Definition is_upper (c : ascii) : bool := let n := nat_of_ascii c in bool_decide (65 <= n /\ n <= 90).
Definition is_lower (c : ascii) : bool := let n := nat_of_ascii c in bool_decide (97 <= n /\ n <= 122).
Definition is_digit (c : ascii) : bool := let n := nat_of_ascii c in bool_decide (48 <= n /\ n <= 57).
Definition is_alnum (c : ascii) : bool := is_upper c || is_lower c || is_digit c.

Definition one_of (cs : string) (c : ascii) : bool := includes (String.String c "") cs.

Fixpoint all_chars (p : ascii -> bool) (s : string) : bool :=
  match s with
  | String.EmptyString => true
  | String.String c rest => p c && all_chars p rest
  end.

Fixpoint remove_chars (p : ascii -> bool) (s : string) : string :=
  match s with
  | String.EmptyString => ""
  | String.String c rest => if p c then remove_chars p rest else String.String c (remove_chars p rest)
  end.

(** ** Regular expressions that need no backtracking

    A sequence of literals, bounded runs of a class and runs of white space.  The
    quantifiers are greedy and no run is followed by an item that starts inside its
    class, so the longest run is the one the engine settles on. *)
Inductive item :=
| Lit (p : ascii -> bool)
| Run (p : ascii -> bool) (lo : nat) (hi : option nat)
| Spaces.

(** The length of the longest run of [p], at most [hi]. *)
Fixpoint run_length (p : ascii -> bool) (hi : option nat) (s : string) : nat :=
  match hi, s with
  | Some O, _ | _, String.EmptyString => 0
  | _, String.String c rest => if p c then S (run_length p (pred <$> hi) rest) else 0
  end.

Fixpoint space_length (s : string) (skip : nat) : nat :=
  match s with
  | String.EmptyString => 0
  | String.String _ rest =>
      match skip, ws_bytes s with
      | S n, _ => S (space_length rest n)
      | O, S n => S (space_length rest n)
      | O, O => 0
      end
  end.

(** The length of the match at the head of [s]. *)
Fixpoint match_here (pattern : list item) (s : string) : option nat :=
  match pattern with
  | [] => Some 0
  | Lit p :: more =>
      match s with
      | String.String c rest => if p c then S <$> match_here more rest else None
      | String.EmptyString => None
      end
  | Run p lo hi :: more =>
      let n := run_length p hi s in
      if bool_decide (lo <= n) then (fun k => n + k) <$> match_here more (drop_bytes n s) else None
  | Spaces :: more =>
      let n := space_length s 0 in
      if bool_decide (1 <= n) then (fun k => n + k) <$> match_here more (drop_bytes n s) else None
  end.

(** [s.replace(pattern, insert)] with the global flag: [skip] bytes of the last match
    are still to be passed over. *)
Fixpoint replace_go (pattern : list item) (insert : string) (s : string) (skip : nat) : string :=
  match s with
  | String.EmptyString => ""
  | String.String c rest =>
      match skip with
      | S n => replace_go pattern insert rest n
      | O => match match_here pattern s with
             | Some (S n) => insert +:+ replace_go pattern insert rest n
             | _ => String.String c (replace_go pattern insert rest 0)
             end
      end
  end.

Definition replace_all (pattern : list item) (insert s : string) : string := replace_go pattern insert s 0.

(** A literal text, compared exactly or without case. *)
Fixpoint lits (s : string) : list item :=
  match s with
  | String.EmptyString => []
  | String.String c rest => Lit (fun d => bool_decide (d = c)) :: lits rest
  end.

Fixpoint lits_ci (s : string) : list item :=
  match s with
  | String.EmptyString => []
  | String.String c rest => Lit (fun d => bool_decide (to_lower_char d = to_lower_char c)) :: lits_ci rest
  end.

(** * Lemmas on texts

    Texts made of given characters, [split] against [join], [indexOf] and [slice] at a
    separator, [trim] of printable text. *)

(** ** Texts without a character *)

Lemma all_chars_app p a b : all_chars p (a +:+ b) = all_chars p a && all_chars p b.
Proof.
  induction a as [|c a IH]; [done|]. change (String.String c a +:+ b) with (String.String c (a +:+ b)). cbn [all_chars].
  by rewrite IH, andb_assoc.
Qed.

Lemma all_chars_impl (p q : ascii -> bool) s : (forall c, p c = true -> q c = true) -> all_chars p s = true -> all_chars q s = true.
Proof. intros Hpq. induction s as [|c s IH]; [done|]. cbn. intros Hs. bool_props. apply andb_true_iff. auto. Qed.

(** Any character but [c]. *)
Definition other (c d : ascii) : bool := negb (bool_decide (d = c)).

Definition lacks (c : ascii) (s : string) : Prop := all_chars (other c) s = true.

Lemma split_at_lacks c cur s rest :
  lacks c s -> split_at c cur (s +:+ String.String c rest) = (cur +:+ s) :: split_at c "" rest.
Proof.
  revert cur. induction s as [|d s IH]; intros cur Hs.
  - change ("" +:+ ?x) with x. cbn [split_at]. by rewrite bool_decide_true, string_app_nil_r.
  - unfold lacks in Hs. cbn [all_chars] in Hs. unfold other at 1 in Hs. bool_props.
    change (String.String d s +:+ ?x) with (String.String d (s +:+ x)). cbn [split_at]. rewrite bool_decide_false by done.
    rewrite IH by done. by rewrite string_app_assoc.
Qed.

Lemma split_at_last c cur s : lacks c s -> split_at c cur s = [cur +:+ s].
Proof.
  revert cur. induction s as [|d s IH]; intros cur Hs; [by rewrite string_app_nil_r|].
  unfold lacks in Hs. cbn [all_chars] in Hs. unfold other at 1 in Hs. bool_props. cbn [split_at]. rewrite bool_decide_false by done.
  rewrite IH by done. by rewrite string_app_assoc.
Qed.

(** [split] undoes [join]. *)
Lemma split_join c parts :
  parts <> [] -> Forall (lacks c) parts -> split_on c (string_concat (String.String c "") parts) = parts.
Proof.
  unfold split_on. intros Hne Hall. induction Hall as [|x parts Hx Hall IH]; [done|]. destruct parts as [|y parts].
  - by apply split_at_last.
  - change (string_concat (String.String c "") (x :: y :: parts))
      with (x +:+ String.String c (string_concat (String.String c "") (y :: parts))).
    rewrite split_at_lacks by done. by rewrite IH.
Qed.

Lemma index_of_lacks c k rest : lacks c k -> index_of (String.String c "") (k +:+ String.String c rest) = Some (String.length k).
Proof.
  induction k as [|d k IH]; intros Hk.
  - change ("" +:+ ?x) with x. cbn [index_of has_prefix]. by rewrite bool_decide_true.
  - unfold lacks in Hk. cbn [all_chars] in Hk. unfold other at 1 in Hk. bool_props.
    change (String.String d k +:+ ?x) with (String.String d (k +:+ x)). cbn [index_of has_prefix].
    rewrite bool_decide_false by congruence. cbn [andb]. by rewrite IH.
Qed.

Lemma index_of_none c s : lacks c s -> index_of (String.String c "") s = None.
Proof.
  induction s as [|d s IH]; intros Hs; [done|]. unfold lacks in Hs. cbn [all_chars] in Hs. unfold other at 1 in Hs. bool_props.
  cbn [index_of has_prefix]. rewrite bool_decide_false by congruence. cbn [andb]. by rewrite IH.
Qed.

Lemma take_bytes_app a b : take_bytes (String.length a) (a +:+ b) = a.
Proof. induction a as [|c a IH]; [done|]. exact (f_equal (String.String c) IH). Qed.

Lemma drop_bytes_app a c b : drop_bytes (String.length a + 1) (a +:+ String.String c b) = b.
Proof. induction a as [|d a IH]; [done|]. exact IH. Qed.

(** ** Printable text *)

(** A printable ASCII character other than the space. *)
Definition ink (c : ascii) : bool := bool_decide (33 <= nat_of_ascii c) && bool_decide (nat_of_ascii c <= 126).

Lemma ink_not_ws c s : ink c = true -> ws_bytes (String.String c s) = 0%nat.
Proof.
  intros Hc. unfold ink in Hc. bool_props. cbn [ws_bytes].
  repeat (case_bool_decide; try lia). destruct s as [|b s]; [done|]. rewrite bool_decide_false by lia. destruct s as [|d s]; [done|].
  assert (ws3 (nat_of_ascii c) (nat_of_ascii b) (nat_of_ascii d) = false) as ->; [|done].
  unfold ws3. apply bool_decide_eq_false_2. lia.
Qed.

Lemma trim_ink s : all_chars ink s = true -> trim s = s.
Proof.
  intros Hs. unfold trim. assert (trim_start s 0 = s) as ->.
  { destruct s as [|c s]; [done|]. cbn [all_chars] in Hs. bool_props. cbn [trim_start]. by rewrite ink_not_ws. }
  induction s as [|c s IH]; [done|]. cbn [all_chars] in Hs. bool_props. cbn [trim_end all_ws]. rewrite ink_not_ws by done. by rewrite IH.
Qed.
