(* ===== verification/Prog.v ===== *)
(** * Programs that call out

    Asynchronous code as a finite tree of calls: the program returns, throws, or makes
    a call and goes on with its answer.  A program says which calls it makes whatever
    the answers are; [run] plays it against a server with a state, [interp] replaces
    every call by a program over lower-level calls.  [R e] is the type of the answers to
    the call [e]. *)

From S2P Require Import Prelude.

Inductive prog (E : Type) (R : E -> Type) (X A : Type) : Type :=
| Ret (a : A)
| Throw (x : X)
| Vis (e : E) (k : R e -> prog E R X A).

Arguments Ret {E R X A} a.
Arguments Throw {E R X A} x.
Arguments Vis {E R X A} e k.

Section prog.
Context {E : Type} {R : E -> Type} {X : Type}.

(** [await m], then the continuation. *)
Fixpoint bind {A B : Type} (m : prog E R X A) (f : A -> prog E R X B) : prog E R X B :=
  match m with
  | Ret a => f a
  | Throw x => Throw x
  | Vis e k => Vis e (fun r => bind (k r) f)
  end.

(** [try { m } catch (x) { h }], its outcome passed on. *)
Fixpoint try_catch {A B : Type} (m : prog E R X A) (ok : A -> prog E R X B) (h : X -> prog E R X B) : prog E R X B :=
  match m with
  | Ret a => ok a
  | Throw x => h x
  | Vis e k => Vis e (fun r => try_catch (k r) ok h)
  end.

(** The outcome of a program as a value. *)
Definition attempt {A : Type} (m : prog E R X A) : prog E R X (X + A) :=
  try_catch m (fun a => Ret (inr a)) (fun x => Ret (inl x)).

(** Synchronous code that may throw. *)
Definition lift {A : Type} (r : X + A) : prog E R X A :=
  match r with inl x => Throw x | inr a => Ret a end.

End prog.

#[export] Instance prog_ret E R X : MRet (prog E R X) := fun A a => Ret a.
#[export] Instance prog_bind E R X : MBind (prog E R X) := fun A B f m => bind m f.
#[export] Instance prog_fmap E R X : FMap (prog E R X) := fun A B f m => bind m (fun a => Ret (f a)).

(** ** The calls of a program *)

Section calls.
Context {E : Type} {R : E -> Type} {X : Type}.

(** Every call the program can make, whatever the answers, satisfies [P]. *)
Fixpoint always {A : Type} (P : E -> Prop) (m : prog E R X A) : Prop :=
  match m with
  | Ret _ | Throw _ => True
  | Vis e k => P e /\ forall r, always P (k r)
  end.

(** Every way the program can end satisfies [Q]. *)
Fixpoint ends {A : Type} (Q : X + A -> Prop) (m : prog E R X A) : Prop :=
  match m with
  | Ret a => Q (inr a)
  | Throw x => Q (inl x)
  | Vis _ k => forall r, ends Q (k r)
  end.

Lemma always_bind {A B : Type} P (m : prog E R X A) (f : A -> prog E R X B) :
  always P m -> (forall a, always P (f a)) -> always P (bind m f).
Proof. intros Hm Hf. induction m as [a|x|e k IH]; cbn in *; [done|done|]. destruct Hm; split; auto. Qed.

(** The continuation only has to be good for the results [m] can return. *)
Lemma always_bind_ends {A B : Type} P (m : prog E R X A) (f : A -> prog E R X B) :
  always P m -> ends (fun r => match r with inr a => always P (f a) | inl _ => True end) m -> always P (bind m f).
Proof. intros Hm Hf. induction m as [a|x|e k IH]; cbn in *; [done|done|]. destruct Hm; split; auto. Qed.

Lemma always_try {A B : Type} P (m : prog E R X A) (ok : A -> prog E R X B) h :
  always P m -> (forall a, always P (ok a)) -> (forall x, always P (h x)) -> always P (try_catch m ok h).
Proof. intros Hm Hf Hh. induction m as [a|x|e k IH]; cbn in *; [done|done|]. destruct Hm; split; auto. Qed.

Lemma always_map {A B : Type} P (f : A -> B) (m : prog E R X A) : always P m -> always P (bind m (fun a => Ret (f a))).
Proof. intros Hm. by apply always_bind. Qed.

Lemma always_lift {A : Type} P (r : X + A) : always P (lift r : prog E R X A).
Proof. by destruct r. Qed.

Lemma always_impl {A : Type} (P P' : E -> Prop) (m : prog E R X A) :
  (forall e, P e -> P' e) -> always P m -> always P' m.
Proof. intros HP Hm. induction m as [a|x|e k IH]; cbn in *; [done|done|]. destruct Hm; split; auto. Qed.

Lemma ends_bind {A B : Type} (Q : X + B -> Prop) (m : prog E R X A) (f : A -> prog E R X B) :
  ends (fun r => match r with inl x => Q (inl x) | inr a => ends Q (f a) end) m -> ends Q (bind m f).
Proof. intros Hm. induction m as [a|x|e k IH]; cbn in *; auto. Qed.

Lemma ends_try {A B : Type} (Q : X + B -> Prop) (m : prog E R X A) (ok : A -> prog E R X B) h :
  ends (fun r => match r with inl x => ends Q (h x) | inr a => ends Q (ok a) end) m -> ends Q (try_catch m ok h).
Proof. intros Hm. induction m as [a|x|e k IH]; cbn in *; auto. Qed.

Lemma ends_impl {A : Type} (Q Q' : X + A -> Prop) (m : prog E R X A) :
  (forall r, Q r -> Q' r) -> ends Q m -> ends Q' m.
Proof. intros HQ Hm. induction m as [a|x|e k IH]; cbn in *; auto. Qed.

Lemma ends_true {A : Type} (m : prog E R X A) : ends (fun _ => True) m.
Proof. induction m; cbn; auto. Qed.

(** ** Running against a server *)

Fixpoint run {S A : Type} (server : S -> forall e, S * R e) (s : S) (m : prog E R X A) : S * (X + A) :=
  match m with
  | Ret a => (s, inr a)
  | Throw x => (s, inl x)
  | Vis e k => let '(s', r) := server s e in run server s' (k r)
  end.

(** The calls of a run, in order. *)
Fixpoint calls {S A : Type} (server : S -> forall e, S * R e) (s : S) (m : prog E R X A) : list E :=
  match m with
  | Ret _ | Throw _ => []
  | Vis e k => let '(s', r) := server s e in e :: calls server s' (k r)
  end.

Lemma run_bind {S A B : Type} (server : S -> forall e, S * R e) s (m : prog E R X A) (f : A -> prog E R X B) :
  run server s (bind m f)
  = match run server s m with (s', inr a) => run server s' (f a) | (s', inl x) => (s', inl x) end.
Proof. revert s. induction m as [a|x|e k IH]; intros s; cbn; [done|done|]. destruct (server s e). apply IH. Qed.

Lemma run_mbind {S A B : Type} (server : S -> forall e, S * R e) s (m : prog E R X A) (f : A -> prog E R X B) :
  run server s (m ≫= f)
  = match run server s m with (s', inr a) => run server s' (f a) | (s', inl x) => (s', inl x) end.
Proof. apply run_bind. Qed.

Lemma run_try {S A B : Type} (server : S -> forall e, S * R e) s (m : prog E R X A) (ok : A -> prog E R X B) h :
  run server s (try_catch m ok h)
  = match run server s m with (s', inr a) => run server s' (ok a) | (s', inl x) => run server s' (h x) end.
Proof. revert s. induction m as [a|x|e k IH]; intros s; cbn; [done|done|]. destruct (server s e). apply IH. Qed.

Lemma calls_always {S A : Type} (server : S -> forall e, S * R e) s (m : prog E R X A) P :
  always P m -> Forall P (calls server s m).
Proof.
  revert s. induction m as [a|x|e k IH]; intros s Hm; cbn in *; [done|done|].
  destruct Hm as [He Hk]. destruct (server s e). constructor; auto.
Qed.

Lemma run_ends {S A : Type} (server : S -> forall e, S * R e) s (m : prog E R X A) Q :
  ends Q m -> Q (run server s m).2.
Proof. revert s. induction m as [a|x|e k IH]; intros s Hm; cbn in *; [done|done|]. destruct (server s e). auto. Qed.

(** A state that every call the program may make preserves. *)
Lemma run_preserves {S A : Type} (server : S -> forall e, S * R e) s (m : prog E R X A) (P : E -> Prop) (I : S -> Prop) :
  (forall s e, I s -> P e -> I (server s e).1) -> always P m -> I s -> I (run server s m).1.
Proof.
  intros Hstep. revert s. induction m as [a|x|e k IH]; intros s Hm Hs; cbn in *; [done|done|].
  destruct Hm as [He Hk]. specialize (Hstep s e Hs He). destruct (server s e). auto.
Qed.
End calls.

(** ** Monitors

    What a program has learnt from the answers so far, and the calls that knowledge
    allows: [monitored Q k m] holds when every call is allowed when it is made and [Q]
    holds of the knowledge and the outcome at every end. *)

Section monitor.
Context {E : Type} {R : E -> Type} {X K : Type}.
Context (le : relation K) `{!PreOrder le}.
Context (allow : K -> E -> Prop) (learn : K -> forall e, R e -> K) (learn_le : forall k e r, le k (learn k e r)).

Fixpoint monitored {A : Type} (Q : K -> X + A -> Prop) (known : K) (m : prog E R X A) : Prop :=
  match m with
  | Ret a => Q known (inr a)
  | Throw x => Q known (inl x)
  | Vis e k => allow known e /\ forall r, monitored Q (learn known e r) (k r)
  end.

Lemma monitored_bind {A B : Type} (Q : K -> X + B -> Prop) known (m : prog E R X A) f :
  monitored (fun known' r => match r with inr a => monitored Q known' (f a) | inl x => Q known' (inl x) end) known m ->
  monitored Q known (bind m f).
Proof. revert known. induction m as [a|x|e k IH]; intros known Hm; cbn in *; [done|done|]. destruct Hm; split; auto. Qed.

Lemma monitored_try {A B : Type} (Q : K -> X + B -> Prop) known (m : prog E R X A) ok h :
  monitored (fun known' r => match r with inr a => monitored Q known' (ok a) | inl x => monitored Q known' (h x) end) known m ->
  monitored Q known (try_catch m ok h).
Proof. revert known. induction m as [a|x|e k IH]; intros known Hm; cbn in *; [done|done|]. destruct Hm; split; auto. Qed.

Lemma monitored_lift {A : Type} (Q : K -> X + A -> Prop) known (r : X + A) : Q known r -> monitored Q known (lift r : prog E R X A).
Proof. by destruct r. Qed.

Lemma monitored_ends {A : Type} (Q : K -> X + A -> Prop) (P : X + A -> Prop) known m :
  monitored Q known m -> ends P m -> monitored (fun known' r => Q known' r /\ P r) known m.
Proof. revert known. induction m as [a|x|e k IH]; intros known Hg He; cbn in *; [done|done|]. destruct Hg. split; auto. Qed.

Lemma monitored_impl {A : Type} (Q Q' : K -> X + A -> Prop) known (m : prog E R X A) :
  (forall known' r, le known known' -> Q known' r -> Q' known' r) -> monitored Q known m -> monitored Q' known m.
Proof.
  revert known. induction m as [a|x|e k IH]; intros known HQ Hm; cbn in *; [by apply HQ|by apply HQ|].
  destruct Hm as [Hc Hk]. split; [done|]. intros r. apply IH; [|done]. intros known' r' Hle. apply HQ. by etrans; [apply learn_le|].
Qed.

(** Sequencing: the first part tells what the second may rely on. *)
Lemma monitored_seq {A B : Type} (Q1 : K -> X + A -> Prop) (Q : K -> X + B -> Prop) known (m : prog E R X A) f :
  monitored Q1 known m ->
  (forall known' a, le known known' -> Q1 known' (inr a) -> monitored Q known' (f a)) ->
  (forall known' x, le known known' -> Q1 known' (inl x) -> Q known' (inl x)) ->
  monitored Q known (bind m f).
Proof. intros Hm Hf Hx. apply monitored_bind. eapply monitored_impl; [|exact Hm]. intros known' [x|a]; auto. Qed.

Lemma monitored_try_seq {A B : Type} (Q1 : K -> X + A -> Prop) (Q : K -> X + B -> Prop) known (m : prog E R X A) ok h :
  monitored Q1 known m ->
  (forall known' a, le known known' -> Q1 known' (inr a) -> monitored Q known' (ok a)) ->
  (forall known' x, le known known' -> Q1 known' (inl x) -> monitored Q known' (h x)) ->
  monitored Q known (try_catch m ok h).
Proof. intros Hm Hf Hx. apply monitored_try. eapply monitored_impl; [|exact Hm]. intros known' [x|a]; auto. Qed.

(** The knowledge at the end extends the one at the start. *)
Definition extends {A : Type} (known known' : K) (r : X + A) : Prop := le known known'.

Lemma extends_refl {A : Type} known (r : X + A) : extends known known r.
Proof. unfold extends. reflexivity. Qed.

(** A program whose calls are always allowed. *)
Lemma monitored_always {A : Type} known (m : prog E R X A) :
  always (fun e => forall known, allow known e) m -> monitored (extends known) known m.
Proof.
  intros Hm. assert (monitored (fun _ _ => True) known m) as Ht.
  { revert known Hm. induction m as [a|x|e k IH]; intros known Hm; cbn in *; [done|done|]. destruct Hm as [Hc Hk]. split; auto. }
  eapply monitored_impl; [|exact Ht]. by intros known' r Hle _.
Qed.

(** The runs of a program, with what is known at their end. *)
Inductive plays {A : Type} (known : K) : prog E R X A -> K -> X + A -> Prop :=
| plays_ret a : plays known (Ret a) known (inr a)
| plays_throw x : plays known (Throw x) known (inl x)
| plays_vis e k r known' o : plays (learn known e r) (k r) known' o -> plays known (Vis e k) known' o.

(** What a monitor checks holds of every run, with whatever its allowed calls preserve. *)
Lemma monitored_plays {A : Type} (Q : K -> X + A -> Prop) (I : K -> Prop) known (m : prog E R X A) known' o :
  (forall k e r, I k -> allow k e -> I (learn k e r)) -> I known -> monitored Q known m -> plays known m known' o -> I known' /\ Q known' o.
Proof. intros HI Hk Hm Hp. induction Hp as [| |known e k r known' o Hp IH]; cbn in Hm; [done|done|]. destruct Hm as [Ha Hm]. eauto. Qed.
End monitor.

(** A monitor that allows more. *)
Lemma monitored_weaken {E : Type} {R : E -> Type} {X K A : Type} (allow allow' : K -> E -> Prop) (learn : K -> forall e, R e -> K)
  (Q : K -> X + A -> Prop) known (m : prog E R X A) :
  (forall k e, allow k e -> allow' k e) -> monitored allow learn Q known m -> monitored allow' learn Q known m.
Proof.
  intros Ha. revert known. induction m as [a|x|e k IH]; intros known Hm; cbn in *; [done|done|]. destruct Hm. split; auto.
Qed.

(** ** Histories

    The knowledge of a monitor that remembers everything: the calls made so far with
    their answers, the latest first. *)

Section history.
Context {E : Type} {R : E -> Type}.

Definition remember (k : list {e : E & R e}) (e : E) (r : R e) : list {e : E & R e} := existT e r :: k.

Definition happened (k : list {e : E & R e}) (e : E) (r : R e) : Prop := existT e r ∈ k.

Lemma remember_le k e r : k `suffix_of` remember k e r.
Proof. by exists [existT e r]. Qed.

Lemma happened_more k k' e r : k `suffix_of` k' -> happened k e r -> happened k' e r.
Proof. intros [l ->] Hh. apply elem_of_app. by right. Qed.

Lemma happened_now k e r : happened (remember k e r) e r.
Proof. left. Qed.
End history.

(** ** Interpretation *)

Section interp.
Context {E : Type} {R : E -> Type} {F : Type} {T : F -> Type} {X : Type}.
Context (h : forall e, prog F T X (R e)).

Fixpoint interp {A : Type} (m : prog E R X A) : prog F T X A :=
  match m with
  | Ret a => Ret a
  | Throw x => Throw x
  | Vis e k => bind (h e) (fun r => interp (k r))
  end.

Lemma always_interp {A : Type} (P : F -> Prop) (Q : E -> Prop) (m : prog E R X A) :
  (forall e, Q e -> always P (h e)) -> always Q m -> always P (interp m).
Proof.
  intros Hh Hm. induction m as [a|x|e k IH]; cbn in *; [done|done|]. destruct Hm.
  apply always_bind; auto.
Qed.
End interp.

#[export] Hint Resolve always_lift ends_true remember_le happened_more happened_now : caracal.
