(* ===== verification/AdminClient.v ===== *)
(** * The admin client

    [packages/admin/ts/src/client.ts]: the typed wrapper over the Admin API and the
    coordinator's operator routes.  An operation is a program over HTTP exchanges:
    [request] builds the URL, the headers and the body, retries reads and turns a
    refusal into an [AdminApiError]; [listAll] follows the cursors of a collection.
    What a server answers is left open. *)

From Stdlib Require Import Ascii.
From Stdlib Require String.
From S2P Require Import Prelude.
From S2P Require Import Json.
From S2P Require Import JsonText.
From S2P Require Import Numbers.
From S2P Require Import Text.
From S2P Require Import Redact.
From S2P Require Import Prog.
Local Open Scope string_scope.
Local Open Scope Z_scope.

(** ** Errors *)

(** The codes of [DispatchError] ([packages/engine/src/dispatch.ts]). *)
Inductive DispatchCode := denied | unsupported | invalid | zone_mismatch | conflict | not_found | upstream.

#[export] Instance DispatchCode_eq_dec : EqDecision DispatchCode.
Proof. solve_decision. Defined.

(** What a program of the admin packages throws: the error of a refused request, a
    rejection of the dispatcher, or any other [Error] with its message. *)
Inductive exn :=
| AdminApiError (status : Z) (code : string) (body : json) (coordinator : bool)
| DispatchError (code : DispatchCode) (message : string) (remediation : option string)
| JsError (message : string).

(** The messages of the engine's own [SyntaxError]s and [TypeError]s, which the
    language leaves open. *)
Class Runtime := { engine_message : string -> string }.

Module AdminClient.

Record AdminClientOptions := {
  apiUrl : string;
  coordinatorUrl : option string;
  adminToken : string;
  coordinatorToken : option string;
  retries : nat;
  defaultHeaders : list (string * string);
  maxFieldBytes : Z
}.

Definition DEFAULT_RETRIES : nat := 3.
Definition MAX_LIST_PAGES : nat := 50.

Inductive base := api | coordinator.

#[global] Instance base_eq_dec : EqDecision base.
Proof. solve_decision. Defined.

Inductive http_method := GET | POST | PATCH | PUT | DELETE.

#[global] Instance http_method_eq_dec : EqDecision http_method.
Proof. solve_decision. Defined.

Record RequestOptions := {
  method : http_method;
  query : list (string * json);
  body : json;
  target : base;
  expectEmpty : bool
}.

(** The exchange [fetch] performs. *)
Record http_request := {
  req_method : http_method;
  req_origin : string;
  req_path : string;
  req_query : string;
  req_headers : list (string * string);
  req_body : option string
}.

Definition req_url (r : http_request) : string := r.(req_origin) +:+ r.(req_path) +:+ r.(req_query).

(** How an exchange ends: a response read to its end, or a failure of the network, of
    the timeout or of the reading. *)
Inductive exchange :=
| Response (status : Z) (statusText : string) (response_text : string)
| Failure (message : string).

(** The end of one attempt, with the state of the caller's abort signal then. *)
Record outcome := { result : exchange; aborted : bool }.

Notation http := (prog http_request (fun _ => outcome) exn).

(** [opts.apiUrl.replace(/\/$/, '')]. *)
Definition strip_slash (url : string) : string :=
  if has_suffix "/" url then take_bytes (String.length url - 1) url else url.

Definition new_AdminClient (opts : AdminClientOptions) : AdminClientOptions :=
  {| apiUrl := strip_slash opts.(apiUrl); coordinatorUrl := strip_slash <$> opts.(coordinatorUrl);
     adminToken := opts.(adminToken); coordinatorToken := opts.(coordinatorToken);
     retries := opts.(retries); defaultHeaders := opts.(defaultHeaders); maxFieldBytes := opts.(maxFieldBytes) |}.

(** Header spread: a later value replaces an earlier one of the same name. *)
Definition merge_headers (a b : list (string * string)) : list (string * string) :=
  foldl (fun acc kv => ordered_set kv.1 kv.2 acc) a b.

Definition withDefaultHeaders (opts : AdminClientOptions) (headers : list (string * string)) : AdminClientOptions :=
  new_AdminClient
    {| apiUrl := opts.(apiUrl); coordinatorUrl := opts.(coordinatorUrl); adminToken := opts.(adminToken);
       coordinatorToken := opts.(coordinatorToken); retries := opts.(retries);
       defaultHeaders := merge_headers opts.(defaultHeaders) headers; maxFieldBytes := opts.(maxFieldBytes) |}.

Definition shouldRetry (status : Z) : bool :=
  (status =? 408) || (status =? 425) || (status =? 429) || ((500 <=? status) && (status <? 600)).

Definition canRetryMethod (m : http_method) : bool := bool_decide (m = GET).

(** [encodeURIComponent]. *)
Definition uri_char (c : ascii) : bool := is_alnum c || one_of "-_.!~*'()" c.

Definition upper_hex (n : nat) : string :=
  match String.get n "0123456789ABCDEF" with Some c => String.String c "" | None => "" end.

Fixpoint encodeURIComponent (s : string) : string :=
  match s with
  | String.EmptyString => ""
  | String.String c rest =>
      let n := nat_of_ascii c in
      (if uri_char c then String.String c "" else "%" +:+ upper_hex (n / 16) +:+ upper_hex (n `mod` 16))
      +:+ encodeURIComponent rest
  end.

Definition present (v : json) : bool :=
  match v with JUndefined => false | JStr s => negb (bool_decide (s = "")) | _ => true end.

(** The query string: absent and empty values are left out. *)
Definition query_string (q : list (string * json)) : string :=
  let kept := filter (fun kv => present kv.2 = true) q in
  match (fun kv => encodeURIComponent kv.1 +:+ "=" +:+ encodeURIComponent (js_String kv.2)) <$> kept with
  | [] => ""
  | pairs => "?" +:+ string_concat "&" pairs
  end.

Section client.
Context `{Runtime}.
Variable this : AdminClientOptions.

(** The error of a refused request. *)
Definition refusal (status : Z) (statusText text : string) (t : base) : exn :=
  let code := if bool_decide (statusText = "") then "request_failed" else statusText in
  let '(parsed, code) :=
    match if bool_decide (text = "") then Some (JObj []) else JSON_parse text with
    | Some v => (v, match v with
                    | JObj _ => match json_get "error" v with JStr e => e | _ => code end
                    | _ => code
                    end)
    | None => (JStr text, code)
    end in
  AdminApiError status code (Redact.redact this.(maxFieldBytes) parsed) (bool_decide (t = coordinator)).

(** The attempts of one request, [left] of them still allowed after this one. *)
Fixpoint attempts (r : http_request) (opts : RequestOptions) (left : nat) : http json :=
  let again (x : exn) := match left with O => Throw x | S n => attempts r opts n end in
  Vis r (fun o =>
    match o.(result) with
    | Response status statusText text =>
        if negb ((200 <=? status) && (status <=? 299)) then
          if shouldRetry status then again (refusal status statusText text opts.(target))
          else Throw (refusal status statusText text opts.(target))
        else if opts.(expectEmpty) || (status =? 204) then Ret JUndefined
        else match JSON_parse text with
             | Some v => Ret v
             | None =>
                 let err := JsError (engine_message "JSON.parse") in
                 if o.(aborted) then Throw err else again err
             end
    | Failure message => if o.(aborted) then Throw (JsError message) else again (JsError message)
    end).

(** The exchange of a request: where it goes, with which credential and content. *)
Definition build_request (path : string) (opts : RequestOptions) : exn + http_request :=
  let origin := match opts.(target) with coordinator => this.(coordinatorUrl) | api => Some this.(apiUrl) end in
  let token := match opts.(target) with coordinator => this.(coordinatorToken) | api => Some this.(adminToken) end in
  let filled o := match o with Some s => if bool_decide (s = "") then None else Some s | None => None end in
  match filled origin with
  | None => inl (JsError "coordinator_url_not_configured")
  | Some url =>
      match filled token with
      | None => inl (JsError "coordinator_token_not_configured")
      | Some tok =>
          let headers := merge_headers [("Authorization", "Bearer " +:+ tok)] this.(defaultHeaders) in
          let text := JSON_stringify opts.(body) in
          let headers := match text with
                         | Some _ => ordered_set "Content-Type" "application/json" headers
                         | None => headers
                         end in
          inr {| req_method := opts.(method); req_origin := url; req_path := path;
                 req_query := query_string opts.(query); req_headers := headers; req_body := text |}
      end
  end.

(** [request]. *)
Definition request (path : string) (opts : RequestOptions) : http json :=
  r ← lift (build_request path opts);
  attempts r opts (if canRetryMethod opts.(method) then this.(retries) else 0).

Definition read_ : RequestOptions := {| method := GET; query := []; body := JUndefined; target := api; expectEmpty := false |}.
Definition read_query (q : list (string * json)) : RequestOptions :=
  {| method := GET; query := q; body := JUndefined; target := api; expectEmpty := false |}.
Definition send (m : http_method) (b : json) : RequestOptions :=
  {| method := m; query := []; body := b; target := api; expectEmpty := false |}.
Definition remove : RequestOptions := {| method := DELETE; query := []; body := JUndefined; target := api; expectEmpty := true |}.
Definition on_coordinator (o : RequestOptions) : RequestOptions :=
  {| method := o.(method); query := o.(query); body := o.(body); target := coordinator; expectEmpty := o.(expectEmpty) |}.

(** Property access, which throws on [null] and [undefined]. *)
Definition access (key : string) (v : json) : exn + json :=
  match v with
  | JUndefined | JNull => inl (JsError (engine_message ("Cannot read properties: " +:+ key)))
  | _ => inr (json_get key v)
  end.

(** The pages of a collection from [cursor] on, at most [pages] of them. *)
Fixpoint list_pages (path label : string) (q : list (string * json)) (pages : nat) (cursor : json) (items : list json) : http json :=
  match pages with
  | O => Throw (JsError (label +:+ " pagination did not terminate"))
  | S n =>
      response ← request path (read_query (ordered_set "cursor" cursor q));
      page ← lift (access "items" response);
      match page with
      | JArr xs =>
          let items := (items ++ xs)%list in
          let next := json_get "next_cursor" response in
          if truthy next then list_pages path label q n next items else Ret (JArr items)
      | _ => Throw (JsError (label +:+ " response missing items"))
      end
  end.

Definition listAll (path label : string) (q : list (string * json)) : http json :=
  list_pages path label q MAX_LIST_PAGES JUndefined [].

(** One page of a collection, as the operations that do not follow cursors read it. *)
Definition list_page (path message : string) (opts : RequestOptions) : http (list json) :=
  response ← request path opts;
  page ← lift (access "items" response);
  match page with
  | JArr xs => Ret xs
  | _ => Throw (JsError message)
  end.
End client.

(** ** The shapes the coordinator's rows are given *)

(** The own properties of a row other than [keys], as object rest leaves them; a value
    that is not an object has none. *)
Definition rest_of (keys : list string) (row : json) : list (string * json) :=
  match row with
  | JObj fields => filter (fun kv => kv.1 ∉ keys) fields
  | _ => []
  end.

(** Destructuring throws on [null] and [undefined]. *)
Definition destructured `{Runtime} (row : json) : exn + unit :=
  match row with
  | JUndefined | JNull => inl (JsError (engine_message "Cannot destructure"))
  | _ => inr tt
  end.

(** [v === null ? null : String(v)]. *)
Definition null_or_String (v : json) : json :=
  match v with JNull => JNull | _ => JStr (js_String v) end.

Definition array_or_empty (v : json) : json := match v with JArr _ => v | _ => JArr [] end.

Section rows.
Context `{Runtime}.

Definition shaped (row : json) (fields : list (string * json)) : exn + json :=
  match destructured row with inl x => inl x | inr _ => inr (JObj fields) end.

Definition mapSession (row : json) : exn + json :=
  shaped row (spread (rest_of ["agent_session_id"; "parent_id"; "subject_authority_record_id"] row)
    [("session_id", JStr (js_String (json_get "agent_session_id" row)));
     ("parent_session_id", null_or_String (json_get "parent_id" row));
     ("authority_record_id", JStr (js_String (json_get "subject_authority_record_id" row)))]).

Definition mapEffectiveAuthority (row : json) : exn + json :=
  shaped row (spread (rest_of ["agent_session_id"; "inbound_edges"] row)
    [("session_id", JStr (js_String (json_get "agent_session_id" row)));
     ("inbound_delegations", array_or_empty (json_get "inbound_edges" row))]).

Definition mapDelegationTraversal (row : json) : exn + json :=
  shaped row (spread (rest_of ["id"] row) [("delegation_id", JStr (js_String (json_get "id" row)))]).

Definition mapDelegation (row : json) : exn + json :=
  shaped row (spread (rest_of ["id"; "parent_edge_id"] row)
    [("delegation_id", JStr (js_String (json_get "id" row)));
     ("parent_delegation_id", null_or_String (json_get "parent_edge_id" row))]).

(** [rows.map(f)]: the first row that throws ends it. *)
Fixpoint map_rows (f : json -> exn + json) (rows : list json) : exn + list json :=
  match rows with
  | [] => inr []
  | r :: rest =>
      match f r with
      | inl x => inl x
      | inr v => match map_rows f rest with inl x => inl x | inr vs => inr (v :: vs) end
      end
  end.

(** [value.map(f)], which throws when [value] is not an array. *)
Definition map_array (f : json -> exn + json) (v : json) : exn + json :=
  match v with
  | JArr rows => match map_rows f rows with inl x => inl x | inr vs => inr (JArr vs) end
  | _ => inl (JsError (engine_message "map is not a function"))
  end.

Definition mapDelegationImpact (row : json) : exn + json :=
  match destructured row with
  | inl x => inl x
  | inr _ =>
      match map_array mapDelegationTraversal (array_or_empty (json_get "affected_edges" row)) with
      | inl x => inl x
      | inr edges =>
          inr (JObj (spread (rest_of ["edge_id"; "affected_edges"; "affected_agents"] row)
            [("delegation_id", JStr (js_String (json_get "edge_id" row)));
             ("affected_delegations", edges);
             ("affected_sessions", array_or_empty (json_get "affected_agents" row))]))
      end
  end.
End rows.

(** [grantListQuery]. *)
Definition grantListQuery (q : list (string * json)) : list (string * json) :=
  let get k := default_to JUndefined (ordered_get k q) in
  spread (filter (fun kv => kv.1 ∉ ["scopes"; "subject_id"; "user_id"]) q)
    [("user_id", nullish (get "user_id") (get "subject_id"));
     ("scopes", match get "scopes" with
                | JArr xs => JStr (js_String (JArr xs))
                | _ => JUndefined
                end)].

(** ** The operations

    One constructor per method of the client, with the arguments the method takes; the
    [perform_*] functions are the methods' bodies. *)

Inductive zones_call :=
| zones_list | zones_get (id : string) | zones_dcrStatus (id : string) | zones_create (input : json)
| zones_patch (id : string) (input : json) | zones_delete (id : string).

Inductive applications_call :=
| applications_list | applications_get (id : string) | applications_create (input : json)
| applications_patch (id : string) (input : json) | applications_rotateSecret (id : string)
| applications_getClientSecret (id : string) | applications_delete (id : string) | applications_dcr (input : json).

Inductive resources_call :=
| resources_list | resources_get (id : string) | resources_create (input : json)
| resources_patch (id : string) (input : json) | resources_delete (id : string).

Inductive providers_call :=
| providers_list | providers_get (id : string) | providers_create (input : json)
| providers_patch (id : string) (input : json) | providers_delete (id : string).

Inductive policies_call :=
| policies_list | policies_get (id : string) | policies_create (input : json)
| policies_addVersion (id content : string) | policies_delete (id : string).

Inductive policySets_call :=
| policySets_list | policySets_get (id : string) | policySets_create (name : string) (description : json)
| policySets_addVersion (id : string) (manifest : json) | policySets_listVersions (id : string)
| policySets_simulate (id versionId : string) (input : json) | policySets_activate (id versionId : string)
| policySets_activationStatus (id : string) (versionId outboxId : option string) | policySets_delete (id : string).

Inductive grants_call :=
| grants_list (q : list (string * json)) | grants_get (id : string) | grants_create (input : json) | grants_revoke (id : string).

Inductive subjectIssuers_call :=
| subjectIssuers_list | subjectIssuers_get (id : string) | subjectIssuers_create (input : json)
| subjectIssuers_patch (id : string) (input : json) | subjectIssuers_delete (id : string).

Inductive providerConnections_call :=
| providerConnections_create (input : json) | providerConnections_authorizeOAuth (input : json)
| providerConnections_revoke (input : json).

Inductive workloads_call :=
| workloads_list | workloads_get (id : string) | workloads_create (input : json) | workloads_update (id : string) (input : json)
| workloads_rotateSecret (id : string) | workloads_getSecret (id : string) | workloads_delete (id : string).

Inductive sessions_call :=
| sessions_list (q : list (string * json)) | sessions_get (id : string) | sessions_children (id : string) (q : list (string * json))
| sessions_suspend (id : string) | sessions_resume (id : string) | sessions_terminate (id : string)
| sessions_effectiveAuthority (id : string).

Inductive records_call :=
| authorityRecords_list (q : list (string * json)) | subjects_revoke (input : json)
| audit_list (q : list (string * json)) | audit_byRequest (requestId : string) | audit_explain (requestId : string)
| adminAudit_list (q : list (string * json)).

Inductive approvals_call :=
| approvals_list | approvals_get (id : string) | approvals_approve (id : string) (reason : option string)
| approvals_reject (id : string) (reason : option string).

Inductive delegations_call :=
| delegations_active | delegations_inbound (sessionId : string) | delegations_outbound (sessionId : string)
| delegations_traverse (id : string) | delegations_impact (id : string) | delegations_revoke (id : string).

(** A call in a zone. *)
Inductive zone_call :=
| Applications (c : applications_call) | Resources (c : resources_call) | Providers (c : providers_call)
| Policies (c : policies_call) | PolicySets (c : policySets_call) | Grants (c : grants_call)
| SubjectIssuers (c : subjectIssuers_call) | ProviderConnections (c : providerConnections_call)
| Workloads (c : workloads_call) | Sessions (c : sessions_call) | Records (c : records_call)
| Approvals (c : approvals_call) | Delegations (c : delegations_call).

Inductive admin_call :=
| Zones (c : zones_call)
| In (zoneId : string) (c : zone_call)
| PoliciesValidate (content : string)
| PolicyTemplates (id : option string).

Section operations.
Context `{Runtime}.
Variable this : AdminClientOptions.

Local Notation request := (request this).
Local Notation listAll := (listAll this).

Definition perform_zones (c : zones_call) : http json :=
  match c with
  | zones_list => listAll "/v1/zones" "zones" []
  | zones_get id => request ("/v1/zones/" +:+ id) read_
  | zones_dcrStatus id => request ("/v1/zones/" +:+ id +:+ "/dcr-status") read_
  | zones_create input => request "/v1/zones" (send POST input)
  | zones_patch id input => request ("/v1/zones/" +:+ id) (send PATCH input)
  | zones_delete id => request ("/v1/zones/" +:+ id) remove
  end.

Section in_zone.
Variable zoneId : string.

(** [/v1/zones/<zone>] and [/zones/<zone>]: the prefixes of the two services. *)
Definition api_path (p : string) : string := "/v1/zones/" +:+ zoneId +:+ p.
Definition coordinator_path (p : string) : string := "/zones/" +:+ zoneId +:+ p.

Definition perform_applications (c : applications_call) : http json :=
  match c with
  | applications_list => listAll (api_path "/applications") "applications" []
  | applications_get id => request (api_path ("/applications/" +:+ id)) read_
  | applications_create input => request (api_path "/applications") (send POST input)
  | applications_patch id input => request (api_path ("/applications/" +:+ id)) (send PATCH input)
  | applications_rotateSecret id => request (api_path ("/applications/" +:+ id +:+ "/rotate-secret")) (send POST JUndefined)
  | applications_getClientSecret id => request (api_path ("/applications/" +:+ id +:+ "/client-secret")) read_
  | applications_delete id => request (api_path ("/applications/" +:+ id)) remove
  | applications_dcr input => request (api_path "/applications/dcr") (send POST input)
  end.

Definition perform_resources (c : resources_call) : http json :=
  match c with
  | resources_list => listAll (api_path "/resources") "resources" []
  | resources_get id => request (api_path ("/resources/" +:+ id)) read_
  | resources_create input => request (api_path "/resources") (send POST input)
  | resources_patch id input => request (api_path ("/resources/" +:+ id)) (send PATCH input)
  | resources_delete id => request (api_path ("/resources/" +:+ id)) remove
  end.

Definition perform_providers (c : providers_call) : http json :=
  match c with
  | providers_list => listAll (api_path "/providers") "providers" []
  | providers_get id => request (api_path ("/providers/" +:+ id)) read_
  | providers_create input => request (api_path "/providers") (send POST input)
  | providers_patch id input => request (api_path ("/providers/" +:+ id)) (send PATCH input)
  | providers_delete id => request (api_path ("/providers/" +:+ id)) remove
  end.

Definition perform_policies (c : policies_call) : http json :=
  match c with
  | policies_list => listAll (api_path "/policies") "policies" []
  | policies_get id => request (api_path ("/policies/" +:+ id)) read_
  | policies_create input => request (api_path "/policies") (send POST input)
  | policies_addVersion id content =>
      request (api_path ("/policies/" +:+ id +:+ "/versions")) (send POST (JObj [("content", JStr content)]))
  | policies_delete id => request (api_path ("/policies/" +:+ id)) remove
  end.

(** A property that is spread in only when its value is a non-empty string. *)
Definition when_set (key : string) (o : option string) : list (string * json) :=
  match o with Some s => if bool_decide (s = "") then [] else [(key, JStr s)] | None => [] end.

Definition perform_policySets (c : policySets_call) : http json :=
  match c with
  | policySets_list => listAll (api_path "/policy-sets") "policy sets" []
  | policySets_get id => request (api_path ("/policy-sets/" +:+ id)) read_
  | policySets_create name description =>
      request (api_path "/policy-sets") (send POST (JObj [("name", JStr name); ("description", description)]))
  | policySets_addVersion id manifest =>
      request (api_path ("/policy-sets/" +:+ id +:+ "/versions")) (send POST (JObj [("manifest", manifest)]))
  | policySets_listVersions id => listAll (api_path ("/policy-sets/" +:+ id +:+ "/versions")) "policy set versions" []
  | policySets_simulate id versionId input =>
      request (api_path ("/policy-sets/" +:+ id +:+ "/simulate")) (send POST (JObj [("version_id", JStr versionId); ("input", input)]))
  | policySets_activate id versionId =>
      request (api_path ("/policy-sets/" +:+ id +:+ "/activate")) (send POST (JObj [("version_id", JStr versionId)]))
  | policySets_activationStatus id versionId outboxId =>
      request (api_path ("/policy-sets/" +:+ id +:+ "/activation-status"))
        (read_query (when_set "version_id" versionId ++ when_set "outbox_id" outboxId)%list)
  | policySets_delete id => request (api_path ("/policy-sets/" +:+ id)) remove
  end.

Definition perform_grants (c : grants_call) : http json :=
  match c with
  | grants_list q => listAll (api_path "/grants") "grants" (grantListQuery q)
  | grants_get id => request (api_path ("/grants/" +:+ id)) read_
  | grants_create input => request (api_path "/grants") (send POST input)
  | grants_revoke id => request (api_path ("/grants/" +:+ id)) remove
  end.

Definition perform_subjectIssuers (c : subjectIssuers_call) : http json :=
  match c with
  | subjectIssuers_list => listAll (api_path "/subject-issuers") "subject issuers" []
  | subjectIssuers_get id => request (api_path ("/subject-issuers/" +:+ id)) read_
  | subjectIssuers_create input => request (api_path "/subject-issuers") (send POST input)
  | subjectIssuers_patch id input => request (api_path ("/subject-issuers/" +:+ id)) (send PATCH input)
  | subjectIssuers_delete id => request (api_path ("/subject-issuers/" +:+ id)) remove
  end.

Definition perform_providerConnections (c : providerConnections_call) : http json :=
  match c with
  | providerConnections_create input => request (api_path "/provider-connections") (send POST input)
  | providerConnections_authorizeOAuth input => request (api_path "/provider-connections/oauth/authorize") (send POST input)
  | providerConnections_revoke input => request (api_path "/provider-connections/revoke") (send POST input)
  end.

Definition perform_workloads (c : workloads_call) : http json :=
  match c with
  | workloads_list => listAll (api_path "/workloads") "workloads" []
  | workloads_get id => request (api_path ("/workloads/" +:+ id)) read_
  | workloads_create input => request (api_path "/workloads") (send POST input)
  | workloads_update id input => request (api_path ("/workloads/" +:+ id)) (send PUT input)
  | workloads_rotateSecret id => request (api_path ("/workloads/" +:+ id +:+ "/rotate-secret")) (send POST JUndefined)
  | workloads_getSecret id => request (api_path ("/workloads/" +:+ id +:+ "/secret")) read_
  | workloads_delete id => request (api_path ("/workloads/" +:+ id)) remove
  end.

Definition perform_sessions (c : sessions_call) : http json :=
  match c with
  | sessions_list q => JArr <$> list_page this (api_path "/sessions") "sessions response missing items" (read_query q)
  | sessions_get id =>
      row ← request (coordinator_path ("/agents/" +:+ id)) (on_coordinator read_);
      lift (mapSession row)
  | sessions_children id q =>
      rows ← list_page this (coordinator_path ("/agents/" +:+ id +:+ "/children")) "session children response missing items"
               (on_coordinator (read_query q));
      lift (map_array mapSession (JArr rows))
  | sessions_suspend id => request (coordinator_path ("/agents/" +:+ id +:+ "/suspend")) (on_coordinator (send PATCH JUndefined))
  | sessions_resume id => request (coordinator_path ("/agents/" +:+ id +:+ "/resume")) (on_coordinator (send PATCH JUndefined))
  | sessions_terminate id => request (coordinator_path ("/agents/" +:+ id)) (on_coordinator remove)
  | sessions_effectiveAuthority id =>
      row ← request (coordinator_path ("/agents/" +:+ id +:+ "/effective-authority")) (on_coordinator read_);
      lift (mapEffectiveAuthority row)
  end.

Definition perform_records (c : records_call) : http json :=
  match c with
  | authorityRecords_list q =>
      JArr <$> list_page this (api_path "/authority-records") "authority-records response missing items" (read_query q)
  | subjects_revoke input => request (api_path "/subjects/revoke") (send POST input)
  | audit_list q => JArr <$> list_page this (api_path "/audit") "audit response missing items" (read_query q)
  | audit_byRequest requestId => request (api_path ("/audit/by-request/" +:+ requestId)) read_
  | audit_explain requestId => request (api_path ("/audit/by-request/" +:+ requestId +:+ "/explain")) read_
  | adminAudit_list q => JArr <$> list_page this (api_path "/admin-audit") "admin audit response missing items" (read_query q)
  end.

Definition perform_approvals (c : approvals_call) : http json :=
  match c with
  | approvals_list => listAll (api_path "/approvals") "approvals" []
  | approvals_get id => request (api_path ("/approvals/" +:+ id)) read_
  | approvals_approve id reason =>
      request (api_path ("/approvals/" +:+ id +:+ "/approve")) (send POST (JObj (when_set "reason" reason)))
  | approvals_reject id reason =>
      request (api_path ("/approvals/" +:+ id +:+ "/reject")) (send POST (JObj (when_set "reason" reason)))
  end.

Definition perform_delegations (c : delegations_call) : http json :=
  let get p := request (coordinator_path p) (on_coordinator read_) in
  match c with
  | delegations_active =>
      response ← get "/delegations/active";
      items ← lift (access "items" response);
      mapped ← lift (map_array mapDelegation items);
      Ret (JObj (ordered_set "items" mapped (rest_of [] response)))
  | delegations_inbound sessionId => rows ← get ("/delegations/inbound/" +:+ sessionId); lift (map_array mapDelegation rows)
  | delegations_outbound sessionId => rows ← get ("/delegations/outbound/" +:+ sessionId); lift (map_array mapDelegation rows)
  | delegations_traverse id => rows ← get ("/delegations/" +:+ id +:+ "/traverse"); lift (map_array mapDelegationTraversal rows)
  | delegations_impact id => row ← get ("/delegations/" +:+ id +:+ "/impact"); lift (mapDelegationImpact row)
  | delegations_revoke id =>
      response ← request (coordinator_path ("/delegations/" +:+ id +:+ "/revoke")) (on_coordinator (send PATCH JUndefined));
      edges ← lift (access "revoked_edges" response);
      Ret (JObj [("revoked_delegations", edges); ("affected_sessions", json_get "affected_sessions" response)])
  end.

Definition perform_zone (c : zone_call) : http json :=
  match c with
  | Applications c => perform_applications c
  | Resources c => perform_resources c
  | Providers c => perform_providers c
  | Policies c => perform_policies c
  | PolicySets c => perform_policySets c
  | Grants c => perform_grants c
  | SubjectIssuers c => perform_subjectIssuers c
  | ProviderConnections c => perform_providerConnections c
  | Workloads c => perform_workloads c
  | Sessions c => perform_sessions c
  | Records c => perform_records c
  | Approvals c => perform_approvals c
  | Delegations c => perform_delegations c
  end.
End in_zone.

(** [policyTemplates.get]: found among the listed templates. *)
Definition perform_templates (id : option string) : http json :=
  templates ← request "/v1/policy-templates" read_;
  match id with
  | None => Ret templates
  | Some id =>
      match templates with
      | JArr xs =>
          match find_first (fun t => match json_get "id" t with JStr i => bool_decide (i = id) | _ => false end) xs with
          | Some t => Ret t
          | None =>
              Throw (AdminApiError 404 "policy_template_not_found"
                (Redact.redact this.(maxFieldBytes) (JObj [("error", JStr "policy_template_not_found"); ("id", JStr id)])) false)
          end
      | _ => Throw (JsError (engine_message "find is not a function"))
      end
  end.

Definition perform (c : admin_call) : http json :=
  match c with
  | Zones c => perform_zones c
  | In zoneId c => perform_zone zoneId c
  | PoliciesValidate content => request "/v1/policies/validate" (send POST (JObj [("content", JStr content)]))
  | PolicyTemplates id => perform_templates id
  end.
End operations.
End AdminClient.

(** * Percent encoding

    [decodeURIComponent], the inverse of [encodeURIComponent] of [AdminClient], on UTF-8
    text: an escape above 127 opens a sequence whose other bytes must be escaped too and
    which must be one well-formed character. *)

Module Uri.
Import AdminClient.

Definition code (c : ascii) : Z := Z.of_nat (nat_of_ascii c).

(** How many bytes follow a leading byte above 127. *)
Definition following (c : ascii) : option nat :=
  let n := code c in
  if (194 <=? n) && (n <=? 223) then Some 1%nat
  else if (224 <=? n) && (n <=? 239) then Some 2%nat
  else if (240 <=? n) && (n <=? 244) then Some 3%nat
  else None.

Definition continues (c : ascii) : bool := (128 <=? code c) && (code c <=? 191).

(** No overlong form, no surrogate, nothing above U+10FFFF. *)
Definition second_ok (first second : ascii) : bool :=
  if code first =? 224 then 160 <=? code second
  else if code first =? 237 then code second <=? 159
  else if code first =? 240 then 144 <=? code second
  else if code first =? 244 then code second <=? 143
  else true.

(** The next byte of a sequence already opened by the bytes [seen]. *)
Definition next_ok (seen : string) (c : ascii) : bool :=
  continues c && match seen with String.String first String.EmptyString => second_ok first c | _ => true end.

Definition escaped_byte (a b : ascii) : option ascii :=
  match hex_value a, hex_value b with Some x, Some y => Some (byte (x * 16 + y)) | _, _ => None end.

(** [seen] are the bytes of an open sequence, [need] how many are missing. *)
Fixpoint decode_go (seen : string) (need : nat) (s : string) : option string :=
  match s with
  | String.EmptyString => match need with O => Some "" | S _ => None end
  | String.String c rest =>
      if bool_decide (c = "%"%char) then
        match rest with
        | String.String a (String.String b rest') =>
            match escaped_byte a b with
            | None => None
            | Some d =>
                match need with
                | O =>
                    if code d <? 128 then String.String d <$> decode_go "" 0 rest'
                    else match following d with Some n => decode_go (String.String d "") n rest' | None => None end
                | S n =>
                    if next_ok seen d then
                      match n with
                      | O => (fun t => seen +:+ String.String d t) <$> decode_go "" 0 rest'
                      | S _ => decode_go (seen +:+ String.String d "") n rest'
                      end
                    else None
                end
            end
        | _ => None
        end
      else match need with O => String.String c <$> decode_go "" 0 rest | S _ => None end
  end.

(** [None] is a [URIError]. *)
Definition decodeURIComponent (s : string) : option string := decode_go "" 0 s.

(** Well-formed UTF-8, read the same way. *)
Fixpoint utf8_go (seen : string) (need : nat) (s : string) : bool :=
  match s with
  | String.EmptyString => match need with O => true | S _ => false end
  | String.String d rest =>
      match need with
      | O =>
          if code d <? 128 then utf8_go "" 0 rest
          else match following d with Some n => utf8_go (String.String d "") n rest | None => false end
      | S n =>
          next_ok seen d && match n with O => utf8_go "" 0 rest | S _ => utf8_go (seen +:+ String.String d "") n rest end
      end
  end.

Definition well_formed (s : string) : bool := utf8_go "" 0 s.

(** ** Round trip *)

(** Every character is written as itself, below 128, or as an escape that reads back. *)
Definition escape_reads (c : ascii) : bool :=
  let n := nat_of_ascii c in
  if uri_char c then (code c <? 128) && negb (bool_decide (c = "%"%char))
  else match "%" +:+ upper_hex (n / 16) +:+ upper_hex (n `mod` 16) with
       | String.String p (String.String a (String.String b String.EmptyString)) =>
           bool_decide (p = "%"%char) && bool_decide (escaped_byte a b = Some c)
       | _ => false
       end.

Lemma escape_reads_all c : escape_reads c = true.
Proof. destruct c as [[] [] [] [] [] [] [] []]; vm_compute; reflexivity. Qed.

Lemma decode_encode_go s seen need :
  utf8_go seen need s = true -> decode_go seen need (encodeURIComponent s) = Some (match need with O => s | S _ => seen +:+ s end).
Proof.
  revert seen need. induction s as [|c s IH]; intros seen need; [by destruct need|].
  pose proof (escape_reads_all c) as Hc. unfold escape_reads in Hc. cbn [utf8_go encodeURIComponent]. destruct (uri_char c) eqn:Hu.
  - bool_props. change (String.String c "" +:+ ?x) with (String.String c x). cbn [decode_go]. rewrite bool_decide_false by done. destruct need as [|n].
    + rewrite (proj2 (Z.ltb_lt _ _)) by done. intros Hs. by rewrite (IH _ _ Hs).
    + intros Hs. bool_props. unfold next_ok, continues in *. bool_props. lia.
  - destruct ("%" +:+ _) as [|p [|a [|b [|]]]] eqn:He; try discriminate Hc. bool_props. subst p.
    change (String.String ?p (String.String a (String.String b "")) +:+ ?x) with (String.String p (String.String a (String.String b x))).
    cbn [decode_go]. rewrite bool_decide_true by done. rewrite H0. destruct need as [|n].
    + destruct (code c <? 128) eqn:Hlt; [intros Hs; by rewrite (IH _ _ Hs)|]. destruct (following c) as [m|] eqn:Hf; [|done].
      intros Hs. rewrite (IH _ _ Hs). destruct m; [|done]. unfold following in Hf. by repeat case_match.
    + intros Hs. bool_props. rewrite H. destruct n as [|n]; rewrite (IH _ _ H1); [done|].
      f_equal. by rewrite string_app_assoc.
Qed.

Lemma decode_encode s : well_formed s = true -> decodeURIComponent (encodeURIComponent s) = Some s.
Proof. apply decode_encode_go. Qed.
End Uri.
