(* ===== verification/Catalog.v ===== *)
(** * The command catalog

    [packages/engine/src/commands.ts]: the descriptors of the runtime and management
    commands, the scope a command requires, and the lookup of a command. *)

From Stdlib Require Import Ascii.
From Stdlib Require String.
From S2P Require Import Prelude.
From S2P Require Import Text.
Local Open Scope string_scope.

Module Catalog.

Inductive CommandGroup := stack | runtime | admin | observability | multiagent.

Inductive ScopeVerb := read | write | delete.

#[global] Instance ScopeVerb_eq_dec : EqDecision ScopeVerb.
Proof. solve_decision. Defined.

Record FlagDescriptor := flag { flag_name : string; flag_summary : string }.

Record CommandDescriptor := {
  name : string;
  group : CommandGroup;
  summary : string;
  subcommands : option (list string);
  requiresConfig : bool;
  requiresArgs : bool;
  requiresZone : bool;
  hidden : bool;
  delegatesScope : bool;
  flags : list (string * list FlagDescriptor);
  scopes : list (string * ScopeVerb)
}.

Definition READ_VERBS : list string :=
  ["list"; "get"; "tree"; "tail"; "active"; "inbound"; "outbound"; "traverse"; "validate"; "simulate"].

Definition DELETE_VERBS : list string := ["delete"; "terminate"; "revoke"].

Definition scopeFor (desc : CommandDescriptor) (sub : string) : ScopeVerb :=
  match ordered_get sub desc.(scopes) with
  | Some explicit => explicit
  | None =>
      if bool_decide (sub ∈ READ_VERBS) then read
      else if bool_decide (sub ∈ DELETE_VERBS) then delete
      else write
  end.

Definition verb_text (v : ScopeVerb) : string :=
  match v with read => "read" | write => "write" | delete => "delete" end.

(** [control:<command>:<verb>]. *)
Definition control_scope (command : string) (verb : ScopeVerb) : string :=
  "control:" +:+ command +:+ ":" +:+ verb_text verb.

Definition scopeName (desc : CommandDescriptor) (sub : string) : string :=
  control_scope desc.(name) (scopeFor desc sub).

Definition ensure_flags : list FlagDescriptor :=
  [flag "--spec" "Object spec JSON keyed by its stable identity field";
   flag "--dry-run" "Compute the plan without writing";
   flag "--idempotency-key" "Caller correlation key recorded in the audit trail"].

Definition up_command : CommandDescriptor :=
  {| name := "up"; group := stack;
     summary := "Build and start the Caracal platform";
     subcommands := None;
     requiresConfig := false; requiresArgs := false; requiresZone := false; hidden := false; delegatesScope := false;
     flags := [];
     scopes := [] |}.

Definition down_command : CommandDescriptor :=
  {| name := "down"; group := stack;
     summary := "Stop the platform (-v removes volumes)";
     subcommands := None;
     requiresConfig := false; requiresArgs := false; requiresZone := false; hidden := false; delegatesScope := false;
     flags := [];
     scopes := [] |}.

Definition status_command : CommandDescriptor :=
  {| name := "status"; group := stack;
     summary := "Show platform health";
     subcommands := None;
     requiresConfig := false; requiresArgs := false; requiresZone := false; hidden := false; delegatesScope := false;
     flags := [("", [flag "--ready" "Probe dependency readiness instead of liveness";
            flag "--json" "Emit machine-readable result"])];
     scopes := [] |}.

Definition purge_command : CommandDescriptor :=
  {| name := "purge"; group := stack;
     summary := "Remove platform state";
     subcommands := Some ["stack"; "volumes"; "logs"; "config"; "runtime"; "secrets"; "cache"; "all"];
     requiresConfig := false; requiresArgs := false; requiresZone := false; hidden := false; delegatesScope := false;
     flags := [];
     scopes := [] |}.

Definition upgrade_command : CommandDescriptor :=
  {| name := "upgrade"; group := stack;
     summary := "Upgrade the platform in place";
     subcommands := None;
     requiresConfig := false; requiresArgs := false; requiresZone := false; hidden := false; delegatesScope := false;
     flags := [("", [flag "--no-pull" "Reuse local images instead of pulling the pinned release"])];
     scopes := [] |}.

Definition allowlist_command : CommandDescriptor :=
  {| name := "allowlist"; group := stack;
     summary := "Manage Console sign-in access";
     subcommands := Some ["add"; "remove"; "lock"; "unlock"; "list"];
     requiresConfig := false; requiresArgs := true; requiresZone := false; hidden := false; delegatesScope := false;
     flags := [];
     scopes := [] |}.

Definition run_command : CommandDescriptor :=
  {| name := "run"; group := runtime;
     summary := "Execute a workload with scoped runtime credentials";
     subcommands := None;
     requiresConfig := true; requiresArgs := true; requiresZone := false; hidden := false; delegatesScope := false;
     flags := [];
     scopes := [] |}.

Definition web_command : CommandDescriptor :=
  {| name := "web"; group := runtime;
     summary := "Open the Caracal Console";
     subcommands := None;
     requiresConfig := false; requiresArgs := false; requiresZone := false; hidden := false; delegatesScope := false;
     flags := [("", [flag "--web-port" "Port for the web UI (default 3001)";
            flag "--auth-port" "Port for the backend-for-frontend (default 3002)";
            flag "--build" "Serve the production build instead of the dev server"])];
     scopes := [] |}.

Definition SHELL_COMMANDS : list CommandDescriptor :=
  [up_command; down_command; status_command; purge_command; upgrade_command; allowlist_command; run_command; web_command].

Definition app_command : CommandDescriptor :=
  {| name := "app"; group := admin;
     summary := "Manage applications";
     subcommands := Some ["list"; "get"; "create"; "patch"; "rotate-secret"; "delete"; "dcr"];
     requiresConfig := false; requiresArgs := false; requiresZone := true; hidden := false; delegatesScope := false;
     flags := [("create", [flag "--name" "Application name"]);
         ("patch", [flag "--name" "Application name"]);
         ("rotate-secret", [flag "--id" "Application ID"]);
         ("dcr", [flag "--name" "Application name";
            flag "--expires-in" "Client lifetime seconds (1-3600)"])];
     scopes := [] |}.

Definition resource_command : CommandDescriptor :=
  {| name := "resource"; group := admin;
     summary := "Manage protected resources";
     subcommands := Some ["list"; "get"; "create"; "patch"; "delete"];
     requiresConfig := false; requiresArgs := false; requiresZone := true; hidden := false; delegatesScope := false;
     flags := [("create", [flag "--name" "Resource name";
            flag "--identifier" "Resource identifier; generated from name when omitted";
            flag "--scopes" "Comma-separated resource scopes";
            flag "--upstream-url" "Upstream URL";
            flag "--credential-provider-id" "Upstream credential provider ID";
            flag "--operations" "JSON array of {method, path, scope} operations the Gateway authorizes";
            flag "--operation-enforcement" "enforced (deny undeclared operations) or transport_uniform"]);
         ("patch", [flag "--identifier" "Resource identifier";
            flag "--name" "Resource name";
            flag "--scopes" "Comma-separated resource scopes";
            flag "--upstream-url" "Upstream URL";
            flag "--credential-provider-id" "Upstream credential provider ID";
            flag "--operations" "JSON array of {method, path, scope} operations the Gateway authorizes";
            flag "--operation-enforcement" "enforced (deny undeclared operations) or transport_uniform"])];
     scopes := [] |}.

Definition identity_provider_command : CommandDescriptor :=
  {| name := "identity-provider"; group := admin;
     summary := "Manage identity providers";
     subcommands := Some ["list"; "get"; "create"; "patch"; "delete"];
     requiresConfig := false; requiresArgs := false; requiresZone := true; hidden := false; delegatesScope := false;
     flags := [("create", [flag "--name" "Provider name";
            flag "--identifier" "Provider identifier";
            flag "--kind" "Provider kind (none, caracal_mandate, oauth2_authorization_code, oauth2_client_credentials, api_key, bearer_token, http_basic)";
            flag "--config" "Inline config JSON"]);
         ("patch", [flag "--identifier" "Provider identifier";
            flag "--name" "Provider name";
            flag "--kind" "Provider kind (none, caracal_mandate, oauth2_authorization_code, oauth2_client_credentials, api_key, bearer_token, http_basic)";
            flag "--config" "Inline config JSON"])];
     scopes := [] |}.

Definition policy_command : CommandDescriptor :=
  {| name := "policy"; group := admin;
     summary := "Manage policies";
     subcommands := Some ["list"; "get"; "create"; "validate"; "version"; "delete"];
     requiresConfig := false; requiresArgs := false; requiresZone := true; hidden := false; delegatesScope := false;
     flags := [("create", [flag "--name" "Policy name";
            flag "--description" "Policy description";
            flag "--content" "Inline policy content";
            flag "--file" "Read content from file"]);
         ("validate", [flag "--file" "Read Rego from file";
            flag "--content" "Inline Rego content"]);
         ("version", [flag "--content" "Inline policy content";
            flag "--file" "Read content from file"])];
     scopes := [] |}.

Definition policy_set_command : CommandDescriptor :=
  {| name := "policy-set"; group := admin;
     summary := "Manage policy sets";
     subcommands := Some ["list"; "get"; "create"; "version"; "activate"; "simulate"; "delete"];
     requiresConfig := false; requiresArgs := false; requiresZone := true; hidden := false; delegatesScope := false;
     flags := [("create", [flag "--name" "Policy set name";
            flag "--description" "Description"]);
         ("version", [flag "--policy-versions" "Comma-separated policy version IDs"]);
         ("activate", [flag "--version" "Policy set version ID"]);
         ("simulate", [flag "--version" "Policy set version ID";
            flag "--input" "Inline OPA input fixture JSON";
            flag "--input-file" "OPA input fixture file"])];
     scopes := [] |}.

Definition state_command : CommandDescriptor :=
  {| name := "state"; group := admin;
     summary := "Reconcile a zone toward a declarative desired-state document";
     subcommands := Some ["apply"; "plan"; "verify"];
     requiresConfig := false; requiresArgs := false; requiresZone := true; hidden := false; delegatesScope := true;
     flags := [("apply", [flag "--document" "Desired-state JSON: { objects: [{ kind, spec }], prune? }";
            flag "--prune" "Delete managed objects of declared kinds absent from the document";
            flag "--dry-run" "Compute the plan without writing";
            flag "--idempotency-key" "Caller correlation key recorded in the audit trail"]);
         ("plan", [flag "--document" "Desired-state JSON to diff against the live zone";
            flag "--prune" "Include prune actions in the plan"]);
         ("verify", [flag "--document" "Desired-state JSON to compare against the live zone";
            flag "--prune" "Treat managed objects absent from the document as drift"])];
     scopes := [] |}.

Definition ensure_command : CommandDescriptor :=
  {| name := "ensure"; group := admin;
     summary := "Idempotently create-or-patch one object to match a spec";
     subcommands := Some ["application"; "identity-provider"; "resource"; "policy"; "policy-set"];
     requiresConfig := false; requiresArgs := false; requiresZone := true; hidden := false; delegatesScope := true;
     flags := (fun kind => (kind, ensure_flags)) <$> ["application"; "identity-provider"; "resource"; "policy"; "policy-set"];
     scopes := [] |}.

Definition catalog_command : CommandDescriptor :=
  {| name := "catalog"; group := admin;
     summary := "Describe the Control surface: commands, scopes, flags, and declarative kinds";
     subcommands := Some ["describe"];
     requiresConfig := false; requiresArgs := false; requiresZone := true; hidden := false; delegatesScope := true;
     flags := [];
     scopes := [] |}.

Definition workload_command : CommandDescriptor :=
  {| name := "workload"; group := admin;
     summary := "Manage workload launcher identities and their credential bindings";
     subcommands := Some ["list"; "get"; "create"; "patch"; "rotate-secret"; "delete"];
     requiresConfig := false; requiresArgs := false; requiresZone := true; hidden := false; delegatesScope := false;
     flags := [("create", [flag "--name" "Workload name"]);
         ("patch", [flag "--id" "Workload ID";
            flag "--name" "Workload name";
            flag "--bindings" "JSON array of {env, resource, scopes, optional, on_failure} credential bindings"]);
         ("rotate-secret", [flag "--id" "Workload ID"])];
     scopes := [] |}.

Definition authority_record_command : CommandDescriptor :=
  {| name := "authority-record"; group := admin;
     summary := "List STS authority records";
     subcommands := Some ["list"];
     requiresConfig := false; requiresArgs := false; requiresZone := true; hidden := false; delegatesScope := false;
     flags := [("list", [flag "--subject" "Filter by Subject ID";
            flag "--status" "Filter by status";
            flag "--limit" "Maximum rows to return"])];
     scopes := [] |}.

Definition approval_command : CommandDescriptor :=
  {| name := "approval"; group := admin;
     summary := "Read approval requests awaiting a human decision";
     subcommands := Some ["list"];
     requiresConfig := false; requiresArgs := false; requiresZone := true; hidden := false; delegatesScope := false;
     flags := [];
     scopes := [] |}.

Definition audit_command : CommandDescriptor :=
  {| name := "audit"; group := observability;
     summary := "Search audit events";
     subcommands := Some ["tail"; "admin"];
     requiresConfig := false; requiresArgs := false; requiresZone := true; hidden := false; delegatesScope := false;
     flags := [("tail", [flag "--since" "Start of time window";
            flag "--until" "End of time window";
            flag "--decision" "Filter by decision";
            flag "--event-type" "Filter by event type";
            flag "--request-id" "Filter by request ID";
            flag "--limit" "Maximum rows to return"]);
         ("admin", [flag "--limit" "Maximum rows to return"])];
     scopes := [("admin", read)] |}.

Definition explain_command : CommandDescriptor :=
  {| name := "explain"; group := observability;
     summary := "Explain one audit request";
     subcommands := None;
     requiresConfig := false; requiresArgs := false; requiresZone := true; hidden := false; delegatesScope := false;
     flags := [("", [flag "--request-id" "Request ID from an audit event";
            flag "--format" "Output format: text or mermaid";
            flag "--flow" "Render the authority path as Mermaid"])];
     scopes := [("", read)] |}.

Definition session_command : CommandDescriptor :=
  {| name := "session"; group := multiagent;
     summary := "Manage governed sessions";
     subcommands := Some ["list"; "get"; "tree"; "suspend"; "resume"; "terminate"];
     requiresConfig := false; requiresArgs := false; requiresZone := true; hidden := false; delegatesScope := false;
     flags := [];
     scopes := [] |}.

Definition delegation_command : CommandDescriptor :=
  {| name := "delegation"; group := multiagent;
     summary := "Manage delegations";
     subcommands := Some ["active"; "inbound"; "outbound"; "traverse"; "revoke"];
     requiresConfig := false; requiresArgs := false; requiresZone := true; hidden := false; delegatesScope := false;
     flags := [];
     scopes := [] |}.

Definition grant_command : CommandDescriptor :=
  {| name := "grant"; group := admin;
     summary := "Manage delegated grants binding an application and user to resource scopes";
     subcommands := Some ["list"; "get"; "create"; "revoke"];
     requiresConfig := false; requiresArgs := false; requiresZone := true; hidden := false; delegatesScope := false;
     flags := [];
     scopes := [] |}.

Definition MANAGEMENT_COMMANDS : list CommandDescriptor :=
  [app_command; resource_command; identity_provider_command; policy_command; policy_set_command; state_command; ensure_command; catalog_command; workload_command; authority_record_command; approval_command; audit_command; explain_command; session_command; delegation_command; grant_command].

Definition findCommand (table : list CommandDescriptor) (command : string) : option CommandDescriptor :=
  find_first (fun c => bool_decide (c.(name) = command)) table.

(** [COMMAND_NAME_PATTERN]: [/^[a-z][a-z0-9-]{0,31}$/]. *)
Definition COMMAND_NAME_PATTERN (s : string) : bool :=
  match s with
  | String.String c rest =>
      is_lower c && all_chars (fun d => is_lower d || is_digit d || one_of "-" d) rest
      && bool_decide (String.length rest <= 31)
  | String.EmptyString => false
  end.

(** Every command of the catalog is well formed: its name fits the pattern and is
    unique, and its flags and explicit scopes belong to declared subcommands. *)
Definition declared_subs (desc : CommandDescriptor) : list string :=
  match desc.(subcommands) with Some (s :: rest) => s :: rest | _ => [""] end.

Definition well_formed (desc : CommandDescriptor) : bool :=
  COMMAND_NAME_PATTERN desc.(name)
  && forallb (fun kf => bool_decide (kf.1 ∈ declared_subs desc)) desc.(flags)
  && forallb (fun ks => bool_decide (ks.1 ∈ declared_subs desc)) desc.(scopes).

Lemma catalog_well_formed :
  forallb well_formed (SHELL_COMMANDS ++ MANAGEMENT_COMMANDS)%list = true
  /\ NoDup (name <$> (SHELL_COMMANDS ++ MANAGEMENT_COMMANDS)%list).
Proof. split; [vm_compute; reflexivity|]. apply (bool_decide_eq_true_1 _). vm_compute. reflexivity. Qed.

Lemma findCommand_Some table command desc :
  findCommand table command = Some desc -> desc ∈ table /\ desc.(name) = command.
Proof. unfold findCommand. intros [Hin Hb]%find_first_Some. by bool_props. Qed.

End Catalog.
