(* ===== verification/Reconcile.v ===== *)
(** * The declarative reconciler

    [packages/engine/src/reconcile.ts]: a desired-state document is checked, authorised
    and converged, object by object, through the admin client.  The calls to the client
    are the calls of the program ([AdminClient.admin_call]); their answers are left
    open.  The listings, which the code runs together, are made in the order of the
    kinds. *)

From Stdlib Require Import Ascii.
From Stdlib Require String.
From S2P Require Import Prelude.
From S2P Require Import Json.
From S2P Require Import JsonText.
From S2P Require Import Scope.
From S2P Require Import Text.
From S2P Require Import Prog.
From S2P Require Import AdminClient.
From S2P Require Import Catalog.
Local Open Scope string_scope.
Local Open Scope Z_scope.

Module Reconcile.
Import AdminClient.

(** A program over the admin client: a call answers with its value or its error. *)
Notation admin := (prog admin_call (fun _ => (exn + json)%type) exn).

Definition call (c : admin_call) : admin json := Vis c lift.

Inductive ObjectKind := application | identity_provider | resource | policy | policy_set.

#[global] Instance ObjectKind_eq_dec : EqDecision ObjectKind.
Proof. solve_decision. Defined.

Definition kind_name (k : ObjectKind) : string :=
  match k with
  | application => "application"
  | identity_provider => "identity-provider"
  | resource => "resource"
  | policy => "policy"
  | policy_set => "policy-set"
  end.

Definition OBJECT_KINDS : list ObjectKind := [application; identity_provider; resource; policy; policy_set].

(** The document keeps a kind as the text it was given. *)
Record DesiredObject := { kind : string; spec : json }.
Record DesiredState := { objects : list DesiredObject; doc_prune : bool }.

Inductive ReconcileAction := Create | Update | Unchanged | Prune.

#[global] Instance ReconcileAction_eq_dec : EqDecision ReconcileAction.
Proof. solve_decision. Defined.

Record ObjectOutcome := {
  o_kind : string;
  o_identity : string;
  o_action : ReconcileAction;
  o_drift : option (list string);
  o_id : json;
  o_applied : bool;
  o_error : option (string * string)
}.

Record Summary := { created : Z; updated : Z; unchanged : Z; pruned : Z; failed : Z }.

Record ReconcileReport := {
  r_ok : bool;
  r_dryRun : bool;
  r_prune : bool;
  r_zoneId : string;
  r_outcomes : list ObjectOutcome;
  r_summary : Summary;
  r_drift : bool
}.

Record ReconcileOptions := { dryRun : bool; prune : bool }.

Definition SECRET_CONFIG_KEYS : list string := ["client_secret"; "private_key"; "api_key"; "bearer_token"].
Definition CONTROL_INVOKE_TRAIT : string := "control:invoke".
Definition PRIVILEGED_TRAIT_NAMESPACES : list string := ["control"; "caracal.sys"].

(** ** Comparison of live objects with specs *)

(** [===] on values read from two documents: objects and arrays are never the same. *)
Definition strict_eq (a b : json) : bool :=
  match a, b with
  | JUndefined, JUndefined | JNull, JNull | JNonFinite, JNonFinite => true
  | JBool x, JBool y => eqb x y
  | JNum x, JNum y => x =? y
  | JDec x, JDec y => bool_decide (x = y)
  | JStr x, JStr y => bool_decide (x = y)
  | _, _ => false
  end.

(** [key in value] for a value read from a document. *)
Definition has_key (key : string) (v : json) : bool :=
  match v with JObj fields => bool_decide (is_Some (ordered_get key fields)) | _ => false end.

Fixpoint sortKeys (value : json) : json :=
  match value with
  | JArr xs => JArr ((fix go l := match l with [] => [] | x :: l' => sortKeys x :: go l' end) xs)
  | JObj fields =>
      JObj (own_order (merge_sort key_le
        ((fix go l := match l with [] => [] | (k, x) :: l' => (k, sortKeys x) :: go l' end) fields)))
  | _ => value
  end.

Definition canonical (value : json) : option string := JSON_stringify (sortKeys value).

(** [Array.isArray(v) ? v.map(String) : []]. *)
Definition strings_of (v : json) : list string :=
  match v with JArr xs => js_String <$> xs | _ => [] end.

Definition sameSet (left_ right_ : json) : bool :=
  let a := strings_of left_ in
  let b := strings_of right_ in
  bool_decide (length a = length b) && forallb (fun item => bool_decide (item ∈ a)) b.

Section runtime.
Context `{Runtime}.

Definition operationKey (entry : json) : exn + string :=
  match access "method" entry with
  | inl x => inl x
  | inr m =>
      let method := to_upper (trim (js_String (nullish m (JStr "")))) in
      let path := trim (js_String (nullish (json_get "path" entry) (JStr ""))) in
      let scope := js_String (nullish (json_get "scope" entry) (JStr "")) in
      inr (method +:+ " " +:+ path +:+ " " +:+ scope)
  end.

Definition operationKeys (value : json) : exn + list json :=
  match value with
  | JArr xs => map_rows (fun e => match operationKey e with inl x => inl x | inr s => inr (JStr s) end) xs
  | _ => inr []
  end.

Definition sameOperations (left_ right_ : json) : exn + bool :=
  match operationKeys left_, operationKeys right_ with
  | inr a, inr b => inr (sameSet (JArr a) (JArr b))
  | inl x, _ => inl x
  | _, inl x => inl x
  end.
End runtime.

Definition reqStr (v : json) (key kind : string) : exn + string :=
  match json_get key v with
  | JStr s =>
      if bool_decide (s = "") then
        inl (DispatchError invalid (kind +:+ " spec field " +:+ quote +:+ key +:+ quote +:+ " is required")
          (Some ("Add a non-empty " +:+ quote +:+ key +:+ quote +:+ " to the " +:+ kind +:+ " spec.")))
      else inr s
  | _ =>
      inl (DispatchError invalid (kind +:+ " spec field " +:+ quote +:+ key +:+ quote +:+ " is required")
        (Some ("Add a non-empty " +:+ quote +:+ key +:+ quote +:+ " to the " +:+ kind +:+ " spec.")))
  end.

(** [optStr]: the string, or [undefined]. *)
Definition optStr (v : json) (key : string) : json :=
  match json_get key v with JStr s => JStr s | _ => JUndefined end.

Definition stripSecrets (config : json) : json :=
  match config with
  | JObj fields => JObj (filter (fun kv => kv.1 ∉ SECRET_CONFIG_KEYS) fields)
  | _ => config
  end.

(** The version of the highest number, and its digest. *)
Definition version_number (v : json) : Z := match json_get "version" v with JNum n => n | _ => -1 end.

Definition newest (latest : option json) (version : json) : option json :=
  let best := match latest with Some l => version_number l | None => -1 end in
  if best <? version_number version then Some version else latest.

Definition latestPolicyVersionSha (detail : json) : option string :=
  let versions := match json_get "versions" detail with JArr xs => xs | _ => [] end in
  match foldl newest None versions with
  | Some l => as_string (json_get "content_sha256" l)
  | None => None
  end.

Definition typeof_object (v : json) : bool := match v with JObj _ | JArr _ => true | _ => false end.

(** [Array.isArray(live.traits) && live.traits.includes(CONTROL_INVOKE_TRAIT)]. *)
Definition is_control_key (live : json) : bool :=
  match json_get "traits" live with
  | JArr xs => existsb (fun t => strict_eq t (JStr CONTROL_INVOKE_TRAIT)) xs
  | _ => false
  end.

(** ** The adapters *)

(** The catalog noun that scopes are derived from. *)
Definition command (k : ObjectKind) : string :=
  match k with application => "app" | _ => kind_name k end.

Definition identityField (k : ObjectKind) : string :=
  match k with identity_provider | resource => "identifier" | _ => "name" end.

Definition list_call (k : ObjectKind) : zone_call :=
  match k with
  | application => Applications applications_list
  | identity_provider => Providers providers_list
  | resource => Resources resources_list
  | policy => Policies policies_list
  | policy_set => PolicySets policySets_list
  end.

Definition delete_call (k : ObjectKind) (id : string) : zone_call :=
  match k with
  | application => Applications (applications_delete id)
  | identity_provider => Providers (providers_delete id)
  | resource => Resources (resources_delete id)
  | policy => Policies (policies_delete id)
  | policy_set => PolicySets (policySets_delete id)
  end.

Definition identityOfSpec (k : ObjectKind) (v : json) : exn + string := reqStr v (identityField k) (kind_name k).

Definition protectedFromPrune (k : ObjectKind) (live : json) : bool :=
  match k with application => is_control_key live | _ => false end.

(** The identifier of a listed object as it enters a path. *)
Definition live_id (live : json) : string := js_String (json_get "id" live).

(** A field that is sent only when the spec has it. *)
Definition given (key : string) (v : json) : json := if has_key key v then json_get key v else JUndefined.
Definition array_or_undefined (v : json) : json := match v with JArr _ => v | _ => JUndefined end.

Definition push (b : bool) (field : string) (drift : list string) : list string := if b then (drift ++ [field])%list else drift.

Section adapters.
Context `{Runtime}.
(** [createHash('sha256')] of a text, in hexadecimal. *)
Variable sha256Hex : string -> string.
Variable zoneId : string.

Definition identityOf (k : ObjectKind) (live : json) : exn + string :=
  match access (identityField k) live with inl x => inl x | inr v => inr (js_String v) end.

Definition application_drift (live v : json) : list string :=
  push (isArray (json_get "traits" v) && negb (sameSet (json_get "traits" live) (json_get "traits" v))) "traits" [].

Definition differs (field : string) (live v : json) : bool :=
  match json_get field v with JStr s => negb (strict_eq (json_get field live) (JStr s)) | _ => false end.

Definition provider_drift (live v : json) : list string :=
  let d := push (differs "name" live v) "name" [] in
  let d := push (differs "kind" live v) "kind" d in
  push (typeof_object (json_get "config" v)
        && negb (bool_decide (canonical (stripSecrets (json_get "config_json" live)) = canonical (stripSecrets (json_get "config" v)))))
    "config" d.

Definition resource_drift (live v : json) : exn + list string :=
  let d := push (differs "name" live v) "name" [] in
  let d := push (isArray (json_get "scopes" v) && negb (sameSet (json_get "scopes" live) (json_get "scopes" v))) "scopes" d in
  let d := push (has_key "upstream_url" v
                 && negb (strict_eq (json_get "upstream_url" live) (nullish (json_get "upstream_url" v) JNull))) "upstream_url" d in
  let d := push (has_key "credential_provider_id" v
                 && negb (strict_eq (json_get "credential_provider_id" live) (nullish (json_get "credential_provider_id" v) JNull)))
             "credential_provider_id" d in
  match if has_key "operations" v then sameOperations (json_get "operations" live) (json_get "operations" v) else inr true with
  | inl x => inl x
  | inr same =>
      let d := push (negb same) "operations" d in
      inr (push (has_key "operation_enforcement" v
                 && negb (strict_eq (json_get "operation_enforcement" live) (json_get "operation_enforcement" v)))
             "operation_enforcement" d)
  end.

Definition drift (k : ObjectKind) (live v : json) : admin (list string) :=
  match k with
  | application => Ret (application_drift live v)
  | identity_provider => Ret (provider_drift live v)
  | resource => lift (resource_drift live v)
  | policy =>
      content ← lift (reqStr v "content" "policy");
      detail ← call (In zoneId (Policies (policies_get (live_id live))));
      _ ← lift (access "versions" detail);
      Ret (if bool_decide (latestPolicyVersionSha detail = Some (sha256Hex content)) then [] else ["content"])
  | policy_set => Ret []
  end.

(** The fields a resource is created and patched with, after its name. *)
Definition resource_fields (v : json) : list (string * json) :=
  [("upstream_url", given "upstream_url" v); ("credential_provider_id", given "credential_provider_id" v);
   ("operations", given "operations" v); ("operation_enforcement", given "operation_enforcement" v)].

Definition create (k : ObjectKind) (v : json) : admin json :=
  match k with
  | application =>
      name ← lift (reqStr v "name" "application");
      call (In zoneId (Applications (applications_create (JObj
        [("name", JStr name); ("registration_method", JStr "managed"); ("traits", array_or_undefined (json_get "traits" v))]))))
  | identity_provider =>
      identifier ← lift (reqStr v "identifier" "identity-provider");
      pkind ← lift (reqStr v "kind" "identity-provider");
      call (In zoneId (Providers (providers_create (JObj
        [("name", optStr v "name"); ("identifier", JStr identifier); ("kind", JStr pkind);
         ("config_json", if typeof_object (json_get "config" v) then json_get "config" v else JObj [])]))))
  | resource =>
      identifier ← lift (reqStr v "identifier" "resource");
      call (In zoneId (Resources (resources_create (JObj
        ([("name", optStr v "name"); ("identifier", JStr identifier); ("scopes", array_or_empty (json_get "scopes" v))]
         ++ resource_fields v)%list))))
  | policy =>
      name ← lift (reqStr v "name" "policy");
      content ← lift (reqStr v "content" "policy");
      call (In zoneId (Policies (policies_create (JObj
        [("name", JStr name); ("description", optStr v "description"); ("content", JStr content)]))))
  | policy_set =>
      name ← lift (reqStr v "name" "policy-set");
      call (In zoneId (PolicySets (policySets_create name (optStr v "description"))))
  end.

Definition update (k : ObjectKind) (live v : json) : admin json :=
  match k with
  | application =>
      if is_control_key live then
        Throw (DispatchError denied ("application " +:+ quote +:+ js_String (json_get "name" live) +:+ quote +:+ " is a control key")
          (Some "Manage control keys through the Console; declarative specs cannot modify them."))
      else call (In zoneId (Applications (applications_patch (live_id live)
             (JObj [("traits", array_or_undefined (json_get "traits" v))]))))
  | identity_provider =>
      call (In zoneId (Providers (providers_patch (live_id live) (JObj
        [("name", optStr v "name"); ("kind", optStr v "kind");
         ("config_json", if typeof_object (json_get "config" v) then json_get "config" v else JUndefined)]))))
  | resource =>
      call (In zoneId (Resources (resources_patch (live_id live) (JObj
        ([("name", optStr v "name"); ("scopes", array_or_undefined (json_get "scopes" v))] ++ resource_fields v)%list))))
  | policy =>
      content ← lift (reqStr v "content" "policy");
      call (In zoneId (Policies (policies_addVersion (live_id live) content)))
  | policy_set => Ret live
  end.

Definition pruneOne (k : ObjectKind) (id : string) : admin json := call (In zoneId (delete_call k id)).
End adapters.

(** ** The table of adapters *)

(** What indexing the table of adapters finds: an adapter, a member every object
    inherits, which is no adapter but is not [undefined] either, or nothing. *)
Inductive lookup_result := Own (k : ObjectKind) | Inherited | Missing.

Definition INHERITED : list string :=
  ["constructor"; "__defineGetter__"; "__defineSetter__"; "hasOwnProperty"; "__lookupGetter__"; "__lookupSetter__";
   "isPrototypeOf"; "propertyIsEnumerable"; "toString"; "valueOf"; "__proto__"; "toLocaleString"].

Definition ADAPTERS (kind : string) : lookup_result :=
  match find_first (fun k => bool_decide (kind_name k = kind)) OBJECT_KINDS with
  | Some k => Own k
  | None => if bool_decide (kind ∈ INHERITED) then Inherited else Missing
  end.

Definition kinds_text : string := string_concat ", " (kind_name <$> OBJECT_KINDS).

Definition adapterFor (kind : string) : exn + unit :=
  match ADAPTERS kind with
  | Missing =>
      inl (DispatchError invalid ("unknown object kind " +:+ quote +:+ kind +:+ quote) (Some ("Use one of: " +:+ kinds_text +:+ ".")))
  | _ => inr tt
  end.

(** [ADAPTERS[kind].command] inside a template string. *)
Definition command_text (kind : string) : string :=
  match ADAPTERS kind with Own k => command k | _ => "undefined" end.

(** ** Checks on the document *)

Fixpoint parse_objects (index : Z) (entries : list json) : exn + list DesiredObject :=
  match entries with
  | [] => inr []
  | entry :: rest =>
      let at_ := "objects[" +:+ pretty index +:+ "]" in
      if negb (is_object entry) then inl (DispatchError invalid (at_ +:+ " must be an object") None)
      else match json_get "kind" entry with
           | JStr kind =>
               match adapterFor kind with
               | inl x => inl x
               | inr _ =>
                   if negb (is_object (json_get "spec" entry)) then inl (DispatchError invalid (at_ +:+ ".spec must be an object") None)
                   else match parse_objects (index + 1) rest with
                        | inl x => inl x
                        | inr os => inr ({| kind := kind; spec := json_get "spec" entry |} :: os)
                        end
               end
           | _ =>
               inl (DispatchError invalid (at_ +:+ ".kind is required") (Some ("Set kind to one of: " +:+ kinds_text +:+ ".")))
           end
  end.

Definition parseDesiredState (raw : json) : exn + DesiredState :=
  if negb (is_object raw) then
    inl (DispatchError invalid "document must be a JSON object"
      (Some ("Send { " +:+ quote +:+ "objects" +:+ quote +:+ ": [ ... ], " +:+ quote +:+ "prune" +:+ quote +:+ ": false }.")))
  else match json_get "objects" raw with
       | JArr entries =>
           match parse_objects 0 entries with
           | inl x => inl x
           | inr os => inr {| objects := os; doc_prune := strict_eq (json_get "prune" raw) (JBool true) |}
           end
       | _ =>
           inl (DispatchError invalid ("document field " +:+ quote +:+ "objects" +:+ quote +:+ " must be an array")
             (Some ("Provide an " +:+ quote +:+ "objects" +:+ quote +:+ " array of { kind, spec } entries.")))
       end.

(** A check on every object of a document; the first that fails is thrown. *)
Fixpoint for_each {A : Type} (f : A -> exn + unit) (xs : list A) : exn + unit :=
  match xs with
  | [] => inr tt
  | x :: rest => match f x with inl e => inl e | inr _ => for_each f rest end
  end.

Section checks.
Context `{Runtime}.

Definition assertZoneAlignment (doc : DesiredState) (zoneId : string) : exn + unit :=
  for_each (fun object =>
    match access "zone_id" object.(spec) with
    | inl x => inl x
    | inr declared =>
        match nullish declared (json_get "zone" object.(spec)) with
        | JStr z =>
            if bool_decide (z = zoneId) then inr tt
            else inl (DispatchError zone_mismatch
                   ("object spec targets zone " +:+ quote +:+ z +:+ quote +:+ " but the credential is bound to zone "
                    +:+ quote +:+ zoneId +:+ quote)
                   (Some "Use a control key issued for the target zone, or remove the zone field so the credential zone is used."))
        | _ => inr tt
        end
    end) doc.(objects).

Definition trait_allowed (trait : json) : exn + unit :=
  let namespace := before ":" (js_String trait) in
  if bool_decide (namespace ∈ PRIVILEGED_TRAIT_NAMESPACES) then
    inl (DispatchError denied ("trait namespace " +:+ quote +:+ namespace +:+ quote +:+ " is reserved for the platform")
      (Some "Manage control keys through the Console; remove the reserved trait from the spec."))
  else inr tt.

Definition assertTraitAuthority (doc : DesiredState) : exn + unit :=
  for_each (fun object =>
    match bool_decide (object.(kind) = "application"), json_get "traits" object.(spec) with
    | true, JArr traits => for_each trait_allowed traits
    | _, _ => inr tt
    end) doc.(objects).

(** [deps.authorize]: the command and the verb. *)
Definition Authorize : Type := string -> Catalog.ScopeVerb -> exn + unit.

Definition declared_kinds (doc : DesiredState) : list string := distinct (kind <$> doc.(objects)).

Definition authorizeAll (doc : DesiredState) (authorize : Authorize) (opts : ReconcileOptions) : exn + unit :=
  let kinds := declared_kinds doc in
  match for_each (fun k =>
          match authorize (command_text k) Catalog.read with
          | inl x => inl x
          | inr _ => if opts.(dryRun) then inr tt else authorize (command_text k) Catalog.write
          end) kinds with
  | inl x => inl x
  | inr _ =>
      if opts.(prune) && negb opts.(dryRun) then for_each (fun k => authorize (command_text k) Catalog.delete) kinds
      else inr tt
  end.
End checks.

(** ** Errors in the report *)

Definition code_text (c : DispatchCode) : string :=
  match c with
  | denied => "denied" | unsupported => "unsupported" | invalid => "invalid" | zone_mismatch => "zone_mismatch"
  | conflict => "conflict" | not_found => "not_found" | upstream => "upstream"
  end.

Definition errorCode (err : exn) : string :=
  match err with
  | DispatchError c _ _ => code_text c
  | AdminApiError status _ _ _ => if status =? 404 then "not_found" else if status =? 409 then "conflict" else "upstream"
  | JsError _ => "upstream"
  end.

(** [err.message]. *)
Definition errorReason (err : exn) : string :=
  match err with
  | DispatchError _ message _ => message
  | AdminApiError status code _ _ => code +:+ " (HTTP " +:+ pretty status +:+ ")"
  | JsError message => message
  end.

Definition plan (kind identity : string) (action : ReconcileAction) (drift : option (list string)) (id : json) (applied : bool) : ObjectOutcome :=
  {| o_kind := kind; o_identity := identity; o_action := action; o_drift := drift; o_id := id; o_applied := applied; o_error := None |}.

Definition failure (kind identity : string) (action : ReconcileAction) (id : json) (err : exn) : ObjectOutcome :=
  {| o_kind := kind; o_identity := identity; o_action := action; o_drift := None; o_id := id; o_applied := false;
     o_error := Some (errorCode err, errorReason err) |}.

Definition count (p : ObjectOutcome -> bool) (outcomes : list ObjectOutcome) : Z :=
  Z.of_nat (length (filter (fun o => p o = true) outcomes)).

Definition has_action (a : ReconcileAction) (o : ObjectOutcome) : bool := bool_decide (o.(o_action) = a).
Definition has_error (o : ObjectOutcome) : bool := bool_decide (is_Some o.(o_error)).

Definition buildReport (zoneId : string) (dryRun prune : bool) (outcomes : list ObjectOutcome) : ReconcileReport :=
  let summary := {| created := count (has_action Create) outcomes; updated := count (has_action Update) outcomes;
                    unchanged := count (has_action Unchanged) outcomes; pruned := count (has_action Prune) outcomes;
                    failed := count has_error outcomes |} in
  {| r_ok := summary.(failed) =? 0; r_dryRun := dryRun; r_prune := prune; r_zoneId := zoneId; r_outcomes := outcomes;
     r_summary := summary; r_drift := negb (forallb (has_action Unchanged) outcomes) |}.

(** ** Convergence *)

Section reconcile.
Context `{Runtime}.
Variable sha256Hex : string -> string.
Variable zoneId : string.

(** The listing of a kind: the live objects, or the error it ended in. *)
Definition Listing : Type := exn + list json.

Definition list_kind (kind : string) : admin Listing :=
  match ADAPTERS kind with
  | Own k => try_catch (call (In zoneId (list_call k)))
               (fun v => match v with
                         | JArr items => Ret (inr items)
                         | _ => Throw (JsError (engine_message "items is not iterable"))
                         end)
               (fun x => Ret (inl x))
  | _ => Ret (inl (JsError (engine_message "list is not a function")))
  end.

Fixpoint list_kinds (kinds : list string) : admin (list (string * Listing)) :=
  match kinds with
  | [] => Ret []
  | k :: rest => l ← list_kind k; ls ← list_kinds rest; Ret ((k, l) :: ls)
  end.

(** The live objects of a kind by identity; a later one replaces an earlier one. *)
Fixpoint index_items (k : ObjectKind) (items : list json) (m : list (string * json)) : exn + list (string * json) :=
  match items with
  | [] => inr m
  | item :: rest =>
      match identityOf k item with
      | inl x => inl x
      | inr identity => index_items k rest (ordered_set identity item m)
      end
  end.

Fixpoint build_index (listings : list (string * Listing)) : exn + list (string * list (string * json)) :=
  match listings with
  | [] => inr []
  | (kind, l) :: rest =>
      match l, ADAPTERS kind with
      | inr items, Own k =>
          match index_items k items [] with
          | inl x => inl x
          | inr m => match build_index rest with inl x => inl x | inr ix => inr ((kind, m) :: ix) end
          end
      | _, _ => build_index rest
      end
  end.

Definition find_live (index : list (string * list (string * json))) (kind identity : string) : option json :=
  match ordered_get kind index with
  | Some m => match ordered_get identity m with
              | Some live => if truthy live then Some live else None
              | None => None
              end
  | None => None
  end.

(** The body of the loop after the identity is known. *)
Definition converge (dry : bool) (index : list (string * list (string * json))) (listing : option Listing)
    (k : ObjectKind) (o : DesiredObject) (identity : string) : admin ObjectOutcome :=
  match listing with
  | Some (inl x) => Throw x
  | _ =>
      match find_live index o.(kind) identity with
      | None =>
          if dry then Ret (plan o.(kind) identity Create None JUndefined false)
          else
            made ← create zoneId k o.(spec);
            id ← lift (access "id" made);
            Ret (plan o.(kind) identity Create None id true)
      | Some live =>
          d ← drift sha256Hex zoneId k live o.(spec);
          match d with
          | [] => Ret (plan o.(kind) identity Unchanged None (json_get "id" live) true)
          | _ =>
              if dry then Ret (plan o.(kind) identity Update (Some d) (json_get "id" live) false)
              else
                changed ← update zoneId k live o.(spec);
                id ← lift (access "id" changed);
                Ret (plan o.(kind) identity Update (Some d) (nullish id (json_get "id" live)) true)
          end
      end
  end.

(** One object: its outcome, and the identity that counts as declared. *)
Definition reconcile_object (dry : bool) (index : list (string * list (string * json))) (listings : list (string * Listing))
    (o : DesiredObject) : admin (ObjectOutcome * option string) :=
  match ADAPTERS o.(kind) with
  | Own k =>
      match identityOfSpec k o.(spec) with
      | inl x => Ret (failure o.(kind) "" Unchanged JUndefined x, None)
      | inr identity =>
          try_catch (converge dry index (ordered_get o.(kind) listings) k o identity)
            (fun out => Ret (out, Some identity))
            (fun x => Ret (failure o.(kind) identity Unchanged JUndefined x, Some identity))
      end
  | _ => Ret (failure o.(kind) "" Unchanged JUndefined (JsError (engine_message "identityOfSpec is not a function")), None)
  end.

(** [seen]: the declared identities of every kind, in the order the kinds appear. *)
Definition Seen : Type := list (string * list string).

Definition see (kind : string) (identity : option string) (seen : Seen) : Seen :=
  match identity with
  | None => seen
  | Some i => ordered_set kind (i :: default_to [] (ordered_get kind seen)) seen
  end.

Fixpoint reconcile_objects (dry : bool) (index : list (string * list (string * json))) (listings : list (string * Listing))
    (seen : Seen) (os : list DesiredObject) : admin (list ObjectOutcome * Seen) :=
  match os with
  | [] => Ret ([], seen)
  | o :: rest =>
      '(out, identity) ← reconcile_object dry index listings o;
      '(outs, seen') ← reconcile_objects dry index listings (see o.(kind) identity seen) rest;
      Ret (out :: outs, seen')
  end.

(** The live objects of one kind that the document does not declare. *)
Fixpoint prune_items (dry : bool) (kind : string) (k : ObjectKind) (declared : list string) (items : list json) : admin (list ObjectOutcome) :=
  match items with
  | [] => Ret []
  | item :: rest =>
      identity ← lift (identityOf k item);
      if bool_decide (identity ∈ declared) || protectedFromPrune k item then prune_items dry kind k declared rest
      else
        let id := json_get "id" item in
        out ← (if dry then Ret (plan kind identity Prune None id false)
               else try_catch (pruneOne zoneId k (js_String id))
                      (fun _ => Ret (plan kind identity Prune None id true))
                      (fun x => Ret (failure kind identity Prune id x)));
        outs ← prune_items dry kind k declared rest;
        Ret (out :: outs)
  end.

Fixpoint prune_kinds (dry : bool) (listings : list (string * Listing)) (seen : Seen) : admin (list ObjectOutcome) :=
  match seen with
  | [] => Ret []
  | (kind, declared) :: rest =>
      outs ← match ordered_get kind listings, ADAPTERS kind with
             | Some (inl x), _ => Ret [failure kind "*" Prune JUndefined x]
             | Some (inr items), Own k => prune_items dry kind k declared items
             | _, _ => Ret []
             end;
      more ← prune_kinds dry listings rest;
      Ret (outs ++ more)%list
  end.

Definition reconcile (doc : DesiredState) (authorize : Authorize) (opts : ReconcileOptions) : admin ReconcileReport :=
  _ ← lift (assertZoneAlignment doc zoneId);
  _ ← lift (assertTraitAuthority doc);
  _ ← lift (authorizeAll doc authorize opts);
  listings ← list_kinds (declared_kinds doc);
  index ← lift (build_index listings);
  '(outcomes, seen) ← reconcile_objects opts.(dryRun) index listings [] doc.(objects);
  pruned ← (if opts.(prune) then prune_kinds opts.(dryRun) listings seen else Ret []);
  Ret (buildReport zoneId opts.(dryRun) opts.(prune) (outcomes ++ pruned)%list).

Definition ensure (kind : string) (v : json) (authorize : Authorize) (dry : bool) : admin ReconcileReport :=
  _ ← lift (adapterFor kind);
  reconcile {| objects := [{| kind := kind; spec := v |}]; doc_prune := false |} authorize {| dryRun := dry; prune := false |}.
End reconcile.
End Reconcile.
