(* ===== verification/Dispatch.v ===== *)
(** * The command dispatcher

    [packages/engine/src/dispatch.ts]: a management request is checked against the
    catalog, its flags against their bounds, its caller against the scope the command
    requires, and is then carried out through the admin client. *)

From Stdlib Require Import Ascii.
From Stdlib Require String.
From S2P Require Import Prelude.
From S2P Require Import Json.
From S2P Require Import JsonText.
From S2P Require Import Numbers.
From S2P Require Import Scope.
From S2P Require Import Text.
From S2P Require Import Prog.
From S2P Require Import AdminClient.
From S2P Require Import Catalog.
From S2P Require Import Reconcile.
Local Open Scope string_scope.
Local Open Scope Z_scope.

Module Dispatch.
Import AdminClient.
Import Reconcile.

(** The flags of a request; [None] when the body has none. *)
Definition FlagMap : Type := list (string * json).

Record DispatchRequest := { req_command : string; req_subcommand : string; req_flags : option FlagMap }.

Record Principal := {
  subject : string;
  p_zoneId : option string;
  clientId : option string;
  p_scopes : list string
}.

Definition MAX_FLAGS : nat := 32.
Definition MAX_FLAG_KEY_LEN : nat := 64.
Definition MAX_FLAG_STR_LEN : nat := 131072.
Definition MAX_FLAG_ARRAY_LEN : nat := 64.

Definition denied_ {A : Type} (msg : string) : exn + A := inl (DispatchError denied msg None).
Definition unsupported_ {A : Type} (msg : string) : exn + A := inl (DispatchError unsupported msg None).
Definition invalid_ {A : Type} (msg : string) : exn + A := inl (DispatchError invalid msg None).

Definition quoted (s : string) : string := quote +:+ s +:+ quote.

(** ** Flags *)

Definition check_element (k : string) (e : json) : exn + unit :=
  match e with
  | JNull | JBool _ | JNum _ | JDec _ | JNonFinite => inr tt
  | JStr s => if (MAX_FLAG_STR_LEN <? js_length s)%nat then invalid_ ("flag " +:+ quoted k +:+ " element too long") else inr tt
  | JUndefined | JArr _ | JObj _ => invalid_ ("flag " +:+ quoted k +:+ " has unsupported array element")
  end.

Definition check_flag (kv : string * json) : exn + unit :=
  let '(k, v) := kv in
  if (js_length k =? 0)%nat || (MAX_FLAG_KEY_LEN <? js_length k)%nat then invalid_ ("flag key " +:+ quoted k +:+ " out of range")
  else match v with
       | JNull | JBool _ | JNum _ | JDec _ | JNonFinite => inr tt
       | JStr s => if (MAX_FLAG_STR_LEN <? js_length s)%nat then invalid_ ("flag " +:+ quoted k +:+ " string too long") else inr tt
       | JArr xs =>
           if (MAX_FLAG_ARRAY_LEN <? length xs)%nat then invalid_ ("flag " +:+ quoted k +:+ " array too long")
           else for_each (check_element k) xs
       | JUndefined | JObj _ => invalid_ ("flag " +:+ quoted k +:+ " has unsupported type")
       end.

Definition validateFlags (flags : option FlagMap) : exn + unit :=
  match flags with
  | None => inr tt
  | Some fs =>
      if (MAX_FLAGS <? length fs)%nat then invalid_ ("too many flags (max " +:+ pretty (Z.of_nat MAX_FLAGS) +:+ ")")
      else for_each check_flag fs
  end.

Definition flag_value (flags : FlagMap) (key : string) : json := default_to JUndefined (ordered_get key flags).

Definition getStr (flags : FlagMap) (key : string) : option string := as_string (flag_value flags key).

(** The string, or [undefined]. *)
Definition strFlag (flags : FlagMap) (key : string) : json :=
  match getStr flags key with Some s => JStr s | None => JUndefined end.

Definition getNullableStr (flags : FlagMap) (key : string) : json :=
  match flag_value flags key with JNull => JNull | JStr s => JStr s | _ => JUndefined end.

Definition mustStr (flags : FlagMap) (key : string) : exn + string :=
  match getStr flags key with
  | Some s => if bool_decide (s = "") then invalid_ ("flag " +:+ quoted key +:+ " is required") else inr s
  | None => invalid_ ("flag " +:+ quoted key +:+ " is required")
  end.

Definition getJsonObject (flags : FlagMap) (key : string) : exn + json :=
  match getStr flags key with
  | None => inr JUndefined
  | Some raw =>
      if bool_decide (raw = "") then inr JUndefined
      else match JSON_parse raw with
           | None => invalid_ ("flag " +:+ quoted key +:+ " must be valid JSON")
           | Some v => if is_object v then inr v else invalid_ ("flag " +:+ quoted key +:+ " must be a JSON object")
           end
  end.

Definition is_finite (x : number) : bool := match x with Finite _ _ _ => true | _ => false end.

Definition getNum (flags : FlagMap) (key : string) : json :=
  match flag_value flags key with
  | JNum n => JNum n
  | JDec l => JDec l
  | JNonFinite => JNonFinite
  | JStr s =>
      if bool_decide (s = "") then JUndefined
      else let x := Number s in if is_finite x then json_of_number x else JUndefined
  | _ => JUndefined
  end.

Definition getBool (flags : FlagMap) (key : string) : option bool :=
  match flag_value flags key with
  | JBool b => Some b
  | JStr s => if bool_decide (s = "true") then Some true else if bool_decide (s = "false") then Some false else None
  | _ => None
  end.

Definition read_operation (key : string) (entry : json) : exn + json :=
  if negb (is_object entry) then invalid_ ("flag " +:+ quoted key +:+ " entries must be objects")
  else let text f := JStr (js_String (nullish (json_get f entry) (JStr ""))) in
       inr (JObj [("method", text "method"); ("path", text "path"); ("scope", text "scope")]).

Definition getOperations (flags : FlagMap) (key : string) : exn + json :=
  let v := flag_value flags key in
  let parsed := match v with
                | JStr s => if bool_decide (s = "") then inr JUndefined
                            else match JSON_parse s with
                                 | Some p => inr p
                                 | None => invalid_ ("flag " +:+ quoted key +:+ " must be valid JSON")
                                 end
                | _ => inr v
                end in
  match parsed with
  | inl x => inl x
  | inr JUndefined => inr JUndefined
  | inr (JArr xs) => match map_rows (read_operation key) xs with inl x => inl x | inr ops => inr (JArr ops) end
  | inr _ => invalid_ ("flag " +:+ quoted key +:+ " must be a JSON array")
  end.

(** The trimmed, non-empty pieces of a comma-separated text. *)
Definition pieces (s : string) : list string :=
  filter (fun t => t <> "") (trim <$> split_on "," s).

Definition getList (flags : FlagMap) (key : string) : option (list string) :=
  match flag_value flags key with
  | JStr s => Some (pieces s)
  | JArr xs => Some (xs ≫= fun item => match item with JStr s => pieces s | _ => [] end)
  | _ => None
  end.

Definition list_json (o : option (list string)) : json := match o with Some l => JStrs l | None => JUndefined end.

(** ** The caller *)

Definition requireZone (principal : Principal) : exn + string :=
  match principal.(p_zoneId) with
  | Some z => if bool_decide (z = "") then invalid_ "zone_id is required" else inr z
  | None => invalid_ "zone_id is required"
  end.

Definition assertScope (principal : Principal) (desc : Catalog.CommandDescriptor) (sub : string) : exn + unit :=
  if Catalog.delegatesScope desc then inr tt
  else let required := Catalog.scopeName desc sub in
       if bool_decide (required ∈ principal.(p_scopes)) then inr tt else denied_ ("missing scope " +:+ required).

Definition assertZoneBound (principal : Principal) (desc : Catalog.CommandDescriptor) : exn + unit :=
  if Catalog.requiresZone desc then
    match requireZone principal with inl x => inl x | inr _ => inr tt end
  else denied_ ("command " +:+ quoted (Catalog.name desc) +:+ " is not available through zone-bound Control").

Definition authorizeFor (principal : Principal) : Authorize :=
  fun command verb =>
    let required := Catalog.control_scope command verb in
    if bool_decide (required ∈ principal.(p_scopes)) then inr tt else denied_ ("missing scope " +:+ required).

(** ** Handlers *)

Section handlers.
Context `{Runtime}.
Variable sha256Hex : string -> string.
Variable principal : Principal.
Variable flags : FlagMap.

(** A handler of one subcommand; the zone has been required, as every handler does
    first. *)
Definition Handler : Type := string -> admin json.

(** [requireZone(principal)], then the call. *)
Definition with_zone (f : Handler) : admin json := z ← lift (requireZone principal); f z.

Definition with_flag (key : string) (f : string -> admin json) : admin json := v ← lift (mustStr flags key); f v.

Definition by_id (c : string -> zone_call) : admin json :=
  with_zone (fun z => with_flag "id" (fun id => call (In z (c id)))).

(** [bySubcommand]: the table of a router. *)
Definition Router : Type := list (string * admin json).

Definition bySubcommand (handlers : Router) (sub : string) : admin json :=
  match ordered_get sub handlers with
  | Some h => h
  | None => lift (unsupported_ ("subcommand " +:+ quoted sub +:+ " not implemented"))
  end.

Definition assertNotControlKey (zoneId id : string) : admin unit :=
  app ← call (In zoneId (Applications (applications_get id)));
  _ ← lift (access "traits" app);
  if is_control_key app then
    Throw (DispatchError denied ("application " +:+ id +:+ " is a control key")
      (Some "Manage control keys through the Console control panel."))
  else Ret tt.

(** A change of an application that must not be a control key. *)
Definition guarded (c : string -> applications_call) : admin json :=
  with_zone (fun z => with_flag "id" (fun id =>
    _ ← assertNotControlKey z id; call (In z (Applications (c id))))).

Definition appHandler : Router :=
  [("list", with_zone (fun z => call (In z (Applications applications_list))));
   ("get", by_id (fun id => Applications (applications_get id)));
   ("create", with_zone (fun z => with_flag "name" (fun name =>
      call (In z (Applications (applications_create (JObj [("name", JStr name); ("registration_method", JStr "managed")])))))));
   ("patch", guarded (fun id => applications_patch id (JObj [("name", strFlag flags "name")])));
   ("rotate-secret", guarded applications_rotateSecret);
   ("delete", guarded applications_delete);
   ("dcr", with_zone (fun z => with_flag "name" (fun name =>
      call (In z (Applications (applications_dcr (JObj [("name", JStr name); ("expires_in", getNum flags "expires-in")])))))))].

Definition resourceHandler : Router :=
  [("list", with_zone (fun z => call (In z (Resources resources_list))));
   ("get", by_id (fun id => Resources (resources_get id)));
   ("create", with_zone (fun z =>
      operations ← lift (getOperations flags "operations");
      call (In z (Resources (resources_create (JObj
        [("name", strFlag flags "name"); ("identifier", strFlag flags "identifier");
         ("scopes", JStrs (default_to [] (getList flags "scopes"))); ("upstream_url", strFlag flags "upstream-url");
         ("credential_provider_id", strFlag flags "credential-provider-id"); ("operations", operations);
         ("operation_enforcement", strFlag flags "operation-enforcement")]))))));
   ("patch", with_zone (fun z => with_flag "id" (fun id =>
      operations ← lift (getOperations flags "operations");
      call (In z (Resources (resources_patch id (JObj
        [("identifier", strFlag flags "identifier"); ("name", strFlag flags "name");
         ("scopes", list_json (getList flags "scopes")); ("upstream_url", getNullableStr flags "upstream-url");
         ("credential_provider_id", getNullableStr flags "credential-provider-id"); ("operations", operations);
         ("operation_enforcement", strFlag flags "operation-enforcement")])))))));
   ("delete", by_id (fun id => Resources (resources_delete id)))].

Definition providerHandler : Router :=
  [("list", with_zone (fun z => call (In z (Providers providers_list))));
   ("get", by_id (fun id => Providers (providers_get id)));
   ("create", with_zone (fun z => with_flag "name" (fun name => with_flag "kind" (fun kind =>
      config ← lift (getJsonObject flags "config");
      call (In z (Providers (providers_create (JObj
        [("name", JStr name); ("identifier", strFlag flags "identifier"); ("kind", JStr kind); ("config_json", config)]))))))));
   ("patch", with_zone (fun z => with_flag "id" (fun id =>
      config ← lift (getJsonObject flags "config");
      call (In z (Providers (providers_patch id (JObj
        [("name", strFlag flags "name"); ("identifier", strFlag flags "identifier"); ("kind", strFlag flags "kind");
         ("config_json", config)])))))));
   ("delete", by_id (fun id => Providers (providers_delete id)))].

Definition policyHandler : Router :=
  [("list", with_zone (fun z => call (In z (Policies policies_list))));
   ("get", by_id (fun id => Policies (policies_get id)));
   ("create", with_zone (fun z => with_flag "name" (fun name => with_flag "content" (fun content =>
      call (In z (Policies (policies_create (JObj
        [("name", JStr name); ("description", strFlag flags "description"); ("content", JStr content)]))))))));
   ("validate", with_flag "content" (fun content => call (PoliciesValidate content)));
   ("version", with_zone (fun z => with_flag "id" (fun id => with_flag "content" (fun content =>
      call (In z (Policies (policies_addVersion id content)))))));
   ("delete", by_id (fun id => Policies (policies_delete id)))].

Definition policySetHandler : Router :=
  [("list", with_zone (fun z => call (In z (PolicySets policySets_list))));
   ("get", by_id (fun id => PolicySets (policySets_get id)));
   ("create", with_zone (fun z => with_flag "name" (fun name =>
      call (In z (PolicySets (policySets_create name (strFlag flags "description")))))));
   ("version",
      match getList flags "policy-versions" with
      | None | Some [] => lift (invalid_ ("flag " +:+ quoted "policy-versions" +:+ " is required"))
      | Some versions =>
          by_id (fun id => PolicySets (policySets_addVersion id (JArr ((fun v => JObj [("policy_version_id", JStr v)]) <$> versions))))
      end);
   ("activate", with_zone (fun z => with_flag "id" (fun id => with_flag "version" (fun version =>
      call (In z (PolicySets (policySets_activate id version)))))));
   ("simulate", with_zone (fun z => with_flag "id" (fun id => with_flag "version" (fun version =>
      input ← lift (getJsonObject flags "input");
      call (In z (PolicySets (policySets_simulate id version input)))))));
   ("delete", by_id (fun id => PolicySets (policySets_delete id)))].

(** The [bindings] flag of a workload: absent, or an array given as such or as JSON. *)
Definition readBindings : exn + json :=
  let raw := flag_value flags "bindings" in
  let parsed := match raw with
                | JStr s => match JSON_parse s with
                            | Some v => inr v
                            | None => invalid_ ("flag " +:+ quoted "bindings" +:+ " must be valid JSON")
                            end
                | _ => inr raw
                end in
  match parsed with
  | inl x => inl x
  | inr JUndefined => inr JUndefined
  | inr (JArr xs) => inr (JArr xs)
  | inr _ => invalid_ ("flag " +:+ quoted "bindings" +:+ " must be a JSON array")
  end.

Definition workloadHandler : Router :=
  [("list", with_zone (fun z => call (In z (Workloads workloads_list))));
   ("get", by_id (fun id => Workloads (workloads_get id)));
   ("create", with_zone (fun z => with_flag "name" (fun name =>
      call (In z (Workloads (workloads_create (JObj [("name", JStr name)])))))));
   ("patch",
      bindings ← lift readBindings;
      by_id (fun id => Workloads (workloads_update id (JObj [("name", strFlag flags "name"); ("bindings", bindings)]))));
   ("rotate-secret", by_id (fun id => Workloads (workloads_rotateSecret id)));
   ("delete", by_id (fun id => Workloads (workloads_delete id)))].

Definition authorityRecordHandler : Router :=
  [("list", with_zone (fun z => call (In z (Records (authorityRecords_list
      [("subject", strFlag flags "subject"); ("status", strFlag flags "status"); ("limit", getNum flags "limit")])))))].

Definition auditHandler : Router :=
  [("tail", with_zone (fun z => call (In z (Records (audit_list
      [("since", strFlag flags "since"); ("until", strFlag flags "until"); ("decision", strFlag flags "decision");
       ("event_type", strFlag flags "event-type"); ("request_id", strFlag flags "request-id"); ("limit", getNum flags "limit")])))));
   ("admin", with_zone (fun z => call (In z (Records (adminAudit_list [("limit", getNum flags "limit")])))))].

Definition approvalHandler : Router :=
  [("list", with_zone (fun z => call (In z (Approvals approvals_list))))].

Definition explainHandler : admin json :=
  with_zone (fun z => with_flag "request-id" (fun id => call (In z (Records (audit_explain id))))).

Definition sessionHandler : Router :=
  [("list", with_zone (fun z => call (In z (Sessions (sessions_list [])))));
   ("get", by_id (fun id => Sessions (sessions_get id)));
   ("tree", by_id (fun id => Sessions (sessions_children id [])));
   ("suspend", by_id (fun id => Sessions (sessions_suspend id)));
   ("resume", by_id (fun id => Sessions (sessions_resume id)));
   ("terminate", by_id (fun id => Sessions (sessions_terminate id)))].

Definition by_session (c : string -> delegations_call) : admin json :=
  with_zone (fun z => with_flag "session-id" (fun id => call (In z (Delegations (c id))))).

Definition delegationHandler : Router :=
  [("active", with_zone (fun z => call (In z (Delegations delegations_active))));
   ("inbound", by_session delegations_inbound);
   ("outbound", by_session delegations_outbound);
   ("traverse", by_id (fun id => Delegations (delegations_traverse id)));
   ("revoke", by_id (fun id => Delegations (delegations_revoke id)))].

Definition grantHandler : Router :=
  [("list", with_zone (fun z => call (In z (Grants (grants_list
      [("application_id", strFlag flags "application-id"); ("user_id", strFlag flags "user-id");
       ("resource_id", strFlag flags "resource-id")])))));
   ("get", by_id (fun id => Grants (grants_get id)));
   ("create", with_zone (fun z =>
      with_flag "application-id" (fun a => with_flag "user-id" (fun u => with_flag "resource-id" (fun r =>
        call (In z (Grants (grants_create (JObj
          [("application_id", JStr a); ("user_id", JStr u); ("resource_id", JStr r);
           ("scopes", JStrs (default_to [] (getList flags "scopes")))])))))))));
   ("revoke", by_id (fun id => Grants (grants_revoke id)))].


Definition parseJsonObjectFlag (key : string) : exn + json :=
  match getStr flags key with
  | None => invalid_ ("flag " +:+ quoted key +:+ " is required")
  | Some raw =>
      if bool_decide (raw = "") then invalid_ ("flag " +:+ quoted key +:+ " is required")
      else match JSON_parse raw with
           | Some v => inr v
           | None => invalid_ ("flag " +:+ quoted key +:+ " must be valid JSON")
           end
  end.

(** A report as the value the handler returns. *)
Definition action_text (a : ReconcileAction) : string :=
  match a with Create => "create" | Update => "update" | Unchanged => "unchanged" | Prune => "prune" end.

Definition outcome_json (o : ObjectOutcome) : json :=
  JObj [("kind", JStr o.(o_kind)); ("identity", JStr o.(o_identity)); ("action", JStr (action_text o.(o_action)));
        ("drift", list_json o.(o_drift)); ("id", o.(o_id)); ("applied", JBool o.(o_applied));
        ("error", match o.(o_error) with
                  | Some (code, reason) => JObj [("code", JStr code); ("reason", JStr reason)]
                  | None => JUndefined
                  end)].

Definition report_json (r : ReconcileReport) : json :=
  JObj [("ok", JBool r.(r_ok)); ("dryRun", JBool r.(r_dryRun)); ("prune", JBool r.(r_prune)); ("zoneId", JStr r.(r_zoneId));
        ("outcomes", JArr (outcome_json <$> r.(r_outcomes)));
        ("summary", JObj [("created", JNum r.(r_summary).(created)); ("updated", JNum r.(r_summary).(updated));
                          ("unchanged", JNum r.(r_summary).(unchanged)); ("pruned", JNum r.(r_summary).(pruned));
                          ("failed", JNum r.(r_summary).(failed))]);
        ("drift", JBool r.(r_drift))].

Definition is_true (b : option bool) : bool := match b with Some true => true | _ => false end.

(** The three state subcommands differ in whether they may write. *)
Definition state_command (dry : bool) : admin json :=
  with_zone (fun z =>
    raw ← lift (parseJsonObjectFlag "document");
    doc ← lift (parseDesiredState raw);
    report_json <$> reconcile sha256Hex z doc (authorizeFor principal) {| dryRun := dry; prune := is_true (getBool flags "prune") |}).

Definition stateHandler : Router :=
  [("apply", state_command (is_true (getBool flags "dry-run")));
   ("plan", state_command true);
   ("verify", state_command true)].

Definition ensureHandler (sub : string) : admin json :=
  with_zone (fun z =>
    v ← lift (parseJsonObjectFlag "spec");
    report_json <$> ensure sha256Hex z sub v (authorizeFor principal) (is_true (getBool flags "dry-run"))).

(** ** The description of the surface *)

Definition subs_of (desc : Catalog.CommandDescriptor) : list string :=
  match Catalog.subcommands desc with Some (s :: rest) => s :: rest | _ => [""] end.

Definition surface_command (desc : Catalog.CommandDescriptor) : json :=
  JObj [("command", JStr (Catalog.name desc)); ("summary", JStr (Catalog.summary desc));
        ("delegatesScope", JBool (Catalog.delegatesScope desc));
        ("subcommands", JArr ((fun sub =>
           JObj [("subcommand", JStr sub);
                 ("scope", if Catalog.delegatesScope desc then JNull else JStr (Catalog.scopeName desc sub));
                 ("flags", JArr ((fun f => JObj [("name", JStr (Catalog.flag_name f)); ("summary", JStr (Catalog.flag_summary f))])
                                  <$> default_to [] (ordered_get sub (Catalog.flags desc))))]) <$> subs_of desc))].

Definition exposed (desc : Catalog.CommandDescriptor) : bool :=
  negb (Catalog.hidden desc) && Catalog.requiresZone desc.

Definition describeControlSurface : json :=
  JObj [("commands", JArr (surface_command <$> filter (fun d => exposed d = true) Catalog.MANAGEMENT_COMMANDS));
        ("declarative", JObj
           [("kinds", JArr ((fun k => JObj [("kind", JStr (kind_name k)); ("identityField", JStr (identityField k));
                                            ("command", JStr (command k))]) <$> OBJECT_KINDS));
            ("documentSchema", JStr ("{ " +:+ quoted "objects" +:+ ": [ { " +:+ quoted "kind" +:+ ": <kind>, " +:+ quoted "spec"
               +:+ ": { <fields> } } ], " +:+ quoted "prune" +:+ ": false }"))])].

(** The (command, subcommand, scope) triples that carry a static scope. *)
Definition describeRemoteSurface : list (string * string * string) :=
  filter (fun d => exposed d = true /\ Catalog.delegatesScope d = false) Catalog.MANAGEMENT_COMMANDS ≫= fun desc =>
  (fun sub => (Catalog.name desc, sub, Catalog.scopeName desc sub)) <$> subs_of desc.

Definition catalogHandler : Router := [("describe", Ret describeControlSurface)].

(** ** Dispatch *)

(** A handler: a router over subcommands, or one function for all of them. *)
Inductive handler := Routes (r : Router) | Single (f : string -> admin json).

Definition commandHandler (command : string) : option handler :=
  match find_first (fun ch => bool_decide (ch.1 = command))
    [("app", Routes appHandler); ("resource", Routes resourceHandler); ("identity-provider", Routes providerHandler);
     ("policy", Routes policyHandler); ("policy-set", Routes policySetHandler); ("state", Routes stateHandler);
     ("ensure", Single ensureHandler); ("catalog", Routes catalogHandler); ("authority-record", Routes authorityRecordHandler);
     ("workload", Routes workloadHandler); ("approval", Routes approvalHandler); ("audit", Routes auditHandler);
     ("explain", Single (fun _ => explainHandler)); ("session", Routes sessionHandler);
     ("delegation", Routes delegationHandler); ("grant", Routes grantHandler)] with
  | Some (_, h) => Some h
  | None => None
  end.

Definition handle_with (h : handler) (sub : string) : admin json :=
  match h with Routes r => bySubcommand r sub | Single f => f sub end.

(** [engineHandlerCoverage]: [None] without a handler, [Some None] for ['all']. *)
Definition engineHandlerCoverage (command : string) : option (option (list string)) :=
  match commandHandler command with
  | None => None
  | Some (Routes r) => Some (Some r.*1)
  | Some (Single _) => Some None
  end.
End handlers.

Definition adminErrorDescription (body : json) : option string :=
  match body with
  | JObj _ => match json_get "error_description" body with
              | JStr d => if bool_decide (d = "") then None else Some d
              | _ => None
              end
  | _ => None
  end.

(** A refusal of the control plane as the dispatcher's error. *)
Definition fromAdminError (status : Z) (code : string) (body : json) : exn :=
  let message := match adminErrorDescription body with Some d => code +:+ ": " +:+ d | None => code end in
  let c := if (status =? 400) || (status =? 422) then invalid
           else if status =? 403 then denied
           else if status =? 404 then not_found
           else if status =? 409 then conflict
           else upstream in
  DispatchError c message None.

Definition translate (err : exn) : exn :=
  match err with
  | AdminApiError status code body _ => fromAdminError status code body
  | _ => err
  end.

Definition subcommand_allowed (req : DispatchRequest) (desc : Catalog.CommandDescriptor) : exn + unit :=
  match Catalog.subcommands desc with
  | Some (s :: rest) =>
      if bool_decide (req.(req_subcommand) ∈ s :: rest) then inr tt
      else denied_ ("subcommand " +:+ quoted req.(req_subcommand) +:+ " not allowed for " +:+ quoted req.(req_command))
  | _ =>
      if bool_decide (req.(req_subcommand) = "") then inr tt
      else denied_ ("command " +:+ quoted req.(req_command) +:+ " takes no subcommand")
  end.

(** The checks of [dispatch] before the handler. *)
Definition accept_request (req : DispatchRequest) (principal : Principal) : exn + Catalog.CommandDescriptor :=
  match Catalog.findCommand Catalog.MANAGEMENT_COMMANDS req.(req_command) with
  | None => denied_ ("unknown command " +:+ quoted req.(req_command))
  | Some desc =>
      if Catalog.hidden desc then denied_ ("command " +:+ quoted req.(req_command) +:+ " not exposed")
      else match assertZoneBound principal desc with
           | inl x => inl x
           | inr _ =>
               match subcommand_allowed req desc with
               | inl x => inl x
               | inr _ =>
                   match validateFlags req.(req_flags) with
                   | inl x => inl x
                   | inr _ => match assertScope principal desc req.(req_subcommand) with
                              | inl x => inl x
                              | inr _ => inr desc
                              end
                   end
               end
           end
  end.

Definition dispatch `{Runtime} (sha256Hex : string -> string) (req : DispatchRequest) (principal : Principal) : admin json :=
  desc ← lift (accept_request req principal);
  match commandHandler sha256Hex principal (default_to [] req.(req_flags)) (Catalog.name desc) with
  | None => lift (unsupported_ ("command " +:+ quoted req.(req_command) +:+ " has no handler"))
  | Some h => try_catch (handle_with h req.(req_subcommand)) Ret (fun err => Throw (translate err))
  end.

(** The whole path of a request: the dispatcher over the client. *)
Definition dispatch_http `{Runtime} (sha256Hex : string -> string) (client : AdminClientOptions)
    (req : DispatchRequest) (principal : Principal) : http json :=
  interp (fun c => attempt (perform client c)) (dispatch sha256Hex req principal).
End Dispatch.
