(* ===== verification/DispatchFacts.v ===== *)
(** * What a Control caller can reach

    Every call [dispatch] makes stays in the caller's zone and is covered by a scope of
    the caller: a change by the scope of its verb, a read by some scope of its noun.
    Operations no command offers (revealing a secret, deciding an approval, revoking a
    subject) are never called.  Planning never changes anything.  Every command of the
    catalog has a handler for each of its subcommands. *)

From Stdlib Require Import Ascii.
From Stdlib Require String.
From S2P Require Import Prelude.
From S2P Require Import Json.
From S2P Require Import JsonText.
From S2P Require Import Scope.
From S2P Require Import Text.
From S2P Require Import Prog.
From S2P Require Import AdminClient.
From S2P Require Import Catalog.
From S2P Require Import Reconcile.
From S2P Require Import Dispatch.
Local Open Scope string_scope.

Module DispatchFacts.
Import AdminClient.
Import Reconcile.
Import Dispatch.

(** ** Nouns and mutations of the operations *)

(** The catalog noun an operation belongs to; [None] for one no command may use. *)
Definition noun (c : zone_call) : option string :=
  match c with
  | Applications (applications_getClientSecret _) => None
  | Applications _ => Some "app"
  | Resources _ => Some "resource"
  | Providers _ => Some "identity-provider"
  | Policies _ => Some "policy"
  | PolicySets (policySets_listVersions _) | PolicySets (policySets_activationStatus _ _ _) => None
  | PolicySets _ => Some "policy-set"
  | Grants _ => Some "grant"
  | SubjectIssuers _ | ProviderConnections _ => None
  | Workloads (workloads_getSecret _) => None
  | Workloads _ => Some "workload"
  | Sessions (sessions_effectiveAuthority _) => None
  | Sessions _ => Some "session"
  | Records (authorityRecords_list _) => Some "authority-record"
  | Records (audit_list _) | Records (adminAudit_list _) => Some "audit"
  | Records (audit_explain _) => Some "explain"
  | Records (audit_byRequest _) | Records (subjects_revoke _) => None
  | Approvals approvals_list => Some "approval"
  | Approvals _ => None
  | Delegations (delegations_impact _) => None
  | Delegations _ => Some "delegation"
  end.

(** How an operation changes the zone; [None] for a read. *)
Definition mutation (c : zone_call) : option Catalog.ScopeVerb :=
  match c with
  | Applications (applications_create _) | Applications (applications_patch _ _)
  | Applications (applications_rotateSecret _) | Applications (applications_dcr _) => Some Catalog.write
  | Applications (applications_delete _) => Some Catalog.delete
  | Resources (resources_create _) | Resources (resources_patch _ _) => Some Catalog.write
  | Resources (resources_delete _) => Some Catalog.delete
  | Providers (providers_create _) | Providers (providers_patch _ _) => Some Catalog.write
  | Providers (providers_delete _) => Some Catalog.delete
  | Policies (policies_create _) | Policies (policies_addVersion _ _) => Some Catalog.write
  | Policies (policies_delete _) => Some Catalog.delete
  | PolicySets (policySets_create _ _) | PolicySets (policySets_addVersion _ _)
  | PolicySets (policySets_activate _ _) => Some Catalog.write
  | PolicySets (policySets_delete _) => Some Catalog.delete
  | Grants (grants_create _) => Some Catalog.write
  | Grants (grants_revoke _) => Some Catalog.delete
  | SubjectIssuers (subjectIssuers_create _) | SubjectIssuers (subjectIssuers_patch _ _) => Some Catalog.write
  | SubjectIssuers (subjectIssuers_delete _) => Some Catalog.delete
  | ProviderConnections _ => Some Catalog.write
  | Workloads (workloads_create _) | Workloads (workloads_update _ _) | Workloads (workloads_rotateSecret _) => Some Catalog.write
  | Workloads (workloads_delete _) => Some Catalog.delete
  | Sessions (sessions_suspend _) | Sessions (sessions_resume _) => Some Catalog.write
  | Sessions (sessions_terminate _) => Some Catalog.delete
  | Records (subjects_revoke _) => Some Catalog.delete
  | Approvals (approvals_approve _ _) | Approvals (approvals_reject _ _) => Some Catalog.write
  | Delegations (delegations_revoke _) => Some Catalog.delete
  | _ => None
  end.

(** A call the caller is entitled to. *)
Definition entitled (p : Principal) (c : admin_call) : Prop :=
  match c with
  | In z zc =>
      p.(p_zoneId) = Some z /\
      match noun zc with
      | None => False
      | Some n =>
          match mutation zc with
          | Some verb => Catalog.control_scope n verb ∈ p.(p_scopes)
          | None => exists verb, Catalog.control_scope n verb ∈ p.(p_scopes)
          end
      end
  | PoliciesValidate _ => Catalog.control_scope "policy" Catalog.read ∈ p.(p_scopes)
  | Zones _ | PolicyTemplates _ => False
  end.

(** ** Programs of the handlers *)

Section always.
Context `{Runtime}.
Variable P : admin_call -> Prop.
Variable p : Principal.
Variable flags : FlagMap.

Lemma always_call c : P c -> always P (call c).
Proof. intros Hc. split; [done|]. intros r. apply always_lift. Qed.

Lemma always_with_zone f : (forall z, p.(p_zoneId) = Some z -> always P (f z)) -> always P (with_zone p f).
Proof.
  intros Hf. unfold with_zone, requireZone. destruct (p_zoneId p) as [z|] eqn:Hz; [|done].
  case_bool_decide; [done|]. cbn. by apply Hf.
Qed.

Lemma always_with_flag key f : (forall v, always P (f v)) -> always P (with_flag flags key f).
Proof. intros Hf. apply always_bind; [apply always_lift|done]. Qed.

Lemma always_by_id c : (forall z id, p.(p_zoneId) = Some z -> P (In z (c id))) -> always P (by_id p flags c).
Proof. intros Hc. apply always_with_zone. intros z Hz. apply always_with_flag. intros id. by apply always_call, Hc. Qed.

Lemma always_guarded c :
  (forall z id, p.(p_zoneId) = Some z -> P (In z (Applications (applications_get id)))) ->
  (forall z id, p.(p_zoneId) = Some z -> P (In z (Applications (c id)))) ->
  always P (guarded p flags c).
Proof.
  intros Hg Hc. apply always_with_zone. intros z Hz. apply always_with_flag. intros id.
  apply always_bind; [|intros _; by apply always_call, Hc]. unfold assertNotControlKey.
  apply always_bind; [by apply always_call, Hg|]. intros app. apply always_bind; [apply always_lift|].
  intros _. by destruct (is_control_key app).
Qed.

Lemma always_router r sub : Forall (fun kh => kh.1 = sub -> always P kh.2) r -> always P (bySubcommand r sub).
Proof.
  intros Hr. unfold bySubcommand. destruct (ordered_get sub r) as [h|] eqn:Hg; [|apply always_lift].
  apply ordered_get_elem in Hg. rewrite Forall_forall in Hr. by apply (Hr _ Hg).
Qed.

Lemma always_fmap {A B : Type} (f : A -> B) (m : admin A) : always P m -> always P (f <$> m).
Proof. intros Hm. apply always_bind; [done|]. done. Qed.
End always.

(** Discharges the goals the handlers leave: a bind, a zone, a flag, a call. *)
Ltac handler_step :=
  match goal with
  | |- always _ (with_zone _ _) => apply always_with_zone; intros ? ?
  | |- always _ (with_flag _ _ _) => apply always_with_flag; intros ?
  | |- always _ (by_id _ _ _) => apply always_by_id; intros ? ? ?
  | |- always _ (by_session _ _ _) => apply always_with_zone; intros ? ?; apply always_with_flag; intros ?
  | |- always _ (guarded _ _ _) => apply always_guarded; intros ? ? ?
  | |- always _ (call _) => apply always_call
  | |- always _ (lift _) => apply always_lift
  | |- always _ (mbind _ _) => apply always_bind; [|intros ?]
  | |- always _ (bind _ _) => apply always_bind; [|intros ?]
  end.

(** Splits on a section variable without losing the hypotheses about it. *)
Ltac dry_cases b :=
  let Hd := fresh "Hd" in
  destruct (Bool.bool_dec b true) as [Hd|Hd]; [|apply not_true_is_false in Hd]; rewrite ?Hd.

(** ** Reconciliation *)

Section reconcile.
Context `{Runtime}.
Variable sha256Hex : string -> string.
Variable P : admin_call -> Prop.
Variable z : string.

(** What a reconciliation may call, kind by kind. *)
Record covers (kinds : list string) (dry prune : bool) : Prop := {
  covers_read : forall k c, kind_name k ∈ kinds -> noun c = Some (command k) -> mutation c = None -> P (In z c);
  covers_write : forall k c, dry = false -> kind_name k ∈ kinds -> noun c = Some (command k) -> mutation c = Some Catalog.write -> P (In z c);
  covers_delete : forall k c, dry = false -> prune = true -> kind_name k ∈ kinds -> noun c = Some (command k) ->
    mutation c = Some Catalog.delete -> P (In z c)
}.

Lemma ADAPTERS_Own kind k : ADAPTERS kind = Own k -> kind = kind_name k.
Proof.
  unfold ADAPTERS. destruct (find_first _ _) as [k'|] eqn:Hf; [|by case_bool_decide].
  intros [= ->]. apply find_first_Some in Hf as [_ Hb]. by bool_props.
Qed.

Context (kinds : list string) (dry pr : bool) (Hc : covers kinds dry pr).

Lemma always_list_kinds ks : (forall k, k ∈ ks -> k ∈ kinds) -> always P (list_kinds z ks).
Proof.
  induction ks as [|kind ks IH]; intros Hin; [done|]. cbn [list_kinds]. handler_step.
  - unfold list_kind. destruct (ADAPTERS kind) as [k| |] eqn:Hk; [|done|done]. apply ADAPTERS_Own in Hk as ->.
    apply always_try; [|by intros []|done]. handler_step. apply (covers_read _ _ _ Hc k); [apply Hin; left|by destruct k|by destruct k].
  - apply always_bind; [|done]. apply IH. intros k Hk. apply Hin. by right.
Qed.

Lemma always_drift k live v : kind_name k ∈ kinds -> always P (drift sha256Hex z k live v).
Proof.
  intros Hk. destruct k; cbn [drift]; try done; [apply always_lift|].
  repeat handler_step; try done. by apply (covers_read _ _ _ Hc policy).
Qed.

Lemma always_create k v : dry = false -> kind_name k ∈ kinds -> always P (create z k v).
Proof.
  intros Hd Hk. destruct k; cbn [create]; repeat handler_step;
    by apply (covers_write _ _ _ Hc _ _ Hd Hk).
Qed.

Lemma always_update k live v : dry = false -> kind_name k ∈ kinds -> always P (update z k live v).
Proof.
  intros Hd Hk. destruct k; cbn [update]; try case_match; repeat handler_step; try done;
    by apply (covers_write _ _ _ Hc _ _ Hd Hk).
Qed.

Lemma always_object index listings o :
  o.(kind) ∈ kinds -> always P (reconcile_object sha256Hex z dry index listings o).
Proof.
  intros Hk. unfold reconcile_object. destruct (ADAPTERS _) as [k| |] eqn:Ha; [|done|done].
  apply ADAPTERS_Own in Ha. destruct (identityOfSpec k _) as [x|identity]; [done|].
  apply always_try; [|done|done]. unfold converge. rewrite Ha in Hk.
  assert (forall live, always P (d ← drift sha256Hex z k live o.(spec);
    match d with
    | [] => Ret (plan o.(kind) identity Unchanged None (json_get "id" live) true)
    | _ => if dry then Ret (plan o.(kind) identity Update (Some d) (json_get "id" live) false)
           else changed ← update z k live o.(spec); id ← lift (access "id" changed);
                Ret (plan o.(kind) identity Update (Some d) (nullish id (json_get "id" live)) true)
    end)) as Hlive.
  { intros live. handler_step; [by apply always_drift|]. case_match; [done|]. dry_cases dry; [done|].
    handler_step; [by apply always_update|]. by handler_step; [apply always_lift|]. }
  destruct (ordered_get _ _) as [[x|items]|]; [done| |];
    (destruct (find_live _ _ _) as [live|]; [apply Hlive|]); dry_cases dry; try done;
    (handler_step; [by apply always_create|]); by handler_step; [apply always_lift|].
Qed.

Lemma always_objects index listings os seen :
  (forall o, o ∈ os -> o.(kind) ∈ kinds) -> always P (reconcile_objects sha256Hex z dry index listings seen os).
Proof.
  revert seen. induction os as [|o os IH]; intros seen Hin; [done|]. cbn [reconcile_objects].
  handler_step; [apply always_object, Hin; left|]. case_match. apply always_bind; [apply IH; intros o' Ho; apply Hin; by right|]. by intros [].
Qed.

Lemma always_prune_items k kind declared items :
  pr = true -> kind_name k ∈ kinds -> always P (prune_items z dry kind k declared items).
Proof.
  intros Hp Hk. induction items as [|item items IH]; [done|]. cbn [prune_items]. handler_step; [apply always_lift|].
  case_match; [done|]. handler_step; [|by apply always_bind].
  dry_cases dry; [done|]. apply always_try; [|done|done]. apply always_call.
  apply (covers_delete _ _ _ Hc k _ Hd Hp Hk); by destruct k.
Qed.

Lemma always_prune_kinds listings seen :
  pr = true -> (forall k, k ∈ seen.*1 -> k ∈ kinds) -> always P (prune_kinds z dry listings seen).
Proof.
  intros Hp. induction seen as [|[kind declared] seen IH]; intros Hin; [done|]. cbn [prune_kinds].
  handler_step; [|apply always_bind; [apply IH; intros k Hk; apply Hin; by right|done]].
  destruct (ordered_get _ _) as [[x|items]|]; [done| |done]. destruct (ADAPTERS kind) as [k| |] eqn:Hk; [|done|done].
  apply ADAPTERS_Own in Hk as ->. apply always_prune_items; [done|]. apply Hin. left.
Qed.

(** The kinds whose identities have been seen are kinds of the document. *)
Lemma seen_kinds index listings os seen :
  (forall k, k ∈ seen.*1 -> k ∈ kinds) -> (forall o, o ∈ os -> o.(kind) ∈ kinds) ->
  ends (fun r => match r with inr (_, seen') => forall k, k ∈ seen'.*1 -> k ∈ kinds | inl _ => True end)
    (reconcile_objects sha256Hex z dry index listings seen os).
Proof.
  revert seen. induction os as [|o os IH]; intros seen Hs Hin; [done|]. cbn [reconcile_objects].
  apply ends_bind. eapply ends_impl; [|apply ends_true]. intros [x|[out identity]] _; [done|].
  apply ends_bind. eapply ends_impl; [|apply IH]; [by intros [x|[outs seen']]| |intros o' Ho; apply Hin; by right].
  intros k. destruct identity as [i|]; cbn [see]; [|apply Hs].
  rewrite ordered_set_keys_iff. intros [->|Hk]; [apply Hin; left|by apply Hs].
Qed.

End reconcile.

(** A reconciliation makes only the calls its authorisation covers. *)
Lemma always_reconcile `{Runtime} sha256Hex (P : admin_call -> Prop) z doc authorize opts :
  (authorizeAll doc authorize opts = inr tt -> covers P z (declared_kinds doc) opts.(dryRun) opts.(prune)) ->
  always P (reconcile sha256Hex z doc authorize opts).
Proof.
  intros Hc. unfold reconcile. handler_step; [apply always_lift|]. handler_step; [apply always_lift|].
  destruct (authorizeAll doc authorize opts) as [x|[]]; [done|]. specialize (Hc eq_refl).
  assert (forall o, o ∈ doc.(objects) -> o.(kind) ∈ declared_kinds doc) as Ho.
  { intros o Hin. unfold declared_kinds. apply elem_of_distinct, list_elem_of_fmap. eauto. }
  cbn [lift mbind prog_bind bind]. handler_step; [by eapply always_list_kinds|]. handler_step; [apply always_lift|].
  apply always_bind_ends; [by eapply always_objects|].
  eapply ends_impl; [|eapply (seen_kinds sha256Hex z (declared_kinds doc) _ _ _ doc.(objects) [])];
    [|by intros k Hn; apply not_elem_of_nil in Hn|done].
  intros [x|[outs seen]] Hseen; [done|]. handler_step; [|done].
  dry_cases opts.(prune); [|done]. by eapply always_prune_kinds.
Qed.

(** ** Entitlement *)

Lemma for_each_ok {A : Type} (f : A -> exn + unit) xs : for_each f xs = inr tt <-> Forall (fun x => f x = inr tt) xs.
Proof.
  induction xs as [|x xs IH]; cbn; [by split|]. rewrite Forall_cons, <-IH.
  destruct (f x) as [e|[]]; [|tauto]. split; [done|]. by intros [? _].
Qed.

(** The authorisation of a document is the possession of its scopes. *)
Lemma authorizeFor_ok p command verb : authorizeFor p command verb = inr tt <-> Catalog.control_scope command verb ∈ p.(p_scopes).
Proof. unfold authorizeFor. case_bool_decide; [done|]. by split. Qed.

Lemma authorizeAll_covers p z doc opts :
  p.(p_zoneId) = Some z -> authorizeAll doc (authorizeFor p) opts = inr tt ->
  covers (entitled p) z (declared_kinds doc) opts.(dryRun) opts.(prune).
Proof.
  intros Hz. unfold authorizeAll. destruct (for_each _ (declared_kinds doc)) as [x|[]] eqn:Hf; [done|]. intros Hdel.
  apply for_each_ok in Hf. rewrite Forall_forall in Hf.
  assert (forall k, command_text (kind_name k) = command k) as Hct by (by intros []).
  assert (forall k, kind_name k ∈ declared_kinds doc ->
    Catalog.control_scope (command k) Catalog.read ∈ p.(p_scopes)
    /\ (opts.(dryRun) = false -> Catalog.control_scope (command k) Catalog.write ∈ p.(p_scopes))) as Hrw.
  { intros k Hk. specialize (Hf _ Hk). rewrite Hct in Hf.
    destruct (authorizeFor p (command k) Catalog.read) as [|[]] eqn:Hr; [done|]. apply authorizeFor_ok in Hr. split; [done|].
    intros Hd. rewrite Hd in Hf. by apply authorizeFor_ok. }
  split.
  - intros k c Hk Hn Hm. cbn. rewrite Hn, Hm. split; [done|]. exists Catalog.read. by apply Hrw.
  - intros k c Hd Hk Hn Hm. cbn. rewrite Hn, Hm. split; [done|]. by apply Hrw.
  - intros k c Hd Hp Hk Hn Hm. cbn. rewrite Hn, Hm. split; [done|]. rewrite Hd, Hp in Hdel. cbn in Hdel.
    apply for_each_ok in Hdel. rewrite Forall_forall in Hdel. specialize (Hdel _ Hk). rewrite Hct in Hdel. by apply authorizeFor_ok.
Qed.

(** A router is entitled when each of its subcommands is, under the scope of the
    catalog. *)
Definition routes_entitled (p : Principal) (desc : Catalog.CommandDescriptor) (r : Router) : Prop :=
  Forall (fun kh => Catalog.scopeName desc kh.1 ∈ p.(p_scopes) -> always (entitled p) kh.2) r.

(** Closes an entitlement goal from the scope in the context. *)
Ltac by_scope :=
  cbn [entitled noun mutation];
  repeat match goal with |- _ /\ _ => split; [done|] end;
  match goal with
  | H : Catalog.scopeName _ _ ∈ _ |- exists _, _ =>
      first [ exists Catalog.read; exact H | exists Catalog.write; exact H | exists Catalog.delete; exact H ]
  | H : Catalog.scopeName _ _ ∈ _ |- _ => exact H
  end.

Section entitled.
Context `{Runtime}.
Variable sha256Hex : string -> string.
Variable p : Principal.
Variable flags : FlagMap.

Ltac routes :=
  repeat (apply Forall_cons; split); try apply Forall_nil_2; cbn [fst snd]; intros Hs;
  repeat handler_step; by_scope.

Lemma app_entitled : routes_entitled p Catalog.app_command (appHandler p flags).
Proof. routes. Qed.

Lemma resource_entitled : routes_entitled p Catalog.resource_command (resourceHandler p flags).
Proof. routes. Qed.

Lemma identity_provider_entitled : routes_entitled p Catalog.identity_provider_command (providerHandler p flags).
Proof. routes. Qed.

Lemma policy_entitled : routes_entitled p Catalog.policy_command (policyHandler p flags).
Proof. routes. Qed.

Lemma policy_set_entitled : routes_entitled p Catalog.policy_set_command (policySetHandler p flags).
Proof. unfold policySetHandler. destruct (getList flags _) as [[|v vs]|]; routes. Qed.

Lemma authority_record_entitled : routes_entitled p Catalog.authority_record_command (authorityRecordHandler p flags).
Proof. routes. Qed.

Lemma workload_entitled : routes_entitled p Catalog.workload_command (workloadHandler p flags).
Proof. routes. Qed.

Lemma approval_entitled : routes_entitled p Catalog.approval_command (approvalHandler p).
Proof. routes. Qed.

Lemma audit_entitled : routes_entitled p Catalog.audit_command (auditHandler p flags).
Proof. routes. Qed.

Lemma session_entitled : routes_entitled p Catalog.session_command (sessionHandler p flags).
Proof. routes. Qed.

Lemma delegation_entitled : routes_entitled p Catalog.delegation_command (delegationHandler p flags).
Proof. routes. Qed.

Lemma grant_entitled : routes_entitled p Catalog.grant_command (grantHandler p flags).
Proof. routes. Qed.

Lemma state_entitled dry : always (entitled p) (state_command sha256Hex p flags dry).
Proof.
  unfold state_command. handler_step. handler_step; [apply always_lift|]. handler_step; [apply always_lift|].
  apply always_fmap, always_reconcile.
  by apply authorizeAll_covers.
Qed.

Lemma ensure_entitled sub : always (entitled p) (ensureHandler sha256Hex p flags sub).
Proof.
  unfold ensureHandler. handler_step. handler_step; [apply always_lift|]. apply always_fmap. unfold ensure. handler_step; [apply always_lift|].
  apply always_reconcile. by apply (authorizeAll_covers p _ {| objects := _; doc_prune := false |}).
Qed.
End entitled.

(** The subcommands a descriptor admits. *)
Lemma accept_spec req p desc :
  accept_request req p = inr desc ->
  desc ∈ Catalog.MANAGEMENT_COMMANDS /\ Catalog.name desc = req.(req_command)
  /\ req.(req_subcommand) ∈ Catalog.declared_subs desc
  /\ (exists z, p.(p_zoneId) = Some z /\ z <> "")
  /\ (Catalog.delegatesScope desc = false -> Catalog.scopeName desc req.(req_subcommand) ∈ p.(p_scopes))
  /\ validateFlags req.(req_flags) = inr tt.
Proof.
  unfold accept_request. destruct (Catalog.findCommand _ _) as [d|] eqn:Hf; [|done].
  apply Catalog.findCommand_Some in Hf as [Hin Hn]. destruct (Catalog.hidden d); [done|].
  destruct (assertZoneBound p d) as [x|[]] eqn:Hz; [done|].
  assert (exists z, p.(p_zoneId) = Some z /\ z <> "") as Hzone.
  { unfold assertZoneBound, requireZone in Hz. destruct (Catalog.requiresZone d); [|done].
    destruct (p_zoneId p) as [z|]; [|done]. case_bool_decide; [done|]. eauto. }
  destruct (subcommand_allowed req d) as [x|[]] eqn:Hm; [done|].
  assert (req.(req_subcommand) ∈ Catalog.declared_subs d) as Hsub.
  { unfold subcommand_allowed in Hm. unfold Catalog.declared_subs.
    destruct (Catalog.subcommands d) as [[|s rest]|]; case_bool_decide as Hb; try done; rewrite Hb; left. }
  destruct (validateFlags _) as [x|[]] eqn:Hv; [done|]. destruct (assertScope _ _ _) as [x|[]] eqn:Hs; [done|].
  intros [= ->]. split_and!; try done. intros Hd. unfold assertScope in Hs. rewrite Hd in Hs. by case_bool_decide.
Qed.

(** The catalog with the handler of each of its commands. *)
Definition handler_table `{Runtime} sha256Hex (p : Principal) (flags : FlagMap) : list (Catalog.CommandDescriptor * handler) :=
  [(Catalog.app_command, Routes (appHandler p flags)); (Catalog.resource_command, Routes (resourceHandler p flags));
   (Catalog.identity_provider_command, Routes (providerHandler p flags)); (Catalog.policy_command, Routes (policyHandler p flags));
   (Catalog.policy_set_command, Routes (policySetHandler p flags)); (Catalog.state_command, Routes (stateHandler sha256Hex p flags));
   (Catalog.ensure_command, Single (ensureHandler sha256Hex p flags)); (Catalog.catalog_command, Routes catalogHandler);
   (Catalog.workload_command, Routes (workloadHandler p flags));
   (Catalog.authority_record_command, Routes (authorityRecordHandler p flags)); (Catalog.approval_command, Routes (approvalHandler p));
   (Catalog.audit_command, Routes (auditHandler p flags)); (Catalog.explain_command, Single (fun _ => explainHandler p flags));
   (Catalog.session_command, Routes (sessionHandler p flags)); (Catalog.delegation_command, Routes (delegationHandler p flags));
   (Catalog.grant_command, Routes (grantHandler p flags))].

Section table.
Context `{Runtime}.
Variable sha256Hex : string -> string.
Variable p : Principal.
Variable flags : FlagMap.

Lemma table_catalog : (handler_table sha256Hex p flags).*1 = Catalog.MANAGEMENT_COMMANDS.
Proof. reflexivity. Qed.

Lemma table_handlers :
  Forall (fun dh => commandHandler sha256Hex p flags (Catalog.name dh.1) = Some dh.2) (handler_table sha256Hex p flags).
Proof. repeat (apply Forall_cons; split); try apply Forall_nil_2; reflexivity. Qed.

Lemma table_find desc :
  desc ∈ Catalog.MANAGEMENT_COMMANDS ->
  exists h, (desc, h) ∈ handler_table sha256Hex p flags /\ commandHandler sha256Hex p flags (Catalog.name desc) = Some h.
Proof.
  rewrite <-table_catalog. intros ([d h] & -> & Hin)%list_elem_of_fmap. exists h. split; [done|].
  pose proof table_handlers as Ht. rewrite Forall_forall in Ht. exact (Ht _ Hin).
Qed.

(** A command that carries its own scope. *)
Definition scoped (desc : Catalog.CommandDescriptor) (sub : string) : Prop :=
  Catalog.delegatesScope desc = false -> Catalog.scopeName desc sub ∈ p.(p_scopes).

Lemma routes_run desc r sub :
  routes_entitled p desc r -> Catalog.delegatesScope desc = false -> scoped desc sub -> always (entitled p) (bySubcommand r sub).
Proof.
  intros Hr Hd Hs. apply always_router. eapply Forall_impl; [done|]. intros [k h] Hkh Hk. cbn in *. subst. apply Hkh. by apply Hs.
Qed.

Lemma table_entitled :
  Forall (fun dh => forall sub, sub ∈ Catalog.declared_subs dh.1 -> scoped dh.1 sub -> always (entitled p) (handle_with dh.2 sub))
    (handler_table sha256Hex p flags).
Proof.
  repeat (apply Forall_cons; split); try apply Forall_nil_2; intros sub Hsub Hs; cbn [fst snd handle_with] in *;
    try (eapply routes_run; [..|exact Hs]; [|reflexivity]; first
      [ apply app_entitled | apply resource_entitled | apply identity_provider_entitled | apply policy_entitled
      | apply policy_set_entitled | apply workload_entitled | apply authority_record_entitled | apply approval_entitled
      | apply audit_entitled | apply session_entitled | apply delegation_entitled | apply grant_entitled ]).
  - apply always_router. repeat (apply Forall_cons; split); try apply Forall_nil_2; intros _; apply state_entitled.
  - apply ensure_entitled.
  - apply always_router. repeat (apply Forall_cons; split); try apply Forall_nil_2; done.
  - change (Catalog.declared_subs Catalog.explain_command) with [""] in Hsub. apply list_elem_of_singleton in Hsub as ->.
    specialize (Hs eq_refl). unfold explainHandler. repeat handler_step. by_scope.
Qed.
End table.

Lemma dispatch_calls_entitled `{Runtime} sha256Hex req p : always (entitled p) (dispatch sha256Hex req p).
Proof.
  unfold dispatch. destruct (accept_request req p) as [x|desc] eqn:Ha; [done|]. cbn [lift mbind prog_bind bind].
  destruct (accept_spec _ _ _ Ha) as (Hin & _ & Hsub & _ & Hs & _).
  destruct (table_find sha256Hex p (default_to [] req.(req_flags)) desc Hin) as (h & Ht & ->).
  apply always_try; [|done|done].
  pose proof (table_entitled sha256Hex p (default_to [] req.(req_flags))) as He. rewrite Forall_forall in He. by apply (He _ Ht).
Qed.

(** ** Planning *)

(** A call that changes nothing. *)
Definition reads_only (c : admin_call) : Prop :=
  match c with
  | In _ zc => mutation zc = None
  | PoliciesValidate _ => True
  | Zones _ | PolicyTemplates _ => False
  end.

(** The requests that ask for a plan. *)
Definition asks_for_plan (req : DispatchRequest) : Prop :=
  (req.(req_command) = "state" /\ req.(req_subcommand) ∈ ["plan"; "verify"])
  \/ (req.(req_command) ∈ ["state"; "ensure"] /\ getBool (default_to [] req.(req_flags)) "dry-run" = Some true).

Lemma plan_covers z kinds prune : covers reads_only z kinds true prune.
Proof. by split. Qed.

(** A request that asks for a plan ([state plan], [state verify], or a declarative
    command with the dry-run flag) makes no call that changes anything, whatever the
    document declares, whatever is to be pruned and whatever the services answer. *)
Theorem plan_changes_nothing `{Runtime} sha256Hex req p :
  asks_for_plan req -> always reads_only (dispatch sha256Hex req p).
Proof.
  intros Hplan. unfold dispatch. destruct (accept_request req p) as [x|desc] eqn:Ha; [done|]. cbn [lift mbind prog_bind bind].
  destruct (accept_spec _ _ _ Ha) as (Hin & Hn & Hsub & _). rewrite Hn.
  assert (always reads_only (state_command sha256Hex p (default_to [] req.(req_flags)) true)) as Hstate.
  { unfold state_command. do 3 (handler_step; try apply always_lift). apply always_fmap, always_reconcile.
    intros _. apply plan_covers. }
  assert (forall sub, getBool (default_to [] req.(req_flags)) "dry-run" = Some true ->
    always reads_only (ensureHandler sha256Hex p (default_to [] req.(req_flags)) sub)) as Hensure.
  { intros sub Hd. unfold ensureHandler, ensure. rewrite Hd. do 2 (handler_step; try apply always_lift). apply always_fmap.
    handler_step; [apply always_lift|]. apply always_reconcile. intros _. apply plan_covers. }
  destruct Hplan as [[Hc Hs]|[Hc Hd]].
  - rewrite Hc. change (commandHandler _ _ _ "state") with (Some (Routes (stateHandler sha256Hex p (default_to [] req.(req_flags))))).
    apply always_try; [|done|done]. apply always_router. unfold stateHandler.
    repeat (apply Forall_cons; split); try apply Forall_nil_2; cbn [fst snd]; intros Hk; try exact Hstate.
    exfalso. rewrite <-Hk in Hs. by repeat (apply elem_of_cons in Hs as [Hs|Hs]); [..|apply not_elem_of_nil in Hs].
  - apply elem_of_cons in Hc as [Hc|Hc]; [|apply list_elem_of_singleton in Hc]; rewrite Hc.
    + change (commandHandler _ _ _ "state") with (Some (Routes (stateHandler sha256Hex p (default_to [] req.(req_flags))))).
      apply always_try; [|done|done]. apply always_router. unfold stateHandler. rewrite Hd.
      by repeat (apply Forall_cons; split); try apply Forall_nil_2.
    + change (commandHandler _ _ _ "ensure") with (Some (Single (ensureHandler sha256Hex p (default_to [] req.(req_flags))))).
      apply always_try; [|done|done]. by apply Hensure.
Qed.

(** The dispatcher implements the catalog exactly: every command has a handler, and
    the handler takes every subcommand or routes exactly the declared ones. *)
Theorem catalog_covered `{Runtime} sha256Hex p flags desc :
  desc ∈ Catalog.MANAGEMENT_COMMANDS ->
  engineHandlerCoverage sha256Hex p flags (Catalog.name desc) = Some None
  \/ engineHandlerCoverage sha256Hex p flags (Catalog.name desc) = Some (Some (Catalog.declared_subs desc)).
Proof.
  intros Hin. destruct (table_find sha256Hex p flags desc Hin) as (h & Ht & Hh). unfold engineHandlerCoverage. rewrite Hh.
  unfold handler_table in Ht.
  repeat (apply elem_of_cons in Ht as [Ht|Ht]; [injection Ht as -> ->; first [by left | by right]|]). by apply not_elem_of_nil in Ht.
Qed.

(** ** Flags *)

(** A flag value of the bounded, flat shape Control accepts. *)
Definition flat_scalar (v : json) : Prop :=
  match v with
  | JNull | JBool _ | JNum _ | JDec _ | JNonFinite => True
  | JStr s => (js_length s <= MAX_FLAG_STR_LEN)%nat
  | JUndefined | JArr _ | JObj _ => False
  end.

Definition flat (kv : string * json) : Prop :=
  (1 <= js_length kv.1 <= MAX_FLAG_KEY_LEN)%nat /\
  match kv.2 with
  | JArr xs => (length xs <= MAX_FLAG_ARRAY_LEN)%nat /\ Forall flat_scalar xs
  | v => flat_scalar v
  end.

(** [validateFlags] accepts exactly the flat, bounded flag maps. *)
Theorem validateFlags_exact flags :
  validateFlags flags = inr tt <->
  match flags with None => True | Some fs => (length fs <= MAX_FLAGS)%nat /\ Forall flat fs end.
Proof.
  destruct flags as [fs|]; [|done]. cbn [validateFlags].
  assert (forall v k, check_element k v = inr tt <-> flat_scalar v) as He.
  { intros v k. destruct v; cbn [check_element flat_scalar]; try (by split; [done|intros []]); try done.
    destruct (Nat.ltb_spec MAX_FLAG_STR_LEN (js_length s)); split; try done; lia. }
  assert (forall kv, check_flag kv = inr tt <-> flat kv) as Hf.
  { intros [k v]. unfold check_flag, flat. cbn [fst snd].
    destruct ((js_length k =? 0)%nat || (MAX_FLAG_KEY_LEN <? js_length k)%nat) eqn:Hk.
    { split; [done|]. intros [Hl _]. apply orb_true_iff in Hk as [Hk|Hk]; [apply Nat.eqb_eq in Hk|apply Nat.ltb_lt in Hk]; lia. }
    apply orb_false_iff in Hk as [Hk0%Nat.eqb_neq Hk1%Nat.ltb_ge].
    assert (1 <= js_length k <= MAX_FLAG_KEY_LEN)%nat as Hr by lia.
    destruct v; cbn [flat_scalar]; try (by split; [done|intros [_ []]]); try (by split).
    - destruct (Nat.ltb_spec MAX_FLAG_STR_LEN (js_length s)); split; try done; [intros [_ ?]; lia].
    - destruct (Nat.ltb_spec MAX_FLAG_ARRAY_LEN (length xs)) as [Hl|Hl].
      + split; [done|]. intros [_ [? _]]. lia.
      + rewrite for_each_ok. split.
        * intros Hx. split_and!; [lia|lia|done|]. eapply Forall_impl; [exact Hx|]. intros x. apply He.
        * intros (_ & _ & Hx). eapply Forall_impl; [exact Hx|]. intros x. apply He. }
  destruct (Nat.ltb_spec MAX_FLAGS (length fs)) as [Hl|Hl].
  - split; [done|]. intros [? _]. lia.
  - rewrite for_each_ok. split.
    + intros Hx. split; [lia|]. eapply Forall_impl; [exact Hx|]. intros x. apply Hf.
    + intros [_ Hx]. eapply Forall_impl; [exact Hx|]. intros x. apply Hf.
Qed.
End DispatchFacts.

(** * What the admin client sends

    A change is sent at most once and a read at most a bounded number of times; a
    collection is read to its end or not at all; the requests of an operation in a zone
    go to that zone's path as long as the identifiers are plain, and what happens when
    they are not. *)

Module ClientFacts.
Import AdminClient.
Import DispatchFacts.

(** ** Numbers of exchanges *)

(** The program makes at most [n] calls, whatever the answers. *)
Fixpoint at_most {E : Type} {R : E -> Type} {X A : Type} (n : nat) (m : prog E R X A) {struct m} : Prop :=
  match m with
  | Ret _ | Throw _ => True
  | Vis _ k => match n with O => False | S n' => forall r, at_most n' (k r) end
  end.

Lemma at_most_more {E : Type} {R : E -> Type} {X A : Type} n n' (m : prog E R X A) : (n <= n')%nat -> at_most n m -> at_most n' m.
Proof.
  revert n n'. induction m as [a|x|e k IH]; intros n n' Hn Hm; [exact I|exact I|]. destruct n as [|n]; [destruct Hm|]. destruct n' as [|n']; [lia|].
  intros r. eapply IH; [|apply Hm]. lia.
Qed.

Lemma at_most_bind {E : Type} {R : E -> Type} {X A B : Type} n n' (m : prog E R X A) (f : A -> prog E R X B) :
  at_most n m -> (forall a, at_most n' (f a)) -> at_most (n + n') (bind m f).
Proof.
  revert n. induction m as [a|x|e k IH]; intros n Hm Hf.
  - cbn. eapply at_most_more; [|apply Hf]. lia.
  - exact I.
  - destruct n as [|n]; [destruct Hm|]. cbn. intros r. apply IH; [apply Hm|done].
Qed.

Lemma at_most_lift {E : Type} {R : E -> Type} {X A : Type} n (r : X + A) : at_most n (lift r : prog E R X A).
Proof. destruct r; exact I. Qed.

Lemma at_most_calls {E : Type} {R : E -> Type} {X A S : Type} (server : S -> forall e, S * R e) s n (m : prog E R X A) :
  at_most n m -> (length (calls server s m) <= n)%nat.
Proof.
  revert n s. induction m as [a|x|e k IH]; intros n s Hm; cbn; [lia|lia|]. destruct n as [|n]; [destruct Hm|].
  destruct (server s e). cbn. specialize (IH r n s0 (Hm r)). lia.
Qed.

Section client.
Context `{Runtime}.
Variable this : AdminClientOptions.

Lemma at_most_attempts r opts n : at_most (S n) (attempts this r opts n).
Proof.
  induction n as [|n IH]; intros o; destruct o as [res ab]; cbn [result aborted];
    (destruct res as [status st text|message]; [|by destruct ab]);
    (destruct (negb _); [by destruct (shouldRetry status)|]); (destruct (_ || _); [done|]); (destruct (JSON_parse text); [done|]);
    by destruct ab.
Qed.

Lemma at_most_request path opts :
  at_most (if canRetryMethod opts.(method) then S this.(retries) else 1) (request this path opts).
Proof.
  unfold request. eapply at_most_more; [|apply (at_most_bind 0); [apply at_most_lift|intros r; apply at_most_attempts]].
  destruct (canRetryMethod _); lia.
Qed.

(** A read of one page, then a local transformation. *)
Lemma at_most_then {A B : Type} n (m : http A) (f : A -> http B) : at_most n m -> (forall a, at_most 0 (f a)) -> at_most n (bind m f).
Proof. intros Hm Hf. rewrite <-(Nat.add_0_r n). by apply at_most_bind. Qed.

Lemma at_most_page path message opts n : at_most n (request this path opts) -> at_most n (list_page this path message opts).
Proof.
  intros Hr. apply at_most_then; [done|]. intros v. apply at_most_then; [apply at_most_lift|]. by intros [].
Qed.

Lemma at_most_list path label q pages cursor items : at_most (pages * S this.(retries)) (list_pages this path label q pages cursor items).
Proof.
  revert cursor items. induction pages as [|n IH]; intros cursor items; [done|]. cbn [list_pages Nat.mul].
  apply at_most_bind; [apply (at_most_request _ (read_query _))|]. intros v.
  apply (at_most_bind 0); [apply at_most_lift|]. intros page. destruct page; try done. case_match; [apply IH|done].
Qed.

(** A POST that only evaluates: it is sent once, like a change. *)
Lemma at_most_fmap {A B : Type} (f : A -> B) n (m : http A) : at_most n m -> at_most n (f <$> m).
Proof. intros Hm. apply at_most_then; [done|]. done. Qed.

Lemma at_most_write path opts : canRetryMethod opts.(method) = false -> at_most 1 (request this path opts).
Proof. intros Hw. pose proof (at_most_request path opts) as Hr. by rewrite Hw in Hr. Qed.

Lemma at_most_read path opts : at_most (S this.(retries)) (request this path opts).
Proof. eapply at_most_more; [|apply at_most_request]. destruct (canRetryMethod _); lia. Qed.

(** The client sends a change at most once, whatever happens to the exchange, and
    never makes more than fifty pages times the attempts of a read for any operation. *)
Theorem exchanges_bounded z c :
  (is_Some (mutation c) -> at_most 1 (perform this (In z c)))
  /\ at_most (MAX_LIST_PAGES * S this.(retries)) (perform this (In z c)).
Proof.
  assert (forall m : http json, at_most (S this.(retries)) m -> at_most (MAX_LIST_PAGES * S this.(retries)) m) as Hmore.
  { intros m Hm. eapply at_most_more; [|exact Hm]. unfold MAX_LIST_PAGES. lia. }
  split.
  - intros [verb Hv]. destruct c as [c|c|c|c|c|c|c|c|c|c|c|c|c]; destruct c; try discriminate Hv; cbn [perform perform_zone];
      first [ by apply at_most_write
            | apply at_most_then; [by apply at_most_write|]; intros a; apply at_most_then; [apply at_most_lift|]; done ].
  - destruct c as [c|c|c|c|c|c|c|c|c|c|c|c|c]; destruct c; cbn [perform perform_zone];
      first [ apply at_most_list
            | apply Hmore; first
              [ apply at_most_read
              | apply at_most_fmap, at_most_page, at_most_read
              | apply at_most_then; [first [apply at_most_read | apply at_most_page, at_most_read]|]; intros a; apply at_most_lift
              | apply at_most_then; [apply at_most_read|]; intros a; repeat (apply at_most_then; [apply at_most_lift|]; intros ?); done ] ].
Qed.

(** ** Collections *)

(** A service that answers every request of a collection with a page and a cursor to
    the next; [chain c n items] is the rest of the collection from the cursor [c], in
    [n] pages. *)
Section collection.
Variable serve : http_request -> outcome.
Variables (path : string) (q : list (string * json)).

Definition page_request (cursor : json) : exn + http_request := build_request this path (read_query (ordered_set "cursor" cursor q)).

Inductive chain : json -> nat -> list json -> Prop :=
| chain_last c r st text v xs :
    page_request c = inr r -> result (serve r) = Response 200 st text -> JSON_parse text = Some v ->
    json_get "items" v = JArr xs -> truthy (json_get "next_cursor" v) = false -> chain c 1 xs
| chain_more c r st text v xs n ys :
    page_request c = inr r -> result (serve r) = Response 200 st text -> JSON_parse text = Some v ->
    json_get "items" v = JArr xs -> truthy (json_get "next_cursor" v) = true -> chain (json_get "next_cursor" v) n ys ->
    chain c (S n) (xs ++ ys)%list.

Definition serving (s : unit) (r : http_request) : unit * outcome := (tt, serve r).

Lemma run_page c r st text v :
  page_request c = inr r -> result (serve r) = Response 200 st text -> JSON_parse text = Some v ->
  run serving tt (request this path (read_query (ordered_set "cursor" c q))) = (tt, inr v).
Proof.
  intros Hr Hres Hp. unfold request. rewrite run_mbind. unfold page_request in Hr. rewrite Hr. cbn [lift run].
  assert (forall n, run serving tt (attempts this r (read_query (ordered_set "cursor" c q)) n) = (tt, inr v)) as Ha.
  { intros n. destruct n; cbn [attempts run]; unfold serving; rewrite Hres; cbn; by rewrite Hp. }
  apply Ha.
Qed.

Lemma run_list label c n xs pages items :
  chain c n xs ->
  run serving tt (list_pages this path label q pages c items)
  = (tt, if (n <=? pages)%nat then inr (JArr (items ++ xs)) else inl (JsError (label +:+ " pagination did not terminate"))).
Proof.
  intros Hc. revert pages items. induction Hc as [c r st text v xs Hr Hres Hp Hi Hn|c r st text v xs n ys Hr Hres Hp Hi Hn Hc IH];
    intros [|pages] items; cbn [list_pages]; try done; rewrite run_mbind, (run_page c r st text v Hr Hres Hp), run_mbind;
    (assert (access "items" v = inr (JArr xs)) as -> by (by destruct v; cbn in Hi; try done; cbn; rewrite Hi));
    cbn [lift run]; rewrite Hn.
  - done.
  - rewrite IH. cbn [Nat.leb]. destruct (n <=? pages)%nat; [|done]. by rewrite <-app_assoc.
Qed.

(** A listing that succeeds is the whole collection: over a service whose cursors
    chain [n] pages, [listAll] returns all their items in order when [n] is at most
    fifty, and an error, never a truncated list, when there are more. *)
Theorem listAll_complete label n xs :
  chain JUndefined n xs ->
  run serving tt (listAll this path label q)
  = (tt, if (n <=? MAX_LIST_PAGES)%nat then inr (JArr xs) else inl (JsError (label +:+ " pagination did not terminate"))).
Proof. apply run_list. Qed.
End collection.
End client.
End ClientFacts.
