(* ===== verification/Paths.v ===== *)
(** * Where a request of the admin client arrives

    The client splices identifiers into paths without encoding them, and [fetch]
    resolves the path as the URL standard says: text after [?] or [#] is not part of the
    path, [..] removes a segment.  Plain identifiers keep a request inside the zone it
    is meant for; an identifier with separators does not, and reaches routes the command
    does not offer. *)

From Stdlib Require Import Ascii.
From Stdlib Require String.
From S2P Require Import Prelude.
From S2P Require Import Json.
From S2P Require Import JsonText.
From S2P Require Import Text.
From S2P Require Import Prog.
From S2P Require Import AdminClient.
From S2P Require Import Catalog.
From S2P Require Import Reconcile.
From S2P Require Import Dispatch.
From S2P Require Import DispatchFacts.
Local Open Scope string_scope.

Module Paths.
Import AdminClient.
Import Dispatch.
Import DispatchFacts.

(** ** Resolution of a path *)

(** Tabs and newlines are dropped before a URL is parsed. *)
Definition dropped (c : ascii) : bool := let n := nat_of_ascii c in bool_decide (n = 9 \/ n = 10 \/ n = 13)%nat.

Fixpoint path_part (s : string) : string :=
  match s with
  | String.EmptyString => ""
  | String.String c rest => if one_of "?#" c then "" else String.String c (path_part rest)
  end.

(** Segments between slashes; a backslash counts as one. *)
Fixpoint segments_go (cur s : string) : list string :=
  match s with
  | String.EmptyString => [cur]
  | String.String c rest =>
      if one_of "/\" c then cur :: segments_go "" rest else segments_go (cur +:+ String.String c "") rest
  end.

Definition single_dot (s : string) : bool := bool_decide (to_lower s ∈ ["."; "%2e"]).
Definition double_dot (s : string) : bool := bool_decide (to_lower s ∈ [".."; ".%2e"; "%2e."; "%2e%2e"]).

(** The segments a path resolves to, read from the left over the reversed prefix. *)
Fixpoint resolve (acc : list string) (segs : list string) : list string :=
  match segs with
  | [] => reverse acc
  | s :: rest =>
      if double_dot s then resolve (match rest with [] => "" :: tail acc | _ => tail acc end) rest
      else if single_dot s then resolve (match rest with [] => "" :: acc | _ => acc end) rest
      else resolve (s :: acc) rest
  end.

(** The location of a path that begins with a slash. *)
Definition locate (path : string) : list string := resolve [] (tail (segments_go "" (path_part (remove_chars dropped path)))).

Example locate_samples :
  locate "/v1/zones/a/applications/../../b/applications/x?y=/z" = ["v1"; "zones"; "b"; "applications"; "x"]
  /\ locate "/v1/zones/a/apps/%2E%2e/t" = ["v1"; "zones"; "a"; "t"].
Proof. split; vm_compute; reflexivity. Qed.

(** ** Plain segments *)

(** An identifier as the services mint them: letters, digits, hyphens, underscores. *)
Definition plain_char (c : ascii) : bool := is_alnum c || one_of "-_" c.
Definition plain (s : string) : bool := all_chars plain_char s.

Definition path_of (segs : list string) : string := "/" +:+ string_concat "/" segs.

(** A segment, which may also hold dots. *)
Definition seg_char (c : ascii) : bool := plain_char c || bool_decide (c = "."%char).
Definition seg (s : string) : bool := all_chars seg_char s.

Lemma plain_seg s : plain s = true -> seg s = true.
Proof. apply all_chars_impl. intros c Hc. unfold seg_char. by rewrite Hc. Qed.

Lemma seg_char_ok c : seg_char c = true -> dropped c = false /\ one_of "?#" c = false /\ one_of "/\" c = false.
Proof. by destruct c as [[] [] [] [] [] [] [] []]; vm_compute. Qed.

(** Text of plain characters and slashes goes through unchanged. *)
Definition path_char (c : ascii) : bool := seg_char c || bool_decide (c = "/"%char).

Lemma path_chars_kept s : all_chars path_char s = true -> path_part (remove_chars dropped s) = s.
Proof.
  induction s as [|c s IH]; [done|]. cbn [all_chars]. intros [Hc Hs]%andb_true_iff. cbn [remove_chars].
  assert (dropped c = false /\ one_of "?#" c = false) as [Hd Hq].
  { unfold path_char in Hc. apply orb_true_iff in Hc as [Hc|Hc]; [by apply seg_char_ok in Hc as (? & ? & ?)|].
    apply bool_decide_eq_true_1 in Hc as ->. done. }
  rewrite Hd. cbn [path_part]. rewrite Hq. by rewrite IH.
Qed.

Lemma segments_seg cur s rest : seg s = true -> segments_go cur (s +:+ rest) = segments_go (cur +:+ s) rest.
Proof.
  revert cur. induction s as [|c s IH]; intros cur Hs; [by rewrite string_app_nil_r|].
  unfold seg in Hs. cbn [all_chars] in Hs. apply andb_true_iff in Hs as [Hc Hs].
  change (String.String c s +:+ rest) with (String.String c (s +:+ rest)). cbn [segments_go].
  destruct (seg_char_ok c Hc) as (_ & _ & ->). rewrite IH by done. f_equal. by rewrite string_app_assoc.
Qed.

Lemma segments_concat cur s segs :
  Forall (fun s => seg s = true) (s :: segs) -> segments_go cur (string_concat "/" (s :: segs)) = (cur +:+ s) :: segs.
Proof.
  revert cur s. induction segs as [|s' segs IH]; intros cur s Hf; apply Forall_cons in Hf as [Hseg Hf].
  - cbn [string_concat]. rewrite <-(string_app_nil_r s) at 1. by rewrite segments_seg.
  - change (string_concat "/" (s :: s' :: segs)) with (s +:+ "/" +:+ string_concat "/" (s' :: segs)).
    rewrite segments_seg by done. change ("/" +:+ ?t) with (String.String "/" t). cbn [segments_go].
    assert (one_of "/\" "/"%char = true) as -> by done. f_equal. by apply IH.
Qed.

(** A path of segments without separators is resolved segment by segment. *)
Lemma locate_segs segs : segs <> [] -> Forall (fun s => seg s = true) segs -> locate (path_of segs) = resolve [] segs.
Proof.
  intros Hne Hs. destruct segs as [|s segs]; [done|]. unfold locate, path_of. rewrite path_chars_kept.
  - change ("/" +:+ ?t) with (String.String "/" t). cbn [segments_go].
    assert (one_of "/\" "/"%char = true) as -> by done. cbn [tail]. by rewrite segments_concat.
  - change ("/" +:+ ?t) with (String.String "/" t). cbn [all_chars]. clear Hne.
    assert (forall s, seg s = true -> all_chars path_char s = true) as Hpc.
    { intros t. apply all_chars_impl. intros c Hc. unfold path_char. by rewrite Hc. }
    revert s Hs. induction segs as [|s' segs IH]; intros s Hs; apply Forall_cons in Hs as [Hseg Hs].
    + cbn. by apply Hpc.
    + change (string_concat "/" (s :: s' :: segs)) with (s +:+ "/" +:+ string_concat "/" (s' :: segs)).
      rewrite !all_chars_app, Hpc by done. cbn. by apply (IH s').
Qed.

Lemma plain_not_dot s : plain s = true -> single_dot s = false /\ double_dot s = false.
Proof.
  intros Hs. assert (forall t, ("."%char ∈ String.list_ascii_of_string t \/ "%"%char ∈ String.list_ascii_of_string t) -> to_lower s <> t) as Hne.
  { intros t Ht <-. assert (forall c, c ∈ String.list_ascii_of_string (to_lower s) -> c <> "."%char /\ c <> "%"%char) as Hall.
    { clear Ht. induction s as [|c s IH]; intros d Hd; [by apply not_elem_of_nil in Hd|]. unfold plain in Hs. cbn [all_chars] in Hs.
      apply andb_true_iff in Hs as [Hc Hs]. apply elem_of_cons in Hd as [->|Hd]; [|by apply IH].
      by destruct c as [[] [] [] [] [] [] [] []]. }
    destruct Ht as [Ht|Ht]; by apply Hall in Ht as []. }
  split; apply bool_decide_eq_false_2; intros Hin;
    repeat (apply elem_of_cons in Hin as [Hin|Hin]); try (by apply not_elem_of_nil in Hin);
    (revert Hin; apply Hne; vm_compute; set_solver).
Qed.

Lemma resolve_plain acc segs : Forall (fun s => plain s = true) segs -> resolve acc segs = (reverse acc ++ segs)%list.
Proof.
  intros Hs. revert acc. induction Hs as [|s segs Hs Hss IH]; intros acc; cbn [resolve]; [by rewrite app_nil_r|].
  destruct (plain_not_dot s Hs) as [-> ->]. rewrite IH, reverse_cons. by rewrite <-app_assoc.
Qed.

(** A path of plain segments is where it says. *)
Lemma locate_plain segs : segs <> [] -> Forall (fun s => plain s = true) segs -> locate (path_of segs) = segs.
Proof.
  intros Hne Hs. rewrite locate_segs; [by apply resolve_plain|done|]. eapply Forall_impl; [exact Hs|]. apply plain_seg.
Qed.

(** ** The routes of the operations *)

(** The service and the segments, after the zone's own, of an operation's path. *)
Definition route (c : zone_call) : base * list string :=
  match c with
  | Applications c => (api, match c with
      | applications_list | applications_create _ => ["applications"]
      | applications_get id | applications_patch id _ | applications_delete id => ["applications"; id]
      | applications_rotateSecret id => ["applications"; id; "rotate-secret"]
      | applications_getClientSecret id => ["applications"; id; "client-secret"]
      | applications_dcr _ => ["applications"; "dcr"]
      end)
  | Resources c => (api, match c with
      | resources_list | resources_create _ => ["resources"]
      | resources_get id | resources_patch id _ | resources_delete id => ["resources"; id]
      end)
  | Providers c => (api, match c with
      | providers_list | providers_create _ => ["providers"]
      | providers_get id | providers_patch id _ | providers_delete id => ["providers"; id]
      end)
  | Policies c => (api, match c with
      | policies_list | policies_create _ => ["policies"]
      | policies_get id | policies_delete id => ["policies"; id]
      | policies_addVersion id _ => ["policies"; id; "versions"]
      end)
  | PolicySets c => (api, match c with
      | policySets_list | policySets_create _ _ => ["policy-sets"]
      | policySets_get id | policySets_delete id => ["policy-sets"; id]
      | policySets_addVersion id _ | policySets_listVersions id => ["policy-sets"; id; "versions"]
      | policySets_simulate id _ _ => ["policy-sets"; id; "simulate"]
      | policySets_activate id _ => ["policy-sets"; id; "activate"]
      | policySets_activationStatus id _ _ => ["policy-sets"; id; "activation-status"]
      end)
  | Grants c => (api, match c with
      | grants_list _ | grants_create _ => ["grants"]
      | grants_get id | grants_revoke id => ["grants"; id]
      end)
  | SubjectIssuers c => (api, match c with
      | subjectIssuers_list | subjectIssuers_create _ => ["subject-issuers"]
      | subjectIssuers_get id | subjectIssuers_patch id _ | subjectIssuers_delete id => ["subject-issuers"; id]
      end)
  | ProviderConnections c => (api, match c with
      | providerConnections_create _ => ["provider-connections"]
      | providerConnections_authorizeOAuth _ => ["provider-connections"; "oauth"; "authorize"]
      | providerConnections_revoke _ => ["provider-connections"; "revoke"]
      end)
  | Workloads c => (api, match c with
      | workloads_list | workloads_create _ => ["workloads"]
      | workloads_get id | workloads_update id _ | workloads_delete id => ["workloads"; id]
      | workloads_rotateSecret id => ["workloads"; id; "rotate-secret"]
      | workloads_getSecret id => ["workloads"; id; "secret"]
      end)
  | Sessions c =>
      match c with
      | sessions_list _ => (api, ["sessions"])
      | sessions_get id | sessions_terminate id => (coordinator, ["agents"; id])
      | sessions_children id _ => (coordinator, ["agents"; id; "children"])
      | sessions_suspend id => (coordinator, ["agents"; id; "suspend"])
      | sessions_resume id => (coordinator, ["agents"; id; "resume"])
      | sessions_effectiveAuthority id => (coordinator, ["agents"; id; "effective-authority"])
      end
  | Records c => (api, match c with
      | authorityRecords_list _ => ["authority-records"]
      | subjects_revoke _ => ["subjects"; "revoke"]
      | audit_list _ => ["audit"]
      | audit_byRequest r => ["audit"; "by-request"; r]
      | audit_explain r => ["audit"; "by-request"; r; "explain"]
      | adminAudit_list _ => ["admin-audit"]
      end)
  | Approvals c => (api, match c with
      | approvals_list => ["approvals"]
      | approvals_get id => ["approvals"; id]
      | approvals_approve id _ => ["approvals"; id; "approve"]
      | approvals_reject id _ => ["approvals"; id; "reject"]
      end)
  | Delegations c => (coordinator, match c with
      | delegations_active => ["delegations"; "active"]
      | delegations_inbound s => ["delegations"; "inbound"; s]
      | delegations_outbound s => ["delegations"; "outbound"; s]
      | delegations_traverse id => ["delegations"; id; "traverse"]
      | delegations_impact id => ["delegations"; id; "impact"]
      | delegations_revoke id => ["delegations"; id; "revoke"]
      end)
  end.

(** The method of an operation. *)
Definition method_of (c : zone_call) : http_method :=
  match c with
  | Applications c => match c with
      | applications_list | applications_get _ | applications_getClientSecret _ => GET
      | applications_create _ | applications_rotateSecret _ | applications_dcr _ => POST
      | applications_patch _ _ => PATCH
      | applications_delete _ => DELETE
      end
  | Resources c => match c with
      | resources_list | resources_get _ => GET
      | resources_create _ => POST
      | resources_patch _ _ => PATCH
      | resources_delete _ => DELETE
      end
  | Providers c => match c with
      | providers_list | providers_get _ => GET
      | providers_create _ => POST
      | providers_patch _ _ => PATCH
      | providers_delete _ => DELETE
      end
  | Policies c => match c with
      | policies_list | policies_get _ => GET
      | policies_create _ | policies_addVersion _ _ => POST
      | policies_delete _ => DELETE
      end
  | PolicySets c => match c with
      | policySets_list | policySets_get _ | policySets_listVersions _ | policySets_activationStatus _ _ _ => GET
      | policySets_create _ _ | policySets_addVersion _ _ | policySets_simulate _ _ _ | policySets_activate _ _ => POST
      | policySets_delete _ => DELETE
      end
  | Grants c => match c with
      | grants_list _ | grants_get _ => GET
      | grants_create _ => POST
      | grants_revoke _ => DELETE
      end
  | SubjectIssuers c => match c with
      | subjectIssuers_list | subjectIssuers_get _ => GET
      | subjectIssuers_create _ => POST
      | subjectIssuers_patch _ _ => PATCH
      | subjectIssuers_delete _ => DELETE
      end
  | ProviderConnections _ => POST
  | Workloads c => match c with
      | workloads_list | workloads_get _ | workloads_getSecret _ => GET
      | workloads_create _ | workloads_rotateSecret _ => POST
      | workloads_update _ _ => PUT
      | workloads_delete _ => DELETE
      end
  | Sessions c => match c with
      | sessions_suspend _ | sessions_resume _ => PATCH
      | sessions_terminate _ => DELETE
      | _ => GET
      end
  | Records c => match c with subjects_revoke _ => POST | _ => GET end
  | Approvals c => match c with approvals_list | approvals_get _ => GET | _ => POST end
  | Delegations c => match c with delegations_revoke _ => PATCH | _ => GET end
  end.

Definition zone_segments (z : string) (r : base * list string) : list string :=
  match r.1 with api => "v1" :: "zones" :: z :: r.2 | coordinator => "zones" :: z :: r.2 end.

(** ** What a location is for

    Read off the method and the resolved path of a request, as the services route them,
    and not off the operation the client was asked for. *)

Definition COLLECTIONS : list (string * string) :=
  [("applications", "app"); ("resources", "resource"); ("providers", "identity-provider"); ("policies", "policy");
   ("policy-sets", "policy-set"); ("grants", "grant"); ("workloads", "workload")].

Definition LISTINGS : list (string * string) :=
  (COLLECTIONS ++ [("sessions", "session"); ("authority-records", "authority-record"); ("audit", "audit"); ("admin-audit", "audit");
                   ("approvals", "approval")])%list.

(** The actions on a single object that a command may use. *)
Definition ACTIONS : list (string * string) :=
  [("applications", "rotate-secret"); ("workloads", "rotate-secret"); ("policies", "versions"); ("policy-sets", "versions");
   ("policy-sets", "simulate"); ("policy-sets", "activate")].

(** The catalog noun of a location of a zone; [None] for the locations no command may use. *)
Definition noun_at (b : base) (m : http_method) (segs : list string) : option string :=
  match b, segs with
  | api, [kind] => ordered_get kind LISTINGS
  | api, [kind; _] => ordered_get kind COLLECTIONS
  | api, [kind; _; action] =>
      if bool_decide ((kind, action) ∈ ACTIONS) && bool_decide (m = POST) then ordered_get kind COLLECTIONS else None
  | api, [kind; by_; _; action] =>
      if bool_decide (kind = "audit") && bool_decide (by_ = "by-request") && bool_decide (action = "explain") then Some "explain" else None
  | coordinator, [kind; _] =>
      if bool_decide (kind = "agents") then Some "session" else if bool_decide (kind = "delegations") then Some "delegation" else None
  | coordinator, [kind; x; y] =>
      if bool_decide (kind = "agents") then if bool_decide (y ∈ ["children"; "suspend"; "resume"]) then Some "session" else None
      else if bool_decide (kind = "delegations") && (bool_decide (x ∈ ["inbound"; "outbound"]) || bool_decide (y ∈ ["traverse"; "revoke"]))
      then Some "delegation" else None
  | _, _ => None
  end.

(** How a request at a location changes the zone; [None] for a read. *)
Definition mutation_at (m : http_method) (segs : list string) : option Catalog.ScopeVerb :=
  match m with
  | GET => None
  | DELETE => Some Catalog.delete
  | _ =>
      match segs with
      | [_; _; action] =>
          if bool_decide (action = "simulate") then None
          else if bool_decide (action = "revoke") then Some Catalog.delete
          else Some Catalog.write
      | _ => Some Catalog.write
      end
  end.

(** The location of the check of a policy's text, which belongs to no zone. *)
Definition VALIDATE : list string := ["v1"; "policies"; "validate"].

(** A request inside zone [z] at a location of noun [n], changing it by [change] if at all. *)
Definition located (z n : string) (change : option Catalog.ScopeVerb) (r : http_request) : Prop :=
  exists b rest, locate r.(req_path) = zone_segments z (b, rest) /\ noun_at b r.(req_method) rest = Some n
    /\ mutation_at r.(req_method) rest = change.

(** A request the caller is entitled to, by where it arrives. *)
Definition permitted (p : Principal) (r : http_request) : Prop :=
  (locate r.(req_path) = VALIDATE /\ r.(req_method) = POST /\ Catalog.control_scope "policy" Catalog.read ∈ p.(p_scopes))
  \/ exists z n change, p.(p_zoneId) = Some z /\ located z n change r
     /\ match change with
        | Some verb => Catalog.control_scope n verb ∈ p.(p_scopes)
        | None => exists verb, Catalog.control_scope n verb ∈ p.(p_scopes)
        end.

(** The identifiers an operation is asked for are plain path segments. *)
Definition plain_call (c : admin_call) : bool :=
  match c with
  | Zones (zones_get id) | Zones (zones_dcrStatus id) | Zones (zones_patch id _) | Zones (zones_delete id) => plain id
  | In z zc => plain z && forallb plain (route zc).2
  | _ => true
  end.

Lemma plain_In z zc : plain_call (In z zc) = true -> plain z = true /\ Forall (fun s => plain s = true) (route zc).2.
Proof.
  cbn. intros [Hz Hr]%andb_true_iff. split; [done|]. apply Forall_forall. intros s Hs. rewrite forallb_forall in Hr. apply Hr.
  by apply list_elem_of_In.
Qed.

(** The route of an operation a command may use is a location of the same noun and effect. *)
Lemma route_noun zc n :
  noun zc = Some n -> noun_at (route zc).1 (method_of zc) (route zc).2 = Some n /\ mutation_at (method_of zc) (route zc).2 = mutation zc.
Proof.
  destruct zc as [c|c|c|c|c|c|c|c|c|c|c|c|c]; destruct c; cbn [noun]; intros Hn; try done; injection Hn as <-; try (split; reflexivity);
    (split; [|reflexivity]); unfold noun_at; cbn [route fst snd]; rewrite orb_comm; reflexivity.
Qed.

(** Where the request goes: the service's own address and the path. *)
Definition sent_to (this : AdminClientOptions) (m : http_method) (b : base) (path : string) (r : http_request) : Prop :=
  r.(req_method) = m /\ r.(req_path) = path
  /\ match b with api => r.(req_origin) = this.(apiUrl) | coordinator => this.(coordinatorUrl) = Some r.(req_origin) end.

Section client.
Context `{Runtime}.
Variable this : AdminClientOptions.

Lemma always_attempts (P : http_request -> Prop) r opts n : P r -> always P (attempts this r opts n).
Proof.
  intros HP. induction n as [|n IH]; (split; [done|]); intros [res ab]; cbn [result aborted];
    (destruct res as [status st text|message]; [|by destruct ab]);
    (destruct (negb _); [by destruct (shouldRetry status)|]); (destruct (_ || _); [done|]); (destruct (JSON_parse text); [done|]);
    by destruct ab.
Qed.

Lemma always_request path opts : always (sent_to this opts.(method) opts.(target) path) (request this path opts).
Proof.
  apply always_bind_ends; [apply always_lift|]. destruct (build_request this path opts) as [x|r] eqn:Hb; [done|]. cbn.
  apply always_attempts. unfold build_request in Hb. unfold sent_to. destruct opts.(target); cbn in Hb.
  - repeat case_bool_decide; try done. by simplify_eq.
  - destruct (coordinatorUrl this), (coordinatorToken this); repeat case_bool_decide; try done. by simplify_eq.
Qed.

Lemma always_pages path label q pages cursor items : always (sent_to this GET api path) (list_pages this path label q pages cursor items).
Proof.
  revert cursor items. induction pages as [|n IH]; intros cursor items; [done|]. cbn [list_pages].
  apply always_bind; [apply (always_request _ (read_query _))|]. intros v. apply always_bind; [apply always_lift|].
  intros page. destruct page; try done. case_match; [apply IH|done].
Qed.

Lemma always_page path message opts : always (sent_to this opts.(method) opts.(target) path) (list_page this path message opts).
Proof.
  apply always_bind; [apply always_request|]. intros v. apply always_bind; [apply always_lift|]. by intros [].
Qed.

(** A single request. *)
Ltac one_request :=
  first [ apply (always_request _ read_) | apply (always_request _ (send _ _)) | apply (always_request _ remove)
        | apply (always_request _ (read_query _)) | apply (always_request _ (on_coordinator read_))
        | apply (always_request _ (on_coordinator (send _ _))) | apply (always_request _ (on_coordinator remove)) ].

(** Every request of an operation goes to its route, with its method. *)
Lemma perform_route z c : always (sent_to this (method_of c) (route c).1 (path_of (zone_segments z (route c)))) (perform this (In z c)).
Proof.
  destruct c as [c|c|c|c|c|c|c|c|c|c|c|c|c]; destruct c; cbn [perform perform_zone];
    first [ apply always_pages | one_request
          | apply always_map, (always_page _ _ (read_query _))
          | apply always_bind; [first [one_request | apply (always_page _ _ (on_coordinator (read_query _)))]|];
            intros a; repeat (apply always_bind; [apply always_lift|]; intros ?); first [apply always_lift | done] ].
Qed.

(** With plain identifiers, every request the client makes for an operation in a
    zone arrives at that operation's route in that zone, of the service it is meant
    for, with the operation's method. *)
Lemma plain_arrives z c :
  plain_call (In z c) = true ->
  always (fun r => r.(req_method) = method_of c /\ locate r.(req_path) = zone_segments z (route c)) (perform this (In z c)).
Proof.
  intros [Hz Hr]%plain_In. eapply always_impl; [|apply perform_route]. intros r (Hm & Hp & _). split; [done|]. rewrite Hp. apply locate_plain.
  - unfold zone_segments. by destruct (route c).1.
  - unfold zone_segments. destruct (route c).1; repeat (apply Forall_cons; split; [done|]); done.
Qed.

(** So it arrives at a location of its noun and effect. *)
Lemma plain_located z c n :
  plain_call (In z c) = true -> noun c = Some n -> always (located z n (mutation c)) (perform this (In z c)).
Proof.
  intros Hp Hn. eapply always_impl; [|by apply plain_arrives]. intros r [Hm Hl]. destruct (route_noun c n Hn) as [Hat Hmut].
  exists (route c).1, (route c).2. rewrite Hm. split_and!; [|done|done]. rewrite Hl. by destruct (route c).
Qed.

Lemma validate_arrives content :
  always (fun r => r.(req_method) = POST /\ locate r.(req_path) = VALIDATE) (perform this (PoliciesValidate content)).
Proof.
  eapply always_impl; [|apply (always_request _ (send POST _))]. intros r (Hm & Hp & _). split; [done|]. rewrite Hp. by vm_compute.
Qed.

Lemma entitled_permitted p c : entitled p c -> plain_call c = true -> always (permitted p) (perform this c).
Proof.
  destruct c as [c|z zc|content|o]; cbn [entitled]; [done| | |done].
  - intros [Hz He] Hp. destruct (noun zc) as [n|] eqn:Hn; [|done]. eapply always_impl; [|by apply plain_located].
    intros r Hl. right. exists z, n, (mutation zc). by split_and!.
  - intros He _. eapply always_impl; [|apply validate_arrives]. intros r [Hm Hl]. by left.
Qed.


(** An identifier with a slash reaches a route no command offers: reading the
    application [k/client-secret], for which [control:app:read] is enough, is the very
    request that reveals the client secret of the application [k]. *)
Theorem get_reveals_secret z k :
  perform this (In z (Applications (applications_get (k +:+ "/client-secret"))))
  = perform this (In z (Applications (applications_getClientSecret k))).
Proof. reflexivity. Qed.

(** An identifier with parent segments leaves the zone: reading the application
    [../../<other>/applications/<k>] in one zone arrives at the application [k] of the
    other zone. *)
Theorem get_crosses_zones z other k :
  plain z = true -> plain other = true -> plain k = true ->
  always (fun r => locate r.(req_path) = zone_segments other (route (Applications (applications_get k))))
    (perform this (In z (Applications (applications_get ("../../" +:+ other +:+ "/applications/" +:+ k))))).
Proof.
  intros Hz Ho Hk. eapply always_impl; [|apply perform_route]. intros r (_ & Hp & _). rewrite Hp.
  change (path_of _) with (path_of ["v1"; "zones"; z; "applications"; ".."; ".."; other; "applications"; k]).
  rewrite locate_segs by (first [done | repeat (apply Forall_cons; split); try apply Forall_nil_2; try done; by apply plain_seg]).
  cbn [resolve]. destruct (plain_not_dot z Hz) as [-> ->].
  change (double_dot "v1") with false. change (double_dot "zones") with false. change (double_dot "applications") with false.
  change (double_dot "..") with true. change (single_dot "v1") with false. change (single_dot "zones") with false.
  change (single_dot "applications") with false. cbn iota. cbn [tail].
  destruct (plain_not_dot other Ho) as [-> ->], (plain_not_dot k Hk) as [-> ->]. reflexivity.
Qed.
End client.
End Paths.
