(* ===== verification/ControlKeys.v ===== *)
(** * Control keys stay out of reach

    A control key is an application that carries the [control:invoke] trait.  No request
    of the Control surface changes, rotates or deletes an application unless the same
    request has read that application before and found that it is not a control key:
    the guard of the application commands and the two checks of the reconciler. *)

From Stdlib Require Import Ascii.
From S2P Require Import Prelude.
From S2P Require Import Json.
From S2P Require Import JsonText.
From S2P Require Import Prog.
From S2P Require Import AdminClient.
From S2P Require Import Catalog.
From S2P Require Import Reconcile.
From S2P Require Import Dispatch.
From S2P Require Import DispatchFacts.
From S2P Require Import Paths.
Local Open Scope string_scope.

Module ControlKeys.
Import AdminClient.
Import Reconcile.
Import Dispatch.
Import DispatchFacts.
Import Paths.

(** The application, by zone and identifier, a call changes. *)
Definition changes (c : admin_call) : option (string * string) :=
  match c with
  | In z (Applications (applications_patch id _)) | In z (Applications (applications_rotateSecret id))
  | In z (Applications (applications_delete id)) => Some (z, id)
  | _ => None
  end.

(** The applications an answer shows to be ordinary. *)
Definition learn (c : admin_call) (r : exn + json) : list (string * string) :=
  match c, r with
  | In z (Applications (applications_get id)), inr app => if is_control_key app then [] else [(z, id)]
  | In z (Applications applications_list), inr (JArr items) =>
      (fun item => (z, live_id item)) <$> filter (fun item => is_control_key item = false) items
  | _, _ => []
  end.

(** A change is allowed of an application known to be ordinary. *)
Definition change_allowed (known : list (string * string)) (c : admin_call) : Prop :=
  forall zi, changes c = Some zi -> zi ∈ known.

Definition learning (known : list (string * string)) (c : admin_call) (r : exn + json) : list (string * string) :=
  (learn c r ++ known)%list.

Notation guarded := (monitored change_allowed learning).

Definition anything {A : Type} (known : list (string * string)) (r : exn + A) : Prop := True.

Lemma learning_le known c r : known ⊆ learning known c r.
Proof. unfold learning. set_solver. Qed.

Lemma guarded_impl {A : Type} (Q Q' : list (string * string) -> exn + A -> Prop) known m :
  (forall known' r, known ⊆ known' -> Q known' r -> Q' known' r) -> guarded Q known m -> guarded Q' known m.
Proof. apply (monitored_impl (⊆)). apply learning_le. Qed.

(** A program that changes no application. *)
Lemma guarded_always {A : Type} known (m : admin A) : always (fun c => changes c = None) m -> guarded anything known m.
Proof.
  intros Hm. eapply guarded_impl; [|apply (monitored_always (⊆))]; [done|apply learning_le|].
  eapply always_impl; [|exact Hm]. intros c Hc known' zi. by rewrite Hc.
Qed.

Lemma guarded_call (Q : list (string * string) -> exn + json -> Prop) known c :
  (forall zi, changes c = Some zi -> zi ∈ known) -> (forall r, Q (learn c r ++ known)%list r) -> guarded Q known (call c).
Proof. intros Hc HQ. split; [done|]. intros r. apply monitored_lift, HQ. Qed.

(** ** The application commands *)

Section commands.
Context `{Runtime}.
Variable p : Principal.
Variable flags : FlagMap.

Lemma guarded_command c : (forall z id, changes (In z (Applications (c id))) = Some (z, id)) -> guarded anything [] (Dispatch.guarded p flags c).
Proof.
  intros Hc. unfold Dispatch.guarded, with_zone, with_flag, assertNotControlKey.
  apply monitored_bind, monitored_lift. destruct (requireZone p) as [x|z]; [done|].
  apply monitored_bind, monitored_lift. destruct (mustStr flags "id") as [x|id]; [done|].
  apply monitored_bind, monitored_bind, guarded_call; [done|]. intros [x|app]; [done|].
  apply monitored_bind, monitored_lift. destruct (access "traits" app) as [x|v]; [done|].
  cbn [learn]. destruct (is_control_key app); [done|]. cbn [monitored].
  apply guarded_call; [|done]. intros zi. rewrite Hc. intros [= <-]. set_solver.
Qed.
End commands.

(** ** Reconciliation *)

Section reconcile.
Context `{Runtime}.
Variable sha256Hex : string -> string.
Variable z : string.

(** The ordinary applications of the listings are known. *)
Definition listed (known : list (string * string)) (listings : list (string * Listing)) : Prop :=
  forall items item, ordered_get "application" listings = Some (inr items) -> item ∈ items ->
  is_control_key item = false -> (z, live_id item) ∈ known.

(** The index only holds listed objects. *)
Definition indexed (listings : list (string * Listing)) (index : list (string * list (string * json))) : Prop :=
  forall kind identity live, find_live index kind identity = Some live ->
  exists items, ordered_get kind listings = Some (inr items) /\ live ∈ items.

Lemma listed_more known known' listings : known ⊆ known' -> listed known listings -> listed known' listings.
Proof. unfold listed. intros Hk Hl items item Hi Hin Hc. apply Hk. eauto. Qed.

Lemma guarded_list_kind kind known :
  guarded (fun known' r => known ⊆ known' /\ match r with
    | inr (inr items) => kind = "application" -> forall item, item ∈ items -> is_control_key item = false -> (z, live_id item) ∈ known'
    | _ => True end) known (list_kind z kind).
Proof.
  unfold list_kind. destruct (ADAPTERS kind) as [k| |] eqn:Hk; [|by split|by split].
  apply ADAPTERS_Own in Hk as ->. apply monitored_try, guarded_call; [by destruct k|].
  intros [x|[]]; cbn [monitored]; (split; [set_solver|]); try done.
  destruct k; try done. intros _ item Hin Hc. apply elem_of_app. left. cbn. apply list_elem_of_fmap. exists item. split; [done|].
  by apply list_elem_of_filter.
Qed.

Lemma guarded_list_kinds kinds known :
  guarded (fun known' r => known ⊆ known' /\ match r with inr ls => listed known' ls | inl _ => True end) known (list_kinds z kinds).
Proof.
  revert known. induction kinds as [|kind kinds IH]; intros known; cbn [list_kinds]; [by split|].
  apply monitored_bind. eapply guarded_impl; [|apply guarded_list_kind]. intros known1 [x|l] Hsub1 [_ Hl]; [done|].
  apply monitored_bind. eapply guarded_impl; [|apply IH]. intros known2 [x|ls] Hsub2 [_ Hls]; [by split; [set_solver|]|].
  split; [set_solver|]. intros items item. cbn [ordered_get]. case_bool_decide as Hkind.
  - intros [= ->] Hin Hc. apply Hsub2. by apply Hl.
  - intros Hg Hin Hc. by eapply Hls.
Qed.

Lemma index_items_elem k items m m' identity live :
  index_items k items m = inr m' -> ordered_get identity m' = Some live -> ordered_get identity m = Some live \/ live ∈ items.
Proof.
  revert m. induction items as [|item items IH]; intros m Hi Hg; cbn [index_items] in Hi; [simplify_eq; by left|].
  destruct (identityOf k item) as [x|i]; [done|]. destruct (IH _ Hi Hg) as [Hm|Hm]; [|right; by right].
  rewrite ordered_get_set in Hm. case_bool_decide; [|by left]. simplify_eq. right. left.
Qed.

Lemma build_index_indexed listings index : NoDup listings.*1 -> build_index listings = inr index -> indexed listings index.
Proof.
  revert index. induction listings as [|[kind l] listings IH]; intros index Hnd Hb kd identity live; cbn [build_index] in Hb.
  { by simplify_eq. }
  apply NoDup_cons in Hnd as [Hkind Hnd].
  assert (forall ix, build_index listings = inr ix -> find_live ix kd identity = Some live ->
    exists items, ordered_get kd ((kind, l) :: listings) = Some (inr items) /\ live ∈ items) as Hrest.
  { intros ix Hix Hf. destruct (IH ix Hnd Hix _ _ _ Hf) as (items & Hi & Hin). exists items. split; [|done].
    cbn [ordered_get]. rewrite bool_decide_eq_false_2; [done|]. intros <-. apply Hkind.
    apply ordered_get_elem in Hi. apply list_elem_of_fmap. by exists (kind, inr items). }
  destruct l as [x|items]; [by apply Hrest|]. destruct (ADAPTERS kind) as [k| |]; [|by apply Hrest|by apply Hrest].
  destruct (index_items k items []) as [x|m] eqn:Hm; [done|]. destruct (build_index listings) as [x|ix] eqn:Hix; [done|].
  simplify_eq. intros Hf. unfold find_live in Hf. cbn [ordered_get] in Hf. destruct (decide (kind = kd)) as [<-|Hk].
  - rewrite bool_decide_eq_true_2 in Hf by done. destruct (ordered_get identity m) as [live'|] eqn:Hg; [|done].
    destruct (truthy live'); [|done]. injection Hf as ->. exists items. cbn [ordered_get]. rewrite bool_decide_eq_true_2 by done.
    split; [done|]. by destruct (index_items_elem _ _ _ _ _ _ Hm Hg).
  - rewrite bool_decide_eq_false_2 in Hf by done. exact (Hrest ix eq_refl Hf).
Qed.

Lemma list_kinds_keys kinds : ends (fun r => match r with inr ls => ls.*1 = kinds | inl _ => True end) (list_kinds z kinds).
Proof.
  induction kinds as [|kind kinds IH]; cbn [list_kinds]; [done|].
  apply ends_bind. eapply ends_impl; [|apply ends_true]. intros [x|l] _; [done|].
  apply ends_bind. eapply ends_impl; [|apply IH]. intros [x|ls] Hls; [done|]. cbn. by rewrite Hls.
Qed.

Notation same_known := (extends (⊆)).

Lemma same_refl {A : Type} (known : list (string * string)) (r : exn + A) : same_known known known r.
Proof. by intros x. Qed.

#[local] Hint Resolve same_refl : core.

Lemma guarded_same {A : Type} known (m : admin A) : always (fun c => changes c = None) m -> guarded (same_known known) known m.
Proof.
  intros Hm. eapply guarded_impl; [|apply guarded_always, Hm]. by intros known' r Hsub _.
Qed.

Lemma unchanging_create k v : always (fun c => changes c = None) (create z k v).
Proof. destruct k; cbn [create]; repeat handler_step; done. Qed.

Lemma unchanging_drift k live v : always (fun c => changes c = None) (drift sha256Hex z k live v).
Proof. destruct k; cbn [drift]; repeat handler_step; done. Qed.

Lemma guarded_update k live v known :
  (k = application -> is_control_key live = false -> (z, live_id live) ∈ known) ->
  guarded (same_known known) known (update z k live v).
Proof.
  intros Hl. destruct k; cbn [update]; try (apply guarded_same; repeat handler_step; done).
  destruct (is_control_key live) eqn:Hc; [by cbn|]. apply guarded_call; [|intros r; unfold extends; set_solver].
  cbn. intros zi [= <-]. by apply Hl.
Qed.

Lemma guarded_object dry index listings o known :
  listed known listings -> indexed listings index ->
  guarded (same_known known) known (reconcile_object sha256Hex z dry index listings o).
Proof.
  intros Hl Hi. unfold reconcile_object. destruct (ADAPTERS _) as [k| |] eqn:Ha; [|by cbn|by cbn].
  destruct (identityOfSpec k _) as [x|identity]; [by cbn|].
  apply monitored_try. eapply (guarded_impl (same_known known)); [by intros known' [x|out] _ Hs|].
  unfold converge.
  assert (guarded (same_known known) known
    match find_live index o.(kind) identity with
      | None =>
          if dry then Ret (plan o.(kind) identity Create None JUndefined false)
          else made ← create z k o.(spec); id ← lift (access "id" made); Ret (plan o.(kind) identity Create None id true)
      | Some live =>
          d ← drift sha256Hex z k live o.(spec);
          match d with
          | [] => Ret (plan o.(kind) identity Unchanged None (json_get "id" live) true)
          | _ =>
              if dry then Ret (plan o.(kind) identity Update (Some d) (json_get "id" live) false)
              else changed ← update z k live o.(spec); id ← lift (access "id" changed);
                   Ret (plan o.(kind) identity Update (Some d) (nullish id (json_get "id" live)) true)
          end
      end) as Hbody; [|destruct (ordered_get _ listings) as [[x|items]|]; [by cbn|done|done]].
  destruct (find_live _ _ _) as [live|] eqn:Hf.
  - apply monitored_bind. eapply guarded_impl; [|apply guarded_same, unchanging_drift].
    intros known1 [x|d] Hs1 _; [exact Hs1|]. case_match; [exact Hs1|]. destruct dry; [exact Hs1|].
    apply monitored_bind. eapply guarded_impl; [|apply guarded_update].
    + intros known2 [x|v] Hs2 _; [unfold extends; set_solver|]. apply monitored_bind, monitored_lift. case_match; unfold extends; set_solver.
    + intros -> Hc. apply Hs1. apply ADAPTERS_Own in Ha. destruct (Hi _ _ _ Hf) as (items & Hg & Hin). rewrite Ha in Hg. by eapply Hl.
  - destruct dry; [by cbn|]. apply monitored_bind. eapply guarded_impl; [|apply guarded_same, unchanging_create].
    intros known1 [x|v] Hs1 _; [exact Hs1|]. apply monitored_bind, monitored_lift. by case_match.
Qed.

Lemma guarded_objects dry index listings os seen known :
  listed known listings -> indexed listings index ->
  guarded (same_known known) known (reconcile_objects sha256Hex z dry index listings seen os).
Proof.
  intros Hl Hi. revert seen known Hl. induction os as [|o os IH]; intros seen known Hl; cbn [reconcile_objects]; [by cbn|].
  apply monitored_bind. eapply guarded_impl; [|by apply guarded_object]. intros known1 [x|[out identity]] Hs1 _; [exact Hs1|].
  apply monitored_bind. eapply guarded_impl; [|apply IH; by eapply listed_more]. intros known2 [x|[outs seen']] Hs2 _; unfold extends; cbn; set_solver.
Qed.

Lemma guarded_prune_items dry k declared items known :
  (k = application -> forall item, item ∈ items -> is_control_key item = false -> (z, live_id item) ∈ known) ->
  guarded (same_known known) known (prune_items z dry (kind_name k) k declared items).
Proof.
  revert known. induction items as [|item items IH]; intros known Hl; cbn [prune_items]; [by cbn|].
  apply monitored_bind, monitored_lift. destruct (identityOf k item) as [x|identity]; [by cbn|].
  assert (forall known', known ⊆ known' -> guarded (same_known known) known' (prune_items z dry (kind_name k) k declared items)) as Hrest.
  { intros known' Hs. eapply guarded_impl; [|apply IH].
    - intros known2 r Hs2 _. unfold extends. set_solver.
    - intros Hk item' Hin Hc. apply Hs, Hl; [done|by right|done]. }
  destruct (_ || _) eqn:Hp; [by apply Hrest|]. apply orb_false_iff in Hp as [_ Hp].
  apply monitored_bind. eapply (guarded_impl (same_known known)).
  - intros known1 [x|out] Hs1 _; [exact Hs1|]. apply monitored_bind. eapply guarded_impl; [|by apply Hrest]. by intros known2 [x|outs] Hs2 Hq.
  - destruct dry; [by cbn|]. apply monitored_try, guarded_call.
    + intros zi Hzi. destruct k; cbn in Hzi; try done. injection Hzi as <-. apply Hl; [done|left|done].
    + intros [x|v]; cbn [monitored]; unfold extends; set_solver.
Qed.

Lemma guarded_prune_kinds dry listings seen known :
  listed known listings -> guarded (same_known known) known (prune_kinds z dry listings seen).
Proof.
  revert known. induction seen as [|[kind declared] seen IH]; intros known Hl; cbn [prune_kinds]; [by cbn|].
  apply monitored_bind. eapply (guarded_impl (same_known known)).
  - intros known1 [x|outs] Hs1 _; [exact Hs1|]. apply monitored_bind. eapply guarded_impl; [|apply IH; by eapply listed_more].
    intros known2 [x|more] Hs2 _; unfold extends; cbn; set_solver.
  - destruct (ordered_get kind listings) as [[x|items]|] eqn:Hg; [by cbn| |by cbn].
    destruct (ADAPTERS kind) as [k| |] eqn:Hk; [|by cbn|by cbn]. apply ADAPTERS_Own in Hk as ->.
    apply guarded_prune_items. intros -> item Hin Hc. by eapply Hl.
Qed.

Lemma guarded_reconcile doc authorize opts : guarded anything [] (reconcile sha256Hex z doc authorize opts).
Proof.
  unfold reconcile. do 3 (apply monitored_bind, monitored_lift; case_match; [done|]).
  apply monitored_bind. eapply guarded_impl; [|apply monitored_ends; [apply (guarded_list_kinds (declared_kinds doc) [])|apply list_kinds_keys]].
  intros known1 [x|listings] _ [[_ Hl] Hkeys]; [done|]. apply monitored_bind, monitored_lift.
  destruct (build_index listings) as [x|index] eqn:Hix; [done|].
  assert (indexed listings index) as Hi.
  { apply build_index_indexed; [|done]. rewrite Hkeys. apply NoDup_distinct. }
  apply monitored_bind. eapply guarded_impl; [|by apply guarded_objects]. intros known2 [x|[outs seen]] Hs2 _; [done|].
  apply monitored_bind. eapply (guarded_impl anything); [by intros known3 [x|pruned] _ _|].
  destruct opts.(prune); [|exact I]. eapply (guarded_impl (same_known known2)); [done|]. apply guarded_prune_kinds. by eapply listed_more.
Qed.
End reconcile.

(** ** Dispatch *)

(** A router whose every subcommand is guarded. *)
Lemma guarded_router r sub : Forall (fun kh => guarded anything [] kh.2) r -> guarded anything [] (bySubcommand r sub).
Proof.
  intros Hr. unfold bySubcommand. destruct (ordered_get sub r) as [h|] eqn:Hg; [|by apply monitored_lift].
  apply ordered_get_elem in Hg. rewrite Forall_forall in Hr. exact (Hr _ Hg).
Qed.

Lemma guarded_fmap {A B : Type} (f : A -> B) (m : admin A) : guarded anything [] m -> guarded anything [] (f <$> m).
Proof. intros Hm. apply monitored_bind. eapply guarded_impl; [|exact Hm]. by intros known [x|a] _ _. Qed.

Lemma guarded_table `{Runtime} sha256Hex p flags :
  Forall (fun dh => forall sub, guarded anything [] (handle_with dh.2 sub)) (handler_table sha256Hex p flags).
Proof.
  assert (forall dry, guarded anything [] (state_command sha256Hex p flags dry)) as Hstate.
  { intros dry. unfold state_command, with_zone. do 3 (apply monitored_bind, monitored_lift; case_match; [done|]).
    apply guarded_fmap, guarded_reconcile. }
  repeat (apply Forall_cons; split); try apply Forall_nil_2; intros sub; cbn [fst snd handle_with];
    try (apply guarded_router; repeat (apply Forall_cons; split); try apply Forall_nil_2; cbn [fst snd];
         try (by apply guarded_command); try apply Hstate;
         first [ done | apply guarded_always; repeat case_match; repeat handler_step; done ]).
  - unfold ensureHandler, ensure, with_zone. do 2 (apply monitored_bind, monitored_lift; case_match; [done|]).
    apply guarded_fmap. apply monitored_bind, monitored_lift. case_match; [done|]. apply guarded_reconcile.
  - apply guarded_always. unfold explainHandler. repeat handler_step. done.
Qed.

Lemma dispatch_guarded `{Runtime} sha256Hex req p : guarded anything [] (dispatch sha256Hex req p).
Proof.
  unfold dispatch. apply monitored_bind, monitored_lift. destruct (accept_request req p) as [x|desc] eqn:Ha; [done|].
  destruct (accept_spec _ _ _ Ha) as (Hin & _).
  destruct (table_find sha256Hex p (default_to [] req.(req_flags)) desc Hin) as (h & Ht & ->).
  apply monitored_try. pose proof (guarded_table sha256Hex p (default_to [] req.(req_flags))) as Hg. rewrite Forall_forall in Hg.
  eapply guarded_impl; [|exact (Hg _ Ht req.(req_subcommand))]. by intros known [x|v] _ _.
Qed.

(** ** On the wire *)

(** The application a request changes, by the location where it arrives. *)
Definition changed_at (m : http_method) (segs : list string) : option (string * string) :=
  match segs with
  | [v1; zones; z; kind; id] =>
      if bool_decide ([v1; zones; kind] = ["v1"; "zones"; "applications"]) && bool_decide (m ∈ [PATCH; PUT; DELETE]) then Some (z, id) else None
  | [v1; zones; z; kind; id; action] =>
      if bool_decide ([v1; zones; kind; action] = ["v1"; "zones"; "applications"; "rotate-secret"]) && bool_decide (m <> GET)
      then Some (z, id) else None
  | _ => None
  end.

Definition changed_by (r : http_request) : option (string * string) := changed_at r.(req_method) (locate r.(req_path)).

Lemma route_changes z zc : changed_at (method_of zc) (zone_segments z (route zc)) = changes (In z zc).
Proof. destruct zc as [c|c|c|c|c|c|c|c|c|c|c|c|c]; destruct c; reflexivity. Qed.

Section wire.
Context `{Runtime}.
Variable this : AdminClientOptions.

(** An operation with plain identifiers changes the application it names, or none. *)
Lemma plain_changes c : plain_call c = true -> always (fun r => changed_by r = changes c) (perform this c).
Proof.
  intros Hp. destruct c as [c|z zc|content|o].
  - assert (forall id, plain id = true -> Forall (fun s => plain s = true) ["v1"; "zones"; id]
      /\ Forall (fun s => plain s = true) ["v1"; "zones"; id; "dcr-status"]) as Hids by (by intros id Hid; split; repeat constructor).
    destruct c as [|id|id|v|id v|id]; cbn [perform perform_zones plain_call] in *;
      (eapply always_impl; [|first [apply always_pages | apply (always_request _ _ read_) | apply (always_request _ _ (send _ _)) | apply (always_request _ _ remove)]]);
      intros r (Hm & Hl & _); unfold changed_by; rewrite Hm, Hl; try reflexivity;
      [ change ("/v1/zones/" +:+ id) with (path_of ["v1"; "zones"; id])
      | change ("/v1/zones/" +:+ id +:+ "/dcr-status") with (path_of ["v1"; "zones"; id; "dcr-status"])
      | change ("/v1/zones/" +:+ id) with (path_of ["v1"; "zones"; id])
      | change ("/v1/zones/" +:+ id) with (path_of ["v1"; "zones"; id]) ];
      (rewrite locate_plain; [reflexivity|done|by apply Hids]).
  - eapply always_impl; [|by apply plain_arrives]. intros r [Hm Hl]. unfold changed_by. rewrite Hm, Hl. apply route_changes.
  - eapply always_impl; [|apply validate_arrives]. intros r [Hm Hl]. unfold changed_by. by rewrite Hm, Hl.
  - cbn [perform]. unfold perform_templates. apply always_bind.
    + eapply always_impl; [|apply (always_request _ _ read_)]. intros r (Hm & Hl & _). unfold changed_by. by rewrite Hm, Hl.
    + intros v. destruct o as [id|]; [|done]. destruct v; try done. by case_match.
Qed.

(** A call is allowed when the application it names, and with plain identifiers the one
    its requests change where they arrive, is known to be ordinary. *)
Definition wire_allowed (known : list (string * string)) (c : admin_call) : Prop :=
  change_allowed known c
  /\ (plain_call c = true -> always (fun r => forall zi, changed_by r = Some zi -> zi ∈ known) (perform this c)).

(** C29. No request of the Control surface asks the admin client to patch, rotate or delete
    an application unless the same request has before read that application, by its
    identifier or in the listing of its zone, and the answer showed no [control:invoke]
    trait.  For every operation whose identifiers are plain path segments (letters,
    digits, hyphens, underscores) this holds of the requests on the wire: whatever kind of
    object the operation is for, none of them arrives at an application in order to
    change it unless that application was found ordinary before.  An identifier such as
    [../applications/<k>] is outside the claim ([delete_crosses_kinds]). *)
Theorem control_keys_out_of_reach sha256Hex req p :
  monitored wire_allowed learning anything [] (dispatch sha256Hex req p).
Proof.
  eapply monitored_weaken; [|apply dispatch_guarded]. intros known c Hc. split; [done|]. intros Hp.
  eapply always_impl; [|by apply plain_changes]. intros r Hr zi. rewrite Hr. apply Hc.
Qed.

(** An identifier with parent segments leaves its kind: deleting the resource
    [../applications/<k>] arrives at the application [k], which nobody has read. *)
Lemma delete_crosses_kinds z k :
  plain z = true -> plain k = true ->
  always (fun r => changed_by r = Some (z, k)) (perform this (In z (Resources (resources_delete ("../applications/" +:+ k))))).
Proof.
  intros Hz Hk. eapply always_impl; [|apply perform_route]. intros r (Hm & Hp & _). unfold changed_by. rewrite Hm, Hp.
  change (path_of _) with (path_of ["v1"; "zones"; z; "resources"; ".."; "applications"; k]).
  rewrite locate_segs by (first [done | repeat (apply Forall_cons; split); try apply Forall_nil_2; try done; by apply plain_seg]).
  cbn [resolve]. destruct (plain_not_dot z Hz) as [-> ->]. change (double_dot "v1") with false. change (double_dot "zones") with false.
  change (double_dot "resources") with false. change (double_dot "..") with true. change (double_dot "applications") with false.
  change (single_dot "v1") with false. change (single_dot "zones") with false. change (single_dot "resources") with false.
  change (single_dot "applications") with false. cbn iota. cbn [tail]. destruct (plain_not_dot k Hk) as [-> ->]. reflexivity.
Qed.
End wire.
End ControlKeys.
