(* ===== verification/ReconcileFacts.v ===== *)
(** * What a reconciliation does

    The report accounts for every declared object; pruning spares what the document
    declares; an object that stores what was sent for its spec shows no drift, and a
    zone without drift is left alone. *)

From Stdlib Require Import Ascii.
From S2P Require Import Prelude.
From S2P Require Import Json.
From S2P Require Import JsonText.
From S2P Require Import Prog.
From S2P Require Import AdminClient.
From S2P Require Import Catalog.
From S2P Require Import Reconcile.
From S2P Require Import DispatchFacts.
From S2P Require Import ControlKeys.
Local Open Scope string_scope.

Module ReconcileFacts.
Import AdminClient.
Import Reconcile.
Import DispatchFacts.
Import ControlKeys.

(** ** The report *)

(** The outcome of a declared object: of its kind, under its identity when the spec has
    one, a failure or one of the three actions; a plan applies nothing. *)
Definition accounts (dry : bool) (o : DesiredObject) (out : ObjectOutcome) : Prop :=
  out.(o_kind) = o.(kind) /\ out.(o_action) <> Prune
  /\ (forall k, ADAPTERS o.(kind) = Own k -> forall i, identityOfSpec k o.(spec) = inr i -> out.(o_identity) = i)
  /\ (is_Some out.(o_error) -> out.(o_applied) = false)
  /\ (out.(o_error) = None -> out.(o_applied) = negb dry || bool_decide (out.(o_action) = Unchanged)).

Section reconcile.
Context `{Runtime}.
Variable sha256Hex : string -> string.
Variable z : string.

Definition returns {A : Type} (Q : A -> Prop) (r : exn + A) : Prop := match r with inr a => Q a | inl _ => True end.

Lemma accounts_failure dry o k identity x :
  ADAPTERS o.(kind) = Own k -> identityOfSpec k o.(spec) = inr identity ->
  accounts dry o (failure o.(kind) identity Unchanged JUndefined x).
Proof. intros Hk Hi. unfold accounts, failure; cbn. split_and!; try done. intros k' Hk' i Hi'. assert (k' = k) as -> by congruence. congruence. Qed.

Lemma accounts_plan dry o k identity action d id :
  ADAPTERS o.(kind) = Own k -> identityOfSpec k o.(spec) = inr identity -> action <> Prune ->
  accounts dry o (plan o.(kind) identity action d id (negb dry || bool_decide (action = Unchanged))).
Proof. intros Hk Hi Ha. unfold accounts, plan; cbn. split_and!; try done. intros k' Hk' i Hi'. assert (k' = k) as -> by congruence. congruence. Qed.

Lemma object_accounts dry index listings o :
  ends (returns (fun oi => accounts dry o oi.1)) (reconcile_object sha256Hex z dry index listings o).
Proof.
  unfold reconcile_object. destruct (ADAPTERS o.(kind)) as [k| |] eqn:Hk; cbn.
  2, 3: unfold accounts; cbn; rewrite Hk; by split_and!.
  destruct (identityOfSpec k o.(spec)) as [x|identity] eqn:Hi.
  { cbn. unfold accounts; cbn. split_and!; try done. intros k' Hk' i Hi'. assert (k' = k) as -> by congruence. congruence. }
  apply ends_try. eapply (ends_impl (returns (accounts dry o))).
  { intros [x|out] Ho; cbn; [by eapply accounts_failure|done]. }
  unfold converge.
  assert (forall a d id b, (negb dry || bool_decide (a = Unchanged)) = b -> a <> Prune ->
    accounts dry o (plan o.(kind) identity a d id b)) as Hplan by (intros a d id b <- Ha; by eapply accounts_plan).
  assert (forall A (m : admin A) (f : A -> admin ObjectOutcome), (forall a, ends (returns (accounts dry o)) (f a)) ->
    ends (returns (accounts dry o)) (m ≫= f)) as Hbind.
  { intros A m f Hf. apply ends_bind. eapply ends_impl; [|apply ends_true]. by intros [x|a] _. }
  destruct (ordered_get _ listings) as [[x|items]|]; [done| |];
    (destruct (find_live _ _ _) as [live|];
     [ apply Hbind; intros d; case_match; [by apply Hplan; [apply orb_true_r|]|]; destruct dry; [by apply Hplan|];
       do 2 (apply Hbind; intros ?); by apply Hplan
     | destruct dry; [by apply Hplan|]; do 2 (apply Hbind; intros ?); by apply Hplan ]).
Qed.

Lemma objects_account dry index listings os seen :
  ends (returns (fun r => Forall2 (accounts dry) os r.1)) (reconcile_objects sha256Hex z dry index listings seen os).
Proof.
  revert seen. induction os as [|o os IH]; intros seen; cbn [reconcile_objects]; [by constructor|].
  apply ends_bind. eapply ends_impl; [|apply object_accounts]. intros [x|[out i]] Ho; [done|].
  apply ends_bind. eapply ends_impl; [|apply IH]. intros [x|[outs seen']] Hos; [done|]. cbn in *. by constructor.
Qed.

Definition pruning (dry : bool) (out : ObjectOutcome) : Prop :=
  out.(o_action) = Prune /\ (dry = true -> out.(o_applied) = false) /\ (is_Some out.(o_error) -> out.(o_applied) = false).

Lemma items_pruned dry kind k declared items :
  ends (returns (Forall (pruning dry))) (prune_items z dry kind k declared items).
Proof.
  induction items as [|item items IH]; cbn [prune_items]; [by constructor|].
  apply ends_bind. eapply ends_impl; [|apply ends_true]. intros [x|identity] _; [done|].
  case_match; [done|]. apply ends_bind. eapply (ends_impl (returns (pruning dry))).
  - intros [x|out] Ho; [done|]. apply ends_bind. eapply ends_impl; [|apply IH]. intros [x|outs] Hos; [done|]. cbn in *. by constructor.
  - destruct dry; [cbn; unfold pruning; by split_and!; [| |intros []]|]. apply ends_try. eapply ends_impl; [|apply ends_true].
    intros [x|v] _; cbn; unfold pruning; split_and!; try done. by intros [].
Qed.

Lemma kinds_pruned dry listings seen : ends (returns (Forall (pruning dry))) (prune_kinds z dry listings seen).
Proof.
  induction seen as [|[kind declared] seen IH]; cbn [prune_kinds]; [by constructor|].
  apply ends_bind. eapply (ends_impl (returns (Forall (pruning dry)))).
  - intros [x|outs] Ho; [done|]. apply ends_bind. eapply ends_impl; [|apply IH]. intros [x|more] Hm; [done|]. cbn in *.
    by apply Forall_app.
  - destruct (ordered_get kind listings) as [[x|items]|].
    + cbn. apply Forall_singleton. unfold pruning; cbn. by split_and!.
    + destruct (ADAPTERS kind); [apply items_pruned|by constructor|by constructor].
    + by constructor.
Qed.

(** What a report says of a document. *)
Definition faithful_report (doc : DesiredState) (opts : ReconcileOptions) (r : ReconcileReport) : Prop :=
  exists outs pruned,
    r.(r_outcomes) = (outs ++ pruned)%list
    /\ Forall2 (accounts opts.(dryRun)) doc.(objects) outs
    /\ Forall (pruning opts.(dryRun)) pruned /\ (opts.(prune) = false -> pruned = [])
    /\ (r.(r_ok) = true <-> Forall (fun o => o.(o_error) = None) r.(r_outcomes))
    /\ (r.(r_drift) = false <-> Forall (fun o => o.(o_action) = Unchanged) r.(r_outcomes)).

Lemma report_summary zoneId dry pr outs :
  let r := buildReport zoneId dry pr outs in
  (r.(r_ok) = true <-> Forall (fun o => o.(o_error) = None) outs)
  /\ (r.(r_drift) = false <-> Forall (fun o => o.(o_action) = Unchanged) outs).
Proof.
  cbn. split.
  - unfold count. rewrite Z.eqb_eq. rewrite Forall_forall. split.
    + intros Hl o Ho. destruct (o_error o) as [e|] eqn:He; [|done]. exfalso.
      assert (o ∈ filter (fun o => has_error o = true) outs) as Hin.
      { apply list_elem_of_filter. split; [|done]. unfold has_error. apply bool_decide_eq_true_2. by rewrite He. }
      destruct (filter _ outs) as [|o' l]; [by apply not_elem_of_nil in Hin|]. cbn in Hl. lia.
    + intros Hall. destruct (filter _ outs) as [|o l] eqn:Hf; [done|]. exfalso.
      assert (o ∈ filter (fun o => has_error o = true) outs) as Hin by (rewrite Hf; left).
      apply list_elem_of_filter in Hin as [Hb Ho]. unfold has_error in Hb. bool_props. rewrite (Hall _ Ho) in Hb. by destruct Hb.
  - rewrite negb_false_iff, forallb_forall, Forall_forall. unfold has_action. setoid_rewrite list_elem_of_In.
    split; intros Hall o Ho; [specialize (Hall o Ho); by bool_props|by apply bool_decide_eq_true_2, Hall].
Qed.

(** A reconciliation that returns accounts for the document: one outcome per declared
    object, in order, under its kind and identity, marked applied exactly when the
    object is now as declared; then, only when pruning was asked for, the pruned
    objects; [ok] exactly when no outcome has an error, [drift] exactly when something
    had to change. *)
Theorem report_accounts doc authorize opts :
  ends (returns (faithful_report doc opts)) (reconcile sha256Hex z doc authorize opts).
Proof.
  unfold reconcile. do 3 (apply ends_bind; eapply ends_impl; [|apply ends_true]; intros [x|[]] _; [done|]).
  apply ends_bind. eapply ends_impl; [|apply ends_true]. intros [x|listings] _; [done|].
  apply ends_bind. eapply ends_impl; [|apply ends_true]. intros [x|index] _; [done|].
  apply ends_bind. eapply ends_impl; [|apply objects_account]. intros [x|[outs seen]] Ho; [done|].
  apply ends_bind. eapply (ends_impl (returns (fun pruned => Forall (pruning opts.(dryRun)) pruned /\ (opts.(prune) = false -> pruned = [])))).
  - intros [x|pruned] Hp; [done|]. cbn in *. exists outs, pruned. destruct Hp. split_and!; try done; apply report_summary.
  - destruct opts.(prune); [|by split; [constructor|]]. eapply ends_impl; [|apply kinds_pruned]. by intros [x|l] Hl.
Qed.
End reconcile.
End ReconcileFacts.

(** * Pruning spares what is declared

    A reconciliation deletes an object only when pruning was asked for, outside a plan,
    and the object was listed in the same run, is not protected and has an identity no
    object of its kind in the document has. *)

Module PruneFacts.
Import AdminClient.
Import Reconcile.
Import DispatchFacts.
Import ReconcileFacts.

(** The kind and identifier a call deletes, and the kind it lists. *)
Definition deletes (c : admin_call) : option (ObjectKind * string) :=
  match c with
  | In _ (Applications (applications_delete id)) => Some (application, id)
  | In _ (Providers (providers_delete id)) => Some (identity_provider, id)
  | In _ (Resources (resources_delete id)) => Some (resource, id)
  | In _ (Policies (policies_delete id)) => Some (policy, id)
  | In _ (PolicySets (policySets_delete id)) => Some (policy_set, id)
  | _ => None
  end.

Definition lists (c : admin_call) : option ObjectKind :=
  match c with
  | In _ (Applications applications_list) => Some application
  | In _ (Providers providers_list) => Some identity_provider
  | In _ (Resources resources_list) => Some resource
  | In _ (Policies policies_list) => Some policy
  | In _ (PolicySets policySets_list) => Some policy_set
  | _ => None
  end.

(** The objects an answer lists. *)
Definition shown (known : list (ObjectKind * json)) (c : admin_call) (r : exn + json) : list (ObjectKind * json) :=
  match lists c, r with
  | Some k, inr (JArr items) => (pair k <$> items) ++ known
  | _, _ => known
  end.

Lemma shown_le known c r : known ⊆ shown known c r.
Proof. unfold shown. destruct (lists c); [|done]. destruct r as [|[]]; try done. set_solver. Qed.

Section prune.
Context `{Runtime}.
Variable sha256Hex : string -> string.
Variable z : string.
Variable doc : DesiredState.
Variable opts : ReconcileOptions.

(** The object may be deleted: listed, not protected, not declared. *)
Definition undeclared (known : list (ObjectKind * json)) (k : ObjectKind) (id : string) : Prop :=
  opts.(prune) = true /\ opts.(dryRun) = false /\
  exists item i, (k, item) ∈ known /\ live_id item = id /\ protectedFromPrune k item = false /\ identityOf k item = inr i
    /\ forall o, o ∈ doc.(objects) -> o.(kind) = kind_name k -> identityOfSpec k o.(spec) <> inr i.

Definition delete_allowed (known : list (ObjectKind * json)) (c : admin_call) : Prop :=
  forall k id, deletes c = Some (k, id) -> undeclared known k id.

Notation spares := (monitored delete_allowed shown).

Lemma spares_impl {A : Type} (Q Q' : list (ObjectKind * json) -> exn + A -> Prop) known m :
  (forall known' r, known ⊆ known' -> Q known' r -> Q' known' r) -> spares Q known m -> spares Q' known m.
Proof. apply (monitored_impl (⊆)). apply shown_le. Qed.

Lemma spares_always {A : Type} known (m : admin A) :
  always (fun c => deletes c = None) m -> spares (extends (⊆) known) known m.
Proof.
  intros Hm. apply (monitored_always (⊆)); [apply shown_le|]. eapply always_impl; [|exact Hm]. intros c Hc known' k id. by rewrite Hc.
Qed.

Lemma shown_refl {A : Type} (known : list (ObjectKind * json)) (r : exn + A) : extends (⊆) known known r.
Proof. by intros x. Qed.

#[local] Hint Resolve shown_refl : core.

(** Every listed object of a kind is known. *)
Definition all_shown (known : list (ObjectKind * json)) (listings : list (string * Listing)) : Prop :=
  forall k items item, ordered_get (kind_name k) listings = Some (inr items) -> item ∈ items -> (k, item) ∈ known.

Lemma all_shown_more known known' listings : known ⊆ known' -> all_shown known listings -> all_shown known' listings.
Proof. unfold all_shown. intros Hk Hl k items item Hi Hin. apply Hk. eauto. Qed.

Lemma kind_name_inj k k' : kind_name k = kind_name k' -> k = k'.
Proof. by destruct k, k'. Qed.

Lemma spares_list_kinds kinds known :
  spares (fun known' r => known ⊆ known' /\ returns (all_shown known') r) known (list_kinds z kinds).
Proof.
  revert known. induction kinds as [|kind kinds IH]; intros known; cbn [list_kinds]; [by split|].
  assert (spares (fun known' r => known ⊆ known' /\ match r with
     | inr (inr items) => forall k item, kind = kind_name k -> item ∈ items -> (k, item) ∈ known'
     | _ => True end) known (list_kind z kind)) as Hone.
  { unfold list_kind. destruct (ADAPTERS kind) as [k| |] eqn:Hk; [|by split|by split]. apply ADAPTERS_Own in Hk as ->.
    apply monitored_try. split; [by destruct k|]. intros r. apply monitored_lift.
    assert (shown known (In z (list_call k)) r = match r with inr (JArr items) => (pair k <$> items) ++ known | _ => known end)%list as ->
      by (by destruct k).
    destruct r as [x|[]]; cbn [monitored]; (split; [set_solver|]); try done.
    intros k' item Hk' Hin. apply kind_name_inj in Hk' as <-. apply elem_of_app. left. apply list_elem_of_fmap. by exists item. }
  apply monitored_bind. eapply spares_impl; [|exact Hone]. intros known1 [x|l] Hs1 [_ Hl]; [done|].
  apply monitored_bind. eapply spares_impl; [|apply IH]. intros known2 [x|ls] Hs2 [_ Hls]; [by split; [set_solver|]|].
  split; [set_solver|]. intros k items item. cbn [ordered_get]. case_bool_decide as Hkind.
  - intros [= ->] Hin. by apply Hs2, Hl.
  - intros Hg Hin. by eapply Hls.
Qed.

(** The identities of the objects seen so far are recorded under their kind. *)
Definition recorded (os : list DesiredObject) (seen : Seen) : Prop :=
  NoDup seen.*1 /\
  forall o k i, o ∈ os -> ADAPTERS o.(kind) = Own k -> identityOfSpec k o.(spec) = inr i ->
  exists l, ordered_get o.(kind) seen = Some l /\ i ∈ l.

Lemma object_identity dry index listings o :
  ends (returns (fun oi => forall k i, ADAPTERS o.(kind) = Own k -> identityOfSpec k o.(spec) = inr i -> oi.2 = Some i))
    (reconcile_object sha256Hex z dry index listings o).
Proof.
  unfold reconcile_object. destruct (ADAPTERS o.(kind)) as [k| |] eqn:Hk; [|done|done].
  destruct (identityOfSpec k o.(spec)) as [x|identity] eqn:Hi.
  { cbn. intros k' i [= <-] Hi'. congruence. }
  apply ends_try. eapply ends_impl; [|apply ends_true]. intros [x|out] _; cbn; intros k' i [= <-] Hi'; congruence.
Qed.

Lemma see_recorded o identity done seen :
  recorded done seen -> (forall k i, ADAPTERS o.(kind) = Own k -> identityOfSpec k o.(spec) = inr i -> identity = Some i) ->
  recorded (done ++ [o]) (see o.(kind) identity seen).
Proof.
  intros [Hnd Hr] Hid. split.
  - destruct identity as [i|]; cbn [see]; [|done]. by apply ordered_set_keys.
  - intros o' k i Ho Hk Hi. apply elem_of_app in Ho as [Ho|Ho%list_elem_of_singleton].
    + destruct (Hr o' k i Ho Hk Hi) as (l & Hl & Hin). destruct identity as [j|]; cbn [see]; [|eauto]. rewrite ordered_get_set.
      case_bool_decide as He; [|eauto]. exists (j :: default_to [] (ordered_get o.(kind) seen)). split; [done|].
      rewrite He, Hl. cbn. by right.
    + subst o'. rewrite (Hid k i Hk Hi). cbn [see]. rewrite ordered_get_set, bool_decide_eq_true_2 by done. eexists. split; [done|]. left.
Qed.

Lemma objects_recorded dry index listings os done seen :
  recorded done seen ->
  ends (returns (fun r => recorded (done ++ os) r.2)) (reconcile_objects sha256Hex z dry index listings seen os).
Proof.
  revert done seen. induction os as [|o os IH]; intros done seen Hr; cbn [reconcile_objects]; [by rewrite app_nil_r|].
  apply ends_bind. eapply ends_impl; [|apply object_identity]. intros [x|[out identity]] Ho; [exact I|].
  apply ends_bind. eapply ends_impl; [|apply (IH (done ++ [o])%list), see_recorded; [exact Hr|exact Ho]].
  intros [x|[outs seen']] Hos; [exact I|]. cbn in *. by rewrite <-app_assoc in Hos.
Qed.

Lemma spares_prune_items k declared items known :
  opts.(prune) = true -> (forall item, item ∈ items -> (k, item) ∈ known) ->
  (forall o i, o ∈ doc.(objects) -> o.(kind) = kind_name k -> identityOfSpec k o.(spec) = inr i -> i ∈ declared) ->
  spares (extends (⊆) known) known (prune_items z opts.(dryRun) (kind_name k) k declared items).
Proof.
  intros Hp Hl Hd. revert known Hl. induction items as [|item items IH]; intros known Hl; cbn [prune_items]; [by cbn|].
  apply monitored_bind, monitored_lift. destruct (identityOf k item) as [x|identity] eqn:Hi; [by cbn|].
  assert (forall known', known ⊆ known' -> spares (extends (⊆) known) known' (prune_items z opts.(dryRun) (kind_name k) k declared items)) as Hrest.
  { intros known' Hs. eapply spares_impl; [|apply IH]; [intros known2 r Hs2 _; unfold extends; set_solver|].
    intros item' Hin. apply Hs, Hl. by right. }
  destruct (_ || _) eqn:Hprot; [by apply Hrest|]. apply orb_false_iff in Hprot as [Hdecl Hprot]. bool_props.
  apply monitored_bind. eapply (spares_impl (extends (⊆) known)).
  - intros known1 [x|out] Hs1 _; [exact Hs1|]. apply monitored_bind. eapply spares_impl; [|by apply Hrest].
    by intros known2 [x|outs] Hs2 Hq.
  - destruct opts.(dryRun) eqn:Hdry; [by cbn|]. apply monitored_try. split.
    + intros k' id Hdel. assert (k' = k /\ id = live_id item) as [-> ->] by (by destruct k; cbn in Hdel; simplify_eq).
      split_and!; [done|done|]. exists item, identity. split_and!; try done; [apply Hl; left|].
      intros o Ho Hk Hspec. by eapply Hdecl, Hd.
    + intros r. apply monitored_lift. assert (shown known (In z (delete_call k (js_String (json_get "id" item)))) r = known) as ->
        by (by destruct k). destruct r; by cbn.
Qed.

Lemma spares_prune_kinds listings seen known :
  opts.(prune) = true -> all_shown known listings ->
  (forall kd declared k, (kd, declared) ∈ seen -> kd = kind_name k ->
     forall o i, o ∈ doc.(objects) -> o.(kind) = kd -> identityOfSpec k o.(spec) = inr i -> i ∈ declared) ->
  spares (extends (⊆) known) known (prune_kinds z opts.(dryRun) listings seen).
Proof.
  intros Hp. revert known. induction seen as [|[kd declared] seen IH]; intros known Hl Hd; cbn [prune_kinds]; [by cbn|].
  apply monitored_bind. eapply (spares_impl (extends (⊆) known)).
  - intros known1 [x|outs] Hs1 _; [exact Hs1|]. apply monitored_bind.
    eapply spares_impl; [|apply IH; [by eapply all_shown_more|intros; eapply Hd; eauto; by right]].
    intros known2 [x|more] Hs2 _; unfold extends; cbn; set_solver.
  - destruct (ordered_get kd listings) as [[x|items]|] eqn:Hg; [by cbn| |by cbn].
    destruct (ADAPTERS kd) as [k| |] eqn:Hk; [|by cbn|by cbn]. apply ADAPTERS_Own in Hk as ->.
    apply spares_prune_items; [done| |].
    + intros item Hin. by eapply Hl.
    + intros o i Ho Hok Hi. eapply (Hd (kind_name k)); eauto. left.
Qed.

Lemma no_delete_covers kinds dry : covers (fun c => deletes c = None) z kinds dry false.
Proof.
  split; [| |done].
  - intros k c _ _ Hm. by destruct c as [[]|[]|[]|[]|[]| | | | | | | |].
  - intros k c _ _ _ Hm. by destruct c as [[]|[]|[]|[]|[]| | | | | | | |].
Qed.

(** Whatever the services answer, a reconciliation deletes an object only when
    pruning is on and it is not a plan, and only an object that it has listed, that is
    not protected (no control key), and whose identity no object of its kind in the
    document declares. *)
Theorem prune_spares_declared authorize :
  spares (fun _ _ => True) [] (reconcile sha256Hex z doc authorize opts).
Proof.
  unfold reconcile. do 3 (apply monitored_bind, monitored_lift; case_match; [done|]).
  apply monitored_bind. eapply spares_impl; [|apply (spares_list_kinds (declared_kinds doc) [])].
  intros known1 [x|listings] _ [_ Hl]; [done|]. apply monitored_bind, monitored_lift.
  destruct (build_index listings) as [x|index] eqn:Hix; [done|].
  apply monitored_bind. eapply spares_impl; [|apply monitored_ends;
    [apply spares_always; eapply (always_objects sha256Hex _ z (declared_kinds doc) opts.(dryRun) false)
    |apply (objects_recorded opts.(dryRun) index listings doc.(objects) [] [])]].
  - intros known2 [x|[outs seen]] Hs2 [_ Hrec]; [done|]. destruct Hrec as [Hnd Hr]. apply monitored_bind.
    destruct opts.(prune) eqn:Hp; [|done]. eapply spares_impl; [|apply spares_prune_kinds; [done|by eapply all_shown_more|]].
    { by intros known3 [x|pruned]. }
    intros kd declared k Hin Hk o i Ho Hok Hi. subst kd.
    destruct (Hr o k i Ho) as (l & Hl' & Hil); [rewrite Hok; by destruct k|done|]. rewrite Hok in Hl'. cbn in Hnd.
    apply ordered_get_elem in Hl'. by rewrite (ordered_get_nodup _ _ _ _ Hnd Hin Hl').
  - apply no_delete_covers.
  - intros o Ho. unfold declared_kinds. apply elem_of_distinct, list_elem_of_fmap. eauto.
  - split; [constructor|]. intros o k i Ho. by apply not_elem_of_nil in Ho.
Qed.
End prune.
End PruneFacts.

(** * Convergence of an object

    When the services store the fields that were sent for a spec, the object shows no
    drift against that spec, so a second run leaves it alone.  Policies are compared by
    digest and policy sets only by existence. *)

Module Converge.
Import AdminClient.
Import Reconcile.

(** The fields a call sends for an application, a provider or a resource. *)
Definition sent_fields (c : admin_call) : option (list (string * json)) :=
  match c with
  | In _ (Applications (applications_create (JObj fields))) | In _ (Applications (applications_patch _ (JObj fields)))
  | In _ (Providers (providers_create (JObj fields))) | In _ (Providers (providers_patch _ (JObj fields)))
  | In _ (Resources (resources_create (JObj fields))) | In _ (Resources (resources_patch _ (JObj fields))) => Some fields
  | _ => None
  end.

(** The object holds every field that was sent; an undefined field is not sent. *)
Definition stores (fields : list (string * json)) (live : json) : Prop :=
  forall f x, (f, x) ∈ fields -> x <> JUndefined -> json_get f live = x.

(** A value the comparison can recognise again: [===] never holds of two objects. *)
Definition comparable (x : json) : Prop :=
  match x with JUndefined | JArr _ | JObj _ => False | _ => True end.

Lemma sameSet_refl x : sameSet x x = true.
Proof.
  unfold sameSet. rewrite bool_decide_eq_true_2 by done. cbn. apply forallb_forall. intros i Hi.
  apply bool_decide_eq_true_2. by apply list_elem_of_In.
Qed.

Lemma strict_eq_refl x : comparable x -> strict_eq x x = true.
Proof.
  destruct x; cbn; try done; intros _; [apply eqb_reflx|apply Z.eqb_refl|by apply bool_decide_eq_true_2|by apply bool_decide_eq_true_2].
Qed.

Lemma push_false field d : push false field d = d.
Proof. done. Qed.

(** The optional fields of a resource spec can be compared and its operations read. *)
Definition settable `{Runtime} (v : json) : Prop :=
  Forall (fun f => has_key f v = true -> comparable (json_get f v)) ["upstream_url"; "credential_provider_id"; "operation_enforcement"]
  /\ (has_key "operations" v = true -> json_get "operations" v <> JUndefined /\ exists keys, operationKeys (json_get "operations" v) = inr keys).

Section converge.
Context `{Runtime}.
Variable sha256Hex : string -> string.
Variable z : string.

Lemma traits_stored live' v :
  (array_or_undefined (json_get "traits" v) <> JUndefined -> json_get "traits" live' = array_or_undefined (json_get "traits" v)) ->
  application_drift live' v = [].
Proof.
  intros Ht. unfold application_drift. destruct (json_get "traits" v) as [| | | | | | |xs|] eqn:Hv; try done. cbn in *.
  rewrite Ht, sameSet_refl by done. done.
Qed.

(** A field that is sent as a string when the spec has one. *)
Lemma string_stored f live' v :
  (optStr v f <> JUndefined -> json_get f live' = optStr v f) -> differs f live' v = false.
Proof.
  unfold optStr, differs. destruct (json_get f v); try done. intros Hs. rewrite Hs by done. by rewrite strict_eq_refl.
Qed.

Lemma given_stored f live' v :
  (has_key f v = true -> comparable (json_get f v)) ->
  (given f v <> JUndefined -> json_get f live' = given f v) ->
  has_key f v && negb (strict_eq (json_get f live') (nullish (json_get f v) JNull)) = false
  /\ has_key f v && negb (strict_eq (json_get f live') (json_get f v)) = false.
Proof.
  unfold given. intros Hc Hs. destruct (has_key f v); [|done]. specialize (Hc eq_refl). cbn.
  assert (json_get f live' = json_get f v) as -> by (apply Hs; by destruct (json_get f v)).
  rewrite strict_eq_refl by done. split; [|done]. by destruct (json_get f v); try done; cbn [nullish]; rewrite strict_eq_refl.
Qed.

Lemma operations_stored live' v keys :
  has_key "operations" v = true -> json_get "operations" live' = json_get "operations" v -> operationKeys (json_get "operations" v) = inr keys ->
  sameOperations (json_get "operations" live') (json_get "operations" v) = inr true.
Proof. intros _ -> Hk. unfold sameOperations. rewrite Hk. by rewrite sameSet_refl. Qed.

(** The fields the resource comparison looks at. *)
Lemma resource_stored live' v fields :
  settable v -> stores fields live' -> (forall f, f ∈ resource_fields v -> f ∈ fields) ->
  ("name", optStr v "name") ∈ fields ->
  (exists s, ("scopes", s) ∈ fields /\ (isArray (json_get "scopes" v) = true -> s = json_get "scopes" v)) ->
  resource_drift live' v = inr [].
Proof.
  intros [Hset Hops] Hst Hres Hname (sv & Hsc & Hsv). unfold resource_drift. rewrite !Forall_cons in Hset. destruct Hset as (Hu & Hp & He & _).
  assert (forall f, (f, given f v) ∈ resource_fields v -> given f v <> JUndefined -> json_get f live' = given f v) as Hg.
  { intros f Hf Hne. by apply Hst; [apply Hres|]. }
  rewrite (string_stored "name") by (intros Hne; by apply Hst).
  assert (isArray (json_get "scopes" v) && negb (sameSet (json_get "scopes" live') (json_get "scopes" v)) = false) as ->.
  { destruct (isArray (json_get "scopes" v)) eqn:Ha; [|done]. rewrite (Hst _ _ Hsc); rewrite (Hsv eq_refl); [by rewrite sameSet_refl|].
    by destruct (json_get "scopes" v). }
  destruct (given_stored "upstream_url" live' v Hu) as [-> _]; [apply Hg; unfold resource_fields; set_solver|].
  destruct (given_stored "credential_provider_id" live' v Hp) as [-> _]; [apply Hg; unfold resource_fields; set_solver|].
  destruct (given_stored "operation_enforcement" live' v He) as [_ He']; [apply Hg; unfold resource_fields; set_solver|].
  rewrite !push_false. destruct (has_key "operations" v) eqn:Ho.
  - destruct (Hops eq_refl) as [Hne [keys Hk]]. rewrite (operations_stored live' v keys Ho); [|  |done].
    + cbn [negb]. rewrite push_false. by rewrite He'.
    + assert (given "operations" v = json_get "operations" v) as Hgo by (unfold given; by rewrite Ho).
      rewrite <-Hgo. apply Hg; [unfold resource_fields; set_solver|]. by rewrite Hgo.
  - cbn [negb]. rewrite push_false. by rewrite He'.
Qed.

Lemma provider_stored live' v :
  (optStr v "name" <> JUndefined -> json_get "name" live' = optStr v "name") ->
  (optStr v "kind" <> JUndefined -> json_get "kind" live' = optStr v "kind") ->
  (typeof_object (json_get "config" v) = true -> json_get "config_json" live' = json_get "config" v) ->
  provider_drift live' v = [].
Proof.
  intros Hn Hk Hc. unfold provider_drift. rewrite (string_stored "name"), (string_stored "kind") by done. rewrite !push_false.
  destruct (typeof_object (json_get "config" v)) eqn:Ho; [|done]. rewrite Hc by done. by rewrite bool_decide_eq_true_2.
Qed.

(** [reqStr] of a field the spec has as a string. *)
Lemma reqStr_opt v key kd s : reqStr v key kd = inr s -> optStr v key = JStr s.
Proof. unfold reqStr, optStr. destruct (json_get key v); try done. case_bool_decide; [done|]. intros. by simplify_eq. Qed.

(** An object converges in one step: when the services hold the fields that the
    reconciler sent to create or to patch an application, an identity provider or a
    resource, the object has no drift against the same spec. *)
Theorem sent_fields_converge k live live' v c rest fields :
  (create z k v = Vis c rest \/ update z k live v = Vis c rest) ->
  sent_fields c = Some fields -> (k = resource -> settable v) -> stores fields live' ->
  drift sha256Hex z k live' v = Ret [].
Proof.
  intros Hcall Hsent Hset Hst.
  assert (forall f x, (f, x) ∈ fields -> x <> JUndefined -> json_get f live' = x) as Hf by exact Hst.
  destruct k; cbn [create update drift] in *; try specialize (Hset eq_refl).
  - destruct Hcall as [Hcall|Hcall].
    + destruct (reqStr v "name" "application"); [done|]. injection Hcall as <- _. injection Hsent as <-.
      rewrite traits_stored; [done|]. apply Hf. set_solver.
    + destruct (is_control_key live); [done|]. injection Hcall as <- _. injection Hsent as <-.
      rewrite traits_stored; [done|]. apply Hf. set_solver.
  - rewrite (provider_stored live' v); [done|..]; destruct Hcall as [Hcall|Hcall];
      try (injection Hcall as <- _; injection Hsent as <-).
    all: try (destruct (reqStr v "identifier" "identity-provider"); [done|];
              destruct (reqStr v "kind" "identity-provider") as [|kd] eqn:Hkd; [done|]; injection Hcall as <- _; injection Hsent as <-).
    + apply Hf. set_solver.
    + apply Hf. set_solver.
    + intros _. rewrite (reqStr_opt _ _ _ _ Hkd). apply Hf; [set_solver|done].
    + apply Hf. set_solver.
    + intros Ho. apply Hf; [rewrite Ho; set_solver|]. by destruct (json_get "config" v).
    + intros Ho. apply Hf; [rewrite Ho; set_solver|]. by destruct (json_get "config" v).
  - rewrite (resource_stored live' v fields); [done|done|done|..]; destruct Hcall as [Hcall|Hcall];
      try (injection Hcall as <- _; injection Hsent as <-);
      try (destruct (reqStr v "identifier" "resource"); [done|]; injection Hcall as <- _; injection Hsent as <-).
    1, 2: intros f Hin; repeat (first [exact Hin | right]).
    1, 2: left.
    + eexists. split; [right; right; left|]. by destruct (json_get "scopes" v).
    + eexists. split; [right; left|]. by destruct (json_get "scopes" v).
  - destruct Hcall as [Hcall|Hcall]; [destruct (reqStr v "name" "policy"); [done|]|];
      (destruct (reqStr v "content" "policy"); [done|]); injection Hcall as <- _; done.
  - done.
Qed.
End converge.
End Converge.
