(* ===== verification/ControlAudit.v ===== *)
(** * The per-subject token bucket

    [apps/api/src/control/ratelimit.ts].  Times are integers in the unit of the window;
    the tokens of a bucket are kept times the window, so that the refill of the code,
    elapsed time times capacity over window, is exact: the rounding of the doubles is
    left out. *)

From Stdlib Require Import Ascii.
From S2P Require Import Prelude.
From S2P Require Import Json.
From S2P Require Import Prog.
From S2P Require Import AdminClient.
From S2P Require Import Reconcile.
From S2P Require Import JsonText.
From S2P Require Import Text.
Local Open Scope string_scope.
Local Open Scope Z_scope.

Module RateLimiter.

(** [tokens] is the code's number of tokens times the window. *)
Record Bucket := { tokens : Z; last : Z }.

Record Limiter := { capacity : Z; window : Z; maxKeys : nat }.

Definition MAX_KEYS : nat := 10000.

Definition new_RateLimiter (capacity window : Z) : Limiter := {| capacity := capacity; window := window; maxKeys := MAX_KEYS |}.

Definition idle (l : Limiter) : Z := l.(window) * 10.

(** The buckets, oldest first. *)
Notation Buckets := (list (string * Bucket)).

Definition remove (k : string) (bs : Buckets) : Buckets := filter (fun kb => kb.1 <> k) bs.

Definition stale (l : Limiter) (now : Z) (kb : string * Bucket) : Prop := idle l < now - kb.2.(last).

#[global] Instance stale_dec l now kb : Decision (stale l now kb).
Proof. unfold stale. apply _. Defined.

Definition evict (l : Limiter) (now : Z) (bs : Buckets) : Buckets := filter (fun kb => ~ stale l now kb) bs.

(** [Math.min(capacity, tokens + refill)]. *)
Definition refilled (l : Limiter) (now : Z) (b : Bucket) : Z :=
  Z.min (l.(capacity) * l.(window)) (b.(tokens) + Z.max 0 (now - b.(last)) * l.(capacity)).

Definition allow (l : Limiter) (subject : string) (now : Z) (bs : Buckets) : Buckets * bool :=
  if bool_decide (subject = "") then (bs, false)
  else
    let bs := evict l now bs in
    match ordered_get subject bs with
    | None =>
        let bs := if bool_decide (l.(maxKeys) <= length bs)%nat
                  then match bs with [] => [] | (oldest, _) :: _ => remove oldest bs end else bs in
        ((bs ++ [(subject, {| tokens := (l.(capacity) - 1) * l.(window); last := now |})])%list, true)
    | Some b =>
        let t := refilled l now b in
        let ok := l.(window) <=? t in
        ((remove subject bs ++ [(subject, {| tokens := if ok then t - l.(window) else t; last := now |})])%list, ok)
    end.

(** Calls in order, each with its subject and its time. *)
Fixpoint run (l : Limiter) (bs : Buckets) (reqs : list (string * Z)) : list bool :=
  match reqs with
  | [] => []
  | (s, t) :: rest => let '(bs', ok) := allow l s t bs in ok :: run l bs' rest
  end.

(** ** The bound *)

Section bound.
Context (l : Limiter) (Hcap : 1 <= l.(capacity)) (Hwin : 0 < l.(window)).

Definition full : Z := l.(capacity) * l.(window).

(** The level of a subject's bucket at a time: an absent bucket is full. *)
Definition level (s : string) (now : Z) (bs : Buckets) : Z :=
  match ordered_get s bs with
  | None => full
  | Some b => refilled l now b
  end.

(** The buckets are those of subjects seen no later than now, each at most full. *)
Definition wf (now : Z) (bs : Buckets) : Prop :=
  NoDup bs.*1 /\ Forall (fun kb => 0 <= kb.2.(tokens) <= full /\ kb.2.(last) <= now) bs.

Lemma wf_later now now' bs : now <= now' -> wf now bs -> wf now' bs.
Proof. intros Hle [Hnd Hf]. split; [done|]. eapply Forall_impl; [exact Hf|]. intros kb. cbn. lia. Qed.

Lemma get_filter (P : string * Bucket -> Prop) `{forall x, Decision (P x)} s (bs : Buckets) :
  NoDup bs.*1 -> ordered_get s (filter P bs) = match ordered_get s bs with Some b => if decide (P (s, b)) then Some b else None | None => None end.
Proof.
  induction bs as [|[k b] bs IH]; [done|]. intros [Hk Hnd]%NoDup_cons. rewrite filter_cons. cbn [ordered_get].
  case_bool_decide as Hs; [subst k|].
  - case_decide; cbn [ordered_get].
    + by rewrite bool_decide_eq_true_2.
    + rewrite IH by done. destruct (ordered_get s bs) as [b'|] eqn:Hg; [|done]. exfalso. apply Hk.
      apply ordered_get_elem in Hg. apply list_elem_of_fmap. by exists (s, b').
  - case_decide; cbn [ordered_get]; [rewrite bool_decide_eq_false_2 by done|]; by apply IH.
Qed.

Lemma get_app s (bs : Buckets) k b :
  ordered_get s (bs ++ [(k, b)])%list = match ordered_get s bs with Some x => Some x | None => if bool_decide (k = s) then Some b else None end.
Proof. induction bs as [|[k' b'] bs IH]; [done|]. cbn [app ordered_get]. by destruct (bool_decide (k' = s)). Qed.

Lemma get_wf s now bs b : wf now bs -> ordered_get s bs = Some b -> 0 <= b.(tokens) <= full /\ b.(last) <= now.
Proof. intros [_ Hf] Hg. apply ordered_get_elem in Hg. rewrite Forall_forall in Hf. exact (Hf _ Hg). Qed.

Lemma level_bounds s now bs : wf now bs -> 0 <= level s now bs <= full.
Proof.
  intros Hw. unfold level. destruct (ordered_get s bs) as [b|] eqn:Hg; [|unfold full; nia].
  destruct (get_wf _ _ _ _ Hw Hg). unfold refilled. fold full. nia.
Qed.

(** Time refills a bucket at the rate of the limiter, never beyond full. *)
Lemma level_later s now now' bs :
  wf now bs -> now <= now' -> level s now' bs <= level s now bs + (now' - now) * l.(capacity).
Proof.
  intros Hw Hle. unfold level. destruct (ordered_get s bs) as [b|] eqn:Hg; [|nia].
  destruct (get_wf _ _ _ _ Hw Hg) as [_ Hl]. unfold refilled. nia.
Qed.

(** Evicting an idle bucket changes no level: it had refilled. *)
Lemma level_evict s now bs : wf now bs -> level s now (evict l now bs) = level s now bs.
Proof.
  intros Hw. unfold level, evict. rewrite get_filter by apply Hw.
  destruct (ordered_get s bs) as [b|] eqn:Hg; [|done]. case_decide as Hst; [done|].
  destruct (get_wf _ _ _ _ Hw Hg) as [Ht Hl]. unfold stale, idle in Hst. cbn in Hst.
  unfold refilled. fold full. assert (full <= (now - last b) * l.(capacity)) by (unfold full; nia). lia.
Qed.

Lemma Forall_kept (P Q : string * Bucket -> Prop) `{forall x, Decision (Q x)} (bs : Buckets) : Forall P bs -> Forall P (filter Q bs).
Proof. rewrite !Forall_forall. intros HP x [_ Hx]%list_elem_of_filter. by apply HP. Qed.

Lemma wf_evict now bs : wf now bs -> wf now (evict l now bs).
Proof. intros [Hnd Hf]. split; [by apply NoDup_fst_filter|]. by apply Forall_kept. Qed.

(** One call: the levels of the others are kept, an allowed call pays one token. *)
Lemma allow_level now s subject bs bs' ok :
  wf now bs -> (length bs < l.(maxKeys))%nat -> allow l s now bs = (bs', ok) ->
  wf now bs' /\ level subject now bs' + (if ok && bool_decide (s = subject) then l.(window) else 0) = level subject now bs.
Proof.
  intros Hw Hlen. unfold allow. case_bool_decide as Hs; [intros; simplify_eq; split; [done|cbn; lia]|].
  pose proof (wf_evict now bs Hw) as He. rewrite <-(level_evict subject now bs Hw).
  assert (length (evict l now bs) < l.(maxKeys))%nat as Hl.
  { eapply Nat.le_lt_trans; [|exact Hlen]. unfold evict. apply length_filter. }
  set (es := evict l now bs) in *. clearbody es. clear Hw Hlen bs. cbn zeta.
  destruct (ordered_get s es) as [b|] eqn:Hg.
  - destruct (get_wf _ _ _ _ He Hg) as [Ht Hlast]. intros [= <- <-].
    assert (0 <= refilled l now b <= full) as Hr by (unfold refilled; fold full; nia).
    split.
    + destruct He as [Hnd Hf]. split.
      * rewrite fmap_app. apply NoDup_app. split_and!; [by apply NoDup_fst_filter| |apply NoDup_singleton].
        intros k Hk Hk'. apply list_elem_of_singleton in Hk'. cbn in Hk'. subst k. apply list_elem_of_fmap in Hk as ([k b'] & -> & Hin).
        apply list_elem_of_filter in Hin as [Hne _]. by cbn in Hne.
      * apply Forall_app. split; [by apply Forall_kept|]. apply Forall_singleton. cbn. split; [|lia].
        destruct (Z.leb_spec l.(window) (refilled l now b)); lia.
    + unfold level at 1. rewrite get_app. unfold remove. rewrite get_filter by apply He.
      destruct (decide (s = subject)) as [<-|Hne].
      * rewrite Hg. rewrite decide_False by (cbn; auto). rewrite !bool_decide_eq_true_2 by done. unfold level. rewrite Hg.
        unfold refilled at 1. cbn [tokens last]. fold full. rewrite Z.sub_diag.
        destruct (Z.leb_spec l.(window) (refilled l now b)); cbn; lia.
      * unfold level. destruct (ordered_get subject es) as [b'|]; [rewrite decide_True by (cbn; auto)|rewrite bool_decide_eq_false_2 by done];
          rewrite ?(bool_decide_eq_false_2 (s = subject)) by done; rewrite andb_false_r; lia.
  - rewrite bool_decide_eq_false_2 by lia. intros [= <- <-]. split.
    + destruct He as [Hnd Hf]. split.
      * rewrite fmap_app. apply NoDup_app. split_and!; [done| |apply NoDup_singleton].
        intros k Hk Hk'. apply list_elem_of_singleton in Hk'. cbn in Hk'. subst k. apply list_elem_of_fmap in Hk as ([k b'] & -> & Hin).
        by apply (ordered_get_none _ _ b') in Hg.
      * apply Forall_app. split; [done|]. apply Forall_singleton. cbn. split; [unfold full; nia|lia].
    + unfold level at 1. rewrite get_app. destruct (decide (s = subject)) as [<-|Hne].
      * rewrite Hg. rewrite !bool_decide_eq_true_2 by done. unfold level. rewrite Hg. unfold refilled. cbn [tokens last]. fold full.
        unfold full. cbn. nia.
      * rewrite !bool_decide_eq_false_2 by done. unfold level. destruct (ordered_get subject es); cbn; lia.
Qed.

(** The calls of a subject that were allowed. *)
Definition allowed (subject : string) (reqs : list (string * Z)) (oks : list bool) : Z :=
  Z.of_nat (length (filter (fun ro => ro.1.1 = subject /\ ro.2 = true) (zip reqs oks))).

(** Times do not go back, and the limiter never has to forget a live subject. *)
Fixpoint orderly (now : Z) (bs : Buckets) (reqs : list (string * Z)) : Prop :=
  match reqs with
  | [] => True
  | (s, t) :: rest => now <= t /\ (length bs < l.(maxKeys))%nat /\ orderly t (allow l s t bs).1 rest
  end.

(** The time of the last call. *)
Fixpoint end_time (now : Z) (reqs : list (string * Z)) : Z :=
  match reqs with [] => now | (_, t) :: rest => end_time t rest end.

Lemma run_bound subject reqs now bs :
  wf now bs -> orderly now bs reqs ->
  allowed subject reqs (run l bs reqs) * l.(window) <= level subject now bs + (end_time now reqs - now) * l.(capacity).
Proof.
  revert now bs. induction reqs as [|[s t] reqs IH]; intros now bs Hw Ho.
  { pose proof (level_bounds subject now bs Hw). change (allowed subject [] (run l bs [])) with 0. cbn [end_time]. lia. }
  destruct Ho as (Hle & Hlen & Ho). cbn [run end_time]. destruct (allow l s t bs) as [bs' ok] eqn:Ha. cbn [fst] in Ho.
  pose proof (wf_later now t bs Hle Hw) as Hwt.
  destruct (allow_level t s subject bs bs' ok Hwt Hlen Ha) as [Hw' Hlev].
  specialize (IH t bs' Hw' Ho). pose proof (level_later subject now t bs Hw Hle) as Hlater.
  assert (allowed subject ((s, t) :: reqs) (ok :: run l bs' reqs)
          = (if ok && bool_decide (s = subject) then 1 else 0) + allowed subject reqs (run l bs' reqs)) as ->.
  { unfold allowed. cbn [zip zip_with]. rewrite filter_cons.
    destruct (decide (s = subject)) as [<-|Hne], ok;
      rewrite ?(bool_decide_eq_true_2 (s = s)), ?(bool_decide_eq_false_2 (s = subject)) by done;
      match goal with |- context [@decide (?P /\ ?Q) ?d] => destruct (@decide (P /\ Q) d) as [Hd|Hd] end;
      cbn [length andb fst snd] in *; (lia || naive_solver). }
  destruct (ok && bool_decide (s = subject)); nia.
Qed.
End bound.

(** Over any orderly run of calls, at most [capacity * (1 + elapsed / window)] calls
    of a subject are allowed: a burst of the capacity, then the rate of the window.
    Evicting idle buckets lets nobody exceed it; forgetting live ones, which the limiter
    does above its key limit, is what the hypothesis excludes. *)
Theorem bucket_bounds_rate l subject reqs now bs :
  1 <= l.(capacity) -> 0 < l.(window) -> wf l now bs -> orderly l now bs reqs ->
  allowed subject reqs (run l bs reqs) * l.(window) <= l.(capacity) * (l.(window) + (end_time now reqs - now)).
Proof.
  intros Hcap Hwin Hw Ho. pose proof (run_bound l Hcap Hwin subject reqs now bs Hw Ho) as Hb.
  pose proof (level_bounds l Hcap Hwin subject now bs Hw) as Hl. unfold full in Hl. nia.
Qed.
End RateLimiter.

(** * What the control surface calls

    The calls of [apps/api/src/control] to the services around it and to the memory of
    its process: Redis, the outbox table, the token issuer's key sets, the token
    verifier, the gate file, the zone authority, the clocks and the admin client.  Code
    between two awaits runs without interruption, so each such stretch that reads or
    writes shared memory (the key-set caches, the rate limiter) is one call.  A rejected
    promise is a [JsError] with its message. *)

(** The [jose] package: a key set built from the keys of a document, or what it throws. *)
Class TokenVerifier := {
  KeySet : Type;
  createLocalJWKSet : list json -> exn + KeySet
}.

Module Control.
Import AdminClient.

Section calls.
Context `{TokenVerifier}.

(** The options [verify] hands to [jwtVerify]. *)
Record VerifyOptions := {
  v_issuer : string;
  v_audience : string;
  v_algorithms : list string;
  v_requiredClaims : list string;
  v_clockTolerance : Z
}.

(** How [jwtVerify] ends: the payload, or an error, told apart by its [code]. *)
Inductive Verdict :=
| Verified (payload : json)
| KeyMiss (message : string)
| Rejected (message : string).

(** What the cache says of a zone: serve, fetch (with the entry to fall back on), or
    refuse. *)
Record ZoneEntry := { keySet : KeySet; loadedAt : Z }.

Inductive Lookup :=
| Serve (keys : KeySet)
| Refetch (fallback : option ZoneEntry)
| Unknown.

Record ZoneScopeTarget := { reserved : bool; archived : bool; operatorGoverned : bool }.

Inductive control_call :=
| GateExists (path : string)
| RedisTime
| RedisIncr (key : string)
| RedisExpire (key : string) (ttlSec : Z)
| RedisSetPxNx (key value : string) (ttlMs : Z)
| RedisXadd (stream : string) (args : list string)
| OutboxInsert (id stream payload : string) (requestId : option string)
| Uuidv7
| RandomRequestId
| DateNow
| PerformanceNow
| FetchKeys (zoneId : string)
| JwtVerify (keys : KeySet) (token : string) (options : VerifyOptions)
| CacheLookup (zoneId : string) (force : bool) (now : Z)
| CacheStore (zoneId : string) (keys : KeySet) (now : Z)
| CacheFail (zoneId : string) (now : Z)
| RateAllow (subject : string)
| OperatorSubjects
| LookupZone (zoneId : string)
| Admin (client : AdminClientOptions) (c : admin_call).

Definition control_answer (c : control_call) : Type :=
  match c with
  | GateExists _ | RateAllow _ => bool
  | RedisTime => exn + (string * string)
  | RedisIncr _ => exn + Z
  | RedisExpire _ _ | RedisXadd _ _ | OutboxInsert _ _ _ _ => exn + unit
  | RedisSetPxNx _ _ _ => exn + bool
  | Uuidv7 | RandomRequestId => string
  | DateNow | PerformanceNow => Z
  | FetchKeys _ => exn + (Z * (exn + string))
  | JwtVerify _ _ _ => Verdict
  | CacheLookup _ _ _ => Lookup
  | CacheStore _ _ _ | CacheFail _ _ => unit
  | OperatorSubjects => option (list string)
  | LookupZone _ => exn + option ZoneScopeTarget
  | Admin _ _ => exn + json
  end.

Notation control := (prog control_call control_answer exn).

(** A call, its answer the value. *)
Definition ask (c : control_call) : control (control_answer c) := Vis c Ret.

(** [await] of a promise that may reject. *)
Definition redis_time : control (string * string) := Vis RedisTime (fun r => lift r).
Definition redis_incr (key : string) : control Z := Vis (RedisIncr key) (fun r => lift r).
Definition redis_expire (key : string) (ttl : Z) : control unit := Vis (RedisExpire key ttl) (fun r => lift r).
Definition redis_set (key value : string) (ttl : Z) : control bool := Vis (RedisSetPxNx key value ttl) (fun r => lift r).
Definition xadd (stream : string) (args : list string) : control unit := Vis (RedisXadd stream args) (fun r => lift r).
Definition insert_row (id stream payload : string) (requestId : option string) : control unit :=
  Vis (OutboxInsert id stream payload requestId) (fun r => lift r).
Definition fetch_keys (zoneId : string) : control (Z * (exn + string)) := Vis (FetchKeys zoneId) (fun r => lift r).
Definition lookup_zone (zoneId : string) : control (option ZoneScopeTarget) := Vis (LookupZone zoneId) (fun r => lift r).
End calls.

Notation control := (prog control_call control_answer exn).
End Control.

(** * The audit sink of the control surface

    [apps/api/src/control/audit.ts] and [enqueueOutbox] of [apps/api/src/outbox.ts]:
    every decision becomes a signed event that reaches the audit stream or, when the
    stream refuses it, the outbox table; only when both refuse it does [emit] throw. *)

Module ControlAudit.
Import Control.

Inductive Decision := allow | deny.

#[global] Instance Decision_eq_dec : EqDecision Decision.
Proof. solve_decision. Defined.

Definition decision_text (d : Decision) : string := match d with allow => "allow" | deny => "deny" end.

Record AuditEvent := {
  e_at : Z;
  e_zoneId : option string;
  e_clientId : option string;
  e_subject : string;
  e_jti : string;
  e_command : option string;
  e_subcommand : option string;
  e_decision : Decision;
  e_reason : option string;
  e_requestId : string;
  e_idempotencyKey : option string;
  e_authorizedBy : option string
}.

Definition NUL : ascii := ascii_of_nat 0.

Definition stripNul (value : string) : string := remove_chars (fun c => bool_decide (c = NUL)) value.

(** [value || fallback] of an optional string. *)
Definition or_else (o : option string) (fallback : string) : string :=
  match o with Some s => if bool_decide (s = "") then fallback else s | None => fallback end.

Definition metadata (ev : AuditEvent) : json :=
  let text o := JStr (stripNul (default_to "" o)) in
  JObj [("subject", JStr (stripNul ev.(e_subject))); ("jti", JStr (stripNul ev.(e_jti)));
        ("client_id", text ev.(e_clientId)); ("command", text ev.(e_command));
        ("subcommand", text ev.(e_subcommand)); ("reason", text ev.(e_reason));
        ("idempotency_key", text ev.(e_idempotencyKey)); ("authorized_by", text ev.(e_authorizedBy))].

Definition event (id : string) (ev : AuditEvent) (metadata_json : json) : json :=
  JObj [("id", JStr id); ("zone_id", JStr (stripNul (or_else ev.(e_zoneId) "unknown"))); ("event_type", JStr "control.invoke");
        ("request_id", JStr ev.(e_requestId)); ("decision", JStr (decision_text ev.(e_decision)));
        ("evaluation_status", JStr "complete"); ("determining_policies_json", JArr []); ("diagnostics_json", JArr []);
        ("metadata_json", metadata_json); ("occurred_at", JStr (to_iso ev.(e_at)))].

Definition AUDIT_STREAM : string := "caracal.audit.events".

(** The sink: its key, the bound of the stream, and whether it has an outbox. *)
Record Sink := { hmacKey : option string; streamMaxLen : Z; has_outbox : bool }.

Section sink.
Context `{Runtime} `{TokenVerifier}.
Variable hmac_sha256 : string -> string -> string.

(** [buildAuditPayload], the event id already chosen. *)
Definition buildAuditPayload (id : string) (ev : AuditEvent) (key : option string) : exn + list (string * string) :=
  match JSON_parse (text (metadata ev)) with
  | None => inl (JsError (engine_message "JSON.parse"))
  | Some parsed =>
      let data := text (event id ev parsed) in
      let sig := match key with
                 | Some k => if bool_decide (k = "") then [] else [("sig", hmac_sha256 k data)]
                 | None => []
                 end in
      inr ([("id", id); ("data", data)] ++ sig)%list
  end.

(** [for (const [k, v] of Object.entries(values)) args.push(k, v)]. *)
Definition stream_args (maxLen : Z) (values : list (string * string)) : list string :=
  (["MAXLEN"; "~"; pretty maxLen; "*"] ++ (values ≫= fun kv => [kv.1; kv.2]))%list.

Definition payload_text (values : list (string * string)) : string :=
  text (JObj ((fun kv => (kv.1, JStr kv.2)) <$> values)).

Definition enqueueOutbox (stream : string) (payload : string) (requestId : option string) : control string :=
  id ← ask Uuidv7;
  _ ← insert_row id stream payload requestId;
  Ret id.

Definition AuditUnavailableError (requestId : string) : exn :=
  JsError ("audit record could not be durably recorded (request " +:+ requestId +:+ ")").

Definition emit (sink : Sink) (ev : AuditEvent) : control unit :=
  id ← (if bool_decide (ev.(e_requestId) = "") then ask RandomRequestId else Ret ev.(e_requestId));
  values ← lift (buildAuditPayload id ev sink.(hmacKey));
  try_catch (xadd AUDIT_STREAM (stream_args sink.(streamMaxLen) values)) Ret (fun _ =>
    if negb sink.(has_outbox) then Throw (AuditUnavailableError ev.(e_requestId))
    else try_catch (enqueueOutbox AUDIT_STREAM (payload_text values) (Some ev.(e_requestId)))
           (fun _ => Ret tt) (fun _ => Throw (AuditUnavailableError ev.(e_requestId)))).
End sink.
End ControlAudit.
