(* ===== verification/Replay.v ===== *)
(** * Single use of control tokens

    [apps/api/src/control/replay.ts], with [redisTimeMs] and [redisMinuteBucket] of
    [apps/api/src/redis.ts]: a token's id is claimed in Redis with [SET PX NX] for as
    long as the token lives, at most [maxTtlMs], and a token whose claim cannot be made
    is refused.  [TIME] answers decimal integers, so clocks are integers; the arithmetic
    on a fractional [exp] is exact. *)

From Stdlib Require Import Ascii.
From S2P Require Import Prelude.
From S2P Require Import Json.
From S2P Require Import Numbers.
From S2P Require Import Prog.
From S2P Require Import AdminClient.
From S2P Require Import ControlAudit.
Local Open Scope string_scope.
Local Open Scope Z_scope.

Module Replay.
Import Control.

Definition REDIS_KEY_PREFIX : string := "caracal:control:jti:".

(** [exp] as a fraction; [None] when it is absent or has no finite value. *)
Definition exp_fraction (exp : json) : option (Z * Z) :=
  match exp with
  | JNum n => Some (n, 1)
  | JDec literal =>
      match Number literal with
      | Finite neg m e =>
          let m := if neg then - m else m in
          Some (if 0 <=? e then (m * 2 ^ e, 1) else (m, 2 ^ (- e)))
      | _ => None
      end
  | _ => None
  end.

Inductive Ttl :=
| Refuse
| Claim (ttlMs : Z)
| ClaimFraction.

(** The lifetime of the claim: [min(maxTtlMs, exp * 1000 - now)]; not an integer when the
    remaining life is the smaller one and is not.  A zero [exp] is falsy. *)
Definition claim_ttl (maxTtlMs now : Z) (exp : json) : Ttl :=
  let within (ttl : Z) := if ttl <=? 0 then Refuse else Claim ttl in
  match exp_fraction exp with
  | None => within maxTtlMs
  | Some (n, d) =>
      if n =? 0 then within maxTtlMs
      else
        let delta := n * 1000 - now * d in
        if delta <=? 0 then Refuse
        else if delta <? maxTtlMs * d then if delta `mod` d =? 0 then Claim (delta / d) else ClaimFraction
        else within maxTtlMs
  end.

Section replay.
Context `{TokenVerifier}.

(** [redisTimeMs] and [RedisReplay.redisNowMs]. *)
Definition redisTimeMs : control Z :=
  '(s, us) ← redis_time;
  match as_integer (Number s), as_integer (Number us) with
  | Some seconds, Some micros => Ret (seconds * 1000 + micros / 1000)
  | _, _ => Throw (JsError "redis TIME returned an invalid response")
  end.

Definition redisMinuteBucket : control Z := now ← redisTimeMs; Ret (now / 60000).

(** [RedisReplay.mark].  Redis rejects a lifetime that is not an integer. *)
Definition mark (maxTtlMs : Z) (jti : string) (exp : json) : control bool :=
  if bool_decide (jti = "") then Ret false
  else
    now ← redisTimeMs;
    match claim_ttl maxTtlMs now exp with
    | Refuse | ClaimFraction => Ret false
    | Claim ttl => try_catch (redis_set (REDIS_KEY_PREFIX +:+ jti) "1" ttl) Ret (fun _ => Ret false)
    end.
End replay.
End Replay.

(** * A control token is used once

    [RedisReplay.mark] run against Redis, a parameter with the documented behaviour of
    [SET PX NX]: of the uses of one token id, at most one is accepted before the token
    expires, provided its life fits the window of the claims. *)

(** [SET key value PX ttl NX] at a time of the server's clock, in milliseconds, and
    whether a key is held then. *)
Class ClaimStore := {
  claims_db : Type;
  set_px_nx : Z -> string -> string -> Z -> claims_db -> claims_db * bool;
  held : Z -> string -> claims_db -> bool
}.

Class ClaimLaws `{ClaimStore} : Prop := {
  set_answers : forall t k v ttl s, 0 < ttl -> (set_px_nx t k v ttl s).2 = negb (held t k s);
  set_holds : forall t k v ttl s t', held t k s = false -> t <= t' < t + ttl -> held t' k (set_px_nx t k v ttl s).1 = true;
  set_refused : forall t k v ttl s t' k', held t k s = true -> t <= t' -> held t' k' (set_px_nx t k v ttl s).1 = held t' k' s;
  set_other : forall t k v ttl s t' k', k' <> k -> t <= t' -> held t' k' (set_px_nx t k v ttl s).1 = held t' k' s
}.

Module ReplayFacts.
Import Control.

(** What becomes of a command: answered, never executed, or executed and not answered. *)
Inductive Fate := Answered | Lost | Unanswered.

(** One use of a token: [TIME] read at [u_read] (microseconds), [SET] executed at [u_set]
    (milliseconds). *)
Record Use := { u_jti : string; u_exp : json; u_read : Z; u_set : Z; u_fate : Fate }.

Definition now_of (u : Use) : Z := u.(u_read) / 1000.

(** The clock is a safe integer, and time passes between the two commands. *)
Definition timely (u : Use) : Prop := 0 <= u.(u_read) <= MAX_SAFE_INTEGER /\ now_of u <= u.(u_set).

Lemma fraction_positive exp n d : Replay.exp_fraction exp = Some (n, d) -> 0 < d.
Proof.
  unfold Replay.exp_fraction. destruct exp as [| |?| |l| | | |]; try done; [by intros; simplify_eq|].
  destruct (Number l) as [| |neg m e]; try done. destruct (Z.leb_spec 0 e); intros; simplify_eq; [done|]. apply Z.pow_pos_nonneg; lia.
Qed.

(** A claim has a positive lifetime, at least the life left to a token that fits the
    window. *)
Lemma claim_covers maxTtlMs now exp ttl :
  Replay.claim_ttl maxTtlMs now exp = Replay.Claim ttl ->
  0 < ttl
  /\ forall n d, Replay.exp_fraction exp = Some (n, d) -> n <> 0 -> n * 1000 <= (now + maxTtlMs) * d -> n * 1000 <= (now + ttl) * d.
Proof.
  unfold Replay.claim_ttl. destruct (Replay.exp_fraction exp) as [[n d]|] eqn:He.
  2: { destruct (Z.leb_spec maxTtlMs 0); intros; simplify_eq. by split. }
  pose proof (fraction_positive _ _ _ He) as Hd. destruct (Z.eqb_spec n 0) as [->|Hn].
  { destruct (Z.leb_spec maxTtlMs 0); intros; simplify_eq. by split; [|intros n' d' [= <- <-]]. }
  destruct (Z.leb_spec (n * 1000 - now * d) 0); [done|]. destruct (Z.ltb_spec (n * 1000 - now * d) (maxTtlMs * d)).
  - destruct (Z.eqb_spec ((n * 1000 - now * d) `mod` d) 0) as [Hm|]; intros; simplify_eq.
    apply Z.div_exact in Hm; [|lia]. split; [nia|]. intros n' d' [= <- <-] _ _. nia.
  - destruct (Z.leb_spec maxTtlMs 0); intros; simplify_eq. split; [done|]. by intros n' d' [= <- <-].
Qed.

Section server.
Context `{TokenVerifier} `{ClaimStore}.

(** An answer to the calls the replay check does not make. *)
Definition other_answer (c : control_call) : control_answer c :=
  match c with
  | GateExists _ | RateAllow _ => false
  | RedisTime => inl (JsError "")
  | RedisIncr _ => inl (JsError "")
  | RedisExpire _ _ | RedisXadd _ _ | OutboxInsert _ _ _ _ => inl (JsError "")
  | RedisSetPxNx _ _ _ => inl (JsError "")
  | Uuidv7 | RandomRequestId => ""
  | DateNow | PerformanceNow => 0
  | FetchKeys _ => inl (JsError "")
  | JwtVerify _ _ _ => Rejected ""
  | CacheLookup _ _ _ => Unknown
  | CacheStore _ _ _ | CacheFail _ _ => tt
  | OperatorSubjects => None
  | LookupZone _ => inl (JsError "")
  | Admin _ _ => inl (JsError "")
  end.

(** Redis during one use. *)
Definition redis (u : Use) (s : claims_db) (c : control_call) : claims_db * control_answer c :=
  match c with
  | RedisTime => (s, inr (pretty (u.(u_read) / 1000000), pretty (u.(u_read) `mod` 1000000)))
  | RedisSetPxNx k v ttl =>
      match u.(u_fate) with
      | Answered => let '(s', ok) := set_px_nx u.(u_set) k v ttl s in (s', inr ok)
      | Lost => (s, inl (JsError "connection lost"))
      | Unanswered => ((set_px_nx u.(u_set) k v ttl s).1, inl (JsError "connection lost"))
      end
  | c => (s, other_answer c)
  end.

(** The uses in the order of their [SET]s, and whether each was accepted. *)
Fixpoint accepted (maxTtlMs : Z) (s : claims_db) (uses : list Use) : list bool :=
  match uses with
  | [] => []
  | u :: rest =>
      let '(s', r) := run (redis u) s (Replay.mark maxTtlMs u.(u_jti) u.(u_exp)) in
      match r with inr b => b | inl _ => false end :: accepted maxTtlMs s' rest
  end.

(** In time, from [t] on. *)
Fixpoint in_order (t : Z) (uses : list Use) : Prop :=
  match uses with
  | [] => True
  | u :: rest => t <= u.(u_set) /\ timely u /\ in_order u.(u_set) rest
  end.

Lemma Number_safe n : 0 <= n <= MAX_SAFE_INTEGER -> as_integer (Number (pretty n)) = Some n.
Proof. intros Hn. pose proof (Number_pretty n Hn) as Hs. unfold safe_integer in Hs. by repeat case_match; simplify_eq. Qed.

Lemma run_mark maxTtlMs u s :
  timely u ->
  run (redis u) s (Replay.mark maxTtlMs u.(u_jti) u.(u_exp))
  = if bool_decide (u.(u_jti) = "") then (s, inr false)
    else match Replay.claim_ttl maxTtlMs (now_of u) u.(u_exp) with
         | Replay.Claim ttl =>
             let key := Replay.REDIS_KEY_PREFIX +:+ u.(u_jti) in
             match u.(u_fate) with
             | Answered => let '(s', ok) := set_px_nx u.(u_set) key "1" ttl s in (s', inr ok)
             | Lost => (s, inr false)
             | Unanswered => ((set_px_nx u.(u_set) key "1" ttl s).1, inr false)
             end
         | _ => (s, inr false)
         end.
Proof.
  intros [Hs _]. unfold Replay.mark. case_bool_decide; [done|]. cbn [run redis mbind prog_bind bind Replay.redisTimeMs redis_time lift].
  rewrite !Number_safe; [|split; [|etrans; [|apply Hs]]; Z.to_euclidean_division_equations; lia..].
  cbn [bind]. replace (_ / 1000000 * 1000 + _ `mod` 1000000 / 1000) with (now_of u)
    by (unfold now_of; Z.to_euclidean_division_equations; lia).
  destruct (Replay.claim_ttl _ _ _) as [|ttl|]; [done| |done]. cbn [try_catch redis_set run redis].
  destruct u.(u_fate); [|done|done]. by destruct (set_px_nx _ _ _ _ _).
Qed.

Context `{!ClaimLaws}.

(** The claim of a key lasts. *)
Definition lasts (key : string) (from until : Z) (s : claims_db) : Prop := forall t, from <= t < until -> held t key s = true.

Lemma run_keeps maxTtlMs u s key from until :
  timely u -> from <= u.(u_set) -> lasts key from until s ->
  lasts key u.(u_set) until (run (redis u) s (Replay.mark maxTtlMs u.(u_jti) u.(u_exp))).1.
Proof.
  intros Hu Hle Hk. assert (lasts key u.(u_set) until s) as Hs by (intros t Ht; apply Hk; lia).
  rewrite run_mark by done. case_bool_decide; [done|]. destruct (Replay.claim_ttl _ _ _) as [|ttl|]; [done| |done].
  set (key' := Replay.REDIS_KEY_PREFIX +:+ u.(u_jti)).
  assert (lasts key u.(u_set) until (set_px_nx u.(u_set) key' "1" ttl s).1) as Hset.
  { intros t Ht. destruct (held u.(u_set) key' s) eqn:Hh; [rewrite set_refused by (done || lia); by apply Hs|].
    destruct (decide (key = key')) as [->|Hne]; [|rewrite set_other by (done || lia); by apply Hs].
    rewrite Hs in Hh by lia. done. }
  cbn zeta. destruct u.(u_fate); [|done|done]. by destruct (set_px_nx _ _ _ _ _).
Qed.

(** While the claim lasts, no use of the key is accepted. *)
Lemma claimed_refuses maxTtlMs uses s jti from until j v :
  in_order from uses -> lasts (Replay.REDIS_KEY_PREFIX +:+ jti) from until s ->
  uses !! j = Some v -> v.(u_jti) = jti -> accepted maxTtlMs s uses !! j = Some true -> until <= v.(u_set).
Proof.
  revert s from j. induction uses as [|u uses IH]; intros s from [|j] Ho Hk Hv Hj Ha; try done.
  - cbn in Hv, Ha. simplify_eq. destruct Ho as (Hle & Hu & _). destruct (Z.le_gt_cases until v.(u_set)) as [|Hlt]; [done|exfalso].
    rewrite run_mark in Ha by done. case_bool_decide; [done|]. destruct (Replay.claim_ttl _ _ _) as [|ttl|] eqn:Hc; [done| |done].
    cbn zeta in Ha. destruct v.(u_fate); [|done|done].
    apply claim_covers in Hc as [Httl _].
    pose proof (set_answers v.(u_set) (Replay.REDIS_KEY_PREFIX +:+ v.(u_jti)) "1" ttl s Httl) as Hans.
    rewrite Hk in Hans by lia. destruct (set_px_nx _ _ _ _ _) as [s' ok]. cbn in *. simplify_eq.
  - destruct Ho as (Hle & Hu & Ho). cbn [accepted] in Ha. destruct (run _ _ _) as [s' r] eqn:Hr. cbn in Ha, Hv.
    eapply (IH s' u.(u_set)); try done. pose proof (run_keeps maxTtlMs u s _ from until Hu Hle Hk) as Hkeep. by rewrite Hr in Hkeep.
Qed.

Lemma accept_claims maxTtlMs u s s' :
  timely u -> run (redis u) s (Replay.mark maxTtlMs u.(u_jti) u.(u_exp)) = (s', inr true) ->
  exists ttl, Replay.claim_ttl maxTtlMs (now_of u) u.(u_exp) = Replay.Claim ttl
    /\ lasts (Replay.REDIS_KEY_PREFIX +:+ u.(u_jti)) u.(u_set) (u.(u_set) + ttl) s'.
Proof.
  intros Hu. rewrite run_mark by done. case_bool_decide; [done|]. destruct (Replay.claim_ttl _ _ _) as [|ttl|] eqn:Hc; [done| |done].
  destruct (claim_covers _ _ _ _ Hc) as [Httl _]. cbn zeta. destruct u.(u_fate); [|done|done].
  set (key := Replay.REDIS_KEY_PREFIX +:+ u.(u_jti)).
  pose proof (set_answers u.(u_set) key "1" ttl s Httl) as Hans.
  assert (held u.(u_set) key s = false -> lasts key u.(u_set) (u.(u_set) + ttl) (set_px_nx u.(u_set) key "1" ttl s).1) as Hl
    by (intros Hh t Ht; by apply set_holds).
  destruct (set_px_nx _ _ _ _ _) as [s2 ok]. cbn in *. intros [= <- ->]. exists ttl. split; [done|]. apply Hl. by destruct (held _ _ _).
Qed.

Lemma accepted_later maxTtlMs uses s from i j u v n d :
  in_order from uses -> (i < j)%nat -> uses !! i = Some u -> uses !! j = Some v -> v.(u_jti) = u.(u_jti) ->
  accepted maxTtlMs s uses !! i = Some true -> accepted maxTtlMs s uses !! j = Some true ->
  Replay.exp_fraction u.(u_exp) = Some (n, d) -> n <> 0 -> n * 1000 <= (now_of u + maxTtlMs) * d ->
  n * 1000 <= v.(u_set) * d.
Proof.
  revert s from i j. induction uses as [|w uses IH]; intros s from [|i] [|j] Ho Hij Hu Hv Hjti Hai Haj He Hn Hw; try done; try lia.
  - cbn in Hu, Hv. simplify_eq. destruct Ho as (_ & Hu & Ho). cbn [accepted] in Hai, Haj. destruct (run _ _ _) as [s' r] eqn:Hr.
    cbn in Hai, Haj. destruct r as [x|b]; [done|]. simplify_eq.
    destruct (accept_claims _ _ _ _ Hu Hr) as (ttl & Hc & Hl). destruct (claim_covers _ _ _ _ Hc) as [Httl Hcov].
    specialize (Hcov n d He Hn Hw). rewrite <-Hjti in Hl.
    pose proof (claimed_refuses maxTtlMs uses s' _ _ _ j v Ho Hl Hv eq_refl Haj). destruct Hu as [_ Hu].
    pose proof (fraction_positive _ _ _ He). nia.
  - destruct Ho as (_ & _ & Ho). cbn [accepted] in Hai, Haj. destruct (run _ _ _) as [s' r]. cbn in *.
    eapply (IH s' w.(u_set) i j); try done. lia.
Qed.
End server.

(** C27. Of the uses of one token id, in any order of arrival and whatever answers are
    lost, a second one is accepted only if its claim reaches Redis at or after the expiry
    of the token first accepted: for a token whose expiry lies within [maxTtlMs] of its
    first use, [exp = n / d], no later use is accepted while it is valid. *)
Theorem token_used_once `{TokenVerifier} `{ClaimStore} `{!ClaimLaws} maxTtlMs uses s from i j u v n d :
  in_order from uses -> (i < j)%nat -> uses !! i = Some u -> uses !! j = Some v -> v.(u_jti) = u.(u_jti) ->
  accepted maxTtlMs s uses !! i = Some true -> accepted maxTtlMs s uses !! j = Some true ->
  Replay.exp_fraction u.(u_exp) = Some (n, d) -> n <> 0 -> n * 1000 <= (now_of u + maxTtlMs) * d ->
  n * 1000 <= v.(u_set) * d.
Proof. apply accepted_later. Qed.

(** ** A store *)

(** Keys with their deadlines. *)
#[export] Instance map_claims : ClaimStore := {|
  claims_db := gmap string Z;
  held t k s := match s !! k with Some deadline => t <? deadline | None => false end;
  set_px_nx t k _ ttl s :=
    if match s !! k with Some deadline => t <? deadline | None => false end then (s, false) else (<[k := t + ttl]> s, true)
|}.

#[export] Instance map_claims_laws : ClaimLaws.
Proof.
  split; cbn.
  - intros t k v ttl s _. by destruct (match s !! k with Some d => t <? d | None => false end).
  - intros t k v ttl s t' Hh Ht. rewrite Hh. cbn. rewrite lookup_insert_eq. lia.
  - intros t k v ttl s t' k' Hh Ht. by rewrite Hh.
  - intros t k v ttl s t' k' Hne Ht. destruct (match s !! k with Some d => t <? d | None => false end); cbn; [done|]. by rewrite lookup_insert_ne.
Qed.

(** A token that outlives the window is accepted again once its claim has lapsed. *)
Theorem long_token_used_twice `{TokenVerifier} :
  let use t := {| u_jti := "j"; u_exp := JNum 7200; u_read := t * 1000; u_set := t; u_fate := Answered |} in
  accepted 3600000 (∅ : claims_db) [use 0; use 1000; use 3600000] = [true; false; true].
Proof. vm_compute. reflexivity. Qed.
End ReplayFacts.
