(* ===== verification/ControlAuth.v ===== *)
(** * The authenticator of the control surface

    [apps/api/src/control/auth.ts]: a bearer token is verified against the key set of
    the zone it names, which a bounded cache serves while fresh and, when the issuer
    cannot be reached, while not too stale; zones whose keys could not be fetched are
    remembered for a while.  [jose] and the decoding of base64url are parameters. *)

From Stdlib Require Import Ascii.
From S2P Require Import Prelude.
From S2P Require Import Json.
From S2P Require Import JsonText.
From S2P Require Import Scope.
From S2P Require Import Text.
From S2P Require Import Prog.
From S2P Require Import AdminClient.
From S2P Require Import ControlAudit.
Local Open Scope string_scope.
Local Open Scope Z_scope.

(** [Buffer.from(text, 'base64url').toString('utf8')]. *)
Class Base64 := from_base64url : string -> string.

Module ControlAuth.
Import AdminClient.
Import Control.

Record Claims := {
  sub : string;
  jti : string;
  zoneId : string;
  clientId : string;
  scope : string;
  exp : json
}.

(** The options after their defaults; times in the unit of [performance.now]. *)
Record AuthOptions := {
  issuer : string;
  audience : string;
  jwksTtl : Z;
  maxStale : Z;
  maxZones : nat;
  negativeTtl : Z;
  clockToleranceSec : Z
}.

Definition DEFAULT_JWKS_TTL_MS : Z := 5 * 60 * 1000.
Definition DEFAULT_MAX_STALE_MS : Z := 10 * 60 * 1000.
Definition DEFAULT_MAX_ZONES : nat := 1024.
Definition DEFAULT_NEGATIVE_TTL_MS : Z := 30000.
Definition DEFAULT_CLOCK_TOLERANCE_SEC : Z := 60.

(** The constructor. *)
Definition new_Authenticator (iss aud : string) (ttl floor stale : option Z) (zones : option nat) (negative tolerance : option Z) : AuthOptions :=
  let ttl := match ttl with Some t => t | None => default_to DEFAULT_JWKS_TTL_MS floor end in
  {| issuer := iss; audience := aud; jwksTtl := ttl;
     maxStale := Z.max (default_to DEFAULT_MAX_STALE_MS stale) ttl;
     maxZones := default_to DEFAULT_MAX_ZONES zones;
     negativeTtl := default_to DEFAULT_NEGATIVE_TTL_MS negative;
     clockToleranceSec := default_to DEFAULT_CLOCK_TOLERANCE_SEC tolerance |}.

(** [/^[A-Za-z0-9._:-]{1,128}$/]. *)
Definition isValidZoneId (z : string) : bool :=
  all_chars (fun c => is_alnum c || one_of "._:-" c) z && (1 <=? String.length z)%nat && (String.length z <=? 128)%nat.

Definition AuthError (message : string) : exn := JsError message.

(** ** The caches *)

Section caches.
Context `{TokenVerifier}.

(** Insertion orders, oldest first. *)
Record Caches := { zones : list (string * ZoneEntry); negative : list (string * Z) }.

Definition remove {A : Type} (k : string) (m : list (string * A)) : list (string * A) := filter (fun kv => kv.1 <> k) m.

(** Dropping the first key of a map that is full. *)
Definition drop_oldest {A : Type} (full : bool) (m : list (string * A)) : list (string * A) :=
  if full then match m with [] => [] | (oldest, _) :: _ => remove oldest m end else m.

(** [keySet] up to its first await. *)
Definition cache_lookup (o : AuthOptions) (z : string) (force : bool) (now : Z) (c : Caches) : Caches * Lookup :=
  match ordered_get z c.(zones), force with
  | Some cached, false =>
      ({| zones := (remove z c.(zones) ++ [(z, cached)])%list; negative := c.(negative) |},
       if now - cached.(loadedAt) <? o.(jwksTtl) then Serve cached.(keySet) else Refetch (Some cached))
  | _, false =>
      match ordered_get z c.(negative) with
      | Some expiresAt =>
          if now <? expiresAt then (c, Unknown)
          else ({| zones := c.(zones); negative := remove z c.(negative) |}, Refetch None)
      | None => (c, Refetch None)
      end
  | _, true => (c, Refetch None)
  end.

(** [fetchAndStore] after a fetch that failed. *)
Definition cache_fail (o : AuthOptions) (z : string) (now : Z) (c : Caches) : Caches :=
  {| zones := c.(zones);
     negative := ordered_set z (now + o.(negativeTtl)) (drop_oldest (o.(maxZones) <=? length c.(negative))%nat c.(negative)) |}.

(** [fetchAndStore] after a fetch that succeeded. *)
Definition cache_store (o : AuthOptions) (z : string) (ks : KeySet) (now : Z) (c : Caches) : Caches :=
  let full := (o.(maxZones) <=? length c.(zones))%nat && negb (bool_decide (is_Some (ordered_get z c.(zones)))) in
  {| zones := ordered_set z {| keySet := ks; loadedAt := now |} (drop_oldest full c.(zones)); negative := c.(negative) |}.
End caches.

(** ** Verifying *)

Section verify.
Context `{Runtime} `{TokenVerifier} `{Base64}.
Variable opts : AuthOptions.

Definition fetchJwks (z : string) : control KeySet :=
  '(status, content) ← fetch_keys z;
  if negb ((200 <=? status) && (status <=? 299)) then Throw (AuthError ("jwks status " +:+ pretty status))
  else
    raw ← lift content;
    body ← lift (match JSON_parse raw with Some v => inr v | None => inl (JsError (engine_message "JSON.parse")) end);
    keys ← lift (access "keys" body);
    match keys with
    | JArr ks => lift (createLocalJWKSet ks)
    | _ => Throw (AuthError "jwks: malformed")
    end.

Definition fetchAndStore (z : string) (now : Z) : control KeySet :=
  try_catch (fetchJwks z)
    (fun ks => _ ← ask (CacheStore z ks now); Ret ks)
    (fun err => _ ← ask (CacheFail z now); Throw err).

Definition zone_keys (z : string) (force : bool) : control KeySet :=
  now ← ask PerformanceNow;
  found ← ask (CacheLookup z force now);
  match found with
  | Serve ks => Ret ks
  | Unknown => Throw (AuthError "unknown zone")
  | Refetch None => fetchAndStore z now
  | Refetch (Some cached) =>
      try_catch (fetchAndStore z now) Ret
        (fun err => if now - cached.(loadedAt) <=? opts.(maxStale) then Ret cached.(keySet) else Throw err)
  end.

Definition verify_options : VerifyOptions :=
  {| v_issuer := opts.(issuer); v_audience := opts.(audience); v_algorithms := ["ES256"];
     v_requiredClaims := ["exp"; "iat"; "jti"; "sub"]; v_clockTolerance := opts.(clockToleranceSec) |}.

Definition decodePayload (token : string) : exn + json :=
  match split_on "." token with
  | [_; payload; _] =>
      match JSON_parse (from_base64url payload) with
      | Some v => inr v
      | None => inl (AuthError "malformed token payload")
      end
  | _ => inl (AuthError "malformed token")
  end.

Definition requireString (payload : json) (name : string) : exn + string :=
  match json_get name payload with
  | JStr s => if bool_decide (s = "") then inl (AuthError ("claim " +:+ name +:+ " required")) else inr s
  | _ => inl (AuthError ("claim " +:+ name +:+ " required"))
  end.

Definition optionalString (payload : json) (name : string) : exn + option string :=
  match json_get name payload with
  | JUndefined | JNull => inr None
  | JStr s => inr (if bool_decide (s = "") then None else Some s)
  | _ => inl (AuthError ("claim " +:+ name +:+ " must be a string"))
  end.

Definition numeric_exp (payload : json) : json :=
  match json_get "exp" payload with JNum n => JNum n | JDec l => JDec l | JNonFinite => JNonFinite | _ => JUndefined end.

(** The claims of a verified payload, for the zone the token was verified in. *)
Definition read_claims (z : string) (payload : json) : exn + Claims :=
  match requireString payload "sub", requireString payload "jti", optionalString payload "client_id", optionalString payload "scope" with
  | inl x, _, _, _ => inl x
  | _, inl x, _, _ => inl x
  | _, _, inl x, _ => inl x
  | _, _, _, inl x => inl x
  | inr s, inr j, inr client, inr sc =>
      if bool_decide (as_string (json_get "zone_id" payload) = Some z) then
        inr {| sub := s; jti := j; zoneId := z; clientId := default_to "" client; scope := default_to "" sc; exp := numeric_exp payload |}
      else inl (AuthError "zone_id mismatch")
  end.

Definition invalid_token (message : string) : exn := AuthError ("invalid token: " +:+ message).

(** Verification under the cached key set, and once more under a fresh one when no key of
    the cached set, or more than one, fits. *)
Definition verified_payload (z token : string) : control json :=
  keys ← zone_keys z false;
  verdict ← ask (JwtVerify keys token verify_options);
  match verdict with
  | Verified payload => Ret payload
  | Rejected message => Throw (invalid_token message)
  | KeyMiss _ =>
      refreshed ← zone_keys z true;
      again ← ask (JwtVerify refreshed token verify_options);
      match again with
      | Verified payload => Ret payload
      | Rejected message | KeyMiss message => Throw (invalid_token message)
      end
  end.

(** The zone the token itself names, before anything of it is verified. *)
Definition peek_zone (token : string) : exn + string :=
  match decodePayload token with
  | inl x => inl x
  | inr peek =>
      match access "zone_id" peek with
      | inl x => inl x
      | inr (JStr z) => if bool_decide (z = "") then inl (AuthError "missing zone_id")
                        else if isValidZoneId z then inr z else inl (AuthError "invalid zone_id")
      | inr _ => inl (AuthError "missing zone_id")
      end
  end.

Definition bearer (authHeader : option string) : exn + string :=
  match authHeader with
  | Some h =>
      if has_prefix "Bearer " h then
        let token := trim (drop_bytes 7 h) in
        if bool_decide (token = "") then inl (AuthError "missing bearer token") else inr token
      else inl (AuthError "missing bearer token")
  | None => inl (AuthError "missing bearer token")
  end.

Definition verify (authHeader : option string) : control Claims :=
  token ← lift (bearer authHeader);
  z ← lift (peek_zone token);
  payload ← verified_payload z token;
  lift (read_claims z payload).
End verify.
End ControlAuth.

(** * Which keys verify a control token

    [apps/api/src/control/auth.ts]: a token is only ever verified under keys of the zone
    it names, fetched for that zone and no older than the staleness limit, and the
    caches stay within their bounds. *)

Module ControlAuthFacts.
Import AdminClient.
Import Control.
Import ControlAuth.

Section facts.
Context `{Runtime} `{TokenVerifier} `{Base64} (opts : AuthOptions).

(** ** The caches *)

(** The uses of the caches. *)
Inductive CacheOp :=
| OpLookup (z : string) (force : bool) (now : Z)
| OpStore (z : string) (ks : KeySet) (now : Z)
| OpFail (z : string) (now : Z).

Definition cache_op (c : Caches) (op : CacheOp) : Caches :=
  match op with
  | OpLookup z force now => (cache_lookup opts z force now c).1
  | OpStore z ks now => cache_store opts z ks now c
  | OpFail z now => cache_fail opts z now c
  end.

Definition run_ops (ops : list CacheOp) : Caches := foldl cache_op {| zones := []; negative := [] |} ops.

(** Entries come from stores of their zone; keys are distinct, the maps bounded. *)
Definition sound (ops : list CacheOp) (c : Caches) : Prop :=
  NoDup c.(zones).*1 /\ NoDup c.(negative).*1
  /\ (length c.(zones) <= opts.(maxZones) `max` 1)%nat /\ (length c.(negative) <= opts.(maxZones) `max` 1)%nat
  /\ (forall z e, (z, e) ∈ c.(zones) -> OpStore z e.(keySet) e.(loadedAt) ∈ ops).

Lemma remove_nodup {A : Type} k (m : list (string * A)) : NoDup m.*1 -> NoDup (remove k m).*1.
Proof. apply NoDup_fst_filter. Qed.

Lemma remove_length {A : Type} k (m : list (string * A)) : (length (remove k m) <= length m)%nat.
Proof. apply length_filter. Qed.

Lemma remove_present {A : Type} k (m : list (string * A)) v : (k, v) ∈ m -> (S (length (remove k m)) <= length m)%nat.
Proof.
  induction m as [|[k' v'] m IH]; [by intros ?%not_elem_of_nil|]. intros [[= -> ->]|Hin]%elem_of_cons; unfold remove; rewrite filter_cons.
  - rewrite decide_False by (cbn; auto). cbn. pose proof (remove_length k' m) as Hl. unfold remove in Hl. lia.
  - specialize (IH Hin). unfold remove in IH. case_decide; cbn; lia.
Qed.

Lemma remove_elem {A : Type} k (m : list (string * A)) kv : kv ∈ remove k m -> kv ∈ m /\ kv.1 <> k.
Proof. intros [Hne Hin]%list_elem_of_filter. by split. Qed.

Lemma drop_oldest_facts {A : Type} full (m : list (string * A)) :
  NoDup m.*1 -> NoDup (drop_oldest full m).*1 /\ drop_oldest full m ⊆ m
  /\ (full = true -> m <> [] -> S (length (drop_oldest full m)) <= length m)%nat /\ (length (drop_oldest full m) <= length m)%nat.
Proof.
  intros Hnd. unfold drop_oldest. destruct full; [|by split_and!]. destruct m as [|[k v] m]; [by split_and!|].
  split_and!; [by apply remove_nodup|by intros kv [? _]%remove_elem| |apply remove_length].
  intros _ _. apply (remove_present k _ v). left.
Qed.

Lemma ordered_set_length {A : Type} k (v : A) m :
  length (ordered_set k v m) = (if bool_decide (is_Some (ordered_get k m)) then length m else S (length m)).
Proof.
  induction m as [|[k' v'] m IH]; [done|]. cbn [ordered_set ordered_get]. destruct (bool_decide (k' = k)).
  - by rewrite bool_decide_eq_true_2 by eauto.
  - cbn [length]. rewrite IH. by case_bool_decide.
Qed.

(** Adding to a map whose oldest key was dropped when it was full. *)
Lemma bounded_add {A : Type} (n : nat) full k (v : A) m :
  NoDup m.*1 -> (length m <= n `max` 1)%nat ->
  (full = true \/ is_Some (ordered_get k m) \/ (length m < n `max` 1)%nat) ->
  (length (ordered_set k v (drop_oldest full m)) <= n `max` 1)%nat.
Proof.
  intros Hnd Hlen Hfull. destruct (drop_oldest_facts full m Hnd) as (_ & _ & Hd & Hle). rewrite ordered_set_length. case_bool_decide as Hk; [lia|].
  destruct Hfull as [Hf|[Hs|Hlt]].
  - destruct m as [|kv m]; [subst full; cbn; lia|]. specialize (Hd Hf ltac:(done)). lia.
  - destruct full; [|by cbn in Hk]. destruct m as [|kv m]; [cbn in Hs; by destruct Hs|]. specialize (Hd eq_refl ltac:(done)). lia.
  - lia.
Qed.

Lemma lookup_sound ops c z force now : sound ops c -> sound ops (cache_lookup opts z force now c).1.
Proof.
  intros (Hz & Hn & Hlz & Hln & Hst). unfold cache_lookup. destruct (ordered_get z c.(zones)) as [e|] eqn:Hg, force; cbn [fst]; try done.
  - apply ordered_get_elem in Hg. split_and!; cbn; try done.
    + rewrite fmap_app. apply NoDup_app. split_and!; [by apply remove_nodup| |apply NoDup_singleton].
      intros k Hk Hk'. apply list_elem_of_singleton in Hk'. cbn in Hk'. subst. apply list_elem_of_fmap in Hk as ([k b'] & -> & Hin).
      by apply remove_elem in Hin as [_ ?].
    + rewrite length_app. cbn. pose proof (remove_present z c.(zones) e Hg). lia.
    + intros z' e' [[Hin _]%remove_elem|Hin]%elem_of_app; [by apply Hst|]. apply list_elem_of_singleton in Hin. simplify_eq. by apply Hst.
  - destruct (ordered_get z c.(negative)) as [t|]; [|done]. destruct (now <? t); cbn; [done|]. split_and!; cbn; try done; [by apply remove_nodup|].
    pose proof (remove_length z c.(negative)). lia.
Qed.

Lemma fail_sound ops c z now : sound ops c -> sound ops (cache_fail opts z now c).
Proof.
  intros (Hz & Hn & Hlz & Hln & Hst). split_and!; cbn; try done.
  - by apply ordered_set_keys, drop_oldest_facts.
  - apply bounded_add; [done|done|]. destruct (Nat.leb_spec opts.(maxZones) (length c.(negative))); [by left|right; right; lia].
Qed.

Lemma store_sound ops c z ks now : sound ops c -> OpStore z ks now ∈ ops -> sound ops (cache_store opts z ks now c).
Proof.
  intros (Hz & Hn & Hlz & Hln & Hst) Hop. unfold cache_store. cbn zeta. set (full := _ && _).
  destruct (drop_oldest_facts full c.(zones) Hz) as (Hd & Hsub & _). split_and!; cbn; try done.
  - by apply ordered_set_keys.
  - apply bounded_add; [done|done|]. unfold full. destruct (Nat.leb_spec opts.(maxZones) (length c.(zones))); [|right; right; lia].
    case_bool_decide; [right; by left|by left].
  - intros z' e Hin. destruct (decide (z' = z)) as [->|Hne].
    + apply ordered_set_same in Hin as ->; [done|done].
    + apply ordered_set_other in Hin; [|done]. by apply Hst, Hsub.
Qed.

Lemma sound_more ops ops' c : ops ⊆ ops' -> sound ops c -> sound ops' c.
Proof. intros Hsub (? & ? & ? & ? & Hst). split_and!; eauto. Qed.

Lemma run_sound ops : sound ops (run_ops ops).
Proof.
  induction ops as [|op ops IH] using rev_ind; [split_and!; cbn; try constructor; try lia; by intros ? ? ?%not_elem_of_nil|].
  unfold run_ops in *. rewrite foldl_app. cbn [foldl].
  apply (sound_more _ (ops ++ [op])%list) in IH; [|set_solver]. destruct op; [by apply lookup_sound| |by apply fail_sound].
  apply store_sound; [done|set_solver].
Qed.

(** ** Verification *)

Notation History := (list {c : control_call & control_answer c}).

(** A key set built from a document served for the zone. *)
Definition fetched (k : History) (z : string) (ks : KeySet) : Prop :=
  exists st raw body keys, happened k (FetchKeys z) (inr (st, inr raw)) /\ 200 <= st <= 299
    /\ JSON_parse raw = Some body /\ json_get "keys" body = JArr keys /\ createLocalJWKSet keys = inr ks.

(** A key set for the zone: served by the cache as fresh, just fetched, or cached, not
    too stale, and a fetch has just failed. *)
Definition keys_for (k : History) (z : string) (ks : KeySet) : Prop :=
  (exists force now, happened k (CacheLookup z force now) (Serve ks))
  \/ fetched k z ks
  \/ (exists force now entry, happened k (CacheLookup z force now) (Refetch (Some entry)) /\ ks = entry.(keySet)
        /\ now - entry.(loadedAt) <= opts.(maxStale) /\ happened k (CacheFail z now) tt).

Definition zone_bound (k : History) (c : control_call) : Prop :=
  match c with
  | JwtVerify ks token options => exists z, peek_zone token = inr z /\ keys_for k z ks /\ options = verify_options opts
  | CacheStore z ks _ => fetched k z ks
  | _ => True
  end.

Notation bound := (monitored zone_bound remember).

Definition bound_seq {A B : Type} := @monitored_seq _ _ exn _ (suffix (A := {c : control_call & control_answer c})) _ zone_bound remember remember_le A B.
Definition bound_try {A B : Type} := @monitored_try_seq _ _ exn _ (suffix (A := {c : control_call & control_answer c})) _ zone_bound remember remember_le A B.

Lemma fetched_more k k' z ks : k `suffix_of` k' -> fetched k z ks -> fetched k' z ks.
Proof. intros Hle (st & raw & body & keys & Hh & Hf). exists st, raw, body, keys. eauto using happened_more. Qed.

Lemma keys_for_more k k' z ks : k `suffix_of` k' -> keys_for k z ks -> keys_for k' z ks.
Proof.
  intros Hle [(force & now & Hs)|[Hf|(force & now & e & Hl & He & Hage & Hfail)]]; [left|right; left|right; right].
  - exists force, now. eauto using happened_more.
  - by eapply fetched_more.
  - exists force, now, e. split_and!; eauto using happened_more.
Qed.

Lemma bound_fetch k z : bound (fun k' r => forall ks, r = inr ks -> fetched k' z ks) k (fetchJwks z).
Proof.
  split; [done|]. intros [x|[st content]]; [done|]. cbn [lift bind mbind prog_bind].
  destruct (negb ((200 <=? st) && (st <=? 299))) eqn:Hst; [done|]. apply negb_false_iff, andb_true_iff in Hst as [? ?].
  destruct content as [x|raw]; [by intros ? [=]|]. cbn [lift bind mbind prog_bind].
  destruct (JSON_parse raw) as [body|] eqn:Hp; cbn [lift bind mbind prog_bind]; [|by intros ? [=]].
  destruct (access "keys" body) as [x|v] eqn:Ha; cbn [lift bind mbind prog_bind]; [by intros ? [=]|].
  destruct v as [| | | | | | |keys|]; try by intros ? [=].
  apply monitored_lift. intros ks Hks. exists st, raw, body, keys. split_and!; try done; [apply happened_now|lia|lia|].
  revert Ha. unfold access. by destruct body; intros [= <-].
Qed.

Lemma bound_fetch_store k z now :
  bound (fun k' r => match r with inr ks => fetched k' z ks | inl _ => happened k' (CacheFail z now) tt end) k (fetchAndStore z now).
Proof.
  apply (bound_try _ _ _ _ _ _ (bound_fetch k z)).
  - intros k1 ks _ Hf. split; [by apply Hf|]. intros []. cbn. eapply fetched_more; [apply remember_le|by apply Hf].
  - intros k1 x _ _. split; [done|]. intros []. apply happened_now.
Qed.

Lemma bound_zone_keys k z force : bound (fun k' r => forall ks, r = inr ks -> keys_for k' z ks) k (zone_keys opts z force).
Proof.
  split; [done|]. intros now. split; [done|]. intros found. cbn [bind mbind prog_bind].
  set (k1 := remember _ _ found). pose proof (happened_now (remember k PerformanceNow now) (CacheLookup z force now) found) as Hh. fold k1 in Hh.
  destruct found as [ks|[e|]|]; cbn [bind].
  - intros ks' [= <-]. left. by exists force, now.
  - apply (bound_try _ _ _ _ _ _ (bound_fetch_store k1 z now)).
    + intros k2 ks _ Hf ks' [= <-]. right. by left.
    + intros k2 x Hle Hf. destruct (Z.leb_spec (now - e.(loadedAt)) opts.(maxStale)); [|done]. intros ks [= <-].
      right; right. exists force, now, e. split_and!; try done. by eapply happened_more.
  - eapply (monitored_impl suffix); [apply remember_le| |apply bound_fetch_store]. intros k2 [x|ks] _ Hf; [done|].
    intros ks' [= <-]. right. by left.
  - done.
Qed.

Lemma bound_verify k header :
  bound (fun k' r => forall c, r = inr c -> exists token ks payload,
           bearer header = inr token /\ peek_zone token = inr c.(zoneId)
           /\ happened k' (JwtVerify ks token (verify_options opts)) (Verified payload)
           /\ json_get "zone_id" payload = JStr c.(zoneId)) k (verify opts header).
Proof.
  unfold verify. destruct (bearer header) as [x|token]; [done|]. cbn [lift mbind prog_bind bind].
  destruct (peek_zone token) as [x|z] eqn:Hz; [done|]. cbn [lift mbind prog_bind bind].
  eapply (bound_seq (fun k' r => forall payload, r = inr payload ->
    exists ks, happened k' (JwtVerify ks token (verify_options opts)) (Verified payload))); [| |done].
  - unfold verified_payload. eapply (bound_seq _ _ _ _ _ (bound_zone_keys k z false)); [|done].
    intros k1 ks _ Hk. split; [exists z; eauto|]. intros [payload|m|m]; cbn [bind]; [intros p [= <-]; eauto using happened_now| |done].
    eapply (bound_seq _ _ _ _ _ (bound_zone_keys _ z true)); [|done].
    intros k2 ks' _ Hk'. split; [exists z; eauto|]. intros [payload|m'|m']; cbn [bind]; [intros p [= <-]; eauto using happened_now|done|done].
  - intros k1 payload _ Hp. apply monitored_lift. intros c Hc. destruct (Hp payload eq_refl) as [ks Hh].
    assert (c.(zoneId) = z /\ as_string (json_get "zone_id" payload) = Some z) as [-> Hs].
    { revert Hc. unfold read_claims. repeat case_match; try done. case_bool_decide; [|done]. by intros [= <-]. }
    exists token, ks, payload. split_and!; try done. by destruct (json_get "zone_id" payload); simplify_eq/=.
Qed.
End facts.

(** A control token is verified only under keys of the zone it names itself, with the
    configured issuer and audience: keys the cache serves as fresh, keys just built from
    a document served for that zone, or cached ones within the staleness limit after a
    fetch has failed; the cache is only given keys built from such a document.  Claims
    are returned only for a payload [jwtVerify] accepted, and name the zone of the
    payload, which is the zone of the keys. *)
Theorem keys_match_zone `{Runtime} `{TokenVerifier} `{Base64} opts header :
  monitored (zone_bound opts) remember
    (fun k r => forall c, r = inr c -> exists token ks payload,
       bearer header = inr token /\ peek_zone token = inr c.(zoneId)
       /\ happened k (JwtVerify ks token (verify_options opts)) (Verified payload)
       /\ json_get "zone_id" payload = JStr c.(zoneId))
    [] (verify opts header).
Proof. apply bound_verify. Qed.

(** After any sequence of lookups, stores and failures, each cache holds at most
    [maxZones] zones (one, when that is zero), and what a lookup serves, or lets the
    caller fall back on, was stored earlier for that very zone; it is served without a
    fetch only while younger than the time to live. *)
Theorem cache_serves_stored `{TokenVerifier} opts ops z force now :
  let c := run_ops opts ops in
  (length c.(zones) <= opts.(maxZones) `max` 1)%nat /\ (length c.(negative) <= opts.(maxZones) `max` 1)%nat
  /\ match (cache_lookup opts z force now c).2 with
     | Serve ks => exists t, OpStore z ks t ∈ ops /\ now - t < opts.(jwksTtl)
     | Refetch (Some e) => OpStore z e.(keySet) e.(loadedAt) ∈ ops
     | _ => True
     end.
Proof.
  cbn zeta. destruct (run_sound opts ops) as (_ & _ & Hz & Hn & Hst). split; [done|]. split; [done|].
  unfold cache_lookup. destruct (ordered_get z _) as [e|] eqn:Hg, force; cbn [snd]; try done; [|by repeat case_match].
  apply ordered_get_elem in Hg. destruct (Z.ltb_spec (now - e.(loadedAt)) opts.(jwksTtl)); eauto.
Qed.
End ControlAuthFacts.
