(* ===== verification/ControlHandler.v ===== *)
(** * The control invoke route

    [apps/api/src/control/handler.ts] and [gate.ts]: the gate, the ceiling per address,
    the token, its single use, the rate of its subject, the zone it may act in, and then
    the dispatcher; each refusal is audited, and success is reported only once it has
    been.  Log lines and the [x-request-id] header of the reply are left out. *)

From Stdlib Require Import Ascii.
From S2P Require Import Prelude.
From S2P Require Import Json.
From S2P Require Import JsonText.
From S2P Require Import Scope.
From S2P Require Import Text.
From S2P Require Import Prog.
From S2P Require Import AdminClient.
From S2P Require Import Reconcile.
From S2P Require Import Dispatch.
From S2P Require Import ControlAudit.
From S2P Require Import Replay.
From S2P Require Import ControlAuth.
From S2P Require Import Catalog.
From S2P Require Import DispatchFacts.
Local Open Scope string_scope.
Local Open Scope Z_scope.

Module ControlHandler.
Import AdminClient.
Import Control.
Import ControlAudit.
Import ControlAuth.

Definition ZONE_SCOPE_HEADER : string := "x-caracal-zone-scope".
Definition AUTHORIZED_BY_HEADER : string := "x-caracal-authorized-by".
Definition CREATED_VIA_HEADER : string := "x-caracal-created-via".

(** [/^[A-Za-z0-9-]{1,64}$/]. *)
Definition zone_scope_shape (z : string) : bool :=
  all_chars (fun c => is_alnum c || one_of "-" c) z && (1 <=? String.length z)%nat && (String.length z <=? 64)%nat.

Record InvokeDeps := {
  auth : AuthOptions;
  maxTtlMs : Z;
  sink : Sink;
  admin_client : AdminClientOptions;
  gateFile : option string;
  ipRateLimitPerMin : Z;
  has_operators : bool;
  has_zone_authority : bool;
  isolatedZones : list string
}.

(** The parts of the request the route reads; a header given more than once is an array. *)
Record InvokeRequest := {
  req_id : string;
  req_ip : string;
  authorization : option string;
  zone_scope : option string;
  req_body : json
}.

Record Reply := { status : Z; reply_body : json }.

Definition errorBody (code reason : string) (remediation : option string) : json :=
  JObj ([("code", JStr code); ("reason", JStr reason)]
        ++ match remediation with Some r => if bool_decide (r = "") then [] else [("remediation", JStr r)] | None => [] end)%list.

Definition refused (st : Z) (code reason : string) (remediation : option string) : Reply :=
  {| status := st; reply_body := JObj [("ok", JBool false); ("error", errorBody code reason remediation)] |}.

Definition STATUS_FOR_CODE (c : DispatchCode) : Z :=
  match c with
  | denied => 403
  | invalid => 400
  | unsupported => 501
  | zone_mismatch | conflict => 409
  | not_found => 404
  | upstream => 502
  end.

Section handler.
Context `{Runtime} `{TokenVerifier} `{Base64}.
Variable hmac_sha256 : string -> string -> string.
Variable sha256Hex : string -> string.
Variable deps : InvokeDeps.

(** [fileGate]. *)
Definition gate_enabled : control bool :=
  match deps.(gateFile) with Some path => ask (GateExists path) | None => Ret false end.

Definition ipRateExceeded (ip : string) : control bool :=
  if deps.(ipRateLimitPerMin) <=? 0 then Ret false
  else try_catch
    (minute ← Replay.redisMinuteBucket;
     let key := "api:control_invoke_ip:" +:+ ip +:+ ":" +:+ pretty (minute : Z) in
     count ← redis_incr key;
     _ ← (if count =? 1 then redis_expire key 90 else Ret tt);
     Ret (deps.(ipRateLimitPerMin) <? count)) Ret (fun _ => Ret true).

(** [zone], or the reason it is [denied]. *)
Definition resolveEffectiveZone (req : InvokeRequest) (claims : Claims) (operators : option (list string)) : control (string + string) :=
  let target := match req.(zone_scope) with Some h => trim h | None => "" end in
  if bool_decide (target = "") || bool_decide (target = claims.(zoneId)) then Ret (inr claims.(zoneId))
  else if negb (zone_scope_shape target) then Ret (inl "zone scope: malformed zone id")
  else if negb (match operators with Some subjects => bool_decide (claims.(sub) ∈ subjects) | None => false end) then
    Ret (inl "zone scope: subject is not a reserved operator identity")
  else if negb deps.(has_zone_authority) then Ret (inl "zone scope: no zone authority configured")
  else
    found ← lookup_zone target;
    Ret (match found with
         | None => inl "zone scope: zone does not exist"
         | Some zone =>
             if zone.(archived) then inl "zone scope: zone is archived"
             else if zone.(reserved) then inl "zone scope: reserved zone"
             else if bool_decide (target ∈ deps.(isolatedZones)) then inl "zone scope: isolated zone"
             else if negb zone.(operatorGoverned) then inl "zone scope: zone has not granted operator administration"
             else inr target
         end).

(** [emitDeny]: the failure of the sink is swallowed. *)
Definition emitDeny (ev : Z -> AuditEvent) : control unit :=
  at_ ← ask DateNow;
  try_catch (emit hmac_sha256 deps.(sink) (ev at_)) Ret (fun _ => Ret tt).

(** An event of an unauthenticated caller. *)
Definition anonymous (requestId reason : string) (at_ : Z) : AuditEvent :=
  {| e_at := at_; e_zoneId := None; e_clientId := None; e_subject := "anonymous"; e_jti := ""; e_command := None;
     e_subcommand := None; e_decision := deny; e_reason := Some reason; e_requestId := requestId;
     e_idempotencyKey := None; e_authorizedBy := None |}.

(** The request as the handler reads it from the body. *)
Record Invocation := {
  i_command : string;
  i_subcommand : string;
  i_flags : option Dispatch.FlagMap;
  i_idempotencyKey : option string;
  i_authorizedBy : option string;
  i_coAuthor : bool
}.

Definition string_or_empty (v : json) : string := default_to "" (as_string v).

Definition read_invocation (body : json) (isOperator : bool) : Invocation :=
  let flags := match json_get "flags" body with JObj fs => Some fs | _ => None end in
  {| i_command := string_or_empty (json_get "command" body);
     i_subcommand := string_or_empty (json_get "subcommand" body);
     i_flags := flags;
     i_idempotencyKey := match flags with Some fs => as_string (json_get "idempotency-key" (JObj fs)) | None => None end;
     i_authorizedBy :=
       match json_get "authorized_by" body with
       | JStr s => if isOperator && (js_length s <=? 256)%nat then Some s else None
       | _ => None
       end;
     i_coAuthor := isOperator && match json_get "co_author_operator" body with JBool b => b | _ => false end |}.

(** An event of an authenticated caller before its request has been read. *)
Definition identified (requestId : string) (c : Claims) (reason : string) (at_ : Z) : AuditEvent :=
  {| e_at := at_; e_zoneId := Some c.(zoneId); e_clientId := Some c.(clientId); e_subject := c.(sub); e_jti := c.(jti);
     e_command := None; e_subcommand := None; e_decision := deny; e_reason := Some reason; e_requestId := requestId;
     e_idempotencyKey := None; e_authorizedBy := None |}.

(** An event of a request that has been read. *)
Definition decided (requestId : string) (c : Claims) (zone : string) (i : Invocation) (d : Decision) (reason authorizedBy : option string)
    (at_ : Z) : AuditEvent :=
  {| e_at := at_; e_zoneId := Some zone; e_clientId := Some c.(clientId); e_subject := c.(sub); e_jti := c.(jti);
     e_command := Some i.(i_command); e_subcommand := Some i.(i_subcommand); e_decision := d; e_reason := reason;
     e_requestId := requestId; e_idempotencyKey := i.(i_idempotencyKey); e_authorizedBy := authorizedBy |}.

Definition principal_of (c : Claims) (zone : string) : Dispatch.Principal :=
  {| Dispatch.subject := c.(sub); Dispatch.p_zoneId := Some zone; Dispatch.clientId := Some c.(clientId);
     Dispatch.p_scopes := filter (fun s => s <> "") (split_ws c.(scope)) |}.

(** [dispatchCtx]: the client of the request. *)
Definition dispatch_client (requestId : string) (i : Invocation) : AdminClientOptions :=
  withDefaultHeaders deps.(admin_client)
    ([("x-request-id", requestId)]
     ++ match i.(i_authorizedBy) with
        | Some by_ => if bool_decide (by_ = "") then [] else [(AUTHORIZED_BY_HEADER, by_)]
        | None => []
        end
     ++ (if i.(i_coAuthor) then [(CREATED_VIA_HEADER, "operator")] else []))%list.

(** The dispatcher, its calls made through the client of the request. *)
Definition dispatch_through (client : AdminClientOptions) (i : Invocation) (p : Dispatch.Principal) : control json :=
  interp (fun c => Vis (Admin client c) Ret)
    (Dispatch.dispatch sha256Hex
       {| Dispatch.req_command := i.(i_command); Dispatch.req_subcommand := i.(i_subcommand); Dispatch.req_flags := i.(i_flags) |} p).

Definition unauthorized : Reply := refused 401 "unauthorized" "the control token is missing, malformed, or failed verification" None.
Definition rate_limited : Reply := refused 429 "rate_limited" "request rate exceeded; retry with backoff" None.

(** The reply to a request the dispatcher refused. *)
Definition failure_reply (err : exn) : Reply :=
  match err with
  | DispatchError code reason remediation => refused (STATUS_FOR_CODE code) (Reconcile.code_text code) reason remediation
  | _ => refused 502 "upstream" "upstream error" None
  end.

(** The last part: dispatching and recording. *)
Definition perform_invoke (requestId : string) (c : Claims) (zone : string) (i : Invocation) : control Reply :=
  try_catch (dispatch_through (dispatch_client requestId i) i (principal_of c zone))
    (fun result =>
       at_ ← ask DateNow;
       try_catch (emit hmac_sha256 deps.(sink) (decided requestId c zone i allow None i.(i_authorizedBy) at_))
         (fun _ => Ret {| status := 200; reply_body := JObj [("ok", JBool true); ("result", result)] |})
         (fun _ => Ret (refused 500 "audit_unavailable" "operation applied but its audit record could not be durably recorded" None)))
    (fun err =>
       _ ← emitDeny (decided requestId c zone i deny (Some (Reconcile.errorReason err)) i.(i_authorizedBy));
       Ret (failure_reply err)).

(** From a verified, unused, unthrottled token on. *)
Definition authorized (req : InvokeRequest) (c : Claims) : control Reply :=
  operators ← (if deps.(has_operators) then ask OperatorSubjects else Ret None);
  let isOperator := match operators with Some subjects => bool_decide (c.(sub) ∈ subjects) | None => false end in
  let i := read_invocation req.(req_body) isOperator in
  zone ← resolveEffectiveZone req c operators;
  match zone with
  | inl reason =>
      _ ← emitDeny (decided req.(req_id) c c.(zoneId) i deny (Some reason) None);
      Ret (refused 403 "denied" reason None)
  | inr zone => perform_invoke req.(req_id) c zone i
  end.

(** From the verified token on. *)
Definition authenticated (req : InvokeRequest) (c : Claims) : control Reply :=
  fresh ← Replay.mark deps.(maxTtlMs) c.(jti) c.(exp);
  if negb fresh then
    _ ← emitDeny (identified req.(req_id) c "replay");
    Ret (refused 401 "token_replay" "this token was already used; mint a fresh token per invoke" None)
  else
    admitted ← ask (RateAllow c.(sub));
    if negb admitted then
      _ ← emitDeny (identified req.(req_id) c "rate limited");
      Ret rate_limited
    else authorized req c.

(** [handle]. *)
Definition handle (req : InvokeRequest) : control Reply :=
  open_ ← gate_enabled;
  if negb open_ then
    _ ← emitDeny (anonymous req.(req_id) "control disabled");
    Ret (refused 503 "control_disabled" "the control endpoint is disabled on this deployment" None)
  else
    exceeded ← ipRateExceeded req.(req_ip);
    if negb (exceeded : bool) then
      try_catch (verify deps.(auth) req.(authorization)) (authenticated req)
        (fun err =>
           _ ← emitDeny (anonymous req.(req_id) ("auth: " +:+ Reconcile.errorReason err));
           Ret unauthorized)
    else
      _ ← emitDeny (anonymous req.(req_id) "ip rate limited");
      Ret rate_limited.
End handler.
End ControlHandler.

(** * What reaches the Admin API through the control surface

    The order of the checks of [apps/api/src/control/handler.ts], stated on the history
    of the calls a request has made: a call of the admin client is made only after every
    check has answered favourably for the very token and zone it is made for, success is
    reported only after its record is durable, and every refusal is put on record first. *)

Module ControlFacts.
Import AdminClient.
Import Control.
Import ControlAudit.
Import ControlAuth.
Import ControlHandler.

(** ** The payload of an event *)

Lemma metadata_plain ev : plain (metadata ev).
Proof.
  constructor; [by apply (bool_decide_unpack _)|reflexivity|].
  repeat (apply Forall_cons; split); try apply Forall_nil_2; constructor. Qed.

Lemma metadata_parses ev : JSON_parse (text (metadata ev)) = Some (metadata ev).
Proof.
  pose proof (parse_stringify (metadata ev) (metadata_plain ev)) as Hp. unfold text.
  destruct (JSON_stringify (metadata ev)); [done|discriminate].
Qed.

Section facts.
Context `{Runtime} `{TokenVerifier} `{Base64}.
Context (hmac_sha256 : string -> string -> string) (sha256Hex : string -> string) (deps : InvokeDeps) (req : InvokeRequest).

(** ** What a history shows *)

Notation exchange_ := {c : control_call & control_answer c}.
Notation History := (list exchange_).

(** The payload an event is sent as. *)
Definition payload_of (ev : AuditEvent) (values : list (string * string)) : Prop :=
  exists id, buildAuditPayload hmac_sha256 id ev deps.(sink).(hmacKey) = inr values.

(** The event was offered to the audit stream. *)
Definition offered (k : History) (ev : AuditEvent) : Prop :=
  exists values r, payload_of ev values
    /\ happened k (RedisXadd AUDIT_STREAM (stream_args deps.(sink).(streamMaxLen) values)) r.

(** The event is on the stream or in the outbox. *)
Definition durable (k : History) (ev : AuditEvent) : Prop :=
  exists values, payload_of ev values
    /\ (happened k (RedisXadd AUDIT_STREAM (stream_args deps.(sink).(streamMaxLen) values)) (inr tt)
        \/ exists id, happened k (OutboxInsert id AUDIT_STREAM (payload_text values) (Some ev.(e_requestId))) (inr tt)).

(** A zone a token may act in. *)
Definition zone_granted (k : History) (c : Claims) (zone : string) : Prop :=
  zone = c.(zoneId)
  \/ (exists subjects target,
        trim (default_to "" req.(zone_scope)) = zone /\ zone_scope_shape zone = true
        /\ happened k OperatorSubjects (Some subjects) /\ c.(sub) ∈ subjects
        /\ happened k (LookupZone zone) (inr (Some target))
        /\ target.(archived) = false /\ target.(reserved) = false /\ target.(operatorGoverned) = true
        /\ zone ∉ deps.(isolatedZones)).

(** The checks before the token. *)
Definition admitted (k : History) : Prop :=
  (exists path, deps.(gateFile) = Some path /\ happened k (GateExists path) true)
  /\ (deps.(ipRateLimitPerMin) <= 0
      \/ exists minute count, happened k (RedisIncr ("api:control_invoke_ip:" +:+ req.(req_ip) +:+ ":" +:+ pretty (minute : Z))) (inr count)
           /\ count <= deps.(ipRateLimitPerMin)).

(** The token verified. *)
Definition token_verified (k : History) (c : Claims) : Prop :=
  exists token keys payload,
    bearer req.(authorization) = inr token
    /\ happened k (JwtVerify keys token (verify_options deps.(auth))) (Verified payload)
    /\ read_claims c.(zoneId) payload = inr c.

(** Every check passed. *)
Definition cleared (k : History) (c : Claims) (zone : string) : Prop :=
  admitted k /\ token_verified k c
  /\ (exists ttl, happened k (RedisSetPxNx (Replay.REDIS_KEY_PREFIX +:+ c.(jti)) "1" ttl) (inr true))
  /\ happened k (RateAllow c.(sub)) true
  /\ zone_granted k c zone.

(** The admin client is only used for a cleared request, for what its principal is
    entitled to. *)
Definition permitted (k : History) (call : control_call) : Prop :=
  match call with
  | Admin _ c => exists claims zone, cleared k claims zone /\ DispatchFacts.entitled (principal_of claims zone) c
  | _ => True
  end.

Notation checked := (monitored permitted remember).

Definition without_admin (call : control_call) : Prop := match call with Admin _ _ => False | _ => True end.

Lemma checked_free {A : Type} k (m : control A) : always without_admin m -> checked (extends suffix k) k m.
Proof.
  intros Hm. apply (monitored_always suffix); [apply remember_le|]. eapply always_impl; [|exact Hm]. by intros [].
Qed.

Definition checked_seq {A B : Type} := @monitored_seq _ _ exn _ (suffix (A := exchange_)) _ permitted remember remember_le A B.
Definition checked_try {A B : Type} := @monitored_try_seq _ _ exn _ (suffix (A := exchange_)) _ permitted remember remember_le A B.

(** A single call. *)
Lemma checked_ask {A : Type} (Q : History -> exn + A -> Prop) k c (f : control_answer c -> control A) :
  permitted k c -> (forall r, checked Q (remember k c r) (f r)) -> checked Q k (Vis c f).
Proof. by split. Qed.

Lemma durable_more k k' ev : k `suffix_of` k' -> durable k ev -> durable k' ev.
Proof. intros Hle (values & Hv & [Hx|[id Ho]]); exists values; split; eauto using happened_more. Qed.

Lemma offered_more k k' ev : k `suffix_of` k' -> offered k ev -> offered k' ev.
Proof. intros Hle (values & r & Hv & Hx). exists values, r. eauto using happened_more. Qed.

(** ** The sink *)

Lemma payload_builds id ev : exists values, buildAuditPayload hmac_sha256 id ev deps.(sink).(hmacKey) = inr values.
Proof. unfold buildAuditPayload. rewrite metadata_parses. eauto. Qed.

Lemma checked_emit k ev :
  checked (fun k' r => offered k' ev /\ (r = inr tt -> durable k' ev)) k (emit hmac_sha256 deps.(sink) ev).
Proof.
  unfold emit. eapply (checked_seq (fun _ r => exists id, r = inr id)).
  { case_bool_decide; cbn; eauto. }
  2: { by intros k' x _ [id [=]]. }
  intros k1 id _ _. destruct (payload_builds id ev) as [values Hv]. rewrite Hv.
  set (args := stream_args deps.(sink).(streamMaxLen) values).
  assert (forall r k', happened k' (RedisXadd AUDIT_STREAM args) r -> offered k' ev) as Hoff.
  { intros r k' Hx. exists values, r. split; [by exists id|exact Hx]. }
  apply (checked_try (fun k' r => happened k' (RedisXadd AUDIT_STREAM args) r)).
  { split; [done|]. intros r. apply monitored_lift, happened_now. }
  { intros k2 [] _ Hx. split; [by eapply Hoff|]. intros _. exists values. split; [by exists id|by left]. }
  intros k2 x _ Hx. destruct deps.(sink).(has_outbox); cbn [negb]; [|split; [by eapply Hoff|done]].
  apply (checked_try (fun k' r => offered k' ev /\ (forall id', r = inr id' -> durable k' ev))).
  - unfold enqueueOutbox. split; [done|]. intros id'. split; [done|]. intros r. apply monitored_bind, monitored_lift.
    assert (offered (remember (remember k2 Uuidv7 id') (OutboxInsert id' AUDIT_STREAM (payload_text values) (Some ev.(e_requestId))) r) ev).
    { eapply offered_more; [|by eapply Hoff]. etrans; [apply remember_le|apply remember_le]. }
    destruct r as [y|[]]; split; try done. intros id'' _. exists values. split; [by exists id|]. right. exists id'. apply happened_now.
  - intros k3 id' _ [Ho Hd]. split; [done|]. intros _. by eapply Hd.
  - intros k3 y _ [Ho _]. by split.
Qed.

(** A refusal is offered to the stream whatever happens. *)
Lemma checked_deny k (ev : Z -> AuditEvent) :
  checked (fun k' r => k `suffix_of` k' /\ r = inr tt /\ exists at_, offered k' (ev at_)) k (emitDeny hmac_sha256 deps ev).
Proof.
  split; [done|]. intros at_. cbn [bind]. 
  apply (checked_try _ _ _ _ _ _ (checked_emit _ (ev at_))); intros k' r Hle [Ho _]; (split; [|split; [by try destruct r|by exists at_]]);
    by etrans; [apply remember_le|].
Qed.

(** ** The checks *)

Lemma zone_granted_more k k' c zone : k `suffix_of` k' -> zone_granted k c zone -> zone_granted k' c zone.
Proof. intros Hle [->|(subjects & target & Hg)]; [by left|right]. exists subjects, target. naive_solver eauto using happened_more. Qed.

Lemma admitted_more k k' : k `suffix_of` k' -> admitted k -> admitted k'.
Proof.
  intros Hle [(path & Hp & Hg) Hip]. split; [exists path; eauto using happened_more|].
  destruct Hip as [Hl|(minute & count & Hc & Hle')]; [by left|right]. exists minute, count. eauto using happened_more.
Qed.

Lemma token_verified_more k k' c : k `suffix_of` k' -> token_verified k c -> token_verified k' c.
Proof. intros Hle (token & keys & payload & Hb & Hv & Hr). exists token, keys, payload. eauto using happened_more. Qed.

Lemma cleared_more k k' c zone : k `suffix_of` k' -> cleared k c zone -> cleared k' c zone.
Proof.
  intros Hle (Ha & Ht & (ttl & Hm) & Hr & Hz). split_and!; eauto using admitted_more, token_verified_more, zone_granted_more, happened_more.
Qed.

Lemma checked_gate k :
  checked (fun k' r => exists b, r = inr b
      /\ (b = true -> exists path, deps.(gateFile) = Some path /\ happened k' (GateExists path) true)) k (gate_enabled deps).
Proof.
  unfold gate_enabled. destruct deps.(gateFile) as [path|]; [|by exists false]. split; [done|]. intros r. exists r. split; [done|]. intros ->.
  exists path. split; [done|apply happened_now].
Qed.

Lemma free_time : always without_admin Replay.redisTimeMs.
Proof. split; [done|]. intros [x|[s us]]; [done|]. cbn. by repeat case_match. Qed.

Lemma free_minute : always without_admin Replay.redisMinuteBucket.
Proof. apply always_bind; [apply free_time|done]. Qed.

Lemma checked_ip k :
  checked (fun k' r => exists b, r = inr b /\ (b = false -> deps.(ipRateLimitPerMin) <= 0
      \/ exists minute count, happened k' (RedisIncr ("api:control_invoke_ip:" +:+ req.(req_ip) +:+ ":" +:+ pretty (minute : Z))) (inr count)
           /\ count <= deps.(ipRateLimitPerMin))) k (ipRateExceeded deps req.(req_ip)).
Proof.
  unfold ipRateExceeded. destruct (Z.leb_spec deps.(ipRateLimitPerMin) 0) as [Hl|Hl]; [exists false; auto|].
  eapply (checked_try (fun k' r => forall b, r = inr b -> b = false ->
    exists minute count, happened k' (RedisIncr ("api:control_invoke_ip:" +:+ req.(req_ip) +:+ ":" +:+ pretty (minute : Z))) (inr count)
           /\ count <= deps.(ipRateLimitPerMin))).
  - eapply (checked_seq _ _ _ _ _ (checked_free k _ free_minute)); [|by intros].
    intros k1 minute _ _. split; [done|]. intros [x|count]; [done|]. cbn [lift bind mbind prog_bind].
    set (incr := RedisIncr ("api:control_invoke_ip:" +:+ req.(req_ip) +:+ ":" +:+ pretty minute)).
    pose proof (happened_now k1 incr (inr count)) as Hh.
    destruct (count =? 1).
    + split; [done|]. intros [x|[]]; cbn; [done|]. intros b [= <-] Hb%Z.ltb_ge. exists minute, count.
      split; [exact (happened_more _ _ _ _ (remember_le _ _ _) Hh)|done].
    + cbn. intros b [= <-] Hb%Z.ltb_ge. by exists minute, count.
  - intros k' b _ Hb. exists b. split; [done|]. intros ->. right. by eapply Hb.
  - intros k' x _ _. exists true. by split.
Qed.

Lemma free_keys z force : always without_admin (zone_keys deps.(auth) z force).
Proof.
  assert (forall now, always without_admin (fetchAndStore z now)) as Hf.
  { intros now. apply always_try; [|by intros|by intros]. split; [done|]. intros [x|[st content]]; [done|]. cbn.
    destruct (negb _); [done|]. apply always_bind; [apply always_lift|]. intros raw. apply always_bind; [apply always_lift|].
    intros body. apply always_bind; [apply always_lift|]. intros keys. destruct keys; try done. apply always_lift. }
  split; [done|]. intros now. split; [done|]. intros [ks|[cached|]|]; [done| |apply Hf|done].
  apply always_try; [apply Hf|done|]. intros err. by case_match.
Qed.

Lemma checked_verify k :
  checked (fun k' r => forall c, r = inr c -> token_verified k' c) k (verify deps.(auth) req.(authorization)).
Proof.
  unfold verify. destruct (bearer req.(authorization)) as [x|token] eqn:Hb; [done|]. cbn [lift mbind prog_bind bind].
  destruct (peek_zone token) as [x|z]; [done|]. cbn [lift mbind prog_bind bind].
  eapply (checked_seq (fun k' r => forall payload, r = inr payload ->
    exists keys, happened k' (JwtVerify keys token (verify_options deps.(auth))) (Verified payload))); [| |done].
  - unfold verified_payload. eapply (checked_seq _ _ _ _ _ (checked_free k _ (free_keys z false))); [|done].
    intros k1 keys _ _. split; [done|]. intros [payload|m|m]; cbn [bind]; [|
      |done].
    + intros p [= <-]. exists keys. apply happened_now.
    + eapply (checked_seq _ _ _ _ _ (checked_free _ _ (free_keys z true))); [|done].
      intros k2 keys' _ _. split; [done|]. intros [payload|m'|m']; cbn [bind]; [|done|done]. intros p [= <-]. exists keys'. apply happened_now.
  - intros k1 payload _ Hp. apply monitored_lift. intros c Hc. destruct (Hp payload eq_refl) as [keys Hh].
    exists token, keys, payload. split; [done|]. split; [done|].
    assert (c.(zoneId) = z) as ->; [|done]. revert Hc. unfold read_claims. repeat case_match; by intros; simplify_eq.
Qed.

Lemma checked_mark k c :
  checked (fun k' r => r = inr true -> exists ttl, happened k' (RedisSetPxNx (Replay.REDIS_KEY_PREFIX +:+ c.(jti)) "1" ttl) (inr true)) k
    (Replay.mark deps.(maxTtlMs) c.(jti) c.(exp)).
Proof.
  unfold Replay.mark. case_bool_decide; [done|]. eapply (checked_seq _ _ _ _ _ (checked_free k _ free_time)); [|done].
  intros k1 now _ _. destruct (Replay.claim_ttl _ _ _) as [|ttl|]; [done| |done].
  split; [done|]. intros [x|b]; cbn; [done|]. intros [= ->]. exists ttl. apply happened_now.
Qed.

Lemma checked_zone k c operators :
  (forall subjects, operators = Some subjects -> happened k OperatorSubjects (Some subjects)) ->
  checked (fun k' r => forall zone, r = inr (inr zone) -> zone_granted k' c zone) k (resolveEffectiveZone deps req c operators).
Proof.
  intros Hop. unfold resolveEffectiveZone. set (target := match req.(zone_scope) with Some h => trim h | None => "" end).
  case_bool_decide as Ht; [cbn; intros zone [= <-]; by left|]. case_bool_decide as Hz; [cbn; intros zone [= <-]; by left|]. cbn [orb].
  destruct (zone_scope_shape target) eqn:Hshape; [|done]. cbn [negb].
  destruct operators as [subjects|]; [|done]. case_bool_decide as Hsub; [|done]. cbn [negb].
  destruct deps.(has_zone_authority); [|done]. cbn [negb]. split; [done|]. intros [x|[t|]]; [done| |done]. cbn.
  destruct t.(archived) eqn:?; [done|]. destruct t.(reserved) eqn:?; [done|]. case_bool_decide; [done|].
  destruct t.(operatorGoverned) eqn:?; [|done]. cbn. intros zone [= <-]. right. exists subjects, t.
  split_and!; try done; [|eauto using happened_more, remember_le|apply happened_now].
  unfold target. by destruct req.(zone_scope).
Qed.

(** ** The route *)

(** The dispatcher of a cleared request only makes calls its principal is entitled to. *)
Lemma checked_interp {A : Type} k c zone client (m : prog admin_call (fun _ => (exn + json)%type) exn A) :
  cleared k c zone -> always (DispatchFacts.entitled (principal_of c zone)) m ->
  checked (extends suffix k) k (interp (fun call => Vis (Admin client call) Ret) m).
Proof.
  revert k. induction m as [a|x|call f IH]; intros k Hc Hm; [cbn; unfold extends; reflexivity..|].
  destruct Hm as [He Hf]. split; [by exists c, zone|]. intros r. cbn [bind].
  eapply (monitored_impl suffix); [apply remember_le| |apply IH; [by eapply cleared_more; [apply remember_le|]|apply Hf]].
  intros k' r' _ Hx. unfold extends in *. by etrans; [apply remember_le|].
Qed.

(** What a reply says of the history: success was cleared and is on record; so is an
    applied operation whose record failed, but for the record; any other reply is a
    refusal offered to the stream as such.  An error escapes only once the token is
    verified. *)
Definition accounted (k : History) (r : exn + Reply) : Prop :=
  match r with
  | inl _ => exists c, admitted k /\ token_verified k c
  | inr reply =>
      (exists c zone i at_, cleared k c zone /\ reply.(status) = 200
         /\ durable k (decided req.(req_id) c zone i allow None i.(i_authorizedBy) at_))
      \/ (exists c zone i at_, cleared k c zone /\ reply.(status) = 500
           /\ offered k (decided req.(req_id) c zone i allow None i.(i_authorizedBy) at_))
      \/ (400 <= reply.(status) /\ exists ev, ev.(e_decision) = deny /\ ev.(e_requestId) = req.(req_id) /\ offered k ev)
  end.

(** A refusal after its event. *)
Lemma checked_refusal k (ev : Z -> AuditEvent) reply :
  400 <= reply.(status) -> (forall at_, (ev at_).(e_decision) = deny /\ (ev at_).(e_requestId) = req.(req_id)) ->
  checked accounted k (_ ← emitDeny hmac_sha256 deps ev; Ret reply).
Proof.
  intros Hst Hev. eapply (checked_seq _ _ _ _ _ (checked_deny k ev)); [|by intros k' x _ (_ & [=] & _)].
  intros k' [] _ (_ & _ & at_ & Ho). right; right. split; [done|]. exists (ev at_). destruct (Hev at_). by split_and!.
Qed.

Lemma checked_perform k c zone i :
  cleared k c zone -> checked accounted k (perform_invoke hmac_sha256 sha256Hex deps req.(req_id) c zone i).
Proof.
  intros Hc. unfold perform_invoke, dispatch_through.
  eapply (checked_try _ _ _ _ _ _ (checked_interp k c zone _ _ Hc (DispatchFacts.dispatch_calls_entitled _ _ _))).
  - intros k1 result Hle _. split; [done|]. intros at_. cbn [bind].
    set (ev := decided req.(req_id) c zone i allow None i.(i_authorizedBy) at_).
    assert (cleared (remember k1 DateNow at_) c zone) as Hc1 by (eapply cleared_more; [|exact Hc]; by etrans; [|apply remember_le]).
    eapply (checked_try _ _ _ _ _ _ (checked_emit _ ev)).
    + intros k2 [] Hle2 [_ Hd]. left. exists c, zone, i, at_. split; [by eapply cleared_more|]. split; [done|by apply Hd].
    + intros k2 x Hle2 [Ho _]. right; left. exists c, zone, i, at_. split; [by eapply cleared_more|]. by split.
  - intros k1 err _ _. apply checked_refusal; [|done]. destruct err as [| [] |]; cbn; lia.
Qed.

Lemma checked_authenticated k c : admitted k -> token_verified k c -> checked accounted k (authenticated hmac_sha256 sha256Hex deps req c).
Proof.
  intros Ha Ht. unfold authenticated. eapply (checked_seq _ _ _ _ _ (checked_mark k c));
    [|intros k' x Hle _; exists c; eauto using admitted_more, token_verified_more].
  intros k1 [] Hle1 Hm; cbn [negb]; [|apply checked_refusal; [cbn; lia|done]].
  destruct (Hm eq_refl) as [ttl Hset]. split; [done|]. intros [] ; cbn [negb bind]; [|apply checked_refusal; [cbn; lia|done]].
  set (k2 := remember k1 (RateAllow c.(sub)) true).
  assert (k1 `suffix_of` k2) as Hle2 by apply remember_le.
  assert (happened k2 (RateAllow c.(sub)) true) as Hrate by apply happened_now.
  unfold authorized. eapply (checked_seq (fun k' r => exists operators, r = inr operators
    /\ forall subjects, operators = Some subjects -> happened k' OperatorSubjects (Some subjects))).
  { destruct deps.(has_operators); [split; [done|]; intros r; exists r; split; [done|]; intros subjects ->; apply happened_now|by exists None]. }
  2: { by intros k' x _ (? & [=] & _). }
  intros k3 operators Hle3 (? & [= <-] & Hop).
  eapply (checked_seq _ _ _ _ _ (checked_zone k3 c operators Hop)).
  2: { intros k' x Hle _. exists c. assert (k `suffix_of` k') by (etrans; [exact Hle1|]; etrans; [exact Hle2|]; by etrans).
       eauto using admitted_more, token_verified_more. }
  intros k4 [reason|zone] Hle4 Hz; [apply checked_refusal; [cbn; lia|done]|].
  assert (k1 `suffix_of` k4) by (etrans; [exact Hle2|]; by etrans).
  apply checked_perform. split_and!.
  - eapply admitted_more; [|exact Ha]. by etrans.
  - eapply token_verified_more; [|exact Ht]. by etrans.
  - exists ttl. by eapply happened_more.
  - eapply happened_more; [|exact Hrate]. by etrans.
  - by apply Hz.
Qed.

Lemma checked_handle : checked accounted [] (handle hmac_sha256 sha256Hex deps req).
Proof.
  unfold handle. eapply (checked_seq _ _ _ _ _ (checked_gate [])); [|by intros k' x _ (? & [=] & _)].
  intros k1 [] _ (? & [= <-] & Hg); cbn [negb]; [|apply checked_refusal; [cbn; lia|done]].
  eapply (checked_seq _ _ _ _ _ (checked_ip k1)); [|by intros k' x _ (? & [=] & _)].
  intros k2 exceeded Hle2 (b & [= <-] & Hip). destruct exceeded; cbn [negb]; [apply checked_refusal; [cbn; lia|done]|].
  assert (admitted k2) as Ha.
  { split; [|by apply Hip]. destruct (Hg eq_refl) as (path & Hp & Hh). exists path. eauto using happened_more. }
  eapply (checked_try _ _ _ _ _ _ (checked_verify k2)).
  - intros k3 c Hle3 Hv. apply checked_authenticated; [by eapply admitted_more|by apply Hv].
  - intros k3 err _ _. apply checked_refusal; [cbn; lia|done].
Qed.
End facts.

(** C26. Whatever the services answer, a request to the control route calls the admin
    client only after the gate file was found, the count of its address stayed within
    the ceiling, its bearer token was verified by [jwtVerify] with the configured issuer
    and audience, the id of that token was newly claimed in Redis, the rate limiter
    admitted its subject, and the zone it acts in is the token's own or one an operator
    identity was granted; and then only for what the scopes of that token entitle to in
    that zone.  It answers 200 only if in addition the allow event is on the stream or in
    the outbox, and 500 only for a cleared operation whose allow event it has offered; any
    other answer is an error whose deny event has been offered to the stream.  An error
    escapes the route only for a verified token. *)
Theorem invoke_guarded `{Runtime} `{TokenVerifier} `{Base64} hmac_sha256 sha256Hex deps req :
  monitored (permitted deps req) remember (accounted hmac_sha256 deps req) [] (handle hmac_sha256 sha256Hex deps req).
Proof. apply checked_handle. Qed.
End ControlFacts.
