(* ===== verification/OperatorRuns.v ===== *)
(** * Message runs of the Operator

    [apps/api/src/operator-message-state.ts]: the lifecycle of a chat message run as a
    state machine driven by numbered events.  Event numbers are integers. *)

From S2P Require Import Prelude.
From S2P Require Import Json.
Local Open Scope string_scope.
Local Open Scope Z_scope.

Module MessageRun.

Inductive MessageRunState :=
| queued
| sending
| waiting_for_model
| reasoning
| waiting_for_tool
| waiting_for_user_approval
| executing
| streaming
| completed
| cancelled
| failed
| timeout.

#[export] Instance MessageRunState_eq_dec : EqDecision MessageRunState.
Proof. solve_decision. Defined.

Definition MESSAGE_RUN_STATES : list MessageRunState :=
  [queued; sending; waiting_for_model; reasoning; waiting_for_tool; waiting_for_user_approval; executing; streaming; completed;
   cancelled; failed; timeout].

Definition TERMINAL_MESSAGE_RUN_STATES : list MessageRunState := [completed; cancelled; failed; timeout].

Definition state_text (s : MessageRunState) : string :=
  match s with
  | queued => "queued"
  | sending => "sending"
  | waiting_for_model => "waiting_for_model"
  | reasoning => "reasoning"
  | waiting_for_tool => "waiting_for_tool"
  | waiting_for_user_approval => "waiting_for_user_approval"
  | executing => "executing"
  | streaming => "streaming"
  | completed => "completed"
  | cancelled => "cancelled"
  | failed => "failed"
  | timeout => "timeout"
  end.

Definition TRANSITIONS (s : MessageRunState) : list MessageRunState :=
  match s with
  | queued => [sending; cancelled; failed; timeout]
  | sending => [waiting_for_model; cancelled; failed; timeout]
  | waiting_for_model =>
      [reasoning; waiting_for_tool; waiting_for_user_approval; streaming; completed; cancelled; failed; timeout]
  | reasoning => [waiting_for_tool; streaming; completed; cancelled; failed; timeout]
  | waiting_for_tool => [executing; waiting_for_user_approval; cancelled; failed; timeout]
  | waiting_for_user_approval => [executing; cancelled; failed; timeout]
  | executing => [waiting_for_tool; streaming; completed; cancelled; failed; timeout]
  | streaming => [waiting_for_tool; completed; cancelled; failed; timeout]
  | completed | cancelled | failed | timeout => []
  end.

Record MessageRunSnapshot := {
  id : string;
  state : MessageRunState;
  lastEventSeq : Z;
  reason : option string;
  errorCode : option string;
  errorDetail : option string;
  completedAt : option string
}.

Record MessageRunEvent := {
  eventSeq : Z;
  e_state : MessageRunState;
  e_reason : option string;
  e_errorCode : option string;
  e_errorDetail : option string;
  e_createdAt : option string
}.

Inductive run_error :=
| InvalidMessageRunTransitionError (from to : MessageRunState)
| InvalidMessageRunEventError (message : string).

Definition isTerminalMessageRunState (s : MessageRunState) : bool := bool_decide (s ∈ TERMINAL_MESSAGE_RUN_STATES).

Definition canTransitionMessageRun (from to : MessageRunState) : bool := bool_decide (from = to) || bool_decide (to ∈ TRANSITIONS from).

Definition assertMessageRunTransition (from to : MessageRunState) : run_error + unit :=
  if canTransitionMessageRun from to then inr tt else inl (InvalidMessageRunTransitionError from to).

(** [a ?? b]. *)
Definition nullish_or (a b : option string) : option string := match a with Some x => Some x | None => b end.

Definition applyMessageRunEvent (run : MessageRunSnapshot) (event : MessageRunEvent) : run_error + MessageRunSnapshot :=
  if event.(eventSeq) <=? run.(lastEventSeq) then inl (InvalidMessageRunEventError "message run events must advance monotonically")
  else match assertMessageRunTransition run.(state) event.(e_state) with
       | inl x => inl x
       | inr _ =>
           inr {| id := run.(id); state := event.(e_state); lastEventSeq := event.(eventSeq);
                  reason := nullish_or event.(e_reason) run.(reason);
                  errorCode := nullish_or event.(e_errorCode) run.(errorCode);
                  errorDetail := nullish_or event.(e_errorDetail) run.(errorDetail);
                  completedAt := if isTerminalMessageRunState event.(e_state)
                                 then nullish_or event.(e_createdAt) run.(completedAt) else run.(completedAt) |}
       end.

Definition seq_le (a b : MessageRunEvent) : Prop := a.(eventSeq) <= b.(eventSeq).

#[export] Instance seq_le_dec a b : Decision (seq_le a b).
Proof. unfold seq_le. apply _. Defined.

#[export] Instance seq_le_total : Total seq_le.
Proof. intros a b. unfold seq_le. lia. Qed.

#[export] Instance seq_le_trans : Transitive seq_le.
Proof. intros a b c. unfold seq_le. lia. Qed.

(** [reduce(applyMessageRunEvent, run)], which throws what the first bad event throws. *)
Fixpoint apply_all (run : MessageRunSnapshot) (events : list MessageRunEvent) : run_error + MessageRunSnapshot :=
  match events with
  | [] => inr run
  | e :: rest => match applyMessageRunEvent run e with inl x => inl x | inr run' => apply_all run' rest end
  end.

(** [sort] is stable, as [merge_sort] is. *)
Definition foldMessageRunEvents (run : MessageRunSnapshot) (events : list MessageRunEvent) : run_error + MessageRunSnapshot :=
  apply_all run (merge_sort seq_le events).

(** ** The lifecycle *)

(** One move of the machine. *)
Definition moves (from to : MessageRunState) : Prop := to ∈ TRANSITIONS from.

Lemma settled_no_moves from to : isTerminalMessageRunState from = true -> ~ moves from to.
Proof. destruct from; intros H Hm; try discriminate H; by apply not_elem_of_nil in Hm. Qed.

Lemma moves_forward s t : moves s t -> isTerminalMessageRunState s = false.
Proof. intros Hm. destruct (isTerminalMessageRunState s) eqn:Ht; [|done]. by apply (settled_no_moves s t) in Ht. Qed.

(** Following moves from a settled state leads nowhere else. *)
Lemma settled_rtc s t : isTerminalMessageRunState s = true -> rtc moves s t -> t = s.
Proof. intros Hs Hr. inversion Hr as [|? y ? Hm _]; [done|]. apply moves_forward in Hm. congruence. Qed.

Lemma can_moves from to : canTransitionMessageRun from to = true -> from = to \/ moves from to.
Proof. unfold canTransitionMessageRun. intros [H|H]%orb_true_iff; apply bool_decide_eq_true_1 in H; auto. Qed.

(** An accepted event. *)
Lemma apply_spec run e run' :
  applyMessageRunEvent run e = inr run' ->
  run.(lastEventSeq) < e.(eventSeq) /\ rtc moves run.(state) run'.(state)
  /\ run'.(state) = e.(e_state) /\ run'.(lastEventSeq) = e.(eventSeq) /\ run'.(id) = run.(id)
  /\ (isTerminalMessageRunState e.(e_state) = false -> run'.(completedAt) = run.(completedAt)).
Proof.
  unfold applyMessageRunEvent, assertMessageRunTransition. destruct (Z.leb_spec e.(eventSeq) run.(lastEventSeq)); [done|].
  destruct (canTransitionMessageRun run.(state) e.(e_state)) eqn:Hc; [|done]. intros [= <-]. cbn.
  split_and!; try done; [|by intros ->]. destruct (can_moves _ _ Hc) as [->|Hm]; [reflexivity|by apply rtc_once].
Qed.

(** A run that is not settled has no completion time. *)
Definition consistent (run : MessageRunSnapshot) : Prop := isTerminalMessageRunState run.(state) = false -> run.(completedAt) = None.

Lemma apply_consistent run e run' : applyMessageRunEvent run e = inr run' -> consistent run -> consistent run'.
Proof.
  intros Ha Hc Ht. destruct (apply_spec _ _ _ Ha) as (_ & Hr & Hs & _ & _ & Hcomp). rewrite Hs in Ht, Hr. rewrite (Hcomp Ht). apply Hc.
  destruct (isTerminalMessageRunState run.(state)) eqn:Hrun; [|done]. rewrite (settled_rtc _ _ Hrun Hr) in Ht. congruence.
Qed.

Lemma apply_all_spec events run run' :
  apply_all run events = inr run' ->
  rtc moves run.(state) run'.(state) /\ Forall (fun e => run.(lastEventSeq) < e.(eventSeq) <= run'.(lastEventSeq)) events
  /\ NoDup (eventSeq <$> events) /\ run.(lastEventSeq) <= run'.(lastEventSeq) /\ (consistent run -> consistent run').
Proof.
  revert run. induction events as [|e events IH]; intros run Ha; cbn [apply_all] in Ha; [simplify_eq; split_and!; try done; constructor|].
  destruct (applyMessageRunEvent run e) as [x|run1] eqn:He; [done|]. destruct (apply_spec _ _ _ He) as (Hlt & Hr & _ & Hl & _).
  destruct (IH run1 Ha) as (Hr1 & Hf & Hnd & Hle & Hc). rewrite Hl in Hf, Hle. split_and!; [by etrans| | |lia|].
  - constructor; [lia|]. eapply Forall_impl; [exact Hf|]. cbn. lia.
  - apply NoDup_cons. split; [|done]. intros Hin. apply list_elem_of_fmap in Hin as (e' & Heq & Hin).
    rewrite Forall_forall in Hf. specialize (Hf _ Hin). lia.
  - intros Hcons. by apply Hc, (apply_consistent run e).
Qed.

(** A run only moves along its state diagram: when a batch of events is folded, in
    whatever order it arrives, the events carry distinct numbers above the last one seen,
    the new state is reached from the old one by moves of the diagram, a settled run
    stays as it is settled, and an unsettled one has no completion time. *)
Theorem message_run_lifecycle run events run' :
  foldMessageRunEvents run events = inr run' ->
  rtc moves run.(state) run'.(state)
  /\ (isTerminalMessageRunState run.(state) = true -> run'.(state) = run.(state))
  /\ Forall (fun e => run.(lastEventSeq) < e.(eventSeq) <= run'.(lastEventSeq)) events
  /\ NoDup (eventSeq <$> events) /\ (consistent run -> consistent run').
Proof.
  intros Hf. destruct (apply_all_spec _ _ _ Hf) as (Hr & Hall & Hnd & _ & Hc).
  pose proof (merge_sort_Permutation seq_le events) as Hp. split_and!; [done| | | |done].
  - intros Ht. by eapply settled_rtc.
  - by rewrite <-Hp.
  - by rewrite <-Hp.
Qed.

(** ** Order of arrival *)

Lemma distinct_antisym (xs : list MessageRunEvent) x y :
  NoDup (eventSeq <$> xs) -> x ∈ xs -> y ∈ xs -> seq_le x y -> seq_le y x -> x = y.
Proof.
  intros Hnd Hx Hy Hxy Hyx. apply list_elem_of_lookup in Hx as [i Hi]. apply list_elem_of_lookup in Hy as [j Hj]. unfold seq_le in *.
  assert (i = j) as ->; [|congruence]. apply (NoDup_lookup (eventSeq <$> xs) i j x.(eventSeq)); [done|..]; rewrite list_lookup_fmap.
  - by rewrite Hi.
  - rewrite Hj. cbn. f_equal. lia.
Qed.

Lemma sorted_unique (xs ys : list MessageRunEvent) :
  xs ≡ₚ ys -> NoDup (eventSeq <$> xs) -> merge_sort seq_le xs = merge_sort seq_le ys.
Proof.
  intros Hp Hnd. apply (StronglySorted_unique_strong seq_le); [|by apply StronglySorted_merge_sort; apply _..|by rewrite !merge_sort_Permutation].
  intros x y Hx Hy. rewrite merge_sort_Permutation in Hx, Hy. rewrite <-Hp in Hy. by apply (distinct_antisym xs).
Qed.

(** Folding events with distinct numbers gives the same snapshot, or the same error,
    in whatever order they arrive. *)
Theorem fold_order_irrelevant run events events' :
  events ≡ₚ events' -> NoDup (eventSeq <$> events) -> foldMessageRunEvents run events = foldMessageRunEvents run events'.
Proof. intros Hp Hnd. unfold foldMessageRunEvents. by rewrite (sorted_unique _ _ Hp Hnd). Qed.

(** Every unsettled run can be cancelled, failed or timed out at once. *)
Lemma can_always_settle s t :
  isTerminalMessageRunState s = false -> t ∈ [cancelled; failed; timeout] -> canTransitionMessageRun s t = true.
Proof. intros Hs Ht. set_unfold in Ht. by destruct s; try discriminate Hs; destruct_or? Ht; subst t. Qed.
End MessageRun.

(** * Concurrent Operator runs

    [apps/api/src/operator-run-limiter.ts] and [operator-execution-lease.ts]: run slots
    shared by all API processes in a Redis sorted set, one member per run scored by the
    end of its lease, and the guard of an execution lock.  The scripts run atomically at
    one time of the server's clock, in milliseconds.  The sorted-set commands they use
    are a parameter with their documented behaviour. *)

(** The commands of the scripts; [zread] is the contents of a key at a time. *)
Class SortedSets := {
  zdb : Type;
  zread : Z -> string -> zdb -> gmap string Z;
  zremrangebyscore : Z -> string -> Z -> zdb -> zdb;
  zadd : Z -> string -> Z -> string -> zdb -> zdb;
  zrem : Z -> string -> string -> zdb -> zdb;
  pexpire : Z -> string -> Z -> zdb -> zdb;
  del : Z -> string -> zdb -> zdb
}.

(** Each command acts on its key only, at its time; a key read later holds what it held
    or, once its lifetime is over, nothing; [PEXPIRE] sets that lifetime. *)
Class SortedSetLaws `{SortedSets} : Prop := {
  zread_rem : forall t k mx db, zread t k (zremrangebyscore t k mx db) = filter (fun ms => mx < ms.2) (zread t k db);
  zread_add : forall t k sc m db, zread t k (zadd t k sc m db) = <[m := sc]> (zread t k db);
  zread_zrem : forall t k m db, zread t k (zrem t k m db) = delete m (zread t k db);
  zread_del : forall t k db, zread t k (del t k db) = ∅;
  zread_pexpire : forall t t' k ttl db, 0 < ttl -> t <= t' < t + ttl -> zread t' k (pexpire t k ttl db) = zread t k db;
  zread_later : forall t t' k db, t <= t' -> zread t' k db ⊆ zread t k db;
  zread_zrem_later : forall t t' k m m' sc db, t <= t' -> m' <> m -> zread t' k db !! m' = Some sc ->
    zread t' k (zrem t k m db) !! m' = Some sc
}.

Module RunLimiter.

Definition DEFAULT_LEASE_TTL_MS : Z := 150000.
Definition DEFAULT_RENEW_INTERVAL_MS : Z := 30000.

Record Options := { maxConcurrentRuns : Z; leaseTtlMs : Z; renewIntervalMs : Z }.

(** The checks of [createOperatorRunLimiter]; the numbers are integers. *)
Definition createOperatorRunLimiter (max : Z) (ttl renew : option Z) : string + Options :=
  let ttl := default_to DEFAULT_LEASE_TTL_MS ttl in
  let renew := default_to DEFAULT_RENEW_INTERVAL_MS renew in
  if max <? 1 then inl "Operator concurrent run limit must be a positive integer"
  else if ttl <? 1 then inl "Operator run lease TTL must be a positive integer"
  else if (renew <? 1) || (ttl <=? renew) then inl "Operator run lease renewal interval must be a positive integer below its TTL"
  else inr {| maxConcurrentRuns := max; leaseTtlMs := ttl; renewIntervalMs := renew |}.

Section scripts.
Context `{SortedSets} (o : Options).

(** [ACQUIRE_SCRIPT]. *)
Definition acquire_script (now : Z) (key owner : string) (db : zdb) : zdb * Z :=
  let db := zremrangebyscore now key now db in
  if o.(maxConcurrentRuns) <=? Z.of_nat (size (zread now key db)) then (pexpire now key o.(leaseTtlMs) db, 0)
  else (pexpire now key o.(leaseTtlMs) (zadd now key (now + o.(leaseTtlMs)) owner db), 1).

(** [RENEW_SCRIPT]. *)
Definition renew_script (now : Z) (key owner : string) (db : zdb) : zdb * Z :=
  match zread now key db !! owner with
  | None => (db, 0)
  | Some _ => (pexpire now key o.(leaseTtlMs) (zadd now key (now + o.(leaseTtlMs)) owner db), 1)
  end.

(** [RELEASE_SCRIPT]. *)
Definition release_script (now : Z) (key owner : string) (db : zdb) : zdb * Z :=
  let removed := if bool_decide (is_Some (zread now key db !! owner)) then 1 else 0 in
  let db := zrem now key owner db in
  if bool_decide (size (zread now key db) = 0%nat) then (del now key db, removed) else (db, removed).

(** ** The lease in the process that holds it *)

Record Lease := { released : bool; renewing : bool; aborted : bool; timer : bool }.

Definition new_lease : Lease := {| released := false; renewing := false; aborted := false; timer := true |}.

Definition loseLease (l : Lease) : Lease :=
  if l.(released) || l.(aborted) then l
  else {| released := l.(released); renewing := l.(renewing); aborted := true; timer := false |}.

(** [renew] up to its await: whether the script is sent. *)
Definition renew_start (l : Lease) : Lease * bool :=
  if l.(released) || l.(renewing) || l.(aborted) then (l, false)
  else ({| released := l.(released); renewing := true; aborted := l.(aborted); timer := l.(timer) |}, true).

(** The rest of it: the answer of the script, [None] when the call failed.  The second
    part tells whether [onRenewError] is called. *)
Definition renew_end (answer : option Z) (l : Lease) : Lease * bool :=
  let done_ (l : Lease) := {| released := l.(released); renewing := false; aborted := l.(aborted); timer := l.(timer) |} in
  match answer with
  | Some n => if l.(released) then (done_ l, false) else if n =? 1 then (done_ l, false) else (done_ (loseLease l), true)
  | None => (done_ (loseLease l), true)
  end.

(** [release]: whether the script is sent. *)
Definition release_start (l : Lease) : Lease * bool :=
  if l.(released) then (l, false)
  else ({| released := true; renewing := l.(renewing); aborted := l.(aborted); timer := false |}, true).
End scripts.

(** ** The shared slots *)

(** A script call, with the time it runs at and the run it is for. *)
Inductive SlotOp :=
| Acquire (owner : string)
| Renew (owner : string)
| Release (owner : string).

Section slots.
Context `{SortedSets} (o : Options) (key : string).

Definition slot_step (t : Z) (op : SlotOp) (db : zdb) : zdb * Z :=
  match op with
  | Acquire owner => acquire_script o t key owner db
  | Renew owner => renew_script o t key owner db
  | Release owner => release_script t key owner db
  end.

(** What the calls so far entitle to: the end of the lease of each run that acquired or
    renewed and has not released. *)
Definition entitle (t : Z) (op : SlotOp) (answer : Z) (leases : gmap string Z) : gmap string Z :=
  match op with
  | Acquire owner | Renew owner => if answer =? 1 then <[owner := t + o.(leaseTtlMs)]> leases else leases
  | Release owner => delete owner leases
  end.

Fixpoint run_slots (ops : list (Z * SlotOp)) (db : zdb) (leases : gmap string Z) : zdb * gmap string Z :=
  match ops with
  | [] => (db, leases)
  | (t, op) :: rest => let '(db', answer) := slot_step t op db in run_slots rest db' (entitle t op answer leases)
  end.

(** Times do not go back. *)
Fixpoint in_time (t : Z) (ops : list (Z * SlotOp)) : Prop :=
  match ops with [] => True | (t', _) :: rest => t <= t' /\ in_time t' rest end.

Fixpoint last_time (t : Z) (ops : list (Z * SlotOp)) : Z := match ops with [] => t | (t', _) :: rest => last_time t' rest end.

(** The leases still running. *)
Definition running (t : Z) (leases : gmap string Z) : gmap string Z := filter (fun ms => t < ms.2) leases.

Context `{!SortedSetLaws} (Hmax : 1 <= o.(maxConcurrentRuns)) (Httl : 0 < o.(leaseTtlMs)).

(** The set never holds more than the slots, and holds every running lease, now and
    later. *)
Definition slots_inv (t : Z) (db : zdb) (leases : gmap string Z) : Prop :=
  Z.of_nat (size (zread t key db)) <= o.(maxConcurrentRuns)
  /\ (forall t' owner e, t <= t' < e -> leases !! owner = Some e -> zread t' key db !! owner = Some e)
  /\ (forall owner e, leases !! owner = Some e -> e <= t + o.(leaseTtlMs)).

Lemma size_later t t' db : t <= t' -> (size (zread t' key db) <= size (zread t key db))%nat.
Proof. intros Ht. by apply map_subseteq_size, zread_later. Qed.

Lemma inv_later t t' db leases : t <= t' -> slots_inv t db leases -> slots_inv t' db leases.
Proof.
  intros Ht (Hs & Hl & He). split_and!; [pose proof (size_later t t' db Ht); lia|intros t1 owner e Ht1; apply Hl; lia|].
  intros owner e Hown. specialize (He _ _ Hown). lia.
Qed.

(** Adding a lease and moving the lifetime of the key. *)
Lemma grant_inv t owner db leases :
  Z.of_nat (size (<[owner := t + o.(leaseTtlMs)]> (zread t key db))) <= o.(maxConcurrentRuns) ->
  (forall owner' e, t < e -> leases !! owner' = Some e -> zread t key db !! owner' = Some e) ->
  (forall owner' e, leases !! owner' = Some e -> e <= t + o.(leaseTtlMs)) ->
  slots_inv t (pexpire t key o.(leaseTtlMs) (zadd t key (t + o.(leaseTtlMs)) owner db)) (<[owner := t + o.(leaseTtlMs)]> leases).
Proof.
  intros Hs Hl He. split_and!.
  - rewrite zread_pexpire by lia. by rewrite zread_add.
  - intros t' owner' e Ht' Hown. assert (t' < t + o.(leaseTtlMs)).
    { destruct (decide (owner' = owner)) as [->|Hne]; [rewrite lookup_insert_eq in Hown; simplify_eq; lia|].
      rewrite lookup_insert_ne in Hown by done. specialize (He _ _ Hown). lia. }
    rewrite zread_pexpire by lia. rewrite zread_add. destruct (decide (owner' = owner)) as [->|Hne].
    + rewrite lookup_insert_eq in Hown. by rewrite lookup_insert_eq.
    + rewrite lookup_insert_ne in Hown |- * by done. apply Hl; [lia|done].
  - intros owner' e. destruct (decide (owner' = owner)) as [->|Hne]; [rewrite lookup_insert_eq; intros [= <-]; lia|].
    rewrite lookup_insert_ne by done. apply He.
Qed.

Lemma acquire_inv t owner db leases :
  slots_inv t db leases ->
  slots_inv t (acquire_script o t key owner db).1 (entitle t (Acquire owner) (acquire_script o t key owner db).2 leases).
Proof.
  intros (Hs & Hl & He). unfold acquire_script. set (db1 := zremrangebyscore t key t db). cbn zeta.
  assert (forall owner' e, t < e -> leases !! owner' = Some e -> zread t key db1 !! owner' = Some e) as Hl1.
  { intros owner' e Hte Hown. unfold db1. rewrite zread_rem. apply map_lookup_filter_Some. split; [apply Hl; [lia|done]|done]. }
  destruct (Z.leb_spec o.(maxConcurrentRuns) (Z.of_nat (size (zread t key db1)))) as [Hfull|Hfree]; cbn [fst snd entitle].
  - split_and!; [|intros t' owner' e Ht' Hown|done].
    + rewrite zread_pexpire by lia. unfold db1. rewrite zread_rem.
      assert (size (filter (fun ms : string * Z => (t < ms.2)%Z) (zread t key db)) <= size (zread t key db))%nat
        by (apply map_subseteq_size, map_filter_subseteq).
      lia.
    + specialize (He _ _ Hown) as He'. rewrite zread_pexpire by lia. apply Hl1; [lia|done].
  - rewrite Z.eqb_refl. apply grant_inv; [|done|done]. rewrite map_size_insert. destruct (zread t key db1 !! owner); cbn; lia.
Qed.

Lemma renew_inv t owner db leases :
  slots_inv t db leases -> slots_inv t (renew_script o t key owner db).1 (entitle t (Renew owner) (renew_script o t key owner db).2 leases).
Proof.
  intros (Hs & Hl & He). unfold renew_script. destruct (zread t key db !! owner) as [sc|] eqn:Hr; cbn [fst snd entitle]; [|by split_and!].
  rewrite Z.eqb_refl. apply grant_inv; [|intros owner' e Hte; apply Hl; lia|done]. rewrite map_size_insert, Hr. cbn. lia.
Qed.

Lemma release_inv t owner db leases :
  slots_inv t db leases -> slots_inv t (release_script t key owner db).1 (entitle t (Release owner) (release_script t key owner db).2 leases).
Proof.
  intros (Hs & Hl & He). unfold release_script. cbn zeta.
  assert (forall t' owner' e, t <= t' < e -> delete owner leases !! owner' = Some e -> zread t' key (zrem t key owner db) !! owner' = Some e) as Hl1.
  { intros t' owner' e Ht' [Hne Hown]%lookup_delete_Some. apply zread_zrem_later; [lia|done|]. by apply Hl. }
  assert (forall owner' e, delete owner leases !! owner' = Some e -> e <= t + o.(leaseTtlMs)) as He1.
  { intros owner' e [_ Hown]%lookup_delete_Some. by apply (He owner'). }
  case_bool_decide as Hz; cbn [fst snd entitle].
  - split_and!; [rewrite zread_del, map_size_empty; lia| |done]. intros t' owner' e Ht' Hown.
    assert (zread t key (zrem t key owner db) !! owner' = Some e) as Hx by (apply Hl1; [lia|done]).
    apply map_size_empty_inv in Hz. by rewrite Hz, lookup_empty in Hx.
  - split_and!; [|done|done]. rewrite zread_zrem.
    assert (size (delete owner (zread t key db)) <= size (zread t key db))%nat by (apply map_subseteq_size, delete_subseteq). lia.
Qed.

Lemma run_inv ops t db leases :
  in_time t ops -> slots_inv t db leases ->
  slots_inv (last_time t ops) (run_slots ops db leases).1 (run_slots ops db leases).2.
Proof.
  revert t db leases. induction ops as [|[t' op] ops IH]; intros t db leases Ho Hinv; [done|]. destruct Ho as [Ht Ho].
  apply (inv_later t t') in Hinv; [|done]. cbn [run_slots last_time].
  assert (slots_inv t' (slot_step t' op db).1 (entitle t' op (slot_step t' op db).2 leases)) as Hstep
    by (destruct op; [by apply acquire_inv|by apply renew_inv|by apply release_inv]).
  destruct (slot_step t' op db) as [db' answer]. by apply IH.
Qed.

(** The members of the set bound the running leases. *)
Lemma running_bounded t db leases : slots_inv t db leases -> Z.of_nat (size (running t leases)) <= o.(maxConcurrentRuns).
Proof.
  intros (Hs & Hl & _). assert (size (running t leases) <= size (zread t key db))%nat; [|lia].
  apply map_subseteq_size, map_subseteq_spec. intros owner e [Hown Hte]%map_lookup_filter_Some. apply Hl; [cbn in Hte; lia|done].
Qed.
End slots.

(** Starting from an empty set, whatever runs acquire, renew and release, in whatever
    order the scripts reach Redis and however long they pause, at no time do more than
    [maxConcurrentRuns] runs hold a lease that has not ended; and a run whose lease has
    not ended renews it successfully. *)
Theorem runs_bounded `{SortedSets} `{!SortedSetLaws} o key ops t db :
  1 <= o.(maxConcurrentRuns) -> 0 < o.(leaseTtlMs) -> zread t key db = ∅ -> in_time t ops ->
  let '(db', leases) := run_slots o key ops db ∅ in
  forall now, last_time t ops <= now ->
  Z.of_nat (size (running now leases)) <= o.(maxConcurrentRuns)
  /\ forall owner e, leases !! owner = Some e -> now < e -> (renew_script o now key owner db').2 = 1.
Proof.
  intros Hmax Httl Hempty Ho. assert (slots_inv o key t db ∅) as Hinv.
  { split_and!; [rewrite Hempty, map_size_empty; lia|by intros ? ? ? _ ?%lookup_empty_Some|by intros ? ? ?%lookup_empty_Some]. }
  apply (run_inv o key Hmax Httl ops) in Hinv; [|done]. destruct (run_slots o key ops db ∅) as [db' leases]. cbn [fst snd] in Hinv.
  intros now Hnow. apply (inv_later o key _ now) in Hinv; [|done..]. split; [by eapply running_bounded|].
  intros owner e Hown Hte. destruct Hinv as (_ & Hl & _). unfold renew_script. by rewrite (Hl now owner e) by (done || lia).
Qed.
End RunLimiter.

(** * The guard of a plan execution lock

    [apps/api/src/operator-execution-lease.ts]: the guard renews the lock it was given
    on a timer and confirms ownership before each change.  Checks that overlap share one
    call of the script; a mismatch or an error loses the lease for good.  The guard is a
    state machine whose inputs are the starts of checks, the answer of the script under
    way, and the stop. *)

Module ExecutionLease.

Inductive LossReason := ownership_lost | renewal_failed.

#[export] Instance LossReason_eq_dec : EqDecision LossReason.
Proof. solve_decision. Defined.

(** [inFlight] holds the checks that wait for the script under way. *)
Record Guard := {
  reason : LossReason;
  stopped : bool;
  aborted : bool;
  timer : bool;
  inFlight : option (list nat)
}.

Definition new_guard : Guard := {| reason := ownership_lost; stopped := false; aborted := false; timer := true; inFlight := None |}.

(** The interval of the timer; [None] when [createExecutionLeaseGuard] throws.  The
    interval is kept times three, so that a third of the lifetime is exact. *)
Definition renew_interval (ttlSeconds : Z) (renewIntervalMs : option Z) : option Z :=
  if ttlSeconds <? 1 then None
  else let thrice := match renewIntervalMs with Some ms => 3 * ms | None => ttlSeconds * 1000 end in
       if (thrice <=? 0) || (3 * (ttlSeconds * 1000) <=? thrice) then None else Some thrice.

(** [lose]; the second part is the reason [onLoss] is called with. *)
Definition lose (next : LossReason) (g : Guard) : Guard * option LossReason :=
  if g.(stopped) || g.(aborted) then (g, None)
  else ({| reason := next; stopped := g.(stopped); aborted := true; timer := false; inFlight := g.(inFlight) |}, Some next).

(** How a check starts: it is refused at once, or joins or starts the script. *)
Inductive Started := RefusedAtOnce | Joined | Sent.

(** [confirmOwned] of the check [i], up to its await. *)
Definition confirm_start (i : nat) (g : Guard) : Guard * Started :=
  if g.(stopped) || g.(aborted) then (g, RefusedAtOnce)
  else match g.(inFlight) with
       | Some waiting =>
           ({| reason := g.(reason); stopped := g.(stopped); aborted := g.(aborted); timer := g.(timer);
               inFlight := Some (i :: waiting) |}, Joined)
       | None =>
           ({| reason := g.(reason); stopped := g.(stopped); aborted := g.(aborted); timer := g.(timer); inFlight := Some [i] |}, Sent)
       end.

(** The rest of [renew] and the [finally] of [confirmOwned]: the answer of the script,
    [None] when the call failed; what the waiting checks resolve to. *)
Definition script_ends (answer : option Z) (g : Guard) : Guard * bool * option LossReason :=
  let '(g', result, lost) :=
    match answer with
    | Some n =>
        if g.(stopped) then (g, false, None)
        else if n =? 1 then (g, true, None)
        else let '(g', lost) := lose ownership_lost g in (g', false, lost)
    | None => let '(g', lost) := lose renewal_failed g in (g', false, lost)
    end in
  ({| reason := g'.(reason); stopped := g'.(stopped); aborted := g'.(aborted); timer := g'.(timer); inFlight := None |}, result, lost).

Definition stop (g : Guard) : Guard :=
  if g.(stopped) then g
  else {| reason := g.(reason); stopped := true; aborted := g.(aborted); timer := false; inFlight := g.(inFlight) |}.

(** ** Runs *)

Inductive GuardEvent := Confirm (i : nat) | Answer (answer : option Z) | Stop.

(** What a run shows: the outcome of a check, or a loss. *)
Inductive GuardOutput := Outcome (i : nat) (owned : bool) | Lost (reason : LossReason).

Definition guard_step (e : GuardEvent) (g : Guard) : Guard * list GuardOutput :=
  match e with
  | Confirm i => let '(g', s) := confirm_start i g in (g', match s with RefusedAtOnce => [Outcome i false] | _ => [] end)
  | Answer a =>
      match g.(inFlight) with
      | None => (g, [])
      | Some waiting =>
          let '(g', owned, lost) := script_ends a g in
          (g', (match lost with Some r => [Lost r] | None => [] end ++ ((fun i => Outcome i owned) <$> waiting))%list)
      end
  | Stop => (stop g, [])
  end.

Fixpoint guard_run (es : list GuardEvent) (g : Guard) : Guard * list GuardOutput :=
  match es with
  | [] => (g, [])
  | e :: rest => let '(g', out) := guard_step e g in let '(g'', outs) := guard_run rest g' in (g'', (out ++ outs)%list)
  end.

Definition over (g : Guard) : bool := g.(stopped) || g.(aborted).

(** A guard that lost its lease has no script under way. *)
Definition settled (g : Guard) : Prop := g.(aborted) = true -> g.(inFlight) = None.

(** One step of such a guard, on every branch. *)
Lemma guard_step_spec e g :
  settled g ->
  settled (guard_step e g).1 /\ (over g = true -> over (guard_step e g).1 = true)
  /\ Forall (fun o => match o with
       | Outcome i true => over g = false /\ e = Answer (Some 1) /\ exists waiting, g.(inFlight) = Some waiting /\ i ∈ waiting
       | Outcome _ false => True
       | Lost _ => over g = false /\ over (guard_step e g).1 = true
       end) (guard_step e g).2.
Proof.
  unfold settled, over, guard_step, confirm_start, script_ends, lose, stop. destruct g as [r st ab tm fl]; cbn. intros Hab.
  destruct e as [i|a|]; cbn.
  - destruct (st || ab) eqn:Ho; cbn; [split_and!; auto; by apply Forall_singleton|]. apply orb_false_iff in Ho as [-> ->].
    destruct fl; cbn; split_and!; auto; try done; apply Forall_nil_2.
  - destruct fl as [waiting|]; cbn; [|split_and!; auto; apply Forall_nil_2].
    destruct ab; [by specialize (Hab eq_refl)|]. destruct st; cbn.
    + destruct a as [n|]; cbn; split_and!; auto; apply Forall_fmap, Forall_true; done.
    + destruct a as [n|]; cbn; [destruct (Z.eqb_spec n 1) as [->|]; cbn|]; split_and!; auto; try done;
        rewrite ?Forall_cons, ?Forall_fmap; try split; try done; apply Forall_forall; cbn; eauto.
  - destruct st; cbn; split_and!; auto; apply Forall_nil_2.
Qed.

Lemma guard_run_settled es g : settled g -> settled (guard_run es g).1.
Proof.
  revert g. induction es as [|e es IH]; intros g Hg; [done|]. cbn. destruct (guard_step_spec e g Hg) as (Hs & _).
  destruct (guard_step e g) as [g' out]. specialize (IH g' Hs). by destruct (guard_run es g').
Qed.

(** Once over, every check is refused and nothing is reported. *)
Lemma over_refuses es g : settled g -> over g = true -> Forall (fun o => exists i, o = Outcome i false) (guard_run es g).2.
Proof.
  revert g. induction es as [|e es IH]; intros g Hg Ho; [apply Forall_nil_2|]. cbn.
  destruct (guard_step_spec e g Hg) as (Hs & Hover & Hout). specialize (Hover Ho).
  destruct (guard_step e g) as [g' out]. specialize (IH g' Hs Hover). destruct (guard_run es g') as [g'' outs].
  apply Forall_app. split; [|done]. eapply Forall_impl; [exact Hout|]. intros [i [|]|r]; cbn; [|by eauto|]; rewrite Ho; by intros [? _].
Qed.

(** C36. The guard fails closed.  After any run [es], a check resolves as owned only when
    the script it waits for answers one while the lease is neither stopped nor lost; a
    reported loss ends the lease; and from then on, or from the stop on, every check is
    refused and no loss is reported, whatever the script still answers. *)
Theorem guard_fails_closed es e rest :
  let g := (guard_run es new_guard).1 in
  let '(g', outs) := guard_step e g in
  (forall i, Outcome i true ∈ outs ->
     over g = false /\ e = Answer (Some 1) /\ exists waiting, g.(inFlight) = Some waiting /\ i ∈ waiting)
  /\ (forall r, Lost r ∈ outs -> over g = false /\ over g' = true)
  /\ (over g' = true -> Forall (fun o => exists i, o = Outcome i false) (guard_run rest g').2).
Proof.
  cbn zeta. assert (settled (guard_run es new_guard).1) as Hg by (by apply guard_run_settled).
  destruct (guard_step_spec e _ Hg) as (Hs & _ & Hout). destruct (guard_step e _) as [g' outs]. rewrite Forall_forall in Hout.
  split_and!; [intros i Hi; exact (Hout _ Hi)|intros r Hr; exact (Hout _ Hr)|]. by apply over_refuses.
Qed.
End ExecutionLease.
