(* ===== verification/AdminAudit.v ===== *)
(** * The admin audit chain

    [packages/adminAudit/ts/src/index.ts]: one record per administrative action, linked
    per zone to the record before it and signed.  A transaction runs the three statements
    of [insertAdminAuditRecord] under [READ COMMITTED]; the advisory lock of the chain is
    held to its end.  The columns hold what Postgres keeps of a record: the payload as
    [jsonb], which has an order of its own for the keys, and the time as an instant.  The
    digests are a parameter.  Records are the ones callers build: no payload has a key
    [__proto__]. *)

From Stdlib Require Import Ascii.
From Stdlib Require String.
From S2P Require Import Prelude.
From S2P Require Import Json.
From S2P Require Import Text.
From S2P Require Import JsonText.
Local Open Scope string_scope.
Local Open Scope Z_scope.

(** [createHash("sha256")] and [createHmac("sha256", key)], printed in hexadecimal. *)
Class Digests := { sha256 : string -> string; hmac_sha256 : string -> string -> string }.

Definition hex_char (c : ascii) : bool := is_digit c || (is_lower c && bool_decide ((nat_of_ascii c <= 102)%nat)).

Class DigestLaws `{Digests} : Prop := {
  sha256_hex : forall s, all_chars hex_char (sha256 s) = true;
  sha256_nonempty : forall s, sha256 s <> "";
  hmac_nonempty : forall k s, hmac_sha256 k s <> ""
}.

Module AdminAudit.

Definition MUTATING_METHODS : list string := ["POST"; "PUT"; "PATCH"; "DELETE"].

Record AdminAuditRecord := {
  requestId : string;
  actorId : option string;
  actorName : option string;
  actorScope : option string;
  action : string;
  method : string;
  path : string;
  zoneId : option string;
  entityType : option string;
  entityId : option string;
  statusCode : Z;
  payloadJson : option (list (string * json))
}.

Definition GLOBAL_CHAIN_KEY : string := "admin-audit::global".

Definition NUL : ascii := ascii_of_nat 0.
Definition US : ascii := ascii_of_nat 31.

Definition stripNul (value : string) : string := remove_chars (fun c => bool_decide (c = NUL)) value.

Fixpoint sanitizeJson (value : json) : json :=
  match value with
  | JStr s => JStr (stripNul s)
  | JArr xs => JArr (sanitizeJson <$> xs)
  | JObj fields => JObj (own_order (foldl (fun out kv => ordered_set (stripNul kv.1) kv.2 out) [] ((fun kv => (kv.1, sanitizeJson kv.2)) <$> fields)))
  | _ => value
  end.

(** [sanitizeJson] of an object. *)
Definition sanitize_fields (fields : list (string * json)) : list (string * json) :=
  match sanitizeJson (JObj fields) with JObj out => out | _ => [] end.

Definition sanitizeRecord (rec : AdminAuditRecord) : AdminAuditRecord :=
  {| requestId := stripNul rec.(requestId);
     actorId := stripNul <$> rec.(actorId);
     actorName := stripNul <$> rec.(actorName);
     actorScope := stripNul <$> rec.(actorScope);
     action := stripNul rec.(action);
     method := stripNul rec.(method);
     path := stripNul rec.(path);
     zoneId := stripNul <$> rec.(zoneId);
     entityType := stripNul <$> rec.(entityType);
     entityId := stripNul <$> rec.(entityId);
     statusCode := rec.(statusCode);
     payloadJson := sanitize_fields <$> rec.(payloadJson) |}.

(** What [contentHash] feeds to the digest, in order; the time, a [Date] and so a whole
    number of milliseconds, is printed by [toISOString]. *)
Definition hashed_fields (id : string) (occurredAt : Z) (rec : AdminAuditRecord) : list string :=
  [id; rec.(requestId); default_to "" rec.(actorId); default_to "" rec.(actorName); default_to "" rec.(actorScope);
   rec.(action); rec.(method); rec.(path); default_to "" rec.(zoneId); default_to "" rec.(entityType);
   default_to "" rec.(entityId); pretty rec.(statusCode);
   match rec.(payloadJson) with Some p => default_to "" (JSON_stringify (JObj p)) | None => "" end; to_iso occurredAt].

Fixpoint write_all (fields : list string) : string :=
  match fields with [] => "" | f :: rest => f +:+ String.String US (write_all rest) end.

Definition content_text (id : string) (occurredAt : Z) (rec : AdminAuditRecord) : string := write_all (hashed_fields id occurredAt rec).

(** ** What a row keeps *)

(** [jsonb] keeps the keys of an object by length, then by their bytes. *)
Definition jsonb_le (a b : string * json) : Prop :=
  (String.length a.1 < String.length b.1)%nat \/ (String.length a.1 = String.length b.1 /\ string_le a.1 b.1).

#[export] Instance jsonb_le_dec a b : Decision (jsonb_le a b).
Proof. unfold jsonb_le. apply _. Defined.

Definition is_defined (v : json) : bool := match v with JUndefined => false | _ => true end.

(** The [jsonb] of a value, which is sent as its JSON text: members that are [undefined]
    are left out, elements that are become [null]. *)
Fixpoint jsonb_of (v : json) : json :=
  match v with
  | JNonFinite => JNull
  | JArr xs => JArr ((fun x => match x with JUndefined => JNull | _ => jsonb_of x end) <$> xs)
  | JObj fields => JObj (merge_sort jsonb_le (filter (fun kv => is_defined kv.2 = true) ((fun kv => (kv.1, jsonb_of kv.2)) <$> fields)))
  | _ => v
  end.

(** The value a reader of the column gets. *)
Fixpoint read_jsonb (v : json) : json :=
  match v with
  | JArr xs => JArr (read_jsonb <$> xs)
  | JObj fields => JObj (own_order ((fun kv => (kv.1, read_jsonb kv.2)) <$> fields))
  | _ => v
  end.

(** The columns copied from the record. *)
Record Columns := {
  c_request_id : string;
  c_actor_id : option string;
  c_actor_name : option string;
  c_actor_scope : option string;
  c_action : string;
  c_method : string;
  c_path : string;
  c_zone_id : option string;
  c_entity_type : option string;
  c_entity_id : option string;
  c_status_code : Z;
  c_payload_json : option json
}.

Definition columns (rec : AdminAuditRecord) : Columns :=
  {| c_request_id := rec.(requestId); c_actor_id := rec.(actorId); c_actor_name := rec.(actorName); c_actor_scope := rec.(actorScope);
     c_action := rec.(action); c_method := rec.(method); c_path := rec.(path); c_zone_id := rec.(zoneId); c_entity_type := rec.(entityType);
     c_entity_id := rec.(entityId); c_status_code := rec.(statusCode); c_payload_json := (fun p => jsonb_of (JObj p)) <$> rec.(payloadJson) |}.

(** A row of [admin_audit_events]; [occurred_at] is an instant. *)
Record Row := {
  id : string;
  stored : Columns;
  occurred_at : Z;
  content_sha256 : option string;
  prev_content_sha256 : option string;
  chain_hmac : option string;
  chain_seq : option Z
}.

(** The record a reader makes of the columns, and the text its digest is taken of. *)
Definition record_of (c : Columns) : AdminAuditRecord :=
  {| requestId := c.(c_request_id); actorId := c.(c_actor_id); actorName := c.(c_actor_name); actorScope := c.(c_actor_scope);
     action := c.(c_action); method := c.(c_method); path := c.(c_path); zoneId := c.(c_zone_id); entityType := c.(c_entity_type);
     entityId := c.(c_entity_id); statusCode := c.(c_status_code);
     payloadJson := match read_jsonb <$> c.(c_payload_json) with Some (JObj fields) => Some fields | _ => None end |}.

Definition row_text (r : Row) : string := content_text r.(id) r.(occurred_at) (record_of r.(stored)).

(** A record whose payload comes back from the column as it was. *)
Definition stable (rec : AdminAuditRecord) : Prop :=
  match rec.(payloadJson) with Some p => read_jsonb (jsonb_of (JObj p)) = JObj p | None => True end.

(** [x === "" ? null : x]. *)
Definition null_if_empty (s : string) : option string := if bool_decide (s = "") then None else Some s.

(** [zone_id IS NOT DISTINCT FROM $1]. *)
Definition chain (zone : option string) (rows : list Row) : list Row := filter (fun r => r.(stored).(c_zone_id) = zone) rows.

(** [chain_seq DESC NULLS LAST]: whether [a] comes before [b]. *)
Definition ahead (a b : Row) : bool :=
  match a.(chain_seq), b.(chain_seq) with
  | Some x, Some y => y <? x
  | Some _, None => true
  | None, _ => false
  end.

Definition first_row (rows : list Row) : option Row :=
  foldl (fun best r => match best with None => Some r | Some b => if ahead r b then Some r else Some b end) None rows.

(** The chain head the second statement reads, with the defaults of the code. *)
Definition chain_head (zone : option string) (rows : list Row) : string * Z :=
  match first_row (chain zone rows) with
  | Some r => (default_to "" r.(content_sha256), default_to 0 r.(chain_seq))
  | None => ("", 0)
  end.

Section digests.
Context `{Digests} (hmacKey : option string).

Definition contentHash (id : string) (occurredAt : Z) (rec : AdminAuditRecord) : string := sha256 (content_text id occurredAt rec).

Definition signing_text (contentSha prevSha : string) : string := contentSha +:+ "|" +:+ prevSha.

Definition chainHmac (contentSha prevSha : string) : string :=
  match hmacKey with
  | Some key => if bool_decide (key = "") then "" else hmac_sha256 key (signing_text contentSha prevSha)
  | None => ""
  end.

(** The row of the [INSERT], for a sanitized record and the head it read. *)
Definition audit_row (id : string) (occurredAt : Z) (rec : AdminAuditRecord) (head : string * Z) : Row :=
  let contentSha := contentHash id occurredAt rec in
  {| id := id; stored := columns rec; occurred_at := occurredAt;
     content_sha256 := Some contentSha;
     prev_content_sha256 := null_if_empty head.1;
     chain_hmac := null_if_empty (chainHmac contentSha head.1);
     chain_seq := Some (head.2 + 1) |}.

(** ** One call, alone *)

Definition insertAdminAuditRecord (id : string) (occurredAt : Z) (rec : AdminAuditRecord) (rows : list Row) : list Row :=
  let rec := sanitizeRecord rec in
  (rows ++ [audit_row id occurredAt rec (chain_head rec.(zoneId) rows)])%list.

(** ** Calls in concurrent transactions *)

(** Between the statements of a call: the lock is held, then the head is known. *)
Inductive Progress :=
| Between
| HasLock (id : string) (occurredAt : Z) (rec : AdminAuditRecord)
| HasHead (id : string) (occurredAt : Z) (rec : AdminAuditRecord) (head : string * Z).

(** A transaction: the rows it has written and not committed, and where its call is. *)
Record Tx := { written : list Row; progress : Progress }.

Record Db := { committed : list Row; open : gmap nat Tx; locks : gmap Z nat }.

Definition chainKey (rec : AdminAuditRecord) : string := default_to GLOBAL_CHAIN_KEY rec.(zoneId).

(** The locks a transaction that ends leaves behind. *)
Definition release (t : nat) (ls : gmap Z nat) : gmap Z nat := filter (fun kt => kt.2 <> t) ls.

Inductive tx_step (hashtext : string -> Z) : Db -> Db -> Prop :=
| step_begin db t :
    db.(open) !! t = None ->
    tx_step hashtext db {| committed := db.(committed); open := <[t := {| written := []; progress := Between |}]> db.(open); locks := db.(locks) |}
| step_lock db t w id occurredAt raw :
    db.(open) !! t = Some {| written := w; progress := Between |} ->
    (db.(locks) !! hashtext (chainKey (sanitizeRecord raw)) = None \/ db.(locks) !! hashtext (chainKey (sanitizeRecord raw)) = Some t) ->
    tx_step hashtext db
      {| committed := db.(committed);
         open := <[t := {| written := w; progress := HasLock id occurredAt (sanitizeRecord raw) |}]> db.(open);
         locks := <[hashtext (chainKey (sanitizeRecord raw)) := t]> db.(locks) |}
| step_head db t w id occurredAt rec :
    db.(open) !! t = Some {| written := w; progress := HasLock id occurredAt rec |} ->
    tx_step hashtext db
      {| committed := db.(committed);
         open := <[t := {| written := w; progress := HasHead id occurredAt rec (chain_head rec.(zoneId) (db.(committed) ++ w)%list) |}]> db.(open);
         locks := db.(locks) |}
| step_insert db t w id occurredAt rec head :
    db.(open) !! t = Some {| written := w; progress := HasHead id occurredAt rec head |} ->
    tx_step hashtext db
      {| committed := db.(committed);
         open := <[t := {| written := (w ++ [audit_row id occurredAt rec head])%list; progress := Between |}]> db.(open);
         locks := db.(locks) |}
| step_commit db t w :
    db.(open) !! t = Some {| written := w; progress := Between |} ->
    tx_step hashtext db {| committed := (db.(committed) ++ w)%list; open := delete t db.(open); locks := release t db.(locks) |}
| step_rollback db t tx :
    db.(open) !! t = Some tx ->
    tx_step hashtext db {| committed := db.(committed); open := delete t db.(open); locks := release t db.(locks) |}.

Definition empty_db : Db := {| committed := []; open := ∅; locks := ∅ |}.

(** ** The promise *)

(** The digest a row carries. *)
Definition digest (r : Row) : string := default_to "" r.(content_sha256).

(** The row was written for a record, whose digest it carries; what is stored of a stable
    one hashes to it again. *)
Definition recorded (r : Row) : Prop :=
  exists rec, r.(stored) = columns rec /\ r.(content_sha256) = Some (contentHash r.(id) r.(occurred_at) rec)
    /\ (stable rec -> r.(content_sha256) = Some (sha256 (row_text r))).

(** One link: the digest of the row before it, its signature over that and its own, and
    its number. *)
Definition chained (prev : option Row) (i : nat) (r : Row) : Prop :=
  default_to "" r.(prev_content_sha256) = match prev with Some p => digest p | None => "" end
  /\ r.(chain_hmac) = null_if_empty (chainHmac (digest r) (default_to "" r.(prev_content_sha256)))
  /\ r.(chain_seq) = Some (Z.of_nat i + 1).

Definition linked (prev : option Row) (i : nat) (r : Row) : Prop := recorded r /\ chained prev i r.

Fixpoint intact_from (prev : option Row) (i : nat) (rows : list Row) : Prop :=
  match rows with
  | [] => True
  | r :: rest => linked prev i r /\ intact_from (Some r) (S i) rest
  end.

(** A chain as the service leaves it: numbered from 1 without gaps, every link in place and
    every row written for a record. *)
Definition intact (rows : list Row) : Prop := intact_from None 0 rows.

(** A chain that verifies: the links and signatures alone. *)
Fixpoint verifies_from (prev : option Row) (i : nat) (rows : list Row) : Prop :=
  match rows with
  | [] => True
  | r :: rest => chained prev i r /\ verifies_from (Some r) (S i) rest
  end.

Definition verifies (rows : list Row) : Prop := verifies_from None 0 rows.

End digests.
End AdminAudit.

(** * Facts of the admin audit chain

    Every chain of [AdminAudit] verifies, however the transactions that wrote it were
    interleaved, and a signed chain can only be shortened by who does not hold the key. *)

Module AdminAuditFacts.
Import AdminAudit.

Lemma default_null_if_empty s : default_to "" (null_if_empty s) = s.
Proof. unfold null_if_empty. by case_bool_decide. Qed.

Lemma chain_app zone xs ys : chain zone (xs ++ ys)%list = (chain zone xs ++ chain zone ys)%list.
Proof. apply filter_app. Qed.

Section chains.
Context `{Digests} (hmacKey : option string).
Notation intact := (intact hmacKey).
Notation intact_from := (intact_from hmacKey).

(** ** Links *)

Definition last_of (prev : option Row) (rows : list Row) : option Row := match last rows with Some r => Some r | None => prev end.

Lemma intact_app prev i xs ys :
  intact_from prev i (xs ++ ys)%list <-> intact_from prev i xs /\ intact_from (last_of prev xs) (i + length xs) ys.
Proof.
  unfold last_of. revert prev i. induction xs as [|x xs IH]; intros prev i; cbn [app AdminAudit.intact_from length].
  - rewrite Nat.add_0_r. cbn. tauto.
  - rewrite IH, last_cons. replace (S i + length xs)%nat with (i + S (length xs))%nat by lia. destruct (last xs); tauto.
Qed.

Lemma intact_snoc prev i rows r :
  intact_from prev i (rows ++ [r])%list <-> intact_from prev i rows /\ linked hmacKey (last_of prev rows) (i + length rows) r.
Proof. rewrite intact_app. cbn [AdminAudit.intact_from]. tauto. Qed.

Lemma intact_lookup prev i rows n r :
  intact_from prev i rows -> rows !! n = Some r -> linked hmacKey (match n with O => prev | S m => rows !! m end) (i + n) r.
Proof.
  revert prev i n. induction rows as [|x rows IH]; intros prev i n; [done|]. cbn [AdminAudit.intact_from]. intros [Hx Hrest].
  destruct n as [|n]; cbn; [intros [= ->]; by rewrite Nat.add_0_r|]. intros Hn.
  specialize (IH _ _ _ Hrest Hn). replace (i + S n)%nat with (S i + n)%nat by lia. by destruct n.
Qed.

(** The row the chain-head query picks from an intact chain is its last. *)
Lemma first_row_intact rows : intact rows -> first_row rows = last rows.
Proof.
  unfold first_row. induction rows as [|r rows IH] using rev_ind; [done|]. intros Hi. apply intact_snoc in Hi as [Hi Hl].
  rewrite foldl_snoc, IH, last_snoc by done. destruct (last rows) as [b|] eqn:Hb; [|done].
  assert (b.(chain_seq) = Some (Z.of_nat (pred (length rows)) + 1)) as Hs.
  { rewrite last_lookup in Hb. by destruct (intact_lookup _ _ _ _ _ Hi Hb) as (_ & _ & _ & ?). }
  destruct Hl as (_ & _ & _ & Hr). unfold ahead. rewrite Hr, Hs.
  destruct (Z.ltb_spec (Z.of_nat (pred (length rows)) + 1) (Z.of_nat (0 + length rows) + 1)); [done|].
  destruct rows; [done|]. cbn in *. lia.
Qed.

Lemma chain_head_intact zone rows :
  intact (chain zone rows) ->
  chain_head zone rows = (match last (chain zone rows) with Some p => digest p | None => "" end, Z.of_nat (length (chain zone rows))).
Proof.
  intros Hi. unfold chain_head. rewrite first_row_intact by done. destruct (last (chain zone rows)) as [r|] eqn:Hl.
  - rewrite last_lookup in Hl. destruct (intact_lookup _ _ _ _ _ Hi Hl) as (_ & _ & _ & ->). cbn. f_equal.
    apply lookup_lt_Some in Hl. lia.
  - apply last_None in Hl. by rewrite Hl.
Qed.

(** What is stored of a stable record is that record. *)
Lemma record_columns rec : stable rec -> record_of (columns rec) = rec.
Proof.
  unfold stable, record_of, columns. destruct rec as [? ? ? ? ? ? ? ? ? ? ? [p|]]; [|done]. cbn [payloadJson c_payload_json fmap option_fmap option_map]. intros He.
  rewrite He. reflexivity.
Qed.

Lemma audit_row_recorded id at_ rec head : recorded (audit_row hmacKey id at_ rec head).
Proof.
  exists rec. split_and!; [done|done|]. intros Hs. unfold row_text, audit_row. cbn zeta. cbn [AdminAudit.id occurred_at stored content_sha256]. by rewrite (record_columns rec Hs).
Qed.

(** A row written on the head of an intact chain extends it. *)
Lemma audit_row_extends id at_ rec rows :
  intact (chain rec.(zoneId) rows) ->
  intact (chain rec.(zoneId) (rows ++ [audit_row hmacKey id at_ rec (chain_head rec.(zoneId) rows)])%list).
Proof.
  intros Hi. rewrite chain_app. unfold chain at 2. rewrite filter_cons_True by done. rewrite filter_nil.
  apply intact_snoc. split; [done|]. split; [apply audit_row_recorded|]. rewrite chain_head_intact by done. unfold chained, audit_row; cbn.
  rewrite default_null_if_empty. split_and!; try done. by unfold last_of; destruct (last (chain _ rows)).
Qed.

Lemma chain_other zone rows r : r.(stored).(c_zone_id) <> zone -> chain zone (rows ++ [r])%list = chain zone rows.
Proof. intros Hz. rewrite chain_app. unfold chain at 2. rewrite filter_cons_False by done. by rewrite filter_nil, app_nil_r. Qed.

(** ** Interleaved transactions *)

Context (hashtext : string -> Z).

Definition lock_of (zone : option string) : Z := hashtext (default_to GLOBAL_CHAIN_KEY zone).

(** What holds of an open transaction: it owns the lock of every chain it wrote to, its
    view of a chain it owns is intact, and a head it has read is current. *)
Definition tx_ok (db : Db) (t : nat) (tx : Tx) : Prop :=
  (forall r, r ∈ tx.(written) -> db.(locks) !! lock_of r.(stored).(c_zone_id) = Some t)
  /\ (forall zone, db.(locks) !! lock_of zone = Some t -> intact (chain zone (db.(committed) ++ tx.(written))%list))
  /\ match tx.(progress) with
     | Between => True
     | HasLock _ _ rec => db.(locks) !! lock_of rec.(zoneId) = Some t
     | HasHead _ _ rec head =>
         db.(locks) !! lock_of rec.(zoneId) = Some t /\ head = chain_head rec.(zoneId) (db.(committed) ++ tx.(written))%list
     end.

Definition db_ok (db : Db) : Prop :=
  (forall zone, intact (chain zone db.(committed))) /\ map_Forall (tx_ok db) db.(open)
  /\ map_Forall (fun _ t => is_Some (db.(open) !! t)) db.(locks).

Lemma chain_written_none db t tx zone :
  tx_ok db t tx -> db.(locks) !! lock_of zone <> Some t -> chain zone tx.(written) = [].
Proof.
  intros (Hw & _ & _) Hl. apply elem_of_nil_inv. intros r Hr. unfold chain in Hr.
  apply list_elem_of_filter in Hr as [Hz Hr]. apply Hl. rewrite <-Hz. by apply Hw.
Qed.

Lemma chain_head_ext zone xs ys : chain zone xs = chain zone ys -> chain_head zone xs = chain_head zone ys.
Proof. unfold chain_head. by intros ->. Qed.

Lemma release_other t t' ls k : t' <> t -> ls !! k = Some t' -> release t ls !! k = Some t'.
Proof. intros Hn Hk. by apply map_lookup_filter_Some. Qed.

Lemma release_Some t t' ls k : release t ls !! k = Some t' -> ls !! k = Some t' /\ t' <> t.
Proof. apply map_lookup_filter_Some. Qed.
(** What other transactions do does not disturb one that keeps its locks and sees the
    same rows in the chains it owns. *)
Lemma tx_ok_frame db db' t tx :
  tx_ok db t tx ->
  (forall k, db'.(locks) !! k = Some t <-> db.(locks) !! k = Some t) ->
  (forall zone, db.(locks) !! lock_of zone = Some t -> chain zone db'.(committed) = chain zone db.(committed)) ->
  tx_ok db' t tx.
Proof.
  intros (Hw & Hi & Hp) Hk Hc.
  assert (forall zone, db.(locks) !! lock_of zone = Some t ->
    chain zone (db'.(committed) ++ tx.(written))%list = chain zone (db.(committed) ++ tx.(written))%list) as Hall.
  { intros zone Hz. by rewrite !chain_app, Hc. }
  split_and!.
  - intros r Hr. apply Hk. auto.
  - intros zone Hz. apply Hk in Hz. rewrite Hall by done. auto.
  - destruct tx.(progress); [done|by apply Hk|]. destruct Hp as [Hl ->]. split; [by apply Hk|]. by apply chain_head_ext, eq_sym, Hall.
Qed.

(** A step of one open transaction that commits nothing. *)
Lemma db_ok_update db t w p locks' :
  db_ok db ->
  tx_ok {| committed := db.(committed); open := <[t := {| written := w; progress := p |}]> db.(open); locks := locks' |} t
    {| written := w; progress := p |} ->
  (forall t' k, t' <> t -> locks' !! k = Some t' <-> db.(locks) !! k = Some t') ->
  db_ok {| committed := db.(committed); open := <[t := {| written := w; progress := p |}]> db.(open); locks := locks' |}.
Proof.
  intros (Hc & Ho & Hl) Ht Hk. split_and!; [done| |].
  - intros t' tx Hx. cbn in Hx. destruct (decide (t' = t)) as [->|Hn].
    + rewrite lookup_insert_eq in Hx. by injection Hx as <-.
    + rewrite lookup_insert_ne in Hx by done. eapply tx_ok_frame; [by apply Ho|by intros; apply Hk|done].
  - intros k t' Hx. cbn in *. destruct (decide (t' = t)) as [->|Hn]; [rewrite lookup_insert_eq; eauto|].
    rewrite lookup_insert_ne by done. apply (Hl k). by apply Hk.
Qed.

(** The end of a transaction, whatever part of its rows is committed. *)
Lemma db_ok_end db t tx rows :
  db_ok db -> db.(open) !! t = Some tx -> rows = tx.(written) \/ rows = [] ->
  db_ok {| committed := (db.(committed) ++ rows)%list; open := delete t db.(open); locks := release t db.(locks) |}.
Proof.
  intros (Hc & Ho & Hl) Ht Hr. pose proof (Ho _ _ Ht) as Htx.
  assert (forall zone, db.(locks) !! lock_of zone <> Some t -> chain zone (db.(committed) ++ rows)%list = chain zone db.(committed)) as Hfree.
  { intros zone Hz. rewrite chain_app. destruct Hr as [-> | ->]; [rewrite (chain_written_none _ _ _ _ Htx Hz)|]; apply app_nil_r. }
  split_and!; cbn [committed open locks].
  - intros zone. destruct (decide (db.(locks) !! lock_of zone = Some t)) as [Hz|Hz]; [|by rewrite (Hfree zone Hz)].
    destruct Hr as [-> | ->]; [by apply Htx|by rewrite app_nil_r].
  - intros t' tx' Hx. apply lookup_delete_Some in Hx as [Hn Hx]. eapply tx_ok_frame; [by apply Ho|..]; cbn [committed open locks].
    + intros k. split; [by intros [? _]%release_Some|by apply release_other].
    + intros zone Hz. apply Hfree. congruence.
  - intros k t' Hx. apply release_Some in Hx as [Hx Hn]. cbn. rewrite lookup_delete_ne by done. by apply (Hl k).
Qed.

Lemma db_ok_step db db' : tx_step hmacKey hashtext db db' -> db_ok db -> db_ok db'.
Proof.
  intros Hs Hok. pose proof Hok as (Hc & Ho & Hl).
  destruct Hs as [db t Ht|db t w id at_ raw Ht Hfree|db t w id at_ rec Ht|db t w id at_ rec head Ht|db t w Ht|db t tx Ht].
  - apply db_ok_update; [done| |done]. split_and!; cbn [committed open locks written progress]; [intros r Hr; by apply elem_of_nil in Hr| |done].
    intros zone Hz. apply Hl in Hz. rewrite Ht in Hz. by destruct Hz.
  - destruct (Ho _ _ Ht) as (Hw & Hi & _). cbn in Hw, Hi. apply db_ok_update; [done| |].
    + assert (forall k, db.(locks) !! k = Some t -> (<[hashtext (chainKey (sanitizeRecord raw)) := t]> db.(locks)) !! k = Some t) as Hk.
      { intros k Hk. apply lookup_insert_Some. destruct (decide (hashtext (chainKey (sanitizeRecord raw)) = k)); auto. }
      split_and!; cbn [committed open locks written progress]; [auto| |apply lookup_insert_eq].
      intros zone Hz. destruct (decide (db.(locks) !! lock_of zone = Some t)) as [Hz'|Hz']; [by apply Hi|].
      pose proof (chain_written_none _ _ _ _ (Ho _ _ Ht) Hz') as Hnone. cbn [written] in Hnone.
      rewrite chain_app, Hnone, app_nil_r. apply Hc.
    + intros t' k Hn. rewrite lookup_insert_Some. split; [intros [[_ <-]|[_ ?]]; done|]. intros Hk. right. split; [|done].
      intros <-. destruct Hfree; congruence.
  - destruct (Ho _ _ Ht) as (Hw & Hi & Hp). by apply db_ok_update.
  - destruct (Ho _ _ Ht) as (Hw & Hi & Hp & ->). cbn in Hw, Hi, Hp. apply db_ok_update; [done| |done]. split_and!; cbn [committed open locks written progress]; [|..|done].
    + intros r [Hr|Hr]%elem_of_app; [by apply Hw|]. apply list_elem_of_singleton in Hr as ->. done.
    + intros zone Hz. rewrite app_assoc. destruct (decide (rec.(zoneId) = zone)) as [<-|Hn]; [by apply audit_row_extends, Hi|].
      rewrite chain_other by done. by apply Hi.
  - by apply (db_ok_end db t {| written := w; progress := Between |}); [| |left].
  - replace db.(committed) with (db.(committed) ++ [])%list by apply app_nil_r. by apply (db_ok_end db t tx); [| |right].
Qed.

Lemma db_ok_reachable db : rtc (tx_step hmacKey hashtext) empty_db db -> db_ok db.
Proof.
  intros Hr. assert (db_ok empty_db) as H0 by (by split_and!).
  induction Hr as [db|db db' db'' Hs _ IH]; [done|]. apply IH. by eapply db_ok_step.
Qed.

End chains.

(** A payload the API writes comes back in another order. *)
Example payload_reordered :
  let rec := {| requestId := "r"; actorId := None; actorName := None; actorScope := None; action := "a"; method := "POST"; path := "/"; zoneId := None;
                entityType := None; entityId := None; statusCode := 200; payloadJson := Some [("rls_zone_guc", JStr "z"); ("change_kind", JStr "create")] |} in
  payloadJson (record_of (columns rec)) = Some [("change_kind", JStr "create"); ("rls_zone_guc", JStr "z")].
Proof. reflexivity. Qed.

(** ** Tampering *)

Lemma verifies_lookup `{Digests} hmacKey prev i rows n r :
  verifies_from hmacKey prev i rows -> rows !! n = Some r -> chained hmacKey (match n with O => prev | S m => rows !! m end) (i + n) r.
Proof.
  revert prev i n. induction rows as [|x rows IH]; intros prev i n; [done|]. cbn [verifies_from]. intros [Hx Hrest].
  destruct n as [|n]; cbn; [intros [= ->]; by rewrite Nat.add_0_r|]. intros Hn.
  specialize (IH _ _ _ Hrest Hn). replace (i + S n)%nat with (S i + n)%nat by lia. by destruct n.
Qed.

Lemma intact_verifies `{Digests} hmacKey rows : forall prev i, intact_from hmacKey prev i rows -> verifies_from hmacKey prev i rows.
Proof. induction rows as [|r rows IH]; intros prev i; [done|]. intros [[_ Hc] Hr]. split; [done|by apply IH]. Qed.

(** A text cut at its only bar. *)
Lemma cut_bar a b x y :
  all_chars hex_char b = true -> all_chars hex_char y = true ->
  a +:+ String.String "|" x = b +:+ String.String "|" y -> a = b /\ x = y.
Proof.
  revert b. induction a as [|d a IH]; intros [|e b] Hb Hy He.
  - by injection He.
  - injection He as <- _. done.
  - injection He as -> He. exfalso. rewrite <-He, all_chars_app in Hy. bool_props. done.
  - injection He as -> He. cbn in Hb. bool_props. destruct (IH b) as [-> ->]; auto.
Qed.

Lemma prefix_lookup {A : Type} (xs ys : list A) : (forall n x, xs !! n = Some x -> ys !! n = Some x) -> xs `prefix_of` ys.
Proof.
  revert ys. induction xs as [|x xs IH]; intros ys Hl; [apply prefix_nil|].
  destruct ys as [|y ys]; [by specialize (Hl 0%nat x eq_refl)|]. specialize (Hl 0%nat x eq_refl) as Hx. injection Hx as ->.
  apply prefix_cons, IH. intros n z Hz. exact (Hl (S n) z Hz).
Qed.

(** The text the signature of a row is made over. *)
Definition signed_text (r : Row) : string := signing_text (digest r) (default_to "" r.(prev_content_sha256)).

Section tamper.
Context `{DigestLaws} (key : string) (honest forged : list Row).
Hypothesis key_set : key <> "".
Hypothesis honest_intact : intact (Some key) honest.
Hypothesis forged_verifies : verifies (Some key) forged.
Hypothesis digests_distinct : NoDup (digest <$> honest).
Hypothesis no_hmac_collision : forall r r', r ∈ forged -> r' ∈ honest ->
  hmac_sha256 key (signed_text r) = hmac_sha256 key (signed_text r') -> signed_text r = signed_text r'.
Hypothesis tags_copied : forall r, r ∈ forged -> exists r', r' ∈ honest /\ r.(chain_hmac) = r'.(chain_hmac).

Lemma honest_digest n r : honest !! n = Some r -> all_chars hex_char (digest r) = true /\ digest r <> "".
Proof.
  intros Hn. destruct (intact_lookup _ _ _ _ _ _ honest_intact Hn) as ((rec & _ & Hd & _) & _). unfold digest. rewrite Hd. cbn.
  split; [apply sha256_hex|apply sha256_nonempty].
Qed.

Lemma honest_prev n r : honest !! n = Some r -> all_chars hex_char (default_to "" r.(prev_content_sha256)) = true.
Proof.
  intros Hn. destruct (intact_lookup _ _ _ _ _ _ honest_intact Hn) as (_ & -> & _). destruct n as [|n]; [done|].
  destruct (honest !! n) as [q|] eqn:Hq; [by eapply honest_digest|done].
Qed.

(** Equal tags sign equal digests. *)
Lemma same_tag n r m r' :
  forged !! n = Some r -> honest !! m = Some r' -> r.(chain_hmac) = r'.(chain_hmac) ->
  digest r = digest r' /\ default_to "" r.(prev_content_sha256) = default_to "" r'.(prev_content_sha256).
Proof.
  intros Hr Hr'. destruct (verifies_lookup _ _ _ _ _ _ forged_verifies Hr) as (_ & -> & _), (intact_lookup _ _ _ _ _ _ honest_intact Hr') as (_ & _ & -> & _).
  unfold null_if_empty, chainHmac. rewrite (bool_decide_false (key = "")) by done. rewrite !bool_decide_false by apply hmac_nonempty. intros [= Heq].
  apply no_hmac_collision in Heq; [|by eapply list_elem_of_lookup_2..]. by apply cut_bar in Heq; [|by eapply honest_digest|by eapply honest_prev].
Qed.

Lemma forged_row n : forall r, forged !! n = Some r -> exists r', honest !! n = Some r' /\ digest r = digest r'.
Proof.
  induction n as [|n IH]; intros r Hr; destruct (verifies_lookup _ _ _ _ _ _ forged_verifies Hr) as (Hp & _);
    destruct (tags_copied r (list_elem_of_lookup_2 _ _ _ Hr)) as (r' & Hr' & Htag); apply list_elem_of_lookup in Hr' as [m Hm];
    destruct (same_tag _ _ _ _ Hr Hm Htag) as [Hd Hprev]; destruct (intact_lookup _ _ _ _ _ _ honest_intact Hm) as (_ & Hp' & _); rewrite Hprev, Hp' in Hp.
  - destruct m as [|m]; [by exists r'|]. exfalso. apply lookup_lt_Some in Hm as Hlt.
    destruct (honest !! m) as [q|] eqn:Hq; [by destruct (honest_digest m q Hq)|apply lookup_ge_None in Hq; lia].
  - apply lookup_lt_Some in Hr as Hlt. destruct (forged !! n) as [q|] eqn:Hq; [|apply lookup_ge_None in Hq; lia].
    destruct (IH q eq_refl) as (q' & Hq' & Hqd). destruct (honest_digest n q' Hq') as [_ Hne]. rewrite Hqd in Hp.
    destruct m as [|m]; [by rewrite <-Hp in Hne|]. apply lookup_lt_Some in Hm as Hlt'. destruct (honest !! m) as [x|] eqn:Hxm; [|apply lookup_ge_None in Hxm; lia].
    assert (m = n) as ->; [|by exists r']. apply (NoDup_lookup (digest <$> honest) m n (digest x)); [done|by rewrite list_lookup_fmap, Hxm|].
    rewrite list_lookup_fmap, Hq'. cbn. by rewrite Hp.
Qed.

Lemma forged_prefix : (digest <$> forged) `prefix_of` (digest <$> honest).
Proof.
  apply prefix_lookup. intros n x Hx. rewrite list_lookup_fmap in *. destruct (forged !! n) as [r|] eqn:Hr; [|done].
  injection Hx as <-. destruct (forged_row n r Hr) as (r' & -> & ->). done.
Qed.
End tamper.

(** C17. Who can only reuse signatures the service made cannot alter, reorder, insert or
    drop a digest inside a signed chain.  Given a key, a genuine chain no two rows of which
    carry the same digest, and a chain whose links and signatures verify, whose signatures
    are all signatures of the genuine chain, and none of whose signed texts collides with
    another one signed there: the digests it carries are those of the genuine chain, up to
    some point; and a row of it whose columns hash to the digest it carries has the same
    digest as the record the genuine row was written for. *)
Theorem tampering_is_truncation `{DigestLaws} key honest forged :
  key <> "" -> intact (Some key) honest -> verifies (Some key) forged -> NoDup (digest <$> honest) ->
  (forall r r', r ∈ forged -> r' ∈ honest ->
     hmac_sha256 key (signed_text r) = hmac_sha256 key (signed_text r') -> signed_text r = signed_text r') ->
  (forall r, r ∈ forged -> exists r', r' ∈ honest /\ r.(chain_hmac) = r'.(chain_hmac)) ->
  (digest <$> forged) `prefix_of` (digest <$> honest)
  /\ forall n r, forged !! n = Some r -> r.(content_sha256) = Some (sha256 (row_text r)) ->
     exists r' rec, honest !! n = Some r' /\ r'.(stored) = columns rec
       /\ sha256 (row_text r) = sha256 (content_text r'.(id) r'.(occurred_at) rec).
Proof.
  intros Hk Hh Hf Hnd Hc Ht. split; [by eapply forged_prefix|]. intros n r Hr Hd. destruct (forged_row key honest forged Hk Hh Hf Hnd Hc Ht n r Hr) as (r' & Hr' & He).
  destruct (intact_lookup _ _ _ _ _ _ Hh Hr') as ((rec & Hs & Hd' & _) & _). exists r', rec. split_and!; [done|done|].
  unfold digest in He. rewrite Hd, Hd' in He. exact He.
Qed.

(** ** Without a key *)

Section unsigned.
Context `{Digests}.

(** A record put in place of another: its own digest is recomputed. *)
Definition replaced (r : Row) (id' : string) (at' : Z) (rec' : AdminAuditRecord) : Row :=
  {| id := id'; stored := columns rec'; occurred_at := at'; content_sha256 := Some (contentHash id' at' rec');
     prev_content_sha256 := r.(prev_content_sha256); chain_hmac := None; chain_seq := r.(chain_seq) |}.

(** The record after it, pointed at the new digest. *)
Definition repointed (r q : Row) : Row :=
  {| id := q.(id); stored := q.(stored); occurred_at := q.(occurred_at); content_sha256 := q.(content_sha256);
     prev_content_sha256 := null_if_empty (digest r); chain_hmac := None; chain_seq := q.(chain_seq) |}.

(** The digest of a record does not cover the link before it, so in an unsigned chain any
    record can be replaced by any other: two rows change and everything verifies, the
    head included. *)
Lemma unsigned_chain_rewritable before r q after id' at' rec' :
  intact None (before ++ r :: q :: after)%list ->
  intact None (before ++ replaced r id' at' rec' :: repointed (replaced r id' at' rec') q :: after)%list.
Proof.
  unfold intact. rewrite !intact_app. intros [Hb (Hr & Hq & Ha)]. split; [done|]. cbn [intact_from]. split_and!.
  - destruct Hr as (_ & Hp & _ & Hs). split; [|by split_and!]. exists rec'. split_and!; [done|done|]. intros Hst. unfold row_text, replaced. cbn [id occurred_at stored content_sha256]. by rewrite (record_columns rec' Hst).
  - destruct Hq as (Hc & _ & _ & Hs). split; [exact Hc|]. split_and!; try done. cbn [repointed prev_content_sha256]. by rewrite default_null_if_empty.
  - by destruct after as [|a after].
Qed.
End unsigned.
End AdminAuditFacts.
