(* ===== verification/Envelope.v ===== *)
(** * The wire envelope and the caller's context

    [packages/sdk/ts/src/envelope.ts] and [context.ts]: trace identity and Caracal's
    correlation fields in W3C headers, and the context a process binds from them.
    Objects used as maps are finite maps; the random span and trace identifiers are
    arguments; hops are integers. *)

From Stdlib Require Import Ascii.
From Stdlib Require String.
From S2P Require Import Prelude.
From S2P Require Import Scope.
From S2P Require Import Json.
From S2P Require Import Numbers.
From S2P Require Import Text.
From S2P Require Import AdminClient.
From S2P Require Import JsonText.
Local Open Scope string_scope.
Local Open Scope Z_scope.

Module Envelope.
Import Uri.

Definition HeaderAuthorization : string := "authorization".
Definition HeaderTraceparent : string := "traceparent".
Definition HeaderTracestate : string := "tracestate".
Definition HeaderBaggage : string := "baggage".

Definition BaggageAgentSession : string := "caracal.agent_session".
Definition BaggageDelegationEdge : string := "caracal.delegation_edge".
Definition BaggageParentEdge : string := "caracal.parent_edge".
Definition BaggageSession : string := "caracal.session".
Definition BaggageHop : string := "caracal.hop".

Definition MaxHop : Z := 10.
Definition MaxBaggageBytes : nat := 8192.
Definition MaxBaggageMembers : nat := 64.

Definition caracalBaggageKeys : list string :=
  [BaggageAgentSession; BaggageDelegationEdge; BaggageParentEdge; BaggageSession; BaggageHop].

Record Envelope := {
  subjectToken : option string;
  sessionId : option string;
  delegationId : option string;
  parentDelegationId : option string;
  subjectAuthorityRecordId : option string;
  traceId : option string;
  traceFlags : option string;
  traceState : option string;
  baggage : option (gmap string string);
  hop : Z
}.

(** [s || undefined]. *)
Definition or_undefined (o : option string) : option string :=
  match o with Some s => if bool_decide (s = "") then None else Some s | None => None end.

(** ** Patterns *)

(** [/^[0-9a-f]{n}$/]. *)
Definition lower_hex (c : ascii) : bool := is_digit c || (is_lower c && bool_decide ((nat_of_ascii c <= 102)%nat)).
Definition hexes (n : nat) (s : string) : bool := (String.length s =? n)%nat && all_chars lower_hex s.

Fixpoint skip_spaces (s : string) : string :=
  match s with String.String c rest => if bool_decide (c = " "%char) then skip_spaces rest else s | _ => s end.

(** What [.] does not match. *)
Definition has_newline (s : string) : bool :=
  existsb (fun t => includes t s)
    [String.String (ascii_of_nat 10) ""; String.String (ascii_of_nat 13) ""; JsonText.utf8 8232; JsonText.utf8 8233].

(** [/^bearer +(.+)$/i] on a trimmed header. *)
Definition bearer_token (auth : string) : option string :=
  if bool_decide (to_lower (take_bytes 7 auth) = "bearer ") then
    let token := skip_spaces (drop_bytes 7 auth) in
    if bool_decide (token = "") || has_newline token then None else Some token
  else None.

(** ** Trace context *)

Definition formatTraceparent (genSpanId : string) (traceId : string) (flags : option string) : string :=
  let f := match flags with Some f => if hexes 2 f then f else "01" | None => "01" end in
  "00-" +:+ traceId +:+ "-" +:+ genSpanId +:+ "-" +:+ f.

Definition parseTraceparent (value : string) : option (string * string) :=
  match split_on "-" (trim value) with
  | version :: traceId :: spanId :: flags :: more =>
      if negb (hexes 2 version) || bool_decide (version = "ff") then None
      else if bool_decide (version = "00") && negb (bool_decide (more = [])) then None
      else if negb (hexes 32 traceId) || bool_decide (traceId = "00000000000000000000000000000000") then None
      else if negb (hexes 16 spanId) || bool_decide (spanId = "0000000000000000") then None
      else if negb (hexes 2 flags) then None
      else Some (traceId, flags)
  | _ => None
  end.

(** ** Baggage *)

Definition member (k v : string) : string := k +:+ "=" +:+ AdminClient.encodeURIComponent v.

Definition encodeBaggage (entries : gmap string string) : string :=
  string_concat ","
    (omap (fun k => match or_undefined (entries !! k) with Some v => Some (member k v) | None => None end)
       (sort_strings (map_to_list entries).*1)).

(** One piece of the header; a key [__proto__] would set no property. *)
Definition parse_piece (piece : string) : option (string * string) :=
  match index_of "=" piece with
  | None | Some O => None
  | Some eq =>
      let k := trim (take_bytes eq piece) in
      if bool_decide (k = "") || bool_decide (k = "__proto__") then None
      else
        let rawV := trim (match index_from ";" (eq + 1) piece with
                          | None => drop_bytes (eq + 1) piece
                          | Some semi => slice_bytes (eq + 1) semi piece
                          end) in
        Some (k, match decodeURIComponent rawV with Some v => v | None => rawV end)
  end.

Definition parseBaggage (value : option string) : gmap string string :=
  match value with
  | None => ∅
  | Some value =>
      if bool_decide (value = "") || bool_decide ((MaxBaggageBytes < js_length value)%nat) then ∅
      else
        let pieces := split_on "," value in
        if bool_decide ((MaxBaggageMembers < length pieces)%nat) then ∅
        else foldl (fun out piece => match parse_piece piece with Some (k, v) => <[k := v]> out | None => out end) ∅ pieces
  end.

(** ** Headers *)

(** The value of a header in a plain object. *)
Inductive header_value := HOne (s : string) | HMany (vs : list string) | HUndefined.

Fixpoint headerKey (h : list (string * header_value)) (name : string) : option string :=
  match h with
  | [] => None
  | (k, v) :: rest =>
      if bool_decide (to_lower k = to_lower name) then
        match v with
        | HOne s => Some s
        | HMany vs => if bool_decide (to_lower name = HeaderBaggage) then Some (string_concat "," vs) else head vs
        | HUndefined => None
        end
      else headerKey rest name
  end.

Definition decode_hop (hopRaw : option string) : Z :=
  match or_undefined hopRaw with
  | Some h => if all_digits h then Z.min MaxHop (decimal_value h) else 0
  | None => 0
  end.

Definition decodeEnvelope (get : string -> option string) : Envelope :=
  let trace := or_undefined (get HeaderTraceparent) ≫= parseTraceparent in
  let bag := parseBaggage (get HeaderBaggage) in
  let extras := filter (fun kv => kv.1 ∉ caracalBaggageKeys) bag in
  {| subjectToken := or_undefined (get HeaderAuthorization) ≫= (fun auth => bearer_token (trim auth));
     sessionId := or_undefined (bag !! BaggageAgentSession);
     delegationId := or_undefined (bag !! BaggageDelegationEdge);
     parentDelegationId := or_undefined (bag !! BaggageParentEdge);
     subjectAuthorityRecordId := or_undefined (bag !! BaggageSession);
     traceId := fst <$> trace;
     traceFlags := snd <$> trace;
     traceState := or_undefined (trim <$> get HeaderTracestate);
     baggage := if decide (extras = ∅) then None else Some extras;
     hop := decode_hop (bag !! BaggageHop) |}.

Definition fromHeaders (headers : list (string * header_value)) : Envelope := decodeEnvelope (headerKey headers).

(** [if (v) merged[k] = v]. *)
Definition set_if (k : string) (v : option string) (m : gmap string string) : gmap string string :=
  match or_undefined v with Some s => <[k := s]> m | None => m end.

(** The baggage an envelope sends, given what the headers already carry. *)
Definition merged_baggage (env : Envelope) (existing : gmap string string) : gmap string string :=
  let merged := existing ∪ default_to ∅ env.(baggage) in
  let merged := foldr delete merged caracalBaggageKeys in
  let merged := set_if BaggageAgentSession env.(sessionId) merged in
  let merged := set_if BaggageDelegationEdge env.(delegationId) merged in
  let merged := set_if BaggageParentEdge env.(parentDelegationId) merged in
  let merged := set_if BaggageSession env.(subjectAuthorityRecordId) merged in
  if (0 <? env.(hop)) || existsb (fun o => bool_decide (is_Some (or_undefined o)))
       [env.(sessionId); env.(delegationId); env.(parentDelegationId); env.(subjectAuthorityRecordId)]
  then <[BaggageHop := pretty env.(hop)]> merged else merged.

(** The headers [encodeEnvelope] sets, in order. *)
Definition encodeEnvelope (genTraceId genSpanId : string) (env : Envelope) (get : option (string -> option string)) :
    list (string * string) :=
  let existing n := get ≫= (fun g => g n) in
  ((if bool_decide (is_Some (or_undefined (existing HeaderTraceparent) ≫= parseTraceparent)) then []
    else
      let traceId := match env.(traceId) with Some t => if hexes 32 t then t else genTraceId | None => genTraceId end in
      [(HeaderTraceparent, formatTraceparent genSpanId traceId env.(traceFlags))])
   ++ match or_undefined env.(traceState), or_undefined (existing HeaderTracestate) with
      | Some ts, None => [(HeaderTracestate, ts)]
      | _, _ => []
      end
   ++ (let baggage := encodeBaggage (merged_baggage env (match get with Some g => parseBaggage (g HeaderBaggage) | None => ∅ end)) in
       if bool_decide (baggage = "") then [] else [(HeaderBaggage, baggage)]))%list.

Definition toHeaders (genTraceId genSpanId : string) (env : Envelope) : list (string * string) :=
  foldl (fun out nv => ordered_set nv.1 nv.2 out) [] (encodeEnvelope genTraceId genSpanId env None).

(** ** Context *)

Record CaracalContext := {
  ctx_subjectToken : string;
  ctx_zoneId : string;
  ctx_applicationId : string;
  ctx_sessionId : option string;
  ctx_delegationId : option string;
  ctx_parentDelegationId : option string;
  ctx_subjectAuthorityRecordId : option string;
  ctx_traceId : option string;
  ctx_traceFlags : option string;
  ctx_traceState : option string;
  ctx_baggage : option (gmap string string);
  ctx_hop : Z
}.

Record VerifiedClaims := {
  vc_zoneId : string;
  vc_applicationId : string;
  vc_sessionId : option string;
  vc_delegationId : option string;
  vc_parentDelegationId : option string;
  vc_subjectAuthorityRecordId : option string;
  vc_hop : Z
}.

Definition toEnvelope (ctx : CaracalContext) : Envelope :=
  {| subjectToken := Some ctx.(ctx_subjectToken); sessionId := ctx.(ctx_sessionId); delegationId := ctx.(ctx_delegationId);
     parentDelegationId := ctx.(ctx_parentDelegationId); subjectAuthorityRecordId := ctx.(ctx_subjectAuthorityRecordId);
     traceId := ctx.(ctx_traceId); traceFlags := ctx.(ctx_traceFlags); traceState := ctx.(ctx_traceState);
     baggage := ctx.(ctx_baggage); hop := ctx.(ctx_hop) |}.

Definition fromEnvelope (env : Envelope) (zoneId applicationId : string) : string + CaracalContext :=
  match or_undefined env.(subjectToken) with
  | None => inl "envelope missing subject token"
  | Some token =>
      inr {| ctx_subjectToken := token; ctx_zoneId := zoneId; ctx_applicationId := applicationId;
             ctx_sessionId := env.(sessionId); ctx_delegationId := env.(delegationId);
             ctx_parentDelegationId := env.(parentDelegationId);
             ctx_subjectAuthorityRecordId := env.(subjectAuthorityRecordId); ctx_traceId := env.(traceId);
             ctx_traceFlags := env.(traceFlags); ctx_traceState := env.(traceState); ctx_baggage := env.(baggage);
             ctx_hop := env.(hop) |}
  end.

Definition fromVerifiedEnvelope (env : Envelope) (claims : VerifiedClaims) : string + CaracalContext :=
  if bool_decide (claims.(vc_zoneId) = "") || bool_decide (claims.(vc_applicationId) = "") then
    inl "verified claims require zoneId and applicationId"
  else if (claims.(vc_hop) <? 0) || (MaxHop <? claims.(vc_hop)) then
    inl ("verified claims hop must be an integer from 0 to " +:+ pretty MaxHop)
  else
    fromEnvelope
      {| subjectToken := env.(subjectToken); sessionId := claims.(vc_sessionId); delegationId := claims.(vc_delegationId);
         parentDelegationId := claims.(vc_parentDelegationId); subjectAuthorityRecordId := claims.(vc_subjectAuthorityRecordId);
         traceId := env.(traceId); traceFlags := env.(traceFlags); traceState := env.(traceState);
         baggage := env.(baggage); hop := claims.(vc_hop) |} claims.(vc_zoneId) claims.(vc_applicationId).

(** [describeAuthority]: the chain of a context. *)
Definition authority_chain (ctx : CaracalContext) : list string :=
  omap (fun po => (fun s => po.1 +:+ s) <$> or_undefined po.2)
    [("subject:", ctx.(ctx_subjectAuthorityRecordId)); ("session:", ctx.(ctx_sessionId));
     ("parent-delegation:", ctx.(ctx_parentDelegationId)); ("delegation:", ctx.(ctx_delegationId))].
End Envelope.

(** * Facts of the wire envelope

    What one process writes into its headers is what the next one reads, and a verified
    context takes no attribution from them. *)

Module EnvelopeFacts.
Import Uri Envelope.

(** ** Encoded values *)

(** What [encodeURIComponent] writes. *)
Definition token_char (c : ascii) : bool := AdminClient.uri_char c || bool_decide (c = "%"%char).

Lemma token_char_ink c : token_char c = true -> ink c && other "," c && other ";" c && other "=" c = true.
Proof. by destruct c as [[] [] [] [] [] [] [] []]; vm_compute. Qed.

Lemma encode_tokens s : all_chars token_char (AdminClient.encodeURIComponent s) = true.
Proof.
  induction s as [|c s IH]; [done|]. cbn [AdminClient.encodeURIComponent]. rewrite all_chars_app, IH, andb_true_r.
  destruct c as [[] [] [] [] [] [] [] []]; vm_compute; reflexivity.
Qed.

Lemma tokens_lack v :
  let e := AdminClient.encodeURIComponent v in all_chars ink e = true /\ lacks "," e /\ lacks ";" e /\ lacks "=" e.
Proof.
  pose proof (encode_tokens v) as He. split_and!; (eapply all_chars_impl; [|exact He]);
    intros c Hc; apply token_char_ink in Hc; by bool_props.
Qed.

(** ** Baggage *)

(** A key that survives the header. *)
Definition key_ok (k : string) : Prop := k <> "" /\ k <> "__proto__" /\ trim k = k /\ lacks "=" k /\ lacks "," k.

Definition value_ok (v : string) : Prop := v <> "" /\ well_formed v = true.

Lemma parse_member k v : key_ok k -> value_ok v -> parse_piece (member k v) = Some (k, v).
Proof.
  intros (Hne & Hproto & Htrim & Heq & _) [_ Hv]. unfold parse_piece, member. change ("=" +:+ ?x) with (String.String "=" x).
  destruct (tokens_lack v) as (Hink & _ & Hsemi & _). cbv zeta in *. rewrite index_of_lacks by done.
  destruct (String.length k) as [|n] eqn:Hl; [by destruct k|]. rewrite <-Hl. rewrite take_bytes_app, Htrim.
  rewrite !bool_decide_false by done. cbn [orb]. unfold index_from. rewrite drop_bytes_app, (index_of_none _ _ Hsemi). cbn [option_fmap option_map fmap].
  rewrite trim_ink by done. by rewrite decode_encode.
Qed.

Lemma member_no_comma k v : key_ok k -> lacks "," (member k v).
Proof.
  intros (_ & _ & _ & _ & Hk). unfold lacks, member. rewrite !all_chars_app, Hk. cbn. by apply tokens_lack.
Qed.

Definition baggage_ok (m : gmap string string) : Prop := map_Forall (fun k v => key_ok k /\ value_ok v) m.

(** The members of a header, as pairs in key order. *)
Definition members (m : gmap string string) : list (string * string) :=
  omap (fun k => (fun v => (k, v)) <$> m !! k) (sort_strings (map_to_list m).*1).

Lemma elem_of_sorted_keys (m : gmap string string) k : k ∈ sort_strings (map_to_list m).*1 <-> is_Some (m !! k).
Proof.
  unfold sort_strings. rewrite merge_sort_Permutation, list_elem_of_fmap. split.
  - intros ([k' v] & -> & Hin). apply elem_of_map_to_list in Hin. eauto.
  - intros [v Hv]. exists (k, v). by rewrite elem_of_map_to_list.
Qed.

Lemma elem_of_members m k v : (k, v) ∈ members m <-> m !! k = Some v.
Proof.
  unfold members. rewrite list_elem_of_omap. split.
  - intros (k' & _ & Hk). destruct (m !! k') eqn:He; [|done]. by injection Hk as -> ->.
  - intros Hv. exists k. rewrite elem_of_sorted_keys, Hv. eauto.
Qed.

Lemma members_fst m : (members m).*1 = sort_strings (map_to_list m).*1.
Proof.
  unfold members. assert (Forall (fun k => is_Some (m !! k)) (sort_strings (map_to_list m).*1)) as Hall.
  { apply Forall_forall. intros k. by rewrite elem_of_sorted_keys. }
  induction Hall as [|k ks [v Hv] _ IH]; [done|]. cbn. rewrite Hv. cbn. by rewrite IH.
Qed.

Lemma NoDup_members m : NoDup (members m).*1.
Proof. rewrite members_fst. unfold sort_strings. rewrite merge_sort_Permutation. apply NoDup_fst_map_to_list. Qed.

Lemma list_to_map_members m : list_to_map (members m) = m.
Proof.
  apply map_eq. intros k. apply option_eq. intros v. rewrite <-(elem_of_members m). symmetry. apply elem_of_list_to_map, NoDup_members.
Qed.

Lemma encodeBaggage_members m : baggage_ok m -> encodeBaggage m = string_concat "," ((fun kv => member kv.1 kv.2) <$> members m).
Proof.
  intros Hm. unfold encodeBaggage, members. f_equal.
  generalize (sort_strings (map_to_list m).*1). intros ks. induction ks as [|k ks IH]; [done|]. cbn. rewrite IH.
  destruct (m !! k) as [v|] eqn:Hv; [|done]. cbn. rewrite bool_decide_false; [done|]. by apply (Hm k v Hv).
Qed.

Lemma length_members m : length (members m) = size m.
Proof. rewrite <-(length_fmap fst), members_fst. unfold sort_strings. by rewrite merge_sort_Permutation, length_fmap, length_map_to_list. Qed.

(** The reading loop inserts the members one by one. *)
Lemma parse_members kvs (acc : gmap string string) :
  NoDup kvs.*1 -> Forall (fun kv => key_ok kv.1 /\ value_ok kv.2) kvs ->
  foldl (fun out piece => match parse_piece piece with Some (k, v) => <[k := v]> out | None => out end) acc
    ((fun kv => member kv.1 kv.2) <$> kvs) = list_to_map kvs ∪ acc.
Proof.
  intros Hnd Hall. revert acc Hnd. induction Hall as [|[k v] kvs [Hk Hv] _ IH]; intros acc Hnd; cbn.
  - by rewrite (left_id ∅ (∪)).
  - apply NoDup_cons in Hnd as [Hnin Hnd]. cbn in Hk, Hv. rewrite parse_member, IH by done.
    rewrite <-insert_union_r, insert_union_l; [done|]. by apply not_elem_of_list_to_map.
Qed.

Lemma members_ok m : baggage_ok m -> Forall (fun kv => key_ok kv.1 /\ value_ok kv.2) (members m).
Proof. intros Hm. apply Forall_forall. intros [k v] Hkv. apply elem_of_members in Hkv. by apply (Hm k v). Qed.

Lemma members_nil m : m <> ∅ -> members m <> [].
Proof. intros Hne He. apply Hne, map_size_empty_inv. by rewrite <-length_members, He. Qed.

Lemma split_encoded m : baggage_ok m -> m <> ∅ -> split_on "," (encodeBaggage m) = (fun kv => member kv.1 kv.2) <$> members m.
Proof.
  intros Hm Hne. rewrite encodeBaggage_members by done. apply members_nil in Hne. apply split_join; [by destruct (members m)|].
  apply Forall_fmap. eapply Forall_impl; [by apply members_ok|]. intros kv [? _]. by apply member_no_comma.
Qed.

Lemma encoded_nonempty m : baggage_ok m -> m <> ∅ -> encodeBaggage m <> "".
Proof.
  intros Hm Hne He. pose proof (split_encoded m Hm Hne) as Hsplit. rewrite He in Hsplit. pose proof (members_ok m Hm) as Hall.
  destruct (members m) as [|[k v] [|]]; try done. injection Hsplit as Hk. apply Forall_inv in Hall as [(Hk0 & _) _]. cbn in *. by destruct k.
Qed.

Lemma parse_encode_baggage m :
  baggage_ok m -> m <> ∅ -> (js_length (encodeBaggage m) <= MaxBaggageBytes)%nat -> (size m <= MaxBaggageMembers)%nat ->
  parseBaggage (Some (encodeBaggage m)) = m.
Proof.
  intros Hm Hne Hlen Hsize. pose proof (encoded_nonempty m Hm Hne). unfold parseBaggage. rewrite !bool_decide_false by (done || lia).
  cbn [orb]. rewrite split_encoded, bool_decide_false by (done || rewrite length_fmap, length_members; lia).
  rewrite parse_members by (by apply members_ok || apply NoDup_members). by rewrite (right_id ∅ (∪)), list_to_map_members.
Qed.

(** A header with too many members is read as empty, whatever they are. *)
Lemma parse_crowded m : baggage_ok m -> (MaxBaggageMembers < size m)%nat -> parseBaggage (Some (encodeBaggage m)) = ∅.
Proof.
  intros Hm Hsize. assert (m <> ∅) as Hne by (intros ->; rewrite map_size_empty in Hsize; unfold MaxBaggageMembers in Hsize; lia).
  unfold parseBaggage. rewrite split_encoded, (bool_decide_true (MaxBaggageMembers < _)%nat) by (done || by rewrite length_fmap, length_members).
  by destruct (_ || _).
Qed.

(** ** The envelope's own members *)

Lemma set_if_lookup k v m k' :
  set_if k v m !! k' = if decide (k' = k) then match or_undefined v with Some s => Some s | None => m !! k' end else m !! k'.
Proof.
  unfold set_if. destruct (or_undefined v) as [s|]; destruct (decide (k' = k)) as [->|]; try done;
    [by rewrite lookup_insert_eq|by rewrite lookup_insert_ne].
Qed.

(** Whether the hop travels. *)
Definition sends_hop (env : Envelope) : bool :=
  (0 <? env.(hop)) || existsb (fun o => bool_decide (is_Some (or_undefined o)))
    [env.(sessionId); env.(delegationId); env.(parentDelegationId); env.(subjectAuthorityRecordId)].

(** What each key of Caracal's carries. *)
Definition own_member (env : Envelope) (k : string) : option string :=
  if decide (k = BaggageHop) then if sends_hop env then Some (pretty env.(hop)) else None
  else if decide (k = BaggageSession) then or_undefined env.(subjectAuthorityRecordId)
  else if decide (k = BaggageParentEdge) then or_undefined env.(parentDelegationId)
  else if decide (k = BaggageDelegationEdge) then or_undefined env.(delegationId)
  else or_undefined env.(sessionId).

Lemma delete_keys_lookup (m : gmap string string) ks k : foldr delete m ks !! k = if decide (k ∈ ks) then None else m !! k.
Proof.
  induction ks as [|k' ks IH]; cbn; [done|]. destruct (decide (k = k')) as [->|Hn].
  - rewrite lookup_delete_eq. by rewrite decide_True by set_solver.
  - rewrite lookup_delete_ne, IH by done. destruct (decide (k ∈ ks)); [rewrite decide_True by set_solver|rewrite decide_False by set_solver]; done.
Qed.

Lemma merged_lookup env existing k :
  merged_baggage env existing !! k =
  if decide (k ∈ caracalBaggageKeys) then own_member env k else (existing ∪ default_to ∅ env.(baggage)) !! k.
Proof.
  unfold merged_baggage. cbv zeta. fold (sends_hop env).
  assert (forall m, (if sends_hop env then <[BaggageHop := pretty env.(hop)]> m else m) !! k =
    if decide (k = BaggageHop) then if sends_hop env then Some (pretty env.(hop)) else m !! k else m !! k) as ->.
  { intros m. destruct (sends_hop env), (decide (k = BaggageHop)) as [->|]; try done; [by rewrite lookup_insert_eq|by rewrite lookup_insert_ne]. }
  rewrite !set_if_lookup, delete_keys_lookup. unfold own_member. destruct (decide (k ∈ caracalBaggageKeys)) as [Hin|Hn].
  - unfold caracalBaggageKeys in Hin. rewrite !elem_of_cons, elem_of_nil in Hin.
    repeat (case_decide; subst; try done); repeat case_match; try done; naive_solver.
  - unfold caracalBaggageKeys in Hn. rewrite !elem_of_cons in Hn. by rewrite !decide_False by tauto.
Qed.

Lemma parse_none : parseBaggage None = ∅.
Proof. reflexivity. Qed.

(** ** Round trip *)

Definition id_ok (o : option string) : Prop := forall s, o = Some s -> value_ok s.

(** An envelope whose members fit the header format. *)
Record sendable (env : Envelope) : Prop := {
  se_ids : Forall id_ok [env.(sessionId); env.(delegationId); env.(parentDelegationId); env.(subjectAuthorityRecordId)];
  se_baggage : forall m, env.(baggage) = Some m -> m <> ∅ /\ baggage_ok m /\ map_Forall (fun k _ => k ∉ caracalBaggageKeys) m;
  se_hop : 0 <= env.(hop) <= MaxHop
}.

(** And whose headers the reader takes: not the trace identity it refuses, and inside its
    limits. *)
Record portable (env : Envelope) : Prop := {
  po_sendable : sendable env;
  po_trace : env.(traceId) <> Some "00000000000000000000000000000000";
  po_bytes : (js_length (encodeBaggage (merged_baggage env ∅)) <= MaxBaggageBytes)%nat;
  po_members : (size (merged_baggage env ∅) <= MaxBaggageMembers)%nat
}.

Lemma or_undefined_some s : s <> "" -> or_undefined (Some s) = Some s.
Proof. intros Hs. cbn. by rewrite bool_decide_false. Qed.

Lemma or_undefined_id o : id_ok o -> or_undefined o = o.
Proof. intros Ho. destruct o as [s|]; [|done]. by apply or_undefined_some, (Ho s). Qed.

Lemma own_keys_ok k : k ∈ caracalBaggageKeys -> key_ok k.
Proof.
  unfold caracalBaggageKeys. rewrite !elem_of_cons, elem_of_nil. intros Hk.
  destruct_or? Hk; subst; try done; split_and!; try done; by vm_compute.
Qed.

Lemma small_hop h : 0 <= h <= MaxHop -> decode_hop (Some (pretty h)) = h /\ value_ok (pretty h).
Proof.
  unfold MaxHop. intros Hh. assert (h = 0 \/ h = 1 \/ h = 2 \/ h = 3 \/ h = 4 \/ h = 5 \/ h = 6 \/ h = 7 \/ h = 8 \/ h = 9 \/ h = 10) as Hc by lia.
  destruct_or? Hc; subst h; by vm_compute.
Qed.
Lemma merged_ok env : sendable env -> baggage_ok (merged_baggage env ∅).
Proof.
  intros [Hids Hbag Hhop] k v Hv. rewrite merged_lookup in Hv. destruct (decide (k ∈ caracalBaggageKeys)) as [Hin|Hn].
  - split; [by apply own_keys_ok|]. unfold own_member in Hv. rewrite !Forall_cons in Hids.
    destruct Hids as (H1 & H2 & H3 & H4 & _). rewrite !or_undefined_id in Hv by done.
    repeat case_decide; try by eauto. destruct (sends_hop env); [|done]. injection Hv as <-. by apply small_hop.
  - rewrite (left_id ∅ (∪)) in Hv. destruct env.(baggage) as [m|] eqn:Hm; [|by cbn in Hv; rewrite lookup_empty in Hv].
    destruct (Hbag m eq_refl) as (_ & Hok & _). by apply (Hok k v).
Qed.

(** The trace identity, flags and state that travel: an identity that is not one is
    replaced by a fresh one, flags that are none by [01], and the state is trimmed. *)
Definition sent_trace (genTraceId : string) (env : Envelope) : string :=
  match env.(traceId) with Some t => if hexes 32 t then t else genTraceId | None => genTraceId end.

Definition sent_flags (env : Envelope) : string :=
  match env.(traceFlags) with Some f => if hexes 2 f then f else "01" | None => "01" end.

Definition sent_state (env : Envelope) : option string := or_undefined (trim <$> or_undefined env.(traceState)).

Section headers.
Context (genTraceId genSpanId : string) (env : Envelope).
Definition sent (n : string) : option string := ordered_get n (toHeaders genTraceId genSpanId env).
Notation bag := (encodeBaggage (merged_baggage env ∅)).

(** Each header of [toHeaders]. *)
Lemma sent_headers :
  sent HeaderAuthorization = None
  /\ sent HeaderTraceparent = Some (formatTraceparent genSpanId
       (match env.(traceId) with Some t => if hexes 32 t then t else genTraceId | None => genTraceId end) env.(traceFlags))
  /\ sent HeaderTracestate = or_undefined env.(traceState)
  /\ sent HeaderBaggage = (if bool_decide (bag = "") then None else Some bag).
Proof.
  unfold sent, toHeaders, encodeEnvelope. cbn [mbind option_bind or_undefined]. rewrite bool_decide_false by (by intros [? [=]]).
  generalize (formatTraceparent genSpanId
    (match env.(traceId) with Some t => if hexes 32 t then t else genTraceId | None => genTraceId end) env.(traceFlags)).
  generalize bag. intros b tp. case_bool_decide; destruct (or_undefined env.(traceState)); split_and!; reflexivity.
Qed.

Lemma read_baggage : portable env -> parseBaggage (sent HeaderBaggage) = merged_baggage env ∅.
Proof.
  intros Hp. destruct sent_headers as (_ & _ & _ & ->). destruct (decide (merged_baggage env ∅ = ∅)) as [He|Hne].
  - rewrite He. reflexivity.
  - pose proof (merged_ok env (po_sendable _ Hp)) as Hm. rewrite bool_decide_false by (by apply encoded_nonempty).
    apply parse_encode_baggage; [done..|by apply po_bytes|by apply po_members].
Qed.
End headers.

Lemma hexes_chars n s : hexes n s = true -> all_chars ink s = true /\ lacks "-" s.
Proof.
  unfold hexes. intros Hs. bool_props. split; (eapply all_chars_impl; [|done]); intros c; by destruct c as [[] [] [] [] [] [] [] []]; vm_compute.
Qed.

Lemma parse_format span t f :
  hexes 16 span = true -> span <> "0000000000000000" -> hexes 32 t = true -> t <> "00000000000000000000000000000000" -> hexes 2 f = true ->
  parseTraceparent ("00-" +:+ t +:+ "-" +:+ span +:+ "-" +:+ f) = Some (t, f).
Proof.
  intros Hs Hs0 Ht Ht0 Hf. unfold parseTraceparent.
  destruct (hexes_chars _ _ Hs) as [Hsi Hsl], (hexes_chars _ _ Ht) as [Hti Htl], (hexes_chars _ _ Hf) as [Hfi Hfl].
  rewrite trim_ink by (by rewrite !all_chars_app, Hsi, Hti, Hfi).
  change ("00-" +:+ t +:+ "-" +:+ span +:+ "-" +:+ f) with (string_concat "-" ["00"; t; span; f]).
  rewrite split_join by (by repeat constructor). rewrite Hs, Ht, Hf, (bool_decide_false _ Ht0), (bool_decide_false _ Hs0). reflexivity.
Qed.

Lemma sent_trace_ok gen env :
  portable env -> hexes 32 gen = true -> gen <> "00000000000000000000000000000000" ->
  hexes 32 (sent_trace gen env) = true /\ sent_trace gen env <> "00000000000000000000000000000000".
Proof.
  intros Hp Hg Hg0. unfold sent_trace. pose proof (po_trace _ Hp) as Hz. destruct env.(traceId) as [t|]; [|done].
  destruct (hexes 32 t) eqn:Ht; [|done]. split; [done|congruence].
Qed.

Lemma sent_flags_ok env : hexes 2 (sent_flags env) = true.
Proof. unfold sent_flags. destruct env.(traceFlags) as [f|]; [|done]. by destruct (hexes 2 f) eqn:Hf. Qed.

(** What the reader takes from the merged baggage. *)
Lemma read_own env :
  sendable env ->
  let bag := merged_baggage env ∅ in
  or_undefined (bag !! BaggageAgentSession) = env.(sessionId)
  /\ or_undefined (bag !! BaggageDelegationEdge) = env.(delegationId)
  /\ or_undefined (bag !! BaggageParentEdge) = env.(parentDelegationId)
  /\ or_undefined (bag !! BaggageSession) = env.(subjectAuthorityRecordId)
  /\ decode_hop (bag !! BaggageHop) = env.(hop).
Proof.
  intros [Hids _ Hhop] bag. unfold bag. rewrite !merged_lookup. rewrite !Forall_cons in Hids. destruct Hids as (H1 & H2 & H3 & H4 & _).
  split_and!.
  - change (or_undefined (or_undefined env.(sessionId)) = env.(sessionId)). by rewrite !or_undefined_id by (by rewrite ?or_undefined_id).
  - change (or_undefined (or_undefined env.(delegationId)) = env.(delegationId)). by rewrite !or_undefined_id by (by rewrite ?or_undefined_id).
  - change (or_undefined (or_undefined env.(parentDelegationId)) = env.(parentDelegationId)). by rewrite !or_undefined_id by (by rewrite ?or_undefined_id).
  - change (or_undefined (or_undefined env.(subjectAuthorityRecordId)) = env.(subjectAuthorityRecordId)). by rewrite !or_undefined_id by (by rewrite ?or_undefined_id).
  - change (decode_hop (if sends_hop env then Some (pretty env.(hop)) else None) = env.(hop)). destruct (sends_hop env) eqn:Hs.
    + by apply small_hop.
    + unfold sends_hop in Hs. bool_props. cbn. lia.
Qed.

Lemma read_extras env :
  sendable env -> filter (fun kv => kv.1 ∉ caracalBaggageKeys) (merged_baggage env ∅) = default_to ∅ env.(baggage).
Proof.
  intros Hp. apply map_eq. intros k. apply option_eq. intros v. rewrite map_lookup_filter_Some, merged_lookup. cbn [fst].
  destruct (decide (k ∈ caracalBaggageKeys)) as [Hin|Hn]; [|rewrite (left_id ∅ (∪)); tauto]. split; [tauto|].
  destruct env.(baggage) as [m|] eqn:Hm; cbn [default_to]; [|by rewrite lookup_empty].
  intros Hv. destruct (se_baggage _ Hp m Hm) as (_ & _ & Hk). by specialize (Hk k v Hv).
Qed.

(** C35. Round trip of the wire envelope: the headers [toHeaders] writes decode to the same
    session, delegation, parent delegation and Subject record, third-party baggage and
    hop, to the trace identity, flags and state that were sent (a fresh identity when the
    envelope has none that is 32 hex digits, [01] when it has no flags, the state
    trimmed), and never to the bearer token, which is not written.  The conditions
    ([portable]): ids and baggage values are not empty and well-formed; baggage keys are
    not empty, have no blanks around them, contain neither [=] nor [,], and are neither
    [__proto__] nor a key of Caracal's; baggage that is given is not empty; the hop is
    between 0 and [MaxHop]; the trace identity is not all zeros, nor are the ones drawn
    for the trace and the span; and the header has at most [MaxBaggageMembers] members and
    [MaxBaggageBytes] characters.  Keys are not encoded, so a key with a comma can forge a
    Session ([key_forges_session]). *)
Theorem envelope_round_trip genTraceId genSpanId env :
  portable env -> hexes 32 genTraceId = true -> genTraceId <> "00000000000000000000000000000000" ->
  hexes 16 genSpanId = true -> genSpanId <> "0000000000000000" ->
  decodeEnvelope (fun n => ordered_get n (toHeaders genTraceId genSpanId env)) =
  {| subjectToken := None; sessionId := env.(sessionId); delegationId := env.(delegationId);
     parentDelegationId := env.(parentDelegationId); subjectAuthorityRecordId := env.(subjectAuthorityRecordId);
     traceId := Some (sent_trace genTraceId env); traceFlags := Some (sent_flags env); traceState := sent_state env;
     baggage := env.(baggage); hop := env.(hop) |}.
Proof.
  intros Hp Ht Ht0 Hs Hs0. change (fun n => _) with (sent genTraceId genSpanId env). unfold decodeEnvelope. rewrite read_baggage by done.
  destruct (sent_headers genTraceId genSpanId env) as (-> & -> & -> & _).
  pose proof (po_sendable _ Hp) as Hse. destruct (read_own env Hse) as (-> & -> & -> & -> & ->). rewrite read_extras by done.
  fold (sent_trace genTraceId env). unfold formatTraceparent. cbv zeta. fold (sent_flags env).
  rewrite or_undefined_some by done. cbn [mbind option_bind].
  rewrite parse_format by (done || by apply sent_trace_ok || by apply sent_flags_ok). f_equal.
  pose proof (se_baggage _ Hse) as Hbag. destruct env.(baggage) as [m|]; [|done]. cbn [default_to]. rewrite decide_False; [done|].
  by apply Hbag.
Qed.

(** The writer has no such limits: with 64 other members the envelope is read as empty, so
    its session is lost and its hop count starts again at 0. *)
Lemma crowded_envelope_forgotten genTraceId genSpanId env :
  sendable env -> (MaxBaggageMembers < size (merged_baggage env ∅))%nat ->
  let read := decodeEnvelope (fun n => ordered_get n (toHeaders genTraceId genSpanId env)) in
  read.(hop) = 0 /\ read.(sessionId) = None /\ read.(delegationId) = None.
Proof.
  intros Hs Hsize. change (fun n => _) with (sent genTraceId genSpanId env). cbv zeta. unfold decodeEnvelope. cbn [hop sessionId delegationId].
  assert (parseBaggage (sent genTraceId genSpanId env HeaderBaggage) = ∅) as ->; [|by rewrite !lookup_empty].
  destruct (sent_headers genTraceId genSpanId env) as (_ & _ & _ & ->). case_bool_decide; [done|].
  apply parse_crowded; [by apply merged_ok|done].
Qed.

(** ** Verified contexts *)

(** Attribution of a verified context comes from the claims alone, and its hop is in range. *)
Lemma verified_attribution env claims ctx :
  fromVerifiedEnvelope env claims = inr ctx ->
  Some ctx.(ctx_subjectToken) = env.(subjectToken) /\ ctx.(ctx_zoneId) = claims.(vc_zoneId) /\ ctx.(ctx_applicationId) = claims.(vc_applicationId)
  /\ ctx.(ctx_sessionId) = claims.(vc_sessionId) /\ ctx.(ctx_delegationId) = claims.(vc_delegationId)
  /\ ctx.(ctx_parentDelegationId) = claims.(vc_parentDelegationId)
  /\ ctx.(ctx_subjectAuthorityRecordId) = claims.(vc_subjectAuthorityRecordId)
  /\ ctx.(ctx_hop) = claims.(vc_hop) /\ 0 <= ctx.(ctx_hop) <= MaxHop /\ ctx.(ctx_zoneId) <> "".
Proof.
  unfold fromVerifiedEnvelope, fromEnvelope, or_undefined. cbn [subjectToken].
  destruct (bool_decide (claims.(vc_zoneId) = "")) eqn:Hz; [intros [=]|]. destruct (bool_decide (claims.(vc_applicationId) = "")); [intros [=]|].
  destruct (claims.(vc_hop) <? 0) eqn:Hl; [intros [=]|]. destruct (MaxHop <? claims.(vc_hop)) eqn:Hh; [intros [=]|]. bool_props. cbn [orb].
  destruct env.(subjectToken) as [t|]; [|intros [=]]. destruct (bool_decide (t = "")); [intros [=]|]. intros [= <-]. cbn.
  split_and!; (done || lia).
Qed.
End EnvelopeFacts.
