(* ===== verification/AuditHooks.v ===== *)
(** * Admin audit hooks

    The hooks that hold back a successful reply until its record is in the chain of
    [AdminAudit], shared by the API and the coordinator, and what
    [apps/api/src/admin-audit.ts] records of a request.  A transaction that fails commits nothing and
    is [None] below; one that commits carries the identifier and time of its record.
    Field names are compared in lower case on ASCII letters. *)

From Stdlib Require Import Ascii.
From Stdlib Require String.
From S2P Require Import Prelude.
From S2P Require Import Json.
From S2P Require Import Text.
From S2P Require Import JsonText.
From S2P Require Import Auth.
From S2P Require Import AdminClient.
From S2P Require Import AdminAudit.
Local Open Scope string_scope.
Local Open Scope Z_scope.

(** ** Replies held back *)

Module AuditGate.
Import AdminAudit.

(** A reply as the hooks see it. *)
Record Reply := { status : Z; body : option string }.

Section gate.
Context `{Digests} (hmacKey : option string).
Variables (covered_send covered_response : bool) (record : Z -> option string -> option AdminAuditRecord) (refusal : string).

(** [record]: its outcome, and the committed table; with nothing to record it succeeds. *)
Definition write (st : Z) (payload : option string) (outcome : option (string * Z)) (rows : list Row) : bool * list Row :=
  match record st payload with
  | None => (true, rows)
  | Some rec =>
      match outcome with
      | Some (id, occurredAt) => (true, insertAdminAuditRecord hmacKey id occurredAt rec rows)
      | None => (false, rows)
      end
  end.

(** The reply to send, whether the request is gated, and the table. *)
Definition onSend (r : Reply) (outcome : option (string * Z)) (rows : list Row) : Reply * bool * list Row :=
  if negb covered_send || (400 <=? r.(status)) then (r, false, rows)
  else match write r.(status) r.(body) outcome rows with
       | (true, rows') => (r, true, rows')
       | (false, rows') => ({| status := 500; body := Some refusal |}, true, rows')
       end.

Definition onResponse (r : Reply) (gated : bool) (outcome : option (string * Z)) (rows : list Row) : list Row :=
  if gated || negb covered_response || (r.(status) <? 400) then rows else (write r.(status) None outcome rows).2.

(** The two hooks around a handler's reply. *)
Definition respond (r : Reply) (outcome outcome' : option (string * Z)) (rows : list Row) : Reply * list Row :=
  let '(r', gated, rows') := onSend r outcome rows in (r', onResponse r' gated outcome' rows').

(** What the hooks let through. *)
Lemma respond_spec r o o' rows r' rows' :
  respond r o o' rows = (r', rows') ->
  (r'.(status) < 400 -> r' = r /\ (covered_send = true ->
     match record r.(status) r.(body) with
     | Some rec => exists id at_, o = Some (id, at_) /\ rows' = insertAdminAuditRecord hmacKey id at_ rec rows
     | None => rows' = rows
     end))
  /\ (rows' = rows \/ exists st payload rec id at_, record st payload = Some rec /\ rows' = insertAdminAuditRecord hmacKey id at_ rec rows)
  /\ (400 <= r.(status) -> r' = r).
Proof.
  unfold respond, onSend, onResponse, write. destruct covered_send, (400 <=? r.(status)) eqn:Hs; cbn [negb orb];
    destruct (record r.(status) r.(body)) as [rec|] eqn:Hr; try destruct o as [[id at_]|]; cbn; intros [= <- <-]; bool_props;
    cbn [status]; split_and!; try lia; try (intros; split; [done|]); try done; try naive_solver;
    repeat (case_match; cbn); naive_solver.
Qed.
End gate.
End AuditGate.

(** ** The API *)

Module ApiAudit.
Import AdminAudit AuditGate.

Definition SECRET_FIELD_NAMES : list string :=
  ["client_secret"; "secret"; "password"; "token"; "private_key"; "api_key"; "assertion"; "bearer_token"; "access_token"; "refresh_token"].

Definition SECRET_ACTION_SEGMENTS : list string := ["rotate-secret"].

(** [COLLECTION_SEGMENT]. *)
Definition collections : list string :=
  ["zones"; "applications"; "workloads"; "resources"; "providers"; "provider-connections"; "policies"; "policy-sets";
   "policy-templates"; "grants"; "subject-issuers"; "subjects"; "approvals"; "admin-tokens"; "operator-conversations"].
Definition is_collection (s : string) : bool := bool_decide (s ∈ collections).

Definition CHANGE_FIELD_DEPTH : nat := 3.
Definition CHANGE_FIELD_LIMIT : nat := 64.

Definition secret_name (key : string) : bool := bool_decide (to_lower key ∈ SECRET_FIELD_NAMES).

Definition push (fields : list string) (path : string) : list string :=
  if (length fields <? CHANGE_FIELD_LIMIT)%nat then (fields ++ [path])%list else fields.

Definition child_path (prefix key : string) : string := if bool_decide (prefix = "") then key else prefix +:+ "." +:+ key.

(** The flag and the fields collected so far. *)
Fixpoint collectChangedFields (body : json) (prefix : string) (depth : nat) (fields : list string) : bool * list string :=
  match body with
  | JObj kvs =>
      (fix go (kvs : list (string * json)) (secret : bool) (fields : list string) : bool * list string :=
         match kvs with
         | [] => (secret, fields)
         | (key, value) :: rest =>
             if secret_name key then go rest true fields
             else
               let path := child_path prefix key in
               if is_object value && (depth <? CHANGE_FIELD_DEPTH)%nat then
                 let '(nestedSecret, fields') := collectChangedFields value path (S depth) fields in
                 go rest (secret || nestedSecret)
                   (if (length fields' =? length fields)%nat && negb nestedSecret then push fields' path else fields')
               else go rest secret (push fields path)
         end) kvs false fields
  | _ => (false, fields)
  end.

(** [pathOnly(url).split('/').filter(Boolean)]. *)
Definition segments (path : string) : list string := filter (fun s => s <> "") (split_on "/" path).

(** The innermost collection segment that a segment follows: the collection, the segment
    after it and the one after that, scanned from the end. *)
Fixpoint innermost (collection : string -> bool) (segs : list string) : option (string * string * option string) :=
  match segs with
  | [] => None
  | candidate :: rest =>
      match innermost collection rest with
      | Some found => Some found
      | None =>
          match rest with
          | next :: more => if collection candidate then Some (candidate, next, head more) else None
          | [] => None
          end
      end
  end.

Definition actionSegment (url : string) : option string :=
  match innermost is_collection (segments (pathOnly url)) with
  | Some (_, _, Some verb) => if is_collection verb then None else Some verb
  | _ => None
  end.

Definition entityFromUrl (url : string) : option string * option string :=
  match innermost is_collection (segments (pathOnly url)) with
  | Some (type, id, _) => (Some type, Some id)
  | None => (None, None)
  end.

Inductive ChangeKind := create | update | delete_ | action_ | secret_rotation.

#[export] Instance ChangeKind_eq_dec : EqDecision ChangeKind.
Proof. solve_decision. Defined.

Definition kind_text (k : ChangeKind) : string :=
  match k with create => "create" | update => "update" | delete_ => "delete" | action_ => "action" | secret_rotation => "secret_rotation" end.

Record ChangeSummary := { change_kind : ChangeKind; changed_fields : list string; secret_rotated : bool }.

Definition changeSummary (method url : string) (body : json) : option ChangeSummary :=
  let action := actionSegment url in
  let '(secretRotated, fields) :=
    if is_object body then let '(secret, fields) := collectChangedFields body "" 0 [] in (secret, sort_strings fields) else (false, []) in
  let secretRotated := match action with Some a => bool_decide (a ∈ SECRET_ACTION_SEGMENTS) || secretRotated | None => secretRotated end in
  let changeKind :=
    if bool_decide (method = "DELETE") then delete_
    else if bool_decide (is_Some action) then if secretRotated then secret_rotation else action_
    else if bool_decide (method = "POST") then create
    else if secretRotated then secret_rotation else update in
  if bool_decide (changeKind = update) && bool_decide (fields = []) then None
  else Some {| change_kind := changeKind; changed_fields := fields; secret_rotated := secretRotated |}.

(** The characters before the first one of [stops]. *)
Fixpoint until (stops : string) (s : string) : string :=
  match s with String.String c rest => if one_of stops c then "" else String.String c (until stops rest) | _ => "" end.

Definition ZONES_PREFIX : string := "/v1/zones/".

Definition zoneFromUrl (url : string) : option string :=
  if has_prefix ZONES_PREFIX url then
    let seg := until "/?" (drop_bytes (String.length ZONES_PREFIX) url) in
    if bool_decide (seg = "") then None else Uri.decodeURIComponent seg
  else None.

Definition OAUTH_CALLBACK : string := "/provider-connections/oauth/callback".

Definition isProviderOAuthCallback (method url : string) : bool :=
  bool_decide (method = "GET") && has_prefix ZONES_PREFIX url
  && (let rest := drop_bytes (String.length ZONES_PREFIX) url in
      let seg := until "/" rest in
      let tail := drop_bytes (String.length seg) rest in
      negb (bool_decide (seg = "")) && has_prefix OAUTH_CALLBACK tail
      && match drop_bytes (String.length OAUTH_CALLBACK) tail with
         | String.EmptyString => true
         | String.String c _ => bool_decide (c = "?"%char)
         end).

Definition createdEntity (method path : string) (statusCode : Z) (payload : option string) : option (string * string) :=
  if negb (bool_decide (method = "POST")) || negb (statusCode =? 201) then None
  else match last (segments path), payload with
       | Some collection, Some text =>
           if is_collection collection then
             match json_get "id" <$> JSON_parse text with Some (JStr id) => Some (collection, id) | _ => None end
           else None
       | _, _ => None
       end.

(** [req.actor] and the parts of a request the hook reads; [account] is the profile id. *)
Record Actor := { a_id : string; a_name : string; a_scope : string; a_zoneId : option string }.
Record Request := { req_id : string; req_method : string; req_url : string; req_body : json; actor : option Actor; account : option string }.

Definition rls_fields (a : option Actor) : list (string * json) :=
  match a ≫= (fun a => if bool_decide (a.(a_scope) = "zone") then a.(a_zoneId) ≫= null_if_empty else None) with
  | Some zone => [("rls_mode", JStr "zone_scoped"); ("rls_zone_guc", JStr zone)]
  | None => [("rls_mode", JStr "control_plane_wildcard"); ("rls_zone_guc", JStr "*")]
  end.

Definition change_members (c : option ChangeSummary) : list (string * json) :=
  match c with
  | Some c =>
      ([("change_kind", JStr (kind_text c.(change_kind))); ("changed_fields", JStrs c.(changed_fields))]
       ++ if c.(secret_rotated) then [("secret_rotated", JBool true)] else [])%list
  | None => []
  end.

Definition api_record (req : Request) (statusCode : Z) (payload : option string) : AdminAuditRecord :=
  let path := pathOnly req.(req_url) in
  let entity := entityFromUrl req.(req_url) in
  let created := createdEntity req.(req_method) path statusCode payload in
  let change := if statusCode <? 400 then changeSummary req.(req_method) req.(req_url) req.(req_body) else None in
  {| requestId := req.(req_id);
     actorId := a_id <$> req.(actor);
     actorName := a_name <$> req.(actor);
     actorScope := a_scope <$> req.(actor);
     action := req.(req_method) +:+ " " +:+ path;
     method := req.(req_method);
     path := path;
     zoneId := match zoneFromUrl req.(req_url), created with
               | Some z, _ => Some z
               | None, Some (type, id) => if bool_decide (type = "zones") then Some id else None
               | None, None => None
               end;
     entityType := match created with Some (type, _) => Some type | None => entity.1 end;
     entityId := match created with Some (_, id) => Some id | None => entity.2 end;
     statusCode := statusCode;
     payloadJson := Some (rls_fields req.(actor)
                          ++ match req.(account) with Some id => [("operator", JStr id)] | None => [] end
                          ++ change_members change)%list |}.

Definition api_refusal : string :=
  text (JObj [("error", JStr "audit_unavailable");
              ("error_description", JStr "operation applied but its audit record could not be persisted")]).

(** Requests whose success is held back. *)
Definition gated_request (req : Request) : bool :=
  has_prefix "/v1/" req.(req_url)
  && (bool_decide (req.(req_method) ∈ MUTATING_METHODS) || isProviderOAuthCallback req.(req_method) req.(req_url)).

Definition api_respond `{Digests} (hmacKey : option string) (req : Request) (r : Reply) (o o' : option (string * Z)) (rows : list Row) :
    Reply * list Row :=
  respond hmacKey (gated_request req) (has_prefix "/v1/" req.(req_url)) (fun st payload => Some (api_record req st payload))
    api_refusal r o o' rows.

(** [auditStreamStart]: [inl] is the rejection; otherwise the request is gated. *)
Definition auditStreamStart `{Digests} (hmacKey : option string) (req : Request) (statusCode : Z) (o : option (string * Z)) (rows : list Row) :
    unit + list Row :=
  match write hmacKey (fun st payload => Some (api_record req st payload)) statusCode None o rows with
  | (true, rows') => inr rows'
  | (false, _) => inl tt
  end.
End ApiAudit.
