(* ===== verification/CoordinatorAudit.v ===== *)
(** * Admin audit of the coordinator

    [apps/coordinator/src/admin-audit.ts]: what is recorded of a request, and its use of
    the hooks of [AuditHooks]. *)

From Stdlib Require Import Ascii.
From Stdlib Require String.
From S2P Require Import Prelude.
From S2P Require Import Json.
From S2P Require Import Text.
From S2P Require Import JsonText.
From S2P Require Import Auth.
From S2P Require Import AdminClient.
From S2P Require Import AdminAudit.
From S2P Require Import AuditHooks.
Local Open Scope string_scope.
Local Open Scope Z_scope.

Module CoordinatorAudit.
Import AdminAudit AuditGate.

Definition is_collection (s : string) : bool :=
  bool_decide (s ∈ ["agents"; "agent-services"; "delegations"; "invocations"; "applications"; "outbox"]).

Record Request := { req_id : string; req_method : string; req_url : string; param_zoneId : option string; auth : option CaracalAuth }.

Definition entityFromUrl (url : string) : option string * option string :=
  match ApiAudit.innermost is_collection (ApiAudit.segments (pathOnly url)) with
  | Some (type, id, _) => (Some type, Some id)
  | None => (None, None)
  end.

Definition zoneFromParams (req : Request) : option string :=
  match req.(param_zoneId) ≫= null_if_empty with
  | Some z => Some z
  | None =>
      let path := pathOnly req.(req_url) in
      if has_prefix "/zones/" path then
        let seg := ApiAudit.until "/" (drop_bytes (String.length "/zones/") path) in
        if bool_decide (seg = "") then None else Uri.decodeURIComponent seg
      else None
  end.

Definition coordinator_record (req : Request) (statusCode : Z) : option AdminAuditRecord :=
  match req.(auth) with
  | None => None
  | Some a =>
      let path := pathOnly req.(req_url) in
      let entity := entityFromUrl req.(req_url) in
      Some {| requestId := req.(req_id); actorId := Some a.(subject); actorName := Some a.(clientId);
              actorScope := Some (string_concat " " a.(scopes)); action := req.(req_method) +:+ " " +:+ path;
              method := req.(req_method); path := path; zoneId := zoneFromParams req; entityType := entity.1; entityId := entity.2;
              statusCode := statusCode; payloadJson := None |}
  end.

Definition auditExempt (path : string) : bool := bool_decide (path ∈ ["/health"; "/ready"; "/metrics"; "/stats"]).

Definition coordinator_refusal : string :=
  text (JObj [("error", JStr "audit_unavailable"); ("message", JStr "operation applied but its audit record could not be persisted")]).

Definition gated_request (req : Request) : bool :=
  negb (auditExempt (pathOnly req.(req_url))) && bool_decide (req.(req_method) ∈ MUTATING_METHODS).

Definition coordinator_respond `{Digests} (hmacKey : option string) (req : Request) (r : Reply) (o o' : option (string * Z)) (rows : list Row) :
    Reply * list Row :=
  respond hmacKey (gated_request req) (negb (auditExempt (pathOnly req.(req_url)))) (fun st _ => coordinator_record req st)
    coordinator_refusal r o o' rows.
End CoordinatorAudit.

(** * Facts of the admin audit hooks

    No mutation is reported as a success without its record in the chain, and the record
    of a request does not depend on the values it carried. *)

Module AuditHookFacts.
Import AdminAudit AuditGate ApiAudit AdminAuditFacts.

(** ** Values stay out of the record *)

(** A body with every value that is not an object, and everything under a secret name,
    blanked. *)
Fixpoint redacted (v : json) : json :=
  match v with
  | JObj kvs => JObj ((fun kv => (kv.1, if secret_name kv.1 then JNull else redacted kv.2)) <$> kvs)
  | _ => JNull
  end.

Lemma redacted_object v : is_object (redacted v) = is_object v.
Proof. by destruct v. Qed.

Lemma collect_redacted v : forall prefix depth fields,
  collectChangedFields (redacted v) prefix depth fields = collectChangedFields v prefix depth fields.
Proof.
  induction v as [| | | | | | | |kvs IH] using json_nested_ind; try done. intros prefix depth fields. cbn [redacted collectChangedFields].
  generalize false. revert fields. induction IH as [|[k v] kvs Hv _ IHkvs]; intros fields secret; [done|]. cbn in Hv. cbn.
  destruct (secret_name k); [apply IHkvs|]. rewrite redacted_object, Hv. destruct (is_object v && _); [|apply IHkvs].
  destruct (collectChangedFields v _ _ _). apply IHkvs.
Qed.

Lemma summary_redacted method url b b' : redacted b = redacted b' -> changeSummary method url b = changeSummary method url b'.
Proof.
  intros He. unfold changeSummary. rewrite <-(redacted_object b), <-(redacted_object b'), <-(collect_redacted b), <-(collect_redacted b'), He.
  done.
Qed.

(** The paths collected are made of names that are not secret. *)
Definition open_path (prefix f : string) : Prop :=
  exists keys, f = foldl child_path prefix keys /\ Forall (fun k => secret_name k = false) keys.

Lemma push_elem f fields path : f ∈ push fields path -> f ∈ fields \/ f = path.
Proof. unfold push. case_match; [|by left]. rewrite elem_of_app, list_elem_of_singleton. tauto. Qed.

Lemma open_path_child prefix k f : secret_name k = false -> open_path (child_path prefix k) f -> open_path prefix f.
Proof. intros Hk (keys & -> & Hkeys). exists (k :: keys). by split; [|constructor]. Qed.

Lemma open_path_here prefix k : secret_name k = false -> open_path prefix (child_path prefix k).
Proof. intros Hk. exists [k]. by split; [|repeat constructor]. Qed.

Lemma collect_open v : forall prefix depth fields f,
  f ∈ (collectChangedFields v prefix depth fields).2 -> f ∈ fields \/ open_path prefix f.
Proof.
  induction v as [| | | | | | | |kvs IH] using json_nested_ind; try (cbn; tauto). intros prefix depth fields f. cbn [collectChangedFields].
  generalize false. revert fields. induction IH as [|[k v] kvs Hv _ IHkvs]; intros fields secret; [by left|]. cbn in Hv. cbn.
  destruct (secret_name k) eqn:Hk; [apply IHkvs|]. destruct (is_object v && _).
  - specialize (Hv (child_path prefix k) (S depth) fields f). destruct (collectChangedFields v _ _ _) as [nested fields']. cbn in Hv.
    intros Hf. apply IHkvs in Hf as [Hf|Hf]; [|by right].
    assert (f ∈ fields' \/ f = child_path prefix k) as [Hf'| ->] by (destruct (_ && _); [by apply push_elem|by left]).
    + destruct (Hv Hf') as [?|?]; [by left|right; by eapply open_path_child].
    + right. by apply open_path_here.
  - intros Hf. apply IHkvs in Hf as [Hf|Hf]; [|by right]. apply push_elem in Hf as [Hf| ->]; [by left|right; by apply open_path_here].
Qed.

(** The audit record of an API request names the fields it touched and nothing more:
    two requests that differ only in the values of their bodies, or in anything under a
    secret-named field, leave the same record; and every recorded field path is made of
    names that are not secret. *)
Theorem audit_hides_values req b b' st payload :
  let with_body b := {| req_id := req.(req_id); req_method := req.(req_method); req_url := req.(req_url); req_body := b;
                        actor := req.(actor); account := req.(account) |} in
  (redacted b = redacted b' -> api_record (with_body b) st payload = api_record (with_body b') st payload)
  /\ (forall c f, changeSummary req.(req_method) req.(req_url) b = Some c -> f ∈ c.(changed_fields) -> open_path "" f).
Proof.
  intros with_body. split.
  - intros He. unfold api_record, with_body. cbn. by rewrite (summary_redacted _ _ _ _ He).
  - intros c f Hc Hf. unfold changeSummary in Hc.
    destruct (is_object b); [|by case_match; [done|injection Hc as <-; cbn in Hf; apply elem_of_nil in Hf]].
    pose proof (collect_open b "" 0 [] f) as Hopen. destruct (collectChangedFields b "" 0 []) as [secret fields].
    case_match; [done|]. injection Hc as <-. cbn in Hf, Hopen. unfold sort_strings in Hf. rewrite merge_sort_Permutation in Hf.
    destruct (Hopen Hf) as [Hn|?]; [by apply elem_of_nil in Hn|done].
Qed.

(** ** Success is recorded first *)

Lemma insert_intact `{Digests} hmacKey id at_ rec rows :
  (forall zone, intact hmacKey (chain zone rows)) ->
  forall zone, intact hmacKey (chain zone (insertAdminAuditRecord hmacKey id at_ rec rows)).
Proof.
  intros Hi zone. unfold insertAdminAuditRecord. destruct (decide ((sanitizeRecord rec).(zoneId) = zone)) as [<-|Hn].
  - by apply audit_row_extends.
  - by rewrite chain_other.
Qed.

(** C25. Success is recorded first.  A reply below 400 that passes through the hooks of the
    API, to a mutation (or the OAuth callback of a provider connection) under [/v1/], leaves
    it only unchanged and after the record of that request was committed; likewise a reply
    of the coordinator to an authenticated mutation outside its exempt paths; a stream,
    which takes the reply over and bypasses the hooks, is started by [auditStreamStart] only
    after its record was.  At most one record is written, and every chain stays as the
    service leaves it: numbered without gaps, each row with the digest of the record it was
    written for, that of the row before it and the signature over both. *)
Theorem success_is_audited `{Digests} hmacKey rows r o o' r' rows' :
  (forall zone, intact hmacKey (chain zone rows)) ->
  (forall req, api_respond hmacKey req r o o' rows = (r', rows') ->
     (forall zone, intact hmacKey (chain zone rows')) /\ (length rows' <= S (length rows))%nat
     /\ (gated_request req = true -> r'.(status) < 400 ->
         r' = r /\ exists id at_, o = Some (id, at_)
           /\ rows' = insertAdminAuditRecord hmacKey id at_ (api_record req r.(status) r.(body)) rows))
  /\ (forall req a, req.(CoordinatorAudit.auth) = Some a -> CoordinatorAudit.coordinator_respond hmacKey req r o o' rows = (r', rows') ->
     (forall zone, intact hmacKey (chain zone rows')) /\ (length rows' <= S (length rows))%nat
     /\ (CoordinatorAudit.gated_request req = true -> r'.(status) < 400 ->
         r' = r /\ exists id at_ rec, o = Some (id, at_) /\ CoordinatorAudit.coordinator_record req r.(status) = Some rec
           /\ rows' = insertAdminAuditRecord hmacKey id at_ rec rows))
  /\ (forall req st, auditStreamStart hmacKey req st o rows = inr rows' ->
     (forall zone, intact hmacKey (chain zone rows'))
     /\ exists id at_, o = Some (id, at_) /\ rows' = insertAdminAuditRecord hmacKey id at_ (api_record req st None) rows).
Proof.
  intros Hi.
  assert (rows' = rows \/ (exists rec id at_, rows' = insertAdminAuditRecord hmacKey id at_ rec rows) ->
    (forall zone, intact hmacKey (chain zone rows')) /\ (length rows' <= S (length rows))%nat) as Hrows.
  { intros [-> | (rec & id & at_ & ->)]; [split; [done|lia]|]. split; [by apply insert_intact|].
    unfold insertAdminAuditRecord. rewrite length_app. cbn. lia. }
  split_and!.
  - intros req Hr. apply respond_spec in Hr as (Hs & Hw & _). destruct Hrows as [Hin Hlen]; [naive_solver|]. split_and!; [done..|].
    intros Hg Hst. destruct (Hs Hst) as [-> Hrec]. by specialize (Hrec Hg).
  - intros req a Ha Hr. apply respond_spec in Hr as (Hs & Hw & _). destruct Hrows as [Hin Hlen]; [naive_solver|]. split_and!; [done..|].
    intros Hg Hst. destruct (Hs Hst) as [-> Hrec]. specialize (Hrec Hg). unfold CoordinatorAudit.coordinator_record in *.
    rewrite Ha in *. naive_solver.
  - intros req st. unfold auditStreamStart, write. destruct o as [[id at_]|]; [|done]. intros [= <-]. split; [by apply insert_intact|]. by exists id, at_.
Qed.

(** A secret inside an array, or below the fourth level, is not reported as a rotation. *)
Example nested_secret_unflagged :
  changeSummary "PATCH" "/v1/zones/z/providers/p" (JObj [("items", JArr [JObj [("client_secret", JStr "s")]])])
  = Some {| change_kind := update; changed_fields := ["items"]; secret_rotated := false |}
  /\ changeSummary "PATCH" "/v1/zones/z/providers/p" (JObj [("a", JObj [("b", JObj [("c", JObj [("d", JObj [("token", JStr "s")])])])])])
  = Some {| change_kind := update; changed_fields := ["a.b.c.d"]; secret_rotated := false |}.
Proof. split; vm_compute; reflexivity. Qed.
End AuditHookFacts.
