(* ===== verification/AuditClient.v ===== *)
(** * The audit emit client

    [packages/core/ts/src/audit.ts]: events buffered in memory, sent to a Redis stream in
    batches one after another, and spilled to files that the next start sends again.  The
    steps of the machine are the points where the code awaits; [flush] runs up to its
    first [await] at once.  Events are JSON objects.  The hooks of the client (its logger,
    [onSinkError] and the metrics) return: one that throws would reject the chain of
    batches, which is not modelled. *)

From Stdlib Require Import Ascii.
From Stdlib Require String.
From S2P Require Import Prelude.
From S2P Require Import Json.
From S2P Require Import Scope.
From S2P Require Import Text.
From S2P Require Import JsonText.
From S2P Require Import Numbers.
Local Open Scope string_scope.
Local Open Scope Z_scope.

Module AuditClient.

Definition AUDIT_STREAM : string := "caracal.audit.events".

Record AuditClientOptions := {
  hmacKey : option string;
  replayDir : string;
  o_bufferCap : option nat;
  o_flushBatch : option nat;
  production : bool
}.

Record Config := { key : option string; bufferCap : nat; flushBatch : nat }.

(** The constructor; keys are bytes. *)
Definition new_AuditClient (opts : AuditClientOptions) : string + Config :=
  let key_length := match opts.(hmacKey) with Some k => String.length k | None => 0%nat end in
  if bool_decide (opts.(replayDir) = "") then inl "audit: replayDir is required"
  else if opts.(production) && (key_length =? 0)%nat then inl "audit: hmacKey is required in production"
  else if (0 <? key_length)%nat && (key_length <? 32)%nat then inl "audit: hmacKey must be at least 32 bytes"
  else inr {| key := opts.(hmacKey); bufferCap := default_to 10000%nat opts.(o_bufferCap); flushBatch := default_to 1000%nat opts.(o_flushBatch) |}.

(** ** The machine *)

Record Client := {
  buffer : list json;
  queued : list (list json);                     (* batches chained on [flushing] *)
  sending : option (list json * list json);      (* of the batch being sent: still to send, failed *)
  emittedTotal : nat;
  droppedTotal : nat;
  persistedTotal : nat;
  sinkErrorsTotal : nat;
  closed : bool;
  stream : list json;                            (* what the stream holds *)
  acknowledged : list json;                      (* what [xadd] confirmed *)
  files : list (list json);                      (* batches spilled to disk *)
  unwritten : list json                          (* batches whose file could not be written *)
}.

Definition new_client : Client :=
  {| buffer := []; queued := []; sending := None; emittedTotal := 0; droppedTotal := 0; persistedTotal := 0; sinkErrorsTotal := 0;
     closed := false; stream := []; acknowledged := []; files := []; unwritten := [] |}.

Definition flush (c : Client) : Client :=
  match c.(buffer) with
  | [] => c
  | batch =>
      {| buffer := []; queued := (c.(queued) ++ [batch])%list; sending := c.(sending); emittedTotal := c.(emittedTotal);
         droppedTotal := c.(droppedTotal); persistedTotal := c.(persistedTotal); sinkErrorsTotal := c.(sinkErrorsTotal);
         closed := c.(closed); stream := c.(stream); acknowledged := c.(acknowledged); files := c.(files); unwritten := c.(unwritten) |}
  end.

Definition emit (cfg : Config) (event : json) (c : Client) : Client :=
  if c.(closed) then c
  else if (cfg.(bufferCap) <=? length c.(buffer))%nat then
    {| buffer := c.(buffer); queued := c.(queued); sending := c.(sending); emittedTotal := c.(emittedTotal);
       droppedTotal := S c.(droppedTotal); persistedTotal := c.(persistedTotal); sinkErrorsTotal := c.(sinkErrorsTotal);
       closed := c.(closed); stream := c.(stream); acknowledged := c.(acknowledged); files := c.(files); unwritten := c.(unwritten) |}
  else
    let c' :=
      {| buffer := (c.(buffer) ++ [event])%list; queued := c.(queued); sending := c.(sending); emittedTotal := S c.(emittedTotal);
         droppedTotal := c.(droppedTotal); persistedTotal := c.(persistedTotal); sinkErrorsTotal := c.(sinkErrorsTotal);
         closed := c.(closed); stream := c.(stream); acknowledged := c.(acknowledged); files := c.(files); unwritten := c.(unwritten) |} in
    if (cfg.(flushBatch) <=? length c'.(buffer))%nat then flush c' else c'.

(** How an [xadd] ends: a lost reply is an error for an event the stream has. *)
Inductive XaddOutcome := Added | ReplyLost | Refused.

(** The chain goes on: it takes up the next batch, sends one event, or ends the batch by
    writing its failed events to a file. *)
Definition advance (outcome : XaddOutcome) (written : bool) (c : Client) : Client :=
  match c.(sending), c.(queued) with
  | None, batch :: rest =>
      {| buffer := c.(buffer); queued := rest; sending := Some (batch, []); emittedTotal := c.(emittedTotal);
         droppedTotal := c.(droppedTotal); persistedTotal := c.(persistedTotal); sinkErrorsTotal := c.(sinkErrorsTotal);
         closed := c.(closed); stream := c.(stream); acknowledged := c.(acknowledged); files := c.(files); unwritten := c.(unwritten) |}
  | None, [] => c
  | Some (ev :: rest, failed), _ =>
      let ok := match outcome with Added => true | _ => false end in
      {| buffer := c.(buffer); queued := c.(queued);
         sending := Some (rest, if ok then failed else (failed ++ [ev])%list); emittedTotal := c.(emittedTotal);
         droppedTotal := c.(droppedTotal); persistedTotal := c.(persistedTotal);
         sinkErrorsTotal := if ok then c.(sinkErrorsTotal) else S c.(sinkErrorsTotal);
         closed := c.(closed);
         stream := match outcome with Refused => c.(stream) | _ => (c.(stream) ++ [ev])%list end;
         acknowledged := if ok then (c.(acknowledged) ++ [ev])%list else c.(acknowledged);
         files := c.(files); unwritten := c.(unwritten) |}
  | Some ([], failed), _ =>
      let spill := negb (bool_decide (failed = [])) in
      {| buffer := c.(buffer); queued := c.(queued); sending := None; emittedTotal := c.(emittedTotal);
         droppedTotal := c.(droppedTotal);
         persistedTotal := if spill && written then (c.(persistedTotal) + length failed)%nat else c.(persistedTotal);
         sinkErrorsTotal := c.(sinkErrorsTotal); closed := c.(closed); stream := c.(stream); acknowledged := c.(acknowledged);
         files := if spill && written then (c.(files) ++ [failed])%list else c.(files);
         unwritten := if spill && negb written then (c.(unwritten) ++ failed)%list else c.(unwritten) |}
  end.

(** [close], up to the point where it has chained the last batch. *)
Definition close (c : Client) : Client :=
  flush {| buffer := c.(buffer); queued := c.(queued); sending := c.(sending); emittedTotal := c.(emittedTotal);
           droppedTotal := c.(droppedTotal); persistedTotal := c.(persistedTotal); sinkErrorsTotal := c.(sinkErrorsTotal);
           closed := true; stream := c.(stream); acknowledged := c.(acknowledged); files := c.(files); unwritten := c.(unwritten) |}.

Inductive ClientEvent := Emit (event : json) | Timer | Advance (outcome : XaddOutcome) (written : bool) | Close.

Definition client_step (cfg : Config) (c : Client) (e : ClientEvent) : Client :=
  match e with
  | Emit event => emit cfg event c
  | Timer => if c.(closed) then c else flush c
  | Advance outcome written => advance outcome written c
  | Close => if c.(closed) then c else close c
  end.

Definition client_run (cfg : Config) (es : list ClientEvent) : Client := foldl (client_step cfg) new_client es.

(** The events [emit] takes on in a run. *)
Fixpoint taken (cfg : Config) (es : list ClientEvent) (c : Client) : list json :=
  match es with
  | [] => []
  | e :: rest =>
      (match e with
       | Emit event => if c.(closed) || (cfg.(bufferCap) <=? length c.(buffer))%nat then [] else [event]
       | _ => []
       end ++ taken cfg rest (client_step cfg c e))%list
  end.

Definition accepted (cfg : Config) (es : list ClientEvent) : list json := taken cfg es new_client.

(** ** Wire and disk *)

Section wire.
Variable hmac_sha256 : string -> string -> string.

(** The arguments of [XADD]; [None] when the event has no [id] text. *)
Definition xadd_args (cfg : Config) (ev : json) : option (list string) :=
  match json_get "id" ev, JSON_stringify ev with
  | JStr id, Some data =>
      Some (["*"; "id"; id; "data"; data] ++ match cfg.(key) with Some k => ["sig"; hmac_sha256 k data] | None => [] end)%list
  | _, _ => None
  end.
End wire.

Definition NL : ascii := ascii_of_nat 10.

(** The file [persistBatch] writes. *)
Definition file_body (batch : list json) : string := string_concat (String.String NL "") (text <$> batch) +:+ String.String NL "".

(** One file of [replayPending]: the events it sends, in order, and whether the file is
    done with; [accepts i] is the outcome of the [i]-th [XADD]. *)
Fixpoint replay_lines (accepts : nat -> bool) (i : nat) (lines : list string) : list json * bool :=
  match lines with
  | [] => ([], true)
  | line :: rest =>
      if bool_decide (trim line = "") then replay_lines accepts i rest
      else match JSON_parse line with
           | None => ([], false)
           | Some ev =>
               if accepts i then let '(evs, ok) := replay_lines accepts (S i) rest in (ev :: evs, ok) else ([], false)
           end
  end.

Definition replay_file (accepts : nat -> bool) (body : string) : list json * bool := replay_lines accepts 0 (split_on NL body).
End AuditClient.

(** * Facts of the audit emit client

    Every event taken on is accounted for, and a spilled batch is replayed as it was. *)

Module AuditClientFacts.
Import AuditClient.

(** ** Accounting *)

(** The events still on their way. *)
Definition pending (c : Client) : list json :=
  (c.(buffer) ++ concat c.(queued) ++ match c.(sending) with Some (rest, failed) => rest ++ failed | None => [] end)%list.

Record accounts (events : list json) (c : Client) : Prop := {
  ac_events : events ≡ₚ (pending c ++ c.(acknowledged) ++ concat c.(files) ++ c.(unwritten))%list;
  ac_stream : c.(acknowledged) ⊆+ c.(stream);
  ac_emitted : c.(emittedTotal) = length events;
  ac_persisted : c.(persistedTotal) = length (concat c.(files))
}.

Lemma accounts_flush events c : accounts events c -> accounts events (flush c).
Proof.
  intros [He Hs Hn Hp]. unfold flush. destruct c.(buffer) as [|x b] eqn:Hb; [done|]. split; try done. rewrite He. unfold pending. rewrite Hb. cbn.
  rewrite concat_app. cbn. rewrite app_nil_r. solve_Permutation.
Qed.
Lemma accounts_emit cfg events c event :
  accounts events c ->
  accounts (events ++ if c.(closed) || (cfg.(bufferCap) <=? length c.(buffer))%nat then [] else [event])%list (emit cfg event c).
Proof.
  intros [He Hs Hn Hp]. unfold emit. destruct c.(closed); cbn [orb]; [by rewrite app_nil_r|].
  destruct (_ <=? _)%nat; [by rewrite app_nil_r|].
  match goal with |- accounts ?evs (if ?b then flush ?c' else ?c') => assert (accounts evs c') as Hc; [|destruct b; [by apply accounts_flush|done]] end.
  split; cbn; try done; [|by rewrite length_app, Hn, Nat.add_1_r]. rewrite He. unfold pending. cbn. solve_Permutation.
Qed.

Lemma accounts_advance outcome written events c : accounts events c -> accounts events (advance outcome written c).
Proof.
  intros [He Hs Hn Hp]. unfold advance, pending in *. destruct c.(sending) as [[[|ev rest] failed]|] eqn:Hsend.
  - destruct (decide (failed = [])) as [->|Hf].
    + rewrite bool_decide_true by done. cbn. split; unfold pending; cbn; done.
    + rewrite bool_decide_false by done. cbn. destruct written; cbn; split; unfold pending; cbn; try done.
      * rewrite He, concat_app. cbn. rewrite app_nil_r. solve_Permutation.
      * by rewrite concat_app, length_app, Hp; cbn; rewrite app_nil_r.
      * rewrite He. solve_Permutation.
  - split; unfold pending; cbn; try done.
    + rewrite He. destruct outcome; cbn; solve_Permutation.
    + destruct outcome; cbn; [by apply submseteq_app|by apply submseteq_inserts_r|done].
  - destruct c.(queued) as [|batch rest] eqn:Hq; split; unfold pending; cbn; rewrite ?Hq, ?Hsend; try done; cbn in *.
    rewrite He. solve_Permutation.
Qed.

Lemma accounts_step cfg events c e :
  accounts events c ->
  accounts (events ++ match e with
                      | Emit event => if c.(closed) || (cfg.(bufferCap) <=? length c.(buffer))%nat then [] else [event]
                      | _ => []
                      end)%list (client_step cfg c e).
Proof.
  intros Hc. destruct e as [event| |outcome written|]; cbn [client_step]; rewrite ?app_nil_r.
  - by apply accounts_emit.
  - destruct c.(closed); [done|by apply accounts_flush].
  - by apply accounts_advance.
  - destruct c.(closed); [done|]. apply accounts_flush. by destruct Hc.
Qed.

Lemma accounts_run cfg es : forall events c, accounts events c -> accounts (events ++ taken cfg es c)%list (foldl (client_step cfg) c es).
Proof.
  induction es as [|e es IH]; intros events c Hc; cbn [taken foldl]; [by rewrite app_nil_r|].
  rewrite app_assoc. by apply IH, accounts_step.
Qed.

(** Accounting of audit events: after any run of emits, timer ticks, deliveries,
    refusals and lost replies, the events taken on are exactly those still buffered,
    queued or being sent, those the stream acknowledged, those in replay files and those
    whose file could not be written; what is acknowledged is in the stream, and the
    counters agree. *)
Lemma audit_events_accounted cfg es :
  let c := client_run cfg es in
  accepted cfg es ≡ₚ (pending c ++ c.(acknowledged) ++ concat c.(files) ++ c.(unwritten))%list
  /\ c.(acknowledged) ⊆+ c.(stream) /\ c.(emittedTotal) = length (accepted cfg es)
  /\ c.(persistedTotal) = length (concat c.(files)).
Proof. destruct (accounts_run cfg es [] new_client) as [He Hs Hn Hp]; [by split|]. by split_and!. Qed.

(** ** Overflow *)

Lemma flush_empties c : (flush c).(buffer) = [] /\ (flush c).(droppedTotal) = c.(droppedTotal).
Proof. unfold flush. by destruct c.(buffer) eqn:Hb. Qed.

Definition undersized (cfg : Config) (c : Client) : Prop := (length c.(buffer) < cfg.(flushBatch))%nat /\ c.(droppedTotal) = 0%nat.

Lemma undersized_flush cfg c : (0 < cfg.(flushBatch))%nat -> c.(droppedTotal) = 0%nat -> undersized cfg (flush c).
Proof. intros Hcfg Hd. unfold undersized. destruct (flush_empties c) as [-> ->]. by split. Qed.

Lemma undersized_step cfg c e :
  (0 < cfg.(flushBatch) <= cfg.(bufferCap))%nat -> undersized cfg c -> undersized cfg (client_step cfg c e).
Proof.
  intros Hcfg [Hb Hd]. destruct e as [event| |outcome written|]; cbn [client_step].
  - unfold emit. destruct c.(closed); [done|]. destruct (Nat.leb_spec cfg.(bufferCap) (length c.(buffer))); [lia|].
    match goal with |- undersized _ (if ?b then _ else _) => destruct b eqn:Hl end; [by apply undersized_flush; [lia|]|].
    apply Nat.leb_gt in Hl. by split.
  - destruct c.(closed); [done|]. by apply undersized_flush; [lia|].
  - unfold advance. by repeat case_match.
  - destruct c.(closed); [done|]. by apply undersized_flush; [lia|].
Qed.

(** A batch leaves the buffer as soon as it is full, so with a batch no larger than the
    buffer nothing is ever dropped: what waits for a slow stream is not bounded. *)
Lemma nothing_dropped cfg es : (0 < cfg.(flushBatch) <= cfg.(bufferCap))%nat -> undersized cfg (client_run cfg es).
Proof.
  intros Hcfg. unfold client_run. assert (undersized cfg new_client) as H0 by (split; [cbn; lia|done]).
  revert H0. generalize new_client. induction es as [|e es IH]; intros c Hc; [done|]. cbn [foldl]. by apply IH, undersized_step.
Qed.

(** ** Shutdown *)

(** The steps the chain has left. *)
Definition work (c : Client) : nat :=
  match c.(sending) with Some (rest, _) => S (length rest) | None => 0 end + sum_list ((fun b => S (S (length b))) <$> c.(queued)).

Lemma work_advance outcome written c :
  c.(buffer) = [] -> (advance outcome written c).(buffer) = [] /\ work (advance outcome written c) = pred (work c).
Proof.
  intros Hb. unfold advance, work. destruct c.(sending) as [[[|ev rest] failed]|] eqn:Hs; [by cbn..|].
  destruct c.(queued) as [|batch rest] eqn:Hq; cbn; [by rewrite Hs, Hq|]. split; [done|lia].
Qed.

Definition advances (outs : list (XaddOutcome * bool)) : list ClientEvent := (fun o => Advance o.1 o.2) <$> outs.

Lemma work_done cfg outs c :
  c.(buffer) = [] -> (work c <= length outs)%nat ->
  (foldl (client_step cfg) c (advances outs)).(buffer) = [] /\ work (foldl (client_step cfg) c (advances outs)) = 0%nat.
Proof.
  revert c. induction outs as [|[o w] outs IH]; intros c Hb Hw; cbn in *; [split; [done|lia]|].
  destruct (work_advance o w c Hb) as [Hb' Hw']. apply IH; [done|]. rewrite Hw'. lia.
Qed.

Lemma work_none c : c.(buffer) = [] -> work c = 0%nat -> pending c = [].
Proof.
  unfold work, pending. intros ->. destruct c.(sending) as [[rest failed]|]; [done|]. by destruct c.(queued).
Qed.

Lemma taken_app cfg es es' c : taken cfg (es ++ es')%list c = (taken cfg es c ++ taken cfg es' (foldl (client_step cfg) c es))%list.
Proof. revert c. induction es as [|e es IH]; intros c; cbn; [done|]. by rewrite IH, app_assoc. Qed.

Lemma taken_advances cfg outs c : taken cfg (advances outs) c = [].
Proof. revert c. induction outs as [|o outs IH]; intros c; cbn; [done|]. by rewrite IH. Qed.

(** The last batch is chained by [close]. *)
Lemma close_empties cfg c : c.(closed) = false -> (client_step cfg c Close).(buffer) = [].
Proof. intros Hc. cbn. rewrite Hc. apply flush_empties. Qed.

(** C37. Shutdown loses nothing silently: after any run, [close] followed by enough steps of
    the chain, with whatever outcomes, leaves nothing pending, and the events ever taken
    on are exactly those the stream acknowledged, those in replay files and those whose
    file could not be written. *)
Theorem shutdown_settles cfg es :
  (client_run cfg es).(closed) = false ->
  exists n, forall outs, (n <= length outs)%nat ->
    let c := client_run cfg (es ++ Close :: advances outs)%list in
    pending c = [] /\ accepted cfg es ≡ₚ (c.(acknowledged) ++ concat c.(files) ++ c.(unwritten))%list.
Proof.
  intros Hopen. exists (work (client_step cfg (client_run cfg es) Close)). intros outs Hn.
  pose proof (accounts_run cfg (es ++ Close :: advances outs)%list [] new_client ltac:(by split)) as [He _ _ _].
  unfold accepted. unfold client_run in *. rewrite taken_app in He. cbn [taken] in He. rewrite taken_advances, !app_nil_r in He.
  rewrite foldl_app in *. cbn [foldl] in *.
  destruct (work_done cfg outs _ (close_empties cfg _ Hopen) Hn) as [Hb Hw]. pose proof (work_none _ Hb Hw) as Hp.
  split; [done|]. rewrite Hp in He. exact He.
Qed.

(** ** Replay *)

Lemma escape_no_newline s : lacks NL (escape_string s).
Proof.
  induction s as [|c s IH]; [done|]. unfold lacks. cbn [escape_string]. rewrite all_chars_app. apply andb_true_iff. split; [|exact IH].
  destruct c as [[] [] [] [] [] [] [] []]; vm_compute; reflexivity.
Qed.

Lemma digits_no_newline s : all_digits s = true -> lacks NL s.
Proof.
  unfold lacks. induction s as [|c s IH]; [done|]. cbn [all_digits all_chars]. destruct (digit_value c) eqn:Hc; [|done]. intros Hs.
  apply andb_true_iff. split; [|by apply IH]. unfold other. apply negb_true_iff, bool_decide_eq_false_2. by intros ->.
Qed.

Lemma lacks_app c a b : lacks c a -> lacks c b -> lacks c (a +:+ b).
Proof. unfold lacks. rewrite all_chars_app. by intros -> ->. Qed.

Lemma lacks_concat c sep xs : lacks c sep -> Forall (lacks c) xs -> lacks c (string_concat sep xs).
Proof.
  intros Hsep Hxs. induction Hxs as [|x xs Hx Hxs IH]; [done|]. destruct xs as [|y xs]; [done|].
  rewrite concat_cons. by repeat apply lacks_app.
Qed.

Lemma stringify_no_newline s : lacks NL (stringify_string s).
Proof. unfold stringify_string. repeat apply lacks_app; try done. apply escape_no_newline. Qed.

Lemma pretty_no_newline (n : Z) : lacks NL (pretty n).
Proof.
  destruct n as [|p|p]; [done|apply digits_no_newline, pretty_all_digits; lia|].
  change (pretty (Z.neg p)) with ("-" +:+ pretty (Z.pos p)). apply lacks_app; [done|]. apply digits_no_newline, pretty_all_digits. lia.
Qed.

(** The text of a value is one line. *)
Lemma text_one_line v : plain v -> lacks NL (text v).
Proof.
  induction v as [| |b|n| | |s|xs IH|fields IH] using json_nested_ind; intros Hp; inversion_clear Hp; try done.
  - by destruct b.
  - apply pretty_no_newline.
  - apply stringify_no_newline.
  - rewrite text_arr. repeat apply lacks_app; try done. apply lacks_concat; [done|]. apply Forall_fmap.
    rewrite Forall_forall in *. auto.
  - rewrite text_obj by done. repeat apply lacks_app; try done. apply lacks_concat; [done|]. apply Forall_fmap.
    rewrite Forall_forall in *. intros [k v] Hv. unfold compose, member_text. apply lacks_app; [apply stringify_no_newline|]. apply lacks_app; [done|].
    eapply (IH (k, v)); eauto.
Qed.
Lemma object_line v : plain v -> is_object v = true -> trim (text v) <> "".
Proof.
  destruct v as [| | | | | | | |fields]; try done. intros Hp _. inversion_clear Hp. rewrite text_obj by done.
  change ("{" +:+ ?x) with (String.String "{" x). generalize (string_concat "," (member_text <$> fields) +:+ "}"). intros t.
  unfold trim. cbn [trim_start]. rewrite ink_not_ws by done. cbn [trim_end all_ws]. by rewrite ink_not_ws.
Qed.

Lemma replay_texts accepts i batch :
  Forall plain batch -> Forall (fun v => is_object v = true) batch ->
  let r := replay_lines accepts i ((text <$> batch) ++ [""])%list in
  r.1 `prefix_of` batch /\ (r.2 = true -> r.1 = batch) /\ ((forall j, accepts j = true) -> r = (batch, true)).
Proof.
  intros Hp. revert i. induction Hp as [|v batch Hv _ IH]; intros i Ho; cbn; [done|]. apply Forall_cons in Ho as [Hov Ho].
  rewrite bool_decide_false by (by apply object_line). pose proof (parse_stringify v Hv) as Hr. rewrite plain_some in Hr by done.
  cbn in Hr. rewrite Hr. destruct (accepts i) eqn:Ha; cbn; [|split_and!; [apply prefix_nil|done|intros Hall; by rewrite Hall in Ha]].
  destruct (IH (S i) Ho) as (Hpre & Hdone & Hall). destruct (replay_lines accepts (S i) _) as [evs ok]. cbn in *. split_and!.
  - by apply prefix_cons.
  - intros Hok. by rewrite Hdone.
  - intros Hj. specialize (Hall Hj). by simplify_eq.
Qed.

Lemma split_file batch : Forall plain batch -> batch <> [] -> split_on NL (file_body batch) = ((text <$> batch) ++ [""])%list.
Proof.
  intros Hp Hne. unfold file_body. rewrite <-(split_join NL ((text <$> batch) ++ [""])%list).
  - f_equal. clear Hp. induction batch as [|v batch IH]; [done|]. destruct batch as [|w batch]; [done|]. cbn [fmap list_fmap app] in *.
    rewrite !concat_cons, string_app_assoc. f_equal. rewrite string_app_assoc. f_equal. by apply IH.
  - by destruct batch.
  - apply Forall_app. split; [|by repeat constructor]. apply Forall_fmap. eapply Forall_impl; [exact Hp|]. apply text_one_line.
Qed.

(** A batch spilled to disk is replayed as it was: reading its file back sends the same
    events in the same order, up to the first one the stream refuses; the file is given up
    only when all were sent, and they are all sent when the stream accepts them. *)
Theorem spilled_batch_replays accepts batch :
  Forall plain batch -> Forall (fun v => is_object v = true) batch -> batch <> [] ->
  let r := replay_file accepts (file_body batch) in
  r.1 `prefix_of` batch /\ (r.2 = true -> r.1 = batch) /\ ((forall i, accepts i = true) -> r = (batch, true)).
Proof. intros Hp Ho Hne. unfold replay_file. rewrite split_file by done. by apply replay_texts. Qed.
End AuditClientFacts.
