(* ===== verification/OAuth.v ===== *)
(** * The token exchange client

    [packages/oauth/ts/src]: RFC 8693 exchanges with a token cache and one exchange in
    flight per key ([client.ts]), the bounded in-memory cache ([cache.ts]) and the error
    types ([types.ts]).  Times are milliseconds of the wall clock ([Date.now]) and of the
    monotonic clock ([performance.now]), as integers; so are [timeoutMs] and
    [ttlSeconds].  [fetch] is an outcome given to the steps: a reply, or nothing when it
    throws.  Fields of an error reply that are present are strings. *)

From Stdlib Require Import Ascii.
From Stdlib Require String.
From S2P Require Import Prelude.
From S2P Require Import Scope.
From S2P Require Import Json.
From S2P Require Import Text.
From S2P Require Import JsonText.
From S2P Require Import AdminClient.
Local Open Scope string_scope.
Local Open Scope Z_scope.

(** A minted token. *)
Record TokenExchangeResponse := {
  accessToken : string;
  expiresIn : Z;
  issuedAt : Z;
  targetResources : option (list string)
}.

(** [interface TokenCache]: what a client asks of a cache. *)
Class TokenCache := {
  cache : Type;
  no_tokens : cache;
  cache_get : Z -> string -> string -> cache -> cache * option TokenExchangeResponse;
  cache_set : Z -> Z -> string -> string -> TokenExchangeResponse -> cache -> cache;
  cache_clear : cache -> cache
}.

(** What a cache promises: it gives back only what was put in under the same key.  Two
    subject and resource pairs may share a key; [holds] is what may still be given back. *)
Class TokenCacheLaws `{TokenCache} := {
  same_key : string * string -> string * string -> Prop;
  holds : cache -> string * string -> TokenExchangeResponse -> Prop;
  holds_empty : forall k t, ~ holds no_tokens k t;
  holds_get : forall mono s r c c' o, cache_get mono s r c = (c', o) ->
    (forall t, o = Some t -> holds c (s, r) t) /\ (forall k t, holds c' k t -> holds c k t);
  holds_set : forall now mono s r t c k t', holds (cache_set now mono s r t c) k t' -> (same_key (s, r) k /\ t' = t) \/ holds c k t';
  holds_clear : forall c k t, ~ holds (cache_clear c) k t
}.

Module OAuth.

(** ** Requests *)

Record ExchangeOptions := {
  clientSecret : option string;
  authorityRecordId : option string;
  sessionId : option string;
  delegationId : option string;
  scopes : list string;
  timeoutMs : option Z;
  ttlSeconds : option Z;
  approvalId : option string;
  forceRefresh : bool;
  use_cache : bool                       (* [opts.cache !== false] *)
}.

Record Request := { subjectToken : string; resource : list string; opts : ExchangeOptions }.

(** The client's construction. *)
Record Config := { stsUrl : string; zoneId : string; applicationId : string }.

(** [value || undefined]. *)
Definition filled (o : option string) : option string :=
  match o with Some s => if bool_decide (s = "") then None else Some s | None => None end.

(** [[...new Set(xs)].sort()]. *)
Definition sorted_set (xs : list string) : list string := sort_strings (distinct xs).

Definition resourceList (resource : list string) : list string :=
  sorted_set (filter (fun s => s <> "") (trim <$> resource)).

Definition normalizedScopes (scopes : list string) : string := string_concat " " (sorted_set scopes).

Definition oneShot (q : Request) : bool := negb q.(opts).(use_cache) || bool_decide (is_Some (filled q.(opts).(approvalId))).

(** [if (v) body.set(k, v)]. *)
Definition param_if (k : string) (v : option string) : list (string * string) :=
  match filled v with Some s => [(k, s)] | None => [] end.

(** [if (opts.ttlSeconds)]. *)
Definition ttl_text (ttl : option Z) : option string :=
  match ttl with Some n => if n =? 0 then None else Some (pretty n) | None => None end.

Definition TOKEN_EXCHANGE : string := "urn:ietf:params:oauth:grant-type:token-exchange".

(** The form [doExchange] posts. *)
Definition exchange_body (cfg : Config) (q : Request) : list (string * string) :=
  ([("grant_type", TOKEN_EXCHANGE); ("zone_id", cfg.(zoneId)); ("application_id", cfg.(applicationId))]
   ++ (if bool_decide (q.(subjectToken) = "") then []
       else [("subject_token", q.(subjectToken)); ("subject_token_type", "urn:ietf:params:oauth:token-type:access_token")])
   ++ ((fun value => ("resource", value)) <$> resourceList q.(resource))
   ++ param_if "client_secret" q.(opts).(clientSecret)
   ++ param_if "session_id" q.(opts).(authorityRecordId)
   ++ param_if "agent_session_id" q.(opts).(sessionId)
   ++ param_if "delegation_edge_id" q.(opts).(delegationId)
   ++ param_if "scope" (Some (normalizedScopes q.(opts).(scopes)))
   ++ param_if "ttl_seconds" (ttl_text q.(opts).(ttlSeconds))
   ++ param_if "approval_id" q.(opts).(approvalId))%list.

(** ** Replies *)

Record Response := { res_status : Z; content_type : option string; res_text : string }.

Definition res_ok (res : Response) : bool := (200 <=? res.(res_status)) && (res.(res_status) <=? 299).

(** What an exchange throws. *)
Inductive OAuthError :=
| ApprovalRequiredError (message approvalId : string) (resource state tier binding expiresAt requestId : option string) (httpStatus : Z)
| CaracalError (code message : string) (requestId : option string) (httpStatus : Z)
| Failure (message : string).

Definition str_field (k : string) (err : json) : option string := as_string (json_get k err).

Definition parseSTSErrorResponse (body : string) : option json :=
  if bool_decide (body = "") then Some (JObj [])
  else match JSON_parse body with Some (JObj fields) => Some (JObj fields) | _ => None end.

Definition formatSTSError (status : Z) (err : json) : string :=
  let base := default_to ("STS error " +:+ pretty status) (str_field "error_description" err) in
  match filled (str_field "requestId" err) with Some id => base +:+ " (request_id=" +:+ id +:+ ")" | None => base end.

Definition isJsonResponse (res : Response) : bool :=
  match res.(content_type) with
  | None => true
  | Some ct => let mediaType := before ";" (to_lower ct) in bool_decide (mediaType = "application/json") || has_suffix "+json" mediaType
  end.

(** [target_resources], when it is there. *)
Definition string_array (v : json) : option (option (list string)) :=
  match v with
  | JUndefined => Some None
  | JArr xs => Some <$> mapM as_string xs
  | _ => None
  end.

(** [token_type] is absent or [Bearer]. *)
Definition bearer_type (v : json) : bool :=
  match v with JUndefined => true | JStr s => bool_decide (s = "Bearer") | _ => false end.

Definition validateSuccessResponse (now : Z) (data : json) : OAuthError + TokenExchangeResponse :=
  match json_get "access_token" data with
  | JStr access_token =>
      if bool_decide (access_token = "") then inl (Failure "STS response invalid: access_token is required")
      else if negb (bearer_type (json_get "token_type" data)) then
        inl (Failure "STS response invalid: token_type must be Bearer")
      else match json_get "expires_in" data with
           | JNum n =>
               if n <=? 0 then inl (Failure "STS response invalid: expires_in must be a positive integer")
               else match string_array (json_get "target_resources" data) with
                    | Some targets => inr {| accessToken := access_token; expiresIn := n; issuedAt := now / 1000; targetResources := targets |}
                    | None => inl (Failure "STS response invalid: target_resources must be a string array")
                    end
           | _ => inl (Failure "STS response invalid: expires_in must be a positive integer")
           end
  | _ => inl (Failure "STS response invalid: access_token is required")
  end.

(** The part of [doExchange] after [fetch], at the time [now]. *)
Definition exchange_reply (now : Z) (q : Request) (res : option Response) : OAuthError + TokenExchangeResponse :=
  match res with
  | None => inl (Failure "fetch failed")
  | Some res =>
      if res_ok res then
        if isJsonResponse res then
          match JSON_parse res.(res_text) with
          | Some JNull => inl (Failure "Cannot read properties of null")
          | Some data => validateSuccessResponse now data
          | None => inl (Failure "invalid JSON")
          end
        else inl (Failure "STS response invalid: expected application/json")
      else
        match parseSTSErrorResponse res.(res_text) with
        | None => inl (Failure ("STS error " +:+ pretty res.(res_status) +:+ ": invalid error response"))
        | Some err =>
            if bool_decide (str_field "error" err = Some "interaction_required") then
              inl (ApprovalRequiredError (default_to "Approval required" (str_field "error_description" err))
                     (default_to "" (str_field "approval_id" err)) (head (resourceList q.(resource))) (str_field "state" err)
                     (str_field "tier" err) (str_field "binding" err) (str_field "approval_expires_at" err)
                     (str_field "requestId" err) res.(res_status))
            else
              inl (CaracalError (default_to "error" (filled (str_field "error" err))) (formatSTSError res.(res_status) err)
                     (str_field "requestId" err) res.(res_status))
        end
  end.

(** ** Cache keys *)

Section keys.
Variable hmac_id : string -> string.     (* HMAC with [SECRET_CACHE_KEY], in hexadecimal *)
Variable cfg : Config.

Definition secretCacheId (value : option string) : string := match filled value with Some v => hmac_id v | None => "" end.

Definition identityKey : string := cfg.(zoneId) +:+ "::" +:+ cfg.(applicationId).

Definition authContext (o : ExchangeOptions) : string :=
  match filled o.(clientSecret) with Some s => "secret:" +:+ secretCacheId (Some s) | None => "" end.

Definition cacheSubject (q : Request) : string :=
  string_concat "::"
    [identityKey; secretCacheId (Some q.(subjectToken)); default_to "" q.(opts).(authorityRecordId); default_to "" q.(opts).(sessionId);
     default_to "" q.(opts).(delegationId); authContext q.(opts)].

Definition cacheResource (q : Request) : string :=
  string_concat "::"
    [string_concat " " (resourceList q.(resource)); normalizedScopes q.(opts).(scopes);
     match q.(opts).(ttlSeconds) with Some n => pretty n | None => "" end].

Definition inflightKey (q : Request) : string := cacheSubject q +:+ "::" +:+ cacheResource q.
End keys.

(** ** The client *)

(** Whether a cached token has enough time left: the window is the caller's timeout and
    thirty seconds, at most half the token's lifetime.  Both sides times 2000. *)
Definition fresh_enough (now : Z) (q : Request) (t : TokenExchangeResponse) : bool :=
  let timeout := default_to 30000 q.(opts).(timeoutMs) in
  Z.min (2 * timeout + 60000) (1000 * t.(expiresIn)) <? 2 * (1000 * (t.(issuedAt) + t.(expiresIn)) - now).

Section client.
Context `{TokenCache} (hmac_id : string -> string) (cfg : Config).
Notation subject_key := (cacheSubject hmac_id cfg).
Notation inflight_key := (inflightKey hmac_id cfg).

(** A caller is a number; an exchange in flight is its request and the callers waiting. *)
Record State := { tokens : cache; inflight : gmap string (Request * list (nat * Request)); alone : gmap nat Request }.

Definition no_state : State := {| tokens := no_tokens; inflight := ∅; alone := ∅ |}.

(** What a call does at once. *)
Inductive Called := Served (t : TokenExchangeResponse) | Started | Joined | StartedAlone.

Definition exchange (now mono : Z) (caller : nat) (q : Request) (s : State) : State * Called :=
  let '(tokens', hit) :=
    if negb (oneShot q) && negb q.(opts).(forceRefresh) then
      let '(c, cached) := cache_get mono (subject_key q) (cacheResource q) s.(tokens) in
      (c, match cached with Some t => if fresh_enough now q t then Some t else None | None => None end)
    else (s.(tokens), None) in
  match hit with
  | Some t => ({| tokens := tokens'; inflight := s.(inflight); alone := s.(alone) |}, Served t)
  | None =>
      if oneShot q then ({| tokens := tokens'; inflight := s.(inflight); alone := <[caller := q]> s.(alone) |}, StartedAlone)
      else match s.(inflight) !! inflight_key q with
           | Some (starter, waiting) =>
               ({| tokens := tokens'; inflight := <[inflight_key q := (starter, (caller, q) :: waiting)]> s.(inflight); alone := s.(alone) |}, Joined)
           | None =>
               ({| tokens := tokens'; inflight := <[inflight_key q := (q, [(caller, q)])]> s.(inflight); alone := s.(alone) |}, Started)
           end
  end.

(** The reply to the exchange in flight under a key: a token fills the cache, and every
    waiting caller gets the outcome. *)
Definition settle (now mono : Z) (k : string) (res : option Response) (s : State) :
    State * list (nat * Request * (OAuthError + TokenExchangeResponse)) :=
  match s.(inflight) !! k with
  | None => (s, [])
  | Some (q, waiting) =>
      let outcome := exchange_reply now q res in
      ({| tokens := match outcome with
                    | inr t => cache_set now mono (subject_key q) (cacheResource q) t s.(tokens)
                    | inl _ => s.(tokens)
                    end;
          inflight := delete k s.(inflight); alone := s.(alone) |},
       (fun cq => (cq.1, cq.2, outcome)) <$> waiting)
  end.

(** The reply to an exchange that is not shared. *)
Definition settle_alone (now : Z) (caller : nat) (res : option Response) (s : State) :
    State * list (nat * Request * (OAuthError + TokenExchangeResponse)) :=
  match s.(alone) !! caller with
  | None => (s, [])
  | Some q => ({| tokens := s.(tokens); inflight := s.(inflight); alone := delete caller s.(alone) |}, [(caller, q, exchange_reply now q res)])
  end.

Definition invalidate (s : State) : State := {| tokens := cache_clear s.(tokens); inflight := s.(inflight); alone := s.(alone) |}.

(** *** Runs *)

Inductive ClientEvent :=
| Call (now mono : Z) (caller : nat) (q : Request)
| Reply (now mono : Z) (k : string) (res : option Response)
| ReplyAlone (now : Z) (caller : nat) (res : option Response)
| Invalidate.

(** What a run shows: a token minted by a request, a call served from the cache, and the
    outcome of a call that waited. *)
Inductive Log :=
| Mint (q : Request) (t : TokenExchangeResponse)
| Hit (now : Z) (caller : nat) (q : Request) (t : TokenExchangeResponse)
| Answer (caller : nat) (q : Request) (outcome : OAuthError + TokenExchangeResponse).

Definition mint_log (q : Request) (outcome : OAuthError + TokenExchangeResponse) : list Log :=
  match outcome with inr t => [Mint q t] | inl _ => [] end.

Definition client_step (e : ClientEvent) (s : State) : State * list Log :=
  match e with
  | Call now mono caller q =>
      let '(s', c) := exchange now mono caller q s in (s', match c with Served t => [Hit now caller q t] | _ => [] end)
  | Reply now mono k res =>
      let '(s', answers) := settle now mono k res s in
      (s', (match s.(inflight) !! k with Some (q, _) => mint_log q (exchange_reply now q res) | None => [] end
            ++ ((fun a => Answer a.1.1 a.1.2 a.2) <$> answers))%list)
  | ReplyAlone now caller res =>
      let '(s', answers) := settle_alone now caller res s in
      (s', (match s.(alone) !! caller with Some q => mint_log q (exchange_reply now q res) | None => [] end
            ++ ((fun a => Answer a.1.1 a.1.2 a.2) <$> answers))%list)
  | Invalidate => (invalidate s, [])
  end.

Fixpoint client_run (es : list ClientEvent) (s : State) : State * list Log :=
  match es with
  | [] => (s, [])
  | e :: rest => let '(s', out) := client_step e s in let '(s'', outs) := client_run rest s' in (s'', (out ++ outs)%list)
  end.
End client.

(** ** The in-memory cache *)

Section memory.
Variable digest : string -> string.      (* HMAC with [CACHE_KEY], in hexadecimal *)
Variable maxEntries : nat.

Record Entry := { token : TokenExchangeResponse; expiresAtMonoMs : Z }.

(** A [Map]: entries in insertion order. *)
Definition memory : Type := list (string * Entry).

Definition cacheKey (subjectToken resource : string) : string :=
  digest (subjectToken +:+ String.String (ascii_of_nat 0) resource).

Definition map_delete (k : string) (m : list (string * Entry)) : list (string * Entry) := filter (fun ke => ke.1 <> k) m.

Definition memory_get (mono : Z) (subjectToken resource : string) (m : memory) : memory * option TokenExchangeResponse :=
  let k := cacheKey subjectToken resource in
  match ordered_get k m with
  | None => (m, None)
  | Some e =>
      if e.(expiresAtMonoMs) <=? mono then (map_delete k m, None)
      else ((map_delete k m ++ [(k, e)])%list, Some e.(token))
  end.

Definition memory_set (now mono : Z) (subjectToken resource : string) (t : TokenExchangeResponse) (m : memory) : memory :=
  let k := cacheKey subjectToken resource in
  let m := map_delete k m in
  let remainingMs := (t.(issuedAt) + t.(expiresIn)) * 1000 - now in
  if remainingMs <=? 0 then m
  else
    let m := (m ++ [(k, {| token := t; expiresAtMonoMs := mono + remainingMs |})])%list in
    drop (length m - maxEntries) m.

(** The default cache of a client. *)
Definition InMemoryTokenCache : TokenCache :=
  {| cache := memory; no_tokens := []; cache_get := memory_get; cache_set := memory_set; cache_clear := fun _ => [] |}.
End memory.

(** ** Federated users *)

Definition federate_body (cfg : Config) (idToken : string) (clientSecret : option string) (ttlSeconds : option Z) : list (string * string) :=
  ([("grant_type", TOKEN_EXCHANGE); ("zone_id", cfg.(zoneId)); ("application_id", cfg.(applicationId)); ("subject_token", idToken);
    ("subject_token_type", "urn:ietf:params:oauth:token-type:id_token")]
   ++ param_if "client_secret" clientSecret ++ param_if "ttl_seconds" (ttl_text ttlSeconds))%list.

(** A refusal of the service under another default code. *)
Definition service_refusal (code invalid : string) (res : Response) : OAuthError :=
  match parseSTSErrorResponse res.(res_text) with
  | None => Failure invalid
  | Some err => CaracalError (default_to code (str_field "error" err)) (formatSTSError res.(res_status) err) None res.(res_status)
  end.

(** The reply to the form [federate_body], which is never cached. *)
Definition federateSubject (now : Z) (idToken : string) (res : option Response) : OAuthError + TokenExchangeResponse :=
  if bool_decide (idToken = "") then inl (Failure "federateSubject requires the Federated user identity token")
  else match res with
       | None => inl (Failure "fetch failed")
       | Some res =>
           if res_ok res then
             match JSON_parse res.(res_text) with
             | Some JNull => inl (Failure "Cannot read properties of null")
             | Some data => validateSuccessResponse now data
             | None => inl (Failure "invalid JSON")
             end
           else inl (service_refusal "federation_failed" ("STS error " +:+ pretty res.(res_status) +:+ ": invalid error response") res)
       end.

(** ** Approvals *)

Inductive ApprovalState := pending | approved | rejected | expired | consumed.

Definition approval_text (a : ApprovalState) : string :=
  match a with pending => "pending" | approved => "approved" | rejected => "rejected" | expired => "expired" | consumed => "consumed" end.

Definition APPROVAL_STATES : list ApprovalState := [pending; approved; rejected; expired; consumed].

Definition approvalState (value : string) : option ApprovalState := find_first (fun a => bool_decide (approval_text a = value)) APPROVAL_STATES.

(** How many seconds a poll asks the server to hold. *)
Definition poll_wait (remainingMs : Z) : Z := Z.max 1 (Z.min 25 (remainingMs / 1000)).

Definition poll_url (stsUrl id : string) (wait : Z) : string :=
  stsUrl +:+ "/approvals/" +:+ AdminClient.encodeURIComponent id +:+ "?wait=" +:+ pretty wait.

(** [pollApprovalState]: each round has the time it starts at and the reply to its poll;
    [None] is a loop still running when the rounds are over. *)
Fixpoint pollApprovalState (deadline : Z) (rounds : list (Z * option Response)) : option (string + ApprovalState) :=
  match rounds with
  | [] => None
  | (now, res) :: rest =>
      if deadline - now <=? 0 then Some (inr pending)
      else match res with
           | None => Some (inl "fetch failed")
           | Some res =>
               if negb (res_ok res) then Some (inl ("step-up status failed: " +:+ pretty res.(res_status)))
               else match JSON_parse res.(res_text) with
                    | None => Some (inl "invalid JSON")
                    | Some JNull => Some (inl "Cannot read properties of null")
                    | Some data =>
                        match json_get "state" data with
                        | JStr state =>
                            if bool_decide (state = "pending") then pollApprovalState deadline rest
                            else match approvalState state with
                                 | Some a => Some (inr a)
                                 | None => Some (inl ("step-up status returned an unknown challenge state: " +:+ state))
                                 end
                        | _ => pollApprovalState deadline rest
                        end
                    end
           end
  end.

(** ** Decisions of end users *)

Record Decision_ := { d_subjectToken : string; d_approvalId : string; d_binding : string; d_approved : bool; d_reason : option string }.

Definition decision_url (stsUrl : string) (d : Decision_) : string :=
  stsUrl +:+ "/approvals/" +:+ AdminClient.encodeURIComponent d.(d_approvalId) +:+ "/decision".

Definition decision_body (d : Decision_) : json :=
  JObj ([("decision", JStr (if d.(d_approved) then "approved" else "rejected")); ("binding", JStr d.(d_binding))]
        ++ match filled d.(d_reason) with Some r => [("reason", JStr r)] | None => [] end)%list.

(** Nothing is posted when a field is missing. *)
Definition decideApproval (d : Decision_) (res : option Response) : OAuthError + unit :=
  if bool_decide (d.(d_subjectToken) = "") || bool_decide (d.(d_approvalId) = "") || bool_decide (d.(d_binding) = "") then
    inl (Failure "decideApproval requires subjectToken, approvalId, and binding")
  else match res with
       | None => inl (Failure "fetch failed")
       | Some res =>
           if res_ok res then inr tt
           else inl (service_refusal "decision_failed" ("approval decision failed: " +:+ pretty res.(res_status)) res)
       end.
End OAuth.

(** * Facts of the token exchange client

    A caller never gets a token that was minted for another request, and the in-memory
    cache keeps its promises and its bound. *)

Module OAuthFacts.
Import OAuth.

(** ** Keys joined by [::] *)

(** A text that cannot be mistaken for one that holds the separator. *)
Definition sep_free (a : string) : Prop := index_of "::" (a +:+ ":") = None.

Lemma index_of_sep a x : sep_free a -> index_of "::" (a +:+ "::" +:+ x) = Some (String.length a).
Proof.
  unfold sep_free. induction a as [|c a IH]; intros Ha; [done|].
  change (String.String c a +:+ ?y) with (String.String c (a +:+ y)) in *. cbn [index_of] in *.
  assert (has_prefix "::" (String.String c (a +:+ "::" +:+ x)) = has_prefix "::" (String.String c (a +:+ ":"))) as ->
    by (by destruct a).
  destruct (has_prefix "::" _); [done|]. destruct (index_of "::" (a +:+ ":")) eqn:Hi; [done|]. by rewrite IH.
Qed.

Lemma drop_bytes_full a x : drop_bytes (String.length a) (a +:+ x) = x.
Proof. induction a as [|c a IH]; [done|]. exact IH. Qed.

Lemma cut_sep a b x y : sep_free a -> sep_free b -> a +:+ "::" +:+ x = b +:+ "::" +:+ y -> a = b /\ x = y.
Proof.
  intros Ha Hb He. pose proof (index_of_sep a x Ha) as Hi. rewrite He, index_of_sep in Hi by done. injection Hi as Hl.
  assert (a = b) as <-.
  { rewrite <-(take_bytes_app a ("::" +:+ x)), <-Hl, He. by rewrite take_bytes_app. }
  apply (f_equal (drop_bytes (String.length a))) in He. rewrite !drop_bytes_full in He. by injection He.
Qed.

(** Joined fields are determined by the key when all but the last are free of it. *)
Lemma join_inj (xs ys : list string) (x y : string) :
  length xs = length ys -> Forall sep_free xs -> Forall sep_free ys ->
  string_concat "::" (xs ++ [x])%list = string_concat "::" (ys ++ [y])%list -> xs = ys /\ x = y.
Proof.
  intros Hl Hx. revert ys Hl. induction Hx as [|a xs Ha _ IH]; intros [|b ys] Hl Hy He; try discriminate Hl; [done|].
  apply Forall_cons in Hy as [Hb Hy]. injection Hl as Hl.
  assert (forall (z : string) zs w, string_concat "::" ((z :: zs) ++ [w])%list = z +:+ "::" +:+ string_concat "::" (zs ++ [w])%list) as Hcons
    by (intros z [|? ?] w; done).
  rewrite !Hcons in He. destruct (cut_sep _ _ _ _ Ha Hb He) as [-> He']. by destruct (IH ys Hl Hy He') as [-> ->].
Qed.
(** ** A key determines the request *)

Section keys.
Context (hmac_id : string -> string) (cfg : Config).
Notation inflight_key := (inflightKey hmac_id cfg).

(** The fields of a key after the client's identity, the lifetime apart. *)
Definition key_fields (q : Request) : list string :=
  [secretCacheId hmac_id (Some q.(subjectToken)); default_to "" q.(opts).(authorityRecordId); default_to "" q.(opts).(sessionId);
   default_to "" q.(opts).(delegationId); authContext hmac_id q.(opts); string_concat " " (resourceList q.(resource));
   normalizedScopes q.(opts).(scopes)].

Definition ttl_field (q : Request) : string := match q.(opts).(ttlSeconds) with Some n => pretty n | None => "" end.

Lemma inflight_fields q : inflight_key q = (identityKey cfg +:+ "::") +:+ string_concat "::" (key_fields q ++ [ttl_field q])%list.
Proof. unfold inflightKey, cacheSubject, cacheResource. cbn [string_concat]. rewrite !string_app_assoc. reflexivity. Qed.

(** Identifiers, digests, resources and scopes that the separators do not occur in. *)
Definition separable (q : Request) : Prop := Forall sep_free (key_fields q) /\ Forall (lacks " ") (resourceList q.(resource)).

(** The secrets of two requests have different digests unless they are the same. *)
Definition no_collision (q q' : Request) : Prop :=
  (secretCacheId hmac_id (Some q.(subjectToken)) = secretCacheId hmac_id (Some q'.(subjectToken)) -> q.(subjectToken) = q'.(subjectToken))
  /\ (authContext hmac_id q.(opts) = authContext hmac_id q'.(opts) -> filled q.(opts).(clientSecret) = filled q'.(opts).(clientSecret)).

Lemma filled_default o : filled (Some (default_to "" o)) = filled o.
Proof. by destruct o. Qed.

Lemma resource_nonempty rs r : r ∈ resourceList rs -> r <> "".
Proof.
  unfold resourceList, sorted_set, sort_strings. rewrite merge_sort_Permutation, elem_of_distinct, list_elem_of_filter. by intros [? _].
Qed.

Lemma joined_resources rs rs' :
  Forall (lacks " ") (resourceList rs) -> Forall (lacks " ") (resourceList rs') ->
  string_concat " " (resourceList rs) = string_concat " " (resourceList rs') -> resourceList rs = resourceList rs'.
Proof.
  assert (forall rs, resourceList rs <> [] -> string_concat " " (resourceList rs) <> "") as Hne.
  { intros r0 Hr. pose proof (resource_nonempty r0) as Hall. destruct (resourceList r0) as [|x l]; [done|].
    specialize (Hall x ltac:(by left)). by destruct l, x. }
  intros Hl Hl' He. destruct (decide (resourceList rs = [])) as [Hn|Hn], (decide (resourceList rs' = [])) as [Hn'|Hn'].
  - congruence.
  - apply Hne in Hn'. by rewrite Hn in He.
  - apply Hne in Hn. by rewrite Hn' in He.
  - rewrite <-(split_join " " _ Hn Hl), <-(split_join " " _ Hn' Hl'). by rewrite He.
Qed.

Lemma ttl_field_text q q' : ttl_field q = ttl_field q' -> ttl_text q.(opts).(ttlSeconds) = ttl_text q'.(opts).(ttlSeconds).
Proof.
  assert (forall n : Z, pretty n <> "") as Hp.
  { intros [|p|p]; [done|apply Numbers.pretty_all_digits; lia|done]. }
  unfold ttl_field. destruct q.(opts).(ttlSeconds) as [n|], q'.(opts).(ttlSeconds) as [m|]; try done; intros He.
  - apply (inj pretty) in He. by subst.
  - by apply Hp in He.
  - symmetry in He. by apply Hp in He.
Qed.

Lemma key_determines_body q q' :
  separable q -> separable q' -> no_collision q q' -> oneShot q = false -> oneShot q' = false ->
  inflight_key q = inflight_key q' -> exchange_body cfg q = exchange_body cfg q'.
Proof.
  intros [Hs Hr] [Hs' Hr'] [Ht Hsec] Ho Ho' Hk. rewrite !inflight_fields in Hk. apply string_app_inj in Hk.
  apply join_inj in Hk as [Hf Hl]; [|done..]. unfold key_fields in Hf. injection Hf as H1 H2 H3 H4 H5 H6 H7.
  apply ttl_field_text in Hl. apply (joined_resources _ _ Hr Hr') in H6. apply Ht in H1. apply Hsec in H5.
  assert (forall q0, oneShot q0 = false -> filled q0.(opts).(approvalId) = None) as Happ.
  { unfold oneShot. intros q0 Hq. bool_props. by destruct (filled q0.(opts).(approvalId)) eqn:He; [exfalso; eauto|]. }
  unfold exchange_body, param_if. rewrite H1, H6, H7, H5, Hl, !Happ by done.
  rewrite <-(filled_default q.(opts).(authorityRecordId)), <-(filled_default q.(opts).(sessionId)), <-(filled_default q.(opts).(delegationId)).
  by rewrite H2, H3, H4, !filled_default.
Qed.
End keys.
(** ** The in-memory cache *)

Section memory.
Context (digest : string -> string) (maxEntries : nat).

Definition memory_holds (m : memory) (k : string * string) (t : TokenExchangeResponse) : Prop :=
  exists e, (cacheKey digest k.1 k.2, e) ∈ m /\ e.(token) = t.

Definition memory_same_key (k k' : string * string) : Prop := cacheKey digest k.1 k.2 = cacheKey digest k'.1 k'.2.

Lemma map_delete_elem k x e m : (x, e) ∈ map_delete k m -> (x, e) ∈ m.
Proof. unfold map_delete. rewrite list_elem_of_filter. tauto. Qed.

Lemma memory_get_spec mono s r m m' o :
  memory_get digest mono s r m = (m', o) ->
  (forall t, o = Some t -> memory_holds m (s, r) t) /\ (forall x, x ∈ m' -> x ∈ m).
Proof.
  unfold memory_get, memory_holds. destruct (ordered_get _ m) as [e|] eqn:He; [|by intros [= <- <-]].
  apply ordered_get_elem in He. destruct (_ <=? _); intros [= <- <-]; (split; [intros t [=]|intros [x e'] Hx]).
  - by eapply map_delete_elem.
  - subst t. by exists e.
  - apply elem_of_app in Hx as [Hx|Hx]; [by eapply map_delete_elem|]. by apply list_elem_of_singleton in Hx as [= -> ->].
Qed.

Lemma memory_set_spec now mono s r t m x e :
  (x, e) ∈ memory_set digest maxEntries now mono s r t m -> (x = cacheKey digest s r /\ e.(token) = t) \/ (x, e) ∈ m.
Proof.
  unfold memory_set. cbv zeta. destruct (_ <=? 0); [intros Hx; right; by eapply map_delete_elem|]. intros Hx.
  assert ((x, e) ∈ (map_delete (cacheKey digest s r) m ++
    [(cacheKey digest s r, {| token := t; expiresAtMonoMs := mono + ((t.(issuedAt) + t.(expiresIn)) * 1000 - now) |})])%list) as Hx'.
  { eapply elem_of_submseteq; [exact Hx|]. apply sublist_submseteq, sublist_drop. }
  apply elem_of_app in Hx' as [Hx'|Hx']; [right; by eapply map_delete_elem|]. apply list_elem_of_singleton in Hx' as [= -> ->]. by left.
Qed.

(** The in-memory cache keeps the promises of a [TokenCache]. *)
#[local] Existing Instance InMemoryTokenCache.

#[export] Instance InMemoryTokenCache_laws : @TokenCacheLaws (InMemoryTokenCache digest maxEntries).
Proof.
  refine {| same_key := memory_same_key; holds := memory_holds : @cache (InMemoryTokenCache digest maxEntries) -> _ |}.
  - intros k t (e & He & _). by apply elem_of_nil in He.
  - intros mono s r c c' o Hg. destruct (memory_get_spec _ _ _ _ _ _ Hg) as [Ho Hc]. split; [done|].
    intros k t (e & He & Ht). exists e. auto.
  - intros now mono s r t c k t' (e & He & Ht). apply memory_set_spec in He as [[Hx He]|He]; [left|right; by exists e].
    by split; [|congruence].
  - intros c k t (e & He & _). by apply elem_of_nil in He.
Defined.

(** It never holds more than its bound, nor two entries under one key. *)
Definition memory_ok (m : memory) : Prop := (length m <= maxEntries)%nat /\ NoDup m.*1.

Lemma map_delete_keys k m : NoDup m.*1 -> NoDup (map_delete k m).*1 /\ k ∉ (map_delete k m).*1.
Proof.
  intros Hm. split; [by apply NoDup_fst_filter|]. intros Hk. apply list_elem_of_fmap in Hk as ([x e] & -> & Hx).
  unfold map_delete in Hx. apply list_elem_of_filter in Hx as [Hn _]. by apply Hn.
Qed.

Lemma map_delete_length k m e : NoDup m.*1 -> ordered_get k m = Some e -> S (length (map_delete k m)) = length m.
Proof.
  intros Hm He. apply ordered_get_elem in He. apply list_elem_of_split in He as (l1 & l2 & ->). rewrite fmap_app in Hm. cbn in Hm.
  apply NoDup_app in Hm as (_ & Hd & Hm). apply NoDup_cons in Hm as [Hk _].
  assert (forall l, k ∉ l.*1 -> map_delete k l = l) as Hid.
  { intros l. unfold map_delete. induction l as [|[x e'] l IH]; intros Hl; [done|]. cbn in Hl. apply not_elem_of_cons in Hl as [Hx Hl].
    rewrite filter_cons_True by (cbn; congruence). by rewrite IH. }
  unfold map_delete in *. rewrite filter_app, filter_cons_False by (by intros []). rewrite !Hid by (done || (intros Hk'; by apply (Hd k Hk'); left)).
  rewrite !length_app. cbn. lia.
Qed.

Lemma memory_get_ok mono s r m : memory_ok m -> memory_ok (memory_get digest mono s r m).1.
Proof.
  intros [Hl Hn]. unfold memory_get. destruct (ordered_get _ m) as [e|] eqn:He; [|done].
  pose proof (map_delete_length _ _ _ Hn He) as Hlen. destruct (map_delete_keys (cacheKey digest s r) m Hn) as [Hd Hk].
  destruct (_ <=? _); cbn; split; try done; [lia|rewrite length_app; cbn; lia|].
  rewrite fmap_app. apply NoDup_app. split_and!; [done| |apply NoDup_singleton]. intros x Hx Hx'. cbn in Hx'.
  apply list_elem_of_singleton in Hx'. by subst.
Qed.

Lemma memory_set_ok now mono s r t m : memory_ok m -> memory_ok (memory_set digest maxEntries now mono s r t m).
Proof.
  intros [Hl Hn]. destruct (map_delete_keys (cacheKey digest s r) m Hn) as [Hd Hk].
  assert (length (map_delete (cacheKey digest s r) m) <= length m)%nat by apply length_filter. unfold memory_set. cbv zeta.
  destruct (_ <=? 0); [split; [lia|done]|]. split; [rewrite length_drop; lia|].
  rewrite fmap_drop. eapply sublist_NoDup; [|apply sublist_drop]. rewrite fmap_app. apply NoDup_app.
  split_and!; [done| |apply NoDup_singleton]. intros x Hx Hx'. cbn in Hx'. apply list_elem_of_singleton in Hx'. by subst.
Qed.
End memory.
(** ** Where a token comes from *)

Lemma minted_lifetime now q res t : exchange_reply now q res = inr t -> 0 < t.(expiresIn).
Proof.
  unfold exchange_reply, validateSuccessResponse. intros Hr. repeat (case_match; try discriminate Hr); try congruence;
    injection Hr as <-; cbn; bool_props; lia.
Qed.

Section client.
Context `{TokenCacheLaws} (hmac_id : string -> string) (cfg : Config).
Notation inflight_key := (inflightKey hmac_id cfg).
Notation subject_key := (cacheSubject hmac_id cfg).
Notation client_step := (client_step hmac_id cfg).
Notation client_run := (client_run hmac_id cfg).

(** Two requests that may share a token. *)
Definition related (q0 q : Request) : Prop :=
  q0 = q \/ (oneShot q0 = false /\ oneShot q = false
             /\ (inflight_key q0 = inflight_key q \/ same_key (subject_key q0, cacheResource q0) (subject_key q, cacheResource q))).

Context (asked : Request -> Prop).

Definition justified (log : list Log) (q : Request) (t : TokenExchangeResponse) : Prop :=
  asked q /\ exists q0, Mint q0 t ∈ log /\ asked q0 /\ related q0 q.

(** What an entry of the log has behind it. *)
Definition log_ok (log : list Log) (l : Log) : Prop :=
  match l with
  | Mint _ t => 0 < t.(expiresIn)
  | Hit now _ q t => justified log q t /\ fresh_enough now q t = true
  | Answer _ q (inr t) => justified log q t
  | Answer _ _ (inl _) => True
  end.

Record state_ok (log : list Log) (s : State) : Prop := {
  so_tokens : forall k t, holds s.(tokens) k t ->
    exists q0, Mint q0 t ∈ log /\ asked q0 /\ oneShot q0 = false /\ same_key (subject_key q0, cacheResource q0) k;
  so_inflight : forall k q w, s.(inflight) !! k = Some (q, w) ->
    asked q /\ oneShot q = false /\ inflight_key q = k
    /\ forall c q', (c, q') ∈ w -> asked q' /\ oneShot q' = false /\ inflight_key q' = k;
  so_alone : forall c q, s.(alone) !! c = Some q -> asked q
}.

Lemma justified_more log log' q t : justified log q t -> justified (log ++ log')%list q t.
Proof. intros (Hq & q0 & Hm & ?). split; [done|]. exists q0. split; [by apply elem_of_app; left|done]. Qed.

Lemma log_ok_more log log' l : log_ok log l -> log_ok (log ++ log')%list l.
Proof. destruct l as [q t|now c q t|c q [e|t]]; cbn; try done; [intros [? ?]; split; [|done]|intros ?]; by apply justified_more. Qed.

Lemma state_ok_tokens log log' s c :
  state_ok log s ->
  (forall k t, holds c k t -> holds s.(tokens) k t \/ exists q0, Mint q0 t ∈ log' /\ asked q0 /\ oneShot q0 = false /\ same_key (subject_key q0, cacheResource q0) k) ->
  forall k t, holds c k t -> exists q0, Mint q0 t ∈ (log ++ log')%list /\ asked q0 /\ oneShot q0 = false /\ same_key (subject_key q0, cacheResource q0) k.
Proof.
  intros [Ht _ _] Hc k t Hk. destruct (Hc k t Hk) as [Hold|(q0 & Hm & Hrest)].
  - destruct (Ht k t Hold) as (q0 & Hm & Hrest). exists q0. split; [by apply elem_of_app; left|done].
  - exists q0. split; [by apply elem_of_app; right|done].
Qed.

Lemma call_ok log s now mono caller q s' c :
  state_ok log s -> asked q -> exchange hmac_id cfg now mono caller q s = (s', c) ->
  state_ok log s' /\ Forall (log_ok log) (match c with Served t => [Hit now caller q t] | _ => [] end).
Proof.
  intros Hs Hq. unfold exchange.
  assert (exists c' hit, (if negb (oneShot q) && negb q.(opts).(forceRefresh)
      then let '(c0, cached) := cache_get mono (subject_key q) (cacheResource q) s.(tokens) in
           (c0, match cached with Some t => if fresh_enough now q t then Some t else None | None => None end)
      else (s.(tokens), None)) = (c', hit)
    /\ (forall k t, holds c' k t -> holds s.(tokens) k t)
    /\ (forall t, hit = Some t -> oneShot q = false /\ holds s.(tokens) (subject_key q, cacheResource q) t /\ fresh_enough now q t = true))
    as (c' & hit & -> & Hc' & Hhit).
  { destruct (negb (oneShot q) && _) eqn:Ho; [|by exists s.(tokens), None]. bool_props.
    destruct (cache_get mono _ _ _) as [c0 cached] eqn:Hg. destruct (holds_get _ _ _ _ _ _ Hg) as [Hget Hkeep].
    eexists _, _. split; [done|]. split; [done|]. intros t Ht. destruct cached as [t'|]; [|done].
    destruct (fresh_enough now q t') eqn:Hf; [|done]. injection Ht as ->. auto. }
  assert (forall k t, holds c' k t -> exists q0, Mint q0 t ∈ log /\ asked q0 /\ oneShot q0 = false /\ same_key (subject_key q0, cacheResource q0) k) as Htok
    by (intros k t Hk; by apply (so_tokens _ _ Hs), Hc').
  destruct hit as [t|].
  - intros [= <- <-]. destruct (Hhit t eq_refl) as (Ho & Hh & Hf). split; [by split; [exact Htok|apply Hs..]|].
    apply Forall_singleton. split; [|done]. split; [done|]. destruct (so_tokens _ _ Hs _ _ Hh) as (q0 & ? & ? & ? & ?). exists q0. 
    split_and!; try done. right. auto.
  - destruct (oneShot q) eqn:Ho; [intros [= <- <-]; split; [|done]; split; [exact Htok|apply Hs|]|].
    { intros c0 q1. cbn. rewrite lookup_insert_Some. intros [[_ <-]|[_ ?]]; [done|by eapply so_alone]. }
    destruct (s.(inflight) !! inflight_key q) as [[starter waiting]|] eqn:Hi; intros [= <- <-]; (split; [|done]); split; try exact Htok;
      try apply Hs; cbn; intros k q1 w; rewrite lookup_insert_Some; (intros [[<- [= <- <-]]|[_ Hk]]; [|by apply (so_inflight _ _ Hs)]).
    + destruct (so_inflight _ _ Hs _ _ _ Hi) as (? & ? & ? & Hw). split_and!; try done. intros c0 q' [[= -> ->]|Hin]%elem_of_cons; [done|by eapply Hw].
    + split_and!; try done. intros c0 q' Hin. by apply list_elem_of_singleton in Hin as [= -> ->].
Qed.
Lemma mint_elem q outcome t : outcome = inr t -> Mint q t ∈ mint_log q outcome.
Proof. intros ->. by left. Qed.

Lemma mint_log_ok log now q res : Forall (log_ok log) (mint_log q (exchange_reply now q res)).
Proof.
  destruct (exchange_reply now q res) as [e|t] eqn:Hr; cbn; [done|]. apply Forall_singleton. cbn. by eapply minted_lifetime.
Qed.

Lemma state_ok_more log log' s : state_ok log s -> state_ok (log ++ log')%list s.
Proof.
  intros Hs. split; [|apply Hs..]. apply (state_ok_tokens _ _ s); [done|]. by left.
Qed.

Lemma reply_ok log s now mono k res s' answers :
  state_ok log s -> settle hmac_id cfg now mono k res s = (s', answers) ->
  let out := (match s.(inflight) !! k with Some (q, _) => mint_log q (exchange_reply now q res) | None => [] end
              ++ ((fun a => Answer a.1.1 a.1.2 a.2) <$> answers))%list in
  state_ok (log ++ out)%list s' /\ Forall (log_ok (log ++ out)%list) out.
Proof.
  intros Hs. unfold settle. destruct (s.(inflight) !! k) as [[q w]|] eqn:Hk; [|by intros [= <- <-]; rewrite app_nil_r].
  destruct (so_inflight _ _ Hs _ _ _ Hk) as (Hq & Ho & Hkey & Hw). intros [= <- <-]. cbv zeta. split; [split; cbn|].
  - apply (state_ok_tokens _ _ s); [done|]. intros k' t Ht. destruct (exchange_reply now q res) as [e|t0] eqn:Hr; [by left|].
    apply holds_set in Ht as [[Hsame ->]|Ht]; [right|by left]. exists q. split; [by left|done].
  - intros k' q' w'. rewrite lookup_delete_Some. intros [_ Hk']. by apply (so_inflight _ _ Hs).
  - apply Hs.
  - apply Forall_app. split; [apply mint_log_ok|]. rewrite <-list_fmap_compose. apply Forall_fmap, Forall_forall. intros [c q'] Hin. cbn.
    destruct (exchange_reply now q res) as [e|t] eqn:Hr; cbn; [done|]. destruct (Hw c q' Hin) as (Hq' & Ho' & Hkey').
    split; [done|]. exists q. split; [|split; [done|right; split_and!; [done..|left; congruence]]].
    apply elem_of_app. right. by left.
Qed.

Lemma reply_alone_ok log s now caller res s' answers :
  state_ok log s -> settle_alone now caller res s = (s', answers) ->
  let out := (match s.(alone) !! caller with Some q => mint_log q (exchange_reply now q res) | None => [] end
              ++ ((fun a => Answer a.1.1 a.1.2 a.2) <$> answers))%list in
  state_ok (log ++ out)%list s' /\ Forall (log_ok (log ++ out)%list) out.
Proof.
  intros Hs. unfold settle_alone. destruct (s.(alone) !! caller) as [q|] eqn:Hk; [|by intros [= <- <-]; rewrite app_nil_r].
  pose proof (so_alone _ _ Hs _ _ Hk) as Hq. intros [= <- <-]. cbv zeta. split; [split; cbn|].
  - apply (state_ok_tokens _ _ s); [done|]. by left.
  - apply Hs.
  - intros c q'. rewrite lookup_delete_Some. intros [_ Hc]. by apply (so_alone _ _ Hs c).
  - apply Forall_app. split; [apply mint_log_ok|]. apply Forall_singleton. cbn.
    destruct (exchange_reply now q res) as [e|t] eqn:Hr; cbn; [done|]. split; [done|]. exists q.
    split; [apply elem_of_app; right; by left|]. split; [done|by left].
Qed.

Definition call_asked (e : ClientEvent) : Prop := match e with Call _ _ _ q => asked q | _ => True end.

Lemma step_ok log s e s' out :
  state_ok log s -> call_asked e -> client_step e s = (s', out) ->
  state_ok (log ++ out)%list s' /\ Forall (log_ok (log ++ out)%list) out.
Proof.
  intros Hs He. destruct e as [now mono caller q|now mono k res|now caller res|]; cbn.
  - destruct (exchange hmac_id cfg now mono caller q s) as [s1 c] eqn:Hx. intros [= <- <-].
    destruct (call_ok _ _ _ _ _ _ _ _ Hs He Hx) as [H1 H2]. split; [by apply state_ok_more|].
    eapply Forall_impl; [exact H2|]. intros l. apply log_ok_more.
  - destruct (settle hmac_id cfg now mono k res s) as [s1 a] eqn:Hx. intros [= <- <-]. by eapply reply_ok.
  - destruct (settle_alone now caller res s) as [s1 a] eqn:Hx. intros [= <- <-]. by eapply reply_alone_ok.
  - intros [= <- <-]. rewrite app_nil_r. split; [|done]. split; cbn; [|apply Hs..]. intros k t Ht. by apply holds_clear in Ht.
Qed.

Lemma run_ok es : forall log s s' out,
  state_ok log s -> Forall (log_ok log) log -> Forall call_asked es -> client_run es s = (s', out) ->
  Forall (log_ok (log ++ out)%list) (log ++ out)%list.
Proof.
  induction es as [|e es IH]; intros log s s' out Hs Hlog Hes; cbn; [intros [= <- <-]; by rewrite app_nil_r|].
  apply Forall_cons in Hes as [He Hes]. destruct (client_step e s) as [s1 o1] eqn:Hstep.
  destruct (client_run es s1) as [s2 o2] eqn:Hrun. intros [= <- <-]. destruct (step_ok _ _ _ _ _ Hs He Hstep) as [Hs1 Ho1].
  rewrite app_assoc. eapply IH; [exact Hs1| |done|exact Hrun]. apply Forall_app. split; [|done].
  eapply Forall_impl; [exact Hlog|]. intros l. apply log_ok_more.
Qed.
End client.

(** The requests of a run. *)
Definition requests (es : list ClientEvent) : list Request := omap (fun e => match e with Call _ _ _ q => Some q | _ => None end) es.

(** The keys tell two requests apart: the separators of the keys ([::] between fields, a
    space between resources) do not occur in the fields of either, their secrets have
    different digests unless they are the same, and the cache keeps their keys apart. *)
Definition told_apart `{TokenCacheLaws} (hmac_id : string -> string) (cfg : Config) (q q' : Request) : Prop :=
  separable hmac_id q /\ separable hmac_id q' /\ no_collision hmac_id q q'
  /\ (same_key (cacheSubject hmac_id cfg q, cacheResource q) (cacheSubject hmac_id cfg q', cacheResource q') ->
      cacheSubject hmac_id cfg q = cacheSubject hmac_id cfg q' /\ cacheResource q = cacheResource q').

(** A token minted for [q0] may be given to a caller asking [q]: it is the caller's own
    request, or neither is a one-shot request and they share a key; and when the keys tell
    the two apart, the forms are the same. *)
Definition serves `{TokenCacheLaws} (hmac_id : string -> string) (cfg : Config) (q0 q : Request) : Prop :=
  related hmac_id cfg q0 q /\ (told_apart hmac_id cfg q0 q -> exchange_body cfg q0 = exchange_body cfg q).


(** A resource with a space shares its key with two resources: the forms differ, so a
    caller of one may be handed the token of the other. *)
Example spaced_resources_collide :
  let o := {| clientSecret := None; authorityRecordId := None; OAuth.sessionId := None; delegationId := None; scopes := []; timeoutMs := None;
              ttlSeconds := None; approvalId := None; forceRefresh := false; use_cache := true |} in
  let cfg := {| stsUrl := "u"; zoneId := "z"; applicationId := "a" |} in
  let q := {| subjectToken := "t"; resource := ["a b"]; opts := o |} in
  let q' := {| subjectToken := "t"; resource := ["b"; "a"]; opts := o |} in
  inflightKey (fun s => s) cfg q = inflightKey (fun s => s) cfg q' /\ exchange_body cfg q <> exchange_body cfg q'.
Proof. split; [vm_compute; reflexivity|]. vm_compute. intros [=]. Qed.

(** ** Waiting for an approval *)

(** [pending] is returned only once the deadline has passed. *)
Lemma poll_pending deadline rounds :
  pollApprovalState deadline rounds = Some (inr pending) -> exists now res, (now, res) ∈ rounds /\ deadline <= now.
Proof.
  induction rounds as [|[now res] rounds IH]; cbn; [done|]. destruct (Z.leb_spec (deadline - now) 0) as [Hle|_].
  - intros _. exists now, res. split; [by left|lia].
  - intros Hp. assert (pollApprovalState deadline rounds = Some (inr pending)) as Hrest.
    { destruct res as [res|]; [|done]. destruct (res_ok res); [|done]. cbn in Hp. destruct (JSON_parse res.(res_text)) as [data|]; [|done].
      destruct data; try done; destruct (json_get "state" _) as [| | | | | |state| |]; try done. case_bool_decide as Hs; [done|].
      destruct (approvalState state) as [a|] eqn:Ha; [|done]. injection Hp as ->. unfold approvalState in Ha.
      apply find_first_Some in Ha as [_ Ha]. apply bool_decide_eq_true_1 in Ha. by subst state. }
    destruct (IH Hrest) as (now' & res' & Hin & Hle). exists now', res'. split; [by right|done].
Qed.
End OAuthFacts.
