(* ===== verification/SdkClient.v ===== *)
(** * The SDK client

    [packages/sdk/ts/src/client.ts]: where the client sends requests and with which bearer
    ([GatewayTransport]), the authorities an application transport provisions and caches
    ([AppAuthorities]), and the queue their provisioning waits in ([Provisioning]).
    [new URL], the token exchange and the coordinator are parameters. *)

From Stdlib Require Import Ascii.
From Stdlib Require String.
From S2P Require Import Prelude.
From S2P Require Import Json.
From S2P Require Import JsonText.
From S2P Require Import Scope.
From S2P Require Import Text.
From S2P Require Import AdminClient.
From S2P Require Import OAuth.
From S2P Require Import Envelope.
Local Open Scope string_scope.
Local Open Scope Z_scope.

(** What [new URL(text)] reads; [None] when it throws. *)
Record Url := { protocol : string; host : string; hostname : string; origin : string; pathname : string; search : string; href : string }.

Class UrlParser := new_URL : string -> option Url.

Module GatewayTransport.
Import Envelope.

Definition slash : ascii := "/"%char.
Definition backslash : string := String.String (ascii_of_nat 92) "".

(** A path with a back slash or a dot segment. *)
Definition climbs (p : string) : bool :=
  includes backslash p || existsb (fun s => bool_decide (s = "." \/ s = "..")) (split_on slash p).

Fixpoint traversal (rounds : nat) (decoded : string) : bool :=
  match rounds with
  | O => true
  | S rounds =>
      if climbs decoded then true
      else match Uri.decodeURIComponent decoded with
           | None => true
           | Some next => if bool_decide (next = decoded) then false else traversal rounds next
           end
  end.

Definition pathContainsTraversal (pathname : string) : bool := traversal 8 pathname.

(** [s.replace(/\/+$/, '')]. *)
Fixpoint strip_slashes (s : string) : string :=
  match s with
  | String.EmptyString => ""
  | String.String c s' =>
      let r := strip_slashes s' in
      if bool_decide (c = slash) && bool_decide (r = "") then "" else String.String c r
  end.

Definition starts_slash (s : string) : bool := has_prefix "/" s.

Record ResourceBinding := { resourceId : string; upstreamPrefix : string }.

Definition longer (a b : ResourceBinding) : Prop := (js_length b.(upstreamPrefix) <= js_length a.(upstreamPrefix))%nat.

#[export] Instance longer_dec a b : Decision (longer a b).
Proof. unfold longer. apply _. Defined.

(** [sortBindingsLongestFirst], which the constructor applies to two bindings or more. *)
Definition sortBindingsLongestFirst (bs : list ResourceBinding) : list ResourceBinding := merge_sort longer bs.

Section routing.
Context `{UrlParser}.

Definition targetsGatewayPath (target : Url) (gatewayUrl : string) : bool :=
  match new_URL gatewayUrl with
  | None => false
  | Some gateway =>
      if negb (bool_decide (target.(protocol) = gateway.(protocol))) || negb (bool_decide (target.(host) = gateway.(host))) then false
      else if pathContainsTraversal target.(pathname) then false
      else
        let stripped := strip_slashes gateway.(pathname) in
        let base := if bool_decide (stripped = "") then "/" else stripped in
        bool_decide (base = "/") || bool_decide (target.(pathname) = base) || has_prefix (base +:+ "/") target.(pathname)
  end.

Definition urlMatchesPrefix (target : Url) (prefix : string) : bool :=
  match new_URL prefix with
  | None => false
  | Some p =>
      if negb (bool_decide (p.(protocol) = target.(protocol))) then false
      else if negb (bool_decide (p.(host) = target.(host))) then false
      else if bool_decide (p.(pathname) = "/" \/ p.(pathname) = "") then true
      else bool_decide (target.(pathname) = p.(pathname))
           || has_prefix (if has_suffix "/" p.(pathname) then p.(pathname) else p.(pathname) +:+ "/") target.(pathname)
  end.

(** An exception, or a value. *)
Inductive outcome (A : Type) := Throws (e : string) | Value (a : A).
Arguments Throws {A} e.
Arguments Value {A} a.

(** [gateway.origin + gateway.pathname.replace(/\/+$/, '')]. *)
Definition gateway_base (g : Url) : string := g.(origin) +:+ strip_slashes g.(pathname).

(** [routeThroughGateway]: the URL and the resource, when the request is routed. *)
Definition routeThroughGateway (gatewayUrl : option string) (resources : list ResourceBinding) (raw : string) (explicit : option string) :
    outcome (option (string * string)) :=
  match or_undefined gatewayUrl with
  | None => Value None
  | Some gw =>
      match new_URL raw with
      | None => Value None
      | Some parsed =>
          if pathContainsTraversal parsed.(pathname) then Value None
          else if targetsGatewayPath parsed gw then Value (Some (parsed.(href), default_to "" explicit))
          else
            let binding := match or_undefined explicit with
                           | Some r => find_first (fun b => bool_decide (b.(resourceId) = r)) resources
                           | None => find_first (fun b => urlMatchesPrefix parsed b.(upstreamPrefix)) resources
                           end in
            match binding, or_undefined explicit with
            | None, None => Value None
            | _, _ =>
                match new_URL gw with
                | None => Throws "Invalid URL"
                | Some gateway =>
                    let whole := parsed.(pathname) +:+ parsed.(search) in
                    let suffix := match binding with
                      | None => Value whole
                      | Some b =>
                          match new_URL b.(upstreamPrefix) with
                          | None => Throws "Invalid URL"
                          | Some prefix =>
                              if has_prefix prefix.(pathname) parsed.(pathname) && negb (bool_decide (prefix.(pathname) = "/"))
                              then let cut := drop_bytes (String.length prefix.(pathname)) parsed.(pathname) +:+ parsed.(search) in
                                   Value (if starts_slash cut then cut else "/" +:+ cut)
                              else Value whole
                          end
                      end in
                    match suffix with
                    | Throws e => Throws e
                    | Value s => Value (Some (gateway_base gateway +:+ s, match binding with Some b => b.(resourceId) | None => default_to "" explicit end))
                    end
                end
            end
      end
  end.

(** [targetsGateway]. *)
Definition targetsGateway (gatewayUrl : option string) (raw : string) : bool :=
  match or_undefined gatewayUrl, new_URL raw with
  | Some gw, Some u => targetsGatewayPath u gw
  | _, _ => false
  end.

(** A path with a scheme. *)
Fixpoint scheme_tail (s : string) : bool :=
  match s with
  | String.EmptyString => false
  | String.String c s' => bool_decide (c = ":"%char) || ((is_alnum c || one_of "+.-" c) && scheme_tail s')
  end.

Definition has_scheme (s : string) : bool :=
  match s with String.EmptyString => false | String.String c s' => (is_upper c || is_lower c) && scheme_tail s' end.

(** [joinGatewayPath]. *)
Definition joinGatewayPath (gatewayUrl path : string) : outcome string :=
  if has_scheme path then Throws "Caracal.gatewayRequest(): path must be relative to the configured gateway"
  else match new_URL gatewayUrl with
  | None => Throws "Invalid URL"
  | Some gateway =>
      let normalized := if starts_slash path then path else "/" +:+ path in
      let '(p, query) := match index_of "?" normalized with
                         | None => (normalized, "")
                         | Some i => (take_bytes i normalized, drop_bytes (i + 1) normalized)
                         end in
      if pathContainsTraversal p then Throws "Caracal.gatewayRequest(): path must not contain dot segments"
      else Value (gateway_base gateway +:+ (if bool_decide (p = "") then "/" else p) +:+ (if bool_decide (query = "") then "" else "?" +:+ query))
  end.

(** [gatewayRequest]: the URL and its resource header. *)
Definition gatewayRequest (closed : bool) (gatewayUrl : option string) (resource path : string) : outcome (string * string) :=
  if closed then Throws "Caracal client is closed"
  else match or_undefined gatewayUrl with
  | None => Throws "Caracal.gatewayRequest(): gatewayUrl is not configured"
  | Some gw =>
      if bool_decide (trim resource = "") then Throws "Caracal.gatewayRequest(): resourceId is required"
      else match joinGatewayPath gw path with Throws e => Throws e | Value u => Value (u, resource) end
  end.

End routing.

Arguments Throws {A} e.
Arguments Value {A} a.

(** ** Requests *)

(** The context of the current run, and whether its token is the process's own. *)
Record Bound := { ctx : CaracalContext; ownToken : bool }.

(** [exchanger.mintMandate] for a resource, scopes, Session, delegation and approval. *)
Definition Mint : Type := string -> list string -> option string -> option string -> option string -> outcome string.

Record Config := {
  gatewayUrl : option string;
  resources : list ResourceBinding;
  exchanger : option Mint;
  tokenSource : option (outcome string);
  cfg_subjectToken : option string
}.

Record TransportOptions := { asApplication : bool; scopes : list string; approvalId : option string; gateway_only : bool }.

(** A request as [fetch] gets it; [manual] is [redirect: 'manual']. *)
Record Outgoing := { url : string; headers : list (string * string); manual : bool }.

Section transport.
Context `{UrlParser}.

(** The [use] claim of a token, when it is a string. *)
Context (token_use : string -> option string).

Definition requireGatewayUse (token : outcome string) : outcome string :=
  match token with
  | Throws e => Throws e
  | Value t =>
      match token_use t with
      | Some u =>
          if bool_decide (u = "" \/ u = "gateway") then Value t
          else Throws ("Caracal.transport(): Gateway calls require a scoped use=gateway mandate; received use=" +:+ u +:+
                       "; pass scopes with a delegated session, or use applicationTransport() for application-owned work")
      | None => Value t
      end
  end.

Definition rootToken (cfg : Config) : outcome string :=
  match cfg.(tokenSource), or_undefined cfg.(cfg_subjectToken) with
  | Some t, _ => t
  | None, Some t => Value t
  | None, None => Throws "Caracal client has no subject token source"
  end.

(** [gatewayToken]; the hint it adds to a denied mint changes the message only. *)
Definition gatewayToken (cfg : Config) (bound : option Bound) (resource : option string) (opts : TransportOptions) : outcome string :=
  match opts.(scopes), or_undefined resource with
  | _ :: _, Some r =>
      match cfg.(exchanger) with
      | None => Throws "Caracal.transport(): scopes require a client-secret configuration"
      | Some mint => mint r opts.(scopes) (bound ≫= fun b => b.(ctx).(ctx_sessionId)) (bound ≫= fun b => b.(ctx).(ctx_delegationId)) opts.(approvalId)
      end
  | _, _ =>
      match bound with
      | None => requireGatewayUse (rootToken cfg)
      | Some b =>
          match b.(ownToken), cfg.(tokenSource) with
          | true, Some t => requireGatewayUse t
          | _, _ => requireGatewayUse (Value b.(ctx).(ctx_subjectToken))
          end
      end
  end.

(** [Headers.set] for each of [more], names in lower case. *)
Definition set_all (more headers : list (string * string)) : list (string * string) := foldl (fun h nv => ordered_set nv.1 nv.2 h) headers more.

Definition RESOURCE_HEADER : string := "x-caracal-resource".

Definition no_envelope : Envelope :=
  {| subjectToken := None; sessionId := None; delegationId := None; parentDelegationId := None; subjectAuthorityRecordId := None; traceId := None;
     traceFlags := None; traceState := None; baggage := None; hop := 0 |}.

Definition with_envelope (genTraceId genSpanId : string) (env : Envelope) (headers : list (string * string)) : list (string * string) :=
  set_all (encodeEnvelope genTraceId genSpanId env (Some (fun k => ordered_get k headers))) headers.

(** The request [transport] makes of [raw] and the caller's headers. *)
Definition transport (cfg : Config) (bound : option Bound) (opts : TransportOptions) (genTraceId genSpanId : string) (consumed : bool) (raw : string)
    (given : list (string * string)) : outcome Outgoing :=
  match bound, opts.(asApplication) with
  | None, false => Throws "Caracal.transport(): no Caracal session context is bound. Pass { asApplication: true } to call as the application's own identity."
  | _, _ =>
      if consumed then Throws "Caracal.transport(): cannot send a Request whose body was already consumed"
      else
        let explicit := ordered_get RESOURCE_HEADER given in
        match routeThroughGateway cfg.(gatewayUrl) cfg.(resources) raw explicit with
        | Throws e => Throws e
        | Value rewritten =>
            let gatewayBound := match rewritten with Some _ => true | None => targetsGateway cfg.(gatewayUrl) raw end in
            let merged := if negb opts.(gateway_only) || gatewayBound
                          then with_envelope genTraceId genSpanId (match bound with Some b => toEnvelope b.(ctx) | None => no_envelope end) given
                          else given in
            match rewritten with
            | Some (target, resource) =>
                match gatewayToken cfg bound (Some resource) opts with
                | Throws e => Throws e
                | Value t => Value {| url := target; headers := set_all [(RESOURCE_HEADER, resource); (HeaderAuthorization, "Bearer " +:+ t)] merged; manual := true |}
                end
            | None =>
                if gatewayBound then
                  match gatewayToken cfg bound explicit opts with
                  | Throws e => Throws e
                  | Value t => Value {| url := raw; headers := set_all [(HeaderAuthorization, "Bearer " +:+ t)] merged; manual := true |}
                  end
                else Value {| url := raw; headers := merged; manual := false |}
            end
        end
  end.

(** [fetch(resourceId, path, init)]. *)
Definition fetch (closed : bool) (cfg : Config) (bound : option Bound) (opts : TransportOptions) (genTraceId genSpanId resource path : string)
    (given : list (string * string)) : outcome Outgoing :=
  match gatewayRequest closed cfg.(gatewayUrl) resource path with
  | Throws e => Throws e
  | Value (u, r) => transport cfg bound opts genTraceId genSpanId false u (set_all [(RESOURCE_HEADER, r)] given)
  end.

(** The request an application transport sends under an authority with a fresh mandate. *)
Definition application_request (cfg : Config) (genTraceId genSpanId resource raw targetSession delegation : string) (minted : outcome string)
    (given : list (string * string)) : outcome Outgoing :=
  match minted with
  | Throws e => Throws e
  | Value t =>
      let merged := set_all [(HeaderAuthorization, "Bearer " +:+ t); (RESOURCE_HEADER, resource)] given in
      let env := {| subjectToken := None; sessionId := Some targetSession; delegationId := Some delegation; parentDelegationId := None;
                    subjectAuthorityRecordId := None; traceId := None; traceFlags := None; traceState := None; baggage := None; hop := 0 |} in
      match routeThroughGateway cfg.(gatewayUrl) cfg.(resources) raw (Some resource) with
      | Throws e => Throws e
      | Value None => Throws "Caracal.applicationTransport(): request could not be pinned to the configured Gateway"
      | Value (Some (target, _)) => Value {| url := target; headers := with_envelope genTraceId genSpanId env merged; manual := true |}
      end
  end.

End transport.

(** ** Facts *)

Fixpoint decode_times (n : nat) (p : string) : option string :=
  match n with
  | O => Some p
  | S n => match Uri.decodeURIComponent p with Some q => decode_times n q | None => None end
  end.

Lemma decode_fixed n p : Uri.decodeURIComponent p = Some p -> decode_times n p = Some p.
Proof. intros Hp. induction n as [|n IH]; [done|]. cbn [decode_times]. by rewrite Hp. Qed.

(** A path that passes hides no dot segment and no back slash, however often it is
    decoded. *)
Lemma traversal_excluded p n q : pathContainsTraversal p = false -> decode_times n p = Some q -> climbs q = false.
Proof.
  unfold pathContainsTraversal. generalize 8%nat. intros rounds. revert p n. induction rounds as [|rounds IH]; intros p n Ht Hd; [done|].
  cbn [traversal] in Ht. destruct (climbs p) eqn:Hc; [done|]. destruct n as [|n]; [by cbn in Hd; simplify_eq|]. cbn [decode_times] in Hd.
  destruct (Uri.decodeURIComponent p) as [next|] eqn:Hn; [|done]. case_bool_decide as He.
  - subst next. rewrite decode_fixed in Hd by done. by simplify_eq.
  - by eapply IH.
Qed.

(** A path that passes can be decoded any number of times. *)
Lemma traversal_decodes p n : pathContainsTraversal p = false -> is_Some (decode_times n p).
Proof.
  unfold pathContainsTraversal. generalize 8%nat. intros rounds. revert p n. induction rounds as [|rounds IH]; intros p n Ht; [done|].
  cbn [traversal] in Ht. destruct (climbs p); [done|]. destruct n as [|n]; [by eexists|]. cbn [decode_times].
  destruct (Uri.decodeURIComponent p) as [next|] eqn:Hn; [|done]. case_bool_decide as He; [|by apply IH].
  subst next. rewrite decode_fixed by done. by eexists.
Qed.

(** *** Paths and their segments *)

(** No dot segment and no back slash, however often the path is decoded. *)
Definition clean (p : string) : Prop := forall n q, decode_times n p = Some q -> climbs q = false.

(** A slash is no part of an escape: the sides of it are decoded each on its own. *)
Lemma decode_go_slash x : forall a seen need,
  Uri.decode_go seen need (a +:+ String.String slash x) =
  match Uri.decode_go seen need a, Uri.decodeURIComponent x with Some y, Some z => Some (y +:+ String.String slash z) | _, _ => None end.
Proof.
  intros a. induction a as [a IH] using (induction_ltof1 _ String.length). unfold ltof in IH. intros seen need. destruct a as [|c rest].
  - change ("" +:+ ?t) with t. cbn [Uri.decode_go]. rewrite bool_decide_false by done. destruct need; [|done]. unfold Uri.decodeURIComponent.
    by destruct (Uri.decode_go "" 0 x).
  - change (String.String c rest +:+ ?t) with (String.String c (rest +:+ t)). cbn [Uri.decode_go]. case_bool_decide as Hc.
    + destruct rest as [|a1 [|b1 rest']].
      * change ("" +:+ ?t) with t. destruct x as [|b x]; [done|]. by destruct b as [[] [] [] [] [] [] [] []].
      * change (String.String a1 "" +:+ ?t) with (String.String a1 t). by destruct a1 as [[] [] [] [] [] [] [] []].
      * change (String.String a1 (String.String b1 rest') +:+ ?t) with (String.String a1 (String.String b1 (rest' +:+ t))).
        assert (Hr : (String.length rest' < String.length (String.String c (String.String a1 (String.String b1 rest'))))%nat) by (cbn; lia).
        cbn beta iota. destruct (Uri.escaped_byte a1 b1) as [d|]; [|done]. destruct need as [|n].
        { destruct (Uri.code d <? 128); [rewrite IH by done; by destruct (Uri.decode_go _ _ rest'), (Uri.decodeURIComponent x)|].
          destruct (Uri.following d); [by rewrite IH|done]. }
        { destruct (Uri.next_ok seen d); [|done]. destruct n; rewrite IH by done; [|done].
          destruct (Uri.decode_go _ _ rest'), (Uri.decodeURIComponent x); try done. cbn. f_equal.
          by rewrite string_app_assoc. }
    + destruct need; [|done]. rewrite IH by (cbn; lia). by destruct (Uri.decode_go _ _ rest), (Uri.decodeURIComponent x).
Qed.

Lemma decode_first_slash x : Uri.decodeURIComponent (String.String slash x) = String.String slash <$> Uri.decodeURIComponent x.
Proof. reflexivity. Qed.

Lemma decode_times_slash n : forall a x q, decode_times n (a +:+ String.String slash x) = Some q ->
  exists y z, q = y +:+ String.String slash z /\ decode_times n (String.String slash x) = Some (String.String slash z).
Proof.
  induction n as [|n IH]; intros a x q; [intros [= <-]; by exists a, x|].
  cbn [decode_times]. rewrite decode_first_slash. assert (Ha : Uri.decodeURIComponent (a +:+ String.String slash x) = _) by (apply decode_go_slash).
  rewrite Ha. destruct (Uri.decode_go "" 0 a) as [y|]; [|done]. destruct (Uri.decodeURIComponent x) as [z|]; [|done]. apply IH.
Qed.

Lemma split_at_segments a x : forall cur, exists before, split_at slash cur (a +:+ String.String slash x) = (before ++ split_at slash "" x)%list.
Proof.
  induction a as [|c a IH]; intros cur.
  - change ("" +:+ ?t) with t. cbn [split_at]. rewrite bool_decide_true by done. by exists [cur].
  - change (String.String c a +:+ ?t) with (String.String c (a +:+ t)). cbn [split_at]. case_bool_decide; [|apply IH].
    destruct (IH "") as [before ->]. by exists (cur :: before).
Qed.

Lemma includes_suffix c a x : includes (String.String c "") x = true -> includes (String.String c "") (a +:+ x) = true.
Proof.
  unfold includes. rewrite !bool_decide_eq_true. intros Hx. induction a as [|d a IH]; [done|].
  change (String.String d a +:+ x) with (String.String d (a +:+ x)). cbn [index_of]. destruct (has_prefix _ _); [by eexists|].
  destruct IH as [i ->]. by eexists.
Qed.

(** What follows a slash of a path without dot segments has none. *)
Lemma climbs_tail a x : climbs (a +:+ String.String slash x) = false -> climbs (String.String slash x) = false.
Proof.
  unfold climbs. rewrite !orb_false_iff. intros [Hb Hs]. split.
  - destruct (includes backslash (String.String slash x)) eqn:He; [|done]. apply (includes_suffix _ a) in He. unfold backslash in Hb. congruence.
  - unfold split_on in *. destruct (split_at_segments a x "") as [before He]. rewrite He, existsb_app, orb_false_iff in Hs.
    cbn [split_at]. rewrite bool_decide_true by done. cbn [existsb]. by destruct Hs as [_ ->].
Qed.

Lemma clean_tail a x : pathContainsTraversal (a +:+ String.String slash x) = false -> clean (String.String slash x).
Proof.
  intros Ht n q Hq. destruct (traversal_decodes _ n Ht) as [w Hw]. pose proof (traversal_excluded _ _ _ Ht Hw) as Hc.
  destruct (decode_times_slash _ _ _ _ Hw) as (y & z & -> & Hz). rewrite Hq in Hz. injection Hz as ->. by eapply climbs_tail.
Qed.

Lemma clean_root : clean "/".
Proof. intros n q. rewrite decode_fixed by reflexivity. by intros [= <-]. Qed.

Lemma slash_app a b : starts_slash a = true -> starts_slash (a +:+ b) = true.
Proof. destruct a as [|c a]; [done|]. cbn. done. Qed.

Lemma or_undefined_Some o s : or_undefined o = Some s -> o = Some s /\ s <> "".
Proof. unfold or_undefined. destruct o; [|done]. case_bool_decide; naive_solver. Qed.

Lemma set_all_other k more hs : k ∉ more.*1 -> ordered_get k (set_all more hs) = ordered_get k hs.
Proof.
  revert hs. unfold set_all. induction more as [|[n v] more IH]; intros hs Hk; [done|]. cbn in *. rewrite IH by set_solver.
  rewrite ordered_get_set, bool_decide_false; [done|]. set_solver.
Qed.

(** An envelope carries no bearer. *)
Lemma envelope_no_bearer genTraceId genSpanId env hs :
  ordered_get HeaderAuthorization (with_envelope genTraceId genSpanId env hs) = ordered_get HeaderAuthorization hs.
Proof.
  apply set_all_other. unfold encodeEnvelope. rewrite !fmap_app, !elem_of_app. intros [Hin|[Hin|Hin]]; repeat case_match; cbn in Hin;
    by rewrite ?list_elem_of_singleton, ?elem_of_nil in Hin.
Qed.

Section facts.
Context `{UrlParser}.

(** A URL whose path begins with a slash, as that of every URL with an authority does; its
    [search] is empty or begins with a question mark, as that of every URL. *)
Definition usual (u : Url) : Prop := starts_slash u.(pathname) = true /\ (u.(search) = "" \/ has_prefix "?" u.(search) = true).

(** Where a configured prefix is cut off a path, it ends with a segment. *)
Definition cut_at_segments (resources : list ResourceBinding) (u : Url) : Prop :=
  forall b prefix, b ∈ resources -> new_URL b.(upstreamPrefix) = Some prefix -> has_prefix prefix.(pathname) u.(pathname) = true ->
    u.(pathname) = prefix.(pathname) \/ has_suffix "/" prefix.(pathname) = true \/ has_prefix (prefix.(pathname) +:+ "/") u.(pathname) = true.

(** [out] lies on the gateway [gw]: it is the requested URL, which is one of the gateway's,
    or it is the gateway's origin and path followed by a path of its own and the requested
    query. *)
Definition on_gateway (gw raw out : string) : Prop :=
  exists u, new_URL raw = Some u
    /\ ((targetsGatewayPath u gw = true /\ clean u.(pathname) /\ out = u.(href))
        \/ exists g path, new_URL gw = Some g /\ out = gateway_base g +:+ path +:+ u.(search) /\ starts_slash path = true /\ clean path).

Lemma has_prefix_cut p w : has_prefix p w = true -> w = p +:+ drop_bytes (String.length p) w.
Proof.
  revert w. induction p as [|c p IH]; intros [|d w] Hp; try done. cbn in Hp. bool_props. subst d. exact (f_equal (String.String c) (IH w ltac:(done))).
Qed.

Lemma ends_slash p : has_suffix "/" p = true -> exists p', p = p' +:+ "/".
Proof.
  unfold has_suffix. intros Hp. bool_props. exists (take_bytes (String.length p - 1) p).
  enough (take_bytes (String.length p - 1) p +:+ drop_bytes (String.length p - 1) p = p) as Hcat by (etrans; [symmetry; exact Hcat|by f_equal]).
  generalize (String.length p - 1)%nat. clear. induction p as [|c p IH]; intros [|n]; try done. exact (f_equal (String.String c) (IH n)).
Qed.

Lemma follows_slash p rest : has_prefix (p +:+ "/") (p +:+ rest) = true -> starts_slash rest = true.
Proof. induction p as [|c p IH]; [done|]. intros Hp. apply IH. change (bool_decide (c = c) && has_prefix (p +:+ "/") (p +:+ rest) = true) in Hp. by bool_props. Qed.

(** The path that is left of one when a prefix is cut off at a segment. *)
Lemma cut_clean prefix rest query :
  pathContainsTraversal (prefix +:+ rest) = false -> query = "" \/ has_prefix "?" query = true ->
  prefix +:+ rest = prefix \/ has_suffix "/" prefix = true \/ has_prefix (prefix +:+ "/") (prefix +:+ rest) = true ->
  exists path, (if starts_slash (rest +:+ query) then rest +:+ query else "/" +:+ rest +:+ query) = path +:+ query /\ starts_slash path = true /\ clean path.
Proof.
  intros Ht Hq Hcut. destruct (starts_slash rest) eqn:Hr.
  - rewrite slash_app by done. exists rest. destruct rest as [|c x]; [done|]. split_and!; [done|done|].
    assert (c = slash) as -> by (unfold starts_slash in Hr; cbn [has_prefix] in Hr; rewrite andb_true_r in Hr; by apply bool_decide_eq_true in Hr). by eapply clean_tail.
  - assert (starts_slash (rest +:+ query) = false) as ->.
    { destruct rest as [|c x]; [|done]. destruct Hq as [-> |Hq]; [done|]. destruct query as [|c query]; [done|]. cbn in Hq. bool_props. by subst c. }
    exists ("/" +:+ rest). split_and!; [by rewrite string_app_assoc|done|].
    destruct Hcut as [Hsame|[Hs|Hp]]; [|destruct (ends_slash _ Hs) as [p' ->]|by apply follows_slash in Hp; congruence].
    + assert (rest = "") as ->; [|apply clean_root]. apply (f_equal (drop_bytes (String.length prefix))) in Hsame. rewrite OAuthFacts.drop_bytes_full in Hsame.
      rewrite Hsame. rewrite <-(string_app_nil_r prefix) at 2. apply OAuthFacts.drop_bytes_full.
    + rewrite string_app_assoc in Ht. by apply (clean_tail p').
Qed.

Lemma route_stays gatewayUrl resources raw explicit out r :
  (forall u, new_URL raw = Some u -> usual u /\ cut_at_segments resources u) ->
  routeThroughGateway gatewayUrl resources raw explicit = Value (Some (out, r)) ->
  exists gw, or_undefined gatewayUrl = Some gw /\ on_gateway gw raw out.
Proof.
  intros Hasked. unfold routeThroughGateway. destruct (or_undefined gatewayUrl) as [gw|]; [|done]. destruct (new_URL raw) as [u|] eqn:Hu; [|done].
  destruct (Hasked u eq_refl) as [[Hslash Hquery] Hcut]. destruct (pathContainsTraversal (pathname u)) eqn:Ht; [done|].
  assert (Hclean : clean u.(pathname)) by (intros n q; by apply traversal_excluded).
  destruct (targetsGatewayPath u gw) eqn:Hg.
  { intros E. injection E as <- <-. exists gw. split; [done|]. exists u. auto. }
  cbn zeta. set (binding := match or_undefined explicit with Some _ => _ | None => _ end).
  assert (Hbound : forall b, binding = Some b -> b ∈ resources) by (intros b; subst binding; case_match; intros Hb; by apply find_first_Some in Hb as [? _]).
  assert (Hmade : forall g suffix path, new_URL gw = Some g -> suffix = path +:+ u.(search) -> starts_slash path = true -> clean path ->
            exists gw0, Some gw = Some gw0 /\ on_gateway gw0 raw (gateway_base g +:+ suffix)).
  { intros g suffix path Hgw -> Hs Hc. exists gw. split; [done|]. exists u. split; [done|]. right. by exists g, path. }
  destruct binding as [b|] eqn:Hb, (or_undefined explicit) as [x|]; try done; (destruct (new_URL gw) as [g|] eqn:Hgw; [|done]); cbn beta iota.
  1, 2: destruct (new_URL (upstreamPrefix b)) as [prefix|] eqn:Hp; [|done];
    destruct (has_prefix (pathname prefix) (pathname u) && negb (bool_decide (pathname prefix = "/"))) eqn:Hpre;
    intros E; injection E as <- <-; [|by eapply Hmade].
  1, 2: apply andb_true_iff in Hpre as [Hpre _]; pose proof (Hcut b prefix (Hbound b eq_refl) Hp Hpre) as Hends;
    apply has_prefix_cut in Hpre as Hwhole; rewrite Hwhole in Ht, Hends;
    destruct (cut_clean _ _ u.(search) Ht Hquery Hends) as (path & Hpath & Hs & Hc); by eapply Hmade.
  intros E. injection E as <- <-. by eapply Hmade.
Qed.

(** What is not routed is not the gateway's. *)
Lemma route_none gatewayUrl resources raw explicit :
  routeThroughGateway gatewayUrl resources raw explicit = Value None -> targetsGateway gatewayUrl raw = false.
Proof.
  unfold routeThroughGateway, targetsGateway. destruct (or_undefined gatewayUrl) as [gw|]; [|done]. destruct (new_URL raw) as [u|]; [|done].
  destruct (targetsGatewayPath u gw) eqn:Hg; [|done]. destruct (pathContainsTraversal (pathname u)) eqn:Ht; [|done].
  unfold targetsGatewayPath in Hg. destruct (new_URL gw); [|done]. case_match; [done|]. by rewrite Ht in Hg.
Qed.

(** C10. The client puts a bearer of its own only on requests to the gateway.  For every
    requested URL whose path begins with a slash and in whose path a configured upstream
    prefix, where there is one to cut off, ends with a segment: of the request the client
    sends, through [transport], which [fetch] uses, or an application transport, either the
    authorization header is the caller's, or a gateway is configured, redirects are left to
    the caller, and the URL is one of the gateway's or the gateway's origin and path
    followed by a path that begins with a slash and hides no dot segment and no back slash
    however often it is decoded, and the query asked for.  Neither condition can be left
    out: [opaque_path_leaves_gateway] and [split_segment_leaves_tenant] leave the gateway's
    host, and its path. *)
Theorem bearer_stays_on_gateway token_use cfg bound opts genTraceId genSpanId consumed raw given out :
  (forall u, new_URL raw = Some u -> usual u /\ cut_at_segments cfg.(resources) u) ->
  transport token_use cfg bound opts genTraceId genSpanId consumed raw given = Value out
  \/ (exists resource session delegation minted, application_request cfg genTraceId genSpanId resource raw session delegation minted given = Value out) ->
  ordered_get HeaderAuthorization out.(headers) = ordered_get HeaderAuthorization given
  \/ (out.(manual) = true /\ exists gw, or_undefined cfg.(gatewayUrl) = Some gw /\ on_gateway gw raw out.(url)).
Proof.
  intros Hasked [Ht|(resource & session & delegation & minted & Ha)].
  - unfold transport in Ht. destruct bound as [b|], (asApplication opts); try done; (destruct consumed; [done|]);
      destruct (routeThroughGateway _ _ _ _) as [e|[[target r]|]] eqn:Hr; try done; cbn zeta in Ht.
    all: try (destruct (gatewayToken _ _ _ _ _) as [e|t]; [done|]; injection Ht as <-; right; split; [done|]; by eapply route_stays).
    all: assert (Hnot : targetsGateway (gatewayUrl cfg) raw = false) by (by eapply route_none).
    all: rewrite Hnot in Ht; injection Ht as <-; left; cbn [headers]; case_match; [apply envelope_no_bearer|done].
  - unfold application_request in Ha. destruct minted as [e|t]; [done|]. destruct (routeThroughGateway _ _ _ _) as [e|[[target r]|]] eqn:Hr; try done.
    injection Ha as <-. right. split; [done|]. by eapply route_stays.
Qed.

End facts.

(** The limits.  The path of a URL without an authority need not begin with a slash, and is
    then appended to the gateway's host name. *)
Definition two_urls : UrlParser := fun s =>
  if bool_decide (s = "https://gw.example")
  then Some {| protocol := "https:"; host := "gw.example"; hostname := "gw.example"; origin := "https://gw.example"; pathname := "/"; search := ""; href := "https://gw.example/" |}
  else if bool_decide (s = "x:.evil.example/take")
  then Some {| protocol := "x:"; host := ""; hostname := ""; origin := "null"; pathname := ".evil.example/take"; search := ""; href := "x:.evil.example/take" |}
  else None.

Definition gateway_only_config : Config :=
  {| gatewayUrl := Some "https://gw.example"; resources := []; exchanger := None; tokenSource := None; cfg_subjectToken := None |}.

Theorem opaque_path_leaves_gateway :
  exists out, @application_request two_urls gateway_only_config "t" "s" "resource://r" "x:.evil.example/take" "session" "delegation" (Value "mandate") [] = Value out
    /\ out.(url) = "https://gw.example.evil.example/take" /\ ordered_get HeaderAuthorization out.(headers) = Some "Bearer mandate".
Proof. eexists. vm_compute. auto. Qed.

(** A prefix cut off within a segment leaves a dot segment: with the prefix [/api], the path
    [/api../admin] becomes [/../admin]. *)
Definition at_path (o p : string) : Url :=
  {| protocol := "https:"; host := o; hostname := o; origin := "https://" +:+ o; pathname := p; search := ""; href := "https://" +:+ o +:+ p |}.

Definition four_urls : UrlParser := fun s =>
  if bool_decide (s = "https://gw.example/tenant") then Some (at_path "gw.example" "/tenant")
  else if bool_decide (s = "https://up.example/api") then Some (at_path "up.example" "/api")
  else if bool_decide (s = "https://up.example/api/items") then Some (at_path "up.example" "/api/items")
  else if bool_decide (s = "https://up.example/api../admin") then Some (at_path "up.example" "/api../admin")
  else None.

Definition bound_config : Config :=
  {| gatewayUrl := Some "https://gw.example/tenant"; resources := [{| resourceId := "resource://r"; upstreamPrefix := "https://up.example/api" |}];
     exchanger := None; tokenSource := None; cfg_subjectToken := None |}.

Theorem split_segment_leaves_tenant :
  exists out, @application_request four_urls bound_config "t" "s" "resource://r" "https://up.example/api../admin" "session" "delegation" (Value "mandate") [] = Value out
    /\ out.(url) = "https://gw.example/tenant/../admin" /\ ordered_get HeaderAuthorization out.(headers) = Some "Bearer mandate".
Proof. eexists. vm_compute. auto. Qed.

(** Of the bindings whose prefix matches a URL, the longest is used. *)
Lemma longest_binding_wins `{UrlParser} u bs b :
  find_first (fun b => urlMatchesPrefix u b.(upstreamPrefix)) (sortBindingsLongestFirst bs) = Some b ->
  b ∈ bs /\ urlMatchesPrefix u b.(upstreamPrefix) = true
  /\ forall b', b' ∈ bs -> urlMatchesPrefix u b'.(upstreamPrefix) = true -> (js_length b'.(upstreamPrefix) <= js_length b.(upstreamPrefix))%nat.
Proof.
  unfold sortBindingsLongestFirst. intros Hf. apply find_first_Some in Hf as Hin. rewrite merge_sort_Permutation in Hin. destruct Hin as [Hin Hm].
  split_and!; [done|done|]. intros b' Hb' Hm'.
  assert (Htotal : Total longer) by (intros x y; unfold longer; lia). assert (Htrans : Transitive longer) by (intros x y z; unfold longer; lia).
  assert (Hsort : StronglySorted longer (merge_sort longer bs)) by (apply StronglySorted_merge_sort; apply _).
  assert (Hb'' : b' ∈ merge_sort longer bs) by (by rewrite merge_sort_Permutation). clear Hin Hb'.
  induction Hsort as [|x l Hs IH Hx]; [by apply elem_of_nil in Hb''|]. unfold find_first in Hf, IH. rewrite filter_cons in Hf. case_decide as Hd.
  - injection Hf as ->. apply elem_of_cons in Hb'' as [->|Hl]; [lia|]. rewrite Forall_forall in Hx. by apply (Hx b').
  - apply elem_of_cons in Hb'' as [->|Hl]; [done|]. by apply IH.
Qed.

End GatewayTransport.

(** * The queue of provisioning cycles *)

Module Provisioning.
Local Open Scope list_scope.

(** Where a call of [withAppProvisioning] stands: waiting for the one before it, running its
    cycle, gone while it waited (it releases when the one before it has), done and released,
    or done without releasing. *)
Inductive Phase := Waiting | Running | Skipped | Released | Kept.

#[export] Instance Phase_eq_dec : EqDecision Phase.
Proof. solve_decision. Defined.

(** Whether the last promise of the chain is resolved; the first one is from the start. *)
Definition resolved (queue : list Phase) : bool :=
  foldl (fun previous p => match p with Released => true | Skipped => previous | _ => false end) true queue.

(** How a cycle leaves [try], [catch] and [finally]: an aborted signal leaves the release to
    [catch], which runs only when the cycle has thrown. *)
Definition leave (threw aborted : bool) : Phase := if negb threw && aborted then Kept else Released.

(** Calls arrive, run in turn, are aborted while they wait, and end. *)
Inductive step : list Phase -> list Phase -> Prop :=
| q_enter l (aborted : bool) : step l (l ++ [if aborted then Skipped else Waiting])
| q_run a b : resolved a = true -> step (a ++ Waiting :: b) (a ++ Running :: b)
| q_abort a b : step (a ++ Waiting :: b) (a ++ Skipped :: b)
| q_leave a b threw aborted : step (a ++ Running :: b) (a ++ leave threw aborted :: b).

Definition over (p : Phase) : Prop := p = Released \/ p = Skipped.
Definition behind (p : Phase) : Prop := p = Waiting \/ p = Skipped.
Definition ahead (p : Phase) : Prop := p = Waiting \/ p = Running \/ p = Kept.

(** The calls that are over, then at most one that is under way, then those behind it. *)
Definition in_turn (l : list Phase) : Prop :=
  exists d r, l = d ++ r /\ Forall over d /\ (r = [] \/ exists p r', r = p :: r' /\ ahead p /\ Forall behind r').

Lemma resolved_from (b : bool) d : Forall over d -> b = true -> foldl (fun previous p => match p with Released => true | Skipped => previous | _ => false end) b d = true.
Proof. intros Hd. revert b. induction Hd as [|p d [->| ->] _ IH]; intros b Hb; cbn; auto. Qed.

Lemma blocked_from d r : Forall behind r -> forall p, ahead p -> resolved (d ++ p :: r) = false.
Proof.
  intros Hr p Hp. unfold resolved. rewrite foldl_app. cbn [foldl]. generalize (foldl (fun previous p => match p with Released => true | Skipped => previous | _ => false end) true d).
  intros b. assert (Hf : match p with Released => true | Skipped => b | _ => false end = false) by (by destruct Hp as [->|[->| ->]]). rewrite Hf.
  clear Hf. induction Hr as [|q r [->| ->] _ IH]; cbn; auto.
Qed.

(** Splitting a list in two ways. *)
Lemma two_splits {A : Type} (a d b r : list A) x : (a ++ x :: b = d ++ r)%list ->
  (exists d2, d = (a ++ x :: d2)%list /\ b = (d2 ++ r)%list) \/ (exists a2, a = (d ++ a2)%list /\ r = (a2 ++ x :: b)%list).
Proof.
  revert d. induction a as [|y a IH]; intros [|z d] E; simplify_eq/=.
  - right. by exists [].
  - left. by exists d.
  - right. by exists (y :: a).
  - destruct (IH d) as [(d2 & -> & ->)|(a2 & -> & ->)]; [done|left|right]; eauto.
Qed.

(** The calls behind one that is over: skipped ones, then perhaps one that waits. *)
Lemma first_waiting r : Forall behind r -> exists s w, r = (s ++ w)%list /\ Forall over s /\ (w = [] \/ exists p w', w = p :: w' /\ ahead p /\ Forall behind w').
Proof.
  induction 1 as [|p r Hp Hr (s & w & -> & Hs & Hw)]; [exists [], []; auto|]. destruct Hp as [->| ->].
  - exists [], (Waiting :: s ++ w). split_and!; [done|done|]. right. exists Waiting, (s ++ w). unfold ahead. auto.
  - exists (Skipped :: s), w. split_and!; [done| |done]. constructor; [by right|done].
Qed.

Lemma turn_replace a b x y :
  in_turn (a ++ x :: b) -> (over x -> over y) -> (behind x -> behind y) -> (ahead x -> over y \/ ahead y) -> in_turn (a ++ y :: b).
Proof.
  intros (d & r & E & Hd & Hr) Ho Hb Ha. apply two_splits in E as [(d2 & -> & ->)|(a2 & -> & ->)].
  - apply Forall_app in Hd as [Hd1 [Hx Hd2]%Forall_cons]. exists (a ++ y :: d2), r. rewrite <- app_assoc. split_and!; [done|by apply Forall_app; split; [|constructor]; auto|done].
  - destruct Hr as [Hr|(p & r' & E & Hp & Hr')]; [by destruct a2|]. destruct a2 as [|q a2]; simplify_eq/=.
    + rewrite app_nil_r. destruct (Ha Hp) as [Hy|Hy].
      * destruct (first_waiting r' Hr') as (s & w & -> & Hs & Hw). exists (d ++ y :: s), w. rewrite <- app_assoc. split_and!; [done| |done].
        apply Forall_app. split; [done|]. constructor; [done|]. done.
      * exists d, (y :: r'). split_and!; [done|done|]. right. eauto.
    + exists d, (p :: a2 ++ y :: b). rewrite <- app_assoc. split_and!; [done|done|]. right. exists p, (a2 ++ y :: b). split_and!; [done|done|].
      apply Forall_app in Hr' as [H1 [H2 H3]%Forall_cons]. apply Forall_app. split; [done|]. constructor; auto.
Qed.

Lemma step_in_turn l l' : step l l' -> in_turn l -> in_turn l'.
Proof.
  intros [l0 aborted|a b Hres|a b|a b threw aborted] Ht.
  - destruct Ht as (d & r & -> & Hd & Hr). destruct Hr as [->|(p & r' & -> & Hp & Hr')].
    + rewrite app_nil_r. destruct aborted.
      * exists (d ++ [Skipped]), []. rewrite app_nil_r. split_and!; [done| |by left]. apply Forall_app. split; [done|]. constructor; [by right|done].
      * exists d, [Waiting]. split_and!; [done|done|]. right. exists Waiting, []. unfold ahead. auto.
    + exists d, (p :: r' ++ [if aborted then Skipped else Waiting]). rewrite <- app_assoc. split_and!; [done|done|]. right. eexists _, _. split_and!; [done|done|].
      apply Forall_app. split; [done|]. constructor; [|done]. unfold behind. destruct aborted; auto.
  - destruct Ht as (d & r & E & Hd & Hr). apply two_splits in E as [(d2 & -> & ->)|(a2 & -> & ->)].
    + apply Forall_app in Hd as [_ [[Hx|Hx] _]%Forall_cons]; done.
    + destruct Hr as [Hr|(p & r' & E & Hp & Hr')]; [by destruct a2|]. destruct a2 as [|q a2]; simplify_eq/=.
      * rewrite app_nil_r. exists d, (Running :: r'). split_and!; [done|done|]. right. exists Running, r'. unfold ahead. auto.
      * exfalso. apply Forall_app in Hr' as [Ha2 _]. by rewrite (blocked_from d a2 Ha2 p Hp) in Hres.
  - eapply turn_replace; [done|..]; unfold over, behind, ahead; naive_solver.
  - eapply turn_replace; [done|..]; unfold over, behind, ahead, leave; try naive_solver. intros _. destruct threw, aborted; cbn; auto.
Qed.

Lemma reachable_in_turn l : rtc step [] l -> in_turn l.
Proof.
  intros Hr. assert (H0 : in_turn []) by (exists [], []; auto). induction Hr; [done|]. eauto using step_in_turn.
Qed.

(** One cycle runs at a time, and the calls run in the order they came. *)
Theorem one_cycle_at_a_time l a b : rtc step [] l -> l = (a ++ Running :: b)%list -> Forall over a /\ Forall behind b.
Proof.
  intros Hr ->. destruct (reachable_in_turn _ Hr) as (d & r & E & Hd & Hrest). apply two_splits in E as [(d2 & -> & ->)|(a2 & -> & ->)].
  - apply Forall_app in Hd as [_ [[Hx|Hx] _]%Forall_cons]; done.
  - destruct Hrest as [Hn|(p & r' & E & Hp & Hr')]; [by destruct a2|]. destruct a2 as [|q a2]; simplify_eq/=; [by rewrite app_nil_r|].
    apply Forall_app in Hr' as [_ [[Hx|Hx] _]%Forall_cons]; done.
Qed.

(** As long as no call kept the queue, it moves: one runs, or the first that waits may. *)
Theorem queue_moves l : rtc step [] l -> Kept ∉ l -> Waiting ∈ l -> Running ∈ l \/ exists a b, l = (a ++ Waiting :: b)%list /\ resolved a = true.
Proof.
  intros Hr Hk Hw. destruct (reachable_in_turn _ Hr) as (d & r & -> & Hd & Hrest). destruct Hrest as [->|(p & r' & -> & Hp & Hr')].
  - rewrite app_nil_r in Hw. rewrite Forall_forall in Hd. by destruct (Hd _ Hw).
  - destruct Hp as [->|[->| ->]]; [|left; set_solver|set_solver]. right. exists d, r'. split; [done|]. by apply resolved_from.
Qed.

(** A cycle that succeeds although its signal was aborted while it ran keeps the queue: no
    call behind it ever runs. *)
Theorem kept_queue_stands l l' a b :
  rtc step [] l -> l = (a ++ Kept :: b)%list -> rtc step l l' -> exists b', l' = (a ++ Kept :: b')%list /\ Forall behind b'.
Proof.
  intros Hr -> Hs.
  assert (Hkept : forall l, in_turn l -> forall b, l = (a ++ Kept :: b)%list -> Forall over a /\ Forall behind b).
  { intros l0 (d & r & -> & Hd & Hrest) b0 E. symmetry in E. apply two_splits in E as [(d2 & -> & ->)|(a2 & -> & ->)].
    - apply Forall_app in Hd as [_ [[Hx|Hx] _]%Forall_cons]; done.
    - destruct Hrest as [Hn|(p & r' & E & Hp & Hr')]; [by destruct a2|]. destruct a2 as [|q a2]; simplify_eq/=; [by rewrite app_nil_r|].
      apply Forall_app in Hr' as [_ [[Hx|Hx] _]%Forall_cons]; done. }
  assert (Hturn : in_turn (a ++ Kept :: b)) by (by apply reachable_in_turn). clear Hr.
  remember (a ++ Kept :: b)%list as l0 eqn:El. revert b El. induction Hs as [l0|l0 l1 l2 H1 _ IH]; intros b ->.
  - exists b. split; [done|]. by eapply Hkept.
  - assert (Hstep : exists b1, l1 = (a ++ Kept :: b1)%list); [|destruct Hstep as [b1 ->]; by eapply IH; [eapply step_in_turn|]].
    destruct (Hkept _ Hturn b eq_refl) as [Ha Hb]. inversion H1 as [l aborted E1 E2|a' b' Hres E1 E2|a' b' E1 E2|a' b' threw aborted E1 E2]; subst.
    + exists (b ++ [if aborted then Skipped else Waiting]). by rewrite <- app_assoc.
    + apply two_splits in E1 as [(d2 & Ea & ->)|(a2 & -> & E)].
      * rewrite Ea in Ha. apply Forall_app in Ha as [_ [[Hx|Hx] _]%Forall_cons]; done.
      * destruct a2 as [|q a2]; simplify_eq/=. exfalso. apply Forall_app in Hb as [Hb1 _].
        rewrite (blocked_from a a2 Hb1 Kept) in Hres; [done|]. unfold ahead. auto.
    + apply two_splits in E1 as [(d2 & Ea & ->)|(a2 & -> & E)].
      * rewrite Ea in Ha. apply Forall_app in Ha as [_ [[Hx|Hx] _]%Forall_cons]; done.
      * destruct a2 as [|q a2]; simplify_eq/=. exists (a2 ++ Skipped :: b'). by rewrite <- app_assoc.
    + apply two_splits in E1 as [(d2 & Ea & ->)|(a2 & -> & E)].
      * rewrite Ea in Ha. apply Forall_app in Ha as [_ [[Hx|Hx] _]%Forall_cons]; done.
      * destruct a2 as [|q a2]; simplify_eq/=. exists (a2 ++ leave threw aborted :: b'). by rewrite <- app_assoc.
Qed.

Lemma queue_can_be_kept : rtc step [] [Kept; Waiting].
Proof.
  apply rtc_l with [Waiting]; [apply (q_enter [] false)|]. apply rtc_l with [Running]; [by apply (q_run [] [])|].
  apply rtc_l with [Kept]; [apply (q_leave [] [] false true)|]. apply rtc_once. apply (q_enter [Kept] false).
Qed.

End Provisioning.

(** * The authorities of application transports *)

Module AppAuthorities.
Local Open Scope list_scope.

Definition APP_MANDATE_TTL_SECONDS : Z := 900.
Definition APP_AUTHORITY_REFRESH_MARGIN_SECONDS : Z := 60.
Definition APP_AUTHORITY_CACHE_CAP : nat := 19.
Definition APP_SESSION_TTL_BUFFER_SECONDS : Z := 120.

(** [AppAuthorityEntry]; times are milliseconds. *)
Record AppAuthorityEntry := {
  resourceId : string;
  zoneId : string;
  applicationId : string;
  credentialGeneration : string;
  ttlSeconds : Z;
  targetSessionId : string;
  delegationId : string;
  expiresAt : Z;
  sessions : list string
}.

(** What a call asks for: the identity it acts under and the options of its transport. *)
Record Wanted := {
  w_zone : string;
  w_application : string;
  w_generation : string;
  w_resource : string;
  w_scopes : list string;
  w_labels : list string;
  w_mandateTtl : Z
}.

Definition labels_of (w : Wanted) : list string := match w.(w_labels) with [] => [w.(w_application)] | ls => ls end.

(** The key of the cache. *)
Definition key_of (w : Wanted) : string :=
  string_concat "::" [w.(w_zone); w.(w_application); w.(w_generation); w.(w_resource); string_concat " " w.(w_scopes);
                      text (JArr (JStr <$> labels_of w)); pretty w.(w_mandateTtl)].

(** A provisioning of [appInflight]; [j_stored] once its entry has been stored or retired and only
    its removal is left. *)
Record Job := { j_key : string; j_generation : nat; j_wanted : Wanted; j_stored : bool }.

#[export] Instance Wanted_eq_dec : EqDecision Wanted.
Proof. solve_decision. Defined.
#[export] Instance Job_eq_dec : EqDecision Job.
Proof. solve_decision. Defined.

(** The cached authorities and the provisionings under way; [started] are the Sessions the
    coordinator started for the client, [asked] those whose termination was requested and
    [forgotten] those of entries the client no longer holds and made no request for: no
    token could be minted for it, or a newer entry took their place in the map. *)
Record Client := {
  appAuthorities : list (string * AppAuthorityEntry);
  appInflight : list Job;
  appGeneration : nat;
  closed : bool;
  started : list string;
  asked : list string;
  forgotten : list string
}.

Definition all_sessions (es : list (string * AppAuthorityEntry)) : list string := es ≫= fun ke => ke.2.(sessions).

(** [retireAppAuthorities]: the entries [gone] leave the cache [auths] behind; nothing is
    requested when no token is minted for it. *)
Definition retire (minted : bool) (gone : list string) (auths : list (string * AppAuthorityEntry)) (c : Client) : Client :=
  {| appAuthorities := auths; appInflight := c.(appInflight); appGeneration := c.(appGeneration); closed := c.(closed); started := c.(started);
     asked := if minted then c.(asked) ++ gone else c.(asked); forgotten := if minted then c.(forgotten) else c.(forgotten) ++ gone |}.

Definition is_stale (now : Z) (w : Wanted) (e : AppAuthorityEntry) : bool :=
  (e.(expiresAt) <=? now)
  || (bool_decide (e.(zoneId) = w.(w_zone)) && bool_decide (e.(applicationId) = w.(w_application))
      && negb (bool_decide (e.(credentialGeneration) = w.(w_generation)))).

(** [appAuthority] up to its first wait: drops what is stale for the identity of the call. *)
Definition sweep (now : Z) (w : Wanted) (minted : bool) (c : Client) : Client :=
  retire minted (all_sessions (filter (fun ke => is_stale now w ke.2 = true) c.(appAuthorities)))
    (filter (fun ke => ~ is_stale now w ke.2 = true) c.(appAuthorities)) c.

(** The cached authority a call is served. *)
Definition cached (now : Z) (w : Wanted) (c : Client) : option AppAuthorityEntry :=
  match ordered_get (key_of w) c.(appAuthorities) with
  | Some e => if now <? e.(expiresAt) - APP_AUTHORITY_REFRESH_MARGIN_SECONDS * 1000 then Some e else None
  | None => None
  end.

(** Whether [appInflight] has the key. *)
Definition under_way (w : Wanted) (c : Client) : bool :=
  existsb (fun j => bool_decide (j.(j_generation) = c.(appGeneration)) && bool_decide (j.(j_key) = key_of w)) c.(appInflight).

Definition with_jobs (jobs : list Job) (c : Client) : Client :=
  {| appAuthorities := c.(appAuthorities); appInflight := jobs; appGeneration := c.(appGeneration); closed := c.(closed);
     started := c.(started); asked := c.(asked); forgotten := c.(forgotten) |}.

(** The rest of [appAuthority] up to its next wait: a provisioning starts when nothing serves. *)
Definition begin_cycle (now : Z) (w : Wanted) (c : Client) : Client :=
  match cached now w c, under_way w c with
  | None, false => with_jobs (c.(appInflight) ++ [{| j_key := key_of w; j_generation := c.(appGeneration); j_wanted := w; j_stored := false |}]) c
  | _, _ => c
  end.

(** The entry of a finished [appAuthorityCycle]. *)
Definition entry_of (now : Z) (w : Wanted) (source target delegation : string) : AppAuthorityEntry :=
  let sessionTtl := w.(w_mandateTtl) + APP_SESSION_TTL_BUFFER_SECONDS in
  {| resourceId := w.(w_resource); zoneId := w.(w_zone); applicationId := w.(w_application); credentialGeneration := w.(w_generation);
     ttlSeconds := sessionTtl; targetSessionId := target; delegationId := delegation; expiresAt := now + sessionTtl * 1000; sessions := [source; target] |}.

(** The second loop of the eviction: the oldest others go until the cache fits. *)
Fixpoint trim (excess : nat) (key : string) (l : list (string * AppAuthorityEntry)) : list (string * AppAuthorityEntry) * list (string * AppAuthorityEntry) :=
  match excess, l with
  | O, _ | _, [] => (l, [])
  | S excess', (k, e) :: l' =>
      if bool_decide (k = key) then let (kept, out) := trim excess key l' in ((k, e) :: kept, out)
      else let (kept, out) := trim excess' key l' in (kept, (k, e) :: out)
  end.

(** What stays of the cache after an insertion of [key], and what is evicted. *)
Definition evict (now : Z) (key : string) (l : list (string * AppAuthorityEntry)) : list (string * AppAuthorityEntry) * list (string * AppAuthorityEntry) :=
  if (APP_AUTHORITY_CACHE_CAP <? length l)%nat then
    let live := filter (fun ke => ~ (ke.2.(expiresAt) <= now /\ ke.1 <> key)) l in
    let (kept, out) := trim (length live - APP_AUTHORITY_CACHE_CAP) key live in
    (kept, filter (fun ke => ke.2.(expiresAt) <= now /\ ke.1 <> key) l ++ out)
  else (l, []).

(** What [Map.set] of the key overwrites. *)
Definition replaced (key : string) (l : list (string * AppAuthorityEntry)) : list string :=
  match ordered_get key l with Some e => e.(sessions) | None => [] end.

Definition forget (ss : list string) (c : Client) : Client :=
  {| appAuthorities := c.(appAuthorities); appInflight := c.(appInflight); appGeneration := c.(appGeneration); closed := c.(closed);
     started := c.(started); asked := c.(asked); forgotten := c.(forgotten) ++ ss |}.

(** A cycle ended with its entry: stored, or retired when the client was closed meanwhile. *)
Definition store (now : Z) (j : Job) (e : AppAuthorityEntry) (minted : bool) (c : Client) : Client :=
  if negb (bool_decide (j.(j_generation) = c.(appGeneration))) then retire minted e.(sessions) c.(appAuthorities) c
  else
    let (kept, out) := evict now j.(j_key) (ordered_set j.(j_key) e c.(appAuthorities)) in
    retire minted (all_sessions out) kept (forget (replaced j.(j_key) c.(appAuthorities)) c).

Definition start_sessions (ss : list string) (c : Client) : Client :=
  {| appAuthorities := c.(appAuthorities); appInflight := c.(appInflight); appGeneration := c.(appGeneration); closed := c.(closed);
     started := c.(started) ++ ss; asked := c.(asked); forgotten := c.(forgotten) |}.

Definition stored_job (j : Job) : Job :=
  {| j_key := j.(j_key); j_generation := j.(j_generation); j_wanted := j.(j_wanted); j_stored := true |}.

(** The provisioning went through: both Sessions were started, the entry is stored. *)
Definition provisioned (now : Z) (j : Job) (source target delegation : string) (minted : bool) (c : Client) : Client :=
  let c1 := start_sessions [source; target] c in
  let c2 := store now j (entry_of now j.(j_wanted) source target delegation) minted c1 in
  with_jobs ((fun i => if bool_decide (i = j) then stored_job j else i) <$> c2.(appInflight)) c2.

(** The provisioning threw after [ss] were started: [catch] has them terminated. *)
Definition failed (j : Job) (ss : list string) (c : Client) : Client :=
  let c1 := start_sessions ss c in
  with_jobs (filter (fun i => i <> j) c1.(appInflight)) (retire true ss c1.(appAuthorities) c1).

(** [close]. *)
Definition close (minted : bool) (c : Client) : Client :=
  if c.(closed) then c
  else retire minted (all_sessions c.(appAuthorities)) []
         {| appAuthorities := c.(appAuthorities); appInflight := c.(appInflight); appGeneration := S c.(appGeneration); closed := true;
            started := c.(started); asked := c.(asked); forgotten := c.(forgotten) |}.

(** Calls for something [asked_for] sweep, are served or start provisionings while the client is
    open; provisionings end and leave [appInflight]; the client is closed. *)
Inductive step (asked_for : Wanted -> Prop) : Client -> Client -> Prop :=
| c_sweep now w minted c : c.(closed) = false -> step asked_for c (sweep now w minted c)
| c_begin now w c : c.(closed) = false -> asked_for w -> step asked_for c (begin_cycle now w c)
| c_provisioned now j source target delegation minted c :
    j ∈ c.(appInflight) -> j.(j_stored) = false -> step asked_for c (provisioned now j source target delegation minted c)
| c_failed j ss c : j ∈ c.(appInflight) -> j.(j_stored) = false -> (length ss <= 2)%nat -> step asked_for c (failed j ss c)
| c_finished j c : j ∈ c.(appInflight) -> j.(j_stored) = true -> step asked_for c (with_jobs (filter (fun i => i <> j) c.(appInflight)) c)
| c_close minted c : step asked_for c (close minted c).

Definition fresh_client : Client :=
  {| appAuthorities := []; appInflight := []; appGeneration := 0; closed := false; started := []; asked := []; forgotten := [] |}.

(** ** Facts *)

(** An entry was provisioned for [w]. *)
Definition made_for (w : Wanted) (e : AppAuthorityEntry) : Prop :=
  e.(resourceId) = w.(w_resource) /\ e.(zoneId) = w.(w_zone) /\ e.(applicationId) = w.(w_application)
  /\ e.(credentialGeneration) = w.(w_generation) /\ e.(ttlSeconds) = w.(w_mandateTtl) + APP_SESSION_TTL_BUFFER_SECONDS.

(** The call for [w] is answered with [e] from the cache, or joins a provisioning under way
    and gets what that ends with. *)
Definition served (now : Z) (w : Wanted) (c : Client) (e : AppAuthorityEntry) : Prop :=
  cached now w c = Some e
  \/ exists j later source target delegation, j ∈ c.(appInflight) /\ j.(j_generation) = c.(appGeneration) /\ j.(j_key) = key_of w
     /\ e = entry_of later j.(j_wanted) source target delegation.

Section asked_for.
Context (asked_for : Wanted -> Prop).

Record client_ok (c : Client) : Prop := {
  ok_made : forall k e, (k, e) ∈ c.(appAuthorities) -> exists w, key_of w = k /\ asked_for w /\ made_for w e;
  ok_jobs : forall j, j ∈ c.(appInflight) -> j.(j_key) = key_of j.(j_wanted) /\ asked_for j.(j_wanted) /\ (j.(j_generation) <= c.(appGeneration))%nat;
  ok_keys : NoDup c.(appAuthorities).*1;
  ok_cap : (length c.(appAuthorities) <= APP_AUTHORITY_CACHE_CAP)%nat;
  ok_sessions : c.(started) ≡ₚ all_sessions c.(appAuthorities) ++ c.(asked) ++ c.(forgotten);
  ok_closed : c.(closed) = true -> c.(appAuthorities) = [] /\ forall j, j ∈ c.(appInflight) -> (j.(j_generation) < c.(appGeneration))%nat
}.


Lemma all_sessions_app a b : all_sessions (a ++ b) = all_sessions a ++ all_sessions b.
Proof. apply bind_app. Qed.

#[export] Instance all_sessions_proper : Proper ((≡ₚ) ==> (≡ₚ)) all_sessions.
Proof. intros a b H. unfold all_sessions. by rewrite H. Qed.

Lemma set_sessions k e l : all_sessions (ordered_set k e l) ++ replaced k l ≡ₚ e.(sessions) ++ all_sessions l.
Proof.
  unfold replaced. induction l as [|[k' e'] l IH]; cbn; [by rewrite !app_nil_r|]. case_bool_decide; cbn.
  - change (l ≫= _) with (all_sessions l). solve_Permutation.
  - change (_ ≫= _) with (all_sessions (ordered_set k e l)) at 1. change (l ≫= _) with (all_sessions l).
    rewrite <-(assoc_L (++)), IH. solve_Permutation.
Qed.

Lemma trim_perm n key l : l ≡ₚ (trim n key l).1 ++ (trim n key l).2.
Proof.
  revert n. induction l as [|[k e] l IH]; intros [|n]; cbn [trim]; [done|done|by rewrite app_nil_r|]. case_bool_decide.
  - specialize (IH (S n)). destruct (trim (S n) key l) as [kept out]. cbn in *. by rewrite IH.
  - specialize (IH n). destruct (trim n key l) as [kept out]. cbn in *. rewrite IH. solve_Permutation.
Qed.

Lemma trim_without n key l : key ∉ l.*1 -> (n <= length l)%nat -> (length (trim n key l).1 + n = length l)%nat.
Proof.
  revert n. induction l as [|[k e] l IH]; intros [|n] Hk Hn; cbn [trim length fst] in *; try lia.
  cbn in Hk. apply not_elem_of_cons in Hk as [Hk Hl]. rewrite bool_decide_eq_false_2 by done.
  specialize (IH n Hl ltac:(lia)). destruct (trim n key l) as [kept out]. cbn [fst length] in *. lia.
Qed.

(** The second loop finds enough to evict: at most one entry is the new one. *)
Lemma trim_fits n key l : NoDup l.*1 -> (n < length l)%nat -> (length (trim n key l).1 + n = length l)%nat.
Proof.
  revert n. induction l as [|[k e] l IH]; intros [|n] Hnd Hn; cbn [trim length fst] in *; try lia.
  cbn in Hnd. apply NoDup_cons in Hnd as [Hk Hnd]. case_bool_decide; subst.
  - pose proof (trim_without (S n) key l Hk ltac:(lia)) as E. destruct (trim (S n) key l) as [kept out]. cbn [fst length] in *. lia.
  - specialize (IH n Hnd ltac:(lia)). destruct (trim n key l) as [kept out]. cbn [fst length] in *. lia.
Qed.

(** An eviction splits the cache and leaves at most the cap. *)
Lemma evict_splits now key l : l ≡ₚ (evict now key l).1 ++ (evict now key l).2.
Proof.
  unfold evict. destruct (APP_AUTHORITY_CACHE_CAP <? length l)%nat; [|cbn; by rewrite app_nil_r].
  set (live := filter (fun ke => ~ _) l). pose proof (trim_perm (length live - APP_AUTHORITY_CACHE_CAP) key live) as Ht.
  destruct (trim _ key live) as [kept out]. cbn in *.
  rewrite <-(filter_app_complement (fun ke => ke.2.(expiresAt) <= now /\ ke.1 <> key) l) at 1. fold live. rewrite Ht. solve_Permutation.
Qed.

Lemma evict_fits now key l : NoDup l.*1 -> (length (evict now key l).1 <= APP_AUTHORITY_CACHE_CAP)%nat.
Proof.
  intros Hnd. unfold evict. destruct (Nat.ltb_spec APP_AUTHORITY_CACHE_CAP (length l)); [|cbn; lia].
  set (live := filter _ l). assert (NoDup live.*1) as Hl by (by apply NoDup_fst_filter).
  destruct (decide (length live <= APP_AUTHORITY_CACHE_CAP)%nat) as [Hle|Hgt].
  - replace (length live - APP_AUTHORITY_CACHE_CAP)%nat with 0%nat by lia. destruct live; cbn in *; lia.
  - assert (length live - APP_AUTHORITY_CACHE_CAP < length live)%nat as Hlt by (unfold APP_AUTHORITY_CACHE_CAP in *; lia).
    pose proof (trim_fits _ key live Hl Hlt) as E. destruct (trim _ key live) as [kept out]. cbn [fst] in *. lia.
Qed.

(** The parts of the invariant that say what is cached. *)
Lemma ok_fewer l c minted gone :
  client_ok c -> c.(appAuthorities) ≡ₚ l ++ gone -> client_ok (retire minted (all_sessions gone) l c).
Proof.
  intros [Hm Hj Hk Hc Hs Hcl] Hp. split; cbn; [|done| | | |].
  - intros k e Hin. apply Hm. rewrite Hp. set_solver.
  - rewrite Hp, fmap_app in Hk. by apply NoDup_app in Hk as (? & _ & _).
  - apply Permutation_length in Hp. rewrite length_app in Hp. lia.
  - rewrite Hs, Hp, all_sessions_app. destruct minted; solve_Permutation.
  - intros Hx. destruct (Hcl Hx) as [He Hg]. split; [|done]. rewrite He in Hp. apply Permutation_nil in Hp. by destruct l.
Qed.

Lemma ok_jobs_change jobs c :
  client_ok c -> (forall j, j ∈ jobs -> exists i, i ∈ c.(appInflight) /\ j.(j_key) = i.(j_key) /\ j.(j_generation) = i.(j_generation) /\ j.(j_wanted) = i.(j_wanted)) ->
  client_ok (with_jobs jobs c).
Proof.
  intros [Hm Hj Hk Hc Hs Hcl] Hsub. split; cbn; [done| |done|done|done|].
  - intros j (i & Hi & -> & -> & ->)%Hsub. auto.
  - intros Hx. destruct (Hcl Hx) as [He Hg]. split; [done|]. intros j (i & Hi & _ & -> & _)%Hsub. auto.
Qed.

Lemma ok_retire_started ss minted c : client_ok c -> client_ok (retire minted ss c.(appAuthorities) (start_sessions ss c)).
Proof. intros [Hm Hj Hk Hc Hs Hcl]. split; cbn; [done..| |done]. rewrite Hs. destruct minted; solve_Permutation. Qed.

(** A new entry is stored within the cap and accounted for. *)
Lemma ok_store now j source target delegation minted c :
  client_ok c -> j ∈ c.(appInflight) ->
  let e := entry_of now j.(j_wanted) source target delegation in
  client_ok (store now j e minted (start_sessions [source; target] c)).
Proof.
  intros Hok Hj e. unfold store. cbn [appGeneration start_sessions]. case_bool_decide as Hg; cbn [negb]; [|exact (ok_retire_started [source; target] minted c Hok)].
  destruct Hok as [Hm Hjs Hk Hc Hs Hcl]. cbn [appAuthorities].
  pose proof (evict_splits now (j_key j) (ordered_set (j_key j) e (appAuthorities c))) as Hp.
  pose proof (evict_fits now (j_key j) (ordered_set (j_key j) e (appAuthorities c)) (ordered_set_keys _ _ _ Hk)) as Hf.
  pose proof (ordered_set_keys (j_key j) e _ Hk) as Hk'. pose proof (set_sessions (j_key j) e (appAuthorities c)) as Hss.
  destruct (evict now _ _) as [kept out]. cbn [fst snd] in *. split; cbn; [| | |done| |].
  - intros k e' Hin. assert ((k, e') ∈ ordered_set (j_key j) e (appAuthorities c)) as Hin' by (rewrite Hp; set_solver).
    destruct (decide (k = j_key j)) as [->|Hne].
    + apply ordered_set_same in Hin' as ->; [|done]. exists (j_wanted j). destruct (Hjs j Hj) as (? & ? & _). split_and!; [done|done|by repeat split].
    + apply ordered_set_other in Hin'; auto.
  - intros i Hi. by apply Hjs.
  - rewrite Hp, fmap_app in Hk'. by apply NoDup_app in Hk' as (? & _ & _).
  - rewrite Hp, all_sessions_app in Hss. cbn [sessions entry_of e] in Hss. rewrite Hs.
    transitivity (([source; target] ++ all_sessions (appAuthorities c)) ++ asked c ++ forgotten c); [solve_Permutation|].
    rewrite <-Hss. destruct minted; solve_Permutation.
  - intros Hx. destruct (Hcl Hx) as [_ Hlt]. specialize (Hlt j Hj). lia.
Qed.

Lemma ok_fresh : client_ok fresh_client.
Proof. split; cbn; try set_solver; [constructor|lia]. Qed.

Lemma ok_step c c' : step asked_for c c' -> client_ok c -> client_ok c'.
Proof.
  intros [now w minted c0 Ho|now w c0 Ho Hw|now j source target delegation minted c0 Hj Hn|j ss c0 Hj Hn Hl|j c0 Hj Hn|minted c0] Hok.
  - apply ok_fewer; [done|]. rewrite (comm (++)). by rewrite filter_app_complement.
  - unfold begin_cycle. destruct (cached now w c0); [done|]. destruct (under_way w c0); [done|].
    destruct Hok as [Hm Hjs Hk Hc Hs Hcl]. split; cbn; [done| |done|done|done|by rewrite Ho].
    intros j [Hj|Hj]%elem_of_app; [auto|]. apply list_elem_of_singleton in Hj as ->. cbn. auto.
  - apply ok_jobs_change; [by apply ok_store|]. intros i Hi. apply list_elem_of_fmap in Hi as (i' & -> & Hi').
    exists i'. split; [done|]. by case_bool_decide; subst.
  - apply ok_jobs_change; [exact (ok_retire_started ss true c0 Hok)|]. intros i [_ Hi]%list_elem_of_filter. by exists i.
  - apply ok_jobs_change; [done|]. intros i [_ Hi]%list_elem_of_filter. by exists i.
  - unfold close. destruct (closed c0) eqn:Ho; [done|]. destruct Hok as [Hm Hjs Hk Hc Hs Hcl].
    split; cbn; [set_solver| |constructor|lia| |].
    + intros j Hj. destruct (Hjs j Hj) as (? & ? & ?). split_and!; [done|done|lia].
    + rewrite Hs. destruct minted; solve_Permutation.
    + intros _. split; [done|]. intros j Hj. destruct (Hjs j Hj) as (_ & _ & ?). lia.
Qed.

Definition reachable (c : Client) : Prop := rtc (step asked_for) fresh_client c.

Lemma reached_client_ok c : reachable c -> client_ok c.
Proof. intros H. pattern c. revert H. apply rtc_ind_r; [apply ok_fresh|]. intros a b _ Hs. by apply ok_step. Qed.

End asked_for.

(** The identity a call acts under, its resource and its scopes as they are joined. *)
Definition slice_of (w : Wanted) : list string := [w.(w_zone); w.(w_application); w.(w_generation); w.(w_resource); string_concat " " w.(w_scopes)].

(** The parts of the key hold no separator. *)
Definition unambiguous (w : Wanted) : Prop := Forall OAuthFacts.sep_free (slice_of w).

(** They are then read off it. *)
Lemma key_slice w w' : unambiguous w -> unambiguous w' -> key_of w = key_of w' -> slice_of w = slice_of w'.
Proof.
  intros Hf Hf' Hk.
  by destruct (OAuthFacts.join_inj (slice_of w) (slice_of w') (string_concat "::" [text (JArr (JStr <$> labels_of w)); pretty w.(w_mandateTtl)])
    (string_concat "::" [text (JArr (JStr <$> labels_of w')); pretty w'.(w_mandateTtl)]) eq_refl Hf Hf' Hk) as [E _].
Qed.

Lemma cached_elem now w c e : cached now w c = Some e ->
  (key_of w, e) ∈ c.(appAuthorities) /\ now + APP_AUTHORITY_REFRESH_MARGIN_SECONDS * 1000 < e.(expiresAt).
Proof.
  unfold cached. destruct (ordered_get _ _) as [e'|] eqn:Hg; [|done]. destruct (Z.ltb_spec now (e'.(expiresAt) - APP_AUTHORITY_REFRESH_MARGIN_SECONDS * 1000)); [|done].
  intros [= ->]. split; [by apply ordered_get_elem|lia].
Qed.


(** A zone, an application and a credential with the separator in them are confused: the authority
    provisioned for one is served to the other. *)
Example ambiguous_identities :
  let w := {| w_zone := "a"; w_application := "b::c"; w_generation := "g"; w_resource := "r"; w_scopes := ["s"]; w_labels := ["l"]; w_mandateTtl := 900 |} in
  let w' := {| w_zone := "a::b"; w_application := "c"; w_generation := "g"; w_resource := "r"; w_scopes := ["s"]; w_labels := ["l"]; w_mandateTtl := 900 |} in
  let c := provisioned 0 {| j_key := key_of w; j_generation := 0; j_wanted := w; j_stored := false |} "s1" "s2" "d" true (begin_cycle 0 w fresh_client) in
  (zoneId <$> cached 0 w' c) = Some "a".
Proof. vm_compute. reflexivity. Qed.

(** Closing again, or a call on a closed client, changes nothing the client holds. *)
Theorem closed_for_good asked_for c c' : reachable asked_for c -> c.(closed) = true -> step asked_for c c' -> c'.(closed) = true /\ c'.(appAuthorities) = [].
Proof.
  intros Hr%reached_client_ok Hx Hs. assert (c'.(closed) = true) as Hx'.
  { destruct Hs as [| |now j source target delegation minted c0 Hj Hn| | |]; cbn in *; try congruence.
    - unfold store. cbn. destruct (bool_decide _); cbn; [|done]. by destruct (evict _ _ _).
    - unfold close. by rewrite Hx. }
  split; [done|]. by destruct (ok_closed _ _ (ok_step _ _ _ Hs Hr) Hx') as [He _].
Qed.

End AppAuthorities.

(** * Inbound contexts and approvals

    [bindFromHeaders] with its middleware, [headers], [headersAsync], [acceptDelegation] with
    validation, [withApproval], and the checks of the configured URLs. *)

Module Inbound.
Import Envelope GatewayTransport.

(** [opts.verify]: not given, or what it gives for a token. *)
Definition Verify : Type := option (string -> outcome (option VerifiedClaims)).

Definition with_bearer (token : string) (env : Envelope) : Envelope :=
  {| subjectToken := Some token; sessionId := env.(sessionId); delegationId := env.(delegationId); parentDelegationId := env.(parentDelegationId);
     subjectAuthorityRecordId := env.(subjectAuthorityRecordId); traceId := env.(traceId); traceFlags := env.(traceFlags); traceState := env.(traceState);
     baggage := env.(baggage); hop := env.(hop) |}.

(** The lookup of a header in a plain object: the first value of the first name that matches. *)
Fixpoint header_of (h : list (string * header_value)) (name : string) : option string :=
  match h with
  | [] => None
  | (k, v) :: rest =>
      if bool_decide (to_lower k = to_lower name) then match v with HOne s => Some s | HMany vs => head vs | HUndefined => None end
      else header_of rest name
  end.

Definition as_outcome {A : Type} (r : string + A) : outcome A := match r with inl e => Throws e | inr a => Value a end.

(** [bindFromHeaders]: the context the function runs in; [identity] is what [this.identity()]
    gives. *)
Definition bindFromHeaders (cfg : Config) (identity : outcome (string * string)) (verify : Verify) (asApplication : bool) (headers : list (string * header_value)) : outcome Bound :=
  let env := decodeEnvelope (header_of headers) in
  let unverified (env : Envelope) (own : bool) :=
    match identity with
    | Throws e => Throws e
    | Value (zone, app) => match as_outcome (fromEnvelope env zone app) with Throws e => Throws e | Value c => Value {| ctx := c; ownToken := own |} end
    end in
  match or_undefined env.(subjectToken) with
  | None =>
      if negb asApplication then
        Throws "Caracal.bindFromHeaders(): inbound request is missing a bearer token. Pass { asApplication: true } only for trusted ingress that should run as the application's own identity."
      else match rootToken cfg with Throws e => Throws e | Value t => unverified (with_bearer t env) true end
  | Some t =>
      match verify with
      | None => unverified env false
      | Some v =>
          match v t with
          | Throws e => Throws e
          | Value None => unverified env false
          | Value (Some claims) => match as_outcome (fromVerifiedEnvelope env claims) with Throws e => Throws e | Value c => Value {| ctx := c; ownToken := false |} end
          end
      end
  end.

(** What [contextMiddleware] does: the handler is entered, which may then fail, or 401 is
    answered. *)
Inductive Served := Entered (c : Bound) (failed : option string) | Refused401.

Definition contextMiddleware (bound : outcome Bound) (handler : Bound -> option string) : Served :=
  match bound with Throws _ => Refused401 | Value c => Entered c (handler c) end.

(** [headers]: the bearer as it is bound. *)
Definition headers (cfg : Config) (bound : option Bound) (asApplication : bool) (genTraceId genSpanId : string) : outcome (list (string * string)) :=
  match bound with
  | None =>
      if negb asApplication then Throws "Caracal.headers(): no Caracal session context is bound. Pass { asApplication: true } to call as the application's own identity."
      else match or_undefined cfg.(cfg_subjectToken) with
           | Some t => Value (set_all [(HeaderAuthorization, "Bearer " +:+ t)] (toHeaders genTraceId genSpanId no_envelope))
           | None => Throws "Caracal.headers(): this client uses an async token source. Use headersAsync({ asApplication: true }) for application-identity headers."
           end
  | Some b => Value (set_all [(HeaderAuthorization, "Bearer " +:+ b.(ctx).(ctx_subjectToken))] (toHeaders genTraceId genSpanId (toEnvelope b.(ctx))))
  end.

(** [headersAsync]: the bearer refreshed when it is the process's own. *)
Definition headersAsync (cfg : Config) (bound : option Bound) (asApplication : bool) (genTraceId genSpanId : string) : outcome (list (string * string)) :=
  let carrying (token : outcome string) (env : Envelope) :=
    match token with Throws e => Throws e | Value t => Value (set_all [(HeaderAuthorization, "Bearer " +:+ t)] (toHeaders genTraceId genSpanId env)) end in
  match bound with
  | None =>
      if negb asApplication then Throws "Caracal.headersAsync(): no Caracal session context is bound. Pass { asApplication: true } to call as the application's own identity."
      else carrying (rootToken cfg) no_envelope
  | Some b =>
      carrying (match b.(ownToken), cfg.(tokenSource) with true, Some t => t | _, _ => Value b.(ctx).(ctx_subjectToken) end) (toEnvelope b.(ctx))
  end.

(** [acceptDelegation(id, fn, { validate })]: the check before the context is rebound; [listed]
    are the identifiers and states of the inbound delegations of the Session. *)
Definition checkDelegation (closed : bool) (current : option CaracalContext) (validate : bool) (delegation : string) (listed : outcome (list (string * string))) : outcome unit :=
  if closed then Throws "Caracal client is closed"
  else match current with
  | None => Throws "acceptDelegation requires a Caracal context bound on this path"
  | Some c =>
      if negb validate then Value tt
      else match or_undefined c.(ctx_sessionId) with
      | None => Throws "acceptDelegation validation requires an active session in context"
      | Some s =>
          match listed with
          | Throws e => Throws e
          | Value ds =>
              match find_first (fun d => bool_decide (d.1 = delegation)) ds with
              | Some d => if bool_decide (d.2 = "active") then Value tt else Throws ("acceptDelegation: delegation " +:+ delegation +:+ " is not live for session " +:+ s)
              | None => Throws ("acceptDelegation: delegation " +:+ delegation +:+ " is not live for session " +:+ s)
              end
          end
      end
  end.

(** What a gated operation ends with: a value, an approval that is required, another error. *)
Inductive gated (A : Type) := Done (a : A) | ApprovalRequired (approvalId : string) | Failed (e : string).
Arguments Done {A} a.
Arguments ApprovalRequired {A} approvalId.
Arguments Failed {A} e.

(** [withApproval]; [wait] is the state an approval has after the wait. *)
Definition withApproval {A : Type} (fn : option string -> gated A) (wait : string -> outcome string) : gated A :=
  match fn None with
  | ApprovalRequired id =>
      match wait id with
      | Throws e => Failed e
      | Value state => if bool_decide (state = "approved") then fn (Some id) else ApprovalRequired id
      end
  | r => r
  end.

(** ** Configured URLs *)

Record ProcessEnv := { CARACAL_ENV : option string; NODE_ENV : option string; allow_insecure : bool }.

Definition productionEnv (env : ProcessEnv) : bool :=
  match or_undefined env.(CARACAL_ENV) with Some e => bool_decide (e = "production") | None => bool_decide (env.(NODE_ENV) = Some "production") end.

(** [/^127(?:\.\d{1,3}){3}$/]. *)
Definition loopback_v4 (host : string) : bool :=
  match split_on "."%char host with
  | [a; b; c; d] =>
      bool_decide (a = "127") && forallb (fun p => all_chars is_digit p && (1 <=? String.length p)%nat && (String.length p <=? 3)%nat) [b; c; d]
  | _ => false
  end.

Definition isLoopbackHost (host : string) : bool := bool_decide (host = "localhost" \/ host = "::1" \/ host = "[::1]") || loopback_v4 host.

(** [assertProductionTransport]. *)
Definition assertProductionTransport `{UrlParser} (name : string) (value : option string) (env : ProcessEnv) : outcome unit :=
  match or_undefined value with
  | None => Value tt
  | Some v =>
      if negb (productionEnv env) then Value tt
      else if env.(allow_insecure) then Value tt
      else match new_URL v with
      | None => Throws ("Caracal SDK: " +:+ name +:+ " is not a valid URL: " +:+ v)
      | Some u =>
          if bool_decide (u.(protocol) = "https:") then Value tt
          else if bool_decide (u.(protocol) = "http:") && isLoopbackHost u.(hostname) then Value tt
          else Throws ("Caracal SDK: " +:+ name +:+ " must use https in production; http is limited to loopback hosts unless CARACAL_ALLOW_INSECURE_CONFIG_URLS=true")
      end
  end.

(** ** Facts *)

(** The attribution of a context. *)
Definition attribution (c : CaracalContext) : string * string * option string * option string * option string * option string * Z :=
  (c.(ctx_zoneId), c.(ctx_applicationId), c.(ctx_sessionId), c.(ctx_delegationId), c.(ctx_parentDelegationId), c.(ctx_subjectAuthorityRecordId), c.(ctx_hop)).

Definition claimed (v : VerifiedClaims) : string * string * option string * option string * option string * option string * Z :=
  (v.(vc_zoneId), v.(vc_applicationId), v.(vc_sessionId), v.(vc_delegationId), v.(vc_parentDelegationId), v.(vc_subjectAuthorityRecordId), v.(vc_hop)).

Lemma fromEnvelope_token env zone app c : fromEnvelope env zone app = inr c -> or_undefined env.(subjectToken) = Some c.(ctx_subjectToken) /\ c.(ctx_zoneId) = zone /\ c.(ctx_applicationId) = app.
Proof. unfold fromEnvelope. destruct (or_undefined (subjectToken env)) as [t|]; [|done]. by intros [= <-]. Qed.

(** A context bound from a request carries the bearer of that request and stays pinned to it, with
    the attribution its verification proved and none from the headers; the application's own token
    is only used for a request without a bearer, and when that was allowed. *)
Theorem inbound_bound cfg identity verify asApplication hs b :
  bindFromHeaders cfg identity verify asApplication hs = Value b ->
  match or_undefined (decodeEnvelope (header_of hs)).(subjectToken) with
  | Some t =>
      b.(ownToken) = false /\ b.(ctx).(ctx_subjectToken) = t
      /\ (forall v claims, verify = Some v -> v t = Value (Some claims) -> attribution b.(ctx) = claimed claims)
      /\ (forall v, verify = Some v -> exists r, v t = Value r)
  | None => asApplication = true /\ b.(ownToken) = true /\ rootToken cfg = Value b.(ctx).(ctx_subjectToken)
  end.
Proof.
  unfold bindFromHeaders. set (env := decodeEnvelope _).
  assert (Hun : forall env' own, match identity with Throws e => Throws e | Value (zone, app) =>
      match as_outcome (fromEnvelope env' zone app) with Throws e => Throws e | Value c => Value {| ctx := c; ownToken := own |} end end = Value b ->
      b.(ownToken) = own /\ or_undefined env'.(subjectToken) = Some b.(ctx).(ctx_subjectToken)).
  { intros env' own. destruct identity as [e|[zone app]]; [done|]. destruct (fromEnvelope env' zone app) as [e|c] eqn:He; [done|]. cbn. intros [= <-].
    apply fromEnvelope_token in He as (? & _). done. }
  destruct (or_undefined (subjectToken env)) as [t|] eqn:Ht.
  - destruct verify as [v|]; [destruct (v t) as [e|[claims|]] eqn:Hv; [done| |]|].
    + destruct (fromVerifiedEnvelope env claims) as [e|c] eqn:Hc; [done|]. cbn. intros [= <-]. cbn.
      apply EnvelopeFacts.verified_attribution in Hc as (Htok & Hz & Ha & Hse & Hd & Hp & Hrec & Hh & _).
      apply or_undefined_Some in Ht as [Ht _]. rewrite Ht in Htok. injection Htok as ->. split_and!; [done|done| |intros v' [= <-]; eauto].
      intros v' claims' [= <-] Hv'. rewrite Hv in Hv'. injection Hv' as <-. unfold attribution, claimed. by rewrite Hz, Ha, Hse, Hd, Hp, Hrec, Hh.
    + intros [-> Hs]%Hun. rewrite Ht in Hs. injection Hs as <-. split_and!; [done|done| |intros v' [= <-]; eauto]. intros v' claims' [= <-] Hv'. congruence.
    + intros [-> Hs]%Hun. rewrite Ht in Hs. injection Hs as <-. split_and!; done.
  - destruct asApplication; [|done]. cbn [negb]. destruct (rootToken cfg) as [e|root] eqn:Hroot; [done|]. intros [-> Hs]%Hun. split_and!; [done|done|].
    apply or_undefined_Some in Hs as [Hs _]. cbn in Hs. by injection Hs as ->.
Qed.

(** The gated operation is retried only once, only with the approval it asked for, and only when that was approved. *)
Theorem approval_retries {A : Type} (fn : option string -> gated A) wait :
  withApproval fn wait = fn None \/ exists id, fn None = ApprovalRequired id /\ (wait id = Value "approved" /\ withApproval fn wait = fn (Some id) \/ exists e, wait id = Throws e /\ withApproval fn wait = Failed e).
Proof.
  unfold withApproval. destruct (fn None) as [a|id|e]; [by left| |by left]. destruct (wait id) as [e|state] eqn:Hw; [right; exists id; eauto|].
  case_bool_decide; subst; [right; exists id; auto|by left].
Qed.

(** In production a configured URL is encrypted or does not leave the host, unless that was waived. *)
Theorem production_urls `{UrlParser} name v env :
  assertProductionTransport name (Some v) env = Value tt -> productionEnv env = true -> env.(allow_insecure) = false -> v <> "" ->
  exists u, new_URL v = Some u /\ (u.(protocol) = "https:" \/ u.(protocol) = "http:" /\ isLoopbackHost u.(hostname) = true).
Proof.
  unfold assertProductionTransport, or_undefined. intros Ha Hp Hi Hv. rewrite bool_decide_eq_false_2 in Ha by done. rewrite Hp, Hi in Ha. cbn in Ha.
  destruct (new_URL v) as [u|]; [|done]. exists u. split; [done|]. case_bool_decide; [by left|]. case_bool_decide; [|done]. cbn in Ha. destruct (isLoopbackHost u.(hostname)); [|done]. by right.
Qed.

End Inbound.
