(* ===== verification/SdkSessions.v ===== *)
(** * Governed Sessions of the SDK

    [packages/sdk/ts/src/coordinator.ts] ([CoordinatorCalls]: the requests to the coordinator and
    the reading of its replies) and [packages/sdk/ts/src/primitives.ts] ([SdkSessions]: starting a
    Session with its retries, running a function in it, delegating; [LeaseHandle]: the handle that
    keeps the lease of a service Session).  The programs are over [Prog]: their calls of the
    coordinator, of token sources, hooks and clocks are answered by whatever the environment
    chooses.  Delays and observability events are left out. *)

From Stdlib Require Import Ascii.
From Stdlib Require String.
From S2P Require Import Prelude.
From S2P Require Import Json.
From S2P Require Import JsonText.
From S2P Require Import Scope.
From S2P Require Import Text.
From S2P Require Import Prog.
From S2P Require Import AdminClient.
From S2P Require Import Store.
From S2P Require Import Sessions.
From S2P Require Import Delegations.
From S2P Require Import ConstraintFacts.
From S2P Require Import Envelope.
From S2P Require Import SdkClient.
Local Open Scope string_scope.
Local Open Scope Z_scope.

Module CoordinatorCalls.
Import AdminClient.

(** What the calls throw: the coordinator's refusal, or any other error.  The message of a refusal,
    a capped copy of the reply, is never read. *)
Inductive exn :=
| CoordinatorError (method : http_method) (path : string) (status : Z) (code requestId : option string)
| Other (message : string).

Record CoordinatorTrace := { tr_traceId : string; tr_traceFlags : option string; tr_traceState : option string }.

Record request := { verb : http_method; url : string; headers : list (string * string); body : option json }.

(** How an exchange ends: no response, or a response whose text may fail to arrive. *)
Inductive answer :=
| NoAnswer (message : string)
| Reply (status : Z) (reply_headers : list (string * string)) (reply_text : string + string).

(** [Lifecycle]. *)
Inductive Lifecycle := Task | Service.

#[export] Instance Lifecycle_eq_dec : EqDecision Lifecycle.
Proof. solve_decision. Defined.

Definition lifecycle_text (l : Lifecycle) : string := match l with Task => "task" | Service => "service" end.

(** [DelegationConstraints] of the SDK. *)
Record DelegationConstraints := {
  resources : option (list string);
  maxDepth : option Z;
  maxHops : option Z;
  c_ttlSeconds : option Z;
  budget : option Z;
  policyApproved : option bool;
  c_expiresAt : option string;
  broadReason : option string
}.

Record StartSessionRequest := {
  s_zoneId : string;
  s_applicationId : string;
  s_subjectAuthorityRecordId : option string;
  s_subjectAuthorityRecordToken : option string;
  s_parentId : option string;
  s_lifecycle : option Lifecycle;
  s_ttlSeconds : option Z;
  s_metadata : json;
  s_labels : option (list string);
  s_idempotencyKey : string;
  s_idempotencyKeyGenerated : bool;
  s_inherits : bool;
  s_trace : CoordinatorTrace
}.

Record StartSessionResponse := {
  res_sessionId : string;
  res_delegationId : option string;
  res_heartbeatDeadlineAt : option string;
  res_leaseGeneration : Z
}.

Record DelegationRequest := {
  d_zoneId : string;
  d_issuerApplicationId : string;
  d_sourceSessionId : string;
  d_targetSessionId : string;
  d_receiverApplicationId : string;
  d_parentEdgeId : option string;
  d_resourceId : option string;
  d_scopes : list string;
  d_constraints : option DelegationConstraints;
  d_ttlSeconds : option Z;
  d_idempotencyKey : option string;
  d_trace : option CoordinatorTrace
}.

Record DelegationResponse := { del_delegationId : string; del_scopes : list string; del_expiresAt : option string }.

Record HeartbeatResponse := { hb_status : option string; hb_heartbeatDeadlineAt : option string; hb_leaseGeneration : Z }.

Notation web := (prog request (fun _ => answer) exn).

(** A member that is left out of the JSON text when it is [undefined]. *)
Definition opt {A : Type} (f : A -> json) (o : option A) : json := match o with Some a => f a | None => JUndefined end.

(** The members of an object that reach the wire. *)
Definition members (fields : list (string * json)) : list (string * json) :=
  omap (fun kv => match kv.2 with JUndefined => None | v => Some (kv.1, v) end) fields.

Definition strings (xs : list string) : json := JArr (JStr <$> xs).

(** A text member of a reply; a member of another type than the declared one is taken as missing. *)
Definition text_member (k : string) (v : json) : option string := match json_get k v with JStr s => Some s | _ => None end.

Definition MAX_SAFE_INTEGER : Z := 9007199254740991.

(** [v ?? 0] when it is a safe integer. *)
Definition generation_member (v : json) : option Z :=
  match v with
  | JUndefined | JNull => Some 0
  | JNum n => if (- MAX_SAFE_INTEGER <=? n) && (n <=? MAX_SAFE_INTEGER) then Some n else None
  | _ => None
  end.

Section client.
Context `{Runtime}.
Variable baseUrl : string.
Variable genSpanId : string.

Definition traceHeaders (trace : option CoordinatorTrace) : list (string * string) :=
  match trace with
  | Some t =>
      if negb (Envelope.hexes 32 t.(tr_traceId)) || bool_decide (t.(tr_traceId) = "00000000000000000000000000000000") then []
      else (("traceparent", Envelope.formatTraceparent genSpanId t.(tr_traceId) t.(tr_traceFlags))
            :: match Envelope.or_undefined t.(tr_traceState) with Some s => [("tracestate", s)] | None => [] end)%list
  | None => []
  end.

(** The error of a refused request. *)
Definition refused (m : http_method) (path : string) (status : Z) (hs : list (string * string)) (text : string) : exn :=
  match default_to (JObj []) (JSON_parse text) with
  | JNull => Other (engine_message "null")
  | error =>
      CoordinatorError m path status (text_member "error" error)
        (match text_member "request_id" error with Some r => Some r | None => ordered_get "x-request-id" hs end)
  end.

(** [call]: [undefined] when there is no content. *)
Definition call (m : http_method) (path bearer : string) (content : option json) (extra : list (string * string)) : web json :=
  Vis {| verb := m; url := GatewayTransport.strip_slashes baseUrl +:+ path;
         headers := merge_headers (((match content with Some _ => [("content-type", "application/json")] | None => [] end) ++ [("authorization", "Bearer " +:+ bearer)])%list) extra;
         body := content |}
    (fun a =>
       match a with
       | NoAnswer message => Throw (Other message)
       | Reply status hs text =>
           if negb ((200 <=? status) && (status <=? 299)) then
             match text with inl e => Throw (Other e) | inr t => Throw (refused m path status hs t) end
           else if status =? 204 then Ret JUndefined
           else match text with
                | inl e => Throw (Other e)
                | inr t => if bool_decide (t = "") then Ret JUndefined
                           else match JSON_parse t with Some v => Ret v | None => Throw (Other (engine_message "JSON.parse")) end
                end
       end).

Definition zone_path (zoneId rest : string) : string := "/zones/" +:+ encodeURIComponent zoneId +:+ rest.
Definition agent_path (zoneId sessionId rest : string) : string := zone_path zoneId ("/agents/" +:+ encodeURIComponent sessionId +:+ rest).

Definition start_body (req : StartSessionRequest) : json :=
  JObj (members
    [("application_id", JStr req.(s_applicationId)); ("subject_session_id", opt JStr req.(s_subjectAuthorityRecordId));
     ("subject_token", opt JStr req.(s_subjectAuthorityRecordToken)); ("parent_id", opt JStr req.(s_parentId));
     ("lifecycle", opt (fun l => JStr (lifecycle_text l)) req.(s_lifecycle)); ("ttl_seconds", opt JNum req.(s_ttlSeconds));
     ("metadata", req.(s_metadata)); ("labels", opt strings req.(s_labels));
     ("parent_authority", JStr (if req.(s_inherits) then "inherit" else "none"))]).

Definition startCoordinatorSession (bearer : string) (req : StartSessionRequest) : web StartSessionResponse :=
  let keyed := if bool_decide (req.(s_idempotencyKey) = "") then []
               else (("idempotency-key", req.(s_idempotencyKey)) :: if req.(s_idempotencyKeyGenerated) then [("idempotency-key-kind", "generated")] else [])%list in
  res ← call POST (zone_path req.(s_zoneId) "/agents") bearer (Some (start_body req)) (merge_headers keyed (traceHeaders (Some req.(s_trace))));
  match Envelope.or_undefined (text_member "agent_session_id" res) with
  | None => Throw (Other "coordinator session response missing agent_session_id")
  | Some id =>
      match generation_member (json_get "lease_generation" res) with
      | Some g =>
          if (g <? 0) || (bool_decide (req.(s_lifecycle) = Some Service) && (g <? 1)) then Throw (Other "coordinator session response missing valid lease_generation")
          else Ret {| res_sessionId := id; res_delegationId := text_member "delegation_edge_id" res;
                      res_heartbeatDeadlineAt := text_member "heartbeat_deadline_at" res; res_leaseGeneration := g |}
      | None => Throw (Other "coordinator session response missing valid lease_generation")
      end
  end.

Definition terminateSession (bearer zoneId sessionId : string) (leaseGeneration : option Z) (trace : option CoordinatorTrace) : web unit :=
  call DELETE (agent_path zoneId sessionId "") bearer ((fun g => JObj [("lease_generation", JNum g)]) <$> leaseGeneration) (traceHeaders trace);; Ret tt.

(** The constraints as [createDelegation] sends them. *)
Definition constraint_fields (c : DelegationConstraints) : list (string * json) :=
  members
    [("resources", opt strings c.(resources)); ("max_depth", opt JNum c.(maxDepth)); ("max_hops", opt JNum c.(maxHops));
     ("ttl_seconds", opt JNum c.(c_ttlSeconds)); ("policy_approved", opt JBool c.(policyApproved));
     ("expires_at", opt JStr c.(c_expiresAt)); ("broad_reason", opt JStr c.(broadReason))].

Definition delegation_body (req : DelegationRequest) : json :=
  JObj (members
    [("issuer_application_id", JStr req.(d_issuerApplicationId)); ("source_session_id", JStr req.(d_sourceSessionId));
     ("target_session_id", JStr req.(d_targetSessionId)); ("receiver_application_id", JStr req.(d_receiverApplicationId));
     ("parent_edge_id", opt JStr req.(d_parentEdgeId)); ("resource_id", opt JStr req.(d_resourceId)); ("scopes", strings req.(d_scopes));
     ("constraints", opt (fun c => JObj (constraint_fields c)) req.(d_constraints)); ("ttl_seconds", opt JNum req.(d_ttlSeconds))]).

Definition text_list (v : json) : list string := match v with JArr xs => omap (fun x => match x with JStr s => Some s | _ => None end) xs | _ => [] end.

Definition createDelegation (bearer : string) (req : DelegationRequest) : web DelegationResponse :=
  res ← call POST (zone_path req.(d_zoneId) "/delegations") bearer (Some (delegation_body req))
          (merge_headers (match req.(d_idempotencyKey) with Some k => if bool_decide (k = "") then [] else [("idempotency-key", k)] | None => [] end) (traceHeaders req.(d_trace)));
  match Envelope.or_undefined (text_member "delegation_edge_id" res) with
  | None => Throw (Other "coordinator delegation response missing delegation_edge_id")
  | Some id => Ret {| del_delegationId := id; del_scopes := text_list (json_get "scopes" res); del_expiresAt := text_member "expires_at" res |}
  end.

Definition revokeDelegation (bearer zoneId delegationId : string) (trace : option CoordinatorTrace) : web unit :=
  call PATCH (zone_path zoneId ("/delegations/" +:+ encodeURIComponent delegationId +:+ "/revoke")) bearer None (traceHeaders trace);; Ret tt.

Record InboundDelegation := { in_delegationId : string; in_status : string; in_expiresAt : option string }.

Definition inbound_item (item : json) : option InboundDelegation :=
  (fun id => {| in_delegationId := id; in_status := default_to "" (text_member "status" item); in_expiresAt := text_member "expires_at" item |})
  <$> Envelope.or_undefined (text_member "id" item).

Definition items_of (v : json) : list json := match json_get "items" v with JArr xs => xs | _ => [] end.

Definition listInboundDelegations (bearer zoneId sessionId : string) : web (list InboundDelegation) :=
  res ← call GET (zone_path zoneId ("/delegations/inbound/" +:+ encodeURIComponent sessionId)) bearer None [];
  Ret (omap inbound_item (items_of res)).

Definition getInboundDelegation (bearer zoneId sessionId delegationId : string) : web InboundDelegation :=
  res ← call GET (zone_path zoneId ("/delegations/inbound/" +:+ encodeURIComponent sessionId +:+ "/" +:+ encodeURIComponent delegationId)) bearer None [];
  match res with
  | JUndefined | JNull => Throw (Other (engine_message "undefined"))
  | _ =>
      let item := match Envelope.or_undefined (text_member "id" res) with
                  | Some _ => Some res
                  | None => find_first (fun c => bool_decide (text_member "id" c = Some delegationId)) (items_of res)
                  end in
      match item ≫= inbound_item with
      | Some d => Ret d
      | None => Throw (Other "coordinator inbound delegation response missing id")
      end
  end.

(** The lease a reply grants. *)
Definition lease_of (message : string) (agent : json) : web HeartbeatResponse :=
  match generation_member (json_get "lease_generation" agent) with
  | Some g =>
      if g <? 1 then Throw (Other message)
      else Ret {| hb_status := text_member "status" agent; hb_heartbeatDeadlineAt := text_member "heartbeat_deadline_at" agent; hb_leaseGeneration := g |}
  | None => Throw (Other message)
  end.

Definition heartbeatSession (bearer zoneId sessionId : string) (leaseGeneration : Z) (status : option string) (trace : option CoordinatorTrace) : web HeartbeatResponse :=
  res ← call POST (agent_path zoneId sessionId "/heartbeat") bearer
          (Some (JObj [("status", JStr (default_to "healthy" status)); ("lease_generation", JNum leaseGeneration)])) (traceHeaders trace);
  lease_of "coordinator heartbeat response missing valid lease_generation" (json_get "agent" res).

Definition acquireSessionLease (bearer zoneId sessionId : string) (trace : option CoordinatorTrace) : web HeartbeatResponse :=
  res ← call POST (agent_path zoneId sessionId "/lease") bearer None (traceHeaders trace);
  lease_of "coordinator lease response missing valid lease_generation" res.

End client.

End CoordinatorCalls.

Module SdkSessions.
Import CoordinatorCalls.

Definition SESSION_RETRIES : nat := 2.

(** A Session the coordinator no longer holds live counts as retired. *)
Definition isGone (e : exn) : bool :=
  match e with
  | CoordinatorError _ _ status code _ =>
      (status =? 404)
      || ((status =? 409)
          && bool_decide (default_to "" code ∈ ["already_terminated"; "session_not_live"; "session_not_found_or_not_active";
                                                "session_lease_fenced"; "session_subject_inactive"]))
  | Other _ => false
  end.

Definition is_status (n : Z) (e : exn) : bool := match e with CoordinatorError _ _ status _ _ => status =? n | Other _ => false end.

(** A failure worth retrying: no answer of the coordinator, or a server error. *)
Definition transient (e : exn) : bool := match e with CoordinatorError _ _ status _ _ => 500 <=? status | Other _ => true end.

(** [Authority]. *)
Inductive Authority :=
| inherit
| none
| narrow (scopes : list string) (resourceId : option string) (constraints : option DelegationConstraints) (ttlSeconds : Z).

(** [Authority.narrow] with its check of the lifetime. *)
Definition Authority_narrow (scopes : list string) (resourceId : option string) (constraints : option DelegationConstraints) (ttlSeconds : Z) : exn + Authority :=
  if ttlSeconds <=? 0 then inl (Other "Authority.narrow ttlSeconds must be a positive integer") else inr (narrow scopes resourceId constraints ttlSeconds).

(** A context with what is local to the process: whether its token is the process's own and
    whether it can be refreshed. *)
Record Context := { ctx : Envelope.CaracalContext; ownToken : bool; hasSource : bool }.

Record EstablishInput := {
  i_zoneId : string;
  i_applicationId : string;
  i_subjectToken : string;
  i_tokenSource : bool;
  i_invalidate : bool;
  i_subjectAuthorityRecordId : option string;
  i_subjectAuthorityRecordToken : option string;
  i_parentSessionId : option string;
  i_authority : option Authority;
  i_ttlSeconds : option Z;
  i_metadata : json;
  i_labels : option (list string);
  i_traceId : option string;
  i_idempotencyKey : option string;
  i_onSessionStart : bool;
  i_onSessionEnd : bool
}.

(** What the programs ask of their environment, with the answers: the coordinator, the two token
    sources, the abort signal, pauses, fresh identifiers, hooks, the function to run, the log. *)
Section sessions.
Context (V : Type).

Inductive ask :=
| Start (bearer : string) (req : StartSessionRequest)
| Delegate (bearer : string) (req : DelegationRequest)
| Terminate (bearer zoneId sessionId : string) (leaseGeneration : option Z) (trace : CoordinatorTrace)
| Acquire (bearer zoneId sessionId : string)
| Token
| ParentToken
| Invalidate
| Aborted
| Pause (after_ : nat)
| RandomUUID
| GenTraceId
| StartHook (c : Context)
| EndHook (c : Context)
| Body (c : Context)
| Warn (message : string).

Definition told (a : ask) : Type :=
  match a with
  | Start _ _ => exn + StartSessionResponse
  | Delegate _ _ => exn + DelegationResponse
  | Terminate _ _ _ _ _ => exn + unit
  | Acquire _ _ _ => exn + HeartbeatResponse
  | Token | ParentToken => exn + string
  | Invalidate | Warn _ => unit
  | Aborted => bool
  | Pause _ => exn + unit
  | RandomUUID | GenTraceId => string
  | StartHook _ | EndHook _ => exn + unit
  | Body _ => exn + V
  end.

Notation sdk := (prog ask told exn).

(** A call whose failure is thrown. *)
Definition must {A : Type} (a : ask) (as_ : told a -> exn + A) : sdk A := Vis a (fun r => lift (as_ r)).

Definition bearer (input : EstablishInput) (token : string) : sdk string := if input.(i_tokenSource) then must Token id else Ret token.

(** [contextBearer] of the parent. *)
Definition contextBearer (c : Context) : sdk string :=
  if c.(ownToken) && c.(hasSource) then must ParentToken id else Ret c.(ctx).(Envelope.ctx_subjectToken).

(** The loop of [establishSession] that starts the Session: [rounds] more are possible.  Only
    the refresh of the token can lead from round 2 to round 3, and happens once. *)
Fixpoint start_loop (rounds : nat) (input : EstablishInput) (req : StartSessionRequest) (attempt : nat) (refreshed : bool) (token : string) :
    sdk (StartSessionResponse * string) :=
  Vis (Start token req) (fun r =>
    match r with
    | inr res => Ret (res, token)
    | inl e =>
        Vis Aborted (fun aborted =>
          if (aborted : bool) then Throw e
          else if is_status 401 e && negb refreshed && input.(i_invalidate) && input.(i_tokenSource) then
            match rounds with
            | O => Throw e
            | S rounds => Vis Invalidate (fun _ => must (Pause 0) id;; t ← must Token id; start_loop rounds input req (S attempt) true t)
            end
          else if negb (transient e) || (SESSION_RETRIES <=? attempt)%nat then Throw e
          else match rounds with
               | O => Throw e
               | S rounds => must (Pause attempt) id;; start_loop rounds input req (S attempt) refreshed token
               end)
    end).

Definition validateIdempotencyKey (key : string) : bool :=
  negb (bool_decide (key = "")) && bool_decide (key = trim key) && (String.length key <=? 255)%nat
  && all_chars (fun c => (32 <=? nat_of_ascii c)%nat && negb (bool_decide (nat_of_ascii c = 127%nat))) key.

(** [retireAfterFailure]. *)
Definition retireAfterFailure (input : EstablishInput) (token sessionId : string) (leaseGeneration : option Z) (trace : CoordinatorTrace) : sdk unit :=
  let warn := Vis (Warn ("caracal: terminate failed for session " +:+ sessionId +:+ "; the coordinator TTL sweeper will retire it")) (fun _ => Ret tt) in
  try_catch (bearer input token)
    (fun b => Vis (Terminate b input.(i_zoneId) sessionId leaseGeneration trace) (fun r =>
       match r with inr _ => Ret tt | inl e => if isGone e then Ret tt else warn end))
    (fun e => if isGone e then Ret tt else warn).

(** [retire]. *)
Definition retire (input : EstablishInput) (token sessionId : string) (trace : CoordinatorTrace) : sdk unit :=
  try_catch (bearer input token)
    (fun b => Vis (Terminate b input.(i_zoneId) sessionId None trace) (fun r =>
       match r with inr _ => Ret tt | inl e => if isGone e then Ret tt else Throw e end))
    (fun e => if isGone e then Ret tt else Throw e).

Record Established := { es_sessionId : string; es_ctx : Context; es_token : string; es_deadline : option string; es_leaseGeneration : Z; es_trace : CoordinatorTrace }.

(** The request [establishSession] starts with. *)
Definition start_request (input : EstablishInput) (lifecycle : option Lifecycle) (parentId : option string) (key : string) (trace : CoordinatorTrace) : StartSessionRequest :=
  {| s_zoneId := input.(i_zoneId); s_applicationId := input.(i_applicationId); s_subjectAuthorityRecordId := input.(i_subjectAuthorityRecordId);
     s_subjectAuthorityRecordToken := input.(i_subjectAuthorityRecordToken); s_parentId := parentId; s_lifecycle := lifecycle;
     s_ttlSeconds := if bool_decide (lifecycle = Some Service) then None else input.(i_ttlSeconds); s_metadata := input.(i_metadata); s_labels := input.(i_labels);
     s_idempotencyKey := key; s_idempotencyKeyGenerated := match input.(i_idempotencyKey) with None => true | Some _ => false end;
     s_inherits := match input.(i_authority) with None | Some inherit => true | _ => false end; s_trace := trace |}.

(** The delegation of a narrowed child. *)
Definition narrowing (input : EstablishInput) (p : Context) (source target : string) (scopes : list string) (resourceId : option string)
    (constraints : option DelegationConstraints) (ttlSeconds : Z) (trace : CoordinatorTrace) : DelegationRequest :=
  {| d_zoneId := input.(i_zoneId); d_issuerApplicationId := p.(ctx).(Envelope.ctx_applicationId); d_sourceSessionId := source; d_targetSessionId := target;
     d_receiverApplicationId := input.(i_applicationId); d_parentEdgeId := p.(ctx).(Envelope.ctx_delegationId); d_resourceId := resourceId; d_scopes := scopes;
     d_constraints := constraints; d_ttlSeconds := Some ttlSeconds; d_idempotencyKey := None; d_trace := Some trace |}.

(** The context of the new Session. *)
Definition child_context (input : EstablishInput) (parent : option Context) (token sessionId : string) (delegationId : option string) (hop : Z) (trace : CoordinatorTrace) : Context :=
  {| ctx := {| Envelope.ctx_subjectToken := token; Envelope.ctx_zoneId := input.(i_zoneId); Envelope.ctx_applicationId := input.(i_applicationId);
               Envelope.ctx_sessionId := Some sessionId; Envelope.ctx_delegationId := delegationId;
               Envelope.ctx_parentDelegationId := parent ≫= fun p => p.(ctx).(Envelope.ctx_delegationId);
               Envelope.ctx_subjectAuthorityRecordId := match input.(i_subjectAuthorityRecordId) with
                                                        | Some r => Some r
                                                        | None => parent ≫= fun p => p.(ctx).(Envelope.ctx_subjectAuthorityRecordId)
                                                        end;
               Envelope.ctx_traceId := Some trace.(tr_traceId); Envelope.ctx_traceFlags := parent ≫= fun p => p.(ctx).(Envelope.ctx_traceFlags);
               Envelope.ctx_traceState := parent ≫= fun p => p.(ctx).(Envelope.ctx_traceState);
               Envelope.ctx_baggage := parent ≫= fun p => p.(ctx).(Envelope.ctx_baggage); Envelope.ctx_hop := hop |};
     ownToken := true; hasSource := input.(i_tokenSource) |}.

Definition parent_session (parent : option Context) : option string := parent ≫= fun p => p.(ctx).(Envelope.ctx_sessionId).

(** [establishSession] once the request is made. *)
Definition establish_with (input : EstablishInput) (lifecycle : option Lifecycle) (parent : option Context) (req : StartSessionRequest) : sdk Established :=
  let trace := req.(s_trace) in
  '(res, token) ← start_loop (S SESSION_RETRIES) input req 0 false input.(i_subjectToken);
  let inherited_hop := match res.(res_delegationId), parent with
                       | Some d, Some p => if bool_decide (d = "") then p.(ctx).(Envelope.ctx_hop) else p.(ctx).(Envelope.ctx_hop) + 1
                       | None, Some p => p.(ctx).(Envelope.ctx_hop)
                       | _, None => 0
                       end in
  let delegated : sdk (option string * Z) :=
    match input.(i_authority) with
    | Some (narrow scopes resourceId constraints ttlSeconds) =>
        match parent, Envelope.or_undefined (parent_session parent) with
        | Some p, Some source =>
            b ← contextBearer p;
            d ← must (Delegate b (narrowing input p source res.(res_sessionId) scopes resourceId constraints ttlSeconds trace)) id;
            Ret (Some d.(del_delegationId), p.(ctx).(Envelope.ctx_hop) + 1)
        | _, _ => Throw (Other "Authority.narrow requires an active parent session")
        end
    | _ => Ret (res.(res_delegationId), inherited_hop)
    end in
  try_catch delegated
    (fun dh => Ret {| es_sessionId := res.(res_sessionId); es_ctx := child_context input parent token res.(res_sessionId) dh.1 dh.2 trace; es_token := token;
                      es_deadline := res.(res_heartbeatDeadlineAt); es_leaseGeneration := res.(res_leaseGeneration); es_trace := trace |})
    (fun e =>
       retireAfterFailure input token res.(res_sessionId) (if bool_decide (lifecycle = Some Service) then Some res.(res_leaseGeneration) else None) trace;;
       Throw e).

(** [establishSession]; [parent] is the context bound on the calling path. *)
Definition establishSession (input : EstablishInput) (lifecycle : option Lifecycle) (parent : option Context) : sdk Established :=
  let bound := Envelope.or_undefined (parent_session parent) in
  match Envelope.or_undefined input.(i_parentSessionId), bound with
  | Some asked, Some s => if bool_decide (asked = s) then Ret tt else Throw (Other "parentSessionId must match the Session bound on the calling context")
  | _, _ => Ret tt
  end;;
  let parentId := match input.(i_parentSessionId) with Some p => Some p | None => parent_session parent end in
  traceId ← match input.(i_traceId) with
            | Some t => Ret t
            | None => match parent ≫= fun p => p.(ctx).(Envelope.ctx_traceId) with Some t => Ret t | None => Vis GenTraceId Ret end
            end;
  let trace := {| tr_traceId := traceId; tr_traceFlags := parent ≫= fun p => p.(ctx).(Envelope.ctx_traceFlags);
                  tr_traceState := parent ≫= fun p => p.(ctx).(Envelope.ctx_traceState) |} in
  key ← match input.(i_idempotencyKey) with
        | Some k => if validateIdempotencyKey k then Ret k
                    else Throw (Other "idempotencyKey must be non-empty, at most 255 UTF-8 bytes, and contain no surrounding whitespace or control characters")
        | None => Vis RandomUUID Ret
        end;
  establish_with input lifecycle parent (start_request input lifecycle parentId key trace).

(** How the end hook and the retirement of a Session turn the outcome of its body: an error of the
    hook replaces it, a failure to retire a Session whose body succeeded is thrown. *)
Definition wind_up (input : EstablishInput) (est : Established) (started : bool) (outcome : exn + V) : sdk V :=
  let trace := es_trace est in
  let finish (after : exn + V) : sdk V :=
    match outcome with
    | inl _ => retireAfterFailure input est.(es_token) est.(es_sessionId) None trace;; lift after
    | inr _ => retire input est.(es_token) est.(es_sessionId) trace;; lift after
    end in
  if started && input.(i_onSessionEnd) then Vis (EndHook est.(es_ctx)) (fun r => finish (match r with inl e => inl e | inr _ => outcome end))
  else finish outcome.

(** [session(input, fn)]. *)
Definition session (input : EstablishInput) (parent : option Context) : sdk V :=
  est ← establishSession input None parent;
  let run := Vis (Body est.(es_ctx)) (fun r => wind_up input est true r) in
  if input.(i_onSessionStart) then
    Vis (StartHook est.(es_ctx)) (fun r => match r with inl e => wind_up input est false (inl e) | inr _ => run end)
  else run.

(** [startSession] up to its handle. *)
Definition startSession (input : EstablishInput) (parent : option Context) : sdk Established :=
  est ← establishSession input (Some Service) parent;
  (if input.(i_onSessionStart) then
     Vis (StartHook est.(es_ctx)) (fun r =>
       match r with
       | inr _ => Ret est
       | inl e => bind (retireAfterFailure input est.(es_token) est.(es_sessionId) (Some est.(es_leaseGeneration)) est.(es_trace)) (fun _ => Throw e)
       end)
   else Ret est : sdk Established).

(** [acquireSessionLease] with one refresh of a refused token. *)
Definition acquire (input : EstablishInput) (token sessionId : string) : sdk (HeartbeatResponse * string) :=
  Vis (Acquire token input.(i_zoneId) sessionId) (fun r =>
    match r with
    | inr first => Ret (first, token)
    | inl e =>
        if is_status 401 e && input.(i_invalidate) && input.(i_tokenSource) then
          Vis Invalidate (fun _ => bind (must Token id) (fun t => bind (must (Acquire t input.(i_zoneId) sessionId) id) (fun first => Ret (first, t))))
        else Throw e
    end).

(** [attachSession] up to its handle: the context and the lease it took. *)
Definition attachSession (input : EstablishInput) (sessionId : string) : sdk (Context * HeartbeatResponse) :=
  first_token ← bearer input input.(i_subjectToken);
  '(first, token) ← acquire input first_token sessionId;
  traceId ← (match input.(i_traceId) with Some t => Ret t | None => Vis GenTraceId Ret end : sdk string);
  Ret ({| ctx := {| Envelope.ctx_subjectToken := token; Envelope.ctx_zoneId := input.(i_zoneId); Envelope.ctx_applicationId := input.(i_applicationId);
                    Envelope.ctx_sessionId := Some sessionId; Envelope.ctx_delegationId := None; Envelope.ctx_parentDelegationId := None;
                    Envelope.ctx_subjectAuthorityRecordId := None; Envelope.ctx_traceId := Some traceId; Envelope.ctx_traceFlags := None;
                    Envelope.ctx_traceState := None; Envelope.ctx_baggage := None; Envelope.ctx_hop := 0 |};
          ownToken := true; hasSource := input.(i_tokenSource) |}, first).

(** What [delegate] hands over. *)
Record DelegateInput := {
  toSessionId : string;
  toApplicationId : string;
  di_resourceId : option string;
  di_scopes : list string;
  di_constraints : option DelegationConstraints;
  di_ttlSeconds : Z
}.

(** The loop of [delegate]: one retry. *)
Fixpoint delegate_loop (rounds : nat) (c : Context) (req : DelegationRequest) (attempt : nat) : sdk DelegationResponse :=
  try_catch (b ← contextBearer c; must (Delegate b req) id) Ret (fun e =>
    Vis Aborted (fun aborted =>
      if (aborted : bool) then Throw e
      else if negb (transient e) || (1 <=? attempt)%nat then Throw e
      else match rounds with
           | O => Throw e
           | S rounds => must (Pause attempt) id;; delegate_loop rounds c req (S attempt)
           end)).

(** [delegate]. *)
Definition delegate (input : DelegateInput) (current : option Context) : sdk DelegationResponse :=
  match current with
  | None => Throw (Other "delegate requires a Caracal context bound on this path")
  | Some c =>
      match Envelope.or_undefined c.(ctx).(Envelope.ctx_sessionId) with
      | None => Throw (Other "delegate requires an active session in context")
      | Some source =>
          if input.(di_ttlSeconds) <=? 0 then Throw (Other "delegate ttlSeconds must be a positive integer")
          else
            key ← Vis RandomUUID Ret;
            traceId ← match c.(ctx).(Envelope.ctx_traceId) with Some t => Ret t | None => Vis GenTraceId Ret end;
            delegate_loop 1 c
              {| d_zoneId := c.(ctx).(Envelope.ctx_zoneId); d_issuerApplicationId := c.(ctx).(Envelope.ctx_applicationId); d_sourceSessionId := source;
                 d_targetSessionId := input.(toSessionId); d_receiverApplicationId := input.(toApplicationId); d_parentEdgeId := c.(ctx).(Envelope.ctx_delegationId);
                 d_resourceId := input.(di_resourceId); d_scopes := input.(di_scopes); d_constraints := input.(di_constraints);
                 d_ttlSeconds := Some input.(di_ttlSeconds); d_idempotencyKey := Some key;
                 d_trace := Some {| tr_traceId := traceId; tr_traceFlags := c.(ctx).(Envelope.ctx_traceFlags); tr_traceState := c.(ctx).(Envelope.ctx_traceState) |} |} 0
      end
  end.

(** [acceptDelegation]. *)
Definition acceptDelegation (c : Context) (delegationId : string) : Context :=
  {| ctx := {| Envelope.ctx_subjectToken := c.(ctx).(Envelope.ctx_subjectToken); Envelope.ctx_zoneId := c.(ctx).(Envelope.ctx_zoneId);
               Envelope.ctx_applicationId := c.(ctx).(Envelope.ctx_applicationId); Envelope.ctx_sessionId := c.(ctx).(Envelope.ctx_sessionId);
               Envelope.ctx_delegationId := Some delegationId; Envelope.ctx_parentDelegationId := c.(ctx).(Envelope.ctx_delegationId);
               Envelope.ctx_subjectAuthorityRecordId := c.(ctx).(Envelope.ctx_subjectAuthorityRecordId); Envelope.ctx_traceId := c.(ctx).(Envelope.ctx_traceId);
               Envelope.ctx_traceFlags := c.(ctx).(Envelope.ctx_traceFlags); Envelope.ctx_traceState := c.(ctx).(Envelope.ctx_traceState);
               Envelope.ctx_baggage := c.(ctx).(Envelope.ctx_baggage); Envelope.ctx_hop := c.(ctx).(Envelope.ctx_hop) + 1 |};
     ownToken := c.(ownToken); hasSource := c.(hasSource) |}.

End sessions.

(** The constraints as the coordinator reads them. *)
Definition as_read (c : DelegationConstraints) : Constraints.DelegationConstraints :=
  Constraints.MkConstraints c.(resources) c.(maxDepth) c.(maxHops) None c.(c_ttlSeconds) c.(policyApproved) c.(c_expiresAt) c.(broadReason).

Lemma sent_constraints c : JObj (constraint_fields c) = constraints_object (as_read c).
Proof. destruct c as [[] [] [] [] b [] [] []]; reflexivity. Qed.

Lemma either_argument `{Env} c : normalizedConstraints JUndefined (constraints_object c) None = normalizedConstraints (constraints_object c) JUndefined None.
Proof. destruct c as [[] [] [] [] [] [] [] []]; reflexivity. Qed.

Lemma read_back `{Env} c :
  constraints_valid (as_read c) -> normalizedConstraints JUndefined (JObj (constraint_fields c)) None = inr (as_read c).
Proof. intros Hv. rewrite sent_constraints, either_argument. by apply constraints_roundtrip. Qed.

(** What the body of a delegation request asks for. *)
Record asks (body : json) (scopes : list string) (resourceId : option string) (constraints : option DelegationConstraints) (ttlSeconds : Z) : Prop := {
  as_scopes : json_get "scopes" body = strings scopes;
  as_resource : json_get "resource_id" body = opt JStr resourceId;
  as_ttl : json_get "ttl_seconds" body = JNum ttlSeconds;
  as_constraints : json_get "constraints" body = opt (fun c => constraints_object (as_read c)) constraints;
  as_understood : forall `{Env} c, constraints = Some c -> constraints_valid (as_read c) ->
    normalizedConstraints JUndefined (json_get "constraints" body) None = inr (as_read c)
}.

Lemma body_asks req ttlSeconds : req.(d_ttlSeconds) = Some ttlSeconds -> asks (delegation_body req) req.(d_scopes) req.(d_resourceId) req.(d_constraints) ttlSeconds.
Proof.
  destruct req as [z i s t r pe rid sc cs ttl key tr]. cbn. intros ->.
  assert (forall c, json_get "constraints" (delegation_body {| d_zoneId := z; d_issuerApplicationId := i; d_sourceSessionId := s; d_targetSessionId := t;
    d_receiverApplicationId := r; d_parentEdgeId := pe; d_resourceId := rid; d_scopes := sc; d_constraints := Some c; d_ttlSeconds := Some ttlSeconds;
    d_idempotencyKey := key; d_trace := tr |}) = JObj (constraint_fields c)) as Hc by (by destruct pe, rid).
  split; [by destruct pe, rid, cs..| |].
  - destruct cs as [c|]; [|by destruct pe, rid]. rewrite Hc. apply sent_constraints.
  - intros E c -> Hv. rewrite Hc. by apply read_back.
Qed.

(** ** What a run has shown so far *)

Section governed.
Context (V : Type) (input : EstablishInput) (parent : option Context).

(** The request of the attempts to start the Session and their number, what the coordinator
    answered, the delegation it created for it, the termination requests and whether the Session is
    known to be gone, why no bearer could be had, the outcome of the function, the error of the end
    hook. *)
Record Known := {
  k_req : option StartSessionRequest;
  k_starts : nat;
  k_live : option StartSessionResponse;
  k_granted : option string;
  k_asked : nat;
  k_retired : bool;
  k_noBearer : option exn;
  k_ran : option (exn + V);
  k_hook : option exn
}.

Definition unknown : Known :=
  {| k_req := None; k_starts := 0; k_live := None; k_granted := None; k_asked := 0; k_retired := false; k_noBearer := None; k_ran := None; k_hook := None |}.

Definition learn (k : Known) (a : ask) : told V a -> Known :=
  match a with
  | Start _ req => fun r =>
      {| k_req := Some req; k_starts := S k.(k_starts); k_live := match r with inr res => Some res | inl _ => k.(k_live) end; k_granted := k.(k_granted);
         k_asked := k.(k_asked); k_retired := k.(k_retired); k_noBearer := k.(k_noBearer); k_ran := k.(k_ran); k_hook := k.(k_hook) |}
  | Delegate _ _ => fun r =>
      {| k_req := k.(k_req); k_starts := k.(k_starts); k_live := k.(k_live);
         k_granted := match r with inr d => Some d.(del_delegationId) | inl _ => k.(k_granted) end;
         k_asked := k.(k_asked); k_retired := k.(k_retired); k_noBearer := k.(k_noBearer); k_ran := k.(k_ran); k_hook := k.(k_hook) |}
  | Terminate _ _ _ _ _ => fun r =>
      {| k_req := k.(k_req); k_starts := k.(k_starts); k_live := k.(k_live); k_granted := k.(k_granted); k_asked := S k.(k_asked);
         k_retired := match r with inr _ => true | inl e => isGone e end; k_noBearer := k.(k_noBearer); k_ran := k.(k_ran); k_hook := k.(k_hook) |}
  | Token => fun r =>
      {| k_req := k.(k_req); k_starts := k.(k_starts); k_live := k.(k_live); k_granted := k.(k_granted); k_asked := k.(k_asked); k_retired := k.(k_retired);
         k_noBearer := match r, k.(k_live) with inl e, Some _ => Some e | _, _ => k.(k_noBearer) end; k_ran := k.(k_ran); k_hook := k.(k_hook) |}
  | Body _ => fun r =>
      {| k_req := k.(k_req); k_starts := k.(k_starts); k_live := k.(k_live); k_granted := k.(k_granted); k_asked := k.(k_asked); k_retired := k.(k_retired);
         k_noBearer := k.(k_noBearer); k_ran := Some r; k_hook := k.(k_hook) |}
  | EndHook _ => fun r =>
      {| k_req := k.(k_req); k_starts := k.(k_starts); k_live := k.(k_live); k_granted := k.(k_granted); k_asked := k.(k_asked); k_retired := k.(k_retired);
         k_noBearer := k.(k_noBearer); k_ran := k.(k_ran); k_hook := match r with inl e => Some e | inr _ => None end |}
  | _ => fun _ => k
  end.

(** The delegation the Session runs under: the narrowing one just created, or the one the
    coordinator mirrored. *)
Definition held (k : Known) (res : StartSessionResponse) : option string :=
  match input.(i_authority) with Some (narrow _ _ _ _) => k.(k_granted) | _ => res.(res_delegationId) end.

(** The slice a narrowed Session was to get, as the request for it is sent. *)
Definition narrows (req : DelegationRequest) : Prop :=
  exists scopes resourceId constraints ttlSeconds p,
    input.(i_authority) = Some (narrow scopes resourceId constraints ttlSeconds) /\ parent = Some p
    /\ Some req.(d_sourceSessionId) = p.(ctx).(Envelope.ctx_sessionId) /\ req.(d_parentEdgeId) = p.(ctx).(Envelope.ctx_delegationId)
    /\ req.(d_issuerApplicationId) = p.(ctx).(Envelope.ctx_applicationId) /\ req.(d_receiverApplicationId) = input.(i_applicationId)
    /\ asks (delegation_body req) scopes resourceId constraints ttlSeconds.

(** The context [c] is that of the Session [res] and of what was granted to it. *)
Definition bound_to (k : Known) (res : StartSessionResponse) (c : Context) : Prop :=
  k.(k_live) = Some res /\ c.(ctx).(Envelope.ctx_sessionId) = Some res.(res_sessionId) /\ c.(ctx).(Envelope.ctx_delegationId) = held k res
  /\ (match input.(i_authority) with Some (narrow _ _ _ _) => is_Some k.(k_granted) | _ => True end).

(** The calls a run may make, given what it has shown. *)
Definition allow (k : Known) (a : ask) : Prop :=
  match a with
  | Start _ req =>
      k.(k_live) = None /\ (k.(k_starts) < 4)%nat /\ (k.(k_req) = None \/ k.(k_req) = Some req)
      /\ req.(s_inherits) = match input.(i_authority) with None | Some inherit => true | _ => false end
  | Delegate _ req =>
      exists res, k.(k_live) = Some res /\ k.(k_asked) = 0%nat /\ k.(k_ran) = None /\ req.(d_targetSessionId) = res.(res_sessionId) /\ narrows req
  | Terminate _ zoneId sessionId _ _ => exists res, k.(k_live) = Some res /\ k.(k_asked) = 0%nat /\ zoneId = input.(i_zoneId) /\ sessionId = res.(res_sessionId)
  | StartHook c | Body c => k.(k_asked) = 0%nat /\ k.(k_ran) = None /\ exists res, bound_to k res c
  | EndHook c => k.(k_asked) = 0%nat /\ is_Some k.(k_ran) /\ exists res, bound_to k res c
  | _ => True
  end.

(** How a run may end. *)
Definition wound_up (k : Known) (o : exn + V) : Prop :=
  match k.(k_live) with
  | None => k.(k_ran) = None /\ k.(k_asked) = 0%nat /\ exists e, o = inl e
  | Some _ =>
      (k.(k_asked) = 1%nat \/ (k.(k_asked) = 0%nat /\ is_Some k.(k_noBearer)))
      /\ match o with
         | inr v => k.(k_ran) = Some (inr v) /\ k.(k_hook) = None /\ (k.(k_retired) = true \/ exists e, k.(k_noBearer) = Some e /\ isGone e = true)
         | inl x => forall e, k.(k_ran) = Some (inl e) -> x = default_to e k.(k_hook)
         end
  end.

Notation mon := (monitored allow learn).

(** Nothing has been answered yet, or the Session was started and nothing more. *)
Definition waiting (k : Known) : Prop :=
  k.(k_live) = None /\ k.(k_granted) = None /\ k.(k_asked) = 0%nat /\ k.(k_noBearer) = None /\ k.(k_ran) = None /\ k.(k_hook) = None.

Definition begun (k : Known) (res : StartSessionResponse) : Prop :=
  k.(k_live) = Some res /\ k.(k_granted) = None /\ k.(k_asked) = 0%nat /\ k.(k_noBearer) = None /\ k.(k_ran) = None /\ k.(k_hook) = None.

Lemma waiting_token k r : waiting k -> waiting (learn k Token r).
Proof. unfold waiting. intros (H1 & H2 & H3 & H4 & H5 & H6). cbn. rewrite H1. by destruct r. Qed.

(** The loop: the Session is started, or the last error is thrown and none was. *)
Lemma start_loop_governed rounds req attempt refreshed token k :
  waiting k -> k.(k_starts) = attempt -> (attempt + rounds <= 3)%nat -> (k.(k_req) = None \/ k.(k_req) = Some req) ->
  req.(s_inherits) = match input.(i_authority) with None | Some inherit => true | _ => false end ->
  mon (fun k' o => match o with inr (res, _) => begun k' res | inl _ => waiting k' end) k (start_loop V rounds input req attempt refreshed token).
Proof.
  revert attempt refreshed token k. induction rounds as [|rounds IH]; intros attempt refreshed token k Hw Hs Hb Hr Hi; cbn [start_loop monitored];
    (split; [destruct Hw; repeat split; [done|lia|done|done]|]); intros [e|res]; cbn;
    try (destruct Hw as (? & ? & ? & ? & ? & ?); by repeat split).
  all: split; [done|]; intros [|]; [by destruct Hw as (? & ? & ? & ? & ? & ?); repeat split|].
  all: destruct (is_status 401 e && negb refreshed && i_invalidate input && i_tokenSource input).
  1, 2: cbn; repeat (destruct (negb (transient e) || _)); by destruct Hw as (? & ? & ? & ? & ? & ?); repeat split.
  - cbn. split; [done|]. intros _. split; [done|]. intros [x|[]]; cbn; [by destruct Hw as (? & ? & ? & ? & ? & ?); repeat split|].
    split; [done|]. intros [x|t]; cbn; [destruct Hw as (Hl & ? & ? & ? & ? & ?); by rewrite Hl; repeat split|].
    apply IH; cbn; [|lia|lia|by right|done]. destruct Hw as (Hl & ? & ? & ? & ? & ?). rewrite Hl. by repeat split.
  - destruct (negb (transient e) || _); cbn; [by destruct Hw as (? & ? & ? & ? & ? & ?); repeat split|].
    split; [done|]. intros [x|[]]; cbn; [by destruct Hw as (? & ? & ? & ? & ? & ?); repeat split|].
    apply IH; cbn; [|lia|lia|by right|done]. by destruct Hw as (? & ? & ? & ? & ? & ?); repeat split.
Qed.

(** The Session is there and its termination was not requested. *)
Definition held_open (k : Known) (res : StartSessionResponse) : Prop := k.(k_live) = Some res /\ k.(k_asked) = 0%nat /\ k.(k_noBearer) = None.

(** Its termination was requested once, or no bearer was to be had for it; what ran is as in [k]. *)
Definition let_go (k k' : Known) : Prop :=
  k'.(k_live) = k.(k_live) /\ k'.(k_ran) = k.(k_ran) /\ k'.(k_hook) = k.(k_hook)
  /\ (k'.(k_asked) = 1%nat \/ (k'.(k_asked) = 0%nat /\ is_Some k'.(k_noBearer))).

Definition known_gone (k : Known) : Prop := k.(k_retired) = true \/ exists e, k.(k_noBearer) = Some e /\ isGone e = true.

Lemma retireAfterFailure_governed k res token g trace :
  held_open k res -> mon (fun k' o => let_go k k' /\ o = inr tt) k (retireAfterFailure V input token res.(res_sessionId) g trace).
Proof.
  intros (Hl & Ha & Hn). unfold retireAfterFailure, bearer, let_go. destruct (i_tokenSource input); cbn.
  - split; [done|]. intros [e|b]; cbn; rewrite Hl.
    + destruct (isGone e); cbn; rewrite ?Hl, ?Ha; eauto 12.
    + split; [by exists res; rewrite Ha|]. intros [e|[]]; [destruct (isGone e)|]; cbn; rewrite ?Hl, ?Ha; repeat split; auto.
  - split; [by exists res|]. intros [e|[]]; [destruct (isGone e)|]; cbn; rewrite ?Hl, ?Ha; repeat split; auto.
Qed.

Lemma retire_governed k res token trace :
  held_open k res -> mon (fun k' o => let_go k k' /\ match o with inr _ => known_gone k' | inl _ => True end) k (retire V input token res.(res_sessionId) trace).
Proof.
  intros (Hl & Ha & Hn). unfold retire, bearer, let_go, known_gone. destruct (i_tokenSource input); cbn.
  - split; [done|]. intros [e|b]; cbn; rewrite Hl.
    + destruct (isGone e) eqn:Hg; cbn; rewrite ?Hl, ?Ha; eauto 14.
    + split; [by exists res; rewrite Ha|]. intros [e|[]]; [destruct (isGone e) eqn:Hg|]; cbn; rewrite ?Hl, ?Ha, ?Hg; eauto 12.
  - split; [by exists res|]. intros [e|[]]; [destruct (isGone e) eqn:Hg|]; cbn; rewrite ?Hl, ?Ha, ?Hg; eauto 12.
Qed.

Local Instance any_order : PreOrder (fun _ _ : Known => True).
Proof. split; by repeat intro. Qed.

Lemma mon_seq {A B : Type} (Q1 : Known -> exn + A -> Prop) (Q : Known -> exn + B -> Prop) k m f :
  mon Q1 k m -> (forall k' a, Q1 k' (inr a) -> mon Q k' (f a)) -> (forall k' x, Q1 k' (inl x) -> Q k' (inl x)) -> mon Q k (bind m f).
Proof.
  intros Hm Hf Hx. eapply (monitored_seq (fun _ _ => True)); [done|exact Hm|intros; by apply Hf|intros; by apply Hx].
Qed.

Lemma mon_try {A B : Type} (Q1 : Known -> exn + A -> Prop) (Q : Known -> exn + B -> Prop) k m ok h :
  mon Q1 k m -> (forall k' a, Q1 k' (inr a) -> mon Q k' (ok a)) -> (forall k' x, Q1 k' (inl x) -> mon Q k' (h x)) -> mon Q k (try_catch m ok h).
Proof.
  intros Hm Hf Hx. eapply (monitored_try_seq (fun _ _ => True)); [done|exact Hm|intros; by apply Hf|intros; by apply Hx].
Qed.

(** An established Session: nothing ran in it, its context is bound to it. *)
Definition established (k : Known) (res : StartSessionResponse) (est : Established) : Prop :=
  held_open k res /\ k.(k_ran) = None /\ k.(k_hook) = None /\ est.(es_sessionId) = res.(res_sessionId) /\ bound_to k res est.(es_ctx).

(** A Session that could not be established. *)
Definition abandoned (k : Known) : Prop :=
  k.(k_ran) = None /\ ((k.(k_live) = None /\ k.(k_asked) = 0%nat) \/ (is_Some k.(k_live) /\ (k.(k_asked) = 1%nat \/ (k.(k_asked) = 0%nat /\ is_Some k.(k_noBearer))))).

Definition establishment (k : Known) (o : exn + Established) : Prop :=
  match o with inr est => exists res, established k res est | inl _ => abandoned k end.

(** The delegation of a narrowed child is the wanted one. *)
Lemma contextBearer_governed p k (Q : Known -> exn + string -> Prop) : (forall o, Q k o) -> mon Q k (contextBearer V p).
Proof. intros HQ. unfold contextBearer. destruct (_ && _); cbn; [|done]. split; [done|]. intros [e|b]; cbn; auto. Qed.

Lemma establish_with_governed lifecycle req :
  req.(s_inherits) = match input.(i_authority) with None | Some inherit => true | _ => false end ->
  mon establishment unknown (establish_with V input lifecycle parent req).
Proof.
  intros Hi. unfold establish_with. eapply mon_seq.
  - apply start_loop_governed; [by repeat split|done|unfold SESSION_RETRIES; lia|by left|done].
  - intros k [res token] (Hl & Hg & Ha & Hn & Hr & Hh).
    assert (Hfail : forall e : exn, mon establishment k (retireAfterFailure V input token (res_sessionId res)
      (if bool_decide (lifecycle = Some Service) then Some (res_leaseGeneration res) else None) (s_trace req) ;; Throw e)).
    { intros e. eapply mon_seq; [by apply (retireAfterFailure_governed k res)| |by intros k' x [_ ?]].
      intros k' u [(Hl' & Hr' & _ & Ha') _]. cbn. split; [congruence|]. right. rewrite Hl', Hl. eauto. }
    assert (Hok : forall k' d h, held_open k' res -> k'.(k_ran) = None -> k'.(k_hook) = None -> d = held k' res ->
      (match input.(i_authority) with Some (narrow _ _ _ _) => is_Some k'.(k_granted) | _ => True end) ->
      establishment k' (inr {| es_sessionId := res_sessionId res; es_ctx := child_context input parent token (res_sessionId res) d h (s_trace req); es_token := token;
        es_deadline := res_heartbeatDeadlineAt res; es_leaseGeneration := res_leaseGeneration res; es_trace := s_trace req |})).
    { intros k' d h Ho Hr' Hh' -> Hng. exists res. destruct Ho as (? & ? & ?). by repeat split. }
    cbn beta iota zeta. unfold held in Hok. destruct (i_authority input) as [[| |scopes resourceId constraints ttl]|] eqn:Hauth; try (cbn; by apply Hok).
    destruct parent as [p|] eqn:Hp; [|cbn; apply Hfail]. destruct (Envelope.or_undefined (parent_session (Some p))) as [source|] eqn:Hsrc; [|cbn; apply Hfail].
    eapply (mon_try (fun k' o => match o with inr d => k'.(k_granted) = d.1 /\ is_Some d.1 /\ held_open k' res /\ k'.(k_ran) = None /\ k'.(k_hook) = None | inl _ => k' = k end)).
    + eapply mon_seq; [apply (contextBearer_governed p k (fun k' _ => k' = k)); done| |done]. intros k' b ->. cbn. split.
      * exists res. repeat split; try done. exists scopes, resourceId, constraints, ttl, p.
        unfold narrowing. split_and!; try done; [|by apply body_asks]. cbn in Hsrc |- *. unfold Envelope.or_undefined in Hsrc. destruct (Envelope.ctx_sessionId (ctx p)); [|done]. by case_bool_decide.
      * intros [e|d]; cbn; [by destruct k|]. repeat split; cbn; eauto.
    + intros k' [d h] (Hgr & Hs & Ho & Hr' & Hh'). cbn in *. apply Hok; [done|done|done|congruence|by rewrite Hgr].
    + intros k' x ->. apply Hfail.
  - intros k x (Hl & Hg & Ha & Hn & Hr & Hh). cbn. split; [done|]. by left.
Qed.

Lemma establishSession_governed lifecycle : mon establishment unknown (establishSession V input lifecycle parent).
Proof.
  assert (Hnone : forall x, establishment unknown (inl x)) by (intros x; split; [done|by left]).
  unfold establishSession. eapply (mon_seq (fun k _ => k = unknown)); [by repeat case_match; cbn| |by intros k x ->]. intros k [] ->.
  eapply (mon_seq (fun k _ => k = unknown)); [by repeat case_match; cbn| |by intros k x ->]. intros k traceId ->.
  eapply (mon_seq (fun k _ => k = unknown)); [by repeat case_match; cbn| |by intros k x ->]. intros k key ->.
  by apply establish_with_governed.
Qed.

(** The end of a run in an established Session. *)
Lemma wind_up_governed k res est started (outcome : exn + V) :
  held_open k res -> k.(k_hook) = None -> est.(es_sessionId) = res.(res_sessionId) -> bound_to k res est.(es_ctx) ->
  (started = true /\ k.(k_ran) = Some outcome \/ started = false /\ k.(k_ran) = None /\ exists e, outcome = inl e) ->
  mon wound_up k (wind_up V input est started outcome).
Proof.
  intros Ho Hh Hid Hb Hrun. unfold wind_up.
  assert (Hfin : forall k' after, held_open k' res -> k'.(k_ran) = k.(k_ran) ->
    after = match k'.(k_hook) with Some e => inl e | None => outcome end ->
    mon wound_up k' (match outcome with
      | inl _ => retireAfterFailure V input (es_token est) (es_sessionId est) None (es_trace est) ;; lift after
      | inr _ => retire V input (es_token est) (es_sessionId est) (es_trace est) ;; lift after end)).
  { intros k' after Ho' Hran ->. rewrite Hid. destruct outcome as [e|v].
    - eapply mon_seq; [by apply retireAfterFailure_governed| |by intros k2 x [_ ?]]. intros k2 _ [(Hl & Hr & Hk & Hq) _]. apply monitored_lift. unfold wound_up.
      destruct Ho' as (Hlive & _ & _). rewrite Hl, Hlive. split; [done|]. rewrite <-Hk. destruct (k_hook k2) as [h|]; [done|].
      intros e' He'. cbn. destruct Hrun as [[_ Hr']|(_ & Hr' & _)]; congruence.
    - eapply mon_seq; [by apply retire_governed| |].
      + intros k2 _ [(Hl & Hr & Hk & Hq) Hg]. apply monitored_lift. unfold wound_up. destruct Ho' as (Hlive & _ & _). rewrite Hl, Hlive. split; [done|].
        rewrite <-Hk. destruct Hrun as [[_ Hr']|(_ & _ & [e ?])]; [|done]. destruct (k_hook k2) as [h|]; [intros e He; congruence|].
        split_and!; [congruence|done|done].
      + intros k2 x [(Hl & Hr & Hk & Hq) _]. unfold wound_up. destruct Ho' as (Hlive & _ & _). rewrite Hl, Hlive. split; [done|].
        intros e He. destruct Hrun as [[_ Hr']|(_ & _ & [e' ?])]; congruence. }
  destruct (started && i_onSessionEnd input) eqn:Hs; [|by apply Hfin; rewrite ?Hh].
  apply andb_true_iff in Hs as [Hst _]. destruct Hrun as [[_ Hr]|(Hf & _)]; [|congruence]. destruct Ho as (Hl & Ha & Hn). cbn [monitored]. split.
  - split_and!; [done|by rewrite Hr|by exists res].
  - intros [e|[]]; apply Hfin; by repeat split.
Qed.

(** C9. Running a function in a governed Session, whatever the coordinator, the token sources, the
    hooks and the function do: the start of the Session is requested at most four times, always with
    the same request and so the same idempotency key, with the authority of the parent mirrored only
    when it is to be inherited; the function runs once at most, and it and the hooks only in the
    Session that was started and under its delegation, for a narrowed Session the one just created
    by a request whose body asks for the wanted scopes, resource, lifetime and constraints, the
    budget excepted: it is never sent, and the coordinator reads the constraints without it;
    nothing runs in the Session once its termination was requested.  The run returns only what
    the function returned, and only when the Session is known to be gone; a Session that was started
    is asked to be terminated exactly once on every way out, unless no bearer can be had; the error
    of the function is passed on unless the end hook threw one. *)
Theorem session_governed : mon wound_up unknown (session V input parent).
Proof.
  unfold session. eapply mon_seq; [apply establishSession_governed| |].
  - intros k est (res & Ho & Hr & Hh & Hid & Hb).
    assert (Hrun : mon wound_up k (Vis (Body (es_ctx est)) (fun r => wind_up V input est true r))).
    { cbn [monitored]. destruct Ho as (Hl & Ha & Hn). split; [split_and!; [done|done|by exists res]|]. intros r.
      apply (wind_up_governed _ res); [by repeat split|done|done|exact Hb|by left]. }
    destruct (i_onSessionStart input); [|exact Hrun]. destruct Ho as (Hl & Ha & Hn). cbn [monitored]. split; [split_and!; [done|done|by exists res]|].
    intros [e|[]]; [|exact Hrun]. apply (wind_up_governed _ res); [by repeat split|done|done|done|]. right. eauto.
  - intros k x (Hr & [[Hl Ha]|[[res Hl] Hq]]); unfold wound_up; rewrite Hl; [eauto|]. split; [done|]. intros e. by rewrite Hr.
Qed.

(** [startSession]: a handle is only had of a Session that is there, and a Session that was started
    without one is let go of. *)
Theorem startSession_lets_go : mon establishment unknown (startSession V input parent).
Proof.
  unfold startSession. eapply mon_seq; [apply establishSession_governed| |done]. intros k est (res & Ho & Hr & Hh & Hid & Hb).
  destruct (i_onSessionStart input); [|by exists res]. cbn [monitored]. destruct Ho as (Hl & Ha & Hn). split; [split_and!; [done|done|by exists res]|].
  intros [e|[]]; [|by exists res]. rewrite Hid. eapply mon_seq; [by apply (retireAfterFailure_governed k res)| |by intros k' x [_ ?]].
  intros k' u [(Hl' & Hr' & _ & Ha') _]. cbn. split; [congruence|]. right. rewrite Hl', Hl. eauto.
Qed.

(** The rounds of the loop are enough: more of them change nothing. *)
Lemma rounds_enough {W : Type} (server : W -> forall a, W * told V a) st more rounds req attempt refreshed token :
  (attempt + rounds = 3)%nat -> (attempt = 3%nat -> refreshed = true) ->
  run server st (start_loop V (rounds + more) input req attempt refreshed token) = run server st (start_loop V rounds input req attempt refreshed token).
Proof.
  revert st attempt refreshed token. induction rounds as [|rounds IH]; intros st attempt refreshed token Hs Hr.
  - assert (attempt = 3%nat) as -> by lia. rewrite (Hr eq_refl). destruct more as [|more]; [done|]. cbn [Nat.add start_loop run].
    destruct (server st (Start token req)) as [st1 [e|res]]; [|done]. cbn [run]. destruct (server st1 Aborted) as [st2 []]; [done|].
    rewrite andb_false_r. cbn [andb]. by rewrite orb_true_r.
  - cbn [Nat.add start_loop run]. destruct (server st (Start token req)) as [st1 [e|res]]; [|done]. cbn [run].
    destruct (server st1 Aborted) as [st2 []]; [done|]. destruct (_ && _ && _ && _).
    + cbn [run]. destruct (server st2 Invalidate) as [st3 []]. cbn. destruct (server st3 (Pause 0)) as [st4 [x|[]]]; [done|]. cbn.
      destruct (server st4 Token) as [st5 [x|t]]; [done|]. cbn. apply IH; [lia|done].
    + destruct (negb (transient e) || (SESSION_RETRIES <=? attempt)%nat) eqn:Ht; [done|]. cbn. destruct (server st2 (Pause attempt)) as [st3 [x|[]]]; [done|].
      cbn. apply IH; [lia|]. intros Ha. apply orb_false_iff in Ht as [_ Ht]. unfold SESSION_RETRIES in Ht. apply Nat.leb_gt in Ht. lia.
Qed.

End governed.

(** ** Delegations *)

(** [delegate] asks for one delegation, with one idempotency key, however often it asks. *)
Lemma delegate_loop_once V rounds c req attempt :
  always (fun a => match a with Delegate _ r => r = req | ParentToken | Aborted | Pause _ => True | _ => False end) (delegate_loop V rounds c req attempt).
Proof.
  revert attempt. induction rounds as [|rounds IH]; intros attempt; cbn [delegate_loop]; apply always_try; try done.
  1, 3: unfold contextBearer; destruct (_ && _); cbn; [split; [done|]; intros [x|b]; cbn; [done|]|]; split; try done; by intros [x|d].
  all: intros e; cbn; split; [done|]; intros [|]; [done|]; destruct (negb (transient e) || _); cbn; try done.
  split; [done|]. intros [x|[]]; cbn; [done|]. apply IH.
Qed.

(** The coordinator reads the constraints of a delegation as the caller wrote them, but for the
    budget, which is never sent: the edge is created without that bound. *)
Theorem budget_never_arrives `{Env} c :
  constraints_valid (as_read c) -> normalizedConstraints JUndefined (JObj (constraint_fields c)) None = inr (as_read c).
Proof. apply read_back. Qed.

End SdkSessions.

(** * The handle of a service Session

    [leaseHandle]: a timer renews the lease, callers may beat by hand, [close] retires the
    Session. *)

Module LeaseHandle.
Import CoordinatorCalls.
Local Open Scope list_scope.

Definition MIN_AUTO_HEARTBEAT_MS : Z := 1000.
Definition MAX_AUTO_HEARTBEAT_MS : Z := 300000.
Definition FALLBACK_AUTO_HEARTBEAT_MS : Z := 30000.

Inductive Mode := auto | fixed (ms : Z) | manual.

Definition mode_of (heartbeatIntervalMs : option Z) : Mode :=
  match heartbeatIntervalMs with None => auto | Some n => if 0 <? n then fixed n else manual end.

(** How far [close] is: its end hook runs, its termination is requested, it is over. *)
Inductive Closing := Hooking | Terminating (hook_failed : option exn) | Closed (outcome : exn + unit).

Record Handle := {
  deadlineAt : option string;
  leaseGeneration : Z;
  sessionStatus : string;
  timer : bool;
  beating : bool;
  stopped : bool;
  closing : option Closing;
  lost : nat;
  changes : list string;
  terminations : list Z
}.

Section handle.
Context (mode : Mode) (invalidate onSessionEnd : bool).

(** [leaseHandle] with its first [schedule]. *)
Definition new_handle (deadline : option string) (generation : Z) : Handle :=
  {| deadlineAt := deadline; leaseGeneration := generation; sessionStatus := "active"; timer := match mode with manual => false | _ => true end;
     beating := false; stopped := false; closing := None; lost := 0; changes := []; terminations := [] |}.

(** [heartbeat] sends its request again when the token of the first was refused. *)
Definition beat_result (first second : exn + HeartbeatResponse) : exn + HeartbeatResponse :=
  match first with
  | inl e => if SdkSessions.is_status 401 e && invalidate then second else inl e
  | inr _ => first
  end.

(** The end of a [heartbeat] that was answered; [throws] when its [onStateChange] throws. *)
Definition beaten (res : HeartbeatResponse) (throws : bool) (h : Handle) : Handle * bool :=
  let changed := match Envelope.or_undefined res.(hb_status) with Some s => if bool_decide (s = h.(sessionStatus)) then None else Some s | None => None end in
  let status := default_to h.(sessionStatus) changed in
  let failed := throws && bool_decide (is_Some changed) in
  ({| deadlineAt := match res.(hb_heartbeatDeadlineAt) with Some d => Some d | None => h.(deadlineAt) end; leaseGeneration := res.(hb_leaseGeneration);
      sessionStatus := status; timer := h.(timer); beating := h.(beating);
      stopped := h.(stopped) || (negb failed && bool_decide (status = "suspended")); closing := h.(closing); lost := h.(lost);
      changes := h.(changes) ++ match changed with Some s => [s] | None => [] end; terminations := h.(terminations) |}, failed).

(** [schedule], at the end of a [run]. *)
Definition schedule (h : Handle) : Handle :=
  {| deadlineAt := h.(deadlineAt); leaseGeneration := h.(leaseGeneration); sessionStatus := h.(sessionStatus); timer := if h.(stopped) then h.(timer) else true;
     beating := false; stopped := h.(stopped); closing := h.(closing); lost := h.(lost); changes := h.(changes); terminations := h.(terminations) |}.

(** The timer fires: [run] begins. *)
Definition fire (h : Handle) : Handle :=
  {| deadlineAt := h.(deadlineAt); leaseGeneration := h.(leaseGeneration); sessionStatus := h.(sessionStatus); timer := false; beating := true; stopped := h.(stopped);
     closing := h.(closing); lost := h.(lost); changes := h.(changes); terminations := h.(terminations) |}.

(** The end of a [run] whose heartbeat ended with [r]. *)
Definition run_ends (r : exn + HeartbeatResponse) (throws : bool) (h : Handle) : Handle :=
  match r with
  | inr res => schedule (beaten res throws h).1
  | inl e =>
      if SdkSessions.isGone e then
        {| deadlineAt := h.(deadlineAt); leaseGeneration := h.(leaseGeneration); sessionStatus := h.(sessionStatus); timer := h.(timer); beating := false; stopped := true;
           closing := h.(closing); lost := match h.(closing) with None => S h.(lost) | Some _ => h.(lost) end; changes := h.(changes); terminations := h.(terminations) |}
      else schedule h
  end.

Definition with_closing (c : Closing) (sent : list Z) (h : Handle) : Handle :=
  {| deadlineAt := h.(deadlineAt); leaseGeneration := h.(leaseGeneration); sessionStatus := h.(sessionStatus); timer := h.(timer); beating := h.(beating);
     stopped := h.(stopped); closing := Some c; lost := h.(lost); changes := h.(changes); terminations := h.(terminations) ++ sent |}.

(** [close] up to its first wait; a later call gets the promise of the first. *)
Definition close (h : Handle) : Handle :=
  match h.(closing) with
  | Some _ => h
  | None =>
      {| deadlineAt := h.(deadlineAt); leaseGeneration := h.(leaseGeneration); sessionStatus := h.(sessionStatus); timer := false; beating := h.(beating); stopped := true;
         closing := Some (if onSessionEnd then Hooking else Terminating None); lost := h.(lost); changes := h.(changes); terminations := h.(terminations) |}
  end.

(** What [close] ends with: the end hook's error, else that of the termination unless the Session
    was already gone. *)
Definition close_outcome (hook_failed : option exn) (r : exn + unit) : exn + unit :=
  match hook_failed, r with
  | Some e, _ => inl e
  | None, inr _ => inr tt
  | None, inl e => if SdkSessions.isGone e then inr tt else inl e
  end.

(** The timer, the answers to automatic and manual beats, and [close] in any order. *)
Inductive step : Handle -> Handle -> Prop :=
| l_fire h : h.(timer) = true -> step h (fire h)
| l_run first second throws h : h.(beating) = true -> step h (run_ends (beat_result first second) throws h)
| l_manual first second throws res h : beat_result first second = inr res -> step h (beaten res throws h).1
| l_close h : step h (close h)
| l_hook e h : h.(closing) = Some Hooking -> step h (with_closing (Terminating e) [] h)
| l_no_bearer x e h : h.(closing) = Some (Terminating e) -> step h (with_closing (Closed (close_outcome e (inl x))) [] h)
| l_terminated r e h : h.(closing) = Some (Terminating e) -> step h (with_closing (Closed (close_outcome e r)) [h.(leaseGeneration)] h).

(** ** Facts *)

(** The coordinator has said that the Session is suspended. *)
Definition was_suspended (h : Handle) : Prop := "suspended" ∈ h.(changes).

Record handle_ok (h : Handle) : Prop := {
  lo_one : h.(timer) && h.(beating) = false;
  lo_renews : mode <> manual -> h.(stopped) = false -> h.(timer) = true \/ h.(beating) = true;
  lo_stopped : h.(stopped) = true -> is_Some h.(closing) \/ h.(lost) = 1%nat \/ was_suspended h;
  lo_lost : h.(lost) = 0%nat \/ (h.(lost) = 1%nat /\ h.(stopped) = true /\ h.(timer) = false /\ h.(beating) = false);
  lo_closing : is_Some h.(closing) -> h.(stopped) = true /\ h.(timer) = false;
  lo_status : h.(sessionStatus) = "active" \/ h.(sessionStatus) ∈ h.(changes);
  lo_terminations : (match h.(closing) with Some (Closed _) => length h.(terminations) <= 1 | _ => h.(terminations) = [] end)%nat
}.

Lemma beaten_ok res throws h : handle_ok h -> handle_ok (beaten res throws h).1.
Proof.
  intros [H1 H2 H3 H4 H5 H6 H7]. unfold beaten. cbn [fst].
  set (changed := match Envelope.or_undefined (hb_status res) with Some s => _ | None => None end).
  assert (Hst : default_to (sessionStatus h) changed = "active" \/ default_to (sessionStatus h) changed ∈ changes h ++ match changed with Some s => [s] | None => [] end).
  { destruct changed as [s|]; cbn; [right; set_solver|]. destruct H6; [by left|right; set_solver]. }
  split; cbn; [done| | | | |done|done].
  - intros Hm Hs. apply orb_false_iff in Hs as [Hs _]. auto.
  - intros [Hs|Hs]%orb_true_iff.
    + destruct (H3 Hs) as [?|[?|?]]; [by left|by right; left|]. right; right. unfold was_suspended in *. cbn. set_solver.
    + apply andb_true_iff in Hs as [_ Hs]. apply bool_decide_eq_true in Hs. right; right. unfold was_suspended. cbn. rewrite Hs in Hst. by destruct Hst.
  - destruct H4 as [?|(? & -> & ?)]; [by left|by right].
  - intros Hc. destruct (H5 Hc) as [-> ?]. done.
Qed.

Lemma schedule_ok h : handle_ok h -> h.(beating) = true -> handle_ok (schedule h).
Proof.
  intros [H1 H2 H3 H4 H5 H6 H7] Hb. assert (Ht : h.(timer) = false) by (rewrite Hb, andb_true_r in H1; done).
  split; cbn; [by rewrite andb_false_r| |done| | |done|done].
  - intros _ Hs. rewrite Hs. by left.
  - destruct H4 as [?|(? & ? & ? & Hx)]; [by left|]. congruence.
  - intros Hc. destruct (H5 Hc) as [Hs Hf]. by rewrite Hs.
Qed.

Lemma handle_step h h' : step h h' -> handle_ok h -> handle_ok h'.
Proof.
  intros [h0 Ht|first second throws h0 Hb|first second throws res h0 Hr|h0|e h0 Hc|x e h0 Hc|r e h0 Hc] Hok.
  - destruct Hok as [H1 H2 H3 H4 H5 H6 H7]. split; cbn; [done|by right|done| |intros Hc; by destruct (H5 Hc)|done|done].
    destruct H4 as [?|(? & ? & Hx & ?)]; [by left|congruence].
  - unfold run_ends. destruct (beat_result first second) as [e|res]; [|by apply schedule_ok; [apply beaten_ok|]].
    destruct (SdkSessions.isGone e); [|by apply schedule_ok]. destruct Hok as [H1 H2 H3 H4 H5 H6 H7].
    assert (Ht : h0.(timer) = false) by (rewrite Hb, andb_true_r in H1; done). assert (Hl : h0.(lost) = 0%nat) by (destruct H4 as [?|(? & ? & ? & ?)]; congruence).
    rewrite Hl. split; cbn; [by rewrite Ht|done| | |auto|done|done].
    + intros _. destruct (closing h0); [by left; eexists|by right; left].
    + destruct (closing h0); auto.
  - by apply beaten_ok.
  - unfold close. destruct (closing h0) eqn:Hc; [done|]. destruct Hok as [H1 H2 H3 H4 H5 H6 H7]. rewrite Hc in H7.
    split; cbn; [done|done|by left; eexists| |done|done|by destruct onSessionEnd]. destruct H4 as [?|(? & ? & ? & ?)]; auto.
  - destruct Hok as [H1 H2 H3 H4 H5 H6 H7]. rewrite Hc in H7. destruct (H5 ltac:(by eexists)) as [Hs Ht].
    split; cbn; try done; [by left; eexists|by rewrite H7].
  - destruct Hok as [H1 H2 H3 H4 H5 H6 H7]. rewrite Hc in H7. destruct (H5 ltac:(by eexists)) as [Hs Ht].
    split; cbn; try done; [by left; eexists|rewrite H7; cbn; lia].
  - destruct Hok as [H1 H2 H3 H4 H5 H6 H7]. rewrite Hc in H7. destruct (H5 ltac:(by eexists)) as [Hs Ht].
    split; cbn; try done; [by left; eexists|rewrite H7; cbn; lia].
Qed.

Lemma new_handle_ok deadline generation : handle_ok (new_handle deadline generation).
Proof. split; cbn; [by rewrite andb_false_r|by intros Hm _; left; destruct mode|done|by left|by intros []|by left|done]. Qed.

(** C22. However the timer, the answers to automatic and manual beats and the closing interleave, the
    handle of a service Session keeps at most one automatic beat armed or under way, and one of the
    two until the handle is closed, the Session was reported gone, or suspended; [onLeaseLost] is
    called at most once, after which there are no more automatic beats; once [close] was called the
    timer is never armed again, and at most one termination is requested, none before. *)
Theorem lease_renewed deadline generation h :
  rtc step (new_handle deadline generation) h ->
  h.(timer) && h.(beating) = false
  /\ (mode <> manual -> h.(timer) = true \/ h.(beating) = true \/ is_Some h.(closing) \/ h.(lost) = 1%nat \/ was_suspended h)
  /\ (h.(lost) = 0%nat \/ (h.(lost) = 1%nat /\ h.(timer) = false /\ h.(beating) = false))
  /\ (is_Some h.(closing) -> h.(timer) = false)
  /\ (h.(closing) = None -> h.(terminations) = []) /\ (length h.(terminations) <= 1)%nat.
Proof.
  intros Hr. assert (Hok : handle_ok h).
  { pattern h. revert Hr. apply rtc_ind_r; [apply new_handle_ok|]. intros a b _ Hs. by apply handle_step. }
  destruct Hok as [H1 H2 H3 H4 H5 H6 H7]. split_and!; [done| | | | |].
  - intros Hm. destruct (stopped h) eqn:Hs; [destruct (H3 eq_refl) as [?|[?|?]]; auto|destruct (H2 Hm eq_refl); auto].
  - destruct H4 as [?|(? & ? & ? & ?)]; auto.
  - intros Hc. by destruct (H5 Hc).
  - intros Hc. by rewrite Hc in H7.
  - destruct (closing h) as [[| |]|]; rewrite ?H7; cbn; lia.
Qed.

(** A suspension ends automatic renewal for this handle, whatever is answered later. *)
Lemma stopped_stays h h' : step h h' -> h.(stopped) = true -> h'.(stopped) = true.
Proof.
  intros [h0 Ht|first second throws h0 Hb|first second throws res h0 Hr|h0|e h0 Hc|x e h0 Hc|r e h0 Hc] Hs; cbn; rewrite ?Hs; try done.
  - unfold run_ends. destruct (beat_result first second) as [e|res]; [by destruct (SdkSessions.isGone e)|]. cbn. by rewrite Hs.
  - unfold close. by destruct (closing h0).
Qed.

End handle.

(** [nextDelayMs] in three-millionths of a millisecond; [jitter] in millionths. *)
Definition nextDelayMs (mode : Mode) (remainingMs : option Z) (jitter : Z) : Z :=
  match mode, remainingMs with
  | fixed ms, _ => ms * 3000000
  | _, None => FALLBACK_AUTO_HEARTBEAT_MS * 3 * jitter
  | _, Some r => Z.min (Z.max r (MIN_AUTO_HEARTBEAT_MS * 3)) (MAX_AUTO_HEARTBEAT_MS * 3) * jitter
  end.

(** The next automatic beat is due before the deadline when that is more than 1.1 s away, and between 0.9 s and 330 s
    from now. *)
Theorem beat_before_deadline r jitter : 900000 <= jitter < 1100000 ->
  (1100 < r -> nextDelayMs auto (Some r) jitter < r * 3000000) /\ 900 * 3000000 <= nextDelayMs auto (Some r) jitter < 330000 * 3000000.
Proof. unfold nextDelayMs, MIN_AUTO_HEARTBEAT_MS, MAX_AUTO_HEARTBEAT_MS. intros Hj. split; [intros Hr|]; nia. Qed.

End LeaseHandle.
