(* ===== verification/Governed.v ===== *)
(** * Operator plans

    The plan validator of [apps/api/src/operator-capabilities.ts] and the authority check
    of [operator-authority.ts].  The two capability tables they read are an argument: an
    entry has its name, whether it changes state, the outputs later steps may refer to,
    its argument schema (a [zod] parser) and whether the control plane executes it. *)

From Stdlib Require Import Ascii.
From Stdlib Require String.
From S2P Require Import Prelude.
From S2P Require Import Json.
From S2P Require Import Text.
From S2P Require Import JsonText.
From S2P Require Import Prog.
Local Open Scope string_scope.

(** [CAPABILITIES] and [isControlExecutable]. *)
Record Capability := {
  cap_id : string;
  cap_mutating : bool;
  cap_outputs : list string;
  cap_args : list (string * json) -> option (list (string * json))
}.

(** The properties a plain object inherits. *)
Definition OBJECT_PROTOTYPE : list string :=
  ["constructor"; "__defineGetter__"; "__defineSetter__"; "hasOwnProperty"; "__lookupGetter__"; "__lookupSetter__";
   "isPrototypeOf"; "propertyIsEnumerable"; "toString"; "valueOf"; "__proto__"; "toLocaleString"].

Class Capabilities := { CAPABILITIES : list (string * Capability); isControlExecutable : string -> bool }.

Module Plans.

(** ** References to outputs *)

Record StepReference := { ref_step : string; ref_output : string }.

Definition step_id_char (c : ascii) : bool := is_alnum c || one_of "_.-:" c.
Definition output_char (c : ascii) : bool := is_lower c || is_digit c || bool_decide (c = "_"%char).

Definition within (lo hi : nat) (s : string) : bool := (lo <=? String.length s)%nat && (String.length s <=? hi)%nat.

Definition REF_OPEN : string := "{{steps.".
Definition REF_CLOSE : string := "}}".

(** [STEP_REFERENCE_PATTERN]: an output name has no dot, so the last two segments are
    [outputs] and the name. *)
Definition parseStepReference (value : json) : option StepReference :=
  match value with
  | JStr s =>
      if has_prefix REF_OPEN s && has_suffix REF_CLOSE s && (10 <=? String.length s)%nat then
        match rev (split_on "." (slice_bytes 8 (String.length s - 2) s)) with
        | output :: mark :: ((_ :: _) as rest) =>
            let step := string_concat "." (rev rest) in
            if bool_decide (mark = "outputs") && within 1 128 step && all_chars step_id_char step
               && within 1 64 output && all_chars output_char output
            then Some {| ref_step := step; ref_output := output |} else None
        | _ => None
        end
      else None
  | _ => None
  end.

(** The references below a value. *)
Fixpoint value_references (value : json) : list StepReference :=
  match parseStepReference value with
  | Some ref => [ref]
  | None =>
      match value with
      | JArr xs => flat_map value_references xs
      | JObj fields => flat_map (fun kv => value_references kv.2) fields
      | _ => []
      end
  end.

Definition collectStepReferences (args : list (string * json)) : list StepReference := flat_map (fun kv => value_references kv.2) args.

(** ** Validation *)

Record ProposedStep := { id : string; capability : string; args : list (string * json); depends_on : list string }.

Inductive DiagnosticCode :=
| unknown_capability
| invalid_args
| duplicate_step_id
| unknown_dependency
| unknown_reference
| dependency_cycle.

Record PlanDiagnostic := { d_step : string; d_code : DiagnosticCode }.

Record ValidatedStep := {
  v_id : string;
  v_capability : string;
  v_mutating : bool;
  v_args : list (string * json);
  v_depends_on : list string
}.

Record PlanValidation := { ok : bool; mutating_step_count : nat; v_steps : list ValidatedStep; diagnostics : list PlanDiagnostic }.

Section catalog.
Context `{Capabilities}.

(** What indexing the plain object [CAPABILITIES] with a name finds: nothing, an entry, or
    a property every object inherits, which has none of an entry's fields. *)
Inductive Found := Absent | Inherited | Entry (cap : Capability).

Definition get_capability (name : string) : Found :=
  match ordered_get name CAPABILITIES with
  | Some cap => Entry cap
  | None => if bool_decide (name ∈ OBJECT_PROTOTYPE) then Inherited else Absent
  end.

(** The entry whose fields a guarded access ([?.]) reads. *)
Definition lookup_capability (name : string) : option Capability :=
  match get_capability name with Entry cap => Some cap | _ => None end.

(** One reference of a step: the step it depends on, or a diagnostic. *)
Definition check_reference (plan : list ProposedStep) (step : string) (ref : StepReference) : PlanDiagnostic + string :=
  match find_first (fun s => bool_decide (s.(id) = ref.(ref_step))) plan with
  | None => inl {| d_step := step; d_code := unknown_reference |}
  | Some producer =>
      let outputs := match lookup_capability producer.(capability) with Some c => c.(cap_outputs) | None => [] end in
      if bool_decide (ref.(ref_output) ∈ outputs) then inr ref.(ref_step) else inl {| d_step := step; d_code := unknown_reference |}
  end.

Definition lefts {A B : Type} (xs : list (A + B)) : list A := omap (fun x => match x with inl a => Some a | inr _ => None end) xs.
Definition rights {A B : Type} (xs : list (A + B)) : list B := omap (fun x => match x with inr b => Some b | inl _ => None end) xs.

(** One step, given the identifiers already seen.  [None] is a [TypeError]: an inherited
    property passes the check for an unknown capability and has no [args] to parse with. *)
Definition validate_step (plan : list ProposedStep) (seen : list string) (step : ProposedStep) : option (list PlanDiagnostic * option ValidatedStep) :=
  if bool_decide (step.(id) ∈ seen) then Some ([{| d_step := step.(id); d_code := duplicate_step_id |}], None)
  else match get_capability step.(capability) with
       | Absent => Some ([{| d_step := step.(id); d_code := unknown_capability |}], None)
       | Inherited => None
       | Entry cap =>
           match cap.(cap_args) step.(args) with
           | None => Some ([{| d_step := step.(id); d_code := invalid_args |}], None)
           | Some data =>
               let refs := check_reference plan step.(id) <$> collectStepReferences data in
               Some (lefts refs,
                     Some {| v_id := step.(id); v_capability := cap.(cap_id); v_mutating := cap.(cap_mutating); v_args := data;
                             v_depends_on := distinct (step.(depends_on) ++ rights refs)%list |})
           end
       end.

Fixpoint validate_steps (plan : list ProposedStep) (seen : list string) (steps : list ProposedStep) : option (list PlanDiagnostic * list ValidatedStep) :=
  match steps with
  | [] => Some ([], [])
  | step :: rest =>
      match validate_step plan seen step with
      | None => None
      | Some (ds, v) =>
          match validate_steps plan (step.(id) :: seen) rest with
          | None => None
          | Some (ds', vs) => Some ((ds ++ ds')%list, match v with Some v => v :: vs | None => vs end)
          end
      end
  end.

(** *** Dependencies *)

Definition known_edges (declared resolved : list string) (deps : list string) : list string :=
  filter (fun d => d ∈ declared /\ d ∈ resolved) deps.

(** [adjacency]. *)
Definition adjacency (declared : list string) (steps : list ValidatedStep) (node : string) : list string :=
  match find_first (fun s => bool_decide (s.(v_id) = node)) steps with
  | Some s => known_edges declared (v_id <$> steps) s.(v_depends_on)
  | None => []
  end.

Inductive Mark := Visiting | Done.

#[export] Instance Mark_eq_dec : EqDecision Mark.
Proof. solve_decision. Defined.

(** The loop of [visit] over the dependencies of [node]: the marks, and the step the cycle
    was found at; [None] is out of fuel. *)
Fixpoint visit_edges (visit : string -> gmap string Mark -> option (gmap string Mark * option string)) (node : string)
    (nexts : list string) (state : gmap string Mark) : option (gmap string Mark * option string) :=
  match nexts with
  | [] => Some (<[node := Done]> state, None)
  | next :: rest =>
      match state !! next with
      | Some Visiting => Some (state, Some node)
      | Some Done => visit_edges visit node rest state
      | None =>
          match visit next state with
          | None => None
          | Some (state', Some c) => Some (state', Some c)
          | Some (state', None) => visit_edges visit node rest state'
          end
      end
  end.

Fixpoint visit (edges : string -> list string) (fuel : nat) (node : string) (state : gmap string Mark) : option (gmap string Mark * option string) :=
  match fuel with
  | O => None
  | S fuel => visit_edges (visit edges fuel) node (edges node) (<[node := Visiting]> state)
  end.

(** The loop over the steps, up to the first cycle. *)
Fixpoint find_cycle (edges : string -> list string) (fuel : nat) (nodes : list string) (state : gmap string Mark) : option (option string) :=
  match nodes with
  | [] => Some None
  | node :: rest =>
      match state !! node with
      | Some _ => find_cycle edges fuel rest state
      | None =>
          match visit edges fuel node state with
          | None => None
          | Some (_, Some c) => Some (Some c)
          | Some (state', None) => find_cycle edges fuel rest state'
          end
      end
  end.

(** A step identifier matches [STEP_ID_PATTERN], which the empty text does not, so
    [if (cycleNode)] tests whether a cycle was found. *)
Definition validateDependencies (plan : list ProposedStep) (steps : list ValidatedStep) : option (list PlanDiagnostic) :=
  let declared := id <$> plan in
  let unknown := flat_map (fun s => (fun _ => {| d_step := s.(v_id); d_code := unknown_dependency |}) <$> filter (fun d => d ∉ declared) s.(v_depends_on)) steps in
  match find_cycle (adjacency declared steps) (S (length steps)) (v_id <$> steps) ∅ with
  | None => None
  | Some None => Some unknown
  | Some (Some c) => Some (unknown ++ [{| d_step := c; d_code := dependency_cycle |}])%list
  end.

(** [None] is a [TypeError]; the search for a cycle has fuel enough. *)
Definition validateProposedPlan (plan : list ProposedStep) : option PlanValidation :=
  match validate_steps plan [] plan with
  | None => None
  | Some (ds, steps) =>
      match validateDependencies plan steps with
      | None => None
      | Some ds' =>
          let all := (ds ++ ds')%list in
          Some {| ok := bool_decide (length all = 0); mutating_step_count := length (filter (fun s => s.(v_mutating) = true) steps);
                  v_steps := steps; diagnostics := all |}
      end
  end.

(** ** Authority *)

Record OperatorAuthority := { allowedCapabilities : list string; systemZones : list string }.

Definition defaultAllowedCapabilities : list string :=
  omap (fun kc => if kc.2.(cap_mutating) && isControlExecutable kc.2.(cap_id) then Some kc.2.(cap_id) else None) CAPABILITIES.

(** The first entry of a configured list that cannot be granted. *)
Definition bad_grant (name : string) : option string :=
  let read_only := Some ("operator authority: capability '" +:+ name +:+ "' is read-only and need not be granted") in
  match get_capability name with
  | Absent => Some ("operator authority: unknown capability '" +:+ name +:+ "'")
  | Inherited => read_only
  | Entry c => if c.(cap_mutating) then None else read_only
  end.

Definition buildOperatorAuthority (allowed : list string) (zones : list string) : string + OperatorAuthority :=
  if bool_decide (allowed = []) then inr {| allowedCapabilities := defaultAllowedCapabilities; systemZones := zones |}
  else match omap bad_grant allowed with
       | message :: _ => inl message
       | [] => inr {| allowedCapabilities := allowed; systemZones := zones |}
       end.

Definition isZoneIsolated (authority : OperatorAuthority) (zoneId : string) : bool := bool_decide (zoneId ∈ authority.(systemZones)).

Inductive AuthorityDenialCode := capability_forbidden | capability_unknown.

Definition authorizeCapability (authority : OperatorAuthority) (name : string) : option AuthorityDenialCode :=
  match get_capability name with
  | Absent => Some capability_unknown
  | Inherited => None
  | Entry c => if negb c.(cap_mutating) || bool_decide (name ∈ authority.(allowedCapabilities)) then None else Some capability_forbidden
  end.

(** The denials, with the step they are for. *)
Definition authorizePlanSteps (authority : OperatorAuthority) (steps : list (string * string)) : list (string * AuthorityDenialCode) :=
  omap (fun s => (fun code => (s.1, code)) <$> authorizeCapability authority s.2) steps.
End catalog.
End Plans.

(** * Governed execution of a plan

    [apps/api/src/operator-governed-execute.ts]: the steps of an approved plan carried to
    the control plane in dependency waves, under a lease.  The control capability map is
    an argument.  The reads of a wave run concurrently in the code: their arguments are
    resolved before any of them is sent, and their calls appear here in plan order. *)

(** The outputs of a step. *)
Notation outputs_of := (list (string * json)).

(** An entry of [CONTROL_CAPABILITIES]. *)
Record Invocation := { command : string; subcommand : string; flags : list (string * json) }.

Record ControlCapability := {
  cc_scopes : list string;
  buildInvocation : list (string * json) -> option (list (string * string)) -> Invocation;
  describeOutcome : json -> list (string * json) -> string * option outputs_of
}.

Class ControlMap := { CONTROL_CAPABILITIES : string -> option ControlCapability }.

Module Governed.

Record GovernedPlanStep := {
  s_id : string;
  s_capability : string;
  s_args : list (string * json);
  s_depends_on : list string;
  s_secrets : option (list (string * string))
}.

Record GovernedStepResult := { r_id : string; r_capability : string; r_detail : string; r_output : option outputs_of }.

Record GovernedStepFailure := { f_step : string; f_capability : string; f_reason : string; f_code : option string; f_terminal : bool }.

Inductive LossReason := ownership_lost | renewal_failed.

Record GovernedLeaseLoss := { l_step : string; l_capability : string; l_reason : LossReason; l_outcomeUncertain : bool }.

Record GovernedExecutionResult := {
  applied : list GovernedStepResult;
  failure : option GovernedStepFailure;
  leaseLoss : option GovernedLeaseLoss
}.

(** A validated step as the execute route passes it on; credentials are attached later. *)
Definition governed_step (v : Plans.ValidatedStep) : GovernedPlanStep :=
  {| s_id := v.(Plans.v_id); s_capability := v.(Plans.v_capability); s_args := v.(Plans.v_args); s_depends_on := v.(Plans.v_depends_on);
     s_secrets := None |}.

(** ** References *)

(** The produced value of a reference, when there is one. *)
Definition produced (outs : gmap string outputs_of) (ref : Plans.StepReference) : option json :=
  match outs !! ref.(Plans.ref_step) with
  | Some fields => match json_get ref.(Plans.ref_output) (JObj fields) with JUndefined | JNull => None | v => Some v end
  | None => None
  end.

Definition missing_text (ref : Plans.StepReference) : string :=
  "step output '" +:+ ref.(Plans.ref_output) +:+ "' of step '" +:+ ref.(Plans.ref_step) +:+ "' was not produced".

(** [walk]: the value with its references replaced. *)
Fixpoint substitute (outs : gmap string outputs_of) (value : json) : json :=
  match Plans.parseStepReference value with
  | Some ref => match produced outs ref with Some v => v | None => value end
  | None =>
      match value with
      | JArr xs => JArr (substitute outs <$> xs)
      | JObj fields => JObj ((fun kv => (kv.1, substitute outs kv.2)) <$> fields)
      | _ => value
      end
  end.

(** The first reference without a value, in the order [walk] meets them. *)
Definition first_missing (outs : gmap string outputs_of) (args : list (string * json)) : option Plans.StepReference :=
  find_first (fun ref => bool_decide (produced outs ref = None)) (Plans.collectStepReferences args).

Definition resolveStepArgs (args : list (string * json)) (outs : gmap string outputs_of) : string + list (string * json) :=
  match first_missing outs args with
  | Some ref => inl (missing_text ref)
  | None => inr ((fun kv => (kv.1, substitute outs kv.2)) <$> args)
  end.

(** ** Waves *)

Definition ready (pending : list string) (step : GovernedPlanStep) : bool :=
  bool_decide (step.(s_id) ∈ pending) && forallb (fun dep => negb (bool_decide (dep ∈ pending))) step.(s_depends_on).

(** [pending] less the identifiers of a wave. *)
Definition without (ids pending : list string) : list string := filter (fun p => p ∉ ids) pending.

(** The loop; every wave takes at least one step, so as many rounds as there are steps. *)
Fixpoint waves_go (fuel : nat) (steps : list GovernedPlanStep) (pending : list string) : option (list (list GovernedPlanStep)) :=
  match pending, fuel with
  | [], _ => Some []
  | _, O => None
  | _, S fuel =>
      match filter (fun s => ready pending s = true) steps with
      | [] => None
      | wave => (fun waves => wave :: waves) <$> waves_go fuel steps (without (s_id <$> wave) pending)
      end
  end.

Definition dependencyWaves (steps : list GovernedPlanStep) : option (list (list GovernedPlanStep)) :=
  waves_go (length steps) steps (distinct (s_id <$> steps)).

(** ** Calls *)

(** How [client.invoke] ends. *)
Inductive InvokeOutcome := Invoked (result : json) | ControlClientError (reason : string) (code : option string) (definitive : bool) | OtherError (message : string).

Inductive Act :=
| Invoke (step : string) (inv : Invocation) (scopes : list string)
| Aborted                        (* [lease.signal.aborted] *)
| ConfirmOwned                   (* [lease.confirmOwned()], an error being [false] *)
| AskLossReason.

Definition Answer (a : Act) : Type :=
  match a with Invoke _ _ _ => InvokeOutcome | Aborted => bool | ConfirmOwned => bool | AskLossReason => LossReason end.

Definition exec : Type -> Type := prog Act Answer Empty_set.

Section execute.
Context `{Capabilities} `{ControlMap} (has_lease : bool).

(** What is checked before a step is sent. *)
Definition prepare (step : GovernedPlanStep) (outs : gmap string outputs_of) :
    GovernedStepFailure + (ControlCapability * list (string * json)) :=
  match CONTROL_CAPABILITIES step.(s_capability) with
  | None => inl {| f_step := step.(s_id); f_capability := step.(s_capability); f_reason := "capability is not governed-executable";
                   f_code := None; f_terminal := false |}
  | Some cap =>
      match resolveStepArgs step.(s_args) outs with
      | inl reason => inl {| f_step := step.(s_id); f_capability := step.(s_capability); f_reason := reason; f_code := None; f_terminal := false |}
      | inr args => inr (cap, args)
      end
  end.

Definition conclude (step : GovernedPlanStep) (cap : ControlCapability) (args : list (string * json)) (o : InvokeOutcome) :
    GovernedStepFailure + GovernedStepResult :=
  match o with
  | Invoked result =>
      let '(detail, output) := cap.(describeOutcome) result args in
      inr {| r_id := step.(s_id); r_capability := step.(s_capability); r_detail := detail; r_output := output |}
  | ControlClientError reason code definitive =>
      inl {| f_step := step.(s_id); f_capability := step.(s_capability); f_reason := reason; f_code := code; f_terminal := negb definitive |}
  | OtherError message =>
      inl {| f_step := step.(s_id); f_capability := step.(s_capability); f_reason := message; f_code := None; f_terminal := true |}
  end.

Definition send (step : GovernedPlanStep) (cap : ControlCapability) (args : list (string * json)) : exec (GovernedStepFailure + GovernedStepResult) :=
  Vis (Invoke step.(s_id) (cap.(buildInvocation) args step.(s_secrets)) cap.(cc_scopes)) (fun o => Ret (conclude step cap args o)).

Definition applyStep (step : GovernedPlanStep) (outs : gmap string outputs_of) : exec (GovernedStepFailure + GovernedStepResult) :=
  match prepare step outs with
  | inl f => Ret (inl f)
  | inr (cap, args) => send step cap args
  end.

(** The outputs a settled step registers. *)
Definition register (r : GovernedStepFailure + GovernedStepResult) (outs : gmap string outputs_of) : gmap string outputs_of :=
  match r with
  | inr r => match r.(r_output) with Some o => <[r.(r_id) := o]> outs | None => outs end
  | inl _ => outs
  end.

Definition aborted : exec bool := if has_lease then Vis Aborted Ret else Ret false.

Definition confirm : exec bool := if has_lease then Vis ConfirmOwned Ret else Ret true.

Definition lose (done : list GovernedStepResult) (step : GovernedPlanStep) (uncertain : bool) : exec GovernedExecutionResult :=
  reason ← (if has_lease then Vis AskLossReason Ret else Ret ownership_lost);
  Ret {| applied := done; failure := None;
         leaseLoss := Some {| l_step := step.(s_id); l_capability := step.(s_capability); l_reason := reason; l_outcomeUncertain := uncertain |} |}.

Definition finish (done : list GovernedStepResult) (f : option GovernedStepFailure) : exec GovernedExecutionResult :=
  Ret {| applied := done; failure := f; leaseLoss := None |}.

Definition mutating (step : GovernedPlanStep) : bool :=
  match Plans.lookup_capability step.(s_capability) with Some c => c.(cap_mutating) | None => false end.

(** The reads of a wave, all resolved against the outputs at its start. *)
Fixpoint run_reads (reads : list GovernedPlanStep) (outs : gmap string outputs_of) : exec (list (GovernedStepFailure + GovernedStepResult)) :=
  match reads with
  | [] => Ret []
  | step :: rest => r ← applyStep step outs; rs ← run_reads rest outs; Ret (r :: rs)
  end.

Definition read_results (rs : list (GovernedStepFailure + GovernedStepResult)) : list GovernedStepResult := Plans.rights rs.
Definition read_failure (rs : list (GovernedStepFailure + GovernedStepResult)) : option GovernedStepFailure := head (Plans.lefts rs).

(** The writes of a wave, one after another. *)
Fixpoint run_writes (writes : list GovernedPlanStep) (done : list GovernedStepResult) (outs : gmap string outputs_of)
    (next : list GovernedStepResult -> gmap string outputs_of -> exec GovernedExecutionResult) : exec GovernedExecutionResult :=
  match writes with
  | [] => next done outs
  | step :: rest =>
      gone ← aborted;
      if (gone : bool) then lose done step false
      else
        owned ← confirm;
        gone ← (if (owned : bool) then aborted else Ret true);
        if (gone : bool) then lose done step false
        else
          settled ← applyStep step outs;
          match settled with
          | inl f =>
              gone ← aborted;
              if (gone : bool) then lose done step f.(f_terminal) else finish done (Some f)
          | inr r =>
              gone ← aborted;
              if (gone : bool) then lose (done ++ [r])%list step false
              else run_writes rest (done ++ [r])%list (register (inr r) outs) next
          end
  end.

Fixpoint run_waves (waves : list (list GovernedPlanStep)) (done : list GovernedStepResult) (outs : gmap string outputs_of) : exec GovernedExecutionResult :=
  match waves with
  | [] => finish done None
  | [] :: rest => run_waves rest done outs
  | ((first :: _) as wave) :: rest =>
      gone ← aborted;
      if (gone : bool) then lose done first false
      else
        let reads := filter (fun s => mutating s = false) wave in
        let writes := filter (fun s => mutating s = true) wave in
        rs ← run_reads reads outs;
        let done := (done ++ read_results rs)%list in
        let outs := foldr register outs (rev rs) in
        gone ← aborted;
        if (gone : bool) then lose done (default_to first (head writes)) false
        else match read_failure rs with
             | Some f => finish done (Some f)
             | None => run_writes writes done outs (run_waves rest)
             end
  end.

Definition executeViaControlPlane (steps : list GovernedPlanStep) (priorOutputs : gmap string outputs_of) : exec GovernedExecutionResult :=
  match dependencyWaves steps, steps with
  | Some waves, _ => run_waves waves [] priorOutputs
  | None, first :: _ =>
      finish [] (Some {| f_step := first.(s_id); f_capability := first.(s_capability); f_reason := "plan dependencies do not resolve to an order";
                         f_code := None; f_terminal := false |})
  | None, [] => finish [] None
  end.
End execute.
End Governed.
