(* ===== verification/ExecutionFacts.v ===== *)
(** * Facts of governed execution

    Validated plans can be ordered; each step is sent at most once, after its
    dependencies, a write only under a lease confirmed at that moment; and the result
    accounts for every call. *)

From Stdlib Require Import Ascii.
From Stdlib Require String.
From S2P Require Import Prelude.
From S2P Require Import Json.
From S2P Require Import JsonText.
From S2P Require Import Prog.
From S2P Require Import Governed.
Local Open Scope string_scope.

Module GovernedFacts.
Import Governed.

(** ** Waves *)

Lemma ready_spec pending s : ready pending s = true <-> s_id s ∈ pending /\ Forall (fun d => d ∉ pending) (s_depends_on s).
Proof.
  unfold ready. rewrite andb_true_iff, bool_decide_eq_true, forallb_forall, Forall_forall. split; intros [Hp Hd]; (split; [done|]).
  - intros d Hin Hd'. apply list_elem_of_In, Hd in Hin. by rewrite bool_decide_true in Hin.
  - intros d Hin. apply list_elem_of_In, Hd in Hin. by rewrite bool_decide_false.
Qed.

(** Steps taken wave by wave: nothing a wave depends on is pending when it is taken. *)
Inductive ordered (steps : list GovernedPlanStep) : list string -> list (list GovernedPlanStep) -> Prop :=
| ordered_nil : ordered steps [] []
| ordered_cons pending wave waves :
    wave <> [] -> wave = filter (fun s => ready pending s = true) steps ->
    ordered steps (without (s_id <$> wave) pending) waves -> ordered steps pending (wave :: waves).

Lemma waves_go_ordered fuel steps pending waves : waves_go fuel steps pending = Some waves -> ordered steps pending waves.
Proof.
  revert pending waves. induction fuel as [|fuel IH]; intros pending waves; (destruct pending as [|p pending]; cbn; [intros [= <-]; constructor|]); [done|].
  destruct (filter _ steps) as [|s wave] eqn:Hw; [done|]. intros Hgo. apply fmap_Some in Hgo as (waves' & Hgo & ->).
  constructor; [done|by rewrite Hw|by apply IH].
Qed.

(** Progress: a step of a pending list always has its dependencies out of the way. *)
Definition has_ready (steps : list GovernedPlanStep) : Prop :=
  forall pending, pending <> [] -> (forall p, p ∈ pending -> p ∈ s_id <$> steps) -> exists s, s ∈ steps /\ ready pending s = true.

Lemma waves_go_total steps fuel pending :
  has_ready steps -> (forall p, p ∈ pending -> p ∈ s_id <$> steps) -> length pending <= fuel -> is_Some (waves_go fuel steps pending).
Proof.
  intros Hr. revert pending. induction fuel as [|fuel IH]; intros pending Hin Hl.
  - destruct pending; cbn in *; [eauto|lia].
  - destruct (decide (pending = [])) as [->|Hne]; [cbn; eauto|].
    assert (waves_go (S fuel) steps pending = match filter (fun s => ready pending s = true) steps with
      | [] => None
      | wave => (fun waves => wave :: waves) <$> waves_go fuel steps (without (s_id <$> wave) pending)
      end) as -> by (by destruct pending).
    destruct (Hr pending) as (s & Hs & Hready); [done|done|].
    destruct (filter (fun s => ready pending s = true) steps) as [|w wave] eqn:Hw.
    { assert (s ∈ filter (fun s => ready pending s = true) steps) as Hf by (by apply list_elem_of_filter). rewrite Hw in Hf. by apply elem_of_nil in Hf. }
    destruct (IH (without (s_id <$> w :: wave) pending)) as [waves Hgo].
    + intros x Hx. unfold without in Hx. apply list_elem_of_filter in Hx as [_ Hx]. auto.
    + assert (w ∈ filter (fun s => ready pending s = true) steps) as Hwin by (rewrite Hw; by left).
      apply list_elem_of_filter in Hwin as [Hwr _]. apply ready_spec in Hwr as [Hwp _].
      assert (length (without (s_id <$> w :: wave) pending) < length pending); [|lia].
      unfold without. apply list_elem_of_split in Hwp as (l1 & l2 & ->). rewrite filter_app, filter_cons_False by (intros Hn; apply Hn; by left).
      rewrite !length_app. cbn [length]. apply Nat.add_le_lt_mono; [apply length_filter|apply Nat.lt_succ_r, length_filter].
    + cbv zeta. rewrite Hgo. eexists. reflexivity.
Qed.

(** Each step is in exactly one wave. *)
Lemma ordered_ids steps pending waves :
  NoDup (s_id <$> steps) -> NoDup pending -> (forall p, p ∈ pending -> p ∈ s_id <$> steps) -> ordered steps pending waves ->
  s_id <$> concat waves ≡ₚ pending /\ Forall (fun s => s ∈ steps) (concat waves).
Proof.
  intros Hnd Hp Hin Ho. induction Ho as [|pending wave waves Hne Hw Ho IH]; [done|]. cbn. destruct IH as [IHp IHs].
  { by apply NoDup_filter. } { intros p Hp'. unfold without in Hp'. apply list_elem_of_filter in Hp' as [_ ?]. auto. }
  assert (Forall (fun s => s ∈ steps /\ ready pending s = true) wave) as Hall.
  { rewrite Hw. apply Forall_forall. intros s Hs. apply list_elem_of_filter in Hs. tauto. }
  split; [|apply Forall_app; split; [|done]; eapply Forall_impl; [exact Hall|]; by intros s [? _]].
  rewrite fmap_app, IHp. rewrite <-(filter_app_complement (fun p => p ∈ s_id <$> wave) pending) at 2.
  apply Permutation_app; [|done]. apply NoDup_Permutation; [| by apply NoDup_filter|].
  - rewrite Hw. eapply sublist_NoDup; [exact Hnd|]. apply fmap_sublist, sublist_filter.
  - intros x. rewrite list_elem_of_filter. split; [|tauto]. intros Hx. split; [done|].
    apply list_elem_of_fmap in Hx as (s & -> & Hs). rewrite Forall_forall in Hall. destruct (Hall s Hs) as [_ Hr]. by apply ready_spec in Hr as [? _].
Qed.
(** What a step of a wave depends on was pending no more: it is in an earlier wave. *)
Lemma ordered_before steps pending waves before wave after s d :
  ordered steps pending waves -> waves = (before ++ wave :: after)%list -> s ∈ wave -> d ∈ s_depends_on s -> d ∈ pending ->
  d ∈ s_id <$> concat before.
Proof.
  intros Ho. revert before. induction Ho as [|pending w ws Hne Hw Ho IH]; intros before Heq Hs Hd Hp; [by destruct before|].
  destruct before as [|b before]; injection Heq as -> ->.
  - rewrite Hw in Hs. apply list_elem_of_filter in Hs as [Hr _]. apply ready_spec in Hr as [_ Hr]. rewrite Forall_forall in Hr. by apply Hr in Hd.
  - cbn. rewrite fmap_app, elem_of_app. destruct (decide (d ∈ s_id <$> b)) as [?|Hn]; [by left|right]. eapply IH; [done..|].
    unfold without. by apply list_elem_of_filter.
Qed.
End GovernedFacts.

(** * Facts of plan validation

    The depth-first search of [validateDependencies] ends and finds a cycle exactly when
    there is one, so the steps of a valid plan can always be ordered into waves. *)

Module PlanFacts.
Import Plans GovernedFacts.

Section search.
Context (edges : string -> list string).

Definition edge (x y : string) : Prop := y ∈ edges x.

(** Nodes listed after everything they depend on, the last first. *)
Inductive topo : list string -> Prop :=
| topo_nil : topo []
| topo_cons n l : (forall d, d ∈ edges n -> d ∈ l) -> topo l -> topo (n :: l).

(** The finished nodes of a search are in such an order. *)
Definition finished (state : gmap string Mark) (l : list string) : Prop := topo l /\ forall x, state !! x = Some Done <-> x ∈ l.

Definition same_open (state state' : gmap string Mark) : Prop := forall x, state !! x = Some Visiting <-> state' !! x = Some Visiting.

(** The outcome of visiting nodes: they are finished, or there is a cycle. *)
Definition visited (state : gmap string Mark) (l : list string) (targets : list string) (r : gmap string Mark * option string) : Prop :=
  match r.2 with
  | None => exists l', finished r.1 l' /\ (forall x, x ∈ l -> x ∈ l') /\ (forall x, x ∈ targets -> x ∈ l') /\ same_open state r.1
  | Some _ => exists x, tc edge x x
  end.

(** What [visit_spec] says of the nested visits. *)
Definition visit_ok (vis : string -> gmap string Mark -> option (gmap string Mark * option string)) : Prop :=
  forall node state l r, state !! node = None -> finished state l -> (forall x, state !! x = Some Visiting -> rtc edge x node) ->
  vis node state = Some r -> visited state l [node] r.

(** The loop over a node's dependencies, from a state where the node is open. *)
Lemma visit_edges_spec vis node state l nexts : forall state1 l1 r,
  visit_ok vis -> state !! node = None -> (forall x, state !! x = Some Visiting -> rtc edge x node) ->
  (forall d, d ∈ edges node -> d ∈ l1 \/ d ∈ nexts) -> (forall d, d ∈ nexts -> edge node d) ->
  finished state1 l1 -> (forall x, x ∈ l -> x ∈ l1) -> same_open (<[node := Visiting]> state) state1 ->
  visit_edges vis node nexts state1 = Some r -> visited state l [node] r.
Proof.
  induction nexts as [|next rest IHrest]; intros state1 l1 r Hvis Hn Hpath Hcov Hed Hf1 Hl1 Hopen Hgo; cbn in Hgo.
  - injection Hgo as <-. exists (node :: l1). cbn. destruct Hf1 as [Ht Hd]. split_and!; [split|set_solver|set_solver|].
    + constructor; [|done]. intros d Hd'. destruct (Hcov d Hd') as [?|Hin]; [done|by apply elem_of_nil in Hin].
    + intros x. destruct (decide (x = node)) as [->|Hx]; [rewrite lookup_insert_eq; set_solver|]. rewrite lookup_insert_ne, Hd by done. set_solver.
    + intros x. destruct (decide (x = node)) as [->|Hx]; [rewrite lookup_insert_eq, Hn; split; congruence|].
      rewrite lookup_insert_ne, <-(Hopen x), lookup_insert_ne by done. done.
  - assert (edge node next) as He by (apply Hed; by left).
    assert (forall x, state1 !! x = Some Visiting -> rtc edge x node) as Hpath1.
    { intros x Hx. apply Hopen in Hx. destruct (decide (x = node)) as [->|Hxn]; [done|]. rewrite lookup_insert_ne in Hx by done. by apply Hpath. }
    destruct (state1 !! next) as [[]|] eqn:Hnext.
    + injection Hgo as <-. exists node. cbn. eapply tc_rtc_r; [by apply tc_once|]. by apply Hpath1.
    + eapply IHrest; [done..| | |exact Hf1|done|done|exact Hgo]; [|set_solver]. intros d Hd.
      destruct (Hcov d Hd) as [?|[-> |?]%elem_of_cons]; [by left|left; by apply Hf1|by right].
    + assert (forall x, state1 !! x = Some Visiting -> rtc edge x next) as Hpath2 by (intros x Hx; apply rtc_r with node; auto).
      destruct (vis next state1) as [[state2 [c|]]|] eqn:Hv; [|..|done]; pose proof (Hvis _ _ _ _ Hnext Hf1 Hpath2 Hv) as Hout.
      * by injection Hgo as <-.
      * destruct Hout as (l2 & Hf2 & Hl2 & Ht2 & Ho2). eapply (IHrest state2 l2); [done..| |set_solver|done|auto| |exact Hgo].
        -- intros d Hd. destruct (Hcov d Hd) as [?|[-> |?]%elem_of_cons]; [left; auto|left; apply Ht2; by left|by right].
        -- intros x. rewrite (Hopen x). apply Ho2.
Qed.

Lemma visit_spec fuel : visit_ok (visit edges fuel).
Proof.
  induction fuel as [|fuel IH]; intros node state l r Hn Hf Hpath Hv; [done|]. cbn [visit] in Hv.
  eapply (visit_edges_spec _ _ _ l _ _ l); [exact IH|done|done| |done| |done|done|exact Hv]; [by right|].
  split; [apply Hf|]. intros x. destruct (decide (x = node)) as [->|Hx]; [|by rewrite lookup_insert_ne; [apply Hf|]].
  rewrite lookup_insert_eq. split; [done|]. intros Hin. apply Hf in Hin. congruence.
Qed.

Lemma find_cycle_spec fuel nodes : forall state l r,
  finished state l -> (forall x, state !! x <> Some Visiting) -> find_cycle edges fuel nodes state = Some r ->
  match r with
  | None => exists l', topo l' /\ (forall x, x ∈ l -> x ∈ l') /\ (forall x, x ∈ nodes -> x ∈ l')
  | Some _ => exists x, tc edge x x
  end.
Proof.
  induction nodes as [|node nodes IH]; intros state l r Hf Hno Hgo; cbn in Hgo.
  - injection Hgo as <-. exists l. split_and!; [apply Hf|done|]. intros x Hx. by apply elem_of_nil in Hx.
  - destruct (state !! node) as [m|] eqn:Hm.
    + pose proof (IH _ _ _ Hf Hno Hgo) as Hr. destruct r; [done|]. destruct Hr as (l' & Ht & Hl & Hns). exists l'. split_and!; [done..|].
      intros x [-> |Hx]%elem_of_cons; [|auto]. destruct m; [by apply Hno in Hm|]. apply Hl. by apply Hf.
    + destruct (visit edges fuel node state) as [[state' [c|]]|] eqn:Hv; [|..|done];
        (pose proof (visit_spec fuel _ _ _ _ Hm Hf ltac:(intros x Hx; by apply Hno in Hx) Hv) as Hout).
      * injection Hgo as <-. exact Hout.
      * destruct Hout as (l1 & Hf1 & Hl1 & Ht1 & Ho1).
        assert (forall x, state' !! x <> Some Visiting) as Hno' by (intros x Hx; apply Ho1 in Hx; by apply Hno in Hx).
        pose proof (IH _ _ _ Hf1 Hno' Hgo) as Hr. destruct r; [done|]. destruct Hr as (l' & Ht & Hl & Hns). exists l'.
        split_and!; [done|auto|]. intros x [-> |Hx]%elem_of_cons; [|auto]. apply Hl, Ht1. by left.
Qed.

(** An order leaves no room for a cycle. *)
Lemma topo_acyclic l : topo l -> forall x, x ∈ l -> ~ tc edge x x.
Proof.
  intros Ht x Hx. assert (Acc (flip edge) x) as Hacc.
  { revert x Hx. induction Ht as [|n l Hd _ IH]; intros x Hx; [by apply elem_of_nil in Hx|]. apply elem_of_cons in Hx as [->|Hx]; [|auto].
    constructor. intros y Hy. apply IH, Hd, Hy. }
  clear Ht Hx. induction Hacc as [x _ IH]. intros Hc. inversion Hc as [? ? He|? y ? He Hyx]; subst.
  - by eapply (IH x).
  - eapply (IH y He). by eapply tc_r.
Qed.

(** *** Fuel *)

Context (nodes : list string) (nodes_closed : forall x y, x ∈ nodes -> edge x y -> y ∈ nodes).

Definition unseen (state : gmap string Mark) : nat := length (filter (fun x => state !! x = None) nodes).

Lemma length_filter_impl {A : Type} (P Q : A -> Prop) `{forall x, Decision (P x)} `{forall x, Decision (Q x)} (l : list A) :
  (forall x, P x -> Q x) -> (length (filter P l) <= length (filter Q l))%nat.
Proof.
  intros HPQ. induction l as [|x l IH]; [done|]. rewrite !filter_cons. destruct (decide (P x)), (decide (Q x)); cbn; try lia. exfalso. auto.
Qed.

Lemma unseen_le state state' : (forall x, state' !! x = None -> state !! x = None) -> (unseen state' <= unseen state)%nat.
Proof. apply length_filter_impl. Qed.

Lemma unseen_mark state node m : node ∈ nodes -> state !! node = None -> (unseen (<[node := m]> state) < unseen state)%nat.
Proof.
  intros Hin Hn. apply list_elem_of_split in Hin as (l1 & l2 & Hsplit). unfold unseen. rewrite Hsplit, !filter_app, !length_app.
  rewrite filter_cons_False, filter_cons_True by (rewrite ?lookup_insert_eq; done). cbn [length].
  apply Nat.add_le_lt_mono; [|apply Nat.lt_succ_r]; apply length_filter_impl; intros x Hx; by apply lookup_insert_None in Hx as [? _].
Qed.

(** A visit with as much fuel as there are unmarked nodes ends, and unmarks none. *)
Lemma visit_total fuel : forall node state,
  node ∈ nodes -> state !! node = None -> (unseen state <= fuel)%nat ->
  exists r, visit edges fuel node state = Some r /\ (forall x, r.1 !! x = None -> state !! x = None).
Proof.
  induction fuel as [|fuel IH]; intros node state Hin Hn Hle; pose proof (unseen_mark state node Visiting Hin Hn) as Hlt; [lia|]. cbn [visit].
  assert (forall nexts state1, (forall d, d ∈ nexts -> d ∈ nodes) -> (forall x, state1 !! x = None -> <[node := Visiting]> state !! x = None) ->
    exists r, visit_edges (visit edges fuel) node nexts state1 = Some r /\ (forall x, r.1 !! x = None -> <[node := Visiting]> state !! x = None)) as Hloop.
  { induction nexts as [|next rest IHrest]; intros state1 Hns Hs1; cbn.
    - eexists. split; [done|]. cbn. intros x Hx. apply lookup_insert_None in Hx as [Hx _]. auto.
    - destruct (state1 !! next) as [[]|] eqn:Hnext; [by eexists|apply IHrest; [set_solver|done]|].
      destruct (IH next state1) as ([state2 c] & Hv & Hs2); [set_solver|done| |].
      { apply unseen_le in Hs1. lia. }
      rewrite Hv. destruct c as [c|]; [eexists; split; [done|]; cbn in *; auto|]. apply IHrest; [set_solver|]. cbn in Hs2. auto. }
  destruct (Hloop (edges node) (<[node := Visiting]> state)) as (r & Hr & Hrs); [|done|].
  - intros d Hd. by eapply nodes_closed.
  - exists r. split; [done|]. intros x Hx. apply Hrs in Hx. by apply lookup_insert_None in Hx as [? _].
Qed.

Lemma find_cycle_total fuel xs : forall state,
  (forall x, x ∈ xs -> x ∈ nodes) -> (unseen state <= fuel)%nat -> is_Some (find_cycle edges fuel xs state).
Proof.
  induction xs as [|x xs IH]; intros state Hin Hle; cbn; [eauto|]. destruct (state !! x) eqn:Hx; [apply IH; [set_solver|done]|].
  destruct (visit_total fuel x state) as ([state' c] & -> & Hs); [set_solver|done|done|]. destruct c; [eauto|].
  apply IH; [set_solver|]. cbn in Hs. apply unseen_le in Hs. lia.
Qed.
End search.
(** ** Valid plans *)

Section valid.
Context `{Capabilities}.

Lemma validate_step_clean plan seen step v :
  validate_step plan seen step = Some ([], v) -> exists s, v = Some s /\ s.(v_id) = step.(id) /\ step.(id) ∉ seen.
Proof.
  unfold validate_step. case_bool_decide as Hs; [done|]. destruct (get_capability _) as [| |cap]; [done..|].
  destruct (cap.(cap_args) _) as [data|]; [|done]. intros [= _ <-]. eauto.
Qed.

Lemma validate_steps_clean plan steps : forall seen vs,
  validate_steps plan seen steps = Some ([], vs) ->
  v_id <$> vs = id <$> steps /\ NoDup (id <$> steps) /\ (forall s, s ∈ steps -> s.(id) ∉ seen).
Proof.
  induction steps as [|step steps IH]; intros seen vs; cbn; [intros [= <-]; split_and!; [done|constructor|]; intros s Hs; by apply elem_of_nil in Hs|].
  destruct (validate_step plan seen step) as [[ds v]|] eqn:Hv; [|done]. destruct (validate_steps plan _ steps) as [[ds' vs']|] eqn:Hvs; [|done].
  intros [= Hds <-]. apply app_eq_nil in Hds as [-> ->]. destruct (validate_step_clean _ _ _ _ Hv) as (s & -> & Hid & Hnew).
  destruct (IH _ _ Hvs) as (Hids & Hnd & Hfresh). cbn. rewrite Hid, Hids. split_and!; [done| |].
  - constructor; [|done]. intros Hin. apply list_elem_of_fmap in Hin as (s' & He & Hs'). apply Hfresh in Hs'. apply Hs'. rewrite <-He. by left.
  - intros s' [-> |Hs']%elem_of_cons; [done|]. intros Hin. by eapply (Hfresh s' Hs'), list_elem_of_further.
Qed.

Lemma validate_step_no_cycle plan seen step ds v c :
  validate_step plan seen step = Some (ds, v) -> {| d_step := c; d_code := dependency_cycle |} ∉ ds.
Proof.
  unfold validate_step. intros Hv Hin.
  destruct (bool_decide _); [simplify_eq; by apply list_elem_of_singleton in Hin|]. destruct (get_capability _) as [| |cap]; [simplify_eq; by apply list_elem_of_singleton in Hin|done|].
  destruct (cap.(cap_args) _) as [data|]; [|simplify_eq; by apply list_elem_of_singleton in Hin]. injection Hv as <- _. unfold lefts in Hin.
  apply list_elem_of_omap in Hin as (x & Hx & He). apply list_elem_of_fmap in Hx as (r & -> & _). unfold check_reference in He.
  repeat case_match; simplify_eq.
Qed.

(** Cycles are reported by [validateDependencies] alone. *)
Lemma validate_steps_no_cycle plan steps : forall seen ds vs c,
  {| d_step := c; d_code := dependency_cycle |} ∈ ds -> validate_steps plan seen steps = Some (ds, vs) -> False.
Proof.
  induction steps as [|step steps IH]; intros seen ds vs c Hin; cbn; [intros [= <- _]; by apply elem_of_nil in Hin|].
  destruct (validate_step plan seen step) as [[d1 v]|] eqn:Hstep; [|done]. apply (validate_step_no_cycle _ _ _ _ _ c) in Hstep.
  destruct (validate_steps plan _ steps) as [[d2 vs']|] eqn:Hvs; [|done]. intros [= <- _]. apply elem_of_app in Hin as [Hin|Hin]; [done|by eapply IH].
Qed.

Lemma adjacency_closed declared steps x y : edge (adjacency declared steps) x y -> y ∈ v_id <$> steps.
Proof.
  unfold edge, adjacency. destruct (find_first _ steps) as [s|]; [|by intros ?%elem_of_nil]. unfold known_edges.
  rewrite list_elem_of_filter. tauto.
Qed.

Lemma adjacency_own declared steps s :
  NoDup (v_id <$> steps) -> s ∈ steps -> adjacency declared steps s.(v_id) = known_edges declared (v_id <$> steps) s.(v_depends_on).
Proof.
  intros Hnd Hs. unfold adjacency. destruct (find_first _ steps) as [s'|] eqn:Hf.
  - apply find_first_Some in Hf as [Hs' He]. apply bool_decide_eq_true_1 in He. assert (s' = s) as ->; [|done].
    apply list_elem_of_lookup in Hs as [i Hi]. apply list_elem_of_lookup in Hs' as [j Hj].
    assert (i = j) as ->; [|congruence]. apply (NoDup_lookup (v_id <$> steps) i j s.(v_id)); [done|by rewrite list_lookup_fmap, Hi|].
    rewrite list_lookup_fmap, Hj. cbn. congruence.
  - exfalso. eapply find_first_None in Hf; [|exact Hs]. by rewrite bool_decide_true in Hf.
Qed.

(** The dependency graph of a validation. *)
Definition graph (plan : list ProposedStep) (steps : list ValidatedStep) : string -> list string := adjacency (id <$> plan) steps.

Lemma dependencies_spec plan steps :
  exists ds, validateDependencies plan steps = Some ds
    /\ ((exists c, {| d_step := c; d_code := dependency_cycle |} ∈ ds) <-> exists x, x ∈ v_id <$> steps /\ tc (edge (graph plan steps)) x x)
    /\ (ds = [] -> (exists l, topo (graph plan steps) l /\ forall x, x ∈ v_id <$> steps -> x ∈ l)
         /\ forall s d, s ∈ steps -> d ∈ s.(v_depends_on) -> d ∈ id <$> plan).
Proof.
  unfold validateDependencies. fold (graph plan steps).
  destruct (find_cycle_total (graph plan steps) (v_id <$> steps) ltac:(intros x y _; apply adjacency_closed) (S (length steps)) (v_id <$> steps) ∅)
    as [r Hr]; [done| |].
  { unfold unseen. etrans; [apply length_filter|]. rewrite length_fmap. lia. }
  rewrite Hr. set (unknown := flat_map _ steps). assert (forall c, {| d_step := c; d_code := dependency_cycle |} ∉ unknown) as Hun.
  { intros c Hc. unfold unknown in Hc. apply list_elem_of_In, in_flat_map in Hc as (s & _ & Hc). apply list_elem_of_In, list_elem_of_fmap in Hc as (d & He & _).
    discriminate He. }
  assert (unknown = [] -> forall s d, s ∈ steps -> d ∈ s.(v_depends_on) -> d ∈ id <$> plan) as Hknown.
  { intros Hnil s d Hs Hd. destruct (decide (d ∈ id <$> plan)) as [?|Hn]; [done|]. exfalso.
    apply (elem_of_nil {| d_step := s.(v_id); d_code := unknown_dependency |}). rewrite <-Hnil. unfold unknown.
    apply list_elem_of_In, in_flat_map. exists s. split; [by apply list_elem_of_In|]. apply list_elem_of_In, list_elem_of_fmap. exists d.
    split; [done|]. by apply list_elem_of_filter. }
  pose proof (find_cycle_spec (graph plan steps) _ _ ∅ [] r ltac:(split; [constructor|intros x; rewrite lookup_empty; split; [done|by intros ?%elem_of_nil]])
    ltac:(intros x; by rewrite lookup_empty) Hr) as Hspec.
  destruct r as [c|]; (eexists; split; [done|]).
  - split; [|intros Hnil; by apply app_eq_nil in Hnil as [_ ?]]. split; [|intros _; exists c; apply elem_of_app; right; by left].
    intros _. destruct Hspec as [x Hx]. exists x. split; [|done].
    assert (forall a b, tc (edge (graph plan steps)) a b -> b ∈ v_id <$> steps) as Hend; [|by eapply Hend].
    intros a b Hab. by induction Hab; [eapply adjacency_closed|].
  - destruct Hspec as (l & Ht & _ & Hl). split; [|by eauto]. split; [intros [c Hc]; by apply Hun in Hc|].
    intros (x & Hx & Hc). by apply (topo_acyclic _ _ Ht x (Hl x Hx)) in Hc.
Qed.

(** Among [steps], a step that is the first with its identifier, and not one of [seen],
    names an inherited property. *)
Definition names_inherited (seen : list string) (steps : list ProposedStep) : Prop :=
  exists before step after, steps = (before ++ step :: after)%list /\ step.(id) ∉ seen /\ step.(id) ∉ id <$> before
    /\ get_capability step.(capability) = Inherited.

Lemma validate_step_throws plan seen step :
  validate_step plan seen step = None <-> step.(id) ∉ seen /\ get_capability step.(capability) = Inherited.
Proof.
  unfold validate_step. case_bool_decide as Hs; [split; [done|tauto]|]. destruct (get_capability _) as [| |cap].
  - split; [done|by intros [_ ?]].
  - tauto.
  - destruct (cap_args cap _); (split; [done|by intros [_ ?]]).
Qed.

Lemma validate_steps_throws plan steps : forall seen, validate_steps plan seen steps = None <-> names_inherited seen steps.
Proof.
  induction steps as [|step steps IH]; intros seen; cbn.
  - split; [done|]. intros (before & s & after & He & _). by destruct before.
  - specialize (IH (step.(id) :: seen)). destruct (validate_step plan seen step) as [[ds v]|] eqn:Hv.
    + trans (validate_steps plan (step.(id) :: seen) steps = None); [destruct (validate_steps plan _ steps) as [[? ?]|]; done|]. rewrite IH. split.
      * intros (before & s & after & -> & Hs & Hb & Hi). exists (step :: before), s, after. apply not_elem_of_cons in Hs as [Hne Hs].
        split_and!; [done|done| |done]. cbn. by apply not_elem_of_cons.
      * intros ([|x before] & s & after & He & Hs & Hb & Hi); cbn in He; simplify_eq.
        { exfalso. enough (validate_step plan seen s = None) by congruence. by apply validate_step_throws. }
        cbn in Hb. apply not_elem_of_cons in Hb as [Hne Hb]. exists before, s, after. split_and!; try done. by apply not_elem_of_cons.
    + split; [intros _|done]. apply validate_step_throws in Hv as [Hs Hi]. exists [], step, steps. split_and!; [done|done|apply not_elem_of_nil|done].
Qed.

(** The first of some nodes in an order has nothing of them among its dependencies. *)
Lemma topo_first edges l (pending : list string) :
  topo edges l -> (exists x, x ∈ pending /\ x ∈ l) -> exists n, n ∈ pending /\ forall d, d ∈ edges n -> d ∉ pending.
Proof.
  intros Ht. induction Ht as [|n l Hd _ IH]; intros (x & Hp & Hx); [by apply elem_of_nil in Hx|].
  destruct (decide (Exists (fun y => y ∈ pending) l)) as [He|Hn].
  - apply IH. apply Exists_exists in He as (y & Hy & Hyp). eauto.
  - apply elem_of_cons in Hx as [-> |Hx]; [|exfalso; apply Hn, Exists_exists; eauto]. exists n. split; [done|].
    intros d Hdn Hdp. apply Hn, Exists_exists. eauto.
Qed.

Lemma ok_has_ready plan v (keep : ValidatedStep -> bool) :
  validateProposedPlan plan = Some v -> v.(ok) = true ->
  NoDup (v_id <$> v.(v_steps)) /\ has_ready (Governed.governed_step <$> filter (fun s => keep s = true) v.(v_steps)).
Proof.
  unfold validateProposedPlan. destruct (validate_steps plan [] plan) as [[ds steps]|] eqn:Hv; [|done].
  destruct (dependencies_spec plan steps) as (ds' & -> & _ & Hds'). intros [= <-]; cbn. intros Hok. apply bool_decide_eq_true_1 in Hok.
  apply nil_length_inv, app_eq_nil in Hok as [-> ->]. destruct (validate_steps_clean _ _ _ _ Hv) as (Hids & Hnd & _).
  destruct (Hds' eq_refl) as ((l & Ht & Hl) & Hdecl). rewrite <-Hids in Hnd. split; [done|]. intros pending Hne Hsub.
  assert (forall p, p ∈ pending -> exists s, s ∈ steps /\ keep s = true /\ p = s.(v_id)) as Hof.
  { intros p Hp. apply Hsub in Hp. rewrite <-list_fmap_compose in Hp. apply list_elem_of_fmap in Hp as (s & -> & Hs).
    apply list_elem_of_filter in Hs as [? ?]. by exists s. }
  destruct (topo_first _ _ pending Ht) as (n & Hn & Hfree).
  { destruct pending as [|p rest]; [done|]. exists p. split; [by left|]. destruct (Hof p) as (s & Hs & _ & ->); [by left|].
    apply Hl, list_elem_of_fmap. eauto. }
  destruct (Hof n Hn) as (s & Hs & Hk & ->). exists (Governed.governed_step s). split; [apply list_elem_of_fmap; exists s; split; [done|]; by apply list_elem_of_filter|].
  apply ready_spec. split; [done|]. cbn. apply Forall_forall. intros d Hd. apply Hfree. unfold graph. rewrite adjacency_own by done.
  unfold known_edges. apply list_elem_of_filter. pose proof (Hdecl s d Hs Hd) as Hdp. rewrite Hids. auto.
Qed.
End valid.

(** C34. Plan validation and scheduling agree: validation throws exactly when a step, the
    first with its identifier, names as its capability a property every object inherits;
    for every other plan it returns, it reports a dependency cycle exactly when the
    dependency graph has one, and when it accepts a plan the executor can order whatever
    steps are left of it: every step in one wave, after the waves of the steps it depends
    on. *)
Theorem valid_plan_schedulable `{Capabilities} plan :
  match validateProposedPlan plan with
  | None => names_inherited [] plan
  | Some v =>
  ~ names_inherited [] plan
  /\ ((exists c, {| d_step := c; d_code := dependency_cycle |} ∈ v.(diagnostics)) <->
      exists x, x ∈ v_id <$> v.(v_steps) /\ tc (edge (graph plan v.(v_steps))) x x)
  /\ (v.(ok) = true -> forall keep : ValidatedStep -> bool,
       let left := Governed.governed_step <$> filter (fun s => keep s = true) v.(v_steps) in
       exists waves, Governed.dependencyWaves left = Some waves
       /\ Governed.s_id <$> concat waves ≡ₚ Governed.s_id <$> left
       /\ forall before wave after s d, waves = (before ++ wave :: after)%list -> s ∈ wave -> d ∈ Governed.s_depends_on s ->
            d ∈ Governed.s_id <$> left -> d ∈ Governed.s_id <$> concat before)
  end.
Proof.
  destruct (validateProposedPlan plan) as [v|] eqn:Hv.
  2: { unfold validateProposedPlan in Hv. destruct (validate_steps plan [] plan) as [[ds steps]|] eqn:Hs; [|by eapply validate_steps_throws].
       by destruct (dependencies_spec plan steps) as (ds' & Hd & _); rewrite Hd in Hv. }
  split; [|split].
  - rewrite <-(validate_steps_throws plan plan []). intros Hn. unfold validateProposedPlan in Hv. by rewrite Hn in Hv.
  - unfold validateProposedPlan in Hv. destruct (validate_steps plan [] plan) as [[ds steps]|] eqn:Hs; [|done].
    destruct (dependencies_spec plan steps) as (ds' & Hd & Hc & _). rewrite Hd in Hv. injection Hv as <-. cbn. rewrite <-Hc.
    split; intros [c Hin]; exists c; [|apply elem_of_app; by right]. apply elem_of_app in Hin as [Hin|Hin]; [|done].
    exfalso. by eapply validate_steps_no_cycle.
  - intros Hok keep left. destruct (ok_has_ready plan v keep Hv Hok) as [Hnd Hready]. fold left in Hready.
    assert (NoDup (Governed.s_id <$> left)) as Hndl.
    { unfold left. rewrite <-list_fmap_compose. eapply sublist_NoDup; [exact Hnd|]. apply fmap_sublist, sublist_filter. }
    assert (distinct (Governed.s_id <$> left) ≡ₚ Governed.s_id <$> left) as Hdis
      by (apply NoDup_Permutation; [apply NoDup_distinct|done|intros x; apply elem_of_distinct]).
    destruct (waves_go_total left (length left) (distinct (Governed.s_id <$> left)) Hready) as [waves Hw].
    { intros p. by rewrite elem_of_distinct. } { by rewrite Hdis, length_fmap. }
    apply waves_go_ordered in Hw as Ho. exists waves. split; [done|].
    destruct (ordered_ids _ _ _ Hndl (NoDup_distinct _) ltac:(intros p; by rewrite elem_of_distinct) Ho) as [Hids _]. split; [by rewrite Hids|].
    intros before wave after s d Heq Hs Hd Hin. eapply ordered_before; [exact Ho|exact Heq|done|done|by rewrite elem_of_distinct].
Qed.
End PlanFacts.

(** * What governed execution does

    Each step is sent at most once and after its dependencies, a write only when the lease
    was confirmed and the signal read just before it, nothing after an abort or a failed
    write; and the result tells what was sent and how it ended. *)

Module ExecutionFacts.
Import Governed GovernedFacts.

(** ** Histories of an execution *)

Notation history := (list {a : Act & Answer a}).

Definition invocation (x : {a : Act & Answer a}) : option (string * InvokeOutcome) :=
  match x with
  | existT a r => match a as a return Answer a -> option (string * InvokeOutcome) with Invoke s _ _ => fun o => Some (s, o) | _ => fun _ => None end r
  end.

(** The calls to the control plane so far, the latest first. *)
Definition invocations (k : history) : list (string * InvokeOutcome) := omap invocation k.

Definition invoked (k : history) : list string := (invocations k).*1.

Definition succeeded (so : string * InvokeOutcome) : option string := match so.2 with Invoked _ => Some so.1 | _ => None end.

(** The steps whose calls succeeded, in order. *)
Definition successes (k : history) : list string := rev (omap succeeded (invocations k)).

(** An outcome that may have been applied without being seen. *)
Definition ambiguous (o : InvokeOutcome) : bool :=
  match o with Invoked _ => false | ControlClientError _ _ definitive => negb definitive | OtherError _ => true end.

(** Whether an entry is the signal seen raised. *)
Definition raised (x : {a : Act & Answer a}) : bool :=
  match x with existT a r => match a as a return Answer a -> bool with Aborted => fun b => b | _ => fun _ => false end r end.

Lemma signal_low : existT (P := Answer) Aborted false <> existT Aborted true.
Proof. intros He. by apply (f_equal raised) in He. Qed.

Section execution.
Context `{Capabilities} `{ControlMap} (has_lease : bool) (steps : list GovernedPlanStep) (steps_distinct : NoDup (s_id <$> steps)).

(** The lease was just confirmed and the signal just read. *)
Definition just_confirmed (k : history) : Prop :=
  exists k', k = existT (P := Answer) Aborted false :: existT (P := Answer) ConfirmOwned true :: k'.

Definition done_in (k : history) (d : string) : Prop := exists r, (d, Invoked r) ∈ invocations k.

(** When a step may be sent. *)
Definition allowed (k : history) (a : Act) : Prop :=
  match a with
  | Invoke sid inv scopes =>
      exists s, s ∈ steps /\ s_id s = sid /\ sid ∉ invoked k /\ ~ happened k Aborted true
        /\ (forall d, d ∈ s_depends_on s -> d ∈ s_id <$> steps -> done_in k d)
        /\ (exists cap, CONTROL_CAPABILITIES (s_capability s) = Some cap /\ scopes = cap.(cc_scopes))
        /\ (mutating s = true -> (has_lease = true -> just_confirmed k) /\ forall so, so ∈ invocations k -> is_Some (succeeded so))
  | _ => True
  end.

(** How the result accounts for the calls. *)
Definition accounted (k : history) (r : GovernedExecutionResult) : Prop :=
  r_id <$> r.(applied) = successes k /\ NoDup (invoked k)
  /\ (forall s o, s ∈ steps -> mutating s = true -> (s_id s, o) ∈ invocations k -> ambiguous o = true ->
       (exists f, r.(failure) = Some f /\ f.(f_step) = s_id s /\ f.(f_terminal) = true)
       \/ (exists l, r.(leaseLoss) = Some l /\ l.(l_step) = s_id s /\ l.(l_outcomeUncertain) = true))
  /\ (r.(failure) = None -> r.(leaseLoss) = None -> successes k ≡ₚ s_id <$> steps).

Definition outcome (k : history) (r : Empty_set + GovernedExecutionResult) : Prop := match r with inr r => accounted k r | inl x => match x with end end.

Notation checked := (monitored allowed remember).

(** ** States of an execution *)

(** The calls so far are told by [done], and no write has an unknown outcome. *)
Record tallied (k : history) (done : list GovernedStepResult) : Prop := {
  ta_done : r_id <$> done = successes k;
  ta_once : NoDup (invoked k);
  ta_writes : forall s o, s ∈ steps -> mutating s = true -> (s_id s, o) ∈ invocations k -> ambiguous o = false
}.

(** Every call so far succeeded, they are the calls of the steps [past], and the lease
    signal was never seen raised. *)
Record calm (k : history) (done : list GovernedStepResult) (past : list string) : Prop := {
  ca_tally : tallied k done;
  ca_ok : forall so, so ∈ invocations k -> is_Some (succeeded so);
  ca_past : forall x, x ∈ invoked k <-> x ∈ past;
  ca_running : ~ happened k Aborted true
}.

Definition quiet (a : Act) : Prop := match a with Invoke _ _ _ => False | _ => True end.

Lemma calm_done k done past d : calm k done past -> d ∈ past -> done_in k d.
Proof.
  intros [_ Hok Hp _] Hd. apply Hp in Hd. unfold invoked in Hd. apply list_elem_of_fmap in Hd as ([s o] & -> & Hin).
  destruct (Hok _ Hin) as [x Hx]. unfold succeeded in Hx. cbn in *. destruct o as [res| |]; try done. by exists res.
Qed.

(** Calls other than to the control plane change none of this. *)
Lemma invocations_quiet k a r : quiet a -> invocations (remember k a r) = invocations k.
Proof. by destruct a. Qed.

Lemma tallied_same k k' done : invocations k' = invocations k -> tallied k done -> tallied k' done.
Proof. intros Hi [Hd Ho Hw]. unfold successes, invoked in *. by split; unfold successes, invoked; rewrite ?Hi. Qed.

Lemma accounted_same k k' r : invocations k' = invocations k -> accounted k r -> accounted k' r.
Proof. intros Hi. unfold accounted, successes, invoked. by rewrite Hi. Qed.

Lemma calm_quiet k done past a r :
  quiet a -> existT a r <> existT (P := Answer) Aborted true -> calm k done past -> calm (remember k a r) done past.
Proof.
  intros Ha Hr [Ht Hok Hp Hn]. pose proof (invocations_quiet k a r Ha) as Hi. split.
  - by eapply tallied_same.
  - by rewrite Hi.
  - unfold invoked in *. by rewrite Hi.
  - intros Hh. apply elem_of_cons in Hh as [Hh|Hh]; [by apply Hr|by apply Hn].
Qed.

Lemma successes_invoke (k : history) s inv sc (o : InvokeOutcome) :
  successes (remember (R := Answer) k (Invoke s inv sc) o) = (successes k ++ match succeeded (s, o) with Some x => [x] | None => [] end)%list.
Proof. unfold successes, remember. cbn. unfold succeeded; cbn. destruct o; cbn; by rewrite ?app_nil_r. Qed.

Lemma abort_invoke (k : history) s inv sc (o : InvokeOutcome) :
  happened (remember (R := Answer) k (Invoke s inv sc) o) Aborted true -> happened k Aborted true.
Proof. intros Hh. apply elem_of_cons in Hh as [Hh|?]; [|done]. by apply (f_equal (@projT1 _ _)) in Hh. Qed.

Lemma same_step s s' : s ∈ steps -> s' ∈ steps -> s_id s = s_id s' -> s = s'.
Proof.
  intros Hs Hs' Hid. apply list_elem_of_lookup in Hs as [i Hi]. apply list_elem_of_lookup in Hs' as [j Hj]. assert (i = j) as ->; [|congruence].
  apply (NoDup_lookup (s_id <$> steps) i j (s_id s)); [done|by rewrite list_lookup_fmap, Hi|]. rewrite list_lookup_fmap, Hj. cbn. by rewrite Hid.
Qed.

(** *** One settled call *)

Section settled.
Context (k : history) (done : list GovernedStepResult) (s : GovernedPlanStep) (inv : Invocation) (sc : list string) (cap : ControlCapability)
  (args : list (string * json)) (o : InvokeOutcome).
Hypothesis k_tally : tallied k done.
Hypothesis s_in : s ∈ steps.
Hypothesis s_new : s_id s ∉ invoked k.
Notation k' := (remember (R := Answer) k (Invoke (s_id s) inv sc) o).

Lemma settled_ids : r_id <$> (done ++ match conclude s cap args o with inr r => [r] | inl _ => [] end)%list = successes k'.
Proof.
  rewrite fmap_app, (ta_done _ _ k_tally), successes_invoke. f_equal. unfold conclude, succeeded. cbn. destruct o; try done.
  by destruct (describeOutcome _ _ _).
Qed.

Lemma settled_once : NoDup (invoked k').
Proof. unfold invoked. cbn. constructor; [exact s_new|apply k_tally]. Qed.

Lemma tallied_invoke :
  (mutating s = true -> ambiguous o = false) -> tallied k' (done ++ match conclude s cap args o with inr r => [r] | inl _ => [] end)%list.
Proof.
  intros Hamb. split; [apply settled_ids|apply settled_once|]. intros s' o' Hs' Hm Hin. unfold invocations in Hin. cbn in Hin.
  apply elem_of_cons in Hin as [[= Hid ->]|Hin]; [|by eapply k_tally]. apply Hamb. by rewrite <-(same_step s' s).
Qed.

(** A write that failed: the result names it, and says so when its outcome is unknown. *)
Lemma accounted_failure f fo lo :
  conclude s cap args o = inl f ->
  (fo = Some f /\ lo = None \/ exists reason, fo = None /\ lo = Some {| l_step := s_id s; l_capability := s_capability s; l_reason := reason;
                                                       l_outcomeUncertain := f.(f_terminal) |}) ->
  accounted k' {| applied := done; failure := fo; leaseLoss := lo |}.
Proof.
  intros Hf Hfl. pose proof settled_ids as Hids. rewrite Hf, app_nil_r in Hids.
  assert (f.(f_step) = s_id s /\ f.(f_terminal) = ambiguous o) as [Hfs Hft]
    by (unfold conclude in Hf; destruct o; [by destruct (describeOutcome _ _ _)|by injection Hf as <-..]).
  split; [done|]. split; [apply settled_once|]. split; [|by destruct Hfl as [[-> _]|(? & _ & ->)]].
  intros s' o' Hs' Hm Hin Hamb. unfold invocations in Hin. cbn in Hin. apply elem_of_cons in Hin as [[= Hid ->]|Hin].
  - destruct Hfl as [[-> _]|(reason & _ & ->)]; [left; exists f|right; eexists]; (split; [done|]); cbn; rewrite ?Hfs, ?Hft, ?Hid; done.
  - by rewrite (ta_writes _ _ k_tally s' o') in Hamb.
Qed.
End settled.

(** A result that stops without a write of unknown outcome. *)
Lemma accounted_stop k done f l : tallied k done -> f <> None \/ l <> None -> accounted k {| applied := done; failure := f; leaseLoss := l |}.
Proof.
  intros [Hd Ho Hw] Hfl. split; [done|]. split; [done|]. split; [|cbn; intros -> ->; by destruct Hfl].
  intros s o Hs Hm Hin Hamb. by rewrite (Hw s o) in Hamb.
Qed.

(** ** Programs *)

Lemma checked_aborted {A : Type} Q k (f : bool -> exec A) :
  (has_lease = false -> checked Q k (f false)) -> (has_lease = true -> checked Q (remember k Aborted false) (f false)) ->
  (has_lease = true -> checked Q (remember k Aborted true) (f true)) -> checked Q k (b ← aborted has_lease; f b).
Proof. unfold aborted. intros H1 H2 H3. destruct has_lease; cbn; [|auto]. split; [done|]. intros []; auto. Qed.

Lemma checked_lose k done s u :
  (forall reason, accounted k {| applied := done; failure := None;
     leaseLoss := Some {| l_step := s_id s; l_capability := s_capability s; l_reason := reason; l_outcomeUncertain := u |} |}) ->
  checked outcome k (lose has_lease done s u).
Proof.
  intros Hr. unfold lose. destruct has_lease; cbn; [|apply Hr]. split; [done|]. intros reason. by eapply accounted_same, Hr.
Qed.

Lemma checked_lose_stop k done s : tallied k done -> checked outcome k (lose has_lease done s false).
Proof. intros Ht. apply checked_lose. intros reason. apply accounted_stop; [done|by right]. Qed.

Lemma tallied_signal k done b : tallied k done -> tallied (remember (R := Answer) k Aborted b) done.
Proof. by apply tallied_same. Qed.

Lemma done_in_more (k : history) s inv sc (o : InvokeOutcome) d : done_in k d -> done_in (remember (R := Answer) k (Invoke s inv sc) o) d.
Proof. intros [r Hr]. exists r. by right. Qed.

(** *** Reads *)

Definition deps_done (k : history) (s : GovernedPlanStep) : Prop := forall d, d ∈ s_depends_on s -> d ∈ s_id <$> steps -> done_in k d.

(** What holds after the reads [ids] were sent from [k]. *)
Definition after_reads (k : history) (done : list GovernedStepResult) (ids : list string) (k' : history)
    (rs : list (GovernedStepFailure + GovernedStepResult)) : Prop :=
  tallied k' (done ++ read_results rs)%list /\ ~ happened k' Aborted true
  /\ (read_failure rs = None ->
       (forall so, so ∈ invocations k' -> so ∈ invocations k \/ is_Some (succeeded so))
       /\ forall x, x ∈ invoked k' <-> x ∈ invoked k \/ x ∈ ids).

Lemma checked_seq {A B : Type} (Q1 : history -> Empty_set + A -> Prop) (Q : history -> Empty_set + B -> Prop) k (m : exec A) f :
  checked Q1 k m -> (forall k' a, Q1 k' (inr a) -> checked Q k' (f a)) -> checked Q k (bind m f).
Proof.
  intros Hm Hf. apply (monitored_seq suffix allowed remember remember_le Q1); [done|auto|]. by intros ? [].
Qed.

Lemma prepare_cap s outs cap args : prepare s outs = inr (cap, args) -> CONTROL_CAPABILITIES (s_capability s) = Some cap.
Proof. unfold prepare. destruct (CONTROL_CAPABILITIES _); [|done]. by destruct (resolveStepArgs _ _); intros [= <- <-]. Qed.

Definition reads_post (k : history) (done : list GovernedStepResult) (ids : list string) (k' : history)
    (r : Empty_set + list (GovernedStepFailure + GovernedStepResult)) : Prop :=
  match r with inr rs => after_reads k done ids k' rs | inl _ => False end.

(** One read settled, the others after it. *)
Lemma after_reads_cons k done s ids inv sc cap args o k' rs :
  let r := conclude s cap args o in let k1 := remember (R := Answer) k (Invoke (s_id s) inv sc) o in
  after_reads k1 (done ++ match r with inr r => [r] | inl _ => [] end)%list ids k' rs -> after_reads k done (s_id s :: ids) k' (r :: rs).
Proof.
  intros r k1 (Ht & Hr & Hrest). unfold after_reads, read_results, read_failure, Plans.rights, Plans.lefts in *. cbn. split_and!; [|done|].
  - destruct r; cbn in *; rewrite <-?app_assoc in Ht; by rewrite ?app_nil_r in Ht.
  - destruct r as [f|res] eqn:Hres; [done|]. intros Hf. destruct (Hrest Hf) as [Hok Hids].
    assert (is_Some (succeeded (s_id s, o))) as Hsucc by (unfold r, conclude in Hres; destruct o; [by eexists|done..]).
    split; [|intros x; rewrite Hids; unfold invoked, k1; cbn; set_solver].
    intros so Hso. destruct (Hok so Hso) as [Hin|?]; [|by right]. unfold k1, invocations in Hin. cbn in Hin.
    apply elem_of_cons in Hin as [-> |Hin]; [by right|by left].
Qed.

Lemma checked_reads reads : forall k done outs,
  tallied k done -> ~ happened k Aborted true ->
  Forall (fun s => s ∈ steps /\ mutating s = false /\ deps_done k s /\ s_id s ∉ invoked k) reads -> NoDup (s_id <$> reads) ->
  checked (reads_post k done (s_id <$> reads)) k (run_reads reads outs).
Proof.
  induction reads as [|s reads IH]; intros k done outs Ht Hrun Hall Hnd; cbn [run_reads].
  - cbn. unfold after_reads. rewrite app_nil_r. split_and!; try done. intros _. split; [auto|]. cbn. set_solver.
  - apply Forall_cons in Hall as [(Hs & Hm & Hdeps & Hnew) Hall]. cbn in Hnd. apply NoDup_cons in Hnd as [Hnin Hnd].
    unfold applyStep. destruct (prepare s outs) as [f|[cap args]] eqn:Hp; cbn [mbind prog_bind bind send].
    + eapply checked_seq; [by apply IH|]. intros k' rs (Ht' & Hr' & _). by split_and!.
    + split; [exists s; split_and!; eauto using prepare_cap; by rewrite Hm|]. intros o. cbn [bind].
      eapply checked_seq; [apply (IH _ (done ++ match conclude s cap args o with inr r => [r] | inl _ => [] end)%list)|].
      * apply tallied_invoke; [done..|by rewrite Hm].
      * by intros Hh%abort_invoke.
      * rewrite Forall_forall in *. intros s' Hs'. destruct (Hall s' Hs') as (? & ? & Hd & Hn').
        split_and!; try done; [intros d ? ?; by apply done_in_more, Hd|]. unfold invoked. cbn. apply not_elem_of_cons. split; [|done].
        intros Heq. apply Hnin. rewrite <-Heq. apply list_elem_of_fmap. eauto.
      * done.
      * intros k' rs Hpost. exact (after_reads_cons _ _ _ _ _ _ _ _ _ _ _ Hpost).
Qed.
(** *** Writes *)

Lemma calm_invoke k done past s inv sc cap args (o : InvokeOutcome) r :
  calm k done past -> s ∈ steps -> s_id s ∉ past -> conclude s cap args o = inr r ->
  calm (remember (R := Answer) k (Invoke (s_id s) inv sc) o) (done ++ [r])%list (s_id s :: past).
Proof.
  intros [Ht Hok Hp Hn] Hs Hnew Hc.
  assert (ambiguous o = false /\ is_Some (succeeded (s_id s, o))) as [Ha Hsucc] by (unfold conclude in Hc; destruct o; [by split; [|eexists]|done..]).
  split.
  - pose proof (tallied_invoke k done s inv sc cap args o Ht Hs ltac:(by rewrite Hp) ltac:(done)) as Hk. by rewrite Hc in Hk.
  - intros so Hso. unfold invocations in Hso. cbn in Hso. apply elem_of_cons in Hso as [->|Hso]; [done|by apply Hok].
  - intros x. unfold invoked in *. cbn. rewrite !elem_of_cons, Hp. done.
  - by intros Hh%abort_invoke.
Qed.

(** The checks before a write: whatever they answer, the write goes on calm or not at all. *)
Lemma checked_guard k done past s (f : exec GovernedExecutionResult) :
  calm k done past ->
  (forall k', calm k' done past -> (has_lease = true -> just_confirmed k') -> checked outcome k' f) ->
  checked outcome k
    (gone ← aborted has_lease;
     if (gone : bool) then lose has_lease done s false
     else owned ← confirm has_lease; gone ← (if (owned : bool) then aborted has_lease else Ret true);
          if (gone : bool) then lose has_lease done s false else f).
Proof.
  intros Hc Hf. apply checked_aborted.
  - intros Hl. unfold confirm, aborted. rewrite Hl. cbn. apply Hf; [done|]. congruence.
  - intros Hl. unfold confirm. rewrite Hl at 1. cbn [mbind prog_bind bind]. split; [done|]. intros owned. cbn [bind].
    assert (calm (remember (R := Answer) k Aborted false) done past) as Hc1 by (apply calm_quiet; [done|exact signal_low|done]).
    assert (calm (remember (remember (R := Answer) k Aborted false) ConfirmOwned owned) done past) as Hc2
      by (apply calm_quiet; [done|intros He; by apply (f_equal (@projT1 _ _)) in He|done]).
    destruct owned; [|apply checked_lose_stop, Hc2]. apply checked_aborted; [congruence| |].
    + intros _. apply Hf; [apply calm_quiet; [done|exact signal_low|done]|]. intros _. by eexists.
    + intros _. apply checked_lose_stop, tallied_signal, Hc2.
  - intros _. apply checked_lose_stop, tallied_signal, Hc.
Qed.

Lemma checked_writes writes : forall k done outs past next,
  calm k done past ->
  Forall (fun s => s ∈ steps /\ mutating s = true /\ s_id s ∉ past /\ forall d, d ∈ s_depends_on s -> d ∈ s_id <$> steps -> d ∈ past) writes ->
  NoDup (s_id <$> writes) ->
  (forall k' done' outs' past', calm k' done' past' -> (forall x, x ∈ past' <-> x ∈ past \/ x ∈ s_id <$> writes) -> checked outcome k' (next done' outs')) ->
  checked outcome k (run_writes has_lease writes done outs next).
Proof.
  induction writes as [|s writes IH]; intros k done outs past next Hc Hall Hnd Hnext; cbn [run_writes].
  - apply (Hnext k done outs past Hc). cbn. set_solver.
  - apply Forall_cons in Hall as [(Hs & Hm & Hnew & Hdeps) Hall]. cbn in Hnd. apply NoDup_cons in Hnd as [Hnin Hnd].
    apply (checked_guard _ _ past); [done|]. intros k1 Hc1 Hjust. pose proof (ca_tally _ _ _ Hc1) as Ht1.
    unfold applyStep. destruct (prepare s outs) as [f|[cap args]] eqn:Hp; cbn [mbind prog_bind bind send].
    + assert (f.(f_terminal) = false) as Hft by (unfold prepare in Hp; repeat case_match; simplify_eq; done).
      apply checked_aborted; intros _; [|..|rewrite Hft; apply checked_lose_stop, tallied_signal, Ht1]; cbn;
        (apply accounted_stop; [|by left]); [done|by apply tallied_signal].
    + assert (s_id s ∉ invoked k1) as Hnew1 by (by rewrite (ca_past _ _ _ Hc1)). split.
      { exists s. split_and!; try done; [apply Hc1| |by exists cap; split; [eapply prepare_cap|]|].
        - intros d Hd Hin. eapply calm_done; [exact Hc1|auto].
        - intros _. split; [done|apply Hc1]. }
      intros o. cbn [bind]. destruct (conclude s cap args o) as [f|r] eqn:Hcon.
      * apply checked_aborted; intros _; [| |apply checked_lose; intros reason]; cbn; eapply accounted_same; [done| |done| |done|];
          (eapply accounted_failure; [done..|exact Hcon|]); [by left|by left|right; by exists reason].
      * set (k2 := remember (R := Answer) k1 _ o). assert (calm k2 (done ++ [r])%list (s_id s :: past)) as Hc2 by (by eapply calm_invoke).
        assert (forall k3, calm k3 (done ++ [r])%list (s_id s :: past) -> checked outcome k3 (run_writes has_lease writes (done ++ [r])%list (register (inr r) outs) next)) as Hgo.
        { intros k3 Hc3. eapply IH; [exact Hc3| |done|].
          - rewrite Forall_forall in *. intros s' Hs'. destruct (Hall s' Hs') as (? & ? & Hn' & Hd'). split_and!; try done; [|set_solver].
            apply not_elem_of_cons. split; [|done]. intros Heq. apply Hnin. rewrite <-Heq. apply list_elem_of_fmap. eauto.
          - intros k' done' outs' past' Hc' Hp'. eapply Hnext; [exact Hc'|]. intros x. rewrite Hp'. cbn. set_solver. }
        apply checked_aborted; intros _; [by apply Hgo| |apply checked_lose_stop, tallied_signal, Hc2].
        apply Hgo, calm_quiet; [done|exact signal_low|done].
Qed.
(** *** Waves *)

Lemma successes_all (l : list (string * InvokeOutcome)) : (forall so, so ∈ l -> is_Some (succeeded so)) -> omap succeeded l = l.*1.
Proof.
  induction l as [|so l IH]; intros Hok; [done|]. destruct (Hok so) as [x Hx]; [by left|]. cbn. rewrite Hx, IH by (intros; apply Hok; by right).
  unfold succeeded in Hx. destruct so as [y []]; by simplify_eq/=.
Qed.

Lemma calm_complete k done past : calm k done past -> (forall x, x ∈ past <-> x ∈ s_id <$> steps) -> successes k ≡ₚ s_id <$> steps.
Proof.
  intros Hc Hp. unfold successes. rewrite (successes_all _ (ca_ok _ _ _ Hc)). rewrite <-Permutation_rev. apply NoDup_Permutation; [apply Hc|done|].
  intros x. rewrite <-Hp, <-(ca_past _ _ _ Hc). done.
Qed.

Lemma calm_reads k done past ids k' rs :
  calm k done past -> after_reads k done ids k' rs -> read_failure rs = None -> calm k' (done ++ read_results rs)%list (past ++ ids)%list.
Proof.
  intros [_ Hok Hp _] (Ht & Hn & Hrest) Hf. destruct (Hrest Hf) as [Hok' Hids]. split; [done| | |done].
  - intros so Hso. destruct (Hok' so Hso) as [Hin|?]; [by apply Hok|done].
  - intros x. by rewrite Hids, elem_of_app, Hp.
Qed.

(** The steps of a wave that is ready after [past]. *)
Lemma wave_ready (pending past : list string) (P : GovernedPlanStep -> Prop) `{forall s, Decision (P s)} :
  (forall x, x ∈ s_id <$> steps -> x ∈ past \/ x ∈ pending) -> (forall x, x ∈ pending -> x ∉ past) ->
  let part := filter P (filter (fun s => ready pending s = true) steps) in
  NoDup (s_id <$> part)
  /\ Forall (fun s => P s /\ s ∈ steps /\ s_id s ∈ pending /\ s_id s ∉ past /\ forall d, d ∈ s_depends_on s -> d ∈ s_id <$> steps -> d ∈ past) part.
Proof.
  intros Hcov Hdisj part. split.
  - eapply sublist_NoDup; [exact steps_distinct|]. apply fmap_sublist. by etrans; apply sublist_filter.
  - apply Forall_forall. intros s Hs. apply list_elem_of_filter in Hs as [HP Hs]. apply list_elem_of_filter in Hs as [Hr Hs].
    apply ready_spec in Hr as [Hp Hd]. rewrite Forall_forall in Hd. split_and!; try done; [by apply Hdisj|].
    intros d Hdep Hin. destruct (Hcov d Hin) as [?|Hpd]; [done|]. by apply Hd in Hdep.
Qed.

Lemma wave_ids (wave : list GovernedPlanStep) x :
  x ∈ s_id <$> wave <-> x ∈ s_id <$> filter (fun s => mutating s = false) wave \/ x ∈ s_id <$> filter (fun s => mutating s = true) wave.
Proof.
  rewrite !list_elem_of_fmap. setoid_rewrite list_elem_of_filter. split.
  - intros (s & -> & Hs). destruct (mutating s) eqn:Hm; [right|left]; eauto.
  - intros [(s & -> & _ & Hs)|(s & -> & _ & Hs)]; eauto.
Qed.

(** The steps of a part of a wave, ready after [past]. *)
Definition ready_after (past : list string) (m : bool) (part : list GovernedPlanStep) : Prop :=
  NoDup (s_id <$> part)
  /\ Forall (fun s => mutating s = m /\ s ∈ steps /\ s_id s ∉ past /\ forall d, d ∈ s_depends_on s -> d ∈ s_id <$> steps -> d ∈ past) part.

(** The reads, the check of the signal, then the writes. *)
Lemma checked_wave_rest k done outs past wave lost next :
  let reads := filter (fun s => mutating s = false) wave in let writes := filter (fun s => mutating s = true) wave in
  calm k done past -> ready_after past false reads -> ready_after past true writes ->
  (forall k' done' outs' past', calm k' done' past' -> (forall x, x ∈ past' <-> x ∈ past \/ x ∈ s_id <$> wave) -> checked outcome k' (next done' outs')) ->
  checked outcome k
    (rs ← run_reads reads outs;
     gone ← aborted has_lease;
     if (gone : bool) then lose has_lease (done ++ read_results rs)%list lost false
     else match read_failure rs with
          | Some f => finish (done ++ read_results rs)%list (Some f)
          | None => run_writes has_lease writes (done ++ read_results rs)%list (foldr register outs (rev rs)) next
          end).
Proof.
  intros reads writes Hc [Hrn Hr] [Hwn Hw] Hnext. eapply checked_seq.
  { apply checked_reads; [apply Hc|apply Hc| |done]. eapply Forall_impl; [exact Hr|]. intros s (Hm & Hs & Hn & Hd). split_and!; try done.
    - intros d Hdep Hin. eapply calm_done; [exact Hc|auto].
    - by rewrite (ca_past _ _ _ Hc). }
  intros k2 rs Hpost.
  assert (forall k3, tallied k3 (done ++ read_results rs)%list ->
    (read_failure rs = None -> calm k3 (done ++ read_results rs)%list (past ++ (s_id <$> reads))%list) ->
    checked outcome k3 (match read_failure rs with
      | Some f => finish (done ++ read_results rs)%list (Some f)
      | None => run_writes has_lease writes (done ++ read_results rs)%list (foldr register outs (rev rs)) next
      end)) as Hrest.
  { intros k3 Ht3 Hc3. destruct (read_failure rs) as [f|] eqn:Hf; [by apply accounted_stop; [|left]|].
    eapply checked_writes; [by apply Hc3| |done|].
    - eapply Forall_impl; [exact Hw|]. intros s (Hm & Hs & Hn & Hd). split_and!; try done; [|intros d Hdep Hin; apply elem_of_app; left; auto].
      rewrite elem_of_app. intros [?|Hin]; [done|]. apply list_elem_of_fmap in Hin as (s' & Heq & Hs'). rewrite Forall_forall in Hr.
      destruct (Hr s' Hs') as (Hm' & Hin' & _). rewrite (same_step s s') in Hm by done. congruence.
    - intros k' done' outs' past' Hc' Hp'. eapply Hnext; [exact Hc'|]. intros x. rewrite Hp', elem_of_app, (wave_ids wave). tauto. }
  apply checked_aborted; intros _; [| |apply checked_lose_stop, tallied_signal, Hpost].
  - apply Hrest; [apply Hpost|]. intros Hf. by eapply calm_reads.
  - apply Hrest; [apply tallied_signal, Hpost|]. intros Hf. apply calm_quiet; [done|exact signal_low|by eapply calm_reads].
Qed.

Lemma checked_waves waves : forall pending k done outs past,
  ordered steps pending waves -> calm k done past -> (forall x, x ∈ s_id <$> steps <-> x ∈ past \/ x ∈ pending) ->
  (forall x, x ∈ pending -> x ∉ past) -> checked outcome k (run_waves has_lease waves done outs).
Proof.
  induction waves as [|wave waves IH]; intros pending k done outs past Ho Hc Hcov Hdisj.
  - inversion Ho; subst. cbn. pose proof (calm_complete k done past Hc ltac:(intros x; rewrite Hcov; set_solver)) as Hall.
    destruct (ca_tally _ _ _ Hc) as [Hd Hon Hw]. split_and!; try done. intros s o Hs Hm Hin Hamb. by rewrite (Hw s o) in Hamb.
  - inversion Ho as [|? ? ? Hne Hw Ho']; subst pending0 wave0 waves0. destruct wave as [|first wave']; [done|]. cbn [run_waves].
    set (wave := first :: wave') in *.
    assert (forall m, ready_after past m (filter (fun s => mutating s = m) wave)) as Hready.
    { intros m. rewrite Hw. destruct (wave_ready pending past (fun s => mutating s = m) (fun x Hx => proj1 (Hcov x) Hx) Hdisj) as [Hn Hall].
      split; [done|]. eapply Forall_impl; [exact Hall|]. naive_solver. }
    assert (forall x, x ∈ s_id <$> wave -> x ∈ pending) as Hwp.
    { intros x Hx. rewrite Hw in Hx. apply list_elem_of_fmap in Hx as (s & -> & Hs). apply list_elem_of_filter in Hs as [Hr _].
      by apply ready_spec in Hr as [? _]. }
    assert (forall k' done' outs' past', calm k' done' past' -> (forall x, x ∈ past' <-> x ∈ past \/ x ∈ s_id <$> wave) ->
      checked outcome k' (run_waves has_lease waves done' outs')) as Hnext.
    { intros k' done' outs' past' Hc' Hp'. eapply (IH (without (s_id <$> wave) pending)); [exact Ho'|exact Hc'| |]; unfold without.
      - intros x. rewrite Hcov, Hp', list_elem_of_filter. specialize (Hwp x). destruct (decide (x ∈ s_id <$> wave)); tauto.
      - intros x Hx. apply list_elem_of_filter in Hx as [Hnx Hx]. rewrite Hp'. pose proof (Hdisj x Hx). tauto. }
    cbv zeta. apply checked_aborted; intros _; [eapply (checked_wave_rest k done outs past wave); [done|apply Hready|apply Hready|exact Hnext]| |apply checked_lose_stop, tallied_signal, Hc].
    eapply (checked_wave_rest _ done outs past wave); [apply calm_quiet; [done|exact signal_low|done]|apply Hready|apply Hready|exact Hnext].
Qed.
End execution.

Lemma execution_checked `{Capabilities} `{ControlMap} has_lease steps prior :
  NoDup (s_id <$> steps) ->
  monitored (allowed has_lease steps) remember (outcome steps) [] (executeViaControlPlane has_lease steps prior).
Proof.
  intros Hnd. unfold executeViaControlPlane. assert (tallied steps [] []) as Ht by (split; [done|constructor|intros ????; by intros ?%elem_of_nil]).
  destruct (dependencyWaves steps) as [waves|] eqn:Hw.
  - apply waves_go_ordered in Hw. eapply (checked_waves has_lease steps Hnd waves _ [] [] prior []); [exact Hw| | |].
    + split; [done|by intros so ?%elem_of_nil|done|by intros ?%elem_of_nil].
    + intros x. rewrite elem_of_distinct. set_solver.
    + set_solver.
  - destruct steps as [|first rest]; [done|]. cbn. by apply accounted_stop; [|left].
Qed.

(** C4. Governed execution of a plan, whatever the control plane answers and whenever the
    lease is lost: a step is sent at most once, under its capability's scopes, after every
    step it depends on succeeded and never after the lease signal was seen raised; a write
    is sent only when all calls before it succeeded and, under a lease, right after the
    lease was confirmed and the signal found low.  The result lists exactly the steps that
    succeeded, in order; a write whose outcome is unknown is reported as a terminal failure
    or an uncertain lease loss of that step; and a result without failure or loss means
    every step succeeded. *)
Theorem governed_execution `{Capabilities} `{ControlMap} has_lease steps prior :
  NoDup (s_id <$> steps) ->
  monitored (allowed has_lease steps) remember (outcome steps) [] (executeViaControlPlane has_lease steps prior).
Proof. apply execution_checked. Qed.
End ExecutionFacts.
