(* ===== verification/OperatorCatalog.v ===== *)
(** * Provider configuration

    [apps/api/src/provider-config.ts]: the provider kinds and the fields each accepts, and
    the credential requirements of [apps/api/src/operator-plan-secrets.ts]. *)

From Stdlib Require Import Ascii.
From Stdlib Require String.
From S2P Require Import Prelude.
From S2P Require Import Json.
From S2P Require Import JsonText.
From S2P Require Import Text.
From S2P Require Import Governed.
Local Open Scope string_scope.

Module ProviderConfig.

Inductive ProviderKind := none | caracal_mandate | oauth2_authorization_code | oauth2_client_credentials | api_key | bearer_token | http_basic.

#[export] Instance ProviderKind_eq_dec : EqDecision ProviderKind.
Proof. solve_decision. Defined.

Definition PROVIDER_KINDS : list ProviderKind := [none; caracal_mandate; oauth2_authorization_code; oauth2_client_credentials; api_key; bearer_token; http_basic].

Definition kind_text (k : ProviderKind) : string :=
  match k with
  | none => "none"
  | caracal_mandate => "caracal_mandate"
  | oauth2_authorization_code => "oauth2_authorization_code"
  | oauth2_client_credentials => "oauth2_client_credentials"
  | api_key => "api_key"
  | bearer_token => "bearer_token"
  | http_basic => "http_basic"
  end.

(** [required] is a requirement of ['required']. *)
Record ProviderConfigField := field { key : string; required : bool; secret : bool; multiline : bool; note : option string }.

Definition PROVIDER_CONFIG_FIELDS (k : ProviderKind) : list ProviderConfigField :=
  match k with
  | none =>
      []
  | caracal_mandate =>
      []
  | oauth2_authorization_code =>
      [field "authorization_endpoint" true false false (Some "HTTPS endpoint where users approve delegated access");
       field "token_endpoint" true false false (Some "HTTPS endpoint where tokens are issued or refreshed");
       field "redirect_uri" true false false (Some "Caracal's callback URL for the zone, registered with the provider");
       field "client_id" true false false (Some "the OAuth client id");
       field "client_secret" true true false (Some "not used when client_auth_method is none");
       field "scopes" false false false (Some "upstream OAuth scopes to request");
       field "client_auth_method" false false false (Some "client_secret_basic default, client_secret_post, or none");
       field "revocation_endpoint" false false false (Some "RFC 7009 endpoint for best-effort upstream revocation on disconnect");
       field "allowed_token_hosts" false false false (Some "defaults to the token endpoint host");
       field "authorization_params" false false false None;
       field "token_params" false false false None;
       field "auth_header" false false false None;
       field "auth_scheme" false false false None;
       field "forward_caracal_identity" false false false None]
  | oauth2_client_credentials =>
      [field "token_endpoint" true false false (Some "HTTPS endpoint where tokens are issued");
       field "client_id" true false false (Some "the OAuth client id");
       field "client_secret" true true false (Some "not used with private_key_jwt or none");
       field "private_key" false true true (Some "PEM key, required with private_key_jwt or jwt_bearer");
       field "scopes" false false false (Some "upstream OAuth scopes to request");
       field "client_auth_method" false false false (Some "client_secret_basic default, client_secret_post, private_key_jwt, or none");
       field "grant_type" false false false (Some "client_credentials default, or jwt_bearer for RFC 7523 assertion grants");
       field "assertion_subject" false false false (Some "jwt_bearer only; sub claim, defaults to the client id");
       field "assertion_audience" false false false (Some "jwt_bearer only; aud claim, defaults to the token endpoint");
       field "audience" false false false None;
       field "resource" false false false None;
       field "allowed_token_hosts" false false false (Some "defaults to the token endpoint host");
       field "token_params" false false false None;
       field "key_id" false false false (Some "private_key_jwt or jwt_bearer only");
       field "certificate" false false false (Some "private_key_jwt only; PEM certificate for x5t thumbprint headers");
       field "auth_header" false false false None;
       field "auth_scheme" false false false None;
       field "forward_caracal_identity" false false false None;
       field "allow_runtime_injection" false false false None]
  | api_key =>
      [field "auth_location" false false false (Some "header default, or query");
       field "header_name" true false false (Some "when auth_location is header");
       field "query_param_name" true false false (Some "when auth_location is query");
       field "api_key" true true false None;
       field "allowed_token_hosts" false false false (Some "host allow-list for forwarding");
       field "auth_scheme" false false false (Some "header auth only");
       field "forward_caracal_identity" false false false None;
       field "allow_runtime_injection" false false false None]
  | bearer_token =>
      [field "bearer_token" true true false None;
       field "allowed_token_hosts" false false false (Some "host allow-list for forwarding");
       field "auth_header" false false false None;
       field "auth_scheme" false false false None;
       field "forward_caracal_identity" false false false None;
       field "allow_runtime_injection" false false false None]
  | http_basic =>
      [field "username" true false false (Some "username or account identifier for HTTP Basic auth");
       field "password" true true false (Some "password or API token paired with the username");
       field "allowed_token_hosts" false false false (Some "host allow-list for forwarding");
       field "forward_caracal_identity" false false false None]
  end.

Definition configKeys (sec : bool) (k : ProviderKind) : list string :=
  key <$> filter (fun f => f.(secret) = sec) (PROVIDER_CONFIG_FIELDS k).

Definition PUBLIC_PROVIDER_CONFIG_KEYS : ProviderKind -> list string := configKeys false.
Definition SECRET_PROVIDER_CONFIG_KEYS : ProviderKind -> list string := configKeys true.

Definition MULTILINE_SECRET_CONFIG_KEYS : list string :=
  key <$> filter (fun f => f.(secret) = true /\ f.(multiline) = true) (concat (PROVIDER_CONFIG_FIELDS <$> PROVIDER_KINDS)).

(** The kind a value names. *)
Definition isProviderKind (value : json) : option ProviderKind :=
  match value with JStr s => find_first (fun k => bool_decide (kind_text k = s)) PROVIDER_KINDS | _ => None end.

(** ** Credentials of a plan step *)

Notation fields := (list (string * json)).

(** A property of an object. *)
Definition prop (k : string) (o : fields) : json := default_to JUndefined (ordered_get k o).

Definition kind_credentials (k : ProviderKind) (config : fields) : list string :=
  let method := as_string (prop "client_auth_method" config) in
  match k with
  | api_key => ["api_key"]
  | bearer_token => ["bearer_token"]
  | oauth2_authorization_code => if bool_decide (method = Some "none") then ["client_id"] else ["client_id"; "client_secret"]
  | oauth2_client_credentials =>
      if bool_decide (method = Some "private_key_jwt") then ["client_id"; "private_key"]
      else if bool_decide (method = Some "none") then ["client_id"]
      else ["client_id"; "client_secret"]
  | none | caracal_mandate | http_basic => []
  end.

Definition credentialFieldsFor (capability : string) (args : fields) : list string :=
  if bool_decide (capability = "connectProvider") then
    match isProviderKind (prop "kind" args) with
    | Some k => kind_credentials k (match prop "config" args with JObj c => c | _ => [] end)
    | None => []
    end
  else [].

(** Whether one key of the config is refused. *)
Definition key_error (k : ProviderKind) (credentials : list string) (key : string) : option string :=
  if bool_decide (key ∈ credentials) then
    Some ("config must not carry " +:+ key +:+ ": credentials are entered through the console's secure prompt")
  else if bool_decide (key ∈ PUBLIC_PROVIDER_CONFIG_KEYS k) then None
  else Some ("config key " +:+ key +:+ " is not a public " +:+ kind_text k +:+ " provider setting").

(** [config] is [None] when it is undefined. *)
Definition planProviderConfigError (kind : json) (config : option fields) : option string :=
  match config with
  | None | Some [] => None
  | Some c =>
      match isProviderKind kind with
      | None => Some "config requires a valid provider kind"
      | Some k => head (omap (key_error k (credentialFieldsFor "connectProvider" [("kind", kind); ("config", JObj c)])) c.*1)
      end
  end.

(** ** No credentials in a plan *)

(** [PROVIDER_CREDENTIAL_KEYS] of [operator-capabilities.ts]. *)
Definition PROVIDER_CREDENTIAL_KEYS : list string := "client_id" :: concat (SECRET_PROVIDER_CONFIG_KEYS <$> PROVIDER_KINDS).

Lemma head_omap_none {A B : Type} (f : A -> option B) xs : head (omap f xs) = None -> forall x, x ∈ xs -> f x = None.
Proof.
  induction xs as [|a xs IH]; intros Hh x Hx; [by apply elem_of_nil in Hx|]. cbn in Hh. destruct (f a) eqn:Hf; [done|].
  apply elem_of_cons in Hx as [-> | Hx]; [done|]. by apply IH.
Qed.

(** The public keys of a kind that are credentials too. *)
Lemma public_credentials k c key :
  key ∈ PUBLIC_PROVIDER_CONFIG_KEYS k -> key ∈ PROVIDER_CREDENTIAL_KEYS -> key ∈ kind_credentials k c.
Proof.
  intros Hp Hc. assert (Forall (fun key => key ∈ PROVIDER_CREDENTIAL_KEYS -> key = "client_id") (PUBLIC_PROVIDER_CONFIG_KEYS k)) as Hall.
  { apply (bool_decide_unpack _). by destruct k; vm_compute. }
  rewrite Forall_forall in Hall. specialize (Hall _ Hp Hc) as ->.
  destruct k; try done; cbn [kind_credentials]; repeat case_bool_decide; try (by left); pose proof (bool_decide_pack _ Hp) as Hb; by vm_compute in Hb.
Qed.

Lemma accepted_config_clean kind c key :
  planProviderConfigError kind (Some c) = None -> key ∈ c.*1 -> key ∉ PROVIDER_CREDENTIAL_KEYS.
Proof.
  unfold planProviderConfigError. destruct c as [|kv c]; [intros _ Hk; by apply elem_of_nil in Hk|].
  destruct (isProviderKind kind) as [k|] eqn:Hk; [|done].
  change (credentialFieldsFor _ _) with (match isProviderKind kind with Some k => kind_credentials k (kv :: c) | None => [] end). rewrite Hk.
  intros Hh Hin Hc. specialize (head_omap_none _ _ Hh _ Hin). unfold key_error.
  repeat case_bool_decide; try done. intros _. eauto using public_credentials.
Qed.
End ProviderConfig.

(** * The Operator's capabilities

    The catalog of [apps/api/src/operator-capabilities.ts]: every capability with its
    effect, argument schema, preview and outputs.  Schemas are the [zod] expressions of
    the source; [zod] itself is a parameter. *)

(** ** Schemas *)

Inductive string_check := Min (n : nat) | Max (n : nat) | Regex (shape : string -> bool) | Url.

(** Objects are strict; a refinement sees the parsed properties. *)
Inductive schema :=
| SString (checks : list string_check)
| SInt (min max : Z)
| SBoolean
| SUnknown
| SEnum (values : list string)
| SArray (element : schema) (min max : option nat)
| SRecord (key value : schema)
| SObject (properties : list (string * schema))
| SOptional (inner : schema)
| SRefine (inner : schema) (refine : list (string * json) -> bool).

(** [schema.safeParse(value)]: the parsed value, or a failure. *)
Class Zod := { safeParse : schema -> json -> option json }.

(** A refinement does not change what its schema parses and accepts only what satisfies
    it; a strict object parses to an object with declared properties only. *)
Class ZodLaws `{Zod} : Prop := {
  parse_refined : forall inner refine value out, safeParse (SRefine inner refine) value = Some out ->
    safeParse inner value = Some out /\ forall fields, out = JObj fields -> refine fields = true;
  parse_strict : forall props value out, safeParse (SObject props) value = Some out ->
    exists fields, out = JObj fields /\ forall k, k ∈ fields.*1 -> k ∈ props.*1
}.

Module OperatorCatalog.
Import ProviderConfig.

Definition IdRef : schema := SString [Min 1; Max 128].

Definition scope_char (c : ascii) : bool := is_alnum c || one_of "._:-" c.

(** [ScopePattern]. *)
Definition ScopePattern (s : string) : bool :=
  match s with
  | String.EmptyString => false
  | String.String c rest => (is_alnum c && negb (is_digit c)) && all_chars scope_char rest
  end.

Definition Scope : schema := SString [Min 1; Max 128; Regex ScopePattern].

Definition PolicyContent : schema := SString [Min 1; Max 20000].

Definition NoArgs : schema := SObject [].

Definition ResourceOperationArg : schema :=
  SObject [("method", SString [Min 1; Max 16]); ("path", SString [Min 1; Max 2048]); ("scope", Scope)].

Definition WorkloadBindingArg : schema :=
  SObject [("env", SString [Min 1; Max 200]); ("resource", SString [Min 1; Max 500]);
           ("scopes", SOptional (SArray (SString [Min 1; Max 200]) None (Some 32%nat))); ("optional", SOptional SBoolean);
           ("on_failure", SOptional (SEnum ["warn"; "error"]))].

Inductive CapabilityDomain := D_zone | D_application | D_provider | D_resource | D_policy | D_grant | D_authority_record | D_session | D_agent | D_delegation | D_audit | D_workload | D_approval.

Inductive PreviewTarget := applications | providers | resources | policies | policySets | grants | workloads | sessions | delegations.

#[export] Instance PreviewTarget_eq_dec : EqDecision PreviewTarget.
Proof. solve_decision. Defined.

Inductive MutateEffect := Update | Delete.

Inductive CapabilityPreview :=
| PreviewRead
| CreateByName (target : PreviewTarget) (exists_ create : string -> string)
| MutateById (target : PreviewTarget) (idArg : string) (effect : MutateEffect) (live blocked : string -> string)
| RequireLiveThenCreate (requires : list (PreviewTarget * string * (string -> string))) (create : list (string * json) -> string).

Record CatalogEntry := {
  c_id : string;
  title : string;
  summary : string;
  domain : CapabilityDomain;
  c_mutating : bool;
  c_args : schema;
  argsHint : string;
  preview : CapabilityPreview;
  outputs : list string
}.

(** ** Refinements *)

(** [x === undefined]. *)
Definition undefined (v : json) : bool := match v with JUndefined => true | _ => false end.

Definition config_of (args : fields) : option fields := match prop "config" args with JObj c => Some c | _ => None end.

Definition connectProvider_refine (args : fields) : bool :=
  match planProviderConfigError (prop "kind" args) (config_of args) with Some _ => false | None => true end.

Definition updateProvider_refine (args : fields) : bool :=
  negb (undefined (prop "name" args) && undefined (prop "config" args))
  && forallb (fun k => negb (bool_decide (k ∈ PROVIDER_CREDENTIAL_KEYS))) (default_to [] (config_of args)).*1.

Definition updateResource_refine (args : fields) : bool := (1 <? length args)%nat.

Definition updateWorkload_refine (args : fields) : bool :=
  negb (undefined (prop "name" args) && undefined (prop "bindings" args)).

(** ** The capabilities *)

(** [(Array.isArray(args.scopes) ? args.scopes : []).join(', ')]; the scopes are strings. *)
Definition scope_list (args : fields) : string :=
  match prop "scopes" args with JArr xs => string_concat ", " (js_String <$> xs) | _ => "" end.

Definition listApplications : CatalogEntry :=
  {| c_id := "listApplications"; title := "List applications";
     summary := "Read the applications registered in the zone.";
     domain := D_application; c_mutating := false;
     c_args := NoArgs;
     argsHint := "no arguments";
     preview := PreviewRead;
     outputs := [] |}.

Definition registerApplication : CatalogEntry :=
  {| c_id := "registerApplication"; title := "Register an application";
     summary := "Register a managed application identity in the zone.";
     domain := D_application; c_mutating := true;
     c_args := SObject [("name", SString [Min 1; Max 200])];
     argsHint := "name (string)";
     preview := CreateByName applications
       (fun name => "An application named “" +:+ name +:+ "” already exists.")
       (fun name => "Would register application “" +:+ name +:+ "”.");
     outputs := ["application_id"] |}.

Definition rotateApplicationSecret : CatalogEntry :=
  {| c_id := "rotateApplicationSecret"; title := "Rotate an application secret";
     summary := "Issue a fresh client secret for an application and retire the old one.";
     domain := D_application; c_mutating := true;
     c_args := SObject [("application_id", IdRef)];
     argsHint := "application_id (string)";
     preview := MutateById applications "application_id" Update
       (fun id => "Would rotate the secret for application " +:+ id +:+ ".")
       (fun id => "Application " +:+ id +:+ " was not found in this zone.");
     outputs := ["application_id"] |}.

Definition updateApplication : CatalogEntry :=
  {| c_id := "updateApplication"; title := "Rename an application";
     summary := "Change the display name of an application registered in the zone.";
     domain := D_application; c_mutating := true;
     c_args := SObject [("application_id", IdRef); ("name", SString [Min 1; Max 200])];
     argsHint := "application_id (string), name (string)";
     preview := MutateById applications "application_id" Update
       (fun id => "Would rename application " +:+ id +:+ ".")
       (fun id => "Application " +:+ id +:+ " was not found in this zone.");
     outputs := ["application_id"] |}.

Definition deleteApplication : CatalogEntry :=
  {| c_id := "deleteApplication"; title := "Delete an application";
     summary := "Archive an application identity, removing it from active use in the zone; the record is retained for audit.";
     domain := D_application; c_mutating := true;
     c_args := SObject [("application_id", IdRef)];
     argsHint := "application_id (string)";
     preview := MutateById applications "application_id" Delete
       (fun id => "Would delete application " +:+ id +:+ " from this zone.")
       (fun id => "Application " +:+ id +:+ " was not found in this zone.");
     outputs := [] |}.

Definition listProviders : CatalogEntry :=
  {| c_id := "listProviders"; title := "List providers";
     summary := "Read the upstream providers configured in the zone.";
     domain := D_provider; c_mutating := false;
     c_args := NoArgs;
     argsHint := "no arguments";
     preview := PreviewRead;
     outputs := [] |}.

Definition connectProvider : CatalogEntry :=
  {| c_id := "connectProvider"; title := "Connect a provider";
     summary := "Add an upstream provider the zone can exchange credentials with. A credential-bearing kind collects its id, secret, key, or token through the console’s secure prompt before approval - never through the chat.";
     domain := D_provider; c_mutating := true;
     c_args := SRefine (SObject [("name", SString [Min 1; Max 200]); ("kind", SEnum ["none"; "caracal_mandate"; "oauth2_authorization_code"; "oauth2_client_credentials"; "api_key"; "bearer_token"]); ("config", SOptional (SRecord (SString [Max 64]) SUnknown))]) connectProvider_refine;
     argsHint := "name (string), kind (one of: none, caracal_mandate, oauth2_authorization_code, oauth2_client_credentials, api_key, bearer_token), config (object, optional: the kind’s non-secret settings such as token_endpoint, authorization_endpoint, redirect_uri, scopes, header_name - never a client id, secret, key, or token)";
     preview := CreateByName providers
       (fun name => "A provider named “" +:+ name +:+ "” already exists.")
       (fun name => "Would connect provider “" +:+ name +:+ "”.");
     outputs := ["provider_id"] |}.

Definition updateProvider : CatalogEntry :=
  {| c_id := "updateProvider"; title := "Update a provider";
     summary := "Change the display name or non-secret settings of an upstream provider. The provider’s kind and its credentials never change here: credential rotation goes through the console’s secure prompt.";
     domain := D_provider; c_mutating := true;
     c_args := SRefine (SObject [("provider_id", IdRef); ("name", SOptional (SString [Min 1; Max 200])); ("config", SOptional (SRecord (SString [Max 64]) SUnknown))]) updateProvider_refine;
     argsHint := "provider_id (string), name (string, optional), config (object, optional: the kind’s non-secret settings - never a client id, secret, key, or token, and never the kind itself)";
     preview := MutateById providers "provider_id" Update
       (fun id => "Would update provider " +:+ id +:+ ".")
       (fun id => "Provider " +:+ id +:+ " was not found in this zone.");
     outputs := ["provider_id"] |}.

Definition deleteProvider : CatalogEntry :=
  {| c_id := "deleteProvider"; title := "Delete a provider";
     summary := "Archive an upstream provider, removing it from active use in the zone; the record is retained for audit.";
     domain := D_provider; c_mutating := true;
     c_args := SObject [("provider_id", IdRef)];
     argsHint := "provider_id (string)";
     preview := MutateById providers "provider_id" Delete
       (fun id => "Would delete provider " +:+ id +:+ " from this zone.")
       (fun id => "Provider " +:+ id +:+ " was not found in this zone.");
     outputs := [] |}.

Definition defineResource : CatalogEntry :=
  {| c_id := "defineResource"; title := "Define a resource";
     summary := "Describe a protected resource, the scopes it exposes, and its Gateway routing: the upstream URL and the provider whose credential the Gateway attaches.";
     domain := D_resource; c_mutating := true;
     c_args := SObject [("name", SString [Min 1; Max 200]); ("scopes", SArray (Scope) (Some 1%nat) (Some 64%nat)); ("upstream_url", SString [Min 1; Max 2048; Url]); ("credential_provider_id", IdRef)];
     argsHint := "name (string), scopes (array of scope strings), upstream_url (string: the upstream API base URL the Gateway forwards to), credential_provider_id (string: the id of an existing provider whose credential the Gateway attaches)";
     preview := RequireLiveThenCreate
       [(providers, "credential_provider_id", (fun id => "Provider " +:+ id +:+ " was not found in this zone."))]
       (fun args => "Would define resource “" +:+ js_String (prop "name" args) +:+ "” exposing " +:+ scope_list args +:+ ", routed to " +:+ js_String (prop "upstream_url" args) +:+ ".");
     outputs := ["resource_id"] |}.

Definition listResources : CatalogEntry :=
  {| c_id := "listResources"; title := "List resources";
     summary := "Read the protected resources defined in the zone and the scopes they expose.";
     domain := D_resource; c_mutating := false;
     c_args := NoArgs;
     argsHint := "no arguments";
     preview := PreviewRead;
     outputs := [] |}.

Definition updateResource : CatalogEntry :=
  {| c_id := "updateResource"; title := "Update a resource";
     summary := "Change a protected resource’s name, scopes, or Gateway routing: the upstream URL, the credential provider, or its operation routes.";
     domain := D_resource; c_mutating := true;
     c_args := SRefine (SObject [("resource_id", IdRef); ("name", SOptional (SString [Min 1; Max 200])); ("scopes", SOptional (SArray (Scope) (Some 1%nat) (Some 64%nat))); ("upstream_url", SOptional (SString [Min 1; Max 2048; Url])); ("credential_provider_id", SOptional (IdRef)); ("operations", SOptional (SArray (ResourceOperationArg) None (Some 64%nat))); ("operation_enforcement", SOptional (SEnum ["enforced"; "transport_uniform"]))]) updateResource_refine;
     argsHint := "resource_id (string), then at least one of: name (string), scopes (array of scope strings), upstream_url (string), credential_provider_id (string), operations (array of {method, path, scope}), operation_enforcement (enforced or transport_uniform)";
     preview := MutateById resources "resource_id" Update
       (fun id => "Would update resource " +:+ id +:+ ".")
       (fun id => "Resource " +:+ id +:+ " was not found in this zone.");
     outputs := ["resource_id"] |}.

Definition deleteResource : CatalogEntry :=
  {| c_id := "deleteResource"; title := "Delete a resource";
     summary := "Archive a protected resource, removing it from active use in the zone; the record is retained for audit.";
     domain := D_resource; c_mutating := true;
     c_args := SObject [("resource_id", IdRef)];
     argsHint := "resource_id (string)";
     preview := MutateById resources "resource_id" Delete
       (fun id => "Would delete resource " +:+ id +:+ " from this zone.")
       (fun id => "Resource " +:+ id +:+ " was not found in this zone.");
     outputs := [] |}.

Definition listGrants : CatalogEntry :=
  {| c_id := "listGrants"; title := "List grants";
     summary := "Read the delegated grants binding applications and users to resource scopes in the zone.";
     domain := D_grant; c_mutating := false;
     c_args := NoArgs;
     argsHint := "no arguments";
     preview := PreviewRead;
     outputs := [] |}.

Definition grantAccess : CatalogEntry :=
  {| c_id := "grantAccess"; title := "Grant access";
     summary := "Authorize an application and user to use specific scopes on a resource.";
     domain := D_grant; c_mutating := true;
     c_args := SObject [("application_id", IdRef); ("user_id", IdRef); ("resource_id", IdRef); ("scopes", SArray (Scope) (Some 1%nat) (Some 64%nat))];
     argsHint := "application_id (string), user_id (string), resource_id (string), scopes (array of scope strings)";
     preview := RequireLiveThenCreate
       [(applications, "application_id", (fun id => "Application " +:+ id +:+ " was not found in this zone."));
        (resources, "resource_id", (fun id => "Resource " +:+ id +:+ " was not found in this zone."))]
       (fun args => "Would grant " +:+ scope_list args +:+ " to application " +:+ js_String (prop "application_id" args) +:+ " on resource " +:+ js_String (prop "resource_id" args) +:+ ".");
     outputs := ["grant_id"] |}.

Definition revokeGrant : CatalogEntry :=
  {| c_id := "revokeGrant"; title := "Revoke a grant";
     summary := "Revoke a delegated grant and the active sessions it authorized.";
     domain := D_grant; c_mutating := true;
     c_args := SObject [("grant_id", IdRef)];
     argsHint := "grant_id (string)";
     preview := MutateById grants "grant_id" Delete
       (fun id => "Would revoke grant " +:+ id +:+ " in this zone.")
       (fun id => "Grant " +:+ id +:+ " was not found in this zone.");
     outputs := [] |}.

Definition explainRequest : CatalogEntry :=
  {| c_id := "explainRequest"; title := "Explain a request";
     summary := "Read the full decision trace for one request id: every recorded event, the final decision, and which policies determined any denial. Changes nothing.";
     domain := D_audit; c_mutating := false;
     c_args := SObject [("request_id", IdRef)];
     argsHint := "request_id (string)";
     preview := PreviewRead;
     outputs := [] |}.

Definition listPolicies : CatalogEntry :=
  {| c_id := "listPolicies"; title := "List policies";
     summary := "Read the policies defined in the zone by name and description. Returns no policy source.";
     domain := D_policy; c_mutating := false;
     c_args := NoArgs;
     argsHint := "no arguments";
     preview := PreviewRead;
     outputs := [] |}.

Definition validatePolicy : CatalogEntry :=
  {| c_id := "validatePolicy"; title := "Validate a policy document";
     summary := "Check an authored Rego data document against the control plane’s validator without creating anything. Changes nothing.";
     domain := D_policy; c_mutating := false;
     c_args := SObject [("content", PolicyContent)];
     argsHint := "content (Rego data document)";
     preview := PreviewRead;
     outputs := [] |}.

Definition listPolicySets : CatalogEntry :=
  {| c_id := "listPolicySets"; title := "List policy sets";
     summary := "Read the policy sets composed in the zone and their activation state.";
     domain := D_policy; c_mutating := false;
     c_args := NoArgs;
     argsHint := "no arguments";
     preview := PreviewRead;
     outputs := [] |}.

Definition deletePolicy : CatalogEntry :=
  {| c_id := "deletePolicy"; title := "Delete a policy";
     summary := "Archive a policy, removing it from active use in the zone; the record is retained for audit.";
     domain := D_policy; c_mutating := true;
     c_args := SObject [("policy_id", IdRef)];
     argsHint := "policy_id (string)";
     preview := MutateById policies "policy_id" Delete
       (fun id => "Would delete policy " +:+ id +:+ " from this zone.")
       (fun id => "Policy " +:+ id +:+ " was not found in this zone.");
     outputs := [] |}.

Definition createPolicy : CatalogEntry :=
  {| c_id := "createPolicy"; title := "Create a policy";
     summary := "Create a policy from an authored data document, sealing its first immutable version.";
     domain := D_policy; c_mutating := true;
     c_args := SObject [("name", SString [Min 1; Max 200]); ("description", SOptional (SString [Max 500])); ("content", PolicyContent)];
     argsHint := "name (string), description (string, optional), content (Rego data document)";
     preview := CreateByName policies
       (fun name => "A policy named “" +:+ name +:+ "” already exists.")
       (fun name => "Would create policy “" +:+ name +:+ "” and seal its first version.");
     outputs := ["policy_id"; "policy_version_id"] |}.

Definition versionPolicy : CatalogEntry :=
  {| c_id := "versionPolicy"; title := "Version a policy";
     summary := "Seal a new immutable version of an existing policy from an authored data document.";
     domain := D_policy; c_mutating := true;
     c_args := SObject [("policy_id", IdRef); ("content", PolicyContent)];
     argsHint := "policy_id (string), content (Rego data document)";
     preview := MutateById policies "policy_id" Update
       (fun id => "Would seal a new version of policy " +:+ id +:+ ".")
       (fun id => "Policy " +:+ id +:+ " was not found in this zone.");
     outputs := ["policy_id"; "policy_version_id"] |}.

Definition createPolicySet : CatalogEntry :=
  {| c_id := "createPolicySet"; title := "Create a policy set";
     summary := "Create a policy set that composes policy versions for activation in the zone.";
     domain := D_policy; c_mutating := true;
     c_args := SObject [("name", SString [Min 1; Max 200]); ("description", SOptional (SString [Max 500]))];
     argsHint := "name (string), description (string, optional)";
     preview := CreateByName policySets
       (fun name => "A policy set named “" +:+ name +:+ "” already exists.")
       (fun name => "Would create policy set “" +:+ name +:+ "”.");
     outputs := ["policy_set_id"] |}.

Definition versionPolicySet : CatalogEntry :=
  {| c_id := "versionPolicySet"; title := "Version a policy set";
     summary := "Seal a new immutable version of a policy set from the policy versions it composes.";
     domain := D_policy; c_mutating := true;
     c_args := SObject [("policy_set_id", IdRef); ("policy_version_ids", SArray (IdRef) (Some 1%nat) (Some 64%nat))];
     argsHint := "policy_set_id (string), policy_version_ids (array of policy version id strings)";
     preview := MutateById policySets "policy_set_id" Update
       (fun id => "Would seal a new version of policy set " +:+ id +:+ ".")
       (fun id => "Policy set " +:+ id +:+ " was not found in this zone.");
     outputs := ["policy_set_id"; "policy_set_version_id"] |}.

Definition activatePolicySet : CatalogEntry :=
  {| c_id := "activatePolicySet"; title := "Activate a policy set";
     summary := "Activate a policy set version so the zone evaluates authorization against it.";
     domain := D_policy; c_mutating := true;
     c_args := SObject [("policy_set_id", IdRef); ("policy_set_version_id", IdRef)];
     argsHint := "policy_set_id (string), policy_set_version_id (string)";
     preview := MutateById policySets "policy_set_id" Update
       (fun id => "Would activate a version of policy set " +:+ id +:+ " for the whole zone.")
       (fun id => "Policy set " +:+ id +:+ " was not found in this zone.");
     outputs := ["policy_set_id"; "policy_set_version_id"] |}.

Definition simulatePolicySet : CatalogEntry :=
  {| c_id := "simulatePolicySet"; title := "Simulate a policy set version";
     summary := "Evaluate a policy set version against a hypothetical authorization input without activating it. Changes nothing.";
     domain := D_policy; c_mutating := false;
     c_args := SObject [("policy_set_id", IdRef); ("policy_set_version_id", IdRef); ("input", SOptional (SRecord (SString [Max 128]) SUnknown))];
     argsHint := "policy_set_id (string), policy_set_version_id (string), input (object, optional: the authorization input to evaluate)";
     preview := PreviewRead;
     outputs := [] |}.

Definition deletePolicySet : CatalogEntry :=
  {| c_id := "deletePolicySet"; title := "Delete a policy set";
     summary := "Archive a policy set, removing it from active use in the zone; the record is retained for audit.";
     domain := D_policy; c_mutating := true;
     c_args := SObject [("policy_set_id", IdRef)];
     argsHint := "policy_set_id (string)";
     preview := MutateById policySets "policy_set_id" Delete
       (fun id => "Would delete policy set " +:+ id +:+ " from this zone.")
       (fun id => "Policy set " +:+ id +:+ " was not found in this zone.");
     outputs := [] |}.

Definition listAuthorityRecords : CatalogEntry :=
  {| c_id := "listAuthorityRecords"; title := "List authority records";
     summary := "Read the Authority records in the zone with their subjects and expiry, optionally filtered by subject or status.";
     domain := D_authority_record; c_mutating := false;
     c_args := SObject [("subject", SOptional (SString [Min 1; Max 200])); ("status", SOptional (SString [Min 1; Max 64])); ("limit", SOptional (SInt 1 500))];
     argsHint := "subject (string, optional), status (string, optional), limit (number, optional)";
     preview := PreviewRead;
     outputs := [] |}.

Definition listSessions : CatalogEntry :=
  {| c_id := "listSessions"; title := "List sessions";
     summary := "Read the Sessions running in the zone with their lifecycle and status.";
     domain := D_session; c_mutating := false;
     c_args := NoArgs;
     argsHint := "no arguments";
     preview := PreviewRead;
     outputs := [] |}.

Definition suspendSession : CatalogEntry :=
  {| c_id := "suspendSession"; title := "Suspend a session";
     summary := "Pause a running Session so it stops acting until resumed; its delegated authority is retained.";
     domain := D_session; c_mutating := true;
     c_args := SObject [("session_id", IdRef)];
     argsHint := "session_id (string)";
     preview := MutateById sessions "session_id" Update
       (fun id => "Would suspend Session " +:+ id +:+ ".")
       (fun id => "Session " +:+ id +:+ " is not live in this zone.");
     outputs := ["session_id"] |}.

Definition resumeSession : CatalogEntry :=
  {| c_id := "resumeSession"; title := "Resume a session";
     summary := "Resume a suspended Session so it can act again under its existing authority.";
     domain := D_session; c_mutating := true;
     c_args := SObject [("session_id", IdRef)];
     argsHint := "session_id (string)";
     preview := MutateById sessions "session_id" Update
       (fun id => "Would resume Session " +:+ id +:+ ".")
       (fun id => "Session " +:+ id +:+ " is not live in this zone.");
     outputs := ["session_id"] |}.

Definition terminateSession : CatalogEntry :=
  {| c_id := "terminateSession"; title := "Terminate a session";
     summary := "Permanently end a Session and its descendants, revoking the authority delegated to them.";
     domain := D_session; c_mutating := true;
     c_args := SObject [("session_id", IdRef)];
     argsHint := "session_id (string)";
     preview := MutateById sessions "session_id" Delete
       (fun id => "Would terminate Session " +:+ id +:+ " and its descendants.")
       (fun id => "Session " +:+ id +:+ " is not live in this zone.");
     outputs := [] |}.

Definition listDelegations : CatalogEntry :=
  {| c_id := "listDelegations"; title := "List delegations";
     summary := "Read the active Delegations in the zone: who delegated which scopes to whom.";
     domain := D_delegation; c_mutating := false;
     c_args := NoArgs;
     argsHint := "no arguments";
     preview := PreviewRead;
     outputs := [] |}.

Definition revokeDelegation : CatalogEntry :=
  {| c_id := "revokeDelegation"; title := "Revoke a delegation";
     summary := "Revoke a Delegation, withdrawing the scopes it conferred from the receiving Session and its descendants.";
     domain := D_delegation; c_mutating := true;
     c_args := SObject [("delegation_id", IdRef)];
     argsHint := "delegation_id (string)";
     preview := MutateById delegations "delegation_id" Delete
       (fun id => "Would revoke delegation " +:+ id +:+ ".")
       (fun id => "Delegation " +:+ id +:+ " is not active in this zone.");
     outputs := [] |}.

Definition listAuditEvents : CatalogEntry :=
  {| c_id := "listAuditEvents"; title := "List audit events";
     summary := "Read the most recent authorization decisions and control events recorded in the zone, optionally filtered by time window, decision, event type, or request id.";
     domain := D_audit; c_mutating := false;
     c_args := SObject [("since", SOptional (SString [Min 1; Max 64])); ("until", SOptional (SString [Min 1; Max 64])); ("decision", SOptional (SString [Min 1; Max 32])); ("event_type", SOptional (SString [Min 1; Max 128])); ("request_id", SOptional (IdRef)); ("limit", SOptional (SInt 1 500))];
     argsHint := "since (ISO timestamp, optional), until (ISO timestamp, optional), decision (string, optional), event_type (string, optional), request_id (string, optional), limit (number, optional)";
     preview := PreviewRead;
     outputs := [] |}.

Definition listAdminActivity : CatalogEntry :=
  {| c_id := "listAdminActivity"; title := "List admin activity";
     summary := "Read the most recent admin actions recorded in the zone: who changed what, when, and through which surface.";
     domain := D_audit; c_mutating := false;
     c_args := NoArgs;
     argsHint := "no arguments";
     preview := PreviewRead;
     outputs := [] |}.

Definition listWorkloads : CatalogEntry :=
  {| c_id := "listWorkloads"; title := "List workloads";
     summary := "Read the workload launcher identities defined in the zone and their credential bindings.";
     domain := D_workload; c_mutating := false;
     c_args := NoArgs;
     argsHint := "no arguments";
     preview := PreviewRead;
     outputs := [] |}.

Definition createWorkload : CatalogEntry :=
  {| c_id := "createWorkload"; title := "Create a workload";
     summary := "Create a workload launcher identity for caracal run. The one-time workload secret is issued at apply and never retrievable again.";
     domain := D_workload; c_mutating := true;
     c_args := SObject [("name", SString [Min 1; Max 200])];
     argsHint := "name (string)";
     preview := CreateByName workloads
       (fun name => "A workload named “" +:+ name +:+ "” already exists.")
       (fun name => "Would create workload “" +:+ name +:+ "” and issue its one-time secret.");
     outputs := ["workload_id"] |}.

Definition updateWorkload : CatalogEntry :=
  {| c_id := "updateWorkload"; title := "Update a workload";
     summary := "Change a workload’s name or replace its credential bindings: which environment variables carry which governed resource credentials.";
     domain := D_workload; c_mutating := true;
     c_args := SRefine (SObject [("workload_id", IdRef); ("name", SOptional (SString [Min 1; Max 200])); ("bindings", SOptional (SArray (WorkloadBindingArg) None (Some 64%nat)))]) updateWorkload_refine;
     argsHint := "workload_id (string), then at least one of: name (string), bindings (array of {env, resource, scopes (optional), optional (boolean, optional), on_failure (warn or error, optional)})";
     preview := MutateById workloads "workload_id" Update
       (fun id => "Would update workload " +:+ id +:+ ".")
       (fun id => "Workload " +:+ id +:+ " was not found in this zone.");
     outputs := ["workload_id"] |}.

Definition rotateWorkloadSecret : CatalogEntry :=
  {| c_id := "rotateWorkloadSecret"; title := "Rotate a workload secret";
     summary := "Issue a fresh one-time secret for a workload and retire the old one.";
     domain := D_workload; c_mutating := true;
     c_args := SObject [("workload_id", IdRef)];
     argsHint := "workload_id (string)";
     preview := MutateById workloads "workload_id" Update
       (fun id => "Would rotate the secret for workload " +:+ id +:+ ".")
       (fun id => "Workload " +:+ id +:+ " was not found in this zone.");
     outputs := ["workload_id"] |}.

Definition deleteWorkload : CatalogEntry :=
  {| c_id := "deleteWorkload"; title := "Delete a workload";
     summary := "Permanently delete a workload launcher identity and its credential bindings; its secret stops working immediately.";
     domain := D_workload; c_mutating := true;
     c_args := SObject [("workload_id", IdRef)];
     argsHint := "workload_id (string)";
     preview := MutateById workloads "workload_id" Delete
       (fun id => "Would delete workload " +:+ id +:+ " from this zone.")
       (fun id => "Workload " +:+ id +:+ " was not found in this zone.");
     outputs := [] |}.

Definition listApprovals : CatalogEntry :=
  {| c_id := "listApprovals"; title := "List approvals";
     summary := "Read the step-up approval requests recorded in the zone and their state. Deciding an approval stays with humans: the Operator can never approve or reject.";
     domain := D_approval; c_mutating := false;
     c_args := NoArgs;
     argsHint := "no arguments";
     preview := PreviewRead;
     outputs := [] |}.

Definition CATALOG : list (string * CatalogEntry) :=
  [("listApplications", listApplications);
   ("registerApplication", registerApplication);
   ("rotateApplicationSecret", rotateApplicationSecret);
   ("updateApplication", updateApplication);
   ("deleteApplication", deleteApplication);
   ("listProviders", listProviders);
   ("connectProvider", connectProvider);
   ("updateProvider", updateProvider);
   ("deleteProvider", deleteProvider);
   ("defineResource", defineResource);
   ("listResources", listResources);
   ("updateResource", updateResource);
   ("deleteResource", deleteResource);
   ("listGrants", listGrants);
   ("grantAccess", grantAccess);
   ("revokeGrant", revokeGrant);
   ("explainRequest", explainRequest);
   ("listPolicies", listPolicies);
   ("validatePolicy", validatePolicy);
   ("listPolicySets", listPolicySets);
   ("deletePolicy", deletePolicy);
   ("createPolicy", createPolicy);
   ("versionPolicy", versionPolicy);
   ("createPolicySet", createPolicySet);
   ("versionPolicySet", versionPolicySet);
   ("activatePolicySet", activatePolicySet);
   ("simulatePolicySet", simulatePolicySet);
   ("deletePolicySet", deletePolicySet);
   ("listAuthorityRecords", listAuthorityRecords);
   ("listSessions", listSessions);
   ("suspendSession", suspendSession);
   ("resumeSession", resumeSession);
   ("terminateSession", terminateSession);
   ("listDelegations", listDelegations);
   ("revokeDelegation", revokeDelegation);
   ("listAuditEvents", listAuditEvents);
   ("listAdminActivity", listAdminActivity);
   ("listWorkloads", listWorkloads);
   ("createWorkload", createWorkload);
   ("updateWorkload", updateWorkload);
   ("rotateWorkloadSecret", rotateWorkloadSecret);
   ("deleteWorkload", deleteWorkload);
   ("listApprovals", listApprovals)].

(** ** The catalog the plan validator uses *)

(** What the validator reads of an entry. *)
Definition plan_capability `{Zod} (e : CatalogEntry) : Capability :=
  {| cap_id := e.(c_id); cap_mutating := e.(c_mutating); cap_outputs := e.(outputs);
     cap_args := fun args => match safeParse e.(c_args) (JObj args) with Some (JObj out) => Some out | _ => None end |}.

Definition table `{Zod} : list (string * Capability) := prod_map id plan_capability <$> CATALOG.
End OperatorCatalog.
