(* ===== verification/ControlTable.v ===== *)
(** * The control map of the Operator

    [apps/api/src/operator-control-map.ts]: for each capability the control command it is
    sent as, the scopes of its token and the outcome shaped from the reply.  Arguments
    and replies are JSON; a property that is absent is [JUndefined]. *)

From Stdlib Require Import Ascii.
From Stdlib Require String.
From S2P Require Import Prelude.
From S2P Require Import Json.
From S2P Require Import JsonText.
From S2P Require Import Text.
From S2P Require Import OperatorCatalog.
From S2P Require Import Governed.
Local Open Scope string_scope.

Module ControlTable.
Import ProviderConfig.

Definition asString (value : json) : string := match value with JStr s => s | v => js_String v end.

Definition asScopes (value : json) : list string := match value with JArr xs => asString <$> xs | _ => [] end.

Definition asRecord (value : json) : fields := match value with JObj o => o | _ => [] end.

Definition asRows (value : json) : list json :=
  match value with
  | JArr xs => xs
  | v =>
      let envelope := asRecord v in
      match prop "rows" envelope, prop "items" envelope with
      | JArr xs, _ => xs
      | _, JArr xs => xs
      | _, _ => []
      end
  end.

(** [/[^aeiou]y$/]. *)
Fixpoint ends_in_y (s : string) : bool :=
  match s with
  | String.String a (String.String "y"%char String.EmptyString) => negb (one_of "aeiou" a)
  | String.String _ rest => ends_in_y rest
  | String.EmptyString => false
  end.

Definition pluralize (singular : string) : string :=
  if ends_in_y singular then take_bytes (String.length singular - 1) singular +:+ "ies" else singular +:+ "s".

Definition countLabel (rows : list json) (singular : string) : string :=
  let n := length rows in "Found " +:+ pretty n +:+ " " +:+ (if (n =? 1)%nat then singular else pluralize singular).

(** [args.k] as a string, and as an optional property of an object literal. *)
Notation arg k args := (asString (prop k args)).

Definition optional (k : string) (v : json) (value : json) : fields := if OperatorCatalog.undefined v then [] else [(k, value)].

(** [{ ...a, ...b }]. *)
Definition spread_fields (a b : fields) : fields := own_order (foldl (fun out kv => ordered_set kv.1 kv.2 out) a b).

Definition JScopes (xs : list string) : json := JArr (JStr <$> xs).

Definition readControl (command noun sub : string) (flags : fields -> fields) : ControlCapability :=
  {| cc_scopes := ["control:" +:+ command +:+ ":read"];
     buildInvocation := fun args _ => {| command := command; subcommand := sub; flags := flags args |};
     describeOutcome := fun result _ =>
       let rows := asRows result in (countLabel rows noun +:+ " in this zone.", Some [(pluralize noun, JArr rows)]) |}.

Definition no_flags (_ : fields) : fields := [].

Definition filterFlags (args : fields) (names : list (string * string)) : fields :=
  concat ((fun nf => optional nf.2 (prop nf.1 args) (prop nf.1 args)) <$> names).

Definition removeControl (command sub idArg : string) (describe : string -> string) : ControlCapability :=
  {| cc_scopes := ["control:" +:+ command +:+ ":delete"];
     buildInvocation := fun args _ => {| command := command; subcommand := sub; flags := [("id", JStr (arg idArg args))] |};
     describeOutcome := fun _ args => (describe (arg idArg args), Some [(idArg, JStr (arg idArg args))]) |}.

(** A capability that ignores pasted credentials. *)
Definition plain_control (scope command sub : string) (flags : fields -> fields)
    (describe : json -> fields -> string * option fields) : ControlCapability :=
  {| cc_scopes := [scope];
     buildInvocation := fun args _ => {| command := command; subcommand := sub; flags := flags args |};
     describeOutcome := describe |}.

(** ** Reads *)

Definition listApplications : ControlCapability := readControl "app" "application" "list" no_flags.
Definition listProviders : ControlCapability := readControl "identity-provider" "provider" "list" no_flags.
Definition listResources : ControlCapability := readControl "resource" "resource" "list" no_flags.
Definition listPolicies : ControlCapability := readControl "policy" "policy" "list" no_flags.
Definition listPolicySets : ControlCapability := readControl "policy-set" "policy set" "list" no_flags.
Definition listGrants : ControlCapability := readControl "grant" "grant" "list" no_flags.
Definition listAuthorityRecords : ControlCapability :=
  readControl "authority-record" "authority record" "list"
    (fun args => filterFlags args [("subject", "subject"); ("status", "status"); ("limit", "limit")]).
Definition listSessions : ControlCapability := readControl "session" "session" "list" no_flags.
Definition listDelegations : ControlCapability := readControl "delegation" "delegation" "active" no_flags.
Definition listAuditEvents : ControlCapability :=
  readControl "audit" "audit event" "tail"
    (fun args => spread_fields [("limit", JNum 50)]
       (filterFlags args [("since", "since"); ("until", "until"); ("decision", "decision"); ("event_type", "event-type");
                          ("request_id", "request-id"); ("limit", "limit")])).
Definition listAdminActivity : ControlCapability := readControl "audit" "admin event" "admin" (fun _ => [("limit", JNum 50)]).
Definition listWorkloads : ControlCapability := readControl "workload" "workload" "list" no_flags.
Definition listApprovals : ControlCapability := readControl "approval" "approval" "list" no_flags.

Definition explainRequest : ControlCapability :=
  plain_control "control:explain:read" "explain" "" (fun args => [("request-id", JStr (arg "request_id" args))])
    (fun result args =>
       let trace := asRecord result in
       let decision := match prop "final_decision" trace with JStr d => " Final decision: " +:+ d +:+ "." | _ => "" end in
       ("Explained request " +:+ arg "request_id" args +:+ "." +:+ decision, Some [("trace", JObj trace)])).

Definition validatePolicy : ControlCapability :=
  plain_control "control:policy:read" "policy" "validate" (fun args => [("content", JStr (arg "content" args))])
    (fun result _ =>
       let validation := asRecord result in
       (match prop "valid" validation with JBool true => "The policy document is valid." | _ => "The policy document failed validation." end,
        Some [("validation", JObj validation)])).

Definition simulatePolicySet : ControlCapability :=
  plain_control "control:policy-set:read" "policy-set" "simulate"
    (fun args =>
       ([("id", JStr (arg "policy_set_id" args)); ("version", JStr (arg "policy_set_version_id" args))]
        ++ optional "input" (prop "input" args) (JStr (text (JObj (asRecord (prop "input" args))))))%list)
    (fun result args =>
       let simulation := asRecord result in
       let decision := match prop "decision" (asRecord (prop "result" simulation)) with JStr d => " Decision: " +:+ d +:+ "." | _ => "" end in
       ("Simulated version " +:+ arg "policy_set_version_id" args +:+ " of policy set " +:+ arg "policy_set_id" args +:+ "." +:+ decision,
        Some [("simulation", JObj simulation)])).

(** ** Applications and providers *)

Definition registerApplication : ControlCapability :=
  plain_control "control:app:write" "app" "create" (fun args => [("name", JStr (arg "name" args))])
    (fun result args =>
       let app := asRecord result in
       ("Registered application “" +:+ arg "name" args +:+ "” and issued a client secret.",
        Some [("application_id", prop "id" app); ("client_secret", prop "client_secret" app)])).

(** The config with the pasted credentials. *)
Definition provider_config (args : fields) (secrets : option (list (string * string))) : fields :=
  spread_fields (asRecord (prop "config" args)) (prod_map id JStr <$> default_to [] secrets).

Definition connectProvider : ControlCapability :=
  {| cc_scopes := ["control:identity-provider:write"];
     buildInvocation := fun args secrets =>
       let config := provider_config args secrets in
       {| command := "identity-provider"; subcommand := "create";
          flags := ([("name", JStr (arg "name" args)); ("kind", JStr (arg "kind" args))]
                    ++ match config with [] => [] | _ => [("config", JStr (text (JObj config)))] end)%list |};
     describeOutcome := fun result args =>
       ("Connected provider “" +:+ arg "name" args +:+ "” (" +:+ arg "kind" args +:+ ").",
        Some [("provider_id", prop "id" (asRecord result))]) |}.

Definition rotateApplicationSecret : ControlCapability :=
  plain_control "control:app:write" "app" "rotate-secret" (fun args => [("id", JStr (arg "application_id" args))])
    (fun result args =>
       ("Rotated the client secret for application " +:+ arg "application_id" args +:+ " and retired the old one.",
        Some [("application_id", JStr (arg "application_id" args)); ("client_secret", JStr (arg "client_secret" (asRecord result)))])).

Definition deleteApplication : ControlCapability :=
  removeControl "app" "delete" "application_id" (fun id => "Deleted application " +:+ id +:+ " from this zone.").
Definition deleteResource : ControlCapability :=
  removeControl "resource" "delete" "resource_id" (fun id => "Deleted resource " +:+ id +:+ " from this zone.").
Definition deleteProvider : ControlCapability :=
  removeControl "identity-provider" "delete" "provider_id" (fun id => "Deleted provider " +:+ id +:+ " from this zone.").
Definition deletePolicy : ControlCapability :=
  removeControl "policy" "delete" "policy_id" (fun id => "Deleted policy " +:+ id +:+ " from this zone.").
Definition deletePolicySet : ControlCapability :=
  removeControl "policy-set" "delete" "policy_set_id" (fun id => "Deleted policy set " +:+ id +:+ " from this zone.").

Definition updateApplication : ControlCapability :=
  plain_control "control:app:write" "app" "patch" (fun args => [("id", JStr (arg "application_id" args)); ("name", JStr (arg "name" args))])
    (fun _ args =>
       ("Renamed application " +:+ arg "application_id" args +:+ " to “" +:+ arg "name" args +:+ "”.",
        Some [("application_id", JStr (arg "application_id" args))])).

Definition updateProvider : ControlCapability :=
  plain_control "control:identity-provider:write" "identity-provider" "patch"
    (fun args =>
       ([("id", JStr (arg "provider_id" args))]
        ++ optional "name" (prop "name" args) (JStr (arg "name" args))
        ++ optional "config" (prop "config" args) (JStr (text (JObj (asRecord (prop "config" args))))))%list)
    (fun _ args => ("Updated provider " +:+ arg "provider_id" args +:+ ".", Some [("provider_id", JStr (arg "provider_id" args))])).

(** ** Resources *)

Definition defineResource : ControlCapability :=
  plain_control "control:resource:write" "resource" "create"
    (fun args =>
       [("name", JStr (arg "name" args)); ("scopes", JScopes (asScopes (prop "scopes" args)));
        ("upstream-url", JStr (arg "upstream_url" args)); ("credential-provider-id", JStr (arg "credential_provider_id" args))])
    (fun result args =>
       ("Defined resource “" +:+ arg "name" args +:+ "” exposing " +:+ string_concat ", " (asScopes (prop "scopes" args)) +:+ ", routed to "
          +:+ arg "upstream_url" args +:+ ".",
        Some [("resource_id", prop "id" (asRecord result))])).

Definition updateResource : ControlCapability :=
  plain_control "control:resource:write" "resource" "patch"
    (fun args =>
       ([("id", JStr (arg "resource_id" args))]
        ++ optional "name" (prop "name" args) (JStr (arg "name" args))
        ++ optional "scopes" (prop "scopes" args) (JScopes (asScopes (prop "scopes" args)))
        ++ optional "upstream-url" (prop "upstream_url" args) (JStr (arg "upstream_url" args))
        ++ optional "credential-provider-id" (prop "credential_provider_id" args) (JStr (arg "credential_provider_id" args))
        ++ optional "operations" (prop "operations" args) (prop "operations" args)
        ++ optional "operation-enforcement" (prop "operation_enforcement" args) (JStr (arg "operation_enforcement" args)))%list)
    (fun _ args => ("Updated resource " +:+ arg "resource_id" args +:+ ".", Some [("resource_id", JStr (arg "resource_id" args))])).

(** ** Policies *)

Definition createPolicy : ControlCapability :=
  plain_control "control:policy:write" "policy" "create"
    (fun args =>
       ([("name", JStr (arg "name" args))] ++ optional "description" (prop "description" args) (JStr (arg "description" args))
        ++ [("content", JStr (arg "content" args))])%list)
    (fun result args =>
       let policy := asRecord result in
       ("Created policy “" +:+ arg "name" args +:+ "” and sealed its first version.",
        Some [("policy_id", prop "id" policy); ("policy_version_id", prop "version_id" policy)])).

Definition versionPolicy : ControlCapability :=
  plain_control "control:policy:write" "policy" "version"
    (fun args => [("id", JStr (arg "policy_id" args)); ("content", JStr (arg "content" args))])
    (fun result args =>
       ("Sealed a new version of policy " +:+ arg "policy_id" args +:+ ".",
        Some [("policy_id", JStr (arg "policy_id" args)); ("policy_version_id", prop "version_id" (asRecord result))])).

Definition createPolicySet : ControlCapability :=
  plain_control "control:policy-set:write" "policy-set" "create"
    (fun args => ([("name", JStr (arg "name" args))] ++ optional "description" (prop "description" args) (JStr (arg "description" args)))%list)
    (fun result args => ("Created policy set “" +:+ arg "name" args +:+ "”.", Some [("policy_set_id", prop "id" (asRecord result))])).

Definition versionPolicySet : ControlCapability :=
  plain_control "control:policy-set:write" "policy-set" "version"
    (fun args => [("id", JStr (arg "policy_set_id" args)); ("policy-versions", JScopes (asScopes (prop "policy_version_ids" args)))])
    (fun result args =>
       ("Sealed a new version of policy set " +:+ arg "policy_set_id" args +:+ ".",
        Some [("policy_set_id", JStr (arg "policy_set_id" args)); ("policy_set_version_id", prop "version_id" (asRecord result))])).

Definition activatePolicySet : ControlCapability :=
  plain_control "control:policy-set:write" "policy-set" "activate"
    (fun args => [("id", JStr (arg "policy_set_id" args)); ("version", JStr (arg "policy_set_version_id" args))])
    (fun _ args =>
       ("Activated version " +:+ arg "policy_set_version_id" args +:+ " of policy set " +:+ arg "policy_set_id" args +:+ " for the zone.",
        Some [("policy_set_id", JStr (arg "policy_set_id" args)); ("policy_set_version_id", JStr (arg "policy_set_version_id" args))])).

(** ** Grants, Sessions and delegations *)

Definition revokeGrant : ControlCapability :=
  removeControl "grant" "revoke" "grant_id" (fun id => "Revoked grant " +:+ id +:+ " and the active sessions it authorized.").

Definition session_output (verb : string) (args : fields) : string * option fields :=
  (verb +:+ " Session " +:+ arg "session_id" args +:+ ".", Some [("session_id", JStr (arg "session_id" args))]).

Definition suspendSession : ControlCapability :=
  plain_control "control:session:write" "session" "suspend" (fun args => [("id", JStr (arg "session_id" args))])
    (fun _ args => session_output "Suspended" args).
Definition resumeSession : ControlCapability :=
  plain_control "control:session:write" "session" "resume" (fun args => [("id", JStr (arg "session_id" args))])
    (fun _ args => session_output "Resumed" args).
Definition terminateSession : ControlCapability :=
  removeControl "session" "terminate" "session_id" (fun id => "Terminated Session " +:+ id +:+ " and its descendants.").
Definition revokeDelegation : ControlCapability :=
  removeControl "delegation" "revoke" "delegation_id" (fun id => "Revoked delegation " +:+ id +:+ ".").

Definition grantAccess : ControlCapability :=
  plain_control "control:grant:write" "grant" "create"
    (fun args =>
       [("application-id", JStr (arg "application_id" args)); ("user-id", JStr (arg "user_id" args));
        ("resource-id", JStr (arg "resource_id" args)); ("scopes", JScopes (asScopes (prop "scopes" args)))])
    (fun result args =>
       ("Granted " +:+ string_concat ", " (asScopes (prop "scopes" args)) +:+ " to application " +:+ arg "application_id" args
          +:+ " on resource " +:+ arg "resource_id" args +:+ ".",
        Some [("grant_id", prop "id" (asRecord result))])).

(** ** Workloads *)

Definition createWorkload : ControlCapability :=
  plain_control "control:workload:write" "workload" "create" (fun args => [("name", JStr (arg "name" args))])
    (fun result args =>
       let workload := asRecord result in
       ("Created workload “" +:+ arg "name" args +:+ "” and issued its one-time secret.",
        Some [("workload_id", prop "id" workload); ("secret", prop "secret" workload)])).

Definition updateWorkload : ControlCapability :=
  plain_control "control:workload:write" "workload" "patch"
    (fun args =>
       ([("id", JStr (arg "workload_id" args))] ++ optional "name" (prop "name" args) (JStr (arg "name" args))
        ++ optional "bindings" (prop "bindings" args) (prop "bindings" args))%list)
    (fun _ args => ("Updated workload " +:+ arg "workload_id" args +:+ ".", Some [("workload_id", JStr (arg "workload_id" args))])).

Definition rotateWorkloadSecret : ControlCapability :=
  plain_control "control:workload:write" "workload" "rotate-secret" (fun args => [("id", JStr (arg "workload_id" args))])
    (fun result args =>
       ("Rotated the secret for workload " +:+ arg "workload_id" args +:+ " and retired the old one.",
        Some [("workload_id", JStr (arg "workload_id" args)); ("secret", JStr (arg "secret" (asRecord result)))])).

Definition deleteWorkload : ControlCapability :=
  removeControl "workload" "delete" "workload_id" (fun id => "Deleted workload " +:+ id +:+ " from this zone.").

(** ** The map *)

Definition CONTROL_TABLE : list (string * ControlCapability) :=
  [("listApplications", listApplications); ("listProviders", listProviders); ("listResources", listResources); ("listPolicies", listPolicies);
   ("listPolicySets", listPolicySets); ("listGrants", listGrants); ("listAuthorityRecords", listAuthorityRecords);
   ("listSessions", listSessions); ("listDelegations", listDelegations); ("listAuditEvents", listAuditEvents);
   ("listAdminActivity", listAdminActivity); ("listWorkloads", listWorkloads); ("listApprovals", listApprovals);
   ("explainRequest", explainRequest); ("validatePolicy", validatePolicy); ("simulatePolicySet", simulatePolicySet);
   ("registerApplication", registerApplication); ("connectProvider", connectProvider); ("defineResource", defineResource);
   ("rotateApplicationSecret", rotateApplicationSecret); ("deleteApplication", deleteApplication); ("deleteResource", deleteResource);
   ("deleteProvider", deleteProvider); ("deletePolicy", deletePolicy); ("deletePolicySet", deletePolicySet);
   ("updateApplication", updateApplication); ("updateProvider", updateProvider); ("updateResource", updateResource);
   ("createPolicy", createPolicy); ("versionPolicy", versionPolicy); ("createPolicySet", createPolicySet);
   ("versionPolicySet", versionPolicySet); ("activatePolicySet", activatePolicySet); ("revokeGrant", revokeGrant);
   ("suspendSession", suspendSession); ("resumeSession", resumeSession); ("terminateSession", terminateSession);
   ("revokeDelegation", revokeDelegation); ("createWorkload", createWorkload); ("updateWorkload", updateWorkload);
   ("rotateWorkloadSecret", rotateWorkloadSecret); ("deleteWorkload", deleteWorkload); ("grantAccess", grantAccess)].

(** [in] sees inherited properties too. *)
Definition isControlExecutable (capabilityId : string) : bool :=
  bool_decide (is_Some (ordered_get capabilityId CONTROL_TABLE)) || bool_decide (capabilityId ∈ OBJECT_PROTOTYPE).

(** The catalog and the map of the Operator. *)
#[export] Instance operator_capabilities `{Zod} : Capabilities :=
  {| CAPABILITIES := OperatorCatalog.table; Governed.isControlExecutable := isControlExecutable |}.

#[export] Instance operator_controls : ControlMap := {| CONTROL_CAPABILITIES := fun id => ordered_get id CONTROL_TABLE |}.
End ControlTable.
