(* ===== verification/CapabilityFacts.v ===== *)
(** * The Operator's capabilities against the control surface

    The catalog ([OperatorCatalog]), the control map ([ControlTable]) and the dispatcher
    of the engine ([Dispatch]) agree: every capability is one command of the surface under
    exactly the scope it needs, its effect is the catalog's classification, and no plan
    that validates carries provider credentials. *)

From Stdlib Require Import Ascii.
From S2P Require Import Prelude.
From S2P Require Import Json.
From S2P Require Import JsonText.
From S2P Require Import Prog.
From S2P Require Import AdminClient.
From S2P Require Import Catalog.
From S2P Require Import Dispatch.
From S2P Require Import DispatchFacts.
From S2P Require Import Paths.
From S2P Require Import OperatorCatalog.
From S2P Require Import Governed.
From S2P Require Import ControlTable.
Local Open Scope string_scope.

Module CapabilityFacts.
Import AdminClient.
Import Dispatch.
Import DispatchFacts.
Import ProviderConfig.
Import OperatorCatalog.
Import ControlTable.

(** ** Every capability is a command *)

(** What the control plane receives for a step. *)
Definition operator_request (inv : Invocation) : DispatchRequest :=
  {| req_command := inv.(command); req_subcommand := inv.(subcommand); req_flags := Some inv.(flags) |}.

Record dispatchable (e : CatalogEntry) (cc : ControlCapability) (desc : Catalog.CommandDescriptor) (sub : string) : Prop := {
  di_invocation : forall args secrets,
    (buildInvocation cc args secrets).(command) = Catalog.name desc /\ (buildInvocation cc args secrets).(subcommand) = sub;
  di_known : Catalog.findCommand Catalog.MANAGEMENT_COMMANDS (Catalog.name desc) = Some desc;
  di_open : Catalog.hidden desc = false /\ Catalog.requiresZone desc = true /\ Catalog.delegatesScope desc = false;
  di_sub : forall flags, subcommand_allowed {| req_command := Catalog.name desc; req_subcommand := sub; req_flags := flags |} desc = inr tt;
  di_scopes : cc_scopes cc = [Catalog.scopeName desc sub];
  di_effect : c_mutating e = match Catalog.scopeFor desc sub with Catalog.read => false | _ => true end;
  di_outputs : forall result args k, k ∈ outputs e -> exists o, (describeOutcome cc result args).2 = Some o /\ k ∈ o.*1
}.

(** The command a control entry is sent as. *)
Definition desc_of (cc : ControlCapability) : Catalog.CommandDescriptor :=
  default_to Catalog.up_command (Catalog.findCommand Catalog.MANAGEMENT_COMMANDS (buildInvocation cc [] None).(command)).
Definition sub_of (cc : ControlCapability) : string := (buildInvocation cc [] None).(subcommand).

Definition entry_ok (ke : string * CatalogEntry) : Prop :=
  c_id ke.2 = ke.1 /\ exists cc, ordered_get ke.1 CONTROL_TABLE = Some cc /\ dispatchable ke.2 cc (desc_of cc) (sub_of cc).

(** One entry: its outputs are among the keys of the outcome. *)
Ltac entry_output :=
  let Hk := fresh in
  intros ? ? ? Hk; eexists; split; [reflexivity|]; cbn in Hk |- *;
  repeat (apply elem_of_cons in Hk as [-> | Hk]; [first [by left | by right; left]|]); by apply elem_of_nil in Hk.

Ltac entry_tac :=
  split; [reflexivity|]; eexists; split; [cbn; reflexivity|];
  split; [intros ? ?; split; vm_compute; reflexivity|vm_compute; reflexivity|split_and!; vm_compute; reflexivity|intros ?; vm_compute; reflexivity
         |vm_compute; reflexivity|vm_compute; reflexivity|entry_output].

Lemma catalog_ok : Forall entry_ok CATALOG.
Proof. unfold CATALOG. repeat (apply Forall_cons; split; [entry_tac|]). apply Forall_nil. done. Qed.

Lemma entry_of name e :
  ordered_get name CATALOG = Some e -> exists cc, ordered_get name CONTROL_TABLE = Some cc /\ dispatchable e cc (desc_of cc) (sub_of cc).
Proof.
  intros He. apply ordered_get_elem in He. pose proof catalog_ok as Hall. rewrite Forall_forall in Hall. apply (Hall _ He).
Qed.

(** A request of a capability passes every check of the dispatcher but that of its flags. *)
Lemma operator_request_accepted e cc p z args secrets :
  dispatchable e cc (desc_of cc) (sub_of cc) -> p.(p_zoneId) = Some z -> z <> "" -> p.(p_scopes) = cc_scopes cc ->
  accept_request (operator_request (buildInvocation cc args secrets)) p =
  match validateFlags (Some (buildInvocation cc args secrets).(flags)) with inl x => inl x | inr _ => inr (desc_of cc) end.
Proof.
  intros [Hinv Hk (Hh & Hz & Hd) Hs Hsc _ _] Hzone Hne Hscopes. destruct (Hinv args secrets) as [Hc Hsub].
  unfold accept_request, operator_request. cbn [req_command req_subcommand req_flags]. rewrite Hc, Hsub, Hk, Hh.
  unfold assertZoneBound, requireZone. rewrite Hz, Hzone, bool_decide_false by done. rewrite Hs.
  destruct (validateFlags _) as [x|u]; [done|]. unfold assertScope. rewrite Hd, Hscopes, Hsc, bool_decide_true by (by left). done.
Qed.

(** C33. The Operator's catalog and control map agree with the control surface.  Every
    capability has exactly one entry in either table; its invocation, whatever the
    arguments, is one subcommand of a zone-bound command; its token carries that
    subcommand's scope and no other; it is classified as changing state exactly when that
    scope is not a read scope; every output a later step may reference is surfaced; and
    the dispatcher accepts it under its token whenever its flags are well formed. *)
Theorem capabilities_match_control :
  NoDup CATALOG.*1 /\ CATALOG.*1 ≡ₚ CONTROL_TABLE.*1
  /\ forall name e, ordered_get name CATALOG = Some e ->
     exists cc, ordered_get name CONTROL_TABLE = Some cc /\ dispatchable e cc (desc_of cc) (sub_of cc)
     /\ forall p z args secrets, p.(p_zoneId) = Some z -> z <> "" -> p.(p_scopes) = cc_scopes cc ->
        validateFlags (Some (buildInvocation cc args secrets).(flags)) = inr tt ->
        accept_request (operator_request (buildInvocation cc args secrets)) p = inr (desc_of cc).
Proof.
  split_and!.
  - apply (bool_decide_unpack _). by vm_compute.
  - apply (bool_decide_unpack _). by vm_compute.
  - intros name e He. destruct (entry_of name e He) as (cc & Hcc & Hd). exists cc. split_and!; [done..|].
    intros p z args secrets Hz Hne Hs Hf. by rewrite (operator_request_accepted e cc p z args secrets Hd Hz Hne Hs), Hf.
Qed.

(** ** What a capability can touch *)

Definition NOUNS : list string :=
  ["app"; "resource"; "identity-provider"; "policy"; "policy-set"; "grant"; "workload"; "session"; "authority-record"; "audit"; "explain";
   "approval"; "delegation"].

Lemma noun_listed zc n : noun zc = Some n -> n ∈ NOUNS.
Proof. intros Hn. apply (bool_decide_unpack _). destruct zc as [o|o|o|o|o|o|o|o|o|o|o|o|o]; destruct o; cbn in Hn; simplify_eq; by vm_compute. Qed.

Lemma control_scope_inj n n' v v' :
  n ∈ NOUNS -> n' ∈ NOUNS -> Catalog.control_scope n v = Catalog.control_scope n' v' -> n = n' /\ v = v'.
Proof.
  intros Hn Hn' He. split.
  - assert (Forall (fun n => Forall (fun n' => Catalog.control_scope n v = Catalog.control_scope n' v' -> n = n') NOUNS) NOUNS) as Hall
      by (apply (bool_decide_unpack _); by destruct v, v'; vm_compute).
    rewrite Forall_forall in Hall. specialize (Hall _ Hn). rewrite Forall_forall in Hall. auto.
  - assert (v <> v' -> Forall (fun n => Forall (fun n' => Catalog.control_scope n v <> Catalog.control_scope n' v') NOUNS) NOUNS) as Hall
      by (intros Hv; apply (bool_decide_unpack _); destruct v, v'; first [by case Hv | by vm_compute]).
    destruct v, v'; try done; specialize (Hall ltac:(done)); rewrite Forall_forall in Hall; specialize (Hall _ Hn);
      rewrite Forall_forall in Hall; by destruct (Hall _ Hn').
Qed.

(** Calls confined to one command: in the zone, of its noun, and changing nothing unless
    by its verb. *)
Definition confined (z : string) (desc : Catalog.CommandDescriptor) (verb : Catalog.ScopeVerb) (c : admin_call) : Prop :=
  match c with
  | In z' zc => z' = z /\ noun zc = Some (Catalog.name desc) /\ (mutation zc = None \/ mutation zc = Some verb)
  | PoliciesValidate _ => Catalog.name desc = "policy"
  | Zones _ | PolicyTemplates _ => False
  end.

Lemma control_nouns : Forall (fun kc => Catalog.name (desc_of kc.2) ∈ NOUNS) CONTROL_TABLE.
Proof. apply (bool_decide_unpack _). by vm_compute. Qed.

Lemma noun_of_command name cc : ordered_get name CONTROL_TABLE = Some cc -> Catalog.name (desc_of cc) ∈ NOUNS.
Proof. intros Hcc. apply ordered_get_elem in Hcc. pose proof control_nouns as Hn. rewrite Forall_forall in Hn. apply (Hn _ Hcc). Qed.

Lemma mutation_not_read zc : mutation zc <> Some Catalog.read.
Proof. destruct zc as [o|o|o|o|o|o|o|o|o|o|o|o|o]; by destruct o. Qed.

(** Entitled under one scope. *)
Lemma entitled_confined p z desc verb c :
  Catalog.name desc ∈ NOUNS -> p.(p_zoneId) = Some z -> p.(p_scopes) = [Catalog.control_scope (Catalog.name desc) verb] ->
  entitled p c -> confined z desc verb c.
Proof.
  intros Hn Hz Hs He. destruct c as [o|z' zc|content|o]; cbn in He |- *; try done.
  - destruct He as [Hz' He]. rewrite Hz in Hz'. injection Hz' as <-. split; [done|]. destruct (noun zc) as [n|] eqn:Hnoun; [|done].
    pose proof (noun_listed _ _ Hnoun) as Hn'. rewrite Hs in He. destruct (mutation zc) as [v|] eqn:Hm.
    + apply list_elem_of_singleton in He. destruct (control_scope_inj _ _ _ _ Hn' Hn He) as [-> ->]. auto.
    + destruct He as [v He]. apply list_elem_of_singleton in He. destruct (control_scope_inj _ _ _ _ Hn' Hn He) as [-> _]. auto.
  - rewrite Hs in He. apply list_elem_of_singleton in He. by destruct (control_scope_inj "policy" _ _ _ ltac:(by apply (bool_decide_unpack _); vm_compute) Hn He).
Qed.

(** A request confined to one command by where it arrives: at the check of a policy's text,
    or in the zone, at a location of the command's noun, changing nothing unless by its
    verb. *)
Definition confined_at (z : string) (desc : Catalog.CommandDescriptor) (verb : Catalog.ScopeVerb) (r : AdminClient.http_request) : Prop :=
  (Paths.locate r.(req_path) = Paths.VALIDATE /\ Catalog.name desc = "policy")
  \/ exists change, Paths.located z (Catalog.name desc) change r /\ (change = None \/ change = Some verb).

(** A request that changes nothing where it arrives. *)
Definition reads_at (z : string) (desc : Catalog.CommandDescriptor) (r : AdminClient.http_request) : Prop :=
  Paths.locate r.(req_path) = Paths.VALIDATE \/ Paths.located z (Catalog.name desc) None r.

Lemma confined_arrives `{Runtime} this z desc verb c :
  confined z desc verb c -> Paths.plain_call c = true -> always (confined_at z desc verb) (perform this c).
Proof.
  destruct c as [o|z' zc|content|o]; cbn [confined]; [done| | |done].
  - intros (-> & Hn & Hm) Hp. eapply always_impl; [|by apply Paths.plain_located]. intros r Hl. right. by exists (mutation zc).
  - intros Hn _. eapply always_impl; [|apply Paths.validate_arrives]. intros r [_ Hl]. by left.
Qed.

Lemma reads_arrive `{Runtime} this z desc verb c :
  confined z desc verb c -> reads_only c -> Paths.plain_call c = true -> always (reads_at z desc) (perform this c).
Proof.
  destruct c as [o|z' zc|content|o]; cbn [confined reads_only]; [done| | |done].
  - intros (-> & Hn & _) Hm Hp. eapply always_impl; [|by apply Paths.plain_located]. intros r Hl. right. by rewrite <-Hm.
  - intros _ _ _. eapply always_impl; [|apply Paths.validate_arrives]. intros r [_ Hl]. by left.
Qed.

(** C11. A step can do no more than its capability says.  Under the token a capability is
    sent with, and whatever the services answer, the dispatcher only asks the admin client
    for operations of the caller's zone on the capability's kind of object, and for a
    change only by the capability's verb; a capability the catalog calls read-only asks
    for no change.  For every operation whose identifiers are plain path segments
    (letters, digits, hyphens, underscores) the requests on the wire are confined the same
    way: each arrives, after its path is resolved, at a location of the zone and of that
    kind, or at the check of a policy's text.  Arguments with other identifiers are
    outside the second half, as the client splices them into paths unencoded. *)
Theorem capability_confined `{Runtime} this sha256Hex name e cc p z args secrets :
  ordered_get name CATALOG = Some e -> ordered_get name CONTROL_TABLE = Some cc ->
  p.(p_zoneId) = Some z -> p.(p_scopes) = cc_scopes cc ->
  let run := dispatch sha256Hex (operator_request (buildInvocation cc args secrets)) p in
  let verb := Catalog.scopeFor (desc_of cc) (sub_of cc) in
  always (fun c => confined z (desc_of cc) verb c
            /\ (Paths.plain_call c = true -> always (confined_at z (desc_of cc) verb) (perform this c))) run
  /\ (c_mutating e = false ->
      always (fun c => reads_only c /\ (Paths.plain_call c = true -> always (reads_at z (desc_of cc)) (perform this c))) run).
Proof.
  intros He Hcc Hz Hs run verb. destruct (entry_of name e He) as (cc' & Hcc' & Hd). rewrite Hcc in Hcc'. injection Hcc' as <-.
  pose proof (noun_of_command _ _ Hcc) as Hn. rewrite (di_scopes _ _ _ _ Hd) in Hs.
  assert (always (confined z (desc_of cc) verb) run) as Hconf.
  { eapply always_impl; [|apply dispatch_calls_entitled]. intros c. by apply entitled_confined. }
  split; [eapply always_impl; [|exact Hconf]; intros c Hc; split; [done|by apply confined_arrives]|].
  intros Hm. eapply always_impl; [|exact Hconf]. intros c Hc. assert (reads_only c) as Hr; [|split; [done|by eapply reads_arrive]].
  destruct c as [o|z' zc|content|o]; try done. destruct Hc as (_ & _ & [Hmut|Hmut]); [done|].
  rewrite (di_effect _ _ _ _ Hd) in Hm. unfold verb in Hmut. destruct (Catalog.scopeFor _ _) eqn:Hv; try done. by destruct (mutation_not_read zc).
Qed.

(** ** Steps the surface never accepts *)

(** A list of objects is no flag. *)
Lemma object_list_refused k o xs flags : (k, JArr (JObj o :: xs)) ∈ flags -> validateFlags (Some flags) <> inr tt.
Proof.
  intros Hin. unfold validateFlags. destruct (_ <? _)%nat; [done|]. rewrite for_each_ok, Forall_forall. intros Hall. specialize (Hall _ Hin).
  cbn [check_flag] in Hall. destruct (_ || _); [done|]. by destruct (_ <? _)%nat.
Qed.

Lemma refused_flags req p desc : validateFlags req.(req_flags) <> inr tt -> accept_request req p <> inr desc.
Proof. intros Hf Ha. by destruct (accept_spec _ _ _ Ha) as (_ & _ & _ & _ & _ & ?). Qed.

(** So an [updateWorkload] step with bindings, and an [updateResource] step with
    operations, both of which the catalog offers, are refused whatever else they hold. *)
Lemma bindings_refused args o xs secrets p desc :
  prop "bindings" args = JArr (JObj o :: xs) -> accept_request (operator_request (buildInvocation ControlTable.updateWorkload args secrets)) p <> inr desc.
Proof.
  intros Hb. apply refused_flags, (object_list_refused "bindings" o xs). cbn. rewrite Hb. apply elem_of_cons. right. apply elem_of_app. right. by left.
Qed.

Lemma operations_refused args o xs secrets p desc :
  prop "operations" args = JArr (JObj o :: xs) -> accept_request (operator_request (buildInvocation ControlTable.updateResource args secrets)) p <> inr desc.
Proof.
  intros Hb. apply refused_flags, (object_list_refused "operations" o xs). cbn. rewrite Hb. apply elem_of_cons. right.
  do 4 (apply elem_of_app; right). by left.
Qed.

(** ** No credentials in a plan *)

(** Where a validated step comes from. *)
Lemma validated_from `{Capabilities} plan steps : forall seen ds vs v,
  Plans.validate_steps plan seen steps = Some (ds, vs) -> v ∈ vs ->
  exists name cap args, Plans.lookup_capability name = Some cap /\ cap.(cap_args) args = Some v.(Plans.v_args)
    /\ v.(Plans.v_capability) = cap.(cap_id) /\ v.(Plans.v_mutating) = cap.(cap_mutating).
Proof.
  induction steps as [|step steps IH]; intros seen ds vs v; cbn; [intros [= <- <-] Hv; by apply elem_of_nil in Hv|].
  destruct (Plans.validate_step plan seen step) as [[ds1 v1]|] eqn:H1; [|done]. destruct (Plans.validate_steps plan _ steps) as [[ds2 vs2]|] eqn:H2; [|done].
  intros [= <- <-] Hv. assert (v1 = Some v \/ v ∈ vs2) as [-> |Hin]; [|clear H2|by eapply IH].
  { destruct v1; [apply elem_of_cons in Hv as [-> |Hv]|]; auto. }
  unfold Plans.validate_step in H1. case_bool_decide; [done|].
  destruct (Plans.get_capability step.(Plans.capability)) as [| |cap] eqn:Hl; [done..|]. destruct (cap.(cap_args) step.(Plans.args)) as [data|] eqn:Ha; [|done].
  injection H1 as _ <-. exists step.(Plans.capability), cap, step.(Plans.args). unfold Plans.lookup_capability. by rewrite Hl.
Qed.

Section plans.
Context `{ZodLaws}.

(** The properties a schema lets an object have. *)
Definition top_properties (s : schema) : list string :=
  match s with SObject props => props.*1 | SRefine (SObject props) _ => props.*1 | _ => [] end.

Definition shaped_schema (s : schema) : Prop :=
  match s with SObject _ => True | SRefine (SObject _) _ => True | _ => False end.

Lemma parsed_properties s value fields k :
  shaped_schema s -> safeParse s value = Some (JObj fields) -> k ∈ fields.*1 -> k ∈ top_properties s.
Proof.
  intros Hs Hp Hk. destruct s as [| | | | | | |props| |inner refine]; try done.
  - destruct (parse_strict _ _ _ Hp) as (fields' & [= <-] & Hall). by apply Hall.
  - destruct inner; try done. apply parse_refined in Hp as [Hp _]. destruct (parse_strict _ _ _ Hp) as (fields' & [= <-] & Hall). by apply Hall.
Qed.

Lemma prop_present k o v : prop k o = v -> v <> JUndefined -> k ∈ o.*1.
Proof.
  unfold prop. intros <- Hv. destruct (ordered_get k o) as [w|] eqn:Hg; [|done]. apply ordered_get_elem in Hg. by apply (list_elem_of_fmap_2 fst) in Hg.
Qed.

Lemma lookup_entry name cap :
  Plans.lookup_capability name = Some cap -> exists e, ordered_get name CATALOG = Some e /\ cap = plan_capability e.
Proof.
  unfold Plans.lookup_capability, Plans.get_capability. intros Hl.
  assert (ordered_get name CAPABILITIES = Some cap) as Hg by (destruct (ordered_get name CAPABILITIES); [by simplify_eq|by case_bool_decide]).
  revert Hg. clear Hl. cbn [CAPABILITIES operator_capabilities]. unfold table. generalize CATALOG.
  intros l. induction l as [|[k e] l IH]; cbn; [done|]. case_bool_decide; [|done]. intros [= <-]. eauto.
Qed.

Lemma parsed_args e args out : (plan_capability e).(cap_args) args = Some out -> safeParse (c_args e) (JObj args) = Some (JObj out).
Proof. cbn. destruct (safeParse _ _) as [[]|]; try done. by intros [= ->]. Qed.

(** The catalog entries that take a [config]. *)
Lemma config_entries name e :
  ordered_get name CATALOG = Some e -> shaped_schema (c_args e)
  /\ ("config" ∈ top_properties (c_args e) -> c_args e = c_args OperatorCatalog.connectProvider \/ c_args e = c_args OperatorCatalog.updateProvider).
Proof.
  intros He. apply ordered_get_elem in He.
  assert (Forall (fun ke : string * CatalogEntry => shaped_schema (c_args ke.2)
    /\ ("config" ∈ top_properties (c_args ke.2) -> c_args ke.2 = c_args OperatorCatalog.connectProvider \/ c_args ke.2 = c_args OperatorCatalog.updateProvider)) CATALOG) as Hall.
  { unfold CATALOG. repeat (apply Forall_cons; split; [split; [exact I|intros Hc; first [by left | by right | exfalso; pose proof (bool_decide_pack _ Hc) as Hb; by vm_compute in Hb]]|]).
    by apply Forall_nil. }
  rewrite Forall_forall in Hall. apply (Hall _ He).
Qed.

(** C15. No plan that the validator accepts a step of carries provider credentials: under
    whatever capability, the [config] of a validated step has no property that is a
    credential of any provider kind (a client id, secret, key, token or password). *)
Theorem plans_hold_no_credentials plan v step config k :
  Plans.validateProposedPlan plan = Some v -> step ∈ v.(Plans.v_steps) -> prop "config" step.(Plans.v_args) = JObj config ->
  k ∈ config.*1 -> k ∉ PROVIDER_CREDENTIAL_KEYS.
Proof.
  unfold Plans.validateProposedPlan. destruct (Plans.validate_steps _ _ _) as [[ds vs]|] eqn:Hv; [|done]. destruct (Plans.validateDependencies _ _); [|done].
  intros [= <-] Hstep Hconf Hk. cbn in Hstep. destruct (validated_from _ _ _ _ _ _ Hv Hstep) as (name & cap & args & Hl & Ha & _).
  apply lookup_entry in Hl as (e & He & ->). apply parsed_args in Ha. destruct (config_entries _ _ He) as [Hshape Hcases].
  assert ("config" ∈ top_properties (c_args e)) as Hin by (eapply parsed_properties; [done..|]; by eapply prop_present).
  destruct (Hcases Hin) as [Hc|Hc]; rewrite Hc in Ha; cbn in Ha; apply parse_refined in Ha as [_ Hr]; specialize (Hr _ eq_refl).
  - unfold connectProvider_refine, config_of in Hr. rewrite Hconf in Hr.
    destruct (planProviderConfigError _ _) eqn:Hp; [done|]. by eapply accepted_config_clean.
  - unfold updateProvider_refine, config_of in Hr. rewrite Hconf in Hr. apply andb_true_iff in Hr as [_ Hr].
    rewrite forallb_forall in Hr. apply list_elem_of_In in Hk. specialize (Hr _ Hk). by apply negb_true_iff, bool_decide_eq_false in Hr.
Qed.
End plans.
End CapabilityFacts.
