(* ===== verification/OperatorPreview.v ===== *)
(** * Plan previews

    [apps/api/src/operator-preview.ts]: the effect of each step of a valid plan, resolved
    against the rows the zone holds.  A row has the columns the liveness predicates
    read. *)

From Stdlib Require Import Ascii.
From S2P Require Import Prelude.
From S2P Require Import Json.
From S2P Require Import JsonText.
From S2P Require Import OperatorCatalog.
From S2P Require Import Governed.
From S2P Require Import ControlTable.
Local Open Scope string_scope.

Module OperatorPreview.
Import ControlTable.
Import ProviderConfig.
Import OperatorCatalog.
Import Plans.

Inductive StepEffect := EffCreate | EffUpdate | EffDelete | EffExists | EffBlocked | EffReadOnly.

#[export] Instance StepEffect_eq_dec : EqDecision StepEffect.
Proof. solve_decision. Defined.

Record StepPreview := {
  pv_id : string;
  pv_capability : string;
  pv_title : string;
  pv_mutating : bool;
  pv_effect : StepEffect;
  pv_detail : string
}.

Record PlanPreview := { pv_ok : bool; pv_steps : list StepPreview; pv_diagnostics : list PlanDiagnostic }.

(** A row of one of the tables: [archived_at IS NULL] is [archived = false]. *)
Record TargetRow := { row_id : string; row_zone : string; row_name : string; archived : bool; row_status : string }.

(** The [live] predicates of [PREVIEW_TARGETS]. *)
Definition live_row (target : PreviewTarget) (r : TargetRow) : bool :=
  match target with
  | applications | providers | resources | policies | policySets => negb r.(archived)
  | grants => negb (bool_decide (r.(row_status) = "revoked"))
  | workloads => true
  | sessions => bool_decide (r.(row_status) ∈ ["active"; "suspended"])
  | delegations => bool_decide (r.(row_status) = "active")
  end.

(** The tables behind the targets. *)
Definition Tables : Type := PreviewTarget -> list TargetRow.

Definition nameTaken (db : Tables) (target : PreviewTarget) (zoneId name : string) : bool :=
  existsb (fun r => bool_decide (r.(row_name) = name) && bool_decide (r.(row_zone) = zoneId) && live_row target r) (db target).

Definition idLive (db : Tables) (target : PreviewTarget) (zoneId id : string) : bool :=
  existsb (fun r => bool_decide (r.(row_id) = id) && bool_decide (r.(row_zone) = zoneId) && live_row target r) (db target).

Definition effect_of (m : MutateEffect) : StepEffect := match m with Update => EffUpdate | Delete => EffDelete end.

(** The loop over the requirements: the first that is not live. *)
Fixpoint first_blocked (db : Tables) (zoneId : string) (args : fields) (requires : list (PreviewTarget * string * (string -> string))) : option string :=
  match requires with
  | [] => None
  | (target, idArg, blocked) :: rest =>
      match parseStepReference (prop idArg args) with
      | Some _ => first_blocked db zoneId args rest
      | None =>
          let id := js_String (prop idArg args) in
          if idLive db target zoneId id then first_blocked db zoneId args rest else Some (blocked id)
      end
  end.

Definition preview_of (capabilityId : string) : CapabilityPreview :=
  match ordered_get capabilityId CATALOG with Some e => e.(preview) | None => PreviewRead end.

Definition previewStep (db : Tables) (zoneId capabilityId : string) (args : fields) : StepEffect * string :=
  match preview_of capabilityId with
  | PreviewRead => (EffReadOnly, "Reads current state; changes nothing.")
  | CreateByName target exists_ create =>
      let name := js_String (prop "name" args) in
      if nameTaken db target zoneId name then (EffExists, exists_ name) else (EffCreate, create name)
  | MutateById target idArg effect live blocked =>
      match parseStepReference (prop idArg args) with
      | Some reference =>
          (effect_of effect, "Uses the " +:+ idArg +:+ " produced by step '" +:+ reference.(ref_step) +:+ "' of this plan.")
      | None =>
          let id := js_String (prop idArg args) in
          if idLive db target zoneId id then (effect_of effect, live id) else (EffBlocked, blocked id)
      end
  | RequireLiveThenCreate requires create =>
      match first_blocked db zoneId args requires with
      | Some detail => (EffBlocked, detail)
      | None => (EffCreate, create args)
      end
  end.

(** The title of a step is its capability's. *)
Definition title_of (capabilityId : string) : string := match ordered_get capabilityId CATALOG with Some e => e.(title) | None => "" end.

Definition step_preview (db : Tables) (zoneId : string) (s : ValidatedStep) : StepPreview :=
  let '(effect, detail) := previewStep db zoneId s.(v_capability) s.(v_args) in
  {| pv_id := s.(v_id); pv_capability := s.(v_capability); pv_title := title_of s.(v_capability); pv_mutating := s.(v_mutating);
     pv_effect := effect; pv_detail := detail |}.

Definition previewPlan `{Zod} (db : Tables) (zoneId : string) (plan : list ProposedStep) : option PlanPreview :=
  match validateProposedPlan plan with
  | None => None
  | Some v =>
      if v.(ok) then
        let steps := step_preview db zoneId <$> v.(v_steps) in
        Some {| pv_ok := negb (existsb (fun s => bool_decide (s.(pv_effect) = EffBlocked)) steps); pv_steps := steps; pv_diagnostics := [] |}
      else Some {| pv_ok := false; pv_steps := []; pv_diagnostics := v.(diagnostics) |}
  end.

(** ** What an applicable preview means *)

(** The objects a capability acts on that must be there already. *)
Definition needs (p : CapabilityPreview) : list (PreviewTarget * string) :=
  match p with
  | MutateById target idArg _ _ _ => [(target, idArg)]
  | RequireLiveThenCreate requires _ => fst <$> requires
  | PreviewRead | CreateByName _ _ _ => []
  end.

(** An argument is met by an earlier step of the plan or by a live row of the zone. *)
Definition met (db : Tables) (zoneId : string) (args : fields) (need : PreviewTarget * string) : Prop :=
  is_Some (parseStepReference (prop need.2 args))
  \/ exists r, r ∈ db need.1 /\ r.(row_id) = js_String (prop need.2 args) /\ r.(row_zone) = zoneId /\ live_row need.1 r = true.

Lemma idLive_spec db target zoneId id :
  idLive db target zoneId id = true <-> exists r, r ∈ db target /\ r.(row_id) = id /\ r.(row_zone) = zoneId /\ live_row target r = true.
Proof.
  unfold idLive. rewrite existsb_exists. split; intros (r & Hr & H).
  - bool_props. exists r. split; [by apply list_elem_of_In|tauto].
  - exists r. split; [by apply list_elem_of_In|]. destruct H as (-> & -> & ->). by rewrite !bool_decide_true.
Qed.

Lemma first_blocked_spec db zoneId args requires :
  first_blocked db zoneId args requires = None <-> Forall (met db zoneId args) (fst <$> requires).
Proof.
  induction requires as [|[[target idArg] blocked] requires IH]; cbn; [done|]. rewrite Forall_cons. unfold met at 1; cbn.
  destruct (parseStepReference _) as [ref|]; [rewrite IH; split; [split; [left; by eexists|done]|by intros [_ ?]]|].
  rewrite <- (idLive_spec db target zoneId). destruct (idLive _ _ _ _); [rewrite IH; naive_solver|].
  split; [done|]. by intros [[[? ?]|?] _].
Qed.

Lemma step_blocked db zoneId cap args :
  (previewStep db zoneId cap args).1 <> EffBlocked <-> Forall (met db zoneId args) (needs (preview_of cap)).
Proof.
  unfold previewStep. destruct (preview_of cap) as [|target ex cr|target idArg eff live blocked|requires create]; cbn [needs].
  - done.
  - by destruct (nameTaken _ _ _ _).
  - rewrite Forall_singleton. unfold met; cbn. destruct (parseStepReference _) as [ref|].
    + cbn. split; [left; by eexists|by destruct eff].
    + rewrite <- (idLive_spec db target zoneId). destruct (idLive _ _ _ _); cbn; [split; [auto|by destruct eff]|].
      split; [done|]. by intros [[? ?]|?].
  - rewrite <- first_blocked_spec. by destruct (first_blocked _ _ _ _).
Qed.

(** *** Zones *)

Definition of_zone (zoneId : string) (rows : list TargetRow) : list TargetRow := filter (fun r => r.(row_zone) = zoneId) rows.

(** Two databases with the same rows in a zone. *)
Definition agree (zoneId : string) (db db' : Tables) : Prop := forall target, of_zone zoneId (db target) = of_zone zoneId (db' target).

Lemma existsb_of_zone zoneId f rows : (forall r, f r = true -> r.(row_zone) = zoneId) -> existsb f rows = existsb f (of_zone zoneId rows).
Proof.
  intros Hf. unfold of_zone. induction rows as [|r rows IH]; [done|]. rewrite filter_cons. cbn [existsb]. destruct (decide (r.(row_zone) = zoneId)) as [Hz|Hz].
  - cbn [existsb]. by rewrite IH.
  - rewrite IH. destruct (f r) eqn:Hr; [by apply Hf in Hr|done].
Qed.

Lemma lookups_agree zoneId db db' target x :
  agree zoneId db db' -> nameTaken db target zoneId x = nameTaken db' target zoneId x /\ idLive db target zoneId x = idLive db' target zoneId x.
Proof.
  intros Ha. unfold nameTaken, idLive. split;
    rewrite (existsb_of_zone zoneId _ (db target)), (existsb_of_zone zoneId _ (db' target)) by (intros r Hr; by bool_props); by rewrite Ha.
Qed.

Lemma previewStep_agree zoneId db db' cap args : agree zoneId db db' -> previewStep db zoneId cap args = previewStep db' zoneId cap args.
Proof.
  intros Ha. unfold previewStep. destruct (preview_of cap) as [|target ex cr|target idArg eff live blocked|requires create]; [done| | |].
  - by rewrite (proj1 (lookups_agree _ _ _ target (js_String (prop "name" args)) Ha)).
  - by rewrite (proj2 (lookups_agree _ _ _ target (js_String (prop idArg args)) Ha)).
  - assert (first_blocked db zoneId args requires = first_blocked db' zoneId args requires) as ->; [|done].
    induction requires as [|[[target idArg] blocked] requires IH]; cbn; [done|].
    by rewrite IH, (proj2 (lookups_agree _ _ _ target (js_String (prop idArg args)) Ha)).
Qed.

(** A preview tells whether a plan can apply: it is applicable exactly when the plan
    validates and every object its steps act on either is produced by an earlier step of
    the plan or is a live row of the caller's zone; it has one entry per step, in order,
    with the catalog's classification; and it depends on the rows of that zone only. *)
Theorem preview_exact `{Zod} db zoneId plan v :
  validateProposedPlan plan = Some v ->
  exists pv, previewPlan db zoneId plan = Some pv
  /\ (pv.(pv_ok) = true <-> v.(ok) = true /\ Forall (fun s => Forall (met db zoneId s.(v_args)) (needs (preview_of s.(v_capability)))) v.(v_steps))
  /\ (v.(ok) = true -> (fun s => (s.(pv_id), s.(pv_capability), s.(pv_mutating))) <$> pv.(pv_steps)
                      = (fun s => (s.(v_id), s.(v_capability), s.(v_mutating))) <$> v.(v_steps))
  /\ (forall db', agree zoneId db db' -> previewPlan db' zoneId plan = Some pv).
Proof.
  intros Hv. unfold previewPlan. rewrite Hv. destruct v.(ok) eqn:Hok; eexists; (split; [reflexivity|]); cbn; split_and!; try done; try tauto.
  - rewrite negb_true_iff, <- not_true_iff_false, existsb_exists. split.
    + intros Hno. split; [done|]. apply Forall_forall. intros s Hs. apply (step_blocked db zoneId). intros Hb. apply Hno. exists (step_preview db zoneId s).
      split; [apply list_elem_of_In, list_elem_of_fmap; eauto|]. unfold step_preview. destruct (previewStep _ _ _ _); cbn in *. by rewrite Hb.
    + intros [_ Hall] (p & Hp & Hb). apply list_elem_of_In, list_elem_of_fmap in Hp as (s & -> & Hs). rewrite Forall_forall in Hall.
      apply (Hall _) in Hs. apply step_blocked in Hs. bool_props. apply Hs. unfold step_preview in Hb. by destruct (previewStep _ _ _ _).
  - intros _. rewrite <- list_fmap_compose. apply list_fmap_ext. intros i s _. unfold step_preview. cbn. by destruct (previewStep _ _ _ _).
  - intros db' Ha. assert (step_preview db' zoneId <$> v.(v_steps) = step_preview db zoneId <$> v.(v_steps)) as ->; [|done].
    apply list_fmap_ext. intros i s _. unfold step_preview. by rewrite (previewStep_agree zoneId db db').
  - split; [done|by intros [? _]].
Qed.
End OperatorPreview.
