(* ===== verification/PlanLedger.v ===== *)
(** * The ledger of an Operator conversation

    The plan lifecycle of [apps/api/src/routes/operator.ts] for one conversation that is
    not deleted: turns, plans, decisions, pasted credentials, the autopilot
    ([operator-autopilot.ts]), the pre-flight of an execution and the record of its
    result.  A handler's transaction locks the conversation row, so it is one step here.
    Times are in milliseconds; a credential envelope in the vault is represented by what
    was sealed in it. *)

From Stdlib Require Import Ascii.
From S2P Require Import Prelude.
From S2P Require Import Json.
From S2P Require Import JsonText.
From S2P Require Import Text.
From S2P Require Import Governed.
From S2P Require Import OperatorCatalog.
From S2P Require Import ControlTable.
From S2P Require Import OperatorPreview.
Local Open Scope string_scope.
Local Open Scope Z_scope.

Module PlanLedger.
Import ControlTable.
Import ProviderConfig.
Import OperatorPreview.
Import Plans.
Import Governed.

(** ** Autopilot *)

Record AutopilotPolicy := { enabled : bool; conversationWriteBudget : option Z }.

(** The configured budget is an integer here; the code takes any other number as none. *)
Definition buildAutopilotPolicy (on : option bool) (budget : option Z) : AutopilotPolicy :=
  let budget := default_to 0 budget in
  {| enabled := default_to false on; conversationWriteBudget := if 0 <? budget then Some budget else None |}.

Definition autopilotAvailable (policy : AutopilotPolicy) : bool := policy.(enabled).

Record AutopilotEvaluation := {
  engaged : bool;
  applicable : bool;
  credentialsSatisfied : bool;
  reviewCompleted : bool;
  ev_steps : list (string * string);
  mutatingSteps : Z;
  priorApprovedWrites : Z
}.

Inductive StopReason :=
| autopilot_disabled
| autopilot_not_engaged
| empty_plan
| plan_not_applicable
| review_required
| credentials_required
| write_budget_exceeded.

(** [None] is [autoApprove: true]. *)
Definition mayAutoApprove (ev : AutopilotEvaluation) (policy : AutopilotPolicy) : option StopReason :=
  if negb policy.(enabled) then Some autopilot_disabled
  else if negb ev.(engaged) then Some autopilot_not_engaged
  else if bool_decide (length ev.(ev_steps) = 0%nat) then Some empty_plan
  else if negb ev.(applicable) then Some plan_not_applicable
  else if negb ev.(reviewCompleted) then Some review_required
  else if negb ev.(credentialsSatisfied) then Some credentials_required
  else match policy.(conversationWriteBudget) with
       | Some budget => if budget <? ev.(priorApprovedWrites) + ev.(mutatingSteps) then Some write_budget_exceeded else None
       | None => None
       end.

(** ** Turns *)

(** A step as a plan turn stores it; [ps_effect] is absent without a preview. *)
Record PlanStep := {
  ps_id : string;
  ps_capability : string;
  ps_args : fields;
  ps_depends_on : list string;
  ps_mutating : bool;
  ps_effect : option StepEffect
}.

Inductive NarrativeKind := message | note | error.

Inductive Content :=
| Narrative (kind : NarrativeKind) (text : string)
| PlanTurn (summary : string) (steps : list PlanStep) (reviewed : bool)
| Approval (plan_seq : Z) (autopilot : bool)
| Rejection (plan_seq : Z)
| Execution (plan_seq : Z) (step_id : string) (ok : bool) (outputs : option fields).

Record Turn := { seq : Z; content : Content; client_token : option string }.

Record Conversation := { active : bool; ask : bool; autopilot : bool; next_seq : Z; turns : list Turn }.

(** Pasted credentials by plan and step, with the end of their life. *)
Definition Vault : Type := gmap (Z * string) (list (string * string) * Z).

Record Ledger := { conv : Conversation; vault : Vault }.

Definition on_conv (f : Conversation -> Conversation) (l : Ledger) : Ledger := {| conv := f l.(conv); vault := l.(vault) |}.
Definition on_vault (f : Vault -> Vault) (l : Ledger) : Ledger := {| conv := l.(conv); vault := f l.(vault) |}.

(** A reply: its status and its error code, empty for a success. *)
Definition Reply : Type := Z * string.

Definition writeTurnLocked (ct : Content) (token : option string) (c : Conversation) : Conversation :=
  {| active := c.(active); ask := c.(ask); autopilot := c.(autopilot); next_seq := c.(next_seq) + 1;
     turns := (c.(turns) ++ [{| seq := c.(next_seq); content := ct; client_token := token |}])%list |}.

(** [appendTurnTx]; the settings it returns are those of the conversation. *)
Definition appendTurnTx (ct : Content) (l : Ledger) : Ledger * bool :=
  if l.(conv).(active) then (on_conv (writeTurnLocked ct None) l, true) else (l, false).

(** [POST /turns], its body parsed and within the size limit. *)
Definition postTurn (kind : NarrativeKind) (body : string) (token : option string) (l : Ledger) : Ledger * Reply :=
  if negb l.(conv).(active) then (l, (409, "conversation_archived"))
  else if existsb (fun t => bool_decide (is_Some token /\ t.(client_token) = token)) l.(conv).(turns) then (l, (200, ""))
  else (on_conv (writeTurnLocked (Narrative kind body) token) l, (201, "")).

(** [PATCH]: the settings given replace those of the conversation. *)
Definition patchConversation (act isAsk auto : option bool) (c : Conversation) : Conversation :=
  {| active := default_to c.(active) act; ask := default_to c.(ask) isAsk; autopilot := default_to c.(autopilot) auto;
     next_seq := c.(next_seq); turns := c.(turns) |}.

(** ** Plans and decisions *)

(** The plan under a number. *)
Definition plan_at (planSeq : Z) (t : Turn) : option (list PlanStep * bool) :=
  match t.(content) with PlanTurn _ steps reviewed => if t.(seq) =? planSeq then Some (steps, reviewed) else None | _ => None end.

Definition plan_turn (c : Conversation) (planSeq : Z) : option (list PlanStep * bool) := head (omap (plan_at planSeq) c.(turns)).

(** [Some true] is an approval. *)
Definition decision_of (planSeq : Z) (t : Turn) : option bool :=
  match t.(content) with
  | Approval p _ => if p =? planSeq then Some true else None
  | Rejection p => if p =? planSeq then Some false else None
  | _ => None
  end.

Definition decisions (c : Conversation) (planSeq : Z) : list bool := omap (decision_of planSeq) c.(turns).

(** [buildPlanContentJson]. *)
Definition plan_content (steps : list ValidatedStep) (preview : list StepPreview) : list PlanStep :=
  (fun s => {| ps_id := s.(v_id); ps_capability := s.(v_capability); ps_args := s.(v_args); ps_depends_on := s.(v_depends_on);
               ps_mutating := s.(v_mutating);
               ps_effect := pv_effect <$> find_first (fun p => bool_decide (p.(pv_id) = s.(v_id))) preview |}) <$> steps.

Definition proposed (s : PlanStep) : ProposedStep :=
  {| id := s.(ps_id); capability := s.(ps_capability); args := s.(ps_args); depends_on := s.(ps_depends_on) |}.

(** A plan without the declared order, as the credential route previews it. *)
Definition proposed_unordered (s : PlanStep) : ProposedStep :=
  {| id := s.(ps_id); capability := s.(ps_capability); args := s.(ps_args); depends_on := [] |}.

Definition needs_credentials (s : PlanStep) : bool :=
  match credentialFieldsFor s.(ps_capability) s.(ps_args) with [] => false | _ => true end.

(** *** The vault *)

Definition PLAN_SECRET_TTL_MS : Z := 30 * 60 * 1000.

Definition storePlanStepSecrets (now planSeq : Z) (stepId : string) (values : list (string * string)) (v : Vault) : Vault :=
  <[(planSeq, stepId) := (values, now + PLAN_SECRET_TTL_MS)]> (filter (fun kv => now < kv.2.2) v).

Definition openPlanStepSecrets (now planSeq : Z) (stepId : string) (v : Vault) : option (list (string * string)) :=
  match v !! (planSeq, stepId) with Some (values, expires) => if now <? expires then Some values else None | None => None end.

Definition satisfied (now planSeq : Z) (v : Vault) (stepId : string) : bool := bool_decide (is_Some (openPlanStepSecrets now planSeq stepId v)).

Definition deletePlanSecrets (planSeq : Z) (v : Vault) : Vault := filter (fun kv => kv.1.1 <> planSeq) v.

Section routes.
Context `{Zod}.

(** [POST /plan]. *)
Definition postPlan (summary : string) (plan : list ProposedStep) (l : Ledger) : Ledger * Reply :=
  match validateProposedPlan plan with
  | Some v =>
      if negb v.(Plans.ok) then (l, (400, "plan_validation_failed"))
      else if negb l.(conv).(active) then (l, (409, "conversation_archived"))
      else if l.(conv).(ask) then (l, (403, "mode_forbidden"))
      else (on_conv (writeTurnLocked (PlanTurn summary (plan_content v.(v_steps) []) false) None) l, (201, ""))
  | None => (l, (500, "internal_error"))
  end.

(** Every step is in place already, and there is one to say so of. *)
Definition plan_satisfied (pv : PlanPreview) : bool :=
  pv.(pv_ok) && forallb (fun s => bool_decide (s.(pv_effect) = EffExists) || bool_decide (s.(pv_effect) = EffReadOnly)) pv.(pv_steps)
  && existsb (fun s => bool_decide (s.(pv_effect) = EffExists)) pv.(pv_steps).

Definition satisfied_text (pv : PlanPreview) : string :=
  "Nothing to change - this is already in place. "
  +:+ String.concat " " (pv_detail <$> filter (fun s => s.(pv_effect) = EffExists) pv.(pv_steps)).

(** What the message route records for a plan the model proposed: the plan with its
    preview, or why there is none; [None] is a [TypeError] of the validation, which the route
    answers as a failed run without a turn. *)
Definition message_content (db : Tables) (zoneId summary : string) (plan : list ProposedStep) (reviewed : bool) : option Content :=
  match validateProposedPlan plan, previewPlan db zoneId plan with
  | Some v, Some pv =>
      Some (if negb v.(Plans.ok) then Narrative error "The proposed plan did not pass validation."
      else if plan_satisfied pv then Narrative note (satisfied_text pv)
      else PlanTurn summary (plan_content v.(v_steps) pv.(pv_steps)) reviewed)
  | _, _ => None
  end.

Definition messagePlan (db : Tables) (zoneId summary : string) (plan : list ProposedStep) (reviewed : bool) (l : Ledger) : Ledger * bool :=
  match message_content db zoneId summary plan reviewed with
  | Some ct => appendTurnTx ct l
  | None => (l, false)
  end.

(** [POST /plan/decision]. *)
Definition decidePlan (now planSeq : Z) (approve : bool) (l : Ledger) : Ledger * Reply :=
  if negb l.(conv).(active) then (l, (409, "conversation_archived"))
  else if l.(conv).(ask) then (l, (403, "mode_forbidden"))
  else match plan_turn l.(conv) planSeq with
       | None => (l, (404, "plan_not_found"))
       | Some (steps, _) =>
           if negb (bool_decide (decisions l.(conv) planSeq = [])) then (l, (409, "plan_already_decided"))
           else if approve then
             if existsb (fun s => needs_credentials s && negb (satisfied now planSeq l.(vault) s.(ps_id))) steps
             then (l, (409, "plan_credentials_required"))
             else (on_conv (writeTurnLocked (Approval planSeq false) None) l, (201, ""))
           else (on_conv (writeTurnLocked (Rejection planSeq) None) (on_vault (deletePlanSecrets planSeq) l), (201, ""))
       end.

(** *** Credentials *)

(** The first transaction of [PUT /plans/:planSeq/secrets]: the plan and whether all its
    credentials are stored. *)
Definition pasteSecrets (now planSeq : Z) (stepId : string) (values : list (string * string)) (l : Ledger) :
    Ledger * (Reply + (list PlanStep * bool * bool)) :=
  if negb l.(conv).(active) then (l, inl (409, "conversation_archived"))
  else if l.(conv).(ask) then (l, inl (403, "mode_forbidden"))
  else match plan_turn l.(conv) planSeq with
       | None => (l, inl (404, "plan_not_found"))
       | Some (steps, reviewed) =>
           match find_first (fun s => bool_decide (s.(ps_id) = stepId)) steps with
           | None => (l, inl (404, "step_not_found"))
           | Some step =>
               let required := credentialFieldsFor step.(ps_capability) step.(ps_args) in
               if bool_decide (required = []) then (l, inl (409, "step_needs_no_credentials"))
               else if negb (bool_decide (sort_strings required = sort_strings values.*1)) then (l, inl (400, "invalid_credentials"))
               else if negb (bool_decide (decisions l.(conv) planSeq = [])) then (l, inl (409, "plan_already_decided"))
               else
                 let v := storePlanStepSecrets now planSeq stepId values l.(vault) in
                 (on_vault (fun _ => v) l,
                  inr (steps, reviewed, forallb (fun s => negb (needs_credentials s) || satisfied now planSeq v s.(ps_id)) steps))
           end
       end.

Definition count_mutating (steps : list PlanStep) : Z := Z.of_nat (length (filter (fun s => s.(ps_mutating) = true) steps)).

Definition plan_applicable (pv : option PlanPreview) (canApply : bool) : bool :=
  match pv with
  | Some pv => pv.(pv_ok) && canApply && forallb (fun s => negb (bool_decide (s.(pv_effect) = EffExists))) pv.(pv_steps)
  | None => false
  end.

(** The evaluation that route makes once every credential is stored. *)
Definition paste_evaluation (db : Tables) (zoneId : string) (canApply : bool) (steps : list PlanStep) (reviewed : bool) : AutopilotEvaluation :=
  {| engaged := true;
     applicable := plan_applicable (previewPlan db zoneId (proposed_unordered <$> steps)) canApply;
     credentialsSatisfied := true; reviewCompleted := reviewed;
     ev_steps := (fun s => (s.(ps_id), s.(ps_capability))) <$> steps;
     mutatingSteps := count_mutating steps; priorApprovedWrites := 0 |}.

(** The evaluation the message route makes of the plan it recorded. *)
Definition message_evaluation (plan : list ProposedStep) (v : PlanValidation) (pv : PlanPreview) (canApply reviewed : bool) : AutopilotEvaluation :=
  {| engaged := true;
     applicable := plan_applicable (Some pv) canApply;
     credentialsSatisfied := forallb (fun s => bool_decide (credentialFieldsFor s.(v_capability) s.(v_args) = [])) v.(v_steps);
     reviewCompleted := reviewed;
     ev_steps := (fun s => (s.(id), s.(capability))) <$> plan;
     mutatingSteps := Z.of_nat (length (filter (fun s => s.(v_mutating) = true) v.(v_steps))); priorApprovedWrites := 0 |}.

(** *** Autopilot approvals *)

(** The mutating steps of the plan an approval of the autopilot is for. *)
Definition approval_writes (c : Conversation) (t : Turn) : Z :=
  match t.(content) with
  | Approval p true => foldr Z.add 0 (omap (fun t' => match plan_at p t' with Some (steps, _) => Some (count_mutating steps) | None => None end) c.(turns))
  | _ => 0
  end.

Definition autopilotApprovedWrites (c : Conversation) : Z := foldr Z.add 0 (approval_writes c <$> c.(turns)).

Definition with_state (ev : AutopilotEvaluation) (isEngaged : bool) (prior : Z) : AutopilotEvaluation :=
  {| engaged := isEngaged; applicable := ev.(applicable); credentialsSatisfied := ev.(credentialsSatisfied);
     reviewCompleted := ev.(reviewCompleted); ev_steps := ev.(ev_steps); mutatingSteps := ev.(mutatingSteps); priorApprovedWrites := prior |}.

(** The transaction of [approveWithAutopilot]. *)
Definition approve_locked (planSeq : Z) (ev : AutopilotEvaluation) (policy : AutopilotPolicy) (l : Ledger) : Ledger * bool * option StopReason :=
  if negb l.(conv).(active) then (l, false, None)
  else if negb (bool_decide (decisions l.(conv) planSeq = [])) then (l, false, None)
  else
    let prior := autopilotApprovedWrites l.(conv) in
    match mayAutoApprove (with_state ev (negb l.(conv).(ask) && l.(conv).(autopilot)) prior) policy with
    | Some reason => (l, false, Some reason)
    | None => (on_conv (writeTurnLocked (Approval planSeq true) None) l, true, None)
    end.

(** Whether an approval was written, and why not. *)
Definition approveWithAutopilot (planSeq : Z) (ev : AutopilotEvaluation) (policy : AutopilotPolicy) (l : Ledger) : Ledger * bool * option StopReason :=
  match mayAutoApprove (with_state ev true 0) policy with
  | Some write_budget_exceeded | None => approve_locked planSeq ev policy l
  | Some reason => (l, false, Some reason)
  end.

(** ** Execution *)

(** What the route refuses before it takes the lock. *)
Definition execute_guards (authority : OperatorAuthority) (zoneId : string) (configured governed : bool) : option Reply :=
  if isZoneIsolated authority zoneId then Some (403, "zone_forbidden")
  else if negb configured then Some (409, "governed_execution_unconfigured")
  else if negb governed then Some (403, "zone_not_governed")
  else None.

(** An execution turn of the plan: its step, whether it succeeded, and its outputs. *)
Definition prior_of (planSeq : Z) (t : Turn) : option (string * bool * option fields) :=
  match t.(content) with Execution p s ok outs => if p =? planSeq then Some (s, ok, outs) else None | _ => None end.

Definition prior_steps (c : Conversation) (planSeq : Z) : list (string * bool * option fields) := omap (prior_of planSeq) c.(turns).

Definition applied_ids (prior : list (string * bool * option fields)) : list string :=
  omap (fun r => match r with (s, true, _) => Some s | _ => None end) prior.

Definition has_failed (prior : list (string * bool * option fields)) : bool := existsb (fun r => match r with (_, ok, _) => negb ok end) prior.

Definition prior_outputs (prior : list (string * bool * option fields)) : gmap string outputs_of :=
  foldl (fun m r => match r with (s, true, Some outs) => <[s := outs]> m | _ => m end) ∅ prior.

(** A reference to an output of an applied step that was not kept. *)
Definition lost_reference (ids : list string) (outs : gmap string outputs_of) (ref : StepReference) : bool :=
  bool_decide (ref.(ref_step) ∈ ids)
  && match outs !! ref.(ref_step) with
     | Some o => match prop ref.(ref_output) o with JUndefined => true | _ => false end
     | None => true
     end.

Definition reviewed_effect (steps : list PlanStep) (stepId : string) : option StepEffect :=
  match find_first (fun s => bool_decide (s.(ps_id) = stepId)) steps with Some s => s.(ps_effect) | None => None end.

Definition drifted (steps : list PlanStep) (p : StepPreview) : bool :=
  match reviewed_effect steps p.(pv_id) with Some e => negb (bool_decide (e = p.(pv_effect))) | None => false end.

(** A step with its credentials, [None] when the vault lacks them. *)
Definition with_credentials (now planSeq : Z) (v : Vault) (s : GovernedPlanStep) : option GovernedPlanStep :=
  match credentialFieldsFor s.(s_capability) s.(s_args) with
  | [] => Some s
  | required =>
      match openPlanStepSecrets now planSeq s.(s_id) v with
      | Some values =>
          if bool_decide (String.concat "," (sort_strings required) = String.concat "," (sort_strings values.*1))
          then Some {| s_id := s.(s_id); s_capability := s.(s_capability); s_args := s.(s_args); s_depends_on := s.(s_depends_on);
                       s_secrets := Some values |}
          else None
      | None => None
      end
  end.

(** The checks of the preview, over the steps that are left. *)
Definition preview_refusal (steps : list PlanStep) (pv : option PlanPreview) (remaining : list GovernedPlanStep) : option Reply :=
  let left := match pv with Some pv => filter (fun p => p.(pv_id) ∈ s_id <$> remaining) pv.(pv_steps) | None => [] end in
  if bool_decide (left = [] :> list _) || existsb (fun p => bool_decide (p.(pv_effect) = EffBlocked)) left then Some (409, "plan_blocked")
  else if existsb (fun p => bool_decide (p.(pv_effect) = EffExists)) left then Some (409, "plan_already_satisfied")
  else if existsb (drifted steps) left then Some (409, "plan_state_changed")
  else None.

Definition remaining_steps (v : PlanValidation) (ids : list string) : list GovernedPlanStep :=
  governed_step <$> filter (fun s => s.(v_id) ∉ ids) v.(v_steps).

(** The pre-flight transaction: a refusal, or the steps to send and the outputs they may
    refer to. *)
Definition preflight (authority : OperatorAuthority) (db : Tables) (zoneId : string) (now planSeq : Z) (l : Ledger) :
    Reply + (list GovernedPlanStep * gmap string outputs_of) :=
  if negb l.(conv).(active) then inl (409, "conversation_archived")
  else if l.(conv).(ask) then inl (403, "mode_forbidden")
  else match plan_turn l.(conv) planSeq with
  | None => inl (404, "plan_not_found")
  | Some (steps, _) =>
      match decisions l.(conv) planSeq with
      | [] => inl (409, "plan_not_approved")
      | false :: _ => inl (409, "plan_rejected")
      | true :: _ =>
          let prior := prior_steps l.(conv) planSeq in
          if has_failed prior then inl (409, "plan_already_executed")
          else match validateProposedPlan (proposed <$> steps) with
          | None => inl (500, "internal_error")
          | Some v =>
              if negb v.(Plans.ok) then inl (409, "plan_invalid")
              else
                let ids := applied_ids prior in
                let outs := prior_outputs prior in
                let remaining := remaining_steps v ids in
                if bool_decide (length remaining = 0%nat) then inl (409, "plan_already_executed")
                else if existsb (fun s => existsb (lost_reference ids outs) (collectStepReferences s.(s_args))) remaining
                then inl (409, "plan_not_resumable")
                else if negb (bool_decide (length (authorizePlanSteps authority ((fun s => (s.(s_id), s.(s_capability))) <$> remaining)) = 0%nat)) then inl (403, "capability_forbidden")
                else if existsb (fun s => negb (isControlExecutable s.(s_capability))) remaining then inl (422, "capability_not_executable")
                else match preview_refusal steps (previewPlan db zoneId (proposed <$> steps)) remaining with
                | Some refusal => inl refusal
                | None =>
                    match mapM (with_credentials now planSeq l.(vault)) remaining with
                    | None => inl (409, "plan_credentials_required")
                    | Some ready => inr (ready, outs)
                    end
                end
          end
      end
  end.

(** *** The record of a result *)

Definition persistedOutputs (r : GovernedStepResult) : option fields :=
  let referencable := match ordered_get r.(r_capability) OperatorCatalog.CATALOG with Some e => OperatorCatalog.outputs e | None => [] end in
  match filter (fun kv => kv.1 ∈ referencable) (default_to [] r.(r_output)) with [] => None | kept => Some kept end.

(** The turns of a failed step: a failed execution when the plan is spent, and an error. *)
Definition failure_turns (planSeq : Z) (r : GovernedExecutionResult) : list Content :=
  match r.(failure) with
  | Some f =>
      ((if negb (bool_decide (length r.(applied) = 0%nat)) || f.(f_terminal) then [Execution planSeq f.(f_step) false None] else [])
       ++ [Narrative error ("Step " +:+ f.(f_step) +:+ " (" +:+ f.(f_capability) +:+ ") failed: " +:+ f.(f_reason))])%list
  | None => []
  end.

(** Those of a lost lease. *)
Definition loss_turns (planSeq : Z) (r : GovernedExecutionResult) : list Content :=
  match r.(leaseLoss) with
  | Some loss =>
      ((if loss.(l_outcomeUncertain) then [Execution planSeq loss.(l_step) false None] else [])
       ++ [Narrative error (match loss.(l_reason) with
                            | renewal_failed => "Execution stopped because distributed lock ownership could not be confirmed."
                            | ownership_lost => "Execution stopped because distributed lock ownership was lost."
                            end)])%list
  | None => []
  end.

(** The record; an execution never ends in both a failure and a loss. *)
Definition result_turns (planSeq : Z) (r : GovernedExecutionResult) : list Content :=
  (((fun a => Execution planSeq a.(r_id) true (persistedOutputs a)) <$> r.(applied)) ++ failure_turns planSeq r ++ loss_turns planSeq r)%list.

(** The plan needs its credentials no more. *)
Definition settled (r : GovernedExecutionResult) : bool :=
  match r.(failure), r.(leaseLoss) with
  | Some f, _ => negb (bool_decide (length r.(applied) = 0%nat)) || f.(f_terminal)
  | None, Some loss => loss.(l_outcomeUncertain)
  | None, None => true
  end.

(** Archived or not, the conversation records what was applied. *)
Definition recordResult (planSeq : Z) (r : GovernedExecutionResult) (l : Ledger) : Ledger :=
  let l := on_conv (fun c => foldl (fun c ct => writeTurnLocked ct None c) c (result_turns planSeq r)) l in
  if settled r then on_vault (deletePlanSecrets planSeq) l else l.
End routes.
End PlanLedger.
