(* ===== verification/MessageRuns.v ===== *)
(** * Message runs in the database

    The durable message runs of [apps/api/src/routes/operator.ts], of one conversation, and
    the deadline reaper [apps/api/src/jobs/message-runs-reaper.ts]: rows and their event
    log, written in transactions that lock the row (a start locks the conversation), so
    each is one step.  Times are microseconds; the clock of the service and of the database
    are one. *)

From S2P Require Import Prelude.
From S2P Require Import Json.
From S2P Require Import OperatorRuns.
From S2P Require Import Governed.
From S2P Require Import PlanLedger.
Local Open Scope string_scope.
Local Open Scope Z_scope.

Module MessageRuns.
Import MessageRun.
Import PlanLedger.

(** ** Rows *)

(** Tokens spent with a provider's model. *)
Record ProviderModelUsage := { pm_provider : string; pm_model : string; pm_input : Z; pm_output : Z }.

(** What a run cost; [GatewayUsage] has the same members. *)
Record Usage := {
  inputTokens : Z;
  outputTokens : Z;
  byProviderModel : list ProviderModelUsage;
  served_provider : option string;
  served_model : option string
}.

Definition no_usage : Usage := {| inputTokens := 0; outputTokens := 0; byProviderModel := []; served_provider := None; served_model := None |}.

(** The columns the state machine has are [progress]. *)
Record MessageRunRow := {
  progress : MessageRunSnapshot;
  client_message_id : string;
  server_message_turn : option Z;
  correlation_id : string;
  actor_id : option string;
  provider_id : option string;
  deadline_at : option Z;
  usage : Usage
}.

Definition with_progress (r : MessageRunRow) (p : MessageRunSnapshot) : MessageRunRow :=
  {| progress := p; client_message_id := r.(client_message_id); server_message_turn := r.(server_message_turn); correlation_id := r.(correlation_id);
     actor_id := r.(actor_id); provider_id := r.(provider_id); deadline_at := r.(deadline_at); usage := r.(usage) |}.

Definition with_usage (r : MessageRunRow) (u : Usage) : MessageRunRow :=
  {| progress := r.(progress); client_message_id := r.(client_message_id); server_message_turn := r.(server_message_turn);
     correlation_id := r.(correlation_id); actor_id := r.(actor_id); provider_id := r.(provider_id); deadline_at := r.(deadline_at); usage := u |}.

Definition with_turn (r : MessageRunRow) (turn : Z) : MessageRunRow :=
  {| progress := r.(progress); client_message_id := r.(client_message_id); server_message_turn := Some turn; correlation_id := r.(correlation_id);
     actor_id := r.(actor_id); provider_id := r.(provider_id); deadline_at := r.(deadline_at); usage := r.(usage) |}.

(** The runs of the conversation, the log with the run of each entry, and the
    conversation. *)
Record RunsDb := { runs : gmap string MessageRunRow; log : list (string * MessageRunEvent); chat : Conversation }.

Definition event_log (db : RunsDb) (runId : string) : list MessageRunEvent :=
  omap (fun re => if bool_decide (re.1 = runId) then Some re.2 else None) db.(log).

(** What the row is given to the caller as. *)
Definition publicMessageRun (run : MessageRunRow) : json :=
  let text := from_option JStr JNull in
  JObj [("id", JStr run.(progress).(id)); ("client_message_id", JStr run.(client_message_id)); ("correlation_id", JStr run.(correlation_id));
        ("state", JStr (state_text run.(progress).(state))); ("reason", text run.(progress).(reason)); ("error_code", text run.(progress).(errorCode));
        ("error_detail", text run.(progress).(errorDetail)); ("deadline_at", from_option JTime JNull run.(deadline_at));
        ("completed_at", text run.(progress).(completedAt)); ("last_event_seq", JNum run.(progress).(lastEventSeq));
        ("usage", JObj [("input_tokens", JNum run.(usage).(inputTokens)); ("output_tokens", JNum run.(usage).(outputTokens));
                        ("total_tokens", JNum (run.(usage).(inputTokens) + run.(usage).(outputTokens)));
                        ("by_provider_model", JArr ((fun e => JObj [("provider", JStr e.(pm_provider)); ("model", JStr e.(pm_model));
                             ("input_tokens", JNum e.(pm_input)); ("output_tokens", JNum e.(pm_output));
                             ("total_tokens", JNum (e.(pm_input) + e.(pm_output)))]) <$> run.(usage).(byProviderModel)))]);
        ("provider", text run.(usage).(served_provider)); ("model", text run.(usage).(served_model))].

(** ** Writes *)

(** What a transition may carry. *)
Record Details := { d_reason : option string; d_errorCode : option string; d_errorDetail : option string; d_usage : option Usage }.

Definition because (reason : string) : Details := {| d_reason := Some reason; d_errorCode := None; d_errorDetail := None; d_usage := None |}.

(** The row after an event, with [COALESCE] as [nullish_or]. *)
Definition advanced (now : Z) (p : MessageRunSnapshot) (to : MessageRunState) (d : Details) : MessageRunSnapshot :=
  {| id := p.(id); state := to; lastEventSeq := p.(lastEventSeq) + 1;
     reason := nullish_or d.(d_reason) p.(reason); errorCode := nullish_or d.(d_errorCode) p.(errorCode);
     errorDetail := nullish_or d.(d_errorDetail) p.(errorDetail);
     completedAt := if isTerminalMessageRunState to then nullish_or p.(completedAt) (Some (to_iso now)) else p.(completedAt) |}.

Definition event_of (now : Z) (p : MessageRunSnapshot) (to : MessageRunState) (d : Details) : MessageRunEvent :=
  {| eventSeq := p.(lastEventSeq) + 1; e_state := to; e_reason := d.(d_reason); e_errorCode := d.(d_errorCode); e_errorDetail := d.(d_errorDetail);
     e_createdAt := Some (to_iso now) |}.

Definition put_run (r : MessageRunRow) (db : RunsDb) : RunsDb :=
  {| runs := <[r.(progress).(id) := r]> db.(runs); log := db.(log); chat := db.(chat) |}.

(** The error is thrown out of the transaction, which is rolled back. *)
Definition writeMessageRunEventLocked (now : Z) (run : MessageRunRow) (to : MessageRunState) (d : Details) (db : RunsDb) :
    run_error + (MessageRunRow * RunsDb) :=
  match assertMessageRunTransition run.(progress).(state) to with
  | inl x => inl x
  | inr _ =>
      let run' := with_usage (with_progress run (advanced now run.(progress) to d)) (default_to run.(usage) d.(d_usage)) in
      inr (run', {| runs := <[run.(progress).(id) := run']> db.(runs); log := (db.(log) ++ [(run.(progress).(id), event_of now run.(progress) to d)])%list;
                    chat := db.(chat) |})
  end.

Definition writeMessageRunUsageLocked (run : MessageRunRow) (u : Usage) (db : RunsDb) : MessageRunRow * RunsDb :=
  let run' := with_usage run u in (run', put_run run' db).

(** The statement updates the row the id names, whatever the caller last read of it. *)
Definition persistMessageRunUsage (runId : string) (u : Usage) (db : RunsDb) : RunsDb :=
  match db.(runs) !! runId with Some run => (writeMessageRunUsageLocked run u db).2 | None => db end.

Definition MESSAGE_RUN_DEADLINE_MS : Z := 120000.

Definition queued_run (now : Z) (runId clientMessageId correlationId actorId : string) (providerId : option string) : MessageRunRow :=
  {| progress := {| id := runId; state := queued; lastEventSeq := 0; reason := None; errorCode := None; errorDetail := None; completedAt := None |};
     client_message_id := clientMessageId; server_message_turn := None; correlation_id := correlationId; actor_id := Some actorId;
     provider_id := providerId; deadline_at := Some (now + MESSAGE_RUN_DEADLINE_MS * 1000); usage := no_usage |}.

Definition run_of_client (clientMessageId : string) (db : RunsDb) : option MessageRunRow :=
  snd <$> head (filter (fun kr => kr.2.(client_message_id) = clientMessageId) (map_to_list db.(runs))).

(** How a start ends; [Conflict] is a unique index refusing the run's correlation or the
    turn's token. *)
Inductive StartOutcome := Started (run : MessageRunRow) | Duplicate (run : MessageRunRow) | Refused (status : Z) (code : string) | Conflict | Invalid (x : run_error).

(** [foreign] are the correlations of other conversations. *)
Definition startMessageRunTx (foreign : list string) (now : Z) (runId message clientMessageId correlationId actorId : string) (providerId : option string)
    (db : RunsDb) : RunsDb * StartOutcome :=
  if negb db.(chat).(active) then (db, Refused 409 "conversation_archived")
  else match run_of_client clientMessageId db with
  | Some run => (db, Duplicate run)
  | None =>
      if bool_decide (correlationId ∈ foreign) || existsb (fun kr => bool_decide (kr.2.(correlation_id) = correlationId)) (map_to_list db.(runs))
      then (db, Conflict)
      else
        let run := queued_run now runId clientMessageId correlationId actorId providerId in
        match writeMessageRunEventLocked now run queued (because "accepted") (put_run run db) with
        | inl x => (db, Invalid x)
        | inr (run, db1) =>
            if existsb (fun t => bool_decide (t.(client_token) = Some clientMessageId)) db.(chat).(turns) then (db, Conflict)
            else
              let chat' := writeTurnLocked (Narrative PlanLedger.message message) (Some clientMessageId) db.(chat) in
              let db2 := put_run (with_turn run db.(chat).(next_seq)) {| runs := db1.(runs); log := db1.(log); chat := chat' |} in
              match writeMessageRunEventLocked now (with_turn run db.(chat).(next_seq)) sending (because "message_recorded") db2 with
              | inl x => (db, Invalid x)
              | inr (run, db3) => (db3, Started run)
              end
        end
  end.

(** The row as it stands after the call; a settled run stays as it settled. *)
Definition transitionMessageRun (now : Z) (runId : string) (to : MessageRunState) (d : Details) (db : RunsDb) : RunsDb * (run_error + option MessageRunRow) :=
  match db.(runs) !! runId with
  | None => (db, inr None)
  | Some run =>
      if isTerminalMessageRunState run.(progress).(state) then
        match d.(d_usage) with
        | Some u => let '(run', db') := writeMessageRunUsageLocked run u db in (db', inr (Some run'))
        | None => (db, inr (Some run))
        end
      else match writeMessageRunEventLocked now run to d db with
           | inl x => (db, inl x)
           | inr (run', db') => (db', inr (Some run'))
           end
  end.

(** [POST /message-runs/cancel]: the status, the body and the run to abort once the
    transaction is committed.  [body] is the client message id of a well-formed body. *)
Definition cancelMessageRun (authority : Plans.OperatorAuthority) (zoneId : string) (now : Z) (body : option string) (db : RunsDb) :
    RunsDb * (run_error + (Z * json * option string)) :=
  let refuse status code := (db, inr (status, JObj [("error", JStr code)], None)) in
  if Plans.isZoneIsolated authority zoneId then refuse 403 "zone_forbidden"
  else match body with
  | None => refuse 400 "invalid_cancel"
  | Some clientMessageId =>
      match run_of_client clientMessageId db with
      | None => refuse 404 "run_not_found"
      | Some run =>
          if isTerminalMessageRunState run.(progress).(state)
          then (db, inr (409, JObj [("error", JStr "run_settled"); ("message_run", publicMessageRun run)], None))
          else match writeMessageRunEventLocked now run cancelled (because "operator_cancelled") db with
               | inl x => (db, inl x)
               | inr (run', db') => (db', inr (200, JObj [("ok", JBool true); ("message_run", publicMessageRun run')], Some run'.(progress).(id)))
               end
      end
  end.

(** ** The reaper *)

Definition REAP_BATCH_SIZE : nat := 500.

Definition expired (now : Z) (r : MessageRunRow) : bool :=
  negb (isTerminalMessageRunState r.(progress).(state)) && match r.(deadline_at) with Some t => t <? now | None => false end.

Definition deadline_le (a b : MessageRunRow) : Prop := default_to 0 a.(deadline_at) <= default_to 0 b.(deadline_at).

#[export] Instance deadline_le_dec a b : Decision (deadline_le a b).
Proof. unfold deadline_le. apply _. Defined.

(** The row of a timed-out run: unlike a transition it keeps an earlier reason. *)
Definition timed_out (now : Z) (p : MessageRunSnapshot) : MessageRunSnapshot :=
  {| id := p.(id); state := timeout; lastEventSeq := p.(lastEventSeq) + 1; reason := nullish_or p.(reason) (Some "deadline_exceeded");
     errorCode := p.(errorCode); errorDetail := p.(errorDetail); completedAt := nullish_or p.(completedAt) (Some (to_iso now)) |}.

Definition reap_row (now : Z) (r : MessageRunRow) (db : RunsDb) : RunsDb :=
  {| runs := <[r.(progress).(id) := with_progress r (timed_out now r.(progress))]> db.(runs);
     log := (db.(log) ++ [(r.(progress).(id), event_of now r.(progress) timeout (because "deadline_exceeded"))])%list; chat := db.(chat) |}.

(** The runs a pass takes; those other transactions hold are skipped. *)
Definition reap_batch (now : Z) (locked : list string) (db : RunsDb) : list MessageRunRow :=
  let due := merge_sort deadline_le (filter (fun r => expired now r = true) (map_to_list db.(runs)).*2) in
  take REAP_BATCH_SIZE (filter (fun r => r.(progress).(id) ∉ locked) due).

(** One pass; it does nothing when another process holds the advisory lock. *)
Definition runMessageRunsReap (acquired : bool) (now : Z) (locked : list string) (db : RunsDb) : RunsDb * nat :=
  if negb acquired then (db, 0%nat)
  else let batch := reap_batch now locked db in (foldl (fun db r => reap_row now r db) db batch, length batch).

(** ** Interleavings *)

(** [step] takes fresh identifiers for new runs; other requests append turns. *)
Inductive run_step (db : RunsDb) : RunsDb -> Prop :=
| run_start foreign now runId message clientMessageId correlationId actorId providerId :
    db.(runs) !! runId = None ->
    run_step db (startMessageRunTx foreign now runId message clientMessageId correlationId actorId providerId db).1
| run_transition now runId to d : run_step db (transitionMessageRun now runId to d db).1
| run_usage runId u : run_step db (persistMessageRunUsage runId u db)
| run_cancel authority zoneId now body : run_step db (cancelMessageRun authority zoneId now body db).1
| run_reap acquired now locked : run_step db (runMessageRunsReap acquired now locked db).1
| run_chat chat' : db.(chat).(turns) `prefix_of` chat'.(turns) -> run_step db {| runs := db.(runs); log := db.(log); chat := chat' |}.

Definition no_runs (c : Conversation) : RunsDb := {| runs := ∅; log := []; chat := c |}.

Definition runs_reachable (db : RunsDb) : Prop := exists c, rtc run_step (no_runs c) db.

(** ** The invariant *)

Definition fresh_run (runId : string) : MessageRunSnapshot :=
  {| id := runId; state := queued; lastEventSeq := 0; reason := None; errorCode := None; errorDetail := None; completedAt := None |}.

Definition with_reason (p : MessageRunSnapshot) (r : option string) : MessageRunSnapshot :=
  {| id := p.(id); state := p.(state); lastEventSeq := p.(lastEventSeq); reason := r; errorCode := p.(errorCode); errorDetail := p.(errorDetail);
     completedAt := p.(completedAt) |}.

(** A row tells what its log tells; the reaper leaves the reason of a row behind. *)
Definition agrees (replayed p : MessageRunSnapshot) : Prop :=
  replayed = p \/ p.(state) = timeout /\ replayed = with_reason p (Some "deadline_exceeded").

Record row_ok (db : RunsDb) (k : string) (r : MessageRunRow) : Prop := {
  ro_id : r.(progress).(id) = k;
  ro_replay : exists replayed, apply_all (fresh_run k) (event_log db k) = inr replayed /\ agrees replayed r.(progress);
  ro_seqs : eventSeq <$> event_log db k = seqZ 1 r.(progress).(lastEventSeq);
  ro_last : 0 <= r.(progress).(lastEventSeq);
  ro_completed : is_Some r.(progress).(completedAt) <-> isTerminalMessageRunState r.(progress).(state) = true;
  ro_turn : exists t, t ∈ db.(chat).(turns) /\ r.(server_message_turn) = Some t.(seq) /\ t.(client_token) = Some r.(client_message_id)
}.

Record runs_ok (db : RunsDb) : Prop := {
  ok_rows : forall k r, db.(runs) !! k = Some r -> row_ok db k r;
  ok_log : forall k e, (k, e) ∈ db.(log) -> is_Some (db.(runs) !! k);
  ok_client : forall k k' r r', db.(runs) !! k = Some r -> db.(runs) !! k' = Some r' -> r.(client_message_id) = r'.(client_message_id) -> k = k'
}.

Lemma event_log_app db k e k' :
  event_log {| runs := db.(runs); log := (db.(log) ++ [(k, e)])%list; chat := db.(chat) |} k'
  = (event_log db k' ++ if bool_decide (k = k') then [e] else [])%list.
Proof. unfold event_log. cbn. rewrite omap_app. cbn. by case_bool_decide. Qed.

Lemma event_log_unknown db k : runs_ok db -> db.(runs) !! k = None -> event_log db k = [].
Proof.
  intros Hok Hn. unfold event_log. pose proof (ok_log db Hok) as Hl. induction db.(log) as [|[k' e] l IH]; [done|]. cbn.
  case_bool_decide as Hk; [|apply IH; intros k2 e2 Hin; apply (Hl k2 e2); by right]. subst k'. destruct (Hl k e) as [r Hr]; [by left|congruence].
Qed.

Lemma apply_all_snoc run events run' e : apply_all run events = inr run' -> apply_all run (events ++ [e]) = applyMessageRunEvent run' e.
Proof.
  revert run. induction events as [|x events IH]; intros run; cbn; [intros [= ->]; by destruct (applyMessageRunEvent run' e)|].
  destruct (applyMessageRunEvent run x); [done|]. apply IH.
Qed.

(** The replay of an unsettled run is its row. *)
Lemma replay_unsettled db k r :
  row_ok db k r -> isTerminalMessageRunState r.(progress).(state) = false -> apply_all (fresh_run k) (event_log db k) = inr r.(progress).
Proof. intros Hr Ht. destruct (ro_replay _ _ _ Hr) as (p & Hp & [-> | [Hs _]]); [done|]. by rewrite Hs in Ht. Qed.

(** An event as either side writes it. *)
Record written (r : MessageRunRow) (e : MessageRunEvent) (r' : MessageRunRow) : Prop := {
  wr_apply : exists replayed, applyMessageRunEvent r.(progress) e = inr replayed /\ agrees replayed r'.(progress);
  wr_seq : e.(eventSeq) = r.(progress).(lastEventSeq) + 1 /\ r'.(progress).(lastEventSeq) = r.(progress).(lastEventSeq) + 1;
  wr_id : r'.(progress).(id) = r.(progress).(id);
  wr_completed : is_Some r'.(progress).(completedAt) <-> isTerminalMessageRunState r'.(progress).(state) = true;
  wr_rest : r'.(client_message_id) = r.(client_message_id) /\ r'.(server_message_turn) = r.(server_message_turn)
}.

Definition store_event (r : MessageRunRow) (e : MessageRunEvent) (r' : MessageRunRow) (db : RunsDb) : RunsDb :=
  {| runs := <[r.(progress).(id) := r']> db.(runs); log := (db.(log) ++ [(r.(progress).(id), e)])%list; chat := db.(chat) |}.

Lemma runs_ok_event db k r e r' :
  runs_ok db -> db.(runs) !! k = Some r -> isTerminalMessageRunState r.(progress).(state) = false -> written r e r' -> runs_ok (store_event r e r' db).
Proof.
  intros Hok Hk Ht [[p [Hp Ha]] [He Hl] Hid Hc [Hcl Htn]]. pose proof (ok_rows db Hok k r Hk) as Hr. pose proof (ro_id _ _ _ Hr) as Hrk.
  unfold store_event. rewrite Hrk. split; cbn.
  - intros k' x Hx. destruct (decide (k = k')) as [<- |Hne].
    + rewrite lookup_insert_eq in Hx. injection Hx as <-. pose proof (ro_last _ _ _ Hr) as H0. split; cbn; [congruence| | |lia|done|].
      * exists p. split; [|done]. unfold event_log; cbn. rewrite omap_app. cbn. rewrite bool_decide_true by done.
        rewrite (apply_all_snoc _ _ r.(progress)); [done|]. by apply replay_unsettled.
      * unfold event_log; cbn. rewrite omap_app, fmap_app. cbn. rewrite bool_decide_true by done. cbn. rewrite He, Hl.
        change (omap _ (log db)) with (event_log db k). rewrite (ro_seqs _ _ _ Hr), seqZ_app by lia.
        by rewrite (Z.add_comm _ 1).
      * rewrite Hcl, Htn. apply (ro_turn _ _ _ Hr).
    + rewrite lookup_insert_ne in Hx by done. destruct (ok_rows db Hok k' x Hx) as [H1 H2 H3 H4 H5 H6].
      assert (event_log {| runs := <[k:=r']> (runs db); log := (log db ++ [(k, e)])%list; chat := chat db |} k' = event_log db k') as Hlog.
      { unfold event_log; cbn. rewrite omap_app. cbn. rewrite bool_decide_false by done. apply app_nil_r. }
      split; rewrite ?Hlog; done.
  - intros k' e' Hin. destruct (decide (k = k')) as [<- |Hne]; [rewrite lookup_insert_eq; by eexists|]. rewrite lookup_insert_ne by done.
    apply elem_of_app in Hin as [Hin|Hin]; [by eapply ok_log|]. apply list_elem_of_singleton in Hin. congruence.
  - assert (forall k2 x, <[k := r']> (runs db) !! k2 = Some x -> exists y, runs db !! k2 = Some y /\ client_message_id y = client_message_id x) as Hold.
    { intros k2 x Hx. destruct (decide (k = k2)) as [<- |Hne]; [rewrite lookup_insert_eq in Hx; injection Hx as <-; by exists r|].
      rewrite lookup_insert_ne in Hx by done. by exists x. }
    intros k1 k2 x1 x2 H1 H2 Heq. apply Hold in H1 as (y1 & H1 & E1), H2 as (y2 & H2 & E2). eapply (ok_client db Hok); [done..|congruence].
Qed.

(** *** The writes keep it *)

Lemma completed_none db k r : row_ok db k r -> isTerminalMessageRunState r.(progress).(state) = false -> r.(progress).(completedAt) = None.
Proof.
  intros Hr Ht. destruct (completedAt _) eqn:Hc; [|done]. pose proof (proj1 (ro_completed _ _ _ Hr)) as Hx. rewrite Hc, Ht in Hx. by specialize (Hx ltac:(by eexists)).
Qed.

Lemma event_written db k now r to d :
  row_ok db k r -> isTerminalMessageRunState r.(progress).(state) = false -> canTransitionMessageRun r.(progress).(state) to = true ->
  applyMessageRunEvent r.(progress) (event_of now r.(progress) to d) = inr (advanced now r.(progress) to d).
Proof.
  intros Hr Ht Hc. unfold applyMessageRunEvent, assertMessageRunTransition. cbn. rewrite Hc.
  destruct (_ <=? _) eqn:Hle; [apply Z.leb_le in Hle; lia|]. unfold advanced. by rewrite (completed_none _ _ _ Hr Ht).
Qed.

Lemma write_event_ok db k r now to d r' db' :
  runs_ok db -> db.(runs) !! k = Some r -> isTerminalMessageRunState r.(progress).(state) = false ->
  writeMessageRunEventLocked now r to d db = inr (r', db') -> runs_ok db'.
Proof.
  intros Hok Hk Ht Hw. pose proof (ok_rows db Hok k r Hk) as Hr. unfold writeMessageRunEventLocked, assertMessageRunTransition in Hw.
  destruct (canTransitionMessageRun _ _) eqn:Hc; [|done]. injection Hw as <- <-. eapply (runs_ok_event db k r (event_of now r.(progress) to d)); [done..|].
  split; cbn; try done; [exists (advanced now r.(progress) to d); split; [by eapply event_written|by left]|].
  rewrite (completed_none _ _ _ Hr Ht). destruct (isTerminalMessageRunState to); cbn; [split; [done|by eexists]|]. split; [by intros [? ?]|done].
Qed.

(** Columns outside the state machine may change. *)
Lemma runs_ok_usage db k r u : runs_ok db -> db.(runs) !! k = Some r -> runs_ok (put_run (with_usage r u) db).
Proof.
  intros Hok Hk. pose proof (ok_rows db Hok k r Hk) as Hr. unfold put_run. cbn. rewrite (ro_id _ _ _ Hr).
  assert (forall k2 x, <[k := with_usage r u]> (runs db) !! k2 = Some x -> exists y, runs db !! k2 = Some y /\ client_message_id y = client_message_id x
    /\ progress y = progress x /\ server_message_turn y = server_message_turn x) as Hold.
  { intros k2 x Hx. destruct (decide (k = k2)) as [<- |Hne]; [rewrite lookup_insert_eq in Hx; injection Hx as <-; by exists r|].
    rewrite lookup_insert_ne in Hx by done. by exists x. }
  split; cbn.
  - intros k2 x Hx. apply Hold in Hx as (y & Hy & Hc & Hp & Ht). destruct (ok_rows db Hok k2 y Hy) as [H1 H2 H3 H4 H5 H6].
    rewrite Hp in H1, H2, H3, H4, H5. rewrite Ht, Hc in H6. by split.
  - intros k2 e Hin. destruct (decide (k = k2)) as [<- |Hne]; [rewrite lookup_insert_eq; by eexists|]. rewrite lookup_insert_ne by done. by eapply ok_log.
  - intros k1 k2 x1 x2 H1 H2 Heq. apply Hold in H1 as (y1 & H1 & E1 & _), H2 as (y2 & H2 & E2 & _). eapply (ok_client db Hok); [done..|congruence].
Qed.

Lemma runs_ok_chat db chat' : runs_ok db -> db.(chat).(turns) `prefix_of` chat'.(turns) -> runs_ok {| runs := db.(runs); log := db.(log); chat := chat' |}.
Proof.
  intros [H1 H2 H3] [more Hp]. split; try done. intros k r Hr. destruct (H1 k r Hr) as [? ? ? ? ? (t & Ht & Hs & Hc)]. split; try done.
  exists t. cbn. rewrite Hp. split; [apply elem_of_app; by left|done].
Qed.

Lemma run_of_client_Some c db r : run_of_client c db = Some r -> exists k, db.(runs) !! k = Some r /\ r.(client_message_id) = c.
Proof.
  unfold run_of_client. intros Hh. apply fmap_Some in Hh as ([k x] & Hh & ->). apply head_Some_elem_of, list_elem_of_filter in Hh as [Hc Hin].
  exists k. split; [by apply elem_of_map_to_list in Hin|done].
Qed.

Lemma run_of_client_None c db k r : run_of_client c db = None -> db.(runs) !! k = Some r -> r.(client_message_id) <> c.
Proof.
  unfold run_of_client. intros Hh Hr Hc. apply fmap_None in Hh. apply head_None in Hh. apply (elem_of_nil (k, r)). rewrite <-Hh.
  apply list_elem_of_filter. split; [done|]. by apply elem_of_map_to_list.
Qed.

Lemma start_ok db foreign now runId message clientMessageId correlationId actorId providerId :
  runs_ok db -> db.(runs) !! runId = None ->
  runs_ok (startMessageRunTx foreign now runId message clientMessageId correlationId actorId providerId db).1.
Proof.
  intros Hok Hnew. unfold startMessageRunTx. destruct (active _); [|done]. cbn [negb]. destruct (run_of_client _ _) as [r|] eqn:Hc; [done|].
  destruct (_ || _); [done|]. unfold writeMessageRunEventLocked, assertMessageRunTransition. cbn.
  change (canTransitionMessageRun queued queued) with true. cbn. destruct (existsb _ _) eqn:Hex; [done|]. cbn.
  change (canTransitionMessageRun queued sending) with true. cbn. rewrite !insert_insert_eq.
  pose (t := {| seq := db.(chat).(next_seq); content := Narrative PlanLedger.message message; client_token := Some clientMessageId |}).
  pose proof (event_log_unknown db runId Hok Hnew) as Hnone. split; cbn.
  - intros k x Hx. destruct (decide (runId = k)) as [<- |Hne].
    + rewrite lookup_insert_eq in Hx. injection Hx as <-. unfold event_log in *. cbn. split; cbn; rewrite ?omap_app, ?Hnone; cbn;
        rewrite ?(bool_decide_true (runId = runId)) by done; cbn; try done.
      * eexists. split; [reflexivity|]. by left.
      * split; [by intros [? ?]|done].
      * exists t. split; [apply elem_of_app; right; by left|done].
    + rewrite lookup_insert_ne in Hx by done. destruct (ok_rows db Hok k x Hx) as [H1 H2 H3 H4 H5 (t' & Ht & Hs & Hcl)].
      unfold event_log in *. split; cbn; rewrite ?omap_app; cbn; rewrite ?(bool_decide_false (runId = k)) by done; cbn; rewrite ?app_nil_r; try done.
      exists t'. split; [apply elem_of_app; by left|done].
  - intros k e Hin. destruct (decide (runId = k)) as [<- |Hne]; [rewrite lookup_insert_eq; by eexists|]. rewrite lookup_insert_ne by done.
    rewrite !elem_of_app in Hin. destruct Hin as [[Hin|Hin]|Hin]; [by eapply ok_log|..]; apply list_elem_of_singleton in Hin; congruence.
  - intros k1 k2 x1 x2 H1 H2 Heq. apply lookup_insert_Some in H1 as [[<- <-]|[N1 H1]]; apply lookup_insert_Some in H2 as [[<- <-]|[N2 H2]].
    + done.
    + cbn in Heq. by destruct (run_of_client_None _ _ _ _ Hc H2).
    + cbn in Heq. by destruct (run_of_client_None _ _ _ _ Hc H1).
    + by eapply (ok_client db Hok).
Qed.

(** *** What a step leaves of a run *)

(** Runs are never lost, their logs only grow, and settled ones stand. *)
Definition extends (db db' : RunsDb) : Prop :=
  forall k r, db.(runs) !! k = Some r -> exists r', db'.(runs) !! k = Some r' /\ event_log db k `prefix_of` event_log db' k
    /\ (isTerminalMessageRunState r.(progress).(state) = true -> r'.(progress) = r.(progress) /\ event_log db' k = event_log db k).

#[export] Instance extends_refl : Reflexive extends.
Proof. intros db k r Hr. by exists r. Qed.

#[export] Instance extends_trans : Transitive extends.
Proof.
  intros a b c Hab Hbc k r Hr. destruct (Hab k r Hr) as (r1 & Hr1 & Hp1 & Ht1). destruct (Hbc k r1 Hr1) as (r2 & Hr2 & Hp2 & Ht2).
  exists r2. split_and!; [done|by etrans|]. intros Ht. destruct (Ht1 Ht) as [E1 L1]. rewrite <-E1 in Ht. destruct (Ht2 Ht) as [E2 L2]. split; congruence.
Qed.

Lemma extends_event db k r e r' :
  runs_ok db -> db.(runs) !! k = Some r -> isTerminalMessageRunState r.(progress).(state) = false -> extends db (store_event r e r' db).
Proof.
  intros Hok Hk Ht k' x Hx. pose proof (ro_id _ _ _ (ok_rows db Hok k r Hk)) as Hid. unfold store_event, event_log. cbn. rewrite Hid, omap_app. cbn.
  destruct (decide (k = k')) as [<- |Hne].
  - rewrite lookup_insert_eq. exists r'. split_and!; [done|by apply prefix_app_r|]. intros Hs. congruence.
  - rewrite lookup_insert_ne, bool_decide_false, app_nil_r by done. by exists x.
Qed.

Lemma extends_usage db k r u : runs_ok db -> db.(runs) !! k = Some r -> extends db (put_run (with_usage r u) db).
Proof.
  intros Hok Hk k' x Hx. unfold put_run. cbn. rewrite (ro_id _ _ _ (ok_rows db Hok k r Hk)). destruct (decide (k = k')) as [<- |Hne].
  - rewrite lookup_insert_eq. exists (with_usage r u). rewrite Hk in Hx. injection Hx as <-. by split_and!.
  - rewrite lookup_insert_ne by done. by exists x.
Qed.

(** What every step gives. *)
Definition good_step (db db' : RunsDb) : Prop := runs_ok db' /\ extends db db'.

Lemma good_refl db : runs_ok db -> good_step db db.
Proof. by split. Qed.

Lemma good_event db k r now to d r' db' :
  runs_ok db -> db.(runs) !! k = Some r -> isTerminalMessageRunState r.(progress).(state) = false ->
  writeMessageRunEventLocked now r to d db = inr (r', db') -> good_step db db'.
Proof.
  intros Hok Hk Ht Hw. split; [by eapply write_event_ok|]. unfold writeMessageRunEventLocked in Hw.
  destruct (assertMessageRunTransition _ _); [done|]. injection Hw as <- <-. by eapply extends_event.
Qed.

Lemma good_usage db k r u : runs_ok db -> db.(runs) !! k = Some r -> good_step db (put_run (with_usage r u) db).
Proof. intros Hok Hk. split; [by eapply runs_ok_usage|by eapply extends_usage]. Qed.

Lemma good_transition db now runId to d : runs_ok db -> good_step db (transitionMessageRun now runId to d db).1.
Proof.
  intros Hok. unfold transitionMessageRun. destruct (runs db !! runId) as [r|] eqn:Hr; [|by apply good_refl].
  destruct (isTerminalMessageRunState _) eqn:Ht.
  - destruct (d_usage d); [by eapply good_usage|by apply good_refl].
  - destruct (writeMessageRunEventLocked _ _ _ _ _) as [x|[r' db']] eqn:Hw; [by apply good_refl|by eapply good_event].
Qed.

Lemma good_cancel db authority zoneId now body : runs_ok db -> good_step db (cancelMessageRun authority zoneId now body db).1.
Proof.
  intros Hok. unfold cancelMessageRun. destruct (Plans.isZoneIsolated _ _); [by apply good_refl|]. destruct body as [c|]; [|by apply good_refl].
  destruct (run_of_client c db) as [r|] eqn:Hr; [|by apply good_refl]. apply run_of_client_Some in Hr as (k & Hk & _).
  destruct (isTerminalMessageRunState _) eqn:Ht; [by apply good_refl|].
  destruct (writeMessageRunEventLocked _ _ _ _ _) as [x|[r' db']] eqn:Hw; [by apply good_refl|by eapply good_event].
Qed.

Lemma reap_written db k now r :
  row_ok db k r -> isTerminalMessageRunState r.(progress).(state) = false ->
  written r (event_of now r.(progress) timeout (because "deadline_exceeded")) (with_progress r (timed_out now r.(progress))).
Proof.
  intros Hr Ht. split; cbn; try done.
  - exists (advanced now r.(progress) timeout (because "deadline_exceeded")). split.
    + eapply event_written; [done..|]. by apply can_always_settle; [|set_solver].
    + right. split; [done|]. unfold advanced, with_reason, timed_out. cbn. by rewrite (completed_none _ _ _ Hr Ht).
  - rewrite (completed_none _ _ _ Hr Ht). cbn. split; [done|by eexists].
Qed.

Definition reapable (db : RunsDb) (r : MessageRunRow) : Prop :=
  db.(runs) !! r.(progress).(id) = Some r /\ isTerminalMessageRunState r.(progress).(state) = false.

Lemma good_reap now batch db :
  runs_ok db -> NoDup ((fun r => r.(progress).(id)) <$> batch) -> Forall (reapable db) batch -> good_step db (foldl (fun db r => reap_row now r db) db batch).
Proof.
  revert db. induction batch as [|r batch IH]; intros db Hok Hnd Hall; [by apply good_refl|]. cbn [foldl].
  apply Forall_cons in Hall as [[Hr Ht] Hall]. cbn [fmap list_fmap] in Hnd. apply NoDup_cons in Hnd as [Hnin Hnd].
  change (reap_row now r db) with (store_event r (event_of now r.(progress) timeout (because "deadline_exceeded")) (with_progress r (timed_out now r.(progress))) db).
  pose proof (runs_ok_event _ _ _ _ _ Hok Hr Ht (reap_written _ _ now _ (ok_rows db Hok _ _ Hr) Ht)) as Hok1.
  destruct (IH _ Hok1 Hnd) as [H1 H2]; [|split; [done|etrans; [by eapply extends_event|exact H2]]].
  apply Forall_forall. intros x Hx. rewrite Forall_forall in Hall. destruct (Hall x Hx) as [Hx1 Hx2]. split; [|done]. cbn. rewrite lookup_insert_ne; [done|].
  intros Heq. apply Hnin. rewrite Heq. apply list_elem_of_fmap. by exists x.
Qed.

Lemma batch_in now locked db r : r ∈ reap_batch now locked db -> (exists k, db.(runs) !! k = Some r) /\ expired now r = true.
Proof.
  unfold reap_batch. intros Hin. eapply elem_of_sublist in Hin; [|apply sublist_take]. apply list_elem_of_filter in Hin as [_ Hin].
  rewrite merge_sort_Permutation in Hin. apply list_elem_of_filter in Hin as [He Hin]. apply list_elem_of_fmap in Hin as ([k x] & -> & Hin).
  split; [exists k; by apply elem_of_map_to_list in Hin|done].
Qed.

Lemma map_ids db : runs_ok db -> (fun r => r.(progress).(id)) <$> (map_to_list db.(runs)).*2 = (map_to_list db.(runs)).*1.
Proof.
  intros Hok. rewrite <-list_fmap_compose. apply list_fmap_ext. intros i [k r] Hi. cbn. apply list_elem_of_lookup_2, elem_of_map_to_list in Hi.
  apply (ro_id _ _ _ (ok_rows db Hok k r Hi)).
Qed.

Lemma batch_ids now locked db : runs_ok db -> NoDup ((fun r => r.(progress).(id)) <$> reap_batch now locked db).
Proof.
  intros Hok. eapply sublist_NoDup; [|apply fmap_sublist, sublist_take]. eapply sublist_NoDup; [|apply fmap_sublist, sublist_filter].
  rewrite merge_sort_Permutation. eapply sublist_NoDup; [|apply fmap_sublist, sublist_filter]. rewrite (map_ids db Hok). apply NoDup_fst_map_to_list.
Qed.

Lemma good_reaper db acquired now locked : runs_ok db -> good_step db (runMessageRunsReap acquired now locked db).1.
Proof.
  intros Hok. unfold runMessageRunsReap. destruct acquired; [|by apply good_refl]. cbn. apply good_reap; [done|by apply batch_ids|].
  apply Forall_forall. intros r Hin. apply batch_in in Hin as [[k Hk] He]. unfold expired in He. apply andb_true_iff in He as [Ht _]. apply negb_true_iff in Ht.
  split; [|done]. by rewrite (ro_id _ _ _ (ok_rows db Hok k r Hk)).
Qed.

Lemma start_extends db foreign now runId message clientMessageId correlationId actorId providerId :
  db.(runs) !! runId = None -> extends db (startMessageRunTx foreign now runId message clientMessageId correlationId actorId providerId db).1.
Proof.
  intros Hnew. unfold startMessageRunTx. destruct (active _); [|done]. cbn [negb]. destruct (run_of_client _ _) as [r|]; [done|].
  destruct (_ || _); [done|]. unfold writeMessageRunEventLocked, assertMessageRunTransition. cbn.
  change (canTransitionMessageRun queued queued) with true. cbn. destruct (existsb _ _); [done|]. cbn.
  change (canTransitionMessageRun queued sending) with true. cbn. intros k r Hr. assert (runId <> k) as Hne by congruence.
  exists r. unfold event_log. cbn. rewrite !lookup_insert_ne, !omap_app by done. cbn. rewrite !bool_decide_false by done. cbn. by rewrite !app_nil_r.
Qed.

Lemma run_step_good db db' : run_step db db' -> runs_ok db -> good_step db db'.
Proof.
  intros Hs Hok. destruct Hs.
  - split; [by apply start_ok|by apply start_extends].
  - by apply good_transition.
  - unfold persistMessageRunUsage. destruct (runs db !! runId) as [r|] eqn:Hr; [by eapply good_usage|by apply good_refl].
  - by apply good_cancel.
  - by apply good_reaper.
  - split; [by apply runs_ok_chat|]. intros k r Hr. by exists r.
Qed.

Lemma no_runs_ok c : runs_ok (no_runs c).
Proof. split; cbn; try done. intros k e Hin. by apply elem_of_nil in Hin. Qed.

Lemma steps_good db db' : rtc run_step db db' -> runs_ok db -> good_step db db'.
Proof.
  induction 1 as [db|db db1 db' Hs _ IH]; intros Hok; [by apply good_refl|]. destruct (run_step_good _ _ Hs Hok) as [Hok1 He1].
  destruct (IH Hok1) as [Hok' He']. split; [done|by etrans].
Qed.

(** A log sorted by number is folded as it stands. *)
Lemma fold_log run evs log n :
  evs ≡ₚ log -> eventSeq <$> log = seqZ 1 n -> foldMessageRunEvents run evs = apply_all run log.
Proof.
  intros Hp Hn. assert (NoDup (eventSeq <$> log)) as Hnd by (rewrite Hn; apply NoDup_seqZ).
  unfold foldMessageRunEvents. rewrite <-(sorted_unique _ _ (symmetry Hp) Hnd). f_equal. clear evs Hp.
  apply (StronglySorted_unique_strong seq_le); [|apply StronglySorted_merge_sort; apply _| |apply merge_sort_Permutation].
  - intros x y Hx Hy. rewrite merge_sort_Permutation in Hx. by apply (distinct_antisym log).
  - clear Hnd. assert (exists m, eventSeq <$> log = seqZ m n) as [m Hm] by (by exists 1). clear Hn. revert m n Hm.
    induction log as [|e log IH]; intros m n Hm; [constructor|]. cbn in Hm. destruct (Z.le_gt_cases n 0); [by rewrite seqZ_nil in Hm|].
    rewrite (seqZ_cons m n) in Hm by lia. injection Hm as He Hm. constructor; [by eapply IH|]. apply Forall_forall. intros x Hx. unfold seq_le.
    apply (list_elem_of_fmap_2 eventSeq) in Hx. rewrite Hm in Hx. apply elem_of_seqZ in Hx. lia.
Qed.

(** C18. The event log of a message run is the truth its row caches: whatever starts,
    transitions, cancellations, late usage reports and deadline passes interleave, the
    events of each run are numbered without gaps, folding them in any order of arrival
    from a queued run gives the row's state, errors and completion, and its reason too
    unless the reaper timed the run out, when the row keeps the reason it had; a run is
    complete exactly when settled, belongs to the one user turn with its client message
    id, and no later step changes it or its log once it is settled. *)
Theorem runs_replay db :
  runs_reachable db ->
  (forall k r evs, db.(runs) !! k = Some r -> evs ≡ₚ event_log db k ->
    exists replayed, foldMessageRunEvents (fresh_run k) evs = inr replayed /\ agrees replayed r.(progress)
    /\ eventSeq <$> event_log db k = seqZ 1 r.(progress).(lastEventSeq)
    /\ rtc moves queued r.(progress).(state)
    /\ (is_Some r.(progress).(completedAt) <-> isTerminalMessageRunState r.(progress).(state) = true)
    /\ exists t, t ∈ db.(chat).(turns) /\ r.(server_message_turn) = Some t.(seq) /\ t.(client_token) = Some r.(client_message_id))
  /\ (forall k k' r r', db.(runs) !! k = Some r -> db.(runs) !! k' = Some r' -> r.(client_message_id) = r'.(client_message_id) -> k = k')
  /\ (forall db', rtc run_step db db' -> extends db db').
Proof.
  intros [c Hreach]. destruct (steps_good _ _ Hreach (no_runs_ok c)) as [Hok _]. split_and!.
  - intros k r evs Hr Hp. destruct (ok_rows db Hok k r Hr) as [Hid (p & Happ & Ha) Hseq Hlast Hc Ht]. exists p.
    rewrite (fold_log _ _ _ _ Hp Hseq). split_and!; try done. destruct (apply_all_spec _ _ _ Happ) as [Hm _]. cbn in Hm.
    destruct Ha as [-> | [Hs ->]]; [done|]. exact Hm.
  - apply (ok_client db Hok).
  - intros db' Hs. by apply steps_good.
Qed.

(** A pass that finds no more than a batch, none of them held, settles every expired run. *)
Theorem reap_settles db now k r :
  runs_ok db -> (length (filter (fun r => expired now r = true) (map_to_list db.(runs)).*2) <= REAP_BATCH_SIZE)%nat ->
  db.(runs) !! k = Some r -> expired now r = true ->
  exists r', (runMessageRunsReap true now [] db).1.(runs) !! k = Some r' /\ r'.(progress).(state) = timeout.
Proof.
  intros Hok Hlen Hk He.
  assert (r ∈ reap_batch now [] db) as Hin.
  { unfold reap_batch. rewrite take_ge.
    - apply list_elem_of_filter. split; [apply not_elem_of_nil|]. rewrite merge_sort_Permutation. apply list_elem_of_filter. split; [done|].
      apply list_elem_of_fmap. exists (k, r). split; [done|by apply elem_of_map_to_list].
    - etrans; [apply length_filter|]. by rewrite merge_sort_Permutation. }
  unfold runMessageRunsReap. cbn [negb fst]. pose proof (ro_id _ _ _ (ok_rows db Hok k r Hk)) as Hid. pose proof (batch_ids now [] db Hok) as Hnd. clear Hlen.
  generalize dependent (reap_batch now [] db). intros batch Hin Hnd. clear Hok Hk.
  rewrite <-Hid.
  apply list_elem_of_split in Hin as (l1 & l2 & ->). rewrite foldl_app. cbn [foldl]. rewrite fmap_app in Hnd. cbn in Hnd.
  apply NoDup_app in Hnd as (_ & _ & Hnd). apply NoDup_cons in Hnd as [Hnin _].
  generalize (foldl (fun db r => reap_row now r db) db l1). clear l1 db. intros db0.
  assert ((reap_row now r db0).(runs) !! r.(progress).(id) = Some (with_progress r (timed_out now r.(progress)))) as H0 by (cbn; by rewrite lookup_insert_eq).
  generalize dependent (reap_row now r db0). induction l2 as [|x l2 IH]; intros d Hd; [by eexists|]. cbn [foldl]. cbn in Hnin.
  apply not_elem_of_cons in Hnin as [Hx Hnin]. apply (IH Hnin). cbn. by rewrite lookup_insert_ne.
Qed.
End MessageRuns.
