(* ===== verification/ApiAuth.v ===== *)
(** * Who may call the API

    [apps/api/src/auth.ts], [reserved-namespace.ts] and [routes/admin-tokens.ts] with the
    derived tokens and account assertions of [packages/serverCore/ts/src]: admin tokens in
    their table, the verification cache, and the hook in front of every [/v1/] route.
    Times are milliseconds, those of an assertion seconds.  SHA-256, HMAC, Argon2id and
    base64url are parameters. *)

From Stdlib Require Import Ascii.
From Stdlib Require String.
From S2P Require Import Prelude.
From S2P Require Import Scope.
From S2P Require Import Json.
From S2P Require Import Numbers.
From S2P Require Import JsonText.
From S2P Require Import Text.
From S2P Require Import Prog.
From S2P Require Import AdminClient.
Local Open Scope string_scope.
Local Open Scope Z_scope.

(** [sha256], [createHmac('sha256', key)] printed as base64url, [hash] (with its salt) and
    [verify] of Argon2id, and [Buffer]'s base64url. *)
Class TokenCrypto := {
  token_sha : string -> string;
  hmac_base64url : string -> string -> string;
  argon2_hash : string -> string -> string;
  argon2_verify : string -> string -> bool;
  to_base64url : string -> string;
  of_base64url : string -> string
}.

(** A hash verifies its secret; base64url reads back and uses its alphabet. *)
Class TokenCryptoLaws `{TokenCrypto} : Prop := {
  argon2_verifies : forall salt t, argon2_verify t (argon2_hash salt t) = true;
  argon2_not_empty : forall salt t, argon2_hash salt t <> "";
  base64url_reads : forall s, Uri.well_formed s = true -> of_base64url (to_base64url s) = s;
  base64url_chars : forall s, all_chars (fun c => is_alnum c || one_of "-_" c) (to_base64url s) = true;
  hmac_chars : forall k s, all_chars (fun c => is_alnum c || one_of "-_" c) (hmac_base64url k s) = true
}.

Module ApiAuth.
Import AdminClient.

Inductive AdminScope := Global | ZoneScope.
Inductive AdminCapability := read | write | approve.

#[export] Instance AdminScope_eq_dec : EqDecision AdminScope.
Proof. solve_decision. Defined.

#[export] Instance AdminCapability_eq_dec : EqDecision AdminCapability.
Proof. solve_decision. Defined.

Record Actor := {
  id : string;
  name : string;
  scope : AdminScope;
  capability : AdminCapability;
  zoneId : option string;
  createdBy : string
}.

#[export] Instance Actor_eq_dec : EqDecision Actor.
Proof. solve_decision. Defined.

(** [actor.identity] are the columns an actor has. *)
Record AdminTokenRow := {
  identity : Actor;
  token_sha256 : string;
  token_hash : option string;
  last_used_at : option Z;
  revoked_at : option Z
}.

(** A header as Node gives it. *)
Inductive header := Absent | One (value : string) | Many (values : list string).

Record Request := { method : string; url : string; ip : string; authorization : option string; x_caracal_account : header }.

Definition BEARER_PREFIX : string := "Bearer ".
Definition MAX_ADMIN_BEARER_BYTES : nat := 4096.
Definition INVALID_ZONE_ID : string := String.String (ascii_of_nat 0) "invalid-zone".

Definition extractBearer (req : Request) : option string :=
  match req.(authorization) with
  | Some auth =>
      if has_prefix BEARER_PREFIX auth then
        let token := trim (drop_bytes (String.length BEARER_PREFIX) auth) in
        if (0 <? js_length token)%nat && (js_length token <=? MAX_ADMIN_BEARER_BYTES)%nat then Some token else None
      else None
  | None => None
  end.

(** ** What a path names *)

(** [url.split('?')[0]]. *)
Definition path_of (url : string) : string := before "?" url.

(** The longest text without [/] and [?]. *)
Definition zone_segment (s : string) : string := before "?" (before "/" s).

Definition zoneFromUrl (url : string) : string :=
  if has_prefix "/v1/zones/" url then
    let seg := zone_segment (drop_bytes 10 url) in
    if bool_decide (seg = "") then INVALID_ZONE_ID else default_to INVALID_ZONE_ID (Uri.decodeURIComponent seg)
  else INVALID_ZONE_ID.

Definition is_get (method : string) : bool := bool_decide (method = "GET") || bool_decide (method = "HEAD").

Definition isGlobalReadPath (method url : string) : bool :=
  let path := path_of url in
  if bool_decide (path = "/v1/policies/validate") then bool_decide (method = "POST")
  else if bool_decide (path = "/v1/policy-templates") || has_prefix "/v1/policy-templates/" path then is_get method
  else false.

(** A path pattern: literal segments and [[^/]+]. *)
Inductive segment := Word (w : string) | Any.

Definition segment_matches (p : segment) (s : string) : bool :=
  match p with Word w => bool_decide (s = w) | Any => negb (bool_decide (s = "")) end.

Fixpoint segments_match (ps : list segment) (ss : list string) : bool :=
  match ps, ss with
  | [], [] => true
  | p :: ps, s :: ss => segment_matches p s && segments_match ps ss
  | _, _ => false
  end.

(** [pattern.test(path)] of an anchored pattern that starts with [/]. *)
Definition path_matches (ps : list segment) (path : string) : bool := segments_match (Word "" :: ps) (split_on "/" path).

Definition isPublicOAuthCallback (method url : string) : bool :=
  is_get method && path_matches [Word "v1"; Word "zones"; Any; Word "provider-connections"; Word "oauth"; Word "callback"] (path_of url).

Definition isControlInvoke (method url : string) : bool :=
  bool_decide (method = "POST") && bool_decide (path_of url = "/v1/control/invoke").

Definition isReadOnlyRequest (method url : string) : bool := is_get method || isGlobalReadPath method url.

Definition isApprovalDecisionPath (method url : string) : bool :=
  bool_decide (method = "POST")
  && (path_matches [Word "v1"; Word "zones"; Any; Word "approvals"; Any; Word "approve"] (path_of url)
      || path_matches [Word "v1"; Word "zones"; Any; Word "approvals"; Any; Word "reject"] (path_of url)).

(** What [.] matches; no URL has characters above U+00FF. *)
Definition no_line_end (c : ascii) : bool := negb (bool_decide (c = ascii_of_nat 10)) && negb (bool_decide (c = ascii_of_nat 13)).

Inductive pattern := Exact (ps : list segment) | Below (root : string).

Definition pattern_test (p : pattern) (path : string) : bool :=
  match p with
  | Exact ps => path_matches ps path
  | Below root => bool_decide (path = root)
                  || (has_prefix (root +:+ "/") path && all_chars no_line_end (drop_bytes (String.length root + 1) path))
  end.

Definition ACCOUNT_GLOBAL_ROUTES : list (pattern * list string) :=
  [(Exact [Word "v1"; Word "zones"], ["GET"; "HEAD"; "POST"]);
   (Below "/v1/policy-templates", ["GET"; "HEAD"]);
   (Exact [Word "v1"; Word "policies"; Word "validate"], ["POST"]);
   (Exact [Word "v1"; Word "operator"; Word "status"], ["GET"; "HEAD"]);
   (Exact [Word "v1"; Word "operator"; Word "capabilities"], ["GET"; "HEAD"]);
   (Exact [Word "v1"; Word "operator"; Word "ai"; Word "status"], ["GET"; "HEAD"]);
   (Exact [Word "v1"; Word "operator"; Word "ai"; Word "check"], ["POST"]);
   (Exact [Word "v1"; Word "operator"; Word "ai"; Word "providers"], ["GET"; "HEAD"; "POST"]);
   (Exact [Word "v1"; Word "operator"; Word "ai"; Word "providers"; Any], ["PATCH"; "DELETE"]);
   (Exact [Word "v1"; Word "operator"; Word "ai"; Word "providers"; Any; Word "key"], ["POST"]);
   (Exact [Word "v1"; Word "audit-retention"], ["GET"; "HEAD"; "PUT"]);
   (Exact [Word "v1"; Word "mint-rate-limit"], ["GET"; "HEAD"; "PUT"])].

Definition isAccountGlobalPath (method url : string) : bool :=
  existsb (fun pm => bool_decide (method ∈ pm.2) && pattern_test pm.1 (path_of url)) ACCOUNT_GLOBAL_ROUTES.

(** ** The reserved namespace *)

Inductive ReservedObjectType := zoneSlug | zoneName | applicationName | resourceIdentifier | providerIdentifier | policyName.

Definition RESERVED_NAMESPACE : string := "caracal.sys".

Definition RESERVED_PREFIX (t : ReservedObjectType) : string :=
  match t with
  | zoneSlug => "caracal-sys-"
  | zoneName | applicationName | policyName => "caracal.sys/"
  | resourceIdentifier => "caracal-sys://"
  | providerIdentifier => "provider://caracal-sys-"
  end.

Definition OSS_ORG_ID : string := "ORG-0000-0000-0000".
Definition CARACAL_ORG_ID : string := "ORG-CRC0-SYS0-0001".

Definition resolveOssOrg (orgId : option string) : string := if bool_decide (orgId = Some CARACAL_ORG_ID) then CARACAL_ORG_ID else OSS_ORG_ID.

Definition RESERVED_ZONE_IDS : list string := [OSS_ORG_ID].

(** The identifiers drawn are an argument; [None] when all of them are reserved. *)
Definition mintZoneId (generated : list string) : option string := head (filter (fun i => i ∉ RESERVED_ZONE_IDS) generated).

Definition isInternalProvisioner (actor : Actor) : bool := bool_decide (actor.(createdBy) = "env-bootstrap").

(** Case folding is that of ASCII letters, which the prefixes are made of. *)
Definition isReservedZone (zname zslug : option string) : bool :=
  has_prefix (RESERVED_PREFIX zoneName) (to_lower (trim (default_to "" zname)))
  || has_prefix (RESERVED_PREFIX zoneSlug) (to_lower (trim (default_to "" zslug))).

Definition assertReservedNamespace (t : ReservedObjectType) (value : option string) (actor : Actor) : option (string * string) :=
  match value with
  | None => None
  | Some v =>
      if has_prefix (RESERVED_PREFIX t) (to_lower (trim v)) && negb (isInternalProvisioner actor)
      then Some ("reserved_namespace", "the '" +:+ RESERVED_NAMESPACE +:+ "' namespace is reserved for Caracal internal systems")
      else None
  end.

Definition DERIVED_CONSOLE_CREATED_BY_PREFIX : string := "env-derived".

Definition isDerivedConsoleActor (actor : Actor) : bool := has_prefix DERIVED_CONSOLE_CREATED_BY_PREFIX actor.(createdBy).

(** ** Account assertions *)

Section crypto.
Context `{TokenCrypto}.

Definition ACCOUNT_ASSERTION_LABEL : string := "caracal:account:v1".
Definition ACCOUNT_ASSERTION_PREFIX : string := "v1".
Definition MAX_ACCOUNT_ID_BYTES : nat := 256.

(** [`${exp}`]. *)
Definition exp_text (exp : number) : string := match safe_integer exp with Some k => pretty k | None => Number_to_string exp end.

Definition mac_text (accountId exp : string) : string := ACCOUNT_ASSERTION_LABEL +:+ ":" +:+ accountId +:+ ":" +:+ exp.

Definition mac (adminToken accountId exp : string) : string := hmac_base64url adminToken (mac_text accountId exp).

Definition signAccountAssertion (adminToken accountId : string) (exp : number) : string :=
  ACCOUNT_ASSERTION_PREFIX +:+ "." +:+ to_base64url accountId +:+ "." +:+ exp_text exp +:+ "." +:+ mac adminToken accountId (exp_text exp).

Definition verifyAccountAssertion (adminToken assertion : string) (now : Z) : option string :=
  match split_on "." assertion with
  | [version; encoded; expiry; got] =>
      if negb (bool_decide (version = ACCOUNT_ASSERTION_PREFIX)) then None
      else
        let accountId := of_base64url encoded in
        if bool_decide (accountId = "") || (MAX_ACCOUNT_ID_BYTES <? String.length accountId)%nat then None
        else match as_integer (Number expiry) with
        | None => None
        | Some exp =>
            if exp <=? now then None
            else if bool_decide (got = mac adminToken accountId (exp_text (Number expiry))) then Some accountId else None
        end
  | _ => None
  end.

(** ** Derived tokens *)

Definition CONSOLE_READ_TOKEN_LABEL : string := "caracal:console:read-only:v1".
Definition CONSOLE_WRITE_TOKEN_LABEL : string := "caracal:console:write:v1".
Definition CONSOLE_APPROVE_TOKEN_LABEL : string := "caracal:console:approve:v1".

Definition deriveConsoleToken (adminToken label : string) : string := "cat_" +:+ hmac_base64url adminToken label.
Definition deriveConsoleReadToken (adminToken : string) : string := deriveConsoleToken adminToken CONSOLE_READ_TOKEN_LABEL.
Definition deriveConsoleWriteToken (adminToken : string) : string := deriveConsoleToken adminToken CONSOLE_WRITE_TOKEN_LABEL.
Definition deriveConsoleApproveToken (adminToken : string) : string := deriveConsoleToken adminToken CONSOLE_APPROVE_TOKEN_LABEL.

(** ** The token table *)

Definition live (r : AdminTokenRow) : bool := match r.(revoked_at) with None => true | Some _ => false end.

(** [SELECT ... WHERE token_sha256 = $1 AND revoked_at IS NULL LIMIT 1]. *)
Definition select_live (digest : string) (table : list AdminTokenRow) : option AdminTokenRow :=
  head (filter (fun r => r.(token_sha256) = digest /\ live r = true) table).

(** [lookupAdminToken] on the row its query returned. *)
Definition check_row (plaintext : string) (row : option AdminTokenRow) : option Actor :=
  match row with
  | None => None
  | Some r =>
      if negb (bool_decide (r.(token_sha256) = token_sha plaintext)) then None
      else match r.(token_hash) with
           | None => None
           | Some h => if bool_decide (h = "") || negb (argon2_verify plaintext h) then None else Some r.(identity)
           end
  end.

Definition lookupAdminToken (table : list AdminTokenRow) (plaintext : string) : option Actor :=
  check_row plaintext (select_live (token_sha plaintext) table).

Definition with_hash (h : string) (r : AdminTokenRow) : AdminTokenRow :=
  {| identity := r.(identity); token_sha256 := r.(token_sha256); token_hash := Some h; last_used_at := r.(last_used_at); revoked_at := r.(revoked_at) |}.

Definition revoke_row (now : Z) (r : AdminTokenRow) : AdminTokenRow :=
  {| identity := r.(identity); token_sha256 := r.(token_sha256); token_hash := r.(token_hash); last_used_at := r.(last_used_at); revoked_at := Some now |}.

Definition touch_row (now : Z) (r : AdminTokenRow) : AdminTokenRow :=
  {| identity := r.(identity); token_sha256 := r.(token_sha256); token_hash := r.(token_hash); last_used_at := Some now; revoked_at := r.(revoked_at) |}.

(** [UPDATE admin_tokens SET ... WHERE p]. *)
Definition update_rows (p : AdminTokenRow -> bool) (f : AdminTokenRow -> AdminTokenRow) (table : list AdminTokenRow) : list AdminTokenRow :=
  (fun r => if p r then f r else r) <$> table.

Definition touchLastUsed (now : Z) (tokenId : string) : list AdminTokenRow -> list AdminTokenRow :=
  update_rows (fun r => bool_decide (r.(identity).(id) = tokenId)) (touch_row now).

(** ** Seeding

    The seeders run when a process starts, one process at a time; [salt] and the
    identifier of a new row are drawn. *)

(** Revoking the live tokens of a creator other than the current one. *)
Definition revoke_stale (now : Z) (creator activeDigest : string) : list AdminTokenRow -> list AdminTokenRow :=
  update_rows (fun r => bool_decide (r.(identity).(createdBy) = creator) && live r && negb (bool_decide (r.(token_sha256) = activeDigest))) (revoke_row now).

Definition revokeStaleBootstrapTokens (now : Z) (activeDigest : string) : list AdminTokenRow -> list AdminTokenRow :=
  revoke_stale now "env-bootstrap" activeDigest.

Definition select_any (digest : string) (table : list AdminTokenRow) : option AdminTokenRow := head (filter (fun r => r.(token_sha256) = digest) table).

Definition hashed (r : AdminTokenRow) : bool := match r.(token_hash) with Some h => negb (bool_decide (h = "")) | None => false end.

Definition new_row (actor : Actor) (digest hash : string) : AdminTokenRow :=
  {| identity := actor; token_sha256 := digest; token_hash := Some hash; last_used_at := None; revoked_at := None |}.

Definition bootstrap_actor (newId : string) : Actor :=
  {| id := newId; name := "bootstrap"; scope := Global; capability := write; zoneId := None; createdBy := "env-bootstrap" |}.

Definition seedBootstrapAdminToken (now : Z) (newId salt : string) (envToken : option string) (table : list AdminTokenRow) : list AdminTokenRow :=
  match envToken with
  | None => table
  | Some token =>
      if bool_decide (token = "") then table
      else
        let digest := token_sha token in
        match select_any digest table with
        | Some row =>
            if hashed row then revokeStaleBootstrapTokens now digest table
            else revokeStaleBootstrapTokens now digest
                   (update_rows (fun r => bool_decide (r.(identity).(id) = row.(identity).(id)) && bool_decide (r.(token_hash) = None)) (with_hash (argon2_hash salt token)) table)
        | None => revokeStaleBootstrapTokens now digest (table ++ [new_row (bootstrap_actor newId) digest (argon2_hash salt token)])%list
        end
  end.

Record TokenMeta := { m_name : string; m_capability : AdminCapability; m_createdBy : string }.

Definition derived_actor (newId : string) (meta : TokenMeta) : Actor :=
  {| id := newId; name := meta.(m_name); scope := Global; capability := meta.(m_capability); zoneId := None; createdBy := meta.(m_createdBy) |}.

Definition seedDerivedConsoleToken (now : Z) (newId salt derived : string) (meta : TokenMeta) (table : list AdminTokenRow) : list AdminTokenRow :=
  let digest := token_sha derived in
  let table' :=
    match select_any digest table with
    | None => (table ++ [new_row (derived_actor newId meta) digest (argon2_hash salt derived)])%list
    | Some row =>
        if hashed row then table
        else update_rows (fun r => bool_decide (r.(token_sha256) = digest) && bool_decide (r.(token_hash) = None)) (with_hash (argon2_hash salt derived)) table
    end in
  revoke_stale now meta.(m_createdBy) digest table'.

Definition read_meta : TokenMeta := {| m_name := "console-read-only"; m_capability := read; m_createdBy := "env-derived" |}.
Definition write_meta : TokenMeta := {| m_name := "console-write"; m_capability := write; m_createdBy := "env-derived-write" |}.
Definition approve_meta : TokenMeta := {| m_name := "console-approve"; m_capability := approve; m_createdBy := "env-derived-approve" |}.

Definition seed_derived (now : Z) (newId salt : string) (derive : string -> string) (meta : TokenMeta) (envToken : option string)
    (table : list AdminTokenRow) : list AdminTokenRow :=
  match envToken with
  | None => table
  | Some token => if bool_decide (token = "") then table else seedDerivedConsoleToken now newId salt (derive token) meta table
  end.

Definition seedConsoleReadToken (now : Z) (newId salt : string) := seed_derived now newId salt deriveConsoleReadToken read_meta.
Definition seedConsoleWriteToken (now : Z) (newId salt : string) := seed_derived now newId salt deriveConsoleWriteToken write_meta.
Definition seedConsoleApproveToken (now : Z) (newId salt : string) := seed_derived now newId salt deriveConsoleApproveToken approve_meta.

(** The four seeders in the order of [main.ts], with what each draws. *)
Record Draws := { d_now : Z; bootstrap_id : string; read_id : string; write_id : string; approve_id : string; d_salt : string }.

Definition seed_all (d : Draws) (envToken : option string) (table : list AdminTokenRow) : list AdminTokenRow :=
  seedConsoleApproveToken d.(d_now) d.(approve_id) d.(d_salt) envToken
    (seedConsoleWriteToken d.(d_now) d.(write_id) d.(d_salt) envToken
      (seedConsoleReadToken d.(d_now) d.(read_id) d.(d_salt) envToken
        (seedBootstrapAdminToken d.(d_now) d.(bootstrap_id) d.(d_salt) envToken table))).

(** ** Managing tokens *)

Definition requireManagementActor (actor : option Actor) : option (Z * string) :=
  match actor with
  | Some a =>
      if negb (bool_decide (a.(scope) = Global)) then Some (403, "admin_token_management_requires_global")
      else if isDerivedConsoleActor a then Some (403, "admin_token_management_forbidden_for_derived_token")
      else None
  | None => Some (403, "admin_token_management_requires_global")
  end.

Record MintBody := { b_name : string; b_scope : AdminScope; b_zone_id : option string; b_capability : AdminCapability }.

(** A string of [lo] to [hi] UTF-16 units. *)
Definition text_between (lo hi : nat) (v : json) : option string :=
  match v with JStr s => if (lo <=? js_length s)%nat && (js_length s <=? hi)%nat then Some s else None | _ => None end.

Definition parse_scope (v : json) : option AdminScope :=
  match v with JStr s => if bool_decide (s = "global") then Some Global else if bool_decide (s = "zone") then Some ZoneScope else None | _ => None end.

Definition parse_capability (v : json) : option AdminCapability :=
  match v with
  | JUndefined => Some write
  | JStr s => if bool_decide (s = "read") then Some read else if bool_decide (s = "write") then Some write
              else if bool_decide (s = "approve") then Some approve else None
  | _ => None
  end.

Definition parse_zone (v : json) : option (option string) :=
  match v with JUndefined => Some None | _ => Some <$> text_between 1 128 v end.

Definition parse_MintBody (body : json) : option MintBody :=
  match body with
  | JObj fields =>
      if negb (forallb (fun kv => bool_decide (kv.1 ∈ ["name"; "scope"; "zone_id"; "capability"])) fields) then None
      else match text_between 1 120 (json_get "name" body), parse_scope (json_get "scope" body), parse_zone (json_get "zone_id" body),
                 parse_capability (json_get "capability" body) with
           | Some n, Some sc, Some z, Some c => Some {| b_name := n; b_scope := sc; b_zone_id := z; b_capability := c |}
           | _, _, _, _ => None
           end
  | _ => None
  end.

Definition scope_text (s : AdminScope) : string := match s with Global => "global" | ZoneScope => "zone" end.
Definition capability_text (c : AdminCapability) : string := match c with read => "read" | write => "write" | approve => "approve" end.

Definition error_of (status : Z) (code : string) : Z * json := (status, JObj [("error", JStr code)]).

Definition minted_actor (newId : string) (by_ : Actor) (b : MintBody) : Actor :=
  {| id := newId; name := b.(b_name); scope := b.(b_scope); capability := b.(b_capability);
     zoneId := match b.(b_scope) with ZoneScope => b.(b_zone_id) | Global => None end; createdBy := "admin:" +:+ by_.(id) |}.

(** [POST /admin-tokens]: [zones] are the live zones, [random] the 32 bytes drawn, as
    base64url.  The insertion fails when the unique index has the digest. *)
Definition mintAdminToken (zones : list string) (now : Z) (newId random salt : string) (actor : option Actor) (body : json) (table : list AdminTokenRow) :
    list AdminTokenRow * (Z * json) :=
  match requireManagementActor actor, actor with
  | Some (status, code), _ => (table, error_of status code)
  | None, None => (table, error_of 500 "internal_error")
  | None, Some a =>
      match parse_MintBody body with
      | None => (table, error_of 400 "invalid_admin_token_request")
      | Some b =>
          let refused :=
            match b.(b_scope), b.(b_zone_id) with
            | ZoneScope, None => Some (400, "zone_id_required")
            | ZoneScope, Some z => if bool_decide (z ∈ zones) then None else Some (404, "zone_not_found")
            | Global, Some _ => Some (400, "zone_id_not_allowed_for_global")
            | Global, None => None
            end in
          match refused with
          | Some (status, code) => (table, error_of status code)
          | None =>
              let token := "cat_" +:+ random in
              if bool_decide (is_Some (select_live (token_sha token) table)) then (table, error_of 500 "internal_error")
              else
                let m := minted_actor newId a b in
                ((table ++ [new_row m (token_sha token) (argon2_hash salt token)])%list,
                 (201, JObj [("id", JStr m.(id)); ("name", JStr m.(name)); ("scope", JStr (scope_text m.(scope)));
                             ("capability", JStr (capability_text m.(capability))); ("zone_id", from_option JStr JNull m.(zoneId));
                             ("created_by", JStr m.(createdBy)); ("created_at", JTime now); ("token", JStr token)]))
          end
      end
  end.

(** [DELETE /admin-tokens/:id]; the reply of a success has no body. *)
Definition revokeAdminToken (now : Z) (actor : option Actor) (tokenId : string) (table : list AdminTokenRow) : list AdminTokenRow * (Z * json) :=
  match requireManagementActor actor with
  | Some (status, code) => (table, error_of status code)
  | None =>
      if negb ((1 <=? js_length tokenId)%nat && (js_length tokenId <=? 128)%nat) then (table, error_of 400 "invalid_admin_token_id")
      else
        let hit r := bool_decide (r.(identity).(id) = tokenId) && live r in
        if existsb hit table then (update_rows hit (revoke_row now) table, (204, JUndefined)) else (table, error_of 404 "admin_token_not_found")
  end.
End crypto.

(** ** The hook *)

(** [AuthPluginOptions] after their defaults. *)
Record AuthOptions := { prefix : string; with_redis : bool; failLimit : Z; debounceSec : Z; accountKey : option string; actorRateLimit : Z }.

(** The calls of the hook: Redis, the clock, and the two cached look-ups below. *)
Inductive auth_call :=
| MinuteBucket
| Incr (key : string)
| Expire (key : string) (ttlSec : Z)
| SetExNx (key : string) (ttlSec : Z)
| DateNow
| VerifyToken (bearer : string)
| ZoneMeta (zone : string)
| TouchLastUsed (tokenId : string).

Record Meta := { reserved : bool; owner : option string }.

Definition auth_answer (c : auth_call) : Type :=
  match c with
  | MinuteBucket | Incr _ => exn + Z
  | Expire _ _ => exn + unit
  | SetExNx _ _ => exn + bool
  | DateNow => Z
  | VerifyToken _ => exn + option Actor
  | ZoneMeta _ => exn + Meta
  | TouchLastUsed _ => unit
  end.

Notation auth := (prog auth_call auth_answer exn).

Definition await {A : Type} (c : auth_call) (get : auth_answer c -> exn + A) : auth A := Vis c (fun r => lift (get r)).

(** Counting within the minute; whether the limit is passed. *)
Definition over_limit (o : AuthOptions) (limit : Z) (kind subject : string) : auth bool :=
  if negb o.(with_redis) || (limit <=? 0) then Ret false
  else
    minute ← await MinuteBucket (fun r => r);
    let key := kind +:+ subject +:+ ":" +:+ pretty minute in
    count ← await (Incr key) (fun r => r);
    _ ← (if count =? 1 then await (Expire key 90) (fun r => r) else Ret tt);
    Ret (limit <? count).

Definition recordAuthFailure (o : AuthOptions) (ip : string) : auth bool := over_limit o o.(failLimit) "api:admin_auth_fail:" ip.

Definition overActorRateLimit (o : AuthOptions) (actorId : string) : auth bool := over_limit o o.(actorRateLimit) "api:v1_rl:actor:" actorId.

Definition shouldTouchLastUsed (o : AuthOptions) (tokenId : string) : auth bool :=
  if negb o.(with_redis) || (o.(debounceSec) <=? 0) then Ret true
  else await (SetExNx ("api:admin_token_touched:" +:+ tokenId) o.(debounceSec)) (fun r => r).

(** [Skipped] leaves the request to the route without an actor. *)
Inductive Verdict := Skipped | Refused (status : Z) (code : string) | Passed (actor : Actor) (account : option string) (zoneScope : string).

Definition GLOBAL_ZONE_SCOPE : string := "*".

Definition truthy_key (k : option string) : option string := match k with Some s => if bool_decide (s = "") then None else Some s | None => None end.

Section hook.
Context `{TokenCrypto} (o : AuthOptions).

(** The first value of the header. *)
Definition sent_assertion (req : Request) : option string :=
  match req.(x_caracal_account) with Absent => None | One s => Some s | Many ss => head ss end.

Definition resolveAccount (req : Request) : auth (option string) :=
  match truthy_key o.(accountKey) with
  | None => Ret None
  | Some key =>
      match truthy_key (sent_assertion req) with
      | None => Ret None
      | Some a => now ← await DateNow inr; Ret (verifyAccountAssertion key a (now / 1000))
      end
  end.

Definition refuse_unauthenticated (req : Request) : auth Verdict :=
  limited ← recordAuthFailure o req.(ip);
  Ret (if limited : bool then Refused 429 "rate_limited" else Refused 401 "invalid_admin_token").

(** The checks that look at the actor and the request only. *)
Definition capability_refusal (req : Request) (actor : Actor) : option string :=
  let reads := isReadOnlyRequest req.(method) req.(url) in
  let decides := isApprovalDecisionPath req.(method) req.(url) in
  if bool_decide (actor.(capability) = read) && negb reads then Some "admin_token_read_only"
  else if bool_decide (actor.(capability) = approve) && negb reads && negb decides then Some "admin_token_approve_only"
  else if decides && bool_decide (actor.(capability) = write) && negb (bool_decide (actor.(createdBy) = "env-bootstrap")) then Some "approve_capability_required"
  else if bool_decide (actor.(scope) = ZoneScope) && negb (isGlobalReadPath req.(method) req.(url))
          && (bool_decide (zoneFromUrl req.(url) = INVALID_ZONE_ID) || negb (bool_decide (Some (zoneFromUrl req.(url)) = actor.(zoneId))))
  then Some "admin_token_zone_mismatch"
  else None.

(** Whether the request would change the reserved zone. *)
Definition touches_reserved (req : Request) (actor : Actor) : auth bool :=
  if negb (isReadOnlyRequest req.(method) req.(url)) && negb (isInternalProvisioner actor)
     && negb (bool_decide (zoneFromUrl req.(url) = INVALID_ZONE_ID))
  then m ← await (ZoneMeta (zoneFromUrl req.(url))) (fun r => r); Ret m.(reserved)
  else Ret false.

(** What an account may not reach. *)
Definition account_refusal (req : Request) (account : string) : auth (option string) :=
  if bool_decide (zoneFromUrl req.(url) = INVALID_ZONE_ID) then
    Ret (if isAccountGlobalPath req.(method) req.(url) then None else Some "account_scope_required")
  else
    m ← await (ZoneMeta (zoneFromUrl req.(url))) (fun r => r);
    Ret (if bool_decide (m.(owner) = Some account) || (m.(reserved) && isReadOnlyRequest req.(method) req.(url)) then None else Some "zone_forbidden").

Definition let_pass (actor : Actor) (account : option string) : auth Verdict :=
  limited ← overActorRateLimit o actor.(id);
  if limited : bool then Ret (Refused 429 "rate_limited")
  else
    touch ← shouldTouchLastUsed o actor.(id);
    _ ← (if touch : bool then Vis (TouchLastUsed actor.(id)) Ret else Ret tt);
    Ret (Passed actor account
           (match actor.(scope), truthy_key actor.(zoneId) with ZoneScope, Some z => z | _, _ => GLOBAL_ZONE_SCOPE end)).

Definition authorize (req : Request) (actor : Actor) : auth Verdict :=
  match capability_refusal req actor with
  | Some code => Ret (Refused 403 code)
  | None =>
      sealed ← touches_reserved req actor;
      if sealed : bool then Ret (Refused 403 "system_zone_read_only")
      else if bool_decide (is_Some (truthy_key o.(accountKey))) && isDerivedConsoleActor actor then
        account ← resolveAccount req;
        match account with
        | None => Ret (Refused 401 "invalid_account_assertion")
        | Some a =>
            refused ← account_refusal req a;
            match refused with
            | Some code => Ret (Refused 403 code)
            | None => let_pass actor (Some a)
            end
        end
      else let_pass actor None
  end.

Definition preHandler (req : Request) : auth Verdict :=
  if negb (has_prefix o.(prefix) req.(url)) then Ret Skipped
  else if isPublicOAuthCallback req.(method) req.(url) then Ret Skipped
  else if isControlInvoke req.(method) req.(url) then Ret Skipped
  else match extractBearer req with
  | None => refuse_unauthenticated req
  | Some bearer =>
      found ← await (VerifyToken bearer) (fun r => r);
      match found with
      | None => refuse_unauthenticated req
      | Some actor => authorize req actor
      end
  end.
End hook.
End ApiAuth.

(** * The caches of the hook

    [verifyAdminToken] and [zoneMeta] of [auth.ts]: concurrent requests of one process
    share the look-ups in flight, and settled ones for a while.  A look-up is begun, its
    query runs, and it settles, at times of their own; the tables change in between. *)

Module AuthCaches.
Import ApiAuth.

Definition verifyCacheMax : nat := 512.
Definition zoneMetaTtlMs : Z := 30000.
Definition zoneMetaCacheMax : nat := 1024.

(** ** Verified tokens *)

Section verified.
Context `{TokenCrypto} (verifyTtlMs : Z).

Definition VerifiedCache : Type := list (string * (Z * Actor)).

(** The entry served at a time. *)
Definition cached_actor (now : Z) (key : string) (c : VerifiedCache) : option Actor :=
  match ordered_get key c with
  | Some (at_, actor) => if now - at_ <? verifyTtlMs then Some actor else None
  | None => None
  end.

(** Making room: the oldest entries go until there is one place. *)
Definition make_room (c : VerifiedCache) : VerifiedCache :=
  if (verifyCacheMax <=? length c)%nat then drop (length c - verifyCacheMax + 1) c else c.

(** What a settled look-up does to the cache. *)
Definition store_actor (now : Z) (key : string) (found : option Actor) (c : VerifiedCache) : VerifiedCache :=
  match found with Some actor => ordered_set key (now, actor) (make_room c) | None => c end.

(** A look-up in flight: the bearer that began it, the requests that wait for it, and the
    row its query returned with the time of the query. *)
Record Pending := { p_bearer : string; p_waiters : list string; p_found : option (Z * option AdminTokenRow) }.

(** What was read of the table, and what was answered: both only record the past. *)
Record Query := { q_at : Z; q_digest : string; q_table : list AdminTokenRow }.
Record Served := { s_at : Z; s_bearer : string; s_actor : option Actor }.

Record VerifyState := {
  now : Z;
  table : list AdminTokenRow;
  verified : VerifiedCache;
  inFlight : gmap string Pending;
  queries : list Query;
  served : list Served
}.

Definition set_flight (f : gmap string Pending) (s : VerifyState) : VerifyState :=
  {| now := s.(now); table := s.(table); verified := s.(verified); inFlight := f; queries := s.(queries); served := s.(served) |}.

Definition serve (bearers : list string) (found : option Actor) (s : VerifyState) : VerifyState :=
  {| now := s.(now); table := s.(table); verified := s.(verified); inFlight := s.(inFlight); queries := s.(queries);
     served := (s.(served) ++ ((fun b => {| s_at := s.(now); s_bearer := b; s_actor := found |}) <$> bearers))%list |}.

(** [verifyAdminToken] up to its first await; with no lifetime nothing is shared. *)
Definition verify_start (bearer : string) (s : VerifyState) : VerifyState :=
  let key := token_sha bearer in
  match cached_actor s.(now) key s.(verified) with
  | Some actor => serve [bearer] (Some actor) s
  | None =>
      match s.(inFlight) !! key with
      | Some p => set_flight (<[key := {| p_bearer := p.(p_bearer); p_waiters := (p.(p_waiters) ++ [bearer])%list; p_found := p.(p_found) |}]> s.(inFlight)) s
      | None => set_flight (<[key := {| p_bearer := bearer; p_waiters := [bearer]; p_found := None |}]> s.(inFlight)) s
      end
  end.

(** The query of the look-up. *)
Definition verify_query (key : string) (s : VerifyState) : VerifyState :=
  match s.(inFlight) !! key with
  | Some {| p_bearer := b; p_waiters := ws; p_found := None |} =>
      {| now := s.(now); table := s.(table); verified := s.(verified);
         inFlight := <[key := {| p_bearer := b; p_waiters := ws; p_found := Some (s.(now), select_live key s.(table)) |}]> s.(inFlight);
         queries := {| q_at := s.(now); q_digest := key; q_table := s.(table) |} :: s.(queries); served := s.(served) |}
  | _ => s
  end.

(** Its end: cached when it found an actor, and told to everyone who waits. *)
Definition verify_settle (key : string) (s : VerifyState) : VerifyState :=
  match s.(inFlight) !! key with
  | Some {| p_bearer := b; p_waiters := ws; p_found := Some (_, row) |} =>
      let found := check_row b row in
      serve ws found
        {| now := s.(now); table := s.(table); verified := store_actor s.(now) key found s.(verified); inFlight := delete key s.(inFlight);
           queries := s.(queries); served := s.(served) |}
  | _ => s
  end.

(** A look-up whose query or hash fails rejects the promise of everyone who waits. *)
Definition verify_fail (key : string) (s : VerifyState) : VerifyState := set_flight (delete key s.(inFlight)) s.

Definition at_time (t : Z) (s : VerifyState) : VerifyState :=
  {| now := t; table := s.(table); verified := s.(verified); inFlight := s.(inFlight); queries := s.(queries); served := s.(served) |}.

Definition with_table (t : list AdminTokenRow) (s : VerifyState) : VerifyState :=
  {| now := s.(now); table := t; verified := s.(verified); inFlight := s.(inFlight); queries := s.(queries); served := s.(served) |}.

(** Any process may change the table. *)
Inductive verify_step (s : VerifyState) : VerifyState -> Prop :=
| vs_time t : s.(now) <= t -> verify_step s (at_time t s)
| vs_table t : verify_step s (with_table t s)
| vs_start bearer : verify_step s (verify_start bearer s)
| vs_query key : verify_step s (verify_query key s)
| vs_settle key : verify_step s (verify_settle key s)
| vs_fail key : verify_step s (verify_fail key s).

Definition cold (t : Z) (rows : list AdminTokenRow) : VerifyState :=
  {| now := t; table := rows; verified := []; inFlight := ∅; queries := []; served := [] |}.

(** A table that was read at [q.(q_at)] had a live row with the digest whose actor this
    is, and some bearer with that digest passed its hash. *)
Definition vouched (s : VerifyState) (key : string) (by_time : Z) (actor : Actor) : Prop :=
  exists q r b, q ∈ s.(queries) /\ q.(q_digest) = key /\ q.(q_at) <= by_time
    /\ r ∈ q.(q_table) /\ live r = true /\ r.(identity) = actor /\ token_sha b = key /\ check_row b (Some r) = Some actor.

Record cache_ok (s : VerifyState) : Prop := {
  co_size : (length s.(verified) <= verifyCacheMax)%nat;
  co_cached : forall key at_ actor, (key, (at_, actor)) ∈ s.(verified) -> at_ <= s.(now) /\ vouched s key at_ actor;
  co_flight : forall key p, s.(inFlight) !! key = Some p ->
    Forall (fun b => token_sha b = key) (p.(p_bearer) :: p.(p_waiters))
    /\ forall t row, p.(p_found) = Some (t, row) -> t <= s.(now) /\ exists q, q ∈ s.(queries) /\ q.(q_digest) = key /\ q.(q_at) = t /\ row = select_live key q.(q_table);
  co_served : forall x, x ∈ s.(served) -> x.(s_at) <= s.(now) /\ forall actor, x.(s_actor) = Some actor ->
    exists settled, settled <= x.(s_at) /\ x.(s_at) - settled < verifyTtlMs /\ vouched s (token_sha x.(s_bearer)) settled actor
}.

(** *** Keeping it *)

Lemma vouched_mono s s' key t t' actor : s.(queries) ⊆ s'.(queries) -> t <= t' -> vouched s key t actor -> vouched s' key t' actor.
Proof. intros Hq Ht (q & r & b & H1 & H2 & H3 & H4). exists q, r, b. split_and!; try naive_solver lia. by apply Hq. Qed.

Lemma select_live_spec digest rows r : select_live digest rows = Some r -> r ∈ rows /\ r.(token_sha256) = digest /\ live r = true.
Proof. unfold select_live. intros Hh. apply head_Some_elem_of, list_elem_of_filter in Hh as [[Hd Hl] Hin]. by split_and!. Qed.

Lemma check_row_actor b row actor : check_row b row = Some actor -> exists r, row = Some r /\ r.(identity) = actor.
Proof.
  unfold check_row. destruct row as [r|]; [|done]. destruct (bool_decide _); [|done]. cbn. destruct (token_hash r); [|done].
  destruct (_ || _); [done|]. intros [= <-]. by exists r.
Qed.

Lemma ordered_get_in {A : Type} k (v : A) m : ordered_get k m = Some v -> (k, v) ∈ m.
Proof.
  induction m as [|[k' v'] m IH]; cbn; [done|]. case_bool_decide as Hk; [intros [= ->]; subst; left|]. intros Hg. right. auto.
Qed.

Lemma ordered_set_in {A : Type} k (v : A) m kv : kv ∈ ordered_set k v m -> kv = (k, v) \/ kv ∈ m.
Proof.
  induction m as [|[k' v'] m IH]; cbn; [by intros ->%list_elem_of_singleton; left|].
  case_bool_decide as Hk; intros [->|Hin]%elem_of_cons; [by left|by right; right|by right; left|].
  destruct (IH Hin) as [->|Hm]; [by left|by right; right].
Qed.

Lemma ordered_set_grows {A : Type} k (v : A) m : (length (ordered_set k v m) <= S (length m))%nat.
Proof. induction m as [|[k' v'] m IH]; cbn; [done|]. case_bool_decide; cbn; lia. Qed.

Lemma store_size t key found c : (length c <= verifyCacheMax)%nat -> (length (store_actor t key found c) <= verifyCacheMax)%nat.
Proof.
  intros Hc. destruct found as [actor|]; [|done]. cbn. etrans; [apply ordered_set_grows|]. unfold make_room.
  destruct (Nat.leb_spec verifyCacheMax (length c)) as [Hle|Hlt]; [|lia]. rewrite length_drop. unfold verifyCacheMax in *. lia.
Qed.

Lemma store_in t key found c k at_ actor :
  (k, (at_, actor)) ∈ store_actor t key found c -> (k = key /\ at_ = t /\ found = Some actor) \/ (k, (at_, actor)) ∈ c.
Proof.
  destruct found as [a|]; cbn; [|by right]. intros [[= -> -> ->]|Hin]%ordered_set_in; [by left|]. right. unfold make_room in Hin.
  destruct (_ <=? _)%nat; [|done]. eapply elem_of_sublist; [exact Hin|apply sublist_drop].
Qed.

Lemma serve_ok bearers found s :
  cache_ok s -> 0 < verifyTtlMs ->
  (forall b actor, b ∈ bearers -> found = Some actor -> exists settled, settled <= s.(now) /\ s.(now) - settled < verifyTtlMs /\ vouched s (token_sha b) settled actor) ->
  cache_ok (serve bearers found s).
Proof.
  intros [H1 H2 H3 H4] Ht Hs. split; [done|exact H2|exact H3|]. cbn. intros x Hx. apply elem_of_app in Hx as [Hx|Hx]; [by apply H4|].
  apply list_elem_of_fmap in Hx as (b & -> & Hb). cbn. split; [lia|]. intros actor Ha. by apply Hs.
Qed.

Lemma flight_ok f s :
  cache_ok s ->
  (forall key p, f !! key = Some p ->
    Forall (fun b => token_sha b = key) (p.(p_bearer) :: p.(p_waiters))
    /\ forall t row, p.(p_found) = Some (t, row) -> t <= s.(now) /\ exists q, q ∈ s.(queries) /\ q.(q_digest) = key /\ q.(q_at) = t /\ row = select_live key q.(q_table)) ->
  cache_ok (set_flight f s).
Proof. intros [H1 H2 H3 H4] Hf. by split. Qed.

Lemma start_keeps bearer s : cache_ok s -> 0 < verifyTtlMs -> cache_ok (verify_start bearer s).
Proof.
  intros Hok Ht. unfold verify_start. destruct (cached_actor _ _ _) as [actor|] eqn:Hc.
  - apply serve_ok; [done..|]. intros b a Hb [= <-]. apply list_elem_of_singleton in Hb as ->. unfold cached_actor in Hc.
    destruct (ordered_get _ _) as [[at_ a']|] eqn:Hg; [|done]. destruct (Z.ltb_spec (s.(now) - at_) verifyTtlMs); [|done]. injection Hc as ->.
    destruct (co_cached _ Hok _ _ _ (ordered_get_in _ _ _ Hg)) as [Hle Hv]. by exists at_.
  - destruct (inFlight s !! token_sha bearer) as [p|] eqn:Hp; apply flight_ok; try done; intros key p' Hl;
      apply lookup_insert_Some in Hl as [[<- <-]|[_ Hl]]; try (by apply (co_flight _ Hok)).
    + destruct (co_flight _ Hok _ _ Hp) as [Hf Hq]. split; [|exact Hq]. cbn. apply Forall_cons in Hf as [Hb Hf]. apply Forall_cons. split; [done|].
      apply Forall_app. split; [done|by apply Forall_singleton].
    + cbn. split; [|done]. apply Forall_cons. split; [done|by apply Forall_singleton].
Qed.

Lemma query_keeps key s : cache_ok s -> cache_ok (verify_query key s).
Proof.
  intros Hok. unfold verify_query. destruct (inFlight s !! key) as [[b ws [x|]]|] eqn:Hp; try done.
  assert (forall k t a, vouched s k t a -> vouched {| now := s.(now); table := s.(table); verified := s.(verified); inFlight := s.(inFlight);
    queries := {| q_at := s.(now); q_digest := key; q_table := s.(table) |} :: s.(queries); served := s.(served) |} k t a) as Hv.
  { intros k t a. apply vouched_mono; [set_solver|done]. }
  destruct Hok as [H1 H2 H3 H4]. split; cbn.
  - done.
  - intros k t a Hin. destruct (H2 k t a Hin) as [Hle Hvc]. split; [done|by apply Hv].
  - intros k p Hl. apply lookup_insert_Some in Hl as [[<- <-]|[_ Hl]].
    + destruct (H3 key _ Hp) as [Hf _]. split; [exact Hf|]. cbn. intros t row [= <- <-]. split; [lia|]. eexists. split; [by left|]. done.
    + destruct (H3 k p Hl) as [Hf Hq]. split; [done|]. intros t row Hr. destruct (Hq t row Hr) as (Hle & q & Hin & Hrest). split; [done|].
      exists q. split; [by right|done].
  - intros x Hx. destruct (H4 x Hx) as [Hle Hs]. split; [done|]. intros a Ha. destruct (Hs a Ha) as (t & Ht1 & Ht2 & Hvc). exists t.
    split_and!; [done..|]. by apply Hv.
Qed.

Lemma settle_keeps key s : cache_ok s -> 0 < verifyTtlMs -> cache_ok (verify_settle key s).
Proof.
  intros Hok Ht. unfold verify_settle. destruct (inFlight s !! key) as [[b ws [[t row]|]]|] eqn:Hp; try done.
  destruct (co_flight _ Hok _ _ Hp) as [Hf Hq]. cbn in Hf, Hq. destruct (Hq t row eq_refl) as (Hle & q & Hqin & Hqd & Hqt & Hrow).
  apply Forall_cons in Hf as [Hb Hws].
  assert (forall actor, check_row b row = Some actor -> vouched s key s.(now) actor) as Hfound.
  { intros actor Ha. destruct (check_row_actor _ _ _ Ha) as (r & -> & Hr). destruct (select_live_spec _ _ _ (eq_sym Hrow)) as (Hin & _ & Hl).
    exists q, r, b. split_and!; try done; lia. }
  destruct Hok as [H1 H2 H3 H4]. apply serve_ok; [|done|].
  - split; cbn; [by apply store_size| |intros k p Hl; apply lookup_delete_Some in Hl as [_ Hl]; by apply H3|exact H4].
    intros k at_ actor [(-> & -> & Ha)|Hin]%store_in; [split; [lia|by apply Hfound]|by apply H2].
  - intros b' actor Hb' Ha. rewrite Forall_forall in Hws. exists s.(now). cbn. split_and!; [lia..|]. rewrite (Hws _ Hb'). by apply Hfound.
Qed.

Lemma step_keeps s s' : verify_step s s' -> 0 < verifyTtlMs -> cache_ok s -> cache_ok s'.
Proof.
  intros Hs Ht Hok. destruct Hs as [t Hle|t|b|key|key|key].
  - destruct Hok as [H1 H2 H3 H4]. split; cbn; [done| | |].
    + intros k at_ a Hin. destruct (H2 k at_ a Hin) as [Ha Hv]. split; [lia|exact Hv].
    + intros k p Hp. destruct (H3 k p Hp) as [Hf Hq]. split; [done|]. intros t' row Hr. destruct (Hq t' row Hr) as [Ht' Hx]. split; [lia|exact Hx].
    + intros x Hx. destruct (H4 x Hx) as [Ha Hv]. split; [lia|exact Hv].
  - by destruct Hok.
  - by apply start_keeps.
  - by apply query_keeps.
  - by apply settle_keeps.
  - apply flight_ok; [done|]. intros k p Hl. apply lookup_delete_Some in Hl as [_ Hl]. by apply (co_flight _ Hok).
Qed.

Lemma cold_ok t rows : cache_ok (cold t rows).
Proof. split; cbn; try done; [unfold verifyCacheMax; lia|..]; intros *; by intros ?%elem_of_nil. Qed.

Lemma steps_keep s s' : rtc verify_step s s' -> 0 < verifyTtlMs -> cache_ok s -> cache_ok s'.
Proof. intros Hr Ht. induction Hr as [|s s1 s' Hs _ IH]; [done|]. intros Hok. by eapply IH, step_keeps. Qed.
End verified.

(** C23. A revoked admin token stops working within the lifetime of a cache entry: however
    requests, look-ups in flight, changes of the token table and elapsed time interleave,
    an actor answered to a request at a time [t] comes from a look-up that settled less
    than [verifyTtlMs] before [t] and that had read, at or before it settled, a live row
    with the digest of the bearer, whose hash the token passed; and the cache never holds
    more than [verifyCacheMax] entries. *)
Theorem token_grace `{TokenCrypto} (verifyTtlMs t0 : Z) (rows : list AdminTokenRow) (s : VerifyState) :
  0 < verifyTtlMs -> rtc (verify_step verifyTtlMs) (cold t0 rows) s ->
  (length s.(verified) <= verifyCacheMax)%nat
  /\ forall x actor, x ∈ s.(served) -> x.(s_actor) = Some actor ->
     exists settled q r b, settled <= x.(s_at) < settled + verifyTtlMs /\ q ∈ s.(queries) /\ q.(q_at) <= settled
       /\ r ∈ q.(q_table) /\ live r = true /\ r.(token_sha256) = token_sha x.(s_bearer) /\ r.(identity) = actor
       /\ token_sha b = token_sha x.(s_bearer) /\ check_row b (Some r) = Some actor.
Proof.
  intros Ht Hr. pose proof (steps_keep _ _ _ Hr Ht (cold_ok _ _ _)) as Hok. split; [apply (co_size _ _ Hok)|].
  intros x actor Hx Ha. destruct (co_served _ _ Hok x Hx) as [_ Hs]. destruct (Hs actor Ha) as (e & He1 & He2 & q & r & b & Hq & Hqd & Hqt & Hin & Hl & Hi & Hb & Hc).
  exists e, q, r, b. split_and!; try done; [lia|]. unfold check_row in Hc. case_bool_decide as Hsha; [|done]. by rewrite Hsha.
Qed.

(** ** Zone metadata *)

Record ZoneRow := { z_name : string; z_slug : string; z_owner : option string }.

Definition meta_of (row : option ZoneRow) : Meta :=
  {| reserved := match row with Some z => isReservedZone (Some z.(z_name)) (Some z.(z_slug)) | None => false end;
     owner := row ≫= z_owner |}.

Definition cached_meta (t : Z) (zone : string) (c : list (string * (Z * Meta))) : option Meta :=
  match ordered_get zone c with Some (at_, m) => if t - at_ <? zoneMetaTtlMs then Some m else None | None => None end.

Definition store_meta (at_ : Z) (zone : string) (m : Meta) (c : list (string * (Z * Meta))) : list (string * (Z * Meta)) :=
  ordered_set zone (at_, m) (if (zoneMetaCacheMax <=? length c)%nat then [] else c).

(** A look-up: when it was begun, and what it read; [zserved] are the answers. *)
Record ZonePending := { zp_zone : string; zp_begun : Z; zp_read : option (Z * Meta) }.

Record ZoneState := {
  znow : Z;
  zones : gmap string ZoneRow;
  zcache : list (string * (Z * Meta));
  zpending : list ZonePending;
  zreads : list (Z * string * Meta);
  zserved : list (Z * string * Meta)
}.

(** [zoneMeta] up to its query. *)
Definition meta_start (zone : string) (s : ZoneState) : ZoneState :=
  match cached_meta s.(znow) zone s.(zcache) with
  | Some m => {| znow := s.(znow); zones := s.(zones); zcache := s.(zcache); zpending := s.(zpending); zreads := s.(zreads);
                 zserved := (s.(znow), zone, m) :: s.(zserved) |}
  | None => {| znow := s.(znow); zones := s.(zones); zcache := s.(zcache);
               zpending := (s.(zpending) ++ [{| zp_zone := zone; zp_begun := s.(znow); zp_read := None |}])%list; zreads := s.(zreads); zserved := s.(zserved) |}
  end.

(** The query of the look-up with a number. *)
Definition meta_query (i : nat) (s : ZoneState) : ZoneState :=
  match s.(zpending) !! i with
  | Some {| zp_zone := zone; zp_begun := b; zp_read := None |} =>
      let m := meta_of (s.(zones) !! zone) in
      {| znow := s.(znow); zones := s.(zones); zcache := s.(zcache);
         zpending := <[i := {| zp_zone := zone; zp_begun := b; zp_read := Some (s.(znow), m) |}]> s.(zpending);
         zreads := (s.(znow), zone, m) :: s.(zreads); zserved := s.(zserved) |}
  | _ => s
  end.

(** Its end. *)
Definition meta_settle (i : nat) (s : ZoneState) : ZoneState :=
  match s.(zpending) !! i with
  | Some {| zp_zone := zone; zp_begun := b; zp_read := Some (_, m) |} =>
      {| znow := s.(znow); zones := s.(zones); zcache := store_meta b zone m s.(zcache); zpending := delete i s.(zpending); zreads := s.(zreads);
         zserved := (s.(znow), zone, m) :: s.(zserved) |}
  | _ => s
  end.

Inductive zone_step (s : ZoneState) : ZoneState -> Prop :=
| zs_time t : s.(znow) <= t ->
    zone_step s {| znow := t; zones := s.(zones); zcache := s.(zcache); zpending := s.(zpending); zreads := s.(zreads); zserved := s.(zserved) |}
| zs_zones z : zone_step s {| znow := s.(znow); zones := z; zcache := s.(zcache); zpending := s.(zpending); zreads := s.(zreads); zserved := s.(zserved) |}
| zs_start zone : zone_step s (meta_start zone s)
| zs_query i : zone_step s (meta_query i s)
| zs_settle i : zone_step s (meta_settle i s).

Record zone_ok (s : ZoneState) : Prop := {
  zo_cached : forall zone at_ m, (zone, (at_, m)) ∈ s.(zcache) -> exists t, at_ <= t /\ (t, zone, m) ∈ s.(zreads);
  zo_pending : forall p, p ∈ s.(zpending) -> p.(zp_begun) <= s.(znow) /\ forall t m, p.(zp_read) = Some (t, m) -> p.(zp_begun) <= t /\ (t, p.(zp_zone), m) ∈ s.(zreads);
  zo_size : (length s.(zcache) <= zoneMetaCacheMax)%nat
}.

Lemma store_meta_in at_ zone m c x : x ∈ store_meta at_ zone m c -> x = (zone, (at_, m)) \/ x ∈ c.
Proof. unfold store_meta. intros [->|Hc]%ordered_set_in; [by left|]. right. destruct (_ <=? _)%nat; [by apply elem_of_nil in Hc|done]. Qed.

Lemma store_meta_size at_ zone m c : (length c <= zoneMetaCacheMax -> length (store_meta at_ zone m c) <= zoneMetaCacheMax)%nat.
Proof.
  intros Hc. unfold store_meta. etrans; [apply ordered_set_grows|].
  destruct (Nat.leb_spec zoneMetaCacheMax (length c)) as [_|Hlt]; [|lia]. apply Nat.leb_le. reflexivity.
Qed.

Arguments store_meta : simpl never.

Lemma zone_step_ok s s' : zone_step s s' -> zone_ok s -> zone_ok s'.
Proof.
  intros Hs [H1 H2 H3]. destruct Hs as [t Hle|z|zone|i|i].
  - split; cbn; [done| |done]. intros p Hp. destruct (H2 p Hp). split; [lia|done].
  - by split.
  - unfold meta_start. destruct (cached_meta _ _ _); [by split|]. split; cbn; [done| |done]. intros p [Hp|Hp]%elem_of_app; [by apply H2|].
    apply list_elem_of_singleton in Hp as ->. cbn. split; [lia|done].
  - unfold meta_query. destruct (zpending s !! i) as [[zone b [x|]]|] eqn:Hi; try (by split). destruct (H2 _ (list_elem_of_lookup_2 _ _ _ Hi)) as [Hb _]. cbn in Hb.
    split; cbn; [| |done].
    + intros z at_ m Hin. destruct (H1 z at_ m Hin) as (t & Ht & Hr). exists t. split; [done|by right].
    + intros p Hp. apply list_elem_of_lookup in Hp as [j Hj]. apply list_lookup_insert_Some in Hj as [(_ & <- & _)|[_ Hj]].
      * cbn. split; [done|]. intros t m [= <- <-]. split; [done|by left].
      * destruct (H2 p (list_elem_of_lookup_2 _ _ _ Hj)) as [Hp Hr]. split; [done|]. intros t m Hm. destruct (Hr t m Hm). split; [done|by right].
  - unfold meta_settle. destruct (zpending s !! i) as [[zone b [[t m]|]]|] eqn:Hi; try (by split). destruct (H2 _ (list_elem_of_lookup_2 _ _ _ Hi)) as [_ Hr].
    destruct (Hr t m eq_refl) as [Hbt Hin]. cbn in Hbt, Hin. split; cbn.
    + intros z at_ m' [[= -> -> ->]|Hc]%store_meta_in; [by exists t|by apply H1].
    + intros p Hp. apply H2. eapply elem_of_sublist; [exact Hp|apply sublist_delete].
    + by apply store_meta_size.
Qed.

Definition zone_cold (t : Z) (z : gmap string ZoneRow) : ZoneState :=
  {| znow := t; zones := z; zcache := []; zpending := []; zreads := []; zserved := [] |}.

(** Metadata served from the cache was read from the zones less than [zoneMetaTtlMs] ago. *)
Theorem zone_meta_fresh t0 z s zone m :
  rtc zone_step (zone_cold t0 z) s -> cached_meta s.(znow) zone s.(zcache) = Some m ->
  (length s.(zcache) <= zoneMetaCacheMax)%nat /\ exists t, s.(znow) - t < zoneMetaTtlMs /\ (t, zone, m) ∈ s.(zreads).
Proof.
  intros Hr Hc. assert (zone_ok s) as [H1 _ H3].
  { assert (zone_ok (zone_cold t0 z)) as H0 by (split; cbn; [..|lia]; intros *; by intros ?%elem_of_nil). revert H0.
    induction Hr as [|s0 s1 s2 Hs _ IH]; [done|]. intros H0. by eapply IH, zone_step_ok. }
  split; [done|]. unfold cached_meta in Hc. destruct (ordered_get zone _) as [[at_ m']|] eqn:Hg; [|done].
  destruct (Z.ltb_spec (s.(znow) - at_) zoneMetaTtlMs); [|done]. injection Hc as ->. destruct (H1 _ _ _ (ordered_get_in _ _ _ Hg)) as (t & Ht & Hin).
  exists t. split; [lia|done].
Qed.
End AuthCaches.

(** * What admission guarantees

    The hook against any answers of its look-ups, account assertions, seeded and minted
    tokens. *)

Module AuthFacts.
Import ApiAuth.

(** ** Admission *)

Notation History := (list {c : auth_call & auth_answer c}).

(** The hook has an answer on the record that vouches for its decision. *)
Definition meta_seen (k : History) (zone : string) (P : Meta -> Prop) : Prop := exists m, happened k (ZoneMeta zone) (inr m) /\ P m.

Section hook.
Context `{TokenCrypto} (o : AuthOptions) (req : Request).
Notation reads := (isReadOnlyRequest req.(method) req.(url)).
Notation decides := (isApprovalDecisionPath req.(method) req.(url)).
Notation zone := (zoneFromUrl req.(url)).

(** A request by an actor whose capability and scope suffice. *)
Record entitled_to (actor : Actor) : Prop := {
  et_read : actor.(capability) = read -> reads = true;
  et_approve : actor.(capability) = approve -> reads = true \/ decides = true;
  et_decides : decides = true -> actor.(capability) = approve \/ actor.(createdBy) = "env-bootstrap";
  et_zone : actor.(scope) = ZoneScope -> isGlobalReadPath req.(method) req.(url) = true \/ (zone <> INVALID_ZONE_ID /\ actor.(zoneId) = Some zone)
}.

(** An account that may make the request. *)
Record reaches (k : History) (account : string) : Prop := {
  re_assertion : exists key assertion t, truthy_key o.(accountKey) = Some key /\ sent_assertion req = Some assertion /\ happened k DateNow t
    /\ verifyAccountAssertion key assertion (t / 1000) = Some account;
  re_global : zone = INVALID_ZONE_ID -> isAccountGlobalPath req.(method) req.(url) = true;
  re_zone : zone <> INVALID_ZONE_ID -> meta_seen k zone (fun m => m.(owner) = Some account \/ (m.(reserved) = true /\ reads = true))
}.

Record admissible (k : History) (actor : Actor) (account : option string) : Prop := {
  ad_token : exists bearer, extractBearer req = Some bearer /\ happened k (VerifyToken bearer) (inr (Some actor));
  ad_entitled : entitled_to actor;
  ad_reserved : reads = false -> actor.(createdBy) <> "env-bootstrap" -> zone <> INVALID_ZONE_ID -> meta_seen k zone (fun m => m.(reserved) = false);
  ad_console : isDerivedConsoleActor actor = true -> is_Some (truthy_key o.(accountKey)) -> is_Some account;
  ad_account : forall a, account = Some a -> isDerivedConsoleActor actor = true /\ reaches k a
}.

Lemma meta_seen_more k k' z P : k `suffix_of` k' -> meta_seen k z P -> meta_seen k' z P.
Proof. intros Hk (m & Hm & HP). exists m. split; [by eapply happened_more|done]. Qed.

Lemma reaches_more k k' a : k `suffix_of` k' -> reaches k a -> reaches k' a.
Proof.
  intros Hk [(key & as_ & t & H1 & H1' & H2 & H3) Hg Hz]. split; [|done|].
  - exists key, as_, t. split_and!; try done. by eapply happened_more.
  - intros Hn. by eapply meta_seen_more, Hz.
Qed.

Lemma admissible_more k k' actor account : k `suffix_of` k' -> admissible k actor account -> admissible k' actor account.
Proof.
  intros Hk [(b & Hb & Hv) He Hr Hc Ha]. split; try done.
  - exists b. split; [done|by eapply happened_more].
  - intros H1 H2 H3. by eapply meta_seen_more, Hr.
  - intros a Hs. destruct (Ha a Hs) as [Hd Hre]. split; [done|by eapply reaches_more].
Qed.

Definition anything (k : History) (c : auth_call) : Prop := True.

Notation checked := (monitored anything remember).

(** Parts of the hook that only count and ask the clock. *)
Lemma quiet {A : Type} (m : prog auth_call auth_answer exn A) k : checked (fun k' _ => k `suffix_of` k') k m.
Proof.
  apply (monitored_always suffix anything remember remember_le). induction m; cbn; auto; done.
Qed.

(** What holds at every end of the hook. *)
Definition decided (k : History) (r : exn + Verdict) : Prop :=
  match r with
  | inr (Passed actor account scope_) =>
      admissible k actor account
      /\ scope_ = match actor.(scope), truthy_key actor.(zoneId) with ZoneScope, Some z => z | _, _ => GLOBAL_ZONE_SCOPE end
  | _ => True
  end.

Lemma seq_quiet {A B : Type} (Q : History -> exn + B -> Prop) k (m : prog auth_call auth_answer exn A) f :
  (forall k' a, k `suffix_of` k' -> checked Q k' (f a)) -> (forall k' x, Q k' (inl x)) -> checked Q k (bind m f).
Proof. intros Hf Hx. eapply (monitored_seq suffix); [apply remember_le|apply quiet|intros k' a Hle _; by apply Hf|auto]. Qed.

Lemma refuse_decided r k : checked decided k (refuse_unauthenticated o r).
Proof. apply seq_quiet; [|done]. intros k' [] _; done. Qed.

Lemma let_pass_decided k actor account : admissible k actor account -> checked decided k (let_pass o actor account).
Proof.
  intros Ha. apply seq_quiet; [|done]. intros k1 [] Hk1; [done|]. apply seq_quiet; [|done]. intros k2 touch Hk2.
  apply seq_quiet; [|done]. intros k3 _ Hk3. cbn. split; [|done]. eapply admissible_more; [|exact Ha]. by etrans; [|etrans].
Qed.

(** Deciding an approval is no read. *)
Lemma decides_no_read m u : isApprovalDecisionPath m u = true -> isReadOnlyRequest m u = false.
Proof.
  unfold isApprovalDecisionPath, isReadOnlyRequest, isGlobalReadPath, is_get. intros [Hm Hp]%andb_true_iff. apply bool_decide_eq_true in Hm as ->.
  change (bool_decide ("POST" = "GET") || bool_decide ("POST" = "HEAD")) with false. cbn [orb].
  case_bool_decide as Hv; [rewrite Hv in Hp; by vm_compute in Hp|]. by case_match.
Qed.

Lemma not_refused actor : capability_refusal req actor = None -> entitled_to actor.
Proof.
  unfold capability_refusal. intros Hn. destruct (bool_decide (capability actor = read) && negb reads) eqn:H1; [done|].
  destruct (bool_decide (capability actor = approve) && negb reads && negb decides) eqn:H2; [done|].
  destruct (decides && bool_decide (capability actor = write) && negb (bool_decide (createdBy actor = "env-bootstrap"))) eqn:H3; [done|].
  destruct (_ && _ && _) eqn:H4 in Hn; [done|]. clear Hn. split.
  - intros Hc. rewrite bool_decide_true in H1 by done. by destruct reads.
  - intros Hc. rewrite bool_decide_true in H2 by done. destruct reads; [by left|]. destruct decides; [by right|done].
  - intros Hd. pose proof (decides_no_read _ _ Hd) as Hr. rewrite Hd in H3. rewrite Hr in H1. destruct (capability actor) eqn:Hc; [done| |by left].
    right. destruct (bool_decide (createdBy actor = _)) eqn:Hb; [by apply bool_decide_eq_true in Hb|done].
  - intros Hs. rewrite bool_decide_true in H4 by done. destruct (isGlobalReadPath _ _); [by left|]. right. cbn in H4. apply orb_false_iff in H4 as [Hi Hz].
    apply bool_decide_eq_false in Hi. apply negb_false_iff, bool_decide_eq_true in Hz. split; [done|by symmetry].
Qed.

Lemma await_checked {A : Type} (Q : History -> exn + A -> Prop) k c get :
  (forall r, Q (remember k c r) (get r)) -> checked Q k (await c get).
Proof. intros HQ. cbn. split; [done|]. intros r. by apply monitored_lift. Qed.

(** The reserved zone. *)
Definition unsealed (k : History) (actor : Actor) : Prop :=
  reads = false -> actor.(createdBy) <> "env-bootstrap" -> zone <> INVALID_ZONE_ID -> meta_seen k zone (fun m => m.(reserved) = false).

Lemma touches_checked k actor :
  checked (fun k' r => k `suffix_of` k' /\ match r with inr false => unsealed k' actor | _ => True end) k (touches_reserved req actor).
Proof.
  unfold touches_reserved, unsealed, isInternalProvisioner. destruct reads; [cbn; split; [done|congruence]|].
  destruct (bool_decide (createdBy actor = _)) eqn:Hb; [apply bool_decide_eq_true in Hb; cbn; split; [done|congruence]|].
  destruct (bool_decide (zone = INVALID_ZONE_ID)) eqn:Hz; [apply bool_decide_eq_true in Hz; cbn; split; [done|congruence]|]. cbn [negb andb].
  apply monitored_bind, await_checked. intros [x|m]; cbn; (split; [apply remember_le|]); [done|]. destruct (reserved m) eqn:Hm; [done|].
  intros _ _ _. exists m. split; [apply happened_now|done].
Qed.

Lemma truthy_some s t : truthy_key s = Some t -> s = Some t.
Proof. destruct s as [x|]; cbn; [|done]. by case_bool_decide; intros. Qed.

(** The account behind an assertion. *)
Definition asserted (k : History) (a : string) : Prop :=
  exists key assertion t, truthy_key o.(accountKey) = Some key /\ sent_assertion req = Some assertion /\ happened k DateNow t
    /\ verifyAccountAssertion key assertion (t / 1000) = Some a.

Lemma resolve_checked k :
  checked (fun k' r => k `suffix_of` k' /\ match r with inr (Some a) => asserted k' a | _ => True end) k (resolveAccount o req).
Proof.
  unfold resolveAccount. destruct (truthy_key o.(accountKey)) as [key|] eqn:Hk; [|done]. destruct (truthy_key (sent_assertion req)) as [a|] eqn:Ha; [|done].
  apply monitored_bind, await_checked. intros t. cbn. split; [apply remember_le|]. destruct (verifyAccountAssertion _ _ _) as [acc|] eqn:Hv; [|done].
  exists key, a, t. split_and!; [done|by apply truthy_some|apply happened_now|done].
Qed.

Lemma account_checked k a :
  checked (fun k' r => k `suffix_of` k' /\ match r with inr None => asserted k' a -> reaches k' a | _ => True end) k (account_refusal req a).
Proof.
  unfold account_refusal. case_bool_decide as Hz.
  - destruct (isAccountGlobalPath (method req) (url req)) eqn:Hg; (split; [done|]); [|done]. intros Has. by split.
  - apply monitored_bind, await_checked. intros [x|m]; cbn; (split; [apply remember_le|]); [done|]. destruct (_ || _) eqn:Hb; [|done]. intros Has.
    split; [done|done|]. intros _. exists m. split; [apply happened_now|]. apply orb_true_iff in Hb as [Hb|Hb].
    + left. by apply bool_decide_eq_true in Hb.
    + right. by apply andb_true_iff in Hb.
Qed.

Lemma asserted_more k k' a : k `suffix_of` k' -> asserted k a -> asserted k' a.
Proof. intros Hk (key & s & t & H1 & H2 & H3 & H4). exists key, s, t. split_and!; try done. by eapply happened_more. Qed.

Lemma authorize_checked k bearer actor :
  extractBearer req = Some bearer -> happened k (VerifyToken bearer) (inr (Some actor)) -> checked decided k (authorize o req actor).
Proof.
  intros Hb Hv. unfold authorize. destruct (capability_refusal req actor) eqn:Hc; [done|]. apply not_refused in Hc.
  eapply (monitored_seq suffix); [apply remember_le|apply touches_checked| |done]. intros k1 [] _ [Hk1 Hu]; [done|].
  assert (forall k' account, k1 `suffix_of` k' -> (isDerivedConsoleActor actor = true -> is_Some (truthy_key o.(accountKey)) -> is_Some account) ->
    (forall a, account = Some a -> isDerivedConsoleActor actor = true /\ reaches k' a) -> admissible k' actor account) as Hadm.
  { intros k' account Hle H1 H2. split; [|done| |done|done].
    - exists bearer. split; [done|]. eapply happened_more; [|exact Hv]. by etrans.
    - intros A1 A2 A3. by eapply meta_seen_more, Hu. }
  destruct (bool_decide _ && _) eqn:Hkey; [apply andb_true_iff in Hkey as [_ Hd]|].
  2: { apply let_pass_decided, Hadm; [done| |done]. intros Hd Hs. rewrite Hd, bool_decide_true in Hkey by done. done. }
  eapply (monitored_seq suffix); [apply remember_le|apply resolve_checked| |done]. intros k2 [a|] _ [Hk2 Has]; [|done].
  eapply (monitored_seq suffix); [apply remember_le|apply account_checked| |done]. intros k3 [code|] _ [Hk3 Hre]; [done|].
  apply let_pass_decided, Hadm; [by etrans|by eexists|]. intros a' [= <-]. split; [done|]. apply Hre. by eapply asserted_more.
Qed.

Lemma preHandler_checked : checked decided [] (preHandler o req).
Proof.
  unfold preHandler. destruct (has_prefix _ _); [|done]. cbn [negb]. destruct (isPublicOAuthCallback _ _); [done|]. destruct (isControlInvoke _ _); [done|].
  destruct (extractBearer req) as [b|] eqn:Hb; [|apply refuse_decided]. apply monitored_bind, await_checked.
  intros [x|[actor|]]; [done| |apply refuse_decided]. eapply authorize_checked; [done|apply happened_now].
Qed.
End hook.

(** C7. Whom the API admits: whatever its look-ups, the clock and Redis answer, a request
    is given an actor only when the look-up of its bearer returned that actor; a read
    token only reads, an approve token only reads and decides approvals, and only an
    approve token or the bootstrap token decides them; a zone token stays in its zone or
    on the shared reads, and its statements are bound to that zone; nobody but the bootstrap
    identity changes a zone whose row looked reserved; and a console token, where an
    account key is configured, acts for an account whose assertion verified under that key,
    on a zone the account owned, on the reserved zone to read it, or on an allow-listed
    global path. *)
Theorem admission_sound `{TokenCrypto} (o : AuthOptions) (req : Request) k actor account zoneScope :
  plays remember [] (preHandler o req) k (inr (Passed actor account zoneScope)) ->
  admissible o req k actor account
  /\ zoneScope = match actor.(scope), truthy_key actor.(zoneId) with ZoneScope, Some z => z | _, _ => GLOBAL_ZONE_SCOPE end.
Proof.
  intros Hp. destruct (monitored_plays anything remember (decided o req) (fun _ => True) _ _ _ _ ltac:(done) ltac:(done) (preHandler_checked o req) Hp) as [_ Hd].
  exact Hd.
Qed.

(** A path whose prefix is percent-encoded does not start with the prefix. *)
Lemma encoded_prefix_skips `{TokenCrypto} o req :
  o.(prefix) = "/v1/" -> req.(url) = "/%761/zones" -> preHandler o req = Ret Skipped /\ Uri.decodeURIComponent req.(url) = Some "/v1/zones".
Proof. intros Hp Hu. unfold preHandler. rewrite Hp, Hu. by split. Qed.

(** ** Account assertions *)

(** Characters of a printed number. *)
Definition numeral (c : ascii) : bool := is_digit c || one_of "-+.eNaInfity" c.

Notation numerals s := (all_chars numeral s = true).

Lemma digits_numerals s : all_digits s = true -> numerals s.
Proof.
  induction s as [|c s IH]; [done|]. cbn. destruct (digit_value c) as [v|] eqn:Hd; [|done]. intros Hs. apply digit_char in Hd as [Hd _].
  unfold numeral, is_digit. rewrite bool_decide_true by done. cbn. auto.
Qed.

Lemma pretty_numerals (z : Z) : numerals (pretty z).
Proof.
  destruct (Z.le_gt_cases 0 z); [by apply digits_numerals, pretty_all_digits|]. destruct z as [|p|p]; try lia.
  change (pretty (Z.neg p)) with ("-" +:+ pretty (Z.pos p)). rewrite all_chars_app.
  apply andb_true_iff. split; [done|]. apply digits_numerals, (pretty_all_digits (Z.pos p)). lia.
Qed.

Lemma substring_numerals n m s : numerals s -> numerals (String.substring n m s).
Proof.
  revert n m. induction s as [|c s IH]; intros n m Hs; [by destruct n, m|]. cbn in Hs. apply andb_true_iff in Hs as [Hc Hs].
  destruct n as [|n]; [destruct m as [|m]; [done|]; cbn; by rewrite Hc, IH|by apply IH].
Qed.

Lemma zeros_numerals n : numerals (zeros n).
Proof. induction n as [|n IH]; [done|]. cbn [zeros]. by rewrite all_chars_app, IH. Qed.

Lemma exp_numerals x : numerals (exp_text x).
Proof.
  unfold exp_text. destruct (safe_integer x); [apply pretty_numerals|]. destruct x as [|neg|neg m e]; [done|by destruct neg|].
  cbn [Number_to_string]. destruct (m =? 0); [done|]. destruct (if 0 <=? e then _ else _) as [n d]. destruct (shortest _ _ _ _ _ _) as [s ex].
  destruct (strip_tens 20 s ex) as [s' ex']. rewrite all_chars_app. apply andb_true_iff. split; [by destruct neg|]. unfold layout.
  repeat match goal with |- context [if ?b then _ else _] => destruct b end; rewrite ?all_chars_app, ?pretty_numerals, ?zeros_numerals; cbn;
    rewrite ?substring_numerals by apply pretty_numerals; done.
Qed.

(** The last separator splits a text in one way. *)
Lemma last_cut c a b x y : lacks c x -> lacks c y -> a +:+ String.String c x = b +:+ String.String c y -> a = b /\ x = y.
Proof.
  assert (forall b x y, lacks c x -> x <> b +:+ String.String c y) as Hno.
  { induction b0 as [|d b' IH]; intros x0 y0 Hx0 ->; unfold lacks in Hx0.
    - change ("" +:+ String.String c y0) with (String.String c y0) in Hx0. cbn in Hx0. unfold other in Hx0. by rewrite bool_decide_true in Hx0.
    - change (String.String d b' +:+ ?z) with (String.String d (b' +:+ z)) in Hx0. cbn in Hx0. apply andb_true_iff in Hx0 as [_ Hx0]. by eapply IH. }
  intros Hx Hy. revert b. induction a as [|d a IH]; intros [|d' b].
  - change ("" +:+ ?z) with z. by intros [= ->].
  - change ("" +:+ ?z) with z. change (String.String d' b +:+ ?z) with (String.String d' (b +:+ z)). intros [= <- Heq]. by destruct (Hno b x y Hx).
  - change ("" +:+ ?z) with z. change (String.String d a +:+ ?z) with (String.String d (a +:+ z)). intros [= -> Heq]. by destruct (Hno a y x Hy).
  - change (String.String ?d ?a +:+ ?z) with (String.String d (a +:+ z)). intros [= -> Heq]. destruct (IH b Heq) as [-> ->]. done.
Qed.

Lemma mac_text_inj a b (x y : number) : mac_text a (exp_text x) = mac_text b (exp_text y) -> a = b /\ exp_text x = exp_text y.
Proof.
  unfold mac_text. intros Heq. apply (inj (String.append _)) in Heq. apply (inj (String.append ":")) in Heq.
  apply (last_cut ":"); [..|exact Heq]; eapply all_chars_impl, exp_numerals; intros c; unfold numeral, other;
    case_bool_decide as Hc; try done; by subst c.
Qed.

Section assertions.
Context {crypto : TokenCrypto} {laws : TokenCryptoLaws}.

Definition base64url_char (c : ascii) : bool := is_alnum c || one_of "-_" c.

Lemma base64url_lacks s : all_chars base64url_char s = true -> lacks "." s.
Proof. apply all_chars_impl. intros c. unfold base64url_char, other. case_bool_decide as Hc; [by subst c|done]. Qed.

Lemma verify_signed key accountId exp e now :
  Uri.well_formed accountId = true -> accountId <> "" -> (String.length accountId <= MAX_ACCOUNT_ID_BYTES)%nat ->
  safe_integer exp = Some e -> 0 <= e ->
  verifyAccountAssertion key (signAccountAssertion key accountId exp) now = if now <? e then Some accountId else None.
Proof.
  intros Hw Hne Hlen He H0. assert (exp_text exp = pretty e) as Ht by (unfold exp_text; by rewrite He).
  unfold verifyAccountAssertion, signAccountAssertion.
  replace (split_on "." _) with [ACCOUNT_ASSERTION_PREFIX; to_base64url accountId; exp_text exp; mac key accountId (exp_text exp)].
  2: { symmetry. apply (split_join "." [ACCOUNT_ASSERTION_PREFIX; to_base64url accountId; exp_text exp; mac key accountId (exp_text exp)]); [done|].
       repeat (apply Forall_cons; split); try apply Forall_nil_2; try done.
       - apply base64url_lacks, base64url_chars.
       - rewrite Ht. destruct (pretty_all_digits e H0) as [Hd _]. clear -Hd. revert Hd. generalize (pretty e). intros s. unfold lacks.
         induction s as [|c s IH]; [done|]. cbn. destruct (digit_value c) as [v|] eqn:Hv; [|done]. apply digit_char in Hv as [Hv _]. intros Hs.
         rewrite (IH Hs), andb_true_r. unfold other. case_bool_decide as Hc; [subst c; change (nat_of_ascii ".") with 46%nat in Hv; lia|done].
       - apply base64url_lacks, hmac_chars. }
  cbn [negb bool_decide decide]. rewrite bool_decide_true by done. cbn [negb]. rewrite base64url_reads by done. rewrite bool_decide_false by done.
  rewrite (proj2 (Nat.ltb_ge _ _)) by done. cbn [orb]. rewrite Ht.
  assert (e <= MAX_SAFE_INTEGER) as Hmax.
  { unfold safe_integer in He. destruct (as_integer exp); [|done]. destruct (Z.leb_spec (Z.abs z) MAX_SAFE_INTEGER); [|done]. injection He as ->. lia. }
  pose proof (Number_pretty e ltac:(lia)) as Hn. assert (as_integer (Number (pretty e)) = Some e) as ->.
  { unfold safe_integer in Hn. destruct (as_integer (Number (pretty e))); [|done]. by destruct (_ <=? _). }
  rewrite Z.leb_antisym. destruct (now <? e); [|done]. cbn [negb]. rewrite bool_decide_true; [done|]. unfold exp_text. by rewrite Hn.
Qed.

Lemma verify_inv key assertion now a :
  verifyAccountAssertion key assertion now = Some a ->
  exists version encoded expiry got exp, split_on "." assertion = [version; encoded; expiry; got] /\ as_integer (Number expiry) = Some exp
    /\ now < exp /\ got = mac key a (exp_text (Number expiry)).
Proof.
  unfold verifyAccountAssertion. destruct (split_on "." assertion) as [|v [|en [|ex [|got [|]]]]]; try done. destruct (bool_decide (v = _)); [|done]. cbn [negb].
  destruct (bool_decide (of_base64url en = "") || _); [done|]. destruct (as_integer (Number ex)) as [e|] eqn:He; [|done].
  destruct (Z.leb_spec e now); [done|]. case_bool_decide as Hg; [|done]. intros [= <-]. by exists v, en, ex, got, e.
Qed.
End assertions.

(** Account assertions: one signed for an account reads back as that account until it
    expires; and where no two texts share a signature, an assertion that carries a
    signature issued for an account is only ever accepted as that account's, with the
    expiry it was issued with, whatever the rest of the header says. *)
Theorem account_assertions `{TokenCryptoLaws} key accountId exp e now :
  Uri.well_formed accountId = true -> accountId <> "" -> (String.length accountId <= MAX_ACCOUNT_ID_BYTES)%nat ->
  safe_integer exp = Some e -> 0 <= e ->
  verifyAccountAssertion key (signAccountAssertion key accountId exp) now = (if now <? e then Some accountId else None)
  /\ ((forall m m', hmac_base64url key m = hmac_base64url key m' -> m = m') ->
      forall assertion a, verifyAccountAssertion key assertion now = Some a -> last (split_on "." assertion) = Some (mac key accountId (exp_text exp)) ->
      a = accountId /\ exists expiry, split_on "." assertion !! 2%nat = Some expiry /\ exp_text (Number expiry) = exp_text exp).
Proof.
  intros Hw Hne Hlen He H0'. split.
  - by apply verify_signed.
  - intros Hinj assertion a Hv Hl. apply verify_inv in Hv as (v & en & x & got & ex & Hsp & _ & _ & ->). rewrite Hsp in Hl. cbn in Hl. injection Hl as Hl.
    apply Hinj, mac_text_inj in Hl as [-> Hx]. split; [done|]. exists x. by rewrite Hsp.
Qed.

(** ** Seeded tokens *)

Section seeding.
Context {crypto : TokenCrypto} {laws : TokenCryptoLaws}.

(** The tokens a deployment token stands for, each with the marker and capability of its
    row. *)
Definition seeded (token : string) : list (string * (string * AdminCapability)) :=
  [(token, ("env-bootstrap", write)); (deriveConsoleReadToken token, ("env-derived", read));
   (deriveConsoleWriteToken token, ("env-derived-write", write)); (deriveConsoleApproveToken token, ("env-derived-approve", approve))].

Definition digests (token : string) : list string := token_sha <$> (seeded token).*1.

Definition markers : list string := ["env-bootstrap"; "env-derived"; "env-derived-write"; "env-derived-approve"].

(** A live row that a seeder left. *)
Definition stale_now (creator digest : string) (r : AdminTokenRow) : bool :=
  bool_decide (r.(identity).(createdBy) = creator) && live r && negb (bool_decide (r.(token_sha256) = digest)).

Definition retire (t : Z) (creator digest : string) (r : AdminTokenRow) : AdminTokenRow := if stale_now creator digest r then revoke_row t r else r.

Lemma revoke_stale_map t creator digest rows : revoke_stale t creator digest rows = retire t creator digest <$> rows.
Proof. done. Qed.

Lemma retire_fresh t creator digest r : r.(identity).(createdBy) <> creator \/ r.(token_sha256) = digest -> retire t creator digest r = r.
Proof.
  intros Hr. unfold retire, stale_now. destruct Hr as [Hc|Hd]; [by rewrite bool_decide_false|]. rewrite (bool_decide_true (_ = digest)) by done.
  by rewrite andb_false_r.
Qed.

Lemma retire_columns t creator digest r :
  (retire t creator digest r).(identity) = r.(identity) /\ (retire t creator digest r).(token_sha256) = r.(token_sha256)
  /\ (live (retire t creator digest r) = true -> retire t creator digest r = r /\ (r.(identity).(createdBy) = creator -> r.(token_sha256) = digest)).
Proof.
  unfold retire. destruct (stale_now creator digest r) eqn:Hs; [done|]. split_and!; [done..|]. intros Hl. split; [done|]. intros Hc.
  unfold stale_now in Hs. rewrite bool_decide_true, Hl in Hs by done. cbn in Hs. by apply negb_false_iff, bool_decide_eq_true in Hs.
Qed.

Lemma select_any_none digest rows : (forall r, r ∈ rows -> r.(token_sha256) <> digest) -> select_any digest rows = None.
Proof.
  intros Hn. unfold select_any. destruct (filter _ rows) as [|r l] eqn:Hf; [done|]. exfalso.
  assert (r ∈ filter (fun r => r.(token_sha256) = digest) rows) as Hin by (rewrite Hf; by left). apply list_elem_of_filter in Hin as [Hd Hin]. by apply (Hn r).
Qed.

(** The rows a deployment token brings. *)
Definition seeded_rows (d : Draws) (token : string) : list AdminTokenRow :=
  [new_row (bootstrap_actor d.(bootstrap_id)) (token_sha token) (argon2_hash d.(d_salt) token);
   new_row (derived_actor d.(read_id) read_meta) (token_sha (deriveConsoleReadToken token)) (argon2_hash d.(d_salt) (deriveConsoleReadToken token));
   new_row (derived_actor d.(write_id) write_meta) (token_sha (deriveConsoleWriteToken token)) (argon2_hash d.(d_salt) (deriveConsoleWriteToken token));
   new_row (derived_actor d.(approve_id) approve_meta) (token_sha (deriveConsoleApproveToken token)) (argon2_hash d.(d_salt) (deriveConsoleApproveToken token))].

(** The marker and the digest of each. *)
Definition pairs (token : string) : list (string * string) := (fun x => (x.2.1, token_sha x.1)) <$> seeded token.

Definition retire_all (t : Z) (ps : list (string * string)) (r : AdminTokenRow) : AdminTokenRow := foldl (fun r p => retire t p.1 p.2 r) r ps.

(** All four revocations. *)
Definition retired (t : Z) (token : string) (r : AdminTokenRow) : AdminTokenRow := retire_all t (pairs token) r.

Lemma retire_all_columns t ps r : (retire_all t ps r).(identity) = r.(identity) /\ (retire_all t ps r).(token_hash) = r.(token_hash).
Proof.
  revert r. induction ps as [|[c dg] ps IH]; intros r; [done|].
  change (retire_all t ((c, dg) :: ps) r) with (retire_all t ps (retire t c dg r)). destruct (IH (retire t c dg r)) as [-> ->].
  unfold retire. by destruct (stale_now c dg r).
Qed.

Lemma retire_all_spec t ps r :
  (retire_all t ps r).(token_sha256) = r.(token_sha256)
  /\ (live (retire_all t ps r) = true -> retire_all t ps r = r /\ forall p, p ∈ ps -> r.(identity).(createdBy) = p.1 -> r.(token_sha256) = p.2)
  /\ (r.(identity).(createdBy) ∉ ps.*1 -> retire_all t ps r = r).
Proof.
  revert r. induction ps as [|[c dg] ps IH]; intros r; [split_and!; try done; intros _; split; [done|by intros p ?%elem_of_nil]|].
  change (retire_all t ((c, dg) :: ps) r) with (retire_all t ps (retire t c dg r)). destruct (IH (retire t c dg r)) as (H1 & H2 & H3).
  destruct (retire_columns t c dg r) as (I & S & L). split_and!; [congruence| |].
  - intros Hl. destruct (H2 Hl) as [E Hp]. rewrite E in Hl |- *. destruct (L Hl) as [E' D]. rewrite E' in Hp |- *. split; [done|].
    intros p [->|Hin]%elem_of_cons; [exact D|by apply Hp].
  - cbn. intros [Hc Hm]%not_elem_of_cons. rewrite (retire_fresh t c dg r) in * by (by left). by apply H3.
Qed.

Lemma fresh_shas token rows f digest (extra : list AdminTokenRow) :
  (forall r, r ∈ rows -> r.(token_sha256) ∉ digests token) -> digest ∈ digests token -> (forall r, (f r).(token_sha256) = r.(token_sha256)) ->
  (forall r, r ∈ extra -> r.(token_sha256) <> digest) ->
  select_any digest ((f <$> rows) ++ extra)%list = None.
Proof.
  intros Hn Hd Hf He. apply select_any_none. intros r [Hin|Hin]%elem_of_app; [|by apply He]. apply list_elem_of_fmap in Hin as (x & -> & Hx).
  rewrite Hf. intros Heq. apply (Hn x Hx). by rewrite Heq.
Qed.

(** One seeder on a table that lacks its token: the row is added, older ones retired. *)
Lemma seed_one t creator digest f (rows extra : list AdminTokenRow) row :
  Forall (fun r => r.(identity).(createdBy) <> creator \/ r.(token_sha256) = digest) (extra ++ [row])%list ->
  revoke_stale t creator digest (((f <$> rows) ++ extra) ++ [row])%list = (((fun r => retire t creator digest (f r)) <$> rows) ++ (extra ++ [row]))%list.
Proof.
  intros Hf. rewrite revoke_stale_map, <-app_assoc, fmap_app, <-list_fmap_compose. f_equal. rewrite <-(list_fmap_id (extra ++ [row])%list) at 2.
  apply list_fmap_ext. intros i r Hi. apply retire_fresh. rewrite Forall_lookup in Hf. by eapply Hf.
Qed.

Lemma seed_derived_fresh t newId salt derived meta token f (rows extra : list AdminTokenRow) :
  (forall r, r ∈ rows -> r.(token_sha256) ∉ digests token) -> token_sha derived ∈ digests token -> (forall r, (f r).(token_sha256) = r.(token_sha256)) ->
  Forall (fun r => r.(token_sha256) <> token_sha derived /\ r.(identity).(createdBy) <> meta.(m_createdBy)) extra ->
  seedDerivedConsoleToken t newId salt derived meta ((f <$> rows) ++ extra)%list
  = (((fun r => retire t meta.(m_createdBy) (token_sha derived) (f r)) <$> rows)
     ++ (extra ++ [new_row (derived_actor newId meta) (token_sha derived) (argon2_hash salt derived)]))%list.
Proof.
  intros Hn Hd Hf He. unfold seedDerivedConsoleToken. rewrite Forall_forall in He. rewrite (fresh_shas token); [|done..|intros r Hr; by apply He].
  apply seed_one, Forall_app. split; [apply Forall_forall; intros r Hr; left; by apply He|]. apply Forall_singleton. by right.
Qed.

Lemma seed_all_fresh d token rows :
  token <> "" -> NoDup (digests token) -> (forall r, r ∈ rows -> r.(token_sha256) ∉ digests token) ->
  seed_all d (Some token) rows = ((retired d.(d_now) token <$> rows) ++ seeded_rows d token)%list.
Proof.
  intros Hne Hnd Hn. unfold digests in Hnd. cbn in Hnd. apply NoDup_cons in Hnd as [N1 Hnd]. apply NoDup_cons in Hnd as [N2 Hnd]. apply NoDup_cons in Hnd as [N3 _].
  apply not_elem_of_cons in N1 as [N12 [N13 [N14 _]%not_elem_of_cons]%not_elem_of_cons]. apply not_elem_of_cons in N2 as [N23 [N24 _]%not_elem_of_cons].
  apply not_elem_of_cons in N3 as [N34 _].
  unfold seed_all, seedConsoleReadToken, seedConsoleWriteToken, seedConsoleApproveToken, seed_derived, seedBootstrapAdminToken.
  rewrite !(bool_decide_false (token = "")) by done.
  rewrite (select_any_none (token_sha token)) by (intros r Hr Heq; apply (Hn r Hr); rewrite Heq; unfold digests; cbn; by left).
  pose proof (seed_one d.(d_now) "env-bootstrap" (token_sha token) (fun r => r) rows [] (new_row (bootstrap_actor d.(bootstrap_id)) (token_sha token) (argon2_hash d.(d_salt) token))) as H1.
  rewrite list_fmap_id, app_nil_r in H1. unfold revokeStaleBootstrapTokens. rewrite H1 by (apply Forall_singleton; by right). cbn [app].
  assert (forall t c dg r, (retire t c dg r).(token_sha256) = r.(token_sha256)) as Hsha by (intros; apply retire_columns).
  rewrite (seed_derived_fresh _ _ _ _ _ token); [|done|unfold digests; cbn; set_solver|intros; apply Hsha|by apply Forall_singleton].
  rewrite (seed_derived_fresh _ _ _ _ _ token); [|done|unfold digests; cbn; set_solver|intros; by rewrite !Hsha|].
  2: { apply Forall_cons. split; [done|]. by apply Forall_singleton. }
  rewrite (seed_derived_fresh _ _ _ _ _ token); [|done|unfold digests; cbn; set_solver|intros; by rewrite !Hsha|].
  2: { apply Forall_cons. split; [done|]. apply Forall_cons. split; [done|]. by apply Forall_singleton. }
  done.
Qed.

Lemma select_live_unique l row :
  row ∈ l -> live row = true -> (forall r, r ∈ l -> r.(token_sha256) = row.(token_sha256) -> r = row) -> select_live row.(token_sha256) l = Some row.
Proof.
  intros Hin Hl Hu. destruct (select_live row.(token_sha256) l) as [r|] eqn:Hs.
  - unfold select_live in Hs. apply head_Some_elem_of, list_elem_of_filter in Hs as [[Hd _] Hr]. f_equal. by apply Hu.
  - unfold select_live in Hs. apply head_None in Hs. exfalso. apply (elem_of_nil row). rewrite <-Hs. by apply list_elem_of_filter.
Qed.

Lemma seeded_shas d token : token_sha256 <$> seeded_rows d token = digests token.
Proof. done. Qed.

Lemma same_sha_same_row d token r r' :
  NoDup (digests token) -> r ∈ seeded_rows d token -> r' ∈ seeded_rows d token -> r.(token_sha256) = r'.(token_sha256) -> r = r'.
Proof.
  intros Hnd Hr Hr' Heq. rewrite <-(seeded_shas d) in Hnd. apply list_elem_of_lookup in Hr as [i Hi]. apply list_elem_of_lookup in Hr' as [j Hj].
  assert (i = j) as ->; [|congruence]. apply (NoDup_lookup _ i j r.(token_sha256) Hnd); rewrite list_lookup_fmap; [by rewrite Hi|]. rewrite Hj, Heq. done.
Qed.

Lemma seeded_row d token tok marker cap :
  (tok, (marker, cap)) ∈ seeded token ->
  exists row, row ∈ seeded_rows d token /\ row.(token_sha256) = token_sha tok /\ row.(token_hash) = Some (argon2_hash d.(d_salt) tok) /\ live row = true
    /\ row.(identity).(createdBy) = marker /\ row.(identity).(capability) = cap /\ row.(identity).(scope) = Global.
Proof.
  unfold seeded, seeded_rows. intros Hin. repeat (apply elem_of_cons in Hin as [[= -> -> ->]|Hin]); [..|by apply elem_of_nil in Hin].
  - eexists. split; [left|]. done.
  - eexists. split; [right; left|]. done.
  - eexists. split; [do 2 right; left|]. done.
  - eexists. split; [do 3 right; left|]. done.
Qed.

Lemma revoke_stale_id t creator digest rows :
  (forall r, r ∈ rows -> live r = true -> r.(identity).(createdBy) = creator -> r.(token_sha256) = digest) -> revoke_stale t creator digest rows = rows.
Proof.
  intros Hn. rewrite revoke_stale_map. rewrite <-(list_fmap_id rows) at 2. apply list_fmap_ext. intros i r Hi. apply list_elem_of_lookup_2 in Hi.
  unfold retire, stale_now. case_bool_decide as Hc; [|done]. destruct (live r) eqn:Hl; [|done]. cbn. rewrite bool_decide_true; [done|]. by apply Hn.
Qed.

(** A second run of a seeder whose row is in place. *)
Lemma seeder_rests t salt newId tok meta rows row :
  select_any (token_sha tok) rows = Some row -> hashed row = true ->
  (forall r, r ∈ rows -> live r = true -> r.(identity).(createdBy) = meta.(m_createdBy) -> r.(token_sha256) = token_sha tok) ->
  seedDerivedConsoleToken t newId salt tok meta rows = rows.
Proof. intros Hs Hh Hn. unfold seedDerivedConsoleToken. rewrite Hs, Hh. by apply revoke_stale_id. Qed.

Section rotated.
Context (d : Draws) (token : string) (rows : list AdminTokenRow).
Hypothesis digests_differ : NoDup (digests token).
Hypothesis never_seeded : forall r, r ∈ rows -> r.(token_sha256) ∉ digests token.

Notation rows' := ((retired d.(d_now) token <$> rows) ++ seeded_rows d token)%list.

Lemma rotated_unique r row : r ∈ rows' -> row ∈ seeded_rows d token -> r.(token_sha256) = row.(token_sha256) -> r = row.
Proof.
  intros [Hr|Hr]%elem_of_app Hrow Heq; [|by eapply same_sha_same_row]. apply list_elem_of_fmap in Hr as (x & -> & Hx). exfalso. apply (never_seeded x Hx).
  rewrite <-(proj1 (retire_all_spec d.(d_now) (pairs token) x)). fold (retired d.(d_now) token x). rewrite Heq, <-(seeded_shas d). by apply list_elem_of_fmap_2.
Qed.

Lemma rotated_in row : row ∈ seeded_rows d token -> row ∈ rows'.
Proof. intros Hr. apply elem_of_app. by right. Qed.

(** Rows of the four kinds that are live carry the digest of their kind. *)
Lemma rotated_live r p : r ∈ rows' -> live r = true -> p ∈ pairs token -> r.(identity).(createdBy) = p.1 -> r.(token_sha256) = p.2.
Proof.
  intros [Hr|Hr]%elem_of_app Hl Hp Hc.
  - apply list_elem_of_fmap in Hr as (x & -> & Hx). destruct (retire_all_spec d.(d_now) (pairs token) x) as (_ & Hs & _). unfold retired in *.
    destruct (Hs Hl) as [E Hd]. rewrite E in Hc |- *. by apply Hd.
  - unfold pairs, seeded in Hp. cbn in Hp. unfold seeded_rows in Hr.
    repeat (apply elem_of_cons in Hr as [->|Hr]); [..|by apply elem_of_nil in Hr];
      repeat (apply elem_of_cons in Hp as [->|Hp]); try (by apply elem_of_nil in Hp); try done; by vm_compute in Hc.
Qed.

Lemma rotated_lookup tok marker cap :
  (tok, (marker, cap)) ∈ seeded token -> exists a, lookupAdminToken rows' tok = Some a /\ a.(createdBy) = marker /\ a.(capability) = cap /\ a.(scope) = Global.
Proof.
  intros Hs. destruct (seeded_row d _ _ _ _ Hs) as (row & Hin & Hsha & Hh & Hl & Hm & Hc & Hg). exists row.(identity). split; [|done].
  unfold lookupAdminToken. rewrite <-Hsha. rewrite (select_live_unique _ row); [|by apply rotated_in|done|intros r Hr; by apply rotated_unique].
  unfold check_row. rewrite bool_decide_true by done. rewrite Hh, bool_decide_false by apply argon2_not_empty. by rewrite argon2_verifies.
Qed.

Lemma rotated_any tok marker cap : (tok, (marker, cap)) ∈ seeded token -> exists row, select_any (token_sha tok) rows' = Some row /\ hashed row = true.
Proof.
  intros Hs. destruct (seeded_row d _ _ _ _ Hs) as (row & Hin & Hsha & Hh & _). exists row. split.
  - destruct (select_any (token_sha tok) rows') as [r|] eqn:Ha.
    + unfold select_any in Ha. apply head_Some_elem_of, list_elem_of_filter in Ha as [Hd Hr]. f_equal. apply rotated_unique; [done..|congruence].
    + unfold select_any in Ha. apply head_None in Ha. exfalso. apply (elem_of_nil row). rewrite <-Ha. apply list_elem_of_filter. split; [done|by apply rotated_in].
  - unfold hashed. rewrite Hh, bool_decide_false by apply argon2_not_empty. done.
Qed.

Lemma rotated_rests d' : token <> "" -> seed_all d' (Some token) rows' = rows'.
Proof.
  intros Hne. unfold seed_all, seedConsoleReadToken, seedConsoleWriteToken, seedConsoleApproveToken, seed_derived, seedBootstrapAdminToken.
  rewrite !(bool_decide_false (token = "")) by done.
  assert (forall t newId salt tok meta, (tok, (meta.(m_createdBy), meta.(m_capability))) ∈ seeded token -> seedDerivedConsoleToken t newId salt tok meta rows' = rows') as Hd.
  { intros t newId salt tok meta Hs. destruct (rotated_any _ _ _ Hs) as (row & Hrow & Hh). apply (seeder_rests _ _ _ _ _ _ row); [done..|].
    intros r Hr Hl Hc. apply (rotated_live r (meta.(m_createdBy), token_sha tok)); [done..| |done]. unfold pairs. apply list_elem_of_fmap.
    by exists (tok, (meta.(m_createdBy), meta.(m_capability))). }
  destruct (rotated_any token "env-bootstrap" write) as (row & -> & ->); [by left|].
  unfold revokeStaleBootstrapTokens. rewrite revoke_stale_id.
  2: { intros r Hr Hl Hc. apply (rotated_live r ("env-bootstrap", token_sha token)); [done..| |done]. by left. }
  rewrite (Hd _ _ _ (deriveConsoleReadToken token)) by (unfold seeded; right; left).
  rewrite (Hd _ _ _ (deriveConsoleWriteToken token)) by (unfold seeded; do 2 right; left).
  by rewrite (Hd _ _ _ (deriveConsoleApproveToken token)) by (unfold seeded; do 3 right; left).
Qed.
End rotated.
(** A seeder that finds its row, revoked or not, only retires others. *)
Definition present (token : string) (rows : list AdminTokenRow) : Prop :=
  (forall dg, dg ∈ digests token -> exists r, r ∈ rows /\ r.(token_sha256) = dg) /\ forall r, r ∈ rows -> hashed r = true.

Lemma present_any token rows dg : present token rows -> dg ∈ digests token -> exists row, select_any dg rows = Some row /\ hashed row = true.
Proof.
  intros [Hp Hh] Hd. destruct (Hp dg Hd) as (r & Hr & Hs). unfold select_any. destruct (filter _ rows) as [|x l] eqn:Hf.
  - exfalso. apply (elem_of_nil r). rewrite <-Hf. by apply list_elem_of_filter.
  - exists x. split; [done|]. apply Hh. assert (x ∈ filter (fun r => r.(token_sha256) = dg) rows) as Hx by (rewrite Hf; by left). by apply list_elem_of_filter in Hx as [_ Hx].
Qed.

Lemma present_retire token rows t c dg : present token rows -> present token (retire t c dg <$> rows).
Proof.
  intros [Hp Hh]. split.
  - intros x Hx. destruct (Hp x Hx) as (r & Hr & Hs). exists (retire t c dg r). split; [by apply list_elem_of_fmap_2|]. rewrite <-Hs. apply retire_columns.
  - intros r Hr. apply list_elem_of_fmap in Hr as (x & -> & Hx). specialize (Hh x Hx). unfold retire. by destruct (stale_now _ _ _).
Qed.

Lemma seed_present token rows t newId salt tok meta :
  present token rows -> token_sha tok ∈ digests token -> seedDerivedConsoleToken t newId salt tok meta rows = retire t meta.(m_createdBy) (token_sha tok) <$> rows.
Proof. intros Hp Hd. unfold seedDerivedConsoleToken. destruct (present_any _ _ _ Hp Hd) as (row & -> & ->). done. Qed.

Lemma seed_all_present d token rows :
  token <> "" -> present token rows -> seed_all d (Some token) rows = retired d.(d_now) token <$> rows.
Proof.
  intros Hne Hp. unfold seed_all, seedConsoleReadToken, seedConsoleWriteToken, seedConsoleApproveToken, seed_derived, seedBootstrapAdminToken.
  rewrite !(bool_decide_false (token = "")) by done. destruct (present_any token rows (token_sha token) Hp) as (row & -> & ->); [by left|].
  unfold revokeStaleBootstrapTokens. rewrite revoke_stale_map.
  assert (present token (retire d.(d_now) "env-bootstrap" (token_sha token) <$> rows)) as P1 by (by apply present_retire).
  rewrite (seed_present token _ _ _ _ _ read_meta P1) by (do 1 right; left). pose proof (present_retire _ _ d.(d_now) read_meta.(m_createdBy) (token_sha (deriveConsoleReadToken token)) P1) as P2.
  rewrite (seed_present token _ _ _ _ _ write_meta P2) by (do 2 right; left). pose proof (present_retire _ _ d.(d_now) write_meta.(m_createdBy) (token_sha (deriveConsoleWriteToken token)) P2) as P3.
  rewrite (seed_present token _ _ _ _ _ approve_meta P3) by (do 3 right; left).
  by rewrite <-!list_fmap_compose.
Qed.

Lemma pairs_digests token p : p ∈ pairs token -> p.2 ∈ digests token.
Proof. unfold pairs. intros Hp. apply list_elem_of_fmap in Hp as (x & -> & Hx). apply (list_elem_of_fmap_2 token_sha). by apply (list_elem_of_fmap_2 fst). Qed.

Lemma pairs_marker token m : m ∈ markers -> exists p, p ∈ pairs token /\ m = p.1.
Proof. change markers with (pairs token).*1. intros Hm. apply list_elem_of_fmap in Hm as (p & -> & Hp). by exists p. Qed.
End seeding.

(** Rotating the deployment token: seeding a token that was never seeded before makes it
    and the three console tokens derived from it valid, each with the marker and capability
    of its kind and global scope; no other token of those four kinds stays live; tokens that
    operators minted are left alone; and seeding again, as every restart does, changes
    nothing. *)
Theorem seeding_rotates `{TokenCryptoLaws} d token rows :
  token <> "" -> NoDup (digests token) -> (forall r, r ∈ rows -> r.(token_sha256) ∉ digests token) ->
  (forall tok marker cap, (tok, (marker, cap)) ∈ seeded token -> exists a,
     lookupAdminToken (seed_all d (Some token) rows) tok = Some a /\ a.(createdBy) = marker /\ a.(capability) = cap /\ a.(scope) = Global)
  /\ (forall r, r ∈ seed_all d (Some token) rows -> live r = true -> r.(identity).(createdBy) ∈ markers -> r.(token_sha256) ∈ digests token)
  /\ (forall r, r ∈ rows -> r.(identity).(createdBy) ∉ markers -> r ∈ seed_all d (Some token) rows)
  /\ (forall d', seed_all d' (Some token) (seed_all d (Some token) rows) = seed_all d (Some token) rows).
Proof.
  intros Hne Hnd Hn. rewrite (seed_all_fresh d token rows Hne Hnd Hn). split_and!.
  - by apply rotated_lookup.
  - intros r Hr Hl Hm. destruct (pairs_marker token _ Hm) as (p & Hp & Hc). rewrite (rotated_live d token rows r p Hr Hl Hp Hc). by apply pairs_digests.
  - intros r Hr Hm. apply elem_of_app. left. apply list_elem_of_fmap. exists r. split; [|done]. symmetry. by apply retire_all_spec.
  - intros d'. by apply rotated_rests.
Qed.

(** The seeders look a digest up whether or not its row is revoked, so returning to a
    deployment token used before leaves no seeded token valid at all. *)
Lemma rotation_back_locks_out `{TokenCryptoLaws} (d1 d2 d3 : Draws) a b :
  a <> "" -> b <> "" -> NoDup (digests a ++ digests b)%list ->
  forall r, r ∈ seed_all d3 (Some a) (seed_all d2 (Some b) (seed_all d1 (Some a) [])) -> live r = false.
Proof.
  intros Ha Hb [Hda [Hdis Hdb]]%NoDup_app. rewrite (seed_all_fresh d1 a []) by (try done; by intros r ?%elem_of_nil). cbn [fmap list_fmap app].
  rewrite (seed_all_fresh d2 b) by (try done; intros r Hr; apply Hdis; rewrite <-(seeded_shas d1); by apply list_elem_of_fmap_2).
  assert (forall r, r ∈ ((retired d2.(d_now) b <$> seeded_rows d1 a) ++ seeded_rows d2 b)%list -> hashed r = true /\ r.(identity).(createdBy) ∈ markers) as Hrows.
  { assert (forall d t r, r ∈ seeded_rows d t -> hashed r = true /\ r.(identity).(createdBy) ∈ markers) as Hs.
    { intros d t r Hr. unfold seeded_rows in Hr. repeat (apply elem_of_cons in Hr as [->|Hr]); [..|by apply elem_of_nil in Hr];
        (split; [unfold hashed; cbn; rewrite bool_decide_false by apply argon2_not_empty; done|apply (bool_decide_unpack _); vm_compute; exact I]). }
    intros r [Hr|Hr]%elem_of_app; [|by eapply Hs]. apply list_elem_of_fmap in Hr as (x & -> & Hx). unfold retired, hashed.
    destruct (retire_all_columns d2.(d_now) (pairs b) x) as [-> ->]. by apply (Hs d1 a). }
  rewrite seed_all_present; [|done|].
  2: { split; [|intros r Hr; by apply Hrows]. intros dg Hd. rewrite <-(seeded_shas d1) in Hd. apply list_elem_of_fmap in Hd as (x & -> & Hx).
       exists (retired d2.(d_now) b x). split; [apply elem_of_app; left; by apply list_elem_of_fmap_2|]. apply retire_all_spec. }
  intros r Hr. apply list_elem_of_fmap in Hr as (x & -> & Hx). destruct (live (retired _ a x)) eqn:Hl; [|done]. exfalso.
  destruct (retire_all_spec d3.(d_now) (pairs a) x) as (_ & Hs & _). destruct (Hs Hl) as [E Hsa]. unfold retired in Hl. rewrite E in Hl.
  destruct (Hrows x Hx) as [_ Hm]. destruct (pairs_marker a _ Hm) as (p & Hp & Hc), (pairs_marker b _ Hm) as (q & Hq & Hcq).
  apply (Hdis p.2); [by apply pairs_digests|]. rewrite <-(Hsa p Hp Hc), (rotated_live d2 b (seeded_rows d1 a) x q); try done. by apply pairs_digests.
Qed.

(** ** Managing tokens *)

Lemma manager_spec actor :
  requireManagementActor actor = None -> exists a, actor = Some a /\ a.(scope) = Global /\ isDerivedConsoleActor a = false.
Proof.
  unfold requireManagementActor. destruct actor as [a|]; [|done]. case_bool_decide as Hs; [|done]. cbn [negb]. destruct (isDerivedConsoleActor a) eqn:Hd; [done|].
  intros _. by exists a.
Qed.

Lemma select_live_app_ne dg rows row : row.(token_sha256) <> dg -> select_live dg (rows ++ [row])%list = select_live dg rows.
Proof.
  intros Hne. unfold select_live. rewrite filter_app, (filter_cons_False _ row); [|by intros [? _]]. change (filter _ []) with (@nil AdminTokenRow). by rewrite app_nil_r.
Qed.

Lemma select_live_app_new dg rows row : select_live dg rows = None -> row.(token_sha256) = dg -> live row = true -> select_live dg (rows ++ [row])%list = Some row.
Proof.
  intros Hn Hs Hl. unfold select_live in *. rewrite filter_app. apply head_None in Hn. rewrite Hn. by rewrite filter_cons_True.
Qed.

Local Ltac refusal := let Heq := fresh "Heq" in intros Heq; unfold error_of in Heq; injection Heq as <- <- <-; by split.

Lemma refused_status actor st code : requireManagementActor actor = Some (st, code) -> st = 403.
Proof. unfold requireManagementActor. destruct actor as [a|]; [|by intros [= <- _]]. destruct (negb _); [by intros [= <- _]|]. destruct (isDerivedConsoleActor a); [by intros [= <- _]|done]. Qed.

(** A minted token belongs to an operator, whoever minted it: it is neither the bootstrap
    token nor a console token; only global tokens that are not console tokens mint. *)
Theorem minting_sound `{TokenCryptoLaws} zones now newId random salt actor body table table' status reply :
  mintAdminToken zones now newId random salt actor body table = (table', (status, reply)) ->
  (status <> 201 -> table' = table)
  /\ (status = 201 -> exists a m, actor = Some a /\ a.(scope) = Global /\ isDerivedConsoleActor a = false
      /\ lookupAdminToken table' ("cat_" +:+ random) = Some m /\ m.(createdBy) = "admin:" +:+ a.(id)
      /\ isInternalProvisioner m = false /\ isDerivedConsoleActor m = false /\ (m.(scope) = ZoneScope -> exists z, m.(zoneId) = Some z /\ z ∈ zones)
      /\ forall tok, token_sha tok <> token_sha ("cat_" +:+ random) -> lookupAdminToken table' tok = lookupAdminToken table tok).
Proof.
  unfold mintAdminToken. destruct (requireManagementActor actor) as [[st code]|] eqn:Hr.
  { rewrite (refused_status _ _ _ Hr). refusal. }
  destruct (manager_spec _ Hr) as (a & -> & Hs & Hd). destruct (parse_MintBody body) as [b|]; [|refusal].
  destruct (match b_scope b with Global => _ | ZoneScope => _ end) as [[st code]|] eqn:Hz.
  { assert (st <> 201) as Hst by (destruct (b_scope b), (b_zone_id b); try destruct (bool_decide _); congruence). intros Heq. injection Heq as <- <- <-. by split. }
  case_bool_decide as Hlive; [refusal|]. intros Heq. injection Heq as <- <- <-. split; [done|]. intros _.
  exists a, (minted_actor newId a b). split_and!; try done.
  - unfold lookupAdminToken. rewrite (select_live_app_new _ _ _); [|by apply eq_None_not_Some|done..]. unfold check_row. cbn. rewrite bool_decide_true by done.
    cbn. rewrite bool_decide_false by apply argon2_not_empty. by rewrite argon2_verifies.
  - cbn. destruct (b_scope b); [done|]. intros _. destruct (b_zone_id b) as [z|]; [|done]. exists z. split; [done|]. by case_bool_decide.
  - intros tok Hne. unfold lookupAdminToken. by rewrite select_live_app_ne.
Qed.

(** After a revocation no token of that id is valid, and nothing else changed. *)
Theorem revocation_sound `{TokenCrypto} now actor tokenId table table' status reply :
  revokeAdminToken now actor tokenId table = (table', (status, reply)) ->
  (status <> 204 -> table' = table)
  /\ (status = 204 -> (forall tok a, lookupAdminToken table' tok = Some a -> a.(id) <> tokenId)
                      /\ (forall r, r ∈ table -> r.(identity).(id) <> tokenId -> r ∈ table')
                      /\ exists a, actor = Some a /\ a.(scope) = Global /\ isDerivedConsoleActor a = false).
Proof.
  unfold revokeAdminToken. destruct (requireManagementActor actor) as [[st code]|] eqn:Hr.
  { rewrite (refused_status _ _ _ Hr). refusal. }
  destruct (manager_spec _ Hr) as (a & -> & Hs & Hd). destruct (negb _); [refusal|].
  destruct (existsb _ table); [|refusal]. intros Heq. injection Heq as <- <- <-. split; [done|]. intros _. split_and!.
  - intros tok x Hl Hid. unfold lookupAdminToken in Hl. destruct (AuthCaches.check_row_actor _ _ _ Hl) as (r & Hsel & Hi).
    apply AuthCaches.select_live_spec in Hsel as (Hin & _ & Hlive). unfold update_rows in Hin. apply list_elem_of_fmap in Hin as (y & -> & _).
    destruct (bool_decide (id (identity y) = tokenId) && live y) eqn:Hy; [done|]. rewrite Hi, Hid, bool_decide_true, Hlive in Hy by done. done.
  - intros r Hr' Hne. unfold update_rows. apply list_elem_of_fmap. exists r. split; [|done]. by rewrite bool_decide_false.
  - by exists a.
Qed.
End AuthFacts.
