(* ===== verification/Approvals.v ===== *)
(** * Human approvals and delegated grants

    [apps/api/src/routes/approvals.ts] and [routes/grants.ts], over the transactions of
    [apps/api/src/db.ts].  Holds are also created, decided on the federated plane, consumed
    and swept by the STS ([services/sts/internal/db.go]), whose statements on them are part
    of the model.  Times are integers; [now()] is the start of the transaction. *)

From Stdlib Require Import Ascii.
From Stdlib Require String.
From S2P Require Import Prelude.
From S2P Require Import Scope.
From S2P Require Import Json.
From S2P Require Import JsonText.
From S2P Require Import Text.
From S2P Require Import AdminAudit.
Local Open Scope string_scope.
Local Open Scope Z_scope.

(** * Transactions *)

Module ApiTx.

Definition RETRYABLE_TX_CODES : list string := ["40001"; "40P01"].

(** How one attempt ends: its effects are committed, it is aborted with a reply, or an
    error with a code rolls it back. *)
Inductive Ending (S T : Type) :=
| Commits (s : S) (v : T)
| TxAbort (v : T)
| Fails (code : string).

Arguments Commits {S T} s v.
Arguments TxAbort {S T} v.
Arguments Fails {S T} code.

Definition isRetryableTxError (code : string) : bool := bool_decide (code ∈ RETRYABLE_TX_CODES).

Section tx.
Context {S T : Type}.

(** The attempts from number [i] on, [spare] of them after this one; the state an attempt
    starts from is that of its time. *)
Fixpoint attempts (spare i : nat) (at_ : nat -> S) (fn : nat -> S -> Ending S T) : nat * (string + (S * T)) :=
  match fn i (at_ i) with
  | Commits s v => (i, inr (s, v))
  | TxAbort v => (i, inr (at_ i, v))
  | Fails code =>
      match spare with
      | O => (i, inl code)
      | Datatypes.S spare => if isRetryableTxError code then attempts spare (Datatypes.S i) at_ fn else (i, inl code)
      end
  end.

(** The last attempt made, and the state it left with its value, or the error. *)
Definition withTransaction (maxAttempts : Z) (at_ : nat -> S) (fn : nat -> S -> Ending S T) : nat * (string + (S * T)) :=
  attempts (Z.to_nat (Z.max 1 maxAttempts) - 1) 1 at_ fn.

Lemma attempts_spec spare i at_ fn n r :
  attempts spare i at_ fn = (n, r) ->
  (i <= n <= i + spare)%nat
  /\ (forall j, (i <= j < n)%nat -> exists code, fn j (at_ j) = Fails code /\ isRetryableTxError code = true)
  /\ match r with
     | inr (s, v) => fn n (at_ n) = Commits s v \/ (fn n (at_ n) = TxAbort v /\ s = at_ n)
     | inl code => fn n (at_ n) = Fails code /\ (isRetryableTxError code = true -> n = (i + spare)%nat)
     end.
Proof.
  assert (forall (P : Prop), P -> (i <= i <= i + spare)%nat /\ (forall j, (i <= j < i)%nat -> exists code, fn j (at_ j) = Fails code /\ isRetryableTxError code = true) /\ P) as Hone.
  { intros P HP. split_and!; [lia..|intros j Hj; lia|done]. }
  revert i Hone. induction spare as [|spare IH]; intros i Hone; cbn; destruct (fn i (at_ i)) as [s v|v|code] eqn:Hf.
  - intros [= <- <-]. apply Hone. auto.
  - intros [= <- <-]. apply Hone. auto.
  - intros [= <- <-]. apply Hone. split; [done|lia].
  - intros [= <- <-]. apply Hone. auto.
  - intros [= <- <-]. apply Hone. auto.
  - destruct (isRetryableTxError code) eqn:Hr; [|intros [= <- <-]; apply Hone; split; [done|congruence]].
    intros Ha. destruct (IH (Datatypes.S i)) as (Hn & Hall & Hres); [|done|].
    { intros P HP. split_and!; [lia..|intros j Hj; lia|done]. }
    split_and!; [lia..| |].
    + intros j Hj. destruct (decide (j = i)) as [->|]; [by exists code|]. apply Hall. lia.
    + destruct r as [c|[s v]]; [|done]. destruct Hres as [H1 H2]. split; [done|]. intros Hc. specialize (H2 Hc). lia.
Qed.
End tx.
End ApiTx.

(** * Approval holds *)

Module Approvals.

Inductive ApproverClass := operator | subject | any.
Inductive HoldState := pending | approved | rejected | expired | consumed.

#[export] Instance ApproverClass_eq_dec : EqDecision ApproverClass.
Proof. solve_decision. Defined.

#[export] Instance HoldState_eq_dec : EqDecision HoldState.
Proof. solve_decision. Defined.

(** A row of [step_up_challenges]; [binding] is the hash in hexadecimal. *)
Record Hold := {
  zone_id : string;
  session_id : option string;
  principal_id : option string;
  application_id : option string;
  tier : option string;
  approver_class : ApproverClass;
  privacy_mode : string;
  subject_anchor : option string;
  binding : option string;
  metadata_json : json;
  expires_at : Z;
  satisfied_at : option Z;
  rejected_at : option Z;
  consumed_at : option Z;
  approver_subject_id : option string;
  decision_reason : option string
}.

Definition is_null {A : Type} (x : option A) : bool := match x with None => true | Some _ => false end.

(** The row an [UPDATE] finds under a condition. *)
Definition where_ {A : Type} (p : A -> bool) (x : option A) : option A := match x with Some a => if p a then Some a else None | None => None end.

(** The [CASE] of [CHALLENGE_COLUMNS] and of the classification of a miss. *)
Definition derived_state (now : Z) (h : Hold) : HoldState :=
  if negb (is_null h.(consumed_at)) then consumed
  else if negb (is_null h.(rejected_at)) then rejected
  else if h.(expires_at) <=? now then expired
  else if negb (is_null h.(satisfied_at)) then approved
  else pending.

Definition STATE_PREDICATES (s : HoldState) (now : Z) (h : Hold) : bool :=
  match s with
  | pending => is_null h.(consumed_at) && is_null h.(rejected_at) && is_null h.(satisfied_at) && (now <? h.(expires_at))
  | approved => is_null h.(consumed_at) && is_null h.(rejected_at) && negb (is_null h.(satisfied_at)) && (now <? h.(expires_at))
  | rejected => is_null h.(consumed_at) && negb (is_null h.(rejected_at))
  | expired => is_null h.(consumed_at) && is_null h.(rejected_at) && (h.(expires_at) <=? now)
  | consumed => negb (is_null h.(consumed_at))
  end.

Definition state_name (s : HoldState) : string :=
  match s with pending => "pending" | approved => "approved" | rejected => "rejected" | expired => "expired" | consumed => "consumed" end.

Definition class_name (c : ApproverClass) : string := match c with operator => "operator" | subject => "subject" | any => "any" end.

(** [GET /approvals/counts] over the holds of the zone. *)
Definition counts (now : Z) (zone : string) (holds : list Hold) (s : HoldState) : nat :=
  length (filter (fun h => h.(zone_id) = zone /\ STATE_PREDICATES s now h = true) holds).

(** A row of [event_outbox]. *)
Record QueuedEvent := { stream_name : string; payload : list (string * string); request_id : option string }.

(** What a reader of the stream finds in the row: the event its [data] spells, the hold it
    is about, the verdict, the plane it was given on and the approver it names. *)
Definition event_of (e : QueuedEvent) : json := default_to JUndefined (ordered_get "data" e.(payload) ≫= JSON_parse).

Definition text_in (k : string) (v : json) : option string := match json_get k v with JStr s => Some s | _ => None end.

Definition about (e : QueuedEvent) : option string := text_in "challenge_id" (json_get "metadata_json" (event_of e)).
Definition verdict (e : QueuedEvent) : option string := text_in "decision" (event_of e).
Definition plane (e : QueuedEvent) : option string := text_in "approver_plane" (json_get "metadata_json" (event_of e)).
Definition named (e : QueuedEvent) : option string := text_in "approver_subject_id" (json_get "metadata_json" (event_of e)).

Record Db := { holds : gmap string Hold; outbox : list QueuedEvent; notified : list string }.

(** What a request brings: its id, the verified account and the credential. *)
Record Caller := { req_id : string; account : option string; actor_id : string }.

Definition REASON_MAX_LENGTH : nat := 500.

(** [None] when the body is refused; unknown members are ignored. *)
Definition parse_DecisionBody (body : json) : option (option string) :=
  match body with
  | JUndefined | JNull => Some None
  | JObj _ =>
      match json_get "reason" body with
      | JUndefined => Some None
      | JStr s => if (js_length s <=? REASON_MAX_LENGTH)%nat then Some (Some s) else None
      | _ => None
      end
  | _ => None
  end.

(** [/^[A-Za-z0-9_.\-:]{1,128}$/]. *)
Definition idShape (s : string) : bool :=
  all_chars (fun c => is_alnum c || one_of "_.-:" c) s && (1 <=? String.length s)%nat && (String.length s <=? 128)%nat.

Definition approverId (c : Caller) : string := match c.(account) with Some a => "console:" +:+ a | None => "admin:" +:+ c.(actor_id) end.

Definition optional (name : string) (v : option string) : list (string * json) :=
  match v with Some s => if bool_decide (s = "") then [] else [(name, JStr s)] | None => [] end.

Definition or_null (v : option string) : json := match v with Some s => JStr s | None => JNull end.

(** The metadata of the audit event. *)
Definition decision_metadata (holdId : string) (h : Hold) : list (string * json) :=
  ([("challenge_id", JStr holdId); ("tier", JStr (default_to "" h.(tier))); ("approver_class", JStr (class_name h.(approver_class)));
    ("privacy_mode", JStr h.(privacy_mode)); ("binding", or_null h.(binding)); ("session_id", or_null h.(session_id)); ("approver_plane", JStr "operator");
    ("approver_subject_id", or_null h.(approver_subject_id))]
   ++ optional "application_id" h.(application_id) ++ optional "subject_anchor" h.(subject_anchor) ++ optional "reason" h.(decision_reason)
   ++ match json_get "agent_labels" h.(metadata_json) with JArr ls => [("agent_labels", JArr ls)] | _ => [] end)%list.

Definition verdict_name (ok : bool) : string := if ok then "approved" else "rejected".

Definition audit_stream : string := "caracal.audit.events".

Section routes.
Context `{Digests} (hmacKey : option string).

(** [enqueueDecisionAudit]: [eventId] and [occurredAt] are drawn.  [data] is [undefined]
    only for values no row holds. *)
Definition enqueueDecisionAudit (c : Caller) (eventId occurredAt zoneId : string) (ok : bool) (holdId : string) (h : Hold) : QueuedEvent :=
  let data := default_to "" (JSON_stringify (JObj
    [("id", JStr eventId); ("zone_id", JStr zoneId); ("event_type", JStr "step_up_decided"); ("request_id", JStr c.(req_id));
     ("decision", JStr (verdict_name ok)); ("evaluation_status", JStr "complete"); ("determining_policies_json", JArr []);
     ("diagnostics_json", JArr []); ("metadata_json", JObj (decision_metadata holdId h)); ("occurred_at", JStr occurredAt)])) in
  let sig := match hmacKey with Some k => if bool_decide (k = "") then [] else [("sig", hmac_sha256 k data)] | None => [] end in
  {| stream_name := audit_stream; payload := ([("id", c.(req_id)); ("data", data)] ++ sig)%list; request_id := Some c.(req_id) |}.

Definition with_decision (t : Z) (ok : bool) (approver : string) (reason : option string) (h : Hold) : Hold :=
  {| zone_id := h.(zone_id); session_id := h.(session_id); principal_id := h.(principal_id); application_id := h.(application_id); tier := h.(tier);
     approver_class := h.(approver_class); privacy_mode := h.(privacy_mode); subject_anchor := h.(subject_anchor); binding := h.(binding);
     metadata_json := h.(metadata_json); expires_at := h.(expires_at);
     satisfied_at := if ok then Some t else h.(satisfied_at); rejected_at := if ok then h.(rejected_at) else Some t; consumed_at := h.(consumed_at);
     approver_subject_id := Some approver; decision_reason := reason |}.

Definition undecided (t : Z) (h : Hold) : bool :=
  is_null h.(satisfied_at) && is_null h.(rejected_at) && is_null h.(consumed_at) && (t <? h.(expires_at)).

(** The [WHERE] of the decision. *)
Definition decidable_hold (t : Z) (zoneId : string) (h : Hold) : bool :=
  bool_decide (h.(zone_id) = zoneId) && negb (bool_decide (h.(approver_class) = subject)) && undecided t h.

Definition fail_with (status : Z) (fields : list (string * json)) : Z * json := (status, JObj fields).

(** The answer when no row was decided, from what the second statement reads. *)
Definition miss_reply (t : Z) (zoneId : string) (found : option Hold) : Z * json :=
  match found with
  | Some x =>
      if negb (bool_decide (x.(zone_id) = zoneId)) then fail_with 404 [("error", JStr "approval_not_found")]
      else if bool_decide (derived_state t x = pending) && bool_decide (x.(approver_class) = subject) then fail_with 403 [("error", JStr "subject_approval_required")]
      else fail_with 409 [("error", JStr "approval_not_decidable"); ("state", JStr (state_name (derived_state t x)))]
  | None => fail_with 404 [("error", JStr "approval_not_found")]
  end.

(** The transaction of [decide], begun at [t]; [later] is what its second statement reads
    when the first changed no row. *)
Definition decide_tx (t : Z) (c : Caller) (eventId occurredAt zoneId holdId : string) (ok : bool) (reason : option string) (later : gmap string Hold) (db : Db) :
    ApiTx.Ending Db (Z * json) :=
  match where_ (decidable_hold t zoneId) (db.(holds) !! holdId) with
  | Some h =>
      let h' := with_decision t ok (approverId c) reason h in
      ApiTx.Commits
        {| holds := <[holdId := h']> db.(holds); outbox := (db.(outbox) ++ [enqueueDecisionAudit c eventId occurredAt zoneId ok holdId h'])%list;
           notified := (db.(notified) ++ [holdId])%list |}
        (200, JObj [("id", JStr holdId); ("state", JStr (if ok then "approved" else "rejected")); ("satisfied_at", from_option JTime JNull h'.(satisfied_at));
                    ("rejected_at", from_option JTime JNull h'.(rejected_at)); ("approver_subject_id", or_null h'.(approver_subject_id))])
  | None => ApiTx.TxAbort (miss_reply t zoneId (later !! holdId))
  end.

(** [POST /approvals/:id/approve] and [/reject], in one attempt of its transaction. *)
Definition decideApproval (t : Z) (c : Caller) (eventId occurredAt zoneId holdId : string) (ok : bool) (body : json) (later : gmap string Hold) (db : Db) : Db * (Z * json) :=
  if negb (idShape zoneId && idShape holdId) then (db, fail_with 400 [("error", JStr "invalid_params")])
  else match parse_DecisionBody body with
       | None => (db, fail_with 400 [("error", JStr "invalid_body")])
       | Some reason =>
           match decide_tx t c eventId occurredAt zoneId holdId ok reason later db with
           | ApiTx.Commits db' v => (db', v)
           | ApiTx.TxAbort v => (db, v)
           | ApiTx.Fails _ => (db, fail_with 500 [("error", JStr "internal_error")])
           end
       end.

(** ** The statements of the STS *)

(** What the event of [handleDecideApproval] says, [data] being its encoding: the hold, the
    verdict, and that a Subject gave it; the approver is named by its authority record. *)
Record federated_event (data holdId : string) (ok : bool) : Prop := {
  fe_about : text_in "challenge_id" (json_get "metadata_json" (default_to JUndefined (JSON_parse data))) = Some holdId;
  fe_verdict : text_in "decision" (default_to JUndefined (JSON_parse data)) = Some (verdict_name ok);
  fe_plane : text_in "approver_plane" (json_get "metadata_json" (default_to JUndefined (JSON_parse data))) = Some "subject"
}.

(** [DecideApprovalWithAudit]; [sig] is empty when no key is configured. *)
Definition sts_decide (t : Z) (zoneId holdId approver : string) (ok : bool) (reason : option string) (auditId data sig : string) (db : Db) : Db :=
  match where_ (fun h => bool_decide (h.(zone_id) = zoneId) && undecided t h) (db.(holds) !! holdId) with
  | Some h =>
      {| holds := <[holdId := with_decision t ok approver reason h]> db.(holds);
         outbox := (db.(outbox) ++ [{| stream_name := audit_stream;
                                       payload := ([("id", auditId); ("data", data)] ++ if bool_decide (sig = "") then [] else [("sig", sig)])%list;
                                       request_id := Some holdId |}])%list;
         notified := (db.(notified) ++ [holdId])%list |}
  | None => db
  end.

Definition with_consumed (t : Z) (h : Hold) : Hold :=
  {| zone_id := h.(zone_id); session_id := h.(session_id); principal_id := h.(principal_id); application_id := h.(application_id); tier := h.(tier);
     approver_class := h.(approver_class); privacy_mode := h.(privacy_mode); subject_anchor := h.(subject_anchor); binding := h.(binding);
     metadata_json := h.(metadata_json); expires_at := h.(expires_at); satisfied_at := h.(satisfied_at); rejected_at := h.(rejected_at); consumed_at := Some t;
     approver_subject_id := h.(approver_subject_id); decision_reason := h.(decision_reason) |}.

(** The [WHERE] of [ConsumeApprovalChallenge]; [live_session] tells whether the
    authority record the hold is bound to is active and unexpired. *)
Definition consumable (t : Z) (zoneId principal hash : string) (live_session : bool) (h : Hold) : bool :=
  bool_decide (h.(zone_id) = zoneId) && bool_decide (h.(principal_id) = Some principal) && bool_decide (h.(binding) = Some hash)
  && negb (is_null h.(satisfied_at)) && is_null h.(rejected_at) && negb (is_null h.(approver_subject_id)) && is_null h.(consumed_at)
  && (t <? h.(expires_at)) && (bool_decide (h.(session_id) = Some "") || live_session).

(** Whether the approval was spent. *)
Definition sts_consume (t : Z) (zoneId holdId principal hash : string) (live_session : bool) (db : Db) : Db * bool :=
  match where_ (consumable t zoneId principal hash live_session) (db.(holds) !! holdId) with
  | Some h => ({| holds := <[holdId := with_consumed t h]> db.(holds); outbox := db.(outbox); notified := db.(notified) |}, true)
  | None => (db, false)
  end.

(** A hold as the STS inserts it; the labels it keeps of the requesting agent are texts. *)
Definition fresh_hold (h : Hold) : bool :=
  is_null h.(satisfied_at) && is_null h.(rejected_at) && is_null h.(consumed_at) && is_null h.(approver_subject_id).

Definition text_labels (h : Hold) : Prop :=
  match json_get "agent_labels" h.(metadata_json) with JArr ls => Forall (fun l => exists x, l = JStr x) ls | _ => True end.

(** ** Interleavings *)

(** A transaction may have begun before the present; the sweep removes what it chooses. *)
Inductive hold_step : Z * Db -> Z * Db -> Prop :=
| hs_time now now' db : now <= now' -> hold_step (now, db) (now', db)
| hs_create now holdId h db : db.(holds) !! holdId = None -> (forall e, e ∈ db.(outbox) -> about e <> Some holdId) ->
    fresh_hold h = true -> text_labels h ->
    hold_step (now, db) (now, {| holds := <[holdId := h]> db.(holds); outbox := db.(outbox); notified := db.(notified) |})
| hs_decide now t c eventId occurredAt zoneId holdId ok body later db : t <= now ->
    hold_step (now, db) (now, (decideApproval t c eventId occurredAt zoneId holdId ok body later db).1)
| hs_sts_decide now t zoneId holdId approver ok reason auditId data sig db : t <= now -> federated_event data holdId ok ->
    hold_step (now, db) (now, sts_decide t zoneId holdId approver ok reason auditId data sig db)
| hs_sts_consume now t zoneId holdId principal hash live_session db : t <= now ->
    hold_step (now, db) (now, (sts_consume t zoneId holdId principal hash live_session db).1)
| hs_sweep now holdId db :
    hold_step (now, db) (now, {| holds := delete holdId db.(holds); outbox := db.(outbox); notified := db.(notified) |}).

Definition no_holds : Db := {| holds := ∅; outbox := []; notified := [] |}.

(** The signature the stream's readers check. *)
Definition signed (e : QueuedEvent) : Prop :=
  match hmacKey, ordered_get "data" e.(payload) with
  | Some k, Some data => k <> "" -> ordered_get "sig" e.(payload) = Some (hmac_sha256 k data)
  | _, _ => True
  end.

(** A hold and the events about it. *)
Record hold_ok (events : list QueuedEvent) (h : Hold) : Prop := {
  ho_one : h.(satisfied_at) = None \/ h.(rejected_at) = None;
  ho_open : h.(satisfied_at) = None -> h.(rejected_at) = None -> events = [] /\ h.(consumed_at) = None;
  ho_ruled : is_Some h.(satisfied_at) \/ is_Some h.(rejected_at) ->
    exists e, events = [e]
      /\ (verdict e = Some "approved" /\ is_Some h.(satisfied_at) \/ verdict e = Some "rejected" /\ is_Some h.(rejected_at))
      /\ (plane e = Some "subject"
          \/ (plane e = Some "operator" /\ is_Some (named e) /\ named e = h.(approver_subject_id) /\ h.(approver_class) <> subject /\ signed e));
  ho_in_time : forall t, h.(satisfied_at) = Some t \/ h.(consumed_at) = Some t -> t < h.(expires_at);
  ho_consumed : is_Some h.(consumed_at) -> is_Some h.(satisfied_at);
  ho_labels : text_labels h
}.

Definition events_about (holdId : string) (db : Db) : list QueuedEvent := filter (fun e => about e = Some holdId) db.(outbox).

Record holds_ok (db : Db) : Prop := {
  hk_hold : forall k h, db.(holds) !! k = Some h -> hold_ok (events_about k db) h;
  hk_once : NoDup (about <$> db.(outbox))
}.

(** *** Keeping it *)

Lemma where_Some {A : Type} p (x : option A) a : where_ p x = Some a <-> x = Some a /\ p a = true.
Proof. unfold where_. destruct x as [y|]; [|by split; [|intros [? _]]]. destruct (p y) eqn:Hp; (split; [intros Hx; simplify_eq; done|intros [Hx Hy]; simplify_eq; congruence]). Qed.

Lemma null_iff {A : Type} (x : option A) : is_null x = true <-> x = None.
Proof. by destruct x. Qed.

Lemma undecided_spec t h : undecided t h = true <-> h.(satisfied_at) = None /\ h.(rejected_at) = None /\ h.(consumed_at) = None /\ t < h.(expires_at).
Proof. unfold undecided. rewrite !andb_true_iff, !null_iff, Z.ltb_lt. tauto. Qed.

Lemma events_app holdId db e :
  events_about holdId {| holds := db.(holds); outbox := (db.(outbox) ++ [e])%list; notified := db.(notified) |}
  = (events_about holdId db ++ if bool_decide (about e = Some holdId) then [e] else [])%list.
Proof. unfold events_about. cbn. rewrite filter_app. f_equal. case_bool_decide; [by rewrite filter_cons_True|by rewrite filter_cons_False]. Qed.

Lemma decision_plain k h : text_labels h -> plain (JObj (decision_metadata k h)).
Proof.
  unfold text_labels, decision_metadata. intros Hl.
  assert (forall v, plain (or_null v)) as Hn by (intros [v|]; constructor).
  destruct (json_get "agent_labels" _);
    unfold optional; destruct (application_id h) as [client|], (subject_anchor h) as [anchor|], (decision_reason h) as [why|];
    repeat case_bool_decide; (constructor; [by apply (bool_decide_unpack _)|reflexivity|]);
    repeat (apply Forall_cons; split); try apply Forall_nil_2; cbn; try apply Hn; try constructor;
    (eapply Forall_impl; [exact Hl|]; intros l [x ->]; constructor).
Qed.

(** What the operator's event spells. *)
Lemma enqueued_event c eventId at_ zoneId ok k h :
  text_labels h -> let e := enqueueDecisionAudit c eventId at_ zoneId ok k h in
  about e = Some k /\ verdict e = Some (verdict_name ok) /\ plane e = Some "operator" /\ named e = h.(approver_subject_id) /\ signed e.
Proof.
  intros Hl e. set (event := JObj
    [("id", JStr eventId); ("zone_id", JStr zoneId); ("event_type", JStr "step_up_decided"); ("request_id", JStr c.(req_id));
     ("decision", JStr (verdict_name ok)); ("evaluation_status", JStr "complete"); ("determining_policies_json", JArr []);
     ("diagnostics_json", JArr []); ("metadata_json", JObj (decision_metadata k h)); ("occurred_at", JStr at_)]).
  assert (plain event) as Hp.
  { constructor; [by apply (bool_decide_unpack _)|reflexivity|].
    repeat (apply Forall_cons; split); try apply Forall_nil_2; cbn; try apply decision_plain; try done; repeat constructor. }
  assert (event_of e = event) as He.
  { pose proof (parse_stringify event Hp) as Hr. unfold event_of. assert (ordered_get "data" e.(payload) = JSON_stringify event) as ->; [|by rewrite Hr].
    unfold e, enqueueDecisionAudit. fold event. by rewrite (plain_some event Hp). }
  unfold about, verdict, plane, named. rewrite He. cbn. split_and!; [done..|by destruct (approver_subject_id h)|].
  unfold signed, e, enqueueDecisionAudit. destruct hmacKey as [key|]; [|done]. cbn zeta beta iota. cbn [payload]. case_bool_decide as Hk; [by intros Hn|].
  intros _. reflexivity.
Qed.

(** An event about an open hold, with the decision it reports. *)
Lemma ruling_ok db k h e t ok approver reason (note : list string) :
  holds_ok db -> db.(holds) !! k = Some h -> undecided t h = true -> about e = Some k -> verdict e = Some (verdict_name ok) ->
  plane e = Some "subject" \/ (plane e = Some "operator" /\ named e = Some approver /\ h.(approver_class) <> subject /\ signed e) ->
  holds_ok {| holds := <[k := with_decision t ok approver reason h]> db.(holds); outbox := (db.(outbox) ++ [e])%list; notified := note |}.
Proof.
  intros [Hh Hn] Hk Hu Ha Hr Hp. apply undecided_spec in Hu as (U1 & U2 & U3 & U4). pose proof (Hh k h Hk) as Hok.
  destruct (ho_open _ _ Hok U1 U2) as [Hnone _]. split; cbn.
  - intros k' h' Hl. pose proof (events_app k' db e) as He. unfold events_about in *. cbn in *. rewrite He. apply lookup_insert_Some in Hl as [[<- <-]|[Hne Hl]].
    + rewrite Hnone, bool_decide_true by done. cbn. split; cbn.
      * rewrite U1, U2. destruct ok; auto.
      * rewrite U1, U2. by destruct ok.
      * intros _. exists e. split_and!; [done| |].
        { rewrite Hr. destruct ok; cbn; eauto. }
        { destruct Hp as [Hp|(Hp & Hnm & Hc & Hs)]; [by left|right]. rewrite Hnm. eauto 8. }
      * rewrite U1, U3. intros t' [Ht|Ht]; [|done]. destruct ok; [|done]. by injection Ht as <-.
      * rewrite U3. by intros [].
      * exact (ho_labels _ _ Hok).
    + rewrite bool_decide_false by congruence. rewrite app_nil_r. by apply Hh.
  - rewrite fmap_app. apply NoDup_app. split_and!; [done| |apply NoDup_singleton]. intros x Hx Hx'. apply list_elem_of_singleton in Hx' as ->.
    apply list_elem_of_fmap in Hx as (e' & He' & Hin). apply (elem_of_nil e'). rewrite <-Hnone. unfold events_about. apply list_elem_of_filter. split; [congruence|done].
Qed.

(** What the route answers, and when it changes anything. *)
Lemma decide_spec t c eventId occurredAt zoneId holdId ok body later db db' status reply :
  decideApproval t c eventId occurredAt zoneId holdId ok body later db = (db', (status, reply)) ->
  (status <> 200 /\ db' = db)
  \/ (status = 200 /\ exists h reason, db.(holds) !! holdId = Some h /\ decidable_hold t zoneId h = true
       /\ db' = {| holds := <[holdId := with_decision t ok (approverId c) reason h]> db.(holds);
                   outbox := (db.(outbox) ++ [enqueueDecisionAudit c eventId occurredAt zoneId ok holdId (with_decision t ok (approverId c) reason h)])%list;
                   notified := (db.(notified) ++ [holdId])%list |}).
Proof.
  unfold decideApproval. destruct (negb _); [intros [= <- <- _]; by left|]. destruct (parse_DecisionBody body) as [reason|]; [|intros [= <- <- _]; by left].
  unfold decide_tx. destruct (where_ _ _) as [h|] eqn:Hw.
  - apply where_Some in Hw as [Hh Hd]. intros [= <- <- _]. right. split; [done|]. by exists h, reason.
  - assert ((miss_reply t zoneId (later !! holdId)).1 <> 200) as Hm.
    { unfold miss_reply. destruct (later !! holdId) as [x|]; [|done]. destruct (negb _); [done|]. by destruct (_ && _). }
    intros [= <- Hr]. left. split; [|done]. rewrite Hr in Hm. exact Hm.
Qed.

Lemma consume_ok db k h t (note : list string) :
  holds_ok db -> db.(holds) !! k = Some h -> is_Some h.(satisfied_at) -> t < h.(expires_at) ->
  holds_ok {| holds := <[k := with_consumed t h]> db.(holds); outbox := db.(outbox); notified := note |}.
Proof.
  intros [Hh Hn] Hk Hs Ht. split; [|exact Hn]. cbn. intros k' h' Hl. apply lookup_insert_Some in Hl as [[<- <-]|[_ Hl]]; [|by apply Hh].
  destruct (Hh k h Hk) as [H1 H2 H3 H4 H5 H6]. split; cbn; [done| |done| |done|done].
  - intros Hn1. rewrite Hn1 in Hs. by destruct Hs.
  - intros t' [Ht'|Ht']; [apply H4; by left|]. by injection Ht' as <-.
Qed.

Lemma hold_step_ok s s' : hold_step s s' -> holds_ok s.2 -> holds_ok s'.2.
Proof.
  intros Hs Hok. destruct Hs as [| now k h db Hk Hnew Hf Hlab|now t c eventId at_ zoneId k ok body later db|now t zoneId k approver ok reason auditId data sig db Ht Hfe
    |now t zoneId k principal hash sess db|now k db]; cbn in *.
  - done.
  - destruct Hok as [Hh Hn]. split; [|exact Hn]. cbn. intros k' h' Hl. apply lookup_insert_Some in Hl as [[<- <-]|[_ Hl]]; [|by apply Hh].
    unfold fresh_hold in Hf. rewrite !andb_true_iff, !null_iff in Hf. destruct Hf as [[[F1 F2] F3] F4].
    change (hold_ok (events_about k db) h). assert (events_about k db = []) as ->.
    { unfold events_about. destruct (filter _ _) as [|e l] eqn:Hfl; [done|]. exfalso.
      assert (e ∈ filter (fun e => about e = Some k) db.(outbox)) as He by (rewrite Hfl; by left). apply list_elem_of_filter in He as [Ha Hin]. by apply (Hnew e). }
    split; rewrite ?F1, ?F2, ?F3, ?F4; auto; try done; [intros [[]|[]]; done|intros t [?|?]; done].
  - destruct (decideApproval _ _ _ _ _ _ _ _ _ _) as [db' [status reply]] eqn:Hd. cbn. destruct (decide_spec _ _ _ _ _ _ _ _ _ _ _ _ _ Hd) as [[_ ->]|(_ & h & reason & Hh & Hdec & ->)]; [done|].
    unfold decidable_hold in Hdec. rewrite !andb_true_iff in Hdec. destruct Hdec as [[_ Hc] Hu]. apply negb_true_iff, bool_decide_eq_false in Hc.
    pose proof (ho_labels _ _ (hk_hold _ Hok k h Hh)) as Hlab.
    destruct (enqueued_event c eventId at_ zoneId ok k (with_decision t ok (approverId c) reason h) Hlab) as (E1 & E2 & E3 & E4 & E5).
    apply (ruling_ok db k h); try done. right. by split_and!.
  - unfold sts_decide. destruct (where_ _ _) as [h|] eqn:Hw; [|done]. apply where_Some in Hw as [Hh Hu]. apply andb_true_iff in Hu as [_ Hu].
    destruct Hfe as [F1 F2 F3]. apply (ruling_ok db k h); [done|done|done|..]; unfold about, verdict, plane, event_of; cbn; auto.
  - unfold sts_consume. destruct (where_ _ _) as [h|] eqn:Hw; [|done]. apply where_Some in Hw as [Hh Hc]. cbn. apply consume_ok; [done..| |].
    + unfold consumable in Hc. rewrite !andb_true_iff in Hc. destruct Hc as [[[[[[[[_ _] _] Hs] _] _] _] _] _]. by destruct (satisfied_at h).
    + unfold consumable in Hc. rewrite !andb_true_iff in Hc. destruct Hc as [[_ Ht] _]. by apply Z.ltb_lt.
  - destruct Hok as [Hh Hn]. split; [|exact Hn]. cbn. intros k' h' Hl. apply lookup_delete_Some in Hl as [_ Hl]. by apply Hh.
Qed.
End routes.

Lemma no_holds_ok `{Digests} hmacKey : holds_ok hmacKey no_holds.
Proof. split; cbn; [done|constructor]. Qed.

(** C12. A human approval is decided once and spent only as approved: however operator
    decisions, decisions on the federated plane, consumption, sweeps and time interleave,
    no hold ever has two decision events, even after it is swept; an undecided hold has
    none and cannot be consumed; a decided one has exactly one, whose text states the
    verdict the hold has and the plane it was given on, and for an operator's decision
    names the approver of the row and carries the signature of that text when a key is
    configured; a hold is never both approved and rejected; approvals and consumption fall
    before the expiry, whatever is consumed was approved, and a hold reserved for the
    Subject is never decided by an operator.  The event of the federated plane is taken to
    spell its hold, verdict and plane, and the labels of a hold to be texts. *)
Theorem approval_decided_once `{Digests} hmacKey t0 now db k h :
  rtc (hold_step hmacKey) (t0, no_holds) (now, db) ->
  NoDup (about <$> db.(outbox)) /\ (db.(holds) !! k = Some h -> hold_ok hmacKey (events_about k db) h).
Proof.
  intros Hr. assert (holds_ok hmacKey db) as [Hh Hn]; [|split; [exact Hn|apply Hh]].
  change db with (now, db).2. assert (holds_ok hmacKey (t0, no_holds).2) as H0 by apply no_holds_ok. revert H0.
  induction Hr as [|s s1 s2 Hs _ IH]; [done|]. intros H0. by eapply IH, hold_step_ok.
Qed.

(** ** Filters *)

(** A filtered list and the state a row reports agree. *)
Lemma predicates_are_states s now h : STATE_PREDICATES s now h = true <-> derived_state now h = s.
Proof.
  unfold STATE_PREDICATES, derived_state. destruct (consumed_at h), (rejected_at h), (satisfied_at h); cbn;
    destruct (Z.leb_spec (expires_at h) now), (Z.ltb_spec now (expires_at h)); try lia; by destruct s.
Qed.

(** The five counts partition the holds of a zone. *)
Theorem counts_partition now zone hs :
  (counts now zone hs pending + counts now zone hs approved + counts now zone hs rejected + counts now zone hs expired + counts now zone hs consumed)%nat
  = length (filter (fun h => h.(zone_id) = zone) hs).
Proof.
  unfold counts. induction hs as [|h hs IH]; [done|]. destruct (decide (h.(zone_id) = zone)) as [Hz|Hz].
  - rewrite (filter_cons_True (fun h => h.(zone_id) = zone)) by done. cbn [length]. rewrite <-IH.
    pose proof (fun s => predicates_are_states s now h) as Hp.
    destruct (derived_state now h) eqn:Hs; repeat match goal with |- context [filter (fun x => _ /\ STATE_PREDICATES ?s now x = true) (h :: hs)] =>
      first [rewrite (filter_cons_True (fun x => x.(zone_id) = zone /\ STATE_PREDICATES s now x = true)) by (split; [done|by apply Hp])
            |rewrite (filter_cons_False (fun x => x.(zone_id) = zone /\ STATE_PREDICATES s now x = true)) by (intros [_ Hx]; by apply Hp in Hx)] end; cbn [length]; lia.
  - rewrite !filter_cons_False by (done || by intros [? _]). exact IH.
Qed.
End Approvals.

(** * Delegated grants *)

Module Grants.

Definition SESSION_REVOKE_BATCH : nat := 1000.
Definition ScopeMaxLen : nat := 200.

(** [ScopePattern]. *)
Definition scope_ok (s : string) : bool :=
  (1 <=? js_length s)%nat && (js_length s <=? ScopeMaxLen)%nat && all_chars (fun c => is_lower c || is_digit c || one_of ":_./-" c) s.

Record GrantBody := { application_id : string; user_id : string; resource_id : string; scopes : list string }.

Definition nonempty_text (v : json) : option string := match v with JStr s => if bool_decide (s = "") then None else Some s | _ => None end.

Definition parse_scopes (v : json) : option (list string) :=
  match v with
  | JArr vs =>
      if (1 <=? length vs)%nat && (length vs <=? 64)%nat
      then mapM (fun v => match v with JStr s => if scope_ok s then Some s else None | _ => None end) vs
      else None
  | _ => None
  end.

Definition parse_GrantBody (body : json) : option GrantBody :=
  match body with
  | JObj _ =>
      match nonempty_text (json_get "application_id" body), nonempty_text (json_get "user_id" body), nonempty_text (json_get "resource_id" body),
            parse_scopes (json_get "scopes" body) with
      | Some a, Some u, Some r, Some ss => Some {| application_id := a; user_id := u; resource_id := r; scopes := ss |}
      | _, _, _, _ => None
      end
  | _ => None
  end.

Inductive GrantStatus := active_grant | revoked_grant | expired_grant.

#[export] Instance GrantStatus_eq_dec : EqDecision GrantStatus.
Proof. solve_decision. Defined.

(** The stamp of a mutation. *)
Record Attribution := { stamp_actor : string; viaOperator : bool }.

Record Grant := {
  g_zone : string;
  g_body : GrantBody;
  g_status : GrantStatus;
  created : Attribution;
  updated : option Attribution
}.

Record Application := { a_zone : string; a_expires_at : option Z; a_archived : bool }.
Record Resource := { r_zone : string; identifier : string; r_scopes : list string; r_archived : bool }.

Inductive RecordStatus := active | revoked (at_ : Z) (reason : string) | expired.

#[export] Instance RecordStatus_eq_dec : EqDecision RecordStatus.
Proof. solve_decision. Defined.

Record AuthorityRecord := { t_zone : string; subject_id : option string; status : RecordStatus; created_at : Z }.

(** An event of the revocation stream. *)
Record RevokeEvent := { v_zone : string; session_id : string; v_reason : string; grant_id : string; v_request : string }.

Record GrantsDb := {
  zones : list string;
  applications : gmap string Application;
  resources : gmap string Resource;
  grants : gmap string Grant;
  records : gmap string AuthorityRecord;
  events : list RevokeEvent
}.

Inductive CreateGrantError := application_not_found | resource_not_found | grant_scopes_exceed_resource | control_resource_not_grantable.

Definition error_name (e : CreateGrantError) : string :=
  match e with
  | application_not_found => "application_not_found"
  | resource_not_found => "resource_not_found"
  | grant_scopes_exceed_resource => "grant_scopes_exceed_resource"
  | control_resource_not_grantable => "control_resource_not_grantable"
  end.

Definition application_live (now : Z) (zone : string) (a : Application) : bool :=
  bool_decide (a.(a_zone) = zone) && negb a.(a_archived) && match a.(a_expires_at) with Some t => now <? t | None => true end.

Definition find_resource (zone id : string) (db : GrantsDb) : option Resource :=
  match db.(resources) !! id with
  | Some r => if bool_decide (r.(r_zone) = zone) && negb r.(r_archived) then Some r else None
  | None => None
  end.

(** What the references of a grant allow. *)
Definition check_grant (now : Z) (audience zone : string) (b : GrantBody) (db : GrantsDb) : option CreateGrantError :=
  if negb (match db.(applications) !! b.(application_id) with Some a => application_live now zone a | None => false end) then Some application_not_found
  else match find_resource zone b.(resource_id) db with
  | None => Some resource_not_found
  | Some r =>
      if bool_decide (r.(identifier) = audience) then Some control_resource_not_grantable
      else if negb (scopesAllowed b.(scopes) r.(r_scopes)) then Some grant_scopes_exceed_resource
      else None
  end.

Definition put_grant (id : string) (g : Grant) (db : GrantsDb) : GrantsDb :=
  {| zones := db.(zones); applications := db.(applications); resources := db.(resources); grants := <[id := g]> db.(grants); records := db.(records); events := db.(events) |}.

(** The references are read from [read], then the row is inserted. *)
Definition createDelegatedGrant (now : Z) (audience zone newId : string) (b : GrantBody) (stamp : Attribution) (read db : GrantsDb) : GrantsDb * (CreateGrantError + Grant) :=
  match check_grant now audience zone b read with
  | Some e => (db, inl e)
  | None => let g := {| g_zone := zone; g_body := b; g_status := active_grant; created := stamp; updated := None |} in (put_grant newId g db, inr g)
  end.

Definition error_reply (status : Z) (code : string) : Z * json := (status, JObj [("error", JStr code)]).

(** [POST /grants]; the body of a success is the row. *)
Definition postGrant (now : Z) (audience zone newId : string) (body : json) (stamp : Attribution) (read db : GrantsDb) : GrantsDb * (Z * string) :=
  if negb (Approvals.idShape zone) then (db, (400, "invalid_params"))
  else if negb (bool_decide (zone ∈ read.(zones))) then (db, (404, "zone_not_found"))
  else match parse_GrantBody body with
  | None => (db, (400, "invalid_body"))
  | Some b =>
      match createDelegatedGrant now audience zone newId b stamp read db with
      | (db', inr _) => (db', (201, ""))
      | (db', inl e) => (db', (match e with application_not_found | resource_not_found => 404 | _ => 403 end, error_name e))
      end
  end.

(** ** Revocation *)

Definition affected (zone user : string) (a : AuthorityRecord) : bool :=
  bool_decide (a.(t_zone) = zone) && bool_decide (a.(status) = active) && bool_decide (a.(subject_id) = Some user).

Definition older (a b : string * AuthorityRecord) : Prop := a.2.(created_at) <= b.2.(created_at).

#[export] Instance older_dec a b : Decision (older a b).
Proof. unfold older. apply _. Defined.

Definition affected_list (zone user : string) (rs : gmap string AuthorityRecord) : list (string * AuthorityRecord) :=
  filter (fun kr => affected zone user kr.2 = true) (map_to_list rs).

(** The records one pass takes: the oldest that nobody else holds. *)
Definition revoke_batch (zone user : string) (locked : list string) (rs : gmap string AuthorityRecord) : list string :=
  take SESSION_REVOKE_BATCH (filter (fun k => k ∉ locked) (merge_sort older (affected_list zone user rs)).*1).

Definition revoke_record (t : Z) (a : AuthorityRecord) : AuthorityRecord :=
  {| t_zone := a.(t_zone); subject_id := a.(subject_id); status := revoked t "grant_revoked"; created_at := a.(created_at) |}.

Definition revoke_records (t : Z) (ids : list string) (rs : gmap string AuthorityRecord) : gmap string AuthorityRecord :=
  foldr (fun k rs => alter (revoke_record t) k rs) rs ids.

Definition revoke_event (zone grantId requestId k : string) : RevokeEvent :=
  {| v_zone := zone; session_id := k; v_reason := "grant_revoked"; grant_id := grantId; v_request := requestId |}.

(** What others commit to the records between two statements: rows the transaction has
    written stay locked until it ends. *)
Definition committed (mine : list string) (changes : gmap string (option AuthorityRecord)) (rs : gmap string AuthorityRecord) : gmap string AuthorityRecord :=
  merge (fun c r => match c with Some row => row | None => r end) (filter (fun kc => kc.1 ∉ mine) changes) rs.

(** What the pages of a revocation have done. *)
Record Paged := { last_page : nat; table : gmap string AuthorityRecord; taken : list string; announced : list RevokeEvent }.

(** The pages of a revocation: before each, others commit [changes] to the records, and at
    each they hold those [locked].  [None] is a loop that did not end within the passes
    given. *)
Fixpoint revoke_pages (passes pass : nat) (t : Z) (zone user grantId requestId : string) (changes : nat -> gmap string (option AuthorityRecord))
    (locked : nat -> list string) (mine : list string) (rs : gmap string AuthorityRecord) (evs : list RevokeEvent) : option Paged :=
  match passes with
  | O => None
  | S passes =>
      let seen := committed mine (changes pass) rs in
      let ids := revoke_batch zone user (locked pass) seen in
      let rs' := revoke_records t ids seen in
      let evs' := (evs ++ (revoke_event zone grantId requestId <$> ids))%list in
      let mine' := (mine ++ ids)%list in
      if (length ids <? SESSION_REVOKE_BATCH)%nat then Some {| last_page := pass; table := rs'; taken := mine'; announced := evs' |}
      else revoke_pages passes (S pass) t zone user grantId requestId changes locked mine' rs' evs'
  end.

Definition with_revoked (stamp : Attribution) (g : Grant) : Grant :=
  {| g_zone := g.(g_zone); g_body := g.(g_body); g_status := revoked_grant; created := g.(created); updated := Some stamp |}.

(** The database when the transaction has committed: the tables it leaves alone are those
    of that time. *)
Definition after_delete (grantId : string) (stamp : Attribution) (g : Grant) (p : Paged) (then_ : GrantsDb) : GrantsDb :=
  {| zones := then_.(zones); applications := then_.(applications); resources := then_.(resources);
     grants := <[grantId := with_revoked stamp g]> then_.(grants); records := p.(table); events := (then_.(events) ++ p.(announced))%list |}.

(** [DELETE /grants/:id], in one attempt of its transaction: the answer handed to the caller
    and how the transaction ends.  The answer is sent before the commit, which may fail
    with the code [commit]. *)
Definition deleteGrant (passes : nat) (t : Z) (zone grantId requestId : string) (stamp : Attribution) (changes : nat -> gmap string (option AuthorityRecord))
    (locked : nat -> list string) (commit : option string) (then_ db : GrantsDb) : option ((Z * string) * ApiTx.Ending GrantsDb unit) :=
  if negb (Approvals.idShape zone && Approvals.idShape grantId) then Some ((400, "invalid_params"), ApiTx.TxAbort tt)
  else match db.(grants) !! grantId with
  | Some g =>
      if bool_decide (g.(g_zone) = zone) then
        match revoke_pages passes 0 t zone g.(g_body).(user_id) grantId requestId changes locked [] db.(records) [] with
        | Some p => Some ((204, ""), match commit with None => ApiTx.Commits (after_delete grantId stamp g p then_) tt | Some code => ApiTx.Fails code end)
        | None => None
        end
      else Some ((404, "grant_not_found"), ApiTx.TxAbort tt)
  | None => Some ((404, "grant_not_found"), ApiTx.TxAbort tt)
  end.

(** ** What a revocation does *)

Lemma revoke_records_lookup t ids rs k : revoke_records t ids rs !! k = (if bool_decide (k ∈ ids) then revoke_record t <$> rs !! k else rs !! k).
Proof.
  induction ids as [|x ids IH]; [done|]. cbn [revoke_records foldr]. fold (revoke_records t ids rs). destruct (decide (x = k)) as [->|Hne].
  - rewrite lookup_alter_eq, IH, (bool_decide_true (k ∈ k :: ids)) by (by left). case_bool_decide; [|done]. by destruct (rs !! k).
  - rewrite lookup_alter_ne, IH by done. 
    destruct (decide (k ∈ ids)); [rewrite !bool_decide_true by (done || by right); done|].
    rewrite !bool_decide_false; [done| |done]. intros [?|?]%elem_of_cons; congruence.
Qed.

Lemma committed_lookup mine changes rs k :
  committed mine changes rs !! k = if bool_decide (k ∈ mine) then rs !! k else from_option (fun row => row) (rs !! k) (changes !! k).
Proof.
  unfold committed. rewrite lookup_merge. case_bool_decide as Hk.
  - rewrite (map_lookup_filter_None_2 _ changes) by (right; intros ? _; auto). by destruct (rs !! k).
  - destruct (changes !! k) as [row|] eqn:Hc.
    + rewrite (map_lookup_filter_Some_2 _ changes k row) by done. by destruct (rs !! k).
    + rewrite (map_lookup_filter_None_2 _ changes) by auto. by destruct (rs !! k).
Qed.

Lemma affected_keys zone user rs k : k ∈ (affected_list zone user rs).*1 <-> exists a, rs !! k = Some a /\ affected zone user a = true.
Proof.
  unfold affected_list. rewrite list_elem_of_fmap. split.
  - intros ([k' a] & -> & Hin). apply list_elem_of_filter in Hin as [Ha Hin]. exists a. split; [by apply elem_of_map_to_list in Hin|done].
  - intros (a & Hk & Ha). exists (k, a). split; [done|]. apply list_elem_of_filter. split; [done|by apply elem_of_map_to_list].
Qed.

Lemma affected_nodup zone user rs : NoDup (affected_list zone user rs).*1.
Proof. unfold affected_list. apply (sublist_NoDup _ (map_to_list rs).*1); [apply NoDup_fst_map_to_list|]. apply fmap_sublist, sublist_filter. Qed.

Lemma batch_spec zone user locked rs :
  NoDup (revoke_batch zone user locked rs)
  /\ (forall k, k ∈ revoke_batch zone user locked rs -> k ∉ locked /\ exists a, rs !! k = Some a /\ affected zone user a = true)
  /\ ((length (revoke_batch zone user locked rs) < SESSION_REVOKE_BATCH)%nat -> forall k a, rs !! k = Some a -> affected zone user a = true -> k ∉ locked ->
      k ∈ revoke_batch zone user locked rs).
Proof.
  unfold revoke_batch. assert (NoDup (merge_sort older (affected_list zone user rs)).*1) as Hnd by (rewrite merge_sort_Permutation; apply affected_nodup). split_and!.
  - eapply sublist_NoDup; [exact Hnd|]. etrans; [apply sublist_take|apply sublist_filter].
  - intros k Hk. eapply elem_of_sublist in Hk; [|apply sublist_take]. apply list_elem_of_filter in Hk as [Hl Hk]. rewrite merge_sort_Permutation in Hk.
    split; [done|]. by apply affected_keys.
  - intros Hlen k a Hk Ha Hl. rewrite length_take in Hlen. rewrite take_ge by lia. apply list_elem_of_filter. split; [done|]. rewrite merge_sort_Permutation.
    apply affected_keys. by exists a.
Qed.

(** Revoked records no longer count. *)
Lemma affected_after zone user t ids rs k a :
  revoke_records t ids rs !! k = Some a -> affected zone user a = true -> k ∉ ids /\ rs !! k = Some a.
Proof.
  rewrite revoke_records_lookup. case_bool_decide as Hin; [|done]. destruct (rs !! k) as [x|]; [|done]. cbn. intros [= <-].
  unfold affected. cbn. by rewrite andb_false_r.
Qed.

Lemma fewer_left zone user t locked rs :
  (length (affected_list zone user (revoke_records t (revoke_batch zone user locked rs) rs)) + length (revoke_batch zone user locked rs)
   <= length (affected_list zone user rs))%nat.
Proof.
  destruct (batch_spec zone user locked rs) as (Hnd & Hin & _). set (ids := revoke_batch zone user locked rs) in *.
  rewrite <-(length_fmap fst (affected_list zone user (revoke_records t ids rs))), <-(length_fmap fst (affected_list zone user rs)), <-length_app.
  apply submseteq_length, NoDup_submseteq.
  - apply NoDup_app. split_and!; [apply affected_nodup| |done]. intros k Hk Hid. apply affected_keys in Hk as (a & Hk & Ha). by destruct (affected_after _ _ _ _ _ _ _ Hk Ha).
  - intros k [Hk|Hk]%elem_of_app; apply affected_keys; [|by apply Hin]. apply affected_keys in Hk as (a & Hk & Ha). exists a. split; [by eapply affected_after|done].
Qed.

Lemma more_seen zone user mine changes rs :
  (length (affected_list zone user (committed mine changes rs)) <= length (affected_list zone user rs) + size changes)%nat.
Proof.
  rewrite <-length_map_to_list, <-(length_fmap fst (map_to_list changes)), <-(length_fmap fst (affected_list zone user rs)), <-length_app,
    <-(length_fmap fst (affected_list zone user (committed mine changes rs))).
  apply submseteq_length, NoDup_submseteq; [apply affected_nodup|]. intros k Hk. apply affected_keys in Hk as (a & Hk & Ha). rewrite committed_lookup in Hk.
  apply elem_of_app. assert (rs !! k = Some a \/ changes !! k = Some (Some a)) as [Hr|Hc].
  { case_bool_decide; [by left|]. destruct (changes !! k) as [row|]; cbn in Hk; [right; congruence|by left]. }
  - left. apply affected_keys. eauto.
  - right. apply list_elem_of_fmap. exists (k, Some a). split; [done|]. by apply elem_of_map_to_list.
Qed.

(** The rows others have changed by a page. *)
Fixpoint changed (changes : nat -> gmap string (option AuthorityRecord)) (pass passes : nat) : nat :=
  match passes with O => O | S passes => size (changes pass) + changed changes (S pass) passes end.

(** The pages end, unless others keep making records of the user active. *)
Lemma pages_end passes pass t zone user grantId requestId changes locked mine rs evs :
  (length (affected_list zone user rs) + changed changes pass passes < passes)%nat ->
  is_Some (revoke_pages passes pass t zone user grantId requestId changes locked mine rs evs).
Proof.
  revert pass mine rs evs. induction passes as [|passes IH]; intros pass mine rs evs Hlen; [lia|]. cbn [revoke_pages]. cbn zeta.
  destruct (Nat.ltb_spec (length (revoke_batch zone user (locked pass) (committed mine (changes pass) rs))) SESSION_REVOKE_BATCH) as [|Hfull]; [by eexists|].
  apply IH. pose proof (fewer_left zone user t (locked pass) (committed mine (changes pass) rs)) as Hf. pose proof (more_seen zone user mine (changes pass) rs) as Hm.
  cbn [changed] in Hlen. unfold SESSION_REVOKE_BATCH in Hfull. lia.
Qed.

(** What pages from [pass] on leave, given that the rows already [mine] are not affected:
    each record taken was active and the user's, is revoked and is announced once; the
    others are as their own transactions left them; and those of the user still active
    were held by others at the last page. *)
Record pages_ok (pass : nat) (t : Z) (zone user grantId requestId : string) (changes : nat -> gmap string (option AuthorityRecord)) (locked : nat -> list string)
    (mine : list string) (rs : gmap string AuthorityRecord) (evs : list RevokeEvent) (ids : list string) (p : Paged) : Prop := {
  po_taken : p.(taken) = (mine ++ ids)%list;
  po_announced : p.(announced) = (evs ++ (revoke_event zone grantId requestId <$> ids))%list;
  po_once : NoDup ids /\ forall k, k ∈ ids -> k ∉ mine;
  po_later : (pass <= p.(last_page))%nat;
  po_revoked : forall k, k ∈ ids -> exists a, affected zone user a = true /\ p.(table) !! k = Some (revoke_record t a);
  po_mine : forall k, k ∈ mine -> p.(table) !! k = rs !! k;
  po_others : forall k, k ∉ mine -> k ∉ ids ->
    p.(table) !! k = foldl (fun row n => from_option (fun row => row) row (changes n !! k)) (rs !! k) (seq pass (S p.(last_page) - pass));
  po_left : forall k a, p.(table) !! k = Some a -> affected zone user a = true -> k ∈ locked p.(last_page)
}.

Lemma pages_spec passes pass t zone user grantId requestId changes locked mine rs evs p :
  (forall k a, k ∈ mine -> rs !! k = Some a -> affected zone user a = false) ->
  revoke_pages passes pass t zone user grantId requestId changes locked mine rs evs = Some p ->
  exists ids, pages_ok pass t zone user grantId requestId changes locked mine rs evs ids p.
Proof.
  revert pass mine rs evs. induction passes as [|passes IH]; intros pass mine rs evs Hmine; [done|]. cbn [revoke_pages]. cbn zeta.
  pose proof (committed_lookup mine (changes pass) rs) as Hseen. set (seen := committed mine (changes pass) rs) in *.
  destruct (batch_spec zone user (locked pass) seen) as (Hnd & Hin & Hall). set (ids := revoke_batch zone user (locked pass) seen) in *. clearbody ids seen.
  assert (forall k, k ∈ ids -> k ∉ mine) as Hnew.
  { intros k Hk Hm. destruct (Hin k Hk) as (_ & a & Ha & Haff). rewrite Hseen, bool_decide_true in Ha by done. by rewrite (Hmine k a Hm Ha) in Haff. }
  destruct (Nat.ltb_spec (length ids) SESSION_REVOKE_BATCH) as [Hshort|Hfull].
  - intros [= <-]. exists ids. split; cbn [table taken announced last_page]; [done|done|done|done| | | |].
    + intros k Hk. destruct (Hin k Hk) as (_ & a & Ha & Haff). exists a. split; [done|]. rewrite revoke_records_lookup, bool_decide_true by done. by rewrite Ha.
    + intros k Hk. rewrite revoke_records_lookup, bool_decide_false by (by intros ?%Hnew). by rewrite Hseen, bool_decide_true.
    + intros k Hm Hk. rewrite revoke_records_lookup, bool_decide_false, Hseen, bool_decide_false by done. by replace (S pass - pass)%nat with 1%nat by lia.
    + intros k a Hk Haff. destruct (affected_after _ _ _ _ _ _ _ Hk Haff) as [Hni Ha]. destruct (decide (k ∈ locked pass)) as [|Hl]; [done|]. by destruct Hni; eapply Hall.
  - intros Hp. destruct (IH (S pass) (mine ++ ids)%list (revoke_records t ids seen) (evs ++ (revoke_event zone grantId requestId <$> ids))%list)
      as (ids' & [P1 P2 [P3 P3'] P4 P5 P6 P7 P8]); [|done|].
    { intros k a Hk Ha. destruct (affected zone user a) eqn:Haff; [|done]. destruct (affected_after _ _ _ _ _ _ _ Ha Haff) as [Hni Ha']. exfalso.
      apply elem_of_app in Hk as [Hk|Hk]; [|done]. rewrite Hseen, bool_decide_true in Ha' by done. by rewrite (Hmine k a Hk Ha') in Haff. }
    exists (ids ++ ids')%list. split.
    + by rewrite P1, app_assoc.
    + by rewrite P2, fmap_app, app_assoc.
    + split; [|intros k [Hk|Hk%P3']%elem_of_app; [auto|set_solver]]. apply NoDup_app. split_and!; [done| |done]. intros k Hk Hk'%P3'. set_solver.
    + lia.
    + intros k [Hk|Hk]%elem_of_app; [|auto]. destruct (Hin k Hk) as (_ & a & Ha & Haff). exists a. split; [done|].
      rewrite P6 by set_solver. rewrite revoke_records_lookup, bool_decide_true by done. by rewrite Ha.
    + intros k Hk. rewrite P6 by set_solver. rewrite revoke_records_lookup, bool_decide_false by (by intros ?%Hnew). by rewrite Hseen, bool_decide_true.
    + intros k Hm Hk. rewrite P7 by set_solver. rewrite revoke_records_lookup, bool_decide_false, Hseen, bool_decide_false by set_solver.
      by replace (S (last_page p) - pass)%nat with (S (S (last_page p) - S pass)) by lia.
    + done.
Qed.

(** C32. Revoking a grant, while others commit what they will to the authority records
    between its pages and hold what they will: the pages end after more passes than there
    are active records of the user, counting every row the others change meanwhile; a
    refusal changes nothing.  Otherwise the caller is answered before the commit, and when
    it succeeds the grant of the zone is marked revoked; the records revoked were active
    and of the user in the zone, each is announced once under this grant, every other
    record is as the others left it, and the records of the user still active then are
    among those the others held at the last page.  When the commit fails the caller was
    told of a revocation that is not there. *)
Theorem grant_revocation passes t zone grantId requestId stamp changes locked commit then_ db :
  match deleteGrant passes t zone grantId requestId stamp changes locked commit then_ db with
  | None => exists g, db.(grants) !! grantId = Some g
      /\ (passes <= length (affected_list zone g.(g_body).(user_id) db.(records)) + changed changes 0 passes)%nat
  | Some (reply, ending) =>
      (ending = ApiTx.TxAbort tt /\ (reply.1 = 400 \/ reply.1 = 404))
      \/ (reply = (204, "") /\ exists g ids p, db.(grants) !! grantId = Some g /\ g.(g_zone) = zone
           /\ pages_ok 0 t zone g.(g_body).(user_id) grantId requestId changes locked [] db.(records) [] ids p
           /\ match commit with
              | None => ending = ApiTx.Commits (after_delete grantId stamp g p then_) tt
              | Some code => ending = ApiTx.Fails code
              end)
  end.
Proof.
  unfold deleteGrant. destruct (negb _); [left; auto|]. destruct (db.(grants) !! grantId) as [g|] eqn:Hg; [|left; auto].
  case_bool_decide as Hz; [|left; auto]. destruct (revoke_pages _ _ _ _ _ _ _ _ _ _ _ _) as [p|] eqn:Hp.
  - right. split; [done|]. destruct (pages_spec _ _ _ _ _ _ _ _ _ _ _ _ _ ltac:(intros k a Hk; by apply elem_of_nil in Hk) Hp) as [ids Hok].
    exists g, ids, p. split_and!; [done|done|done|by destruct commit].
  - exists g. split; [done|]. destruct (decide (passes <= length (affected_list zone g.(g_body).(user_id) db.(records)) + changed changes 0 passes)%nat) as [|Hn]; [done|].
    destruct (pages_end passes 0 t zone g.(g_body).(user_id) grantId requestId changes locked [] db.(records) []) as [p Hp']; [lia|congruence].
Qed.

(** A grant is created only on a live application, within the scopes of a live resource of
    the zone that is not the control resource. *)
Theorem grants_bounded now audience zone newId b stamp read db db' g :
  createDelegatedGrant now audience zone newId b stamp read db = (db', inr g) ->
  db' = put_grant newId g db /\ g.(g_status) = active_grant /\ g.(g_zone) = zone /\ g.(g_body) = b
  /\ (exists a, read.(applications) !! b.(application_id) = Some a /\ application_live now zone a = true)
  /\ exists r, read.(resources) !! b.(resource_id) = Some r /\ r.(r_zone) = zone /\ r.(r_archived) = false /\ r.(identifier) <> audience /\ b.(scopes) ⊆ r.(r_scopes).
Proof.
  unfold createDelegatedGrant, check_grant, find_resource. destruct (read.(applications) !! _) as [a|] eqn:Ha; [|done].
  destruct (application_live now zone a) eqn:Hl; [|done]. cbn [negb]. destruct (read.(resources) !! _) as [r|] eqn:Hr; [|done].
  destruct (bool_decide (r_zone r = zone) && negb (r_archived r)) eqn:Hz; [|done]. apply andb_true_iff in Hz as [Hz Hv].
  destruct (bool_decide (identifier r = audience)) eqn:Haud; [done|]. apply bool_decide_eq_false in Haud. destruct (scopesAllowed _ _) eqn:Hs; [|done]. intros [= <- <-]. split_and!; try done; [by exists a|].
  exists r. split_and!; try done; [by apply bool_decide_eq_true in Hz|by apply negb_true_iff|by apply scopesAllowed_spec].
Qed.
End Grants.
