(* ===== verification/Rego.v ===== *)
(** * Policy documents

    [apps/api/src/rego.ts]: the syntactic validator of Rego policies, with the regular
    expressions it uses.  [Regex] models JavaScript's backtracking matcher and shows that
    it decides the relation its expressions describe; [Rego] is the validator. *)

From Stdlib Require Import Ascii.
From Stdlib Require String.
From S2P Require Import Prelude.
From S2P Require Import Scope.
From S2P Require Import Json.
From S2P Require Import Text.
Local Open Scope string_scope.
Local Open Scope nat_scope.

(** * Regular expressions *)

Module Regex.

(** The character before the position, if any, and the text after it. *)
Definition cursor : Type := option ascii * string.

Fixpoint advance (n : nat) (before : option ascii) (s : string) : cursor :=
  match n, s with
  | S n, String.String c s' => advance n (Some c) s'
  | _, _ => (before, s)
  end.

(** [Item f] takes the [f rest] bytes of one character, none when it does not match;
    [LineStart] and [LineEnd] are [^] and [$] without the [m] flag. *)
Inductive re :=
| Empty
| Item (f : string -> nat)
| Seq (a b : re)
| Alt (a b : re)
| Many (greedy : bool) (a : re)
| Capture (n : nat) (a : re)
| LineStart
| LineEnd
| WordBoundary.

Definition captures : Type := list (nat * string).

Definition is_word (c : ascii) : bool := is_alnum c || one_of "_" c.

Definition at_boundary (c : cursor) : bool :=
  let after := match c.2 with String.EmptyString => false | String.String a _ => is_word a end in
  let before := match c.1 with Some a => is_word a | None => false end in
  xorb before after.

Definition orElse {A : Type} (x y : option A) : option A := match x with Some _ => x | None => y end.

(** The text between two positions. *)
Definition between (a b : cursor) : string := take_bytes (String.length a.2 - String.length b.2) a.2.

Section matcher.
Context {R : Type}.

(** The repetition of [once]: an iteration that takes nothing fails. *)
Fixpoint loop (greedy : bool) (once : cursor -> captures -> (cursor -> captures -> option R) -> option R)
    (k : cursor -> captures -> option R) (fuel : nat) (c : cursor) (caps : captures) : option R :=
  match fuel with
  | O => None
  | S fuel =>
      let more := once c caps (fun c' caps' =>
                    if String.length c'.2 <? String.length c.2 then loop greedy once k fuel c' caps' else None) in
      let stop := k c caps in
      if greedy then orElse more stop else orElse stop more
  end.

(** The matcher, with what is left to match as its continuation. *)
Fixpoint run (r : re) (c : cursor) (caps : captures) (k : cursor -> captures -> option R) : option R :=
  match r with
  | Empty => k c caps
  | Item f =>
      match f c.2 with
      | O => None
      | n => if n <=? String.length c.2 then k (advance n c.1 c.2) caps else None
      end
  | Seq a b => run a c caps (fun c' caps' => run b c' caps' k)
  | Alt a b => orElse (run a c caps k) (run b c caps k)
  | Many greedy a => loop greedy (run a) k (S (String.length c.2)) c caps
  | Capture n a => run a c caps (fun c' caps' => k c' ((n, between c c') :: caps'))
  | LineStart => match c.1 with None => k c caps | Some _ => None end
  | LineEnd => match c.2 with String.EmptyString => k c caps | _ => None end
  | WordBoundary => if at_boundary c then k c caps else None
  end.

End matcher.

(** Match at a position: where it ends and what was captured. *)
Definition match_at (r : re) (c : cursor) : option (cursor * captures) := run r c [] (fun c' caps => Some (c', caps)).

(** [text.matchAll(r)] from a position, passing over [skip] characters that the last match
    took. *)
Fixpoint find_all (r : re) (before : option ascii) (s : string) (skip : nat) : list captures :=
  let here := match skip with O => match_at r (before, s) | S _ => None end in
  let hit := match here with Some (_, caps) => [caps] | None => [] end in
  match s with
  | String.EmptyString => hit
  | String.String a s' =>
      let skip' := match here with
                   | Some (c', _) => String.length s - String.length c'.2 - 1
                   | None => skip - 1
                   end in
      (hit ++ find_all r (Some a) s' skip')%list
  end.

Definition matchAll (r : re) (s : string) : list captures := find_all r None s 0.

(** [r.exec(text)]: the leftmost match from a position on. *)
Fixpoint find (r : re) (before : option ascii) (s : string) : option captures :=
  match match_at r (before, s) with
  | Some (_, caps) => Some caps
  | None => match s with String.EmptyString => None | String.String a s' => find r (Some a) s' end
  end.

Definition exec (r : re) (s : string) : option captures := find r None s.
Definition test (r : re) (s : string) : bool := match exec r s with Some _ => true | None => false end.

(** [m[n]]. *)
Fixpoint group (n : nat) (caps : captures) : option string :=
  match caps with
  | [] => None
  | (i, s) :: caps => if i =? n then Some s else group n caps
  end.

(** *** The notation of expressions *)

Definition class (p : ascii -> bool) : re :=
  Item (fun s => match s with String.EmptyString => 0 | String.String c _ => if p c then 1 else 0 end).

Definition lit (c : ascii) : re := class (fun d => bool_decide (d = c)).

Fixpoint word (s : string) : re :=
  match s with String.EmptyString => Empty | String.String c s' => Seq (lit c) (word s') end.

(** [\s]. *)
Definition space : re := Item ws_bytes.

(** [.]: one byte that does not begin a line terminator (LF, CR, U+2028, U+2029). *)
Definition dot_bytes (s : string) : nat :=
  match s with
  | String.EmptyString => 0
  | String.String a r =>
      let n := nat_of_ascii a in
      if (n =? 10) || (n =? 13) then 0
      else match r with
           | String.String b (String.String c _) =>
               if (n =? 226) && (nat_of_ascii b =? 128) && ((nat_of_ascii c =? 168) || (nat_of_ascii c =? 169)) then 0 else 1
           | _ => 1
           end
  end.

Definition dot : re := Item dot_bytes.
Definition star (r : re) : re := Many true r.
Definition plus (r : re) : re := Seq r (star r).
Definition opt (r : re) : re := Alt r Empty.
Definition seqs (rs : list re) : re := foldr Seq Empty rs.
Definition alts (rs : list re) (last : re) : re := foldr Alt last rs.

(** *** What the expressions describe *)

(** [r] matches the text from the first position to the second. *)
Inductive matches : re -> cursor -> cursor -> Prop :=
| MEmpty c : matches Empty c c
| MItem f c n : f c.2 = S n -> S n <= String.length c.2 -> matches (Item f) c (advance (S n) c.1 c.2)
| MSeq a b c c1 c2 : matches a c c1 -> matches b c1 c2 -> matches (Seq a b) c c2
| MAltL a b c c' : matches a c c' -> matches (Alt a b) c c'
| MAltR a b c c' : matches b c c' -> matches (Alt a b) c c'
| MStop greedy a c : matches (Many greedy a) c c
| MMore greedy a c c1 c2 :
    matches a c c1 -> String.length c1.2 < String.length c.2 -> matches (Many greedy a) c1 c2 -> matches (Many greedy a) c c2
| MCapture n a c c' : matches a c c' -> matches (Capture n a) c c'
| MStart s : matches LineStart (None, s) (None, s)
| MEnd before : matches LineEnd (before, "") (before, "")
| MBoundary c : at_boundary c = true -> matches WordBoundary c c.

#[local] Hint Constructors matches : core.

Lemma orElse_Some {A : Type} (x y : option A) z : orElse x y = Some z -> x = Some z \/ y = Some z.
Proof. destruct x; cbn; auto. Qed.

Lemma orElse_is_Some {A : Type} (x y : option A) : is_Some x \/ is_Some y -> is_Some (orElse x y).
Proof. intros [[? ->]|[? ->]]; [by eexists|]. destruct x; by eexists. Qed.

Lemma loop_sound {R : Type} greedy a (k : cursor -> captures -> option R) fuel c caps x :
  (forall c caps k x, run (R:=R) a c caps k = Some x -> exists c' caps', matches a c c' /\ k c' caps' = Some x) ->
  loop greedy (run a) k fuel c caps = Some x -> exists c' caps', matches (Many greedy a) c c' /\ k c' caps' = Some x.
Proof.
  intros IH. revert c caps. induction fuel as [|fuel IHf]; intros c caps Hl; [done|]. cbn [loop] in Hl.
  set (more := run a c caps _) in Hl.
  assert (Hx : more = Some x \/ k c caps = Some x) by (destruct greedy; apply orElse_Some in Hl as [?|?]; auto).
  destruct Hx as [Hx|Hx]; [|eauto].
  apply IH in Hx as (c1 & caps1 & H1 & H2).
  destruct (String.length c1.2 <? String.length c.2) eqn:E; [|done]. apply Nat.ltb_lt in E.
  apply IHf in H2 as (c2 & caps2 & ? & ?). eauto.
Qed.

Lemma run_matches {R : Type} r c caps (k : cursor -> captures -> option R) x :
  run r c caps k = Some x -> exists c' caps', matches r c c' /\ k c' caps' = Some x.
Proof.
  revert c caps k x. induction r as [|f|a IHa b IHb|a IHa b IHb|greedy a IHa|n a IHa| | |]; intros c caps k x Hr.
  - eauto.
  - cbn [run] in Hr. destruct (f c.2) as [|n] eqn:E; [done|].
    destruct (S n <=? String.length c.2) eqn:El; [|done]. apply Nat.leb_le in El. eauto.
  - apply IHa in Hr as (c1 & caps1 & ? & Hr). apply IHb in Hr as (c2 & caps2 & ? & ?). eauto.
  - apply orElse_Some in Hr as [Hr|Hr]; [apply IHa in Hr|apply IHb in Hr]; destruct Hr as (c1 & caps1 & ? & ?); eauto.
  - eapply loop_sound; eauto.
  - apply IHa in Hr as (c1 & caps1 & ? & ?). eauto.
  - destruct c as [[?|] s]; [done|]. exists (None, s), caps. split; [constructor|done].
  - destruct c as [b [|? ?]]; [|done]. exists (b, ""), caps. split; [constructor|done].
  - cbn [run] in Hr. destruct (at_boundary c) eqn:?; [|done]. eauto.
Qed.

(** Fuel for every character and one more is enough. *)
Lemma loop_complete {R : Type} greedy a (k : cursor -> captures -> option R) c c' :
  (forall c c' k caps, matches a c c' -> (forall caps', is_Some (k c' caps')) -> is_Some (run (R:=R) a c caps k)) ->
  matches (Many greedy a) c c' -> (forall caps', is_Some (k c' caps')) ->
  forall fuel caps, String.length c.2 < fuel -> is_Some (loop greedy (run a) k fuel c caps).
Proof.
  intros IH Hm Hk. remember (Many greedy a) as r eqn:Er. induction Hm; simplify_eq; intros [|fuel] caps Hf; try lia; cbn [loop].
  - destruct greedy; apply orElse_is_Some; auto.
  - set (more := run a c caps _). assert (is_Some more).
    { eapply IH; [done|]. intros caps'. destruct (Nat.ltb_spec (String.length c1.2) (String.length c.2)); [|lia].
      apply IHHm2; [done|done|lia]. }
    destruct greedy; apply orElse_is_Some; auto.
Qed.

Lemma run_complete {R : Type} r c c' (k : cursor -> captures -> option R) caps :
  matches r c c' -> (forall caps', is_Some (k c' caps')) -> is_Some (run r c caps k).
Proof.
  revert c c' k caps. induction r as [|f|a IHa b IHb|a IHa b IHb|greedy a IHa|n a IHa| | |]; intros c c' k caps Hm Hk;
    [| | | | by cbn [run]; eapply loop_complete; eauto|..]; inversion Hm; subst; cbn [run fst snd]; auto.
  - match goal with E : f _ = S _ |- _ => rewrite E end. destruct (Nat.leb_spec (S n) (String.length c.2)); [auto|lia].
  - eapply IHa; [done|]. intros. eapply IHb; eauto.
  - apply orElse_is_Some. eauto.
  - apply orElse_is_Some. eauto.
  - eapply IHa; eauto.
  - match goal with E : at_boundary _ = true |- _ => by rewrite E end.
Qed.

(** The position [pre] characters into a text. *)
Definition after (before : option ascii) (pre rest : string) : cursor := advance (String.length pre) before (pre +:+ rest).

Lemma find_sound r before s caps :
  find r before s = Some caps -> exists pre rest c', s = pre +:+ rest /\ matches r (after before pre rest) c'.
Proof.
  revert before. induction s as [|a s IH]; intros before Hf; cbn [find] in Hf; destruct (match_at _ _) as [[c' caps']|] eqn:E;
    try (apply run_matches in E as (c1 & ? & Hm & _); exists "", "", c1; split; [done|]; exact Hm); simplify_eq.
  - apply run_matches in E as (c1 & ? & Hm & _). by exists "", (String.String a s), c1.
  - apply IH in Hf as (pre & rest & c1 & -> & Hm). by exists (String.String a pre), rest, c1.
Qed.

Lemma find_complete r before pre rest c' : matches r (after before pre rest) c' -> is_Some (find r before (pre +:+ rest)).
Proof.
  revert before. induction pre as [|a pre IH]; intros before Hm.
  - change ("" +:+ rest) with rest. unfold after in Hm. cbn in Hm. change ("" +:+ rest) with rest in Hm.
    assert (Hs : is_Some (match_at r (before, rest))) by (eapply run_complete; eauto). destruct Hs as [[c1 caps1] E].
    destruct rest; cbn [find]; rewrite E; eauto.
  - change (String.String a pre +:+ rest) with (String.String a (pre +:+ rest)). cbn [find].
    destruct (match_at _ _) as [[? ?]|]; [eauto|]. by apply IH.
Qed.

(** [test] tells whether the expression matches somewhere in the text. *)
Theorem test_spec r s :
  test r s = true <-> exists pre rest c', s = pre +:+ rest /\ matches r (after None pre rest) c'.
Proof.
  unfold test, exec. split.
  - destruct (find r None s) as [caps|] eqn:E; [|done]. intros _. by eapply find_sound.
  - intros (pre & rest & c' & -> & Hm). apply find_complete in Hm as [caps ->]. done.
Qed.

(** Building matches of the expressions in use. *)
Lemma matches_class p before c s : p c = true -> matches (class p) (before, String.String c s) (Some c, s).
Proof. intros Hp. apply (MItem _ (before, String.String c s) 0); cbn; [by rewrite Hp|lia]. Qed.

Fixpoint last_char (before : option ascii) (s : string) : option ascii :=
  match s with String.EmptyString => before | String.String c s' => last_char (Some c) s' end.

Lemma matches_word w before s : matches (word w) (before, w +:+ s) (last_char before w, s).
Proof.
  revert before. induction w as [|c w IH]; intros before; [constructor|].
  econstructor; [|apply IH]. apply matches_class. by apply bool_decide_eq_true.
Qed.

Definition blank (c : ascii) : bool := bool_decide ((9 <= nat_of_ascii c /\ nat_of_ascii c <= 13) \/ nat_of_ascii c = 32).

Lemma matches_spaces ws before s : all_chars blank ws = true -> matches (star space) (before, ws +:+ s) (last_char before ws, s).
Proof.
  revert before. induction ws as [|c ws IH]; intros before Hw; [constructor|]. cbn in Hw. apply andb_true_iff in Hw as [Hc Hw].
  eapply (MMore true space _ (Some c, ws +:+ s)); [|apply Nat.lt_succ_diag_r|by apply IH].
  apply (MItem ws_bytes (before, String.String c (ws +:+ s)) 0); [|apply le_n_S, Nat.le_0_l]. unfold blank in Hc. cbn [snd ws_bytes]. by rewrite Hc.
Qed.

Lemma after_last before pre rest : after before pre rest = (last_char before pre, rest).
Proof. revert before. induction pre as [|a pre IH]; intros before; [done|]. apply (IH (Some a)). Qed.

End Regex.

(** * The validator *)

Module Rego.
Import Regex.

Definition char (n : nat) : ascii := ascii_of_nat n.
Definition lf : ascii := char 10.
Definition quote : ascii := char 34.
Definition backquote : ascii := char 96.
Definition backslash : ascii := char 92.
Definition hash : ascii := char 35.

Definition FORBIDDEN_BUILTINS : list string :=
  ["http.send"; "net.lookup_ip_addr"; "net.cidr_contains"; "net.cidr_intersects"; "net.cidr_expand"; "net.cidr_merge";
   "opa.runtime"; "rand.intn"; "time.now_ns"].

Definition OPA_INPUT_SCHEMA_VERSION : string := "2026-05-20".
Definition POLICY_SCHEMA_VERSIONS : list string := [OPA_INPUT_SCHEMA_VERSION].
Definition POLICY_CONTENT_MAX_CHARS : Z := 262144.

(** [stripCommentsAndStrings]: where the scan stands. *)
Inductive mode := Code | Comment | InString (q : ascii) | Escaped (q : ascii).

(** The source that is left and whether a string is unterminated. *)
Fixpoint strip (m : mode) (s : string) : string * bool :=
  match s with
  | String.EmptyString => ("", match m with Code | Comment => false | InString _ | Escaped _ => true end)
  | String.String c s' =>
      match m with
      | Code =>
          if bool_decide (c = hash) then strip Comment s'
          else if bool_decide (c = quote \/ c = backquote)
          then let (out, u) := strip (InString c) s' in (String.String " " out, u)
          else let (out, u) := strip Code s' in (String.String c out, u)
      | Comment =>
          if bool_decide (c = lf) then let (out, u) := strip Code s' in (String.String c out, u) else strip Comment s'
      | InString q =>
          if bool_decide (q = quote /\ c = backslash) then strip (Escaped q) s'
          else if bool_decide (c = q) then strip Code s'
          else if bool_decide (q = quote /\ c = lf) then ("", true)
          else strip (InString q) s'
      | Escaped q => strip (InString q) s'
      end
  end.

Definition stripCommentsAndStrings (s : string) : string * bool := strip Code s.

Definition opens (c : ascii) : bool := one_of "([{" c.

(** [pairs]. *)
Definition opener_of (c : ascii) : option ascii :=
  if bool_decide (c = ")"%char) then Some "("%char
  else if bool_decide (c = "]"%char) then Some "["%char
  else if bool_decide (c = "}"%char) then Some "{"%char
  else None.

(** The scan of [balancedDelimiters], its stack innermost first. *)
Fixpoint balance (stack : list ascii) (s : string) : bool :=
  match s with
  | String.EmptyString => match stack with [] => true | _ => false end
  | String.String c s' =>
      if opens c then balance (c :: stack) s'
      else match opener_of c with
           | Some o => match stack with top :: stack => if bool_decide (top = o) then balance stack s' else false | [] => false end
           | None => balance stack s'
           end
  end.

Definition balancedDelimiters (s : string) : option string := if balance [] s then None else Some "unbalanced_delimiters".

(** [^|\n]. *)
Definition line_start : re := Alt LineStart (lit lf).
Definition letter (c : ascii) : bool := is_upper c || is_lower c || one_of "_" c.
Definition ident : re := Seq (class letter) (star (class is_word)).

Definition PACKAGE_NAME : re := seqs [LineStart; ident; star (Seq (lit ".") ident); LineEnd].

Definition packageRe : re :=
  seqs [line_start; star space; word "package"; plus space; Capture 1 (plus (class (fun c => is_word c || one_of "." c)))].

Definition ruleRe : re :=
  seqs [line_start; star space; opt (Capture 1 (Seq (word "default") (plus space))); Capture 2 ident; star space;
        opt (seqs [lit "("; Many false dot; lit ")"]); star space;
        alts [word ":="; word "="; Seq (word "contains") space; lit "{"] (Seq (word "if") space)].

Definition builtinRe (builtin : string) : re :=
  seqs [Alt LineStart (class (fun c => negb (is_word c || one_of "." c))); word builtin; star space; lit "("].

Record RegoCheck := { packageName : option string; rules : list string; error : option string }.

Definition refused (e : string) : RegoCheck := {| packageName := None; rules := []; error := Some e |}.

(** A [Set] in insertion order. *)
Definition set_add (x : string) (xs : list string) : list string := if bool_decide (x ∈ xs) then xs else (xs ++ [x])%list.

Definition keyword (name : string) : bool := bool_decide (name ∈ ["package"; "import"; "else"; "with"]).

Definition collect_rules (source : string) : list string :=
  foldl (fun rules m => match group 2 m with Some name => if keyword name then rules else set_add name rules | None => rules end)
    [] (matchAll ruleRe source).

Definition parseRego (content : string) : RegoCheck :=
  if bool_decide (content = "") then refused "empty_policy"
  else if bool_decide (POLICY_CONTENT_MAX_CHARS < Z.of_nat (js_length content))%Z then refused "content_too_large"
  else
    let (source, unterminated) := stripCommentsAndStrings content in
    if unterminated then refused "unterminated_string"
    else match balancedDelimiters source with
    | Some e => refused e
    | None =>
        match exec packageRe source ≫= group 1 with
        | None => refused "missing_package_declaration"
        | Some name =>
            if negb (test PACKAGE_NAME name) then refused "invalid_package_name"
            else
              let rules := collect_rules source in
              match find_first (fun b => test (builtinRe b) source) FORBIDDEN_BUILTINS with
              | Some b => refused ("forbidden_builtin:" +:+ b)
              | None => {| packageName := Some name; rules := rules; error := None |}
              end
        end
    end.

Definition validatePolicySource (content : string) : option string := (parseRego content).(error).

Definition DATA_DOCUMENT_DIRECTIVE : re :=
  seqs [line_start; star space; lit hash; star space; word "caracal:data-document"; WordBoundary].

Definition AUTHZ_DATA_RULES : list string := ["app_ids"; "grants"; "confinement"; "restrict"; "risk"; "approval_tiers"].

Definition isDataDocumentDirective (content : string) : bool := test DATA_DOCUMENT_DIRECTIVE content.

Definition validateAuthzPolicy (content : string) : option string :=
  let check := parseRego content in
  match check.(error) with
  | Some e => Some e
  | None =>
      if negb (bool_decide (check.(packageName) = Some "caracal.authz")) then Some "must_use_package_caracal_authz"
      else if negb (isDataDocumentDirective content) then Some "must_be_data_document"
      else if bool_decide ("result" ∈ check.(rules)) then Some "data_document_must_not_define_result"
      else match check.(rules) with
           | [] => Some "data_document_must_define_data"
           | rules =>
               match find_first (fun r => negb (bool_decide (r ∈ AUTHZ_DATA_RULES))) rules with
               | Some r => Some ("data_document_rule_not_allowed:" +:+ r)
               | None => None
               end
           end
  end.

Definition validatePolicySchemaVersion (schemaVersion : string) : option string :=
  if bool_decide (schemaVersion ∈ POLICY_SCHEMA_VERSIONS) then None else Some ("unsupported_schema_version:" +:+ schemaVersion).

Record AuthzPolicyPreview := {
  package : string;
  preview_rules : list string;
  default_result : bool;
  decisions : list string;
  inputs_referenced : list string;
  data_referenced : list string
}.

Definition collectPaths (source root : string) : list string :=
  let re := seqs [WordBoundary; word root; Capture 1 (plus (Seq (lit ".") ident))] in
  sort_strings (foldl (fun paths m => match group 1 m with Some p => set_add (root +:+ p) paths | None => paths end)
                  [] (matchAll re source)).

Definition quoted (s : string) : re := seqs [lit quote; word s; lit quote].

Definition decisionRe : re :=
  seqs [quoted "decision"; star space; lit ":"; star space; lit quote; Capture 1 (Alt (word "allow") (word "deny")); lit quote].

Definition previewAuthzPolicy (content : string) : option AuthzPolicyPreview :=
  let check := parseRego content in
  match check.(error), check.(packageName) with
  | None, Some name =>
      if negb (bool_decide (name = "caracal.authz")) then None
      else
        let (source, _) := stripCommentsAndStrings content in
        Some {| package := name;
                preview_rules := sort_strings check.(rules);
                default_result := test (seqs [WordBoundary; word "default"; plus space; word "result"; WordBoundary]) source;
                decisions := sort_strings (foldl (fun ds m => match group 1 m with Some d => set_add d ds | None => ds end) [] (matchAll decisionRe content));
                inputs_referenced := collectPaths source "input";
                data_referenced := collectPaths source "data" |}
  | _, _ => None
  end.

(** ** Facts *)

(** A character that no comment or string begins with. *)
Definition plain (c : ascii) : bool := negb (bool_decide (c = hash \/ c = quote \/ c = backquote)).

Lemma strip_plain m s : all_chars plain (strip m s).1 = true.
Proof.
  revert m. induction s as [|c s IH]; intros m; [by destruct m|].
  destruct m; cbn [strip]; repeat case_bool_decide; subst; try done; try apply IH;
    match goal with |- context [strip ?m s] => specialize (IH m); destruct (strip m s) as [out u] end; try done.
  cbn in IH |- *. rewrite IH, andb_true_r. unfold plain. rewrite negb_true_iff, bool_decide_eq_false. tauto.
Qed.

(** Stripping again changes nothing. *)
Lemma strip_again s : all_chars plain s = true -> strip Code s = (s, false).
Proof.
  induction s as [|c s IH]; [done|]. intros [Hc Hs]%andb_true_iff. unfold plain in Hc. rewrite negb_true_iff, bool_decide_eq_false in Hc.
  cbn [strip]. rewrite !bool_decide_false by tauto. by rewrite IH.
Qed.

(** The texts whose delimiters pair up. *)
Inductive Balanced : string -> Prop :=
| BNil : Balanced ""
| BChar c s : opens c = false -> opener_of c = None -> Balanced s -> Balanced (String.String c s)
| BPair o c s s' : opener_of c = Some o -> Balanced s -> Balanced s' -> Balanced (String.String o (s +:+ String.String c s')).

#[local] Hint Constructors Balanced : core.

Lemma opener_facts c o : opener_of c = Some o -> opens o = true /\ opens c = false /\ opener_of o = None.
Proof. unfold opener_of. repeat case_bool_decide; intros; simplify_eq; by vm_compute. Qed.

(** A balanced text leaves the stack as it was. *)
Lemma balanced_skips s stack rest : Balanced s -> balance stack (s +:+ rest) = balance stack rest.
Proof.
  intros Hb. revert stack rest. induction Hb as [|c s Ho Hc _ IH|o c s s' Hc _ IH _ IH']; intros stack rest; [done| |].
  - change (String.String c s +:+ rest) with (String.String c (s +:+ rest)). cbn [balance]. by rewrite Ho, Hc.
  - apply opener_facts in Hc as Hf. destruct Hf as (Ho & Hn & _).
    change (String.String o (s +:+ String.String c s') +:+ rest) with (String.String o ((s +:+ String.String c s') +:+ rest)).
    cbn [balance]. rewrite Ho, string_app_assoc, IH.
    change (String.String c s' +:+ rest) with (String.String c (s' +:+ rest)). cbn [balance]. by rewrite Hn, Hc, bool_decide_true.
Qed.

Lemma balanced_app s s' : Balanced s -> Balanced s' -> Balanced (s +:+ s').
Proof.
  intros Hs Hs'. induction Hs as [|c s Ho Hc _ IH|o c s t Hc Hs _ _ IHt]; [done|by constructor|].
  change (String.String o (s +:+ String.String c t) +:+ s') with (String.String o ((s +:+ String.String c t) +:+ s')).
  rewrite string_app_assoc. by apply (BPair o c s (t +:+ s')).
Qed.

(** What closes the delimiters of the stack, innermost first. *)
Fixpoint Closes (stack : list ascii) (s : string) : Prop :=
  match stack with
  | [] => Balanced s
  | o :: stack => exists b c r, s = b +:+ String.String c r /\ Balanced b /\ opener_of c = Some o /\ Closes stack r
  end.

Lemma closes_prepend s stack rest : Balanced s -> Closes stack rest -> Closes stack (s +:+ rest).
Proof.
  intros Hs. destruct stack as [|o stack]; cbn [Closes]; [by apply balanced_app|].
  intros (b & c & r & -> & Hb & ?). exists (s +:+ b), c, r. rewrite string_app_assoc. split; [done|]. split; [by apply balanced_app|done].
Qed.

Lemma balance_closes s stack : balance stack s = true -> Closes stack s.
Proof.
  revert stack. induction s as [|c s IH]; intros stack Hb; cbn [balance] in Hb.
  { destruct stack; [constructor|done]. }
  destruct (opens c) eqn:Ho.
  - apply IH in Hb as (b & d & r & -> & Hb & Hd & Hr).
    assert (Hp : Balanced (String.String c (b +:+ String.String d ""))) by eauto.
    apply (closes_prepend _ stack r) in Hp; [|done].
    change (Closes stack (String.String c ((b +:+ String.String d "") +:+ r))) in Hp. by rewrite string_app_assoc in Hp.
  - destruct (opener_of c) as [o|] eqn:Hc.
    + destruct stack as [|top stack]; [done|]. case_bool_decide; [subst|done]. exists "", c, s. eauto.
    + apply (closes_prepend (String.String c "") stack s); eauto.
Qed.

Lemma balance_spec s : balance [] s = true <-> Balanced s.
Proof.
  split; [apply (balance_closes s [])|]. intros Hb. rewrite <- (string_app_nil_r s). by rewrite balanced_skips.
Qed.

(** What acceptance says, branch by branch. *)
Lemma parse_accepts content c :
  parseRego content = c -> c.(error) = None ->
  exists source name,
    stripCommentsAndStrings content = (source, false) /\ c.(packageName) = Some name /\ c.(rules) = collect_rules source
    /\ (Z.of_nat (js_length content) <= POLICY_CONTENT_MAX_CHARS)%Z /\ balance [] source = true
    /\ exec packageRe source ≫= group 1 = Some name
    /\ find_first (fun b => test (builtinRe b) source) FORBIDDEN_BUILTINS = None.
Proof.
  unfold parseRego. case_bool_decide; [by intros <-|]. case_bool_decide; [by intros <-|].
  destruct (stripCommentsAndStrings content) as [source [|]]; [by intros <-|]. unfold balancedDelimiters.
  destruct (balance [] source) eqn:Hb; [|by intros <-]. destruct (exec packageRe source ≫= group 1) as [name|] eqn:Hp; [|by intros <-].
  case_match; [by intros <-|]. case_match eqn:Hf; [by intros <-|]. intros <- _. exists source, name. cbn. repeat (split; [done||lia|]). done.
Qed.

(** A call of [b] that is not the tail of a longer name. *)
Definition calls (b source : string) : Prop :=
  exists pre ws post, source = pre +:+ b +:+ ws +:+ "(" +:+ post /\ all_chars blank ws = true
    /\ match last_char None pre with Some c => is_word c || one_of "." c = false | None => True end.


Lemma last_char_split pre : pre = "" \/ exists pre' c, pre = pre' +:+ String.String c "" /\ last_char None pre = Some c.
Proof.
  cut (forall before, pre = "" \/ exists pre' c, pre = pre' +:+ String.String c "" /\ last_char before pre = Some c); [by intros Hc; apply Hc|].
  induction pre as [|a pre IH]; intros before; [by left|]. right. destruct (IH (Some a)) as [->|(pre' & c & -> & Hl)].
  - by exists "", a.
  - by exists (String.String a pre'), c.
Qed.

(** The expression finds every such call. *)
Lemma calls_found b source : calls b source -> test (builtinRe b) source = true.
Proof.
  intros (pre & ws & post & -> & Hws & Hpre). apply test_spec.
  assert (Htail : forall before, exists c', matches (seqs [word b; star space; lit "("]) (before, b +:+ ws +:+ "(" +:+ post) c').
  { intros before. eexists. econstructor; [apply matches_word|]. econstructor; [by apply matches_spaces|].
    econstructor; [|constructor]. by apply matches_class, bool_decide_eq_true. }
  destruct (last_char_split pre) as [->|(pre' & c & -> & Hl)].
  - destruct (Htail None) as [c' Hm]. exists "", (b +:+ ws +:+ "(" +:+ post), c'. split; [done|]. rewrite after_last.
    econstructor; [apply MAltL, MStart|exact Hm].
  - rewrite Hl in Hpre. destruct (Htail (Some c)) as [c' Hm].
    exists pre', (String.String c (b +:+ ws +:+ "(" +:+ post)), c'. split; [by rewrite string_app_assoc|]. rewrite after_last.
    econstructor; [apply MAltR, matches_class; by rewrite Hpre|exact Hm].
Qed.

(** C20. A policy the validator accepts is a data document: it is at most 262144 characters
    long, carries the directive, and, once its comments and strings are blanked out (no
    comment or string is left), its delimiters pair up as in the grammar, it declares the
    package [caracal.authz], every rule the scan finds is one of the six data rules and
    there is one, none of them [result], and it calls none of the forbidden built-ins,
    whatever blanks stand before the parenthesis. *)
Theorem accepted_policy_sound content :
  validateAuthzPolicy content = None ->
  exists source,
    stripCommentsAndStrings content = (source, false)
    /\ all_chars plain source = true /\ Balanced source
    /\ (Z.of_nat (js_length content) <= 262144)%Z
    /\ (exists pre rest c', content = pre +:+ rest /\ matches DATA_DOCUMENT_DIRECTIVE (after None pre rest) c')
    /\ exec packageRe source ≫= group 1 = Some "caracal.authz"
    /\ collect_rules source <> [] /\ (forall r, r ∈ collect_rules source -> r ∈ AUTHZ_DATA_RULES /\ r <> "result")
    /\ (forall b, b ∈ FORBIDDEN_BUILTINS -> ~ calls b source).
Proof.
  unfold validateAuthzPolicy. destruct (error (parseRego content)) eqn:He; [done|].
  destruct (parse_accepts content _ eq_refl He) as (source & name & Hs & Hn & Hr & Hl & Hb & Hp & Hf). rewrite Hn, Hr.
  case_bool_decide as Hname; cbn [negb]; [|done]. injection Hname as ->.
  destruct (isDataDocumentDirective content) eqn:Hd; cbn [negb]; [|done].
  case_bool_decide as Hres; [done|]. destruct (collect_rules source) as [|r rs] eqn:Hrs; [done|].
  destruct (find_first _ (r :: rs)) eqn:Hff; [done|]. intros _. exists source. rewrite Hrs. split; [done|].
  split. { pose proof (strip_plain Code content) as Hpl. unfold stripCommentsAndStrings in Hs. by rewrite Hs in Hpl. }
  split; [by apply balance_spec|]. split; [exact Hl|]. split; [by apply test_spec in Hd|]. split; [done|]. split; [done|]. split.
  - intros x Hx. apply (find_first_None _ _ Hff) in Hx as Hok. rewrite negb_false_iff, bool_decide_eq_true in Hok. set_solver.
  - intros b Hb'. apply (find_first_None _ _ Hf) in Hb'. intros Hc. apply calls_found in Hc. by rewrite Hc in Hb'.
Qed.

(** The limit of the scan: a rule whose head is a reference is not seen, so a document that
    defines a member of [result] is accepted. *)
Definition line (s : string) : string := s +:+ String.String lf "".

Definition overlay (head : string) : string :=
  line "# caracal:data-document" +:+ line "package caracal.authz" +:+ line "grants := {}" +:+ line (head +:+ " := 1").

Theorem result_member_accepted :
  validateAuthzPolicy (overlay "result") = Some "data_document_must_not_define_result"
  /\ validateAuthzPolicy (overlay "result.decision") = None
  /\ validateAuthzPolicy (overlay ("result[" +:+ String.String quote ("decision" +:+ String.String quote "]"))) = None.
Proof. vm_compute. auto. Qed.

End Rego.
