(* ===== verification/ApiOutbox.v ===== *)
(** * The outbox of the API

    [apps/api/src/outbox.ts]: events are enqueued in the transaction of the change they
    announce, and dispatchers, one per process, drain the table to Redis streams.  Times
    are microseconds.  [sent] is the history of the entries added to the streams, whatever
    a stream has been trimmed to since. *)

From Stdlib Require Import Ascii.
From Stdlib Require String.
From S2P Require Import Prelude.
From S2P Require Import Json.
From S2P Require Import Listing.
From S2P Require Import Text.
From S2P Require Import Streams.
From S2P Require Import AdminAudit.
Local Open Scope string_scope.
Local Open Scope Z_scope.

Module ApiOutbox.

(** A [timestamptz]. *)
Inductive timestamp := At (t : Z) | infinity.

#[export] Instance timestamp_eq_dec : EqDecision timestamp.
Proof. solve_decision. Defined.

Definition payload : Type := list (string * StreamValue).

(** A row of [event_outbox]. *)
Record OutboxRow := {
  id : string;
  stream_name : string;
  payload_json : payload;
  request_id : option string;
  created_at : Z;
  available_at : timestamp;
  locked_until : option Z;
  locked_by : option string;
  attempts : nat;
  last_error : option string;
  dispatched_at : option Z
}.

Record EnqueueArgs := { a_stream : string; a_payload : payload; a_request : option string; a_available : option Z }.

(** [jsonb] keeps the keys of an object by length, then by their bytes. *)
Definition key_le (a b : string * StreamValue) : Prop :=
  (String.length a.1 < String.length b.1)%nat \/ (String.length a.1 = String.length b.1 /\ string_le a.1 b.1).

#[export] Instance key_le_dec a b : Decision (key_le a b).
Proof. unfold key_le. apply _. Defined.

Definition defined (v : StreamValue) : bool := match v with SUndefined => false | _ => true end.

Definition jsonb (p : payload) : payload := merge_sort key_le (filter (fun kv => defined kv.2 = true) p).

(** The row [enqueueOutbox] inserts at [now]. *)
Definition new_row (now : Z) (newId : string) (args : EnqueueArgs) : OutboxRow :=
  {| id := newId; stream_name := args.(a_stream); payload_json := jsonb args.(a_payload); request_id := args.(a_request);
     created_at := now; available_at := At (default_to now args.(a_available)); locked_until := None; locked_by := None;
     attempts := 0; last_error := None; dispatched_at := None |}.

Definition enqueueOutbox (now : Z) (newId : string) (args : EnqueueArgs) (table : list OutboxRow) : list OutboxRow :=
  table ++ [new_row now newId args].

(** The ids are made in the order of the entries. *)
Definition enqueueOutboxBatch (now : Z) (newIds : list string) (entries : list EnqueueArgs) (table : list OutboxRow) : list OutboxRow :=
  match entries with
  | [] => table
  | _ => table ++ zip_with (new_row now) newIds entries
  end.

(** [flattenForXAdd]. *)
Definition flattenForXAdd (p : payload) : list string :=
  p ≫= fun kv => match stream_text kv.2 with Some s => [kv.1; s] | None => [] end.

(** [backoffSeconds]; [jitter] is the whole part of [Math.random() * 0.3 * base]. *)
Definition backoff_base (attempts : nat) : Z := Z.min 60 (2 ^ Z.min (Z.of_nat attempts) 6).
Definition backoffSeconds (attempts : nat) (jitter : Z) : Z := backoff_base attempts + jitter.

Definition jitter_ok (attempts : nat) (jitter : Z) : Prop := 0 <= jitter /\ 10 * jitter <= 3 * backoff_base attempts.

(** [DispatcherOptions] with the key the constructor loads. *)
Record Options := { workerId : string; batchSize : nat; lockDurationSec : Z; maxAttempts : nat; streamHmacKey : option string }.

(** The constructor refuses to run unsigned in a published mode. *)
Definition new_dispatcher (published : bool) (opts : Options) : option Options :=
  match opts.(streamHmacKey), published with None, true => None | _, _ => Some opts end.

Definition second : Z := 1000000.

(** What [claimBatch] returns of a row. *)
Record Claim := { c_id : string; c_stream : string; c_payload : payload; c_attempts : nat }.

Definition claim_of (r : OutboxRow) : Claim :=
  {| c_id := r.(id); c_stream := r.(stream_name); c_payload := r.(payload_json); c_attempts := r.(attempts) |}.

Definition is_due (now : Z) (r : OutboxRow) : bool :=
  match r.(dispatched_at) with None => true | Some _ => false end
  && match r.(available_at) with At t => t <=? now | infinity => false end
  && match r.(locked_until) with None => true | Some t => t <? now end.

Definition available_le (a b : OutboxRow) : Prop :=
  match a.(available_at), b.(available_at) with At s, At t => s <= t | _, infinity => True | infinity, At _ => False end.

#[export] Instance available_le_dec a b : Decision (available_le a b).
Proof. unfold available_le. destruct (available_at a), (available_at b); apply _. Defined.

(** The rows of the inner query; [skip] are those another statement has locked. *)
Definition select_due (now : Z) (limit : nat) (skip : list string) (table : list OutboxRow) : list OutboxRow :=
  take limit (merge_sort available_le (filter (fun r => is_due now r = true /\ r.(id) ∉ skip) table)).

Definition lock_row (now : Z) (opts : Options) (r : OutboxRow) : OutboxRow :=
  {| id := r.(id); stream_name := r.(stream_name); payload_json := r.(payload_json); request_id := r.(request_id);
     created_at := r.(created_at); available_at := r.(available_at);
     locked_until := Some (now + opts.(lockDurationSec) * second); locked_by := Some opts.(workerId);
     attempts := S r.(attempts); last_error := r.(last_error); dispatched_at := r.(dispatched_at) |}.

(** [UPDATE event_outbox SET ... WHERE id IN (...)]. *)
Definition update_rows (ids : list string) (f : OutboxRow -> OutboxRow) (table : list OutboxRow) : list OutboxRow :=
  (fun r => if bool_decide (r.(id) ∈ ids) then f r else r) <$> table.

Definition claimBatch (now : Z) (opts : Options) (skip : list string) (table : list OutboxRow) : list OutboxRow * list Claim :=
  let picked := select_due now opts.(batchSize) skip table in
  (update_rows (id <$> picked) (lock_row now opts) table, (fun r => claim_of (lock_row now opts r)) <$> picked).

Definition mark_dispatched (now : Z) (r : OutboxRow) : OutboxRow :=
  {| id := r.(id); stream_name := r.(stream_name); payload_json := r.(payload_json); request_id := r.(request_id);
     created_at := r.(created_at); available_at := r.(available_at); locked_until := None; locked_by := r.(locked_by);
     attempts := r.(attempts); last_error := None; dispatched_at := Some now |}.

Definition put_off (until : timestamp) (message : string) (r : OutboxRow) : OutboxRow :=
  {| id := r.(id); stream_name := r.(stream_name); payload_json := r.(payload_json); request_id := r.(request_id);
     created_at := r.(created_at); available_at := until; locked_until := None; locked_by := r.(locked_by);
     attempts := r.(attempts); last_error := Some message; dispatched_at := r.(dispatched_at) |}.

(** What the [catch] of [dispatch] writes. *)
Definition settle_failure (now : Z) (opts : Options) (jitter : Z) (message : string) (c : Claim) (table : list OutboxRow) : list OutboxRow :=
  let until := if (opts.(maxAttempts) <=? c.(c_attempts))%nat then infinity
               else At (now + backoffSeconds c.(c_attempts) jitter * second) in
  update_rows [c.(c_id)] (put_off until message) table.

(** An entry of a stream, with the row it was sent for. *)
Record Entry := { of_row : string; e_stream : string; e_fields : list string }.

Section dispatcher.
Context `{Digests}.

Definition signStream (key stream : string) (values : payload) : string := hmac_sha256 key (canonicalizeStream stream values).

(** The object [dispatch] sends: [{ outbox_id: row.id, ...row.payload_json }] and its
    signature. *)
Definition message (rowId : string) (p : payload) : payload :=
  foldl (fun values kv => ordered_set kv.1 kv.2 values) [("outbox_id", SStr rowId)] p.

Definition signed (opts : Options) (rowId stream : string) (p : payload) : payload :=
  match opts.(streamHmacKey) with
  | Some key => ordered_set STREAM_SIG_FIELD (SStr (signStream key stream (message rowId p))) (message rowId p)
  | None => message rowId p
  end.

Definition entry (opts : Options) (rowId stream : string) (p : payload) : Entry :=
  {| of_row := rowId; e_stream := stream; e_fields := flattenForXAdd (signed opts rowId stream p) |}.

Definition entry_of (opts : Options) (c : Claim) : Entry := entry opts c.(c_id) c.(c_stream) c.(c_payload).

(** Where a dispatcher stands: between ticks, before the entry of the next claim, after it
    was added, or in the [catch] after an error. *)
Inductive Phase :=
| Idle
| Working (todo : list Claim)
| Added (c : Claim) (todo : list Claim)
| Caught (c : Claim) (error : string) (todo : list Claim).

(** A call is carried out, carried out with its reply lost, or not carried out. *)
Inductive Outcome := Done | Lost (error : string) | Refused (error : string).

Record Shared := { table : list OutboxRow; sent : list Entry }.

Definition with_table (t : list OutboxRow) (w : Shared) : Shared := {| table := t; sent := w.(sent) |}.
Definition with_entry (e : Entry) (w : Shared) : Shared := {| table := w.(table); sent := (w.(sent) ++ [e])%list |}.

(** The next statement of [tick], [claimBatch] or [dispatch], at [now]. *)
Definition work (opts : Options) (now : Z) (skip : list string) (jitter : Z) (o : Outcome) (p : Phase) (w : Shared) : Phase * Shared :=
  match p with
  | Idle =>
      let (t, claims) := claimBatch now opts skip w.(table) in
      match o with
      | Done => (Working claims, with_table t w)
      | Lost _ => (Idle, with_table t w)
      | Refused _ => (Idle, w)
      end
  | Working [] => (Idle, w)
  | Working (c :: todo) =>
      match o with
      | Done => (Added c todo, with_entry (entry_of opts c) w)
      | Lost e => (Caught c e todo, with_entry (entry_of opts c) w)
      | Refused e => (Caught c e todo, w)
      end
  | Added c todo =>
      let t := update_rows [c.(c_id)] (mark_dispatched now) w.(table) in
      match o with
      | Done => (Working todo, with_table t w)
      | Lost e => (Caught c e todo, with_table t w)
      | Refused e => (Caught c e todo, w)
      end
  | Caught c e todo =>
      let t := settle_failure now opts jitter e c w.(table) in
      match o with
      | Done => (Working todo, with_table t w)
      | Lost _ => (Idle, with_table t w)
      | Refused _ => (Idle, w)
      end
  end.

(** A tick in which every call succeeds, with fuel for two statements per claim, the claim
    itself and the end. *)
Fixpoint finish (fuel : nat) (opts : Options) (now : Z) (p : Phase) (w : Shared) : Phase * Shared :=
  match fuel, p with
  | O, _ | _, Idle => (p, w)
  | S fuel, _ => let (p', w') := work opts now [] 0 Done p w in finish fuel opts now p' w'
  end.

Definition tick (opts : Options) (now : Z) (w : Shared) : Phase * Shared :=
  let (p, w') := work opts now [] 0 Done Idle w in finish (S (2 * opts.(batchSize))) opts now p w'.

End dispatcher.
(** ** Dispatchers side by side *)

Section system.
Context `{Digests} (opts : Options).

Record World := { shared : Shared; workers : list Phase; clock : Z }.

(** Time passes; a transaction commits an event under a new id; a dispatcher carries out
    its next statement with some outcome; a process stops and starts again. *)
Inductive step : World -> World -> Prop :=
| s_time w t : w.(clock) <= t -> step w {| shared := w.(shared); workers := w.(workers); clock := t |}
| s_enqueue w newId args :
    newId ∉ id <$> w.(shared).(table) ->
    step w {| shared := with_table (enqueueOutbox w.(clock) newId args w.(shared).(table)) w.(shared);
              workers := w.(workers); clock := w.(clock) |}
| s_work w i p p' sh skip jitter o :
    w.(workers) !! i = Some p -> work opts w.(clock) skip jitter o p w.(shared) = (p', sh) ->
    (forall c e todo, p = Caught c e todo -> jitter_ok c.(c_attempts) jitter) ->
    step w {| shared := sh; workers := <[i := p']> w.(workers); clock := w.(clock) |}
| s_restart w i p :
    w.(workers) !! i = Some p -> step w {| shared := w.(shared); workers := <[i := Idle]> w.(workers); clock := w.(clock) |}.

Definition idle_world (n : nat) (t : Z) : World := {| shared := {| table := []; sent := [] |}; workers := replicate n Idle; clock := t |}.

Definition reachable (n : nat) (t : Z) (w : World) : Prop := rtc step (idle_world n t) w.

(** The claims a dispatcher has not sent yet, and all it holds. *)
Definition todo_of (p : Phase) : list Claim :=
  match p with Idle => [] | Working l | Added _ l | Caught _ _ l => l end.

Definition held (p : Phase) : list Claim :=
  match p with Idle => [] | Working l => l | Added c l | Caught c _ l => c :: l end.

Definition pending (k : string) (p : Phase) : nat := length (filter (fun c => c.(c_id) = k) (todo_of p)).
Definition sends (k : string) (sh : Shared) : nat := length (filter (fun e => e.(of_row) = k) sh.(sent)).

Definition row_entry (r : OutboxRow) : Entry := entry opts r.(id) r.(stream_name) r.(payload_json).

(** The claim [c] was taken of the row [r]. *)
Definition claims (r : OutboxRow) (c : Claim) : Prop :=
  c.(c_id) = r.(id) /\ c.(c_stream) = r.(stream_name) /\ c.(c_payload) = r.(payload_json) /\ (c.(c_attempts) <= r.(attempts))%nat.

Definition lock_limit (t : Z) : Z := t + opts.(lockDurationSec) * second.

Record row_ok (w : World) (r : OutboxRow) : Prop := {
  ok_sends : (sends r.(id) w.(shared) + sum_list_with (pending r.(id)) w.(workers) <= r.(attempts))%nat;
  ok_dispatched : r.(dispatched_at) <> None -> row_entry r ∈ w.(shared).(sent);
  ok_infinity : r.(available_at) = infinity -> (opts.(maxAttempts) <= r.(attempts))%nat;
  ok_lock : forall t, r.(locked_until) = Some t -> t <= lock_limit w.(clock)
}.

Record phase_ok (sh : Shared) (p : Phase) : Prop := {
  ok_held : forall c, c ∈ held p -> exists r, r ∈ sh.(table) /\ claims r c;
  ok_added : forall c todo, p = Added c todo -> entry_of opts c ∈ sh.(sent)
}.

Record world_ok (w : World) : Prop := {
  ok_ids : NoDup (id <$> w.(shared).(table));
  ok_sent : forall e, e ∈ w.(shared).(sent) -> exists r, r ∈ w.(shared).(table) /\ e = row_entry r;
  ok_rows : forall r, r ∈ w.(shared).(table) -> row_ok w r;
  ok_phases : forall p, p ∈ w.(workers) -> phase_ok w.(shared) p
}.

(** *** Rows and their updates *)

Lemma same_id l r r' : NoDup (id <$> l) -> r ∈ l -> r' ∈ l -> r.(id) = r'.(id) -> r = r'.
Proof.
  induction l as [|a l IH]; [set_solver|]. rewrite fmap_cons, NoDup_cons, !elem_of_cons.
  intros [Ha Hn] [->|Hr] [->|Hr'] E; auto; exfalso; apply Ha; [rewrite E|rewrite <- E]; by apply list_elem_of_fmap_2.
Qed.

(** What an update may do to a row: its event stays, attempts are not forgotten. *)
Definition keeps (f : OutboxRow -> OutboxRow) : Prop :=
  forall r, (f r).(id) = r.(id) /\ (f r).(stream_name) = r.(stream_name) /\ (f r).(payload_json) = r.(payload_json)
    /\ (r.(attempts) <= (f r).(attempts))%nat.

Lemma keeps_lock now : keeps (lock_row now opts).
Proof. intros r. cbn. auto. Qed.

Lemma keeps_mark now : keeps (mark_dispatched now).
Proof. intros r. cbn. auto. Qed.

Lemma keeps_put_off until m : keeps (put_off until m).
Proof. intros r. cbn. auto. Qed.

Lemma update_ids ids f l : keeps f -> id <$> update_rows ids f l = id <$> l.
Proof.
  intros Hf. unfold update_rows. rewrite <- list_fmap_compose. apply list_fmap_ext. intros i r _. cbn.
  case_bool_decide; [apply Hf|done].
Qed.

Lemma update_elem ids f l r' :
  r' ∈ update_rows ids f l <-> exists r, r ∈ l /\ ((r.(id) ∈ ids /\ r' = f r) \/ (r.(id) ∉ ids /\ r' = r)).
Proof.
  unfold update_rows. rewrite list_elem_of_fmap. split.
  - intros (r & -> & Hr). exists r. case_bool_decide; auto.
  - intros (r & Hr & [[Hi ->]|[Hi ->]]); exists r; case_bool_decide; done.
Qed.

Lemma update_keeps ids f l r c :
  keeps f -> r ∈ l -> claims r c -> exists r', r' ∈ update_rows ids f l /\ claims r' c.
Proof.
  intros Hf Hr (E1 & E2 & E3 & E4). destruct (Hf r) as (F1 & F2 & F3 & F4). destruct (decide (r.(id) ∈ ids)).
  - exists (f r). split; [apply update_elem; eauto|]. unfold claims. rewrite F1, F2, F3. repeat split; try done. lia.
  - exists r. split; [apply update_elem; eauto|done].
Qed.

Lemma update_entry ids f l r : keeps f -> r ∈ l -> exists r', r' ∈ update_rows ids f l /\ row_entry r' = row_entry r.
Proof.
  intros Hf Hr. destruct (Hf r) as (F1 & F2 & F3 & _). destruct (decide (r.(id) ∈ ids)).
  - exists (f r). split; [apply update_elem; eauto|]. unfold row_entry. by rewrite F1, F2, F3.
  - exists r. split; [apply update_elem; eauto|done].
Qed.

Lemma claims_entry r c : claims r c -> entry_of opts c = row_entry r.
Proof. intros (E1 & E2 & E3 & _). unfold entry_of, row_entry. by rewrite E1, E2, E3. Qed.

(** *** Counting *)

Lemma sum_insert {A : Type} (f : A -> nat) (l : list A) i x y :
  l !! i = Some x -> (sum_list_with f (<[i := y]> l) + f x = sum_list_with f l + f y)%nat.
Proof.
  revert i. induction l as [|a l IH]; intros [|i] Hl; simplify_eq/=; [lia|]. specialize (IH i Hl). lia.
Qed.

Lemma sends_app k sh e : sends k (with_entry e sh) = (sends k sh + if bool_decide (e.(of_row) = k) then 1 else 0)%nat.
Proof. unfold sends. cbn. rewrite filter_app, length_app, filter_cons. repeat case_decide; case_bool_decide; done || (cbn; lia). Qed.

Lemma pending_cons k c l : (length (filter (fun c => c.(c_id) = k) (c :: l)) =
  length (filter (fun c => c.(c_id) = k) l) + if bool_decide (c.(c_id) = k) then 1 else 0)%nat.
Proof. rewrite filter_cons. case_decide; case_bool_decide; done || (cbn; lia). Qed.

Lemma update_none f l : update_rows [] f l = l.
Proof. unfold update_rows. rewrite <- (list_fmap_id l) at 2. apply list_fmap_ext. intros i r _. by case_bool_decide; [set_solver|]. Qed.

(** *** Every step keeps the invariant *)

Lemma insert_phase (l : list Phase) i p' q : q ∈ <[i := p']> l -> q = p' \/ q ∈ l.
Proof.
  intros [j Hj]%list_elem_of_lookup. destruct (decide (i = j)) as [<-|Hne].
  - apply list_lookup_insert_Some in Hj as [(_ & -> & _)|(? & _)]; auto. done.
  - rewrite list_lookup_insert_ne in Hj by done. right. by eapply list_elem_of_lookup_2.
Qed.

(** Dispatchers that do not move keep what they know. *)
Lemma phase_mono ids f sh more q :
  keeps f -> phase_ok sh q -> phase_ok {| table := update_rows ids f sh.(table); sent := sh.(sent) ++ more |} q.
Proof.
  intros Hf [Hh Ha]. split.
  - intros c Hc. destruct (Hh c Hc) as (r & Hr & Hcl). by apply (update_keeps ids f _ r).
  - intros c todo Hq. cbn. apply elem_of_app. left. by eapply Ha.
Qed.

(** A dispatcher goes on with no more to send than before, and the rows of [ids] are
    rewritten within their duties. *)
Lemma settle_ok w i p p' ids f :
  world_ok w -> w.(workers) !! i = Some p -> keeps f -> (forall r, (f r).(attempts) = r.(attempts)) ->
  (forall k, pending k p' <= pending k p)%nat -> (forall c, c ∈ held p' -> c ∈ held p) -> (forall c todo, p' <> Added c todo) ->
  (forall r, r ∈ w.(shared).(table) -> r.(id) ∈ ids ->
     ((f r).(dispatched_at) <> None -> row_entry r ∈ w.(shared).(sent))
     /\ ((f r).(available_at) = infinity -> (opts.(maxAttempts) <= r.(attempts))%nat) /\ (f r).(locked_until) = None) ->
  world_ok {| shared := with_table (update_rows ids f w.(shared).(table)) w.(shared);
              workers := <[i := p']> w.(workers); clock := w.(clock) |}.
Proof.
  intros [Hids Hsent Hrows Hph] Hi Hf Hatt Hpend Hheld Hadd Hnew. split; cbn.
  - by rewrite update_ids.
  - intros e He. destruct (Hsent e He) as (r & Hr & ->). destruct (update_entry ids f _ r Hf Hr) as (r' & ? & ?). eauto.
  - intros r' Hr'. apply update_elem in Hr' as (r & Hr & Hcase). destruct (Hrows r Hr) as [Hs Hd Hinf Hl].
    pose proof (sum_insert (pending r.(id)) _ i p p' Hi) as Hsum. specialize (Hpend r.(id)).
    destruct Hcase as [[Hin ->]|[_ ->]].
    + destruct (Hf r) as (F1 & F2 & F3 & F4). destruct (Hnew r Hr Hin) as (N1 & N2 & N3). split; cbn.
      * rewrite F1, Hatt. unfold sends in *. cbn in *. lia.
      * unfold row_entry. rewrite F1, F2, F3. exact N1.
      * rewrite Hatt. exact N2.
      * rewrite N3. done.
    + split; cbn; auto. unfold sends in *. cbn in *. lia.
  - intros q Hq. apply insert_phase in Hq as [->|Hq].
    + assert (Hp : phase_ok w.(shared) p) by (apply Hph; by eapply list_elem_of_lookup_2). destruct Hp as [Hh _]. split.
      * intros c Hc. destruct (Hh c (Hheld c Hc)) as (r & Hr & Hcl). by apply (update_keeps ids f _ r).
      * intros c todo ->. by destruct (Hadd c todo).
    + pose proof (phase_mono ids f w.(shared) [] q Hf (Hph q Hq)) as Hm. by rewrite app_nil_r in Hm.
Qed.

Lemma calm_ok w i p p' :
  world_ok w -> w.(workers) !! i = Some p ->
  (forall k, pending k p' <= pending k p)%nat -> (forall c, c ∈ held p' -> c ∈ held p) -> (forall c todo, p' <> Added c todo) ->
  world_ok {| shared := w.(shared); workers := <[i := p']> w.(workers); clock := w.(clock) |}.
Proof.
  intros Hw Hi Hp Hh Ha.
  pose proof (settle_ok w i p p' [] (fun r => r) Hw Hi) as Hs. rewrite update_none in Hs.
  replace (with_table (table (shared w)) (shared w)) with (shared w) in Hs by (by destruct w as [[? ?] ? ?]).
  apply Hs; try done; try (by intros r). set_solver.
Qed.

(** Adding the entry of the next claim. *)
Lemma send_ok w i c todo p' :
  world_ok w -> w.(workers) !! i = Some (Working (c :: todo)) -> p' = Added c todo \/ (exists e, p' = Caught c e todo) ->
  world_ok {| shared := with_entry (entry_of opts c) w.(shared); workers := <[i := p']> w.(workers); clock := w.(clock) |}.
Proof.
  intros [Hids Hsent Hrows Hph] Hi Hp'.
  assert (Hwork : phase_ok w.(shared) (Working (c :: todo))) by (apply Hph; by eapply list_elem_of_lookup_2).
  assert (Hheld : held p' = c :: todo /\ todo_of p' = todo) by (by destruct Hp' as [->|[e ->]]). destruct Hheld as [Hheld Htodo].
  split; cbn; [done| | |].
  - intros e. rewrite elem_of_app, list_elem_of_singleton. intros [He| ->]; [auto|].
    destruct (ok_held _ _ Hwork c ltac:(set_solver)) as (r & Hr & Hcl). exists r. split; [done|by apply claims_entry].
  - intros r Hr. destruct (Hrows r Hr) as [Hs Hd Hinf Hl].
    pose proof (sum_insert (pending r.(id)) _ i _ p' Hi) as Hsum. split; cbn [shared workers clock]; auto.
    + rewrite sends_app. unfold pending at 2 4 in Hsum. rewrite Htodo in Hsum. cbn [todo_of] in Hsum. rewrite pending_cons in Hsum.
      cbn [of_row entry_of entry] in *. lia.
    + intros Hn. cbn. apply elem_of_app. auto.
  - intros q Hq. apply insert_phase in Hq as [->|Hq].
    + split; [rewrite Hheld; apply (ok_held _ _ Hwork)|]. intros c' todo' ->. cbn. destruct Hp' as [E|[e E]]; simplify_eq. set_solver.
    + pose proof (phase_mono [] (fun r => r) w.(shared) [entry_of opts c] q ltac:(by intros r) (Hph q Hq)) as Hm. by rewrite update_none in Hm.
Qed.

(** Claiming a batch. *)
Lemma sublist_ids (l l' : list OutboxRow) : l `sublist_of` l' -> (id <$> l) `sublist_of` (id <$> l').
Proof. induction 1; cbn; by constructor. Qed.

Lemma picked_facts now limit skip l :
  NoDup (id <$> l) ->
  NoDup (id <$> select_due now limit skip l) /\ (forall r, r ∈ select_due now limit skip l -> r ∈ l /\ is_due now r = true).
Proof.
  intros Hn. unfold select_due. set (m := merge_sort _ _).
  assert (Hperm : m ≡ₚ filter (fun r => is_due now r = true /\ r.(id) ∉ skip) l) by apply merge_sort_Permutation. split.
  - apply (sublist_NoDup _ (id <$> m)); [|apply sublist_ids, sublist_take].
    rewrite Hperm. eapply sublist_NoDup; [exact Hn|apply sublist_ids, sublist_filter].
  - intros r Hr. pose proof (elem_of_sublist _ _ _ Hr (sublist_take m limit)) as Hm. clear Hr. rename Hm into Hr. rewrite Hperm, list_elem_of_filter in Hr. tauto.
Qed.

Lemma pending_picked k p' picked f :
  keeps f -> NoDup (id <$> picked) -> p' = Idle \/ p' = Working ((fun r => claim_of (f r)) <$> picked) ->
  (pending k p' <= if bool_decide (k ∈ id <$> picked) then 1 else 0)%nat.
Proof.
  intros Hf Hnd [->| ->]; [cbn; lia|]. unfold pending. cbn [todo_of]. induction picked as [|r l IH]; [cbn; lia|].
  cbn [fmap list_fmap] in Hnd |- *. apply NoDup_cons in Hnd as [Hr Hnd]. specialize (IH Hnd). rewrite pending_cons.
  cbn [c_id claim_of]. destruct (Hf r) as [-> _]. repeat case_bool_decide; subst; try lia; set_solver.
Qed.

Lemma claim_ok w i skip t cs p' :
  world_ok w -> w.(workers) !! i = Some Idle -> claimBatch w.(clock) opts skip w.(shared).(table) = (t, cs) ->
  p' = Idle \/ p' = Working cs ->
  world_ok {| shared := with_table t w.(shared); workers := <[i := p']> w.(workers); clock := w.(clock) |}.
Proof.
  intros [Hids Hsent Hrows Hph] Hi Hc Hp'. unfold claimBatch in Hc. injection Hc as <- <-.
  set (picked := select_due _ _ _ _) in *. set (f := lock_row w.(clock) opts) in *. set (ids := id <$> picked) in *.
  destruct (picked_facts w.(clock) opts.(batchSize) skip w.(shared).(table) Hids) as [Hnd Hpk]. fold picked ids in Hnd, Hpk.
  assert (Hf : keeps f) by apply keeps_lock. split; cbn.
  - by rewrite update_ids.
  - intros e He. destruct (Hsent e He) as (r & Hr & ->). destruct (update_entry ids f _ r Hf Hr) as (r' & ? & ?). eauto.
  - intros r' Hr'. apply update_elem in Hr' as (r & Hr & Hcase). destruct (Hrows r Hr) as [Hs Hd Hinf Hl].
    pose proof (sum_insert (pending r.(id)) _ i _ p' Hi) as Hsum. change (pending r.(id) Idle) with 0%nat in Hsum.
    pose proof (pending_picked r.(id) p' picked f Hf Hnd Hp') as Hp. fold ids in Hp.
    destruct Hcase as [[Hin ->]|[Hin ->]].
    + rewrite bool_decide_true in Hp by done. split; cbn.
      * unfold sends in *. cbn in *. lia.
      * exact Hd.
      * intros E. specialize (Hinf E). lia.
      * intros t Ht. simplify_eq. unfold lock_limit. lia.
    + rewrite bool_decide_false in Hp by done. split; cbn; auto. unfold sends in *. cbn in *. lia.
  - intros q Hq. apply insert_phase in Hq as [->|Hq].
    + split; [|intros c todo ->; by destruct Hp']. intros c Hc. destruct Hp' as [->| ->]; [by apply elem_of_nil in Hc|].
      apply list_elem_of_fmap in Hc as (r & -> & Hr). exists (f r). split; [|by repeat split].
      apply update_elem. exists r. split; [by apply Hpk|]. left. split; [|done]. by apply list_elem_of_fmap_2.
    + pose proof (phase_mono ids f w.(shared) [] q Hf (Hph q Hq)) as Hm. by rewrite app_nil_r in Hm.
Qed.

Lemma work_ok w i p p' sh skip jitter o :
  world_ok w -> w.(workers) !! i = Some p -> work opts w.(clock) skip jitter o p w.(shared) = (p', sh) ->
  world_ok {| shared := sh; workers := <[i := p']> w.(workers); clock := w.(clock) |}.
Proof.
  intros Hw Hi Hwork.
  assert (Hp : phase_ok w.(shared) p) by (apply (ok_phases _ Hw); by eapply list_elem_of_lookup_2).
  assert (Hmine : forall c r, c ∈ held p -> r ∈ w.(shared).(table) -> r.(id) ∈ [c.(c_id)] -> claims r c).
  { intros c r Hc Hr Hid. destruct (ok_held _ _ Hp c Hc) as (r0 & Hr0 & Hcl). apply list_elem_of_singleton in Hid.
    destruct (same_id _ r0 r (ok_ids _ Hw) Hr0 Hr); [|done]. rewrite Hid. symmetry. apply Hcl. }
  destruct p as [|[|c todo]|c todo|c e todo]; cbn [work] in Hwork.
  - destruct (claimBatch _ _ _ _) as [t cs] eqn:Hc. destruct o; simplify_eq.
    + eapply claim_ok; eauto.
    + eapply claim_ok; eauto.
    + eapply calm_ok; eauto.
  - simplify_eq. eapply calm_ok; eauto.
  - destruct o; simplify_eq; [eapply send_ok; eauto..|]. eapply calm_ok; eauto; try done.
    intros k. unfold pending. cbn [todo_of]. rewrite pending_cons. lia.
  - assert (Hmark : forall p', (forall k, pending k p' <= pending k (Added c todo))%nat -> (forall c', c' ∈ held p' -> c' ∈ held (Added c todo)) ->
      (forall c todo, p' <> Added c todo) ->
      world_ok {| shared := with_table (update_rows [c.(c_id)] (mark_dispatched w.(clock)) w.(shared).(table)) w.(shared);
                  workers := <[i := p']> w.(workers); clock := w.(clock) |}).
    { intros q H1 H2 H3. eapply settle_ok; eauto using keeps_mark. intros r Hr Hid. cbn. split_and!; [|by apply (ok_infinity _ _ (ok_rows _ Hw r Hr))|done].
      intros _. rewrite <- (claims_entry r c); [by eapply ok_added|]. apply Hmine; [set_solver|done|done]. }
    destruct o; simplify_eq; [apply Hmark|apply Hmark|eapply calm_ok; eauto]; try done; set_solver.
  - assert (Hoff : forall p', (forall k, pending k p' <= pending k (Caught c e todo))%nat -> (forall c', c' ∈ held p' -> c' ∈ held (Caught c e todo)) ->
      (forall c todo, p' <> Added c todo) ->
      world_ok {| shared := with_table (settle_failure w.(clock) opts jitter e c w.(shared).(table)) w.(shared);
                  workers := <[i := p']> w.(workers); clock := w.(clock) |}).
    { intros q H1 H2 H3. unfold settle_failure. eapply settle_ok; eauto using keeps_put_off. intros r Hr Hid. cbn. split_and!; [|  |done].
      - apply (ok_dispatched _ _ (ok_rows _ Hw r Hr)).
      - destruct (Nat.leb_spec opts.(maxAttempts) c.(c_attempts)); [|done]. intros _.
        destruct (Hmine c r ltac:(set_solver) Hr Hid) as (_ & _ & _ & ?). lia. }
    destruct o; simplify_eq; [apply Hoff|apply Hoff|eapply calm_ok; eauto]; try done; try set_solver; intros k; cbn; lia.
Qed.

Lemma none_counted {A : Type} (P : A -> Prop) `{!forall x, Decision (P x)} l : (forall x, x ∈ l -> ~ P x) -> length (filter P l) = 0%nat.
Proof. induction l as [|a l IH]; [done|]. intros Hn. rewrite filter_cons. case_decide; [by destruct (Hn a ltac:(set_solver))|]. apply IH. set_solver. Qed.

Lemma enqueue_ok w newId args :
  world_ok w -> newId ∉ id <$> w.(shared).(table) ->
  world_ok {| shared := with_table (enqueueOutbox w.(clock) newId args w.(shared).(table)) w.(shared);
              workers := w.(workers); clock := w.(clock) |}.
Proof.
  intros [Hids Hsent Hrows Hph] Hnew. unfold enqueueOutbox. split; cbn.
  - rewrite fmap_app, NoDup_app. split_and!; [done| |apply NoDup_singleton]. intros k Hk. cbn. rewrite list_elem_of_singleton. by intros ->.
  - intros e He. destruct (Hsent e He) as (r & ? & ?). exists r. rewrite elem_of_app. auto.
  - intros r. rewrite elem_of_app, list_elem_of_singleton. intros [Hr| ->]; [by destruct (Hrows r Hr)|]. split; cbn; try done.
    assert (Hz : forall k, k ∉ id <$> w.(shared).(table) -> sends k w.(shared) = 0%nat /\ sum_list_with (pending k) w.(workers) = 0%nat).
    { intros k Hk. split.
      - apply none_counted. intros e He Ek. destruct (Hsent e He) as (r & Hr & ->). apply Hk. rewrite <- Ek. exact (list_elem_of_fmap_2 id _ _ Hr).
      - clear -Hph Hk. induction w.(workers) as [|p l IH]; [done|]. cbn. rewrite IH by (intros; apply Hph; set_solver).
        rewrite Nat.add_0_r. apply none_counted. intros c Hc Ek. destruct (ok_held _ _ (Hph p ltac:(set_solver)) c) as (r & Hr & Hcl); [by destruct p; set_solver|].
        apply Hk. rewrite <- Ek. destruct Hcl as [-> _]. by apply list_elem_of_fmap_2. }
    unfold sends. cbn. destruct (Hz newId Hnew) as [E1 E2]. unfold sends in E1. lia.
  - intros p Hp. destruct (Hph p Hp) as [Hh Ha]. split; [|done]. intros c Hc. destruct (Hh c Hc) as (r & ? & ?). exists r. cbn. rewrite elem_of_app. auto.
Qed.

Lemma world_step w w' : step w w' -> world_ok w -> world_ok w'.
Proof.
  intros [w0 t Ht|w0 newId args Hnew|w0 i p p' sh skip jitter o Hi Hwork _|w0 i p Hi] Hw.
  - destruct Hw as [Hids Hsent Hrows Hph]. split; cbn; auto. intros r Hr. destruct (Hrows r Hr) as [? ? ? Hl]. split; cbn; auto.
    intros u Hu. specialize (Hl u Hu). unfold lock_limit in *. lia.
  - by apply enqueue_ok.
  - by eapply work_ok.
  - apply (calm_ok w0 i p Idle Hw Hi); [intros k; cbn; lia|set_solver|done].
Qed.

Lemma idle_ok n t : world_ok (idle_world n t).
Proof.
  split; cbn; try set_solver; [constructor|]. intros p Hp. apply elem_of_replicate in Hp as [-> _]. split; [set_solver|done].
Qed.

Lemma reachable_ok n t w : reachable n t w -> world_ok w.
Proof. unfold reachable. intros Hr. pose proof (idle_ok n t) as Hi. induction Hr; eauto using world_step. Qed.

(** *** Signatures *)

(** The fields as their receiver reads them, and that their signature is theirs. *)
Definition verifies (key stream : string) (fields : list string) : Prop :=
  ordered_get STREAM_SIG_FIELD (fieldsToValues fields) = Some (SStr (hmac_sha256 key (canonicalizeStream stream (fieldsToValues fields)))).

End system.

(** What a receiver sees of an object. *)
Definition received (vs : payload) : payload := omap (fun kv => match stream_text kv.2 with Some s => Some (kv.1, SStr s) | None => None end) vs.

Lemma received_flat vs : flattenForXAdd vs = flatten (received vs).
Proof. induction vs as [|[k v] vs IH]; [done|]. unfold flattenForXAdd, received in *. cbn. destruct (stream_text v); cbn; by rewrite IH. Qed.

Lemma received_keys vs : (received vs).*1 `sublist_of` vs.*1.
Proof. induction vs as [|[k v] vs IH]; [constructor|]. unfold received in *. cbn. destruct (stream_text v); cbn; by constructor. Qed.

Lemma received_read vs : NoDup vs.*1 -> fieldsToValues (flattenForXAdd vs) = received vs.
Proof.
  intros Hn. rewrite received_flat. unfold fieldsToValues. rewrite add_fields_flatten; [done| | |set_solver].
  - by eapply sublist_NoDup; [|apply received_keys].
  - apply Forall_forall. intros kv. unfold received. rewrite list_elem_of_omap. intros (kv' & _ & E). destruct (stream_text _); simplify_eq. by eexists.
Qed.

Lemma received_get vs k : NoDup vs.*1 -> ordered_get k (received vs) = match ordered_get k vs with Some v => SStr <$> stream_text v | None => None end.
Proof.
  induction vs as [|[k0 v0] vs IH]; [done|]. cbn [fmap list_fmap fst]. intros [Hk Hn]%NoDup_cons. specialize (IH Hn). unfold received in *. cbn.
  destruct (stream_text v0) eqn:Ht; cbn; case_bool_decide; subst; rewrite ?Ht; try done.
  rewrite IH. destruct (ordered_get k vs) eqn:E; [|done]. apply ordered_get_elem in E. destruct Hk. by apply (list_elem_of_fmap_2 fst) in E.
Qed.

(** Sorting and selecting commute. *)
#[export] Instance string_le_total : Total string_le.
Proof. intros a b. apply String.leb_total. Qed.

#[export] Instance string_le_trans : Transitive string_le.
Proof. intros a b c. unfold string_le. rewrite !leb_cases. intros [->|?] [->|?]; eauto using id_lt_trans. Qed.

Lemma string_le_antisym a b : string_le a b -> string_le b a -> a = b.
Proof. apply String.leb_antisym. Qed.

Lemma sorted_filter (P : string -> Prop) `{!forall x, Decision (P x)} (l : list string) : StronglySorted string_le l -> StronglySorted string_le (filter P l).
Proof.
  induction 1 as [|a l Hs IH Ha]; [constructor|]. rewrite filter_cons. case_decide; [|done]. constructor; [done|].
  rewrite Forall_forall in *. intros b [_ Hb]%list_elem_of_filter. auto.
Qed.

Lemma sort_filter (P : string -> Prop) `{!forall x, Decision (P x)} (l l' : list string) :
  l' ≡ₚ filter P l -> sort_strings l' = filter P (sort_strings l).
Proof.
  intros Hp. unfold sort_strings. apply (StronglySorted_unique_strong string_le).
  - intros x y _ _. apply string_le_antisym.
  - apply StronglySorted_merge_sort; apply _.
  - apply sorted_filter, StronglySorted_merge_sort; apply _.
  - by rewrite !merge_sort_Permutation.
Qed.

Lemma foldl_filter {A B : Type} (P : A -> Prop) `{!forall x, Decision (P x)} (f g : B -> A -> B) (l : list A) (b : B) :
  (forall b a, P a -> f b a = g b a) -> (forall b a, ~ P a -> g b a = b) -> foldl f b (filter P l) = foldl g b l.
Proof.
  intros H1 H2. revert b. induction l as [|a l IH]; intros b; [done|]. rewrite filter_cons. case_decide as Hd; cbn.
  - by rewrite H1, IH.
  - by rewrite H2, IH.
Qed.

Lemma received_keys_filter vs :
  NoDup vs.*1 -> filter (fun k => k <> STREAM_SIG_FIELD) (received vs).*1
    ≡ₚ filter (fun k => is_Some (ordered_get k (received vs))) (filter (fun k => k <> STREAM_SIG_FIELD) vs.*1).
Proof.
  intros Hn. apply NoDup_Permutation.
  - eapply sublist_NoDup; [exact Hn|]. etrans; [apply sublist_filter|apply received_keys].
  - eapply sublist_NoDup; [exact Hn|]. etrans; [apply sublist_filter|apply sublist_filter].
  - intros k. rewrite !list_elem_of_filter. split.
    + intros [Hs Hk]. split_and!; [|done|by eapply elem_of_sublist; [|apply received_keys]].
      destruct (ordered_get k (received vs)) eqn:E; [by eexists|]. apply list_elem_of_fmap in Hk as ([k' v] & -> & Hk). by apply (ordered_get_none _ _ v) in E.
    + intros ([v Hv] & Hs & _). split; [done|]. apply ordered_get_elem in Hv. by apply (list_elem_of_fmap_2 fst) in Hv.
Qed.

(** What is signed is what a receiver reads. *)
Lemma canonicalize_received stream vs : NoDup vs.*1 -> canonicalizeStream stream (received vs) = canonicalizeStream stream vs.
Proof.
  intros Hn. unfold canonicalizeStream. rewrite (sort_filter _ _ _ (received_keys_filter vs Hn)). apply foldl_filter.
  - intros out k _. rewrite received_get by done. destruct (ordered_get k vs) as [v|]; [|done]. cbn. by destruct (stream_text v).
  - intros out k Hk. rewrite received_get in Hk by done. destruct (ordered_get k vs) as [v|]; [|done]. cbn in Hk.
    destruct (stream_text v); [by destruct Hk; eexists|done].
Qed.

Lemma message_keys rowId p : NoDup (message rowId p).*1.
Proof.
  unfold message. rewrite <- (reverse_involutive p). induction (reverse p) as [|kv l IH]; [by apply NoDup_singleton|].
  rewrite reverse_cons, foldl_app. cbn. by apply ordered_set_keys.
Qed.


Lemma other_keys {A : Type} k (v : A) m : filter (fun k' => k' <> k) (ordered_set k v m).*1 = filter (fun k' => k' <> k) m.*1.
Proof.
  induction m as [|[k0 v0] m IH]; cbn [ordered_set].
  - change ([(k, v)].*1) with [k]. by rewrite filter_cons_False by naive_solver.
  - case_bool_decide; subst; [done|]. change (((k0, v0) :: ?l).*1) with (k0 :: l.*1). rewrite !(filter_cons_True _ k0) by done. by f_equal.
Qed.

(** The signature is not part of what it signs. *)
Lemma canonicalize_sig stream vs v : canonicalizeStream stream (ordered_set STREAM_SIG_FIELD v vs) = canonicalizeStream stream vs.
Proof.
  unfold canonicalizeStream. rewrite other_keys.
  assert (Hall : Forall (fun k => k <> STREAM_SIG_FIELD) (sort_strings (filter (fun k => k <> STREAM_SIG_FIELD) vs.*1))).
  { apply Forall_forall. intros k. unfold sort_strings. rewrite merge_sort_Permutation, list_elem_of_filter. naive_solver. }
  generalize (stream +:+ newline). induction Hall as [|k ks Hk _ IH]; intros acc; [done|]. cbn [foldl].
  rewrite ordered_get_set, bool_decide_false by congruence. apply IH.
Qed.

Section theorems.
Context `{Digests}.

Lemma entry_verifies opts key rowId stream p :
  opts.(streamHmacKey) = Some key -> verifies key stream (entry opts rowId stream p).(e_fields).
Proof.
  intros Hk. unfold verifies, entry, signed. cbn [e_fields]. rewrite Hk.
  assert (Hn : NoDup (ordered_set STREAM_SIG_FIELD (SStr (signStream key stream (message rowId p))) (message rowId p)).*1)
    by apply ordered_set_keys, message_keys.
  rewrite received_read, received_get, canonicalize_received, canonicalize_sig by done. by rewrite ordered_get_set, bool_decide_true.
Qed.

(** A row keeps its event whatever happens. *)
Lemma step_event opts w w' r :
  step opts w w' -> r ∈ w.(shared).(table) ->
  exists r', r' ∈ w'.(shared).(table) /\ row_entry opts r' = row_entry opts r /\ (r.(attempts) <= r'.(attempts))%nat.
Proof.
  assert (Hup : forall ids f t, keeps f -> r ∈ t -> exists r', r' ∈ update_rows ids f t /\ row_entry opts r' = row_entry opts r /\ (r.(attempts) <= r'.(attempts))%nat).
  { intros ids f t Hf Hr. destruct (Hf r) as (F1 & F2 & F3 & F4). destruct (decide (r.(id) ∈ ids)).
    - exists (f r). split; [apply update_elem; eauto|]. unfold row_entry. by rewrite F1, F2, F3.
    - exists r. split; [apply update_elem; eauto|done]. }
  intros [w0 t Ht|w0 newId args Hnew|w0 i p p' sh skip jitter o Hi Hwork _|w0 i p Hi] Hr; cbn in *; try (by exists r).
  - exists r. unfold enqueueOutbox. rewrite elem_of_app. auto.
  - destruct p as [|[|c todo]|c todo|c e todo]; cbn [work] in Hwork; [unfold claimBatch in Hwork| |..]; try destruct o; simplify_eq; cbn; try (by exists r);
      unfold settle_failure; eauto using keeps_lock, keeps_mark, keeps_put_off.
Qed.

Lemma steps_event opts w w' r :
  rtc (step opts) w w' -> r ∈ w.(shared).(table) ->
  exists r', r' ∈ w'.(shared).(table) /\ row_entry opts r' = row_entry opts r /\ (r.(attempts) <= r'.(attempts))%nat.
Proof.
  intros Hs. revert r. induction Hs as [w|w w1 w' H1 _ IH]; intros r Hr; [by exists r|].
  destruct (step_event opts w w1 r H1 Hr) as (r1 & Hr1 & E1 & ?). destruct (IH r1 Hr1) as (r2 & Hr2 & E2 & ?). exists r2. split_and!; [done|congruence|lia].
Qed.

(** When a row that is neither dispatched nor given up is next due. *)
Definition due_from (r : OutboxRow) : option Z :=
  match r.(available_at) with
  | At t => Some (match r.(locked_until) with Some l => Z.max t (l + 1) | None => t end)
  | infinity => None
  end.

Lemma due_from_spec r t now : r.(dispatched_at) = None -> due_from r = Some t -> is_due now r = true <-> t <= now.
Proof.
  intros Hd. unfold due_from, is_due. rewrite Hd. destruct (available_at r) as [a|]; [|done]. intros E. simplify_eq. cbn [andb].
  destruct (locked_until r); rewrite ?andb_true_r, ?andb_true_iff; lia.
Qed.

(** C13. Any number of dispatchers drain the outbox, their statements interleaved, each of
    them carried out, carried out with its reply lost, or not at all, and processes stopping
    in between.  No event is lost: a row stays with its event whatever follows, it counts as
    dispatched only once its message is in its stream, and it is put out of reach only after
    the maximal number of attempts; otherwise it is due again at a definite time, no later
    than its retry time and the longest lock allow.  Every entry of a stream is the message
    of a row, a row has at most one entry per attempt, and under a key every entry verifies
    as its receiver reads it. *)
Theorem outbox_loses_nothing opts n t w :
  reachable opts n t w ->
  (forall w' r, rtc (step opts) w w' -> r ∈ w.(shared).(table) ->
     exists r', r' ∈ w'.(shared).(table) /\ row_entry opts r' = row_entry opts r)
  /\ (forall r, r ∈ w.(shared).(table) ->
       (r.(dispatched_at) <> None -> row_entry opts r ∈ w.(shared).(sent))
       /\ (sends r.(id) w.(shared) <= r.(attempts))%nat
       /\ (r.(dispatched_at) = None ->
           (r.(available_at) = infinity /\ (opts.(maxAttempts) <= r.(attempts))%nat)
           \/ exists a u, r.(available_at) = At a /\ u <= Z.max a (lock_limit opts w.(clock) + 1)
                /\ forall now, is_due now r = true <-> u <= now))
  /\ (forall e, e ∈ w.(shared).(sent) ->
       (exists r, r ∈ w.(shared).(table) /\ e = row_entry opts r)
       /\ forall key, opts.(streamHmacKey) = Some key -> verifies key e.(e_stream) e.(e_fields)).
Proof.
  intros Hr. apply reachable_ok in Hr as [Hids Hsent Hrows Hph]. split_and!.
  - intros w' r Hs Hr. destruct (steps_event opts w w' r Hs Hr) as (r' & ? & ? & _). eauto.
  - intros r Hr. destruct (Hrows r Hr) as [Hs Hd Hinf Hl]. split_and!; [done|lia|]. intros Hn.
    destruct (available_at r) as [a|] eqn:Ha; [right|by left; auto].
    destruct (due_from r) as [u|] eqn:Hu; [|by unfold due_from in Hu; rewrite Ha in Hu].
    exists a, u. split_and!; [done| |by intros now; apply due_from_spec].
    unfold due_from in Hu. rewrite Ha in Hu. destruct (locked_until r) as [l|]; simplify_eq; [|lia]. specialize (Hl l eq_refl). lia.
  - intros e He. destruct (Hsent e He) as (r & Hr & ->). split; [eauto|]. intros key Hk. by apply entry_verifies.
Qed.

(** *** An undisturbed tick *)

Definition marked (now : Z) (cs : list Claim) (t : list OutboxRow) : list OutboxRow :=
  foldl (fun t c => update_rows [c.(c_id)] (mark_dispatched now) t) t cs.

Lemma finish_spec opts now cs fuel w :
  (2 * length cs < fuel)%nat ->
  finish fuel opts now (Working cs) w
  = (Idle, {| table := marked now cs w.(table); sent := w.(sent) ++ (entry_of opts <$> cs) |}).
Proof.
  revert fuel w. induction cs as [|c cs IH]; intros fuel w Hf.
  - destruct fuel as [|fuel]; [lia|]. cbn. destruct fuel; cbn; rewrite app_nil_r; by destruct w.
  - cbn [length] in Hf. destruct fuel as [|[|fuel]]; [lia|lia|].
    change (finish (S (S fuel)) opts now (Working (c :: cs)) w) with
      (finish fuel opts now (Working cs) (with_table (update_rows [c.(c_id)] (mark_dispatched now) w.(table)) (with_entry (entry_of opts c) w))).
    rewrite IH by lia. cbn. by rewrite <- app_assoc.
Qed.

Lemma marked_keeps now cs t r :
  r ∈ t -> exists r', r' ∈ marked now cs t /\ r'.(id) = r.(id) /\ (r.(dispatched_at) = Some now \/ r.(id) ∈ c_id <$> cs -> r'.(dispatched_at) = Some now).
Proof.
  revert t r. induction cs as [|c cs IH]; intros t r Hr; [exists r; set_solver|]. cbn [marked foldl].
  destruct (decide (r.(id) = c.(c_id))) as [E|E].
  - destruct (IH (update_rows [c.(c_id)] (mark_dispatched now) t) (mark_dispatched now r)) as (r' & Hr' & Ei & Hd).
    { apply update_elem. exists r. split; [done|]. left. set_solver. }
    exists r'. split_and!; [done|done|]. intros _. by apply Hd; left.
  - destruct (IH (update_rows [c.(c_id)] (mark_dispatched now) t) r) as (r' & Hr' & Ei & Hd).
    { apply update_elem. exists r. split; [done|]. right. set_solver. }
    exists r'. split_and!; [done|done|]. intros [?|Hc]; apply Hd; [by left|right; set_solver].
Qed.

(** A tick in which nothing fails ends, and sends and settles every row it claims; when no
    more rows are due than fit in a batch, that is every due row. *)
Theorem tick_drains opts now w p' w' :
  NoDup (id <$> w.(table)) -> tick opts now w = (p', w') ->
  p' = Idle
  /\ (forall r, r ∈ select_due now opts.(batchSize) [] w.(table) ->
       row_entry opts r ∈ w'.(sent) /\ exists r', r' ∈ w'.(table) /\ r'.(id) = r.(id) /\ r'.(dispatched_at) = Some now)
  /\ ((length (filter (fun r => is_due now r = true) w.(table)) <= opts.(batchSize))%nat ->
      forall r, r ∈ w.(table) -> is_due now r = true -> r ∈ select_due now opts.(batchSize) [] w.(table)).
Proof.
  intros Hids Ht. unfold tick, work, claimBatch in Ht. set (picked := select_due _ _ _ _) in *.
  assert (Hlen : (length picked <= opts.(batchSize))%nat) by (unfold picked, select_due; rewrite length_take; lia).
  rewrite finish_spec in Ht by (rewrite length_fmap; lia). injection Ht as <- <-. split_and!; [done| |].
  - intros r Hr. destruct (picked_facts now opts.(batchSize) [] w.(table) Hids) as [_ Hpk]. destruct (Hpk r Hr) as [Hin _]. split; cbn.
    + apply elem_of_app. right. rewrite <- list_fmap_compose. apply list_elem_of_fmap. by exists r.
    + destruct (marked_keeps now ((fun r => claim_of (lock_row now opts r)) <$> picked) (update_rows (id <$> picked) (lock_row now opts) w.(table)) (lock_row now opts r))
        as (r' & Hr' & Ei & Hd).
      { apply update_elem. exists r. split; [done|]. left. split; [by apply list_elem_of_fmap_2|done]. }
      exists r'. split_and!; [done|done|]. apply Hd. right. rewrite <- list_fmap_compose. apply list_elem_of_fmap. by exists r.
  - intros Hfew r Hr Hd. unfold picked, select_due. rewrite take_ge.
    + rewrite merge_sort_Permutation, list_elem_of_filter. set_solver.
    + rewrite merge_sort_Permutation. etrans; [|exact Hfew]. apply sublist_length. clear. induction w.(table) as [|a l IH]; [constructor|].
      rewrite !filter_cons. repeat case_decide; try constructor; try done. naive_solver.
Qed.

End theorems.

End ApiOutbox.
