(* ===== verification/PolicySets.v ===== *)
(** * Policies, policy sets and their activation

    [apps/api/src/routes/policies.ts] and [routes/policy-sets.ts].  A policy has immutable
    versions; a version of a policy set lists policy versions; activating one makes it the
    enforcement of its zone and announces it on a stream, both in one transaction.  A
    handler reads before its transaction, so those reads are arguments of their own: the
    database may have moved on since.  A transaction is one step, as the advisory lock of
    its zone or of its object makes it. *)

From Stdlib Require Import Ascii.
From Stdlib Require String.
From S2P Require Import Prelude.
From S2P Require Import Scope.
From S2P Require Import Json.
From S2P Require Import JsonText.
From S2P Require Import Text.
From S2P Require Import Streams.
From S2P Require Import AdminAudit.
From S2P Require Import ApiAuth.
From S2P Require Import Approvals.
From S2P Require Import ApiOutbox.
From S2P Require Import Rego.
Local Open Scope string_scope.
Local Open Scope Z_scope.

Module PolicySets.
Import ApiOutbox.

Definition Attribution : Type := Grants.Attribution.

Definition MANIFEST_MAX_ENTRIES : nat := 256.
Definition STREAM_POLICY_INVALIDATE : string := "caracal.policy.invalidate".

Record Policy := { p_zone : string; p_name : string; p_description : option string; p_archived : option Z; p_created : Attribution; p_updated : option Attribution }.

Record PolicyVersion := { policy_id : string; v_number : Z; content : string; content_sha256 : string; v_schema : string; v_created : Attribution }.

Record PolicySet := { s_zone : string; s_name : string; s_description : option string; s_archived : option Z; s_created : Attribution; s_updated : option Attribution }.

(** [PolicyManifest]: the [policy_version_id] of each entry. *)
Definition PolicyManifest : Type := list (option string).

Record SetVersion := { policy_set_id : string; sv_number : Z; manifest : PolicyManifest; manifest_sha256 : string; sv_schema : string; sv_created : Attribution }.

(** [zones] are the zones that are not archived; a binding holds its [active_version_id]. *)
Record Db := {
  zones : list string;
  policies : gmap string Policy;
  policy_versions : gmap string PolicyVersion;
  policy_sets : gmap string PolicySet;
  set_versions : gmap string SetVersion;
  bindings : gmap (string * string) (option string);
  event_outbox : list OutboxRow
}.

Definition with_policies (ps : gmap string Policy) (vs : gmap string PolicyVersion) (db : Db) : Db :=
  {| zones := db.(zones); policies := ps; policy_versions := vs; policy_sets := db.(policy_sets); set_versions := db.(set_versions);
     bindings := db.(bindings); event_outbox := db.(event_outbox) |}.

Definition with_sets (ss : gmap string PolicySet) (vs : gmap string SetVersion) (bs : gmap (string * string) (option string)) (evs : list OutboxRow) (db : Db) : Db :=
  {| zones := db.(zones); policies := db.(policies); policy_versions := db.(policy_versions); policy_sets := ss; set_versions := vs;
     bindings := bs; event_outbox := evs |}.

(** What a handler answers; [Crash] is an exception it does not handle. *)
Inductive Reply :=
| Error (status : Z) (code : string) (description : option string)
| Created (id : string)
| Accepted (version_id outbox_id : string)
| NoContent
| Crash.

Definition fail_with (status : Z) (code : string) : Reply := Error status code None.

Definition idShape : string -> bool := Approvals.idShape.
Definition nonempty_text : json -> option string := Grants.nonempty_text.

(** An optional string: absent, or a string. *)
Definition optional_text (v : json) : option (option string) := match v with JUndefined => Some None | JStr s => Some (Some s) | _ => None end.

(** ** Policies *)

Record PolicyBody := { b_name : string; b_description : option string; b_content : string }.

Definition parse_PolicyBody (body : json) : option PolicyBody :=
  match body with
  | JObj _ =>
      match nonempty_text (json_get "name" body), optional_text (json_get "description" body), nonempty_text (json_get "content" body) with
      | Some n, Some d, Some c => Some {| b_name := n; b_description := d; b_content := c |}
      | _, _, _ => None
      end
  | _ => None
  end.

Definition parse_VersionBody (body : json) : option string := match body with JObj _ => nonempty_text (json_get "content" body) | _ => None end.

Definition find_policy (zone id : string) (db : Db) : option Policy :=
  match db.(policies) !! id with
  | Some p => if bool_decide (p.(p_zone) = zone /\ p.(p_archived) = None) then Some p else None
  | None => None
  end.

(** [COALESCE(MAX(version), 0) + 1] over the versions of one object. *)
Definition next_number {V : Type} (owner : V -> string) (number : V -> Z) (id : string) (vs : gmap string V) : Z :=
  1 + foldr Z.max 0 (number <$> filter (fun v => owner v = id) (map_to_list vs).*2).

Section routes.
Context `{Digests}.

Definition policy_version (policyId : string) (n : Z) (c : string) (stamp : Attribution) : PolicyVersion :=
  {| policy_id := policyId; v_number := n; content := c; content_sha256 := sha256 c; v_schema := Rego.OPA_INPUT_SCHEMA_VERSION; v_created := stamp |}.

(** [POST /zones/:zoneId/policies]. *)
Definition createPolicy (zone policyId versionId : string) (body : json) (actor : ApiAuth.Actor) (stamp : Attribution) (read db : Db) : Db * Reply :=
  if negb (idShape zone) then (db, fail_with 400 "invalid_params")
  else if negb (bool_decide (zone ∈ read.(zones))) then (db, fail_with 404 "zone_not_found")
  else match parse_PolicyBody body with
  | None => (db, fail_with 400 "invalid_body")
  | Some b =>
      match ApiAuth.assertReservedNamespace ApiAuth.policyName (Some b.(b_name)) actor with
      | Some (code, description) => (db, Error 409 code (Some description))
      | None =>
          match Rego.validateAuthzPolicy b.(b_content) with
          | Some e => (db, Error 422 "invalid_rego" (Some e))
          | None =>
              let p := {| p_zone := zone; p_name := b.(b_name); p_description := b.(b_description); p_archived := None; p_created := stamp; p_updated := None |} in
              (with_policies (<[policyId := p]> db.(policies)) (<[versionId := policy_version policyId 1 b.(b_content) stamp]> db.(policy_versions)) db,
               Created policyId)
          end
      end
  end.

Definition stamp_policy (stamp : Attribution) (p : Policy) : Policy :=
  {| p_zone := p.(p_zone); p_name := p.(p_name); p_description := p.(p_description); p_archived := p.(p_archived); p_created := p.(p_created); p_updated := Some stamp |}.

(** [POST /zones/:zoneId/policies/:id/versions]. *)
Definition createPolicyVersion (zone policyId versionId : string) (body : json) (stamp : Attribution) (db : Db) : Db * Reply :=
  if negb (idShape zone && idShape policyId) then (db, fail_with 400 "invalid_params")
  else match parse_VersionBody body with
  | None => (db, fail_with 400 "invalid_body")
  | Some c =>
      match Rego.validateAuthzPolicy c with
      | Some e => (db, Error 422 "invalid_rego" (Some e))
      | None =>
          match find_policy zone policyId db with
          | None => (db, fail_with 404 "policy_not_found")
          | Some p =>
              let n := next_number policy_id v_number policyId db.(policy_versions) in
              (with_policies (<[policyId := stamp_policy stamp p]> db.(policies)) (<[versionId := policy_version policyId n c stamp]> db.(policy_versions)) db,
               Created versionId)
          end
      end
  end.

Definition archive_policy (now : Z) (stamp : Attribution) (p : Policy) : Policy :=
  {| p_zone := p.(p_zone); p_name := p.(p_name); p_description := p.(p_description); p_archived := Some now; p_created := p.(p_created); p_updated := Some stamp |}.

(** [DELETE /zones/:zoneId/policies/:id]. *)
Definition deletePolicy (now : Z) (zone policyId : string) (stamp : Attribution) (db : Db) : Db * Reply :=
  if negb (idShape zone && idShape policyId) then (db, fail_with 400 "invalid_params")
  else match find_policy zone policyId db with
  | None => (db, fail_with 404 "policy_not_found")
  | Some p => (with_policies (<[policyId := archive_policy now stamp p]> db.(policies)) db.(policy_versions) db, NoContent)
  end.

(** ** Policy sets *)

Record PolicySetBody := { sb_name : string; sb_description : option string }.

Definition parse_PolicySetBody (body : json) : option PolicySetBody :=
  match body with
  | JObj _ =>
      match nonempty_text (json_get "name" body), optional_text (json_get "description" body) with
      | Some n, Some d => Some {| sb_name := n; sb_description := d |}
      | _, _ => None
      end
  | _ => None
  end.

(** The entries of a manifest, reduced to the field the schema keeps. *)
Definition parse_PolicySetVersionBody (body : json) : option PolicyManifest :=
  match body with
  | JObj _ =>
      match json_get "manifest" body with
      | JArr vs =>
          if ((1 <=? length vs) && (length vs <=? MANIFEST_MAX_ENTRIES))%nat
          then mapM (fun v => match v with JObj _ => Some <$> nonempty_text (json_get "policy_version_id" v) | _ => None end) vs
          else None
      | _ => None
      end
  | _ => None
  end.

Definition parse_ActivateBody (body : json) : option string := match body with JObj _ => nonempty_text (json_get "version_id" body) | _ => None end.

(** [JSON.stringify(body.manifest)]. *)
Definition manifest_text (m : PolicyManifest) : string :=
  text (JArr ((fun e => JObj (match e with Some s => [("policy_version_id", JStr s)] | None => [] end)) <$> m)).

(** [policy_sets_zone_id_name_key]: the names of a zone's sets that are not archived differ. *)
Definition name_taken (zone name : string) (db : Db) : bool :=
  existsb (fun s => bool_decide (s.(s_zone) = zone /\ s.(s_name) = name /\ s.(s_archived) = None)) (map_to_list db.(policy_sets)).*2.

(** [POST /zones/:zoneId/policy-sets]. *)
Definition createPolicySet (zone newId : string) (body : json) (stamp : Attribution) (read db : Db) : Db * Reply :=
  if negb (idShape zone) then (db, fail_with 400 "invalid_params")
  else if negb (bool_decide (zone ∈ read.(zones))) then (db, fail_with 404 "zone_not_found")
  else match parse_PolicySetBody body with
  | None => (db, fail_with 400 "invalid_body")
  | Some b =>
      if name_taken zone b.(sb_name) db then (db, fail_with 409 "policy_set_name_conflict")
      else
        let s := {| s_zone := zone; s_name := b.(sb_name); s_description := b.(sb_description); s_archived := None; s_created := stamp; s_updated := None |} in
        (with_sets (<[newId := s]> db.(policy_sets)) db.(set_versions) (<[(zone, newId) := None]> db.(bindings)) db.(event_outbox) db, Created newId)
  end.

Definition find_set (zone id : string) (db : Db) : option PolicySet :=
  match db.(policy_sets) !! id with
  | Some s => if bool_decide (s.(s_zone) = zone /\ s.(s_archived) = None) then Some s else None
  | None => None
  end.

(** [collectManifestIds]. *)
Definition collectManifestIds (m : PolicyManifest) : list string :=
  omap (fun e => match e with Some s => if bool_decide (s = "") then None else Some s | None => None end) m.

Record PolicySetContract := { c_policies : list (string * PolicyVersion); schemaVersion : string; c_error : option string }.

Definition contract_fails (schema e : string) : PolicySetContract := {| c_policies := []; schemaVersion := schema; c_error := Some e |}.

(** The rows of the query, in the order of the manifest; PostgreSQL leaves the order open. *)
Definition contract_rows (ids : list string) (db : Db) : list (string * string * PolicyVersion) :=
  omap (fun i => match db.(policy_versions) !! i with
                 | Some v => match db.(policies) !! v.(policy_id) with Some p => Some (i, p.(p_zone), v) | None => None end
                 | None => None
                 end) ids.

(** What the loop finds wrong with one row. *)
Definition row_error (zone schema : string) (row : string * string * PolicyVersion) : option string :=
  let '(i, z, v) := row in
  let name := "policy version " +:+ i in
  if negb (bool_decide (z = zone)) then Some (name +:+ " belongs to a different zone")
  else if negb (bool_decide (v.(v_schema) = schema))
  then Some (name +:+ " schema " +:+ v.(v_schema) +:+ " does not match policy set schema " +:+ schema)
  else match Rego.validatePolicySchemaVersion v.(v_schema) with
  | Some e => Some (name +:+ " failed schema validation: " +:+ e)
  | None =>
      match Rego.validateAuthzPolicy v.(content) with
      | None => None
      | Some e =>
          Some (if bool_decide (e = "must_use_package_caracal_authz") then name +:+ " must use package caracal.authz"
                else if bool_decide (e = "must_be_data_document") then name +:+ " must be a data document marked # caracal:data-document"
                else if bool_decide (e = "data_document_must_not_define_result")
                then name +:+ " must not define result; the platform decision contract owns every decision"
                else if has_prefix "data_document_rule_not_allowed:" e
                then name +:+ " defines " +:+ drop_bytes 31 e +:+ ", which is owned by the platform decision contract"
                else name +:+ " failed validation: " +:+ e)
      end
  end.

Definition policySetContract (zone : string) (m : PolicyManifest) (db : Db) : PolicySetContract :=
  let rawIds := collectManifestIds m in
  let base := Rego.OPA_INPUT_SCHEMA_VERSION in
  if (length rawIds =? 0)%nat then contract_fails base "policy set manifest must reference at least one policy version"
  else if (MANIFEST_MAX_ENTRIES <? length rawIds)%nat then contract_fails base "policy set manifest exceeds maximum of 256 entries"
  else if negb (bool_decide (NoDup rawIds)) then contract_fails base "policy set manifest contains duplicate policy_version_id entries"
  else
    let rows := contract_rows rawIds db in
    if negb (length rows =? length rawIds)%nat then contract_fails base "policy set manifest references missing policy versions"
    else match rows with
    | [] => contract_fails base "policy set manifest references missing policy versions"
    | (_, _, v0) :: _ =>
        let schema := v0.(v_schema) in
        match head (omap (row_error zone schema) rows) with
        | Some e => contract_fails schema e
        | None => {| c_policies := (fun r => (r.1.1, r.2)) <$> rows; schemaVersion := schema; c_error := None |}
        end
    end.

(** *** The STS runtime *)

(** No key is configured, the request fails, the body is not JSON, or there is an answer. *)
Inductive StsReply :=
| NotConfigured
| Unreachable (reason : string)
| BadJson (reason : string)
| Answer (ok : bool) (status : Z) (payload : json).

Record PolicySimulationExecution := { warnings : list string; explanation : list (string * json); result : json }.

(** [execution.explanation.evaluation === 'failed']. *)
Definition has_failed (e : PolicySimulationExecution) : bool :=
  match json_get "evaluation" (JObj e.(explanation)) with JStr s => bool_decide (s = "failed") | _ => false end.

(** [executePolicySimulation]; [None] is its exception, reading a member of [null]. *)
Definition executePolicySimulation (reply : StsReply) : option (option PolicySimulationExecution) :=
  match reply with
  | NotConfigured => Some None
  | Unreachable reason =>
      Some (Some {| warnings := ["sts_simulation_unreachable:" +:+ reason];
                    explanation := [("evaluation", JStr "failed"); ("reason", JStr "STS simulation endpoint is unreachable")]; result := JNull |})
  | BadJson reason =>
      Some (Some {| warnings := ["sts_simulation_invalid_response:" +:+ reason];
                    explanation := [("evaluation", JStr "failed"); ("reason", JStr "STS simulation returned an unparseable response")]; result := JNull |})
  | Answer _ _ JNull => None
  | Answer false status payload =>
      Some (Some {| warnings := ["sts_simulation_failed:" +:+ js_String (nullish (json_get "error" payload) (JNum status))];
                    explanation := [("evaluation", JStr "failed");
                                    ("reason", nullish (json_get "detail" payload) (nullish (json_get "error" payload) (JStr "STS simulation failed")))];
                    result := JNull |})
  | Answer true _ payload =>
      let result := match json_get "result" payload with JObj fs => JObj fs | JArr vs => JArr vs | _ => JNull end in
      Some (Some {| warnings := [];
                    explanation := [("evaluation", JStr "executed");
                                    ("decision", json_get "decision" result);
                                    ("policy_set_version_id", json_get "version_id" payload);
                                    ("manifest_sha256", json_get "manifest_sha256" payload);
                                    ("reason", JStr "OPA evaluated the supplied input through the STS runtime engine without mutating active policy bindings")];
                    result := result |})
  end.

Record BundleCompileError := { be_status : Z; be_code : string; be_description : string }.

(** [verifyBundleCompiles]; [None] is an exception. *)
Definition verifyBundleCompiles (reply : StsReply) : option (option BundleCompileError) :=
  match executePolicySimulation reply with
  | None => None
  | Some None => Some None
  | Some (Some e) =>
      if negb (has_failed e) then Some None
      else
        let detail := js_String (nullish (json_get "reason" (JObj e.(explanation))) (JStr "policy bundle failed verification")) in
        if existsb (has_prefix "sts_simulation_unreachable:") e.(warnings)
        then Some (Some {| be_status := 503; be_code := "policy_verification_unavailable"; be_description := detail |})
        else Some (Some {| be_status := 422; be_code := "invalid_policy_bundle"; be_description := detail |})
  end.

(** The runtime's answer to the policies of a bundle. *)
Definition Runtime : Type := list (string * string) -> StsReply.

Definition bundle (c : PolicySetContract) : list (string * string) := (fun p => (p.1, p.2.(content))) <$> c.(c_policies).

Definition stamp_set (stamp : Attribution) (s : PolicySet) : PolicySet :=
  {| s_zone := s.(s_zone); s_name := s.(s_name); s_description := s.(s_description); s_archived := s.(s_archived); s_created := s.(s_created); s_updated := Some stamp |}.

(** [UPDATE policy_sets SET updated_by ... WHERE id = $1 AND zone_id = $2]. *)
Definition touch_set (zone id : string) (stamp : Attribution) (ss : gmap string PolicySet) : gmap string PolicySet :=
  match ss !! id with Some s => if bool_decide (s.(s_zone) = zone) then <[id := stamp_set stamp s]> ss else ss | None => ss end.

(** [POST /zones/:zoneId/policy-sets/:id/versions]: the set is read from [read1] and the
    policies from [read2]. *)
Definition createSetVersion (zone setId versionId : string) (body : json) (stamp : Attribution) (sts : Runtime) (read1 read2 db : Db) : Db * Reply :=
  if negb (idShape zone && idShape setId) then (db, fail_with 400 "invalid_params")
  else match parse_PolicySetVersionBody body with
  | None => (db, fail_with 400 "invalid_body")
  | Some m =>
      match find_set zone setId read1 with
      | None => (db, fail_with 404 "policy_set_not_found")
      | Some _ =>
          let contract := policySetContract zone m read2 in
          match contract.(c_error) with
          | Some e => (db, Error 422 "invalid_policy_contract" (Some e))
          | None =>
              match verifyBundleCompiles (sts (bundle contract)) with
              | None => (db, Crash)
              | Some (Some e) => (db, Error e.(be_status) e.(be_code) (Some e.(be_description)))
              | Some None =>
                  let v := {| policy_set_id := setId; sv_number := next_number policy_set_id sv_number setId db.(set_versions); manifest := m;
                              manifest_sha256 := sha256 (manifest_text m); sv_schema := contract.(schemaVersion); sv_created := stamp |} in
                  (with_sets (touch_set zone setId stamp db.(policy_sets)) (<[versionId := v]> db.(set_versions)) db.(bindings) db.(event_outbox) db, Created versionId)
              end
          end
      end
  end.

(** A version of a live set of the zone. *)
Definition find_version (zone setId versionId : string) (db : Db) : option SetVersion :=
  match db.(set_versions) !! versionId, find_set zone setId db with
  | Some v, Some _ => if bool_decide (v.(policy_set_id) = setId) then Some v else None
  | _, _ => None
  end.

(** [SELECT id FROM policy_versions WHERE id = ANY($1) FOR SHARE]: all of them are there. *)
Definition all_present (ids : list string) (db : Db) : bool := forallb (fun i => bool_decide (is_Some (db.(policy_versions) !! i))) ids.

(** The two updates of the bindings of a zone. *)
Definition bind_zone (zone setId : string) (active : option string) (bs : gmap (string * string) (option string)) : gmap (string * string) (option string) :=
  map_imap (fun k b => Some (if bool_decide (k.1 = zone) then (if bool_decide (k.2 = setId) then active else None) else b)) bs.

Definition invalidation (zone setId : string) (active : option string) (requestId : string) : EnqueueArgs :=
  {| a_stream := STREAM_POLICY_INVALIDATE;
     a_payload := [("zone_id", SStr zone); ("policy_set_id", SStr setId); ("policy_set_version_id", match active with Some v => SStr v | None => SNull end)];
     a_request := Some requestId; a_available := None |}.

(** The transaction of an activation; its aborts leave everything as it was. *)
Definition activate_tx (now : Z) (zone setId versionId outboxId requestId : string) (stamp : Attribution) (m : PolicyManifest) (db : Db) : Db * Reply :=
  match find_version zone setId versionId db with
  | None => (db, fail_with 404 "version_not_found")
  | Some _ =>
      if negb (all_present (collectManifestIds m) db) then (db, fail_with 409 "referenced_policy_version_missing")
      else match db.(bindings) !! (zone, setId) with
      | None => (db, fail_with 404 "policy_set_binding_not_found")
      | Some _ =>
          (with_sets (touch_set zone setId stamp db.(policy_sets)) db.(set_versions) (bind_zone zone setId (Some versionId) db.(bindings))
             (enqueueOutbox now outboxId (invalidation zone setId (Some versionId) requestId) db.(event_outbox)) db,
           Accepted versionId outboxId)
      end
  end.

(** [POST /zones/:zoneId/policy-sets/:id/activate]: only an unreachable runtime does not
    block it. *)
Definition activate (now : Z) (zone setId : string) (body : json) (outboxId requestId : string) (stamp : Attribution) (sts : Runtime) (read1 read2 db : Db) : Db * Reply :=
  if negb (idShape zone && idShape setId) then (db, fail_with 400 "invalid_params")
  else match parse_ActivateBody body with
  | None => (db, fail_with 400 "invalid_body")
  | Some versionId =>
      match find_version zone setId versionId read1 with
      | None => (db, fail_with 404 "version_not_found")
      | Some v =>
          let contract := policySetContract zone v.(manifest) read2 in
          match contract.(c_error) with
          | Some e => (db, Error 422 "invalid_policy_contract" (Some e))
          | None =>
              match verifyBundleCompiles (sts (bundle contract)) with
              | None => (db, Crash)
              | Some verdict =>
                  match verdict with
                  | Some e =>
                      if negb (e.(be_status) =? 503) then (db, Error e.(be_status) e.(be_code) (Some e.(be_description)))
                      else activate_tx now zone setId versionId outboxId requestId stamp v.(manifest) db
                  | None => activate_tx now zone setId versionId outboxId requestId stamp v.(manifest) db
                  end
              end
          end
      end
  end.

Definition archive_set (now : Z) (stamp : Attribution) (s : PolicySet) : PolicySet :=
  {| s_zone := s.(s_zone); s_name := s.(s_name); s_description := s.(s_description); s_archived := Some now; s_created := s.(s_created); s_updated := Some stamp |}.

(** [DELETE /zones/:zoneId/policy-sets/:id]. *)
Definition deletePolicySet (now : Z) (zone setId outboxId requestId : string) (stamp : Attribution) (db : Db) : Db * Reply :=
  if negb (idShape zone && idShape setId) then (db, fail_with 400 "invalid_params")
  else match find_set zone setId db with
  | None => (db, fail_with 404 "policy_set_not_found")
  | Some s =>
      let ss := <[setId := archive_set now stamp s]> db.(policy_sets) in
      match db.(bindings) !! (zone, setId) with
      | Some (Some _) =>
          (with_sets ss db.(set_versions) (<[(zone, setId) := None]> db.(bindings))
             (enqueueOutbox now outboxId (invalidation zone setId None requestId) db.(event_outbox)) db, NoContent)
      | _ => (with_sets ss db.(set_versions) db.(bindings) db.(event_outbox) db, NoContent)
      end
  end.

(** *** The status of an activation *)

Inductive OutboxState := dispatched | pending | dead | missing | mismatch.

Record OutboxStatus := { o_id : option string; o_state : OutboxState; o_attempts : nat; o_error : option string; o_dispatched : option Z }.

(** [payload_json.zone_id === zone] and the like. *)
Definition member_is (k v : string) (p : payload) : bool := match ordered_get k p with Some (SStr s) => bool_decide (s = v) | _ => false end.

Definition announces (zone setId versionId : string) (r : OutboxRow) : bool :=
  bool_decide (r.(stream_name) = STREAM_POLICY_INVALIDATE) && member_is "zone_id" zone r.(payload_json)
  && member_is "policy_set_id" setId r.(payload_json) && member_is "policy_set_version_id" versionId r.(payload_json).

Definition created_ge (a b : OutboxRow) : Prop := b.(created_at) <= a.(created_at).

#[local] Instance created_ge_dec a b : Decision (created_ge a b).
Proof. unfold created_ge. apply _. Defined.

(** The row of the query: by its id, or the newest that announces the version. *)
Definition status_row (zone setId versionId : string) (outboxId : option string) (evs : list OutboxRow) : option OutboxRow :=
  match outboxId with
  | Some i => find_first (fun r => bool_decide (r.(ApiOutbox.id) = i)) evs
  | None => head (merge_sort created_ge (filter (fun r => announces zone setId versionId r = true) evs))
  end.

(** [policyActivationOutboxStatus]; [infinity_text] is how the database driver's value for
    an infinite time prints. *)
Definition policyActivationOutboxStatus (infinity_text zone setId versionId : string) (outboxId : option string) (evs : list OutboxRow) : OutboxStatus :=
  match status_row zone setId versionId outboxId evs with
  | None => {| o_id := outboxId; o_state := missing; o_attempts := 0; o_error := None; o_dispatched := None |}
  | Some r =>
      let state :=
        if negb (announces zone setId versionId r) then mismatch
        else match r.(dispatched_at) with
        | Some _ => dispatched
        | None => match r.(available_at) with
                  | infinity => if bool_decide (infinity_text = "infinity") then dead else pending
                  | At _ => pending
                  end
        end in
      {| o_id := Some r.(ApiOutbox.id); o_state := state; o_attempts := r.(attempts); o_error := r.(last_error); o_dispatched := r.(dispatched_at) |}
  end.

Inductive StsState := loaded | not_loaded | not_configured | unreachable | failed.

#[local] Instance StsState_eq_dec : EqDecision StsState.
Proof. solve_decision. Defined.

Record STSPolicyStatus := {
  st_state : StsState;
  st_loaded : bool;
  st_zone : option string;
  st_version : option string;
  st_manifest : option string;
  st_detail : option string
}.

Definition bare_status (s : StsState) (detail : string) : STSPolicyStatus :=
  {| st_state := s; st_loaded := false; st_zone := None; st_version := None; st_manifest := None; st_detail := Some detail |}.

Definition is_true (v : json) : bool := match v with JBool b => b | _ => false end.

(** [fetchSTSPolicyStatus]; [None] is an exception. *)
Definition fetchSTSPolicyStatus (reply : StsReply) : option STSPolicyStatus :=
  match reply with
  | NotConfigured => Some (bare_status not_configured "GATEWAY_STS_HMAC_KEY is not configured")
  | Unreachable reason => Some (bare_status unreachable reason)
  | BadJson reason => Some (bare_status failed ("invalid STS response: " +:+ reason))
  | Answer _ _ JNull => None
  | Answer false status payload =>
      Some (bare_status failed (js_String (nullish (json_get "detail" payload) (nullish (json_get "error" payload) (JNum status)))))
  | Answer true _ payload =>
      let l := is_true (json_get "loaded" payload) in
      Some {| st_state := if l then loaded else not_loaded; st_loaded := l; st_zone := as_string (json_get "zone_id" payload);
              st_version := as_string (json_get "policy_set_version_id" payload); st_manifest := as_string (json_get "manifest_sha256" payload); st_detail := None |}
  end.

Inductive Propagation := p_loaded | waiting_for_activation | waiting_for_outbox | waiting_for_sts | p_failed.

Definition activationPropagationStatus (active : bool) (o : OutboxState) (stsLoaded : bool) (s : StsState) : Propagation :=
  if negb active then waiting_for_activation
  else match o with
  | dead | mismatch => p_failed
  | pending | missing => waiting_for_outbox
  | dispatched => if stsLoaded then p_loaded else if bool_decide (s = failed) then p_failed else waiting_for_sts
  end.

Record ActivationStatus := { as_version : string; as_active : bool; as_active_version : option string; as_propagation : Propagation; as_outbox : OutboxStatus; as_sts : STSPolicyStatus }.

(** [GET .../activation-status]: an answer, or an error. *)
Definition activationStatus (infinity_text zone setId : string) (version_id outbox_id : option string) (sts : StsReply) (read1 read2 : Db) : Reply + ActivationStatus :=
  if negb (idShape zone && idShape setId) then inl (fail_with 400 "invalid_params")
  else match find_set zone setId read1, read1.(bindings) !! (zone, setId) with
  | Some _, Some active =>
      match match version_id with Some v => Some v | None => active end with
      | None => inl (fail_with 404 "active_policy_set_version_not_found")
      | Some v =>
          let o := policyActivationOutboxStatus infinity_text zone setId v outbox_id read2.(event_outbox) in
          match fetchSTSPolicyStatus sts with
          | None => inl Crash
          | Some s =>
              let is_active := bool_decide (active = Some v) in
              let stsLoaded := s.(st_loaded) && bool_decide (s.(st_version) = Some v) in
              inr {| as_version := v; as_active := is_active; as_active_version := active;
                     as_propagation := activationPropagationStatus is_active o.(o_state) stsLoaded s.(st_state); as_outbox := o; as_sts := s |}
          end
      end
  | _, _ => inl (fail_with 404 "policy_set_binding_not_found")
  end.

(** *** Simulation *)

Definition is_objecty (v : json) : bool := match v with JObj _ | JArr _ => true | _ => false end.

(** [input.schema_version !== undefined && ... !== OPA_INPUT_SCHEMA_VERSION]. *)
Definition schema_differs (v : json) : bool :=
  match v with JUndefined => false | JStr s => negb (bool_decide (s = Rego.OPA_INPUT_SCHEMA_VERSION)) | _ => true end.

(** [validateSimulationInput]; [input] is an object when given. *)
Definition validateSimulationInput (input : option json) (zone : string) : list string :=
  match input with
  | None => []
  | Some i =>
      (if schema_differs (json_get "schema_version" i) then ["input_schema_mismatch:" +:+ js_String (json_get "schema_version" i)] else [])
      ++ (match json_get "zone_id" (json_get "principal" i) with JStr s => if bool_decide (s = zone) then [] else ["principal_zone_mismatch"] | _ => ["principal_zone_mismatch"] end)
      ++ (if is_objecty (json_get "resource" i) then [] else ["missing_resource"])
      ++ (if is_objecty (json_get "action" i) then [] else ["missing_action"])
      ++ (if is_objecty (json_get "context" i) then [] else ["missing_context"])
  end.

Record Simulation := { would_activate : bool; sim_version : string; sim_policies : list string; sim_warnings : list string; sim_explanation : list (string * json); sim_result : json }.

(** [POST .../simulate]: nothing changes; [input] is the body's, when it has one. *)
Definition simulate (zone setId versionId : string) (input : option json) (sts : Runtime) (read1 read2 : Db) : Reply + Simulation :=
  if negb (idShape zone && idShape setId) then inl (fail_with 400 "invalid_params")
  else match find_version zone setId versionId read1 with
  | None => inl (fail_with 404 "version_not_found")
  | Some v =>
      let contract := policySetContract zone v.(manifest) read2 in
      match contract.(c_error) with
      | Some e => inl (Error 422 "invalid_policy_contract" (Some e))
      | None =>
          let inputWarnings := validateSimulationInput input zone in
          match match input with Some _ => executePolicySimulation (sts (bundle contract)) | None => Some None end with
          | None => inl Crash
          | Some execution =>
              inr {| would_activate := bool_decide (inputWarnings = []); sim_version := versionId; sim_policies := collectManifestIds v.(manifest);
                     sim_warnings := inputWarnings ++ match execution with Some e => e.(warnings) | None => [] end;
                     sim_explanation := match execution with
                                        | Some e => e.(explanation)
                                        | None => [("evaluation", JStr "not_executed");
                                                   ("reason", JStr (match input with
                                                    | Some _ => "STS simulation is not configured; rollout contract and input shape were validated without mutating active policy bindings"
                                                    | None => "simulation validates rollout contract and input shape without mutating active policy bindings"
                                                    end))]
                                        end;
                     sim_result := match execution with Some e => e.(result) | None => JNull end |}
          end
      end
  end.

End routes.

(** ** Facts *)

(** *** What every database satisfies *)

Definition active (db : Db) (zone setId versionId : string) : Prop := db.(bindings) !! (zone, setId) = Some (Some versionId).

(** What an event says about the version that governs a zone. *)
Definition announcement (zone : string) (r : OutboxRow) : option (option string) :=
  if bool_decide (r.(stream_name) = STREAM_POLICY_INVALIDATE) && member_is "zone_id" zone r.(payload_json)
  then Some (match ordered_get "policy_set_version_id" r.(payload_json) with Some (SStr v) => Some v | _ => None end)
  else None.

Definition last_announced (zone : string) (evs : list OutboxRow) : option string := default_to None (last (omap (announcement zone) evs)).

(** A manifest whose entries are distinct versions of policies of the zone. *)
Definition manifest_ok (db : Db) (zone : string) (m : PolicyManifest) : Prop :=
  let ids := collectManifestIds m in
  ids <> [] /\ (length ids <= 256)%nat /\ NoDup ids
  /\ forall i, i ∈ ids -> exists v p, db.(policy_versions) !! i = Some v /\ db.(policies) !! v.(policy_id) = Some p /\ p.(p_zone) = zone.

Definition distinct_numbers {V : Type} (owner : V -> string) (number : V -> Z) (vs : gmap string V) : Prop :=
  forall i j v w, vs !! i = Some v -> vs !! j = Some w -> owner v = owner w -> number v = number w -> i = j.

Record policy_version_ok `{Digests} (db : Db) (v : PolicyVersion) : Prop := {
  pv_policy : is_Some (db.(policies) !! v.(policy_id));
  pv_valid : Rego.validateAuthzPolicy v.(content) = None;
  pv_schema : v.(v_schema) = Rego.OPA_INPUT_SCHEMA_VERSION;
  pv_sha : v.(content_sha256) = sha256 v.(content)
}.

Record set_version_ok `{Digests} (db : Db) (v : SetVersion) : Prop := {
  sv_set : exists s, db.(policy_sets) !! v.(policy_set_id) = Some s /\ manifest_ok db s.(s_zone) v.(manifest);
  sv_schema_ok : v.(sv_schema) = Rego.OPA_INPUT_SCHEMA_VERSION;
  sv_sha : v.(manifest_sha256) = sha256 (manifest_text v.(manifest))
}.

Record db_ok `{Digests} (db : Db) : Prop := {
  ok_pversions : forall i v, db.(policy_versions) !! i = Some v -> policy_version_ok db v;
  ok_pnumbers : distinct_numbers policy_id v_number db.(policy_versions);
  ok_sversions : forall i v, db.(set_versions) !! i = Some v -> set_version_ok db v;
  ok_snumbers : distinct_numbers policy_set_id sv_number db.(set_versions);
  ok_bound : forall s st, db.(policy_sets) !! s = Some st -> is_Some (db.(bindings) !! (st.(s_zone), s));
  ok_active : forall z s v, active db z s v -> (exists st, find_set z s db = Some st) /\ exists sv, db.(set_versions) !! v = Some sv /\ sv.(policy_set_id) = s;
  ok_single : forall z s s' v v', active db z s v -> active db z s' v' -> s' = s;
  ok_announced : forall z v, last_announced z db.(event_outbox) = Some v <-> exists s, active db z s v
}.

(** *** What a database keeps of an earlier one *)

Record extends (old db : Db) : Prop := {
  ex_pversions : old.(policy_versions) ⊆ db.(policy_versions);
  ex_sversions : old.(set_versions) ⊆ db.(set_versions);
  ex_policies : forall k p, old.(policies) !! k = Some p -> exists p', db.(policies) !! k = Some p' /\ p'.(p_zone) = p.(p_zone);
  ex_sets : forall k s, old.(policy_sets) !! k = Some s -> exists s', db.(policy_sets) !! k = Some s' /\ s'.(s_zone) = s.(s_zone)
}.

Lemma extends_self db : extends db db.
Proof. split; eauto. Qed.

Lemma extends_trans a b c : extends a b -> extends b c -> extends a c.
Proof.
  intros [A1 A2 A3 A4] [B1 B2 B3 B4]. split; [by etrans|by etrans|..].
  - intros k p Hk. destruct (A3 k p Hk) as (p' & Hp' & E). destruct (B3 k p' Hp') as (p'' & ? & ?). exists p''. split; congruence.
  - intros k p Hk. destruct (A4 k p Hk) as (p' & Hp' & E). destruct (B4 k p' Hp') as (p'' & ? & ?). exists p''. split; congruence.
Qed.

Lemma manifest_extends old db zone m : extends old db -> manifest_ok old zone m -> manifest_ok db zone m.
Proof.
  intros [E1 _ E3 _] (H1 & H2 & H3 & H4). split_and!; [done..|]. intros i Hi. destruct (H4 i Hi) as (v & p & Hv & Hp & <-).
  destruct (E3 _ p Hp) as (p' & ? & ?). exists v, p'. split_and!; [by eapply lookup_weaken|done|done].
Qed.

Section facts.
Context `{Digests}.

Lemma pversion_extends old db v : extends old db -> policy_version_ok old v -> policy_version_ok db v.
Proof. intros E [[p Hp] ? ? ?]. split; try done. destruct (ex_policies _ _ E _ p Hp) as (p' & -> & _). by eexists. Qed.

Lemma sversion_extends old db v : extends old db -> set_version_ok old v -> set_version_ok db v.
Proof.
  intros E [(s & Hs & Hm) ? ?]. split; try done. destruct (ex_sets _ _ E _ s Hs) as (s' & -> & Hz). exists s'. split; [done|].
  rewrite Hz. by eapply manifest_extends.
Qed.

(** *** Contracts *)

Lemma contract_rows_elem ids db i z v :
  (i, z, v) ∈ contract_rows ids db -> i ∈ ids /\ db.(policy_versions) !! i = Some v /\ exists p, db.(policies) !! v.(policy_id) = Some p /\ p.(p_zone) = z.
Proof.
  unfold contract_rows. rewrite list_elem_of_omap. intros (j & Hj & E). destruct (policy_versions db !! j) as [w|] eqn:Hw; [|done].
  destruct (policies db !! policy_id w) as [p|] eqn:Hp; simplify_eq. split_and!; [done|done|]. eauto.
Qed.

Lemma omap_full {A B : Type} (f : A -> option B) (l : list A) : length (omap f l) = length l -> forall x, x ∈ l -> is_Some (f x).
Proof.
  assert (Hle : forall l, (length (omap f l) <= length l)%nat).
  { clear. induction l as [|a l IH]; cbn; [lia|]. destruct (f a); cbn; lia. }
  induction l as [|a l IH]; cbn; [set_solver|]. destruct (f a) eqn:E; cbn; intros Hl x; [|specialize (Hle l); lia].
  rewrite elem_of_cons. intros [->|Hx]; [by rewrite E|]. apply IH; [lia|done].
Qed.

Lemma omap_none {A B : Type} (f : A -> option B) (l : list A) : head (omap f l) = None -> forall x, x ∈ l -> f x = None.
Proof.
  induction l as [|a l IH]; cbn; [set_solver|]. destruct (f a) eqn:E; [done|]. intros Hl x. rewrite elem_of_cons. intros [->|Hx]; [done|auto].
Qed.

Lemma contract_sound zone m db :
  (policySetContract zone m db).(c_error) = None ->
  manifest_ok db zone m /\ (policySetContract zone m db).(schemaVersion) = Rego.OPA_INPUT_SCHEMA_VERSION
  /\ forall i, i ∈ collectManifestIds m -> exists v, db.(policy_versions) !! i = Some v /\ Rego.validateAuthzPolicy v.(content) = None
       /\ (i, v.(content)) ∈ bundle (policySetContract zone m db).
Proof.
  unfold policySetContract. set (ids := collectManifestIds m). destruct (Nat.eqb_spec (length ids) 0) as [|Hne]; [done|].
  destruct (Nat.ltb_spec MANIFEST_MAX_ENTRIES (length ids)) as [|Hmax]; [done|]. case_bool_decide as Hnd; cbn [negb]; [|done].
  destruct (Nat.eqb_spec (length (contract_rows ids db)) (length ids)) as [Hlen|]; cbn [negb]; [|done].
  destruct (contract_rows ids db) as [|[[i0 z0] v0] rows] eqn:Hrows; [done|].
  destruct (head (omap (row_error zone (v_schema v0)) _)) eqn:Hhead; [done|]. intros _. cbn [schemaVersion c_policies].
  assert (Hrow : forall i z v, (i, z, v) ∈ contract_rows ids db ->
            z = zone /\ v.(v_schema) = v0.(v_schema) /\ v.(v_schema) = Rego.OPA_INPUT_SCHEMA_VERSION /\ Rego.validateAuthzPolicy v.(content) = None).
  { intros i z v Hin. rewrite Hrows in Hin. pose proof (omap_none _ _ Hhead _ Hin) as Hr. unfold row_error in Hr.
    case_bool_decide; cbn [negb] in Hr; [|done]. case_bool_decide as Hs; cbn [negb] in Hr; [|done].
    unfold Rego.validatePolicySchemaVersion in Hr. case_bool_decide as Hv; [|done]. destruct (Rego.validateAuthzPolicy (content v)); [done|].
    split_and!; try done. by apply list_elem_of_singleton in Hv. }
  assert (Hall : forall i, i ∈ ids -> exists z v, (i, z, v) ∈ contract_rows ids db).
  { intros i Hi. rewrite <- Hrows in Hlen. destruct (omap_full _ _ Hlen i Hi) as [[[j z] v] E]. exists z, v. unfold contract_rows.
    apply list_elem_of_omap. exists i. split; [done|]. rewrite E. destruct (policy_versions db !! i); [|done]. destruct (policies db !! _); by simplify_eq. }
  split_and!.
  - split_and!; [intros E; apply Hne; unfold ids; by rewrite E|exact Hmax|done|]. intros i Hi. destruct (Hall i Hi) as (z & v & Hin).
    destruct (Hrow i z v Hin) as (-> & _). apply contract_rows_elem in Hin as (_ & Hv & p & Hp & Hz). eauto.
  - destruct (Hrow i0 z0 v0) as (_ & _ & E & _); [rewrite Hrows; set_solver|done].
  - intros i Hi. destruct (Hall i Hi) as (z & v & Hin). destruct (Hrow i z v Hin) as (_ & _ & _ & Hval). exists v.
    pose proof (contract_rows_elem _ _ _ _ _ Hin) as (_ & Hv & _). split_and!; [done|done|]. unfold bundle. cbn [c_policies].
    rewrite <- Hrows, <- list_fmap_compose. apply list_elem_of_fmap. by exists (i, z, v).
Qed.

(** *** Numbers *)

Lemma next_number_above {V : Type} (owner : V -> string) number i (vs : gmap string V) k v :
  vs !! k = Some v -> owner v = i -> number v < next_number owner number i vs.
Proof.
  intros Hk Ho. unfold next_number.
  assert (Hin : v ∈ filter (fun v => owner v = i) (map_to_list vs).*2).
  { apply list_elem_of_filter. split; [done|]. apply list_elem_of_fmap. exists (k, v). split; [done|]. by apply elem_of_map_to_list. }
  induction (filter _ _) as [|a l IH]; [set_solver|]. cbn. apply elem_of_cons in Hin as [<-|Hin]; [lia|]. specialize (IH Hin). lia.
Qed.

Lemma numbers_insert {V : Type} (owner : V -> string) number (vs : gmap string V) k v :
  vs !! k = None -> number v = next_number owner number (owner v) vs -> distinct_numbers owner number vs ->
  distinct_numbers owner number (<[k := v]> vs).
Proof.
  intros Hk Hn Hd i j a b. rewrite !lookup_insert_Some. intros [[<- <-]|[? Ha]] [[<- <-]|[? Hb]] Ho E; [done| | |by eapply Hd].
  - pose proof (next_number_above owner number (owner v) vs j b Hb (eq_sym Ho)). lia.
  - pose proof (next_number_above owner number (owner v) vs i a Ha Ho). lia.
Qed.

Lemma next_number_fresh {V : Type} (owner : V -> string) number i (vs : gmap string V) :
  (forall k v, vs !! k = Some v -> owner v <> i) -> next_number owner number i vs = 1.
Proof.
  intros Hn. unfold next_number.
  assert (E : filter (fun v => owner v = i) (map_to_list vs).*2 = []).
  { apply nil_length_inv, none_counted. intros v Hv Ho. apply list_elem_of_fmap in Hv as ([k v'] & -> & Hk). apply elem_of_map_to_list in Hk. by apply (Hn k v'). }
  by rewrite E.
Qed.

(** *** The operations, interleaved *)

(** What may happen to a database, with the databases [seen] so far, which a handler may
    have read from: its routes under new ids, zones that come and go, and dispatchers that
    rewrite rows of the outbox. *)
Inductive op (seen : list Db) (db : Db) : Db -> Prop :=
| o_zones zs : op seen db {| zones := zs; policies := db.(policies); policy_versions := db.(policy_versions); policy_sets := db.(policy_sets);
                             set_versions := db.(set_versions); bindings := db.(bindings); event_outbox := db.(event_outbox) |}
| o_dispatch ids f : keeps f -> op seen db (with_sets db.(policy_sets) db.(set_versions) db.(bindings) (update_rows ids f db.(event_outbox)) db)
| o_policy zone policyId versionId body actor stamp read db' r :
    read ∈ seen -> db.(policies) !! policyId = None -> db.(policy_versions) !! versionId = None ->
    createPolicy zone policyId versionId body actor stamp read db = (db', r) -> op seen db db'
| o_policy_version zone policyId versionId body stamp db' r :
    db.(policy_versions) !! versionId = None -> createPolicyVersion zone policyId versionId body stamp db = (db', r) -> op seen db db'
| o_policy_delete now zone policyId stamp db' r : deletePolicy now zone policyId stamp db = (db', r) -> op seen db db'
| o_set zone newId body stamp read db' r :
    read ∈ seen -> db.(policy_sets) !! newId = None -> createPolicySet zone newId body stamp read db = (db', r) -> op seen db db'
| o_set_version zone setId versionId body stamp sts read1 read2 db' r :
    read1 ∈ seen -> read2 ∈ seen -> db.(set_versions) !! versionId = None ->
    createSetVersion zone setId versionId body stamp sts read1 read2 db = (db', r) -> op seen db db'
| o_activate now zone setId body outboxId requestId stamp sts read1 read2 db' r :
    read1 ∈ seen -> read2 ∈ seen -> activate now zone setId body outboxId requestId stamp sts read1 read2 db = (db', r) -> op seen db db'
| o_delete now zone setId outboxId requestId stamp db' r : deletePolicySet now zone setId outboxId requestId stamp db = (db', r) -> op seen db db'.

(** The databases so far, the latest first. *)
Inductive history : list Db -> Prop :=
| h_start zs : history [{| zones := zs; policies := ∅; policy_versions := ∅; policy_sets := ∅; set_versions := ∅; bindings := ∅; event_outbox := [] |}]
| h_op db past db' : history (db :: past) -> op (db :: past) db db' -> history (db' :: db :: past).

(** *** What the operations do *)

Lemma touch_lookup zone id stamp ss k :
  touch_set zone id stamp ss !! k = (fun s => if bool_decide (k = id /\ s.(s_zone) = zone) then stamp_set stamp s else s) <$> ss !! k.
Proof.
  unfold touch_set. destruct (decide (k = id)) as [->|Hk].
  - destruct (ss !! id) as [s|] eqn:E; [|by rewrite E]. cbn. repeat case_bool_decide; simplify_map_eq; naive_solver.
  - transitivity (ss !! k); [|destruct (ss !! k); cbn; [rewrite bool_decide_false by naive_solver|]; done].
    destruct (ss !! id); [case_bool_decide|]; by simplify_map_eq.
Qed.

Lemma bind_lookup zone setId active bs k :
  bind_zone zone setId active bs !! k = (fun b => if bool_decide (k.1 = zone) then (if bool_decide (k.2 = setId) then active else None) else b) <$> bs !! k.
Proof. unfold bind_zone. rewrite map_lookup_imap. by destruct (bs !! k). Qed.

Lemma bind_active zone setId versionId bs b z s v :
  bs !! (zone, setId) = Some b ->
  bind_zone zone setId (Some versionId) bs !! (z, s) = Some (Some v) <->
  (z = zone /\ s = setId /\ v = versionId) \/ (z <> zone /\ bs !! (z, s) = Some (Some v)).
Proof.
  intros Hb. rewrite bind_lookup. cbn. destruct (decide (z = zone)) as [->|Hz].
  - rewrite bool_decide_true by done. destruct (decide (s = setId)) as [->|Hs].
    + rewrite Hb, bool_decide_true by done. cbn. naive_solver.
    + rewrite bool_decide_false by done. destruct (bs !! (zone, s)); cbn; naive_solver.
  - rewrite bool_decide_false by done. destruct (bs !! (z, s)); cbn; naive_solver.
Qed.

Lemma announcement_new z now i zone setId a requestId :
  announcement z (new_row now i (invalidation zone setId a requestId)) = if bool_decide (zone = z) then Some a else None.
Proof.
  assert (E : payload_json (new_row now i (invalidation zone setId a requestId)) = (invalidation zone setId a requestId).(a_payload)) by (by destruct a).
  unfold announcement. rewrite E. cbn. by destruct a; case_bool_decide.
Qed.

Lemma announced_app z evs r :
  last_announced z (evs ++ [r]) = match announcement z r with Some a => a | None => last_announced z evs end.
Proof. unfold last_announced. rewrite omap_app. cbn. destruct (announcement z r); [by rewrite last_snoc|by rewrite app_nil_r]. Qed.

Lemma announced_update z ids f evs : keeps f -> last_announced z (update_rows ids f evs) = last_announced z evs.
Proof.
  intros Hf. unfold last_announced. do 2 f_equal. unfold update_rows. induction evs as [|r evs IH]; [done|]. cbn.
  assert (E : announcement z (if bool_decide (id r ∈ ids) then f r else r) = announcement z r).
  { case_bool_decide; [|done]. destruct (Hf r) as (_ & E1 & E2 & _). unfold announcement. by rewrite E1, E2. }
  rewrite E. destruct (announcement z r); by rewrite IH.
Qed.

Lemma find_set_Some zone s db st : find_set zone s db = Some st <-> db.(policy_sets) !! s = Some st /\ st.(s_zone) = zone /\ st.(s_archived) = None.
Proof. unfold find_set. destruct (policy_sets db !! s); [|naive_solver]. case_bool_decide; naive_solver. Qed.

Lemma find_policy_Some zone i db p : find_policy zone i db = Some p <-> db.(policies) !! i = Some p /\ p.(p_zone) = zone /\ p.(p_archived) = None.
Proof. unfold find_policy. destruct (policies db !! i); [|naive_solver]. case_bool_decide; naive_solver. Qed.

Lemma find_version_Some zone s v db sv :
  find_version zone s v db = Some sv <-> db.(set_versions) !! v = Some sv /\ sv.(policy_set_id) = s /\ exists st, find_set zone s db = Some st.
Proof. unfold find_version. destruct (set_versions db !! v), (find_set zone s db); try case_bool_decide; naive_solver. Qed.

(** An operation that leaves sets, bindings and events alone. *)
Lemma policies_step db ps vs :
  db_ok db -> extends db (with_policies ps vs db) ->
  (forall i v, vs !! i = Some v -> policy_version_ok (with_policies ps vs db) v) -> distinct_numbers policy_id v_number vs ->
  db_ok (with_policies ps vs db).
Proof.
  intros Hdb He Hv Hn. destruct Hdb. split; cbn; eauto. intros i v Hi. eapply sversion_extends; eauto.
Qed.


(** Refused requests change nothing. *)
Lemma unchanged db db' : db' = db -> db_ok db -> extends db db' /\ db_ok db'.
Proof. intros ->. auto using extends_self. Qed.

Ltac refused := intros; simplify_eq; by apply unchanged.

Lemma createPolicy_ok zone policyId versionId body actor stamp read db db' r :
  db.(policies) !! policyId = None -> db.(policy_versions) !! versionId = None ->
  createPolicy zone policyId versionId body actor stamp read db = (db', r) -> db_ok db -> extends db db' /\ db_ok db'.
Proof.
  intros Hp Hv. unfold createPolicy. case_match; [refused|]. case_match; [refused|]. destruct (parse_PolicyBody body) as [b|]; [|refused].
  case_match eqn:Hres; [case_match; refused|]. destruct (Rego.validateAuthzPolicy (b_content b)) eqn:Hval; [refused|].
  intros E Hdb. injection E as <- <-.
  match goal with |- extends db ?d /\ _ => assert (He : extends db d) end.
  { split; cbn; [by apply insert_subseteq|done| |eauto]. intros k p Hk. exists p. rewrite lookup_insert_ne by congruence. done. }
  split; [done|]. apply policies_step; [done..| |].
  - intros i v. rewrite lookup_insert_Some. intros [[_ <-]|[_ Hi]]; [|by eapply pversion_extends, ok_pversions].
    split; cbn; [rewrite lookup_insert_eq; by eexists|done..].
  - apply numbers_insert; [done| |by apply ok_pnumbers]. symmetry. apply next_number_fresh. intros k v Hk. cbn. intros E.
    destruct (pv_policy _ _ (ok_pversions _ Hdb k v Hk)) as [p Hp']. congruence.
Qed.

Lemma createPolicyVersion_ok zone policyId versionId body stamp db db' r :
  db.(policy_versions) !! versionId = None ->
  createPolicyVersion zone policyId versionId body stamp db = (db', r) -> db_ok db -> extends db db' /\ db_ok db'.
Proof.
  intros Hv. unfold createPolicyVersion. case_match; [refused|]. destruct (parse_VersionBody body) as [c|]; [|refused].
  destruct (Rego.validateAuthzPolicy c) eqn:Hval; [refused|]. destruct (find_policy zone policyId db) as [p|] eqn:Hf; [|refused].
  apply find_policy_Some in Hf as (Hp & _). intros E Hdb. injection E as <- <-.
  match goal with |- extends db ?d /\ _ => assert (He : extends db d) end.
  { split; cbn; [by apply insert_subseteq|done| |eauto]. intros k q Hk. destruct (decide (k = policyId)) as [->|];
      simplify_map_eq; eauto. }
  split; [done|]. apply policies_step; [done..| |].
  - intros i v. rewrite lookup_insert_Some. intros [[_ <-]|[_ Hi]]; [|by eapply pversion_extends, ok_pversions].
    split; cbn; [rewrite lookup_insert_eq; by eexists|done..].
  - by apply numbers_insert; [| |apply ok_pnumbers].
Qed.

Lemma deletePolicy_ok now zone policyId stamp db db' r :
  deletePolicy now zone policyId stamp db = (db', r) -> db_ok db -> extends db db' /\ db_ok db'.
Proof.
  unfold deletePolicy. case_match; [refused|]. destruct (find_policy zone policyId db) as [p|] eqn:Hf; [|refused].
  apply find_policy_Some in Hf as (Hp & _). intros E Hdb. injection E as <- <-.
  match goal with |- extends db ?d /\ _ => assert (He : extends db d) end.
  { split; cbn; [done|done| |eauto]. intros k q Hk. destruct (decide (k = policyId)) as [->|]; simplify_map_eq; eauto. }
  split; [done|]. apply policies_step; [done..| |by apply ok_pnumbers]. intros i v Hi. by eapply pversion_extends, ok_pversions.
Qed.

Lemma createPolicySet_ok zone newId body stamp read db db' r :
  db.(policy_sets) !! newId = None ->
  createPolicySet zone newId body stamp read db = (db', r) -> db_ok db -> extends db db' /\ db_ok db'.
Proof.
  intros Hnew. unfold createPolicySet. case_match; [refused|]. case_match; [refused|]. destruct (parse_PolicySetBody body) as [b|]; [|refused].
  case_match; [refused|]. intros E Hdb. injection E as <- <-.
  match goal with |- extends db ?d /\ _ => assert (He : extends db d) end.
  { split; cbn; eauto. intros k s Hk. exists s. rewrite lookup_insert_ne by congruence. done. }
  assert (Hold : forall z s v, active (with_sets (<[newId := {| s_zone := zone; s_name := sb_name b; s_description := sb_description b; s_archived := None; s_created := stamp; s_updated := None |}]> (policy_sets db))
            (set_versions db) (<[(zone, newId) := None]> (bindings db)) (event_outbox db) db) z s v <-> active db z s v).
  { intros z s v. unfold active. cbn. rewrite lookup_insert_Some. split; [naive_solver|]. intros Ha. right. split; [|done]. intros E. simplify_eq.
    destruct (ok_active _ Hdb z s v Ha) as [[st Hst%find_set_Some] _]. destruct Hst as [Hst _]. congruence. }
  split; [done|]. destruct Hdb. split; cbn.
  - intros i v Hi. by eapply pversion_extends, ok_pversions0.
  - done.
  - intros i v Hi. by eapply sversion_extends, ok_sversions0.
  - done.
  - intros s st. rewrite !lookup_insert_Some. intros [[<- <-]|[Hne Hs]]; cbn.
    + rewrite lookup_insert_eq. by eexists.
    + rewrite lookup_insert_ne by congruence. by apply ok_bound0.
  - intros z s v Ha%Hold. destruct (ok_active0 z s v Ha) as [[st Hst] Hsv]. split; [|done]. exists st. apply find_set_Some in Hst as (Hs & ? & ?).
    apply find_set_Some. cbn. rewrite lookup_insert_ne by congruence. done.
  - intros z s s' v v' Ha%Hold Ha'%Hold. by eapply ok_single0.
  - intros z v. rewrite ok_announced0. by setoid_rewrite Hold.
Qed.

Lemma touch_zone zone id stamp ss k s :
  ss !! k = Some s -> exists s', touch_set zone id stamp ss !! k = Some s' /\ s'.(s_zone) = s.(s_zone) /\ s'.(s_archived) = s.(s_archived).
Proof. intros Hk. rewrite touch_lookup, Hk. cbn. eexists. split; [done|]. by case_bool_decide. Qed.

Lemma touch_back zone id stamp ss k s' :
  touch_set zone id stamp ss !! k = Some s' -> exists s, ss !! k = Some s /\ s'.(s_zone) = s.(s_zone) /\ s'.(s_archived) = s.(s_archived).
Proof. rewrite touch_lookup. destruct (ss !! k) as [s|]; [|done]. cbn. intros E. simplify_eq. exists s. by case_bool_decide. Qed.

(** A stamped set is found as before. *)
Lemma touch_find zone id stamp vs bs evs db z s st :
  find_set z s db = Some st -> exists st', find_set z s (with_sets (touch_set zone id stamp db.(policy_sets)) vs bs evs db) = Some st'.
Proof.
  intros (Hs & Hz & Ha)%find_set_Some. destruct (touch_zone zone id stamp _ _ _ Hs) as (s' & Hs' & E1 & E2). exists s'.
  apply find_set_Some. cbn. rewrite E1, E2. done.
Qed.

Lemma createSetVersion_ok zone setId versionId body stamp sts read1 read2 db db' r :
  extends read1 db -> extends read2 db -> db.(set_versions) !! versionId = None ->
  createSetVersion zone setId versionId body stamp sts read1 read2 db = (db', r) -> db_ok db -> extends db db' /\ db_ok db'.
Proof.
  intros E1 E2 Hnew. unfold createSetVersion. case_match; [refused|]. destruct (parse_PolicySetVersionBody body) as [m|]; [|refused].
  destruct (find_set zone setId read1) as [s0|] eqn:Hf; [|refused]. destruct (c_error _) eqn:Hc; [refused|].
  destruct (verifyBundleCompiles _) as [[e|]|]; [refused| |refused]. intros E Hdb. injection E as <- <-.
  apply contract_sound in Hc as (Hm & Hschema & _). apply find_set_Some in Hf as (Hs0 & Hz & _).
  destruct (ex_sets _ _ E1 _ _ Hs0) as (s1 & Hs1 & Hz1).
  match goal with |- extends db ?d /\ _ => assert (He : extends db d) end.
  { split; cbn; [done|by apply insert_subseteq|eauto|]. intros k s Hk. destruct (touch_zone zone setId stamp _ _ _ Hk) as (s' & ? & ? & ?). eauto. }
  split; [done|]. split; cbn.
  - intros i v Hi. by eapply pversion_extends, ok_pversions.
  - by apply ok_pnumbers.
  - intros i v. rewrite lookup_insert_Some. intros [[_ <-]|[_ Hi]]; [|by eapply sversion_extends, ok_sversions].
    split; cbn; [|done|done]. destruct (touch_zone zone setId stamp _ _ _ Hs1) as (s' & Hs' & E' & _). exists s'. split; [done|].
    rewrite E', Hz1, Hz. apply (manifest_extends read2); [|done]. by eapply extends_trans.
  - by apply numbers_insert; [| |apply ok_snumbers].
  - intros s st Hs. apply touch_back in Hs as (st0 & Hst0 & -> & _). by apply ok_bound.
  - intros z s v Ha. destruct (ok_active _ Hdb z s v Ha) as [[st Hst] (sv & Hsv & Hset)]. split; [by eapply touch_find|].
    exists sv. split; [|done]. rewrite lookup_insert_ne by congruence. done.
  - intros z s s' v v'. by apply (ok_single _ Hdb).
  - apply (ok_announced _ Hdb).
Qed.

Lemma activate_tx_ok now zone setId versionId outboxId requestId stamp m db db' r :
  activate_tx now zone setId versionId outboxId requestId stamp m db = (db', r) -> db_ok db -> extends db db' /\ db_ok db'.
Proof.
  unfold activate_tx. destruct (find_version _ _ _ _) as [sv|] eqn:Hf; [|refused]. case_match; [refused|].
  destruct (bindings db !! (zone, setId)) as [b|] eqn:Hb; [|refused]. intros E Hdb. injection E as <- <-.
  apply find_version_Some in Hf as (Hsv & Hset & st0 & Hst0).
  match goal with |- extends db ?d /\ _ => set (db1 := d) end.
  assert (He : extends db db1).
  { split; cbn; [done|done|eauto|]. intros k s Hk. destruct (touch_zone zone setId stamp _ _ _ Hk) as (s' & ? & ? & ?). eauto. }
  assert (Hact : forall z s v, active db1 z s v <-> (z = zone /\ s = setId /\ v = versionId) \/ (z <> zone /\ active db z s v))
    by (intros z s v; unfold active, db1; cbn; by eapply bind_active).
  split; [done|]. split.
  - intros i v Hi. eapply pversion_extends; [done|]. by eapply ok_pversions.
  - apply (ok_pnumbers _ Hdb).
  - intros i v Hi. eapply sversion_extends; [done|]. by eapply ok_sversions.
  - apply (ok_snumbers _ Hdb).
  - intros s st Hs. cbn in Hs |- *. apply touch_back in Hs as (st1 & Hst1 & -> & _). rewrite bind_lookup.
    destruct (ok_bound _ Hdb s st1 Hst1) as [b1 ->]. by eexists.
  - intros z s v [(-> & -> & ->)|[Hz Ha]]%Hact.
    + split; [by eapply touch_find|]. eauto.
    + destruct (ok_active _ Hdb z s v Ha) as [[st Hst] Hv]. split; [by eapply touch_find|done].
  - intros z s s' v v' Ha%Hact Ha'%Hact. destruct Ha as [(-> & -> & ->)|[Hz Ha]], Ha' as [(? & -> & ->)|[Hz' Ha']]; try done.
    by eapply (ok_single _ Hdb).
  - intros z v. cbn. unfold enqueueOutbox. rewrite announced_app, announcement_new. setoid_rewrite Hact.
    destruct (decide (zone = z)) as [<-|Hz].
    + rewrite bool_decide_true by done. naive_solver.
    + rewrite bool_decide_false by done. rewrite (ok_announced _ Hdb). naive_solver.
Qed.

Lemma activate_ok now zone setId body outboxId requestId stamp sts read1 read2 db db' r :
  activate now zone setId body outboxId requestId stamp sts read1 read2 db = (db', r) -> db_ok db -> extends db db' /\ db_ok db'.
Proof.
  unfold activate. case_match; [refused|]. destruct (parse_ActivateBody body); [|refused]. destruct (find_version _ _ _ _); [|refused].
  destruct (c_error _); [refused|]. destruct (verifyBundleCompiles _) as [[e|]|]; [|apply activate_tx_ok|refused].
  case_match; [refused|apply activate_tx_ok].
Qed.


(** Archiving a set, with the events that follow from its binding [b]. *)
Lemma archive_ok now zone setId stamp s b evs db :
  db_ok db -> db.(policy_sets) !! setId = Some s -> s.(s_zone) = zone -> db.(bindings) !! (zone, setId) = Some b ->
  (forall z, last_announced z evs = match b with Some _ => if bool_decide (zone = z) then None else last_announced z db.(event_outbox) | None => last_announced z db.(event_outbox) end) ->
  let db1 := with_sets (<[setId := archive_set now stamp s]> db.(policy_sets)) db.(set_versions) (<[(zone, setId) := None]> db.(bindings)) evs db in
  extends db db1 /\ db_ok db1.
Proof.
  intros Hdb Hs Hz Hb Hev db1. assert (He : extends db db1).
  { split; cbn; [done|done|eauto|]. intros k s' Hk. destruct (decide (k = setId)) as [->|]; simplify_map_eq; eauto. }
  assert (Hact : forall z i v, active db1 z i v <-> active db z i v /\ (z, i) <> (zone, setId)).
  { intros z i v. unfold active, db1. cbn. rewrite lookup_insert_Some. naive_solver. }
  split; [done|]. split.
  - intros i v Hi. eapply pversion_extends; [done|]. by eapply ok_pversions.
  - apply (ok_pnumbers _ Hdb).
  - intros i v Hi. eapply sversion_extends; [done|]. by eapply ok_sversions.
  - apply (ok_snumbers _ Hdb).
  - intros i st Hi. cbn in Hi |- *. apply lookup_insert_is_Some. destruct (decide ((zone, setId) = (st.(s_zone), i))) as [|Hne]; [by left|right].
    split; [done|]. apply lookup_insert_Some in Hi as [[<- <-]|[_ Hi]]; [cbn in Hne; congruence|]. by apply (ok_bound _ Hdb).
  - intros z i v [Ha Hne]%Hact. destruct (ok_active _ Hdb z i v Ha) as [[st Hst] Hv]. split; [|done]. apply find_set_Some in Hst as (Hi & Hzi & Har).
    exists st. apply find_set_Some. cbn. rewrite lookup_insert_ne; [done|]. intros <-. rewrite Hi in Hs. simplify_eq.
  - intros z i i' v v' [Ha _]%Hact [Ha' _]%Hact. by eapply (ok_single _ Hdb).
  - intros z v. cbn. rewrite Hev. setoid_rewrite Hact. destruct b as [v0|].
    + case_bool_decide as Hzz; [subst z|].
      * split; [done|]. intros (i & Ha & Hne). destruct Hne. f_equal. by apply (ok_single _ Hdb zone setId i v0 v).
      * rewrite (ok_announced _ Hdb). naive_solver.
    + rewrite (ok_announced _ Hdb). split; [|naive_solver]. intros (i & Ha). exists i. split; [done|]. intros E. simplify_eq. unfold active in Ha. congruence.
Qed.

Lemma deletePolicySet_ok now zone setId outboxId requestId stamp db db' r :
  deletePolicySet now zone setId outboxId requestId stamp db = (db', r) -> db_ok db -> extends db db' /\ db_ok db'.
Proof.
  unfold deletePolicySet. case_match; [refused|]. destruct (find_set zone setId db) as [s|] eqn:Hf; [|refused].
  apply find_set_Some in Hf as (Hs & Hz & _). intros E Hdb. destruct (ok_bound _ Hdb setId s Hs) as [b Hb]. rewrite Hz in Hb. rewrite Hb in E.
  destruct b as [v|]; injection E as <- _.
  - apply (archive_ok now zone setId stamp s (Some v)); try done. intros z. unfold enqueueOutbox. rewrite announced_app, announcement_new. by case_bool_decide.
  - pose proof (archive_ok now zone setId stamp s None db.(event_outbox) db Hdb Hs Hz Hb (fun z => eq_refl)) as Hok. cbn zeta in Hok. by rewrite (insert_id _ _ _ Hb) in Hok.
Qed.

Lemma op_ok seen db db' : op seen db db' -> (forall old, old ∈ seen -> extends old db) -> db_ok db -> extends db db' /\ db_ok db'.
Proof.
  intros Hop Hseen Hdb. destruct Hop.
  - split; [split; cbn; eauto|]. destruct Hdb. split; cbn; eauto.
    + intros i v Hi. by destruct (ok_pversions0 i v Hi).
    + intros i v Hi. by destruct (ok_sversions0 i v Hi).
  - split; [split; cbn; eauto|]. destruct Hdb. split; cbn; eauto.
    + intros i v Hi. by destruct (ok_pversions0 i v Hi).
    + intros i v Hi. by destruct (ok_sversions0 i v Hi).
    + intros z v. rewrite announced_update by done. apply ok_announced0.
  - by eapply createPolicy_ok.
  - by eapply createPolicyVersion_ok.
  - by eapply deletePolicy_ok.
  - by eapply createPolicySet_ok.
  - match goal with E : createSetVersion _ _ _ _ _ _ ?r1 ?r2 _ = _ |- _ => apply (createSetVersion_ok _ _ _ _ _ _ r1 r2 _ _ _ (Hseen r1 ltac:(done)) (Hseen r2 ltac:(done)) ltac:(done) E Hdb) end.
  - by eapply activate_ok.
  - by eapply deletePolicySet_ok.
Qed.

Lemma history_ok h : history h -> forall db past, h = db :: past -> db_ok db /\ forall old, old ∈ h -> extends old db.
Proof.
  induction 1 as [zs|db past db' Hh IH Hop]; intros d p E; simplify_eq.
  - split; [|intros old ->%list_elem_of_singleton; apply extends_self]. split; unfold active, distinct_numbers; cbn; try (intros; by simplify_map_eq).
    intros z v. split; [done|]. intros [s Hs]. by simplify_map_eq.
  - destruct (IH _ _ eq_refl) as [Hdb Hseen]. destruct (op_ok _ _ _ Hop Hseen Hdb) as [He Hdb']. split; [done|].
    intros old. rewrite elem_of_cons. intros [->|Hold]; [apply extends_self|]. eapply extends_trans; eauto.
Qed.

(** C8. Whatever the interleaving of the routes, with reads that are out of date by the time
    of their transaction, dispatchers and zones that come and go: a zone is governed by at
    most one version, which belongs to a set of that zone that is not archived; its manifest
    names between one and 256 distinct policy versions, all of them versions of policies of
    that same zone, accepted by the validator, under the supported schema and with the
    digest of their content; and the digest of the manifest is its own. *)
Theorem zone_governance db past z s v :
  history (db :: past) -> active db z s v ->
  (forall s' v', active db z s' v' -> s' = s /\ v' = v)
  /\ (exists st, db.(policy_sets) !! s = Some st /\ st.(s_zone) = z /\ st.(s_archived) = None)
  /\ exists sv, db.(set_versions) !! v = Some sv /\ sv.(policy_set_id) = s
       /\ sv.(manifest_sha256) = sha256 (manifest_text sv.(manifest)) /\ sv.(sv_schema) = Rego.OPA_INPUT_SCHEMA_VERSION
       /\ let ids := collectManifestIds sv.(manifest) in
          (1 <= length ids <= 256)%nat /\ NoDup ids
          /\ forall i, i ∈ ids -> exists pv p,
               db.(policy_versions) !! i = Some pv /\ db.(policies) !! pv.(policy_id) = Some p /\ p.(p_zone) = z
               /\ Rego.validateAuthzPolicy pv.(content) = None /\ pv.(v_schema) = Rego.OPA_INPUT_SCHEMA_VERSION
               /\ pv.(content_sha256) = sha256 pv.(content).
Proof.
  intros Hh Ha. destruct (history_ok _ Hh _ _ eq_refl) as [Hdb _]. destruct (ok_active _ Hdb z s v Ha) as [[st Hst] (sv & Hsv & Hset)].
  apply find_set_Some in Hst as (Hs & Hz & Har). split_and!.
  - intros s' v' Ha'. assert (s' = s) as -> by (by eapply (ok_single _ Hdb z s s')). split; [done|]. unfold active in *. congruence.
  - eauto.
  - exists sv. destruct (ok_sversions _ Hdb v sv Hsv) as [(st' & Hst' & Hm) Hsc Hsha]. rewrite Hset, Hs in Hst'. simplify_eq.
    destruct Hm as (H1 & H2 & H3 & H4). cbn zeta.
    assert (length (collectManifestIds sv.(manifest)) <> 0%nat) by (intros El; by apply nil_length_inv in El).
    split_and!; try done; [lia|]. intros i Hi. destruct (H4 i Hi) as (pv & p & Hpv & Hp & Hpz). destruct (ok_pversions _ Hdb i pv Hpv). by exists pv, p.
Qed.

(** C19. The stream tells the enforcement: in every reachable database the last invalidation
    event enqueued for a zone names the version that governs it, and says that none does
    when none does; so a runtime that follows the events ends with the version the database
    has, and no change of enforcement goes without its event. *)
Theorem governance_announced db past z :
  history (db :: past) -> forall v, last_announced z db.(event_outbox) = Some v <-> exists s, active db z s v.
Proof. intros Hh v. destruct (history_ok _ Hh _ _ eq_refl) as [Hdb _]. apply (ok_announced _ Hdb). Qed.

(** *** Activation *)

(** What the runtime's answer means for a bundle. *)
Lemma compile_verdict reply verdict :
  verifyBundleCompiles reply = Some verdict ->
  match verdict with
  | None => reply = NotConfigured \/ exists status payload, reply = Answer true status payload
  | Some e => (e.(be_status) = 503 /\ exists reason, reply = Unreachable reason)
              \/ (e.(be_status) = 422 /\ ((exists reason, reply = BadJson reason) \/ exists status payload, reply = Answer false status payload))
  end.
Proof.
  unfold verifyBundleCompiles. destruct reply as [|reason|reason|ok status payload]; cbn; intros E.
  - injection E as <-. auto.
  - injection E as <-. left. eauto.
  - injection E as <-. right. eauto.
  - destruct payload, ok; try discriminate E; injection E as <-; solve [right; eauto].
Qed.

(** Activation is a change only when it is accepted: then the version was a version of a
    live set of the zone when it was read and is one now, its policies met the contract when
    they were read, the runtime compiled them, or is not configured or could not be reached,
    and from now on the zone is governed by this version and by nothing else; whatever
    governs other zones stays. *)
Theorem activation_checked now zone setId body outboxId requestId stamp sts read1 read2 db db' r :
  activate now zone setId body outboxId requestId stamp sts read1 read2 db = (db', r) ->
  (db' = db /\ forall v o, r <> Accepted v o)
  \/ exists versionId sv,
       r = Accepted versionId outboxId /\ parse_ActivateBody body = Some versionId
       /\ find_version zone setId versionId read1 = Some sv /\ is_Some (find_version zone setId versionId db)
       /\ (let contract := policySetContract zone sv.(manifest) read2 in
           contract.(c_error) = None
           /\ (sts (bundle contract) = NotConfigured \/ (exists reason, sts (bundle contract) = Unreachable reason)
               \/ exists status payload, sts (bundle contract) = Answer true status payload))
       /\ all_present (collectManifestIds sv.(manifest)) db = true
       /\ (forall z s v, active db' z s v <-> (z = zone /\ s = setId /\ v = versionId) \/ (z <> zone /\ active db z s v))
       /\ db'.(event_outbox) = enqueueOutbox now outboxId (invalidation zone setId (Some versionId) requestId) db.(event_outbox).
Proof.
  unfold activate. case_match; [intros; simplify_eq; by left|]. destruct (parse_ActivateBody body) as [vid|] eqn:Hb; [|intros; simplify_eq; by left].
  destruct (find_version zone setId vid read1) as [sv|] eqn:Hf; [|intros; simplify_eq; by left]. cbn zeta.
  destruct (c_error _) eqn:Hc; [intros; simplify_eq; by left|]. destruct (verifyBundleCompiles _) as [verdict|] eqn:Hv; [|intros; simplify_eq; by left].
  assert (Htx : forall d' r', activate_tx now zone setId vid outboxId requestId stamp (manifest sv) db = (d', r') ->
            (d' = db /\ forall v o, r' <> Accepted v o)
            \/ (r' = Accepted vid outboxId /\ is_Some (find_version zone setId vid db) /\ all_present (collectManifestIds sv.(manifest)) db = true
               /\ (forall z s v, active d' z s v <-> (z = zone /\ s = setId /\ v = vid) \/ (z <> zone /\ active db z s v))
               /\ d'.(event_outbox) = enqueueOutbox now outboxId (invalidation zone setId (Some vid) requestId) db.(event_outbox))).
  { unfold activate_tx. intros d' r'. destruct (find_version zone setId vid db); [|intros; simplify_eq; by left].
    case_match eqn:Hp; [intros; simplify_eq; by left|]. apply negb_false_iff in Hp.
    destruct (bindings db !! (zone, setId)) as [b|] eqn:Hbi; [|intros; simplify_eq; by left]. intros E. injection E as <- <-. right.
    split_and!; [done|by eexists|done| |done]. intros z s0 v. unfold active. cbn. by eapply bind_active. }
  intros E. apply compile_verdict in Hv as Hm. destruct verdict as [e|].
  - destruct (be_status e =? 503) eqn:H503; cbn [negb] in E; [|simplify_eq; by left]. destruct Hm as [[_ Hun]|[H422 _]]; [|lia].
    apply Htx in E as [?|(-> & ? & ? & ? & ?)]; [by left|]. right. exists vid, sv. split_and!; auto.
  - apply Htx in E as [?|(-> & ? & ? & ? & ?)]; [by left|]. right. exists vid, sv. split_and!; auto. tauto.
Qed.

(** *** Limits *)

(** The driver gives an infinite time as the number [Infinity], which prints with a capital:
    an event that was given up shows as pending for ever. *)
Theorem abandoned_shows_pending zone setId versionId r evs :
  status_row zone setId versionId (Some r.(ApiOutbox.id)) evs = Some r -> announces zone setId versionId r = true ->
  r.(dispatched_at) = None -> r.(available_at) = infinity ->
  (policyActivationOutboxStatus "Infinity" zone setId versionId (Some r.(ApiOutbox.id)) evs).(o_state) = pending
  /\ (policyActivationOutboxStatus "infinity" zone setId versionId (Some r.(ApiOutbox.id)) evs).(o_state) = dead.
Proof. intros Hr Ha Hd Hi. unfold policyActivationOutboxStatus. by rewrite Hr, Ha, Hd, Hi. Qed.

(** [would_activate] looks at the input only: it is true of a bundle the runtime rejects,
    whose activation is refused. *)
Theorem would_activate_ignores_runtime now zone setId versionId input sts outboxId requestId stamp read1 read2 db sim status payload body :
  simulate zone setId versionId (Some input) sts read1 read2 = inr sim -> validateSimulationInput (Some input) zone = [] ->
  (forall b, sts b = Answer false status payload) -> parse_ActivateBody body = Some versionId ->
  sim.(would_activate) = true
  /\ exists code description, activate now zone setId body outboxId requestId stamp sts read1 read2 db = (db, Error 422 code description).
Proof.
  unfold simulate, activate. intros Hs Hi Hsts Hb. rewrite Hb. case_match; [done|]. destruct (find_version zone setId versionId read1) as [v|]; [|done].
  cbn zeta in *. destruct (c_error _); [done|]. rewrite Hsts in *. rewrite Hi in Hs.
  assert (Hv : exists code description, verifyBundleCompiles (Answer false status payload) = Some (Some {| be_status := 422; be_code := code; be_description := description |}))
    by (destruct payload; cbn in *; try done; eauto).
  destruct Hv as (code & d & ->). split; [|by do 2 eexists]. destruct (executePolicySimulation _); [|done]. by simplify_eq.
Qed.

End facts.
End PolicySets.
