(* ===== verification/LedgerFacts.v ===== *)
(** * What a conversation's ledger promises

    The handlers of [PlanLedger] as steps of one conversation, interleaved in any order:
    the ledger stays gapless, a plan is decided once, only approved plans execute, the
    autopilot keeps to its budget, and no write is sent again once it may have been
    applied.  The execution lock of a plan is a lease: it may be lost while its execution
    goes on, and an execution may end without its result being recorded.  What holds only
    of histories without these two is stated with that condition. *)

From Stdlib Require Import Ascii.
From S2P Require Import Prelude.
From S2P Require Import Json.
From S2P Require Import JsonText.
From S2P Require Import Prog.
From S2P Require Import Governed.
From S2P Require Import ExecutionFacts.
From S2P Require Import OperatorCatalog.
From S2P Require Import ControlTable.
From S2P Require Import OperatorPreview.
From S2P Require Import PlanLedger.
Local Open Scope string_scope.
Local Open Scope Z_scope.

Module LedgerFacts.
Import ControlTable.
Import ProviderConfig.
Import OperatorPreview.
Import Plans.
Import Governed.
Import ExecutionFacts.
Import PlanLedger.

(** ** The system *)

(** An execution: its plan and what it was cleared for. *)
Record Execution := { e_plan : Z; e_steps : list GovernedPlanStep; e_outs : gmap string outputs_of }.

(** A conversation, the executions under way, the one each plan's lock is held for, the
    writes that may have been applied so far, and whether an execution has lost its lock
    before its result was recorded or has ended without recording it. *)
Record System := {
  ledger : Ledger;
  running : gmap nat Execution;
  locks : gmap Z nat;
  touched : list (Z * string);
  lapsed : bool
}.

Definition on_ledger (f : Ledger -> Ledger) (s : System) : System :=
  {| ledger := f s.(ledger); running := s.(running); locks := s.(locks); touched := s.(touched); lapsed := s.(lapsed) |}.

(** The outcome of a call that may have changed the zone. *)
Definition maybe_applied (o : InvokeOutcome) : bool := match o with Invoked _ => true | _ => ambiguous o end.

Section system.
Context `{Zod} (authority : OperatorAuthority) (zoneId : string) (policy : AutopilotPolicy).

Definition is_write (steps : list GovernedPlanStep) (sid : string) : bool :=
  existsb (fun s => bool_decide (s.(s_id) = sid) && mutating s) steps.

(** The writes of an execution that may have been applied. *)
Definition writes_of (steps : list GovernedPlanStep) (k : list {a : Act & Answer a}) : list string :=
  omap (fun so => if maybe_applied so.2 && is_write steps so.1 then Some so.1 else None) (invocations k).

Definition start (e : nat) (planSeq : Z) (cleared : list GovernedPlanStep * gmap string outputs_of) (s : System) : System :=
  {| ledger := s.(ledger); running := <[e := {| e_plan := planSeq; e_steps := cleared.1; e_outs := cleared.2 |}]> s.(running);
     locks := <[planSeq := e]> s.(locks); touched := s.(touched); lapsed := s.(lapsed) |}.

(** The lease of a plan's lock runs out, or its renewal fails. *)
Definition lapse (planSeq : Z) (s : System) : System :=
  {| ledger := s.(ledger); running := s.(running); locks := delete planSeq s.(locks); touched := s.(touched); lapsed := true |}.

(** An execution gives up the lock it still holds. *)
Definition release (e : nat) (planSeq : Z) (held : gmap Z nat) : gmap Z nat :=
  if decide (held !! planSeq = Some e) then delete planSeq held else held.

(** The result of an execution, its [record] of it on the ledger; without one, the
    transaction that records failed. *)
Definition conclude_execution (e : nat) (x : Execution) (k : list {a : Act & Answer a}) (record : option GovernedExecutionResult) (s : System) : System :=
  {| ledger := match record with Some r => recordResult x.(e_plan) r s.(ledger) | None => s.(ledger) end;
     running := delete e s.(running); locks := release e x.(e_plan) s.(locks);
     touched := ((fun sid => (x.(e_plan), sid)) <$> writes_of x.(e_steps) k) ++ s.(touched);
     lapsed := match record with Some _ => s.(lapsed) | None => true end |}.

Inductive step (s : System) : System -> Prop :=
| step_patch act isAsk auto : step s (on_ledger (on_conv (patchConversation act isAsk auto)) s)
| step_turn kind body token : step s (on_ledger (fun l => (postTurn kind body token l).1) s)
| step_note kind body : step s (on_ledger (fun l => (appendTurnTx (Narrative kind body) l).1) s)
| step_plan summary plan : step s (on_ledger (fun l => (postPlan summary plan l).1) s)
| step_message db summary plan reviewed : step s (on_ledger (fun l => (messagePlan db zoneId summary plan reviewed l).1) s)
| step_message_autopilot db plan v pv canApply planSeq reviewed :
    validateProposedPlan plan = Some v -> previewPlan db zoneId plan = Some pv ->
    plan_turn s.(ledger).(conv) planSeq = Some (plan_content v.(v_steps) pv.(pv_steps), reviewed) ->
    step s (on_ledger (fun l => (approveWithAutopilot planSeq (message_evaluation plan v pv canApply reviewed) policy l).1.1) s)
| step_decide now planSeq approve : step s (on_ledger (fun l => (decidePlan now planSeq approve l).1) s)
| step_paste now planSeq stepId values : step s (on_ledger (fun l => (pasteSecrets now planSeq stepId values l).1) s)
| step_paste_autopilot db canApply planSeq steps reviewed :
    plan_turn s.(ledger).(conv) planSeq = Some (steps, reviewed) ->
    step s (on_ledger (fun l => (approveWithAutopilot planSeq (paste_evaluation db zoneId canApply steps reviewed) policy l).1.1) s)
| step_start e now db planSeq cleared :
    s.(running) !! e = None -> s.(locks) !! planSeq = None ->
    preflight authority db zoneId now planSeq s.(ledger) = inr cleared -> step s (start e planSeq cleared s)
| step_lapse e x :
    s.(running) !! e = Some x -> s.(locks) !! x.(e_plan) = Some e -> step s (lapse x.(e_plan) s)
| step_finish e x k r :
    s.(running) !! e = Some x ->
    plays remember [] (executeViaControlPlane true x.(e_steps) x.(e_outs)) k (inr r) -> step s (conclude_execution e x k (Some r) s)
| step_unrecorded e x k r :
    s.(running) !! e = Some x ->
    plays remember [] (executeViaControlPlane true x.(e_steps) x.(e_outs)) k (inr r) -> step s (conclude_execution e x k None s).

(** A new conversation. *)
Definition opened (isAsk auto : bool) : System :=
  {| ledger := {| conv := {| active := true; ask := isAsk; autopilot := auto; next_seq := 1; turns := [] |}; vault := ∅ |};
     running := ∅; locks := ∅; touched := []; lapsed := false |}.

Definition reachable (s : System) : Prop := exists isAsk auto, rtc step (opened isAsk auto) s.

(** ** The invariant *)

Definition prior (s : System) (p : Z) : list (string * bool * option fields) := prior_steps s.(ledger).(conv) p.

Record wf (s : System) : Prop := {
  wf_seqs : seq <$> s.(ledger).(conv).(turns) = seqZ 1 (Z.of_nat (length s.(ledger).(conv).(turns)));
  wf_next : s.(ledger).(conv).(next_seq) = 1 + Z.of_nat (length s.(ledger).(conv).(turns));
  wf_decided : forall p, decisions s.(ledger).(conv) p <> [] -> is_Some (plan_turn s.(ledger).(conv) p);
  wf_once : forall p, (length (decisions s.(ledger).(conv) p) <= 1)%nat;
  wf_executed : forall p, prior s p <> [] -> decisions s.(ledger).(conv) p = [true];
  wf_budget : forall b, policy.(conversationWriteBudget) = Some b -> autopilotApprovedWrites s.(ledger).(conv) <= b;
  wf_running : forall e x, s.(running) !! e = Some x ->
    decisions s.(ledger).(conv) x.(e_plan) = [true] /\ NoDup (s_id <$> x.(e_steps));
  wf_locked : s.(lapsed) = false -> forall e x, s.(running) !! e = Some x ->
    s.(locks) !! x.(e_plan) = Some e /\ has_failed (prior s x.(e_plan)) = false
    /\ forall y, y ∈ x.(e_steps) -> (x.(e_plan), s_id y) ∉ s.(touched);
  wf_touched : s.(lapsed) = false -> NoDup s.(touched)
    /\ forall p sid, (p, sid) ∈ s.(touched) -> has_failed (prior s p) = true \/ sid ∈ applied_ids (prior s p)
}.

(** No execution of a plan is under way. *)
Definition idle (s : System) (p : Z) : Prop := forall e x, s.(running) !! e = Some x -> x.(e_plan) <> p.

(** *** Appending a turn *)

Definition turn_of (ct : Content) (token : option string) (c : Conversation) : Turn := {| seq := c.(next_seq); content := ct; client_token := token |}.

Lemma turns_write ct token c : (writeTurnLocked ct token c).(turns) = (c.(turns) ++ [turn_of ct token c])%list.
Proof. done. Qed.

(** Same turns and counter. *)
Definition same_turns (c c' : Conversation) : Prop := c.(turns) = c'.(turns) /\ c.(next_seq) = c'.(next_seq).

Lemma wf_same l s : same_turns l.(conv) s.(ledger).(conv) -> wf s -> wf (on_ledger (fun _ => l) s).
Proof.
  intros [Ht Hn] Hwf. destruct Hwf as [H1 H2 H3 H4 H5 H6 H7 H8 H9].
  split; unfold prior, prior_steps, decisions, plan_turn, autopilotApprovedWrites in *; cbn; rewrite ?Ht, ?Hn; try done.
  assert (approval_writes l.(conv) = approval_writes s.(ledger).(conv)) as -> by (unfold approval_writes; by rewrite Ht). done.
Qed.

Section append.
Context (ct : Content) (token : option string) (c : Conversation).

Lemma decisions_write p : decisions (writeTurnLocked ct token c) p = (decisions c p ++ from_option (fun b => [b]) [] (decision_of p (turn_of ct token c)))%list.
Proof. unfold decisions. rewrite turns_write, omap_app. cbn. by destruct (decision_of _ _). Qed.

Lemma prior_write p : prior_steps (writeTurnLocked ct token c) p = (prior_steps c p ++ from_option (fun b => [b]) [] (prior_of p (turn_of ct token c)))%list.
Proof. unfold prior_steps. rewrite turns_write, omap_app. cbn. by destruct (prior_of _ _). Qed.

Lemma plan_turn_write p : is_Some (plan_turn c p) -> plan_turn (writeTurnLocked ct token c) p = plan_turn c p.
Proof. unfold plan_turn. rewrite turns_write, omap_app. destruct (omap (plan_at p) c.(turns)); [by intros [? ?]|done]. Qed.
End append.

Lemma plan_in_turns c p x : plan_turn c p = Some x -> exists t, t ∈ c.(turns) /\ plan_at p t = Some x.
Proof.
  unfold plan_turn. intros Hh. apply head_Some_elem_of in Hh. apply list_elem_of_omap in Hh as (t & Ht & Hx). eauto.
Qed.

Lemma plan_at_seq p t x : plan_at p t = Some x -> t.(seq) = p.
Proof. unfold plan_at. destruct (content t); try done. destruct (_ =? _) eqn:He; [|done]. by apply Z.eqb_eq in He. Qed.

(** *** The autopilot's account *)

(** The mutating steps of the plans under a number. *)
Definition plan_writes (ts : list Turn) (p : Z) : Z :=
  foldr Z.add 0 (omap (fun t' => match plan_at p t' with Some (steps, _) => Some (count_mutating steps) | None => None end) ts).

Definition approved_writes (ts ts' : list Turn) : Z :=
  foldr Z.add 0 ((fun t => match t.(content) with Approval p true => plan_writes ts p | _ => 0 end) <$> ts').

Lemma autopilot_writes_eq c : autopilotApprovedWrites c = approved_writes c.(turns) c.(turns).
Proof. done. Qed.

Lemma sum_app xs ys : foldr Z.add 0 (xs ++ ys)%list = foldr Z.add 0 xs + foldr Z.add 0 ys.
Proof. induction xs as [|x xs IH]; cbn; [done|]. rewrite IH. lia. Qed.

Lemma plan_writes_app ts t p : plan_at p t = None -> plan_writes (ts ++ [t]) p = plan_writes ts p.
Proof. intros Hn. unfold plan_writes. rewrite omap_app, sum_app. cbn. rewrite Hn. cbn. lia. Qed.

(** With distinct numbers there is one plan under a number. *)
Lemma plan_writes_turn ts p x :
  NoDup (seq <$> ts) -> head (omap (plan_at p) ts) = Some x -> plan_writes ts p = count_mutating x.1.
Proof.
  induction ts as [|t ts IH]; intros Hnd Hh; [done|]. cbn in Hnd. apply NoDup_cons in Hnd as [Hni Hnd]. unfold plan_writes. cbn in *.
  destruct (plan_at p t) as [[steps rev]|] eqn:Hp; [|by apply IH]. injection Hh as <-. cbn.
  assert (omap (fun t' => match plan_at p t' with Some (steps, _) => Some (count_mutating steps) | None => None end) ts = []) as ->; [|cbn; lia].
  apply plan_at_seq in Hp. subst p. clear -Hni. induction ts as [|t' ts IH]; [done|]. cbn in *. apply not_elem_of_cons in Hni as [Hne Hni].
  destruct (plan_at _ t') as [x|] eqn:Hp; [apply plan_at_seq in Hp; congruence|by apply IH].
Qed.

(** The account after a turn no approval refers to. *)
Lemma approved_writes_app c ct token :
  (forall t p, t ∈ c.(turns) -> t.(content) = Approval p true -> p <> c.(next_seq)) ->
  (forall p, ct = Approval p true -> p <> c.(next_seq)) ->
  autopilotApprovedWrites (writeTurnLocked ct token c)
  = autopilotApprovedWrites c + match ct with Approval p true => plan_writes c.(turns) p | _ => 0 end.
Proof.
  intros Hold Hnew. rewrite !autopilot_writes_eq, turns_write. unfold approved_writes. rewrite fmap_app, sum_app.
  assert (forall p, p <> c.(next_seq) -> plan_writes (c.(turns) ++ [turn_of ct token c]) p = plan_writes c.(turns) p) as Hsame.
  { intros p Hp. apply plan_writes_app. destruct (plan_at _ _) eqn:He; [|done]. apply plan_at_seq in He. cbn in He. congruence. }
  f_equal.
  - f_equal. apply list_fmap_ext. intros i t Hi. apply list_elem_of_lookup_2 in Hi. destruct (content t) as [| |p []| |] eqn:Hc; try done. by apply Hsame, (Hold t).
  - cbn. destruct ct as [| |p []| |]; cbn; rewrite ?Hsame by (by apply Hnew); lia.
Qed.

(** *** What may be appended *)

Definition admissible (s : System) (ct : Content) : Prop :=
  match ct with
  | Narrative _ _ | PlanTurn _ _ _ => True
  | Approval p auto =>
      decisions s.(ledger).(conv) p = []
      /\ exists steps reviewed, plan_turn s.(ledger).(conv) p = Some (steps, reviewed)
         /\ (auto = true -> forall b, policy.(conversationWriteBudget) = Some b ->
               autopilotApprovedWrites s.(ledger).(conv) + count_mutating steps <= b)
  | Rejection p => decisions s.(ledger).(conv) p = [] /\ is_Some (plan_turn s.(ledger).(conv) p)
  | PlanLedger.Execution p _ _ _ => decisions s.(ledger).(conv) p = [true] /\ (s.(lapsed) = false -> idle s p)
  end.

Definition append (ct : Content) (token : option string) (s : System) : System := on_ledger (on_conv (writeTurnLocked ct token)) s.

Lemma seqs_bound s p : wf s -> p ∈ seq <$> s.(ledger).(conv).(turns) -> p < s.(ledger).(conv).(next_seq).
Proof. intros Hwf Hin. rewrite (wf_seqs s Hwf) in Hin. apply elem_of_seqZ in Hin. rewrite (wf_next s Hwf). lia. Qed.

Lemma plan_bound s p : wf s -> is_Some (plan_turn s.(ledger).(conv) p) -> p < s.(ledger).(conv).(next_seq).
Proof.
  intros Hwf [x Hx]. apply plan_in_turns in Hx as (t & Ht & Hx). apply plan_at_seq in Hx as <-. apply seqs_bound; [done|].
  apply list_elem_of_fmap. eauto.
Qed.

Lemma approved_decision c t p auto : t ∈ c.(turns) -> t.(content) = Approval p auto -> decisions c p <> [].
Proof.
  intros Ht Hc Hd. apply (elem_of_nil true). rewrite <-Hd. apply list_elem_of_omap. exists t. split; [done|]. unfold decision_of.
  by rewrite Hc, Z.eqb_refl.
Qed.

Lemma admissible_decision s ct token p b :
  admissible s ct -> decision_of p (turn_of ct token s.(ledger).(conv)) = Some b ->
  decisions s.(ledger).(conv) p = [] /\ is_Some (plan_turn s.(ledger).(conv) p).
Proof.
  unfold decision_of. cbn. destruct ct as [| |q auto|q|]; try done; cbn; (destruct (q =? p) eqn:He; [|done]); apply Z.eqb_eq in He as ->.
  - intros (Hd & steps & reviewed & Hp & _) _. split; [done|]. rewrite Hp. eauto.
  - by intros [? ?] _.
Qed.

Lemma admissible_prior s ct token p x :
  admissible s ct -> prior_of p (turn_of ct token s.(ledger).(conv)) = Some x -> decisions s.(ledger).(conv) p = [true] /\ (s.(lapsed) = false -> idle s p).
Proof. unfold prior_of. cbn. destruct ct as [| | | |q sid b outs]; try done. cbn. destruct (q =? p) eqn:He; [|done]. by apply Z.eqb_eq in He as ->. Qed.

Lemma has_failed_app xs ys : has_failed (xs ++ ys) = has_failed xs || has_failed ys.
Proof. apply existsb_app. Qed.

(** A decided plan is decided for good. *)
Lemma decisions_append s ct token p :
  admissible s ct -> decisions s.(ledger).(conv) p <> [] -> decisions (append ct token s).(ledger).(conv) p = decisions s.(ledger).(conv) p.
Proof.
  intros Ha Hd. cbn [append on_ledger ledger on_conv conv]. rewrite decisions_write. destruct (decision_of _ _) as [b|] eqn:Hb; [|apply app_nil_r].
  by destruct (admissible_decision _ _ _ _ _ Ha Hb).
Qed.

Lemma prior_append s ct token p :
  prior (append ct token s) p = (prior s p ++ from_option (fun b => [b]) [] (prior_of p (turn_of ct token s.(ledger).(conv))))%list.
Proof. apply prior_write. Qed.

Lemma budget_append s ct token b :
  wf s -> admissible s ct -> policy.(conversationWriteBudget) = Some b -> autopilotApprovedWrites (append ct token s).(ledger).(conv) <= b.
Proof.
  intros Hwf Ha Hb. cbn [append on_ledger ledger on_conv conv]. rewrite approved_writes_app.
  - pose proof (wf_budget s Hwf b Hb). destruct ct as [| |p [] | |]; try lia. destruct Ha as (Hd & steps & reviewed & Hp & Hbud).
    specialize (Hbud eq_refl b Hb). rewrite (plan_writes_turn _ _ (steps, reviewed)); [done| |done].
    rewrite (wf_seqs s Hwf). apply NoDup_seqZ.
  - intros t p Ht Hc ->. eapply Z.lt_irrefl, plan_bound; [done|]. apply (wf_decided s Hwf). by eapply approved_decision.
  - intros p -> ->. destruct Ha as (Hd & steps & reviewed & Hp & _). eapply Z.lt_irrefl, plan_bound; [done|]. rewrite Hp. eauto.
Qed.

Lemma wf_append ct token s : wf s -> admissible s ct -> wf (append ct token s).
Proof.
  intros Hwf Ha. pose proof Hwf as [H1 H2 H3 H4 H5 _ H7 H8 H9]. split.
  - cbn. rewrite fmap_app, H1, length_app. cbn. rewrite H2, Nat2Z.inj_add, seqZ_app by lia. done.
  - cbn. rewrite length_app, H2. cbn. lia.
  - intros p Hd. cbn [append on_ledger ledger on_conv conv] in *. rewrite decisions_write in Hd. assert (is_Some (plan_turn (conv (ledger s)) p)) as Hp.
    { destruct (decision_of _ _) as [b|] eqn:Hb; [by eapply admissible_decision|]. cbn in Hd. rewrite app_nil_r in Hd. auto. }
    by rewrite plan_turn_write.
  - intros p. cbn [append on_ledger ledger on_conv conv]. rewrite decisions_write. destruct (decision_of _ _) as [b|] eqn:Hb; cbn; [|rewrite app_nil_r; apply H4].
    by destruct (admissible_decision _ _ _ _ _ Ha Hb) as [-> _].
  - intros p Hp. rewrite prior_append in Hp. assert (decisions s.(ledger).(conv) p = [true]) as Hd.
    { destruct (prior_of _ _) as [x|] eqn:Hx; [by eapply admissible_prior|]. cbn in Hp. rewrite app_nil_r in Hp. auto. }
    rewrite decisions_append; [done|done|]. by rewrite Hd.
  - intros b. by apply budget_append.
  - intros e x Hr. destruct (H7 e x Hr) as (Hd & Hnd). split; [|done]. rewrite decisions_append; [done|done|]. by rewrite Hd.
  - intros Hl e x Hr. destruct (H8 Hl e x Hr) as (Hk & Hf & Ht). split_and!; [done| |done].
    rewrite prior_append. destruct (prior_of _ _) as [y|] eqn:Hx; cbn; [|by rewrite app_nil_r].
    destruct (admissible_prior _ _ _ _ _ Ha Hx) as [_ Hn]. by destruct (Hn Hl e x Hr).
  - intros Hl. destruct (H9 Hl) as [Hnd Hc]. split; [done|]. intros p sid Hin. rewrite prior_append, has_failed_app. unfold applied_ids. rewrite omap_app.
    destruct (Hc p sid Hin) as [-> |Hs]; [by left|right; apply elem_of_app; by left].
Qed.

(** *** The handlers *)

(** A handler appends at most one turn, which the ledger admits. *)
Lemma wf_handler l s :
  wf s ->
  same_turns l.(conv) s.(ledger).(conv)
  \/ (exists ct token, admissible s ct /\ same_turns l.(conv) (writeTurnLocked ct token s.(ledger).(conv))) ->
  wf (on_ledger (fun _ => l) s).
Proof.
  intros Hwf [Hs|(ct & token & Ha & Hs)]; [by apply wf_same|]. exact (wf_same l (append ct token s) Hs (wf_append ct token s Hwf Ha)).
Qed.

Lemma count_plan_content vs preview :
  count_mutating (plan_content vs preview) = Z.of_nat (length (filter (fun s => s.(v_mutating) = true) vs)).
Proof.
  unfold count_mutating, plan_content. f_equal. induction vs as [|v vs IH]; [done|]. cbn [fmap list_fmap]. rewrite !filter_cons. cbn.
  destruct (decide (v_mutating v = true)); cbn; by rewrite IH.
Qed.

Lemma autopilot_within ev e before b :
  mayAutoApprove (with_state ev e before) policy = None -> policy.(conversationWriteBudget) = Some b -> before + ev.(mutatingSteps) <= b.
Proof. intros Hm Hb. unfold mayAutoApprove in Hm. rewrite Hb in Hm. repeat (case_match; try done). cbn in *. lia. Qed.

Lemma wf_autopilot planSeq ev steps reviewed s :
  wf s -> plan_turn s.(ledger).(conv) planSeq = Some (steps, reviewed) -> ev.(mutatingSteps) = count_mutating steps ->
  wf (on_ledger (fun l => (approveWithAutopilot planSeq ev policy l).1.1) s).
Proof.
  intros Hwf Hp Hev. apply wf_handler; [done|]. assert (forall l, l = s.(ledger) ->
    same_turns (approve_locked planSeq ev policy l).1.1.(conv) l.(conv)
    \/ (exists ct token, admissible s ct /\ same_turns (approve_locked planSeq ev policy l).1.1.(conv) (writeTurnLocked ct token l.(conv)))) as Hlocked.
  { intros l ->. unfold approve_locked. destruct (active _); [|by left]. cbn. case_bool_decide as Hd; [|by left]. cbn.
    destruct (mayAutoApprove _ _) as [reason|] eqn:Hm; [by left|]. right. exists (Approval planSeq true), None. split; [|done]. split; [done|].
    exists steps, reviewed. split; [done|]. intros _ b Hb. rewrite <-Hev. eapply autopilot_within; eauto. }
  unfold approveWithAutopilot. destruct (mayAutoApprove (with_state ev true 0) policy) as [[]|]; first [by left | by apply Hlocked].
Qed.

Lemma wf_append_tx ct s : wf s -> admissible s ct -> wf (on_ledger (fun l => (appendTurnTx ct l).1) s).
Proof. intros Hwf Ha. apply wf_handler; [done|]. unfold appendTurnTx. destruct (active _); [|by left]. right. by exists ct, None. Qed.

Lemma message_admissible db summary plan reviewed s ct : message_content db zoneId summary plan reviewed = Some ct -> admissible s ct.
Proof. unfold message_content. repeat case_match; intros; simplify_eq; done. Qed.

Lemma wf_decide now planSeq approve s : wf s -> wf (on_ledger (fun l => (decidePlan now planSeq approve l).1) s).
Proof.
  intros Hwf. apply wf_handler; [done|]. unfold decidePlan. destruct (active _); [|by left]. destruct (ask _); [by left|].
  cbn [negb]. destruct (plan_turn _ _) as [[steps reviewed]|] eqn:Hp; [|by left]. case_bool_decide as Hd; [|by left]. cbn [negb].
  destruct approve; [destruct (existsb _ _); [by left|]|]; right.
  - exists (Approval planSeq false), None. split; [|done]. split; [done|]. exists steps, reviewed. by split.
  - exists (Rejection planSeq), None. split; [|done]. split; [done|]. rewrite Hp. eauto.
Qed.

Lemma wf_paste now planSeq stepId values s : wf s -> wf (on_ledger (fun l => (pasteSecrets now planSeq stepId values l).1) s).
Proof. intros Hwf. apply wf_same; [|done]. unfold pasteSecrets. repeat case_match; done. Qed.

Lemma wf_post_plan summary plan s : wf s -> wf (on_ledger (fun l => (postPlan summary plan l).1) s).
Proof.
  intros Hwf. apply wf_handler; [done|]. unfold postPlan. destruct (validateProposedPlan plan) as [v|]; [|by left].
  repeat case_match; try (by left). right. by exists (PlanTurn summary (plan_content v.(v_steps) []) false), None.
Qed.

Lemma wf_post_turn kind body token s : wf s -> wf (on_ledger (fun l => (postTurn kind body token l).1) s).
Proof.
  intros Hwf. apply wf_handler; [done|]. unfold postTurn. repeat case_match; try (by left). right. by exists (Narrative kind body), token.
Qed.

(** *** Clearing an execution *)

(** What a pre-flight that passes has checked, [left] being the steps not applied yet. *)
Record cleared_for db now planSeq (l : Ledger) (steps : list PlanStep) (v : PlanValidation) (left ready : list GovernedPlanStep) : Prop := {
  cl_open : l.(conv).(active) = true /\ l.(conv).(ask) = false;
  cl_plan : exists reviewed, plan_turn l.(conv) planSeq = Some (steps, reviewed);
  cl_approved : head (decisions l.(conv) planSeq) = Some true;
  cl_unspent : has_failed (prior_steps l.(conv) planSeq) = false;
  cl_valid : validateProposedPlan (proposed <$> steps) = Some v /\ v.(Plans.ok) = true;
  cl_left : left = remaining_steps v (applied_ids (prior_steps l.(conv) planSeq)) /\ left <> [];
  cl_references : forall s ref, s ∈ left -> ref ∈ collectStepReferences s.(s_args) ->
    lost_reference (applied_ids (prior_steps l.(conv) planSeq)) (prior_outputs (prior_steps l.(conv) planSeq)) ref = false;
  cl_authorized : authorizePlanSteps authority ((fun s => (s.(s_id), s.(s_capability))) <$> left) = [];
  cl_executable : forall s, s ∈ left -> isControlExecutable s.(s_capability) = true;
  cl_preview : preview_refusal steps (previewPlan db zoneId (proposed <$> steps)) left = None;
  cl_ready : Forall2 (fun x y => with_credentials now planSeq l.(vault) x = Some y) left ready
}.

Lemma existsb_false_iff {A : Type} (f : A -> bool) xs : existsb f xs = false <-> forall x, x ∈ xs -> f x = false.
Proof.
  rewrite <-not_true_iff_false, existsb_exists. split.
  - intros Hn x Hx. apply not_true_iff_false. intros Hf. apply Hn. exists x. by rewrite <-list_elem_of_In.
  - intros Hall (x & Hx & Hf). apply list_elem_of_In, Hall in Hx. congruence.
Qed.

Lemma preflight_spec db now planSeq l ready outs :
  preflight authority db zoneId now planSeq l = inr (ready, outs) ->
  outs = prior_outputs (prior_steps l.(conv) planSeq) /\ exists steps v left, cleared_for db now planSeq l steps v left ready.
Proof.
  unfold preflight. destruct (active _) eqn:Ha; [|done]. destruct (ask _) eqn:Hk; [done|]. cbn [negb].
  destruct (plan_turn _ _) as [[steps reviewed]|] eqn:Hp; [|done]. destruct (decisions _ _) as [|[] ds] eqn:Hd; try done. cbv zeta.
  destruct (has_failed _) eqn:Hf; [done|]. destruct (validateProposedPlan _) as [v|] eqn:Hv; [|done].
  destruct v.(Plans.ok) eqn:Hok; [|done]. cbn [negb]. set (left := remaining_steps _ _). case_bool_decide as Hl; [done|].
  destruct (existsb _ left) eqn:Href; [done|]. case_bool_decide as Hau; [|done]. cbn [negb].
  destruct (existsb (fun s => negb (isControlExecutable (s_capability s))) left) eqn:Hex; [done|].
  destruct (preview_refusal _ _ _) eqn:Hpv; [done|]. destruct (mapM _ _) as [ready'|] eqn:Hm; [|done]. intros [= <- <-].
  split; [done|]. exists steps, v, left. split; try done; [by eexists|by rewrite Hd|split; [done|by intros Hn; rewrite Hn in Hl]|..].
  - intros s ref Hs Hr. rewrite existsb_false_iff in Href. specialize (Href s Hs). cbv beta in Href. rewrite existsb_false_iff in Href. auto.
  - by apply nil_length_inv.
  - intros s Hs. rewrite existsb_false_iff in Hex. specialize (Hex s Hs). by apply negb_false_iff in Hex.
  - by apply mapM_Some.
Qed.

(** Credentials change nothing else of a step. *)
Lemma with_credentials_step now planSeq v x y :
  with_credentials now planSeq v x = Some y ->
  y.(s_id) = x.(s_id) /\ y.(s_capability) = x.(s_capability) /\ y.(s_args) = x.(s_args) /\ y.(s_depends_on) = x.(s_depends_on).
Proof. unfold with_credentials. repeat case_match; naive_solver. Qed.

Lemma ready_ids now planSeq v left ready :
  Forall2 (fun x y => with_credentials now planSeq v x = Some y) left ready -> s_id <$> ready = s_id <$> left.
Proof. intros Hr. induction Hr as [|x y left ready Hx Hr IH]; [done|]. cbn. f_equal; [|done]. by apply with_credentials_step in Hx as [? _]. Qed.

Lemma remaining_ids v ids x : x ∈ s_id <$> remaining_steps v ids <-> x ∈ v_id <$> v.(v_steps) /\ x ∉ ids.
Proof.
  unfold remaining_steps. rewrite <-list_fmap_compose. rewrite !list_elem_of_fmap. setoid_rewrite list_elem_of_filter. split.
  - intros (s & -> & Hn & Hs). cbn. split; [by exists s|done].
  - intros [(s & -> & Hs) Hn]. by exists s.
Qed.

Lemma cleared_ids db now planSeq l steps v left ready :
  cleared_for db now planSeq l steps v left ready ->
  NoDup (s_id <$> ready) /\ forall x, x ∈ s_id <$> ready -> x ∉ applied_ids (prior_steps l.(conv) planSeq).
Proof.
  intros Hc. destruct (cl_valid _ _ _ _ _ _ _ _ Hc) as [Hv Hok]. destruct (cl_left _ _ _ _ _ _ _ _ Hc) as [-> _].
  rewrite (ready_ids _ _ _ _ _ (cl_ready _ _ _ _ _ _ _ _ Hc)). split; [|intros x Hx; by apply remaining_ids in Hx as [_ ?]].
  destruct (PlanFacts.ok_has_ready _ _ (fun _ => true) Hv Hok) as [Hnd _]. unfold remaining_steps. rewrite <-list_fmap_compose.
  eapply sublist_NoDup; [exact Hnd|]. apply fmap_sublist, sublist_filter.
Qed.

Lemma single_decision s p : wf s -> head (decisions s.(ledger).(conv) p) = Some true -> decisions s.(ledger).(conv) p = [true].
Proof. intros Hwf Hh. pose proof (wf_once s Hwf p) as Hl. destruct (decisions _ _) as [|b [|]]; cbn in *; [done|congruence|lia]. Qed.

Lemma wf_start e now db planSeq cleared s :
  wf s -> s.(running) !! e = None -> s.(locks) !! planSeq = None ->
  preflight authority db zoneId now planSeq s.(ledger) = inr cleared -> wf (start e planSeq cleared s).
Proof.
  intros Hwf He Hk Hpre. destruct cleared as [ready outs]. apply preflight_spec in Hpre as (-> & steps & v & left & Hc).
  destruct (cleared_ids _ _ _ _ _ _ _ _ Hc) as [Hnd Hnew]. pose proof Hwf as [H1 H2 H3 H4 H5 H6 H7 H8 H9]. split; try done.
  - intros e' x Hr. cbn in Hr. apply lookup_insert_Some in Hr as [[<- <-]|[_ Hr]]; [|by eapply H7].
    split; [|done]. apply (single_decision s planSeq Hwf), Hc.
  - intros Hl e' x Hr. cbn in Hr |- *. apply lookup_insert_Some in Hr as [[<- <-]|[_ Hr]].
    + split_and!; [apply lookup_insert_eq|by apply Hc|]. intros y Hy Ht. destruct (H9 Hl) as [_ Hcov]. destruct (Hcov _ _ Ht) as [Hf|Ha].
      * pose proof (cl_unspent _ _ _ _ _ _ _ _ Hc) as Hf'. unfold prior in Hf. cbn in Hf, Hf'. congruence.
      * eapply Hnew; [|exact Ha]. apply list_elem_of_fmap. eauto.
    + destruct (H8 Hl e' x Hr) as (Hx & ?). split; [|done]. rewrite lookup_insert_ne; [done|]. intros Hp. rewrite <-Hp in Hx. congruence.
Qed.

Lemma wf_lapse p s : wf s -> wf (lapse p s).
Proof. by intros [H1 H2 H3 H4 H5 H6 H7 _ _]. Qed.

(** *** Recording a result *)

(** The system after an execution is over, before its result is recorded. *)
Definition ended (e : nat) (x : Execution) (s : System) : System :=
  {| ledger := s.(ledger); running := delete e s.(running); locks := release e x.(e_plan) s.(locks); touched := s.(touched); lapsed := s.(lapsed) |}.

(** An execution whose lock never lapsed is the only one of its plan. *)
Lemma wf_stop e x s :
  wf s -> s.(running) !! e = Some x -> wf (ended e x s) /\ (s.(lapsed) = false -> idle (ended e x s) x.(e_plan)).
Proof.
  intros [H1 H2 H3 H4 H5 H6 H7 H8 H9] Hx. assert (s.(lapsed) = false -> idle (ended e x s) x.(e_plan)) as Hidle.
  { intros Hl e' y Hy Hp. cbn in Hy. apply lookup_delete_Some in Hy as [Hne Hy]. destruct (H8 Hl e' y Hy) as [Hk' _], (H8 Hl e x Hx) as [Hk _]. congruence. }
  split; [|done]. split; try done.
  - intros e' y Hy. cbn in Hy. apply lookup_delete_Some in Hy as [_ Hy]. by eapply H7.
  - intros Hl e' y Hy. pose proof (Hidle Hl e' y Hy) as Hne. cbn in Hy. apply lookup_delete_Some in Hy as [_ Hy].
    destruct (H8 Hl e' y Hy) as (Hk & ?). split; [|done]. cbn. unfold release. case_decide; [by rewrite lookup_delete_ne|done].
Qed.

Lemma wf_vault f s : wf s -> wf (on_ledger (on_vault f) s).
Proof. by apply (wf_same (on_vault f s.(ledger)) s). Qed.

(** The contents of a record: executions of the plan, or narrative. *)
Definition recordable (planSeq : Z) (ct : Content) : Prop :=
  match ct with PlanLedger.Execution p _ _ _ => p = planSeq | Narrative _ _ => True | _ => False end.

Lemma result_recordable planSeq r : Forall (recordable planSeq) (result_turns planSeq r).
Proof.
  unfold result_turns. apply Forall_app; split; [|apply Forall_app; split].
  - apply Forall_forall. intros ct Hct. apply list_elem_of_fmap in Hct as (a & -> & _). done.
  - unfold failure_turns. repeat case_match; repeat (apply Forall_cons; split; [done|]); by apply Forall_nil.
  - unfold loss_turns. repeat case_match; repeat (apply Forall_cons; split; [done|]); by apply Forall_nil.
Qed.

Definition append_all (cts : list Content) (s : System) : System := foldl (fun s ct => append ct None s) s cts.

Lemma append_all_spec cts s :
  append_all cts s = on_ledger (on_conv (fun c => foldl (fun c ct => writeTurnLocked ct None c) c cts)) s.
Proof.
  revert s. induction cts as [|ct cts IH]; intros s; cbn; [by destruct s as [[] ? ? ? ?]|]. unfold append_all in IH. by rewrite IH.
Qed.

Definition execution_of (ct : Content) : option (string * bool * option fields) :=
  match ct with PlanLedger.Execution _ sid ok outs => Some (sid, ok, outs) | _ => None end.

Lemma wf_append_all planSeq cts s :
  wf s -> Forall (recordable planSeq) cts -> decisions s.(ledger).(conv) planSeq = [true] -> (s.(lapsed) = false -> idle s planSeq) ->
  wf (append_all cts s) /\ prior (append_all cts s) planSeq = (prior s planSeq ++ omap execution_of cts)%list.
Proof.
  revert s. induction cts as [|ct cts IH]; intros s Hwf Hall Hd Hr; cbn; [by rewrite app_nil_r|]. apply Forall_cons in Hall as [Hct Hall].
  assert (admissible s ct) as Ha by (by destruct ct; cbn in Hct; subst). destruct (IH (append ct None s)) as [Hwf' Hp]; [by apply wf_append|done| |done|].
  { rewrite decisions_append; [done|done|]. by rewrite Hd. }
  split; [done|]. unfold append_all in Hp. rewrite Hp, prior_append, <-app_assoc. f_equal. unfold prior_of, turn_of; cbn [content].
  destruct ct as [| | | |q sid b outs]; try done. cbn in Hct. subst q. by rewrite Z.eqb_refl.
Qed.

(** *** The writes of an execution *)

Lemma writes_of_invoked steps k sid : sid ∈ writes_of steps k -> exists o, (sid, o) ∈ invocations k /\ maybe_applied o = true /\ is_write steps sid = true.
Proof.
  unfold writes_of. intros Hin. apply list_elem_of_omap in Hin as ([x o] & Hx & He). cbn in He. destruct (maybe_applied o) eqn:Ho; [|done].
  cbn in He. destruct (is_write steps x) eqn:Hw; [|done]. injection He as ->. eauto.
Qed.

Lemma writes_of_nodup steps k : NoDup (invoked k) -> NoDup (writes_of steps k).
Proof.
  unfold invoked, writes_of. induction (invocations k) as [|[x o] calls IH]; cbn; [constructor|]. rewrite NoDup_cons. intros [Hn Hnd].
  destruct (_ && _); [|auto]. apply NoDup_cons. split; [|auto]. intros Hin. apply Hn. apply list_elem_of_omap in Hin as ([y o'] & Hy & He).
  cbn in He. destruct (_ && _); [|done]. injection He as ->. by apply (list_elem_of_fmap_2 fst) in Hy.
Qed.

(** Every call of an execution is of one of its steps. *)
Lemma execution_run steps outs k r :
  NoDup (s_id <$> steps) -> plays remember [] (executeViaControlPlane true steps outs) k (inr r) ->
  (forall sid, sid ∈ invoked k -> sid ∈ s_id <$> steps) /\ accounted steps k r.
Proof.
  intros Hnd Hp. apply (monitored_plays (allowed true steps) remember (outcome steps) (fun k => forall sid : string, sid ∈ invoked k -> sid ∈ s_id <$> steps)
    [] (executeViaControlPlane true steps outs) k (inr r));
    [|intros sid Hs; by apply elem_of_nil in Hs|by apply execution_checked|exact Hp].
  intros k0 e a Hk Hal sid Hin. destruct e as [sid' inv scopes| | |]; [|by apply Hk..].
  apply elem_of_cons in Hin as [-> |Hin]; [|by apply Hk]. destruct Hal as (s & Hs & <- & _). apply list_elem_of_fmap. eauto.
Qed.

Lemma is_write_step steps sid : is_write steps sid = true -> exists s, s ∈ steps /\ s_id s = sid /\ mutating s = true.
Proof.
  unfold is_write. rewrite existsb_exists. intros (s & Hs & Hw). apply andb_true_iff in Hw as [Hid Hm]. apply bool_decide_eq_true_1 in Hid.
  exists s. by rewrite list_elem_of_In.
Qed.

(** An unknown outcome marks the plan as failed. *)
Lemma spent_failed planSeq r sid :
  (exists f, r.(failure) = Some f /\ f.(f_step) = sid /\ f.(f_terminal) = true)
  \/ (exists l, r.(leaseLoss) = Some l /\ l.(l_step) = sid /\ l.(l_outcomeUncertain) = true) ->
  has_failed (omap execution_of (result_turns planSeq r)) = true.
Proof.
  intros Hu. unfold result_turns. rewrite !omap_app, !has_failed_app. destruct Hu as [(f & Hf & _ & Ht)|(ls & Hl & _ & Hu)].
  - unfold failure_turns. rewrite Hf, Ht, orb_true_r. cbn. by rewrite orb_true_r.
  - unfold loss_turns. rewrite Hl, Hu. cbn. by rewrite !orb_true_r.
Qed.

(** The record has every write that may have been applied: as a success, or by marking
    the plan as failed. *)
Lemma result_covers planSeq steps k r sid :
  accounted steps k r -> sid ∈ writes_of steps k ->
  has_failed (omap execution_of (result_turns planSeq r)) = true \/ sid ∈ applied_ids (omap execution_of (result_turns planSeq r)).
Proof.
  intros (Hap & _ & Hamb & _) Hin. apply writes_of_invoked in Hin as (o & Hin & Ho & Hw). apply is_write_step in Hw as (s & Hs & <- & Hm).
  destruct o as [res|reason code def|msg].
  - right. unfold result_turns, applied_ids. rewrite !omap_app. apply elem_of_app. left.
    assert (s_id s ∈ r_id <$> applied r) as Ha.
    { rewrite Hap. unfold successes. rewrite list_elem_of_In, <-in_rev, <-list_elem_of_In. apply list_elem_of_omap. by exists (s_id s, Invoked res). }
    apply list_elem_of_fmap in Ha as (a & -> & Ha). apply list_elem_of_omap. exists (r_id a, true, persistedOutputs a). split; [|done].
    apply list_elem_of_omap. exists (PlanLedger.Execution planSeq (r_id a) true (persistedOutputs a)). split; [|done].
    apply list_elem_of_fmap. eauto.
  - left. exact (spent_failed _ _ _ (Hamb s _ Hs Hm Hin Ho)).
  - left. exact (spent_failed _ _ _ (Hamb s _ Hs Hm Hin Ho)).
Qed.

Lemma wf_touch planSeq sids s :
  wf s -> NoDup sids ->
  (s.(lapsed) = false -> idle s planSeq /\ (forall sid, sid ∈ sids -> (planSeq, sid) ∉ s.(touched))
     /\ (forall sid, sid ∈ sids -> has_failed (prior s planSeq) = true \/ sid ∈ applied_ids (prior s planSeq))) ->
  wf {| ledger := s.(ledger); running := s.(running); locks := s.(locks); touched := ((fun sid => (planSeq, sid)) <$> sids) ++ s.(touched); lapsed := s.(lapsed) |}.
Proof.
  intros [H1 H2 H3 H4 H5 H6 H7 H8 H9] Hnd Hnew. split; try done.
  - intros Hl e x Hx. cbn in Hl, Hx |- *. destruct (Hnew Hl) as (Hidle & _). destruct (H8 Hl e x Hx) as (? & ? & Hno). split_and!; try done.
    intros y Hy Hin. apply elem_of_app in Hin as [Hin|Hin]; [|by eapply Hno]. apply list_elem_of_fmap in Hin as (sid & [= Hp _] & _). by apply (Hidle e x Hx).
  - cbn. intros Hl. destruct (Hnew Hl) as (_ & Hfresh & Hcov), (H9 Hl) as [H9a H9b]. split.
    + apply NoDup_app. split_and!; [|intros [p sid] Hin Ht|done].
      * assert (Inj eq eq (fun sid : string => (planSeq, sid))) by (by intros ? ? [= ->]). by apply NoDup_fmap_2.
      * apply list_elem_of_fmap in Hin as (x & [= -> ->] & Hx). by eapply Hfresh.
    + intros p sid Hin. apply elem_of_app in Hin as [Hin|Hin]; [|exact (H9b _ _ Hin)].
      apply list_elem_of_fmap in Hin as (x & [= -> ->] & Hx). exact (Hcov _ Hx).
Qed.

Lemma wf_finish e x k r s :
  wf s -> s.(running) !! e = Some x -> plays remember [] (executeViaControlPlane true x.(e_steps) x.(e_outs)) k (inr r) ->
  wf (conclude_execution e x k (Some r) s).
Proof.
  intros Hwf Hr Hp. destruct (wf_running s Hwf _ _ Hr) as (Hd & Hnd). destruct (execution_run _ _ _ _ Hnd Hp) as [Hin Hacc].
  destruct (wf_stop e x s Hwf Hr) as [Hwf0 Hidle]. set (p := x.(e_plan)) in *. set (s0 := ended e x s) in *.
  destruct (wf_append_all p (result_turns p r) s0) as [Hwf1 Hprior]; [done|apply result_recordable|done..|].
  set (s1 := append_all (result_turns p r) s0) in *.
  assert (s1 = on_ledger (on_conv (fun c => foldl (fun c ct => writeTurnLocked ct None c) c (result_turns p r))) s0) as Hs1 by apply append_all_spec.
  assert (wf {| ledger := s1.(ledger); running := s1.(running); locks := s1.(locks);
                touched := ((fun sid => (p, sid)) <$> writes_of x.(e_steps) k) ++ s1.(touched); lapsed := s1.(lapsed) |}) as Hwf2.
  { apply wf_touch; [done|apply writes_of_nodup, Hacc|]. rewrite Hprior. rewrite Hs1. intros Hl.
    destruct (wf_locked s Hwf Hl e x Hr) as (_ & _ & Hfresh). split_and!; [by apply Hidle| |].
    - intros sid Hsid. apply writes_of_invoked in Hsid as (o & _ & _ & Hw). apply is_write_step in Hw as (y & Hy & <- & _). by apply Hfresh.
    - intros sid Hsid. rewrite has_failed_app. unfold applied_ids. rewrite omap_app.
      destruct (result_covers p x.(e_steps) k r sid Hacc Hsid) as [-> |Ha]; [left; apply orb_true_r|right; apply elem_of_app; by right]. }
  unfold conclude_execution, recordResult. rewrite Hs1 in Hwf2. cbn in Hwf2. fold p. destruct (settled r); [|exact Hwf2].
  by apply (wf_vault (deletePlanSecrets p)) in Hwf2.
Qed.

Lemma wf_unrecorded e x k s : wf s -> s.(running) !! e = Some x -> wf (conclude_execution e x k None s).
Proof.
  intros Hwf Hr. destruct (wf_stop e x s Hwf Hr) as [[H1 H2 H3 H4 H5 H6 H7 _ _] _]. by split.
Qed.

Lemma step_wf s s' : wf s -> step s s' -> wf s'.
Proof.
  intros Hwf Hs. destruct Hs as [act isAsk auto|kind body token|kind body|summary plan|db summary plan reviewed|db plan v pv canApply planSeq reviewed Hv Hpv Hp
    |now planSeq approve|now planSeq stepId values|db canApply planSeq steps reviewed Hp|e now db planSeq cleared He Hr Hpre|e x He Hk|e x k r Hr Hrun|e x k r Hr Hrun].
  - by apply (wf_same (on_conv (patchConversation act isAsk auto) s.(ledger)) s).
  - by apply wf_post_turn.
  - by apply wf_append_tx.
  - by apply wf_post_plan.
  - unfold messagePlan. destruct (message_content _ _ _ _ _) as [ct|] eqn:Hct; [|by apply (wf_same s.(ledger) s)].
    apply wf_append_tx; [done|]. by eapply message_admissible.
  - eapply wf_autopilot; [done|exact Hp|]. cbn. by rewrite count_plan_content.
  - by apply wf_decide.
  - by apply wf_paste.
  - by eapply wf_autopilot.
  - by eapply wf_start.
  - by apply wf_lapse.
  - by eapply wf_finish.
  - by apply wf_unrecorded.
Qed.

Lemma opened_wf isAsk auto : (forall b, policy.(conversationWriteBudget) = Some b -> 0 <= b) -> wf (opened isAsk auto).
Proof.
  intros Hb. split; try done; cbn.
  - intros p. lia.
  - intros _. split; [constructor|]. intros p sid Hin. by apply elem_of_nil in Hin.
Qed.

Lemma reachable_wf s : (forall b, policy.(conversationWriteBudget) = Some b -> 0 <= b) -> reachable s -> wf s.
Proof.
  intros Hb (isAsk & auto & Hr). remember (opened isAsk auto) as s0 eqn:Hs0. assert (wf s0) as Hwf by (subst; by apply opened_wf). clear Hs0.
  induction Hr as [|s0 s1 s2 Hs Hr IH]; [done|]. apply IH. by eapply step_wf.
Qed.

(** *** What a cleared step was checked for *)

Lemma authorized_steps left s : authorizePlanSteps authority ((fun s => (s.(s_id), s.(s_capability))) <$> left) = [] -> s ∈ left -> authorizeCapability authority s.(s_capability) = None.
Proof.
  unfold authorizePlanSteps. intros Hnil Hs. destruct (authorizeCapability _ _) as [code|] eqn:Hc; [|done]. exfalso.
  apply (elem_of_nil (s.(s_id), code)). rewrite <-Hnil. apply list_elem_of_omap. exists (s.(s_id), s.(s_capability)).
  split; [apply list_elem_of_fmap; eauto|]. cbn [snd fst]. by rewrite Hc.
Qed.

Lemma preview_passed steps pv left p :
  preview_refusal steps (Some pv) left = None -> p ∈ pv.(pv_steps) -> p.(pv_id) ∈ s_id <$> left ->
  p.(pv_effect) <> EffBlocked /\ p.(pv_effect) <> EffExists /\ (forall e, reviewed_effect steps p.(pv_id) = Some e -> e = p.(pv_effect)).
Proof.
  unfold preview_refusal. intros Hr Hp Hin. set (rest := filter _ pv.(pv_steps)) in Hr. assert (p ∈ rest) as Hrest by (by apply list_elem_of_filter).
  destruct (bool_decide _ || _) eqn:H1; [done|]. apply orb_false_iff in H1 as [_ H1]. destruct (existsb _ rest) eqn:H2 in Hr; [done|].
  destruct (existsb (drifted steps) rest) eqn:H3; [done|]. rewrite existsb_false_iff in H1, H2, H3.
  specialize (H1 p Hrest). specialize (H2 p Hrest). specialize (H3 p Hrest). cbv beta in H1, H2. apply bool_decide_eq_false_1 in H1, H2.
  split_and!; [done|done|]. intros e He. unfold drifted in H3. rewrite He in H3. apply negb_false_iff, bool_decide_eq_true_1 in H3. done.
Qed.

(** A valid plan previews to one entry per validated step. *)
Lemma preview_entry db plan v s :
  validateProposedPlan plan = Some v -> v.(Plans.ok) = true -> s ∈ v.(v_steps) ->
  exists pv, previewPlan db zoneId plan = Some pv /\ step_preview db zoneId s ∈ pv.(pv_steps).
Proof. intros Hv Hok Hs. unfold previewPlan. rewrite Hv, Hok. eexists. split; [done|]. cbn. apply list_elem_of_fmap. eauto. Qed.

Lemma step_preview_id db s : (step_preview db zoneId s).(pv_id) = s.(v_id) /\ (step_preview db zoneId s).(pv_effect) = (previewStep db zoneId s.(v_capability) s.(v_args)).1.
Proof. unfold step_preview. by destruct (previewStep _ _ _ _). Qed.

(** The credentials a step carries. *)
Definition carries (now planSeq : Z) (v : Vault) (s : GovernedPlanStep) : Prop :=
  match credentialFieldsFor s.(s_capability) s.(s_args) with
  | [] => s.(s_secrets) = None
  | required =>
      exists values, s.(s_secrets) = Some values /\ openPlanStepSecrets now planSeq s.(s_id) v = Some values
        /\ String.concat "," (sort_strings required) = String.concat "," (sort_strings values.*1)
  end.

Lemma with_credentials_carries now planSeq v x y :
  x.(s_secrets) = None -> with_credentials now planSeq v x = Some y -> carries now planSeq v y.
Proof.
  intros Hn Hw. destruct (with_credentials_step _ _ _ _ _ Hw) as (Hid & Hc & Ha & _). unfold carries. rewrite Hid, Hc, Ha. unfold with_credentials in Hw.
  destruct (credentialFieldsFor _ _) as [|f fs]; [by injection Hw as <-|]. destruct (openPlanStepSecrets _ _ _ _) as [values|]; [|done].
  case_bool_decide as He; [|done]. injection Hw as <-. eauto.
Qed.

(** A step the pre-flight of plan [planSeq] lets through. *)
Record clear (db : Tables) (now planSeq : Z) (l : Ledger) (steps : list PlanStep) (x : GovernedPlanStep) : Prop := {
  cr_unapplied : x.(s_id) ∉ applied_ids (prior_steps l.(conv) planSeq);
  cr_authorized : authorizeCapability authority x.(s_capability) = None /\ isControlExecutable x.(s_capability) = true;
  cr_effect : let e := (previewStep db zoneId x.(s_capability) x.(s_args)).1 in
    e <> EffBlocked /\ e <> EffExists /\ (forall e', reviewed_effect steps x.(s_id) = Some e' -> e' = e);
  cr_references : forall ref, ref ∈ collectStepReferences x.(s_args) ->
    lost_reference (applied_ids (prior_steps l.(conv) planSeq)) (prior_outputs (prior_steps l.(conv) planSeq)) ref = false;
  cr_secrets : carries now planSeq l.(vault) x
}.

Lemma cleared_clear db now planSeq l steps v left ready x :
  cleared_for db now planSeq l steps v left ready -> x ∈ ready -> clear db now planSeq l steps x.
Proof.
  intros Hc Hx. destruct (cleared_ids _ _ _ _ _ _ _ _ Hc) as [_ Hnew].
  destruct Hc as [_ _ _ _ [Hv Hok] [Hleft _] Href Hau Hex Hpv Hready]. apply list_elem_of_lookup in Hx as [i Hi].
  destruct (Forall2_lookup_r _ _ _ _ _ Hready Hi) as (y & Hy & Hw). apply list_elem_of_lookup_2 in Hy.
  destruct (with_credentials_step _ _ _ _ _ Hw) as (Hid & Hcap & Ha & _).
  assert (exists s, s ∈ v.(v_steps) /\ y = governed_step s) as (s & Hs & ->).
  { rewrite Hleft in Hy. apply list_elem_of_fmap in Hy as (s & -> & Hs). apply list_elem_of_filter in Hs as [_ Hs]. eauto. }
  split.
  - apply Hnew, list_elem_of_fmap. exists x. split; [done|]. by apply list_elem_of_lookup_2 in Hi.
  - rewrite Hcap. split; [by eapply authorized_steps|by apply Hex].
  - destruct (preview_entry db _ _ _ Hv Hok Hs) as (pv & Hpreview & Hin). rewrite Hpreview in Hpv.
    destruct (step_preview_id db s) as [Hpid Hpe]. rewrite Hid, Hcap, Ha. cbn. rewrite <-Hpe.
    destruct (preview_passed _ _ _ _ Hpv Hin) as (Hb & He & Hd); [rewrite Hpid; by apply (list_elem_of_fmap_2 s_id) in Hy|].
    split_and!; [done|done|]. intros e' He'. apply Hd. by rewrite Hpid.
  - rewrite Ha. intros ref Hin. by eapply Href.
  - by apply (with_credentials_carries _ _ _ (governed_step s)).
Qed.

(** With their credentials the steps order as without. *)
Lemma ready_ordered now planSeq vl plan v ids ready :
  validateProposedPlan plan = Some v -> v.(Plans.ok) = true ->
  Forall2 (fun x y => with_credentials now planSeq vl x = Some y) (remaining_steps v ids) ready -> is_Some (dependencyWaves ready).
Proof.
  intros Hv Hok Hr. destruct (PlanFacts.ok_has_ready _ _ (fun s => bool_decide (s.(v_id) ∉ ids)) Hv Hok) as [Hnd Hready].
  assert (governed_step <$> filter (fun s => bool_decide (s.(v_id) ∉ ids) = true) v.(v_steps) = remaining_steps v ids) as Hfil.
  { unfold remaining_steps. f_equal. apply list_filter_iff. intros s. apply bool_decide_eq_true. }
  rewrite Hfil in Hready. pose proof (ready_ids _ _ _ _ _ Hr) as Hids. apply GovernedFacts.waves_go_total.
  - intros pending Hne Hsub. destruct (Hready pending Hne) as (s & Hs & Hrd); [by rewrite <-Hids|]. apply list_elem_of_lookup in Hs as [i Hi].
    destruct (Forall2_lookup_l _ _ _ _ _ Hr Hi) as (y & Hy & Hw). apply list_elem_of_lookup_2 in Hy. exists y. split; [done|].
    destruct (with_credentials_step _ _ _ _ _ Hw) as (Hid & _ & _ & Hd). unfold Governed.ready in *. by rewrite Hid, Hd.
  - intros x. by rewrite elem_of_distinct.
  - assert (distinct (s_id <$> ready) ≡ₚ s_id <$> ready) as ->; [|by rewrite length_fmap].
    apply NoDup_Permutation; [apply NoDup_distinct| |intros x; apply elem_of_distinct]. rewrite Hids. unfold remaining_steps. rewrite <-list_fmap_compose.
    eapply sublist_NoDup; [exact Hnd|]. apply fmap_sublist, sublist_filter.
Qed.
End system.

Lemma policy_nonneg on budget b : (buildAutopilotPolicy on budget).(conversationWriteBudget) = Some b -> 0 <= b.
Proof. cbn. destruct (0 <? _) eqn:Hb; [|done]. intros [= <-]. lia. Qed.

(** C6. The ledger of a conversation, however its requests interleave: its turns are
    numbered without gaps; every decision is about a recorded plan, and a plan has at most
    one; only plans that were approved execute, before or during; and when the deployment
    sets a write budget, the mutating steps of all the plans the autopilot approved in the
    conversation never exceed it. *)
Theorem ledger_sound `{Zod} authority zoneId on budget s :
  reachable authority zoneId (buildAutopilotPolicy on budget) s ->
  let c := s.(ledger).(conv) in
  seq <$> c.(turns) = seqZ 1 (Z.of_nat (length c.(turns)))
  /\ (forall p, decisions c p = [] \/ exists d, decisions c p = [d] /\ is_Some (plan_turn c p))
  /\ (forall t p sid ok outs, t ∈ c.(turns) -> t.(content) = PlanLedger.Execution p sid ok outs -> decisions c p = [true])
  /\ (forall e x, s.(running) !! e = Some x -> decisions c x.(e_plan) = [true])
  /\ (forall b, budget = Some b -> 0 < b -> autopilotApprovedWrites c <= b).
Proof.
  intros Hr c. pose proof (reachable_wf _ _ _ s (policy_nonneg on budget) Hr) as Hwf. split_and!.
  - apply Hwf.
  - intros p. pose proof (wf_once _ s Hwf p) as Ho. pose proof (wf_decided _ s Hwf p) as Hd. fold c in Ho, Hd.
    destruct (decisions c p) as [|d [|]]; cbn in Ho; [by left|right; eauto|lia].
  - intros t p sid b outs Ht Hc. apply (wf_executed _ s Hwf). intros Hnil. apply (elem_of_nil (sid, b, outs)). rewrite <-Hnil.
    apply list_elem_of_omap. exists t. split; [done|]. unfold prior_of. by rewrite Hc, Z.eqb_refl.
  - intros e x Hx. by apply (wf_running _ s Hwf) in Hx as [? _].
  - intros b -> Hb. apply (wf_budget _ s Hwf). cbn. by rewrite (proj2 (Z.ltb_lt 0 b) Hb).
Qed.

(** C5. No write of a plan is applied twice while its lock protects it: in every history
    of a conversation in which no execution loses its lock before its result is recorded
    and every result is recorded, the writes that the control plane applied, or may have
    applied without its answer being seen, are all different; each is in the ledger as a
    succeeded step, or its plan is marked as failed; the pre-flight of a further execution
    never clears it again; and each plan has at most one execution under way.  A lost
    lock does lead to a second write. *)
Theorem no_write_twice `{Zod} authority zoneId on budget s :
  reachable authority zoneId (buildAutopilotPolicy on budget) s -> s.(lapsed) = false ->
  NoDup s.(touched)
  /\ (forall p sid, (p, sid) ∈ s.(touched) ->
      (has_failed (prior_steps s.(ledger).(conv) p) = true \/ sid ∈ applied_ids (prior_steps s.(ledger).(conv) p))
      /\ forall now db ready outs x, preflight authority db zoneId now p s.(ledger) = inr (ready, outs) -> x ∈ ready -> s_id x <> sid)
  /\ (forall e e' x x', s.(running) !! e = Some x -> s.(running) !! e' = Some x' -> x.(e_plan) = x'.(e_plan) -> e = e').
Proof.
  intros Hr Hl. pose proof (reachable_wf _ _ _ s (policy_nonneg on budget) Hr) as Hwf. destruct (wf_touched _ s Hwf Hl) as [Hnd Hcov].
  split_and!; [done| |].
  - intros p sid Hin. split; [by apply Hcov|]. intros now db ready outs x Hpre Hx <-. apply preflight_spec in Hpre as (_ & steps & v & left & Hc).
    destruct (cleared_ids _ _ _ _ _ _ _ _ _ _ Hc) as [_ Hnew]. destruct (Hcov _ _ Hin) as [Hf|Ha].
    + pose proof (cl_unspent _ _ _ _ _ _ _ _ _ _ Hc) as Hf'. unfold prior in Hf. congruence.
    + eapply Hnew; [|exact Ha]. apply list_elem_of_fmap. eauto.
  - intros e e' x x' Hx Hx' Hp. destruct (wf_locked _ s Hwf Hl e x Hx) as [Hk _], (wf_locked _ s Hwf Hl e' x' Hx') as [Hk' _]. congruence.
Qed.

(** C14. What the pre-flight clears: the conversation is active and not in ask mode; the
    plan is recorded, approved, still valid and has no failed execution; the steps it
    sends are distinct, at least one, and can be ordered; and each of them was not applied
    before, is granted to the Operator and mapped to a control command, has against the
    present rows an effect that is neither blocked nor already there and that is the one
    reviewed, refers to no lost output, and carries exactly the live credentials it
    needs. *)
Theorem execution_gated `{Zod} authority db zoneId now planSeq l ready outs :
  preflight authority db zoneId now planSeq l = inr (ready, outs) ->
  l.(conv).(active) = true /\ l.(conv).(ask) = false /\ head (decisions l.(conv) planSeq) = Some true
  /\ has_failed (prior_steps l.(conv) planSeq) = false
  /\ NoDup (s_id <$> ready) /\ ready <> [] /\ is_Some (dependencyWaves ready)
  /\ exists steps reviewed v, plan_turn l.(conv) planSeq = Some (steps, reviewed)
     /\ validateProposedPlan (proposed <$> steps) = Some v /\ v.(Plans.ok) = true
     /\ (forall sid, sid ∈ v_id <$> v.(v_steps) <-> sid ∈ s_id <$> ready \/ sid ∈ v_id <$> v.(v_steps) /\ sid ∈ applied_ids (prior_steps l.(conv) planSeq))
     /\ Forall (clear authority zoneId db now planSeq l steps) ready.
Proof.
  intros Hpre. destruct (preflight_spec _ _ _ _ _ _ _ _ Hpre) as (_ & steps & v & left & Hc). destruct (cleared_ids _ _ _ _ _ _ _ _ _ _ Hc) as [Hnd _].
  pose proof (fun x => cleared_clear _ _ _ _ _ _ _ _ _ _ x Hc) as Hall. destruct Hc as [[Ha Hk] [reviewed Hp] Hap Hun [Hv Hok] [Hleft Hne] _ _ _ _ Hready].
  split_and!; try done; [intros ->; by apply Forall2_nil_inv_r in Hready|rewrite Hleft in Hready; by eapply ready_ordered|]. exists steps, reviewed, v. split_and!; try done.
  - intros sid. rewrite (ready_ids _ _ _ _ _ Hready), Hleft, remaining_ids.
    destruct (decide (sid ∈ applied_ids (prior_steps (conv l) planSeq))); tauto.
  - apply Forall_forall. auto.
Qed.
End LedgerFacts.
