(* ===== verification/Scenario.v ===== *)
(** * A running example

    A concrete environment and a small deployment, played through the routes of the
    model: one zone with two managed applications and a resource, a Session tree, a
    delegated edge and its re-delegation, a service Session with a registered service and
    an invocation.  The theorems are instantiated at its worlds in [Witnesses]. *)

From stdpp Require Import pretty.
From S2P Require Import Prelude.
From S2P Require Import Json.
From S2P Require Import Schema.
From S2P Require Import Store.
From S2P Require Import Scope.
From S2P Require Import Auth.
From S2P Require Import Outbox.
From S2P Require Import Idempotency.
From S2P Require Import Sessions.
From S2P Require Import SessionFacts.
From S2P Require Import Delegations.
From S2P Require Import DelegationFacts.
From S2P Require Import DelegationProps.
From S2P Require Import Services.
From S2P Require Import Invocations.
From S2P Require Import System.
From S2P Require Import ConstraintFacts.
Local Open Scope string_scope.
Local Open Scope Z_scope.
Local Open Scope list_scope.

(** ** The environment *)

Definition demo_cfg : Cfg :=
  MkCfg "https://issuer.example" "coordinator" "agent:lifecycle" "operator-secret" 20 20 3 30 100 100 30 30 7
    86400 3600 100 2 2 ["k1"].

Fixpoint to_hex (s : string) : string :=
  match s with
  | String.EmptyString => ""
  | String.String c rest => hex_digit (Ascii.nat_of_ascii c / 16) +:+ hex_digit (Ascii.nat_of_ascii c mod 16) +:+ to_hex rest
  end.

(** Identifiers are numbered; one date is understood; digests are the hex of their input. *)
#[export] Instance demo_env : Env := {|
  uuidv7 := fun n => "u" +:+ pretty n;
  datetime := fun s => if bool_decide (s = "2001-09-09T01:46:40Z") then Some (seconds 1000000000) else None;
  sha256 := to_hex;
  hmac_sha256 := fun k s => to_hex (k +:+ s);
  cfg := demo_cfg
|}.

#[export] Instance demo_uuid_laws : UuidLaws.
Proof.
  split; [done|]. intros m n Heq. cbn in Heq. unfold String.append in Heq. by simplify_eq/=.
Defined.

Definition by_code (a b : string) : Z := if String.ltb a b then -1 else if bool_decide (a = b) then 0 else 1.

Definition any_text (_ : string) : bool := true.

(** ** The deployment *)

Definition start_time : Z := seconds 500.

Definition base_db : Db :=
  MkDb
    {[ "app1" := Application.MkApplicationRow "z1" Managed None None;
       "app2" := Application.MkApplicationRow "z1" Managed None None ]}
    {[ "rec1" := Authority.MkAuthorityRow "z1" ApplicationAuthority (Some "app1") RActive (seconds 100000) ]}
    {[ "res1" := Resource.MkResourceRow "z1" "files" ["read"; "write"] None ]}
    ∅ ∅ ∅ ∅ ∅ ∅ ∅ ∅.

Definition base : World := MkWorld base_db start_time start_time ∅ 0 [] (MkStats 0 0 0 0 0).

Definition caller (app : string) : CaracalAuth :=
  MkAuth "z1" ["agent:lifecycle"] app app None None (Some "rec1").

Definition from (app : string) : Request := MkRequest (Some (caller app)) HAbsent HAbsent.

Definition task (app : string) (parent : option string) : StartBody :=
  MkStartBody app None parent None ["demo"] None Inherit None (JObj []).

Definition service (app : string) : StartBody :=
  MkStartBody app None None (Some ServiceLife) [] None Inherit None (JObj []).

Definition grant (source target issuer receiver : string) (scopes : list string) (hops : Z) : DelegationBody :=
  Body.MkDelegationBody source target issuer receiver None (Some "res1") scopes
    (JObj [("max_hops", JNum hops)]) JUndefined None (Some 600).

Definition play (actions : list action) (w : World) : World :=
  foldl (fun w a => act by_code any_text any_text a w) w actions.

(** [u0] and its child [u2] of the first application, [u4] of the second; the
    delegation [u6] from [u0] to [u4] and its narrowing [u8] from [u4] to [u2] (the
    other identifiers are the outbox rows'). *)
Definition sharing : list action :=
  [ StartSession (from "app1") "z1" (task "app1" None);
    StartSession (from "app1") "z1" (task "app1" (Some "u0"));
    StartSession (from "app2") "z1" (task "app2" None);
    CreateDelegation (from "app1") "z1" (grant "u0" "u4" "app1" "app2" ["read"; "write"] 5);
    CreateDelegation (from "app2") "z1" (grant "u4" "u2" "app2" "app1" ["read"] 4) ].

(** The service Session [u10], the service [u12] and the invocation [u13] of it. *)
Definition serving : list action :=
  [ StartSession (from "app1") "z1" (service "app1");
    RegisterService (Some (caller "app1")) "z1"
      (ServiceBody.MkServiceBody "app1" "https://svc.example" ["1"] None None [] []);
    CreateInvocation (Some (caller "app1")) "10.0.0.1" "z1"
      (InvocationBody.MkInvocationBody "u12" (Some "u0") (Some "u4") "job-1" "run" (JObj []) [] 1000 2 0) ].

Definition shared_world : World := play sharing base.
Definition serving_world : World := play serving shared_world.

(** The two edges of the shared world. *)
Definition granted : Edge.EdgeRow :=
  Edge.MkEdgeRow "z1" "u0" "u4" "app1" "app2" (Some "res1") ["read"; "write"]
    (JObj [("max_hops", JNum 5); ("ttl_seconds", JNum 600)]) RActive (start_time + seconds 600) 0 None
    start_time start_time None.

Definition regranted : Edge.EdgeRow :=
  Edge.MkEdgeRow "z1" "u4" "u2" "app2" "app1" (Some "res1") ["read"]
    (JObj [("max_hops", JNum 4); ("ttl_seconds", JNum 600)]) RActive (start_time + seconds 600) 0 None
    start_time start_time (Some "u6").

Lemma shared_edges :
  shared_world.(db).(delegation_edges) !! "u6" = Some granted
  /\ shared_world.(db).(delegation_edges) !! "u8" = Some regranted.
Proof. split; vm_compute; reflexivity. Qed.

(** ** Its worlds are reachable *)

Lemma play_steps actions w : rtc (step by_code any_text any_text) w (play actions w).
Proof.
  revert w. induction actions as [|a actions IH]; intros w; [done|].
  eapply rtc_l; [constructor|]. apply IH.
Qed.

Lemma resources_wf_base : resources_wf base_db.(resources).
Proof.
  intros z x k r k' r'. cbn. intros [<- <-]%lookup_singleton_Some [<- <-]%lookup_singleton_Some. done.
Qed.

Lemma play_sound actions w : sound w -> sound (play actions w).
Proof.
  intros Hw. pose proof (play_steps actions w) as Hr. induction Hr as [|w0 w1 w2 Hst _ IH]; [done|].
  apply IH. by eapply step_sound.
Qed.

Lemma base_sound : sound base.
Proof. apply empty_sound; [exact resources_wf_base|done..]. Qed.

Lemma shared_sound : sound shared_world.
Proof. apply play_sound, base_sound. Qed.

Lemma serving_sound : sound serving_world.
Proof. apply play_sound, shared_sound. Qed.

(** [dt] seconds later. *)
Definition later (dt : Z) (w : World) : World :=
  MkWorld w.(db) (w.(now) + seconds dt) (w.(redis_time) + seconds dt) w.(redis) w.(uuids) w.(locks) w.(idempotencyStats).

Lemma later_sound dt w : 0 <= dt -> sound w -> sound (later dt w).
Proof.
  intros Hdt. apply (step_sound by_code any_text any_text), step_elapse. unfold seconds, micros_per_second. lia.
Qed.

(** * What the guarantees do not cover

    Concrete runs that mark the boundary of the theorems: a live delegation cycle longer
    than the check looks, a delegation that outlives the closed Session upstream of it,
    and the lock under which a revocation terminates Sessions. *)

Definition start_root : action := StartSession (from "app1") "z1" (task "app1" None).

Definition chain_edge (st : string * string) : action :=
  CreateDelegation (from "app1") "z1" (grant st.1 st.2 "app1" "app1" ["read"] 3).

(** Twelve root Sessions [u0], [u2], ..., [u22] chained from the last to the first, then
    an edge from the last Session back to the first. *)
Definition ring : list action :=
  replicate 12 start_root
  ++ (chain_edge <$>
       [("u20", "u22"); ("u18", "u20"); ("u16", "u18"); ("u14", "u16"); ("u12", "u14"); ("u10", "u12");
        ("u8", "u10"); ("u6", "u8"); ("u4", "u6"); ("u2", "u4"); ("u0", "u2")])
  ++ [CreateDelegation (from "app1") "z1" (grant "u22" "u0" "app1" "app1" ["read"] 2)].

Definition ring_world : World := play ring base.

(** The cycle check looks [MAX_DEPTH] edges ahead: the requests of [ring] are all accepted
    and leave a closed walk of twelve live edges. *)
Theorem long_cycle_accepted :
  walk (edge_live start_time) "z1" ring_world.(db).(delegation_edges) "u0"
    ["u44"; "u42"; "u40"; "u38"; "u36"; "u34"; "u32"; "u30"; "u28"; "u26"; "u24"; "u46"] "u0".
Proof. vm_compute. repeat (eexists; split; [reflexivity|]; do 3 (split; [reflexivity|])). reflexivity. Qed.

(** Three root Sessions, a delegation [u6] from the first to the second and its narrowing
    [u8] from the second to the third. *)
Definition relayed : list action :=
  [ start_root; start_root; start_root;
    CreateDelegation (from "app1") "z1" (grant "u0" "u2" "app1" "app1" ["read"; "write"] 5);
    CreateDelegation (from "app1") "z1" (grant "u2" "u4" "app1" "app1" ["read"] 4) ].

(** Terminating the Session that issued [u6] revokes [u6] but not [u8], which stays live
    under its revoked parent. *)
Theorem closing_the_issuer_keeps_downstream :
  let d := (play (relayed ++ [TerminateSession (Some (caller "app1")) "z1" "u0" (Some "done") None]) base).(db) in
  exists parent child, d.(delegation_edges) !! "u6" = Some parent /\ d.(delegation_edges) !! "u8" = Some child
    /\ parent.(Edge.status) = RRevoked /\ child.(Edge.parent_edge_id) = Some "u6" /\ edge_live start_time child = true.
Proof. vm_compute. do 2 eexists. repeat (split; [reflexivity|]). reflexivity. Qed.

(** A revocation terminates the holders' Sessions under the zone's delegation lock alone;
    the terminate route holds the zone's session lock. *)
Theorem revocation_skips_session_lock :
  (revoke_tx (Some (caller "app1")) "z1" "u6" (set_locks [] shared_world)).2.(locks) = ["delegation:z1"]
  /\ (terminate_tx (Some (caller "app1")) "z1" "u0" "done" None (set_locks [] shared_world)).2.(locks) = [sessionLockKey "z1"].
Proof. split; vm_compute; reflexivity. Qed.
