(* ===== verification/Witnesses.v ===== *)
(** * The theorems at work

    Each theorem with hypotheses applied to the worlds of [Scenario], where the
    definitions evaluate and the hypotheses hold. *)

From S2P Require Import Prelude.
From S2P Require Import Json.
From S2P Require Import Schema.
From S2P Require Import Store.
From S2P Require Import Scope.
From S2P Require Import Auth.
From S2P Require Import Outbox.
From S2P Require Import Idempotency.
From S2P Require Import Sessions.
From S2P Require Import SessionFacts.
From S2P Require Import SessionProps.
From S2P Require Import Listing.
From S2P Require Import Delegations.
From S2P Require Import ConstraintFacts.
From S2P Require Import DelegationFacts.
From S2P Require Import EdgeInv.
From S2P Require Import RevokeFacts.
From S2P Require Import DelegationProps.
From S2P Require Import Services.
From S2P Require Import Invocations.
From S2P Require Import SessionReads.
From S2P Require Import Sweepers.
From S2P Require Import Retention.
From S2P Require Import Streams.
From S2P Require Import Publisher.
From S2P Require Import System.
From S2P Require Import Scenario.
Local Open Scope string_scope.
Local Open Scope Z_scope.
Local Open Scope list_scope.

(** Evaluates a closed goal. *)
Ltac by_run := vm_compute; first [reflexivity | discriminate].

Lemma sound_inv w : sound w -> session_inv w.(db).(sessions).
Proof. by intros [(_ & Hi & _) _]. Qed.

Lemma sound_governed w : sound w -> governed w.(now) w.(db).
Proof. by intros [Hg _]. Qed.

Lemma sound_invocations w : sound w -> invocations_wf w.(db).(agent_invocations).
Proof. by intros [_ Hi]. Qed.

(** ** The system and Sessions *)

Lemma reachable_sound_witness : rtc (step by_code any_text any_text) base serving_world /\ sound serving_world.
Proof.
  assert (rtc (step by_code any_text any_text) base serving_world) as Hr.
  { etrans; [apply (play_steps sharing)|apply (play_steps serving)]. }
  split; [exact Hr|]. exact (reachable_sound by_code any_text any_text base serving_world resources_wf_base eq_refl eq_refl eq_refl Hr).
Defined.

Lemma startSession_sound_witness :
  let o := startSession (from "app1") "z1" (task "app1" (Some "u0")) shared_world in
  o.1.(code) = 201 /\ exists b, parse_StartBody (task "app1" (Some "u0")) = Some b
  /\ started (from "app1") "z1" b o.1 shared_world o.2.
Proof.
  cbv zeta. pose proof (startSession_sound (from "app1") "z1" (task "app1" (Some "u0")) shared_world (sound_inv _ shared_sound)) as Ho.
  assert ((startSession (from "app1") "z1" (task "app1" (Some "u0")) shared_world).1.(code) = 201) as Hc by by_run.
  assert ((startSession (from "app1") "z1" (task "app1" (Some "u0")) shared_world).1.(replay_header) = false) as Hr by by_run.
  destruct (startSession _ _ _ _) as [r w']. cbn in Hc, Hr. rewrite Hr, Hc in Ho. by split.
Defined.

Lemma startSession_capacity_witness :
  let w' := (startSession (from "app1") "z1" (task "app1" (Some "u0")) shared_world).2 in
  count_slots start_time "z1" shared_world.(db) = 3 /\ count_slots start_time "z1" w'.(db) <= 20.
Proof.
  cbv zeta. split; [by_run|].
  destruct (startSession_capacity (from "app1") "z1" (task "app1" (Some "u0")) shared_world "z1" "app1" (sound_inv _ shared_sound)) as [Hz _].
  exact (Hz ltac:(by_run)).
Defined.

Lemma terminateSession_spec_witness :
  let '(r, w') := terminateSession (Some (caller "app1")) "z1" "u0" (Some "done") None shared_world in
  terminate_outcome (Some (caller "app1")) "z1" "u0" "done" None shared_world w' r.
Proof.
  apply (terminateSession_spec (Some (caller "app1")) "z1" "u0" "done" None shared_world (sound_inv _ shared_sound));
    [by_run..| |done]. apply Nat.leb_le. reflexivity.
Defined.

Lemma suspend_resume_spec_witness :
  (let '(r, w') := suspendSession (Some (caller "app1")) "z1" "u0" shared_world in
   subtree_outcome is_active suspend_row "suspended" "session_not_found_or_not_active" suspend_event
     (Some (caller "app1")) "z1" "u0" shared_world w' r)
  /\ (let '(r, w') := resumeSession (Some (caller "app1")) "z1" "u0" shared_world in
      subtree_outcome is_suspended resume_row "resumed" "session_not_found_or_not_suspended" resume_event
        (Some (caller "app1")) "z1" "u0" shared_world w' r).
Proof. apply (suspend_resume_spec _ _ _ _ (sound_inv _ shared_sound)); by_run. Defined.

(** ** Delegations *)


Lemma revokeDelegation_spec_witness :
  let '(r, w') := revokeDelegation (Some (caller "app1")) "z1" "u6" shared_world in
  revoke_outcome (Some (caller "app1")) "z1" "u6" shared_world w' r.
Proof. apply (revokeDelegation_spec _ _ _ _ (sound_inv _ shared_sound)); by_run. Defined.

Lemma revoke_invalidates_downstream_witness :
  let d' := (revokeDelegation (Some (caller "app1")) "z1" "u6" shared_world).2.(db) in
  d'.(delegation_edges) !! "u8" = Some (revoke_edge start_time regranted)
  /\ forall s, d'.(sessions) !! "u2" = Some s -> is_live s = false.
Proof.
  destruct shared_edges as [H6 H8].
  destruct (revoke_invalidates_downstream (Some (caller "app1")) "z1" "u6" shared_world "u0" ["u6"; "u8"] "u2" "u8" regranted)
    as [He Hs]; [exact (sound_governed _ shared_sound)|by_run| |reflexivity|apply Nat.leb_le; reflexivity|right; left|exact H8|].
  - exists granted. split; [exact H6|]. do 3 (split; [reflexivity|]). exists regranted. split; [exact H8|]. do 3 (split; [reflexivity|]). reflexivity.
  - split; [exact He|]. apply Hs, Nat.leb_le. reflexivity.
Defined.

Lemma effective_authority_is_intersection_witness :
  exists first, activeParentDelegations "z1" "u2" start_time shared_world.(db) = [first] /\ first.(pe_scopes) = ["read"]
  /\ effective_of [first] (to_ms first.(pe_expires_at)) (foldl effective_step (effective_start first) [first]).
Proof.
  eexists. assert (activeParentDelegations "z1" "u2" start_time shared_world.(db) = [_]) as Ha by by_run.
  split; [exact Ha|]. split; [reflexivity|].
  exact (effective_authority_is_intersection start_time shared_world.(db) "z1" "u2" _ [] (sound_governed _ shared_sound) Ha).
Defined.

Lemma accepted_constraints_read_back_witness :
  exists c, normalizedConstraints (JObj [("max_hops", JNum 3); ("resources", JArr [JStr "files"])]) JUndefined (Some 60) = inr c
  /\ normalizedConstraints (constraints_object c) JUndefined None = inr c.
Proof.
  eexists. assert (normalizedConstraints (JObj [("max_hops", JNum 3); ("resources", JArr [JStr "files"])]) JUndefined (Some 60)
    = inr _) as Hc by by_run.
  split; [exact Hc|]. exact (proj1 (accepted_constraints_read_back _ _ _ _ Hc)).
Defined.

(** ** Services *)

Definition beat (generation : Z) : HeartbeatBody := HeartbeatBody.MkHeartbeatBody (Some "u12") Healthy 0 [] generation.

Lemma leaseSession_spec_witness :
  let '(r, w') := leaseSession (Some (caller "app1")) "z1" "u10" serving_world in
  lease_outcome (Some (caller "app1")) "z1" "u10" serving_world w' r.
Proof. apply (leaseSession_spec _ _ _ _ (sound_inv _ serving_sound)); by_run. Defined.

Lemma heartbeat_fenced_witness :
  (heartbeat (Some (caller "app1")) "z1" "u10" (beat 1) serving_world).1.(code) = 200
  /\ exists s anchor, find_leased "z1" "u10" serving_world.(db) = Some (s, anchor)
     /\ (beat 1).(HeartbeatBody.lease_generation) = s.(Session.lease_generation).
Proof.
  assert ((heartbeat (Some (caller "app1")) "z1" "u10" (beat 1) serving_world).1.(code) = 200) as Hc by by_run.
  split; [exact Hc|]. do 2 eexists.
  assert (find_leased "z1" "u10" serving_world.(db) = Some (_, _)) as Hf by by_run. split; [exact Hf|].
  pose proof (heartbeat_fenced (Some (caller "app1")) "z1" "u10" (beat 1) serving_world _ _ (sound_inv _ serving_sound) Hf) as Hh.
  destruct (heartbeat _ _ _ _ _) as [r w']. destruct Hh as [Hh _]. exact (proj1 (Hh Hc)).
Defined.

(** The world after the take-over. *)
Definition taken_over : World := play [LeaseSession (Some (caller "app1")) "z1" "u10"] serving_world.

Lemma takeover_fences_previous_holder_witness :
  (leaseSession (Some (caller "app1")) "z1" "u10" serving_world).1.(code) = 200
  /\ (heartbeat (Some (caller "app1")) "z1" "u10" (beat 1) taken_over).1.(code) <> 200.
Proof.
  assert ((leaseSession (Some (caller "app1")) "z1" "u10" serving_world).1.(code) = 200) as Hc by by_run.
  split; [exact Hc|].
  assert (exists s a, find_leased "z1" "u10" serving_world.(db) = Some (s, a) /\ s.(Session.lease_generation) = 1) as (s & a & Hf & Hs).
  { do 2 eexists. split; by_run. }
  assert (exists s a, find_leased "z1" "u10" taken_over.(db) = Some (s, a)
      /\ (leaseSession (Some (caller "app1")) "z1" "u10" serving_world).2.(db).(sessions) !! "u10" = Some s)
    as (sv & av & Hv & Hrow).
  { do 2 eexists. split; by_run. }
  apply (takeover_fences_previous_holder (Some (caller "app1")) (Some (caller "app1")) "z1" "u10" (beat 1) serving_world taken_over
    s a sv av (sound_inv _ serving_sound) (sound_inv _ (play_sound _ _ serving_sound)) Hf Hc Hv);
    [exists sv; split; [exact Hrow|reflexivity]|symmetry; exact Hs].
Defined.

(** ** Invocations *)

Lemma invocation_transitions_witness :
  let o := startInvocation (Some (caller "app1")) "10.0.0.1" "z1" "u13" serving_world in
  o.1.(code) = 200
  /\ transition_outcome (Some (caller "app1")) "z1" "u13" startable start_row "invocation.started" "invocation_not_startable"
       (set_redis (rateLimited (Some (caller "app1")) "10.0.0.1" "z1" start_time serving_world.(redis)).2 serving_world) o.1 o.2.
Proof.
  cbv zeta. split; [by_run|].
  destruct (invocation_transitions (Some (caller "app1")) "10.0.0.1" "z1" "u13" None (MkCompleteBody CompleteSucceeded None [])
    serving_world) as [Hs _]; [by_run..|].
  assert ((rateLimited (Some (caller "app1")) "10.0.0.1" "z1" serving_world.(redis_time) serving_world.(redis)).1 = false) as Hl by by_run.
  rewrite Hl in Hs. exact Hs.
Defined.

Lemma invocation_lifecycle_witness :
  let calls := [CallStart (Some (caller "app1")) "10.0.0.1" "z1" "u13"; CallElapse (later 5 serving_world)] in
  let v' := (perform (CallSweep true) (run_calls calls serving_world)).2 in
  invocations_wf v'.(db).(agent_invocations)
  /\ exists i, v'.(db).(agent_invocations) !! "u13" = Some i /\ i.(Invocation.status) = IFailed.
Proof.
  cbv zeta. split; [|eexists; split; by_run].
  exact (proj1 (invocation_lifecycle _ (CallSweep true) serving_world (sound_invocations _ serving_sound))).
Defined.

Lemma starts_bounded_witness :
  let start := CallStart (Some (caller "app1")) "10.0.0.1" "z1" "u13" in
  exists i, serving_world.(db).(agent_invocations) !! "u13" = Some i
  /\ starts "u13" [start; start] serving_world = 1
  /\ starts "u13" [start; start] serving_world <= i.(Invocation.max_attempts) - i.(Invocation.attempts).
Proof.
  cbv zeta. eexists. assert (serving_world.(db).(agent_invocations) !! "u13" = Some _) as Hi by by_run.
  split; [exact Hi|]. split; [by_run|].
  exact (starts_bounded _ serving_world "u13" _ (sound_invocations _ serving_sound) Hi).
Defined.

Lemma rate_limit_exact_witness :
  admitted (rate_answers (Some (caller "app1")) "10.0.0.1" "z1" [start_time; start_time + 1; start_time + 2] ∅) = 2.
Proof.
  rewrite (rate_limit_exact (Some (caller "app1")) "10.0.0.1" "z1" 8 [start_time; start_time + 1; start_time + 2] ∅);
    [reflexivity|reflexivity|repeat constructor|]. intros t _. apply lookup_empty.
Defined.

(** ** Background jobs *)

Lemma ttl_sweep_settles_witness :
  let w := later 4000 shared_world in
  let '(r, w') := runTTLSweep by_code true w in
  (exists n, r = inl n) /\ select (fun _ => ttl_lapsed w.(now)) w'.(db).(sessions) = [].
Proof.
  cbv zeta. pose proof (ttl_sweep_settles by_code true (later 4000 shared_world)
    (sound_inv _ (later_sound 4000 _ ltac:(lia) shared_sound))) as Hs. cbv zeta in Hs.
  destruct (runTTLSweep _ _ _) as [r w']. destruct Hs as (Hr & _ & _ & Hdone). split; [exact Hr|].
  apply Hdone, Nat.leb_le. by_run.
Defined.

Lemma lease_sweep_settles_witness :
  let w := later 60 serving_world in
  let '(r, w') := runServiceLeaseSweep by_code true w in
  (exists n, r = inl n) /\ select (fun _ => lease_lapsed w.(now)) w'.(db).(sessions) = [].
Proof.
  cbv zeta. pose proof (lease_sweep_settles by_code true (later 60 serving_world)
    (sound_inv _ (later_sound 60 _ ltac:(lia) serving_sound))) as Hs. cbv zeta in Hs.
  destruct (runServiceLeaseSweep _ _ _) as [r w']. destruct Hs as (Hr & _ & _ & Hdone). split; [exact Hr|].
  apply Hdone, Nat.leb_le. by_run.
Defined.

Lemma retention_keeps_live_witness :
  (runRetentionCleanup true shared_world).2.(db).(delegation_edges) !! "u6" = Some granted.
Proof.
  destruct (retention_keeps_live true shared_world (sound_governed _ shared_sound)) as (_ & He & _).
  destruct (He "u6" granted (proj1 shared_edges) ltac:(by_run)) as [Hk|(_ & p & pe & Hp & _)]; [exact Hk|discriminate Hp].
Defined.

(** One event waiting to be published. *)
Definition event_key : outbox_key := ("coordinator", AgentsLifecycle, "spawn:u0").

Definition event_row : Outbox.OutboxRow := new_outbox_row start_time "u1" [("event", JStr "spawn"); ("zone_id", JStr "z1")].

Definition queued : World := set_db (set_caracal_outbox {[ event_key := event_row ]} base_db) base.

Lemma queued_pkey : outbox_pkey queued.(db).(caracal_outbox).
Proof. intros k k' r r'. cbn. intros [<- _]%lookup_singleton_Some [<- _]%lookup_singleton_Some _. reflexivity. Qed.

Definition no_jitter (_ : string) : Z := 0.

Lemma publish_batch_settles_witness :
  let o := publishBatch (Some "k") 10 3 (fun _ => XAdded) no_jitter None queued in
  (AgentsLifecycle, streamFields (Some "k") AgentsLifecycle "spawn:u0" event_row) ∈ o.1
  /\ o.2.2.(db).(caracal_outbox) !! event_key = Some (published_row start_time event_row).
Proof.
  cbv zeta. pose proof (publish_batch_settles (Some "k") 10 3 (fun _ => XAdded) no_jitter None queued queued_pkey) as Hp.
  assert ((publishBatch (Some "k") 10 3 (fun _ => XAdded) no_jitter None queued).2.2.(db).(caracal_outbox) !! event_key
    = Some (published_row start_time event_row)) as Hr by by_run.
  destruct (publishBatch _ _ _ _ _ _ _) as [msgs [r w']]. destruct Hp as [_ Hp]. split; [|exact Hr].
  apply (Hp event_key event_row (published_row start_time event_row) (lookup_singleton_eq _ _)); [discriminate|exact Hr|reflexivity].
Defined.

Lemma retries_are_bounded_witness :
  let failing t := MkPublishCall t 10 (fun _ => XFailed false) no_jitter None in
  tries (Some "k") 3 event_key (failing <$> [seconds 501; seconds 600; seconds 700; seconds 800; seconds 900]) queued <= 3.
Proof.
  cbv zeta. exact (proj1 (retries_are_bounded (Some "k") 3 _ queued event_key event_row queued_pkey
    (lookup_singleton_eq _ _) eq_refl ltac:(by_run))).
Defined.

(** ** Streams *)

Definition relay : RelayOptions := MkRelayOptions (Some "k") true 60000.

Lemma relay_accepts_published_witness :
  verify relay (fieldsToValues (streamFields (Some "k") AgentsLifecycle "spawn:u0" event_row)) = true.
Proof. exact (proj1 (relay_accepts_published "k" "spawn:u0" event_row relay [] eq_refl)). Defined.

Lemma relay_observes_once_witness :
  (process_all relay true (deliveries "k" "spawn:u0" event_row [(start_time, "1-0"); (start_time + 5, "1-1"); (start_time + 9, "1-2")])
    (MkRelayState (MkRelayStats 0 0 0 0) ∅ [])).(stats) = MkRelayStats 1 2 0 0
  /\ (process_all relay true (deliveries "k" "spawn:u0" event_row [(start_time, "1-0"); (start_time + 5, "1-1"); (start_time + 9, "1-2")])
    (MkRelayState (MkRelayStats 0 0 0 0) ∅ [])).(acked) = ["1-2"; "1-1"; "1-0"].
Proof.
  split; [by_run|].
  apply (relay_observes_once "k" "spawn:u0" event_row relay start_time "1-0" [(start_time + 5, "1-1"); (start_time + 9, "1-2")]
    (MkRelayState (MkRelayStats 0 0 0 0) ∅ [])); [reflexivity|discriminate|apply lookup_empty|repeat constructor].
Defined.

(** ** Reads, pages and receipts *)

(** The same world with a Session of another zone. *)
Definition foreign : Session.SessionRow :=
  Session.MkSessionRow "z2" "app9" None "rec9" Active 0 [] 10 0 0 0 None (Some 60) (JObj []) 0 Task None None None 0.

Definition crowded : Db := set_sessions (<["x9" := foreign]> serving_world.(db).(sessions)) serving_world.(db).

Lemma crowded_same_zone : same_zone "z1" serving_world.(db) crowded.
Proof.
  assert (serving_world.(db).(sessions) !! "x9" = None) as Hn by by_run. unfold crowded.
  generalize dependent serving_world.(db). intros d Hn. split; cbn; try done.
  intros k s Hs. destruct (decide ("x9" = k)) as [<-|Hk]; [|by rewrite lookup_insert_ne].
  rewrite lookup_insert_eq, Hn. split; [done|]. intros [= <-]. discriminate Hs.
Qed.

Lemma reads_are_zone_isolated_witness :
  getSession "z1" "u0" serving_world.(db) = getSession "z1" "u0" crowded /\ (getSession "z1" "u0" crowded).(code) = 200.
Proof.
  split; [|by_run].
  exact (proj1 (proj2 (reads_are_zone_isolated "z1" _ _ None "u0" JUndefined None (MkFilters None None None None) "u6" None None None
    start_time crowded_same_zone))).
Defined.

Lemma all_pages_complete_witness :
  all_pages (fun _ => in_zone "z1") 2 (S (size crowded.(sessions))) None crowded.(sessions)
  = Some (merge_sort id_ge (select (fun _ => in_zone "z1") crowded.(sessions)))
  /\ exists rows, all_pages (fun _ => in_zone "z1") 2 (S (size crowded.(sessions))) None crowded.(sessions) = Some rows
     /\ NoDup rows.*1.
Proof.
  split; [by_run|].
  destruct (all_pages_complete (fun _ => in_zone "z1") crowded.(sessions) 2 ltac:(lia)) as (rows & Hr & Hn & _).
  exists rows. split; [exact Hr|exact Hn].
Defined.

Definition keyed (v : json) : StartInput := MkStartInput "session.start.v2" "z1" "app1" "key-1" v ["k1"] 100.

Definition completed : CompleteInput :=
  MkCompleteInput "session.start.v2" "z1" "app1" (current_digest (keyed (JObj [])))
    (default_to "" (requestDigest (JObj []))) "session" "u0" 201 (JObj [("id", JStr "u0")]) 3600.

Definition recorded : World := (completeIdempotency (R := reply) completed base).2.

Lemma completed_request_replays_witness :
  (startIdempotency (R := reply) (with_hmac_keys ["k2"; "k1"] (keyed (JObj []))) recorded).1
  = inl (Replayed 201 (JObj [("id", JStr "u0")]) "u0").
Proof.
  apply (completed_request_replays (R := reply) (keyed (JObj [])) completed ["k2"; "k1"] base recorded recorded);
    [split_and!; by_run|by_run|reflexivity|by_run|].
  right. exists "k1", "k2", []. split; [reflexivity|]. split; [reflexivity|by_run].
Defined.

Lemma reused_key_conflicts_witness :
  (startIdempotency (R := reply) (with_request (JObj [("x", JNum 1)]) (keyed (JObj []))) recorded).1 = inl Conflict.
Proof.
  apply (reused_key_conflicts (R := reply) (keyed (JObj [])) completed (JObj [("x", JNum 1)])
    (default_to "" (requestDigest (JObj [("x", JNum 1)]))) base recorded recorded);
    [split_and!; by_run|by_run|reflexivity|by_run|by_run|by_run].
Defined.

(** ** Identity *)

Definition claims : Claims :=
  [("zone_id", JStr "z1"); ("use", JStr "session"); ("sub", JStr "app1"); ("scope", JStr "agent:lifecycle");
   ("client_id", JStr "app1"); ("sid", JStr "rec1")].

Definition demo_jose : Jose := {|
  decodeJwt := fun token => if bool_decide (token = "tok") then Some claims else None;
  jwtVerify := fun _ token _ => if bool_decide (token = "tok") then Some claims else None
|}.

Definition bearer : AuthRequest := MkAuthRequest "POST" "/zones/z1/agents" (Some "Bearer tok") (Some "z1").

Lemma verifyBearer_sound_witness :
  exists a, @verifyBearer demo_env demo_jose start_time base_db bearer = Authenticated a /\ a.(clientId) = "app1"
  /\ @mandate_identity demo_env demo_jose start_time base_db bearer a.
Proof.
  eexists. assert (@verifyBearer demo_env demo_jose start_time base_db bearer = Authenticated _) as Ha by by_run.
  split; [exact Ha|]. split; [reflexivity|].
  destruct (@verifyBearer_sound demo_env demo_jose start_time base_db bearer _ Ha) as [[Hz _]|Hm]; [discriminate Hz|exact Hm].
Defined.

Lemma operator_token_confined_witness :
  exists rest pat, segments "/zones/z1/agents/u0" = "zones" :: "z1" :: rest /\ CoordinatorIdPattern "z1" = true
    /\ ("DELETE", pat) ∈ operator_routes /\ matches_route pat rest.
Proof. apply (operator_token_confined "DELETE" "/zones/z1/agents/u0" "z1"). by_run. Defined.

Lemma subject_proof_is_root_witness :
  str_claim "root_sid" [("client_id", JStr "app1"); ("sub", JStr "user-1"); ("sid", JStr "r1"); ("root_sid", JStr "r1");
    ("use", JStr "session"); ("sub_type", JStr "user"); ("iat", JNum 1); ("jti", JStr "j")] = Some "r1".
Proof.
  apply (subject_proof_is_root [("client_id", JStr "app1"); ("sub", JStr "user-1"); ("sid", JStr "r1"); ("root_sid", JStr "r1");
    ("use", JStr "session"); ("sub_type", JStr "user"); ("iat", JNum 1); ("jti", JStr "j")] "app1" "r1" "user-1"). by_run.
Defined.

Lemma jwks_cache_bounded_witness :
  jwksForZone 2 "c" ["a"; "b"] = ["b"; "c"] /\ last (jwksForZone 2 "c" ["a"; "b"]) = Some "c".
Proof.
  split; [by_run|].
  apply (jwks_cache_bounded 2 "c" ["a"; "b"]); [lia|apply (bool_decide_unpack _); by_run|cbn; lia].
Defined.
