(* ===== verification/ResourceWitnesses.v ===== *)
(** * The resource server at work

    A concrete redis, stream, transport and token verifier, and the theorems on the
    resource server's side applied to a run on them. *)

From S2P Require Import Prelude.
From S2P Require Import Json.
From S2P Require Import Schema.
From S2P Require Import Store.
From S2P Require Import Outbox.
From S2P Require Import Sessions.
From S2P Require Import Streams.
From S2P Require Import Scenario.
From S2P Require Import Numbers.
From S2P Require Import Revocation.
From S2P Require Import InMemory.
From S2P Require Import RedisStore.
From S2P Require Import RedisConsumer.
From S2P Require Import Identity.
From S2P Require Import Mandate.
From S2P Require Import EndToEnd.
Local Open Scope string_scope.
Local Open Scope Z_scope.
Local Open Scope list_scope.

Module ResourceWitnesses.
Import ConsumerFacts EndToEnd MapRedis.

(** Evaluates a closed goal. *)
Ltac by_run := vm_compute; first [reflexivity | discriminate].

(** ** A deployment *)

Definition store_options : RedisStore.Options := RedisStore.make_options None None None.

(** The call at [i] microseconds, delivered. *)
Definition steady (i : nat) : Call := MkCall (Z.of_nat i) Delivered.

Lemma steady_ordered : ordered_calls steady.
Proof. intros i j Hij. cbn. lia. Qed.

(** A stream whose pending messages are claimed in batches of two and then not idle. *)
#[export] Instance list_server : RedisConsumer.StreamServer := {|
  RedisConsumer.server := list RedisConsumer.Message * list RedisConsumer.Message;
  RedisConsumer.xautoclaim := fun _ _ _ s =>
    ((drop 2 s.1, s.2), (match drop 2 s.1 with [] => "0-0" | (id, _) :: _ => "after-" +:+ id end, take 2 s.1));
  RedisConsumer.xreadgroup := fun _ _ s => ((s.1, []), [("stream", s.2)]);
  RedisConsumer.xack := fun _ _ s => s
|}.

#[export] Instance list_server_laws : StreamLaws.
Proof.
  refine {| remaining := fun (s : @RedisConsumer.server list_server) _ => length s.1 |}.
  - intros o t start [pending fresh] srv' next messages. cbn. intros Heq. simplify_eq. intros _ Hn. cbn.
    destruct pending as [|a [|b [|c pending]]]; cbn in *; try done; lia.
  - intros o id [pending fresh] cursor. cbn. lia.
Defined.

(** Calls at one moment, delivered. *)
Definition at_once (t : Z) (_ : nat) : Call := MkCall t Delivered.

Lemma at_once_ordered t : ordered_calls (at_once t).
Proof. intros i j _. cbn. lia. Qed.

Definition ended : string * Session.SessionRow :=
  ("agent-1", Session.MkSessionRow "z1" "app1" None "rec1" Terminated 0 [] 5 0 0 0 (Some 5) None (JObj []) 5 Task None None
     (Some "requested") 0).

Definition consumer (defaults : RedisConsumer.ConsumerOptions -> option RedisConsumer.Consumer) : RedisConsumer.Consumer :=
  default_to (RedisConsumer.MkConsumer "" "" "" 0 0 0 None false 0)
    (defaults (RedisConsumer.MkConsumerOptions None None "c1" None None None (Some "k1") None None)).

Definition revocations : RedisConsumer.Consumer := consumer RedisConsumer.make_revocation_consumer.
Definition invalidations : RedisConsumer.Consumer := consumer RedisConsumer.make_invalidation_consumer.

Definition row (item : OutboxItem) : Outbox.OutboxRow := Outbox.MkOutboxRow "o1" item.(payload) OPending 0 0 None 0 0.

Definition revoke : OutboxItem := revoke_item "agent_terminate:agent-1" "z1" ended "requested".
Definition edge_revoke : OutboxItem := edge_revoke_item "z1" "delegation_revoked" 7 "edge-1".

Definition published (item : OutboxItem) : RedisConsumer.Message :=
  ("1-0", streamFields (Some "k1") item.(topic) item.(dedupeKey) (row item)).

Definition fresh : RedisConsumer.State := RedisConsumer.MkState (∅ : @rdb MapRedis.redis) ([], []) [] [] 0.

Definition demo_config : Identity.JwtConfig :=
  Identity.MkJwtConfig "https://sts.example" "files" "z1" (Some ["files:read"]) (Some ["files"]) None (Some true) None
    (Some ["app1"]) None.

Definition demo_claims : Identity.Claims :=
  Identity.MkClaims "user-1" "z1" "app1" "rec1" "rec0" "resource" "user" "jti-1" 100 100000 "files:read files:write"
    (Some ["files"]) (Some "agent-1") (Some "edge-0") None None (Some ["edge-0"])
    (Some [Identity.MkChainHop "app1" (Some "agent-1") None]) (Some 3) (Some 1).

#[export] Instance demo_verifier : Identity.JwtVerifier := {|
  Identity.KeySet := unit;
  Identity.jwtVerify := fun token _ _ _ => if bool_decide (token = "tok") then Some (IdentityFacts.claims_payload demo_claims) else None
|}.

Definition keys : option (@Identity.KeySet demo_verifier) := Some tt.

Definition demo_deps : Mandate.AuthDeps := Mandate.MkAuthDeps demo_config true.

Lemma demo_covered : MandateFacts.covered (H0 := RedisStore.contract store_options) demo_claims.
Proof. split; [|by_run]. apply (bool_decide_unpack _). by_run. Qed.

(** ** Stores *)

Definition demo_ops (calls : nat -> Call) : list (Call * Op) :=
  [(calls 0%nat, OpMarkRevoked "a" None); (calls 1%nat, OpMarkEpoch "z1" 4 (Some 2000)); (calls 2%nat, OpIsRevoked "a");
   (calls 3%nat, OpCurrentEpoch "z1"); (calls 4%nat, OpMarkRevoked "b" None)].

Definition small : InMemory.Options := InMemory.MkOptions 1000 1.

Lemma inmem_refines_spec_witness :
  exists s answers, run_ops (H := InMemory.store small) (demo_ops steady) InMemory.empty = (s, answers)
  /\ answers = [AUnit (Ok tt); AUnit (Ok tt); ABool (Ok true); AEpoch (Ok 4); AUnit Throw]
  /\ (exists m, spec_run (H := InMemory.expiry) 1000 (demo_ops steady) empty_spec answers m) /\ InMemory.size s <= 1.
Proof.
  pose proof (InMemory.inmem_refines_spec small 0 (demo_ops steady) (steady 5) "c" None) as Hw.
  destruct (run_ops (H := InMemory.store small) (demo_ops steady) InMemory.empty) as [s answers] eqn:E.
  exists s, answers. destruct Hw as ((m & Hm & _) & Hs & _); [cbn; lia|cbn; lia|].
  split_and!; [reflexivity| |by exists m|exact Hs].
  vm_compute in E. injection E as _ <-. reflexivity.
Defined.

Lemma redis_refines_spec_witness :
  exists s answers, run_ops (H := RedisStore.store store_options) (demo_ops steady) (∅ : @rdb MapRedis.redis) = (s, answers)
  /\ answers = [AUnit (Ok tt); AUnit (Ok tt); ABool (Ok true); AEpoch (Ok 4); AUnit (Ok tt)]
  /\ (exists m, spec_run 86400000 (demo_ops steady) empty_spec answers m)
  /\ (RedisStore.isRevoked store_options (MkCall 6 LostBefore) "c" s).2 <> Throw.
Proof.
  pose proof (RedisStore.redis_refines_spec store_options 0 (∅ : @rdb MapRedis.redis) empty_spec (demo_ops steady) (MkCall 6 LostBefore) "c" None)
    as Hw.
  destruct (run_ops (H := RedisStore.store store_options) (demo_ops steady) (∅ : @rdb MapRedis.redis)) as [s answers] eqn:E.
  exists s, answers. destruct Hw as ((m & Hm & _) & _ & Hc & _);
    [apply MapRedis.map_empty_refines|cbn; lia|apply (bool_decide_unpack _); by_run|].
  split_and!; [reflexivity| |by exists m|by apply Hc].
  vm_compute in E. injection E as _ <-. reflexivity.
Defined.

(** Outside the covered ids: a mark of the anchor [delegation-epoch:z1] is the zone's epoch
    to the store, here 1 although none was ever announced. *)
Example anchor_read_as_epoch :
  (run_ops (H := RedisStore.store store_options)
     [(steady 0, OpMarkRevoked "delegation-epoch:z1" None); (steady 1, OpCurrentEpoch "z1")] (∅ : @rdb MapRedis.redis)).2
  = [AUnit (Ok tt); AEpoch (Ok 1)].
Proof. by_run. Qed.

(** ** Claims *)

Lemma demo_verified : Identity.verify 0 "tok" (Mandate.effective_config demo_deps) keys = inr demo_claims.
Proof. by_run. Qed.

Lemma verify_well_typed_witness :
  Identity.verify 0 "tok" demo_config keys = inr demo_claims /\ IdentityFacts.well_typed demo_claims.
Proof.
  assert (Identity.verify 0 "tok" demo_config keys = inr demo_claims) as Hv by by_run. split; [exact Hv|].
  exact (IdentityFacts.verify_well_typed 0 "tok" demo_config keys demo_claims Hv).
Defined.

Lemma verify_enforces_config_witness :
  IdentityFacts.meets demo_config demo_claims
  /\ exists payload, IdentityFacts.verified_payload 0 "tok" demo_config keys payload /\ IdentityFacts.reads_payload payload demo_claims.
Proof. apply (IdentityFacts.verify_enforces_config 0 "tok" demo_config keys demo_claims). by_run. Defined.

Lemma claims_read_back_witness :
  Identity.read_claims demo_config (IdentityFacts.claims_payload demo_claims) = inr demo_claims.
Proof.
  assert (Identity.verify 0 "tok" demo_config keys = inr demo_claims) as Hv by by_run.
  apply IdentityFacts.verify_ok in Hv as (Ht & Hm & _). exact (IdentityFacts.claims_read_back demo_config demo_claims Ht Hm).
Defined.

(** ** Authentication *)

Lemma authenticate_exact_witness :
  (Mandate.authenticate (H := RedisStore.store store_options) (at_once 5) 0 0 keys "tok" demo_deps (∅ : @rdb MapRedis.redis)).2
  = Mandate.Accepted demo_claims.
Proof.
  apply (MandateFacts.authenticate_exact (H0 := RedisStore.contract store_options) (MkCall 5 Delivered) 0 0 keys "tok" demo_deps
    (∅ : @rdb MapRedis.redis) empty_spec demo_claims); [reflexivity|apply MapRedis.map_empty_refines|exact demo_covered|].
  split_and!; [by_run|reflexivity|by_run|by_run|reflexivity|].
  intros n [= <-] _. apply (proj1 (Z.leb_le _ _)). by_run.
Defined.

Definition strict_deps : Mandate.AuthDeps :=
  Mandate.MkAuthDeps (Identity.MkJwtConfig "https://sts.example" "files" "z1" (Some ["files:delete"]) None None None None None None) true.

Definition strict_error : Mandate.AuthError := Mandate.authError Mandate.insufficient_scope (Some "Missing scope: files:delete").

Lemma forbidden_means_verified_witness :
  (Mandate.authenticate (H := RedisStore.store store_options) (at_once 5) 0 0 keys "tok" strict_deps (∅ : @rdb MapRedis.redis)).2
    = Mandate.Refused strict_error
  /\ Mandate.httpStatusForAuthError strict_error.(Mandate.code) = 403
  /\ exists payload, IdentityFacts.verified_payload 0 "tok" (Mandate.effective_config strict_deps) keys payload
     /\ json_get "zone_id" (JObj payload) = JStr "z1" /\ "z1" <> "".
Proof.
  assert ((Mandate.authenticate (H := RedisStore.store store_options) (at_once 5) 0 0 keys "tok" strict_deps (∅ : @rdb MapRedis.redis)).2
    = Mandate.Refused strict_error) as Ha by by_run.
  split; [exact Ha|]. split; [reflexivity|].
  pose proof (MandateFacts.forbidden_means_verified (H := RedisStore.store store_options) (at_once 5) 0 0 keys "tok" strict_deps
    (∅ : @rdb MapRedis.redis) strict_error Ha) as (_ & Hf & _). exact (Hf eq_refl).
Defined.

(** ** Consumers *)

Lemma fresh_holds calls : holds calls store_options fresh empty_spec.
Proof. apply MapRedis.map_empty_refines. Qed.

Lemma published_proper : proper_message (published revoke).
Proof. unfold proper_message. apply (bool_decide_unpack _). by_run. Qed.

Lemma acknowledged_means_applied_witness :
  let '(st', r) := RedisConsumer.processRevocation (at_once 5) store_options revocations ("1-0", (published revoke).2) fresh in
  handled_with (at_once 5) store_options "1-0" fresh st' r empty_spec
    (revocation_effect (at_once 5) store_options revocations "1-0" (RedisConsumer.fieldsToValues (published revoke).2) fresh st').
Proof.
  pose proof (acknowledged_means_applied (at_once 5) store_options revocations (at_once_ordered 5) "1-0" (published revoke).2 fresh empty_spec
    (fresh_holds (at_once 5))) as [Hrev _]. exact (Hrev published_proper).
Defined.

Definition backlog : RedisConsumer.State :=
  RedisConsumer.MkState (∅ : @rdb MapRedis.redis)
    ([published revoke; ("2-0", []); ("3-0", ["dangling"])], [published revoke]) [] [] 0.

Lemma poll_terminates_witness :
  (RedisConsumer.revocation_pollOnce (at_once 5) store_options revocations 4 backlog).2 = Ok (Some 4)
  /\ (RedisConsumer.revocation_pollOnce (at_once 5) store_options revocations 4 backlog).2 <> Ok None.
Proof.
  split; [by_run|].
  assert (remaining backlog.(RedisConsumer.srv) "0-0" < 4)%nat as Hlt by (apply Nat.leb_le; reflexivity).
  pose proof (poll_terminates (at_once 5) store_options revocations 4 backlog Hlt) as [Hp _]. exact Hp.
Defined.

(** ** From the coordinator to the resource server *)

(** A later mark of the same anchor with a lifetime of one millisecond ends the first:
    the mandate is accepted again two milliseconds later. *)
Definition after_revocation : RedisConsumer.State :=
  (RedisConsumer.process_messages (RedisConsumer.processRevocation (at_once 5) store_options revocations) 0 [published revoke] fresh).1.

Definition authenticate_at (t : Z) (ops : list (Call * Op)) : Mandate.AuthResult :=
  (Mandate.authenticate (H := RedisStore.store store_options) (at_once t) 0 0 keys "tok" demo_deps
     (later_store store_options ops after_revocation)).2.

Example short_mark_revives :
  authenticate_at 3000 [] <> Mandate.Accepted demo_claims
  /\ authenticate_at 3000 [(MkCall 6 Delivered, OpMarkRevoked "rec1" (Some 1)); (MkCall 6 Delivered, OpMarkRevoked "agent-1" (Some 1))]
     = Mandate.Accepted demo_claims.
Proof. split; by_run. Qed.

(** Later calls of the witness: another anchor with a short life, and the same one again
    with the default. *)
Definition later_ops : list (Call * Op) :=
  [(MkCall 6 Delivered, OpMarkRevoked "other" (Some 1)); (MkCall 7 Delivered, OpMarkRevoked "rec1" None)].

Lemma revocation_reaches_resource_witness :
  let '(st', r) := RedisConsumer.process_messages (RedisConsumer.processRevocation (at_once 5) store_options revocations) 0
    [("0-9", ["forged"; "x"]); published revoke] fresh in
  r = Ok 2
  /\ (Mandate.authenticate (H := RedisStore.store store_options) (at_once 9) 0 0 keys "tok" demo_deps (later_store store_options later_ops st')).2
     <> Mandate.Accepted demo_claims.
Proof.
  pose proof (revocation_reaches_resource (at_once 5) store_options revocations (at_once_ordered 5) fresh empty_spec 0
    [("0-9", ["forged"; "x"]); published revoke] "k1" revoke.(dedupeKey) (row revoke) "1-0" "agent_terminate:agent-1" "z1" ended "requested")
    as Hw.
  destruct (RedisConsumer.process_messages _ _ _ _) as [st' r].
  destruct Hw as [Hr Hrest]; [reflexivity|reflexivity|apply fresh_holds|reflexivity|reflexivity|reflexivity|right; left| |].
  { constructor; [|constructor; [exact published_proper|constructor]]. unfold proper_message. apply (bool_decide_unpack _). by_run. }
  split; [exact Hr|]. apply Hrest; [|exact demo_covered|left; reflexivity].
  split_and!; [cbn; lia|repeat constructor| |apply at_once_ordered|cbn; lia|intros j; reflexivity].
  repeat constructor; unfold outlasts; cbn [snd fst]; intros Heq; first [discriminate Heq | vm_compute; discriminate].
Defined.

Lemma epoch_reaches_resource_witness :
  let '(st', r) := RedisConsumer.processInvalidation (at_once 5) store_options invalidations
    ("1-0", streamFields (Some "k1") DelegationsInvalidate edge_revoke.(dedupeKey) (row edge_revoke)) fresh in
  r = Ok tt
  /\ (Mandate.authenticate (H := RedisStore.store store_options) (at_once 9) 0 0 keys "tok" demo_deps (later_store store_options [] st')).2
     <> Mandate.Accepted demo_claims.
Proof.
  pose proof (epoch_reaches_resource (at_once 5) store_options invalidations (at_once_ordered 5) fresh empty_spec
    "k1" edge_revoke.(dedupeKey) (row edge_revoke) "1-0" "z1" "delegation_revoked" 7 "edge-1") as Hw.
  destruct (RedisConsumer.processInvalidation _ _ _ _ _) as [st' r].
  destruct Hw as [Hr Hrest]; [reflexivity|reflexivity|apply fresh_holds|reflexivity|reflexivity|reflexivity|by_run|split; by_run|by_run|].
  split; [exact Hr|]. apply (Hrest [] (at_once 9) 0 0 keys "tok" demo_deps demo_claims 3);
    [|exact demo_covered|reflexivity|reflexivity|reflexivity].
  split_and!; [exact I|constructor|constructor|apply at_once_ordered|cbn; lia|]. intros j. reflexivity.
Defined.
End ResourceWitnesses.
