(* ===== verification/ControlWitnesses.v ===== *)
(** * The control surface at work

    A concrete runtime, catalog request, paginating service, resource spec, limiter and
    claim store, and the theorems on the control surface applied to them. *)

From S2P Require Import Prelude.
From S2P Require Import Json.
From S2P Require Import JsonText.
From S2P Require Import Prog.
From S2P Require Import AdminClient.
From S2P Require Import Reconcile.
From S2P Require Import Dispatch.
From S2P Require Import DispatchFacts.
From S2P Require Import ReconcileFacts.
From S2P Require Import ControlAudit.
From S2P Require Import Replay.
Local Open Scope string_scope.
Local Open Scope Z_scope.

Module ControlWitnesses.
Import AdminClient.
Import ReplayFacts.

Definition runtime : Runtime := {| engine_message := fun s => s |}.

(** Stands for the digest of a policy text. *)
Definition digest (s : string) : string := "sha256:" +:+ s.

(** ** Planning *)

Definition plan_request : Dispatch.DispatchRequest :=
  {| Dispatch.req_command := "state"; Dispatch.req_subcommand := "plan";
     Dispatch.req_flags := Some [("document", JStr (text (JObj [("objects", JArr [])])))] |}.

Definition writer : Dispatch.Principal :=
  {| Dispatch.subject := "key"; Dispatch.p_zoneId := Some "z1"; Dispatch.clientId := Some "key"; Dispatch.p_scopes := ["control:app:write"] |}.

Lemma plan_changes_nothing_witness :
  DispatchFacts.asks_for_plan plan_request
  /\ always DispatchFacts.reads_only (@Dispatch.dispatch runtime digest plan_request writer).
Proof.
  assert (DispatchFacts.asks_for_plan plan_request) as Hp by (left; split; [reflexivity|left]).
  split; [exact Hp|]. exact (@DispatchFacts.plan_changes_nothing runtime digest plan_request writer Hp).
Defined.

(** ** Collections *)

Definition client : AdminClientOptions :=
  {| apiUrl := "https://api.test"; coordinatorUrl := None; adminToken := "t"; coordinatorToken := None; retries := 3;
     defaultHeaders := []; maxFieldBytes := 0 |}.

Definition page_text (ids : list Z) (next : json) : string :=
  text (JObj [("items", JArr (JNum <$> ids)); ("next_cursor", next)]).

(** Two pages, the second under the cursor of the first. *)
Definition two_pages (r : http_request) : outcome :=
  {| result := Response 200 "OK" (if bool_decide (r.(req_query) = "?cursor=c1") then page_text [3] JNull else page_text [1; 2] (JStr "c1"));
     aborted := false |}.

Lemma listAll_complete_witness :
  run (ClientFacts.serving two_pages) tt (@listAll runtime client "/v1/zones/z1/applications" "applications" [])
  = (tt, inr (JArr [JNum 1; JNum 2; JNum 3])).
Proof.
  apply (@ClientFacts.listAll_complete runtime client two_pages "/v1/zones/z1/applications" [] "applications" 2 [JNum 1; JNum 2; JNum 3]).
  eapply (@ClientFacts.chain_more client two_pages _ _ JUndefined _ "OK" (page_text [1; 2] (JStr "c1"))
            (JObj [("items", JArr [JNum 1; JNum 2]); ("next_cursor", JStr "c1")]) [JNum 1; JNum 2] 1 [JNum 3]);
    [vm_compute; reflexivity..|].
  eapply (@ClientFacts.chain_last client two_pages _ _ (JStr "c1") _ "OK" (page_text [3] JNull)
            (JObj [("items", JArr [JNum 3]); ("next_cursor", JNull)]) [JNum 3]); vm_compute; reflexivity.
Defined.

(** ** Convergence *)

Definition spec : json := JObj [("name", JStr "orders"); ("identifier", JStr "urn:orders"); ("scopes", JArr [JStr "read"])].

Definition sent : list (string * json) := Eval vm_compute in
  match Reconcile.create "z1" Reconcile.resource spec with
  | Vis c _ => match Converge.sent_fields c with Some fields => fields | None => [] end
  | _ => []
  end.

Lemma sent_fields_converge_witness :
  @Reconcile.drift runtime digest "z1" Reconcile.resource (JObj sent) spec = Ret [].
Proof.
  eapply (@Converge.sent_fields_converge runtime digest "z1" Reconcile.resource JNull (JObj sent) spec _ _ sent).
  - left. vm_compute. reflexivity.
  - vm_compute. reflexivity.
  - intros _. split; [repeat (apply Forall_cons; split); try apply Forall_nil_2; vm_compute; done|]. vm_compute. done.
  - intros f x Hin Hx. unfold sent in *. repeat (apply elem_of_cons in Hin as [Hin|Hin]; [injection Hin as -> ->; vm_compute; done|]).
    by apply not_elem_of_nil in Hin.
Defined.

(** ** The limiter *)

Definition limiter : RateLimiter.Limiter := RateLimiter.new_RateLimiter 2 1000.

Definition burst : list (string * Z) := [("a", 0); ("a", 1); ("a", 2); ("b", 3); ("a", 600)].

Lemma bucket_bounds_rate_witness :
  RateLimiter.run limiter [] burst = [true; true; false; true; true]
  /\ RateLimiter.allowed "a" burst (RateLimiter.run limiter [] burst) * 1000 <= 2 * (1000 + 600).
Proof.
  split; [vm_compute; reflexivity|].
  apply (RateLimiter.bucket_bounds_rate limiter "a" burst 0 []); [vm_compute; done..| |].
  - split; [constructor|constructor].
  - vm_compute. repeat split; try done; lia.
Defined.

(** ** Replay *)

#[local] Instance no_tokens : TokenVerifier := {| KeySet := unit; createLocalJWKSet := fun _ => inr tt |}.

Definition use_at (t : Z) : ReplayFacts.Use :=
  {| ReplayFacts.u_jti := "j"; ReplayFacts.u_exp := JNum 60; ReplayFacts.u_read := t * 1000; ReplayFacts.u_set := t;
     ReplayFacts.u_fate := ReplayFacts.Answered |}.

(** The second use read the clock before the token expired and claimed after. *)
Definition late_use : ReplayFacts.Use :=
  {| ReplayFacts.u_jti := "j"; ReplayFacts.u_exp := JNum 60; ReplayFacts.u_read := 59999000; ReplayFacts.u_set := 60000;
     ReplayFacts.u_fate := ReplayFacts.Answered |}.

Lemma token_used_once_witness :
  ReplayFacts.accepted 3600000 (∅ : gmap string Z) [use_at 0; use_at 1000; late_use] = [true; false; true]
  /\ 60 * 1000 <= late_use.(ReplayFacts.u_set) * 1.
Proof.
  split; [vm_compute; reflexivity|].
  apply (ReplayFacts.token_used_once 3600000 [use_at 0; use_at 1000; late_use] ∅ 0 0 2 (use_at 0) late_use 60 1);
    try (vm_compute; reflexivity); try lia; try (vm_compute; discriminate).
  repeat split; try (vm_compute; discriminate).
Defined.
End ControlWitnesses.
