(* ===== verification/OperatorWitnesses.v ===== *)
(** * Operator runs, audit trails and tokens at work

    Concrete sorted sets, digests, headers, capabilities, tokens, holds, grants, policies
    and outboxes, and the theorems on the Operator, the API, the audit trails, the SDK
    and the token client applied to them. *)

From Stdlib Require Import Ascii.
From Stdlib Require String.
From S2P Require Import Prelude.
From S2P Require Import Json.
From S2P Require Import Streams.
From S2P Require Import Numbers.
From S2P Require Import JsonText.
From S2P Require Import Scope.
From S2P Require Import Text.
From S2P Require Import OperatorRuns.
From S2P Require Import AdminAudit.
From S2P Require Import Envelope.
From S2P Require Import AuditHooks.
From S2P Require Import CoordinatorAudit.
From S2P Require Import AuditClient.
From S2P Require Import OAuth.
From S2P Require Import SdkClient.
From S2P Require Import SdkSessions.
From S2P Require Import Prog.
From S2P Require Import Governed.
From S2P Require Import ExecutionFacts.
From S2P Require Import AdminClient.
From S2P Require Import Catalog.
From S2P Require Import Dispatch.
From S2P Require Import DispatchFacts.
From S2P Require Import Paths.
From S2P Require Import OperatorCatalog.
From S2P Require Import ControlTable.
From S2P Require Import CapabilityFacts.
From S2P Require Import OperatorPreview.
From S2P Require Import PlanLedger.
From S2P Require Import LedgerFacts.
From S2P Require Import MessageRuns.
From S2P Require Import ApiAuth.
From S2P Require Import Approvals.
From S2P Require Import Rego.
From S2P Require Import ApiOutbox.
From S2P Require Import PolicySets.
Local Open Scope string_scope.
Local Open Scope Z_scope.

(** ** Message runs *)

Module MessageRunWitness.
Import MessageRun.

Definition fresh : MessageRunSnapshot :=
  {| id := "run"; state := queued; lastEventSeq := 0; reason := None; errorCode := None; errorDetail := None; completedAt := None |}.

Definition ev (n : Z) (s : MessageRunState) : MessageRunEvent :=
  {| eventSeq := n; e_state := s; e_reason := None; e_errorCode := None; e_errorDetail := None; e_createdAt := Some "now" |}.

(** Three events, out of order. *)
Definition batch : list MessageRunEvent := [ev 3 timeout; ev 1 sending; ev 2 waiting_for_model].

Definition settled : MessageRunSnapshot :=
  {| id := "run"; state := timeout; lastEventSeq := 3; reason := None; errorCode := None; errorDetail := None; completedAt := Some "now" |}.

Lemma message_run_lifecycle_witness : rtc moves queued timeout /\ NoDup (eventSeq <$> batch).
Proof.
  destruct (message_run_lifecycle fresh batch settled) as (Hm & _ & _ & Hn & _); [vm_compute; reflexivity|]. by split.
Defined.

Lemma fold_order_irrelevant_witness : foldMessageRunEvents fresh batch = foldMessageRunEvents fresh [ev 1 sending; ev 2 waiting_for_model; ev 3 timeout].
Proof.
  apply fold_order_irrelevant.
  - apply (Permutation_app_comm [ev 3 timeout] [ev 1 sending; ev 2 waiting_for_model]).
  - by apply (bool_decide_unpack _); vm_compute.
Defined.
End MessageRunWitness.

(** ** Run slots *)

Module LimiterWitness.
Import RunLimiter.

(** Sorted sets with the end of their lifetime. *)
Notation key_table := (gmap string (gmap string Z * option Z)).

Definition ended (t : Z) (e : option Z) : bool := match e with Some e => e <=? t | None => false end.

Definition entry (t : Z) (k : string) (db : key_table) : gmap string Z * option Z :=
  match db !! k with Some (m, e) => if ended t e then (∅, None) else (m, e) | None => (∅, None) end.

Definition change (f : gmap string Z -> gmap string Z) (t : Z) (k : string) (db : key_table) : key_table :=
  <[k := (f (entry t k db).1, (entry t k db).2)]> db.

#[export] Instance key_sets : SortedSets :=
  {| zdb := key_table;
     zread := fun t k db => (entry t k db).1;
     zremrangebyscore := fun t k mx => change (filter (fun ms => mx < ms.2)) t k;
     zadd := fun t k sc m => change <[m := sc]> t k;
     zrem := fun t k m => change (delete m) t k;
     pexpire := fun t k ttl db => <[k := ((entry t k db).1, Some (t + ttl))]> db;
     del := fun t k => delete k |}.

Lemma entry_live t k db : ended t (entry t k db).2 = false.
Proof. unfold entry. destruct (db !! k) as [[m e]|]; [|done]. by destruct (ended t e) eqn:He. Qed.

Lemma entry_insert t k me db : entry t k (<[k := me]> db) = (if ended t me.2 then (∅, None) else me).
Proof. unfold entry. rewrite lookup_insert_eq. by destruct me. Qed.

Lemma change_entry f t t' k db :
  entry t' k (change f t k db) = (if ended t' (entry t k db).2 then (∅, None) else (f (entry t k db).1, (entry t k db).2)).
Proof. unfold change. by rewrite entry_insert. Qed.

Lemma change_read f t k db : (entry t k (change f t k db)).1 = f (entry t k db).1.
Proof. by rewrite change_entry, entry_live. Qed.

Lemma entry_later t t' k db : t <= t' -> entry t' k db = (if ended t' (entry t k db).2 then (∅, None) else entry t k db).
Proof.
  intros Ht. unfold entry. destruct (db !! k) as [[m [e|]]|]; cbn; try done. destruct (e <=? t) eqn:He; cbn; [|done].
  by replace (e <=? t') with true by (symmetry; bool_props; lia).
Qed.

#[export] Instance key_set_laws : SortedSetLaws.
Proof.
  split; cbn.
  - intros. apply change_read.
  - intros. apply change_read.
  - intros. apply change_read.
  - intros. unfold entry. by rewrite lookup_delete_eq.
  - intros t t' k ttl db Hp Ht. rewrite entry_insert. unfold ended; cbn.
    by replace (t + ttl <=? t') with false by (symmetry; bool_props; lia).
  - intros t t' k db Ht. rewrite (entry_later t t') by done. by destruct (ended _ _); [apply map_empty_subseteq|].
  - intros t t' k m m' sc db Ht Hne. rewrite (entry_later t t') by done. rewrite change_entry.
    destruct (ended t' _); cbn; [done|]. by rewrite lookup_delete_ne.
Qed.

Definition two_runs : Options := {| maxConcurrentRuns := 2; leaseTtlMs := 150000; renewIntervalMs := 30000 |}.

(** Three runs ask for a slot, one renews, one leaves. *)
Definition day : list (Z * SlotOp) :=
  [(0, Acquire "a"); (10, Acquire "b"); (20, Acquire "c"); (30000, Renew "a"); (40000, Release "b")].

Lemma runs_bounded_witness :
  Z.of_nat (size (running 50000 (run_slots two_runs "slots" day (∅ : zdb) ∅).2)) <= 2
  /\ (run_slots two_runs "slots" day (∅ : zdb) ∅).2 !! "a" = Some 180000.
Proof.
  pose proof (runs_bounded two_runs "slots" day 0 (∅ : zdb)) as Hb.
  destruct (run_slots two_runs "slots" day (∅ : zdb) ∅) as [db' leases] eqn:Hr. split.
  - apply Hb; [by cbn..|]; cbn; lia.
  - change leases with (db', leases).2. rewrite <- Hr. by vm_compute.
Defined.
End LimiterWitness.

(** ** The admin audit chain *)

Module AuditWitness.
Import AdminAudit AdminAuditFacts.

Definition bit (b : bool) (s : string) : string := String.String (if b then "1" else "0")%char s.

(** Stand-ins for the digests: an injective spelling in hexadecimal digits. *)
Fixpoint bits (s : string) : string :=
  match s with
  | String.EmptyString => "a"
  | String.String (Ascii a b c d e f g h) rest => bit a (bit b (bit c (bit d (bit e (bit f (bit g (bit h (bits rest))))))))
  end.

#[export] Instance spelled : Digests := {| sha256 := bits; hmac_sha256 := fun k m => "h" +:+ m |}.

Lemma bits_hex s : all_chars hex_char (bits s) = true.
Proof. induction s as [|[[] [] [] [] [] [] [] []] s IH]; [done|..]; cbn; exact IH. Qed.

#[export] Instance spelled_laws : DigestLaws.
Proof.
  split; cbn; [apply bits_hex| |done]. intros [|[a b c d e f g h] s]; done.
Qed.

Definition change (who : string) (zone : option string) : AdminAuditRecord :=
  {| requestId := "r1"; actorId := Some who; actorName := None; actorScope := Some "account"; action := "zone.update"; method := "PATCH";
     path := "/v1/zones/z1"; zoneId := zone; entityType := Some "zone"; entityId := zone; statusCode := 200;
     payloadJson := Some [("changed_fields", JArr [JStr "name"])] |}.

(** A chain of two records, written one after the other. *)
Definition row1 : Row := audit_row (Some "key") "a" 1000 (sanitizeRecord (change "ada" (Some "z1"))) ("", 0).
Definition row2 : Row := audit_row (Some "key") "b" 2000 (sanitizeRecord (change "eve" (Some "z1"))) (chain_head (Some "z1") [row1]).
Definition honest : list Row := [row1; row2].
Definition cut : list Row := [row1].

Example honest_written :
  insertAdminAuditRecord (Some "key") "b" 2000 (change "eve" (Some "z1"))
    (insertAdminAuditRecord (Some "key") "a" 1000 (change "ada" (Some "z1")) []) = honest.
Proof. reflexivity. Qed.

Lemma elem_of_honest r : r ∈ honest -> r = row1 \/ r = row2.
Proof. unfold honest. rewrite !elem_of_cons, elem_of_nil. tauto. Qed.

Lemma or_introl_cut r : r ∈ honest \/ r ∈ cut -> r ∈ honest.
Proof. unfold honest, cut. rewrite !elem_of_cons. tauto. Qed.


(** A chain written by the service, and one of its ends cut off. *)
Lemma honest_chain : intact (Some "key") honest.
Proof.
  assert (forall zone, intact (Some "key") (chain zone honest)) as Hall.
  { rewrite <-honest_written. apply AuditHookFacts.insert_intact, AuditHookFacts.insert_intact. intros zone. exact I. }
  exact (Hall (Some "z1")).
Qed.

Lemma tampering_is_truncation_witness : (digest <$> cut) `prefix_of` (digest <$> honest) /\ verifies (Some "key") cut.
Proof.
  assert (verifies (Some "key") cut) as Hc by (vm_compute; split_and!; reflexivity).
  split; [|exact Hc]. apply (tampering_is_truncation "key" honest cut); [discriminate|exact honest_chain|exact Hc| | |].
  - by apply (bool_decide_unpack _); vm_compute.
  - intros r r' _ _ Hm. by injection Hm.
  - intros r Hr. exists r. split; [by apply or_introl_cut; right|reflexivity].
Defined.
End AuditWitness.

(** ** The audit hooks *)

Module HookWitness.
Import AdminAudit AuditGate ApiAudit AuditHookFacts AuditWitness.

Definition patch : Request :=
  {| req_id := "r1"; req_method := "PATCH"; req_url := "/v1/zones/z1"; req_body := JObj [("name", JStr "n")];
     actor := Some {| a_id := "ada"; a_name := "Ada"; a_scope := "account"; a_zoneId := None |}; account := None |}.

Definition done_ : Reply := {| status := 200; body := Some "{}" |}.

Lemma success_is_audited_witness :
  gated_request patch = true
  /\ exists rows, api_respond (Some "key") patch done_ (Some ("a", 0)) None [] = (done_, rows) /\ length rows = 1%nat
     /\ forall zone, intact (Some "key") (chain zone rows).
Proof.
  split; [by vm_compute|]. set (rows := insertAdminAuditRecord (Some "key") "a" 0 (api_record patch 200 (Some "{}")) []).
  assert (api_respond (Some "key") patch done_ (Some ("a", 0)) None [] = (done_, rows)) as Hr by (vm_compute; reflexivity).
  exists rows. split_and!; [exact Hr|reflexivity|].
  destruct (success_is_audited (Some "key") [] done_ (Some ("a", 0)) None done_ rows) as [Hapi _]; [done|].
  by destruct (Hapi patch Hr) as (Hi & _).
Defined.
End HookWitness.

(** ** The envelope *)

Module EnvelopeWitness.
Import Envelope EnvelopeFacts.

Definition env : Envelope :=
  {| subjectToken := Some "secret"; sessionId := Some "s1"; delegationId := Some "d 1"; parentDelegationId := None;
     subjectAuthorityRecordId := Some "r,1"; traceId := Some "0123456789abcdef0123456789abcdef"; traceFlags := Some "01"; traceState := None;
     baggage := Some {["tenant" := "é"]}; hop := 3 |}.

Lemma env_portable : portable env.
Proof.
  split.
  - split; [|intros m [= <-]; split_and!|by cbn].
    + do 4 (constructor; [intros s [=]; subst; by vm_compute|]). constructor.
    + by vm_compute.
    + apply map_Forall_singleton. by vm_compute.
    + apply map_Forall_singleton. by apply (bool_decide_unpack _); vm_compute.
  - discriminate.
  - apply Nat.leb_le. by vm_compute.
  - apply Nat.leb_le. by vm_compute.
Qed.

Definition fresh_trace : string := "00112233445566778899aabbccddeeff".

Lemma envelope_round_trip_witness :
  let read := decodeEnvelope (fun n => ordered_get n (toHeaders fresh_trace "00000000000000aa" env)) in
  read.(delegationId) = Some "d 1" /\ read.(subjectToken) = None /\ read.(traceFlags) = Some "01".
Proof.
  cbv zeta. rewrite (envelope_round_trip fresh_trace "00000000000000aa" env env_portable); [by split_and!|by vm_compute|discriminate|by vm_compute|discriminate].
Defined.

(** A baggage key with a comma: its tail is read as a member of its own, here as the
    Session of an envelope that has none. *)
Example key_forges_session :
  (decodeEnvelope (fun n => ordered_get n (toHeaders fresh_trace "00000000000000aa"
     {| subjectToken := None; sessionId := None; delegationId := None; parentDelegationId := None; subjectAuthorityRecordId := None;
        traceId := None; traceFlags := None; traceState := None; baggage := Some {["a,caracal.agent_session" := "forged"]}; hop := 0 |}))).(sessionId)
  = Some "forged".
Proof. by vm_compute. Qed.
End EnvelopeWitness.

(** ** The audit client *)

Module ClientWitness.
Import AuditClient AuditClientFacts.

Definition small : Config := {| key := None; bufferCap := 4; flushBatch := 2 |}.

Definition event (n : Z) : json := JObj [("id", JStr "e"); ("n", JNum n)].

Lemma event_plain n : Z.abs n <= MAX_SAFE_INTEGER -> plain (event n).
Proof.
  intros Hn. apply plain_obj; [by apply (bool_decide_unpack _); vm_compute|reflexivity|].
  constructor; [apply plain_str|]. constructor; [by apply plain_num|constructor].
Qed.

Definition busy : list ClientEvent := [Emit (event 1); Emit (event 2); Emit (event 3); Advance Added true; Advance Refused true].

Lemma shutdown_settles_witness :
  exists n, forall outs, (n <= length outs)%nat -> pending (client_run small (busy ++ Close :: advances outs)%list) = [].
Proof.
  destruct (shutdown_settles small busy) as [n Hn]; [by vm_compute|]. exists n. intros outs Ho. by apply Hn.
Defined.

Lemma spilled_batch_replays_witness : replay_file (fun _ => true) (file_body [event 1; event 2]) = ([event 1; event 2], true).
Proof.
  apply (spilled_batch_replays (fun _ => true) [event 1; event 2]); [|by repeat constructor|discriminate|done].
  do 2 (constructor; [by apply event_plain; vm_compute|]). constructor.
Defined.
End ClientWitness.

(** ** Tokens *)

Module TokenWitness.
Import OAuth OAuthFacts.

#[local] Existing Instance InMemoryTokenCache.

Definition plain_options (sc : list string) : ExchangeOptions :=
  {| clientSecret := None; authorityRecordId := None; sessionId := Some "s1"; delegationId := None; scopes := sc; timeoutMs := None;
     ttlSeconds := None; approvalId := None; forceRefresh := false; use_cache := true |}.

Definition ask (sc : list string) : Request := {| subjectToken := "subject"; resource := ["https://r.test"]; opts := plain_options sc |}.

Definition cfg : Config := {| stsUrl := "https://sts.test"; zoneId := "z1"; applicationId := "a1" |}.

Definition digest (s : string) : string := "d" +:+ s.

Definition mint (tok : string) : option Response :=
  Some {| res_status := 200; content_type := Some "application/json"; res_text := text (JObj [("access_token", JStr tok); ("expires_in", JNum 300)]) |}.

Definition q_read : Request := ask ["read"].
Definition q_write : Request := ask ["write"].

(** Two calls start exchanges, the replies arrive crossed, and a third call is served
    from the cache. *)
Definition crossing : list ClientEvent :=
  [Call 0 0 1 q_read; Call 0 0 2 q_write; Reply 5 5 (inflightKey digest cfg q_write) (mint "w"); Reply 6 6 (inflightKey digest cfg q_read) (mint "r");
   Call 10 10 3 q_read].

Definition run : State * list Log := @client_run (InMemoryTokenCache digest 8) digest cfg crossing (@no_state (InMemoryTokenCache digest 8)).

Lemma read_separable : separable digest q_read.
Proof. split; [do 7 (constructor; [by vm_compute|]); constructor|]. constructor; [by vm_compute|constructor]. Qed.

(** The only token "r" of the run was minted for a request to read. *)
Lemma minted_r q0 t : Mint q0 t ∈ run.2 -> accessToken t = "r" -> q0 = q_read.
Proof.
  intros Hin Ht. replace run.2 with (let r := run in r.2) in Hin by reflexivity. vm_compute in Hin.
  repeat (apply elem_of_cons in Hin as [Heq|Hin]; [simplify_eq; done|]). by apply elem_of_nil in Hin.
Qed.

End TokenWitness.

(** ** Governed execution *)

Module ExecutionWitness.
Import Governed ExecutionFacts.

Definition any_args (a : list (string * json)) : option (list (string * json)) := Some a.

#[local] Instance two_capabilities : Capabilities :=
  {| CAPABILITIES :=
       [("zones.get", {| cap_id := "zones.get"; cap_mutating := false; cap_outputs := ["zone_id"]; cap_args := any_args |});
        ("zones.update", {| cap_id := "zones.update"; cap_mutating := true; cap_outputs := []; cap_args := any_args |})];
     isControlExecutable := fun _ => true |}.

#[local] Instance two_controls : ControlMap :=
  {| CONTROL_CAPABILITIES := fun name =>
       Some {| cc_scopes := ["control:zone:write"];
               buildInvocation := fun args _ => {| command := "zone"; subcommand := name; flags := args |};
               describeOutcome := fun _ _ => ("done", None) |} |}.

Definition two_steps : list GovernedPlanStep :=
  [{| s_id := "read"; s_capability := "zones.get"; s_args := []; s_depends_on := []; s_secrets := None |};
   {| s_id := "write"; s_capability := "zones.update"; s_args := [("id", JStr "{{steps.read.outputs.zone_id}}")]; s_depends_on := ["read"];
      s_secrets := None |}].

Lemma governed_execution_witness :
  NoDup (s_id <$> two_steps)
  /\ monitored (allowed true two_steps) remember (outcome two_steps) [] (executeViaControlPlane true two_steps ∅).
Proof.
  assert (NoDup (s_id <$> two_steps)) as Hn by (apply (bool_decide_unpack _); vm_compute; exact I).
  split; [exact Hn|]. exact (governed_execution true two_steps ∅ Hn).
Defined.
End ExecutionWitness.

(** ** Plans of the catalog *)

Module CapabilityWitness.
Import ProviderConfig.
Import OperatorCatalog.
Import ControlTable.
Import OperatorPreview.
Import CapabilityFacts.
Import Governed.
Import PlanLedger.
Import LedgerFacts.

(** Schemas as [zod] reads them, less the formats of strings. *)
Definition check_string (s : string) (c : string_check) : bool :=
  match c with
  | Min n => (n <=? String.length s)%nat
  | Max n => (String.length s <=? n)%nat
  | Regex shape => shape s
  | Url => true
  end.

Definition within (n : nat) (min max : option nat) : bool :=
  (default_to 0%nat min <=? n)%nat && match max with Some m => (n <=? m)%nat | None => true end.

Definition known_keys (o : fields) (keys : list string) : bool := forallb (fun k => bool_decide (k ∈ keys)) o.*1.

(** The declared properties of an object, parsed. *)
Definition parse_properties (parse : schema -> json -> option json) (o : fields) : list (string * schema) -> option fields :=
  fix go props :=
    match props with
    | [] => Some []
    | (k, s) :: rest =>
        match parse s (prop k o), go rest with
        | Some JUndefined, Some out => Some out
        | Some v, Some out => Some ((k, v) :: out)
        | _, _ => None
        end
    end.

Fixpoint parse (s : schema) (v : json) : option json :=
  match s with
  | SString checks => match v with JStr t => if forallb (check_string t) checks then Some v else None | _ => None end
  | SInt _ _ => match v with JNum _ => Some v | _ => None end
  | SBoolean => match v with JBool _ => Some v | _ => None end
  | SUnknown => Some v
  | SEnum values => match v with JStr t => if bool_decide (t ∈ values) then Some v else None | _ => None end
  | SArray element min max =>
      match v with JArr xs => if within (length xs) min max then JArr <$> mapM (parse element) xs else None | _ => None end
  | SRecord key value =>
      match v with JObj o => JObj <$> mapM (fun kv => match parse key (JStr kv.1), parse value kv.2 with Some _, Some w => Some (kv.1, w) | _, _ => None end) o | _ => None end
  | SObject props => match v with JObj o => if known_keys o props.*1 then JObj <$> parse_properties parse o props else None | _ => None end
  | SOptional inner => match v with JUndefined => Some JUndefined | _ => parse inner v end
  | SRefine inner refine =>
      match parse inner v with
      | Some (JObj o) => if refine o then Some (JObj o) else None
      | Some _ | None => None
      end
  end.

#[local] Instance zod : Zod := {| safeParse := parse |}.

Lemma parsed_keys o props out k : parse_properties parse o props = Some out -> k ∈ out.*1 -> k ∈ props.*1.
Proof.
  revert out. induction props as [|[k' s] props IH]; intros out; cbn; [by intros [= <-]|]. destruct (parse s (prop k' o)) as [v|]; [|done].
  destruct (parse_properties parse o props) as [out'|] eqn:Hp; [|by destruct v]. intros Ho Hk. apply elem_of_cons.
  destruct (decide (k = k')) as [-> |Hne]; [by left|right]. apply (IH out' eq_refl).
  destruct v; injection Ho as <-; first [done | by apply elem_of_cons in Hk as [? |?]].
Qed.

#[local] Instance zod_laws : ZodLaws.
Proof.
  split.
  - intros inner refine value out. cbn. destruct (parse inner value) as [[| | | | | | | |o]|]; try done. destruct (refine o) eqn:Hr; [|done]. intros [= <-].
    split; [done|]. by intros fields [= <-].
  - intros props value out. cbn. destruct value as [| | | | | | | |o]; try done. destruct (known_keys _ _); [|done]. intros Hp.
    apply fmap_Some in Hp as (out' & Hp & ->). exists out'. split; [done|]. intros k. by eapply parsed_keys.
Qed.

(** *** A plan that connects a provider *)

Definition provider_plan : list Plans.ProposedStep :=
  [{| Plans.id := "p"; Plans.capability := "connectProvider";
      Plans.args := [("name", JStr "idp"); ("kind", JStr "api_key"); ("config", JObj [("header_name", JStr "X-Key")])]; Plans.depends_on := [] |}].

Definition validated (plan : list Plans.ProposedStep) : Plans.PlanValidation :=
  default_to {| Plans.ok := false; Plans.mutating_step_count := 0; Plans.v_steps := []; Plans.diagnostics := [] |} (Plans.validateProposedPlan plan).

Definition provider_step : Plans.ValidatedStep :=
  {| Plans.v_id := "p"; Plans.v_capability := "connectProvider"; Plans.v_mutating := true;
     Plans.v_args := [("name", JStr "idp"); ("kind", JStr "api_key"); ("config", JObj [("header_name", JStr "X-Key")])]; Plans.v_depends_on := [] |}.

Lemma plans_hold_no_credentials_witness : "header_name" ∉ PROVIDER_CREDENTIAL_KEYS.
Proof.
  apply (plans_hold_no_credentials provider_plan (validated provider_plan) provider_step [("header_name", JStr "X-Key")] "header_name").
  - vm_compute. reflexivity.
  - vm_compute. left.
  - reflexivity.
  - left.
Defined.

#[local] Instance runtime : Runtime := {| engine_message := fun s => s |}.

Definition reader : Dispatch.Principal := {| Dispatch.subject := "operator"; Dispatch.p_zoneId := Some "z"; Dispatch.clientId := None; Dispatch.p_scopes := ["control:app:read"] |}.

Definition client_options : AdminClient.AdminClientOptions :=
  {| AdminClient.apiUrl := "https://api"; AdminClient.coordinatorUrl := None; AdminClient.adminToken := "t"; AdminClient.coordinatorToken := None;
     AdminClient.retries := AdminClient.DEFAULT_RETRIES; AdminClient.defaultHeaders := []; AdminClient.maxFieldBytes := 4096 |}.

Lemma capability_confined_witness :
  always (fun c => DispatchFacts.reads_only c
      /\ (Paths.plain_call c = true -> always (reads_at "z" (desc_of ControlTable.listApplications)) (AdminClient.perform client_options c)))
    (Dispatch.dispatch (fun s => s) (operator_request (buildInvocation ControlTable.listApplications [] None)) reader).
Proof.
  refine (proj2 (capability_confined client_options (fun s => s) "listApplications" OperatorCatalog.listApplications ControlTable.listApplications
    reader "z" [] None _ _ _ _) _); vm_compute; reflexivity.
Defined.

Definition empty_db : Tables := fun _ => [].

Lemma preview_exact_witness : exists pv, previewPlan empty_db "z" provider_plan = Some pv /\ pv.(pv_ok) = true.
Proof.
  destruct (preview_exact empty_db "z" provider_plan (validated provider_plan)) as (pv & Hpv & _ & _ & _); [vm_compute; reflexivity|].
  exists pv. split; [exact Hpv|]. vm_compute in Hpv. injection Hpv as <-. reflexivity.
Defined.

(** *** A conversation on autopilot *)

Definition app_plan : list Plans.ProposedStep :=
  [{| Plans.id := "a"; Plans.capability := "registerApplication"; Plans.args := [("name", JStr "billing")]; Plans.depends_on := [] |}].

Definition previewed (plan : list Plans.ProposedStep) : PlanPreview :=
  default_to {| pv_ok := false; pv_steps := []; pv_diagnostics := [] |} (previewPlan empty_db "z" plan).

Definition granted : Plans.OperatorAuthority := {| Plans.allowedCapabilities := ["registerApplication"]; Plans.systemZones := [] |}.

(** Autopilot with a budget of one write. *)
Notation one_write := (buildAutopilotPolicy (Some true) (Some 1)).

Definition recorded : System := on_ledger (fun l => (messagePlan empty_db "z" "register billing" app_plan true l).1) (opened false true).

Definition evaluation : AutopilotEvaluation := message_evaluation app_plan (validated app_plan) (previewed app_plan) true true.

Definition approved : System := on_ledger (fun l => (approveWithAutopilot 1 evaluation one_write l).1.1) recorded.

Definition to_send : list GovernedPlanStep :=
  [{| s_id := "a"; s_capability := "registerApplication"; s_args := [("name", JStr "billing")]; s_depends_on := []; s_secrets := None |}].

(** The control plane registers the application and the lease holds. *)
Definition answers (a : Act) : Answer a :=
  match a with
  | Invoke _ _ _ => Invoked (JObj [("id", JStr "app_1")])
  | Aborted => false
  | ConfirmOwned => true
  | AskLossReason => ownership_lost
  end.

Definition listen (k : list {a : Act & Answer a}) (a : Act) : list {a : Act & Answer a} * Answer a := (remember k a (answers a), answers a).

Lemma run_plays {A : Type} (m : exec A) k : plays remember k m (run listen k m).1 (run listen k m).2.
Proof. revert k. induction m as [a|x|e next IH]; intros k; cbn; [constructor..|]. apply (plays_vis _ _ e next (answers e)), IH. Qed.

Definition sent : list {a : Act & Answer a} * (Empty_set + GovernedExecutionResult) := run listen [] (executeViaControlPlane true to_send ∅).

Definition result : GovernedExecutionResult :=
  match sent.2 with inr r => r | inl _ => {| Governed.applied := []; Governed.failure := None; Governed.leaseLoss := None |} end.

(** Execution 7 of plan 1. *)
Definition carried : LedgerFacts.Execution := {| e_plan := 1; e_steps := to_send; e_outs := ∅ |}.

Definition executing : System := start 7 1 (to_send, ∅) approved.

Definition done_ : System := conclude_execution 7 carried sent.1 (Some result) executing.

Lemma cleared_now : preflight granted empty_db "z" 0 1 approved.(ledger) = inr (to_send, ∅).
Proof. vm_compute. reflexivity. Qed.

Lemma sent_plays : plays remember [] (executeViaControlPlane true to_send ∅) sent.1 (inr result).
Proof. replace (inr result) with sent.2 by (vm_compute; reflexivity). apply run_plays. Qed.

Lemma executing_reachable : reachable granted "z" one_write executing.
Proof.
  exists false, true. apply rtc_l with recorded; [apply step_message|]. apply rtc_l with approved.
  { apply (step_message_autopilot _ _ _ recorded empty_db app_plan (validated app_plan) (previewed app_plan) true 1 true); vm_compute; reflexivity. }
  apply rtc_once, (step_start _ _ _ approved 7%nat 0 empty_db 1 (to_send, ∅)); [reflexivity|reflexivity|apply cleared_now].
Qed.

Lemma done_reachable : reachable granted "z" one_write done_.
Proof.
  destruct executing_reachable as (isAsk & auto & Hr). exists isAsk, auto. etrans; [exact Hr|].
  apply rtc_once, (step_finish _ _ _ executing 7%nat carried); [reflexivity|apply sent_plays].
Qed.

(** Execution 7 loses its lock; execution 8 is cleared for the same step and both send it. *)
Definition overtaken : System := start 8 1 (to_send, ∅) (lapse 1 executing).

Definition sent_twice : System :=
  conclude_execution 8 carried sent.1 (Some result) (conclude_execution 7 carried sent.1 (Some result) overtaken).

(** Once its lock is lost before its result is recorded, a write can be applied twice. *)
Lemma lost_lock_writes_twice :
  reachable granted "z" one_write sent_twice /\ sent_twice.(lapsed) = true /\ sent_twice.(touched) = [(1, "a"); (1, "a")].
Proof.
  split; [|by vm_compute]. destruct executing_reachable as (isAsk & auto & Hr). exists isAsk, auto. etrans; [exact Hr|].
  apply rtc_l with (lapse 1 executing); [by apply (step_lapse _ _ _ executing 7%nat carried)|].
  apply rtc_l with overtaken; [apply (step_start _ _ _ (lapse 1 executing) 8%nat 0 empty_db 1 (to_send, ∅)); [reflexivity|reflexivity|apply cleared_now]|].
  eapply rtc_l; [apply (step_finish _ _ _ overtaken 7%nat carried sent.1 result); [reflexivity|apply sent_plays]|].
  apply rtc_once, step_finish; [reflexivity|apply sent_plays].
Qed.

(** A plan whose step names an inherited property makes the validation throw. *)
Example inherited_name_throws :
  Plans.validateProposedPlan [{| Plans.id := "a"; Plans.capability := "constructor"; Plans.args := []; Plans.depends_on := [] |}] = None.
Proof. reflexivity. Qed.

Lemma ledger_sound_witness : decisions done_.(ledger).(conv) 1 = [true] /\ autopilotApprovedWrites done_.(ledger).(conv) <= 1.
Proof.
  destruct (ledger_sound granted "z" (Some true) (Some 1) done_ done_reachable) as (_ & _ & _ & _ & Hb). split; [vm_compute; reflexivity|].
  apply (Hb 1); [reflexivity|lia].
Defined.

Lemma no_write_twice_witness : done_.(touched) = [(1, "a")] /\ NoDup done_.(touched).
Proof.
  split; [vm_compute; reflexivity|]. exact (proj1 (no_write_twice granted "z" (Some true) (Some 1) done_ done_reachable (reflexivity _))).
Defined.

Lemma execution_gated_witness : head (decisions approved.(ledger).(conv) 1) = Some true /\ NoDup (s_id <$> to_send).
Proof.
  destruct (execution_gated granted empty_db "z" 0 1 approved.(ledger) to_send ∅ cleared_now) as (_ & _ & Ha & _ & Hn & _). by split.
Defined.
End CapabilityWitness.

(** ** A run that misses its deadline *)

Module RunsWitness.
Import MessageRun.
Import MessageRuns.

Definition fresh : RunsDb := no_runs {| PlanLedger.active := true; PlanLedger.ask := false; PlanLedger.autopilot := false; PlanLedger.next_seq := 1; PlanLedger.turns := [] |}.

Definition started : RunsDb := (startMessageRunTx [] 0 "run_1" "hello" "msg_1" "msg_1" "ada" None fresh).1.

Definition waiting : RunsDb := (transitionMessageRun 1000000 "run_1" waiting_for_model (because "model_requested") started).1.

(** Two minutes and a second later. *)
Definition reaped : RunsDb := (runMessageRunsReap true 121000000 [] waiting).1.

Lemma reaped_reachable : runs_reachable reaped.
Proof.
  eexists. apply rtc_l with started; [by apply run_start|]. apply rtc_l with waiting; [apply run_transition|]. apply rtc_once, run_reap.
Qed.

(** The row still says why it last moved; its log says why it ended. *)
Lemma runs_replay_witness :
  (fun r => (r.(progress).(state), r.(progress).(reason))) <$> reaped.(runs) !! "run_1" = Some (timeout, Some "model_requested")
  /\ exists p, foldMessageRunEvents (fresh_run "run_1") (event_log reaped "run_1") = inr p /\ p.(reason) = Some "deadline_exceeded".
Proof.
  split; [vm_compute; reflexivity|]. destruct (runs_replay reaped reaped_reachable) as [H _].
  destruct (reaped.(runs) !! "run_1") as [r|] eqn:Hr; [|by vm_compute in Hr].
  destruct (H "run_1" r (event_log reaped "run_1") Hr (reflexivity _)) as (p & Hp & _). exists p. split; [exact Hp|].
  vm_compute in Hp. injection Hp as <-. reflexivity.
Defined.
End RunsWitness.

(** ** A console login at the API *)

Module AuthWitness.
Import ApiAuth.ApiAuth ApiAuth.AuthFacts.
Import AuthCaches.

(** Reads the spelling of [bits] back. *)
Fixpoint unbits (s : string) : string :=
  match s with
  | String.String a (String.String b (String.String c (String.String d (String.String e (String.String f (String.String g (String.String h rest))))))) =>
      let one x := bool_decide (x = "1"%char) in String.String (Ascii (one a) (one b) (one c) (one d) (one e) (one f) (one g) (one h)) (unbits rest)
  | _ => ""
  end.

Lemma unbits_bits s : unbits (AuditWitness.bits s) = s.
Proof. induction s as [|[[] [] [] [] [] [] [] []] s IH]; [done|..]; cbn; by rewrite IH. Qed.

Lemma bits_base64url s : all_chars (fun c => is_alnum c || one_of "-_" c) (AuditWitness.bits s) = true.
Proof. induction s as [|[[] [] [] [] [] [] [] []] s IH]; [done|..]; cbn; exact IH. Qed.

#[export] Instance stand_in : TokenCrypto :=
  {| token_sha := fun s => s; hmac_base64url := fun k m => AuditWitness.bits (k +:+ "|" +:+ m); argon2_hash := fun salt t => "h" +:+ t;
     argon2_verify := fun t h => bool_decide (h = "h" +:+ t); to_base64url := AuditWitness.bits; of_base64url := unbits |}.

#[export] Instance stand_in_laws : TokenCryptoLaws.
Proof.
  split; cbn; [|done|intros s _; apply unbits_bits|apply bits_base64url|intros; apply bits_base64url]. intros _ t. by apply bool_decide_eq_true.
Qed.

(** *** Rotation *)

Definition draws (t : Z) : Draws := {| d_now := t; bootstrap_id := "t1"; read_id := "t2"; write_id := "t3"; approve_id := "t4"; d_salt := "salt" |}.

(** A token an operator minted, and a former deployment token. *)
Definition minted : AdminTokenRow :=
  new_row {| id := "t9"; name := "ci"; scope := ZoneScope; capability := read; zoneId := Some "z1"; createdBy := "admin:t0" |} "cat_ci" "hcat_ci".

Definition tokens : list AdminTokenRow := [new_row (bootstrap_actor "t0") "old" "hold"; minted].

Definition rotated : list AdminTokenRow := seed_all (draws 5) (Some "god") tokens.

Lemma seeding_rotates_witness : minted ∈ rotated /\ lookupAdminToken rotated "old" = None /\ is_Some (lookupAdminToken rotated "god").
Proof.
  destruct (seeding_rotates (draws 5) "god" tokens) as (Hl & _ & Hm & _).
  - discriminate.
  - apply (bool_decide_unpack _). vm_compute. exact I.
  - intros r Hr. apply (bool_decide_unpack _). unfold tokens in Hr. apply elem_of_cons in Hr as [-> | Hr]; [vm_compute; exact I|].
    apply list_elem_of_singleton in Hr as ->. vm_compute. exact I.
  - split_and!.
    + apply Hm; [right; left|]. apply (bool_decide_unpack _). vm_compute. exact I.
    + vm_compute. reflexivity.
    + destruct (Hl "god" "env-bootstrap" write) as (a & Ha & _); [left|]. exists a. exact Ha.
Defined.

Lemma account_assertions_witness :
  verifyAccountAssertion "god" (signAccountAssertion "god" "ada" (Number "160")) 100 = Some "ada"
  /\ verifyAccountAssertion "god" (signAccountAssertion "god" "ada" (Number "160")) 160 = None.
Proof.
  split; (etrans; [apply (account_assertions "god" "ada" (Number "160") 160); [reflexivity|discriminate|vm_compute; lia|reflexivity|lia]|reflexivity]).
Defined.

(** *** Admission *)

Definition options : AuthOptions := {| prefix := "/v1/"; with_redis := true; failLimit := 10; debounceSec := 60; accountKey := Some "god"; actorRateLimit := 100 |}.

(** Ada changes an application of her zone through the console. *)
Definition patch : Request :=
  {| method := "PATCH"; url := "/v1/zones/z1/applications/a1?x=1"; ip := "10.0.0.1"; authorization := Some ("Bearer " +:+ deriveConsoleWriteToken "god");
     x_caracal_account := One (signAccountAssertion "god" "ada" (Number "160")) |}.

Definition answer (c : auth_call) : auth_answer c :=
  match c with
  | MinuteBucket => inr 1
  | Incr _ => inr 1
  | Expire _ _ => inr tt
  | SetExNx _ _ => inr true
  | DateNow => 100500
  | VerifyToken bearer => inr (lookupAdminToken rotated bearer)
  | ZoneMeta _ => inr {| reserved := false; owner := Some "ada" |}
  | TouchLastUsed _ => tt
  end.

Definition attend (k : list {c : auth_call & auth_answer c}) (c : auth_call) : list {c : auth_call & auth_answer c} * auth_answer c :=
  (remember k c (answer c), answer c).

Lemma attended {A : Type} (m : prog auth_call auth_answer AdminClient.exn A) k : plays remember k m (run attend k m).1 (run attend k m).2.
Proof. revert k. induction m as [a|x|e next IH]; intros k; cbn; [constructor..|]. apply (plays_vis _ _ e next (answer e)), IH. Qed.

Definition console_writer : Actor := derived_actor "t3" write_meta.

Lemma admission_sound_witness : exists k, plays remember [] (preHandler options patch) k (inr (Passed console_writer (Some "ada") "*")) /\ reaches options patch k "ada".
Proof.
  exists (run attend [] (preHandler options patch)).1.
  assert (plays remember [] (preHandler options patch) (run attend [] (preHandler options patch)).1 (inr (Passed console_writer (Some "ada") "*"))) as Hp.
  { replace (inr (Passed console_writer (Some "ada") "*")) with (run attend [] (preHandler options patch)).2 by (vm_compute; reflexivity). apply attended. }
  split; [exact Hp|]. destruct (admission_sound options patch _ _ _ _ Hp) as [[_ _ _ _ Ha] _]. by apply (Ha "ada").
Defined.

(** *** The grace of a revoked token *)

(** Revoked a second after it was verified, and used once more after another second. *)
Definition revoked_in_use : VerifyState :=
  verify_start 5000 "cat_ci" (at_time 3000 (with_table (revokeAdminToken 2000 (Some (bootstrap_actor "t1")) "t9" rotated).1
    (verify_settle "cat_ci" (verify_query "cat_ci" (verify_start 5000 "cat_ci" (cold 1000 rotated)))))).

Lemma in_use_reachable : rtc (verify_step 5000) (cold 1000 rotated) revoked_in_use.
Proof.
  unfold revoked_in_use. eapply rtc_l; [apply (vs_start _ _ "cat_ci")|]. eapply rtc_l; [apply (vs_query _ _ "cat_ci")|].
  eapply rtc_l; [apply (vs_settle _ _ "cat_ci")|]. eapply rtc_l; [apply vs_table|]. eapply rtc_l; [apply (vs_time _ _ 3000); vm_compute; discriminate|].
  apply rtc_once, vs_start.
Qed.

Lemma token_grace_witness :
  (fun x => (x.(s_at), (fun a => a.(id)) <$> x.(s_actor))) <$> revoked_in_use.(served) = [(1000, Some "t9"); (3000, Some "t9")]
  /\ (length revoked_in_use.(verified) <= verifyCacheMax)%nat
  /\ ((fun x => x.(s_actor)) <$> (verify_settle "cat_ci" (verify_query "cat_ci" (verify_start 5000 "cat_ci" (at_time 6000 revoked_in_use)))).(served)) !! 2%nat = Some None.
Proof.
  split_and!; [vm_compute; reflexivity| |vm_compute; reflexivity].
  exact (proj1 (token_grace 5000 1000 rotated revoked_in_use ltac:(lia) in_use_reachable)).
Defined.
End AuthWitness.

(** ** Approvals and grants at work *)

Module ApprovalWitness.
Import Approvals.

#[local] Existing Instance AuditWitness.spelled.

Definition hold : Hold :=
  {| zone_id := "z1"; session_id := Some ""; principal_id := Some "agent"; application_id := Some "app"; tier := None; approver_class := any;
     privacy_mode := "identified"; subject_anchor := None; binding := Some "ab"; metadata_json := JObj []; expires_at := 100; satisfied_at := None;
     rejected_at := None; consumed_at := None; approver_subject_id := None; decision_reason := None |}.

Definition ada : Caller := {| req_id := "r1"; account := Some "ada"; actor_id := "t3" |}.

Definition asked : Db := {| holds := {["h1" := hold]}; outbox := []; notified := [] |}.

(** Ada approves; a second decision comes too late; the approval is spent. *)
Definition granted : Db := (decideApproval (Some "key") 10 ada "e1" "t10" "z1" "h1" true JNull ∅ asked).1.
Definition disputed : Db * (Z * json) := decideApproval (Some "key") 20 ada "e2" "t20" "z1" "h1" false JNull granted.(holds) granted.
Definition spent : Db := (sts_consume 30 "z1" "h1" "agent" "ab" true disputed.1).1.

Lemma approval_decided_once_witness : disputed.2.1 = 409 /\ exists h, spent.(holds) !! "h1" = Some h /\ h.(consumed_at) = Some 30 /\ hold_ok (Some "key") (events_about "h1" spent) h.
Proof.
  split; [vm_compute; reflexivity|]. destruct (spent.(holds) !! "h1") as [h|] eqn:Hh; [|by vm_compute in Hh]. exists h. split; [reflexivity|].
  split; [vm_compute in Hh; injection Hh as <-; reflexivity|].
  apply (approval_decided_once (Some "key") 0 30 spent "h1" h); [|exact Hh].
  apply rtc_l with (0, asked); [apply (hs_create _ 0 "h1" hold no_holds); [reflexivity|intros e He; by apply elem_of_nil in He|reflexivity|exact I]|].
  apply rtc_l with (30, asked); [apply hs_time; lia|]. apply rtc_l with (30, granted); [apply hs_decide; lia|].
  apply rtc_l with (30, disputed.1); [apply hs_decide; lia|]. apply rtc_once. apply hs_sts_consume. lia.
Defined.

Import Grants.

Definition grant : Grant :=
  {| g_zone := "z1"; g_body := {| Grants.application_id := "app"; user_id := "eve"; resource_id := "res"; scopes := ["read"] |}; g_status := active_grant;
     created := {| stamp_actor := "ada"; viaOperator := false |}; updated := None |}.

Definition record (who : string) (t : Z) : AuthorityRecord := {| t_zone := "z1"; subject_id := Some who; status := active; created_at := t |}.

Definition before_revocation : GrantsDb :=
  {| zones := ["z1"]; applications := ∅; resources := ∅; grants := {["g1" := grant]};
     records := <["s1" := record "eve" 1]> (<["s2" := record "eve" 2]> {["s3" := record "bob" 3]}); events := [] |}.

(** The second record is held by another transaction, and stays active; a record that
    appears before the first page is revoked with the first. *)
Definition appearing (p : nat) : gmap string (option AuthorityRecord) := match p with O => {["s4" := Some (record "eve" 9)]} | _ => ∅ end.

Definition revocation (commit : option string) : option ((Z * string) * ApiTx.Ending GrantsDb unit) :=
  deleteGrant 4 50 "z1" "g1" "r1" {| stamp_actor := "ada"; viaOperator := false |} appearing (fun _ => ["s2"]) commit before_revocation before_revocation.

Example revocation_pages :
  match revocation None with
  | Some (reply, ApiTx.Commits db _) => reply = (204, "") /\ (Grants.session_id <$> db.(events)) = ["s1"; "s4"] /\ status <$> db.(records) !! "s2" = Some active
      /\ (g_status <$> db.(grants) !! "g1") = Some revoked_grant
  | _ => False
  end.
Proof. vm_compute. auto. Qed.

(** The caller is answered alike when the commit then fails. *)
Example answered_before_commit : revocation (Some "08006") = Some ((204, ""), ApiTx.Fails "08006").
Proof. vm_compute. reflexivity. Qed.
End ApprovalWitness.

(** ** Policies and their activation *)

Module PolicyWitness.
Import Rego.

#[local] Existing Instance AuditWitness.spelled.

Definition document : string := overlay "risk".

Lemma accepted_policy_witness :
  exists source, stripCommentsAndStrings document = (source, false) /\ Balanced source /\ collect_rules source = ["grants"; "risk"] /\ ~ calls "http.send" source.
Proof.
  destruct (accepted_policy_sound document) as (source & Hs & _ & Hb & _ & _ & _ & _ & _ & Hc); [vm_compute; reflexivity|].
  exists source. split_and!; [done|done| |apply Hc; by apply elem_of_cons; left].
  vm_compute in Hs. injection Hs as <-. vm_compute. reflexivity.
Defined.

Import ApiOutbox.

Definition opts : Options := {| workerId := "w1"; batchSize := 2; lockDurationSec := 30; maxAttempts := 2; streamHmacKey := Some "key" |}.

Definition news : EnqueueArgs :=
  {| a_stream := "caracal.sessions.revoke"; a_payload := [("session_id", SStr "s1"); ("reason", SNull); ("zone_id", SStr "z1")]; a_request := None; a_available := None |}.

(** One event; the reply to its entry is lost, the retry is answered, the other dispatcher idles. *)
Definition queue : list OutboxRow := enqueueOutbox 0 "e1" news [].
Definition queued : World := {| shared := {| table := queue; sent := [] |}; workers := [Idle; Idle]; clock := 0 |}.

Definition turn (i : nat) (t : Z) (o : Outcome) (w : World) : World :=
  match w.(workers) !! i with
  | Some p => let (p', sh) := work opts t [] 0 o p w.(shared) in {| shared := sh; workers := <[i := p']> w.(workers); clock := t |}
  | None => w
  end.

Definition later (t : Z) (w : World) : World := {| shared := w.(shared); workers := w.(workers); clock := t |}.

Definition claimed : World := turn 0 0 Done queued.
Definition unsure : World := turn 0 0 (Lost "timeout") claimed.
Definition put_back : World := turn 0 0 Done unsure.
Definition reclaimed : World := turn 1 10000000 Done (later 10000000 put_back).
Definition resent : World := turn 1 10000000 Done reclaimed.
Definition settled : World := turn 1 10000000 Done resent.

Lemma outbox_loses_nothing_witness :
  length settled.(shared).(sent) = 2%nat /\ dispatched_at <$> settled.(shared).(table) = [Some 10000000]
  /\ forall e, e ∈ settled.(shared).(sent) -> verifies "key" e.(e_stream) e.(e_fields).
Proof.
  split_and!; [vm_compute; reflexivity|vm_compute; reflexivity|]. intros e He.
  refine (proj2 (proj2 (proj2 (outbox_loses_nothing opts 2 0 settled _)) e He) "key" eq_refl). unfold reachable.
  apply rtc_l with queued; [apply (s_enqueue opts (idle_world 2 0) "e1" news); cbn; by intros H%elem_of_nil|].
  assert (Hturn : forall i o w p, w.(workers) !! i = Some p -> (forall c e todo, p = Caught c e todo -> jitter_ok c.(c_attempts) 0) ->
            step opts w (turn i w.(clock) o w)).
  { intros i o w p Hp Hj. unfold turn. rewrite Hp. destruct (work opts w.(clock) [] 0 o p w.(shared)) as [p' sh] eqn:E. by eapply s_work. }
  apply rtc_l with claimed; [by apply (Hturn 0%nat Done queued Idle)|].
  apply rtc_l with unsure; [by eapply (Hturn 0%nat (Lost "timeout") claimed)|].
  apply rtc_l with put_back; [eapply (Hturn 0%nat Done unsure); [reflexivity|intros c e1 todo Hc; injection Hc as <- _ _; split; vm_compute; discriminate]|].
  apply rtc_l with (later 10000000 put_back); [apply s_time; vm_compute; discriminate|].
  apply rtc_l with reclaimed; [by eapply (Hturn 1%nat Done (later 10000000 put_back))|].
  apply rtc_l with resent; [by eapply (Hturn 1%nat Done reclaimed)|].
  apply rtc_once. by eapply (Hturn 1%nat Done resent).
Defined.

Import PolicySets.

Definition admin : ApiAuth.Actor :=
  {| ApiAuth.id := "t1"; ApiAuth.name := "console"; ApiAuth.scope := ApiAuth.Global; ApiAuth.capability := ApiAuth.write; ApiAuth.zoneId := None; ApiAuth.createdBy := "ada" |}.

Definition ada : Attribution := {| Grants.stamp_actor := "ada"; Grants.viaOperator := false |}.

(** Two sets of a zone; the second is activated after the first, then the first again, the
    runtime being out of reach. *)
Definition d0 : Db := {| zones := ["z1"]; policies := ∅; policy_versions := ∅; policy_sets := ∅; set_versions := ∅; bindings := ∅; event_outbox := [] |}.
Definition d1 : Db := (createPolicy "z1" "p1" "pv1" (JObj [("name", JStr "base"); ("content", JStr document)]) admin ada d0 d0).1.
Definition d2 : Db := (createPolicySet "z1" "a" (JObj [("name", JStr "A")]) ada d1 d1).1.
Definition d3 : Db := (createPolicySet "z1" "b" (JObj [("name", JStr "B")]) ada d1 d2).1.
Definition listing : json := JObj [("manifest", JArr [JObj [("policy_version_id", JStr "pv1")]])].
Definition runtime : Runtime := fun _ => Answer true 200 (JObj []).
Definition offline : Runtime := fun _ => Unreachable "refused".
Definition d4 : Db := (createSetVersion "z1" "a" "a1" listing ada runtime d3 d3 d3).1.
Definition d5 : Db := (createSetVersion "z1" "b" "b1" listing ada runtime d3 d4 d4).1.
Definition d6 : Db := (activate 10 "z1" "a" (JObj [("version_id", JStr "a1")]) "o1" "r1" ada runtime d5 d5 d5).1.
Definition d7 : Db := (activate 20 "z1" "b" (JObj [("version_id", JStr "b1")]) "o2" "r2" ada runtime d5 d5 d6).1.
Definition d8 : Db := (activate 30 "z1" "a" (JObj [("version_id", JStr "a1")]) "o3" "r3" ada offline d5 d6 d7).1.

(** One more operation, by its route. *)
Section next.
Context (db : Db) (past : list Db) (Hh : history (db :: past)).

Lemma next_policy zone i v body actor stamp read :
  read ∈ db :: past -> db.(policies) !! i = None -> db.(policy_versions) !! v = None -> history ((createPolicy zone i v body actor stamp read db).1 :: db :: past).
Proof. intros. apply h_op; [done|]. eapply o_policy; [done..|apply surjective_pairing]. Qed.

Lemma next_set zone i body stamp read :
  read ∈ db :: past -> db.(policy_sets) !! i = None -> history ((createPolicySet zone i body stamp read db).1 :: db :: past).
Proof. intros. apply h_op; [done|]. eapply o_set; [done..|apply surjective_pairing]. Qed.

Lemma next_set_version zone s v body stamp sts read1 read2 :
  read1 ∈ db :: past -> read2 ∈ db :: past -> db.(set_versions) !! v = None -> history ((createSetVersion zone s v body stamp sts read1 read2 db).1 :: db :: past).
Proof. intros H1 H2 H3. apply h_op; [done|]. eapply o_set_version; [exact H1|exact H2|done|apply surjective_pairing]. Qed.

Lemma next_activate t zone s body o r stamp sts read1 read2 :
  read1 ∈ db :: past -> read2 ∈ db :: past -> history ((activate t zone s body o r stamp sts read1 read2 db).1 :: db :: past).
Proof. intros H1 H2. apply h_op; [done|]. eapply o_activate; [exact H1|exact H2|apply surjective_pairing]. Qed.
End next.

Ltac listed := repeat constructor.

Lemma played : history [d8; d7; d6; d5; d4; d3; d2; d1; d0].
Proof.
  unfold d8. apply next_activate; [|listed..]. unfold d7 at 1. apply next_activate; [|listed..]. unfold d6 at 1. apply next_activate; [|listed..].
  unfold d5 at 1. apply next_set_version; [|listed|listed|vm_compute; reflexivity].
  unfold d4 at 1. apply next_set_version; [|listed|listed|vm_compute; reflexivity].
  unfold d3 at 1. apply next_set; [|listed|vm_compute; reflexivity]. unfold d2 at 1. apply next_set; [|listed|vm_compute; reflexivity].
  unfold d1 at 1. apply next_policy; [|listed|vm_compute; reflexivity..]. apply h_start.
Qed.

Lemma zone_governance_witness :
  active d8 "z1" "a" "a1" /\ d8.(bindings) !! ("z1", "b") = Some None
  /\ exists sv, d8.(set_versions) !! "a1" = Some sv /\ collectManifestIds sv.(manifest) = ["pv1"] /\ NoDup (collectManifestIds sv.(manifest)).
Proof.
  split; [vm_compute; reflexivity|]. split; [vm_compute; reflexivity|].
  destruct (zone_governance d8 [d7; d6; d5; d4; d3; d2; d1; d0] "z1" "a" "a1" played) as (_ & _ & sv & Hsv & _ & _ & _ & _ & Hn & _); [vm_compute; reflexivity|].
  exists sv. split; [exact Hsv|]. split; [|exact Hn]. vm_compute in Hsv. injection Hsv as <-. vm_compute. reflexivity.
Defined.

Lemma governance_announced_witness : last_announced "z1" d7.(event_outbox) = Some "b1" /\ exists s, active d8 "z1" s "a1".
Proof.
  split; [vm_compute; reflexivity|]. apply (governance_announced d8 [d7; d6; d5; d4; d3; d2; d1; d0] "z1" played "a1"). vm_compute. reflexivity.
Defined.
End PolicyWitness.

(** ** The SDK client *)

Module SdkWitness.
Import SdkClient SdkSessions.
Local Open Scope list_scope.

(** A request to a bound upstream, sent through the gateway by an application transport. *)
Lemma bearer_stays_on_gateway_witness :
  exists out,
    @GatewayTransport.application_request GatewayTransport.four_urls GatewayTransport.bound_config "t" "s" "resource://r" "https://up.example/api/items" "session" "delegation"
      (GatewayTransport.Value "mandate") [] = GatewayTransport.Value out
    /\ out.(GatewayTransport.url) = "https://gw.example/tenant/items"
    /\ (ordered_get Envelope.HeaderAuthorization out.(GatewayTransport.headers) = None
        \/ (out.(GatewayTransport.manual) = true
            /\ exists gw, Envelope.or_undefined GatewayTransport.bound_config.(GatewayTransport.gatewayUrl) = Some gw
                 /\ @GatewayTransport.on_gateway GatewayTransport.four_urls gw "https://up.example/api/items" out.(GatewayTransport.url))).
Proof.
  eexists. split; [vm_compute; reflexivity|]. split; [reflexivity|].
  apply (@GatewayTransport.bearer_stays_on_gateway GatewayTransport.four_urls (fun _ => None) GatewayTransport.bound_config None
    {| GatewayTransport.asApplication := false; GatewayTransport.scopes := []; GatewayTransport.approvalId := None; GatewayTransport.gateway_only := false |}
    "t" "s" false "https://up.example/api/items" []).
  - intros u Hu. vm_compute in Hu. injection Hu as <-. split; [split; [reflexivity|by left]|].
    intros b prefix Hb Hp _. apply list_elem_of_singleton in Hb as ->. vm_compute in Hp. injection Hp as <-. right; right. reflexivity.
  - right. exists "resource://r", "session", "delegation", (GatewayTransport.Value "mandate"). vm_compute. reflexivity.
Defined.

(** A client that provisioned an authority, served it, and was closed while another one was being
    provisioned. *)
Definition wanted (resource : string) : AppAuthorities.Wanted :=
  {| AppAuthorities.w_zone := "z"; AppAuthorities.w_application := "app"; AppAuthorities.w_generation := "g"; AppAuthorities.w_resource := resource;
     AppAuthorities.w_scopes := ["read"]; AppAuthorities.w_labels := []; AppAuthorities.w_mandateTtl := 900 |}.

Definition job (resource : string) : AppAuthorities.Job :=
  {| AppAuthorities.j_key := AppAuthorities.key_of (wanted resource); AppAuthorities.j_generation := 0; AppAuthorities.j_wanted := wanted resource;
     AppAuthorities.j_stored := false |}.

Definition c1 : AppAuthorities.Client := AppAuthorities.begin_cycle 0 (wanted "a") AppAuthorities.fresh_client.
Definition c2 : AppAuthorities.Client := AppAuthorities.provisioned 1000 (job "a") "s1" "s2" "d" true c1.
Definition c3 : AppAuthorities.Client := AppAuthorities.begin_cycle 2000 (wanted "b") c2.
Definition c4 : AppAuthorities.Client := AppAuthorities.close true c3.
Definition c5 : AppAuthorities.Client := AppAuthorities.provisioned 3000 (job "b") "s3" "s4" "e" true c4.

Lemma wanted_plain r : OAuthFacts.sep_free r -> AppAuthorities.unambiguous (wanted r).
Proof. intros Hr. by repeat constructor. Qed.

Lemma c2_reached : AppAuthorities.reachable AppAuthorities.unambiguous c2.
Proof.
  apply (rtc_l _ _ c1); [apply AppAuthorities.c_begin; [reflexivity|by apply wanted_plain]|]. apply rtc_once, AppAuthorities.c_provisioned; [|reflexivity]. left.
Qed.

Lemma c5_reached : AppAuthorities.reachable AppAuthorities.unambiguous c5.
Proof.
  apply (rtc_trans _ c2); [exact c2_reached|]. apply (rtc_l _ _ c3); [apply AppAuthorities.c_begin; [vm_compute; reflexivity|by apply wanted_plain]|].
  apply (rtc_l _ _ c4); [apply AppAuthorities.c_close|]. apply rtc_once, AppAuthorities.c_provisioned; [|reflexivity]. right. left.
Qed.


(** A handle whose timer fired and whose beat was then answered that the Session is gone. *)
Definition gone : CoordinatorCalls.exn := CoordinatorCalls.CoordinatorError AdminClient.POST "/zones/z/agents/s/heartbeat" 409 (Some "session_lease_fenced") None.
Definition h1 : LeaseHandle.Handle := LeaseHandle.fire (LeaseHandle.new_handle LeaseHandle.auto None 1).
Definition h2 : LeaseHandle.Handle := LeaseHandle.run_ends (LeaseHandle.beat_result true (inl gone) (inl gone)) false h1.

Lemma lease_renewed_witness :
  h1.(LeaseHandle.beating) = true /\ h2.(LeaseHandle.lost) = 1%nat /\ h2.(LeaseHandle.timer) && h2.(LeaseHandle.beating) = false
  /\ (length h2.(LeaseHandle.terminations) <= 1)%nat.
Proof.
  split; [vm_compute; reflexivity|]. split; [vm_compute; reflexivity|].
  assert (rtc (LeaseHandle.step true true) (LeaseHandle.new_handle LeaseHandle.auto None 1) h2) as Hr.
  { apply (rtc_l _ _ h1); [apply LeaseHandle.l_fire; reflexivity|]. apply rtc_once, LeaseHandle.l_run. reflexivity. }
  destruct (LeaseHandle.lease_renewed LeaseHandle.auto true true None 1 h2 Hr) as (H1 & _ & _ & _ & _ & H6). split; [exact H1|exact H6].
Defined.
End SdkWitness.
